(* ===== verification/_CoqProject ===== *)
-Q . S2P
Prelude.v
Mem.v
IntSet.v
NumStr.v
Glob.v
Lzf.v
Dict.v
DictScan.v
DictIter.v
Listpack.v
ListpackEnc.v
ListpackNav.v
ListpackEdit.v
ListpackApi.v
PyFloat.v
FloatError.v
HdrHistogram.v
Cpuset.v
PowerCap.v
PowerCapFacts.v
PowerCapProgress.v
Rumd.v
Score.v
Skiplist.v
SkiplistUpdate.v
Zset.v
ZsetSpec.v
ZsetSkip.v
ZsetList.v
ZsetConvert.v
ZsetRefine.v
ZsetTheorems.v
ZsetRange.v
ZsetRangeSpec.v
ZsetRangeRefine.v
ZsetRemove.v
ZsetCommand.v
ZsetCommandSpec.v
ZsetCommandRefine.v
ZsetCommandRange.v
ZsetCommandTheorems.v
SetType.v
SetRefine.v
SetOps.v
SetLookup.v
SetCommand.v
SetCommandSpec.v
SetCombine.v
SetUnion.v
SetTheorems.v
Bitops.v
BitString.v
BitSearch.v
BitField.v
BitopsCommand.v
BitopsSpec.v
BitopsRefine.v
BitopsField.v
BitopsRange.v
BitopsOp.v
BitopsTheorems.v
Scaph.v
ScaphBuffer.v
ScaphTracker.v
ScaphRounds.v
ScaphPowercap.v
ScaphConsumers.v
ScaphTheorems.v
