(* ===== verification/Prelude.v ===== *)
(** * Verification of the power controllers and containers of PIP

    PIP caps the power of a server: a controller under src/control reads the
    power of the machine, and limits the processor bandwidth of two cgroups so
    that a budget is kept.  The repository also has the programs whose load is
    capped and measured, among them the wrk2 load generator and the Redis
    server, and an agent that attributes power to processes.  This library models
    the controllers, the sensors of the agent, wrk2's latency histogram and the
    containers of Redis up to the sets, sorted sets and bit strings with their
    commands, and proves them correct.

    ** The parts and their files

    Paths are below src/; [redis] is short for
    benchmark-suites/redis/redis-7.2.3/src.

    Shared:
    - [Prelude] has the outcomes of C code, machine integers, arrays, sums and
      order statistics; [Mem] has byte blocks with the loads, stores and moves of
      C; [PyFloat] has binary64 numbers, for the Python programs and for the
      doubles of C, and [FloatError] bounds their rounding errors.

    Control:
    - [Cpuset] is [read_cpuset], which reads the processors of a cgroup.
    - [PowerCap] is control/powercap_CPU_powertrace-final.py: the globals are the
      record [pstate], a function of the program is a computation [ctl] that
      passes this state and may raise, [iteration] is one round of the loop of
      [run_stress_test].  The model of the power, the kernel and the readings are
      a [world], an argument.  [PowerCapFacts] has the invariants,
      [PowerCapProgress] what repeated rounds achieve.
    - [Rumd] is control/powercap_CPU_google-ALL-v1.2.py, with the rules of
      powercap_CPU_MS.py and powercap_CPU_oracle.py: the controllers the first one
      is compared with.

    Measurement:
    - [HdrHistogram] is benchmark-suites/DeathStarBench/wrk2/src/hdr_histogram.c.
    - [Scaph] is the sensors of attribution/scaphandre, in Rust: mod.rs with the
      host, its sockets and domains, utils.rs with the processes and their tracker,
      and how powercap_rapl.rs reads counters; [refresh] is one round.  [ScaphPowercap] is
      the search for sockets and domains, [ScaphConsumers] the lists of consumers.
      [ScaphBuffer] is about the buffers, [ScaphTracker] about the tracker;
      [ScaphRounds] has the specification, an agent that forgets nothing, and
      [ScaphTheorems] what follows.

    Containers of Redis, from the bytes up:
    - [NumStr] and [Glob] are the number conversions and the glob matcher of
      [redis]/util.c; [Lzf] is the compressor of lzf_c.c and lzf_d.c; [IntSet] is
      intset.c.
    - [Listpack] is listpack.c on bytes; [ListpackEnc], [ListpackNav],
      [ListpackEdit] and [ListpackApi] prove its entries, its navigation, its
      updates and its use.
    - [Dict] is the hash table of dict.c with its incremental rehashing, and
      [DictScan] its stateless iteration; [DictIter] has its iterators.
    - [Score] has the order of the doubles that are scores, and the scores that
      differ at most in the sign of a zero ([same_score]).
    - [Skiplist] is the skip list of t_zset.c on a heap of nodes that have a double
      each, with its queries; [SkiplistUpdate] proves its updates.
    - [Zset] is the sorted sets of t_zset.c, which are a listpack or a dictionary
      together with a skip list.  [ZsetSpec] is the specification,
      [ZsetSkip], [ZsetList] and [ZsetConvert] are about the encodings and the
      change from one to the other, [ZsetRefine] and [ZsetTheorems] about the
      objects.
    - [ZsetRange] has the ranges of sorted sets by rank, score and element, with
      [ZsetRangeSpec] on their ends, [ZsetRangeRefine] on listing and counting and
      [ZsetRemove] on deletion.
    - [ZsetCommand] has the commands on sorted sets, from arguments to replies, on
      a keyspace; [ZsetCommandSpec] is their specification, [ZsetCommandRefine] and
      [ZsetCommandRange] prove it command by command, [ZsetCommandTheorems]
      through histories.
    - [SetType] has the sets of t_set.c, which are an intset, a listpack or a
      dictionary; [SetRefine] has what they represent and their iterators,
      [SetOps] and [SetLookup] prove the operations.  [SetCommand] has the
      commands, [SetCommandSpec] their specification and the commands on single
      sets, [SetCombine] intersections, [SetUnion] unions and differences, and
      [SetTheorems] the histories.
    - [Bitops] has the loops of bitops.c over the words of a string and its bit
      fields, with [BitString] on counting, [BitSearch] on searching and [BitField]
      on numbers in a string.  [BitopsCommand] has the commands on bits and
      [BitopsSpec] their specification; [BitopsRefine] proves SETBIT and GETBIT,
      [BitopsField] BITFIELD, [BitopsRange] BITCOUNT and BITPOS, [BitopsOp] BITOP, and
      [BitopsTheorems] the histories.

    The components meet where the programs compose them: sets and sorted
    sets call the operations of their containers and are proved from the theorems
    of these; the
    listpack decides with [NumStr] which strings it stores as integers; the
    controllers use [Cpuset]; the rounds of the agent start from the topology that
    was found.  Operations keep their names.  A C function that writes through
    pointers returns what it writes; a failed assertion, an undefined operation and
    a panic are [Abort].

    ** What the theorems show

    - Controllers: throttles stay percentages through exceptions and refused
      limits; the critical group is limited only when the user group has the
      least; capping never raises a limit; a number of rounds that does not depend
      on the model suffices to reach the lowest throttles above the budget and the
      highest below it.  For the rounds both functions that count the cores of a
      group have to find the same number, at least one ([world_ok]); where they do
      not, the readback divides by another number.  The baseline keeps its range and priority under rounding.
      Where the program loses a limit this is a theorem as well.
    - Attribution: from any topology that is found no round panics, if the processes
      have paths in UTF-8 and ids of 32 bits; every buffer is a
      window of the complete history, which takes a little more than its limit, and
      the powers reported of host, sockets, domains and processes are those of the
      complete history; the tracker is a map of processes, with one vector for each.
    - Commands on sorted sets: through every history of commands the server answers
      and its replies are those of finite maps ordered by score, whatever the
      encodings, the hash function and the random levels, up to the sign of a score
      that is zero: a listpack forgets it and a skip list keeps it, and an example
      shows the difference.  No empty set stays.
    - Commands on sets: through every history the replies and the keyspace are
      those of finite sets, in every encoding and for every order of [qsort]; the
      objects stay within the limits of their encodings; both algorithms of SDIFF
      compute the same set.
    - Commands on bits: through every history the replies and the strings are those
      of sequences of bits, wherever the strings are in memory; counting and
      searching by words, the masks at the ends of a range and the fast path of
      BITOP are invisible.  A saturating SET of a signed field is specified as the
      program does it, with the cases in which it stores the wrong end of the range
      spelt out; a theorem shows one.
    - Sorted sets: additions with all flags, deletions, copies and conversions
      refine the operations of the map.
    - Histogram: recording and merging refine lists of values, percentiles are
      order statistics of a rank less than one away from the exact one, up to the
      requested precision, and all loops end.
    - Containers: refinement to lists, sets, sorted lists and finite maps on every
      branch; a complete iteration of the hash table across resizing; a read after a
      write; the glob matcher is equivalent to its declarative meaning.
    - Untrusted input: decompression and the validations of a listpack and an intset
      stay inside the allocation on arbitrary bytes, and what they accept is
      well-formed.

    ** Bounds and fuel

    A loop that is not structural has fuel and the outcome [Diverge].  The theorems
    state that the result is [Ret], so that the fuel is enough: the bytes of a
    listpack bound its entries, the length of a skip list its nodes, the buckets of a
    table a rehashing, and 64 doublings the sizes of tables and histograms.  Sizes
    are bounded where a machine word has to hold them (fewer than 2^60 elements of a
    sorted set, 2^32 for deletion by rank, limits of a listpack configuration up to
    2^20, strings below 2^32 bytes; fewer than 2^31 elements of all sets together,
    and 2^29 as the largest limit of an intset, which its sizes of 32 bits need; a
    limit of bulk strings from the smallest that the configuration admits, 2^20, up
    to 2^60 for the commands on bits, sent by a client that this limit binds;
    limits of the agent's buffers from 1 to 65 kilobytes, counters below 2^80).  Doubles round, in the
    histogram as everywhere else.

    Parameters stand for what is outside: the power model, the kernel and the
    clock; hash functions; allocators, their usable sizes ([Heap], [Usable],
    [NodeAlloc]) and uninitialised memory; random levels; the notation of doubles
    ([Decimal]: the bundled fpconv and [strtod] of the C library; [Strtod]: its end
    pointer and range errors); the logarithm of the C library ([Log]); [qsort], of which only that it reorders is used
    ([Qsort]); the addresses of strings; files, clock, kernel statistics and processes of the
    agent ([World], numbered by readings), whether it was compiled with checks for
    overflow ([Build]), regular expressions ([Regex]) and [Sysinfo].  Each class has
    an instance.

    ** Not modelled

    - Reading power and performance counters, the training of the models and their
      evaluation, the estimation of power, scripts and plots: input and output
      around third-party programs.
    - Of the agent, the labels of containers, disk and memory metrics, its exporters
      and the sensor of Windows, which pass on what libraries return.
    - The Redis server: network, persistence, replication, scripting, expiry, the
      commands on other types, and the remaining containers (quicklist, rax,
      streams, ziplist).  Of the sorted sets, unions, intersections, random members
      and blocking commands; of the sets, random members and SSCAN.
    - The event loop, parser and scripts of wrk2, the microservices, filebench and
      the bundled dependencies.
    - Ownership of strings, reference counts, memory that runs out, and threads.

    This file has the vocabulary the others share. *)
From stdpp Require Export base tactics numbers list list_numbers sorting.
From Stdlib Require Export ZArith Lia.
From Stdlib Require Ascii String.

Local Open Scope Z_scope.

(** The characters of a string literal. *)
Definition lit (s : String.string) : list Z := map (fun c => Z.of_nat (Ascii.nat_of_ascii c)) (String.list_ascii_of_string s).

(** ** Outcomes of C code

    [Ret a] is a normal return, [Abort] a failed [assert] or an operation
    that C leaves undefined (an out-of-range access, an over-wide shift),
    [Diverge] a loop that used up the fuel it was given. *)

Inductive res (A : Type) : Type :=
| Ret (a : A)
| Abort
| Diverge.
Arguments Ret {A} a.
Arguments Abort {A}.
Arguments Diverge {A}.

#[export] Instance res_ret : MRet res := fun A a => Ret a.
#[export] Instance res_bind : MBind res := fun A B f m =>
  match m with Ret a => f a | Abort => Abort | Diverge => Diverge end.
#[export] Instance res_fmap : FMap res := fun A B f m =>
  match m with Ret a => Ret (f a) | Abort => Abort | Diverge => Diverge end.

Definition assert (b : bool) : res unit := if b then Ret tt else Abort.
Definition of_option {A} (o : option A) : res A :=
  match o with Some a => Ret a | None => Abort end.

Lemma bind_Ret {A B} (m : res A) (f : A -> res B) b :
  (m ≫= f) = Ret b <-> exists a, m = Ret a /\ f a = Ret b.
Proof. destruct m; cbn; (split; [|intros (?&?&?)]); try done; eauto; congruence. Qed.

Lemma assert_Ret b : assert b = Ret tt <-> b = true.
Proof. by destruct b. Qed.

(** ** Machine integers: [u w] and [s w] reduce to [w] bits *)

Definition uwrap (w x : Z) : Z := x mod 2 ^ w.
Definition swrap (w x : Z) : Z := (x + 2 ^ (w - 1)) mod 2 ^ w - 2 ^ (w - 1).

Abbreviation u8 := (uwrap 8).
Abbreviation u16 := (uwrap 16).
Abbreviation u32 := (uwrap 32).
Abbreviation u64 := (uwrap 64).
Abbreviation s8 := (swrap 8).
Abbreviation s16 := (swrap 16).
Abbreviation s32 := (swrap 32).
Abbreviation s64 := (swrap 64).

Lemma uwrap_id w x : 0 <= x < 2 ^ w -> uwrap w x = x.
Proof. apply Z.mod_small. Qed.

Lemma uwrap_range w x : 0 <= w -> 0 <= uwrap w x < 2 ^ w.
Proof. intros. apply Z.mod_pos_bound. lia. Qed.

Lemma swrap_id w x : 0 < w -> - 2 ^ (w - 1) <= x < 2 ^ (w - 1) -> swrap w x = x.
Proof.
  intros Hw Hx. unfold swrap.
  assert (2 ^ w = 2 * 2 ^ (w - 1)) by (rewrite <- Z.pow_succ_r by lia; f_equal; lia).
  rewrite Z.mod_small by lia. lia.
Qed.

Lemma swrap_range w x : 0 < w -> - 2 ^ (w - 1) <= swrap w x < 2 ^ (w - 1).
Proof.
  intros Hw. unfold swrap.
  assert (2 ^ w = 2 * 2 ^ (w - 1)) by (rewrite <- Z.pow_succ_r by lia; f_equal; lia).
  pose proof (Z.mod_pos_bound (x + 2 ^ (w - 1)) (2 ^ w)). lia.
Qed.

Ltac wrap_id :=
  repeat match goal with
  | |- context [swrap ?w ?x] => rewrite (swrap_id w x) by (cbn; lia)
  | |- context [uwrap ?w ?x] => rewrite (uwrap_id w x) by (cbn; lia)
  end.

(** ** Bit fields *)

Lemma lor_shiftl_add x y n : 0 <= n -> 0 <= y < 2 ^ n -> Z.lor (Z.shiftl x n) y = x * 2 ^ n + y.
Proof.
  intros Hn Hy. rewrite <- Z.shiftl_mul_pow2 by lia. rewrite <- Z.add_lor_land.
  assert (Z.land (Z.shiftl x n) y = 0) as ->; [|lia].
  apply Z.bits_inj'. intros i Hi. rewrite Z.land_spec, Z.bits_0, Z.shiftl_spec by lia.
  destruct (decide (i < n)).
  - by rewrite Z.testbit_neg_r by lia.
  - rewrite <- (Z.mod_small y (2 ^ n)) by lia. by rewrite Z.mod_pow2_bits_high, andb_false_r by lia.
Qed.

Lemma testbit_high x n i : 0 <= x < 2 ^ n -> n <= i -> Z.testbit x i = false.
Proof.
  intros Hx Hi. destruct (decide (0 <= n)); [|rewrite Z.pow_neg_r in Hx; lia].
  rewrite <- (Z.mod_small x (2 ^ n)) by lia. apply Z.mod_pow2_bits_high. lia.
Qed.

Lemma bits_range x n : 0 <= n -> (forall i, n <= i -> Z.testbit x i = false) -> 0 <= x < 2 ^ n.
Proof.
  intros Hn H. assert (E : x mod 2 ^ n = x).
  { apply Z.bits_inj'. intros i Hi. destruct (decide (i < n)).
    - by rewrite Z.mod_pow2_bits_low by lia.
    - rewrite Z.mod_pow2_bits_high by lia. symmetry. apply H. lia. }
  rewrite <- E. apply Z.mod_pos_bound. lia.
Qed.

(** Numbers below [2^n] are equal when their first [n] bits are. *)
Lemma bits_eq n x y : 0 <= x < 2 ^ n -> 0 <= y < 2 ^ n ->
  (forall i, 0 <= i < n -> Z.testbit x i = Z.testbit y i) -> x = y.
Proof.
  intros Hx Hy H. apply Z.bits_inj'. intros i Hi. destruct (decide (i < n)); [apply H; lia|].
  by rewrite !(testbit_high _ n) by lia.
Qed.

(** ** Arrays indexed by C integers *)

(** [aget l i] is [l[i]]: an access outside the block is undefined. *)
Definition aget {A} (l : list A) (i : Z) : res A :=
  if 0 <=? i then of_option (l !! Z.to_nat i) else Abort.

Definition aset {A} (l : list A) (i : Z) (x : A) : res (list A) :=
  if (0 <=? i) && (i <? Z.of_nat (length l)) then Ret (<[Z.to_nat i := x]> l)
  else Abort.

Lemma aget_in {A} (l : list A) (i : nat) x :
  l !! i = Some x -> aget l (Z.of_nat i) = Ret x.
Proof.
  intros H. unfold aget.
  destruct (Z.leb_spec 0 (Z.of_nat i)); [|lia]. by rewrite Nat2Z.id, H.
Qed.

Lemma aset_in {A} (l : list A) (i : nat) x :
  (i < length l)%nat -> aset l (Z.of_nat i) x = Ret (<[i := x]> l).
Proof.
  intros H. unfold aset.
  destruct (Z.leb_spec 0 (Z.of_nat i)); [|lia].
  destruct (Z.ltb_spec (Z.of_nat i) (Z.of_nat (length l))); [|lia].
  cbn. by rewrite Nat2Z.id.
Qed.

Lemma aget_Z {A} (l : list A) i x : 0 <= i -> l !! Z.to_nat i = Some x -> aget l i = Ret x.
Proof. intros H Hx. rewrite <- (Z2Nat.id i) by done. by apply aget_in. Qed.

Lemma aset_Z {A} (m : list A) i x :
  0 <= i < Z.of_nat (length m) -> aset m i x = Ret (<[Z.to_nat i := x]> m).
Proof. intros H. rewrite <- (Z2Nat.id i) at 1 by lia. apply aset_in. lia. Qed.

(** ** Sums of integer lists *)

Fixpoint sumZ (l : list Z) : Z :=
  match l with [] => 0 | x :: l => x + sumZ l end.

Lemma sumZ_app l1 l2 : sumZ (l1 ++ l2) = sumZ l1 + sumZ l2.
Proof. induction l1; cbn; lia. Qed.

Lemma sumZ_replicate n x : sumZ (replicate n x) = Z.of_nat n * x.
Proof. induction n; cbn [replicate sumZ]; lia. Qed.

Lemma sumZ_insert l i x y :
  l !! i = Some y -> sumZ (<[i := x]> l) = sumZ l - y + x.
Proof.
  revert i; induction l as [|z l IH]; intros [|i] H; simpl in *; simplify_eq; [lia|].
  rewrite (IH _ H). lia.
Qed.

Lemma sumZ_take_S l i x :
  l !! i = Some x -> sumZ (take (S i) l) = sumZ (take i l) + x.
Proof. intros H. rewrite (take_S_r _ _ _ H), sumZ_app. cbn. lia. Qed.

Lemma sumZ_nonneg l : Forall (fun x => 0 <= x) l -> 0 <= sumZ l.
Proof. induction 1; cbn; lia. Qed.

Lemma sumZ_take_le l i j :
  Forall (fun x => 0 <= x) l -> (i <= j)%nat -> sumZ (take i l) <= sumZ (take j l).
Proof.
  intros Hl Hij. rewrite <- (take_drop i (take j l)), sumZ_app.
  rewrite take_take, Nat.min_l by lia.
  assert (0 <= sumZ (drop i (take j l))); [|lia].
  apply sumZ_nonneg, Forall_drop, Forall_take, Hl.
Qed.

Lemma sumZ_take_all l i : (length l <= i)%nat -> sumZ (take i l) = sumZ l.
Proof. intros. by rewrite take_ge. Qed.

(** ** Counting and order statistics *)

Definition count_if (P : Z -> Prop) `{forall x, Decision (P x)} (l : list Z) : Z :=
  Z.of_nat (length (filter P l)).

Lemma filter_all_out {A} (P : A -> Prop) `{forall x, Decision (P x)} (l : list A) :
  (forall x, x ∈ l -> ~ P x) -> filter P l = [].
Proof.
  induction l as [|x l IH]; intros Hl; [done|]. rewrite filter_cons.
  rewrite decide_False by (apply Hl; left). apply IH. intros y Hy. apply Hl. by right.
Qed.

Lemma filter_all_in {A} (P : A -> Prop) `{forall x, Decision (P x)} (l : list A) :
  (forall x, x ∈ l -> P x) -> filter P l = l.
Proof.
  induction l as [|x l IH]; intros Hl; [done|]. rewrite filter_cons.
  rewrite decide_True by (apply Hl; left). f_equal. apply IH. intros y Hy. apply Hl. by right.
Qed.

Lemma count_if_perm (P : Z -> Prop) `{forall x, Decision (P x)} (l1 l2 : list Z) :
  l1 ≡ₚ l2 -> count_if P l1 = count_if P l2.
Proof. intros Hp. unfold count_if. by rewrite Hp. Qed.

Lemma count_if_mono (P Q : Z -> Prop) `{forall x, Decision (P x)} `{forall x, Decision (Q x)} (l : list Z) :
  (forall x, x ∈ l -> P x -> Q x) -> count_if P l <= count_if Q l.
Proof.
  unfold count_if. induction l as [|x l IH]; intros Hl; [done|]. rewrite !filter_cons.
  assert (P x -> Q x) by (apply Hl; left).
  assert (forall y, y ∈ l -> P y -> Q y) as Hl' by (intros y Hy; apply Hl; by right).
  specialize (IH Hl'). repeat case_decide; cbn [length]; try lia. tauto.
Qed.

(** The [c]-th smallest element of a list. *)
Definition is_order_statistic (c : Z) (l : list Z) (x : Z) : Prop :=
  x ∈ l /\ count_if (fun y => y < x) l < c <= count_if (fun y => y <= x) l.

Lemma order_statistic_exists c l :
  1 <= c <= Z.of_nat (length l) -> exists x, is_order_statistic c l x.
Proof.
  intros Hc. set (l' := merge_sort Z.le l).
  assert (l' ≡ₚ l) as Hp by apply merge_sort_Permutation.
  assert (StronglySorted Z.le l') as Hs by apply (StronglySorted_merge_sort _).
  pose proof (Permutation_length Hp) as Hlen.
  destruct (lookup_lt_is_Some_2 l' (Z.to_nat (c - 1)) ltac:(lia)) as [x Hx].
  exists x. pose proof (take_drop_middle l' _ x Hx) as Hmid.
  rewrite <- Hmid in Hs. apply StronglySorted_app in Hs as (Hlo&_&Hhi).
  apply StronglySorted_cons in Hhi as [Hhi _]. rewrite Forall_forall in Hhi.
  split; [rewrite <- Hp; eapply list_elem_of_lookup_2, Hx|].
  rewrite <- !(count_if_perm _ _ _ Hp), <- Hmid.
  unfold count_if. rewrite !filter_app, !filter_cons, !length_app.
  rewrite (decide_False (P := x < x)), (decide_True (P := x <= x)) by lia. cbn [length].
  rewrite (filter_all_out (fun y => y < x) (drop _ _)) by (intros y Hy; apply Hhi in Hy; lia).
  rewrite (filter_all_in (fun y => y <= x) (take _ _)) by (intros y Hy; apply Hlo; [done|left]).
  pose proof (length_filter (fun y => y < x) (take (Z.to_nat (c - 1)) l')) as Hf.
  rewrite length_take in *. cbn [length]. lia.
Qed.
