(* ===== verification/Mem.v ===== *)
(** * Byte blocks

    A heap block is the list of its bytes (integers in [0,256)), addressed by
    offsets.  The operations are the C ones the structures use: little-endian
    loads and stores of [n] bytes, [memcpy] from another block, [memmove]
    inside a block and [realloc].  An access that is not inside the block has
    the outcome [Abort].  The host is little-endian, so that the [memrevXXifbe]
    and [intrevXXifbe] conversions are the identity. *)
From S2P Require Import Prelude.

Local Open Scope Z_scope.

(** ** Little-endian integers *)

Fixpoint le_combine (l : list Z) : Z :=
  match l with [] => 0 | b :: l => b + 256 * le_combine l end.

Fixpoint le_split (n : nat) (v : Z) : list Z :=
  match n with O => [] | S n => v mod 256 :: le_split n (v / 256) end.

Definition is_byte (b : Z) : Prop := 0 <= b < 256.
Abbreviation bytes := (Forall is_byte).

Lemma length_le_split n v : length (le_split n v) = n.
Proof. revert v. induction n as [|n IH]; intros v; cbn; [done|]. by rewrite IH. Qed.

Lemma le_split_bytes n v : bytes (le_split n v).
Proof.
  revert v. induction n as [|n IH]; intros v; cbn; constructor; [|apply IH].
  apply Z.mod_pos_bound. lia.
Qed.

Lemma le_combine_range l : bytes l -> 0 <= le_combine l < 256 ^ Z.of_nat (length l).
Proof.
  induction 1 as [|b l Hb _ IH]; [done|]. cbn [le_combine length].
  rewrite Nat2Z.inj_succ, Z.pow_succ_r by lia. unfold is_byte in Hb. lia.
Qed.

Lemma le_combine_split n v : le_combine (le_split n v) = v mod 256 ^ Z.of_nat n.
Proof.
  revert v. induction n as [|n IH]; intros v; cbn [le_split le_combine].
  - by rewrite Z.mod_1_r.
  - rewrite IH, Nat2Z.inj_succ, Z.pow_succ_r by lia.
    rewrite Z.rem_mul_r by lia. done.
Qed.

Lemma le_split_combine l : bytes l -> le_split (length l) (le_combine l) = l.
Proof.
  induction 1 as [|b l Hb _ IH]; [done|]. cbn [length le_split le_combine].
  unfold is_byte in Hb. rewrite (Z.mul_comm 256), Z.mod_add, Z.mod_small by lia.
  rewrite Z.div_add, Z.div_small by lia. by rewrite Z.add_0_l, IH.
Qed.

(** ** Slices *)

Definition sub {A} (off n : nat) (m : list A) : list A := take n (drop off m).

Lemma length_sub {A} off n (m : list A) :
  (off + n <= length m)%nat -> length (sub off n m) = n.
Proof. intros H. unfold sub. rewrite length_take, length_drop. lia. Qed.

Lemma sub_app_l {A} off n (l1 l2 : list A) :
  (off + n <= length l1)%nat -> sub off n (l1 ++ l2) = sub off n l1.
Proof.
  intros H. unfold sub. rewrite drop_app_le by lia.
  apply take_app_le. rewrite length_drop. lia.
Qed.

Lemma sub_app_r {A} off n (l1 l2 : list A) :
  (length l1 <= off)%nat -> sub off n (l1 ++ l2) = sub (off - length l1) n l2.
Proof. intros H. unfold sub. by rewrite drop_app_ge by lia. Qed.

Lemma sub_all {A} n (l : list A) : length l = n -> sub 0 n l = l.
Proof. intros <-. unfold sub. rewrite drop_0. apply firstn_all. Qed.

Lemma sub_take {A} off n k (l : list A) : (off + n <= k)%nat -> sub off n (take k l) = sub off n l.
Proof.
  intros H. unfold sub.
  apply list_eq. intros i. destruct (decide (i < n)%nat).
  - rewrite !lookup_take_lt, !lookup_drop, lookup_take_lt by lia. done.
  - rewrite !lookup_take_ge by lia. done.
Qed.

Lemma sub_drop {A} off n k (l : list A) : sub off n (drop k l) = sub (k + off) n l.
Proof. unfold sub. by rewrite drop_drop. Qed.

Lemma sub_sub {A} off n off' n' (l : list A) :
  (off + n <= n')%nat -> sub off n (sub off' n' l) = sub (off' + off) n l.
Proof. intros H. unfold sub at 2. rewrite sub_take by lia. apply sub_drop. Qed.

Lemma sub_bytes off n m : bytes m -> bytes (sub off n m).
Proof. intros H. by apply Forall_take, Forall_drop. Qed.

(** Overwriting a slice. *)
Definition patch {A} (off : nat) (bs m : list A) : list A :=
  take off m ++ bs ++ drop (off + length bs) m.

Lemma length_patch {A} off (bs m : list A) :
  (off + length bs <= length m)%nat -> length (patch off bs m) = length m.
Proof. intros H. unfold patch. rewrite !length_app, length_take, length_drop. lia. Qed.

Lemma patch_bytes off bs m : bytes bs -> bytes m -> bytes (patch off bs m).
Proof.
  intros Hb Hm. unfold patch. apply Forall_app_2; [by apply Forall_take|].
  apply Forall_app_2; [done|by apply Forall_drop].
Qed.

Lemma sub_patch_in {A} off k n (bs m : list A) :
  (off + length bs <= length m)%nat -> (k + n <= length bs)%nat ->
  sub (off + k) n (patch off bs m) = sub k n bs.
Proof.
  intros H Hk. unfold patch. rewrite sub_app_r by (rewrite length_take; lia).
  rewrite length_take, Nat.min_l by lia. replace (off + k - off)%nat with k by lia.
  by apply sub_app_l.
Qed.

Lemma sub_patch_before {A} off o n (bs m : list A) :
  (off + length bs <= length m)%nat -> (o + n <= off)%nat ->
  sub o n (patch off bs m) = sub o n m.
Proof.
  intros H Ho. unfold patch. rewrite sub_app_l by (rewrite length_take; lia).
  apply sub_take. lia.
Qed.

Lemma sub_patch_after {A} off o n (bs m : list A) :
  (off + length bs <= length m)%nat -> (off + length bs <= o)%nat ->
  sub o n (patch off bs m) = sub o n m.
Proof.
  intros H Ho. unfold patch. rewrite app_assoc, sub_app_r;
    rewrite length_app, length_take, Nat.min_l by lia; [|lia].
  rewrite sub_drop. f_equal. lia.
Qed.

Lemma lookup_patch {A} off (bs m : list A) i :
  (off + length bs <= length m)%nat ->
  patch off bs m !! i = if decide (off <= i < off + length bs)%nat then bs !! (i - off)%nat else m !! i.
Proof.
  intros H. unfold patch. destruct (decide (i < off)%nat).
  { rewrite lookup_app_l by (rewrite length_take; lia). rewrite lookup_take_lt by lia.
    by rewrite decide_False by lia. }
  rewrite lookup_app_r by (rewrite length_take; lia). rewrite length_take, Nat.min_l by lia.
  case_decide.
  - by rewrite lookup_app_l by lia.
  - rewrite lookup_app_r by lia. rewrite lookup_drop. f_equal. lia.
Qed.

Lemma patch_snoc {A} off (bs m : list A) b i :
  i = (off + length bs)%nat -> (i < length m)%nat ->
  patch off bs (<[i := b]> m) = patch off (bs ++ [b]) m.
Proof.
  intros -> H. apply list_eq. intros j. rewrite !lookup_patch by (rewrite ?length_insert, ?length_app; simpl; lia).
  rewrite length_app; simpl.
  destruct (decide (j = (off + length bs)%nat)) as [->|].
  - rewrite decide_False by lia. rewrite decide_True by lia.
    rewrite list_lookup_insert_eq by lia. rewrite lookup_app_r by lia.
    by replace (off + length bs - off - length bs)%nat with 0%nat by lia.
  - rewrite list_lookup_insert_ne by lia. repeat case_decide; try lia; [|done].
    by rewrite lookup_app_l by lia.
Qed.

Lemma patch_cons {A} off (bs m : list A) b :
  (off + length bs < length m)%nat ->
  patch off (b :: bs) m = patch (S off) bs (<[off := b]> m).
Proof.
  intros H. apply list_eq. intros j. rewrite !lookup_patch by (rewrite ?length_insert; simpl; lia). simpl.
  destruct (decide (j = off)) as [->|].
  - rewrite decide_True by lia. rewrite decide_False by lia. rewrite Nat.sub_diag.
    by rewrite list_lookup_insert_eq by lia.
  - rewrite list_lookup_insert_ne by lia. repeat case_decide; try lia; [|done].
    by replace (j - off)%nat with (S (j - S off)) by lia.
Qed.

(** ** Block operations *)

Definition in_block (m : list Z) (off n : Z) : bool :=
  (0 <=? off) && (0 <=? n) && (off + n <=? Z.of_nat (length m)).

Definition load (n off : Z) (m : list Z) : res Z :=
  if in_block m off n then Ret (le_combine (sub (Z.to_nat off) (Z.to_nat n) m)) else Abort.

Definition load_bytes (n off : Z) (m : list Z) : res (list Z) :=
  if in_block m off n then Ret (sub (Z.to_nat off) (Z.to_nat n) m) else Abort.

Definition store_bytes (off : Z) (bs m : list Z) : res (list Z) :=
  if in_block m off (Z.of_nat (length bs)) then Ret (patch (Z.to_nat off) bs m) else Abort.

Definition store (n off v : Z) (m : list Z) : res (list Z) :=
  store_bytes off (le_split (Z.to_nat n) v) m.

Definition memmove (dst src n : Z) (m : list Z) : res (list Z) :=
  bs ← load_bytes n src m;
  store_bytes dst bs m.

(** The bytes of freshly allocated memory: any value. *)
Class Heap := uninit : nat -> Z.

(** The allocator that clears memory, for concrete runs. *)
Definition zero_heap : Heap := fun _ => 0.

Definition realloc `{Heap} (size : Z) (m : list Z) : list Z :=
  take (Z.to_nat size) m ++
  map (fun i => uninit i mod 256) (seq 0 (Z.to_nat size - length m)).

Lemma length_realloc `{Heap} size m : 0 <= size -> Z.of_nat (length (realloc size m)) = size.
Proof.
  intros H0. unfold realloc. rewrite length_app, length_take, length_map, length_seq. lia.
Qed.

Lemma realloc_bytes `{Heap} size m : bytes m -> bytes (realloc size m).
Proof.
  intros Hm. apply Forall_app_2; [by apply Forall_take|].
  apply Forall_map, Forall_forall. intros i _. apply Z.mod_pos_bound. lia.
Qed.

Lemma sub_realloc `{Heap} off n size m :
  (off + n <= length m)%nat -> Z.of_nat (off + n) <= size ->
  sub off n (realloc size m) = sub off n m.
Proof.
  intros Hm Hs. unfold realloc. rewrite sub_app_l by (rewrite length_take; lia).
  apply sub_take. lia.
Qed.

(** Outcomes on in-range natural offsets. *)
Lemma in_block_true m off n :
  in_block m off n = true <-> 0 <= off /\ 0 <= n /\ off + n <= Z.of_nat (length m).
Proof. unfold in_block. rewrite !andb_true_iff, !Z.leb_le. lia. Qed.

Lemma load_Ret n off m :
  (off + n <= length m)%nat ->
  load (Z.of_nat n) (Z.of_nat off) m = Ret (le_combine (sub off n m)).
Proof.
  intros H. unfold load. rewrite (proj2 (in_block_true _ _ _)) by lia. by rewrite !Nat2Z.id.
Qed.

Lemma load_bytes_Ret n off m :
  (off + n <= length m)%nat ->
  load_bytes (Z.of_nat n) (Z.of_nat off) m = Ret (sub off n m).
Proof.
  intros H. unfold load_bytes. rewrite (proj2 (in_block_true _ _ _)) by lia. by rewrite !Nat2Z.id.
Qed.

Lemma store_bytes_Ret off bs m :
  (off + length bs <= length m)%nat ->
  store_bytes (Z.of_nat off) bs m = Ret (patch off bs m).
Proof.
  intros H. unfold store_bytes. rewrite (proj2 (in_block_true _ _ _)) by lia. by rewrite Nat2Z.id.
Qed.

Lemma store_Ret n off v m :
  (off + n <= length m)%nat ->
  store (Z.of_nat n) (Z.of_nat off) v m = Ret (patch off (le_split n v) m).
Proof.
  intros H. unfold store. rewrite Nat2Z.id. apply store_bytes_Ret. by rewrite length_le_split.
Qed.

Lemma memmove_Ret dst src n m :
  (src + n <= length m)%nat -> (dst + n <= length m)%nat ->
  memmove (Z.of_nat dst) (Z.of_nat src) (Z.of_nat n) m = Ret (patch dst (sub src n m) m).
Proof.
  intros Hs Hd. unfold memmove. rewrite load_bytes_Ret by done. cbn [mbind res_bind].
  apply store_bytes_Ret. by rewrite length_sub.
Qed.

(** Reads of bytes inside a block. *)
Lemma aget_byte inp i : bytes inp -> 0 <= i < Z.of_nat (length inp) ->
  exists b, aget inp i = Ret b /\ 0 <= b < 256 /\ inp !! Z.to_nat i = Some b.
Proof.
  intros Hb Hi. destruct (lookup_lt_is_Some_2 inp (Z.to_nat i)) as [b E]; [lia|].
  exists b. split; [by apply aget_Z; [lia|]|]. split; [|done]. by apply (Forall_lookup_1 _ _ _ _ Hb E).
Qed.

(** ** Sign extension *)

Lemma swrap_mod w x : 0 < w -> swrap w (x mod 2 ^ w) = swrap w x.
Proof. intros Hw. unfold swrap. by rewrite Z.add_mod_idemp_l by lia. Qed.

(** ** What lies at an offset *)

(** The bytes [l] are in [m] at offset [p]. *)
Definition sees (m : list Z) (p : Z) (l : list Z) : Prop :=
  exists pre post, m = pre ++ l ++ post /\ p = Z.of_nat (length pre).

Lemma sees_app m p l1 l2 :
  sees m p (l1 ++ l2) <-> sees m p l1 /\ sees m (p + Z.of_nat (length l1)) l2.
Proof.
  split.
  - intros (pre & post & -> & ->). split.
    + exists pre, (l2 ++ post). by rewrite <- !app_assoc.
    + exists (pre ++ l1), post. rewrite <- !app_assoc, length_app. split; [done|lia].
  - intros [(pre & post & -> & ->) (pre' & post' & E & Hp)]. exists pre, post'. split; [|done].
    rewrite app_assoc in E. apply app_inj_1 in E as [<- E]; [|rewrite length_app; lia].
    by rewrite E, <- app_assoc.
Qed.

Lemma sees_app_l m p l1 l2 : sees m p (l1 ++ l2) -> sees m p l1.
Proof. intros H. by apply sees_app in H as [? _]. Qed.

Lemma sees_app_r m p l1 l2 : sees m p (l1 ++ l2) -> sees m (p + Z.of_nat (length l1)) l2.
Proof. intros H. by apply sees_app in H as [_ ?]. Qed.

Lemma sees_nonneg m p l : sees m p l -> 0 <= p.
Proof. intros (pre & post & _ & ->). lia. Qed.

Lemma sees_fits m p l : sees m p l -> p + Z.of_nat (length l) <= Z.of_nat (length m).
Proof. intros (pre & post & -> & ->). rewrite !length_app. lia. Qed.

Lemma sees_aget m p l (k : nat) b : sees m p l -> l !! k = Some b -> aget m (p + Z.of_nat k) = Ret b.
Proof.
  intros (pre & post & -> & ->) Hk. rewrite <- Nat2Z.inj_add. apply aget_in.
  rewrite lookup_app_r by lia. replace (length pre + k - length pre)%nat with k by lia. by apply lookup_app_l_Some.
Qed.

Lemma sees_head m p b l : sees m p (b :: l) -> aget m p = Ret b.
Proof. intros H. rewrite <- (Z.add_0_r p). by apply (sees_aget m p (b :: l) 0). Qed.

Lemma sees_tail m p b l : sees m p (b :: l) -> sees m (p + 1) l.
Proof. intros H. by apply (sees_app_r m p [b] l). Qed.

Lemma sees_load_bytes m p l : sees m p l -> load_bytes (Z.of_nat (length l)) p m = Ret l.
Proof.
  intros (pre & post & -> & ->). rewrite load_bytes_Ret by (rewrite !length_app; lia). f_equal.
  rewrite sub_app_r, Nat.sub_diag, sub_app_l by lia. by apply sub_all.
Qed.

Lemma sees_load m p l : sees m p l -> load (Z.of_nat (length l)) p m = Ret (le_combine l).
Proof.
  intros (pre & post & -> & ->). rewrite load_Ret by (rewrite !length_app; lia). do 2 f_equal.
  rewrite sub_app_r, Nat.sub_diag, sub_app_l by lia. by apply sub_all.
Qed.

(** Overwriting what is seen. *)
Lemma sees_patch {A} (pre l l' post : list A) :
  length l' = length l -> patch (length pre) l' (pre ++ l ++ post) = pre ++ l' ++ post.
Proof.
  intros E. unfold patch. rewrite take_app_length. f_equal. f_equal.
  rewrite drop_app_ge by lia. replace (length pre + length l' - length pre)%nat with (length l) by lia.
  by rewrite drop_app_length.
Qed.

Lemma le_split_app_mod n v k : le_split n (v + k * 256 ^ Z.of_nat n) = le_split n v.
Proof.
  revert v k. induction n as [|n IH]; intros v k; [done|]. cbn [le_split].
  rewrite Nat2Z.inj_succ, Z.pow_succ_r by lia. replace (k * (256 * 256 ^ Z.of_nat n)) with (k * 256 ^ Z.of_nat n * 256) by lia.
  by rewrite Z.mod_add, Z.div_add, IH by lia.
Qed.
