(* ===== verification/IntSet.v ===== *)
(** * Redis' integer sets ([redis-7.2.3/src/intset.c])

    A set of integers is one block: a header with the width of the elements
    (2, 4 or 8 bytes) and their number, then the elements in increasing order.
    The model works on the bytes: reads and writes are little-endian loads and
    stores at the offsets the C code computes, insertion and deletion move
    memory, and an insertion that does not fit the current width rewrites all
    elements in place, back to front.  The theorems show that no operation
    leaves the block and that the operations are those of a set of integers. *)
From stdpp Require Import gmap.
From S2P Require Import Prelude Mem.

Local Open Scope Z_scope.

Record intset : Type := {
  encoding : Z;
  is_length : Z;
  contents : list Z;
}.

Definition INTSET_ENC_INT16 : Z := 2.
Definition INTSET_ENC_INT32 : Z := 4.
Definition INTSET_ENC_INT64 : Z := 8.
Definition sizeof_intset : Z := 8.

Definition set_contents (s : intset) (m : list Z) : intset :=
  {| encoding := encoding s; is_length := is_length s; contents := m |}.
Definition set_length (s : intset) (n : Z) : intset :=
  {| encoding := encoding s; is_length := n; contents := contents s |}.
Definition set_encoding (s : intset) (e : Z) : intset :=
  {| encoding := e; is_length := is_length s; contents := contents s |}.

Definition _intsetValueEncoding (v : Z) : Z :=
  if (v <? - 2 ^ 31) || (2 ^ 31 - 1 <? v) then INTSET_ENC_INT64
  else if (v <? - 2 ^ 15) || (2 ^ 15 - 1 <? v) then INTSET_ENC_INT32
  else INTSET_ENC_INT16.

Definition _intsetGetEncoded (s : intset) (pos enc : Z) : res Z :=
  if enc =? INTSET_ENC_INT64 then
    v64 ← load 8 (pos * 8) (contents s); Ret (s64 v64)
  else if enc =? INTSET_ENC_INT32 then
    v32 ← load 4 (pos * 4) (contents s); Ret (s32 v32)
  else
    v16 ← load 2 (pos * 2) (contents s); Ret (s16 v16).

Definition _intsetGet (s : intset) (pos : Z) : res Z :=
  _intsetGetEncoded s pos (encoding s).

Definition _intsetSet (s : intset) (pos value : Z) : res intset :=
  m ← (if encoding s =? INTSET_ENC_INT64 then store 8 (pos * 8) value (contents s)
       else if encoding s =? INTSET_ENC_INT32 then store 4 (pos * 4) value (contents s)
       else store 2 (pos * 2) value (contents s));
  Ret (set_contents s m).

Definition intsetNew : intset :=
  {| encoding := INTSET_ENC_INT16; is_length := 0; contents := [] |}.

Section with_heap.
Context `{Heap}.

Definition intsetResize (s : intset) (len : Z) : res intset :=
  let size := u64 (len * encoding s) in
  _ ← assert (size <=? 2 ^ 64 - 1 - sizeof_intset);
  Ret (set_contents s (realloc size (contents s))).

(** The binary search; [Diverge] when [fuel] iterations do not suffice. *)
Fixpoint search_loop (fuel : nat) (s : intset) (value min max mid cur : Z) : res (Z * Z * Z) :=
  if min <=? max then
    match fuel with
    | O => Diverge
    | S fuel =>
        let mid := Z.shiftr (u32 (u32 min + u32 max)) 1 in
        cur ← _intsetGet s mid;
        if cur <? value then search_loop fuel s value (mid + 1) max mid cur
        else if value <? cur then search_loop fuel s value min (mid - 1) mid cur
        else Ret (min, mid, cur)
    end
  else Ret (min, mid, cur).

(** Returns the C result and [*pos]. *)
Definition intsetSearch (s : intset) (value : Z) : res (bool * Z) :=
  let max := s32 (is_length s - 1) in
  if is_length s =? 0 then Ret (false, 0) else
  last ← _intsetGet s max;
  if last <? value then Ret (false, is_length s) else
  first ← _intsetGet s 0;
  if value <? first then Ret (false, 0) else
  '(min, mid, cur) ← search_loop (Z.to_nat (is_length s)) s value 0 max (-1) (-1);
  if value =? cur then Ret (true, u32 mid) else Ret (false, u32 min).

(** [while(length--)]: element [n - 1] down to element 0. *)
Fixpoint upgrade_loop (n : nat) (s : intset) (prepend curenc : Z) : res intset :=
  match n with
  | O => Ret s
  | S n =>
      v ← _intsetGetEncoded s (Z.of_nat n) curenc;
      s ← _intsetSet s (Z.of_nat n + prepend) v;
      upgrade_loop n s prepend curenc
  end.

Definition intsetUpgradeAndAdd (s : intset) (value : Z) : res intset :=
  let curenc := encoding s in
  let newenc := _intsetValueEncoding value in
  let length := is_length s in
  let prepend := if value <? 0 then 1 else 0 in
  s ← intsetResize (set_encoding s newenc) (u32 (is_length s + 1));
  s ← upgrade_loop (Z.to_nat length) s prepend curenc;
  s ← (if negb (prepend =? 0) then _intsetSet s 0 value
        else _intsetSet s (is_length s) value);
  Ret (set_length s (u32 (is_length s + 1))).

(** The byte count is a 32-bit product. *)
Definition tail_bytes (s : intset) (from : Z) : Z :=
  u32 (u32 (is_length s - from) *
       (if encoding s =? INTSET_ENC_INT64 then 8
        else if encoding s =? INTSET_ENC_INT32 then 4 else 2)).

Definition intsetMoveTail (s : intset) (from to : Z) : res intset :=
  let w := if encoding s =? INTSET_ENC_INT64 then 8
           else if encoding s =? INTSET_ENC_INT32 then 4 else 2 in
  m ← memmove (to * w) (from * w) (tail_bytes s from) (contents s);
  Ret (set_contents s m).

(** Returns the set and [*success]. *)
Definition intsetAdd (s : intset) (value : Z) : res (intset * bool) :=
  let valenc := _intsetValueEncoding value in
  if encoding s <? valenc then
    s ← intsetUpgradeAndAdd s value; Ret (s, true)
  else
    '(found, pos) ← intsetSearch s value;
    if (found : bool) then Ret (s, false) else
    s ← intsetResize s (u32 (is_length s + 1));
    s ← (if pos <? is_length s then intsetMoveTail s pos (u32 (pos + 1)) else Ret s);
    s ← _intsetSet s pos value;
    Ret (set_length s (u32 (is_length s + 1)), true).

Definition intsetRemove (s : intset) (value : Z) : res (intset * bool) :=
  let valenc := _intsetValueEncoding value in
  if valenc <=? encoding s then
    '(found, pos) ← intsetSearch s value;
    if (found : bool) then
      let len := is_length s in
      s ← (if pos <? u32 (len - 1) then intsetMoveTail s (u32 (pos + 1)) pos else Ret s);
      s ← intsetResize s (u32 (len - 1));
      Ret (set_length s (u32 (len - 1)), true)
    else Ret (s, false)
  else Ret (s, false).

Definition intsetFind (s : intset) (value : Z) : res bool :=
  let valenc := _intsetValueEncoding value in
  if valenc <=? encoding s then
    '(found, _) ← intsetSearch s value; Ret found
  else Ret false.

(** [r] is the value [rand()] returns. *)
Definition intsetRandom (s : intset) (r : Z) : res Z :=
  let len := is_length s in
  _ ← assert (negb (len =? 0));
  _intsetGet s (r mod len).

Definition intsetMax (s : intset) : res Z := _intsetGet s (s32 (is_length s - 1)).
Definition intsetMin (s : intset) : res Z := _intsetGet s 0.

(** The C result is whether the option is [Some]. *)
Definition intsetGet (s : intset) (pos : Z) : res (option Z) :=
  if pos <? is_length s then v ← _intsetGet s pos; Ret (Some v) else Ret None.

Definition intsetLen (s : intset) : Z := is_length s.

Definition intsetBlobLen (s : intset) : Z :=
  u64 (sizeof_intset + is_length s * encoding s).

Fixpoint validate_loop (n : nat) (s : intset) (i prev : Z) : res bool :=
  match n with
  | O => Ret true
  | S n =>
      cur ← _intsetGet s i;
      if cur <=? prev then Ret false else validate_loop n s (i + 1) cur
  end.

(** The cast of [p] to an intset pointer: the header is the first eight bytes. *)
Definition intset_of_blob (p : list Z) : intset :=
  {| encoding := le_combine (sub 0 4 p);
     is_length := le_combine (sub 4 4 p);
     contents := drop 8 p |}.

Definition intsetValidateIntegrity (p : list Z) (size : Z) (deep : bool) : res bool :=
  if size <? sizeof_intset then Ret false else
  let s := intset_of_blob p in
  let enc := encoding s in
  if negb ((enc =? INTSET_ENC_INT64) || (enc =? INTSET_ENC_INT32) || (enc =? INTSET_ENC_INT16))
  then Ret false else
  let record_size := enc in
  let count := is_length s in
  if negb (u64 (sizeof_intset + u64 (count * record_size)) =? size) then Ret false else
  if count =? 0 then Ret false else
  if negb deep then Ret true else
  prev ← _intsetGet s 0;
  validate_loop (Z.to_nat (count - 1)) s 1 prev.
End with_heap.

(** * Elements in memory *)

Definition width_ok (w : nat) : Prop := (w = 2 \/ w = 4 \/ w = 8)%nat.

Definition fits (w : nat) (v : Z) : Prop :=
  - 2 ^ (8 * Z.of_nat w - 1) <= v < 2 ^ (8 * Z.of_nat w - 1).

(** The [i]-th [w]-byte element of a block. *)
Definition decode (w : nat) (m : list Z) (i : nat) : Z :=
  swrap (8 * Z.of_nat w) (le_combine (sub (i * w) w m)).

(** The block [m] holds [xs] from position [k] on. *)
Definition holds (w : nat) (m : list Z) (k : nat) (xs : list Z) : Prop :=
  forall i x, xs !! i = Some x -> ((k + i + 1) * w <= length m)%nat /\ decode w m (k + i) = x.

Definition sorted_lt (xs : list Z) : Prop :=
  forall i j x y, (i < j)%nat -> xs !! i = Some x -> xs !! j = Some y -> x < y.

(** [s] is the set with elements [xs], in order, of width [w]. *)
Record rep (w : nat) (s : intset) (xs : list Z) : Prop := {
  rep_width_ok : width_ok w;
  rep_enc : encoding s = Z.of_nat w;
  rep_len : is_length s = Z.of_nat (length xs);
  rep_size : length (contents s) = (length xs * w)%nat;
  rep_holds : holds w (contents s) 0 xs;
  rep_fits : Forall (fits w) xs;
  rep_sorted : sorted_lt xs;
  rep_small : Z.of_nat (length xs) < 2 ^ 29;
}.

Ltac width_cases H := destruct H as [->|[->| ->]].

Ltac width_consts :=
  change (Z.of_nat 2) with 2 in *; change (Z.of_nat 4) with 4 in *;
  change (Z.of_nat 8) with 8 in *;
  unfold INTSET_ENC_INT64, INTSET_ENC_INT32, INTSET_ENC_INT16 in *; cbn [Z.eqb Pos.eqb].

Lemma load_elem w i m : ((i + 1) * w <= length m)%nat ->
  load (Z.of_nat w) (Z.of_nat i * Z.of_nat w) m = Ret (le_combine (sub (i * w) w m)).
Proof. intros Hi. rewrite <- Nat2Z.inj_mul. apply load_Ret. lia. Qed.

Lemma getEncoded_eq s w i :
  width_ok w -> ((i + 1) * w <= length (contents s))%nat ->
  _intsetGetEncoded s (Z.of_nat i) (Z.of_nat w) = Ret (decode w (contents s) i).
Proof.
  intros Hw Hi. unfold _intsetGetEncoded, decode. pose proof (load_elem w i (contents s) Hi) as Hl.
  width_cases Hw; width_consts; rewrite Hl; done.
Qed.

Lemma intsetSet_eq s w i v :
  width_ok w -> encoding s = Z.of_nat w -> ((i + 1) * w <= length (contents s))%nat ->
  _intsetSet s (Z.of_nat i) v = Ret (set_contents s (patch (i * w) (le_split w v) (contents s))).
Proof.
  intros Hw He Hi. unfold _intsetSet. rewrite He.
  assert (store (Z.of_nat w) (Z.of_nat i * Z.of_nat w) v (contents s) =
          Ret (patch (i * w) (le_split w v) (contents s))) as Hst.
  { rewrite <- Nat2Z.inj_mul. apply store_Ret. lia. }
  width_cases Hw; width_consts; rewrite Hst; done.
Qed.

Lemma pow256 w : 256 ^ Z.of_nat w = 2 ^ (8 * Z.of_nat w).
Proof. change 256 with (2 ^ 8). rewrite <- Z.pow_mul_r by lia. done. Qed.

Lemma decode_patch_same w i v m :
  width_ok w -> fits w v -> ((i + 1) * w <= length m)%nat ->
  decode w (patch (i * w) (le_split w v) m) i = v.
Proof.
  intros Hw Hv Hi. unfold decode.
  replace (sub (i * w) w _) with (sub (i * w + 0) w (patch (i * w) (le_split w v) m)) by (f_equal; lia).
  assert (0 < 8 * Z.of_nat w) by (width_cases Hw; lia).
  rewrite sub_patch_in, sub_all, le_combine_split, pow256, swrap_mod
    by (rewrite ?length_le_split; lia).
  by apply swrap_id.
Qed.

Lemma decode_patch_other w j o (bs m : list Z) :
  (o + length bs <= length m)%nat -> ((j + 1) * w <= o \/ o + length bs <= j * w)%nat ->
  decode w (patch o bs m) j = decode w m j.
Proof.
  intros Hl Hj. unfold decode. do 2 f_equal.
  destruct Hj; [apply sub_patch_before|apply sub_patch_after]; lia.
Qed.

Lemma holds_app w m k xs ys :
  holds w m k (xs ++ ys) <-> holds w m k xs /\ holds w m (k + length xs) ys.
Proof.
  split.
  - intros Hh. split; intros i x Hx.
    + apply Hh. by apply lookup_app_l_Some.
    + replace (k + length xs + i)%nat with (k + (length xs + i))%nat by lia.
      apply Hh. rewrite lookup_app_r by lia. by replace (_ + i - _)%nat with i by lia.
  - intros [H1 H2] i x [Hx|[Hl Hx]]%lookup_app_Some; [by apply H1|].
    replace (k + i)%nat with (k + length xs + (i - length xs))%nat by lia. by apply H2.
Qed.

Lemma holds_single w m k x :
  ((k + 1) * w <= length m)%nat -> decode w m k = x -> holds w m k [x].
Proof.
  intros Hl Hd [|i] y Hy; cbn in Hy; [|by destruct i]. simplify_eq.
  rewrite !Nat.add_0_r. done.
Qed.

(** The elements outside an overwritten range stay. *)
Lemma holds_patch w m k xs o (bs : list Z) :
  (o + length bs <= length m)%nat -> holds w m k xs ->
  ((k + length xs) * w <= o \/ o + length bs <= k * w)%nat ->
  holds w (patch o bs m) k xs.
Proof.
  intros Hl Hh Ho i x Hx. destruct (Hh i x Hx) as [Hi Hd]. apply lookup_lt_Some in Hx.
  rewrite length_patch by done. split; [done|]. rewrite <- Hd.
  apply decode_patch_other; [done|]. destruct Ho; [left|right]; nia.
Qed.

Lemma holds_realloc `{Heap} w m k xs size :
  holds w m k xs -> Z.of_nat ((k + length xs) * w) <= size -> holds w (realloc size m) k xs.
Proof.
  intros Hh Hs i x Hx. destruct (Hh i x Hx) as [Hi Hd]. apply lookup_lt_Some in Hx.
  pose proof (length_realloc size m ltac:(lia)) as Hlen.
  assert (Z.of_nat ((k + i + 1) * w) <= size) by nia.
  split; [lia|]. rewrite <- Hd. unfold decode. do 2 f_equal. apply sub_realloc; lia.
Qed.

(** Moved elements are at their new position. *)
Lemma holds_moved w m k k' xs n :
  holds w m k xs -> n = (length xs * w)%nat ->
  (k' * w + n <= length m)%nat -> (k * w + n <= length m)%nat ->
  holds w (patch (k' * w) (sub (k * w) n m) m) k' xs.
Proof.
  intros Hh -> Hd Hs i x Hx. destruct (Hh i x Hx) as [Hi Hdec]. apply lookup_lt_Some in Hx.
  pose proof (length_sub (k * w) (length xs * w) m Hs) as Hlen.
  rewrite length_patch by lia. split; [nia|]. rewrite <- Hdec. unfold decode. do 2 f_equal.
  replace ((k' + i) * w)%nat with (k' * w + i * w)%nat by lia.
  rewrite sub_patch_in by (rewrite ?Hlen; nia). rewrite sub_sub by nia. f_equal. lia.
Qed.

(** * Searching *)

Lemma intsetGet_eq w s xs i x :
  rep w s xs -> xs !! i = Some x -> _intsetGet s (Z.of_nat i) = Ret x.
Proof.
  intros R Hx. unfold _intsetGet. rewrite (rep_enc w s xs R).
  destruct (rep_holds w s xs R i x Hx) as [Hl <-].
  by rewrite getEncoded_eq by (apply R || done).
Qed.

(** Where [value] is, or where it belongs. *)
Definition located (xs : list Z) (value : Z) (found : bool) (pos : nat) : Prop :=
  if found then xs !! pos = Some value
  else (pos <= length xs)%nat /\ forall i x, xs !! i = Some x ->
    ((i < pos)%nat -> x < value) /\ ((pos <= i)%nat -> value < x).

Lemma search_loop_spec w s xs value : rep w s xs -> forall fuel min max mid cur,
  0 <= min -> max < Z.of_nat (length xs) -> min <= max + 1 -> max - min + 1 <= Z.of_nat fuel ->
  (forall i x, xs !! i = Some x -> Z.of_nat i < min -> x < value) ->
  (forall i x, xs !! i = Some x -> max < Z.of_nat i -> value < x) ->
  (min <= max \/ cur <> value) ->
  exists min' mid' cur', search_loop fuel s value min max mid cur = Ret (min', mid', cur') /\
    0 <= min' < 2 ^ 32 /\
    if value =? cur' then 0 <= mid' < 2 ^ 32 /\ located xs value true (Z.to_nat mid')
    else located xs value false (Z.to_nat min').
Proof.
  intros R. pose proof (rep_small w s xs R) as Hsm.
  induction fuel as [|fuel IH]; intros min max mid cur Hmin Hmax Hmm Hf Hlo Hhi Hcur;
    cbn [search_loop]; destruct (Z.leb_spec min max) as [Hle|Hgt]; try lia.
  - exists min, mid, cur. split_and!; [done|lia|lia|].
    destruct (Z.eqb_spec value cur); [lia|]. split; [lia|]. intros i x Hx.
    pose proof (Hlo i x Hx). pose proof (Hhi i x Hx). lia.
  - rewrite !(uwrap_id 32) by (rewrite ?uwrap_id; lia). rewrite Z.shiftr_div_pow2 by lia.
    set (md := (min + max) / 2 ^ 1).
    assert (min <= md <= max) as Hmd by (unfold md; split;
      [apply Z.div_le_lower_bound|apply Z.lt_succ_r, Z.div_lt_upper_bound]; lia).
    destruct (lookup_lt_is_Some_2 xs (Z.to_nat md) ltac:(lia)) as [c Hc].
        pose proof (intsetGet_eq w s xs _ c R Hc) as Hget. rewrite Z2Nat.id in Hget by lia.
    rewrite Hget. cbn [mbind res_bind].
    destruct (Z.ltb_spec c value) as [Hcv|Hcv]; [|destruct (Z.ltb_spec value c) as [Hvc|Hvc]].
    + apply IH; [lia..| |exact Hhi|lia]. intros i x Hx Hi.
      destruct (Z.eq_dec (Z.of_nat i) md) as [He|]; [|].
      { replace i with (Z.to_nat md) in Hx by lia. simplify_eq. done. }
      pose proof (rep_sorted w s xs R i (Z.to_nat md) x c ltac:(lia) Hx Hc). lia.
    + apply IH; [lia..|exact Hlo| |lia]. intros i x Hx Hi.
      destruct (Z.eq_dec (Z.of_nat i) md) as [He|]; [|].
      { replace i with (Z.to_nat md) in Hx by lia. simplify_eq. done. }
      pose proof (rep_sorted w s xs R (Z.to_nat md) i c x ltac:(lia) Hc Hx). lia.
    + assert (c = value) as -> by lia. exists min, md, value.
      rewrite Z.eqb_refl. split_and!; done || lia.
  - exists min, mid, cur. split_and!; [done|lia|lia|].
    destruct (Z.eqb_spec value cur); [lia|]. split; [lia|]. intros i x Hx.
    pose proof (Hlo i x Hx). pose proof (Hhi i x Hx). lia.
Qed.

Lemma intsetSearch_spec w s xs value : rep w s xs ->
  exists found pos, intsetSearch s value = Ret (found, Z.of_nat pos) /\ located xs value found pos.
Proof.
  intros R. pose proof (rep_small w s xs R). unfold intsetSearch. rewrite (rep_len w s xs R).
  destruct (Z.eqb_spec (Z.of_nat (length xs)) 0) as [Hz|Hnz].
  { exists false, O. split; [done|]. destruct xs; [|done]. split; [cbn; lia|]. by intros i x ?. }
  rewrite swrap_id by (cbn; lia).
  destruct (lookup_lt_is_Some_2 xs (length xs - 1) ltac:(lia)) as [l Hl].
  destruct (lookup_lt_is_Some_2 xs 0 ltac:(lia)) as [f Hf].
  replace (Z.of_nat (length xs) - 1) with (Z.of_nat (length xs - 1)) by lia.
  rewrite (intsetGet_eq w s xs _ l R Hl). cbn [mbind res_bind].
  assert (forall i x, xs !! i = Some x -> x <= l) as Hmax.
  { intros i x Hx. pose proof (lookup_lt_Some _ _ _ Hx).
    destruct (decide (i = length xs - 1)%nat) as [->|]; [by simplify_eq|].
    pose proof (rep_sorted w s xs R i (length xs - 1)%nat x l ltac:(lia) Hx Hl). lia. }
  assert (forall i x, xs !! i = Some x -> f <= x) as Hmin.
  { intros i x Hx. destruct (decide (i = 0)%nat) as [->|]; [by simplify_eq|].
    pose proof (rep_sorted w s xs R 0%nat i f x ltac:(lia) Hf Hx). lia. }
  destruct (Z.ltb_spec l value).
  { exists false, (length xs). split; [done|]. split; [done|]. intros i x Hx.
    pose proof (Hmax i x Hx). apply lookup_lt_Some in Hx. lia. }
  rewrite (intsetGet_eq w s xs 0 f R Hf : _intsetGet s 0 = Ret f). cbn [mbind res_bind].
  destruct (Z.ltb_spec value f).
  { exists false, O. split; [done|]. split; [lia|]. intros i x Hx. pose proof (Hmin i x Hx). lia. }
  edestruct (search_loop_spec w s xs value R (Z.to_nat (Z.of_nat (length xs))) 0
    (Z.of_nat (length xs - 1)) (-1) (-1)) as (mn&md&c&->&Hmn&Hpost); [lia..| | |lia|].
  { intros i x Hx Hi. lia. }
  { intros i x Hx Hi. apply lookup_lt_Some in Hx. lia. }
  cbn [mbind res_bind]. destruct (Z.eqb_spec value c).
  - destruct Hpost as [Hmd Hpost]. exists true, (Z.to_nat md).
    rewrite uwrap_id, Z2Nat.id by lia. done.
  - exists false, (Z.to_nat mn). rewrite uwrap_id, Z2Nat.id by lia. done.
Qed.

Lemma located_true xs v pos : located xs v true pos -> v ∈ xs.
Proof. intros Hp. by eapply list_elem_of_lookup_2. Qed.

Lemma located_false xs v pos : located xs v false pos -> v ∉ xs.
Proof.
  intros [_ Hp] [i Hi]%list_elem_of_lookup. pose proof (Hp i v Hi).
  destruct (decide (i < pos)%nat); lia.
Qed.

(** * Updates *)

Lemma value_encoding v : - 2 ^ 63 <= v < 2 ^ 63 ->
  exists w, width_ok w /\ _intsetValueEncoding v = Z.of_nat w /\ fits w v /\
    forall w', width_ok w' -> fits w' v -> (w <= w')%nat.
Proof.
  intros Hv. unfold _intsetValueEncoding, width_ok.
  destruct ((v <? - 2 ^ 31) || (2 ^ 31 - 1 <? v)) eqn:E1;
    [exists 8%nat|destruct ((v <? - 2 ^ 15) || (2 ^ 15 - 1 <? v)) eqn:E2;
       [exists 4%nat|exists 2%nat]];
    (split; [auto|]; split; [done|]; unfold fits in *; split; [cbn in *; lia|]).
  all: intros w' Hw' Hf; width_cases Hw'; cbn in *; lia.
Qed.

Lemma fits_mono w w' v : (w <= w')%nat -> (0 < w)%nat -> fits w v -> fits w' v.
Proof.
  unfold fits. intros Hw H0 Hv.
  pose proof (Z.pow_le_mono_r 2 (8 * Z.of_nat w - 1) (8 * Z.of_nat w' - 1)). lia.
Qed.

Lemma fits_64 w v : width_ok w -> fits w v -> - 2 ^ 63 <= v < 2 ^ 63.
Proof. intros Hw Hv. apply (fits_mono w 8); width_cases Hw; try lia; done. Qed.

Definition insert_at {A} (p : nat) (v : A) (xs : list A) : list A := take p xs ++ v :: drop p xs.

Lemma lookup_insert_at {A} p (v : A) xs i x : (p <= length xs)%nat ->
  insert_at p v xs !! i = Some x ->
  (i < p /\ xs !! i = Some x)%nat \/ (i = p /\ x = v) \/ (p < i /\ xs !! (i - 1) = Some x)%nat.
Proof.
  intros Hp. unfold insert_at. destruct (decide (i < p)%nat).
  - rewrite lookup_app_l by (rewrite length_take; lia). rewrite lookup_take_lt by done. auto.
  - rewrite lookup_app_r by (rewrite length_take; lia). rewrite length_take, Nat.min_l by done.
    destruct (i - p)%nat as [|k] eqn:E.
    + cbn. intros [= ->]. right; left. split; [lia|done].
    + rewrite lookup_cons, lookup_drop. intros Hx. right; right. split; [lia|].
      by replace (i - 1)%nat with (p + k)%nat by lia.
Qed.

Lemma insert_at_sorted xs v p :
  sorted_lt xs -> located xs v false p -> sorted_lt (insert_at p v xs).
Proof.
  intros Hs [Hp Hl] i j x y Hij Hi Hj.
  apply lookup_insert_at in Hi; [|done]. apply lookup_insert_at in Hj; [|done].
  destruct Hi as [[? Hi]|[[-> ->]|[? Hi]]], Hj as [[? Hj]|[[-> ->]|[? Hj]]]; try lia.
  - eapply Hs; [exact Hij|done..].
  - by apply (Hl i x Hi).
  - eapply (Hs i (j - 1)%nat); [lia|done..].
  - apply (Hl (j - 1)%nat y Hj). lia.
  - eapply (Hs (i - 1)%nat (j - 1)%nat); [lia|done..].
Qed.

Lemma length_insert_at {A} p (v : A) xs : (p <= length xs)%nat ->
  length (insert_at p v xs) = S (length xs).
Proof. intros. unfold insert_at. rewrite length_app, length_take. cbn. rewrite length_drop. lia. Qed.

Lemma elem_of_insert_at {A} p (v : A) xs y : y ∈ insert_at p v xs <-> y = v \/ y ∈ xs.
Proof.
  unfold insert_at. rewrite elem_of_app, elem_of_cons.
  rewrite <- (take_drop p xs) at 3. rewrite elem_of_app. tauto.
Qed.

Lemma intsetResize_eq `{Heap} w s n :
  width_ok w -> encoding s = Z.of_nat w -> 0 <= n < 2 ^ 32 ->
  intsetResize s n = Ret (set_contents s (realloc (n * Z.of_nat w) (contents s))).
Proof.
  intros Hw He Hn. unfold intsetResize. rewrite He.
  assert (0 <= n * Z.of_nat w < 2 ^ 36) by (width_cases Hw; lia).
  rewrite uwrap_id by lia. rewrite (proj2 (Z.leb_le _ _)) by (unfold sizeof_intset; lia). done.
Qed.

Lemma intsetMoveTail_eq w s (from to : nat) n :
  width_ok w -> encoding s = Z.of_nat w -> is_length s = Z.of_nat n -> Z.of_nat n < 2 ^ 29 ->
  (from <= n)%nat ->
  (from * w + (n - from) * w <= length (contents s))%nat ->
  (to * w + (n - from) * w <= length (contents s))%nat ->
  intsetMoveTail s (Z.of_nat from) (Z.of_nat to) =
    Ret (set_contents s (patch (to * w) (sub (from * w) ((n - from) * w) (contents s)) (contents s))).
Proof.
  intros Hw He Hl Hn Hf Hs Hd. unfold intsetMoveTail, tail_bytes. rewrite He, Hl.
  assert (u32 (u32 (Z.of_nat n - Z.of_nat from) * Z.of_nat w) = Z.of_nat ((n - from) * w)) as Hb.
  { rewrite (uwrap_id 32 (Z.of_nat n - _)) by lia.
    rewrite uwrap_id by (width_cases Hw; lia). rewrite Nat2Z.inj_mul, Nat2Z.inj_sub by lia. done. }
  pose proof (memmove_Ret (to * w) (from * w) ((n - from) * w) (contents s) Hs Hd) as Hm.
  rewrite <- Hb, !Nat2Z.inj_mul in Hm.
  width_cases Hw; width_consts; rewrite Hm; done.
Qed.

Lemma holds_take_drop w m xs p :
  holds w m 0 xs -> (p <= length xs)%nat -> holds w m 0 (take p xs) /\ holds w m p (drop p xs).
Proof.
  intros Hh Hp. rewrite <- (take_drop p xs), holds_app in Hh.
  rewrite length_take, Nat.min_l in Hh by done. done.
Qed.

Lemma holds_insert_at w m xs p v :
  (p <= length xs)%nat -> ((p + 1) * w <= length m)%nat -> decode w m p = v ->
  holds w m 0 (take p xs) -> holds w m (p + 1) (drop p xs) -> holds w m 0 (insert_at p v xs).
Proof.
  intros Hp Hl Hd H1 H2. unfold insert_at. apply holds_app.
  rewrite length_take, Nat.min_l by done. split; [done|].
  change (v :: drop p xs) with ([v] ++ drop p xs). apply holds_app. split; [|done].
  by apply holds_single.
Qed.

(** The insertion without a change of width. *)
Lemma add_in_place `{Heap} w s xs v p :
  rep w s xs -> fits w v -> located xs v false p -> Z.of_nat (length xs) + 1 < 2 ^ 29 ->
  exists s', 
   (s1 ← intsetResize s (u32 (is_length s + 1));
    s2 ← (if Z.of_nat p <? is_length s1 then intsetMoveTail s1 (Z.of_nat p) (u32 (Z.of_nat p + 1))
          else Ret s1);
    s3 ← _intsetSet s2 (Z.of_nat p) v;
    Ret (set_length s3 (u32 (is_length s3 + 1)), true)) = Ret (s', true) /\
   rep w s' (insert_at p v xs).
Proof.
  intros R Hv Hloc Hn. pose proof R as [Hw He Hl Hsz Hh Hf Hso _]. pose proof (proj1 Hloc) as Hp.
  assert (0 < w)%nat as Hw0 by (width_cases Hw; lia).
  rewrite Hl, (uwrap_id 32 (Z.of_nat (length xs) + 1)) by lia.
  rewrite (intsetResize_eq w s (Z.of_nat (length xs) + 1) Hw He) by lia. cbn [mbind res_bind is_length set_contents].
  rewrite Hl. set (n := length xs) in *. set (m := realloc _ (contents s)).
  assert (length m = (n + 1) * w)%nat as Hm.
  { apply Nat2Z.inj. unfold m. rewrite length_realloc by nia. rewrite Nat2Z.inj_mul. lia. }
  assert (holds w m 0 xs) as Hh1 by (apply holds_realloc; [done|fold n; nia]).
  destruct (holds_take_drop w m xs p Hh1 Hp) as [Hlo Hhi].
  assert (exists m2, (if Z.of_nat p <? Z.of_nat n
      then intsetMoveTail (set_contents s m) (Z.of_nat p) (u32 (Z.of_nat p + 1))
      else Ret (set_contents s m)) = Ret (set_contents s m2) /\ length m2 = length m /\
      holds w m2 0 (take p xs) /\ holds w m2 (p + 1) (drop p xs)) as (m2&->&Hm2&Hlo2&Hhi2).
  { destruct (Z.ltb_spec (Z.of_nat p) (Z.of_nat n)).
    - rewrite uwrap_id by lia. replace (Z.of_nat p + 1) with (Z.of_nat (p + 1)) by lia.
      rewrite (intsetMoveTail_eq w (set_contents s m) p (p + 1) n)
        by (cbn [contents set_contents encoding is_length]; done || lia || nia).
      cbn [contents set_contents]. eexists. split; [done|].
      pose proof (length_sub (p * w) ((n - p) * w) m ltac:(nia)) as Hsub.
      split_and!.
      + apply length_patch. rewrite Hsub. nia.
      + apply holds_patch; [rewrite Hsub; nia|done|left]. rewrite length_take. nia.
      + apply holds_moved; [done|rewrite length_drop; fold n; lia|nia|nia].
    - exists m. split_and!; [done|done|done|]. rewrite drop_ge by (fold n; lia). by intros i x ?. }
  cbn [mbind res_bind].
  rewrite (intsetSet_eq (set_contents s m2) w p v Hw He) by (cbn [contents set_contents]; nia).
  cbn [mbind res_bind is_length set_contents contents]. rewrite Hl, uwrap_id by lia.
  eexists. split; [done|].
  assert (p * w + length (le_split w v) <= length m2)%nat by (rewrite length_le_split; nia).
  constructor; cbn [encoding is_length contents set_contents set_length]; try done.
  - rewrite length_insert_at by done. fold n. lia.
  - rewrite length_patch, length_insert_at by done. fold n. lia.
  - apply holds_insert_at; [done|rewrite length_patch by done; nia| | |].
    + apply decode_patch_same; [done|done|nia].
    + apply holds_patch; [done|done|left]. rewrite length_take. nia.
    + apply holds_patch; [done|done|right]. rewrite length_le_split. lia.
  - unfold insert_at. apply Forall_app_2; [by apply Forall_take|].
    constructor; [done|by apply Forall_drop].
  - by apply insert_at_sorted.
  - rewrite length_insert_at by done. fold n. lia.
Qed.

(** The in-place change of width: before the element [n - 1] is moved, the
    first [n] are still in the old width and the others in the new one. *)
Lemma upgrade_loop_spec cw nw prepend xs : width_ok cw -> width_ok nw -> (cw <= nw)%nat ->
  Forall (fits nw) xs -> (prepend <= 1)%nat ->
  forall n s, (n <= length xs)%nat -> encoding s = Z.of_nat nw ->
  length (contents s) = ((length xs + 1) * nw)%nat ->
  holds cw (contents s) 0 (take n xs) -> holds nw (contents s) (n + prepend) (drop n xs) ->
  exists m, upgrade_loop n s (Z.of_nat prepend) (Z.of_nat cw) = Ret (set_contents s m) /\
    length m = length (contents s) /\ holds nw m prepend xs.
Proof.
  intros Hcw Hnw Hle Hfit Hpre. induction n as [|n IH]; intros s Hn He Hlen Hold Hnew; cbn [upgrade_loop].
  { exists (contents s). split_and!; [by destruct s|done|exact Hnew]. }
  destruct (lookup_lt_is_Some_2 xs n ltac:(lia)) as [x Hx].
  assert (0 < cw)%nat by (width_cases Hcw; lia). assert (0 < nw)%nat by (width_cases Hnw; lia).
  rewrite (take_S_r _ _ _ Hx), holds_app, length_take, Nat.min_l in Hold by lia.
  destruct Hold as [Hold Hlast]. destruct (Hlast 0%nat x eq_refl) as [_ Hdec].
  rewrite Nat.add_0_r in Hdec. rewrite getEncoded_eq by (done || nia).
  cbn in Hdec. rewrite Hdec. cbn [mbind res_bind].
  replace (Z.of_nat n + Z.of_nat prepend) with (Z.of_nat (n + prepend)) by lia.
  rewrite (intsetSet_eq s nw) by (done || nia). cbn [mbind res_bind].
  assert ((n + prepend) * nw + length (le_split nw x) <= length (contents s))%nat
    by (rewrite length_le_split; nia).
  destruct (IH (set_contents s (patch ((n + prepend) * nw) (le_split nw x) (contents s))))
    as (m&Hm&Hml&Hmh); cbn [encoding contents set_contents]; try done; try lia.
  - rewrite length_patch by done. done.
  - apply holds_patch; [done|done|left]. rewrite length_take. nia.
  - rewrite (drop_S _ _ _ Hx). change (x :: drop (S n) xs) with ([x] ++ drop (S n) xs).
    apply holds_app. split.
    + apply holds_single; [rewrite length_patch by done; nia|].
      apply decode_patch_same; [done| |nia]. rewrite Forall_forall in Hfit.
      by eapply Hfit, list_elem_of_lookup_2.
    + replace (n + prepend + length [x])%nat with (S n + prepend)%nat by (cbn; lia).
      apply holds_patch; [done|done|right]. rewrite length_le_split. nia.
  - exists m. split_and!; [exact Hm|rewrite Hml; by apply length_patch|done].
Qed.

(** A value that needs a wider encoding is below or above all elements. *)
Lemma upgrade_located w xs v : Forall (fits w) xs -> ~ fits w v ->
  located xs v false (if v <? 0 then 0 else length xs).
Proof.
  intros Hf Hv. rewrite Forall_forall in Hf.
  assert (forall i x, xs !! i = Some x -> fits w x) as Hx by (intros; by eapply Hf, list_elem_of_lookup_2).
  unfold fits in *. destruct (Z.ltb_spec v 0); (split; [lia|]); intros i x Hi; specialize (Hx i x Hi);
    apply lookup_lt_Some in Hi; lia.
Qed.

Lemma upgrade_and_add `{Heap} w nw s xs v :
  rep w s xs -> width_ok nw -> _intsetValueEncoding v = Z.of_nat nw -> (w < nw)%nat -> fits nw v ->
  ~ fits w v -> Z.of_nat (length xs) + 1 < 2 ^ 29 ->
  exists s', intsetUpgradeAndAdd s v = Ret s' /\
    rep nw s' (insert_at (if v <? 0 then 0 else length xs) v xs).
Proof.
  intros R Hnw Henc Hlt Hfv Hnf Hn. pose proof R as [Hw He Hl Hsz Hh Hf Hso _].
  pose proof (upgrade_located w xs v Hf Hnf) as Hloc.
  assert (0 < w)%nat by (width_cases Hw; lia). set (n := length xs) in *.
  assert (Forall (fits nw) xs) as Hf' by (eapply Forall_impl; [exact Hf|]; intros; eapply fits_mono; [|done..]; lia).
  unfold intsetUpgradeAndAdd. rewrite He, Henc, Hl, (uwrap_id 32 (Z.of_nat n + 1)) by lia.
  rewrite (intsetResize_eq nw (set_encoding s (Z.of_nat nw)) (Z.of_nat n + 1) Hnw eq_refl) by lia.
  cbn [mbind res_bind]. rewrite Nat2Z.id.
  set (m := realloc _ _). set (s1 := set_contents _ m).
  assert (length m = (n + 1) * nw)%nat as Hm.
  { apply Nat2Z.inj. unfold m. rewrite length_realloc by nia. rewrite Nat2Z.inj_mul. lia. }
  set (pre := if v <? 0 then 1%nat else 0%nat).
  assert ((if v <? 0 then 1 else 0) = Z.of_nat pre) as -> by (unfold pre; by destruct (v <? 0)).
  assert (pre <= 1)%nat as Hpre by (unfold pre; destruct (v <? 0); lia).
  destruct (upgrade_loop_spec w nw pre xs Hw Hnw ltac:(lia) Hf' Hpre n s1) as (m2&->&Hm2&Hh2);
    [done|done|done| | |].
  { unfold n. rewrite firstn_all. unfold s1; cbn [contents set_contents]. apply holds_realloc; [done|fold n; nia]. }
  { unfold n. rewrite drop_all. by intros i x ?. }
  cbn [mbind res_bind]. change (contents s1) with m in Hm2.
  set (p := if v <? 0 then 0%nat else n) in *.
  assert (p * nw + nw <= length m2)%nat as Hin by (unfold p; destruct (v <? 0); nia).
  assert ((if negb (Z.of_nat pre =? 0) then _intsetSet (set_contents s1 m2) 0 v
           else _intsetSet (set_contents s1 m2) (is_length (set_contents s1 m2)) v) =
          Ret (set_contents s1 (patch (p * nw) (le_split nw v) m2))) as Hset.
  { unfold s1, pre, p in *. cbn [is_length set_contents set_encoding]. rewrite Hl.
    destruct (v <? 0); cbn [Z.of_nat Z.eqb negb Pos.of_succ_nat];
      [change 0 with (Z.of_nat 0)|]; rewrite (intsetSet_eq _ nw) by (cbn [contents set_contents encoding]; done || nia); done. }
  rewrite Hset. unfold s1. cbn [mbind res_bind is_length set_contents set_encoding].
  rewrite Hl, uwrap_id by lia.
  eexists. split; [done|].
  pose proof (proj1 Hloc) as Hp. fold n p in Hp, Hloc.
  assert (p * nw + length (le_split nw v) <= length m2)%nat by (rewrite length_le_split; nia).
  constructor; cbn [encoding is_length contents set_contents set_length]; try done.
  - rewrite length_insert_at by done. fold n. lia.
  - rewrite length_patch, length_insert_at by done. fold n. lia.
  - apply holds_insert_at; [done|rewrite length_patch by done; nia|apply decode_patch_same; [done|done|nia]|..].
    + unfold p. destruct (v <? 0) eqn:Ev; [by intros i x ?|].
      unfold n. rewrite firstn_all. apply holds_patch; [unfold p, n in *; lia| |left; unfold n; lia].
      exact Hh2.
    + unfold p. destruct (v <? 0) eqn:Ev; [|unfold n; rewrite drop_all; by intros i x ?].
      rewrite drop_0. apply holds_patch; [unfold p in *; lia| |right; rewrite length_le_split; lia].
      exact Hh2.
  - unfold insert_at. apply Forall_app_2; [by apply Forall_take|].
    constructor; [done|by apply Forall_drop].
  - by apply insert_at_sorted.
  - rewrite length_insert_at by done. fold n. lia.
Qed.

Definition remove_at {A} (p : nat) (xs : list A) : list A := take p xs ++ drop (S p) xs.

Lemma lookup_remove_at {A} p (xs : list A) i x : (p < length xs)%nat ->
  remove_at p xs !! i = Some x ->
  (i < p /\ xs !! i = Some x)%nat \/ (p <= i /\ xs !! S i = Some x)%nat.
Proof.
  intros Hp. unfold remove_at. destruct (decide (i < p)%nat).
  - rewrite lookup_app_l by (rewrite length_take; lia). rewrite lookup_take_lt by done. auto.
  - rewrite lookup_app_r by (rewrite length_take; lia). rewrite length_take, Nat.min_l by lia.
    rewrite lookup_drop. right. split; [lia|]. by replace (S i) with (S p + (i - p))%nat by lia.
Qed.

Lemma remove_at_sorted xs p : (p < length xs)%nat -> sorted_lt xs -> sorted_lt (remove_at p xs).
Proof.
  intros Hp Hs i j x y Hij Hi Hj.
  apply lookup_remove_at in Hi; [|done]. apply lookup_remove_at in Hj; [|done].
  destruct Hi as [[? Hi]|[? Hi]], Hj as [[? Hj]|[? Hj]]; try lia;
    (eapply Hs; [|exact Hi|exact Hj]; lia).
Qed.

Lemma elem_of_remove_at xs p v y : sorted_lt xs -> xs !! p = Some v ->
  y ∈ remove_at p xs <-> y ∈ xs /\ y <> v.
Proof.
  intros Hs Hp. pose proof (lookup_lt_Some _ _ _ Hp). split.
  - intros [i Hi]%list_elem_of_lookup. apply lookup_remove_at in Hi; [|done].
    destruct Hi as [[? Hi]|[? Hi]]; (split; [by eapply list_elem_of_lookup_2|]).
    + pose proof (Hs i p y v ltac:(lia) Hi Hp). lia.
    + pose proof (Hs p (S i) v y ltac:(lia) Hp Hi). lia.
  - intros [[i Hi]%list_elem_of_lookup Hne]. unfold remove_at. apply elem_of_app.
    destruct (decide (i < p)%nat).
    + left. apply list_elem_of_lookup. exists i. by rewrite lookup_take_lt.
    + right. apply list_elem_of_lookup. exists (i - S p)%nat. rewrite lookup_drop.
      destruct (decide (i = p)) as [->|]; [congruence|].
      by replace (S p + (i - S p))%nat with i by lia.
Qed.

Lemma remove_in_place `{Heap} w s xs v p :
  rep w s xs -> xs !! p = Some v ->
  exists s',
   (s1 ← (if Z.of_nat p <? u32 (is_length s - 1)
          then intsetMoveTail s (u32 (Z.of_nat p + 1)) (Z.of_nat p) else Ret s);
    s2 ← intsetResize s1 (u32 (is_length s - 1));
    Ret (set_length s2 (u32 (is_length s - 1)), true)) = Ret (s', true) /\
   rep w s' (remove_at p xs).
Proof.
  intros R Hx. pose proof R as [Hw He Hl Hsz Hh Hf Hso Hn].
  pose proof (lookup_lt_Some _ _ _ Hx) as Hp.
  assert (0 < w)%nat as Hw0 by (width_cases Hw; lia).
  rewrite Hl. set (n := length xs) in *. rewrite (uwrap_id 32 (Z.of_nat n - 1)) by lia.
  assert (holds w (contents s) 0 (take p xs)) as Hlo by (apply holds_take_drop; [done|lia]).
  assert (holds w (contents s) (S p) (drop (S p) xs)) as Hhi by (apply holds_take_drop; [done|lia]).
  assert (exists m2, (if Z.of_nat p <? Z.of_nat n - 1
      then intsetMoveTail s (u32 (Z.of_nat p + 1)) (Z.of_nat p) else Ret s) =
      Ret (set_contents s m2) /\ length m2 = length (contents s) /\
      holds w m2 0 (take p xs) /\ holds w m2 p (drop (S p) xs)) as (m2&->&Hm2&Hlo2&Hhi2).
  { destruct (Z.ltb_spec (Z.of_nat p) (Z.of_nat n - 1)).
    - rewrite uwrap_id by lia. replace (Z.of_nat p + 1) with (Z.of_nat (S p)) by lia.
      rewrite (intsetMoveTail_eq w s (S p) p n) by (done || lia || nia).
      eexists. split; [done|].
      pose proof (length_sub (S p * w) ((n - S p) * w) (contents s) ltac:(nia)) as Hsub.
      split_and!.
      + apply length_patch. rewrite Hsub. nia.
      + apply holds_patch; [rewrite Hsub; nia|done|left]. rewrite length_take. nia.
      + apply holds_moved; [done|rewrite length_drop; fold n; lia|nia|nia].
    - exists (contents s). split_and!; [by destruct s|done|done|].
      rewrite drop_ge by (fold n; lia). by intros i x ?. }
  cbn [mbind res_bind].
  rewrite (intsetResize_eq w (set_contents s m2) (Z.of_nat n - 1) Hw He) by lia.
  cbn [mbind res_bind contents set_contents]. eexists. split; [done|].
  assert (length (remove_at p xs) = n - 1)%nat as Hlr.
  { unfold remove_at. rewrite length_app, length_take, length_drop. fold n. lia. }
  constructor; cbn [encoding is_length contents set_contents set_length]; try done.
  - rewrite Hlr. lia.
  - rewrite Hlr. apply Nat2Z.inj. rewrite length_realloc by nia. nia.
  - apply holds_realloc; [|rewrite Hlr; nia]. unfold remove_at. apply holds_app.
    rewrite length_take, Nat.min_l by (fold n; lia). done.
  - unfold remove_at. apply Forall_app_2; [by apply Forall_take|by apply Forall_drop].
  - by apply remove_at_sorted.
  - rewrite Hlr. lia.
Qed.

(** * The set operations *)

(** [s] represents the set [X]. *)
Definition intset_repr (s : intset) (X : gset Z) : Prop :=
  exists w xs, rep w s xs /\ X = list_to_set xs.

Lemma rep_NoDup w s xs : rep w s xs -> NoDup xs.
Proof.
  intros R. apply NoDup_alt. intros i j x Hi Hj.
  destruct (Nat.lt_trichotomy i j) as [Hl|[He|Hl]]; [|done|].
  - pose proof (rep_sorted w s xs R i j x x Hl Hi Hj). lia.
  - pose proof (rep_sorted w s xs R j i x x Hl Hj Hi). lia.
Qed.

Lemma rep_size_set w s xs : rep w s xs -> size (list_to_set xs : gset Z) = length xs.
Proof. intros R. by apply size_list_to_set, (rep_NoDup w s). Qed.

(** A new set is empty. *)
Lemma intsetNew_repr : intset_repr intsetNew ∅.
Proof.
  exists 2%nat, []. split; [|done]. constructor; try done. by left.
Qed.

(** [intsetAdd] refines set insertion and reports whether the value was
    new, whatever the width of the elements and whether or not it has to
    change; no access leaves the block. *)
Theorem intsetAdd_refines `{Heap} s X v :
  intset_repr s X -> - 2 ^ 63 <= v < 2 ^ 63 -> Z.of_nat (size X) + 1 < 2 ^ 29 ->
  exists s', intsetAdd s v = Ret (s', bool_decide (v ∉ X)) /\ intset_repr s' ({[v]} ∪ X).
Proof.
  intros (w&xs&R&->) Hv Hn. rewrite (rep_size_set w s xs R) in Hn.
  destruct (value_encoding v Hv) as (vw&Hvw&Henc&Hvf&Hmin).
  assert (forall p, (list_to_set (insert_at p v xs) : gset Z) = {[v]} ∪ list_to_set xs) as Hset.
  { intros p. apply set_eq. intros y. rewrite elem_of_list_to_set, elem_of_insert_at. set_solver. }
  unfold intsetAdd. rewrite (rep_enc w s xs R), Henc.
  destruct (Z.ltb_spec (Z.of_nat w) (Z.of_nat vw)) as [Hlt|Hge].
  - assert (~ fits w v) as Hnf by (intros Hf; specialize (Hmin w (rep_width_ok w s xs R) Hf); lia).
    destruct (upgrade_and_add w vw s xs v R) as (s'&->&R'); try done; [lia|].
    cbn [mbind res_bind]. exists s'. split.
    + rewrite bool_decide_eq_true_2; [done|]. rewrite elem_of_list_to_set.
      eapply located_false, upgrade_located; [apply R|done].
    + eexists _, _. split; [exact R'|]. by rewrite Hset.
  - destruct (intsetSearch_spec w s xs v R) as (found&p&->&Hloc). cbn [mbind res_bind].
    destruct found.
    + pose proof (located_true _ _ _ Hloc) as Hin. exists s. split.
      * rewrite bool_decide_eq_false_2; [done|]. rewrite elem_of_list_to_set. tauto.
      * exists w, xs. split; [done|]. set_solver.
    + destruct (add_in_place w s xs v p R) as (s'&Hrun&R'); [|done|done|].
      { apply (fits_mono vw w); [lia|destruct Hvw as [->|[->| ->]]; lia|done]. }
      exists s'. rewrite bool_decide_eq_true_2
        by (rewrite elem_of_list_to_set; by eapply located_false).
      split; [exact Hrun|]. eexists _, _. split; [exact R'|]. by rewrite Hset.
Qed.

(** [intsetRemove] refines set deletion and reports whether the value was
    present. *)
Theorem intsetRemove_refines `{Heap} s X v :
  intset_repr s X -> - 2 ^ 63 <= v < 2 ^ 63 ->
  exists s', intsetRemove s v = Ret (s', bool_decide (v ∈ X)) /\ intset_repr s' (X ∖ {[v]}).
Proof.
  intros (w&xs&R&->) Hv. destruct (value_encoding v Hv) as (vw&Hvw&Henc&Hvf&Hmin).
  unfold intsetRemove. rewrite (rep_enc w s xs R), Henc.
  destruct (Z.leb_spec (Z.of_nat vw) (Z.of_nat w)) as [Hle|Hgt].
  - destruct (intsetSearch_spec w s xs v R) as (found&p&->&Hloc). cbn [mbind res_bind].
    destruct found.
    + destruct (remove_in_place w s xs v p R Hloc) as (s'&Hrun&R').
      exists s'. rewrite bool_decide_eq_true_2
        by (rewrite elem_of_list_to_set; by eapply located_true).
      split; [exact Hrun|]. eexists _, _. split; [exact R'|]. apply set_eq. intros y.
      rewrite elem_of_list_to_set, (elem_of_remove_at xs p v) by (apply R || done). set_solver.
    + pose proof (located_false _ _ _ Hloc). exists s. split.
      * rewrite bool_decide_eq_false_2; [done|]. by rewrite elem_of_list_to_set.
      * exists w, xs. split; [done|]. set_solver.
  - assert (v ∉ xs) as Hnin.
    { intros Hin. pose proof (rep_fits w s xs R) as Hf. rewrite Forall_forall in Hf.
      specialize (Hmin w (rep_width_ok w s xs R) (Hf v Hin)). lia. }
    exists s. split.
    + rewrite bool_decide_eq_false_2; [done|]. by rewrite elem_of_list_to_set.
    + exists w, xs. split; [done|]. set_solver.
Qed.

(** [intsetFind] decides membership. *)
Theorem intsetFind_correct s X v :
  intset_repr s X -> - 2 ^ 63 <= v < 2 ^ 63 -> intsetFind s v = Ret (bool_decide (v ∈ X)).
Proof.
  intros (w&xs&R&->) Hv. destruct (value_encoding v Hv) as (vw&Hvw&Henc&Hvf&Hmin).
  unfold intsetFind. rewrite (rep_enc w s xs R), Henc.
  destruct (Z.leb_spec (Z.of_nat vw) (Z.of_nat w)) as [Hle|Hgt].
  - destruct (intsetSearch_spec w s xs v R) as (found&p&->&Hloc). cbn [mbind res_bind]. f_equal.
    destruct found; symmetry; [apply bool_decide_eq_true_2|apply bool_decide_eq_false_2];
      rewrite elem_of_list_to_set; [by eapply located_true|by eapply located_false].
  - rewrite bool_decide_eq_false_2; [done|]. rewrite elem_of_list_to_set. intros Hin.
    pose proof (rep_fits w s xs R) as Hf. rewrite Forall_forall in Hf.
    specialize (Hmin w (rep_width_ok w s xs R) (Hf v Hin)). lia.
Qed.

(** * Validation of untrusted blobs *)

Lemma decode_fits w m i : width_ok w -> fits w (decode w m i).
Proof.
  intros Hw. unfold fits, decode. apply swrap_range. width_cases Hw; lia.
Qed.

(** The first [n] elements of a block. *)
Definition elements_of (w : nat) (m : list Z) (n : nat) : list Z := map (decode w m) (seq 0 n).

Lemma lookup_elements_of w m n i x :
  elements_of w m n !! i = Some x <-> (i < n)%nat /\ x = decode w m i.
Proof.
  unfold elements_of. change (map ?f) with (fmap (M := list) f).
  rewrite list_lookup_fmap_Some. split.
  - intros (y&->&[-> ?]%lookup_seq). cbn. done.
  - intros [? ->]. exists i. split; [done|]. apply lookup_seq. lia.
Qed.

Lemma holds_elements_of w m n : (n * w <= length m)%nat -> holds w m 0 (elements_of w m n).
Proof. intros Hl i x [Hi ->]%lookup_elements_of. split; [nia|done]. Qed.

(** The loop compares neighbours. *)
Lemma validate_loop_spec w s k : width_ok w -> encoding s = Z.of_nat w ->
  forall n i prev, ((i + n) * w <= length (contents s))%nat -> (k = i + n)%nat ->
  exists b, validate_loop n s (Z.of_nat i) prev = Ret b /\
    (b = true <-> (forall x, (i < k)%nat -> x = decode w (contents s) i -> prev < x) /\
       forall j, (i <= j)%nat -> (j + 1 < k)%nat ->
         decode w (contents s) j < decode w (contents s) (j + 1)).
Proof.
  intros Hw He. induction n as [|n IH]; intros i prev Hl Hk; cbn [validate_loop].
  { exists true. split; [done|]. split; [|done]. intros _. split; intros; lia. }
  unfold _intsetGet. rewrite He, getEncoded_eq by (done || nia). cbn [mbind res_bind].
  destruct (Z.leb_spec (decode w (contents s) i) prev) as [Hle|Hgt].
  - exists false. split; [done|]. split; [done|]. intros [Hp _].
    specialize (Hp _ ltac:(lia) eq_refl). lia.
  - replace (Z.of_nat i + 1) with (Z.of_nat (i + 1)) by lia.
    destruct (IH (i + 1)%nat (decode w (contents s) i)) as (b&->&Hb); [nia|lia|].
    exists b. split; [done|]. rewrite Hb. split.
    + intros [H1 H2]. split; [by intros x ? ->|]. intros j Hj1 Hj2.
      destruct (decide (j = i)) as [->|]; [by apply H1|apply H2; lia].
    + intros [H1 H2]. split; [intros x ? ->; by apply H2|]. intros j ? ?. apply H2; lia.
Qed.

Lemma sorted_neighbours w m n :
  (forall j, (j + 1 < n)%nat -> decode w m j < decode w m (j + 1)) <->
  sorted_lt (elements_of w m n).
Proof.
  split.
  - intros Hn i j x y Hij [Hi ->]%lookup_elements_of [Hj ->]%lookup_elements_of.
    assert (forall k, (i < k)%nat -> (k < n)%nat -> decode w m i < decode w m k) as Hgo.
    { induction k as [|k IH]; intros H1 H2; [lia|]. pose proof (Hn k ltac:(lia)).
      replace (k + 1)%nat with (S k) in * by lia.
      destruct (decide (i = k)) as [->|]; [done|]. specialize (IH ltac:(lia) ltac:(lia)). lia. }
    by apply Hgo.
  - intros Hs j Hj. apply (Hs j (j + 1)%nat); [lia|by apply lookup_elements_of; split; [lia|]..].
Qed.

Lemma rep_elements_of w s xs : rep w s xs -> xs = elements_of w (contents s) (length xs).
Proof.
  intros R. apply list_eq. intros i. apply option_eq. intros x. rewrite lookup_elements_of. split.
  - intros Hx. split; [by eapply lookup_lt_Some|]. symmetry. by apply (rep_holds w s xs R).
  - intros [Hi ->]. destruct (lookup_lt_is_Some_2 xs i Hi) as [x Hx].
    rewrite Hx. f_equal. symmetry. by apply (rep_holds w s xs R).
Qed.

Lemma rep_enc_unique s (w w' : nat) :
  encoding s = Z.of_nat w -> encoding s = Z.of_nat w' -> w = w'.
Proof. lia. Qed.

Lemma known_encoding s :
  (exists w, width_ok w /\ encoding s = Z.of_nat w) \/
  ((encoding s =? INTSET_ENC_INT64) || (encoding s =? INTSET_ENC_INT32) ||
   (encoding s =? INTSET_ENC_INT16)) = false.
Proof.
  destruct (Z.eqb_spec (encoding s) INTSET_ENC_INT64); [left; exists 8%nat; unfold width_ok; auto|].
  destruct (Z.eqb_spec (encoding s) INTSET_ENC_INT32); [left; exists 4%nat; unfold width_ok; auto|].
  destruct (Z.eqb_spec (encoding s) INTSET_ENC_INT16); [left; exists 2%nat; unfold width_ok; auto|].
  by right.
Qed.

(** A represented non-empty set has the size its header announces. *)
Lemma rep_blob_size w s xs n :
  rep w s xs -> xs <> [] -> length (contents s) = n ->
  is_length s <> 0 /\ u64 (8 + u64 (is_length s * Z.of_nat w)) = 8 + Z.of_nat n.
Proof.
  intros R Hne Hcl. pose proof (rep_len w s xs R) as Hl. pose proof (rep_size w s xs R) as Hsz.
  pose proof (rep_width_ok w s xs R) as Hw. pose proof (rep_small w s xs R).
  split; [rewrite Hl; destruct xs; [done|cbn [length]; lia]|].
  rewrite Hl, (uwrap_id 64 (_ * _)), uwrap_id by (width_cases Hw; lia).
  rewrite <- Nat2Z.inj_mul, <- Hsz, Hcl. lia.
Qed.

(** The elements in the block are those of a set exactly when they increase. *)
Lemma sorted_elements_repr w s n :
  width_ok w -> encoding s = Z.of_nat w -> is_length s = Z.of_nat n -> (0 < n)%nat ->
  length (contents s) = (n * w)%nat -> Z.of_nat (length (contents s)) < 2 ^ 30 -> bytes (contents s) ->
  sorted_lt (elements_of w (contents s) n) <-> exists X, X <> ∅ /\ intset_repr s X.
Proof.
  intros Hw He Hn Hpos Hsz Hlen Hb.
  assert (length (elements_of w (contents s) n) = n) as Hle
    by (unfold elements_of; by rewrite length_map, length_seq).
  split.
  - intros Hs. exists (list_to_set (elements_of w (contents s) n)). split.
    + assert (decode w (contents s) 0 ∈ elements_of w (contents s) n); [|set_solver].
      apply list_elem_of_lookup. exists 0%nat. by apply lookup_elements_of.
    + exists w, (elements_of w (contents s) n). split; [|done].
      constructor; try done; rewrite ?Hle; [done|done|apply holds_elements_of; lia| |width_cases Hw; lia].
      apply Forall_forall. intros x [i [_ ->]%lookup_elements_of]%list_elem_of_lookup.
      by apply decode_fits.
  - intros (X&HX&w'&xs&R&->). pose proof (rep_elements_of w' s xs R) as Hxs.
    pose proof (rep_len w' s xs R) as Hl.
    destruct (rep_enc_unique s w w' He (rep_enc w' s xs R)).
    replace n with (length xs) by lia. rewrite <- Hxs. apply R.
Qed.

(** What the validation loop checks is the order of the elements. *)
Lemma neighbours_sorted w m n :
  ((forall x, (1 < n)%nat -> x = decode w m 1 -> decode w m 0 < x) /\
   (forall j, (1 <= j)%nat -> (j + 1 < n)%nat -> decode w m j < decode w m (j + 1)))
  <-> sorted_lt (elements_of w m n).
Proof.
  rewrite <- sorted_neighbours. split.
  - intros [H1 H2] [|j] Hj; [by apply H1|apply H2; lia].
  - intros Hs. split; [intros x ? ->; by apply (Hs 0%nat)|]. intros j _ Hj. by apply Hs.
Qed.

(** C39: deep validation of any byte blob (as loaded from an RDB payload) is
    memory-safe and accepts exactly the blobs that represent a non-empty set
    in the intset layout. *)
Theorem intsetValidateIntegrity_correct p :
  bytes p -> Z.of_nat (length p) < 2 ^ 30 ->
  exists b, intsetValidateIntegrity p (Z.of_nat (length p)) true = Ret b /\
    (b = true <-> 8 <= Z.of_nat (length p) /\
       exists X, X <> ∅ /\ intset_repr (intset_of_blob p) X).
Proof.
  intros Hp Hlen. unfold intsetValidateIntegrity, sizeof_intset.
  destruct (Z.ltb_spec (Z.of_nat (length p)) 8) as [Hsmall|Hbig].
  { exists false. split; [done|]. split; [done|]. lia. }
  set (s := intset_of_blob p). set (n := is_length s).
  assert (length (contents s) = length p - 8)%nat as Hcl by apply length_drop.
  assert (0 <= n < 2 ^ 32) as Hn.
  { pose proof (le_combine_range (sub 4 4 p) (sub_bytes 4 4 p Hp)) as Hr.
    rewrite length_sub in Hr by lia. exact Hr. }
  destruct (known_encoding s) as [(w&Hw&He)|Hno].
  2: { rewrite Hno. exists false. split; [done|]. split; [done|]. intros (_&X&_&w&xs&R&_). exfalso.
       pose proof (rep_enc w s xs R) as He. pose proof (rep_width_ok w s xs R) as Hw.
       rewrite He in Hno. by width_cases Hw. }
  assert (((encoding s =? INTSET_ENC_INT64) || (encoding s =? INTSET_ENC_INT32) ||
           (encoding s =? INTSET_ENC_INT16)) = true) as -> by (rewrite He; by width_cases Hw).
  cbn [negb]. rewrite He.
  assert (forall X, X <> ∅ -> intset_repr s X ->
    n <> 0 /\ u64 (8 + u64 (n * Z.of_nat w)) = Z.of_nat (length p)) as Hrep.
  { intros X HX (w'&xs&R&->). destruct (rep_enc_unique s w w' He (rep_enc w' s xs R)).
    destruct (rep_blob_size w s xs _ R ltac:(by intros ->) Hcl). split; [done|]. unfold n. lia. }
  destruct (Z.eqb_spec (u64 (8 + u64 (n * Z.of_nat w))) (Z.of_nat (length p))) as [Hsz|Hsz]; cbn [negb].
  2: { exists false. split; [done|]. split; [done|]. intros (_&X&HX&HR). exfalso. by apply Hsz, (Hrep X). }
  assert (length (contents s) = Z.to_nat n * w)%nat as Hsz'.
  { rewrite (uwrap_id 64 (n * _)), uwrap_id in Hsz by (rewrite ?uwrap_id; width_cases Hw; lia). nia. }
  destruct (Z.eqb_spec n 0) as [Hz|Hnz].
  { exists false. split; [done|]. split; [done|]. intros (_&X&HX&HR). exfalso. by apply (Hrep X HX HR). }
  unfold _intsetGet. rewrite He. change 0 with (Z.of_nat 0) at 1.
  rewrite getEncoded_eq by (done || nia). cbn [mbind res_bind].
  destruct (validate_loop_spec w s (Z.to_nat n) Hw He (Z.to_nat (n - 1)) 1 (decode w (contents s) 0))
    as (b&Hrun&Hb); [nia|lia|].
  change (Z.of_nat 1) with 1 in Hrun. rewrite Hrun.
  exists b. split; [done|]. rewrite Hb, neighbours_sorted.
  rewrite (sorted_elements_repr w s (Z.to_nat n)); try done; [|fold n; lia|lia|lia|by apply Forall_drop].
  split; [done|]. by intros [_ ?].
Qed.

(** * Reading by position *)

Lemma intsetGet_pos w s xs (i : nat) : rep w s xs ->
  intsetGet s (Z.of_nat i) = Ret (xs !! i).
Proof.
  intros R. unfold intsetGet. rewrite (rep_len w s xs R).
  destruct (Z.ltb_spec (Z.of_nat i) (Z.of_nat (length xs))).
  - destruct (lookup_lt_is_Some_2 xs i ltac:(lia)) as [x Hx].
    by rewrite (intsetGet_eq w s xs i x R Hx), Hx.
  - by rewrite lookup_ge_None_2 by lia.
Qed.

(** [intsetGet] enumerates the set in increasing order without repetition
    and fails beyond the end, and [intsetMin], [intsetMax] are its bounds. *)
Theorem intsetGet_enumerates s X :
  intset_repr s X ->
  exists xs, X = list_to_set xs /\ sorted_lt xs /\ intsetLen s = Z.of_nat (size X) /\
    (forall i : nat, intsetGet s (Z.of_nat i) = Ret (xs !! i)) /\
    (X <> ∅ -> exists lo hi, intsetMin s = Ret lo /\ intsetMax s = Ret hi /\ lo ∈ X /\ hi ∈ X /\
       forall y, y ∈ X -> lo <= y <= hi).
Proof.
  intros (w&xs&R&->). exists xs. rewrite (rep_size_set w s xs R).
  split_and!; [done|apply R|apply R|by intros i; apply (intsetGet_pos w)|].
  intros Hne. pose proof (rep_sorted w s xs R) as Hs. pose proof (rep_small w s xs R).
  assert (0 < length xs)%nat by (destruct xs; [done|cbn; lia]).
  destruct (lookup_lt_is_Some_2 xs 0 ltac:(lia)) as [lo Hlo].
  destruct (lookup_lt_is_Some_2 xs (length xs - 1) ltac:(lia)) as [hi Hhi].
  exists lo, hi. unfold intsetMin, intsetMax.
  rewrite (rep_len w s xs R), swrap_id by (cbn; lia).
  replace (Z.of_nat (length xs) - 1) with (Z.of_nat (length xs - 1)) by lia.
  rewrite (intsetGet_eq w s xs 0 lo R Hlo : _intsetGet s 0 = Ret lo), (intsetGet_eq w s xs _ hi R Hhi).
  rewrite !elem_of_list_to_set. split_and!; [done|done|by eapply list_elem_of_lookup_2..|].
  intros y [i Hi]%elem_of_list_to_set%list_elem_of_lookup. pose proof (lookup_lt_Some _ _ _ Hi).
  split.
  - destruct (decide (i = 0)%nat) as [->|]; [by simplify_eq|].
    pose proof (Hs 0%nat i lo y ltac:(lia) Hlo Hi). lia.
  - destruct (decide (i = length xs - 1)%nat) as [->|]; [by simplify_eq|].
    pose proof (Hs i (length xs - 1)%nat y hi ltac:(lia) Hi Hhi). lia.
Qed.

(** A tail of 2^29 eight-byte elements has 2^32 bytes: the 32-bit byte count
    of [intsetMoveTail] is 0 and nothing is moved. *)
Lemma tail_bytes_overflow s :
  encoding s = INTSET_ENC_INT64 -> is_length s = 2 ^ 29 -> tail_bytes s 0 = 0.
Proof. intros He Hl. unfold tail_bytes. by rewrite He, Hl. Qed.

(** * A concrete set *)

Definition demo_set : intset :=
  Eval vm_compute in
  foldl (fun s v => match intsetAdd (H := zero_heap) s v with Ret (s, _) => s | _ => s end)
    intsetNew [5; -3; 40000].

Definition demo_elems : gset Z := {[-3; 5; 40000]}.

Lemma demo_set_repr : intset_repr demo_set demo_elems.
Proof.
  assert (elements_of 4 (contents demo_set) 3 = [-3; 5; 40000]) as He by (vm_compute; reflexivity).
  exists 4%nat, [-3; 5; 40000]. split; [|unfold demo_elems; set_solver]. rewrite <- He.
  constructor; [by right; left|done|done|done|..|done].
  - apply holds_elements_of. apply Nat.leb_le. vm_compute. reflexivity.
  - apply Forall_forall. intros x [i [_ ->]%lookup_elements_of]%list_elem_of_lookup.
    apply decode_fits. by right; left.
  - apply sorted_neighbours. intros [|[|j]] Hj; try lia; vm_compute; reflexivity.
Qed.

Lemma demo_set_size : Z.of_nat (size demo_elems) + 1 < 2 ^ 29.
Proof. vm_compute. reflexivity. Qed.

Lemma intsetAdd_refines_witness :
  exists s', intsetAdd (H := zero_heap) demo_set (2 ^ 40) = Ret (s', true) /\
    intset_repr s' ({[2 ^ 40]} ∪ demo_elems).
Proof.
  exact (intsetAdd_refines (H := zero_heap) demo_set demo_elems (2 ^ 40)
           demo_set_repr ltac:(lia) demo_set_size).
Defined.

Lemma intsetRemove_refines_witness :
  exists s', intsetRemove (H := zero_heap) demo_set 5 = Ret (s', true) /\
    intset_repr s' (demo_elems ∖ {[5]}).
Proof.
  exact (intsetRemove_refines (H := zero_heap) demo_set demo_elems 5 demo_set_repr ltac:(lia)).
Defined.

Lemma intsetFind_correct_witness : intsetFind demo_set 6 = Ret false.
Proof. exact (intsetFind_correct demo_set demo_elems 6 demo_set_repr ltac:(lia)). Defined.

Lemma intsetValidateIntegrity_correct_witness :
  exists b, intsetValidateIntegrity [2; 0; 0; 0; 2; 0; 0; 0; 1; 0; 3; 0] (Z.of_nat 12) true = Ret b /\
    (b = true <-> 8 <= Z.of_nat 12 /\
       exists X, X <> ∅ /\ intset_repr (intset_of_blob [2; 0; 0; 0; 2; 0; 0; 0; 1; 0; 3; 0]) X).
Proof.
  apply (intsetValidateIntegrity_correct [2; 0; 0; 0; 2; 0; 0; 0; 1; 0; 3; 0]);
    [repeat constructor; unfold is_byte; lia|cbn; lia].
Defined.

Lemma intsetGet_enumerates_witness :
  exists xs, demo_elems = list_to_set xs /\ sorted_lt xs /\
    intsetLen demo_set = Z.of_nat (size demo_elems) /\
    (forall i : nat, intsetGet demo_set (Z.of_nat i) = Ret (xs !! i)) /\
    (demo_elems <> ∅ -> exists lo hi, intsetMin demo_set = Ret lo /\
       intsetMax demo_set = Ret hi /\ lo ∈ demo_elems /\
       hi ∈ demo_elems /\
       forall y, y ∈ demo_elems -> lo <= y <= hi).
Proof. apply intsetGet_enumerates, demo_set_repr. Defined.
