(* ===== verification/NumStr.v ===== *)
(** * Redis' integer/string conversions ([redis-7.2.3/src/util.c])

    [string2ll], [ll2string] and their helpers decide which strings Redis
    stores as integers.  Strings are lists of byte values; the conversions to
    a string write into a byte block at an offset, as the C functions write
    through [dst].  The theorems show that the strings accepted by [string2ll]
    are exactly the decimal representations that [ll2string] writes. *)
From Stdlib Require Import String Ascii.
From S2P Require Import Prelude Mem.

Local Open Scope Z_scope.

(** Bytes of a C string literal. *)
Definition str (s : string) : list Z := map (fun c => Z.of_N (N_of_ascii c)) (list_ascii_of_string s).

Definition LLONG_MAX : Z := 2 ^ 63 - 1.
Definition LLONG_MIN : Z := - 2 ^ 63.
Definition ULLONG_MAX : Z := 2 ^ 64 - 1.
Definition LONG_STR_SIZE : Z := 21.

(** ** Number to string *)

Definition ge01 (v b : Z) : Z := if b <=? v then 1 else 0.

(** One recursive call at most: a 64-bit value divided by 10^12 is below
    10^12. *)
Fixpoint digits10_rec (fuel : nat) (v : Z) : Z :=
  match fuel with
  | O => 0
  | S fuel =>
      if v <? 10 then 1 else
      if v <? 100 then 2 else
      if v <? 1000 then 3 else
      if v <? 1000000000000 then
        if v <? 100000000 then
          if v <? 1000000 then
            if v <? 10000 then 4 else 5 + ge01 v 100000
          else 7 + ge01 v 10000000
        else if v <? 10000000000 then 9 + ge01 v 1000000000
        else 11 + ge01 v 100000000000
      else 12 + digits10_rec fuel (v / 1000000000000)
  end.

Definition digits10 (v : Z) : Z := digits10_rec 2 v.

Definition sdigits10 (v : Z) : Z :=
  if v <? 0 then
    let uv := if negb (v =? LLONG_MIN) then - v else LLONG_MAX + 1 in
    digits10 uv + 1
  else digits10 v.

Definition digits : list Z := Eval vm_compute in
  str ("0001020304050607080910111213141516171819" ++
       "2021222324252627282930313233343536373839" ++
       "4041424344454647484950515253545556575859" ++
       "6061626364656667686970717273747576777879" ++
       "8081828384858687888990919293949596979899").

(** [while (value >= 100)]: two digits per iteration, from the right.
    The block [m] and the offset [dst] stand for the pointer [dst]. *)
Fixpoint ull_loop (fuel : nat) (m : list Z) (dst value next : Z) : res (list Z * Z * Z) :=
  if 100 <=? value then
    match fuel with
    | O => Diverge
    | S fuel =>
        let i := (value mod 100) * 2 in
        let value := value / 100 in
        d1 ← aget digits (i + 1);
        m ← aset m (dst + next) d1;
        d0 ← aget digits i;
        m ← aset m (dst + next - 1) d0;
        ull_loop fuel m dst value (u32 (next - 2))
    end
  else Ret (m, value, next).

(** "Handle last 1-2 digits." *)
Definition ull_last (m : list Z) (dst value next : Z) : res (list Z) :=
  if value <? 10 then aset m (dst + next) (48 + value)
  else
    let i := value * 2 in
    d1 ← aget digits (i + 1);
    m ← aset m (dst + next) d1;
    d0 ← aget digits i;
    aset m (dst + next - 1) d0.

(** Returns the block and the C result. *)
Definition ull2string (m : list Z) (dst dstlen value : Z) : res (list Z * Z) :=
  let length := digits10 value in
  if dstlen <=? length then
    if 0 <? dstlen then m ← aset m dst 0; Ret (m, 0) else Ret (m, 0)
  else
  let next := u32 (length - 1) in
  m ← aset m (dst + next + 1) 0;
  '(m, value, next) ← ull_loop 10 m dst value next;
  m ← ull_last m dst value next;
  Ret (m, length).

Definition ll2string (m : list Z) (dst dstlen svalue : Z) : res (list Z * Z) :=
  if svalue <? 0 then
    let value := if negb (svalue =? LLONG_MIN) then - svalue else LLONG_MAX + 1 in
    if dstlen <? 2 then
      if 0 <? dstlen then m ← aset m dst 0; Ret (m, 0) else Ret (m, 0)
    else
    m ← aset m dst 45;
    '(m, length) ← ull2string m (dst + 1) (dstlen - 1) value;
    if length =? 0 then Ret (m, 0) else Ret (m, length + 1)
  else
    '(m, length) ← ull2string m dst dstlen svalue;
    if length =? 0 then Ret (m, 0) else Ret (m, length).

(** ** String to number *)

Definition is_digit (c : Z) : bool := (48 <=? c) && (c <=? 57).

(** The digit loop: [None] on overflow, else the value and what is left. *)
Fixpoint string2ll_loop (p : list Z) (v : Z) : option (Z * list Z) :=
  match p with
  | [] => Some (v, [])
  | c :: p' =>
      if is_digit c then
        if ULLONG_MAX / 10 <? v then None else
        let v := u64 (v * 10) in
        if ULLONG_MAX - (c - 48) <? v then None else
        string2ll_loop p' (u64 (v + (c - 48)))
      else Some (v, p)
  end.

(** [Some v] is the C result 1 with [*value = v]. *)
Definition string2ll (s : list Z) : option Z :=
  let slen := Z.of_nat (List.length s) in
  if (slen =? 0) || (LONG_STR_SIZE <=? slen) then None else
  if (slen =? 1) && (hd 0 s =? 48) then Some 0 else
  let negative := hd 0 s =? 45 in
  let p := if negative then tl s else s in
  match p with
  | [] => None
  | c :: p =>
      if (49 <=? c) && (c <=? 57) then
        match string2ll_loop p (c - 48) with
        | None => None
        | Some (v, rest) =>
            match rest with
            | _ :: _ => None
            | [] =>
                if negative then
                  if LLONG_MAX + 1 <? v then None else Some (s64 (u64 (- v)))
                else
                  if LLONG_MAX <? v then None else Some v
            end
        end
      else None
  end.

(** [long] is 64 bits: the range test never fails. *)
Definition string2l (s : list Z) : option Z :=
  match string2ll s with
  | None => None
  | Some llval =>
      if (llval <? LLONG_MIN) || (LLONG_MAX <? llval) then None else Some llval
  end.

(** ** Byte-set helpers *)

Fixpoint memchr_in (c : Z) (chars : list Z) : bool :=
  match chars with
  | [] => false
  | x :: chars => if c =? x then true else memchr_in c chars
  end.

(** The offset of the first byte of [s] that is in [chars]. *)
Fixpoint mempbrk (s chars : list Z) (j : nat) : option nat :=
  match s with
  | [] => None
  | c :: s => if memchr_in c chars then Some j else mempbrk s chars (S j)
  end.

Fixpoint map_char (c : Z) (from to : list Z) : Z :=
  match from, to with
  | f :: from, t :: to => if c =? f then t else map_char c from to
  | _, _ => c
  end.

Definition memmapchars (s from to : list Z) : list Z := map (fun c => map_char c from to) s.

(** ** Names of options *)

(** [tolower] in the C locale. *)
Definition tolower (c : Z) : Z := if (65 <=? c) && (c <=? 90) then c + 32 else c.

(** The bytes of a string before its first NUL. *)
Fixpoint c_string (s : list Z) : list Z :=
  match s with
  | [] => []
  | c :: s => if c =? 0 then [] else c :: c_string s
  end.

(** [!strcasecmp(s, name)], for a name in lower case. *)
Definition is_option (s : list Z) (name : list Z) : bool := bool_decide (map tolower (c_string s) = name).

(** ** Specification: decimal notation *)

Fixpoint udec_fuel (n : nat) (v : Z) : list Z :=
  match n with
  | O => []
  | S n => if v <? 10 then [48 + v] else udec_fuel n (v / 10) ++ [48 + v mod 10]
  end.

(** Twenty digits are enough for a 64-bit value. *)
Definition udec (v : Z) : list Z := udec_fuel 20 v.
Definition dec (v : Z) : list Z := if v <? 0 then 45 :: udec (- v) else udec v.

Lemma udec_fuel_stable n m v :
  (0 < n <= m)%nat -> 0 <= v < 10 ^ Z.of_nat n -> udec_fuel m v = udec_fuel n v.
Proof.
  revert m v. induction n as [|n IH]; intros m v Hn Hv; [lia|].
  destruct m as [|m]; [lia|]. simpl. destruct (Z.ltb_spec v 10) as [|H10]; [done|].
  rewrite (IH m); [done| |].
  - destruct n; [|lia]. change (10 ^ Z.of_nat 1) with 10 in Hv. lia.
  - rewrite Nat2Z.inj_succ, Z.pow_succ_r in Hv by lia.
    split; [apply Z.div_pos; lia|]. apply Z.div_lt_upper_bound; lia.
Qed.

Lemma udec_small v : 0 <= v < 10 -> udec v = [48 + v].
Proof. intros H. unfold udec. simpl. by rewrite (proj2 (Z.ltb_lt v 10)) by lia. Qed.

Lemma udec_step v : 10 <= v < 10 ^ 20 -> udec v = udec (v / 10) ++ [48 + v mod 10].
Proof.
  intros H. unfold udec.
  transitivity (udec_fuel 19 (v / 10) ++ [48 + v mod 10]).
  - cbn [udec_fuel]. by rewrite (proj2 (Z.ltb_ge v 10)) by lia.
  - rewrite (udec_fuel_stable 19 20 (v / 10)); [done|lia|].
    change (10 ^ Z.of_nat 19) with (10 ^ 19).
    split; [apply Z.div_pos; lia|apply Z.div_lt_upper_bound; lia].
Qed.

Lemma udec_step2 v : 100 <= v < 10 ^ 20 ->
  udec v = (udec (v / 100) ++ [48 + v / 10 mod 10]) ++ [48 + v mod 10].
Proof.
  intros H. rewrite udec_step by lia. rewrite udec_step.
  - rewrite Z.div_div by lia. done.
  - split; [apply Z.div_le_lower_bound; lia|]. apply Z.div_lt_upper_bound; lia.
Qed.

Lemma length_udec k v : (k < 20)%nat -> 0 <= v < 10 ^ Z.of_nat (S k) ->
  (k = 0%nat \/ 10 ^ Z.of_nat k <= v) -> length (udec v) = S k.
Proof.
  revert v. induction k as [|k IH]; intros v Hk Hv Hlo.
  - rewrite udec_small; [done|]. change (10 ^ Z.of_nat 1) with 10 in Hv. lia.
  - destruct Hlo as [?|Hlo]; [lia|].
    assert (10 ^ Z.of_nat (S (S k)) <= 10 ^ 20) by (apply Z.pow_le_mono_r; lia).
    assert (10 ^ 1 <= 10 ^ Z.of_nat (S k)) by (apply Z.pow_le_mono_r; lia).
    rewrite udec_step by lia.
    rewrite (Nat2Z.inj_succ (S k)), Z.pow_succ_r in Hv by lia.
    rewrite length_app, IH; [simpl; lia|lia| |].
    + split; [apply Z.div_pos; lia|apply Z.div_lt_upper_bound; lia].
    + right. rewrite (Nat2Z.inj_succ k), Z.pow_succ_r in Hlo by lia.
      apply Z.div_le_lower_bound; lia.
Qed.

Lemma digits10_correct v : 0 <= v <= ULLONG_MAX -> digits10 v = Z.of_nat (length (udec v)).
Proof.
  intros Hv. unfold ULLONG_MAX in Hv. unfold digits10. cbn [digits10_rec].
  assert (Hd : 0 <= v / 1000000000000 <= 18446744).
  { split; [apply Z.div_pos; lia|]. apply Z.lt_succ_r, Z.div_lt_upper_bound; lia. }
  pose proof (Z.div_mod v 1000000000000 ltac:(lia)) as Hm.
  pose proof (Z.mod_pos_bound v 1000000000000 ltac:(lia)) as Hr.
  unfold ge01.
  repeat match goal with
  | |- context [if ?a <? ?b then _ else _] => destruct (Z.ltb_spec a b); try lia
  | |- context [if ?a <=? ?b then _ else _] => destruct (Z.leb_spec a b); try lia
  end;
  match goal with |- ?n = _ =>
    let k := eval vm_compute in (Z.to_nat (n - 1)) in
    rewrite (length_udec k); [reflexivity|lia|cbn; lia|cbn; lia] end.
Qed.

Lemma udec_nonempty v : 0 <= v < 10 ^ 20 -> (0 < length (udec v))%nat.
Proof.
  intros H. destruct (decide (v < 10)).
  - rewrite udec_small by lia. simpl. lia.
  - rewrite udec_step by lia. rewrite length_app. simpl. lia.
Qed.

Lemma length_udec_fuel n v : (length (udec_fuel n v) <= n)%nat.
Proof.
  revert v. induction n as [|n IH]; intros v; simpl; [lia|].
  case_match; simpl; [lia|]. rewrite length_app. simpl. specialize (IH (v / 10)). lia.
Qed.

Lemma length_udec_le v : (length (udec v) <= 20)%nat.
Proof. apply length_udec_fuel. Qed.

(** ** Writing the digits *)

Lemma digits_table n : 0 <= n < 100 ->
  aget digits (2 * n) = Ret (48 + n / 10) /\ aget digits (2 * n + 1) = Ret (48 + n mod 10).
Proof.
  intros H.
  assert (Hall : forallb (fun n => bool_decide (digits !! (2 * n)%nat = Some (48 + Z.of_nat n / 10))
     && bool_decide (digits !! (2 * n + 1)%nat = Some (48 + Z.of_nat n mod 10))) (seq 0 100) = true)
    by (vm_compute; reflexivity).
  rewrite forallb_forall in Hall. specialize (Hall (Z.to_nat n)).
  rewrite in_seq in Hall. specialize (Hall ltac:(lia)).
  apply andb_prop in Hall as [H0 H1]. apply bool_decide_eq_true in H0, H1.
  rewrite Z2Nat.id in H0, H1 by lia.
  split; [apply aget_in in H0|apply aget_in in H1].
  - by replace (2 * n) with (Z.of_nat (2 * Z.to_nat n)) by lia.
  - by replace (2 * n + 1) with (Z.of_nat (2 * Z.to_nat n + 1)) by lia.
Qed.

Lemma ull_last_correct m dst v next :
  0 <= v < 100 -> next = Z.of_nat (length (udec v)) - 1 ->
  0 <= dst -> dst + next < Z.of_nat (length m) ->
  ull_last m dst v next = Ret (patch (Z.to_nat dst) (udec v) m).
Proof.
  intros Hv -> Hd Hm. unfold ull_last. destruct (Z.ltb_spec v 10).
  - rewrite udec_small in * by lia. cbn [length] in *. rewrite aset_Z by lia.
    change [48 + v] with ([] ++ [48 + v]).
    rewrite <- (patch_snoc _ [] m _ (Z.to_nat (dst + (Z.of_nat 1 - 1)))) by (simpl; lia).
    unfold patch. simpl. rewrite Nat.add_0_r. by rewrite take_drop.
  - rewrite udec_step, udec_small in * by (try split; first [apply Z.div_pos|apply Z.div_lt_upper_bound|idtac]; lia).
    destruct (digits_table v ltac:(lia)) as [T0 T1].
    replace (v * 2) with (2 * v) by lia. cbn [mbind res_bind]. rewrite T1. cbn.
    rewrite aset_Z by (simpl in *; lia). cbn. rewrite T0. cbn.
    rewrite aset_Z by (rewrite length_insert; simpl in *; lia).
    simpl in Hm. f_equal.
    change [48 + v / 10; 48 + v mod 10] with (([] ++ [48 + v / 10]) ++ [48 + v mod 10]).
    rewrite <- (patch_snoc _ _ m _ (Z.to_nat (dst + 1))) by (simpl; lia).
    rewrite <- (patch_snoc _ [] _ _ (Z.to_nat (dst + 1 - 1))) by (rewrite ?length_insert; simpl; lia).
    unfold patch. simpl. rewrite Nat.add_0_r. by rewrite take_drop.
Qed.

Lemma ull_loop_correct fuel m dst v next :
  0 <= v < 10 ^ (2 * Z.of_nat fuel) -> (fuel <= 10)%nat -> next = Z.of_nat (length (udec v)) - 1 ->
  0 <= dst -> dst + next < Z.of_nat (length m) ->
  ('(m, v, next) ← ull_loop fuel m dst v next; ull_last m dst v next)
  = Ret (patch (Z.to_nat dst) (udec v) m).
Proof.
  revert m v next. induction fuel as [|fuel IH]; intros m v next Hv Hf -> Hd Hm.
  { change (10 ^ (2 * Z.of_nat 0)) with 1 in Hv.
    cbn [ull_loop]. rewrite (proj2 (Z.leb_gt 100 v)) by lia.
    apply ull_last_correct; auto with lia. }
  cbn [ull_loop]. destruct (Z.leb_spec 100 v) as [H100|]; [|apply ull_last_correct; auto with lia].
  assert (Hp : 10 ^ (2 * Z.of_nat (S fuel)) <= 10 ^ 20) by (apply Z.pow_le_mono_r; lia).
  assert (Hq : 0 <= v / 100 < 10 ^ (2 * Z.of_nat fuel)).
  { split; [apply Z.div_pos; lia|]. apply Z.div_lt_upper_bound; [lia|].
    replace (2 * Z.of_nat (S fuel)) with (2 + 2 * Z.of_nat fuel) in Hv by lia.
    rewrite Z.pow_add_r in Hv by lia. lia. }
  pose proof (udec_step2 v ltac:(lia)) as E.
  pose proof (udec_nonempty (v / 100) ltac:(split; [|eapply Z.lt_le_trans; [apply Hq|apply Z.pow_le_mono_r]]; lia)) as Hne.
  assert (EL : length (udec v) = S (S (length (udec (v / 100)))))
    by (rewrite E, !length_app; simpl; lia).
  destruct (digits_table (v mod 100) (Z.mod_pos_bound v 100 ltac:(lia))) as [T0 T1].
  replace (v mod 100 * 2) with (2 * (v mod 100)) by lia. rewrite T1. cbn [mbind res_bind].
  replace ((v mod 100) mod 10) with (v mod 10) by (Z.to_euclidean_division_equations; lia).
  replace (v mod 100 / 10) with (v / 10 mod 10) in T0 by (Z.to_euclidean_division_equations; lia).
  rewrite aset_Z by lia. cbn [mbind res_bind]. rewrite T0. cbn [mbind res_bind].
  rewrite aset_Z by (rewrite length_insert; lia). cbn [mbind res_bind].
  pose proof (length_udec_le v).
  replace (u32 (Z.of_nat (length (udec v)) - 1 - 2)) with (Z.of_nat (length (udec (v / 100))) - 1)
    by (rewrite uwrap_id; lia).
  rewrite IH by (rewrite ?length_insert; lia). f_equal.
  rewrite (patch_snoc _ _ _ _ (Z.to_nat (dst + (Z.of_nat (length (udec v)) - 1) - 1)))
    by (rewrite ?length_insert; lia).
  rewrite (patch_snoc _ _ _ _ (Z.to_nat (dst + (Z.of_nat (length (udec v)) - 1))))
    by (rewrite ?length_app; simpl; lia).
  by rewrite <- E.
Qed.

Lemma ull2string_fits m dst dstlen v :
  0 <= v <= ULLONG_MAX -> Z.of_nat (length (udec v)) < dstlen ->
  0 <= dst -> dst + dstlen <= Z.of_nat (length m) ->
  ull2string m dst dstlen v
  = Ret (patch (Z.to_nat dst) (udec v ++ [0]) m, Z.of_nat (length (udec v))).
Proof.
  intros Hv Hl Hd Hm. unfold ull2string. rewrite digits10_correct by done.
  unfold ULLONG_MAX in Hv. pose proof (udec_nonempty v ltac:(lia)). pose proof (length_udec_le v).
  rewrite (proj2 (Z.leb_gt _ _)) by lia. rewrite uwrap_id by lia.
  rewrite aset_Z by lia. cbn [mbind res_bind].
  assert (E : forall m, dst + (Z.of_nat (length (udec v)) - 1) < Z.of_nat (length m) ->
    ('(m, v', next) ← ull_loop 10 m dst v (Z.of_nat (length (udec v)) - 1);
     m ← ull_last m dst v' next; Ret (m, Z.of_nat (length (udec v))))
    = Ret (patch (Z.to_nat dst) (udec v) m, Z.of_nat (length (udec v)))).
  { intros m' Hm'. pose proof (ull_loop_correct 10 m' dst v _ ltac:(simpl; lia) ltac:(lia) eq_refl Hd Hm') as E.
    destruct (ull_loop 10 m' dst v _) as [[[m2 v2] n2]| |]; simpl in *; try discriminate.
    by rewrite E. }
  rewrite E by (rewrite length_insert; lia). do 2 f_equal.
  apply patch_snoc; lia.
Qed.

Lemma ull2string_short m dst dstlen v :
  0 <= v <= ULLONG_MAX -> dstlen <= Z.of_nat (length (udec v)) ->
  0 <= dst -> 0 < dstlen -> dst + dstlen <= Z.of_nat (length m) ->
  ull2string m dst dstlen v = Ret (<[Z.to_nat dst := 0]> m, 0).
Proof.
  intros Hv Hl Hd Hp Hm. unfold ull2string. rewrite digits10_correct by done.
  rewrite (proj2 (Z.leb_le _ _)) by lia. rewrite (proj2 (Z.ltb_lt 0 _)) by lia.
  by rewrite aset_Z by lia.
Qed.

(** ** Reading digits *)

Definition horner (v : Z) (p : list Z) : Z := foldl (fun v c => v * 10 + (c - 48)) v p.

Lemma horner_snoc v p c : horner v (p ++ [c]) = horner v p * 10 + (c - 48).
Proof. unfold horner. by rewrite foldl_app. Qed.

Lemma is_digit_range c : is_digit c = true <-> 48 <= c <= 57.
Proof. unfold is_digit. lia. Qed.

Lemma horner_grows v p : 0 <= v -> Forall (fun c => is_digit c = true) p -> v <= horner v p.
Proof.
  intros Hv Hp. revert v Hv. induction Hp as [|c p Hc _ IH]; intros v Hv; simpl; [lia|].
  apply is_digit_range in Hc. specialize (IH (v * 10 + (c - 48)) ltac:(lia)).
  unfold horner in *. simpl. lia.
Qed.

Lemma string2ll_loop_spec p v w :
  0 <= v <= ULLONG_MAX ->
  string2ll_loop p v = Some (w, []) <->
  Forall (fun c => is_digit c = true) p /\ w = horner v p /\ w <= ULLONG_MAX.
Proof.
  unfold ULLONG_MAX. revert v. induction p as [|c p IH]; intros v Hv; cbn [string2ll_loop].
  { split; [intros [= <-]; repeat split; auto; lia|]. intros (_ & -> & _). done. }
  destruct (is_digit c) eqn:Hc.
  2:{ split; [done|]. intros (Hf & _). apply Forall_cons in Hf as [? _]. congruence. }
  pose proof (proj1 (is_digit_range c) Hc). unfold ULLONG_MAX.
  assert (Hg : Forall (fun c => is_digit c = true) p -> v * 10 + (c - 48) <= horner v (c :: p)).
  { intros Hf. unfold horner. simpl. apply (horner_grows _ p); [lia|done]. }
  destruct (Z.ltb_spec ((2 ^ 64 - 1) / 10) v) as [Hbig|Hsm].
  { split; [done|]. intros (Hf & -> & Hle). apply Forall_cons in Hf as [_ Hf].
    specialize (Hg Hf). change ((2 ^ 64 - 1) / 10) with 1844674407370955161 in Hbig. lia. }
  change ((2 ^ 64 - 1) / 10) with 1844674407370955161 in Hsm.
  rewrite uwrap_id by lia.
  destruct (Z.ltb_spec (2 ^ 64 - 1 - (c - 48)) (v * 10)) as [Hbig|Hok].
  { split; [done|]. intros (Hf & -> & Hle). apply Forall_cons in Hf as [_ Hf].
    specialize (Hg Hf). lia. }
  rewrite uwrap_id by lia. rewrite IH by lia. rewrite Forall_cons. unfold horner. simpl. tauto.
Qed.

(** [udec] writes a digit string that reads back as the value, and is the
    only such string without a leading zero. *)
Lemma udec_horner w : 0 < w < 10 ^ 20 ->
  exists c p, udec w = c :: p /\ 49 <= c <= 57 /\ Forall (fun c => is_digit c = true) p /\ horner (c - 48) p = w.
Proof.
  induction w as [w IH] using (well_founded_induction (Z.lt_wf 0)). intros Hw.
  destruct (decide (w < 10)).
  - rewrite udec_small by lia. exists (48 + w), []. unfold horner. simpl. repeat split; auto; lia.
  - rewrite udec_step by lia.
    pose proof (Z.mod_pos_bound w 10 ltac:(lia)).
    assert (1 <= w / 10) by (apply Z.div_le_lower_bound; lia).
    assert (w / 10 < w) by (apply Z.div_lt; lia).
    destruct (IH (w / 10) ltac:(lia) ltac:(lia)) as (c & p & -> & Hc & Hp & Hh).
    exists c, (p ++ [48 + w mod 10]). repeat split; try lia.
    + apply Forall_app_2; [done|]. apply Forall_singleton, is_digit_range. lia.
    + rewrite horner_snoc, Hh. pose proof (Z.div_mod w 10 ltac:(lia)). lia.
Qed.

Lemma udec_unique c p : 49 <= c <= 57 -> Forall (fun c => is_digit c = true) p ->
  horner (c - 48) p < 10 ^ 20 -> udec (horner (c - 48) p) = c :: p.
Proof.
  intros Hc. induction p as [|d p IH] using rev_ind; intros Hp Hlt.
  - unfold horner in *. simpl in *. rewrite udec_small by lia. f_equal. lia.
  - apply Forall_app in Hp as [Hp Hd]. apply Forall_singleton, is_digit_range in Hd.
    rewrite horner_snoc in *. pose proof (horner_grows (c - 48) p ltac:(lia) Hp).
    rewrite udec_step by lia.
    replace ((horner (c - 48) p * 10 + (d - 48)) / 10) with (horner (c - 48) p)
      by (Z.to_euclidean_division_equations; lia).
    replace ((horner (c - 48) p * 10 + (d - 48)) mod 10) with (d - 48)
      by (Z.to_euclidean_division_equations; lia).
    rewrite IH by (done || lia). simpl. do 3 f_equal. lia.
Qed.

(** What the sign-and-digits part of [string2ll] accepts. *)
Lemma string2ll_digits c p w :
  (49 <= c <= 57 /\ string2ll_loop p (c - 48) = Some (w, []))
  <-> 0 < w <= ULLONG_MAX /\ udec w = c :: p.
Proof.
  unfold ULLONG_MAX. split.
  - intros [Hc Hl]. apply string2ll_loop_spec in Hl as (Hp & -> & Hle); [|unfold ULLONG_MAX; lia].
    unfold ULLONG_MAX in Hle.
    pose proof (horner_grows (c - 48) p ltac:(lia) Hp). split; [lia|].
    apply udec_unique; (done || lia).
  - intros [Hw E]. destruct (udec_horner w ltac:(lia)) as (c' & p' & E' & Hc & Hp & Hh).
    rewrite E in E'. simplify_eq. split; [done|].
    apply string2ll_loop_spec; unfold ULLONG_MAX; [lia|]. repeat split; auto; lia.
Qed.

Lemma length_dec v : LLONG_MIN <= v <= LLONG_MAX -> (0 < length (dec v) <= 20)%nat.
Proof.
  unfold LLONG_MIN, LLONG_MAX. intros Hv. unfold dec. destruct (Z.ltb_spec v 0).
  - cbn [length]. split; [lia|]. assert (H19 : (length (udec (- v)) <= 19)%nat); [|lia].
    unfold udec. rewrite (udec_fuel_stable 19 20) by (try lia; change (10 ^ Z.of_nat 19) with (10 ^ 19); lia).
    apply length_udec_fuel.
  - split; [apply udec_nonempty; lia|apply length_udec_le].
Qed.

Lemma neg_result w : 0 < w <= LLONG_MAX + 1 -> s64 (u64 (- w)) = - w.
Proof.
  unfold LLONG_MAX. intros H. unfold uwrap. rewrite swrap_mod by lia. apply swrap_id; lia.
Qed.

Lemma string2ll_sound s v :
  string2ll s = Some v -> LLONG_MIN <= v <= LLONG_MAX /\ s = dec v.
Proof.
  unfold string2ll. destruct (_ || _) eqn:Hl; [done|].
  destruct (_ && _) eqn:H0.
  { intros [= <-]. split; [unfold LLONG_MIN, LLONG_MAX; lia|].
    apply andb_prop in H0 as [H1%Z.eqb_eq H0%Z.eqb_eq].
    destruct s as [|c [|? ?]]; cbn [length hd] in *; [lia|by rewrite H0|exfalso; lia]. }
  intros H. set (neg := hd 0 s =? 45) in *.
  destruct (if neg then tl s else s) as [|c p] eqn:Ep; [done|].
  destruct (_ && _) eqn:Hc in H; [|done].
  destruct (string2ll_loop p (c - 48)) as [[w [|]]|] eqn:El; [|done|done].
  destruct (proj1 (string2ll_digits c p w)) as [Hw Eu]; [split; [lia|done]|].
  unfold dec. unfold LLONG_MAX, LLONG_MIN in *. destruct neg eqn:En.
  - destruct (Z.ltb_spec (2 ^ 63 - 1 + 1) w); [done|]. injection H as <-.
    rewrite neg_result by (unfold LLONG_MAX; lia). split; [lia|].
    rewrite (proj2 (Z.ltb_lt _ 0)) by lia. rewrite Z.opp_involutive, Eu.
    unfold neg in En. destruct s as [|x s]; simpl in *; [lia|]. f_equal; [lia|done].
  - destruct (Z.ltb_spec (2 ^ 63 - 1) w); [done|]. injection H as <-. split; [lia|].
    rewrite (proj2 (Z.ltb_ge _ 0)) by lia. by rewrite Eu.
Qed.

Lemma string2ll_complete v : LLONG_MIN <= v <= LLONG_MAX -> string2ll (dec v) = Some v.
Proof.
  intros Hv. pose proof (length_dec v Hv) as Hl. unfold string2ll.
  rewrite (proj2 (orb_false_iff _ _)) by (unfold LONG_STR_SIZE; lia).
  unfold LLONG_MIN, LLONG_MAX in Hv. destruct (decide (v = 0)) as [->|Hne]; [done|].
  unfold dec in *. destruct (Z.ltb_spec v 0).
  - destruct (udec_horner (- v) ltac:(lia)) as (c & p & E & Hc & _).
    destruct (proj2 (string2ll_digits c p (- v))) as [_ El]; [split; [unfold ULLONG_MAX; lia|done]|].
    rewrite E. cbn [hd tl length]. rewrite andb_false_r. rewrite Z.eqb_refl.
    rewrite (proj2 (andb_true_iff _ _)) by lia. rewrite El. unfold LLONG_MAX.
    rewrite (proj2 (Z.ltb_ge _ _)) by lia. rewrite neg_result by (unfold LLONG_MAX; lia).
    by rewrite Z.opp_involutive.
  - destruct (udec_horner v ltac:(lia)) as (c & p & E & Hc & _).
    destruct (proj2 (string2ll_digits c p v)) as [_ El]; [split; [unfold ULLONG_MAX; lia|done]|].
    rewrite E. cbn [hd tl length].
    rewrite (proj2 (Z.eqb_neq c 48)), andb_false_r, (proj2 (Z.eqb_neq c 45)) by lia.
    rewrite (proj2 (andb_true_iff _ _)) by lia. rewrite El. unfold LLONG_MAX.
    by rewrite (proj2 (Z.ltb_ge _ _)) by lia.
Qed.

Lemma abs_svalue v : LLONG_MIN <= v < 0 ->
  (if negb (v =? LLONG_MIN) then - v else LLONG_MAX + 1) = - v.
Proof. unfold LLONG_MIN, LLONG_MAX. intros H. destruct (Z.eqb_spec v (- 2 ^ 63)); simpl; lia. Qed.

Lemma sdigits10_correct v :
  LLONG_MIN <= v <= LLONG_MAX -> sdigits10 v = Z.of_nat (length (dec v)).
Proof.
  intros Hv. unfold sdigits10, dec. destruct (Z.ltb_spec v 0).
  - rewrite abs_svalue by lia. unfold LLONG_MIN, LLONG_MAX in Hv.
    rewrite digits10_correct by (unfold ULLONG_MAX; lia). cbn [length]. lia.
  - apply digits10_correct. unfold ULLONG_MAX, LLONG_MAX in *. lia.
Qed.

Lemma ll2string_fits m dst dstlen v :
  LLONG_MIN <= v <= LLONG_MAX -> Z.of_nat (length (dec v)) < dstlen ->
  0 <= dst -> dst + dstlen <= Z.of_nat (length m) ->
  ll2string m dst dstlen v
  = Ret (patch (Z.to_nat dst) (dec v ++ [0]) m, Z.of_nat (length (dec v))).
Proof.
  intros Hv Hl Hd Hm. unfold ll2string, dec in *. destruct (Z.ltb_spec v 0).
  - rewrite abs_svalue by lia. unfold LLONG_MIN, LLONG_MAX in *. cbn [length] in Hl.
    pose proof (udec_nonempty (- v) ltac:(lia)).
    rewrite (proj2 (Z.ltb_ge dstlen 2)) by lia. rewrite aset_Z by lia. cbn [mbind res_bind].
    rewrite ull2string_fits by (rewrite ?length_insert; unfold ULLONG_MAX; lia). cbn [mbind res_bind].
    rewrite (proj2 (Z.eqb_neq _ 0)) by lia. cbn [app length].
    rewrite patch_cons by (rewrite length_app; simpl; lia).
    replace (Z.to_nat (dst + 1)) with (S (Z.to_nat dst)) by lia. do 2 f_equal. lia.
  - unfold LLONG_MIN, LLONG_MAX in *. pose proof (udec_nonempty v ltac:(lia)).
    rewrite ull2string_fits by (unfold ULLONG_MAX; lia). cbn [mbind res_bind].
    by rewrite (proj2 (Z.eqb_neq _ 0)) by lia.
Qed.

(** Every character is a digit or the sign. *)
Lemma udec_fuel_chars n v : 0 <= v -> Forall (fun c => 45 <= c <= 57) (udec_fuel n v).
Proof.
  revert v. induction n as [|n IH]; intros v Hv; cbn [udec_fuel]; [constructor|].
  pose proof (Z.mod_pos_bound v 10). pose proof (Z.div_pos v 10). destruct (Z.ltb_spec v 10); [constructor; [lia|constructor]|].
  apply Forall_app_2; [apply IH; lia|]. constructor; [lia|constructor].
Qed.

Lemma dec_chars v : Forall (fun c => 45 <= c <= 57) (dec v).
Proof. unfold dec, udec. destruct (Z.ltb_spec v 0); [constructor; [lia|]|]; apply udec_fuel_chars; lia. Qed.

Lemma dec_bytes v : bytes (dec v).
Proof. apply (Forall_impl _ _ _ (dec_chars v)). unfold is_byte. lia. Qed.

Lemma c_string_dec v rest : c_string (dec v ++ 0 :: rest) = dec v.
Proof.
  induction (dec_chars v) as [|c l Hc _ IH]; cbn [app c_string]; [done|]. rewrite (proj2 (Z.eqb_neq c 0)) by lia. by rewrite IH.
Qed.

(** The text of a number in a buffer of its own. *)
Lemma ll2string_buffer `{Heap} size v : LLONG_MIN <= v <= LLONG_MAX -> 20 < size ->
  exists rest, ll2string (realloc size []) 0 size v = Ret (dec v ++ 0 :: rest, Z.of_nat (length (dec v))).
Proof.
  intros Hv Hs. pose proof (length_dec v Hv) as Hl. pose proof (length_realloc size [] ltac:(lia)) as Hlen. rewrite ll2string_fits by (done || lia).
  eexists. unfold patch. change (Z.to_nat 0) with 0%nat. rewrite take_0, <- app_assoc. reflexivity.
Qed.

(** ** Theorems *)

(** C35: [string2ll] accepts a string exactly when it is the canonical decimal
    notation of a 64-bit signed integer, and then returns that integer: no
    sign, blank, leading zero or overflow is ever accepted, so that storing
    the number instead of the string loses nothing. *)
Theorem string2ll_strict (s : list Z) (v : Z) :
  string2ll s = Some v <-> LLONG_MIN <= v <= LLONG_MAX /\ s = dec v.
Proof.
  split; [apply string2ll_sound|]. intros [Hv ->]. by apply string2ll_complete.
Qed.

(** C36: [ll2string] writes, for every 64-bit value and every destination with
    room for it, the canonical decimal notation and a terminating NUL inside
    the destination only, returns the number of characters, which is what
    [sdigits10] predicts, and [string2ll] reads the value back. *)
Theorem ll2string_roundtrip (m : list Z) (dst dstlen v : Z) :
  LLONG_MIN <= v <= LLONG_MAX -> sdigits10 v < dstlen ->
  0 <= dst -> dst + dstlen <= Z.of_nat (length m) ->
  exists m' n,
    ll2string m dst dstlen v = Ret (m', n) /\
    n = sdigits10 v /\ 0 < n /\
    length m' = length m /\
    string2ll (sub (Z.to_nat dst) (Z.to_nat n) m') = Some v /\
    m' !! Z.to_nat (dst + n) = Some 0 /\
    (forall i, (i < Z.to_nat dst \/ Z.to_nat (dst + n) < i)%nat -> m' !! i = m !! i).
Proof.
  intros Hv Hl Hd Hm. rewrite sdigits10_correct in * by done.
  pose proof (length_dec v Hv). rewrite ll2string_fits by done.
  assert (Hr : (Z.to_nat dst + length (dec v ++ [0%Z]) <= length m)%nat) by (rewrite length_app; simpl; lia).
  eexists _, _. split; [done|]. repeat split; [lia|by rewrite length_patch| | |].
  - rewrite Nat2Z.id. rewrite <- (Nat.add_0_r (Z.to_nat dst)) at 1.
    rewrite sub_patch_in by (rewrite ?length_app; simpl in *; lia).
    rewrite sub_app_l, sub_all by (done || lia). by apply string2ll_complete.
  - rewrite lookup_patch, decide_True by (rewrite ?length_app in *; simpl in *; lia).
    rewrite lookup_app_r by lia.
    by replace (Z.to_nat (dst + Z.of_nat (length (dec v))) - Z.to_nat dst - length (dec v))%nat with 0%nat by lia.
  - intros i Hi. rewrite lookup_patch, decide_False by (rewrite ?length_app in *; simpl in *; lia). done.
Qed.

Lemma ll2string_roundtrip_witness : exists m' n,
    ll2string (repeat 7 24) 2 22 (- 2 ^ 63) = Ret (m', n) /\
    n = sdigits10 (- 2 ^ 63) /\ 0 < n /\ length m' = length (repeat 7 24) /\
    string2ll (sub (Z.to_nat 2) (Z.to_nat n) m') = Some (- 2 ^ 63) /\
    m' !! Z.to_nat (2 + n) = Some 0 /\
    (forall i, (i < Z.to_nat 2 \/ Z.to_nat (2 + n) < i)%nat -> m' !! i = repeat 7 24 !! i).
Proof.
  exact (ll2string_roundtrip (repeat 7 24) 2 22 (- 2 ^ 63)
    ltac:(unfold LLONG_MIN, LLONG_MAX; lia) ltac:(vm_compute; reflexivity)
    ltac:(lia) ltac:(vm_compute; discriminate)).
Defined.

(** A destination without room: the result is 0 and the destination holds a
    NUL-terminated string. *)
Theorem ll2string_no_room (m : list Z) (dst dstlen v : Z) :
  LLONG_MIN <= v <= LLONG_MAX -> 0 < dstlen <= sdigits10 v ->
  0 <= dst -> dst + dstlen <= Z.of_nat (length m) ->
  exists m', ll2string m dst dstlen v = Ret (m', 0) /\ length m' = length m /\
    exists k, (k < Z.to_nat dstlen)%nat /\ m' !! (Z.to_nat dst + k)%nat = Some 0.
Proof.
  intros Hv Hl Hd Hm. rewrite sdigits10_correct in * by done.
  unfold ll2string, dec in *. destruct (Z.ltb_spec v 0).
  - rewrite abs_svalue by lia. cbn [length] in Hl. destruct (Z.ltb_spec dstlen 2).
    + rewrite (proj2 (Z.ltb_lt 0 dstlen)) by lia. rewrite aset_Z by lia.
      eexists. split; [done|]. rewrite length_insert. split; [done|]. exists 0%nat. split; [lia|].
      rewrite Nat.add_0_r. apply list_lookup_insert_eq. lia.
    + rewrite aset_Z by lia. cbn [mbind res_bind]. unfold LLONG_MIN, LLONG_MAX in *.
      rewrite ull2string_short by (rewrite ?length_insert; unfold ULLONG_MAX; lia).
      eexists. split; [done|]. rewrite !length_insert. split; [done|]. exists 1%nat. split; [lia|].
      replace (Z.to_nat dst + 1)%nat with (Z.to_nat (dst + 1)) by lia.
      apply list_lookup_insert_eq. rewrite length_insert. lia.
  - unfold LLONG_MIN, LLONG_MAX in *. rewrite ull2string_short by (unfold ULLONG_MAX; lia).
    eexists. split; [done|]. rewrite length_insert. split; [done|]. exists 0%nat. split; [lia|].
    rewrite Nat.add_0_r. apply list_lookup_insert_eq. lia.
Qed.

(** On a platform with 64-bit [long], [string2l] is [string2ll]. *)
Theorem string2l_string2ll (s : list Z) : string2l s = string2ll s.
Proof.
  unfold string2l. destruct (string2ll s) as [v|] eqn:E; [|done].
  apply string2ll_sound in E as [Hv _]. by rewrite (proj2 (orb_false_iff _ _)) by lia.
Qed.

(** [mempbrk] returns the first offset that holds one of the characters. *)
Theorem mempbrk_first (s chars : list Z) (i : nat) :
  mempbrk s chars 0 = Some i <->
  (exists c, s !! i = Some c /\ c ∈ chars) /\ (forall j c, (j < i)%nat -> s !! j = Some c -> c ∉ chars).
Proof.
  assert (Hin : forall c l, memchr_in c l = true <-> c ∈ l).
  { intros c l. induction l as [|x l IH]; simpl; [split; [done|by intros ?%elem_of_nil]|].
    rewrite elem_of_cons. destruct (Z.eqb_spec c x); [naive_solver|]. rewrite IH. naive_solver. }
  assert (Hshift : forall s k, mempbrk s chars k = option_map (Nat.add k) (mempbrk s chars 0)).
  { clear s i. induction s as [|c s IH]; intros k; simpl; [done|]. case_match; simpl.
    - f_equal. lia.
    - rewrite IH, (IH 1%nat). destruct (mempbrk s chars 0); simpl; f_equal; lia. }
  revert i. induction s as [|c s IH]; intros i; simpl.
  { split; [done|]. by intros [(c & ? & _) _]. }
  destruct (memchr_in c chars) eqn:E.
  - apply Hin in E. split.
    + intros [= <-]. split; [by exists c|]. lia.
    + intros [_ H]. destruct i; [done|]. by specialize (H 0%nat c ltac:(lia) eq_refl).
  - assert (Hc : c ∉ chars) by (rewrite <- Hin; congruence). rewrite Hshift. split.
    + destruct (mempbrk s chars 0) as [n|]; simpl; [|done]. intros [= <-].
      destruct (proj1 (IH n) eq_refl) as [? Hb]. split; [done|].
      intros [|j] d Hj Hd; simpl in *; [congruence|]. apply (Hb j); [lia|done].
    + intros [(d & Hd & Hd') Hb]. destruct i as [|i]; simpl in *; [congruence|].
      rewrite (proj2 (IH i)); [done|]. split; [by exists d|].
      intros j e Hj He. apply (Hb (S j)); [lia|done].
Qed.
