(* ===== verification/Glob.v ===== *)
(** * Redis' glob matcher ([stringmatchlen] of [redis-7.2.3/src/util.c])

    Patterns and strings are lists of [char] values (signed, as on the
    platforms Redis targets).  The C code reads one character past
    [patternLen]; as for every [sds] string that character is NUL, which is
    neither ['*'], ['^'] nor [']'], so reading it is the [\[\]] case of the
    lists below.  The reference semantics parses the pattern to tokens and
    says declaratively which strings they match; the theorem is that the
    backtracking matcher with its [skipLongerMatches] short cut decides it. *)
From Stdlib Require Import Btauto.
From S2P Require Import Prelude NumStr.

Local Open Scope Z_scope.

(** ** The code *)

Definition char_eq (nocase : bool) (p c : Z) : bool :=
  if nocase then tolower p =? tolower c else p =? c.

Definition in_range (nocase : bool) (p0 p2 c : Z) : bool :=
  let '(start, last) := if p2 <? p0 then (p2, p0) else (p0, p2) in
  let '(start, last, c) :=
    if nocase then (tolower start, tolower last, tolower c) else (start, last, c) in
  (start <=? c) && (c <=? last).

(** The [while(1)] loop of the ['\['] case with [match = m]; returns [match]
    and the pattern after the closing bracket, or after its last character
    when there is none. *)
Fixpoint class_loop (nocase : bool) (c : Z) (pat : list Z) (m : bool) : bool * list Z :=
  match pat with
  | [] => (m, [])
  | p0 :: pat1 =>
      match pat1 with
      | p1 :: pat2 =>
          if p0 =? 92 then class_loop nocase c pat2 (if p1 =? c then true else m)
          else if p0 =? 93 then (m, pat1)
          else match pat2 with
               | p2 :: pat3 =>
                   if p1 =? 45 then class_loop nocase c pat3 (if in_range nocase p0 p2 c then true else m)
                   else class_loop nocase c pat1 (if char_eq nocase p0 c then true else m)
               | [] => class_loop nocase c pat1 (if char_eq nocase p0 c then true else m)
               end
      | [] =>
          if p0 =? 93 then (m, pat1)
          else class_loop nocase c pat1 (if char_eq nocase p0 c then true else m)
      end
  end.

(** The cases of the switch other than ['*']: whether the character [c]
    matches, and the pattern that follows. *)
Definition match_one (nocase : bool) (c p0 : Z) (pat1 : list Z) : bool * list Z :=
  if p0 =? 63 then (true, pat1)
  else if p0 =? 91 then
    let neg := match pat1 with p1 :: _ => p1 =? 94 | [] => false end in
    let '(m, rest) := class_loop nocase c (if neg then tail pat1 else pat1) false in
    (if neg then negb m else m, rest)
  else
    match pat1 with
    | p1 :: pat2 => if p0 =? 92 then (char_eq nocase p1 c, pat2) else (char_eq nocase p0 c, pat1)
    | [] => (char_eq nocase p0 c, pat1)
    end.

Fixpoint skip_stars (pat : list Z) : list Z :=
  match pat with
  | p0 :: pat1 => if p0 =? 42 then skip_stars pat1 else pat
  | [] => []
  end.

(** The [while(stringLen)] loop of the ['*'] case; [f] is the recursive call
    on the pattern after the star, and the flag is [*skipLongerMatches]. *)
Fixpoint star_loop (f : list Z -> bool -> res (bool * bool)) (string : list Z) (skip : bool)
    : res (bool * bool) :=
  match string with
  | [] => Ret (false, true)
  | _ :: string' =>
      '(found, skip) ← f string skip;
      if found : bool then Ret (true, skip)
      else if skip : bool then Ret (false, skip)
      else star_loop f string' skip
  end.

(** Result and final [*skipLongerMatches].  Every iteration and every
    recursive call drops a character of the pattern. *)
Fixpoint stringmatchlen_impl (fuel : nat) (pattern string : list Z) (nocase skip : bool)
    : res (bool * bool) :=
  match fuel with
  | O => Diverge
  | S fuel =>
      match pattern, string with
      | p0 :: pat1, c :: str1 =>
          if p0 =? 42 then
            match skip_stars pat1 with
            | [] => Ret (true, skip)
            | rest => star_loop (fun s k => stringmatchlen_impl fuel rest s nocase k) string skip
            end
          else
            let '(m, rest) := match_one nocase c p0 pat1 in
            if m : bool then
              match str1 with
              | [] => match skip_stars rest with [] => Ret (true, skip) | _ => Ret (false, skip) end
              | _ => stringmatchlen_impl fuel rest str1 nocase skip
              end
            else Ret (false, skip)
      | [], [] => Ret (true, skip)
      | _, _ => Ret (false, skip)
      end
  end.

Definition stringmatchlen (pattern string : list Z) (nocase : bool) : res bool :=
  '(r, _) ← stringmatchlen_impl (S (length pattern)) pattern string nocase false; Ret r.

(** ** Reference semantics *)

Inductive citem : Type :=
  | CLit (c : Z)
  | CChar (c : Z)
  | CRange (a b : Z).

Inductive token : Type :=
  | TStar
  | TAny
  | TClass (neg : bool) (items : list citem)
  | TChar (c : Z).

(** Items of a bracket expression, and what follows it. *)
Fixpoint parse_class (pat : list Z) : list citem * list Z :=
  match pat with
  | [] => ([], [])
  | p0 :: pat1 =>
      match pat1 with
      | p1 :: pat2 =>
          if p0 =? 92 then let '(its, rest) := parse_class pat2 in (CLit p1 :: its, rest)
          else if p0 =? 93 then ([], pat1)
          else match pat2 with
               | p2 :: pat3 =>
                   if p1 =? 45 then let '(its, rest) := parse_class pat3 in (CRange p0 p2 :: its, rest)
                   else let '(its, rest) := parse_class pat1 in (CChar p0 :: its, rest)
               | [] => let '(its, rest) := parse_class pat1 in (CChar p0 :: its, rest)
               end
      | [] => if p0 =? 93 then ([], pat1)
              else let '(its, rest) := parse_class pat1 in (CChar p0 :: its, rest)
      end
  end.

Definition parse_token (p0 : Z) (pat1 : list Z) : token * list Z :=
  if p0 =? 42 then (TStar, pat1)
  else if p0 =? 63 then (TAny, pat1)
  else if p0 =? 91 then
    match pat1 with
    | 94 :: pat2 => let '(its, rest) := parse_class pat2 in (TClass true its, rest)
    | _ => let '(its, rest) := parse_class pat1 in (TClass false its, rest)
    end
  else if p0 =? 92 then
    match pat1 with p1 :: pat2 => (TChar p1, pat2) | [] => (TChar p0, pat1) end
  else (TChar p0, pat1).

Fixpoint parse_fuel (fuel : nat) (pat : list Z) : list token :=
  match fuel, pat with
  | S fuel, p0 :: pat1 => let '(t, rest) := parse_token p0 pat1 in t :: parse_fuel fuel rest
  | _, _ => []
  end.

Definition parse (pat : list Z) : list token := parse_fuel (length pat) pat.

Definition item_ok (nocase : bool) (c : Z) (i : citem) : bool :=
  match i with
  | CLit p => p =? c
  | CChar p => char_eq nocase p c
  | CRange a b => in_range nocase a b c
  end.

Definition token_ok (nocase : bool) (t : token) (c : Z) : bool :=
  match t with
  | TStar => false
  | TAny => true
  | TClass neg its => xorb neg (existsb (item_ok nocase c) its)
  | TChar p => char_eq nocase p c
  end.

(** [glob nocase ts s]: the tokens match the whole string. *)
Inductive glob (nocase : bool) : list token -> list Z -> Prop :=
  | glob_nil : glob nocase [] []
  | glob_star ts s1 s2 : glob nocase ts s2 -> glob nocase (TStar :: ts) (s1 ++ s2)
  | glob_one t ts c s : token_ok nocase t c = true -> glob nocase ts s -> glob nocase (t :: ts) (c :: s).

(** ** The parser *)

Lemma list_len_ind {A} (P : list A -> Prop) :
  (forall l, (forall l', (length l' < length l)%nat -> P l') -> P l) -> forall l, P l.
Proof. intros H l. induction l as [l IH] using (induction_ltof1 _ (@length A)). by apply H. Qed.

Lemma class_loop_eq nocase c p0 pat1 m :
  class_loop nocase c (p0 :: pat1) m =
  match pat1 with
  | p1 :: pat2 =>
      if p0 =? 92 then class_loop nocase c pat2 (if p1 =? c then true else m)
      else if p0 =? 93 then (m, pat1)
      else match pat2 with
           | p2 :: pat3 =>
               if p1 =? 45 then class_loop nocase c pat3 (if in_range nocase p0 p2 c then true else m)
               else class_loop nocase c pat1 (if char_eq nocase p0 c then true else m)
           | [] => class_loop nocase c pat1 (if char_eq nocase p0 c then true else m)
           end
  | [] => if p0 =? 93 then (m, pat1)
          else class_loop nocase c pat1 (if char_eq nocase p0 c then true else m)
  end.
Proof. reflexivity. Qed.

Lemma parse_class_eq p0 pat1 :
  parse_class (p0 :: pat1) =
  match pat1 with
  | p1 :: pat2 =>
      if p0 =? 92 then (CLit p1 :: (parse_class pat2).1, (parse_class pat2).2)
      else if p0 =? 93 then ([], pat1)
      else match pat2 with
           | p2 :: pat3 =>
               if p1 =? 45 then (CRange p0 p2 :: (parse_class pat3).1, (parse_class pat3).2)
               else (CChar p0 :: (parse_class pat1).1, (parse_class pat1).2)
           | [] => (CChar p0 :: (parse_class pat1).1, (parse_class pat1).2)
           end
  | [] => if p0 =? 93 then ([], pat1)
          else (CChar p0 :: (parse_class pat1).1, (parse_class pat1).2)
  end.
Proof. cbn [parse_class]. repeat case_match; simplify_eq; done. Qed.

Lemma class_loop_parse nocase c pat m :
  class_loop nocase c pat m
  = (m || existsb (item_ok nocase c) (parse_class pat).1, (parse_class pat).2).
Proof.
  revert m. induction pat as [pat IH] using list_len_ind. intros m.
  assert (Hm : forall b : bool, (if b then true else m) = b || m) by (by intros []).
  destruct pat as [|p0 pat1]; [simpl; by rewrite orb_false_r|].
  rewrite class_loop_eq, parse_class_eq.
  repeat match goal with
  | |- context [match ?l with [] => _ | _ :: _ => _ end] => is_var l; destruct l
  | |- context [if ?x =? ?y then class_loop _ _ _ _ else _] => destruct (x =? y)
  | |- context [if ?x =? ?y then (_, _) else _] => destruct (x =? y)
  end; rewrite ?IH by (cbn [length]; lia); cbn [fst snd existsb item_ok];
  rewrite ?Hm, ?orb_false_r; try done; f_equal; btauto.
Qed.

Lemma length_parse_class pat : (length (parse_class pat).2 <= length pat)%nat.
Proof.
  induction pat as [pat IH] using list_len_ind. destruct pat as [|p0 pat1]; [done|].
  rewrite parse_class_eq.
  repeat case_match; cbn [snd length]; try lia; subst;
    match goal with |- (length (parse_class ?l).2 <= _)%nat =>
      specialize (IH l ltac:(simpl; lia)); cbn [length] in *; lia end.
Qed.

Lemma length_parse_token p0 pat1 : (length (parse_token p0 pat1).2 <= length pat1)%nat.
Proof.
  unfold parse_token. pose proof (length_parse_class pat1).
  pose proof (length_parse_class (tail pat1)).
  assert (length (tail pat1) <= length pat1)%nat by (destruct pat1; simpl; lia).
  repeat case_match; simplify_eq; simpl in *; try lia;
    repeat match goal with H : parse_class _ = _ |- _ => rewrite H in * end; simpl in *; lia.
Qed.

Lemma match_one_parse nocase c p0 pat1 : p0 <> 42 ->
  match_one nocase c p0 pat1
  = (token_ok nocase (parse_token p0 pat1).1 c, (parse_token p0 pat1).2).
Proof.
  intros Hne. unfold match_one, parse_token. rewrite (proj2 (Z.eqb_neq p0 42)) by done.
  destruct (p0 =? 63); [done|]. destruct (p0 =? 91).
  - destruct pat1 as [|p1 pat2]; [done|].
    destruct (Z.eqb_spec p1 94) as [->|Hn].
    + simpl. rewrite class_loop_parse. by destruct (parse_class pat2).
    + assert (E : (let '(its, rest) := parse_class (p1 :: pat2) in (TClass false its, rest))
          = match p1 :: pat2 with 94 :: pat2 => let '(its, rest) := parse_class pat2 in (TClass true its, rest)
            | _ => let '(its, rest) := parse_class (p1 :: pat2) in (TClass false its, rest) end)
        by (repeat case_match; done).
      rewrite class_loop_parse. rewrite <- E. by destruct (parse_class (p1 :: pat2)).
  - destruct (p0 =? 92), pat1; done.
Qed.

Lemma parse_token_star p0 pat1 : (parse_token p0 pat1).1 = TStar <-> p0 = 42.
Proof.
  unfold parse_token. destruct (Z.eqb_spec p0 42); [done|]. split; [|done].
  repeat case_match; simplify_eq; done.
Qed.

Lemma parse_fuel_enough fuel pat : (length pat <= fuel)%nat -> parse_fuel fuel pat = parse pat.
Proof.
  unfold parse. revert fuel. induction pat as [pat IH] using list_len_ind. intros fuel Hf.
  destruct pat as [|p0 pat1]; [by destruct fuel|]. destruct fuel as [|fuel]; [simpl in Hf; lia|].
  cbn [parse_fuel length]. pose proof (length_parse_token p0 pat1).
  destruct (parse_token p0 pat1) as [t rest]. simpl in *.
  by rewrite (IH rest ltac:(lia) fuel), (IH rest ltac:(lia) (length pat1)) by lia.
Qed.

Lemma parse_cons p0 pat1 :
  parse (p0 :: pat1) = (parse_token p0 pat1).1 :: parse (parse_token p0 pat1).2.
Proof.
  unfold parse at 1. cbn [parse_fuel length]. pose proof (length_parse_token p0 pat1).
  destruct (parse_token p0 pat1) as [t rest]. simpl in *. by rewrite parse_fuel_enough by lia.
Qed.

(** ** The reference semantics *)

Section glob.
Context (nocase : bool).

Lemma glob_star_iff ts s :
  glob nocase (TStar :: ts) s <-> exists s', s' `suffix_of` s /\ glob nocase ts s'.
Proof.
  split.
  - inversion 1 as [|? s1 s2|]; simplify_eq; exists s2; split; [by exists s1|done].
  - intros (s' & [s1 ->] & H). by constructor.
Qed.

Lemma glob_one_iff t ts s : t <> TStar ->
  glob nocase (t :: ts) s <-> exists c s', s = c :: s' /\ token_ok nocase t c = true /\ glob nocase ts s'.
Proof.
  intros Ht. split.
  - inversion 1; simplify_eq. eauto.
  - intros (c & s' & -> & ? & ?). by constructor.
Qed.

(** A run of stars is one star. *)
Lemma glob_skip_stars pat s :
  glob nocase (TStar :: parse pat) s <-> glob nocase (TStar :: parse (skip_stars pat)) s.
Proof.
  revert s. induction pat as [|p0 pat IH]; intros s; [done|]. cbn [skip_stars].
  destruct (Z.eqb_spec p0 42) as [->|]; [|done]. rewrite <- IH.
  rewrite parse_cons. cbn. rewrite glob_star_iff. setoid_rewrite glob_star_iff.
  split.
  - intros (s' & ? & s'' & ? & ?). exists s''. split; [by etrans|done].
  - intros (s' & ? & ?). by exists s'; eauto.
Qed.

Lemma skip_stars_head pat p0 pat1 : skip_stars pat = p0 :: pat1 -> p0 <> 42.
Proof.
  induction pat as [|q pat IH]; simpl; [done|]. destruct (Z.eqb_spec q 42); [done|]. naive_solver.
Qed.

Lemma skip_stars_length pat : (length (skip_stars pat) <= length pat)%nat.
Proof. induction pat as [|q pat IH]; simpl; [lia|]. case_match; simpl; lia. Qed.

Lemma glob_empty_nonstar p0 pat1 : p0 <> 42 -> ~ glob nocase (parse (p0 :: pat1)) [].
Proof.
  intros Hne. rewrite parse_cons. rewrite glob_one_iff by (by rewrite parse_token_star).
  naive_solver.
Qed.

Lemma glob_nil_iff s : glob nocase [] s <-> s = [].
Proof. split; [by inversion 1|]. intros ->. constructor. Qed.

Lemma glob_empty pat : glob nocase (parse pat) [] <-> skip_stars pat = [].
Proof.
  induction pat as [|p0 pat IH]; [by rewrite glob_nil_iff|]. cbn [skip_stars].
  destruct (Z.eqb_spec p0 42) as [->|Hne].
  - rewrite parse_cons, glob_star_iff, <- IH. cbn. split.
    + intros (s' & Hs & ?). by apply suffix_nil_inv in Hs as ->.
    + intros H. by exists [].
  - split; [|done]. by intros ?%glob_empty_nonstar.
Qed.
End glob.

(** ** The matcher decides the reference semantics *)

(** What one call promises, started with the flag clear: it decides the match
    of the pattern with the string, and when it fails with the flag set, the
    pattern matches no suffix of the string either, so that no earlier star
    can succeed by swallowing more. *)
Definition decides (nocase : bool) (ts : list token) (s : list Z) (r : res (bool * bool)) : Prop :=
  exists b k, r = Ret (b, k) /\ (b = true <-> glob nocase ts s) /\
    (b = false -> k = true -> forall s', s' `suffix_of` s -> ~ glob nocase ts s').

Lemma star_loop_decides nocase ts f s :
  ts <> [] -> (forall s', s' `suffix_of` s -> s' <> [] -> decides nocase ts s' (f s' false)) ->
  ~ glob nocase ts [] ->
  exists b k, star_loop f s false = Ret (b, k) /\
    (b = true <-> exists s', s' `suffix_of` s /\ glob nocase ts s') /\ (b = false -> k = true).
Proof.
  intros Hts Hf Hnil. induction s as [|c s IH]; cbn [star_loop].
  { eexists _, _. split; [done|]. split; [|done]. split; [done|].
    intros (s' & Hs & ?). by apply suffix_nil_inv in Hs as ->. }
  destruct (Hf (c :: s) ltac:(done) ltac:(done)) as (b & k & -> & Hb & Hk). cbn.
  destruct b.
  { eexists _, _. split; [done|]. split; [|done]. split; [|done]. intros _.
    exists (c :: s). split; [done|]. by apply Hb. }
  destruct k.
  { eexists _, _. split; [done|]. split; [|done]. split; [done|].
    intros (s' & Hs & ?). by destruct (Hk eq_refl eq_refl s' Hs). }
  destruct IH as (b & k & -> & Hb' & Hk').
  { intros s' Hs Hne. apply Hf; [by apply suffix_cons_r|done]. }
  eexists _, _. split; [done|]. split; [|done]. rewrite Hb'. split.
  - intros (s' & Hs & ?). exists s'. split; [by apply suffix_cons_r|done].
  - intros (s' & Hs & Hg). destruct s' as [|d s']; [done|].
    apply suffix_cons_inv in Hs as [Heq|Hs]; [|by exists (d :: s')].
    rewrite Heq in Hg. by apply Hb in Hg.
Qed.

Lemma decides_star nocase ts f s :
  ts <> [] -> (forall s', s' `suffix_of` s -> s' <> [] -> decides nocase ts s' (f s' false)) ->
  ~ glob nocase ts [] -> decides nocase (TStar :: ts) s (star_loop f s false).
Proof.
  intros Hts Hf Hnil. destruct (star_loop_decides nocase ts f s) as (b & k & -> & Hb & Hk); auto.
  exists b, k. split; [done|]. split; [by rewrite glob_star_iff|].
  intros -> _ s' Hs' (s'' & Hs'' & Hg)%glob_star_iff.
  assert (false = true) by (apply Hb; exists s''; split; [by etrans|done]). done.
Qed.

Lemma decides_one nocase t ts c s r :
  t <> TStar -> token_ok nocase t c = true ->
  decides nocase ts s r -> decides nocase (t :: ts) (c :: s) r.
Proof.
  intros Ht Hok (b & k & -> & Hb & Hk). exists b, k. split; [done|]. split.
  - rewrite Hb, glob_one_iff by done. naive_solver.
  - intros Hb0 Hk0 s' Hs' Hg. apply glob_one_iff in Hg as (d & s'' & -> & _ & Hg); [|done].
    apply (Hk Hb0 Hk0 s''); [|done]. destruct Hs' as [l Hl].
    destruct l as [|x l]; simplify_eq/=; [done|]. exists (l ++ [d]). by rewrite <- app_assoc.
Qed.

Lemma impl_decides nocase fuel pat s :
  (length pat < fuel)%nat -> s <> [] ->
  decides nocase (parse pat) s (stringmatchlen_impl fuel pat s nocase false).
Proof.
  revert pat s. induction fuel as [|fuel IH]; intros pat s Hf Hs; [lia|].
  destruct pat as [|p0 pat1].
  { destruct s; [done|]. eexists _, _. split; [done|]. rewrite glob_nil_iff. done. }
  destruct s as [|c s]; [done|]. cbn [stringmatchlen_impl length] in *.
  rewrite parse_cons. destruct (Z.eqb_spec p0 42) as [->|Hne].
  - cbn [parse_token fst snd Z.eqb Pos.eqb]. pose proof (skip_stars_length pat1).
    destruct (skip_stars pat1) as [|q rest] eqn:E.
    + exists true, false. split; [done|]. split; [|done]. split; [|done]. intros _.
      rewrite glob_skip_stars, E, glob_star_iff. exists []. split; [apply suffix_nil|constructor].
    + pose proof (skip_stars_head _ _ _ E) as Hq.
      assert (D : decides nocase (TStar :: parse (q :: rest)) (c :: s)
        (star_loop (fun s k => stringmatchlen_impl fuel (q :: rest) s nocase k) (c :: s) false)).
      { apply decides_star; [by rewrite parse_cons| |by apply glob_empty_nonstar].
        intros s' _ Hne. apply IH; [simpl in *; lia|done]. }
      unfold decides in *. setoid_rewrite glob_skip_stars. by rewrite E.
  - rewrite match_one_parse by done. pose proof (length_parse_token p0 pat1).
    assert (Ht : (parse_token p0 pat1).1 <> TStar) by (by rewrite parse_token_star).
    destruct (parse_token p0 pat1) as [t rest]. cbn [fst snd] in *.
    destruct (token_ok nocase t c) eqn:Hok.
    + apply decides_one; [done|done|]. destruct s as [|d s]; [|apply IH; [lia|done]].
      pose proof (glob_empty nocase rest) as He.
      destruct (skip_stars rest); eexists _, _; (split; [done|]); rewrite He; done.
    + eexists _, _. split; [done|]. rewrite glob_one_iff by done. split; [|done].
      split; [done|]. intros (? & ? & ? & ? & _). naive_solver.
Qed.

(** ** Theorems *)

(** C25: the glob matcher always returns, and on a non-empty string it answers
    yes exactly when the tokens of the pattern match the whole string: the
    [skipLongerMatches] short cut, which abandons the search when a later
    star has failed, and the collapsing of stars change no answer.  On the
    empty string it answers yes for the empty pattern only, which is not what the
    tokens say: a pattern of stars should match as well
    ([star_misses_empty_string]). *)
Theorem stringmatchlen_correct (pattern string : list Z) (nocase : bool) :
  exists b, stringmatchlen pattern string nocase = Ret b /\
    (b = true <-> if decide (string = []) then pattern = [] else glob nocase (parse pattern) string).
Proof.
  unfold stringmatchlen. case_decide as Hs.
  - subst. destruct pattern; eexists; (split; [done|]); done.
  - destruct (impl_decides nocase (S (length pattern)) pattern string) as (b & k & -> & Hb & _);
      [lia|done|]. exists b. done.
Qed.

(** The pattern of a single star does not match the empty string, although
    the tokens of the pattern do. *)
Theorem star_misses_empty_string :
  stringmatchlen [42] [] false = Ret false /\ glob false (parse [42]) [].
Proof. split; [reflexivity|]. by apply glob_empty. Qed.
