(* ===== verification/Lzf.v ===== *)
(** * Redis' LZF compressor ([redis-7.2.3/src/lzf_c.c], [lzf_d.c])

    Input and output are byte blocks; [ip] and [op] are offsets into them.
    The compressor's hash table is an uninitialised array of pointers
    ([INIT_HTAB] is 0), so the table is an arbitrary function to addresses,
    and [in_data] is the address of the input: the theorems hold for every
    content of the table.  The configuration is the one of [lzfP.h]: [HLOG] 16,
    [VERY_FAST], [CHECK_INPUT], pointers in the table. *)
From S2P Require Import Prelude Mem.

Local Open Scope Z_scope.

Definition HLOG : Z := 16.
Definition HSIZE : Z := Z.shiftl 1 HLOG.
Definition MAX_LIT : Z := Z.shiftl 1 5.
Definition MAX_OFF : Z := Z.shiftl 1 13.
Definition MAX_REF : Z := Z.shiftl 1 8 + Z.shiftl 1 3.

(** ** Compression *)

Definition FRST (p : list Z) (ip : Z) : res Z :=
  p0 ← aget p ip; p1 ← aget p (ip + 1); Ret (Z.lor (Z.shiftl p0 8) p1).
Definition NEXT (v : Z) (p : list Z) (ip : Z) : res Z :=
  p2 ← aget p (ip + 2); Ret (u32 (Z.lor (Z.shiftl v 8) p2)).
Definition IDX (h : Z) : Z := Z.land (u32 (Z.shiftr h (3 * 8 - HLOG) - h * 5)) (HSIZE - 1).

Definition LZF_STATE := Z -> Z.
Definition hget (htab : LZF_STATE) (i : Z) : res Z :=
  if (0 <=? i) && (i <? HSIZE) then Ret (htab i) else Abort.
Definition hset (htab : LZF_STATE) (i p : Z) : res LZF_STATE :=
  if (0 <=? i) && (i <? HSIZE) then Ret (fun j => if j =? i then p else htab j) else Abort.

Record cstate : Type := CState {
  c_ip : Z;
  c_op : Z;
  c_lit : Z;
  c_hval : Z;
  c_htab : LZF_STATE;
  c_out : list Z;
}.

Section compress.
Context (in_data : Z) (inp : list Z) (out_len : Z).
Let in_end : Z := Z.of_nat (length inp).

(** [len++; if (ref [len] != ip [len]) break;] repeated [n] times; the flag
    says whether the repetition ended by [break]. *)
Fixpoint unrolled (n : nat) (ref ip len : Z) : res (Z * bool) :=
  match n with
  | O => Ret (len, false)
  | S n =>
      let len := len + 1 in
      a ← aget inp (ref + len);
      b ← aget inp (ip + len);
      if negb (a =? b) then Ret (len, true) else unrolled n ref ip len
  end.

(** [do len++; while (len < maxlen && ref[len] == ip[len]);] *)
Fixpoint match_loop (fuel : nat) (ref ip maxlen len : Z) : res Z :=
  match fuel with
  | O => Diverge
  | S fuel =>
      let len := len + 1 in
      if len <? maxlen then
        a ← aget inp (ref + len);
        b ← aget inp (ip + len);
        if a =? b then match_loop fuel ref ip maxlen len else Ret len
      else Ret len
  end.

Definition match_len (ref ip maxlen : Z) : res Z :=
  let len := 2 in
  '(len, stop) ← (if 16 <? maxlen then unrolled 16 ref ip len else Ret (len, false));
  if stop : bool then Ret len else match_loop (Z.to_nat MAX_REF) ref ip maxlen len.

(** Whether the candidate [ref] matches at [ip], with the offset. *)
Definition candidate (ref ip : Z) : res (option Z) :=
  let off := u64 (in_data + ip - ref - 1) in
  if (off <? MAX_OFF) && (in_data <? ref) then
    let r := ref - in_data in
    r2 ← aget inp (r + 2); i2 ← aget inp (ip + 2);
    if r2 =? i2 then
      r1 ← aget inp (r + 1); r0 ← aget inp r;
      i1 ← aget inp (ip + 1); i0 ← aget inp ip;
      if Z.lor (Z.shiftl r1 8) r0 =? Z.lor (Z.shiftl i1 8) i0 then Ret (Some off) else Ret None
    else Ret None
  else Ret None.

Definition not01 (lit : Z) : Z := if lit =? 0 then 1 else 0.

(** [op [- lit - 1] = lit - 1;] *)
Definition stop_run (out : list Z) (op lit : Z) : res (list Z) := aset out (op - lit - 1) (u8 (lit - 1)).

Definition put_ref (out : list Z) (op off len : Z) : res (list Z * Z) :=
  '(out, op) ←
    (if len <? 7 then
       out ← aset out op (u8 (Z.shiftr off 8 + Z.shiftl len 5)); Ret (out, op + 1)
     else
       out ← aset out op (u8 (Z.shiftr off 8 + Z.shiftl 7 5));
       out ← aset out (op + 1) (u8 (len - 7)); Ret (out, op + 2));
  out ← aset out op (u8 off); Ret (out, op + 1).

(** The three ways one iteration of the main loop ends. *)
Inductive outcome : Type :=
  | Next (s : cstate)
  | Break (s : cstate)
  | Return0 (s : cstate).

(** "match found": the branch that emits a back reference. *)
Definition emit_match (s : cstate) (ref off : Z) : res outcome :=
  let ip := c_ip s in let op := c_op s in let lit := c_lit s in
  let maxlen := in_end - ip - 2 in
  let maxlen := if MAX_REF <? maxlen then MAX_REF else maxlen in
  if (out_len <=? op + 3 + 1) && (out_len <=? op - not01 lit + 3 + 1) then Ret (Return0 s) else
  out ← stop_run (c_out s) op lit;
  let op := op - not01 lit in
  len ← match_len ref ip maxlen;
  let len := len - 2 in
  let ip := ip + 1 in
  '(out, op) ← put_ref out op off len;
  let lit := 0 in
  let op := op + 1 in
  let ip := ip + (len + 1) in
  if in_end - 2 <=? ip then Ret (Break (CState ip op lit (c_hval s) (c_htab s) out)) else
  let ip := ip - 2 in
  hval ← FRST inp ip;
  hval ← NEXT hval inp ip;
  htab ← hset (c_htab s) (IDX hval) (in_data + ip);
  let ip := ip + 1 in
  hval ← NEXT hval inp ip;
  htab ← hset htab (IDX hval) (in_data + ip);
  let ip := ip + 1 in
  Ret (Next (CState ip op lit hval htab out)).

(** [lit++; *op++ = *ip++;] and the end of a full run. *)
Definition put_lit (s : cstate) : res cstate :=
  let lit := c_lit s + 1 in
  b ← aget inp (c_ip s);
  out ← aset (c_out s) (c_op s) b;
  let op := c_op s + 1 in
  let ip := c_ip s + 1 in
  if lit =? MAX_LIT then
    out ← stop_run out op lit;
    Ret (CState ip (op + 1) 0 (c_hval s) (c_htab s) out)
  else Ret (CState ip op lit (c_hval s) (c_htab s) out).

(** One iteration of [while (ip < in_end - 2)]. *)
Definition compress_step (s : cstate) : res outcome :=
  let ip := c_ip s in
  hval ← NEXT (c_hval s) inp ip;
  ref ← hget (c_htab s) (IDX hval);
  htab ← hset (c_htab s) (IDX hval) (in_data + ip);
  let s := CState ip (c_op s) (c_lit s) hval htab (c_out s) in
  c ← candidate ref ip;
  match c with
  | Some off => emit_match s (ref - in_data) off
  | None =>
      if out_len <=? c_op s then Ret (Return0 s) else
      s ← put_lit s; Ret (Next s)
  end.

(** [None]: the function has returned 0. *)
Fixpoint compress_loop (fuel : nat) (s : cstate) : res (option cstate * list Z) :=
  if c_ip s <? in_end - 2 then
    match fuel with
    | O => Diverge
    | S fuel =>
        o ← compress_step s;
        match o with
        | Next s => compress_loop fuel s
        | Break s => Ret (Some s, c_out s)
        | Return0 s => Ret (None, c_out s)
        end
    end
  else Ret (Some s, c_out s).

(** [while (ip < in_end)]: the last bytes are literals. *)
Fixpoint rest_loop (fuel : nat) (s : cstate) : res cstate :=
  if c_ip s <? in_end then
    match fuel with
    | O => Diverge
    | S fuel => s ← put_lit s; rest_loop fuel s
    end
  else Ret s.

(** The number of bytes written, 0 for failure, and the output block. *)
Definition lzf_compress (htab : LZF_STATE) (out : list Z) : res (Z * list Z) :=
  if (in_end =? 0) || (out_len =? 0) then Ret (0, out) else
  hval ← FRST inp 0;
  '(o, out) ← compress_loop (length inp) (CState 0 1 0 hval htab out);
  match o with
  | None => Ret (0, out)
  | Some s =>
      if out_len <? c_op s + 3 then Ret (0, out) else
      s ← rest_loop 3 s;
      out ← stop_run (c_out s) (c_op s) (c_lit s);
      Ret (c_op s - not01 (c_lit s), out)
  end.
End compress.

(** ** Decompression *)

(** [*op++ = *ref++;], [n] times. *)
Fixpoint copy_octets (n : nat) (out : list Z) (op ref : Z) : res (list Z) :=
  match n with
  | O => Ret out
  | S n => b ← aget out ref; out ← aset out op b; copy_octets n out (op + 1) (ref + 1)
  end.

(** [*op++ = *ip++;], [n] times. *)
Fixpoint copy_literals (n : nat) (inp out : list Z) (op ip : Z) : res (list Z) :=
  match n with
  | O => Ret out
  | S n => b ← aget inp ip; out ← aset out op b; copy_literals n inp out (op + 1) (ip + 1)
  end.

Definition copy_ref (out : list Z) (op ref len : Z) : res (list Z) :=
  if 10 <=? len then
    let len := len + 2 in
    if ref + len <=? op then
      bs ← load_bytes len ref out; store_bytes op bs out
    else copy_octets (Z.to_nat len) out op ref
  else copy_octets (Z.to_nat (len + 2)) out op ref.

Inductive errno : Type := E2BIG | EINVAL.

(** One iteration: the new [ip], [op] and output, or the error set.  (The
    second test of [ip] repeats the first when no length byte was read.) *)
Definition decompress_step (inp : list Z) (out_len : Z) (ip op : Z) (out : list Z)
    : res (errno + Z * Z * list Z) :=
  let in_end := Z.of_nat (length inp) in
  ctrl ← aget inp ip;
  let ip := ip + 1 in
  if ctrl <? Z.shiftl 1 5 then
    let ctrl := ctrl + 1 in
    if out_len <? op + ctrl then Ret (inl E2BIG) else
    if in_end <? ip + ctrl then Ret (inl EINVAL) else
    out ← copy_literals (Z.to_nat ctrl) inp out op ip;
    Ret (inr (ip + ctrl, op + ctrl, out))
  else
    let len := Z.shiftr ctrl 5 in
    let ref := op - Z.shiftl (Z.land ctrl 31) 8 - 1 in
    if in_end <=? ip then Ret (inl EINVAL) else
    '(len, ip) ←
      (if len =? 7 then l ← aget inp ip; Ret (len + l, ip + 1) else Ret (len, ip));
    if in_end <=? ip then Ret (inl EINVAL) else
    o ← aget inp ip;
    let ref := ref - o in
    let ip := ip + 1 in
    if out_len <? op + len + 2 then Ret (inl E2BIG) else
    if ref <? 0 then Ret (inl EINVAL) else
    out ← copy_ref out op ref len;
    Ret (inr (ip, op + (len + 2), out)).

Fixpoint decompress_loop (fuel : nat) (inp : list Z) (out_len ip op : Z) (out : list Z)
    : res (Z * list Z) :=
  if ip <? Z.of_nat (length inp) then
    match fuel with
    | O => Diverge
    | S fuel =>
        r ← decompress_step inp out_len ip op out;
        match r with
        | inl _ => Ret (0, out)
        | inr (ip, op, out) => decompress_loop fuel inp out_len ip op out
        end
    end
  else Ret (op, out).

(** Every iteration consumes an input byte. *)
Definition lzf_decompress (inp : list Z) (out_len : Z) (out : list Z) : res (Z * list Z) :=
  decompress_loop (length inp) inp out_len 0 0 out.

(** ** The format *)

Definition ref_bytes (off len : Z) : list Z :=
  if len <? 7 then [off / 256 + 32 * len; off mod 256]
  else [off / 256 + 224; len - 7; off mod 256].

(** [c] continues [d] by copying from [off + 1] octets back. *)
Definition copies (d : list Z) (off : Z) (c : list Z) : Prop :=
  forall i, (i < length c)%nat ->
    (d ++ c) !! (length d + i)%nat = (d ++ c) !! (length d + i - S (Z.to_nat off))%nat.

(** [encodes e d]: the octets [e] are a sequence of literal runs and back
    references that stands for [d]. *)
Inductive encodes : list Z -> list Z -> Prop :=
  | enc_nil : encodes [] []
  | enc_lit e d l : encodes e d -> (1 <= length l <= 32)%nat ->
      encodes (e ++ (Z.of_nat (length l) - 1) :: l) (d ++ l)
  | enc_ref e d off c : encodes e d -> 0 <= off < 8192 -> off < Z.of_nat (length d) ->
      (3 <= length c <= 264)%nat -> copies d off c ->
      encodes (e ++ ref_bytes off (Z.of_nat (length c) - 2)) (d ++ c).

(** ** Decompression *)

Lemma copy_literals_spec n inp out op ip :
  0 <= op -> 0 <= ip -> op + Z.of_nat n <= Z.of_nat (length out) ->
  ip + Z.of_nat n <= Z.of_nat (length inp) ->
  copy_literals n inp out op ip = Ret (patch (Z.to_nat op) (sub (Z.to_nat ip) n inp) out).
Proof.
  revert out op ip. induction n as [|n IH]; intros out op ip Ho Hi Hol Hil; cbn [copy_literals].
  { unfold sub. rewrite take_0. unfold patch. simpl. by rewrite Nat.add_0_r, take_drop. }
  destruct (lookup_lt_is_Some_2 inp (Z.to_nat ip)) as [b Hb]; [lia|].
  rewrite (aget_Z _ _ b) by done. cbn [mbind res_bind].
  rewrite aset_Z by lia. cbn [mbind res_bind]. rewrite IH by (rewrite ?length_insert; lia).
  unfold sub. rewrite (drop_S _ _ _ Hb). cbn [take].
  replace (Z.to_nat (ip + 1)) with (S (Z.to_nat ip)) by lia.
  replace (Z.to_nat (op + 1)) with (S (Z.to_nat op)) by lia.
  by rewrite patch_cons by (rewrite length_take, length_drop; lia).
Qed.

(** What copying [n] octets from [ref] to [op] gives: each octet written
    equals the one [op - ref] before it. *)
Definition copied (out out' : list Z) (op ref n : nat) : Prop :=
  length out' = length out /\ take op out' = take op out /\
  (forall i, (i < n)%nat -> out' !! (op + i)%nat = out' !! (ref + i)%nat).

Lemma copy_octets_spec n out op ref :
  0 <= ref < op -> op + Z.of_nat n <= Z.of_nat (length out) ->
  exists out', copy_octets n out op ref = Ret out' /\
    copied out out' (Z.to_nat op) (Z.to_nat ref) n.
Proof.
  revert out op ref. induction n as [|n IH]; intros out op ref Hr Ho; cbn [copy_octets].
  { exists out. split; [done|]. repeat split. lia. }
  destruct (lookup_lt_is_Some_2 out (Z.to_nat ref)) as [b Hb]; [lia|].
  rewrite (aget_Z _ _ b) by (done || lia). cbn [mbind res_bind].
  rewrite aset_Z by lia. cbn [mbind res_bind].
  destruct (IH (<[Z.to_nat op:=b]> out) (op + 1) (ref + 1)) as (out' & -> & Hl & Ht & Hc);
    [lia|rewrite length_insert; lia|].
  rewrite length_insert in Hl. replace (Z.to_nat (op + 1)) with (S (Z.to_nat op)) in * by lia.
  replace (Z.to_nat (ref + 1)) with (S (Z.to_nat ref)) in * by lia.
  assert (Hlk : forall j, (j <= Z.to_nat op)%nat -> out' !! j = <[Z.to_nat op:=b]> out !! j).
  { intros j Hj. rewrite <- (lookup_take_lt out' (S (Z.to_nat op)) j) by lia.
    rewrite Ht. by rewrite lookup_take_lt by lia. }
  exists out'. split; [done|]. repeat split; [done| |].
  - apply list_eq. intros j. destruct (decide (j < Z.to_nat op)%nat).
    + rewrite !lookup_take_lt by lia. rewrite Hlk by lia. by rewrite list_lookup_insert_ne by lia.
    + by rewrite !lookup_take_ge by lia.
  - intros [|i] Hi.
    + rewrite !Nat.add_0_r, !Hlk by lia. rewrite list_lookup_insert_eq by lia.
      by rewrite list_lookup_insert_ne by lia.
    + specialize (Hc i ltac:(lia)). by rewrite <- !plus_n_Sm.
Qed.

Lemma copy_ref_spec out op ref len :
  0 <= ref < op -> 0 <= len -> op + len + 2 <= Z.of_nat (length out) ->
  exists out', copy_ref out op ref len = Ret out' /\
    copied out out' (Z.to_nat op) (Z.to_nat ref) (Z.to_nat (len + 2)).
Proof.
  intros Hr Hl Ho. unfold copy_ref.
  destruct (10 <=? len); [|apply copy_octets_spec; lia].
  destruct (Z.leb_spec (ref + (len + 2)) op) as [Hd|]; [|apply copy_octets_spec; lia].
  rewrite <- (Z2Nat.id (len + 2)), <- (Z2Nat.id ref) by lia.
  rewrite load_bytes_Ret by lia. cbn [mbind res_bind]. rewrite !Nat2Z.id.
  assert (Hn : length (sub (Z.to_nat ref) (Z.to_nat (len + 2)) out) = Z.to_nat (len + 2))
    by (apply length_sub; lia).
  rewrite <- (Z2Nat.id op) by lia. rewrite store_bytes_Ret by lia. rewrite Nat2Z.id. eexists. split; [done|].
  repeat split.
  - apply length_patch. lia.
  - unfold patch. rewrite take_app_le by (rewrite length_take; lia).
    rewrite take_take. f_equal. lia.
  - intros i Hi. rewrite !lookup_patch by lia.
    rewrite decide_True by lia. rewrite decide_False by lia.
    replace (Z.to_nat op + i - Z.to_nat op)%nat with i by lia.
    unfold sub. rewrite lookup_take_lt by lia. by rewrite lookup_drop.
Qed.

(** The octets written are determined by the recurrence. *)
Lemma copied_unique d off c out out' n :
  copied out out' (length d) (length d - S (Z.to_nat off)) n ->
  take (length d) out = d -> (S (Z.to_nat off) <= length d)%nat ->
  length c = n -> copies d off c -> (length d + n <= length out)%nat ->
  take (length d + n) out' = d ++ c.
Proof.
  intros (Hl & Ht & Hc) Hd Ho <- Hcp Hle.
  assert (Hj : forall j, (j < length d + length c)%nat -> out' !! j = (d ++ c) !! j).
  { intros j. induction j as [j IH] using lt_wf_ind. intros Hj.
    destruct (decide (j < length d)%nat).
    - rewrite <- (lookup_take_lt out' (length d)) by lia. rewrite Ht, Hd.
      by rewrite lookup_app_l by lia.
    - replace j with (length d + (j - length d))%nat by lia.
      rewrite Hc, Hcp by lia. rewrite IH by lia. f_equal. lia. }
  apply list_eq. intros j. destruct (decide (j < length d + length c)%nat).
  - rewrite lookup_take_lt by lia. by apply Hj.
  - rewrite lookup_take_ge by lia. rewrite lookup_ge_None_2; [done|]. rewrite length_app. lia.
Qed.

Lemma step_literal e l rest d out out_len :
  (1 <= length l <= 32)%nat -> take (length d) out = d ->
  length out = Z.to_nat out_len -> (length d + length l <= length out)%nat ->
  exists out', length out' = length out /\ take (length d + length l) out' = d ++ l /\
    decompress_step (e ++ (Z.of_nat (length l) - 1) :: l ++ rest) out_len
      (Z.of_nat (length e)) (Z.of_nat (length d)) out
    = Ret (inr (Z.of_nat (length e) + 1 + Z.of_nat (length l), Z.of_nat (length d) + Z.of_nat (length l), out')).
Proof.
  intros Hl Hd Ho Hle. unfold decompress_step.
  rewrite (aget_in _ (length e) (Z.of_nat (length l) - 1))
    by (rewrite lookup_app_r, Nat.sub_diag by lia; done). cbn [mbind res_bind].
  change (Z.shiftl 1 5) with 32. rewrite (proj2 (Z.ltb_lt _ 32)) by lia.
  replace (Z.of_nat (length l) - 1 + 1) with (Z.of_nat (length l)) by lia.
  rewrite (proj2 (Z.ltb_ge out_len _)) by lia.
  rewrite (proj2 (Z.ltb_ge (Z.of_nat (length (e ++ _))) _))
    by (rewrite length_app; cbn [length]; rewrite length_app; lia).
  rewrite copy_literals_spec by (rewrite ?length_app; cbn [length]; rewrite ?length_app; lia).
  rewrite !Nat2Z.id. replace (Z.to_nat (Z.of_nat (length e) + 1)) with (S (length e)) by lia.
  assert (E : sub (S (length e)) (length l) (e ++ (Z.of_nat (length l) - 1) :: l ++ rest) = l).
  { replace (e ++ _ :: l ++ rest) with ((e ++ [Z.of_nat (length l) - 1]) ++ l ++ rest) by (by rewrite <- app_assoc).
    rewrite sub_app_r by (rewrite length_app; simpl; lia). rewrite length_app. simpl.
    replace (S (length e) - (length e + 1))%nat with 0%nat by lia.
    rewrite sub_app_l by lia. by apply sub_all. }
  rewrite E. exists (patch (length d) l out). split; [by apply length_patch|]. split; [|done].
  unfold patch. rewrite Hd. rewrite app_assoc. rewrite take_app_le by (rewrite length_app; lia).
  apply take_ge. rewrite length_app. lia.
Qed.

Lemma ref_ctrl off len : 0 <= off < 8192 -> 0 < len <= 7 ->
  let ctrl := off / 256 + 32 * len in
  32 <= ctrl < 256 /\ Z.shiftr ctrl 5 = len /\ Z.shiftl (Z.land ctrl 31) 8 = off / 256 * 256.
Proof.
  intros Ho Hl ctrl.
  assert (0 <= off / 256 < 32) by (split; [apply Z.div_pos|apply Z.div_lt_upper_bound]; lia).
  change 31 with (Z.ones 5). rewrite Z.land_ones, Z.shiftr_div_pow2, Z.shiftl_mul_pow2 by lia.
  change (2 ^ 5) with 32. change (2 ^ 8) with 256. unfold ctrl. repeat split; [lia|lia| |].
  - rewrite (Z.mul_comm 32), Z.div_add by lia. rewrite Z.div_small; lia.
  - by rewrite (Z.mul_comm 32), Z.mod_add, Z.mod_small by lia.
Qed.

Lemma aget_at {A} (e r : list A) j k x :
  r !! k = Some x -> j = Z.of_nat (length e) + Z.of_nat k -> aget (e ++ r) j = Ret x.
Proof.
  intros H ->. rewrite <- Nat2Z.inj_add. apply aget_in.
  rewrite lookup_app_r by lia. by replace (length e + k - length e)%nat with k by lia.
Qed.

Lemma step_ref e off c rest d out out_len :
  0 <= off < 8192 -> off < Z.of_nat (length d) -> (3 <= length c <= 264)%nat -> copies d off c ->
  take (length d) out = d -> length out = Z.to_nat out_len -> (length d + length c <= length out)%nat ->
  exists out', length out' = length out /\ take (length d + length c) out' = d ++ c /\
    decompress_step (e ++ ref_bytes off (Z.of_nat (length c) - 2) ++ rest) out_len
      (Z.of_nat (length e)) (Z.of_nat (length d)) out
    = Ret (inr (Z.of_nat (length e + length (ref_bytes off (Z.of_nat (length c) - 2))),
                Z.of_nat (length d) + Z.of_nat (length c), out')).
Proof.
  intros Ho Hod Hc Hcp Hd Hout Hle.
  set (len := Z.of_nat (length c) - 2).
  destruct (copy_ref_spec out (Z.of_nat (length d)) (Z.of_nat (length d) - off - 1) len) as (out' & Eout & Hcop);
    [lia|lia|lia|].
  exists out'. split; [apply Hcop|]. split.
  { apply (copied_unique d off c out); try lia; try done.
    rewrite Nat2Z.id in Hcop.
    replace (length d - S (Z.to_nat off))%nat with (Z.to_nat (Z.of_nat (length d) - off - 1)) by lia.
    by replace (length c) with (Z.to_nat (len + 2)) by lia. }
  pose proof (Z.div_mod off 256 ltac:(lia)) as Hdm.
  pose proof (Z.mod_pos_bound off 256 ltac:(lia)).
  unfold decompress_step. change (Z.shiftl 1 5) with 32. unfold ref_bytes.
  destruct (Z.ltb_spec len 7) as [Hs|Hs].
  - destruct (ref_ctrl off len ltac:(lia) ltac:(lia)) as (Hr & Esh & Eld).
    rewrite (aget_at e _ (Z.of_nat (length e)) 0 (off / 256 + 32 * len)) by (done || lia).
    cbn [mbind res_bind]. rewrite (proj2 (Z.ltb_ge _ 32)) by lia. rewrite Esh, Eld.
    rewrite (proj2 (Z.leb_gt (Z.of_nat (length (e ++ _))) _)) by (rewrite !length_app; simpl; lia).
    rewrite (proj2 (Z.eqb_neq len 7)) by lia. cbn [mbind res_bind].
    rewrite (proj2 (Z.leb_gt (Z.of_nat (length (e ++ _))) _)) by (rewrite !length_app; simpl; lia).
    rewrite (aget_at e _ (Z.of_nat (length e) + 1) 1 (off mod 256)) by (done || lia).
    cbn [mbind res_bind]. rewrite (proj2 (Z.ltb_ge out_len _)) by lia.
    replace (Z.of_nat (length d) - off / 256 * 256 - 1 - off mod 256) with (Z.of_nat (length d) - off - 1) by lia.
    rewrite (proj2 (Z.ltb_ge _ 0)) by lia. rewrite Eout. cbn [mbind res_bind length].
    repeat (f_equal; try lia).
  - destruct (ref_ctrl off 7 ltac:(lia) ltac:(lia)) as (Hr & Esh & Eld).
    rewrite (aget_at e _ (Z.of_nat (length e)) 0 (off / 256 + 32 * 7)) by (done || lia).
    cbn [mbind res_bind]. rewrite (proj2 (Z.ltb_ge _ 32)) by lia. rewrite Esh, Eld.
    rewrite (proj2 (Z.leb_gt (Z.of_nat (length (e ++ _))) _)) by (rewrite !length_app; simpl; lia).
    cbn [mbind res_bind Z.eqb Pos.eqb].
    rewrite (aget_at e _ (Z.of_nat (length e) + 1) 1 (len - 7)) by (done || lia).
    cbn [mbind res_bind].
    rewrite (proj2 (Z.leb_gt (Z.of_nat (length (e ++ _))) _)) by (rewrite !length_app; simpl; lia).
    rewrite (aget_at e _ (Z.of_nat (length e) + 1 + 1) 2 (off mod 256)) by (done || lia).
    cbn [mbind res_bind]. replace (7 + (len - 7)) with len by lia.
    rewrite (proj2 (Z.ltb_ge out_len _)) by lia.
    replace (Z.of_nat (length d) - off / 256 * 256 - 1 - off mod 256) with (Z.of_nat (length d) - off - 1) by lia.
    rewrite (proj2 (Z.ltb_ge _ 0)) by lia. rewrite Eout. cbn [mbind res_bind length].
    repeat (f_equal; try lia).
Qed.

Lemma ref_bytes_nonempty off len : (0 < length (ref_bytes off len))%nat.
Proof. unfold ref_bytes. case_match; simpl; lia. Qed.

(** Running the decompressor over an encoding. *)
Lemma decompress_encodes e d : encodes e d -> forall rest out out_len,
  length out = Z.to_nat out_len -> (length d <= length out)%nat ->
  exists n out', (n <= length e)%nat /\ length out' = length out /\ take (length d) out' = d /\
    forall k, decompress_loop (n + k) (e ++ rest) out_len 0 0 out
            = decompress_loop k (e ++ rest) out_len (Z.of_nat (length e)) (Z.of_nat (length d)) out'.
Proof.
  induction 1 as [|e d l He IH Hl|e d off c He IH Ho Hod Hc Hcp]; intros rest out out_len Hout Hle.
  - exists 0%nat, out. done.
  - rewrite length_app in Hle.
    destruct (IH (((Z.of_nat (length l) - 1) :: l) ++ rest) out out_len Hout ltac:(lia))
      as (n & out1 & Hn & Hl1 & Ht1 & E1).
    destruct (step_literal e l rest d out1 out_len) as (out2 & Hl2 & Ht2 & E2); [done|done|lia|lia|].
    exists (n + 1)%nat, out2. rewrite !length_app. cbn [length]. split; [lia|]. split; [lia|]. split; [done|].
    intros k. rewrite <- app_assoc, <- Nat.add_assoc, E1. cbn [Nat.add decompress_loop].
    rewrite (proj2 (Z.ltb_lt _ _)) by (rewrite length_app; cbn [app length]; lia).
    cbn [app]. rewrite E2. cbn [mbind res_bind]. do 2 f_equal; lia.
  - rewrite length_app in Hle.
    destruct (IH (ref_bytes off (Z.of_nat (length c) - 2) ++ rest) out out_len Hout ltac:(lia))
      as (n & out1 & Hn & Hl1 & Ht1 & E1).
    destruct (step_ref e off c rest d out1 out_len) as (out2 & Hl2 & Ht2 & E2);
      [done|done|done|done|done|lia|lia|].
    pose proof (ref_bytes_nonempty off (Z.of_nat (length c) - 2)).
    exists (n + 1)%nat, out2. rewrite !length_app. split; [lia|]. split; [lia|]. split; [done|].
    intros k. rewrite <- app_assoc, <- Nat.add_assoc, E1. cbn [Nat.add decompress_loop].
    rewrite (proj2 (Z.ltb_lt _ _)) by (rewrite !length_app; lia).
    rewrite E2. cbn [mbind res_bind]. do 2 f_equal; lia.
Qed.

Lemma lzf_decompress_encodes e d out out_len : encodes e d ->
  length out = Z.to_nat out_len -> (length d <= length out)%nat ->
  exists out', lzf_decompress e out_len out = Ret (Z.of_nat (length d), out') /\ take (length d) out' = d.
Proof.
  intros He Hout Hle. destruct (decompress_encodes e d He [] out out_len Hout Hle) as (n & out' & Hn & Hl & Ht & E).
  exists out'. split; [|done]. unfold lzf_decompress. rewrite app_nil_r in E.
  replace (length e) with (n + (length e - n))%nat at 1 by lia. rewrite E.
  destruct (length e - n)%nat; cbn [decompress_loop]; by rewrite (proj2 (Z.ltb_ge _ _)) by lia.
Qed.

(** ** Safety of the decompressor *)

Lemma decompress_step_safe inp out_len ip op out :
  bytes inp -> 0 <= ip < Z.of_nat (length inp) -> 0 <= op <= out_len ->
  Z.of_nat (length out) = out_len ->
  exists r, decompress_step inp out_len ip op out = Ret r /\
    match r with
    | inl _ => True
    | inr (ip', op', out') =>
        ip < ip' <= Z.of_nat (length inp) /\ op <= op' <= out_len /\ length out' = length out
    end.
Proof.
  intros Hb Hip Hop Hout. unfold decompress_step.
  destruct (aget_byte inp ip Hb Hip) as (ctrl & -> & Hc). cbn [mbind res_bind].
  change (Z.shiftl 1 5) with 32. destruct (Z.ltb_spec ctrl 32).
  - destruct (Z.ltb_spec out_len (op + (ctrl + 1))); [by eexists|].
    destruct (Z.ltb_spec (Z.of_nat (length inp)) (ip + 1 + (ctrl + 1))); [by eexists|].
    rewrite copy_literals_spec by lia. eexists. split; [done|]. cbn. split; [lia|]. split; [lia|].
    apply length_patch. rewrite length_sub by lia. lia.
  - assert (Hsh : 0 <= Z.shiftr ctrl 5) by (apply Z.shiftr_nonneg; lia).
    assert (Hld : 0 <= Z.shiftl (Z.land ctrl 31) 8) by (apply Z.shiftl_nonneg, Z.land_nonneg; lia).
    destruct (Z.leb_spec (Z.of_nat (length inp)) (ip + 1)); [by eexists|].
    assert (Hlen : exists len ip', (if Z.shiftr ctrl 5 =? 7 then l ← aget inp (ip + 1); Ret (Z.shiftr ctrl 5 + l, ip + 1 + 1)
        else Ret (Z.shiftr ctrl 5, ip + 1)) = Ret (len, ip') /\ 0 <= len /\ ip < ip').
    { destruct (Z.shiftr ctrl 5 =? 7); [|eexists _, _; split; [done|lia]].
      destruct (aget_byte inp (ip + 1) Hb ltac:(lia)) as (l & -> & Hl). eexists _, _. split; [done|lia]. }
    destruct Hlen as (len & ip' & -> & Hlen & Hip'). cbn [mbind res_bind].
    destruct (Z.leb_spec (Z.of_nat (length inp)) ip'); [by eexists|].
    destruct (aget_byte inp ip' Hb ltac:(lia)) as (o & -> & Hol). cbn [mbind res_bind].
    destruct (Z.ltb_spec out_len (op + len + 2)); [by eexists|].
    destruct (Z.ltb_spec (op - Z.shiftl (Z.land ctrl 31) 8 - 1 - o) 0); [by eexists|].
    destruct (copy_ref_spec out op (op - Z.shiftl (Z.land ctrl 31) 8 - 1 - o) len) as (out' & -> & Hcop & _);
      [lia|lia|lia|].
    eexists. split; [done|]. cbn. split; [lia|]. split; [lia|done].
Qed.

Lemma decompress_loop_safe fuel inp out_len ip op out :
  bytes inp -> 0 <= ip -> Z.of_nat (length inp) - ip <= Z.of_nat fuel -> 0 <= op <= out_len ->
  Z.of_nat (length out) = out_len ->
  exists n out', decompress_loop fuel inp out_len ip op out = Ret (n, out') /\
    0 <= n <= out_len /\ length out' = length out.
Proof.
  revert ip op out. induction fuel as [|fuel IH]; intros ip op out Hb Hip Hf Hop Hout;
    cbn [decompress_loop]; destruct (Z.ltb_spec ip (Z.of_nat (length inp))); try lia;
    try (eexists _, _; split; [done|]; split; [lia|done]).
  destruct (decompress_step_safe inp out_len ip op out Hb ltac:(lia) Hop Hout) as (r & -> & Hr).
  cbn [mbind res_bind]. destruct r as [err|[[ip' op'] out1]].
  { eexists _, _. split; [done|]. split; [lia|done]. }
  destruct Hr as (? & ? & Hl). rewrite <- Hl. apply IH; try done; lia.
Qed.

(** ** Compression *)

Section compress_proofs.
Context (in_data : Z) (inp : list Z) (out_len : Z).
Context (Hinp : bytes inp) (Hin0 : MAX_OFF <= in_data) (Hin1 : in_data + Z.of_nat (length inp) < 2 ^ 64).
Local Abbreviation in_end := (Z.of_nat (length inp)).

(** [same r i n]: the [n] octets at [r] and at [i] of the input agree. *)
Definition same (r i n : Z) : Prop :=
  forall k, 0 <= k < n -> inp !! Z.to_nat (r + k) = inp !! Z.to_nat (i + k).

Lemma same_extend r i n b :
  0 <= r -> 0 <= i -> 0 <= n -> same r i n ->
  inp !! Z.to_nat (r + n) = Some b -> inp !! Z.to_nat (i + n) = Some b -> same r i (n + 1).
Proof.
  intros Hr Hi Hn Hs Hb1 Hb2 k Hk. destruct (decide (k = n)) as [->|]; [congruence|]. apply Hs. lia.
Qed.

Lemma unrolled_spec n ref ip len :
  0 <= ref < ip -> 0 <= len -> ip + len + Z.of_nat n < in_end -> same ref ip (len + 1) ->
  exists len' stop, unrolled inp n ref ip len = Ret (len', stop) /\
    (if stop : bool then len < len' <= len + Z.of_nat n /\ same ref ip len'
     else len' = len + Z.of_nat n /\ same ref ip (len' + 1)).
Proof.
  revert len. induction n as [|n IH]; intros len Hr Hl He Hs; cbn [unrolled].
  { eexists _, _. split; [done|]. cbn. split; [lia|done]. }
  destruct (aget_byte inp (ref + (len + 1)) Hinp ltac:(lia)) as (a & -> & _ & Ea).
  destruct (aget_byte inp (ip + (len + 1)) Hinp ltac:(lia)) as (b & -> & _ & Eb).
  cbn [mbind res_bind]. destruct (Z.eqb_spec a b) as [->|]; cbn [negb].
  - destruct (IH (len + 1)) as (len' & stop & -> & Hs'); [lia|lia|lia| |].
    { eapply same_extend; eauto; lia. }
    eexists _, _. split; [done|]. destruct stop; split; try lia; apply Hs'.
  - eexists _, _. split; [done|]. split; [lia|done].
Qed.

Lemma match_loop_spec fuel ref ip maxlen len :
  0 <= ref < ip -> 0 <= len -> ip + len + 1 <= in_end -> ip + maxlen <= in_end ->
  maxlen - len <= Z.of_nat fuel -> (0 < fuel)%nat -> same ref ip (len + 1) ->
  exists len', match_loop inp fuel ref ip maxlen len = Ret len' /\
    len < len' <= Z.max (len + 1) maxlen /\ same ref ip len'.
Proof.
  revert len. induction fuel as [|fuel IH]; intros len Hr Hl He Hm Hf Hp Hs; cbn [match_loop]; [lia|].
  destruct (Z.ltb_spec (len + 1) maxlen); [|eexists; split; [done|]; split; [lia|done]].
  destruct (aget_byte inp (ref + (len + 1)) Hinp ltac:(lia)) as (a & -> & _ & Ea).
  destruct (aget_byte inp (ip + (len + 1)) Hinp ltac:(lia)) as (b & -> & _ & Eb).
  cbn [mbind res_bind]. destruct (Z.eqb_spec a b) as [->|]; [|eexists; split; [done|]; split; [lia|done]].
  destruct (IH (len + 1)) as (len' & -> & Hle & Hs'); try lia.
  { eapply same_extend; eauto; lia. }
  eexists. split; [done|]. split; [lia|done].
Qed.

Lemma match_len_spec ref ip :
  0 <= ref < ip -> ip < in_end - 2 -> same ref ip 3 ->
  let maxlen := if MAX_REF <? in_end - ip - 2 then MAX_REF else in_end - ip - 2 in
  exists len, match_len inp ref ip maxlen = Ret len /\
    3 <= len <= 264 /\ ip + len <= in_end /\ same ref ip len.
Proof.
  intros Hr Hip Hs maxlen. unfold match_len.
  assert (Hm : maxlen <= 264 /\ maxlen <= in_end - ip - 2)
    by (unfold maxlen; change MAX_REF with 264; destruct (Z.ltb_spec 264 (in_end - ip - 2)); lia).
  change (Z.to_nat MAX_REF) with 264%nat. clearbody maxlen.
  destruct (Z.ltb_spec 16 maxlen).
  - destruct (unrolled_spec 16 ref ip 2) as (len & [] & -> & Hl); [lia|lia|lia|done|..];
      cbn [mbind res_bind].
    + eexists. split; [done|]. split; [lia|]. split; [lia|apply Hl].
    + destruct (match_loop_spec 264 ref ip maxlen len) as (len' & -> & Hl' & Hs'); try lia; [apply Hl|].
      eexists. split; [done|]. split; [lia|]. split; [lia|done].
  - cbn [mbind res_bind].
    destruct (match_loop_spec 264 ref ip maxlen 2) as (len' & -> & Hl' & Hs'); try lia; [done|].
    eexists. split; [done|]. split; [lia|]. split; [lia|done].
Qed.

Lemma pair_of_octets a b c d :
  0 <= a < 256 -> 0 <= b < 256 -> 0 <= c < 256 -> 0 <= d < 256 ->
  Z.lor (Z.shiftl a 8) b = Z.lor (Z.shiftl c 8) d -> a = c /\ b = d.
Proof.
  intros Ha Hb Hc Hd. rewrite !lor_shiftl_add by (try lia; change (2 ^ 8) with 256; lia).
  change (2 ^ 8) with 256. lia.
Qed.

(** A candidate that passes the tests lies inside the input, before [ip]. *)
Lemma candidate_spec ref ip :
  0 <= ip < in_end - 2 -> 0 <= ref < 2 ^ 64 ->
  exists c, candidate in_data inp ref ip = Ret c /\
    match c with
    | None => True
    | Some off => let r := ref - in_data in
        0 < r < ip /\ off = ip - r - 1 /\ off < 8192 /\ same r ip 3
    end.
Proof.
  intros Hip Href. unfold candidate. change MAX_OFF with 8192 in *.
  destruct (_ && _) eqn:Hg; [|by eexists]. apply andb_prop in Hg as [Hoff%Z.ltb_lt Hr%Z.ltb_lt].
  assert (Hr' : 0 <= in_data + ip - ref - 1 < 2 ^ 64).
  { unfold uwrap in Hoff. destruct (decide (0 <= in_data + ip - ref - 1)); [lia|].
    replace (in_data + ip - ref - 1) with (in_data + ip - ref - 1 + 2 ^ 64 + (-1) * 2 ^ 64) in Hoff by lia.
    rewrite Z.mod_add, Z.mod_small in Hoff by lia. lia. }
  rewrite uwrap_id in * by lia.
  destruct (aget_byte inp (ref - in_data + 2) Hinp ltac:(lia)) as (r2 & -> & _ & E2).
  destruct (aget_byte inp (ip + 2) Hinp ltac:(lia)) as (i2 & -> & _ & F2). cbn [mbind res_bind].
  destruct (Z.eqb_spec r2 i2) as [->|]; [|by eexists].
  destruct (aget_byte inp (ref - in_data + 1) Hinp ltac:(lia)) as (r1 & -> & ? & E1).
  destruct (aget_byte inp (ref - in_data) Hinp ltac:(lia)) as (r0 & -> & ? & E0).
  destruct (aget_byte inp (ip + 1) Hinp ltac:(lia)) as (i1 & -> & ? & F1).
  destruct (aget_byte inp ip Hinp ltac:(lia)) as (i0 & -> & ? & F0). cbn [mbind res_bind].
  destruct (Z.eqb_spec (Z.lor (Z.shiftl r1 8) r0) (Z.lor (Z.shiftl i1 8) i0)) as [Hp|]; [|by eexists].
  apply pair_of_octets in Hp as [-> ->]; try done.
  eexists. split; [done|]. cbn. split; [lia|]. split; [lia|]. split; [lia|].
  intros k Hk. assert (k = 0 \/ k = 1 \/ k = 2) as [->|[->| ->]] by lia; rewrite ?Z.add_0_r; congruence.
Qed.

(** The octets before the current run encode the input before its literals,
    and the literals of the run are in place. *)
Record run_inv (ip op lit : Z) (out : list Z) : Prop := {
  ri_lit : 0 <= lit <= 32;
  ri_ip : lit <= ip <= in_end;
  ri_op : lit + 1 <= op <= out_len + not01 lit;
  ri_out : Z.of_nat (length out) = out_len;
  ri_enc : encodes (take (Z.to_nat (op - lit - 1)) out) (take (Z.to_nat (ip - lit)) inp);
  ri_pending : sub (Z.to_nat (op - lit)) (Z.to_nat lit) out = sub (Z.to_nat (ip - lit)) (Z.to_nat lit) inp;
}.

Lemma take_sub {A} (m : list A) a b :
  (a + b <= length m)%nat -> take (a + b) m = take a m ++ sub a b m.
Proof.
  intros H. unfold sub. rewrite <- (take_drop a m) at 1. rewrite take_app_ge by (rewrite length_take; lia).
  rewrite length_take. f_equal. f_equal. lia.
Qed.

Lemma stop_run_spec ip op lit out :
  run_inv ip op lit out -> op <= out_len ->
  exists out', stop_run out op lit = Ret out' /\ length out' = length out /\
    encodes (take (Z.to_nat (op - not01 lit)) out') (take (Z.to_nat ip) inp).
Proof.
  intros [Hl Hi Ho Hout Henc Hp] Hop. unfold stop_run. rewrite aset_Z by lia.
  eexists. split; [done|]. split; [apply length_insert|]. unfold not01.
  destruct (Z.eqb_spec lit 0) as [->|Hne].
  - rewrite take_insert_ge by lia. rewrite !Z.sub_0_r in Henc. done.
  - rewrite Z.sub_0_r. rewrite uwrap_id by lia.
    set (j := Z.to_nat (op - lit - 1)) in *.
    replace (Z.to_nat op) with (S j + Z.to_nat lit)%nat by lia.
    rewrite take_sub by (rewrite length_insert; lia).
    rewrite (take_S_r _ _ (lit - 1)) by (apply list_lookup_insert_eq; lia).
    rewrite take_insert_ge by lia.
    assert (E : sub (S j) (Z.to_nat lit) (<[j:=lit - 1]> out) = sub (Z.to_nat (ip - lit)) (Z.to_nat lit) inp).
    { rewrite <- Hp. unfold sub. rewrite drop_insert_lt by lia. do 2 f_equal. lia. }
    rewrite E. replace (Z.to_nat ip) with (Z.to_nat (ip - lit) + Z.to_nat lit)%nat by lia.
    rewrite take_sub by lia. rewrite <- app_assoc. cbn [app].
    assert (Hlen : length (sub (Z.to_nat (ip - lit)) (Z.to_nat lit) inp) = Z.to_nat lit) by (apply length_sub; lia).
    replace (lit - 1) with (Z.of_nat (length (sub (Z.to_nat (ip - lit)) (Z.to_nat lit) inp)) - 1) at 1 by lia.
    apply enc_lit; [done|lia].
Qed.

(** Starting a run after [ip] octets have been encoded. *)
Lemma run_start ip op out :
  0 <= ip <= in_end -> 0 <= op <= out_len -> Z.of_nat (length out) = out_len ->
  encodes (take (Z.to_nat op) out) (take (Z.to_nat ip) inp) -> run_inv ip (op + 1) 0 out.
Proof.
  intros Hi Ho Hl He. constructor; rewrite ?Z.sub_0_r; try done; try lia.
  - unfold not01. simpl. lia.
  - by replace (op + 1 - 1) with op by lia.
Qed.

Lemma run_literal ip op lit out b :
  run_inv ip op lit out -> lit < 32 -> op < out_len -> inp !! Z.to_nat ip = Some b ->
  run_inv (ip + 1) (op + 1) (lit + 1) (<[Z.to_nat op := b]> out).
Proof.
  intros [Hl Hi Ho Hout Henc Hp] Hlt Hop Hb.
  assert (ip < in_end) by (apply lookup_lt_Some in Hb; lia).
  assert (not01 (lit + 1) = 0) as E0 by (unfold not01; by rewrite (proj2 (Z.eqb_neq _ 0)) by lia).
  constructor; rewrite ?length_insert, ?E0; try lia.
  - rewrite take_insert_ge by lia.
    by replace (op + 1 - (lit + 1) - 1) with (op - lit - 1) by lia; replace (ip + 1 - (lit + 1)) with (ip - lit) by lia.
  - replace (op + 1 - (lit + 1)) with (op - lit) by lia. replace (ip + 1 - (lit + 1)) with (ip - lit) by lia.
    replace (Z.to_nat (lit + 1)) with (S (Z.to_nat lit)) by lia. unfold sub in *.
    rewrite (take_S_r _ _ b) by (rewrite lookup_drop; replace (Z.to_nat (op - lit) + Z.to_nat lit)%nat with (Z.to_nat op) by lia;
      apply list_lookup_insert_eq; lia).
    rewrite (take_S_r _ _ b) by (rewrite lookup_drop; by replace (Z.to_nat (ip - lit) + Z.to_nat lit)%nat with (Z.to_nat ip) by lia).
    rewrite <- Hp. f_equal. apply list_eq. intros i. destruct (decide (i < Z.to_nat lit)%nat).
    + rewrite !lookup_take_lt, !lookup_drop by lia. by rewrite list_lookup_insert_ne by lia.
    + by rewrite !lookup_take_ge by lia.
Qed.

Record cinv (s : cstate) : Prop := {
  ci_run : run_inv (c_ip s) (c_op s) (c_lit s) (c_out s);
  ci_lit : c_lit s < 32;
  ci_htab : forall i, 0 <= c_htab s i < 2 ^ 64;
}.

Lemma put_lit_spec s :
  cinv s -> c_ip s < in_end -> c_op s < out_len ->
  exists s', put_lit inp s = Ret s' /\ cinv s' /\ c_ip s' = c_ip s + 1 /\
    (c_op s' = c_op s + 1 /\ 0 < c_lit s' \/ c_op s' = c_op s + 2 /\ c_lit s' = 0 /\ c_lit s = 31).
Proof.
  destruct s as [ip op lit hval htab out]. intros [Hr Hl Ht]. cbn in *. intros Hip Hop.
  pose proof Hr as [Hl' Hi Ho Hout _ _]. unfold put_lit. cbn.
  destruct (aget_byte inp ip Hinp ltac:(lia)) as (b & -> & _ & Eb). cbn [mbind res_bind].
  rewrite aset_Z by lia. cbn [mbind res_bind]. change MAX_LIT with 32.
  pose proof (run_literal _ _ _ _ _ Hr Hl Hop Eb) as Hr'.
  destruct (Z.eqb_spec (lit + 1) 32) as [E|].
  - destruct (stop_run_spec _ _ _ _ Hr' ltac:(lia)) as (out' & -> & Hlen & Henc).
    cbn [mbind res_bind]. eexists. split; [done|]. cbn. rewrite length_insert in Hlen.
    rewrite E in Henc. change (not01 32) with 0 in Henc. rewrite Z.sub_0_r in Henc.
    split; [|split; [done|right; lia]].
    constructor; cbn; [apply run_start; (done || lia)|lia|done].
  - eexists. split; [done|]. cbn. split; [|split; [done|left; lia]]. constructor; cbn; [done|lia|done].
Qed.

Lemma put_ref_spec out op off len :
  0 <= op -> op + 3 <= Z.of_nat (length out) -> 0 <= off < 8192 -> 0 < len <= 262 ->
  exists out', put_ref out op off len = Ret (out', op + Z.of_nat (length (ref_bytes off len))) /\
    length out' = length out /\
    take (Z.to_nat (op + Z.of_nat (length (ref_bytes off len)))) out' = take (Z.to_nat op) out ++ ref_bytes off len.
Proof.
  intros Ho Hle Hoff Hlen. unfold put_ref, ref_bytes.
  assert (0 <= off / 256 < 32) by (split; [apply Z.div_pos|apply Z.div_lt_upper_bound]; lia).
  rewrite (Z.shiftr_div_pow2 off 8), !Z.shiftl_mul_pow2 by lia.
  change (2 ^ 8) with 256. change (2 ^ 5) with 32.
  destruct (Z.ltb_spec len 7).
  - rewrite aset_Z by lia. cbn [mbind res_bind]. rewrite aset_Z by (rewrite length_insert; lia).
    cbn [mbind res_bind length].
    eexists. split; [do 2 f_equal; lia|]. rewrite !length_insert. split; [done|].
    replace (Z.to_nat (op + Z.of_nat 2)) with (S (Z.to_nat (op + 1))) by lia.
    rewrite (take_S_r _ _ (u8 off)) by (apply list_lookup_insert_eq; rewrite length_insert; lia).
    rewrite take_insert_ge by lia. replace (Z.to_nat (op + 1)) with (S (Z.to_nat op)) by lia.
    rewrite (take_S_r _ _ (u8 (off / 256 + len * 32))) by (apply list_lookup_insert_eq; lia).
    rewrite take_insert_ge by lia. rewrite <- app_assoc. cbn [app].
    rewrite (uwrap_id 8 (off / 256 + len * 32)) by (change (2 ^ 8) with 256; lia).
    by rewrite (Z.mul_comm len 32).
  - rewrite aset_Z by lia. cbn [mbind res_bind]. rewrite aset_Z by (rewrite length_insert; lia).
    cbn [mbind res_bind length]. rewrite aset_Z by (rewrite !length_insert; lia).
    cbn [mbind res_bind length].
    eexists. split; [do 2 f_equal; lia|]. rewrite !length_insert. split; [done|].
    replace (Z.to_nat (op + Z.of_nat 3)) with (S (Z.to_nat (op + 2))) by lia.
    rewrite (take_S_r _ _ (u8 off)) by (apply list_lookup_insert_eq; rewrite !length_insert; lia).
    rewrite take_insert_ge by lia. replace (Z.to_nat (op + 2)) with (S (Z.to_nat (op + 1))) by lia.
    rewrite (take_S_r _ _ (u8 (len - 7))) by (apply list_lookup_insert_eq; rewrite length_insert; lia).
    rewrite take_insert_ge by lia. replace (Z.to_nat (op + 1)) with (S (Z.to_nat op)) by lia.
    rewrite (take_S_r _ _ (u8 (off / 256 + 7 * 32))) by (apply list_lookup_insert_eq; lia).
    rewrite take_insert_ge by lia. rewrite <- !app_assoc. cbn [app].
    rewrite (uwrap_id 8 (off / 256 + 7 * 32)) by (change (2 ^ 8) with 256; lia).
    by rewrite (uwrap_id 8 (len - 7)) by (change (2 ^ 8) with 256; lia).
Qed.

(** The octets copied by a back reference are those of the input. *)
Lemma same_copies r ip len :
  0 <= r < ip -> 0 <= len -> ip + len <= in_end -> same r ip len ->
  copies (take (Z.to_nat ip) inp) (ip - r - 1) (sub (Z.to_nat ip) (Z.to_nat len) inp).
Proof.
  intros Hr Hl He Hs i Hi. rewrite length_sub in Hi by lia. rewrite <- take_sub by lia.
  rewrite length_take, Nat.min_l by lia. rewrite !lookup_take_lt by lia.
  specialize (Hs (Z.of_nat i) ltac:(lia)).
  replace (Z.to_nat ip + i)%nat with (Z.to_nat (ip + Z.of_nat i)) by lia. rewrite <- Hs.
  f_equal. lia.
Qed.

Lemma IDX_range h : 0 <= IDX h < HSIZE.
Proof.
  unfold IDX. change HSIZE with (2 ^ 16). change (2 ^ 16 - 1) with (Z.ones 16).
  rewrite Z.land_ones by lia. apply Z.mod_pos_bound. lia.
Qed.

Lemma hget_IDX htab h : hget htab (IDX h) = Ret (htab (IDX h)).
Proof. unfold hget. pose proof (IDX_range h). by rewrite (proj2 (andb_true_iff _ _)) by lia. Qed.

Lemma hset_IDX htab h ip : (forall i, 0 <= htab i < 2 ^ 64) -> 0 <= ip < in_end ->
  exists htab', hset htab (IDX h) (in_data + ip) = Ret htab' /\ (forall i, 0 <= htab' i < 2 ^ 64).
Proof.
  intros Ht Hip. unfold hset. pose proof (IDX_range h). rewrite (proj2 (andb_true_iff _ _)) by lia.
  eexists. split; [done|]. intros i. cbn. change MAX_OFF with 8192 in Hin0. destruct (_ =? _); [lia|apply Ht].
Qed.

Lemma FRST_Ret ip : 0 <= ip -> ip + 1 < in_end -> exists v, FRST inp ip = Ret v.
Proof.
  intros H0 H1. unfold FRST.
  destruct (aget_byte inp ip Hinp ltac:(lia)) as (a & -> & _).
  destruct (aget_byte inp (ip + 1) Hinp ltac:(lia)) as (b & -> & _). by eexists.
Qed.

Lemma NEXT_Ret v ip : 0 <= ip -> ip + 2 < in_end -> exists v', NEXT v inp ip = Ret v'.
Proof.
  intros H0 H1. unfold NEXT. destruct (aget_byte inp (ip + 2) Hinp ltac:(lia)) as (b & -> & _). by eexists.
Qed.

Definition outcome_ok (ip : Z) (o : outcome) : Prop :=
  match o with
  | Next s => cinv s /\ ip < c_ip s
  | Break s => cinv s /\ in_end - 2 <= c_ip s
  | Return0 _ => True
  end.

Lemma not01_range lit : 0 <= not01 lit <= 1.
Proof. unfold not01. case_match; lia. Qed.

(** The output of the match branch: run flushed, reference written. *)
Lemma emit_encodes ip op lit out r len out1 out2 op' :
  run_inv ip op lit out -> 0 < r < ip -> ip - r - 1 < 8192 -> 3 <= len <= 264 -> ip + len <= in_end ->
  same r ip len ->
  encodes (take (Z.to_nat (op - not01 lit)) out1) (take (Z.to_nat ip) inp) ->
  take (Z.to_nat op') out2 = take (Z.to_nat (op - not01 lit)) out1 ++ ref_bytes (ip - r - 1) (len - 2) ->
  encodes (take (Z.to_nat op') out2) (take (Z.to_nat (ip + len)) inp).
Proof.
  intros Hri Hr Hoff Hlen He Hs Henc ->.
  assert (Hc : length (sub (Z.to_nat ip) (Z.to_nat len) inp) = Z.to_nat len) by (apply length_sub; lia).
  replace (Z.to_nat (ip + len)) with (Z.to_nat ip + Z.to_nat len)%nat by lia.
  rewrite take_sub by lia.
  replace (len - 2) with (Z.of_nat (length (sub (Z.to_nat ip) (Z.to_nat len) inp)) - 2) by lia.
  apply enc_ref; [done|lia| |lia|].
  - rewrite length_take. lia.
  - apply same_copies; (done || lia).
Qed.

Lemma emit_match_spec s r :
  cinv s -> c_ip s < in_end - 2 -> 0 < r < c_ip s -> c_ip s - r - 1 < 8192 -> same r (c_ip s) 3 ->
  exists o, emit_match in_data inp out_len s r (c_ip s - r - 1) = Ret o /\ outcome_ok (c_ip s) o.
Proof.
  destruct s as [ip op lit hval htab out]. intros [Hr Hl Ht] Hip Hrr Hoff Hs. cbn in *.
  pose proof Hr as [Hl' Hi Ho Hout _ _]. pose proof (not01_range lit). unfold emit_match. cbn.
  destruct (_ && _) eqn:Hg; [by eexists|]. 
  assert (Hroom : op - not01 lit + 4 < out_len) by lia.
  destruct (stop_run_spec _ _ _ _ Hr ltac:(lia)) as (out1 & -> & Hlen1 & Henc). cbn [mbind res_bind].
  destruct (match_len_spec r ip ltac:(lia) Hip Hs) as (len & -> & Hlen & Hle & Hsame). cbn [mbind res_bind].
  destruct (put_ref_spec out1 (op - not01 lit) (ip - r - 1) (len - 2)) as (out2 & -> & Hlen2 & Ht2); [lia|lia|lia|lia|].
  cbn [mbind res_bind].
  pose proof (emit_encodes _ _ _ _ _ _ _ _ _ Hr Hrr Hoff Hlen Hle Hsame Henc Ht2) as Henc2.
  assert (Hrb : (length (ref_bytes (ip - r - 1) (len - 2)) <= 3)%nat) by (unfold ref_bytes; case_match; simpl; lia).
  replace (ip + 1 + (len - 2 + 1)) with (ip + len) by lia.
  assert (Hrun : run_inv (ip + len) (op - not01 lit + Z.of_nat (length (ref_bytes (ip - r - 1) (len - 2))) + 1) 0 out2)
    by (apply run_start; (done || lia)).
  destruct (Z.leb_spec (in_end - 2) (ip + len)).
  { eexists. split; [done|]. cbn. split; [|lia]. constructor; cbn; [done|lia|done]. }
  destruct (FRST_Ret (ip + len - 2)) as [v0 ->]; [lia|lia|]. cbn [mbind res_bind].
  destruct (NEXT_Ret v0 (ip + len - 2)) as [v1 ->]; [lia|lia|]. cbn [mbind res_bind].
  destruct (hset_IDX htab v1 (ip + len - 2) Ht ltac:(lia)) as (htab1 & -> & Ht1). cbn [mbind res_bind].
  destruct (NEXT_Ret v1 (ip + len - 2 + 1)) as [v2 ->]; [lia|lia|]. cbn [mbind res_bind].
  destruct (hset_IDX htab1 v2 (ip + len - 2 + 1) Ht1 ltac:(lia)) as (htab2 & -> & Ht2'). cbn [mbind res_bind].
  eexists. split; [done|]. cbn. split; [|lia]. replace (ip + len - 2 + 1 + 1) with (ip + len) by lia.
  constructor; cbn; [done|lia|done].
Qed.

Lemma compress_step_spec s :
  cinv s -> 0 <= c_ip s < in_end - 2 ->
  exists o, compress_step in_data inp out_len s = Ret o /\ outcome_ok (c_ip s) o.
Proof.
  intros [Hr Hl Ht] Hip. unfold compress_step.
  destruct (NEXT_Ret (c_hval s) (c_ip s)) as [v ->]; [lia|lia|]. cbn [mbind res_bind].
  rewrite hget_IDX. cbn [mbind res_bind].
  destruct (hset_IDX (c_htab s) v (c_ip s) Ht ltac:(lia)) as (htab & -> & Ht'). cbn [mbind res_bind].
  set (s1 := CState (c_ip s) (c_op s) (c_lit s) v htab (c_out s)).
  assert (Hs1 : cinv s1) by (constructor; done).
  destruct (candidate_spec (c_htab s (IDX v)) (c_ip s) Hip (Ht _)) as (c & -> & Hc). cbn [mbind res_bind].
  destruct c as [off|].
  - destruct Hc as (Hr0 & -> & Hoff & Hsame).
    apply (emit_match_spec s1 (c_htab s (IDX v) - in_data)); (done || cbn; lia).
  - change (c_op s1) with (c_op s). destruct (Z.leb_spec out_len (c_op s)); [by eexists|].
    destruct (put_lit_spec s1 Hs1) as (s' & -> & Hs' & Hip' & _); [cbn; lia|cbn; lia|].
    eexists. split; [done|]. cbn in *. split; [done|lia].
Qed.

Lemma compress_loop_spec fuel s :
  cinv s -> 0 <= c_ip s -> in_end - c_ip s <= Z.of_nat fuel ->
  exists o out, compress_loop in_data inp out_len fuel s = Ret (o, out) /\
    match o with None => True | Some s' => cinv s' /\ in_end - 2 <= c_ip s' end.
Proof.
  revert s. induction fuel as [|fuel IH]; intros s Hs Hip Hf; cbn [compress_loop];
    destruct (Z.ltb_spec (c_ip s) (in_end - 2)); try lia;
    try (eexists _, _; split; [done|]; split; [done|lia]).
  destruct (compress_step_spec s Hs ltac:(lia)) as (o & -> & Ho). cbn [mbind res_bind].
  destruct o as [s'|s'|s'].
  - destruct Ho. apply IH; [done|lia|lia].
  - by eexists _, _.
  - by eexists _, _.
Qed.

Lemma rest_loop_spec s :
  cinv s -> in_end - 2 <= c_ip s -> c_op s + 3 <= out_len ->
  exists s', rest_loop inp 3 s = Ret s' /\ cinv s' /\ c_ip s' = in_end /\ c_op s' <= out_len.
Proof.
  intros Hs Hip Hop. pose proof (ri_ip _ _ _ _ (ci_run _ Hs)) as Hi.
  cbn [rest_loop]. destruct (Z.ltb_spec (c_ip s) in_end).
  2:{ exists s. split; [done|]. split; [done|]. lia. }
  destruct (put_lit_spec s Hs) as (s1 & -> & Hs1 & Hip1 & Hop1); [lia|lia|]. cbn [mbind res_bind].
  destruct (Z.ltb_spec (c_ip s1) in_end).
  2:{ exists s1. split; [done|]. split; [done|]. lia. }
  destruct (put_lit_spec s1 Hs1) as (s2 & -> & Hs2 & Hip2 & Hop2); [lia|lia|]. cbn [mbind res_bind].
  rewrite (proj2 (Z.ltb_ge (c_ip s2) in_end)) by lia.
  exists s2. split; [done|]. split; [done|]. lia.
Qed.

Lemma lzf_compress_encodes htab out :
  (forall i, 0 <= htab i < 2 ^ 64) -> 2 <= in_end -> Z.of_nat (length out) = out_len ->
  exists n out', lzf_compress in_data inp out_len htab out = Ret (n, out') /\
    (n = 0 \/ 0 < n <= out_len /\ encodes (take (Z.to_nat n) out') inp).
Proof.
  intros Ht Hin Hout. unfold lzf_compress.
  destruct (_ || _) eqn:Hz; [by eexists _, _; split; [done|left]|].
  destruct (FRST_Ret 0) as [v ->]; [lia|lia|]. cbn [mbind res_bind].
  destruct (compress_loop_spec (length inp) (CState 0 1 0 v htab out)) as (o & out1 & -> & Ho); [|cbn; lia|cbn; lia|].
  { constructor; cbn; [|lia|done]. apply (run_start 0 0); [lia|lia|done|constructor]. }
  cbn [mbind res_bind]. destruct o as [s|]; [|by eexists _, _; split; [done|left]].
  destruct Ho as [Hs Hip].
  destruct (Z.ltb_spec out_len (c_op s + 3)); [by eexists _, _; split; [done|left]|].
  destruct (rest_loop_spec s Hs Hip ltac:(lia)) as (s' & -> & Hs' & Hend & Hop). cbn [mbind res_bind].
  destruct (stop_run_spec _ _ _ _ (ci_run _ Hs') Hop) as (out2 & -> & Hl & Henc). cbn [mbind res_bind].
  eexists _, _. split; [done|]. right. pose proof (not01_range (c_lit s')).
  pose proof (ri_lit _ _ _ _ (ci_run _ Hs)). pose proof (ri_lit _ _ _ _ (ci_run _ Hs')). pose proof (ri_op _ _ _ _ (ci_run _ Hs')). rewrite Hend, Nat2Z.id, firstn_all in Henc.
  split; [|done]. split; [|lia].
  assert (c_op s' - not01 (c_lit s') <> 0); [|lia]. intros E. rewrite E in Henc. simpl in Henc.
  inversion Henc as [E1 E2|e d l _ ? E1 E2|e d off c _ _ _ _ _ E1 E2].
  - rewrite <- E2 in Hin. simpl in Hin. lia.
  - by destruct e.
  - pose proof (ref_bytes_nonempty off (Z.of_nat (length c) - 2)). destruct e; simpl in E1; [|done].
    rewrite E1 in *. simpl in *. lia.
Qed.
End compress_proofs.

(** ** Theorems *)

(** C28: for every input of at least two octets, every output size and every
    content of the uninitialised hash table, the compressor returns without
    touching memory outside its buffers, and when it reports success the
    octets it reports decompress to the input, in any buffer large enough. *)
Theorem lzf_roundtrip (in_data : Z) (inp : list Z) (out_len : Z) (htab : LZF_STATE) (out : list Z) :
  bytes inp -> 2 <= Z.of_nat (length inp) ->
  MAX_OFF <= in_data -> in_data + Z.of_nat (length inp) < 2 ^ 64 ->
  (forall i, 0 <= htab i < 2 ^ 64) -> Z.of_nat (length out) = out_len ->
  exists n out', lzf_compress in_data inp out_len htab out = Ret (n, out') /\
    (n = 0 \/ 0 < n <= out_len /\
      forall dlen dst, Z.of_nat (length dst) = dlen -> Z.of_nat (length inp) <= dlen ->
        exists dst', lzf_decompress (take (Z.to_nat n) out') dlen dst = Ret (Z.of_nat (length inp), dst') /\
          take (length inp) dst' = inp).
Proof.
  intros Hb Hl H0 H1 Ht Hout.
  destruct (lzf_compress_encodes in_data inp out_len Hb H0 H1 htab out Ht Hl Hout) as (n & out' & E & Hn).
  exists n, out'. split; [done|]. destruct Hn as [->|[Hn He]]; [by left|right]. split; [done|].
  intros dlen dst Hd Hle. apply lzf_decompress_encodes; [done|lia|lia].
Qed.

Lemma lzf_roundtrip_witness :
  exists n out', lzf_compress 65536 (repeat 7 40) 30 (fun _ => 65540) (repeat 0 30) = Ret (n, out') /\
    (n = 0 \/ 0 < n <= 30 /\
      forall dlen dst, Z.of_nat (length dst) = dlen -> Z.of_nat (length (repeat 7 40)) <= dlen ->
        exists dst', lzf_decompress (take (Z.to_nat n) out') dlen dst = Ret (Z.of_nat (length (repeat 7 40)), dst') /\
          take (length (repeat 7 40)) dst' = repeat 7 40).
Proof.
  apply (lzf_roundtrip 65536 (repeat 7 40) 30 (fun _ => 65540) (repeat 0 30)).
  - repeat constructor; lia.
  - vm_compute; discriminate.
  - vm_compute; discriminate.
  - vm_compute; reflexivity.
  - intros i. lia.
  - reflexivity.
Defined.

(** C37: whatever octets it is given, corrupted or hostile, the decompressor
    ends, reads only inside its input and writes only inside the output
    buffer, and reports at most the buffer's size. *)
Theorem lzf_decompress_safe (inp : list Z) (out_len : Z) (out : list Z) :
  bytes inp -> Z.of_nat (length out) = out_len ->
  exists n out', lzf_decompress inp out_len out = Ret (n, out') /\
    0 <= n <= out_len /\ length out' = length out.
Proof. intros Hb Hout. apply decompress_loop_safe; (done || lia). Qed.

Lemma lzf_decompress_safe_witness :
  exists n out', lzf_decompress [225; 3; 9; 255] 4 (repeat 0 4) = Ret (n, out') /\
    0 <= n <= 4 /\ length out' = length (repeat 0 4).
Proof.
  apply (lzf_decompress_safe [225; 3; 9; 255] 4 (repeat 0 4)); [repeat constructor; lia|reflexivity].
Defined.

(** The round trip is not vacuous: a repetitive input does compress. *)
Example lzf_compresses :
  exists out', lzf_compress 65536 (repeat 7 40) 30 (fun _ => 65540) (repeat 0 30) = Ret (9, out').
Proof. eexists. vm_compute. reflexivity. Qed.

(** A one-octet input is read past its end ([FRST] reads two octets); Redis
    only compresses longer strings. *)
Example lzf_compress_one_octet :
  lzf_compress 65536 [7] 30 (fun _ => 65540) (repeat 0 30) = Abort.
Proof. reflexivity. Qed.
