(* ===== verification/Dict.v ===== *)
(** * Redis' hash table ([redis-7.2.3/src/dict.c], [dict.h])

    A dictionary has two tables of chains; while it is being resized, every
    operation also moves a bucket from the first table to the second.  The
    model keeps the tables, the chains and their three kinds of entries, the
    rehashing position and the pause counter.  A chain is the value of a
    [dictEntry] pointer: NULL, a bare key (the least significant bit of the
    pointer is set), an entry without value, or a normal entry.  Pointers to
    entries are positions (table, bucket, place in the chain).

    Hash function, key flags, the [expandAllowed] callback and the global
    [dict_can_resize] are arguments; keys are compared by equality.  The
    refinement theorems are against finite maps. *)
From stdpp Require Import gmap.
From S2P Require Import Prelude.

Local Open Scope Z_scope.

(** ** Data *)

Inductive dictResizeEnable : Type := DICT_RESIZE_ENABLE | DICT_RESIZE_AVOID | DICT_RESIZE_FORBID.
#[export] Instance dictResizeEnable_eq : EqDecision dictResizeEnable.
Proof. solve_decision. Defined.

Inductive chain (K V : Type) : Type :=
  | CNull
  | CKey (key : K)
  | CNoValue (key : K) (next : chain K V)
  | CNormal (key : K) (val : V) (next : chain K V).
Arguments CNull {K V}.
Arguments CKey {K V} key.
Arguments CNoValue {K V} key next.
Arguments CNormal {K V} key val next.

(** An array of two elements, indexed by the number of the table. *)
Definition sel {A} (p : A * A) (table : bool) : A := if table then p.2 else p.1.
Definition upd {A} (p : A * A) (table : bool) (x : A) : A * A :=
  if table then (p.1, x) else (x, p.2).

(** NULL tables are empty lists. *)
Record dict (K V : Type) : Type := Dict {
  ht_table : list (chain K V) * list (chain K V);
  ht_used : Z * Z;
  rehashidx : Z;
  pauserehash : Z;
  ht_size_exp : Z * Z;
}.
Arguments Dict {K V}.
Arguments ht_table {K V}.
Arguments ht_used {K V}.
Arguments rehashidx {K V}.
Arguments pauserehash {K V}.
Arguments ht_size_exp {K V}.

Definition DICT_HT_INITIAL_EXP : Z := 2.
Definition DICT_HT_INITIAL_SIZE : Z := Z.shiftl 1 DICT_HT_INITIAL_EXP.
Definition dict_force_resize_ratio : Z := 5.
Definition LONG_MAX : Z := 2 ^ 63 - 1.

Definition DICTHT_SIZE (exp : Z) : Z := if exp =? -1 then 0 else Z.shiftl 1 exp.
Definition DICTHT_SIZE_MASK (exp : Z) : Z := if exp =? -1 then 0 else DICTHT_SIZE exp - 1.

(** [htNeedsResize] of [server.c]: whether less than a tenth of the buckets is in
    use. *)
Definition HASHTABLE_MIN_FILL : Z := 10.
Definition htNeedsResize {K V} (d : dict K V) : bool :=
  let size := DICTHT_SIZE (sel (ht_size_exp d) false) + DICTHT_SIZE (sel (ht_size_exp d) true) in
  let used := sel (ht_used d) false + sel (ht_used d) true in
  (DICT_HT_INITIAL_SIZE <? size) && (used * 100 / size <? HASHTABLE_MIN_FILL).

(** The place of an entry. *)
Record loc : Type := Loc { l_table : bool; l_idx : Z; l_pos : nat }.

Section dict.
Context {K V : Type} `{EqDecision K}.
Context (hashFunction : K -> Z) (no_value keys_are_odd : bool) (entryIsKey : K -> bool).
Context (expandAllowed : Z -> Z -> Z -> bool) (dict_can_resize : dictResizeEnable) (uninit_val : V).
Local Abbreviation dict := (dict K V).
Local Abbreviation chain := (chain K V).

Definition set_table (d : dict) (t : bool) (x : list chain) : dict :=
  Dict (upd (ht_table d) t x) (ht_used d) (rehashidx d) (pauserehash d) (ht_size_exp d).
Definition set_used (d : dict) (t : bool) (x : Z) : dict :=
  Dict (ht_table d) (upd (ht_used d) t x) (rehashidx d) (pauserehash d) (ht_size_exp d).
Definition set_rehashidx (d : dict) (x : Z) : dict :=
  Dict (ht_table d) (ht_used d) x (pauserehash d) (ht_size_exp d).
Definition set_pauserehash (d : dict) (x : Z) : dict :=
  Dict (ht_table d) (ht_used d) (rehashidx d) x (ht_size_exp d).
Definition set_size_exp (d : dict) (t : bool) (x : Z) : dict :=
  Dict (ht_table d) (ht_used d) (rehashidx d) (pauserehash d) (upd (ht_size_exp d) t x).

Definition dictSize (d : dict) : Z := sel (ht_used d) false + sel (ht_used d) true.
Definition dictIsRehashing (d : dict) : bool := negb (rehashidx d =? -1).
Definition dictPauseRehashing (d : dict) : dict := set_pauserehash d (pauserehash d + 1).
Definition dictResumeRehashing (d : dict) : dict := set_pauserehash d (pauserehash d - 1).

(** ** Entries *)

Definition dictGetKey (de : chain) : option K :=
  match de with CNull => None | CKey k | CNoValue k _ | CNormal k _ _ => Some k end.
Definition dictGetNext (de : chain) : chain :=
  match de with CNull | CKey _ => CNull | CNoValue _ n | CNormal _ _ n => n end.
Definition dictSetNext (de next : chain) : res chain :=
  match de with
  | CNull | CKey _ => Abort
  | CNoValue k _ => Ret (CNoValue k next)
  | CNormal k v _ => Ret (CNormal k v next)
  end.

(** The bucket of an index. *)
Definition bucket (d : dict) (t : bool) (idx : Z) : res chain := aget (sel (ht_table d) t) idx.
Definition set_bucket (d : dict) (t : bool) (idx : Z) (c : chain) : res dict :=
  tb ← aset (sel (ht_table d) t) idx c; Ret (set_table d t tb).

(** ** Creation and resizing *)

Definition _dictReset (d : dict) (htidx : bool) : dict :=
  set_used (set_size_exp (set_table d htidx []) htidx (-1)) htidx 0.

Definition _dictInit (d : dict) : dict :=
  set_pauserehash (set_rehashidx (_dictReset (_dictReset d false) true) (-1)) 0.

Definition dictCreate : dict := _dictInit (Dict ([], []) (0, 0) 0 0 (0, 0)).

(** At most 62 increments. *)
Fixpoint next_exp_loop (fuel : nat) (e size : Z) : res Z :=
  if size <=? Z.shiftl 1 e then Ret e
  else match fuel with O => Diverge | S fuel => next_exp_loop fuel (e + 1) size end.

Definition _dictNextExp (size : Z) : res Z :=
  if LONG_MAX <=? size then Ret 63 else next_exp_loop 62 DICT_HT_INITIAL_EXP size.

(** [true] is [DICT_OK]; [alloc_ok] is whether the allocation succeeds. *)
Definition _dictExpand (d : dict) (size : Z) (alloc_ok : bool) : res (dict * bool) :=
  if dictIsRehashing d || (size <? sel (ht_used d) false) then Ret (d, false) else
  new_exp ← _dictNextExp size;
  let newsize := Z.shiftl 1 new_exp in
  if (newsize <? size) || (u64 (newsize * 8) <? newsize) then Ret (d, false) else
  if new_exp =? sel (ht_size_exp d) false then Ret (d, false) else
  if negb alloc_ok then Ret (d, false) else
  let new_table := replicate (Z.to_nat newsize) CNull in
  match sel (ht_table d) false with
  | [] => Ret (set_table (set_used (set_size_exp d false new_exp) false 0) false new_table, true)
  | _ :: _ =>
      Ret (set_rehashidx (set_table (set_used (set_size_exp d true new_exp) true 0) true new_table) 0, true)
  end.

Definition dictExpand (d : dict) (size : Z) : res (dict * bool) := _dictExpand d size true.

Definition dictResize (d : dict) : res (dict * bool) :=
  if negb (bool_decide (dict_can_resize = DICT_RESIZE_ENABLE)) || dictIsRehashing d then Ret (d, false) else
  let minimal := sel (ht_used d) false in
  let minimal := if minimal <? DICT_HT_INITIAL_SIZE then DICT_HT_INITIAL_SIZE else minimal in
  dictExpand d minimal.

Definition dictTypeExpandAllowed (d : dict) : res bool :=
  e ← _dictNextExp (sel (ht_used d) false + 1);
  Ret (expandAllowed (DICTHT_SIZE e * 8) (sel (ht_used d) false) (DICTHT_SIZE (sel (ht_size_exp d) false))).

Definition _dictExpandIfNeeded (d : dict) : res (dict * bool) :=
  if dictIsRehashing d then Ret (d, true) else
  let size0 := DICTHT_SIZE (sel (ht_size_exp d) false) in
  let used0 := sel (ht_used d) false in
  if size0 =? 0 then dictExpand d DICT_HT_INITIAL_SIZE else
  allowed ← dictTypeExpandAllowed d;
  if negb allowed then Ret (d, true) else
  if (bool_decide (dict_can_resize = DICT_RESIZE_ENABLE) && (size0 <=? used0))
     || (negb (bool_decide (dict_can_resize = DICT_RESIZE_FORBID)) && (dict_force_resize_ratio <? used0 / size0))
  then dictExpand d (used0 + 1)
  else Ret (d, true).

(** ** Incremental rehashing *)

(** The body of the loop that moves a bucket: the entry [de] with key [key]
    goes in front of its new bucket. *)
Definition move_entry (d : dict) (de : chain) (key : K) : res dict :=
  let h :=
    if sel (ht_size_exp d) false <? sel (ht_size_exp d) true then
      Z.land (hashFunction key) (DICTHT_SIZE_MASK (sel (ht_size_exp d) true))
    else Z.land (rehashidx d) (DICTHT_SIZE_MASK (sel (ht_size_exp d) true)) in
  dst ← bucket d true h;
  de ←
    (if no_value then
       match keys_are_odd, dst with
       | true, CNull => _ ← assert (entryIsKey key); Ret (CKey key)
       | _, _ =>
           match de with
           | CKey _ => Ret (CNoValue key dst)
           | CNoValue _ _ => dictSetNext de dst
           | _ => Abort
           end
       end
     else dictSetNext de dst);
  d ← set_bucket d true h de;
  let d := set_used d false (sel (ht_used d) false - 1) in
  Ret (set_used d true (sel (ht_used d) true + 1)).

Fixpoint move_bucket (de : chain) (d : dict) : res dict :=
  match de with
  | CNull => Ret d
  | CKey k => move_entry d de k
  | CNoValue k next | CNormal k _ next => d ← move_entry d de k; move_bucket next d
  end.

(** [while(d->ht_table[0][d->rehashidx] == NULL)]; [ev] is [empty_visits],
    which is positive.  [inl d]: the function has returned 1. *)
Fixpoint skip_empty (ev : nat) (d : dict) : res (dict + dict * nat) :=
  c ← bucket d false (rehashidx d);
  match c with
  | CNull =>
      let d := set_rehashidx d (rehashidx d + 1) in
      match ev with
      | O => Ret (inl d)
      | S ev => match ev with O => Ret (inl d) | S _ => skip_empty ev d end
      end
  | _ => Ret (inr (d, ev))
  end.

Fixpoint rehash_loop (n ev : nat) (d : dict) : res (dict + dict) :=
  match n with
  | O => Ret (inr d)
  | S n =>
      if sel (ht_used d) false =? 0 then Ret (inr d) else
      _ ← assert (rehashidx d <? DICTHT_SIZE (sel (ht_size_exp d) false));
      r ← skip_empty ev d;
      match r with
      | inl d => Ret (inl d)
      | inr (d, ev) =>
          de ← bucket d false (rehashidx d);
          d ← move_bucket de d;
          d ← set_bucket d false (rehashidx d) CNull;
          rehash_loop n ev (set_rehashidx d (rehashidx d + 1))
      end
  end.

Definition dictRehash (d : dict) (n : nat) : res (dict * bool) :=
  let s0 := DICTHT_SIZE (sel (ht_size_exp d) false) in
  let s1 := DICTHT_SIZE (sel (ht_size_exp d) true) in
  if bool_decide (dict_can_resize = DICT_RESIZE_FORBID) || negb (dictIsRehashing d) then Ret (d, false) else
  if bool_decide (dict_can_resize = DICT_RESIZE_AVOID)
     && (((s0 <? s1) && (s1 / s0 <? dict_force_resize_ratio))
         || ((s1 <? s0) && (s0 / s1 <? dict_force_resize_ratio)))
  then Ret (d, false) else
  r ← rehash_loop n (n * 10) d;
  match r with
  | inl d => Ret (d, true)
  | inr d =>
      if sel (ht_used d) false =? 0 then
        let d := set_table d false (sel (ht_table d) true) in
        let d := set_used d false (sel (ht_used d) true) in
        let d := set_size_exp d false (sel (ht_size_exp d) true) in
        let d := _dictReset d true in
        Ret (set_rehashidx d (-1), false)
      else Ret (d, true)
  end.

Definition _dictRehashStep (d : dict) : res dict :=
  if pauserehash d =? 0 then '(d, _) ← dictRehash d 1; Ret d else Ret d.

(** [if (dictIsRehashing(d)) _dictRehashStep(d);] *)
Definition step_if_rehashing (d : dict) : res dict :=
  if dictIsRehashing d then _dictRehashStep d else Ret d.

(** ** Search *)

(** The place of a key in a chain. *)
Fixpoint chain_pos (c : chain) (key : K) (pos : nat) : option nat :=
  match c with
  | CNull => None
  | CKey k => if decide (key = k) then Some pos else None
  | CNoValue k next | CNormal k _ next =>
      if decide (key = k) then Some pos else chain_pos next key (S pos)
  end.

(** One iteration of [for (table = 0; table <= 1; table++)]. *)
Definition search_table (d : dict) (key : K) (t : bool) : res (option loc) :=
  let idx := Z.land (hashFunction key) (DICTHT_SIZE_MASK (sel (ht_size_exp d) t)) in
  he ← bucket d t idx;
  Ret (match chain_pos he key 0 with Some p => Some (Loc t idx p) | None => None end).

Definition search_tables (d : dict) (key : K) : res (option loc) :=
  r ← search_table d key false;
  match r with
  | Some l => Ret (Some l)
  | None => if negb (dictIsRehashing d) then Ret None else search_table d key true
  end.

Definition dictFind (d : dict) (key : K) : res (dict * option loc) :=
  if dictSize d =? 0 then Ret (d, None) else
  d ← step_if_rehashing d;
  r ← search_tables d key;
  Ret (d, r).

(** What a pointer to an entry points to. *)
Fixpoint chain_drop (c : chain) (pos : nat) : chain :=
  match pos with O => c | S pos => chain_drop (dictGetNext c) pos end.
Definition deref (d : dict) (l : loc) : res chain :=
  c ← bucket d (l_table l) (l_idx l); Ret (chain_drop c (l_pos l)).

Definition dictGetVal (d : dict) (l : loc) : res V :=
  c ← deref d l; match c with CNormal _ v _ => Ret v | _ => Abort end.

Definition dictFetchValue (d : dict) (key : K) : res (dict * option V) :=
  '(d, l) ← dictFind d key;
  match l with
  | Some l => v ← dictGetVal d l; Ret (d, Some v)
  | None => Ret (d, None)
  end.

(** ** Insertion *)

(** [inl]: the key exists, at this place; [inr]: the bucket to insert in.
    [None] is the failure to expand. *)
Definition dictFindPositionForInsert (d : dict) (key : K) : res (dict * option (loc + bool * Z)) :=
  let hash := hashFunction key in
  d ← step_if_rehashing d;
  '(d, ok) ← _dictExpandIfNeeded d;
  if negb ok then Ret (d, None) else
  r ← search_tables d key;
  match r with
  | Some l => Ret (d, Some (inl l))
  | None =>
      let t := dictIsRehashing d in
      Ret (d, Some (inr (t, Z.land hash (DICTHT_SIZE_MASK (sel (ht_size_exp d) t)))))
  end.

Definition dictInsertAtPosition (d : dict) (key : K) (t : bool) (idx : Z) : res (dict * loc) :=
  let htidx := dictIsRehashing d in
  _ ← assert (Bool.eqb t htidx && (0 <=? idx) && (idx <=? DICTHT_SIZE_MASK (sel (ht_size_exp d) htidx)));
  b ← bucket d t idx;
  entry ←
    (if no_value then
       match keys_are_odd, b with
       | true, CNull => _ ← assert (entryIsKey key); Ret (CKey key)
       | _, _ => Ret (CNoValue key b)
       end
     else Ret (CNormal key uninit_val b));
  d ← set_bucket d t idx entry;
  Ret (set_used d htidx (sel (ht_used d) htidx + 1), Loc t idx 0).

(** [inl]: added, at this place; [inr]: not added, with [*existing]. *)
Definition dictAddRaw (d : dict) (key : K) : res (dict * (loc + option loc)) :=
  '(d, position) ← dictFindPositionForInsert d key;
  match position with
  | None => Ret (d, inr None)
  | Some (inl existing) => Ret (d, inr (Some existing))
  | Some (inr (t, idx)) => '(d, l) ← dictInsertAtPosition d key t idx; Ret (d, inl l)
  end.

Fixpoint chain_set (c : chain) (pos : nat) (val : V) : res chain :=
  match c, pos with
  | CNormal k _ n, O => Ret (CNormal k val n)
  | CNormal k v n, S pos => n ← chain_set n pos val; Ret (CNormal k v n)
  | CNoValue k n, S pos => n ← chain_set n pos val; Ret (CNoValue k n)
  | _, _ => Abort
  end.

Definition dictSetVal (d : dict) (l : loc) (val : V) : res dict :=
  c ← bucket d (l_table l) (l_idx l);
  c ← chain_set c (l_pos l) val;
  set_bucket d (l_table l) (l_idx l) c.

(** [true] is [DICT_OK]. *)
Definition dictAdd (d : dict) (key : K) (val : V) : res (dict * bool) :=
  '(d, r) ← dictAddRaw d key;
  match r with
  | inr _ => Ret (d, false)
  | inl entry =>
      d ← (if negb no_value then dictSetVal d entry val else Ret d);
      Ret (d, true)
  end.

(** [true]: added; [false]: replaced.  A failure to expand dereferences the
    NULL [existing]. *)
Definition dictReplace (d : dict) (key : K) (val : V) : res (dict * bool) :=
  '(d, r) ← dictAddRaw d key;
  match r with
  | inl entry => d ← dictSetVal d entry val; Ret (d, true)
  | inr (Some existing) => _ ← dictGetVal d existing; d ← dictSetVal d existing val; Ret (d, false)
  | inr None => Abort
  end.

Definition dictAddOrFind (d : dict) (key : K) : res (dict * option loc) :=
  '(d, r) ← dictAddRaw d key;
  match r with inl l => Ret (d, Some l) | inr o => Ret (d, o) end.

(** ** Deletion *)

(** The chain without the entry at a position, and that entry. *)
Fixpoint chain_remove (c : chain) (key : K) : option (chain * chain) :=
  match c with
  | CNull => None
  | CKey k => if decide (key = k) then Some (CNull, c) else None
  | CNoValue k next =>
      if decide (key = k) then Some (next, c)
      else match chain_remove next key with Some (n, e) => Some (CNoValue k n, e) | None => None end
  | CNormal k v next =>
      if decide (key = k) then Some (next, c)
      else match chain_remove next key with Some (n, e) => Some (CNormal k v n, e) | None => None end
  end.

Definition delete_from (d : dict) (key : K) (t : bool) : res (option (dict * chain)) :=
  let idx := Z.land (hashFunction key) (DICTHT_SIZE_MASK (sel (ht_size_exp d) t)) in
  he ← bucket d t idx;
  match chain_remove he key with
  | Some (c, e) =>
      d ← set_bucket d t idx c;
      Ret (Some (set_used d t (sel (ht_used d) t - 1), e))
  | None => Ret None
  end.

Definition dictGenericDelete (d : dict) (key : K) : res (dict * option chain) :=
  if dictSize d =? 0 then Ret (d, None) else
  d ← step_if_rehashing d;
  r ← delete_from d key false;
  match r with
  | Some (d, e) => Ret (d, Some e)
  | None =>
      if negb (dictIsRehashing d) then Ret (d, None) else
      r ← delete_from d key true;
      match r with Some (d, e) => Ret (d, Some e) | None => Ret (d, None) end
  end.

Definition dictDelete (d : dict) (key : K) : res (dict * bool) :=
  '(d, e) ← dictGenericDelete d key;
  Ret (d, match e with Some _ => true | None => false end).

Definition dictUnlink (d : dict) (key : K) : res (dict * option chain) := dictGenericDelete d key.

Definition dictTwoPhaseUnlinkFind (d : dict) (key : K) : res (dict * option loc) :=
  if dictSize d =? 0 then Ret (d, None) else
  d ← step_if_rehashing d;
  r ← search_tables d key;
  match r with
  | Some l => Ret (dictPauseRehashing d, Some l)
  | None => Ret (d, None)
  end.

(** [*plink = dictGetNext(he)]. *)
Fixpoint chain_unlink (c : chain) (pos : nat) : res chain :=
  match c, pos with
  | CNull, _ => Abort
  | _, O => Ret (dictGetNext c)
  | CKey _, S _ => Abort
  | CNoValue k n, S pos => n ← chain_unlink n pos; Ret (CNoValue k n)
  | CNormal k v n, S pos => n ← chain_unlink n pos; Ret (CNormal k v n)
  end.

Definition dictTwoPhaseUnlinkFree (d : dict) (l : option loc) : res dict :=
  match l with
  | None => Ret d
  | Some l =>
      let d := set_used d (l_table l) (sel (ht_used d) (l_table l) - 1) in
      c ← bucket d (l_table l) (l_idx l);
      c ← chain_unlink c (l_pos l);
      d ← set_bucket d (l_table l) (l_idx l) c;
      Ret (dictResumeRehashing d)
  end.

(** ** Clearing *)

Fixpoint free_chain (c : chain) (d : dict) (htidx : bool) : dict :=
  match c with
  | CNull => d
  | CKey _ => set_used d htidx (sel (ht_used d) htidx - 1)
  | CNoValue _ n | CNormal _ _ n => free_chain n (set_used d htidx (sel (ht_used d) htidx - 1)) htidx
  end.

(** [for (i = 0; i < size && used > 0; i++)]. *)
Fixpoint clear_loop (fuel : nat) (i : Z) (d : dict) (htidx : bool) : res dict :=
  if (i <? DICTHT_SIZE (sel (ht_size_exp d) htidx)) && (0 <? sel (ht_used d) htidx) then
    match fuel with
    | O => Diverge
    | S fuel => he ← bucket d htidx i; clear_loop fuel (i + 1) (free_chain he d htidx) htidx
    end
  else Ret d.

Definition _dictClear (d : dict) (htidx : bool) : res dict :=
  d ← clear_loop (length (sel (ht_table d) htidx)) 0 d htidx;
  Ret (_dictReset d htidx).

Definition dictEmpty (d : dict) : res dict :=
  d ← _dictClear d false;
  d ← _dictClear d true;
  Ret (set_pauserehash (set_rehashidx d (-1)) 0).

(** ** Well-formedness *)

(** A bare key is odd; the flag promises that every key is. *)
Context (odd_keys : keys_are_odd = true -> forall k, entryIsKey k = true).

Fixpoint centries (c : chain) : list (K * option V) :=
  match c with
  | CNull => []
  | CKey k => [(k, None)]
  | CNoValue k n => (k, None) :: centries n
  | CNormal k v n => (k, Some v) :: centries n
  end.

Definition tentries (t : list chain) : list (K * option V) := t ≫= centries.
#[local] Arguments tentries : simpl never.
Definition contents (d : dict) : list (K * option V) :=
  tentries (sel (ht_table d) false) ++ tentries (sel (ht_table d) true).

(** Only dictionaries without values have bare keys and entries without value. *)
Fixpoint chain_kind (c : chain) : Prop :=
  match c with
  | CNull => True
  | CKey _ => no_value = true
  | CNoValue _ n => no_value = true /\ chain_kind n
  | CNormal _ _ n => no_value = false /\ chain_kind n
  end.

Definition index_of (exp : Z) (k : K) : Z := Z.land (hashFunction k) (DICTHT_SIZE_MASK exp).

(** A table of the given exponent: absent or of that many buckets, every key
    in the bucket of its hash. *)
Record table_ok (exp : Z) (t : list chain) : Prop := {
  to_size : if exp =? -1 then t = [] else 0 <= exp <= 60 /\ Z.of_nat (length t) = 2 ^ exp;
  to_placed : forall i c k v, t !! i = Some c -> (k, v) ∈ centries c -> index_of exp k = Z.of_nat i;
  to_kind : Forall chain_kind t;
}.

Definition rehash_ok (d : dict) : Prop :=
  if rehashidx d =? -1 then sel (ht_size_exp d) true = -1
  else 0 <= rehashidx d /\ sel (ht_size_exp d) false <> -1 /\ sel (ht_size_exp d) true <> -1 /\
       forall i, (i < Z.to_nat (rehashidx d))%nat -> sel (ht_table d) false !! i = Some CNull.

Record dict_wf (d : dict) : Prop := {
  wf_table : forall t, table_ok (sel (ht_size_exp d) t) (sel (ht_table d) t);
  wf_used : forall t, sel (ht_used d) t = Z.of_nat (length (tentries (sel (ht_table d) t)));
  wf_rehash : rehash_ok d;
  wf_pause : 0 <= pauserehash d;
}.

(** The dictionary implements the finite map [M]. *)
Definition dict_repr `{!Countable K} (d : dict) (M : gmap K (option V)) : Prop :=
  dict_wf d /\ contents d ≡ₚ map_to_list M.

(** *** Tables *)

Lemma MASK_ones exp : 0 <= exp -> DICTHT_SIZE_MASK exp = Z.ones exp.
Proof.
  intros H. unfold DICTHT_SIZE_MASK, DICTHT_SIZE. rewrite (proj2 (Z.eqb_neq exp (-1))) by lia.
  rewrite Z.ones_equiv, Z.shiftl_1_l. lia.
Qed.

Lemma SIZE_pow exp : 0 <= exp -> DICTHT_SIZE exp = 2 ^ exp.
Proof.
  intros H. unfold DICTHT_SIZE. rewrite (proj2 (Z.eqb_neq exp (-1))) by lia. apply Z.shiftl_1_l.
Qed.

Lemma index_range exp t k : table_ok exp t -> exp <> -1 -> 0 <= index_of exp k < Z.of_nat (length t).
Proof.
  intros [Hs _ _] Hne. rewrite (proj2 (Z.eqb_neq exp (-1))) in Hs by done. destruct Hs as [He ->].
  unfold index_of. rewrite MASK_ones, Z.land_ones by lia. apply Z.mod_pos_bound. lia.
Qed.

Lemma tentries_app t1 t2 : tentries (t1 ++ t2) = tentries t1 ++ tentries t2.
Proof. apply bind_app. Qed.

Lemma tentries_replicate n : tentries (replicate n CNull) = [].
Proof. induction n; [done|]. simpl. done. Qed.

(** What is in a table beside one bucket. *)
Lemma tentries_insert t i c0 : t !! i = Some c0 ->
  exists R, tentries t ≡ₚ centries c0 ++ R /\ forall c, tentries (<[i := c]> t) ≡ₚ centries c ++ R.
Proof.
  intros H. exists (tentries (take i t) ++ tentries (drop (S i) t)).
  assert (Hlt : (i < length t)%nat) by (by eapply lookup_lt_Some).
  split.
  - rewrite <- (take_drop_middle t i c0 H) at 1. rewrite tentries_app. unfold tentries at 2. simpl.
    rewrite Permutation_app_comm, <- app_assoc. apply Permutation_app_head. apply Permutation_app_comm.
  - intros c. rewrite insert_take_drop by done. rewrite tentries_app. unfold tentries at 2. simpl.
    rewrite Permutation_app_comm, <- app_assoc. apply Permutation_app_head. apply Permutation_app_comm.
Qed.

Lemma elem_tentries t e : e ∈ tentries t <-> exists i c, t !! i = Some c /\ e ∈ centries c.
Proof.
  unfold tentries. rewrite list_elem_of_bind. split.
  - intros (c & He & Hc). apply list_elem_of_lookup in Hc as [i Hi]. eauto.
  - intros (i & c & Hi & He). exists c. split; [done|]. by eapply list_elem_of_lookup_2.
Qed.

(** A key is in a table exactly when it is in its bucket. *)
Lemma elem_bucket exp t k v : table_ok exp t ->
  (k, v) ∈ tentries t <-> exists c, t !! Z.to_nat (index_of exp k) = Some c /\ (k, v) ∈ centries c.
Proof.
  intros Ht. rewrite elem_tentries. split.
  - intros (i & c & Hi & He). rewrite (to_placed _ _ Ht i c k v Hi He), Nat2Z.id. eauto.
  - intros (c & Hi & He). eauto.
Qed.

Lemma table_ok_insert exp t i c :
  table_ok exp t -> chain_kind c ->
  (forall k v, (k, v) ∈ centries c -> index_of exp k = Z.of_nat i) -> table_ok exp (<[i := c]> t).
Proof.
  intros [Hs Hp Hk] Hc Hpl. constructor.
  - destruct (exp =? -1); [by subst|]. by rewrite length_insert.
  - intros j c' k v Hj He. destruct (decide (i = j)) as [->|Hne].
    + destruct (decide (j < length t)%nat).
      * rewrite list_lookup_insert_eq in Hj by done. simplify_eq. eauto.
      * rewrite list_insert_ge in Hj by lia. eauto.
    + rewrite list_lookup_insert_ne in Hj by done. eauto.
  - by apply Forall_insert.
Qed.

Lemma aget_bucket {A} (t : list A) i : 0 <= i < Z.of_nat (length t) ->
  exists c, t !! Z.to_nat i = Some c /\ aget t i = Ret c.
Proof.
  intros Hi. destruct (lookup_lt_is_Some_2 t (Z.to_nat i)) as [c Hc]; [lia|].
  exists c. split; [done|]. by apply aget_Z; [lia|].
Qed.

(** *** Moving a bucket *)

(** Everything but the tables and the counts is the same. *)
Definition same_frame (d d' : dict) : Prop :=
  rehashidx d' = rehashidx d /\ pauserehash d' = pauserehash d /\ ht_size_exp d' = ht_size_exp d.

Lemma land_ones_mono h a b : 0 <= b <= a -> Z.land (Z.land h (Z.ones a)) (Z.ones b) = Z.land h (Z.ones b).
Proof.
  intros H. rewrite !Z.land_ones by lia. rewrite Z.mod_mod_divide; [done|].
  exists (2 ^ (a - b)). rewrite <- Z.pow_add_r by lia. f_equal. lia.
Qed.

(** The destination of an entry of the bucket [rehashidx]. *)
Lemma move_target (d : dict) k :
  sel (ht_size_exp d) false <> -1 -> 0 <= sel (ht_size_exp d) false -> 0 <= sel (ht_size_exp d) true ->
  index_of (sel (ht_size_exp d) false) k = rehashidx d ->
  (if sel (ht_size_exp d) false <? sel (ht_size_exp d) true then
      Z.land (hashFunction k) (DICTHT_SIZE_MASK (sel (ht_size_exp d) true))
    else Z.land (rehashidx d) (DICTHT_SIZE_MASK (sel (ht_size_exp d) true)))
  = index_of (sel (ht_size_exp d) true) k.
Proof.
  intros Hne H0 H1 Hi. destruct (Z.ltb_spec (sel (ht_size_exp d) false) (sel (ht_size_exp d) true)); [done|].
  rewrite <- Hi. unfold index_of. rewrite !MASK_ones by lia. apply land_ones_mono. lia.
Qed.

Definition head_entry (de : chain) : list (K * option V) := take 1 (centries de).

(** The entries [l] have been added to the second table of [d]; the first
    table still has them, but they are not counted there any more. *)
Definition moved (d : dict) (l : list (K * option V)) (d' : dict) : Prop :=
  same_frame d d' /\
  exists t1, ht_table d' = (sel (ht_table d) false, t1) /\
    ht_used d' = (sel (ht_used d) false - Z.of_nat (length l), sel (ht_used d) true + Z.of_nat (length l)) /\
    table_ok (sel (ht_size_exp d) true) t1 /\
    tentries t1 ≡ₚ l ++ tentries (sel (ht_table d) true).

Definition can_move (d : dict) : Prop :=
  table_ok (sel (ht_size_exp d) true) (sel (ht_table d) true) /\
  sel (ht_size_exp d) true <> -1 /\ 0 <= sel (ht_size_exp d) false.

Lemma moved_nil d : can_move d -> moved d [] d.
Proof.
  destruct d as [[t0 t1] [u0 u1] ri pr [e0 e1]]. unfold can_move, moved, same_frame, sel. cbn.
  intros (? & _). split; [done|]. exists t1. split_and!; try done. f_equal; lia.
Qed.

Lemma moved_can_move d l d' : can_move d -> moved d l d' -> can_move d'.
Proof.
  unfold can_move. intros (_ & H1 & H2) [(_ & _ & ->) (t1 & -> & _ & Ht & _)]. done.
Qed.

Lemma moved_trans d l1 d1 l2 d2 : moved d l1 d1 -> moved d1 l2 d2 -> moved d (l1 ++ l2) d2.
Proof.
  intros [(Hf1 & Hf2 & Hf3) (t1 & Ht1 & Hu1 & Ho1 & Hp1)] [(Hg1 & Hg2 & Hg3) (t2 & Ht2 & Hu2 & Ho2 & Hp2)].
  split; [unfold same_frame; split_and!; congruence|]. exists t2.
  rewrite Hf3 in *. rewrite Ht1, Hu1 in *. unfold sel in *. cbn in *. rewrite length_app.
  split_and!; [done|rewrite Hu2; f_equal; lia|done|].
  rewrite Hp2, Hp1. rewrite (Permutation_app_comm l1 l2), <- app_assoc. done.
Qed.

Lemma move_entry_spec d de key v :
  head_entry de = [(key, v)] -> chain_kind de -> can_move d ->
  index_of (sel (ht_size_exp d) false) key = rehashidx d ->
  exists d', move_entry d de key = Ret d' /\ moved d [(key, v)] d'.
Proof.
  destruct d as [[t0 t1] [u0 u1] ri pr [e0 e1]]. unfold sel. cbn.
  unfold can_move, sel. cbn. intros Hh Hk (Ht & He1 & He0) Hi. unfold move_entry, bucket, set_bucket.
  assert (H1 : 0 <= e1) by (destruct Ht as [Hs _ _]; rewrite (proj2 (Z.eqb_neq e1 (-1))) in Hs by done; lia).
  rewrite (move_target (Dict (t0, t1) (u0, u1) ri pr (e0, e1)) key) by (unfold sel; cbn; (done || lia)).
  unfold sel; cbn.
  pose proof (index_range _ _ key Ht He1) as Hr.
  destruct (aget_bucket t1 (index_of e1 key) Hr) as (dst & Hdst & ->). cbn [mbind res_bind].
  assert (Hdk : chain_kind dst) by (apply (Forall_lookup_1 _ _ _ _ (to_kind _ _ Ht) Hdst)).
  assert (Hnew : exists de', (if no_value then
       match keys_are_odd, dst with
       | true, CNull => _ ← assert (entryIsKey key); Ret (CKey key)
       | _, _ => match de with CKey _ => Ret (CNoValue key dst) | CNoValue _ _ => dictSetNext de dst | _ => Abort end
       end else dictSetNext de dst) = Ret de' /\ centries de' = (key, v) :: centries dst /\ chain_kind de').
  { unfold head_entry in Hh. destruct de as [|k|k n|k w n]; simpl in *; simplify_eq.
    - rewrite Hk. destruct keys_are_odd eqn:Ho; [|by exists (CNoValue key dst)].
      rewrite odd_keys by done. destruct dst; cbn; (eexists; split; [done|]); done.
    - destruct Hk as [-> Hk]. destruct keys_are_odd eqn:Ho; [|by exists (CNoValue key dst)].
      rewrite odd_keys by done. destruct dst; cbn; (eexists; split; [done|]); done.
    - destruct Hk as [-> Hk]. by exists (CNormal key w dst). }
  destruct Hnew as (de' & -> & Hce & Hkd). cbn [mbind res_bind].
  rewrite aset_Z by lia. cbn [mbind res_bind].
  destruct (tentries_insert t1 _ _ Hdst) as (R & HR & HR').
  eexists. split; [done|]. split; [done|]. eexists. cbn. split; [done|]. split; [f_equal; lia|]. split.
  - apply table_ok_insert; [done|done|]. intros k w. rewrite Hce, elem_of_cons. rewrite Z2Nat.id by lia.
    intros [[= -> _]|Hin]; [done|].
    rewrite (to_placed _ _ Ht _ _ _ _ Hdst Hin), Z2Nat.id by lia. done.
  - rewrite HR', HR, Hce. done.
Qed.

Lemma move_bucket_spec c d :
  chain_kind c -> can_move d ->
  (forall k v, (k, v) ∈ centries c -> index_of (sel (ht_size_exp d) false) k = rehashidx d) ->
  exists d', move_bucket c d = Ret d' /\ moved d (centries c) d'.
Proof.
  revert d. induction c as [|k|k n IH|k w n IH]; intros d Hk Hcm Hi.
  - exists d. split; [done|by apply moved_nil].
  - apply move_entry_spec; try done. apply (Hi k None). left.
  - destruct (move_entry_spec d (CNoValue k n) k None) as (d1 & E1 & Hm1); [done|done|done|apply (Hi k None); left|].
    pose proof Hm1 as [(Hf1 & _ & Hf3) _].
    destruct (IH d1) as (d2 & E2 & Hm2); [apply Hk|by eapply moved_can_move| |].
    { rewrite Hf1, Hf3. intros k' v' ?. apply (Hi k' v'). by right. }
    exists d2. split; [cbn [move_bucket]; rewrite E1; exact E2|]. apply (moved_trans d [(k, None)] d1 (centries n)); done.
  - destruct (move_entry_spec d (CNormal k w n) k (Some w)) as (d1 & E1 & Hm1); [done|done|done|apply (Hi k (Some w)); left|].
    pose proof Hm1 as [(Hf1 & _ & Hf3) _].
    destruct (IH d1) as (d2 & E2 & Hm2); [apply Hk|by eapply moved_can_move| |].
    { rewrite Hf1, Hf3. intros k' v' ?. apply (Hi k' v'). by right. }
    exists d2. split; [cbn [move_bucket]; rewrite E1; exact E2|]. apply (moved_trans d [(k, Some w)] d1 (centries n)); done.
Qed.

(** *** Rehashing *)

Lemma wf_set_rehashidx d :
  dict_wf d -> dictIsRehashing d = true ->
  sel (ht_table d) false !! Z.to_nat (rehashidx d) = Some CNull ->
  dict_wf (set_rehashidx d (rehashidx d + 1)).
Proof.
  intros [Ht Hu Hr Hp] Hre Hnull. constructor; try done.
  unfold rehash_ok, dictIsRehashing in *. cbn. destruct (Z.eqb_spec (rehashidx d) (-1)) as [|Hne]; [done|].
  destruct Hr as (H0 & He0 & He1 & Hb). rewrite (proj2 (Z.eqb_neq _ _)) by lia.
  split_and!; try done; [lia|]. intros i Hi. destruct (decide (i = Z.to_nat (rehashidx d))) as [->|]; [done|].
  apply Hb. lia.
Qed.

(** While entries are left, the rehashing position is inside the table. *)
Lemma rehash_position d :
  dict_wf d -> dictIsRehashing d = true -> sel (ht_used d) false <> 0 ->
  0 <= rehashidx d < Z.of_nat (length (sel (ht_table d) false)).
Proof.
  intros [Ht Hu Hr Hp] Hre Hn. unfold rehash_ok, dictIsRehashing in *.
  destruct (Z.eqb_spec (rehashidx d) (-1)) as [|_]; [done|]. destruct Hr as (H0 & _ & _ & Hb).
  split; [done|]. rewrite Hu in Hn.
  destruct (tentries (sel (ht_table d) false)) as [|e l] eqn:E; [done|].
  assert (He : e ∈ tentries (sel (ht_table d) false)) by (rewrite E; left).
  apply elem_tentries in He as (i & c & Hi & Hc).
  destruct (decide (i < Z.to_nat (rehashidx d))%nat).
  - rewrite Hb in Hi by done. simplify_eq. by apply elem_of_nil in Hc.
  - apply lookup_lt_Some in Hi. lia.
Qed.

Lemma rehashing_set d ri : 0 <= ri -> dictIsRehashing (set_rehashidx d ri) = true.
Proof. intros H. unfold dictIsRehashing. cbn. by rewrite (proj2 (Z.eqb_neq ri (-1))) by lia. Qed.

Lemma skip_empty_spec ev d :
  dict_wf d -> dictIsRehashing d = true -> sel (ht_used d) false <> 0 ->
  exists r ri, skip_empty ev d = Ret r /\ rehashidx d <= ri /\
    match r with
    | inl d' => d' = set_rehashidx d ri /\ dict_wf d' /\ rehashidx d < ri
    | inr (d', _) => d' = set_rehashidx d ri /\ dict_wf d' /\
        exists c, sel (ht_table d) false !! Z.to_nat ri = Some c /\ c <> CNull
    end.
Proof.
  revert d. induction ev as [|ev IH]; intros d Hwf Hre Hn; cbn [skip_empty];
    pose proof (rehash_position d Hwf Hre Hn) as Hpos;
    destruct (aget_bucket _ _ Hpos) as (c & Hc & E); unfold bucket; rewrite E; cbn [mbind res_bind];
    assert (Hsame : set_rehashidx d (rehashidx d) = d) by (by destruct d).
  - destruct c; [|eexists _, (rehashidx d); split; [done|]; split; [lia|]; rewrite Hsame; split_and!; eauto..].
    eexists _, (rehashidx d + 1). split; [done|]. split; [lia|]. split_and!; [done|by apply wf_set_rehashidx|lia].
  - destruct c; [|eexists _, (rehashidx d); split; [done|]; split; [lia|]; rewrite Hsame; split_and!; eauto..].
    pose proof (wf_set_rehashidx d Hwf Hre Hc) as Hwf'. destruct ev as [|ev].
    { eexists _, (rehashidx d + 1). split; [done|]. split; [lia|]. split_and!; [done|done|lia]. }
    destruct (IH (set_rehashidx d (rehashidx d + 1))) as (r & ri & -> & Hle & Hr); [done|apply rehashing_set; lia|done|].
    cbn in Hle. exists r, ri. split; [done|]. split; [lia|].
    destruct r as [d'|[d' ev']]; destruct Hr as (-> & Hr); split_and!; try done; try apply Hr. lia.
Qed.

(** Moving the bucket [rehashidx] keeps the dictionary well formed. *)
Lemma rehash_bucket d c d1 :
  dict_wf d -> dictIsRehashing d = true ->
  sel (ht_table d) false !! Z.to_nat (rehashidx d) = Some c -> moved d (centries c) d1 ->
  exists d2, set_bucket d1 false (rehashidx d1) CNull = Ret d2 /\
    dict_wf (set_rehashidx d2 (rehashidx d2 + 1)) /\ rehashidx d2 = rehashidx d /\
    pauserehash d2 = pauserehash d /\ ht_size_exp d2 = ht_size_exp d /\ contents d2 ≡ₚ contents d.
Proof.
  intros [Ht Hu Hr Hp] Hre Hc [(Hf1 & Hf2 & Hf3) (t1 & Htab & Hus & Hok & Hperm)].
  destruct d as [[t0 t1'] [u0 u1] ri pr [e0 e1]], d1 as [tab1 us1 ri1 pr1 ex1]. unfold sel in *. cbn in *. subst.
  unfold rehash_ok, dictIsRehashing in *. cbn in *. destruct (Z.eqb_spec ri (-1)) as [|Hne]; [done|].
  destruct Hr as (H0 & He0 & He1 & Hb). assert (Hlt := lookup_lt_Some _ _ _ Hc).
  unfold set_bucket, sel. cbn. rewrite aset_Z by lia. cbn [mbind res_bind]. eexists. split; [done|].
  destruct (tentries_insert t0 _ _ Hc) as (R & HR & HR'). specialize (HR' CNull). cbn in HR'.
  pose proof (Hu false) as Hu0. pose proof (Hu true) as Hu1. pose proof (Ht false) as Ht0. cbn in Hu0, Hu1, Ht0.
  split_and!; try done.
  - constructor; cbn.
    + intros []; cbn; [done|]. apply table_ok_insert; [done|done|]. intros k v. cbn. by intros ?%elem_of_nil.
    + intros []; cbn; [rewrite Hperm|rewrite HR']; rewrite Hu0, Hu1, HR in *; rewrite ?length_app in *; lia.
    + unfold rehash_ok. cbn. rewrite (proj2 (Z.eqb_neq _ _)) by lia. split_and!; try done; [lia|].
      intros i Hi. destruct (decide (i = Z.to_nat ri)) as [->|]; [by apply list_lookup_insert_eq|].
      rewrite list_lookup_insert_ne by done. apply Hb. lia.
    + done.
  - unfold contents, sel. cbn. rewrite HR', Hperm, HR. rewrite (Permutation_app_comm (centries c) R), <- !app_assoc. done.
Qed.

(** What one call of the rehashing functions may do to the dictionary. *)
Definition rehashed (d d' : dict) : Prop :=
  dict_wf d' /\ contents d' ≡ₚ contents d /\ pauserehash d' = pauserehash d.

Lemma rehashed_trans d1 d2 d3 : rehashed d1 d2 -> rehashed d2 d3 -> rehashed d1 d3.
Proof. intros (_ & H1 & H2) (H3 & H4 & H5). split_and!; [done|by rewrite H4|congruence]. Qed.

(** The loop keeps the sizes and advances the position, unless there is
    nothing to do. *)
Lemma rehash_loop_spec n ev d :
  dict_wf d -> dictIsRehashing d = true ->
  exists r, rehash_loop n ev d = Ret r /\
    let d' := match r with inl d' | inr d' => d' end in
    rehashed d d' /\ ht_size_exp d' = ht_size_exp d /\ rehashidx d <= rehashidx d' /\
    (n = 0%nat \/ sel (ht_used d) false = 0 \/ rehashidx d < rehashidx d').
Proof.
  revert ev d. induction n as [|n IH]; intros ev d Hwf Hre; cbn [rehash_loop].
  { eexists. split; [done|]. cbn. split_and!; [done|done|lia|by left]. }
  destruct (Z.eqb_spec (sel (ht_used d) false) 0) as [Hz|Hn].
  { eexists. split; [done|]. cbn. split_and!; [done|done|lia|by right; left]. }
  pose proof (rehash_position d Hwf Hre Hn) as Hpos.
  pose proof (wf_rehash _ Hwf) as Hr. unfold rehash_ok in Hr.
  rewrite (proj2 (Z.eqb_neq _ _)) in Hr by lia. destruct Hr as (_ & He0 & He1 & _).
  assert (Hsz : DICTHT_SIZE (sel (ht_size_exp d) false) = Z.of_nat (length (sel (ht_table d) false))).
  { pose proof (to_size _ _ (wf_table _ Hwf false)) as Hs. rewrite (proj2 (Z.eqb_neq _ _)) in Hs by done.
    rewrite SIZE_pow; lia. }
  rewrite Hsz, (proj2 (Z.ltb_lt _ _)) by lia. cbn [assert mbind res_bind].
  destruct (skip_empty_spec ev d Hwf Hre Hn) as (r & ri & -> & Hle & Hskip). cbn [mbind res_bind].
  destruct r as [d1|[d1 ev1]].
  { destruct Hskip as (-> & Hwf1 & Hlt). eexists. split; [done|]. cbn.
    split_and!; [done|done|lia|by right; right]. }
  destruct Hskip as (-> & Hwf1 & c & Hc & Hcn). unfold bucket at 1. cbn.
  rewrite (aget_Z _ _ c) by (done || lia). cbn [mbind res_bind].
  set (d1 := set_rehashidx d ri) in *.
  assert (Hre1 : dictIsRehashing d1 = true) by (apply rehashing_set; lia).
  assert (Hcm : can_move d1).
  { split; [apply (wf_table _ Hwf1 true)|]. split; [done|]. change (ht_size_exp d1) with (ht_size_exp d).
    pose proof (to_size _ _ (wf_table _ Hwf false)) as Hs. rewrite (proj2 (Z.eqb_neq _ _)) in Hs by done. lia. }
  destruct (move_bucket_spec c d1) as (d2 & -> & Hmv); [|done| |].
  { apply (Forall_lookup_1 _ _ _ _ (to_kind _ _ (wf_table _ Hwf1 false)) Hc). }
  { intros k v Hin. rewrite (to_placed _ _ (wf_table _ Hwf1 false) _ _ _ _ Hc Hin). cbn. lia. }
  cbn [mbind res_bind].
  destruct (rehash_bucket d1 c d2 Hwf1 Hre1 Hc Hmv) as (d3 & -> & Hwf3 & Hri & Hpa & Hex & Hco). cbn [mbind res_bind].
  destruct (IH ev1 (set_rehashidx d3 (rehashidx d3 + 1)) Hwf3) as (r & -> & Hr & Hex' & Hle' & _).
  { apply rehashing_set. rewrite Hri. cbn. lia. }
  cbn in *. eexists. split; [done|]. cbn. split_and!; [|congruence|lia|right; right; lia].
  eapply rehashed_trans; [|exact Hr]. split_and!; [done|done|]. cbn. by rewrite Hpa.
Qed.

Lemma dictRehash_spec d n :
  dict_wf d ->
  exists d' b, dictRehash d n = Ret (d', b) /\ rehashed d d' /\ (b = true -> dictIsRehashing d' = true).
Proof.
  intros Hwf. unfold dictRehash.
  destruct (_ || _) eqn:Hg; [by eexists _, _; split; [done|]; split; [done|]|].
  destruct (_ && _); [by eexists _, _; split; [done|]; split; [done|]|].
  apply orb_false_iff in Hg as [_ Hre]. apply negb_false_iff in Hre.
  destruct (rehash_loop_spec n (n * 10) d Hwf Hre) as (r & -> & Hr & Hex & Hle & _). cbn [mbind res_bind].
  assert (Hri : 0 <= rehashidx d).
  { pose proof (wf_rehash _ Hwf) as H. unfold rehash_ok, dictIsRehashing in *. destruct (_ =? _); [done|]. apply H. }
  destruct r as [d'|d'].
  { eexists _, _. split; [done|]. split; [done|]. intros _. unfold dictIsRehashing.
    by rewrite (proj2 (Z.eqb_neq _ _)) by lia. }
  destruct (Z.eqb_spec (sel (ht_used d') false) 0) as [Hz|].
  2:{ eexists _, _. split; [done|]. split; [done|]. intros _. unfold dictIsRehashing.
      by rewrite (proj2 (Z.eqb_neq _ _)) by lia. }
  eexists _, _. split; [done|]. split; [|done]. destruct Hr as ([Ht Hu Hrh Hp] & Hco & Hpa).
  destruct d' as [[t0 t1] [u0 u1] ri pr [e0 e1]]. unfold rehashed, contents, sel in *. cbn in *.
  assert (Ht0 : tentries t0 = []).
  { pose proof (Hu false) as Hu0. cbn in Hu0. apply nil_length_inv. lia. }
  split_and!; [|by rewrite <- Hco, Ht0, app_nil_r|done]. constructor; cbn.
  - intros []; cbn; [by constructor; cbn|apply (Ht true)].
  - intros []; cbn; [done|apply (Hu true)].
  - done.
  - done.
Qed.

Lemma step_if_rehashing_spec d :
  dict_wf d -> exists d', step_if_rehashing d = Ret d' /\ rehashed d d'.
Proof.
  intros Hwf. unfold step_if_rehashing, _dictRehashStep.
  destruct (dictIsRehashing d); [|by exists d]. destruct (_ =? _); [|by exists d].
  destruct (dictRehash_spec d 1 Hwf) as (d' & b & -> & Hr & _). by exists d'.
Qed.

(** *** Search *)

Lemma chain_pos_spec c key p :
  match chain_pos c key p with
  | Some q => (p <= q)%nat /\ exists v, centries c !! (q - p)%nat = Some (key, v)
  | None => forall v, (key, v) ∉ centries c
  end.
Proof.
  revert p. induction c as [|k|k n IH|k w n IH]; intros p; cbn [chain_pos centries].
  - intros v. apply not_elem_of_nil.
  - case_decide as Hk; [subst; split; [lia|]; exists None; by rewrite Nat.sub_diag|].
    intros v [[= -> _]|?%elem_of_nil]%elem_of_cons; done.
  - case_decide as Hk; [subst; split; [lia|]; exists None; by rewrite Nat.sub_diag|].
    specialize (IH (S p)). destruct (chain_pos n key (S p)) as [q|].
    + destruct IH as (Hle & v & Hv). split; [lia|]. exists v. by replace (q - p)%nat with (S (q - S p)) by lia.
    + intros v [[= -> _]|Hin]%elem_of_cons; [done|]. by apply (IH v).
  - case_decide as Hk; [subst; split; [lia|]; exists (Some w); by rewrite Nat.sub_diag|].
    specialize (IH (S p)). destruct (chain_pos n key (S p)) as [q|].
    + destruct IH as (Hle & v & Hv). split; [lia|]. exists v. by replace (q - p)%nat with (S (q - S p)) by lia.
    + intros v [[= -> _]|Hin]%elem_of_cons; [done|]. by apply (IH v).
Qed.

(** The place [l] holds the entry of [key] with value [v]. *)
Definition points (d : dict) (l : loc) (key : K) (v : option V) : Prop :=
  l_idx l = index_of (sel (ht_size_exp d) (l_table l)) key /\
  exists c, sel (ht_table d) (l_table l) !! Z.to_nat (l_idx l) = Some c /\
    centries c !! l_pos l = Some (key, v).

Lemma search_table_spec d key t :
  dict_wf d -> sel (ht_size_exp d) t <> -1 ->
  exists r, search_table d key t = Ret r /\
    match r with
    | Some l => l_table l = t /\ exists v, points d l key v
    | None => forall v, (key, v) ∉ tentries (sel (ht_table d) t)
    end.
Proof.
  intros Hwf He. pose proof (wf_table _ Hwf t) as Ht. unfold search_table, bucket.
  destruct (aget_bucket _ _ (index_range _ _ key Ht He)) as (c & Hc & E).
  unfold index_of in *. rewrite E. cbn [mbind res_bind]. eexists. split; [done|].
  pose proof (chain_pos_spec c key 0) as Hp. destruct (chain_pos c key 0) as [q|].
  - destruct Hp as (_ & v & Hv). rewrite Nat.sub_0_r in Hv. split; [done|]. exists v. split; [done|]. by exists c.
  - intros v Hin. apply (elem_bucket _ _ _ _ Ht) in Hin as (c' & Hc' & Hin).
    unfold index_of in Hc'. simplify_eq. by apply (Hp v).
Qed.

Lemma rehash_exp1 d : dict_wf d -> dictIsRehashing d = true -> sel (ht_size_exp d) true <> -1.
Proof.
  intros Hwf Hre. pose proof (wf_rehash _ Hwf) as Hr. unfold rehash_ok, dictIsRehashing in *.
  destruct (_ =? _); [done|]. apply Hr.
Qed.

Lemma no_rehash_table1 d : dict_wf d -> dictIsRehashing d = false -> sel (ht_table d) true = [].
Proof.
  intros Hwf Hre. pose proof (wf_rehash _ Hwf) as Hr. unfold rehash_ok, dictIsRehashing in *.
  apply negb_false_iff in Hre. rewrite Hre in Hr.
  pose proof (to_size _ _ (wf_table _ Hwf true)) as Hs. rewrite Hr in Hs. done.
Qed.

Lemma search_tables_spec d key :
  dict_wf d -> sel (ht_size_exp d) false <> -1 ->
  exists r, search_tables d key = Ret r /\
    match r with
    | Some l => exists v, points d l key v
    | None => forall v, (key, v) ∉ contents d
    end.
Proof.
  intros Hwf He. unfold search_tables.
  destruct (search_table_spec d key false Hwf He) as ([l|] & -> & Hr); cbn [mbind res_bind].
  { eexists. split; [done|]. apply Hr. }
  destruct (dictIsRehashing d) eqn:Hre; cbn [negb].
  - destruct (search_table_spec d key true Hwf (rehash_exp1 _ Hwf Hre)) as (r & -> & Hr').
    eexists. split; [done|]. destruct r as [l|]; [apply Hr'|].
    intros v [Hin|Hin]%elem_of_app; [by apply (Hr v)|by apply (Hr' v)].
  - eexists. split; [done|]. intros v. unfold contents. rewrite (no_rehash_table1 d Hwf Hre). cbn.
    rewrite app_nil_r. apply Hr.
Qed.

Lemma points_contents d l key v : points d l key v -> (key, v) ∈ contents d.
Proof.
  intros (_ & c & Hc & Hv). apply list_elem_of_lookup_2 in Hv.
  assert (Hin : (key, v) ∈ tentries (sel (ht_table d) (l_table l))) by (apply elem_tentries; eauto).
  unfold contents. apply elem_of_app. destruct (l_table l); auto.
Qed.

Lemma dictSize_contents d : dict_wf d -> dictSize d = Z.of_nat (length (contents d)).
Proof.
  intros Hwf. unfold dictSize, contents. rewrite !(wf_used _ Hwf), length_app. lia.
Qed.

(** A dictionary with entries has a first table. *)
Lemma nonempty_exp0 d : dict_wf d -> dictSize d <> 0 -> sel (ht_size_exp d) false <> -1.
Proof.
  intros Hwf Hn He. rewrite dictSize_contents in Hn by done. apply Hn.
  pose proof (to_size _ _ (wf_table _ Hwf false)) as Hs. rewrite He, Z.eqb_refl in Hs.
  pose proof (wf_rehash _ Hwf) as Hr. unfold rehash_ok in Hr. destruct (rehashidx d =? -1) eqn:E.
  - pose proof (to_size _ _ (wf_table _ Hwf true)) as Hs1. rewrite Hr, Z.eqb_refl in Hs1.
    unfold contents. by rewrite Hs, Hs1.
  - by destruct Hr as (_ & ? & _).
Qed.

Lemma rehashed_size d d' : dict_wf d -> rehashed d d' -> dictSize d' = dictSize d.
Proof. intros Hwf (Hwf' & Hp & _). rewrite !dictSize_contents by done. by rewrite Hp. Qed.

Lemma dictFind_spec d key :
  dict_wf d ->
  exists d' r, dictFind d key = Ret (d', r) /\ rehashed d d' /\
    match r with
    | Some l => exists v, points d' l key v
    | None => forall v, (key, v) ∉ contents d'
    end.
Proof.
  intros Hwf. unfold dictFind. destruct (Z.eqb_spec (dictSize d) 0) as [Hz|Hn].
  - eexists _, _. split; [done|]. split; [done|]. rewrite dictSize_contents in Hz by done.
    assert (contents d = []) as -> by (apply nil_length_inv; lia). intros v. apply not_elem_of_nil.
  - destruct (step_if_rehashing_spec d Hwf) as (d' & -> & Hr). cbn [mbind res_bind].
    pose proof Hr as (Hwf' & _). rewrite <- (rehashed_size d d') in Hn by done.
    destruct (search_tables_spec d' key Hwf' (nonempty_exp0 _ Hwf' Hn)) as (r & -> & Hs).
    eexists _, _. split; [done|]. done.
Qed.

(** *** Expansion *)

Lemma next_exp_loop_spec fuel e size :
  0 <= e -> size <= 2 ^ (e + Z.of_nat fuel) ->
  exists e', next_exp_loop fuel e size = Ret e' /\ e <= e' <= e + Z.of_nat fuel /\ size <= 2 ^ e' /\
    (e' = e \/ 2 ^ (e' - 1) < size).
Proof.
  revert e. induction fuel as [|fuel IH]; intros e He Hs; cbn [next_exp_loop]; rewrite Z.shiftl_1_l;
    destruct (Z.leb_spec size (2 ^ e)).
  - exists e. split; [done|]. split; [lia|]. split; [done|]. by left.
  - rewrite Z.add_0_r in Hs. lia.
  - exists e. split; [done|]. split; [lia|]. split; [done|]. by left.
  - destruct (IH (e + 1)) as (e' & -> & Hle & Hsz & Hmin); [lia|by replace (e + 1 + Z.of_nat fuel) with (e + Z.of_nat (S fuel)) by lia|].
    exists e'. split; [done|]. split; [lia|]. split; [done|]. right.
    destruct Hmin as [->|]; [|done]. by replace (e + 1 - 1) with e by lia.
Qed.

Lemma dictNextExp_spec size :
  0 <= size <= 2 ^ 60 ->
  exists e, _dictNextExp size = Ret e /\ 2 <= e <= 60 /\ size <= 2 ^ e /\ (e = 2 \/ 2 ^ (e - 1) < size).
Proof.
  intros Hs. unfold _dictNextExp, LONG_MAX, DICT_HT_INITIAL_EXP. rewrite (proj2 (Z.leb_gt _ _)) by lia.
  destruct (next_exp_loop_spec 62 2 size) as (e & -> & Hle & Hsz & Hmin); [lia|change (2 + Z.of_nat 62) with 64; lia|].
  exists e. split; [done|]. split; [|done]. split; [lia|].
  destruct (decide (e <= 60)); [done|]. destruct Hmin as [->|Hmin]; [lia|].
  assert (2 ^ 60 <= 2 ^ (e - 1)) by (apply Z.pow_le_mono_r; lia). lia.
Qed.

Lemma table_ok_fresh e : 0 <= e <= 60 -> table_ok e (replicate (Z.to_nat (2 ^ e)) CNull).
Proof.
  intros He. constructor.
  - rewrite (proj2 (Z.eqb_neq _ _)) by lia. split; [done|]. rewrite length_replicate. lia.
  - intros i c k v Hi Hin. apply lookup_replicate in Hi as [-> _]. by apply elem_of_nil in Hin.
  - apply Forall_replicate. done.
Qed.

(** Expansion never loses an entry; when it is allowed and changes the size it
    succeeds. *)
Lemma dictExpand_spec d size :
  dict_wf d -> 0 <= size <= 2 ^ 60 ->
  exists d' b, dictExpand d size = Ret (d', b) /\ rehashed d d' /\
    (sel (ht_size_exp d) false = -1 -> sel (ht_used d) false <= size -> dictIsRehashing d = false ->
       b = true /\ sel (ht_size_exp d') false <> -1) /\
    (sel (ht_size_exp d) false <> -1 -> sel (ht_size_exp d') false <> -1 /\
       (2 ^ sel (ht_size_exp d) false < size -> sel (ht_used d) false <= size -> dictIsRehashing d = false -> b = true)).
Proof.
  intros Hwf Hs. unfold dictExpand, _dictExpand.
  destruct (_ || _) eqn:Hg.
  { eexists _, _. split; [done|]. split; [done|]. apply orb_true_iff in Hg as [Hg|Hg%Z.ltb_lt].
    - split; [congruence|]. intros He. split; [done|]. congruence.
    - split; [lia|]. intros He. split; [done|]. lia. }
  apply orb_false_iff in Hg as [Hre _].
  destruct (dictNextExp_spec size Hs) as (e & -> & He & Hsz & Hmin). cbn [mbind res_bind].
  rewrite Z.shiftl_1_l. assert (Hpow : 0 < 2 ^ e <= 2 ^ 60) by (split; [lia|apply Z.pow_le_mono_r; lia]).
  rewrite uwrap_id by lia. rewrite (proj2 (orb_false_iff _ _)) by lia.
  destruct (Z.eqb_spec e (sel (ht_size_exp d) false)) as [Heq|Hne].
  { eexists _, _. split; [done|]. split; [done|]. rewrite <- Heq. split; [lia|]. intros _. split; [lia|]. lia. }
  cbn [negb]. pose proof (wf_table _ Hwf false) as Ht0.
  destruct d as [[t0 t1] [u0 u1] ri pr [e0 e1]]. unfold sel in *. cbn in *.
  unfold dictIsRehashing in Hre. cbn in Hre. apply negb_false_iff, Z.eqb_eq in Hre as ->.
  pose proof (no_rehash_table1 _ Hwf eq_refl) as Ht1. unfold sel in Ht1. cbn in Ht1. subst t1.
  destruct Hwf as [Ht Hu Hr Hp]. unfold rehash_ok, sel in *. cbn in *.
  pose proof (Hu true) as Hu1. cbn in Hu1. pose proof (Hu false) as Hu0. cbn in Hu0.
  destruct t0 as [|c0 t0].
  - eexists _, _. split; [done|]. cbn. unfold rehashed, contents, sel. cbn. rewrite tentries_replicate.
    split; [|split; lia]. split_and!; [|done|done]. constructor; cbn.
    + intros []; cbn; [apply (Ht true)|apply table_ok_fresh; lia].
    + intros []; cbn; [done|by rewrite tentries_replicate].
    + done.
    + done.
  - eexists _, _. split; [done|]. cbn. unfold rehashed, contents, sel. cbn. rewrite tentries_replicate.
    assert (He0 : e0 <> -1) by (intros ->; pose proof (to_size _ _ Ht0) as H; by rewrite Z.eqb_refl in H).
    split; [|done]. split_and!; [|done|done]. constructor; cbn.
    + intros []; cbn; [apply table_ok_fresh; lia|apply (Ht false)].
    + intros []; cbn; [by rewrite tentries_replicate|done].
    + unfold rehash_ok, sel. cbn. split_and!; try done; [lia|]. intros i Hi. lia.
    + done.
Qed.

Lemma pow_size d : dict_wf d -> sel (ht_size_exp d) false <> -1 ->
  0 <= sel (ht_size_exp d) false <= 60 /\ DICTHT_SIZE (sel (ht_size_exp d) false) = 2 ^ sel (ht_size_exp d) false.
Proof.
  intros Hwf He. pose proof (to_size _ _ (wf_table _ Hwf false)) as Hs.
  rewrite (proj2 (Z.eqb_neq _ _)) in Hs by done. split; [lia|]. apply SIZE_pow. lia.
Qed.

Lemma used_bound d t : dict_wf d -> 0 <= sel (ht_used d) t <= dictSize d.
Proof.
  intros Hwf. unfold dictSize. pose proof (wf_used _ Hwf false). pose proof (wf_used _ Hwf true).
  destruct t; lia.
Qed.

Lemma dictExpandIfNeeded_spec d :
  dict_wf d -> dictSize d < 2 ^ 60 ->
  exists d', _dictExpandIfNeeded d = Ret (d', true) /\ rehashed d d' /\ sel (ht_size_exp d') false <> -1.
Proof.
  intros Hwf Hn. pose proof (used_bound d false Hwf) as Hu. unfold _dictExpandIfNeeded.
  destruct (dictIsRehashing d) eqn:Hre.
  { exists d. split; [done|]. split; [done|]. pose proof (wf_rehash _ Hwf) as Hr.
    unfold rehash_ok, dictIsRehashing in *. destruct (_ =? _); [done|]. apply Hr. }
  destruct (decide (sel (ht_size_exp d) false = -1)) as [He|He].
  { rewrite He. change (DICTHT_SIZE (-1) =? 0) with true. change DICT_HT_INITIAL_SIZE with 4.
    destruct (dictExpand_spec d 4 Hwf) as (d' & b & -> & Hr & H1 & _); [lia|].
    assert (Hu0 : sel (ht_used d) false = 0).
    { rewrite (wf_used _ Hwf). pose proof (to_size _ _ (wf_table _ Hwf false)) as Hs. rewrite He, Z.eqb_refl in Hs. by rewrite Hs. }
    destruct H1 as [-> ?]; [done|lia|done|]. by exists d'. }
  destruct (pow_size d Hwf He) as [Hexp Hsz].
  assert (0 < 2 ^ sel (ht_size_exp d) false) by lia.
  rewrite Hsz. rewrite (proj2 (Z.eqb_neq _ 0)) by lia.
  unfold dictTypeExpandAllowed.
  destruct (dictNextExp_spec (sel (ht_used d) false + 1)) as (e & -> & _); [lia|]. cbn [mbind res_bind].
  destruct (expandAllowed _ _ _); cbn [negb]; [|by exists d].
  destruct (_ || _) eqn:Hg; [|by exists d].
  destruct (dictExpand_spec d (sel (ht_used d) false + 1) Hwf) as (d' & b & -> & Hr & _ & H2); [lia|].
  destruct (H2 He) as [He' Hb]. rewrite Hb; [by exists d'| |lia|done].
  apply orb_true_iff in Hg as [[_ Hg%Z.leb_le]%andb_prop|[_ Hg%Z.ltb_lt]%andb_prop]; [lia|].
  unfold dict_force_resize_ratio in Hg.
  pose proof (Z.mul_div_le (sel (ht_used d) false) (2 ^ sel (ht_size_exp d) false) ltac:(lia)). nia.
Qed.

(** *** Replacing a bucket *)

(** The dictionary with the bucket of [key] in table [t] replaced by [c'],
    which holds [delta] more entries. *)
Lemma set_bucket_spec d t key c c' :
  dict_wf d -> sel (ht_size_exp d) t <> -1 ->
  sel (ht_table d) t !! Z.to_nat (index_of (sel (ht_size_exp d) t) key) = Some c ->
  chain_kind c' -> (forall k v, (k, v) ∈ centries c' -> index_of (sel (ht_size_exp d) t) k = index_of (sel (ht_size_exp d) t) key) ->
  (t = false -> dictIsRehashing d = true -> c = CNull -> c' = CNull) ->
  exists d' R, set_bucket d t (index_of (sel (ht_size_exp d) t) key) c' = Ret d' /\
    contents d ≡ₚ centries c ++ R /\ contents d' ≡ₚ centries c' ++ R /\
    (forall u, u = sel (ht_used d) t + Z.of_nat (length (centries c')) - Z.of_nat (length (centries c)) ->
       dict_wf (set_used d' t u)) /\
    sel (ht_table d') t !! Z.to_nat (index_of (sel (ht_size_exp d) t) key) = Some c' /\
    same_frame d d' /\ ht_used d' = ht_used d.
Proof.
  intros Hwf He Hc Hk Hpl Hnull. pose proof (wf_table _ Hwf t) as Ht.
  pose proof (index_range _ _ key Ht He) as Hr. set (i := index_of (sel (ht_size_exp d) t) key) in *.
  assert (Hlt := lookup_lt_Some _ _ _ Hc).
  unfold set_bucket. rewrite aset_Z by lia. cbn [mbind res_bind].
  destruct (tentries_insert _ _ _ Hc) as (R & HR & HR'). specialize (HR' c').
  exists (set_table d t (<[Z.to_nat i := c']> (sel (ht_table d) t))), (R ++ tentries (sel (ht_table d) (negb t))).
  split; [done|].
  assert (Hco : forall x, sel (upd (ht_table d) t x) t = x /\ sel (upd (ht_table d) t x) (negb t) = sel (ht_table d) (negb t)).
  { destruct d as [[t0 t1] us ri pr ex]. by destruct t. }
  assert (Hcon : forall p : list chain * list chain, tentries (sel p false) ++ tentries (sel p true) ≡ₚ
     tentries (sel p t) ++ tentries (sel p (negb t))).
  { intros p. destruct t; [apply Permutation_app_comm|done]. }
  destruct (Hco (<[Z.to_nat i := c']> (sel (ht_table d) t))) as [Hs1 Hs2].
  split; [unfold contents; rewrite Hcon, HR, app_assoc; done|].
  split; [unfold contents, set_table; cbn [ht_table]; rewrite Hcon, Hs1, Hs2, HR', app_assoc; done|].
  assert (Hok : table_ok (sel (ht_size_exp d) t) (<[Z.to_nat i := c']> (sel (ht_table d) t))).
  { apply table_ok_insert; [done|done|]. intros k v Hin. rewrite (Hpl k v Hin). lia. }
  split; [|split; [cbn; rewrite Hs1; by apply list_lookup_insert_eq|done]].
  intros u ->. destruct Hwf as [Ht' Hu Hrh Hp]. constructor; cbn.
  - intros t'. destruct (decide (t' = t)) as [->|]; [by rewrite Hs1|].
    replace t' with (negb t) by (by destruct t', t). rewrite Hs2. apply Ht'.
  - intros t'. pose proof (Hu t) as Hut. rewrite HR, length_app in Hut.
    destruct (decide (t' = t)) as [->|].
    + rewrite Hs1, HR', length_app. destruct d as [tb [u0 u1] ri pr ex], t; unfold sel, upd in *; cbn in *; lia.
    + replace t' with (negb t) by (by destruct t', t). rewrite Hs2, <- Hu.
      destruct d as [tb [u0 u1] ri pr ex]. by destruct t.
  - unfold rehash_ok, dictIsRehashing in *. cbn. destruct (rehashidx d =? -1); [done|].
    destruct Hrh as (H0 & He0 & He1 & Hb). split_and!; try done. intros j Hj. destruct t; [by apply Hb|].
    unfold sel, upd in *. cbn in *. destruct (decide (j = Z.to_nat i)) as [->|].
    + rewrite list_lookup_insert_eq by done. f_equal. apply Hnull; [done|done|].
      rewrite Hb in Hc by done. congruence.
    + rewrite list_lookup_insert_ne by done. by apply Hb.
  - done.
Qed.

(** *** Insertion *)

Definition fresh_value : option V := if no_value then None else Some uninit_val.

Lemma dictInsertAtPosition_spec d key :
  dict_wf d -> sel (ht_size_exp d) false <> -1 ->
  exists d' l, dictInsertAtPosition d key (dictIsRehashing d)
      (index_of (sel (ht_size_exp d) (dictIsRehashing d)) key) = Ret (d', l) /\
    dict_wf d' /\ contents d' ≡ₚ (key, fresh_value) :: contents d /\ points d' l key fresh_value /\
    pauserehash d' = pauserehash d /\ (l_table l = false -> dictIsRehashing d' = false).
Proof.
  intros Hwf He. set (t := dictIsRehashing d).
  assert (Het : sel (ht_size_exp d) t <> -1)
    by (subst t; destruct (dictIsRehashing d) eqn:Hre; [by apply rehash_exp1|done]).
  pose proof (wf_table _ Hwf t) as Ht. pose proof (index_range _ _ key Ht Het) as Hr.
  unfold dictInsertAtPosition, bucket. fold t. rewrite eqb_reflx.
  pose proof (to_size _ _ Ht) as Hsz. rewrite (proj2 (Z.eqb_neq _ _)) in Hsz by done.
  rewrite MASK_ones, Z.ones_equiv by lia.
  rewrite (proj2 (Z.leb_le 0 _)), (proj2 (Z.leb_le _ (Z.pred _))) by lia. cbn [andb assert mbind res_bind].
  destruct (aget_bucket _ _ Hr) as (c & Hc & ->). cbn [mbind res_bind].
  assert (Hck := Forall_lookup_1 _ _ _ _ (to_kind _ _ Ht) Hc).
  assert (Hnew : exists c', (if no_value then
       match keys_are_odd, c with
       | true, CNull => _ ← assert (entryIsKey key); Ret (CKey key)
       | _, _ => Ret (CNoValue key c) end
     else Ret (CNormal key uninit_val c)) = Ret c' /\ centries c' = (key, fresh_value) :: centries c /\ chain_kind c').
  { unfold fresh_value. destruct no_value eqn:Hnv; [|by exists (CNormal key uninit_val c)].
    destruct keys_are_odd eqn:Hko; [|by exists (CNoValue key c)].
    destruct c; [rewrite odd_keys by done; by exists (CKey key)|by eexists; split; [done|]..]. }
  destruct Hnew as (c' & -> & Hce & Hck'). cbn [mbind res_bind].
  destruct (set_bucket_spec d t key c c') as (d' & R & -> & H1 & H2 & H3 & H4 & (H5 & H5' & H5'') & H6); try done.
  { intros k v. rewrite Hce. intros [[= -> _]|Hin]%elem_of_cons; [done|].
    rewrite (to_placed _ _ Ht _ _ _ _ Hc Hin). lia. }
  { subst t. congruence. }
  cbn [mbind res_bind]. eexists _, _. split; [done|]. split.
  { rewrite H6. apply H3. rewrite Hce. cbn [length]. lia. }
  split; [|split; [|split; [done|]]].
  - unfold contents in *. cbn. rewrite H2, Hce, H1. done.
  - unfold points. cbn. rewrite H5''. split; [done|]. exists c'. split; [done|]. by rewrite Hce.
  - cbn. unfold dictIsRehashing at 1. cbn. rewrite H5. done.
Qed.

(** [dictAddRaw] adds the key with a fresh value, or finds it. *)
Lemma dictAddRaw_spec d key :
  dict_wf d -> dictSize d < 2 ^ 60 ->
  exists d' r, dictAddRaw d key = Ret (d', r) /\ dict_wf d' /\ pauserehash d' = pauserehash d /\
    match r with
    | inl l => contents d' ≡ₚ (key, fresh_value) :: contents d /\ points d' l key fresh_value /\
        (forall v, (key, v) ∉ contents d)
    | inr (Some l) => contents d' ≡ₚ contents d /\ exists v, points d' l key v
    | inr None => False
    end.
Proof.
  intros Hwf Hn. unfold dictAddRaw, dictFindPositionForInsert.
  destruct (step_if_rehashing_spec d Hwf) as (d1 & -> & Hr1). cbn [mbind res_bind].
  pose proof Hr1 as (Hwf1 & Hp1 & Hpa1). rewrite <- (rehashed_size d d1) in Hn by done.
  destruct (dictExpandIfNeeded_spec d1 Hwf1 Hn) as (d2 & -> & Hr2 & He2). cbn [mbind res_bind negb].
  pose proof Hr2 as (Hwf2 & Hp2 & Hpa2).
  destruct (search_tables_spec d2 key Hwf2 He2) as (r & -> & Hs). cbn [mbind res_bind].
  destruct r as [l|]; cbn [mbind res_bind].
  { eexists _, _. split; [done|]. split_and!; [done|congruence|by rewrite Hp2, Hp1|done]. }
  fold (index_of (sel (ht_size_exp d2) (dictIsRehashing d2)) key).
  destruct (dictInsertAtPosition_spec d2 key Hwf2 He2) as (d3 & l & -> & Hwf3 & Hp3 & Hpt & Hpa3 & _).
  eexists _, _. split; [done|]. split_and!; [done|congruence|by rewrite Hp3, Hp2, Hp1|done|].
  intros v. rewrite <- Hp1, <- Hp2. apply Hs.
Qed.

Lemma chain_set_spec c pos key v val :
  chain_kind c -> no_value = false -> centries c !! pos = Some (key, v) ->
  exists c', chain_set c pos val = Ret c' /\ centries c' = <[pos := (key, Some val)]> (centries c) /\
    chain_kind c' /\ c' <> CNull.
Proof.
  revert pos. induction c as [|k|k n IH|k w n IH]; intros pos Hk Hnv Hp; cbn in *.
  - done.
  - congruence.
  - destruct Hk. congruence.
  - destruct Hk as [_ Hk]. destruct pos as [|pos]; cbn in *.
    + simplify_eq. by exists (CNormal key val n).
    + destruct (IH pos Hk Hnv Hp) as (n' & -> & Hc & Hk' & _). exists (CNormal k w n').
      split; [done|]. cbn. by rewrite Hc.
Qed.

Lemma insert_perm {A} (l : list A) i x : (i < length l)%nat -> <[i := x]> l ≡ₚ x :: delete i l.
Proof.
  intros H. rewrite insert_take_drop by done. rewrite delete_take_drop. symmetry. apply Permutation_middle.
Qed.

(** Writing the value of the entry at a place. *)
Lemma dictSetVal_spec d l key v val :
  dict_wf d -> no_value = false -> points d l key v ->
  exists d' R, dictSetVal d l val = Ret d' /\ dict_wf d' /\
    contents d ≡ₚ (key, v) :: R /\ contents d' ≡ₚ (key, Some val) :: R /\
    pauserehash d' = pauserehash d.
Proof.
  intros Hwf Hnv (Hidx & c & Hc & Hp). pose proof (wf_table _ Hwf (l_table l)) as Ht.
  assert (He : sel (ht_size_exp d) (l_table l) <> -1).
  { intros E. pose proof (to_size _ _ Ht) as Hs. rewrite E, Z.eqb_refl in Hs. by rewrite Hs in Hc. }
  pose proof (index_range _ _ key Ht He) as Hr.
  unfold dictSetVal, bucket. rewrite (aget_Z _ _ c) by (rewrite ?Hidx in *; (done || lia)). cbn [mbind res_bind].
  destruct (chain_set_spec c (l_pos l) key v val (Forall_lookup_1 _ _ _ _ (to_kind _ _ Ht) Hc) Hnv Hp)
    as (c' & -> & Hce & Hk' & Hne). cbn [mbind res_bind].
  rewrite Hidx in *. assert (Hlp := lookup_lt_Some _ _ _ Hp).
  destruct (set_bucket_spec d (l_table l) key c c') as (d' & R & -> & H1 & H2 & H3 & H4 & (H5 & H5' & H5'') & H6); try done.
  { intros k w Hin. rewrite Hce in Hin. apply list_elem_of_lookup in Hin as [j Hj].
    destruct (decide (j = l_pos l)) as [->|].
    - rewrite list_lookup_insert_eq in Hj by done. by simplify_eq.
    - rewrite list_lookup_insert_ne in Hj by done. apply list_elem_of_lookup_2 in Hj.
      rewrite (to_placed _ _ Ht _ _ _ _ Hc Hj). lia. }
  { intros _ _ ->. done. }
  exists d', (delete (l_pos l) (centries c) ++ R). split; [done|].
  specialize (H3 (sel (ht_used d) (l_table l))). rewrite Hce, length_insert in H3. specialize (H3 ltac:(lia)).
  assert (Hd' : set_used d' (l_table l) (sel (ht_used d) (l_table l)) = d').
  { destruct d' as [tb us ri pr ex]. cbn in *. subst. unfold set_used. cbn. f_equal.
    destruct d as [tb' [u0 u1] ri' pr' ex']. by destruct (l_table l). }
  rewrite Hd' in H3. split_and!; [done| | |done].
  - rewrite H1. rewrite (delete_Permutation _ _ _ Hp) at 1. done.
  - rewrite H2, Hce, insert_perm by done. done.
Qed.

(** *** Deletion *)

Lemma chain_remove_spec c key :
  chain_kind c ->
  match chain_remove c key with
  | Some (c', e) => exists v, head_entry e = [(key, v)] /\ centries c ≡ₚ (key, v) :: centries c' /\ chain_kind c' /\ c <> CNull
  | None => forall v, (key, v) ∉ centries c
  end.
Proof.
  induction c as [|k|k n IH|k w n IH]; intros Hk; cbn [chain_remove centries chain_kind] in *.
  - intros v. apply not_elem_of_nil.
  - case_decide as E; [subst; by exists None|]. intros v [[= -> _]|?%elem_of_nil]%elem_of_cons; done.
  - destruct Hk as [Hnv Hk]. case_decide as E; [subst; exists None; by split_and!|]. specialize (IH Hk).
    destruct (chain_remove n key) as [[n' e]|].
    + destruct IH as (v & He & Hp & Hk' & _). exists v. split_and!; [done| |done|done].
      cbn. rewrite Hp. apply Permutation_swap.
    + intros v [[= -> _]|Hin]%elem_of_cons; [done|]. by apply (IH v).
  - destruct Hk as [Hnv Hk]. case_decide as E; [subst; exists (Some w); by split_and!|]. specialize (IH Hk).
    destruct (chain_remove n key) as [[n' e]|].
    + destruct IH as (v & He & Hp & Hk' & _). exists v. split_and!; [done| |done|done].
      cbn. rewrite Hp. apply Permutation_swap.
    + intros v [[= -> _]|Hin]%elem_of_cons; [done|]. by apply (IH v).
Qed.

Lemma delete_from_spec d key t :
  dict_wf d -> sel (ht_size_exp d) t <> -1 ->
  exists r, delete_from d key t = Ret r /\
    match r with
    | Some (d', e) => exists v, head_entry e = [(key, v)] /\ dict_wf d' /\
        contents d ≡ₚ (key, v) :: contents d' /\ pauserehash d' = pauserehash d
    | None => forall v, (key, v) ∉ tentries (sel (ht_table d) t)
    end.
Proof.
  intros Hwf He. pose proof (wf_table _ Hwf t) as Ht. pose proof (index_range _ _ key Ht He) as Hr.
  unfold delete_from, bucket. fold (index_of (sel (ht_size_exp d) t) key).
  destruct (aget_bucket _ _ Hr) as (c & Hc & ->). cbn [mbind res_bind].
  pose proof (chain_remove_spec c key (Forall_lookup_1 _ _ _ _ (to_kind _ _ Ht) Hc)) as Hrm.
  destruct (chain_remove c key) as [[c' e]|].
  - destruct Hrm as (v & Hh & Hp & Hk & Hne).
    destruct (set_bucket_spec d t key c c') as (d' & R & -> & H1 & H2 & H3 & H4 & (H5 & H5' & H5'') & H6); try done.
    { intros k w Hin. rewrite (to_placed _ _ Ht _ _ k w Hc); [lia|]. rewrite Hp. by right. }
    cbn [mbind res_bind]. eexists. split; [done|]. exists v. split_and!; [done| | |done].
    + rewrite H6. apply H3. rewrite Hp. cbn [length]. lia.
    + unfold contents in *. cbn. rewrite H1, H2, Hp. done.
  - eexists. split; [done|]. intros v Hin. apply (elem_bucket _ _ _ _ Ht) in Hin as (c0 & Hc0 & Hin).
    simplify_eq. by apply (Hrm v).
Qed.

Lemma dictGenericDelete_spec d key :
  dict_wf d ->
  exists d' r, dictGenericDelete d key = Ret (d', r) /\ dict_wf d' /\ pauserehash d' = pauserehash d /\
    match r with
    | Some e => exists v, head_entry e = [(key, v)] /\ contents d ≡ₚ (key, v) :: contents d'
    | None => contents d' ≡ₚ contents d /\ forall v, (key, v) ∉ contents d
    end.
Proof.
  intros Hwf. unfold dictGenericDelete. destruct (Z.eqb_spec (dictSize d) 0) as [Hz|Hn].
  { eexists _, _. split; [done|]. split_and!; [done|done|done|]. rewrite dictSize_contents in Hz by done.
    assert (contents d = []) as -> by (apply nil_length_inv; lia). intros v. apply not_elem_of_nil. }
  destruct (step_if_rehashing_spec d Hwf) as (d1 & -> & Hr). cbn [mbind res_bind].
  pose proof Hr as (Hwf1 & Hp1 & Hpa1). rewrite <- (rehashed_size d d1) in Hn by done.
  destruct (delete_from_spec d1 key false Hwf1 (nonempty_exp0 _ Hwf1 Hn)) as (r & -> & H0). cbn [mbind res_bind].
  destruct r as [[d2 e]|].
  { destruct H0 as (v & Hh & Hwf2 & Hp2 & Hpa2). eexists _, _. split; [done|].
    split_and!; [done|congruence|]. exists v. split; [done|]. by rewrite <- Hp1. }
  destruct (dictIsRehashing d1) eqn:Hre; cbn [negb].
  - destruct (delete_from_spec d1 key true Hwf1 (rehash_exp1 _ Hwf1 Hre)) as (r & -> & H1). cbn [mbind res_bind].
    destruct r as [[d2 e]|].
    + destruct H1 as (v & Hh & Hwf2 & Hp2 & Hpa2). eexists _, _. split; [done|].
      split_and!; [done|congruence|]. exists v. split; [done|]. by rewrite <- Hp1.
    + eexists _, _. split; [done|]. split_and!; [done|done|done|]. intros v. rewrite <- Hp1. unfold contents.
      rewrite elem_of_app. intros [?|?]; [by apply (H0 v)|by apply (H1 v)].
  - eexists _, _. split; [done|]. split_and!; [done|done|done|]. intros v. rewrite <- Hp1. unfold contents.
    rewrite (no_rehash_table1 d1 Hwf1 Hre). cbn. rewrite app_nil_r. apply H0.
Qed.

Lemma points_exp d l key v : dict_wf d -> points d l key v -> sel (ht_size_exp d) (l_table l) <> -1.
Proof.
  intros Hwf (_ & c & Hc & _) E. pose proof (to_size _ _ (wf_table _ Hwf (l_table l))) as Hs.
  rewrite E, Z.eqb_refl in Hs. by rewrite Hs in Hc.
Qed.

Lemma chain_drop_spec c pos e n :
  chain_kind c -> no_value = false -> centries c !! pos = Some (e, n) ->
  exists w r, chain_drop c pos = CNormal e w r /\ n = Some w.
Proof.
  revert c. induction pos as [|pos IH]; intros c Hk Hnv Hp; destruct c as [|k|k r|k w r]; cbn in *;
    try congruence; try (destruct Hk; congruence).
  - simplify_eq. by exists w, r.
  - apply (IH r); [apply Hk|done|done].
Qed.

Lemma dictGetVal_spec d l key v :
  dict_wf d -> no_value = false -> points d l key v -> exists w, v = Some w /\ dictGetVal d l = Ret w.
Proof.
  intros Hwf Hnv Hpt. pose proof (points_exp _ _ _ _ Hwf Hpt) as He. destruct Hpt as (Hidx & c & Hc & Hp).
  pose proof (wf_table _ Hwf (l_table l)) as Ht. pose proof (index_range _ _ key Ht He) as Hr.
  unfold dictGetVal, deref, bucket. rewrite (aget_Z _ _ c) by (rewrite ?Hidx in *; (done || lia)). cbn [mbind res_bind].
  destruct (chain_drop_spec c (l_pos l) key v (Forall_lookup_1 _ _ _ _ (to_kind _ _ Ht) Hc) Hnv Hp)
    as (w & r & -> & ->). by exists w.
Qed.

(** *** Two-phase deletion *)

Lemma chain_unlink_spec c pos e :
  chain_kind c -> centries c !! pos = Some e ->
  exists c', chain_unlink c pos = Ret c' /\ centries c' = delete pos (centries c) /\ chain_kind c'.
Proof.
  revert pos. induction c as [|k|k n IH|k w n IH]; intros pos Hk Hp; cbn in *.
  - done.
  - destruct pos; [|done]. by exists CNull.
  - destruct Hk as [Hnv Hk]. destruct pos as [|pos]; [by exists n|].
    destruct (IH pos Hk Hp) as (n' & -> & Hc & Hk'). exists (CNoValue k n'). split; [done|]. cbn. by rewrite Hc.
  - destruct Hk as [Hnv Hk]. destruct pos as [|pos]; [by exists n|].
    destruct (IH pos Hk Hp) as (n' & -> & Hc & Hk'). exists (CNormal k w n'). split; [done|]. cbn. by rewrite Hc.
Qed.

Lemma set_bucket_used d t i c u :
  set_bucket (set_used d t u) t i c = (d' ← set_bucket d t i c; Ret (set_used d' t u)).
Proof. unfold set_bucket. cbn. by destruct (aset (sel (ht_table d) t) i c). Qed.

Lemma dictTwoPhaseUnlinkFree_spec d l key v :
  dict_wf d -> points d l key v -> 0 < pauserehash d ->
  exists d', dictTwoPhaseUnlinkFree d (Some l) = Ret d' /\ dict_wf d' /\
    contents d ≡ₚ (key, v) :: contents d' /\ pauserehash d' = pauserehash d - 1.
Proof.
  intros Hwf Hpt Hpa. pose proof (points_exp _ _ _ _ Hwf Hpt) as He. destruct Hpt as (Hidx & c & Hc & Hp).
  pose proof (wf_table _ Hwf (l_table l)) as Ht. pose proof (index_range _ _ key Ht He) as Hr.
  unfold dictTwoPhaseUnlinkFree, bucket. cbn.
  rewrite (aget_Z _ _ c) by (rewrite ?Hidx in *; (done || lia)). cbn [mbind res_bind].
  destruct (chain_unlink_spec c (l_pos l) _ (Forall_lookup_1 _ _ _ _ (to_kind _ _ Ht) Hc) Hp) as (c' & -> & Hce & Hk).
  cbn [mbind res_bind]. rewrite set_bucket_used, Hidx in *.
  assert (Hperm := delete_Permutation _ _ _ Hp).
  destruct (set_bucket_spec d (l_table l) key c c') as (d' & R & -> & H1 & H2 & H3 & H4 & (H5 & H5' & H5'') & H6); try done.
  { intros k w Hin. rewrite (to_placed _ _ Ht _ _ k w Hc); [lia|]. rewrite Hperm. right. by rewrite <- Hce. }
  { intros _ _ ->. by destruct (l_pos l). }
  cbn [mbind res_bind]. eexists. split; [done|].
  specialize (H3 (sel (ht_used d) (l_table l) - 1)). rewrite Hce in H3.
  apply Permutation_length in Hperm as Hlen. cbn [length] in Hlen. specialize (H3 ltac:(lia)). destruct H3 as [Ht' Hu' Hr' Hp']. split.
  - constructor; [done|done|exact Hr'|cbn in *; lia].
  - split; [|cbn; lia]. unfold contents in *. cbn. rewrite H1, Hperm, H2, Hce. done.
Qed.

(** *** Clearing *)

Lemma free_chain_frame c d t :
  ht_table (free_chain c d t) = ht_table d /\ same_frame d (free_chain c d t) /\
  sel (ht_used (free_chain c d t)) (negb t) = sel (ht_used d) (negb t).
Proof.
  assert (Hu : forall (p : Z * Z) x, sel (upd p t x) (negb t) = sel p (negb t)) by (by destruct t).
  unfold same_frame. revert d. induction c as [|k|k n IH|k w n IH]; intros d; cbn [free_chain].
  - done.
  - cbn. by rewrite Hu.
  - destruct (IH (set_used d t (sel (ht_used d) t - 1))) as (-> & (-> & -> & ->) & ->). cbn. by rewrite Hu.
  - destruct (IH (set_used d t (sel (ht_used d) t - 1))) as (-> & (-> & -> & ->) & ->). cbn. by rewrite Hu.
Qed.

Lemma clear_loop_frame fuel i d t :
  0 <= i -> Z.of_nat (length (sel (ht_table d) t)) - i <= Z.of_nat fuel ->
  DICTHT_SIZE (sel (ht_size_exp d) t) = Z.of_nat (length (sel (ht_table d) t)) ->
  exists d', clear_loop fuel i d t = Ret d' /\ ht_table d' = ht_table d /\ same_frame d d' /\
    sel (ht_used d') (negb t) = sel (ht_used d) (negb t).
Proof.
  revert i d. induction fuel as [|fuel IH]; intros i d Hi Hf Hs; cbn [clear_loop];
    destruct (_ && _) eqn:Hg; try (by exists d); rewrite Hs in Hg; [lia|].
  destruct (aget_bucket (sel (ht_table d) t) i) as (c & Hc & E); [lia|]. unfold bucket. rewrite E. cbn [mbind res_bind].
  destruct (free_chain_frame c d t) as (Ht & (Hf1 & Hf2 & Hf3) & Hf4).
  destruct (IH (i + 1) (free_chain c d t)) as (d' & -> & Ht' & (Hg1 & Hg2 & Hg3) & Hg4); rewrite ?Ht, ?Hf3; [lia|lia|done|].
  exists d'. split; [done|]. unfold same_frame. split_and!; congruence.
Qed.

Lemma table_size d t : dict_wf d ->
  DICTHT_SIZE (sel (ht_size_exp d) t) = Z.of_nat (length (sel (ht_table d) t)).
Proof.
  intros Hwf. pose proof (to_size _ _ (wf_table _ Hwf t)) as Hs.
  destruct (Z.eqb_spec (sel (ht_size_exp d) t) (-1)) as [E|E]; [rewrite E, Hs; done|].
  rewrite SIZE_pow; lia.
Qed.

Lemma dictEmpty_spec d :
  dict_wf d -> exists d', dictEmpty d = Ret d' /\ dict_wf d' /\ contents d' = [] /\ pauserehash d' = 0.
Proof.
  intros Hwf. unfold dictEmpty, _dictClear.
  destruct (clear_loop_frame (length (sel (ht_table d) false)) 0 d false) as (d1 & -> & Ht1 & (H1 & H1' & H1'') & _);
    [lia|lia|by apply table_size|]. cbn [mbind res_bind].
  destruct (clear_loop_frame (length (sel (ht_table (_dictReset d1 false)) true)) 0 (_dictReset d1 false) true)
    as (d2 & -> & Ht2 & (H2 & H2' & H2'') & Hu2); [lia|lia| |].
  { pose proof (table_size d true Hwf) as Hs. unfold _dictReset, sel, upd in *. cbn in *. by rewrite Ht1, H1''. }
  cbn [mbind res_bind]. eexists. split; [done|].
  destruct d2 as [[t0 t1] [u0 u1] ri pr [e0 e1]], d1 as [[s0 s1] [v0 v1] ri1 pr1 [f0 f1]].
  unfold _dictReset, sel, upd in *. cbn in *. simplify_eq.
  assert (Hnil : table_ok (-1) []) by (constructor; [done|by intros|done]).
  split; [|done]. constructor; cbn; [by intros []|by intros []|done|done].
Qed.

(** *** Finite maps *)

Section map.
Context `{!Countable K}.
Implicit Types M : gmap K (option V).

Lemma repr_elem d M k v : dict_repr d M -> (k, v) ∈ contents d <-> M !! k = Some v.
Proof. intros [_ Hp]. by rewrite Hp, elem_of_map_to_list. Qed.

Lemma repr_none d M k : dict_repr d M -> (forall v, (k, v) ∉ contents d) -> M !! k = None.
Proof.
  intros Hr Hn. destruct (M !! k) as [v|] eqn:E; [|done]. apply (repr_elem d M k v Hr) in E. by apply Hn in E.
Qed.

Lemma repr_size d M : dict_repr d M -> dictSize d = Z.of_nat (size M).
Proof. intros [Hwf Hp]. rewrite dictSize_contents, Hp, length_map_to_list; done. Qed.

Lemma repr_insert l k v M : M !! k = None -> l ≡ₚ map_to_list M -> (k, v) :: l ≡ₚ map_to_list (<[k := v]> M).
Proof. intros Hk Hl. by rewrite map_to_list_insert, Hl by done. Qed.

Lemma repr_delete l k v M : (k, v) :: l ≡ₚ map_to_list M -> M !! k = Some v /\ l ≡ₚ map_to_list (delete k M).
Proof.
  intros Hl. assert (Hk : M !! k = Some v) by (apply elem_of_map_to_list; rewrite <- Hl; left).
  split; [done|]. apply (Permutation_cons_inv (a := (k, v))). by rewrite Hl, map_to_list_delete.
Qed.

Lemma repr_rehashed d d' M : dict_repr d M -> rehashed d d' -> dict_repr d' M.
Proof. intros [_ Hp] (Hwf & Hp' & _). split; [done|]. by rewrite Hp'. Qed.

(** A new dictionary is empty. *)
Lemma dictCreate_repr : dict_repr dictCreate ∅.
Proof.
  split; [|by rewrite map_to_list_empty]. constructor; cbn; try done.
  - intros []; (constructor; [done|by intros|done]).
  - by intros [].
Qed.

(** The value an entry has after [dictAdd]. *)
Definition stored (val : V) : option V := if no_value then None else Some val.

(** Insertion, for the callers of [dictAdd]. *)
Lemma dictAdd_spec d M key val :
  dict_repr d M -> Z.of_nat (size M) < 2 ^ 60 ->
  exists d' b, dictAdd d key val = Ret (d', b) /\ pauserehash d' = pauserehash d /\
    match M !! key with
    | None => b = true /\ dict_repr d' (<[key := stored val]> M)
    | Some _ => b = false /\ dict_repr d' M
    end.
Proof.
  intros Hr Hn. pose proof Hr as [Hwf Hp]. rewrite <- (repr_size d M Hr) in Hn. unfold dictAdd, stored.
  destruct (dictAddRaw_spec d key Hwf Hn) as (d1 & r & -> & Hwf1 & Hpa & Hres). cbn [mbind res_bind].
  destruct r as [l|[l|]]; [| |done].
  - destruct Hres as (Hp1 & Hpt & Hnot). rewrite (repr_none d M key Hr Hnot).
    unfold fresh_value in *. destruct no_value eqn:Hnv; cbn [negb mbind res_bind].
    + eexists _, _. split; [done|]. split_and!; [done|done|split; [done|]]. rewrite Hp1. apply repr_insert; [|done].
      by apply (repr_none d).
    + destruct (dictSetVal_spec d1 l key (Some uninit_val) val) as (d2 & R & -> & Hwf2 & Hc1 & Hc2 & Hpa2); try done.
      cbn [mbind res_bind]. eexists _, _. split; [done|]. split_and!; [congruence|done|split; [done|]].
      rewrite Hc2. apply repr_insert; [by apply (repr_none d)|].
      apply (Permutation_cons_inv (a := (key, Some uninit_val))). by rewrite <- Hc1, Hp1, Hp.
  - destruct Hres as (Hp1 & v & Hpt). apply points_contents in Hpt. rewrite Hp1 in Hpt.
    rewrite (proj1 (repr_elem d M key v Hr) Hpt). eexists _, _. split; [done|].
    split_and!; [done|done|split; [done|]]. by rewrite Hp1.
Qed.

(** C31: [dictAdd] refines insertion into a finite map, in every state of the
    incremental rehashing and for every resize policy: a present key is
    refused and nothing is lost, an absent key is added with its value; the
    rehashing step, the expansion and the move between tables it triggers
    keep the dictionary well formed. *)
Theorem dictAdd_refines d M key val :
  dict_repr d M -> Z.of_nat (size M) < 2 ^ 60 ->
  exists d' b, dictAdd d key val = Ret (d', b) /\ pauserehash d' = pauserehash d /\
    match M !! key with
    | None => b = true /\ dict_repr d' (<[key := stored val]> M)
    | Some _ => b = false /\ dict_repr d' M
    end.
Proof. apply dictAdd_spec. Qed.

(** A resize keeps the contents. *)
Lemma dictResize_spec d M :
  dict_repr d M -> Z.of_nat (size M) <= 2 ^ 60 -> exists d' b, dictResize d = Ret (d', b) /\ rehashed d d'.
Proof.
  intros Hr Hn. pose proof Hr as [Hwf _]. unfold dictResize. destruct (_ || _); [by eexists _, _|].
  pose proof (repr_size d M Hr) as Hsz. unfold dictSize in Hsz. pose proof (wf_used _ Hwf false). pose proof (wf_used _ Hwf true).
  destruct (dictExpand_spec d (if sel (ht_used d) false <? DICT_HT_INITIAL_SIZE then DICT_HT_INITIAL_SIZE else sel (ht_used d) false) Hwf)
    as (d' & b & E & Hre & _); [change DICT_HT_INITIAL_SIZE with 4; case_match; lia|]. by exists d', b.
Qed.

(** [dictReplace] refines insertion with overwriting and reports whether
    the key is new. *)
Theorem dictReplace_refines d M key val :
  no_value = false -> dict_repr d M -> Z.of_nat (size M) < 2 ^ 60 ->
  exists d', dictReplace d key val = Ret (d', bool_decide (M !! key = None)) /\
    dict_repr d' (<[key := Some val]> M).
Proof.
  intros Hnv Hr Hn. pose proof Hr as [Hwf Hp]. rewrite <- (repr_size d M Hr) in Hn. unfold dictReplace.
  destruct (dictAddRaw_spec d key Hwf Hn) as (d1 & r & -> & Hwf1 & Hpa & Hres). cbn [mbind res_bind].
  destruct r as [l|[l|]]; [| |done].
  - destruct Hres as (Hp1 & Hpt & Hnot). pose proof (repr_none d M key Hr Hnot) as Hnone.
    rewrite bool_decide_eq_true_2 by done.
    destruct (dictSetVal_spec d1 l key fresh_value val) as (d2 & R & -> & Hwf2 & Hc1 & Hc2 & Hpa2); try done.
    cbn [mbind res_bind]. eexists. split; [done|]. split; [done|]. rewrite Hc2. apply repr_insert; [done|].
    apply (Permutation_cons_inv (a := (key, fresh_value))). by rewrite <- Hc1, Hp1, Hp.
  - destruct Hres as (Hp1 & v & Hpt). pose proof (points_contents _ _ _ _ Hpt) as Hin. rewrite Hp1 in Hin.
    apply (repr_elem d M key v Hr) in Hin. rewrite bool_decide_eq_false_2 by congruence.
    destruct (dictGetVal_spec d1 l key v Hwf1 Hnv Hpt) as (w & _ & ->). cbn [mbind res_bind].
    destruct (dictSetVal_spec d1 l key v val) as (d2 & R & -> & Hwf2 & Hc1 & Hc2 & Hpa2); try done.
    cbn [mbind res_bind]. eexists. split; [done|]. split; [done|].
    rewrite Hc2. rewrite <- insert_delete_eq. apply repr_insert; [apply lookup_delete_eq|].
    apply (repr_delete R key v M). by rewrite <- Hc1, Hp1.
Qed.

(** Deletion, for the callers of [dictDelete] and [dictUnlink]. *)
Lemma dictDelete_spec d M key :
  dict_repr d M ->
  exists d' e, dictUnlink d key = Ret (d', e) /\
    dictDelete d key = Ret (d', bool_decide (is_Some (M !! key))) /\
    dict_repr d' (delete key M) /\
    match e with
    | Some c => exists v, M !! key = Some v /\ head_entry c = [(key, v)]
    | None => M !! key = None
    end.
Proof.
  intros Hr. pose proof Hr as [Hwf Hp]. unfold dictDelete, dictUnlink.
  destruct (dictGenericDelete_spec d key Hwf) as (d' & e & -> & Hwf' & _ & Hres).
  exists d', e. split; [done|]. cbn [mbind res_bind]. destruct e as [c|].
  - destruct Hres as (v & Hh & Hc). rewrite Hp in Hc. symmetry in Hc. apply repr_delete in Hc as [Hk Hc].
    rewrite bool_decide_eq_true_2 by (by exists v). split_and!; [done|by split|by exists v].
  - destruct Hres as (Hc & Hnot). pose proof (repr_none d M key Hr Hnot) as Hk.
    rewrite bool_decide_eq_false_2 by (rewrite Hk; by intros []). split_and!; [done| |done].
    rewrite delete_id by done. split; [done|]. by rewrite Hc.
Qed.

(** [dictDelete] and [dictUnlink] refine deletion from a finite map: they
    report whether the key was there, unlink exactly its entry, and keep the
    dictionary well formed, whichever table holds the entry. *)
Theorem dictDelete_refines d M key :
  dict_repr d M ->
  exists d' e, dictUnlink d key = Ret (d', e) /\
    dictDelete d key = Ret (d', bool_decide (is_Some (M !! key))) /\
    dict_repr d' (delete key M) /\
    match e with
    | Some c => exists v, M !! key = Some v /\ head_entry c = [(key, v)]
    | None => M !! key = None
    end.
Proof. apply dictDelete_spec. Qed.

(** [dictFind] and [dictFetchValue] return the value the map has for the
    key, and the rehashing step they perform changes no binding. *)
Theorem dictFind_refines d M key :
  no_value = false -> dict_repr d M ->
  exists d' l, dictFind d key = Ret (d', l) /\ dict_repr d' M /\
    match l with
    | Some l => exists v, M !! key = Some (Some v) /\ dictGetVal d' l = Ret v /\
        dictFetchValue d key = Ret (d', Some v)
    | None => M !! key = None /\ dictFetchValue d key = Ret (d', None)
    end.
Proof.
  intros Hnv Hr. pose proof Hr as [Hwf Hp]. unfold dictFetchValue.
  destruct (dictFind_spec d key Hwf) as (d' & l & -> & Hre & Hres).
  pose proof (repr_rehashed _ _ _ Hr Hre) as Hr'. pose proof Hr' as [Hwf' _].
  exists d', l. split; [done|]. split; [done|]. cbn [mbind res_bind]. destruct l as [l|].
  - destruct Hres as (v & Hpt). destruct (dictGetVal_spec d' l key v Hwf' Hnv Hpt) as (w & -> & E).
    apply points_contents, (repr_elem d' M key _ Hr') in Hpt. exists w. rewrite E. done.
  - split; [by apply (repr_none d')|done].
Qed.

(** The pair [dictTwoPhaseUnlinkFind] / [dictTwoPhaseUnlinkFree] deletes
    the key it finds, with rehashing paused in between, and restores the pause
    counter. *)
Theorem dictTwoPhaseUnlink_refines d M key :
  dict_repr d M ->
  exists d1 l, dictTwoPhaseUnlinkFind d key = Ret (d1, l) /\ dict_repr d1 M /\
    match l with
    | None => M !! key = None /\ pauserehash d1 = pauserehash d
    | Some l => is_Some (M !! key) /\ pauserehash d1 = pauserehash d + 1 /\
        exists d2, dictTwoPhaseUnlinkFree d1 (Some l) = Ret d2 /\ dict_repr d2 (delete key M) /\
          pauserehash d2 = pauserehash d
    end.
Proof.
  intros Hr. pose proof Hr as [Hwf Hp]. unfold dictTwoPhaseUnlinkFind.
  pose proof (dictFind_spec d key Hwf) as (d' & l & E & Hre & Hres). unfold dictFind in E.
  assert (Hb : forall d1, rehashed d d1 -> dict_repr (dictPauseRehashing d1) M).
  { intros d1 Hre1. destruct (repr_rehashed _ _ _ Hr Hre1) as [[Ht Hu Hrh Hpa] Hc]. split; [|done].
    constructor; [done|done|done|cbn; lia]. }
  destruct (dictSize d =? 0).
  { simplify_eq. eexists _, None. split; [done|]. split; [done|]. split; [|done]. by apply (repr_none d'). }
  destruct (step_if_rehashing d) as [d1| |] eqn:Es; [|done|done]. cbn [mbind res_bind] in *.
  destruct (search_tables d1 key) as [r| |] eqn:Ess; [|done|done]. cbn [mbind res_bind] in *. simplify_eq.
  pose proof Hre as (Hwf' & Hc' & Hpa'). destruct l as [l|].
  - destruct Hres as (v & Hpt). eexists _, _. split; [done|]. pose proof (Hb d' Hre) as Hr1.
    split; [done|]. pose proof (points_contents _ _ _ _ Hpt) as Hin.
    apply (repr_elem _ _ _ _ Hr1) in Hin. split; [by exists v|]. split; [cbn; lia|].
    pose proof (wf_pause _ Hwf). destruct Hr1 as [Hwf1 Hp1].
    destruct (dictTwoPhaseUnlinkFree_spec (dictPauseRehashing d') l key v) as (d2 & -> & Hwf2 & Hc2 & Hpa2);
      [done|done|cbn; lia|].
    exists d2. split; [done|]. rewrite Hp1 in Hc2. symmetry in Hc2. apply repr_delete in Hc2 as [_ Hc2].
    split; [by split|]. cbn in Hpa2. lia.
  - eexists _, None. split; [done|]. split; [by eapply repr_rehashed|]. split; [|done].
    apply (repr_none d'); [by eapply repr_rehashed|done].
Qed.

(** [dictEmpty] leaves the empty map. *)
Theorem dictEmpty_refines d M : dict_repr d M -> exists d', dictEmpty d = Ret d' /\ dict_repr d' ∅.
Proof.
  intros [Hwf _]. destruct (dictEmpty_spec d Hwf) as (d' & -> & Hwf' & Hc & _). exists d'.
  split; [done|]. split; [done|]. by rewrite Hc, map_to_list_empty.
Qed.

(** *** Completion of rehashing *)

(** [while(dictRehash(d,n));], the loop of [dictRehashMilliseconds] when the
    clock does not stop it. *)
Fixpoint rehash_all (fuel : nat) (d : dict) (n : nat) : res dict :=
  match fuel with
  | O => Diverge
  | S fuel => '(d, more) ← dictRehash d n; if more : bool then rehash_all fuel d n else Ret d
  end.

(** A call that leaves work advances the position. *)
Lemma dictRehash_progress d n :
  dict_wf d -> (0 < n)%nat -> dict_can_resize = DICT_RESIZE_ENABLE ->
  exists d' b, dictRehash d n = Ret (d', b) /\ rehashed d d' /\
    if b : bool then rehashidx d < rehashidx d' /\ ht_size_exp d' = ht_size_exp d /\ dictIsRehashing d' = true
    else dictIsRehashing d' = false.
Proof.
  intros Hwf Hn Hcr. destruct (dictRehash_spec d n Hwf) as (d' & b & E & Hre & Hb).
  exists d', b. split; [done|]. split; [done|]. unfold dictRehash in E.
  rewrite Hcr in E. cbn [bool_decide orb andb] in E.
  rewrite (bool_decide_eq_false_2 (DICT_RESIZE_ENABLE = DICT_RESIZE_FORBID)),
    (bool_decide_eq_false_2 (DICT_RESIZE_ENABLE = DICT_RESIZE_AVOID)) in E by done. cbn [orb andb] in E.
  destruct (dictIsRehashing d) eqn:Hrh; cbn [negb] in E; [|by simplify_eq].
  destruct (rehash_loop_spec n (n * 10) d Hwf Hrh) as (r & Er & Hr & Hex & Hle & Hpr).
  rewrite Er in E. cbn [mbind res_bind] in E.
  destruct r as [d1|d1].
  - simplify_eq. split_and!; [|done|by apply Hb]. destruct Hpr as [->|[Hz|]]; [lia| |done].
    exfalso. destruct n as [|n]; [lia|]. cbn [rehash_loop] in Er. rewrite Hz in Er. done.
  - destruct (Z.eqb_spec (sel (ht_used d1) false) 0) as [Hz|Hz]; simplify_eq; [done|].
    split_and!; [|done|by apply Hb]. destruct Hpr as [->|[Hz0|]]; [lia| |done].
    exfalso. destruct n as [|n]; [lia|]. cbn [rehash_loop] in Er. rewrite Hz0 in Er. simpl in Er. by simplify_eq.
Qed.

Lemma rehashidx_bound d : dict_wf d -> dictIsRehashing d = true ->
  0 <= rehashidx d <= DICTHT_SIZE (sel (ht_size_exp d) false).
Proof.
  intros Hwf Hre. rewrite (table_size d false Hwf). pose proof (wf_rehash _ Hwf) as Hr.
  unfold rehash_ok, dictIsRehashing in *. destruct (_ =? _); [done|]. destruct Hr as (H0 & _ & _ & Hb).
  split; [done|]. destruct (Z.to_nat (rehashidx d)) as [|m] eqn:Em; [lia|].
  specialize (Hb m ltac:(lia)). apply lookup_lt_Some in Hb. lia.
Qed.

Lemma rehash_all_spec fuel d n :
  dict_wf d -> (0 < n)%nat -> dict_can_resize = DICT_RESIZE_ENABLE -> dictIsRehashing d = true ->
  DICTHT_SIZE (sel (ht_size_exp d) false) - rehashidx d < Z.of_nat fuel ->
  exists d', rehash_all fuel d n = Ret d' /\ rehashed d d' /\ dictIsRehashing d' = false.
Proof.
  revert d. induction fuel as [|fuel IH]; intros d Hwf Hn Hcr Hrh Hf; pose proof (rehashidx_bound d Hwf Hrh); [lia|].
  cbn [rehash_all].
  destruct (dictRehash_progress d n Hwf Hn Hcr) as (d1 & b & -> & Hre & Hb). cbn [mbind res_bind].
  destruct b; [|by exists d1]. destruct Hb as (Hlt & Hex & Hrh1). pose proof Hre as (Hwf1 & _).
  destruct (IH d1 Hwf1 Hn Hcr Hrh1) as (d2 & -> & Hre2 & Hd); [rewrite Hex; lia|].
  exists d2. split; [done|]. split; [by eapply rehashed_trans|done].
Qed.

(** Incremental rehashing completes: when resizing is enabled, repeating
    [dictRehash] as long as it reports more work ends within one call per
    bucket, with a single table that holds exactly the same bindings. *)
Theorem dictRehash_completes d M n :
  dict_repr d M -> (0 < n)%nat -> dict_can_resize = DICT_RESIZE_ENABLE -> dictIsRehashing d = true ->
  exists d', rehash_all (S (Z.to_nat (DICTHT_SIZE (sel (ht_size_exp d) false)))) d n = Ret d' /\
    dict_repr d' M /\ dictIsRehashing d' = false.
Proof.
  intros Hr Hn Hcr Hrh. pose proof Hr as [Hwf _]. pose proof (rehashidx_bound d Hwf Hrh).
  destruct (rehash_all_spec (S (Z.to_nat (DICTHT_SIZE (sel (ht_size_exp d) false)))) d n) as (d' & -> & Hre & Hd);
    try done; [lia|].
  exists d'. split; [done|]. split; [by eapply repr_rehashed|done].
Qed.
End map.
End dict.

(** ** Instances of the theorems *)

(** A dictionary from integers to integers, hashed by their low bits, while its
    four buckets are moved to eight. *)
Definition demo_hash (k : Z) : Z := u64 k.
Definition demo_dict : dict Z Z :=
  Dict ([CNull; CNormal 1 10 CNull; CNormal 6 60 (CNormal 2 20 CNull); CNull],
        [CNull; CNull; CNull; CNull; CNormal 4 40 CNull; CNull; CNull; CNull])
       (3, 1) 1 0 (2, 3).
Definition demo_map : gmap Z (option Z) := {[1 := Some 10; 6 := Some 60; 2 := Some 20; 4 := Some 40]}.

Lemma demo_repr : dict_repr demo_hash false demo_dict demo_map.
Proof.
  assert (Hpl : forall (t : list (chain Z Z)) exp,
    (forall i c, t !! i = Some c -> Forall (fun e => index_of demo_hash exp e.1 = Z.of_nat i) (centries c)) ->
    forall i c k v, t !! i = Some c -> (k, v) ∈ centries c -> index_of demo_hash exp k = Z.of_nat i).
  { intros t exp H i c k v Hi Hin. specialize (H i c Hi). rewrite Forall_forall in H. by apply (H (k, v)). }
  split.
  - constructor.
    + intros []; (constructor; [cbn; lia|apply Hpl|repeat constructor]); intros i c Hi.
      * do 8 (destruct i as [|i]; [injection Hi as <-; repeat constructor|]). done.
      * do 4 (destruct i as [|i]; [injection Hi as <-; repeat constructor|]). done.
    + by intros [].
    + unfold rehash_ok. cbn. split_and!; try done. intros [|i] Hi; [done|]. exfalso. revert Hi. vm_compute. lia.
    + done.
  - unfold demo_map. rewrite !map_to_list_insert by (vm_compute; reflexivity). rewrite map_to_list_singleton. done.
Qed.

Definition demo_allowed (_ _ _ : Z) : bool := true.
Definition demo_odd (_ : Z) : bool := false.
Lemma demo_odd_keys : false = true -> forall k, demo_odd k = true.
Proof. discriminate. Qed.

Lemma dictAdd_refines_witness :
  exists d' b, dictAdd demo_hash false false demo_odd demo_allowed DICT_RESIZE_ENABLE 0 demo_dict 5 50 = Ret (d', b) /\
    pauserehash d' = pauserehash demo_dict /\ b = true /\
    dict_repr demo_hash false d' (<[5 := stored false 50]> demo_map).
Proof.
  exact (dictAdd_refines demo_hash false false demo_odd demo_allowed DICT_RESIZE_ENABLE 0 demo_odd_keys
    demo_dict demo_map 5 50 demo_repr ltac:(vm_compute; reflexivity)).
Defined.

Lemma dictReplace_refines_witness :
  exists d', dictReplace demo_hash false false demo_odd demo_allowed DICT_RESIZE_ENABLE 0 demo_dict 6 61 = Ret (d', false) /\
    dict_repr demo_hash false d' (<[6 := Some 61]> demo_map).
Proof.
  exact (dictReplace_refines demo_hash false false demo_odd demo_allowed DICT_RESIZE_ENABLE 0 demo_odd_keys
    demo_dict demo_map 6 61 eq_refl demo_repr ltac:(vm_compute; reflexivity)).
Defined.

Lemma dictDelete_refines_witness :
  exists d' e, dictUnlink demo_hash false false demo_odd DICT_RESIZE_AVOID demo_dict 2 = Ret (d', e) /\
    dictDelete demo_hash false false demo_odd DICT_RESIZE_AVOID demo_dict 2 = Ret (d', true) /\
    dict_repr demo_hash false d' (delete 2 demo_map) /\
    match e with
    | Some c => exists v, demo_map !! 2 = Some v /\ head_entry c = [(2, v)]
    | None => demo_map !! 2 = None
    end.
Proof.
  exact (dictDelete_refines demo_hash false false demo_odd DICT_RESIZE_AVOID demo_odd_keys
    demo_dict demo_map 2 demo_repr).
Defined.

Lemma dictFind_refines_witness :
  exists d' l, dictFind demo_hash false false demo_odd DICT_RESIZE_ENABLE demo_dict 4 = Ret (d', l) /\
    dict_repr demo_hash false d' demo_map /\
    match l with
    | Some l => exists v, demo_map !! 4 = Some (Some v) /\ dictGetVal d' l = Ret v /\
        dictFetchValue demo_hash false false demo_odd DICT_RESIZE_ENABLE demo_dict 4 = Ret (d', Some v)
    | None => demo_map !! 4 = None /\
        dictFetchValue demo_hash false false demo_odd DICT_RESIZE_ENABLE demo_dict 4 = Ret (d', None)
    end.
Proof.
  exact (dictFind_refines demo_hash false false demo_odd DICT_RESIZE_ENABLE demo_odd_keys
    demo_dict demo_map 4 eq_refl demo_repr).
Defined.

Lemma dictTwoPhaseUnlink_refines_witness :
  exists d1 l, dictTwoPhaseUnlinkFind demo_hash false false demo_odd DICT_RESIZE_ENABLE demo_dict 6 = Ret (d1, l) /\
    dict_repr demo_hash false d1 demo_map /\
    match l with
    | None => demo_map !! 6 = None /\ pauserehash d1 = pauserehash demo_dict
    | Some l => is_Some (demo_map !! 6) /\ pauserehash d1 = pauserehash demo_dict + 1 /\
        exists d2, dictTwoPhaseUnlinkFree d1 (Some l) = Ret d2 /\
          dict_repr demo_hash false d2 (delete 6 demo_map) /\ pauserehash d2 = pauserehash demo_dict
    end.
Proof.
  exact (dictTwoPhaseUnlink_refines demo_hash false false demo_odd DICT_RESIZE_ENABLE demo_odd_keys
    demo_dict demo_map 6 demo_repr).
Defined.

Lemma dictRehash_completes_witness :
  exists d', rehash_all demo_hash false false demo_odd DICT_RESIZE_ENABLE 5 demo_dict 1 = Ret d' /\
    dict_repr demo_hash false d' demo_map /\ dictIsRehashing d' = false.
Proof.
  exact (dictRehash_completes demo_hash false false demo_odd DICT_RESIZE_ENABLE demo_odd_keys
    demo_dict demo_map 1 demo_repr ltac:(lia) eq_refl eq_refl).
Defined.
