(* ===== verification/DictScan.v ===== *)
(** * The stateless iteration of Redis' hash table ([dictScan] of [dict.c])

    [dictScan] is called with the cursor its previous call returned, while
    the table may have been resized any number of times in between.  The
    cursor is incremented on its reversed bits.  Seen through [rev], a cursor
    is a position on a line, a table of [2^k] buckets cuts the line into
    [2^k] intervals, and a call emits everything from the position to the end
    of its interval, whatever the table sizes are. *)
From S2P Require Import Prelude Dict.

Local Open Scope Z_scope.

(** ** The code *)

(** [mask ^= (mask << s); v = ((v >> s) & mask) | ((v << s) & ~mask);] *)
Definition rev_mask (mask s : Z) : Z := Z.lxor mask (u64 (Z.shiftl mask s)).
Definition rev_step (mask s v : Z) : Z :=
  Z.lor (Z.land (Z.shiftr v s) mask) (Z.land (u64 (Z.shiftl v s)) (u64 (Z.lnot mask))).

(** [while ((s >>= 1) > 0)]: six iterations from 64. *)
Fixpoint rev_loop (fuel : nat) (s mask v : Z) : Z :=
  match fuel with
  | O => v
  | S fuel =>
      let s := Z.shiftr s 1 in
      if 0 <? s then let mask := rev_mask mask s in rev_loop fuel s mask (rev_step mask s v) else v
  end.

Definition rev (v : Z) : Z := rev_loop 7 64 (2 ^ 64 - 1) v.

(** [v |= ~m; v = rev(v); v++; v = rev(v);] *)
Definition next_cursor (v m : Z) : Z := rev (u64 (rev (Z.lor v (u64 (Z.lnot m))) + 1)).

Section scan.
Context {K V : Type} `{EqDecision K} (hashFunction : K -> Z) (no_value : bool).

(** [do ... while (v & (m0 ^ m1))]: the buckets of the larger table. *)
Fixpoint expansion_loop (fuel : nat) (d : dict K V) (t : bool) (m0 m1 v : Z)
    : res (Z * list (K * option V)) :=
  match fuel with
  | O => Diverge
  | S fuel =>
      de ← bucket d t (Z.land v m1);
      let v := next_cursor v m1 in
      if negb (Z.land v (Z.lxor m0 m1) =? 0) then
        '(v, es) ← expansion_loop fuel d t m0 m1 v; Ret (v, centries de ++ es)
      else Ret (v, centries de)
  end.

(** The new cursor, and the entries passed to the callback.  Rehashing is
    paused during the call, so the callback's lookups do not move entries. *)
Definition dictScan (d : dict K V) (v : Z) : res (Z * list (K * option V)) :=
  if dictSize d =? 0 then Ret (0, []) else
  let size t := DICTHT_SIZE (sel (ht_size_exp d) t) in
  let mask t := DICTHT_SIZE_MASK (sel (ht_size_exp d) t) in
  if negb (dictIsRehashing d) then
    let m0 := mask false in
    de ← bucket d false (Z.land v m0);
    Ret (next_cursor v m0, centries de)
  else
    let '(htidx0, htidx1) := if size true <? size false then (true, false) else (false, true) in
    let m0 := mask htidx0 in
    let m1 := mask htidx1 in
    de ← bucket d htidx0 (Z.land v m0);
    '(v, es) ← expansion_loop (length (sel (ht_table d) htidx1)) d htidx1 m0 m1 v;
    Ret (v, centries de ++ es).

(** A client's iteration: one call per state of the dictionary, from the
    cursor 0 until the cursor is 0 again.  [None]: the states ran out first. *)
Fixpoint scan_all (ds : list (dict K V)) (v : Z) : res (option (list (K * option V))) :=
  match ds with
  | [] => Ret None
  | d :: ds =>
      '(v, es) ← dictScan d v;
      if v =? 0 then Ret (Some es)
      else r ← scan_all ds v; Ret (match r with Some es' => Some (es ++ es') | None => None end)
  end.
End scan.

(** ** Reversing bits *)

Lemma u64_lnot_bit m i : 0 <= i < 64 -> Z.testbit (u64 (Z.lnot m)) i = negb (Z.testbit m i).
Proof. intros Hi. unfold uwrap. rewrite Z.mod_pow2_bits_low by lia. apply Z.lnot_spec. lia. Qed.

Lemma rev_step_bit mask s v i : 0 <= s -> 0 <= i < 64 ->
  Z.testbit (rev_step mask s v) i
  = Z.testbit v (if Z.testbit mask i then i + s else i - s).
Proof.
  intros Hs Hi. unfold rev_step. rewrite Z.lor_spec, !Z.land_spec, Z.shiftr_spec by lia.
  rewrite u64_lnot_bit by done. unfold uwrap. rewrite Z.mod_pow2_bits_low, Z.shiftl_spec by lia.
  destruct (Z.testbit mask i); cbn [negb]; by rewrite ?andb_true_r, ?andb_false_r, ?orb_false_r.
Qed.

Lemma rev_step_range mask s v : 0 <= mask < 2 ^ 64 -> 0 <= rev_step mask s v < 2 ^ 64.
Proof.
  intros Hm. apply bits_range; [lia|]. intros i Hi. unfold rev_step.
  rewrite Z.lor_spec, !Z.land_spec, (testbit_high mask 64) by lia.
  rewrite (testbit_high (u64 (Z.shiftl v s)) 64) by (try lia; apply uwrap_range; lia).
  by rewrite andb_false_r.
Qed.

(** The six masks; every step exchanges bit [i] with bit [i xor s]. *)
Definition rev_masks : list (Z * Z) := Eval vm_compute in
  (fix go (n : nat) (s mask : Z) := match n with O => [] | S n =>
     let s := Z.shiftr s 1 in let mask := rev_mask mask s in (s, mask) :: go n s mask end) 6%nat 64 (2 ^ 64 - 1).

Lemma rev_unfold v : rev v = fold_left (fun v sm => rev_step sm.2 sm.1 v) rev_masks v.
Proof. reflexivity. Qed.

Lemma rev_step_xor s mask v i : (s, mask) ∈ rev_masks -> 0 <= i < 64 ->
  Z.testbit (rev_step mask s v) i = Z.testbit v (Z.lxor i s) /\ 0 <= Z.lxor i s < 64.
Proof.
  intros Hin Hi.
  assert (Hall : forallb (fun sm => (0 <=? sm.1) && forallb (fun n => let i := Z.of_nat n in
    ((if Z.testbit sm.2 i then i + sm.1 else i - sm.1) =? Z.lxor i sm.1) && (0 <=? Z.lxor i sm.1) && (Z.lxor i sm.1 <? 64))
    (seq 0 64)) rev_masks = true) by (vm_compute; reflexivity).
  rewrite forallb_forall in Hall. apply list_elem_of_In in Hin. specialize (Hall _ Hin). cbn [fst snd] in Hall.
  apply andb_prop in Hall as [Hs%Z.leb_le Hall]. rewrite forallb_forall in Hall.
  specialize (Hall (Z.to_nat i)). rewrite in_seq, Z2Nat.id in Hall by lia. specialize (Hall ltac:(lia)).
  apply andb_prop in Hall as [[H1%Z.eqb_eq H2%Z.leb_le]%andb_prop H3%Z.ltb_lt].
  rewrite rev_step_bit by done. by rewrite H1.
Qed.

Lemma rev_fold_bit l v i : (forall sm, sm ∈ l -> sm ∈ rev_masks) -> 0 <= i < 64 ->
  Z.testbit (fold_left (fun v sm => rev_step sm.2 sm.1 v) l v) i
  = Z.testbit v (fold_right (fun sm i => Z.lxor i sm.1) i l) /\
  0 <= fold_right (fun sm i => Z.lxor i sm.1) i l < 64.
Proof.
  revert v i. induction l as [|[s m] l IH]; intros v i Hl Hi; [done|]. cbn [fold_left fold_right fst snd].
  destruct (IH (rev_step m s v) i) as [E Hr]; [intros sm Hsm; apply Hl; by right|done|]. rewrite E.
  apply rev_step_xor; [apply Hl; left|done].
Qed.

(** [rev] reverses the 64 bits. *)
Lemma rev_bit v i : 0 <= i < 64 -> Z.testbit (rev v) i = Z.testbit v (63 - i).
Proof.
  intros Hi. rewrite rev_unfold. destruct (rev_fold_bit rev_masks v i) as [-> _]; [done|done|]. f_equal.
  assert (Hall : forallb (fun n => fold_right (fun sm i => Z.lxor i sm.1) (Z.of_nat n) rev_masks =? 63 - Z.of_nat n) (seq 0 64) = true)
    by (vm_compute; reflexivity).
  rewrite forallb_forall in Hall. specialize (Hall (Z.to_nat i)). rewrite in_seq, Z2Nat.id in Hall by lia.
  apply Z.eqb_eq, Hall. lia.
Qed.

Lemma rev_range v : 0 <= rev v < 2 ^ 64.
Proof.
  rewrite rev_unfold. unfold rev_masks. cbn [fold_left]. apply rev_step_range. cbn. lia.
Qed.

Lemma rev_involutive v : 0 <= v < 2 ^ 64 -> rev (rev v) = v.
Proof.
  intros Hv. apply (bits_eq 64); [apply rev_range|done|]. intros i Hi.
  rewrite !rev_bit by lia. f_equal. lia.
Qed.

Lemma rev_zero v : 0 <= v < 2 ^ 64 -> rev v = 0 <-> v = 0.
Proof.
  intros Hv. split; [|intros ->; reflexivity]. intros E. rewrite <- (rev_involutive v Hv), E. reflexivity.
Qed.

(** ** Cursors as positions *)

(** The length of the interval of a bucket in a table of [2^k] buckets, and
    the end of the interval that contains [r]. *)
Definition width (k : Z) : Z := 2 ^ (64 - k).
Definition interval_end (k r : Z) : Z := (r / width k + 1) * width k.

Lemma interval_width_pos k : 0 <= k <= 64 -> 0 < width k.
Proof. intros H. unfold width. apply Z.pow_pos_nonneg; lia. Qed.

Lemma interval_bounds k r : 0 <= k <= 64 -> r / width k * width k <= r < interval_end k r.
Proof.
  intros Hk. pose proof (interval_width_pos k Hk) as Hw. unfold interval_end.
  pose proof (Z.mul_div_le r (width k) Hw). pose proof (Z.mul_succ_div_gt r (width k) Hw). lia.
Qed.

(** Two hashes are in the same bucket when they are in the same interval. *)
Lemma same_interval k v h : 0 <= k <= 64 -> rev v / width k = rev h / width k ->
  Z.land v (Z.ones k) = Z.land h (Z.ones k).
Proof.
  intros Hk E. apply Z.bits_inj'. intros i Hi. rewrite !Z.land_spec.
  destruct (decide (i < k)); [|by rewrite Z.ones_spec_high, !andb_false_r by lia].
  rewrite Z.ones_spec_low, !andb_true_r by lia. unfold width in E. rewrite <- !Z.shiftr_div_pow2 in E by lia.
  assert (Hb : Z.testbit (Z.shiftr (rev v) (64 - k)) (k - 1 - i) = Z.testbit (Z.shiftr (rev h) (64 - k)) (k - 1 - i))
    by (by rewrite E).
  rewrite !Z.shiftr_spec, !rev_bit in Hb by lia. by replace (63 - (k - 1 - i + (64 - k))) with i in Hb by lia.
Qed.

(** Incrementing the reversed cursor goes to the end of the interval. *)
Lemma rev_next k v : 0 <= k <= 64 -> 0 <= v < 2 ^ 64 ->
  rev (next_cursor v (Z.ones k)) = interval_end k (rev v) mod 2 ^ 64.
Proof.
  intros Hk Hv. unfold next_cursor. rewrite rev_involutive by (apply uwrap_range; lia). unfold uwrap. f_equal.
  enough (E : rev (Z.lor v (Z.lnot (Z.ones k) mod 2 ^ 64)) = rev v / width k * width k + (width k - 1))
    by (rewrite E; unfold interval_end; lia).
  pose proof (interval_width_pos k Hk). pose proof (rev_range v).
  unfold width in *. rewrite <- Z.shiftr_div_pow2 by lia.
  rewrite <- lor_shiftl_add by lia.
  assert (Hr : 0 <= Z.lor (Z.shiftl (Z.shiftr (rev v) (64 - k)) (64 - k)) (2 ^ (64 - k) - 1) < 2 ^ 64).
  { apply bits_range; [lia|]. intros i Hi.
    rewrite Z.lor_spec, Z.shiftl_spec, Z.shiftr_spec by lia.
    rewrite (testbit_high (rev v) 64), (testbit_high _ (64 - k)) by lia. done. }
  apply (bits_eq 64); [apply rev_range|done|]. intros i Hi.
  rewrite rev_bit by lia. rewrite !Z.lor_spec. fold (u64 (Z.lnot (Z.ones k))). rewrite u64_lnot_bit by lia.
  replace (2 ^ (64 - k) - 1) with (Z.ones (64 - k)) by (rewrite Z.ones_equiv; lia).
  rewrite Z.shiftl_spec by lia. destruct (decide (i < 64 - k)).
  - rewrite Z.ones_spec_high by lia. rewrite (Z.ones_spec_low (64 - k)) by lia. by rewrite !orb_true_r.
  - rewrite Z.ones_spec_low by lia. rewrite (Z.ones_spec_high (64 - k)) by lia. cbn [negb]. rewrite !orb_false_r.
    rewrite Z.shiftr_spec, rev_bit by lia. f_equal. lia.
Qed.

(** The position a cursor stands for when it is returned: the end of the line
    for 0. *)
Definition pos_end (v : Z) : Z := if v =? 0 then 2 ^ 64 else rev v.

Lemma interval_end_le k r : 0 <= k <= 64 -> 0 <= r < 2 ^ 64 -> interval_end k r <= 2 ^ 64.
Proof.
  intros Hk Hr. pose proof (interval_width_pos k Hk). unfold interval_end.
  assert (E : 2 ^ 64 = 2 ^ k * width k) by (unfold width; rewrite <- Z.pow_add_r by lia; f_equal; lia).
  assert (r / width k < 2 ^ k) by (apply Z.div_lt_upper_bound; lia). nia.
Qed.

Lemma next_cursor_pos k v : 0 <= k <= 64 -> 0 <= v < 2 ^ 64 ->
  0 <= next_cursor v (Z.ones k) < 2 ^ 64 /\
  pos_end (next_cursor v (Z.ones k)) = interval_end k (rev v).
Proof.
  intros Hk Hv. set (v' := next_cursor v (Z.ones k)).
  assert (Hr : 0 <= v' < 2 ^ 64) by apply rev_range. split; [done|].
  pose proof (rev_next k v Hk Hv) as E. fold v' in E.
  pose proof (rev_range v) as Hrv. pose proof (interval_end_le k _ Hk Hrv). pose proof (interval_bounds k (rev v) Hk).
  unfold pos_end. destruct (Z.eqb_spec v' 0) as [E0|Hne].
  - rewrite E0 in E. change (rev 0) with 0 in E. destruct (decide (interval_end k (rev v) = 2 ^ 64)); [done|].
    rewrite Z.mod_small in E by lia. lia.
  - rewrite E. apply Z.mod_small. split; [lia|]. destruct (decide (interval_end k (rev v) = 2 ^ 64)) as [E1|]; [|lia].
    rewrite E1, Z.mod_same in E by lia. apply (proj1 (rev_zero v' Hr)) in E. lia.
Qed.

Lemma mod_pow2_zero x n : 0 <= n -> x mod 2 ^ n = 0 <-> forall i, 0 <= i < n -> Z.testbit x i = false.
Proof.
  intros Hn. split.
  - intros E i Hi. rewrite <- (Z.mod_pow2_bits_low x n i) by lia. rewrite E. apply Z.bits_0.
  - intros H. apply (bits_eq n); [apply Z.mod_pos_bound; lia|lia|]. intros i Hi.
    rewrite Z.mod_pow2_bits_low, Z.bits_0 by lia. by apply H.
Qed.

Lemma lxor_ones_bit k0 k1 i : 0 <= k0 <= k1 -> 0 <= i ->
  Z.testbit (Z.lxor (Z.ones k0) (Z.ones k1)) i = (k0 <=? i) && (i <? k1).
Proof.
  intros Hk Hi. rewrite Z.lxor_spec.
  destruct (Z.leb_spec k0 i), (Z.ltb_spec i k1);
    rewrite ?Z.ones_spec_high, ?Z.ones_spec_low by lia; try done; lia.
Qed.

(** The test that ends the inner loop: the cursor is back at a boundary of
    the smaller table. *)
Lemma boundary_test k0 k1 v : 0 <= k0 <= k1 -> k1 <= 64 -> 0 <= v < 2 ^ 64 -> rev v mod width k1 = 0 ->
  Z.land v (Z.lxor (Z.ones k0) (Z.ones k1)) = 0 <-> rev v mod width k0 = 0.
Proof.
  intros Hk Hk1 Hv H1. unfold width in *. rewrite mod_pow2_zero in * by lia. split.
  - intros E i Hi. destruct (decide (i < 64 - k1)); [apply H1; lia|].
    assert (Hb : Z.testbit (Z.land v (Z.lxor (Z.ones k0) (Z.ones k1))) (63 - i) = false) by (rewrite E; apply Z.bits_0).
    rewrite Z.land_spec, lxor_ones_bit in Hb by lia. rewrite rev_bit by lia.
    rewrite (proj2 (Z.leb_le _ _)), (proj2 (Z.ltb_lt _ _)), andb_true_r in Hb by lia. done.
  - intros H. apply Z.bits_inj'. intros i Hi. rewrite Z.land_spec, lxor_ones_bit, Z.bits_0 by lia.
    destruct (Z.leb_spec k0 i), (Z.ltb_spec i k1); cbn [andb]; rewrite ?andb_false_r, ?andb_true_r; try done.
    specialize (H (63 - i) ltac:(lia)). rewrite rev_bit in H by lia. by replace (63 - (63 - i)) with i in H by lia.
Qed.

Lemma width_divide k0 k1 : 0 <= k0 <= k1 -> k1 <= 64 -> (width k1 | width k0).
Proof. intros H0 H1. exists (2 ^ (k1 - k0)). unfold width. rewrite <- Z.pow_add_r by lia. f_equal. lia. Qed.

(** Stepping through the intervals of the larger table inside one interval of
    the smaller. *)
Lemma interval_step k0 k1 r : 0 <= k0 <= k1 -> k1 <= 64 ->
  let r1 := interval_end k1 r in
  r1 <= interval_end k0 r /\
  (r1 mod width k0 = 0 -> r1 = interval_end k0 r) /\
  (r1 mod width k0 <> 0 -> interval_end k0 r1 = interval_end k0 r).
Proof.
  intros H0 H1 r1. destruct (width_divide k0 k1 H0 H1) as [c Hc].
  pose proof (interval_width_pos k0 ltac:(lia)) as Hw0. pose proof (interval_width_pos k1 ltac:(lia)) as Hw1.
  pose proof (interval_bounds k0 r ltac:(lia)) as Hb0. pose proof (interval_bounds k1 r ltac:(lia)) as Hb1.
  assert (Hle : r1 <= interval_end k0 r).
  { unfold r1, interval_end in *. rewrite Hc in *. 
    assert (r / width k1 < (r / (c * width k1) + 1) * c) by (apply Z.div_lt_upper_bound; nia). nia. }
  split; [done|]. fold r1 in Hb1. unfold interval_end in Hle, Hb0. split.
  - intros Hm. apply Z.mod_divide in Hm as [m Hm]; [|lia]. unfold interval_end. rewrite Hm in *.
    f_equal. nia.
  - intros Hm. unfold interval_end. do 2 f_equal.
    assert (r1 <> (r / width k0 + 1) * width k0) by (intros E; apply Hm; rewrite E; apply Z.mod_mul; lia).
    symmetry. apply (Z.div_unique _ _ _ (r1 - r / width k0 * width k0)); lia.
Qed.

(** The test on the new cursor is a test on the end of the interval. *)
Lemma loop_test k0 k1 v : 0 <= k0 <= k1 -> k1 <= 64 -> 0 <= v < 2 ^ 64 ->
  Z.land (next_cursor v (Z.ones k1)) (Z.lxor (Z.ones k0) (Z.ones k1)) = 0
  <-> interval_end k1 (rev v) mod width k0 = 0.
Proof.
  intros H0 H1 Hv. pose proof (rev_next k1 v ltac:(lia) Hv) as E.
  assert (Hd : forall k, 0 <= k <= 64 -> (width k | 2 ^ 64)).
  { intros k Hk. apply (width_divide 0 k); lia. }
  rewrite (boundary_test k0 k1); [|done|done|apply rev_range|].
  - rewrite E. by rewrite Z.mod_mod_divide by (apply Hd; lia).
  - rewrite E, Z.mod_mod_divide by (apply Hd; lia). apply Z.mod_mul. pose proof (interval_width_pos k1). lia.
Qed.

(** ** One call *)

Section scan_proofs.
Context {K V : Type} `{EqDecision K} (hashFunction : K -> Z) (no_value : bool).
Local Abbreviation dict := (dict K V).
Local Abbreviation dict_wf := (dict_wf hashFunction no_value).

(** [es] has every entry of [l] between two positions, and only such of [all]. *)
Definition covers (l : list (K * option V)) (r1 r2 : Z) (es : list (K * option V)) : Prop :=
  forall k x, (k, x) ∈ l -> r1 <= rev (hashFunction k) < r2 -> (k, x) ∈ es.

Lemma covers_app l r1 r2 r3 es1 es2 : covers l r1 r2 es1 -> covers l r2 r3 es2 -> covers l r1 r3 (es1 ++ es2).
Proof.
  intros H1 H2 k x Hin Hr. apply elem_of_app.
  destruct (decide (rev (hashFunction k) < r2)); [left; apply H1; auto; lia|right; apply H2; auto; lia].
Qed.

Lemma covers_mono l r1 r2 es es' : (forall e, e ∈ es -> e ∈ es') -> covers l r1 r2 es -> covers l r1 r2 es'.
Proof. intros Hs H k x Hin Hr. by apply Hs, H. Qed.

Definition table_exp (d : dict) (t : bool) : Z := sel (ht_size_exp d) t.

(** The bucket of the cursor holds what the table has up to the end of the
    interval. *)
Lemma emit_bucket (d : dict) t v :
  dict_wf d -> table_exp d t <> -1 -> 0 <= v < 2 ^ 64 ->
  exists de, bucket d t (Z.land v (DICTHT_SIZE_MASK (table_exp d t))) = Ret de /\
    covers (tentries (sel (ht_table d) t)) (rev v) (interval_end (table_exp d t) (rev v)) (centries de) /\
    (forall e, e ∈ centries de -> e ∈ tentries (sel (ht_table d) t)).
Proof.
  intros Hwf He Hv. pose proof (wf_table _ _ _ Hwf t) as Ht. unfold table_exp in *.
  pose proof (to_size _ _ _ _ Ht) as Hs. rewrite (proj2 (Z.eqb_neq _ _)) in Hs by done. destruct Hs as [Hexp Hlen].
  rewrite MASK_ones by lia.
  assert (Hidx : 0 <= Z.land v (Z.ones (sel (ht_size_exp d) t)) < Z.of_nat (length (sel (ht_table d) t))).
  { rewrite Hlen, Z.land_ones by lia. apply Z.mod_pos_bound. lia. }
  destruct (aget_bucket _ _ Hidx) as (de & Hde & E). exists de. split; [done|]. split.
  - intros k x Hin Hr. apply (elem_bucket hashFunction no_value (sel (ht_size_exp d) t)) in Hin as (c & Hc & Hin); [|done].
    assert (Hsame : Z.land v (Z.ones (sel (ht_size_exp d) t)) = Z.land (hashFunction k) (Z.ones (sel (ht_size_exp d) t))).
    { apply same_interval; [lia|]. set (kk := sel (ht_size_exp d) t) in *.
      pose proof (interval_width_pos kk ltac:(lia)). pose proof (interval_bounds kk (rev v) ltac:(lia)). unfold interval_end in Hr.
      apply (Z.div_unique _ _ _ (rev (hashFunction k) - rev v / width kk * width kk)); lia. }
    unfold index_of in Hc. rewrite MASK_ones, <- Hsame in Hc by lia. by simplify_eq.
  - intros e Hin. apply elem_tentries. eauto.
Qed.

Lemma expansion_loop_spec fuel (d : dict) t k0 v :
  dict_wf d -> 0 <= k0 <= table_exp d t -> 0 <= v < 2 ^ 64 ->
  interval_end k0 (rev v) - rev v / width (table_exp d t) * width (table_exp d t) <= Z.of_nat fuel * width (table_exp d t) ->
  exists v' es, expansion_loop fuel d t (Z.ones k0) (DICTHT_SIZE_MASK (table_exp d t)) v = Ret (v', es) /\
    0 <= v' < 2 ^ 64 /\ pos_end v' = interval_end k0 (rev v) /\
    covers (tentries (sel (ht_table d) t)) (rev v) (interval_end k0 (rev v)) es /\
    (forall e, e ∈ es -> e ∈ tentries (sel (ht_table d) t)).
Proof.
  intros Hwf Hk. set (k1 := table_exp d t) in *.
  assert (Hk1 : k1 <= 60).
  { pose proof (to_size _ _ _ _ (wf_table _ _ _ Hwf t)) as Hs. unfold k1, table_exp in *.
    rewrite (proj2 (Z.eqb_neq _ _)) in Hs by lia. lia. }
  assert (Hw : 0 < width k1) by (apply interval_width_pos; lia).
  revert v. induction fuel as [|fuel IH]; intros v Hv Hf; pose proof (interval_bounds k0 (rev v) ltac:(lia));
    pose proof (Z.mul_div_le (rev v) (width k1) Hw); [lia|].
  cbn [expansion_loop]. destruct (emit_bucket d t v Hwf ltac:(fold k1; lia) Hv) as (de & E & Hcov & Hsub).
  fold k1 in E, Hcov. rewrite E. cbn [mbind res_bind]. rewrite MASK_ones in * by lia.
  destruct (next_cursor_pos k1 v ltac:(lia) Hv) as [Hv' Hpos]. set (v' := next_cursor v (Z.ones k1)) in *.
  pose proof (loop_test k0 k1 v Hk ltac:(lia) Hv) as Htest. fold v' in Htest.
  destruct (interval_step k0 k1 (rev v) Hk ltac:(lia)) as (Hle & Hend & Hmore).
  pose proof (interval_bounds k1 (rev v) ltac:(lia)) as Hb1.
  destruct (Z.eqb_spec (Z.land v' (Z.lxor (Z.ones k0) (Z.ones k1))) 0) as [Hz|Hnz]; cbn [negb].
  - apply Htest, Hend in Hz. rewrite Hz in Hpos, Hcov. eexists _, _. split; [done|]. split; [done|]. done.
  - assert (Hm : interval_end k1 (rev v) mod width k0 <> 0) by (by rewrite <- Htest).
    specialize (Hmore Hm).
    assert (Hr' : rev v' = interval_end k1 (rev v)).
    { rewrite <- Hpos. unfold pos_end. destruct (Z.eqb_spec v' 0) as [E0|]; [|done].
      exfalso. apply Hnz. by rewrite E0. }
    destruct (IH v' Hv') as (v2 & es & -> & Hv2 & Hpos2 & Hcov2 & Hsub2).
    { rewrite Hr', Hmore. unfold interval_end at 2. rewrite Z.div_mul by lia. lia. }
    cbn [mbind res_bind]. rewrite Hr', Hmore in *. eexists _, _. split; [done|]. split_and!; try done; try lia.
    + eapply covers_app; done.
    + intros e [He|He]%elem_of_app; auto.
Qed.

Lemma pos_end_zero : pos_end 0 = 2 ^ 64.
Proof. reflexivity. Qed.

Lemma interval_end_aligned k E r : 0 <= k <= E -> E <= 64 -> interval_end k r mod width E = 0.
Proof.
  intros Hk HE. unfold interval_end. destruct (width_divide k E Hk HE) as [c ->].
  rewrite Z.mul_assoc. apply Z.mod_mul. pose proof (interval_width_pos E ltac:(lia)). lia.
Qed.

(** No table of the dictionary has more than [2^E] buckets. *)
Definition exps_le (E : Z) (d : dict) : Prop := forall t, table_exp d t <= E.

(** What a call promises. *)
Definition scan_ok (E : Z) (d : dict) (v : Z) (r : res (Z * list (K * option V))) : Prop :=
  exists v' es, r = Ret (v', es) /\ 0 <= v' < 2 ^ 64 /\
    rev v < pos_end v' /\ pos_end v' mod width E = 0 /\
    covers (contents d) (rev v) (pos_end v') es /\ (forall e, e ∈ es -> e ∈ contents d).

Lemma table_exp_ok (d : dict) t : dict_wf d -> table_exp d t <> -1 ->
  0 <= table_exp d t <= 60 /\ Z.of_nat (length (sel (ht_table d) t)) = 2 ^ table_exp d t.
Proof.
  intros Hwf Ht. pose proof (to_size _ _ _ _ (wf_table _ _ _ Hwf t)) as Hs. unfold table_exp in *.
  by rewrite (proj2 (Z.eqb_neq _ _)) in Hs by done.
Qed.

Lemma elem_contents (d : dict) t e :
  e ∈ contents d <-> e ∈ tentries (sel (ht_table d) t) \/ e ∈ tentries (sel (ht_table d) (negb t)).
Proof. unfold contents. rewrite elem_of_app. destruct t; cbn [negb]; tauto. Qed.

(** Both tables, the smaller one first. *)
Lemma scan_two_tables E (d : dict) t v :
  dict_wf d -> exps_le E d -> 0 <= E <= 64 -> 0 <= v < 2 ^ 64 ->
  table_exp d t <> -1 -> table_exp d (negb t) <> -1 -> table_exp d t <= table_exp d (negb t) ->
  scan_ok E d v
    (de ← bucket d t (Z.land v (DICTHT_SIZE_MASK (table_exp d t)));
     '(v, es) ← expansion_loop (length (sel (ht_table d) (negb t))) d (negb t)
        (DICTHT_SIZE_MASK (table_exp d t)) (DICTHT_SIZE_MASK (table_exp d (negb t))) v;
     Ret (v, centries de ++ es)).
Proof.
  intros Hwf HE HE0 Hv Ht0 Ht1 Hle.
  destruct (table_exp_ok d t Hwf Ht0) as [Hk0 _]. destruct (table_exp_ok d (negb t) Hwf Ht1) as [Hk1 Hlen].
  destruct (emit_bucket d t v Hwf Ht0 Hv) as (de & -> & Hcov & Hsub). cbn [mbind res_bind].
  rewrite (MASK_ones (table_exp d t)) by lia. pose proof (rev_range v) as Hrv.
  destruct (expansion_loop_spec (length (sel (ht_table d) (negb t))) d (negb t) (table_exp d t) v)
    as (v' & es & -> & Hv' & Hpos & Hcov' & Hsub'); [done|lia|done| |].
  { rewrite Hlen. pose proof (interval_end_le (table_exp d t) (rev v) ltac:(lia) Hrv).
    pose proof (interval_width_pos (table_exp d (negb t)) ltac:(lia)).
    assert (2 ^ 64 = 2 ^ table_exp d (negb t) * width (table_exp d (negb t)))
      by (unfold width; rewrite <- Z.pow_add_r by lia; f_equal; lia).
    assert (0 <= rev v / width (table_exp d (negb t))) by (apply Z.div_pos; lia). nia. }
  cbn [mbind res_bind]. eexists _, _. split; [done|]. rewrite Hpos.
  pose proof (interval_bounds (table_exp d t) (rev v) ltac:(lia)).
  split; [done|]. split; [lia|]. split; [apply interval_end_aligned; [split; [lia|apply HE]|lia]|]. split.
  - intros k x Hin Hr. apply elem_of_app. apply (elem_contents d t) in Hin as [Hin|Hin]; [left; by apply Hcov|right; by apply Hcov'].
  - intros e He. apply (elem_contents d t). apply elem_of_app in He as [He|He]; auto.
Qed.

Lemma dictScan_spec E (d : dict) v :
  dict_wf d -> exps_le E d -> 0 <= E <= 64 -> 0 <= v < 2 ^ 64 -> scan_ok E d v (dictScan d v).
Proof.
  intros Hwf HE HE0 Hv. unfold dictScan. destruct (Z.eqb_spec (dictSize d) 0) as [Hz|Hn].
  { eexists _, _. split; [done|]. rewrite pos_end_zero. pose proof (rev_range v).
    split; [lia|]. split; [lia|]. split; [apply (interval_end_aligned 0 E 0); lia|].
    rewrite (dictSize_contents hashFunction no_value) in Hz by done.
    assert (contents d = []) as -> by (apply nil_length_inv; lia). split; [|by intros e ?%elem_of_nil].
    intros k x Hin. by apply elem_of_nil in Hin. }
  pose proof (nonempty_exp0 _ _ _ Hwf Hn) as He0.
  destruct (dictIsRehashing d) eqn:Hre; cbn [negb].
  - pose proof (rehash_exp1 _ _ _ Hwf Hre) as He1.
    destruct (table_exp_ok d false Hwf He0) as [H0 _]. destruct (table_exp_ok d true Hwf He1) as [H1 _]. unfold table_exp in *.
    rewrite !SIZE_pow by lia.
    destruct (Z.ltb_spec (2 ^ sel (ht_size_exp d) true) (2 ^ sel (ht_size_exp d) false)) as [Hlt|Hge].
    + apply (scan_two_tables E d true); try done. apply Z.pow_lt_mono_r_iff in Hlt; [unfold table_exp; cbn in *; lia|lia|lia].
    + apply (scan_two_tables E d false); try done. by apply Z.pow_le_mono_r_iff in Hge; [|lia|lia].
  - destruct (emit_bucket d false v Hwf He0 Hv) as (de & Eb & Hcov & Hsub).
    destruct (table_exp_ok d false Hwf He0) as [Hk _]. unfold table_exp in Eb. rewrite Eb. cbn [mbind res_bind].
    rewrite (MASK_ones (sel (ht_size_exp d) false)) by apply Hk.
    destruct (next_cursor_pos (table_exp d false) v ltac:(lia) Hv) as [Hv' Hpos].
    eexists _, _. split; [done|]. change (sel (ht_size_exp d) false) with (table_exp d false). rewrite Hpos.
    pose proof (interval_bounds (table_exp d false) (rev v) ltac:(lia)).
    split; [done|]. split; [lia|]. split; [apply interval_end_aligned; [split; [lia|apply HE]|lia]|].
    unfold contents. rewrite (no_rehash_table1 _ _ _ Hwf Hre). cbn. rewrite app_nil_r. done.
Qed.

Lemma scan_all_spec E ds v :
  0 <= E <= 60 -> Forall dict_wf ds -> Forall (exps_le E) ds -> 0 <= v < 2 ^ 64 ->
  rev v mod width E = 0 -> 2 ^ 64 - rev v <= Z.of_nat (length ds) * width E ->
  exists es, scan_all ds v = Ret (Some es) /\
    (forall k, (forall d, d ∈ ds -> exists x, (k, x) ∈ contents d) -> rev v <= rev (hashFunction k) -> exists x, (k, x) ∈ es) /\
    (forall e, e ∈ es -> exists d, d ∈ ds /\ e ∈ contents d).
Proof.
  intros HE. pose proof (interval_width_pos E ltac:(lia)) as Hw. revert v.
  induction ds as [|d ds IH]; intros v Hwf Hexp Hv Hal Hlen; pose proof (rev_range v); [simpl in Hlen; lia|].
  apply Forall_cons in Hwf as [Hwd Hwf]. apply Forall_cons in Hexp as [Hed Hexp]. cbn [scan_all length] in *.
  destruct (dictScan_spec E d v Hwd Hed ltac:(lia) Hv) as (v' & es & -> & Hv' & Hlt & Hal' & Hcov & Hsub).
  cbn [mbind res_bind]. unfold pos_end in *. destruct (Z.eqb_spec v' 0) as [->|Hne].
  - exists es. split; [done|]. split.
    + intros k Hk Hr. destruct (Hk d ltac:(left)) as [x Hx]. exists x. apply Hcov; [done|].
      split; [done|apply rev_range].
    + intros e He. exists d. split; [left|by apply Hsub].
  - destruct (IH v' Hwf Hexp Hv' Hal') as (es' & -> & Hc' & Hs').
    { apply Z.mod_divide in Hal as [a Ha]; [|lia]. apply Z.mod_divide in Hal' as [b Hb]; [|lia].
      assert (a < b) by nia. assert (0 <= (b - a - 1) * width E) by (apply Z.mul_nonneg_nonneg; lia). lia. }
    cbn [mbind res_bind]. exists (es ++ es'). split; [done|]. split.
    + intros k Hk Hr. destruct (decide (rev (hashFunction k) < rev v')).
      * destruct (Hk d ltac:(left)) as [x Hx]. exists x. apply elem_of_app. left. apply Hcov; [done|lia].
      * destruct (Hc' k) as [x Hx]; [intros d' Hd'; apply Hk; by right|lia|]. exists x. apply elem_of_app. by right.
    + intros e [He|He]%elem_of_app; [exists d; split; [left|by apply Hsub]|].
      destruct (Hs' e He) as (d' & ? & ?). exists d'. split; [by right|done].
Qed.

(** ** Theorem *)

(** C30: the stateless scan is complete.  Take any sequence of well-formed
    states of a dictionary, one per call, between which the table may have
    grown, shrunk or been rehashed in any way; if no table ever has more than
    [2^E] buckets and there are at least [2^E] states, the iteration that
    starts at cursor 0 ends, every key that is in the dictionary in all the
    states is returned, and nothing is returned that was not in one of them. *)
Theorem dictScan_complete (E : Z) (ds : list dict) :
  0 <= E <= 60 -> Forall dict_wf ds -> Forall (exps_le E) ds -> 2 ^ E <= Z.of_nat (length ds) ->
  exists es, scan_all ds 0 = Ret (Some es) /\
    (forall k, (forall d, d ∈ ds -> exists x, (k, x) ∈ contents d) -> exists x, (k, x) ∈ es) /\
    (forall e, e ∈ es -> exists d, d ∈ ds /\ e ∈ contents d).
Proof.
  intros HE Hwf Hexp Hlen. pose proof (interval_width_pos E ltac:(lia)).
  destruct (scan_all_spec E ds 0 HE Hwf Hexp) as (es & -> & Hc & Hs); [lia|reflexivity| |].
  { change (rev 0) with 0.
    assert (2 ^ 64 = 2 ^ E * width E) by (unfold width; rewrite <- Z.pow_add_r by lia; f_equal; lia). nia. }
  exists es. split; [done|]. split; [|done]. intros k Hk. apply Hc; [done|]. change (rev 0) with 0. apply rev_range.
Qed.
End scan_proofs.

Lemma demo_wf : dict_wf demo_hash false demo_dict.
Proof. apply demo_repr. Qed.

Lemma dictScan_complete_witness :
  exists es, scan_all (repeat demo_dict 8) 0 = Ret (Some es) /\
    (forall k, (forall d, d ∈ repeat demo_dict 8 -> exists x, (k, x) ∈ contents d) -> exists x, (k, x) ∈ es) /\
    (forall e, e ∈ es -> exists d, d ∈ repeat demo_dict 8 /\ e ∈ contents d).
Proof.
  apply (dictScan_complete demo_hash false 3 (repeat demo_dict 8)).
  - lia.
  - repeat constructor; apply demo_wf.
  - repeat constructor; intros []; vm_compute; discriminate.
  - vm_compute. discriminate.
Defined.
