(* ===== verification/DictIter.v ===== *)
(** * The iterators of Redis' hash table ([dictNext] of [dict.c])

    An iterator walks over both tables, bucket by bucket.  The entry it is at and
    the next one are pointers, values of [chain].  Only iterators that are not safe
    are modelled: the dictionary must not change while they are used, which their
    release asserts with a fingerprint of it.  Such an iterator returns every entry
    once. *)
From stdpp Require Import gmap.
From S2P Require Import Prelude Dict.

Local Open Scope Z_scope.

(** ** Definitions *)

(** [fingerprint] is read only after it was written. *)
Record dictIterator (K V : Type) : Type := Iter {
  it_table : bool;
  it_index : Z;
  it_entry : chain K V;
  it_nextEntry : chain K V;
  fingerprint : Z;
}.
Arguments Iter {K V}.
Arguments it_table {K V}.
Arguments it_index {K V}.
Arguments it_entry {K V}.
Arguments it_nextEntry {K V}.
Arguments fingerprint {K V}.

Section Iterate.
Context {K V : Type}.
(** The hash of the addresses and sizes of the tables. *)
Context (dictFingerprint : dict K V -> Z).

Definition dictGetIterator : dictIterator K V := Iter false (-1) CNull CNull 0.

Fixpoint next_loop (fuel : nat) (d : dict K V) (it : dictIterator K V) : res (dictIterator K V * option (chain K V)) :=
  match fuel with
  | O => Diverge
  | S fuel =>
      let return_or_continue it :=
        match it_entry it with
        | CNull => next_loop fuel d it
        | de => Ret (Iter (it_table it) (it_index it) de (dictGetNext de) (fingerprint it), Some de)
        end in
      match it_entry it with
      | CNull =>
          let fp := if (it_index it =? -1) && negb (it_table it) then dictFingerprint d else fingerprint it in
          let index := it_index it + 1 in
          if DICTHT_SIZE (sel (ht_size_exp d) (it_table it)) <=? index then
            if dictIsRehashing d && negb (it_table it) then
              de ← bucket d true 0; return_or_continue (Iter true 0 de (it_nextEntry it) fp)
            else Ret (Iter (it_table it) index CNull (it_nextEntry it) fp, None)
          else
            de ← bucket d (it_table it) index; return_or_continue (Iter (it_table it) index de (it_nextEntry it) fp)
      | _ => return_or_continue (Iter (it_table it) (it_index it) (it_nextEntry it) (it_nextEntry it) (fingerprint it))
      end
  end.
(** Every turn of the loop that does not return is at a new bucket. *)
Definition dictNext (d : dict K V) (it : dictIterator K V) : res (dictIterator K V * option (chain K V)) :=
  next_loop (length (sel (ht_table d) false) + length (sel (ht_table d) true) + 3) d it.

Definition dictReleaseIterator (d : dict K V) (it : dictIterator K V) : res unit :=
  if (it_index it =? -1) && negb (it_table it) then Ret tt else assert (fingerprint it =? dictFingerprint d).
End Iterate.

(** ** What is left to return *)

Section Rest.
Context {K V : Type} `{EqDecision K}.
Context (hashFunction : K -> Z) (no_value : bool).
Context (dictFingerprint : dict K V -> Z).
Implicit Types (d : dict K V) (it : dictIterator K V).

(** The entries from a bucket on. *)
Definition entries_from d (t : bool) (i : nat) : list (K * option V) :=
  tentries (drop i (sel (ht_table d) t)) ++ (if t then [] else tentries (sel (ht_table d) true)).
Definition rest d it : list (K * option V) := centries (it_nextEntry it) ++ entries_from d (it_table it) (Z.to_nat (it_index it + 1)).

Record iter_ok d it : Prop := {
  io_index : -1 <= it_index it;
  io_entry : it_entry it = CNull -> it_nextEntry it = CNull;
  io_fingerprint : it_index it = -1 /\ it_table it = false \/ fingerprint it = dictFingerprint d;
  io_table : it_table it = true -> dictIsRehashing d = true;
}.

Definition buckets_left d it : nat :=
  length (sel (ht_table d) (it_table it)) - Z.to_nat (it_index it + 1) + (if it_table it then 0 else S (length (sel (ht_table d) true))).

(** What a call returns. *)
Definition next_returns d (l : list (K * option V)) (r : res (dictIterator K V * option (chain K V))) : Prop :=
  match l with
  | [] => exists it', r = Ret (it', None) /\ iter_ok d it' /\ rest d it' = []
  | e :: l => exists it' de, r = Ret (it', Some de) /\ dictGetKey de = Some e.1 /\ iter_ok d it' /\ rest d it' = l
  end.

(** At an entry. *)
Lemma at_entry d t i (de : chain K V) fp :
  de <> CNull -> -1 <= i -> (i = -1 /\ t = false \/ fp = dictFingerprint d) -> (t = true -> dictIsRehashing d = true) ->
  next_returns d (centries de ++ entries_from d t (Z.to_nat (i + 1))) (Ret (Iter t i de (dictGetNext de) fp, Some de)).
Proof using Type.
  intros Hne Hi Hfp Ht. destruct de as [|k|k n|k v n]; [done| | |]; (eexists _, _; split; [reflexivity|]; split; [reflexivity|]; split; [|done]; by split).
Qed.

Lemma second_table d : dict_wf hashFunction no_value d ->
  if dictIsRehashing d then (0 < length (sel (ht_table d) true))%nat else sel (ht_table d) true = [].
Proof using Type.
  intros Hwf. pose proof (wf_rehash _ _ _ Hwf) as Hre. pose proof (to_size _ _ _ _ (wf_table _ _ _ Hwf true)) as Hs. unfold rehash_ok, dictIsRehashing in *.
  destruct (rehashidx d =? -1); cbn [negb]; [by rewrite Hre in Hs|]. destruct Hre as (_ & _ & Hre & _). rewrite (proj2 (Z.eqb_neq _ (-1)) Hre) in Hs.
  destruct Hs as [He Hs]. pose proof (Z.pow_pos_nonneg 2 (sel (ht_size_exp d) true) ltac:(lia) ltac:(lia)). lia.
Qed.

Lemma entries_bucket d t i (c : chain K V) : sel (ht_table d) t !! i = Some c -> entries_from d t i = centries c ++ entries_from d t (S i).
Proof using Type. intros Hc. unfold entries_from. rewrite (drop_S _ _ _ Hc). unfold tentries at 1. cbn [mbind list_bind]. by rewrite <- app_assoc. Qed.

(** At a bucket: its first entry is returned, or the loop goes on. *)
Lemma at_bucket d t (i : nat) (c : chain K V) fuel :
  dict_wf hashFunction no_value d -> sel (ht_table d) t !! i = Some c -> (t = true -> dictIsRehashing d = true) ->
  (forall it, iter_ok d it -> it_entry it = CNull -> it_table it = t -> it_index it = Z.of_nat i ->
     next_returns d (rest d it) (next_loop dictFingerprint fuel d it)) ->
  next_returns d (entries_from d t i)
    (match c with
     | CNull => next_loop dictFingerprint fuel d (Iter t (Z.of_nat i) c CNull (dictFingerprint d))
     | de => Ret (Iter t (Z.of_nat i) de (dictGetNext de) (dictFingerprint d), Some de)
     end).
Proof using Type.
  intros Hwf Hc Ht IH. rewrite (entries_bucket _ _ _ _ Hc). replace (S i) with (Z.to_nat (Z.of_nat i + 1)) by lia.
  destruct c as [|k|k n|k v n].
  - apply (IH (Iter t (Z.of_nat i) CNull CNull (dictFingerprint d))); [|done|done|done]. split; cbn; auto; lia.
  - apply (at_entry d t (Z.of_nat i) (CKey k)); auto; done || lia.
  - apply (at_entry d t (Z.of_nat i) (CNoValue k n)); auto; done || lia.
  - apply (at_entry d t (Z.of_nat i) (CNormal k v n)); auto; done || lia.
Qed.

Lemma next_null d it fuel : dict_wf hashFunction no_value d -> iter_ok d it -> it_entry it = CNull -> (buckets_left d it < fuel)%nat ->
  next_returns d (rest d it) (next_loop dictFingerprint fuel d it).
Proof using Type.
  intros Hwf. revert it. induction fuel as [|fuel IH]; intros it [Hi He Hf Ht] Hnull Hfuel; [lia|]. destruct it as [t i de nx fp]. cbn in Hi, He, Hf, Ht, Hnull. subst de.
  rewrite (He eq_refl) in *. clear He. unfold rest, buckets_left in *. cbn [it_nextEntry it_table it_index centries app] in *.
  cbn [next_loop it_entry it_index it_table fingerprint it_nextEntry]. set (fp' := if (i =? -1) && negb t then dictFingerprint d else fp).
  assert (fp' = dictFingerprint d) as Hfp.
  { unfold fp'. destruct (Z.eqb_spec i (-1)), t; cbn; try done; destruct Hf as [[? ?]|?]; done || congruence. }
  rewrite Hfp. clear fp' Hfp. rewrite (table_size _ _ d t Hwf). pose proof (second_table d Hwf) as H2.
  destruct (Z.leb_spec (Z.of_nat (length (sel (ht_table d) t))) (i + 1)) as [Hge|Hlt].
  - unfold entries_from at 1. rewrite drop_ge by lia. change (tentries (@nil (chain K V))) with (@nil (K * option V)). cbn [app].
    destruct t; cbn [negb andb].
    { rewrite andb_false_r. eexists. split; [reflexivity|]. split; [split; cbn; auto; lia|]. unfold rest, entries_from. cbn [it_nextEntry it_table it_index centries app].
      by rewrite drop_ge by lia. }
    rewrite andb_true_r. destruct (dictIsRehashing d) eqn:Hre.
    + destruct (lookup_lt_is_Some_2 _ _ H2) as [c Hc]. unfold bucket. rewrite (aget_Z _ 0 c) by done. cbn [mbind res_bind it_entry it_table it_index fingerprint].
      replace (tentries (sel (ht_table d) true)) with (entries_from d true 0) by (unfold entries_from; by rewrite app_nil_r).
      pose proof (at_bucket d true 0 c fuel Hwf Hc (fun _ => Hre)) as Hb. change (Z.of_nat 0) with 0 in Hb.
      destruct c; apply Hb; intros it' Hok En Et Ei; (apply IH; [done|done|rewrite Et, Ei; lia]).
    + rewrite H2. eexists. split; [reflexivity|]. split; [split; cbn; auto; lia|]. unfold rest, entries_from. cbn [it_nextEntry it_table it_index centries app].
      rewrite H2, drop_ge by lia. done.
  - destruct (lookup_lt_is_Some_2 (sel (ht_table d) t) (Z.to_nat (i + 1))) as [c Hc]; [lia|]. unfold bucket. rewrite (aget_Z _ (i + 1) c) by (done || lia).
    cbn [mbind res_bind it_entry it_table it_index fingerprint it_nextEntry]. pose proof (at_bucket d t (Z.to_nat (i + 1)) c fuel Hwf Hc Ht) as Hb. rewrite Z2Nat.id in Hb by lia.
    destruct c; apply Hb; intros it' Hok En Et Ei; (apply IH; [done|done|rewrite Et, Ei; lia]).
Qed.

Lemma dictNext_spec d it : dict_wf hashFunction no_value d -> iter_ok d it -> next_returns d (rest d it) (dictNext dictFingerprint d it).
Proof using Type.
  intros Hwf Hok. unfold dictNext. destruct (it_entry it) as [|k|k n|k v n] eqn:Ee.
  { apply next_null; [done|done|done|]. unfold buckets_left. destruct it as [[] i de nx fp]; cbn [it_table it_index]; lia. }
  all: rewrite Nat.add_succ_r; cbn [next_loop]; rewrite Ee; cbn [it_entry it_table it_index it_nextEntry fingerprint].
  all: destruct Hok as [Hi He Hf Ht]; destruct it as [t i de nx fp]; cbn [it_entry it_table it_index it_nextEntry fingerprint] in *; unfold rest; cbn [it_entry it_table it_index it_nextEntry fingerprint].
  all: destruct nx as [|k'|k' n'|k' v' n']; try (by apply at_entry).
  all: apply (next_null d (Iter t i CNull CNull fp)); [done|by split|done|]; unfold buckets_left; destruct t; cbn [it_table it_index]; lia.
Qed.

Lemma iterator_start d : iter_ok d (dictGetIterator (K := K) (V := V)) /\ rest d dictGetIterator = contents d.
Proof using Type. split; [split; cbn; auto; lia|]. done. Qed.

Lemma release_ok d it : iter_ok d it -> dictReleaseIterator dictFingerprint d it = Ret tt.
Proof using Type.
  intros [Hi _ Hf _]; unfold dictReleaseIterator. destruct Hf as [[Hx Ht]|Hf]; [by rewrite Hx, Ht|]. destruct (_ && _); [done|]. by rewrite Hf, Z.eqb_refl.
Qed.
End Rest.
