(* ===== verification/Listpack.v ===== *)
(** * Redis' listpack ([redis-7.2.3/src/listpack.c])

    A listpack is one allocation: a header with the total size and the number
    of elements, the entries, and an end marker.  An entry is the encoded
    element followed by its length, written so that it can be read backwards.
    The model works on the bytes of the allocation; a pointer into it is an
    offset, [NULL] is [None], a failed [assert] and an access outside the
    allocation are [Abort].

    This file has the definitions; [ListpackEnc] proves the encoding of one
    entry, [ListpackNav] the navigation and the reading, and [ListpackEdit] the
    updates. *)
From S2P Require Import Prelude Mem NumStr.

Local Open Scope Z_scope.

(** ** Constants and tests on the first byte *)

Definition LP_HDR_SIZE : Z := 6.
Definition LP_HDR_NUMELE_UNKNOWN : Z := 65535.
Definition LP_INTBUF_SIZE : Z := 21.
Definition LP_EOF : Z := 0xFF.
Definition UINT32_MAX : Z := 2 ^ 32 - 1.
Definition UINT64_MAX : Z := 2 ^ 64 - 1.
Definition LISTPACK_MAX_SAFETY_SIZE : Z := 2 ^ 30.

Definition LP_ENCODING_IS_7BIT_UINT (b : Z) : bool := Z.land b 0x80 =? 0.
Definition LP_ENCODING_IS_6BIT_STR (b : Z) : bool := Z.land b 0xC0 =? 0x80.
Definition LP_ENCODING_IS_13BIT_INT (b : Z) : bool := Z.land b 0xE0 =? 0xC0.
Definition LP_ENCODING_IS_12BIT_STR (b : Z) : bool := Z.land b 0xF0 =? 0xE0.
Definition LP_ENCODING_IS_16BIT_INT (b : Z) : bool := Z.land b 0xFF =? 0xF1.
Definition LP_ENCODING_IS_24BIT_INT (b : Z) : bool := Z.land b 0xFF =? 0xF2.
Definition LP_ENCODING_IS_32BIT_INT (b : Z) : bool := Z.land b 0xFF =? 0xF3.
Definition LP_ENCODING_IS_64BIT_INT (b : Z) : bool := Z.land b 0xFF =? 0xF4.
Definition LP_ENCODING_IS_32BIT_STR (b : Z) : bool := Z.land b 0xFF =? 0xF0.

(** The lengths of strings, and the header, all little-endian. *)
Definition LP_ENCODING_6BIT_STR_LEN (m : list Z) (p : Z) : res Z :=
  b0 ← aget m p; Ret (Z.land b0 0x3F).
Definition LP_ENCODING_12BIT_STR_LEN (m : list Z) (p : Z) : res Z :=
  b0 ← aget m p; b1 ← aget m (p + 1); Ret (Z.lor (Z.shiftl (Z.land b0 0xF) 8) b1).
Definition LP_ENCODING_32BIT_STR_LEN (m : list Z) (p : Z) : res Z := load 4 (p + 1) m.

Definition lpGetTotalBytes (m : list Z) : res Z := load 4 0 m.
Definition lpGetNumElements (m : list Z) : res Z := load 2 4 m.
Definition lpSetTotalBytes (m : list Z) (v : Z) : res (list Z) := store 4 0 v m.
Definition lpSetNumElements (m : list Z) (v : Z) : res (list Z) := store 2 4 v m.

Definition ASSERT_INTEGRITY (m : list Z) (p : Z) : res unit :=
  total ← lpGetTotalBytes m; assert ((LP_HDR_SIZE <=? p) && (p <? total)).
Definition ASSERT_INTEGRITY_LEN (m : list Z) (p len : Z) : res unit :=
  total ← lpGetTotalBytes m; assert ((LP_HDR_SIZE <=? p) && (p + len <? total)).

Definition lpSafeToAdd (m : option (list Z)) (add : Z) : res bool :=
  len ← match m with Some m => lpGetTotalBytes m | None => Ret 0 end;
  Ret (negb (LISTPACK_MAX_SAFETY_SIZE <? u64 (len + add))).

(** ** Strings that are integers *)

Fixpoint lpStringToInt64_loop (p : list Z) (v : Z) : option (Z * list Z) :=
  match p with
  | [] => Some (v, [])
  | c :: p' =>
      if is_digit c then
        if UINT64_MAX / 10 <? v then None else
        let v := u64 (v * 10) in
        if UINT64_MAX - (c - 48) <? v then None else
        lpStringToInt64_loop p' (u64 (v + (c - 48)))
      else Some (v, p)
  end.

Definition lpStringToInt64 (s : list Z) : option Z :=
  let slen := Z.of_nat (length s) in
  if (slen =? 0) || (LONG_STR_SIZE <=? slen) then None else
  if (slen =? 1) && (hd 0 s =? 48) then Some 0 else
  let negative := hd 0 s =? 45 in
  match (if negative then tl s else s) with
  | [] => None
  | c :: p =>
      if (49 <=? c) && (c <=? 57) then
        match lpStringToInt64_loop p (c - 48) with
        | Some (v, []) =>
            if negative then
              if 2 ^ 63 <? v then None else Some (s64 (u64 (- v)))
            else if 2 ^ 63 - 1 <? v then None else Some v
        | _ => None
        end
      else None
  end.

(** ** Allocation *)

(** The usable size of an allocation is at least what was asked for
    ([zmalloc_usable_size]). *)
Class Usable := {
  usable : Z -> Z;
  usable_ge : forall n, n <= usable n;
}.

Definition lp_realloc `{Heap} `{Usable} (m : list Z) (size : Z) : list Z := realloc (usable size) m.
Definition lp_malloc_size (m : list Z) : Z := Z.of_nat (length m).

Definition lpNew `{Heap} `{Usable} (capacity : Z) : res (list Z) :=
  let m := lp_realloc [] (if LP_HDR_SIZE + 1 <? capacity then capacity else LP_HDR_SIZE + 1) in
  m ← lpSetTotalBytes m (LP_HDR_SIZE + 1);
  m ← lpSetNumElements m 0;
  aset m LP_HDR_SIZE LP_EOF.

Definition lpShrinkToFit `{Heap} `{Usable} (m : list Z) : res (list Z) :=
  size ← lpGetTotalBytes m;
  Ret (if size <? lp_malloc_size m then lp_realloc m size else m).

(** ** Encoding of an element *)

(** The bytes written to [intenc]; [enclen] is their number. *)
Definition lpEncodeIntegerGetType (v : Z) : list Z :=
  if (0 <=? v) && (v <=? 127) then [v]
  else if (-4096 <=? v) && (v <=? 4095) then
    let v := if v <? 0 then Z.shiftl 1 13 + v else v in
    [u8 (Z.lor (Z.shiftr v 8) 0xC0); Z.land v 0xff]
  else if (-32768 <=? v) && (v <=? 32767) then
    let v := if v <? 0 then Z.shiftl 1 16 + v else v in
    [0xF1; Z.land v 0xff; u8 (Z.shiftr v 8)]
  else if (-8388608 <=? v) && (v <=? 8388607) then
    let v := if v <? 0 then Z.shiftl 1 24 + v else v in
    [0xF2; Z.land v 0xff; Z.land (Z.shiftr v 8) 0xff; u8 (Z.shiftr v 16)]
  else if (-2147483648 <=? v) && (v <=? 2147483647) then
    let v := if v <? 0 then Z.shiftl 1 32 + v else v in
    [0xF3; Z.land v 0xff; Z.land (Z.shiftr v 8) 0xff; Z.land (Z.shiftr v 16) 0xff; u8 (Z.shiftr v 24)]
  else
    let uv := u64 v in
    [0xF4; Z.land uv 0xff; Z.land (Z.shiftr uv 8) 0xff; Z.land (Z.shiftr uv 16) 0xff; Z.land (Z.shiftr uv 24) 0xff;
     Z.land (Z.shiftr uv 32) 0xff; Z.land (Z.shiftr uv 40) 0xff; Z.land (Z.shiftr uv 48) 0xff; u8 (Z.shiftr uv 56)].

(** [LP_ENCODING_INT] with [intenc], or [LP_ENCODING_STRING] with [enclen]. *)
Inductive enctype : Type :=
  | ENCODING_INT (intenc : list Z)
  | ENCODING_STRING (enclen : Z).

Definition lpEncodeGetType (ele : list Z) : enctype :=
  let size := Z.of_nat (length ele) in
  match lpStringToInt64 ele with
  | Some v => ENCODING_INT (lpEncodeIntegerGetType v)
  | None => ENCODING_STRING (if size <? 64 then 1 + size else if size <? 4096 then 2 + size else 5 + size)
  end.

(** The bytes written to [buf]; the return value is their number. *)
Definition lpEncodeBacklen (l : Z) : list Z :=
  if l <=? 127 then [u8 l]
  else if l <? 16383 then [u8 (Z.shiftr l 7); Z.lor (Z.land l 127) 128]
  else if l <? 2097151 then
    [u8 (Z.shiftr l 14); Z.lor (Z.land (Z.shiftr l 7) 127) 128; Z.lor (Z.land l 127) 128]
  else if l <? 268435455 then
    [u8 (Z.shiftr l 21); Z.lor (Z.land (Z.shiftr l 14) 127) 128; Z.lor (Z.land (Z.shiftr l 7) 127) 128;
     Z.lor (Z.land l 127) 128]
  else
    [u8 (Z.shiftr l 28); Z.lor (Z.land (Z.shiftr l 21) 127) 128; Z.lor (Z.land (Z.shiftr l 14) 127) 128;
     Z.lor (Z.land (Z.shiftr l 7) 127) 128; Z.lor (Z.land l 127) 128].

Definition lpBacklenSize (l : Z) : Z := Z.of_nat (length (lpEncodeBacklen l)).

(** [do { ... } while(1)]; the loop ends after at most five bytes. *)
Fixpoint backlen_loop (fuel : nat) (m : list Z) (p val shift : Z) : res Z :=
  match fuel with
  | O => Diverge
  | S fuel =>
      b ← aget m p;
      let val := Z.lor val (Z.shiftl (Z.land b 127) shift) in
      if Z.land b 128 =? 0 then Ret val else
      let shift := shift + 7 in
      let p := p - 1 in
      if 28 <? shift then Ret UINT64_MAX else backlen_loop fuel m p val shift
  end.

Definition lpDecodeBacklen (m : list Z) (p : Z) : res Z := backlen_loop 5 m p 0 0.

(** The bytes written to [buf]. *)
Definition lpEncodeString (s : list Z) : list Z :=
  let len := Z.of_nat (length s) in
  if len <? 64 then Z.lor len 0x80 :: s
  else if len <? 4096 then Z.lor (Z.shiftr len 8) 0xE0 :: Z.land len 0xff :: s
  else 0xF0 :: Z.land len 0xff :: Z.land (Z.shiftr len 8) 0xff :: Z.land (Z.shiftr len 16) 0xff ::
       Z.land (Z.shiftr len 24) 0xff :: s.

(** ** Size of the entry at a pointer *)

Definition lpCurrentEncodedSizeUnsafe (m : list Z) (p : Z) : res Z :=
  b ← aget m p;
  if LP_ENCODING_IS_7BIT_UINT b then Ret 1
  else if LP_ENCODING_IS_6BIT_STR b then n ← LP_ENCODING_6BIT_STR_LEN m p; Ret (1 + n)
  else if LP_ENCODING_IS_13BIT_INT b then Ret 2
  else if LP_ENCODING_IS_16BIT_INT b then Ret 3
  else if LP_ENCODING_IS_24BIT_INT b then Ret 4
  else if LP_ENCODING_IS_32BIT_INT b then Ret 5
  else if LP_ENCODING_IS_64BIT_INT b then Ret 9
  else if LP_ENCODING_IS_12BIT_STR b then n ← LP_ENCODING_12BIT_STR_LEN m p; Ret (2 + n)
  else if LP_ENCODING_IS_32BIT_STR b then n ← LP_ENCODING_32BIT_STR_LEN m p; Ret (u32 (5 + n))
  else if b =? LP_EOF then Ret 1
  else Ret 0.

Definition lpCurrentEncodedSizeBytes (m : list Z) (p : Z) : res Z :=
  b ← aget m p;
  Ret (if LP_ENCODING_IS_7BIT_UINT b then 1
       else if LP_ENCODING_IS_6BIT_STR b then 1
       else if LP_ENCODING_IS_13BIT_INT b then 1
       else if LP_ENCODING_IS_16BIT_INT b then 1
       else if LP_ENCODING_IS_24BIT_INT b then 1
       else if LP_ENCODING_IS_32BIT_INT b then 1
       else if LP_ENCODING_IS_64BIT_INT b then 1
       else if LP_ENCODING_IS_12BIT_STR b then 2
       else if LP_ENCODING_IS_32BIT_STR b then 5
       else if b =? LP_EOF then 1
       else 0).

Definition lpSkip (m : list Z) (p : Z) : res Z :=
  entrylen ← lpCurrentEncodedSizeUnsafe m p;
  Ret (p + (entrylen + lpBacklenSize entrylen)).

(** ** Validation *)

(** [None] is the return value 0; otherwise the new value of [*pp]. *)
Definition lpValidateNext (m : list Z) (pp : option Z) (lpbytes : Z) : res (option (option Z)) :=
  let OUT_OF_RANGE p := (p <? LP_HDR_SIZE) || (lpbytes - 1 <? p) in
  match pp with
  | None => Ret None
  | Some p =>
      if OUT_OF_RANGE p then Ret None else
      b ← aget m p;
      if b =? LP_EOF then Ret (Some None) else
      lenbytes ← lpCurrentEncodedSizeBytes m p;
      if lenbytes =? 0 then Ret None else
      if OUT_OF_RANGE (p + lenbytes) then Ret None else
      entrylen ← lpCurrentEncodedSizeUnsafe m p;
      let encodedBacklen := lpBacklenSize entrylen in
      let entrylen := entrylen + encodedBacklen in
      if OUT_OF_RANGE (p + entrylen) then Ret None else
      let p := p + entrylen in
      prevlen ← lpDecodeBacklen m (p - 1);
      if negb (u64 (prevlen + encodedBacklen) =? entrylen) then Ret None else
      Ret (Some (Some p))
  end.

Definition lpAssertValidEntry (m : list Z) (lpbytes p : Z) : res unit :=
  r ← lpValidateNext m (Some p) lpbytes;
  assert (match r with Some _ => true | None => false end).

Definition lpValidateFirst (m : list Z) : res (option Z) :=
  b ← aget m LP_HDR_SIZE;
  Ret (if b =? LP_EOF then None else Some LP_HDR_SIZE).

(** ** Navigation *)

Definition lpBytes (m : list Z) : res Z := lpGetTotalBytes m.

Definition lpNext (m : list Z) (p : Z) : res (option Z) :=
  p ← lpSkip m p;
  b ← aget m p;
  if b =? LP_EOF then Ret None else
  bytes ← lpBytes m;
  _ ← lpAssertValidEntry m bytes p;
  Ret (Some p).

Definition lpPrev (m : list Z) (p : Z) : res (option Z) :=
  if p =? LP_HDR_SIZE then Ret None else
  let p := p - 1 in
  prevlen ← lpDecodeBacklen m p;
  let prevlen := u64 (prevlen + lpBacklenSize prevlen) in
  let p := p - (prevlen - 1) in
  bytes ← lpBytes m;
  _ ← lpAssertValidEntry m bytes p;
  Ret (Some p).

Definition lpFirst (m : list Z) : res (option Z) :=
  b ← aget m LP_HDR_SIZE;
  if b =? LP_EOF then Ret None else
  bytes ← lpBytes m;
  _ ← lpAssertValidEntry m bytes LP_HDR_SIZE;
  Ret (Some LP_HDR_SIZE).

Definition lpLast (m : list Z) : res (option Z) :=
  total ← lpGetTotalBytes m;
  lpPrev m (total - 1).

(** [while(p) { count++; p = lpNext(lp,p); }] *)
Fixpoint count_loop (fuel : nat) (m : list Z) (p : option Z) (count : Z) : res Z :=
  match p with
  | None => Ret count
  | Some p =>
      match fuel with
      | O => Diverge
      | S fuel => p ← lpNext m p; count_loop fuel m p (u32 (count + 1))
      end
  end.

(** The count, and the listpack, whose header may have been brought up to
    date. *)
Definition lpLength (m : list Z) : res (Z * list Z) :=
  numele ← lpGetNumElements m;
  if negb (numele =? LP_HDR_NUMELE_UNKNOWN) then Ret (numele, m) else
  p ← lpFirst m;
  count ← count_loop (length m) m p 0;
  if count <? LP_HDR_NUMELE_UNKNOWN then
    m ← lpSetNumElements m count;
    Ret (count, m)
  else Ret (count, m).

(** [while (index > 0 && ele)] and [while (index < -1 && ele)] *)
Fixpoint seek_forward (n : nat) (m : list Z) (ele : option Z) : res (option Z) :=
  match n, ele with
  | S n, Some e => ele ← lpNext m e; seek_forward n m ele
  | _, _ => Ret ele
  end.

Fixpoint seek_backward (n : nat) (m : list Z) (ele : option Z) : res (option Z) :=
  match n, ele with
  | S n, Some e => ele ← lpPrev m e; seek_backward n m ele
  | _, _ => Ret ele
  end.

Definition lpSeek (m : list Z) (index : Z) : res (option Z) :=
  numele ← lpGetNumElements m;
  let known := negb (numele =? LP_HDR_NUMELE_UNKNOWN) in
  let index := if known && (index <? 0) then numele + index else index in
  if known && ((index <? 0) || (numele <=? index)) then Ret None else
  let fwd := if known then negb (numele / 2 <? index) else negb (index <? 0) in
  let index := if known && (numele / 2 <? index) then index - numele else index in
  if fwd then
    ele ← lpFirst m; seek_forward (Z.to_nat index) m ele
  else
    ele ← lpLast m; seek_backward (Z.to_nat (-1 - index)) m ele.

(** ** Reading an element *)

(** A string inside the listpack, an integer, or a string in the caller's
    buffer. *)
Inductive lpvalue : Type :=
  | InPack (off len : Z)
  | Integer (v : Z)
  | InBuf (buf : list Z) (len : Z).

(** "Convert the unsigned value to the signed one" *)
Definition lp_signed (uval negstart negmax : Z) : Z :=
  if negstart <=? uval then - s64 (u64 (negmax - uval)) - 1 else s64 uval.

(** The return value with [count], and [entry_size] where it is set. *)
Definition lpGetWithSize (m : list Z) (p : Z) (intbuf : option (list Z)) : res (lpvalue * option Z) :=
  let int uval negstart negmax size :=
    let val := lp_signed uval negstart negmax in
    match intbuf with
    | Some buf => '(buf, count) ← ll2string buf 0 LP_INTBUF_SIZE val; Ret (InBuf buf count, size)
    | None => Ret (Integer val, size)
    end in
  b ← aget m p;
  if LP_ENCODING_IS_7BIT_UINT b then int (Z.land b 0x7f) UINT64_MAX 0 (Some 2)
  else if LP_ENCODING_IS_6BIT_STR b then
    count ← LP_ENCODING_6BIT_STR_LEN m p;
    Ret (InPack (p + 1) count, Some (1 + count + lpBacklenSize (count + 1)))
  else if LP_ENCODING_IS_13BIT_INT b then
    b1 ← aget m (p + 1);
    int (Z.lor (Z.shiftl (Z.land b 0x1f) 8) b1) (Z.shiftl 1 12) 8191 (Some 3)
  else if LP_ENCODING_IS_16BIT_INT b then
    uval ← load 2 (p + 1) m; int uval (Z.shiftl 1 15) (2 ^ 16 - 1) (Some 4)
  else if LP_ENCODING_IS_24BIT_INT b then
    uval ← load 3 (p + 1) m; int uval (Z.shiftl 1 23) (Z.shiftr UINT32_MAX 8) (Some 5)
  else if LP_ENCODING_IS_32BIT_INT b then
    uval ← load 4 (p + 1) m; int uval (Z.shiftl 1 31) UINT32_MAX (Some 6)
  else if LP_ENCODING_IS_64BIT_INT b then
    uval ← load 8 (p + 1) m; int uval (Z.shiftl 1 63) UINT64_MAX (Some 10)
  else if LP_ENCODING_IS_12BIT_STR b then
    count ← LP_ENCODING_12BIT_STR_LEN m p;
    Ret (InPack (p + 2) count, Some (2 + count + lpBacklenSize (count + 2)))
  else if LP_ENCODING_IS_32BIT_STR b then
    count ← LP_ENCODING_32BIT_STR_LEN m p;
    Ret (InPack (p + 5) count, Some (5 + count + lpBacklenSize (count + 5)))
  else int (12345678900000000 + b) UINT64_MAX 0 None.

Definition lpGet (m : list Z) (p : Z) (intbuf : option (list Z)) : res lpvalue :=
  '(v, _) ← lpGetWithSize m p intbuf; Ret v.

(** [slen] is 32 bits wide. *)
Definition lpGetValue (m : list Z) (p : Z) : res lpvalue :=
  v ← lpGet m p None;
  Ret (match v with InPack off len => InPack off (u32 len) | v => v end).

Definition lpCompare (m : list Z) (p : Z) (s : list Z) : res bool :=
  b ← aget m p;
  if b =? LP_EOF then Ret false else
  v ← lpGet m p None;
  match v with
  | InPack off sz =>
      if Z.of_nat (length s) =? sz then
        bs ← load_bytes sz off m; Ret (bool_decide (bs = s))
      else Ret false
  | Integer sz => Ret (match lpStringToInt64 s with Some sval => sz =? sval | None => false end)
  | InBuf _ _ => Abort
  end.

(** The loop of [lpFind]: [vencoding] is the memo of the conversion of the
    searched string, [None] as long as it has not been needed.  The count is
    an [int], set from the unsigned [skip]. *)
Fixpoint find_loop (fuel : nat) (m : list Z) (lp_bytes p : Z) (s : list Z) (skip skipcnt : Z)
    (vencoding : option (option Z)) (entry_size : Z) : res (option Z) :=
  match fuel with
  | O => Diverge
  | S fuel =>
      let slen := Z.of_nat (length s) in
      r ← (if skipcnt =? 0 then
             '(value, size) ← lpGetWithSize m p None;
             let entry_size := from_option id entry_size size in
             match value with
             | InPack off ll =>
                 _ ← assert ((LP_HDR_SIZE <=? p) && (p + entry_size <? lp_bytes));
                 bs ← (if slen =? ll then load_bytes slen off m else Ret []);
                 if (slen =? ll) && bool_decide (bs = s) then Ret (inl p)
                 else Ret (inr (p + entry_size, s32 skip, vencoding, entry_size))
             | Integer ll =>
                 let venc := match vencoding with
                             | Some e => e
                             | None => if (32 <=? slen) || (slen =? 0) then None else lpStringToInt64 s
                             end in
                 if match venc with Some vll => ll =? vll | None => false end then Ret (inl p)
                 else Ret (inr (p + entry_size, s32 skip, Some venc, entry_size))
             | InBuf _ _ => Abort
             end
           else
             _ ← assert (- 2 ^ 31 <? skipcnt);
             p ← lpSkip m p;
             Ret (inr (p, skipcnt - 1, vencoding, entry_size)));
      match r with
      | inl p => Ret (Some p)
      | inr (p, skipcnt, vencoding, entry_size) =>
          _ ← (if lp_bytes <=? p + 8 then lpAssertValidEntry m lp_bytes p
               else assert ((LP_HDR_SIZE <=? p) && (p <? lp_bytes)));
          b ← aget m p;
          if b =? LP_EOF then Ret None
          else find_loop fuel m lp_bytes p s skip skipcnt vencoding entry_size
      end
  end.

Definition lpFind (m : list Z) (p : Z) (s : list Z) (skip : Z) : res (option Z) :=
  lp_bytes ← lpBytes m;
  find_loop (length m) m lp_bytes p s skip 0 None 123456789.

(** ** Insertion, replacement and deletion *)

Inductive lpwhere : Type := LP_BEFORE | LP_AFTER | LP_REPLACE.

(** What is inserted: a string, an encoded integer, or nothing (deletion). *)
Inductive lpele : Type :=
  | EleStr (elestr : list Z)
  | EleInt (eleint : list Z)
  | EleNone.

(** The bytes of the new element; the length is [enclen]. *)
Definition lp_encode (e : lpele) : list Z :=
  match e with
  | EleStr s => match lpEncodeGetType s with ENCODING_INT intenc => intenc | ENCODING_STRING _ => lpEncodeString s end
  | EleInt i => i
  | EleNone => []
  end.

Definition lp_enclen (e : lpele) : Z :=
  match e with
  | EleStr s => match lpEncodeGetType s with
                | ENCODING_INT intenc => Z.of_nat (length intenc)
                | ENCODING_STRING enclen => enclen
                end
  | EleInt i => Z.of_nat (length i)
  | EleNone => 0
  end.

(** Make room for [room] bytes at [poff] in place of [replaced_len] bytes:
    reallocate before if the listpack grows, move the rest, reallocate after
    if it shrinks.  With [LP_BEFORE] nothing is replaced, and the two calls of
    [memmove] are this one. *)
Definition lp_make_room `{Heap} `{Usable} (m : list Z) (poff room replaced_len old_bytes new_bytes : Z) : res (list Z) :=
  let m := if (old_bytes <? new_bytes) && (lp_malloc_size m <? new_bytes) then lp_realloc m new_bytes else m in
  m ← memmove (poff + room) (poff + replaced_len) (old_bytes - poff - replaced_len) m;
  Ret (if new_bytes <? old_bytes then lp_realloc m new_bytes else m).

(** "Update header." *)
Definition lp_update_header (m : list Z) (counted delete : bool) (new_bytes : Z) : res (list Z) :=
  m ← (if counted then
         num ← lpGetNumElements m;
         if negb (num =? LP_HDR_NUMELE_UNKNOWN) then
           lpSetNumElements m (if delete then num - 1 else num + 1)
         else Ret m
       else Ret m);
  lpSetTotalBytes m new_bytes.

Definition deletes (e : lpele) : bool := match e with EleNone => true | _ => false end.

(** [lpInsert] once [where] is [LP_BEFORE] or [LP_REPLACE].  [None] is a null
    return value; the second component is [*newp]. *)
Definition lp_insert_at `{Heap} `{Usable} (m : list Z) (e : lpele) (poff : Z) (w : lpwhere)
    : res (option (list Z * option Z)) :=
  let delete := deletes e in
  let enclen := lp_enclen e in
  let backlen := if delete then [] else lpEncodeBacklen enclen in
  let backlen_size := Z.of_nat (length backlen) in
  old_bytes ← lpGetTotalBytes m;
  replaced_len ← match w with
                 | LP_REPLACE =>
                     n ← lpCurrentEncodedSizeUnsafe m poff;
                     let n := u32 (n + lpBacklenSize n) in
                     _ ← ASSERT_INTEGRITY_LEN m poff n;
                     Ret n
                 | _ => Ret 0
                 end;
  let new_bytes := u64 (old_bytes + enclen + backlen_size - replaced_len) in
  if UINT32_MAX <? new_bytes then Ret None else
  m ← lp_make_room m poff (enclen + backlen_size) replaced_len old_bytes new_bytes;
  newp ← (if delete then b ← aget m poff; Ret (if b =? LP_EOF then None else Some poff) else Ret (Some poff));
  m ← (if delete then Ret m else
       m ← store_bytes poff (lp_encode e) m;
       store_bytes (poff + enclen) backlen m);
  m ← lp_update_header m (match w with LP_REPLACE => delete | _ => true end) delete new_bytes;
  Ret (Some (m, newp)).

(** Deletion is a replacement, whatever [where] says; insertion after an entry
    is insertion before the next one. *)
Definition lpInsert `{Heap} `{Usable} (m : list Z) (e : lpele) (p : Z) (w : lpwhere)
    : res (option (list Z * option Z)) :=
  match (if deletes e then LP_REPLACE else w) with
  | LP_AFTER => p ← lpSkip m p; _ ← ASSERT_INTEGRITY m p; lp_insert_at m e p LP_BEFORE
  | w => lp_insert_at m e p w
  end.

Section Wrappers.
Context `{Heap} `{Usable}.

Definition lpInsertString (m s : list Z) (p : Z) (w : lpwhere) := lpInsert m (EleStr s) p w.
Definition lpInsertInteger (m : list Z) (lval p : Z) (w : lpwhere) :=
  lpInsert m (EleInt (lpEncodeIntegerGetType lval)) p w.

Definition lpAppend (m ele : list Z) :=
  listpack_bytes ← lpGetTotalBytes m;
  lpInsert m (EleStr ele) (listpack_bytes - 1) LP_BEFORE.
Definition lpAppendInteger (m : list Z) (lval : Z) :=
  listpack_bytes ← lpGetTotalBytes m;
  lpInsertInteger m lval (listpack_bytes - 1) LP_BEFORE.
Definition lpPrepend (m s : list Z) :=
  p ← lpFirst m;
  match p with None => lpAppend m s | Some p => lpInsert m (EleStr s) p LP_BEFORE end.
Definition lpPrependInteger (m : list Z) (lval : Z) :=
  p ← lpFirst m;
  match p with None => lpAppendInteger m lval | Some p => lpInsertInteger m lval p LP_BEFORE end.
Definition lpReplace (m : list Z) (p : Z) (s : list Z) := lpInsert m (EleStr s) p LP_REPLACE.
Definition lpReplaceInteger (m : list Z) (p lval : Z) := lpInsertInteger m lval p LP_REPLACE.
Definition lpDelete (m : list Z) (p : Z) := lpInsert m EleNone p LP_REPLACE.

(** ** Deletion of ranges *)

(** [while (num--)]: the entry after the last one to delete, and the number of
    entries passed. *)
Fixpoint range_loop (num : nat) (m : list Z) (bytes tail deleted : Z) : res (Z * Z) :=
  match num with
  | O => Ret (tail, deleted)
  | S num =>
      tail ← lpSkip m tail;
      b ← aget m tail;
      if b =? LP_EOF then Ret (tail, deleted + 1) else
      _ ← lpAssertValidEntry m bytes tail;
      range_loop num m bytes tail (deleted + 1)
  end.

(** "Move tail to the front of the listpack", and update the header. *)
Definition lp_close_gap (m : list Z) (first tail bytes deleted : Z) : res (list Z) :=
  let eofptr := bytes - 1 in
  m ← memmove first tail (eofptr - tail + 1) m;
  m ← lpSetTotalBytes m (bytes - (tail - first));
  numele ← lpGetNumElements m;
  m ← (if negb (numele =? LP_HDR_NUMELE_UNKNOWN) then lpSetNumElements m (numele - deleted) else Ret m);
  lpShrinkToFit m.

Definition lpDeleteRangeWithEntry (m : list Z) (p : Z) (num : nat) : res (list Z * option Z) :=
  bytes ← lpBytes m;
  if (num =? 0)%nat then Ret (m, Some p) else
  '(tail, deleted) ← range_loop num m bytes p 0;
  m ← lp_close_gap m p tail bytes deleted;
  b ← aget m p;
  Ret (m, if b =? LP_EOF then None else Some p).

Definition lpDeleteRange (m : list Z) (index : Z) (num : nat) : res (list Z) :=
  numele ← lpGetNumElements m;
  if (num =? 0)%nat then Ret m else
  p ← lpSeek m index;
  match p with
  | None => Ret m
  | Some p =>
      let known := negb (numele =? LP_HDR_NUMELE_UNKNOWN) in
      let index := if known && (index <? 0) then numele + index else index in
      if known && (u64 (numele - index) <=? Z.of_nat num) then
        m ← aset m p LP_EOF;
        m ← lpSetTotalBytes m (p + 1);
        m ← lpSetNumElements m index;
        lpShrinkToFit m
      else
        '(m, _) ← lpDeleteRangeWithEntry m p num;
        Ret m
  end.

(** The loop of [lpBatchDelete] over the pointers [ps]: the bytes between an
    entry to delete and the next one, or the end, are moved to [dst]. *)
Fixpoint batch_loop (ps : list Z) (m : list Z) (dst lp_end : Z) : res (list Z * Z) :=
  match ps with
  | [] => Ret (m, dst)
  | skip :: ps =>
      b ← aget m skip;
      _ ← assert (negb (b =? LP_EOF));
      keep_start ← lpSkip m skip;
      let keep_end := match ps with next :: _ => next | [] => lp_end end in
      if match ps with _ :: _ => keep_start =? keep_end | [] => false end then batch_loop ps m dst lp_end else
      _ ← assert (keep_start <? keep_end);
      let bytes_to_keep := keep_end - keep_start in
      m ← memmove dst keep_start bytes_to_keep m;
      batch_loop ps m (dst + bytes_to_keep) lp_end
  end.

Definition lpBatchDelete (m : list Z) (ps : list Z) : res (list Z) :=
  match ps with
  | [] => Ret m
  | dst :: _ =>
      total_bytes ← lpGetTotalBytes m;
      b ← aget m (total_bytes - 1);
      _ ← assert (b =? LP_EOF);
      '(m, dst) ← batch_loop ps m dst total_bytes;
      let total_bytes := total_bytes - (total_bytes - dst) in
      b ← aget m (total_bytes - 1);
      _ ← assert (b =? LP_EOF);
      m ← lpSetTotalBytes m total_bytes;
      numele ← lpGetNumElements m;
      m ← (if negb (numele =? LP_HDR_NUMELE_UNKNOWN) then lpSetNumElements m (numele - Z.of_nat (length ps)) else Ret m);
      lpShrinkToFit m
  end.

(** ** Merging *)

(** The two allocations are different, as the code checks. *)
Definition lpMerge (first second : list Z) : res (list Z) :=
  first_bytes ← lpBytes first;
  '(first_len, first) ← lpLength first;
  second_bytes ← lpBytes second;
  '(second_len, second) ← lpLength second;
  let append := second_bytes <=? first_bytes in
  let '(target, target_bytes, source, source_bytes) :=
    if append then (first, first_bytes, second, second_bytes) else (second, second_bytes, first, first_bytes) in
  let lpbytes := first_bytes + second_bytes - LP_HDR_SIZE - 1 in
  _ ← assert (lpbytes <? UINT32_MAX);
  let lplength := first_len + second_len in
  let lplength := if lplength <? 65535 then lplength else 65535 in
  let target := lp_realloc target lpbytes in
  target ← (if append then
              bs ← load_bytes (source_bytes - LP_HDR_SIZE) LP_HDR_SIZE source;
              store_bytes (target_bytes - 1) bs target
            else
              target ← memmove (source_bytes - 1) LP_HDR_SIZE (target_bytes - LP_HDR_SIZE) target;
              bs ← load_bytes (source_bytes - 1) 0 source;
              store_bytes 0 bs target);
  target ← lpSetNumElements target lplength;
  lpSetTotalBytes target lpbytes.

Definition lpDup (m : list Z) : res (list Z) :=
  lpbytes ← lpBytes m;
  bs ← load_bytes lpbytes 0 m;
  store_bytes 0 bs (lp_realloc [] lpbytes).

Definition lpEstimateBytesRepeatedInteger (lval rep : Z) : Z :=
  let enclen := Z.of_nat (length (lpEncodeIntegerGetType lval)) in
  LP_HDR_SIZE + (enclen + lpBacklenSize enclen) * rep + 1.
End Wrappers.

(** ** Validation of a whole listpack *)

(** [entry_cb] sees the entry and the number in the header. *)
Fixpoint lp_validate_loop (fuel : nat) (m : list Z) (bytes numele : Z) (entry_cb : option (Z -> Z -> bool))
    (p : option Z) (count : Z) : res (option (option Z * Z)) :=
  match p with
  | None => Ret (Some (None, count))
  | Some q =>
      b ← aget m q;
      if b =? LP_EOF then Ret (Some (p, count)) else
      match fuel with
      | O => Diverge
      | S fuel =>
          r ← lpValidateNext m p bytes;
          match r with
          | None => Ret None
          | Some p' =>
              if match entry_cb with Some cb => negb (cb q numele) | None => false end then Ret None
              else lp_validate_loop fuel m bytes numele entry_cb p' (u32 (count + 1))
          end
      end
  end.

Definition lpValidateIntegrity (m : list Z) (size : Z) (deep : bool) (entry_cb : option (Z -> Z -> bool)) : res bool :=
  if size <? LP_HDR_SIZE + 1 then Ret false else
  bytes ← lpGetTotalBytes m;
  if negb (bytes =? size) then Ret false else
  b ← aget m (size - 1);
  if negb (b =? LP_EOF) then Ret false else
  if negb deep then Ret true else
  numele ← lpGetNumElements m;
  r ← lp_validate_loop (length m) m bytes numele entry_cb (Some LP_HDR_SIZE) 0;
  match r with
  | None => Ret false
  | Some (p, count) =>
      if negb (bool_decide (p = Some (size - 1))) then Ret false else
      Ret (negb (negb (numele =? LP_HDR_NUMELE_UNKNOWN) && negb (numele =? count)))
  end.
