(* ===== verification/ListpackEnc.v ===== *)
(** * Encoding of listpack entries

    What an entry of [Listpack] stores, the shape of its bytes for each kind
    of encoding, and that the functions that read the entry at a pointer
    ([lpCurrentEncodedSizeUnsafe], [lpDecodeBacklen], [lpGetWithSize],
    [lpValidateNext], ...) recover it. *)
From S2P Require Import Prelude Mem NumStr Listpack.

Local Open Scope Z_scope.

(** ** Elements *)

Inductive elem : Type := EInt (v : Z) | EStr (s : list Z).

#[export] Instance elem_eq_dec : EqDecision elem.
Proof. solve_decision. Defined.

Definition elem_ok (e : elem) : Prop :=
  match e with
  | EInt v => LLONG_MIN <= v <= LLONG_MAX
  | EStr s => bytes s /\ Z.of_nat (length s) + 5 < 2 ^ 32
  end.

Definition enc_data (e : elem) : list Z :=
  match e with EInt v => lpEncodeIntegerGetType v | EStr s => lpEncodeString s end.

Definition enc_size (e : elem) : Z := Z.of_nat (length (enc_data e)).

Definition entry_bytes (e : elem) : list Z := enc_data e ++ lpEncodeBacklen (enc_size e).

Definition entry_size (e : elem) : Z := Z.of_nat (length (entry_bytes e)).

(** ** Kinds of encodings *)

Inductive kind : Type := K7 | K6S | K13 | K16 | K24 | K32 | K64 | K12S | K32S | KEOF | KBAD.

Definition kind_of (b : Z) : kind :=
  if LP_ENCODING_IS_7BIT_UINT b then K7
  else if LP_ENCODING_IS_6BIT_STR b then K6S
  else if LP_ENCODING_IS_13BIT_INT b then K13
  else if LP_ENCODING_IS_16BIT_INT b then K16
  else if LP_ENCODING_IS_24BIT_INT b then K24
  else if LP_ENCODING_IS_32BIT_INT b then K32
  else if LP_ENCODING_IS_64BIT_INT b then K64
  else if LP_ENCODING_IS_12BIT_STR b then K12S
  else if LP_ENCODING_IS_32BIT_STR b then K32S
  else if b =? LP_EOF then KEOF
  else KBAD.

#[export] Instance kind_eq_dec : EqDecision kind.
Proof. solve_decision. Defined.

(** A decidable statement about bytes holds when it holds of the 256 of them. *)
Lemma byte_forall (P : Z -> Prop) `{!forall b, Decision (P b)} :
  bool_decide (Forall P (seqZ 0 256)) = true -> forall b, 0 <= b < 256 -> P b.
Proof. intros Hall%bool_decide_eq_true b Hb. rewrite Forall_forall in Hall. apply Hall, elem_of_seqZ. lia. Qed.

Ltac by_bytes :=
  match goal with |- forall b, 0 <= b < 256 -> @?P b => apply (byte_forall P); vm_compute; reflexivity end.

Lemma kind_table : forall b, 0 <= b < 256 ->
  (b < 128 -> kind_of b = K7) /\ (128 <= b < 192 -> kind_of b = K6S) /\ (192 <= b < 224 -> kind_of b = K13) /\
  (224 <= b < 240 -> kind_of b = K12S).
Proof. by_bytes. Qed.

Lemma byte_fields : forall b, 0 <= b < 256 ->
  (b < 128 -> Z.land b 0x7f = b /\ Z.land b 128 = 0) /\
  (128 <= b -> Z.land b 127 = b - 128 /\ Z.land b 128 = 128) /\
  (128 <= b < 192 -> Z.land b 0x3F = b - 128) /\ (192 <= b < 224 -> Z.land b 0x1f = b - 192) /\
  (224 <= b < 240 -> Z.land b 0xF = b - 224).
Proof. by_bytes. Qed.

Lemma byte_tags : forall b, 0 <= b < 256 ->
  (b < 128 -> Z.lor b 128 = 128 + b) /\ (b < 32 -> u8 (Z.lor b 0xC0) = 192 + b) /\ (b < 16 -> Z.lor b 0xE0 = 224 + b).
Proof. by_bytes. Qed.

(** ** The shape of the encoded data *)

Definition int_code (k : kind) : Z := match k with K16 => 0xF1 | K24 => 0xF2 | K32 => 0xF3 | _ => 0xF4 end.

Inductive form : elem -> kind -> list Z -> Prop :=
  | F7 v : 0 <= v <= 127 -> form (EInt v) K7 [v]
  | F13 v : -4096 <= v <= 4095 -> form (EInt v) K13 [192 + v mod 8192 / 256; v mod 256]
  | FInt v k n : (k, n) ∈ [(K16, 2%nat); (K24, 3%nat); (K32, 4%nat); (K64, 8%nat)] ->
      - (256 ^ Z.of_nat n) <= 2 * v < 256 ^ Z.of_nat n -> form (EInt v) k (int_code k :: le_split n v)
  | F6S s : Z.of_nat (length s) < 64 -> form (EStr s) K6S (128 + Z.of_nat (length s) :: s)
  | F12S s : 64 <= Z.of_nat (length s) < 4096 ->
      form (EStr s) K12S (224 + Z.of_nat (length s) / 256 :: Z.of_nat (length s) mod 256 :: s)
  | F32S s : 4096 <= Z.of_nat (length s) -> form (EStr s) K32S (0xF0 :: le_split 4 (Z.of_nat (length s)) ++ s).

Lemma land_ff x : Z.land x 0xff = x mod 256.
Proof. change 0xff with (Z.ones 8). by rewrite Z.land_ones by lia. Qed.

Lemma shiftr_bytes x n : Z.shiftr x (8 * Z.of_nat n) = x / 256 ^ Z.of_nat n.
Proof. rewrite Z.shiftr_div_pow2 by lia. by rewrite Z.pow_mul_r by lia. Qed.

Lemma le_split_S n x : le_split (S n) x = Z.land x 0xff :: le_split n (Z.shiftr x 8).
Proof. cbn [le_split]. by rewrite land_ff, Z.shiftr_div_pow2. Qed.

Lemma le_split_1 x : le_split 1 x = [u8 x].
Proof. done. Qed.

(** The bytes as the code writes them. *)
Ltac le_bytes :=
  rewrite !le_split_S, ?Z.shiftr_shiftr by lia; cbn [le_split Z.add Pos.add Pos.succ]; rewrite ?land_ff; reflexivity.

Lemma le_bytes_2 x : [Z.land x 0xff; u8 (Z.shiftr x 8)] = le_split 2 x.
Proof. le_bytes. Qed.
Lemma le_bytes_3 x : [Z.land x 0xff; Z.land (Z.shiftr x 8) 0xff; u8 (Z.shiftr x 16)] = le_split 3 x.
Proof. le_bytes. Qed.
Lemma le_bytes_4 x :
  [Z.land x 0xff; Z.land (Z.shiftr x 8) 0xff; Z.land (Z.shiftr x 16) 0xff; u8 (Z.shiftr x 24)] = le_split 4 x.
Proof. le_bytes. Qed.
Lemma le_bytes_8 x :
  [Z.land x 0xff; Z.land (Z.shiftr x 8) 0xff; Z.land (Z.shiftr x 16) 0xff; Z.land (Z.shiftr x 24) 0xff;
   Z.land (Z.shiftr x 32) 0xff; Z.land (Z.shiftr x 40) 0xff; Z.land (Z.shiftr x 48) 0xff; u8 (Z.shiftr x 56)] = le_split 8 x.
Proof. le_bytes. Qed.

Lemma le_split_unsigned n v x : le_split n (if v <? 0 then 256 ^ Z.of_nat n + x else x) = le_split n x.
Proof. destruct (v <? 0); [|done]. rewrite Z.add_comm, <- (Z.mul_1_l (256 ^ Z.of_nat n)). apply le_split_app_mod. Qed.

Lemma enc_int_form v : LLONG_MIN <= v <= LLONG_MAX -> exists k, form (EInt v) k (lpEncodeIntegerGetType v).
Proof.
  unfold LLONG_MIN, LLONG_MAX. intros Hv. unfold lpEncodeIntegerGetType.
  case_match eqn:E1. { exists K7. constructor. lia. }
  case_match eqn:E2.
  { exists K13. assert ((if v <? 0 then Z.shiftl 1 13 + v else v) = v mod 8192) as ->.
    { destruct (Z.ltb_spec v 0); [rewrite <- (Z.mod_add v 1 8192), Z.mod_small by lia; change (Z.shiftl 1 13) with 8192; lia|rewrite Z.mod_small by lia; done]. }
    rewrite land_ff, Z.shiftr_div_pow2 by lia. pose proof (Z.mod_pos_bound v 8192 ltac:(lia)).
    pose proof (Z.div_lt_upper_bound (v mod 8192) 256 32 ltac:(lia) ltac:(lia)). pose proof (Z.div_pos (v mod 8192) 256).
    change (2 ^ 8) with 256. destruct (byte_tags (v mod 8192 / 256) ltac:(lia)) as (_ & -> & _); [|lia].
    assert (v mod 8192 mod 256 = v mod 256) as ->; [|constructor; lia]. rewrite <- Znumtheory.Zmod_div_mod; try lia. by exists 32. }
  case_match eqn:E3.
  { exists K16. change (Z.shiftl 1 16) with (256 ^ Z.of_nat 2). rewrite le_bytes_2, (le_split_unsigned 2 v v). apply (FInt v K16 2); [by repeat constructor|lia]. }
  case_match eqn:E4.
  { exists K24. change (Z.shiftl 1 24) with (256 ^ Z.of_nat 3). rewrite le_bytes_3, (le_split_unsigned 3 v v). apply (FInt v K24 3); [by repeat constructor|lia]. }
  case_match eqn:E5.
  { exists K32. change (Z.shiftl 1 32) with (256 ^ Z.of_nat 4). rewrite le_bytes_4, (le_split_unsigned 4 v v). apply (FInt v K32 4); [by repeat constructor|lia]. }
  exists K64. rewrite le_bytes_8. unfold uwrap. rewrite Z.mod_eq by lia.
  replace (v - 2 ^ 64 * (v / 2 ^ 64)) with (v + (- (v / 2 ^ 64)) * 256 ^ Z.of_nat 8) by (cbn; lia).
  rewrite le_split_app_mod. apply (FInt v K64 8); [by repeat constructor|lia].
Qed.

Lemma le_bytes_len x : 0 <= x < 2 ^ 32 ->
  [Z.land x 0xff; Z.land (Z.shiftr x 8) 0xff; Z.land (Z.shiftr x 16) 0xff; Z.land (Z.shiftr x 24) 0xff] = le_split 4 x.
Proof. intros _. le_bytes. Qed.

Lemma enc_str_form s : Z.of_nat (length s) + 5 < 2 ^ 32 -> exists k, form (EStr s) k (lpEncodeString s).
Proof.
  intros Hs. unfold lpEncodeString. case_match eqn:E1.
  { exists K6S. destruct (byte_tags (Z.of_nat (length s)) ltac:(lia)) as (-> & _); [|lia]. constructor. lia. }
  case_match eqn:E2.
  { exists K12S. rewrite land_ff, Z.shiftr_div_pow2 by lia. change (2 ^ 8) with 256.
    pose proof (Z.div_lt_upper_bound (Z.of_nat (length s)) 256 16 ltac:(lia) ltac:(lia)).
    pose proof (Z.div_pos (Z.of_nat (length s)) 256).
    destruct (byte_tags (Z.of_nat (length s) / 256) ltac:(lia)) as (_ & _ & ->); [|lia]. constructor. lia. }
  exists K32S. pose proof (le_bytes_len (Z.of_nat (length s)) ltac:(lia)) as E.
  assert (0xF0 :: Z.land (Z.of_nat (length s)) 0xff :: Z.land (Z.shiftr (Z.of_nat (length s)) 8) 0xff ::
    Z.land (Z.shiftr (Z.of_nat (length s)) 16) 0xff :: Z.land (Z.shiftr (Z.of_nat (length s)) 24) 0xff :: s
    = 0xF0 :: le_split 4 (Z.of_nat (length s)) ++ s) as ->; [by rewrite <- E|]. constructor. lia.
Qed.

Lemma enc_form e : elem_ok e -> exists k, form e k (enc_data e).
Proof. destruct e as [v|s]; cbn; [apply enc_int_form|]. intros [_ Hs]. by apply enc_str_form. Qed.

Lemma int_kinds k n :
  (k, n) ∈ [(K16, 2%nat); (K24, 3%nat); (K32, 4%nat); (K64, 8%nat)] ->
  (k = K16 /\ n = 2%nat) \/ (k = K24 /\ n = 3%nat) \/ (k = K32 /\ n = 4%nat) \/ (k = K64 /\ n = 8%nat).
Proof. rewrite !elem_of_cons, elem_of_nil. naive_solver. Qed.

(** The first byte tells the kind; none is the end marker. *)
Lemma form_head e k l : form e k l -> exists b t, l = b :: t /\ 0 <= b < 255 /\ kind_of b = k.
Proof.
  intros Hf. destruct Hf as [v Hv|v Hv|v k n Hk Hv|s Hs|s Hs|s Hs]; eexists _, _; (split; [done|]).
  - split; [lia|]. destruct (kind_table v) as (H & _); [lia|]. apply H. lia.
  - pose proof (Z.mod_pos_bound v 8192 ltac:(lia)).
    pose proof (Z.div_lt_upper_bound (v mod 8192) 256 32 ltac:(lia) ltac:(lia)). pose proof (Z.div_pos (v mod 8192) 256).
    split; [lia|]. destruct (kind_table (192 + v mod 8192 / 256)) as (_ & _ & H' & _); [lia|]. apply H'. lia.
  - by destruct (int_kinds k n Hk) as [[-> ->]|[[-> ->]|[[-> ->]|[-> ->]]]].
  - split; [lia|]. destruct (kind_table (128 + Z.of_nat (length s))) as (_ & H & _); [lia|]. apply H. lia.
  - pose proof (Z.div_lt_upper_bound (Z.of_nat (length s)) 256 16 ltac:(lia) ltac:(lia)).
    pose proof (Z.div_pos (Z.of_nat (length s)) 256).
    split; [lia|]. destruct (kind_table (224 + Z.of_nat (length s) / 256)) as (_ & _ & _ & H'); [lia|]. apply H'. lia.
  - done.
Qed.

(** ** The length that is read backwards *)

Lemma lor_shiftl_low v x n : 0 <= n -> 0 <= v < 2 ^ n -> Z.lor v (Z.shiftl x n) = x * 2 ^ n + v.
Proof. intros Hn Hv. rewrite Z.lor_comm. by apply lor_shiftl_add. Qed.

(** One more byte of the backward length. *)
Lemma backlen_more fuel m p val shift x :
  aget m p = Ret (128 + x) -> 0 <= x < 128 -> 0 <= val < 2 ^ shift -> 0 <= shift <= 21 ->
  backlen_loop (S fuel) m p val shift = backlen_loop fuel m (p - 1) (x * 2 ^ shift + val) (shift + 7).
Proof.
  intros Hb Hx Hv Hs. cbn [backlen_loop]. rewrite Hb. cbn [mbind res_bind].
  destruct (byte_fields (128 + x) ltac:(lia)) as (_ & [-> ->] & _); [lia|]. cbn [Z.eqb].
  destruct (Z.ltb_spec 28 (shift + 7)); [lia|]. rewrite lor_shiftl_low by lia. do 2 f_equal. lia.
Qed.

Lemma backlen_last fuel m p val shift x :
  aget m p = Ret x -> 0 <= x < 128 -> 0 <= val < 2 ^ shift -> 0 <= shift ->
  backlen_loop (S fuel) m p val shift = Ret (x * 2 ^ shift + val).
Proof.
  intros Hb Hx Hv Hs. cbn [backlen_loop]. rewrite Hb. cbn [mbind res_bind].
  destruct (byte_fields x ltac:(lia)) as ([-> ->] & _); [lia|]. cbn [Z.eqb]. by rewrite lor_shiftl_low by lia.
Qed.

Lemma tag_7bits l : Z.lor (Z.land l 127) 128 = 128 + l mod 128.
Proof.
  change 127 with (Z.ones 7). rewrite Z.land_ones by lia. pose proof (Z.mod_pos_bound l 128 ltac:(lia)).
  change (2 ^ 7) with 128. destruct (byte_tags (l mod 128) ltac:(lia)) as (-> & _); [done|lia].
Qed.

Lemma shiftr_7 l : Z.shiftr l 7 = l / 128.
Proof. by rewrite Z.shiftr_div_pow2. Qed.
Lemma shiftr_14 l : Z.shiftr l 14 = l / 128 / 128.
Proof. by rewrite Z.shiftr_div_pow2, Z.div_div. Qed.
Lemma shiftr_21 l : Z.shiftr l 21 = l / 128 / 128 / 128.
Proof. by rewrite Z.shiftr_div_pow2, !Z.div_div. Qed.
Lemma shiftr_28 l : Z.shiftr l 28 = l / 128 / 128 / 128 / 128.
Proof. by rewrite Z.shiftr_div_pow2, !Z.div_div. Qed.

(** The backward length as digits in base 128, the most significant first. *)
Fixpoint base128 (n : nat) (l : Z) : list Z :=
  match n with
  | O => [l]
  | S n => base128 n (l / 128) ++ [128 + l mod 128]
  end.

Lemma length_base128 n l : length (base128 n l) = S n.
Proof. revert l. induction n as [|n IH]; intros l; cbn; [done|]. rewrite length_app, IH. cbn. lia. Qed.

Lemma div128 l k : 0 <= l < 128 * k -> 0 <= l / 128 < k.
Proof. intros H. split; [apply Z.div_pos; lia|]. apply Z.div_lt_upper_bound; lia. Qed.

Lemma lpEncodeBacklen_base128 l :
  0 <= l < 2 ^ 35 -> exists n, (n <= 4)%nat /\ lpEncodeBacklen l = base128 n l /\ 0 <= l < 2 ^ (7 * (Z.of_nat n + 1)).
Proof.
  intros Hl. unfold lpEncodeBacklen. rewrite shiftr_7, shiftr_14, shiftr_21, shiftr_28, !tag_7bits.
  case_match eqn:E1; [exists 0%nat|case_match eqn:E2; [exists 1%nat|case_match eqn:E3; [exists 2%nat|case_match eqn:E4; [exists 3%nat|exists 4%nat]]]].
  all: split; [lia|]; split; [cbn [base128 app]; rewrite (uwrap_id 8); [reflexivity|]|lia]; change (2 ^ 8) with 256.
  - lia.
  - pose proof (div128 l 128). lia.
  - pose proof (div128 l (128 * 128)). pose proof (div128 (l / 128) 128). lia.
  - pose proof (div128 l (128 * 128 * 128)). pose proof (div128 (l / 128) (128 * 128)). pose proof (div128 (l / 128 / 128) 128). lia.
  - pose proof (div128 l (128 * 128 * 128 * 128)). pose proof (div128 (l / 128) (128 * 128 * 128)).
    pose proof (div128 (l / 128 / 128) (128 * 128)). pose proof (div128 (l / 128 / 128 / 128) 128). lia.
Qed.

Lemma backlen_loop_base128 n fuel m p l val shift :
  sees m (p - Z.of_nat n) (base128 n l) -> 0 <= l < 2 ^ (7 * (Z.of_nat n + 1)) -> (n < fuel)%nat ->
  0 <= shift -> shift + 7 * Z.of_nat n <= 28 -> 0 <= val < 2 ^ shift ->
  backlen_loop fuel m p val shift = Ret (l * 2 ^ shift + val).
Proof.
  revert fuel p l val shift. induction n as [|n IH]; intros fuel p l val shift Hm Hl Hf Hs Hs' Hv;
    (destruct fuel as [|fuel]; [lia|]).
  - cbn in Hm. rewrite Z.sub_0_r in Hm. by rewrite (backlen_last fuel m p val shift l) by (done || lia || by eapply sees_head).
  - cbn [base128] in Hm. apply sees_app in Hm as [Hm1 Hm2]. rewrite length_base128 in Hm2.
    replace (p - Z.of_nat (S n) + Z.of_nat (S n)) with p in Hm2 by lia. apply sees_head in Hm2.
    pose proof (Z.mod_pos_bound l 128 ltac:(lia)) as Hmod.
    rewrite (backlen_more fuel m p val shift (l mod 128)) by (done || lia).
    assert (2 ^ (shift + 7) = 128 * 2 ^ shift) as E by (rewrite Z.pow_add_r by lia; lia).
    rewrite (IH fuel (p - 1) (l / 128)).
    + f_equal. rewrite E. rewrite (Z.div_mod l 128) at 3 by lia. ring.
    + by replace (p - 1 - Z.of_nat n) with (p - Z.of_nat (S n)) by lia.
    + apply div128. replace (7 * (Z.of_nat (S n) + 1)) with (7 + 7 * (Z.of_nat n + 1)) in Hl by lia.
      rewrite Z.pow_add_r in Hl by lia. exact Hl.
    + lia.
    + lia.
    + lia.
    + rewrite E. split; [|nia]. apply Z.add_nonneg_nonneg; [|lia]. apply Z.mul_nonneg_nonneg; lia.
Qed.

(** The backward length reads what was written, from its last byte. *)
Lemma lpDecodeBacklen_encode m p l :
  0 <= l < 2 ^ 35 -> sees m (p + 1 - lpBacklenSize l) (lpEncodeBacklen l) -> lpDecodeBacklen m p = Ret l.
Proof.
  intros Hl Hm. unfold lpBacklenSize in Hm. destruct (lpEncodeBacklen_base128 l Hl) as (n & Hn & E & Hb).
  rewrite E, length_base128 in Hm. unfold lpDecodeBacklen. rewrite (backlen_loop_base128 n 5 m p l 0 0); try lia.
  - f_equal. lia.
  - by replace (p - Z.of_nat n) with (p + 1 - Z.of_nat (S n)) by lia.
Qed.

Lemma lpBacklenSize_range l : 1 <= lpBacklenSize l <= 5.
Proof. unfold lpBacklenSize, lpEncodeBacklen. repeat case_match; cbn; lia. Qed.

(** ** Reading the size *)

Lemma sizeUnsafe_kind m p b :
  aget m p = Ret b ->
  lpCurrentEncodedSizeUnsafe m p =
  match kind_of b with
  | K7 => Ret 1 | K13 => Ret 2 | K16 => Ret 3 | K24 => Ret 4 | K32 => Ret 5 | K64 => Ret 9
  | K6S => n ← LP_ENCODING_6BIT_STR_LEN m p; Ret (1 + n)
  | K12S => n ← LP_ENCODING_12BIT_STR_LEN m p; Ret (2 + n)
  | K32S => n ← LP_ENCODING_32BIT_STR_LEN m p; Ret (u32 (5 + n))
  | KEOF => Ret 1 | KBAD => Ret 0
  end.
Proof. intros Hb. unfold lpCurrentEncodedSizeUnsafe, kind_of. rewrite Hb. cbn [mbind res_bind]. by repeat case_match. Qed.

Lemma sizeBytes_kind m p b :
  aget m p = Ret b ->
  lpCurrentEncodedSizeBytes m p = Ret (match kind_of b with KBAD => 0 | K12S => 2 | K32S => 5 | _ => 1 end).
Proof. intros Hb. unfold lpCurrentEncodedSizeBytes, kind_of. rewrite Hb. cbn [mbind res_bind]. by repeat case_match. Qed.

(** The lengths of strings read back. *)
Lemma str_len_6 m p (s t : list Z) : Z.of_nat (length s) < 64 -> sees m p ((128 + Z.of_nat (length s)) :: t) ->
  LP_ENCODING_6BIT_STR_LEN m p = Ret (Z.of_nat (length s)).
Proof.
  intros Hs Hm. unfold LP_ENCODING_6BIT_STR_LEN. rewrite (sees_head _ _ _ _ Hm). cbn [mbind res_bind].
  destruct (byte_fields (128 + Z.of_nat (length s)) ltac:(lia)) as (_ & _ & -> & _); [f_equal; lia|lia].
Qed.

Lemma str_len_12 m p (s t : list Z) : 64 <= Z.of_nat (length s) < 4096 ->
  sees m p ((224 + Z.of_nat (length s) / 256) :: Z.of_nat (length s) mod 256 :: t) ->
  LP_ENCODING_12BIT_STR_LEN m p = Ret (Z.of_nat (length s)).
Proof.
  intros Hs Hm. unfold LP_ENCODING_12BIT_STR_LEN. rewrite (sees_head _ _ _ _ Hm). cbn [mbind res_bind].
  rewrite (sees_head _ _ _ _ (sees_tail _ _ _ _ Hm)). cbn [mbind res_bind].
  pose proof (Z.div_lt_upper_bound (Z.of_nat (length s)) 256 16 ltac:(lia) ltac:(lia)).
  pose proof (Z.div_pos (Z.of_nat (length s)) 256). pose proof (Z.mod_pos_bound (Z.of_nat (length s)) 256).
  destruct (byte_fields (224 + Z.of_nat (length s) / 256) ltac:(lia)) as (_ & _ & _ & _ & ->); [|lia].
  rewrite lor_shiftl_add by lia. f_equal. pose proof (Z.div_mod (Z.of_nat (length s)) 256). lia.
Qed.

Lemma str_len_32 m p (s t : list Z) : Z.of_nat (length s) < 2 ^ 32 -> sees m p (0xF0 :: le_split 4 (Z.of_nat (length s)) ++ t) ->
  LP_ENCODING_32BIT_STR_LEN m p = Ret (Z.of_nat (length s)).
Proof.
  intros Hs Hm. unfold LP_ENCODING_32BIT_STR_LEN. apply sees_tail, sees_app_l, sees_load in Hm.
  rewrite length_le_split in Hm. change (Z.of_nat 4) with 4 in Hm. rewrite Hm. f_equal.
  rewrite le_combine_split. apply Z.mod_small. change (256 ^ Z.of_nat 4) with (2 ^ 32). lia.
Qed.

Lemma sizeUnsafe_form m p e k l : form e k l -> elem_ok e -> sees m p l ->
  lpCurrentEncodedSizeUnsafe m p = Ret (Z.of_nat (length l)).
Proof.
  intros Hf Hok Hm. destruct (form_head _ _ _ Hf) as (b & t & E & Hb & Hk).
  pose proof Hm as Hm'. rewrite E in Hm'. rewrite (sizeUnsafe_kind m p b) by by eapply sees_head. rewrite Hk. clear b t E Hb Hk Hm'.
  destruct Hf as [v Hv|v Hv|v k n Hk Hv|s Hs|s Hs|s Hs]; try done.
  - by destruct (int_kinds k n Hk) as [[-> ->]|[[-> ->]|[[-> ->]|[-> ->]]]].
  - rewrite (str_len_6 m p s _ Hs Hm). cbn [mbind res_bind length]. f_equal. lia.
  - rewrite (str_len_12 m p s _ Hs Hm). cbn [mbind res_bind length]. f_equal. lia.
  - destruct Hok as [_ Hok]. rewrite (str_len_32 m p s s) by (done || lia). cbn [mbind res_bind length].
    rewrite uwrap_id by lia. rewrite length_app, length_le_split. f_equal. lia.
Qed.

Lemma sizeBytes_form m p e k l : form e k l -> sees m p l ->
  exists n, lpCurrentEncodedSizeBytes m p = Ret n /\ 1 <= n <= Z.of_nat (length l).
Proof.
  intros Hf Hm. destruct (form_head _ _ _ Hf) as (b & t & E & Hb & Hk).
  pose proof Hm as Hm'. rewrite E in Hm'. rewrite (sizeBytes_kind m p b) by by eapply sees_head. rewrite Hk. eexists. split; [done|].
  clear b t E Hb Hk Hm'. destruct Hf as [v Hv|v Hv|v k n Hk Hv|s Hs|s Hs|s Hs]; cbn [length]; rewrite ?length_app, ?length_le_split; try lia.
  destruct (int_kinds k n Hk) as [[-> ->]|[[-> ->]|[[-> ->]|[-> ->]]]]; lia.
Qed.

(** ** Reading the value *)

Lemma getWithSize_kind m p b :
  aget m p = Ret b ->
  let int uval negstart negmax size := Ret (Integer (lp_signed uval negstart negmax), size) in
  lpGetWithSize m p None =
  match kind_of b with
  | K7 => int (Z.land b 0x7f) UINT64_MAX 0 (Some 2)
  | K6S => count ← LP_ENCODING_6BIT_STR_LEN m p; Ret (InPack (p + 1) count, Some (1 + count + lpBacklenSize (count + 1)))
  | K13 => b1 ← aget m (p + 1); int (Z.lor (Z.shiftl (Z.land b 0x1f) 8) b1) (Z.shiftl 1 12) 8191 (Some 3)
  | K16 => uval ← load 2 (p + 1) m; int uval (Z.shiftl 1 15) (2 ^ 16 - 1) (Some 4)
  | K24 => uval ← load 3 (p + 1) m; int uval (Z.shiftl 1 23) (Z.shiftr UINT32_MAX 8) (Some 5)
  | K32 => uval ← load 4 (p + 1) m; int uval (Z.shiftl 1 31) UINT32_MAX (Some 6)
  | K64 => uval ← load 8 (p + 1) m; int uval (Z.shiftl 1 63) UINT64_MAX (Some 10)
  | K12S => count ← LP_ENCODING_12BIT_STR_LEN m p; Ret (InPack (p + 2) count, Some (2 + count + lpBacklenSize (count + 2)))
  | K32S => count ← LP_ENCODING_32BIT_STR_LEN m p; Ret (InPack (p + 5) count, Some (5 + count + lpBacklenSize (count + 5)))
  | _ => int (12345678900000000 + b) UINT64_MAX 0 None
  end.
Proof. intros Hb int. unfold lpGetWithSize, kind_of. rewrite Hb. cbn [mbind res_bind]. by repeat case_match. Qed.

(** Two's complement in [w] bits. *)
Lemma lp_signed_twos v w :
  0 < w <= 64 -> - 2 ^ (w - 1) <= v < 2 ^ (w - 1) -> lp_signed (v mod 2 ^ w) (2 ^ (w - 1)) (2 ^ w - 1) = v.
Proof.
  intros Hw Hv. assert (2 ^ w = 2 * 2 ^ (w - 1)) as E by (rewrite <- Z.pow_succ_r by lia; f_equal; lia).
  assert (2 ^ (w - 1) <= 2 ^ 63) as H63 by (apply Z.pow_le_mono_r; lia). pose proof (Z.pow_pos_nonneg 2 (w - 1)).
  unfold lp_signed. destruct (decide (0 <= v)) as [Hn|Hn].
  - rewrite Z.mod_small by lia. destruct (Z.leb_spec (2 ^ (w - 1)) v); [lia|]. apply swrap_id; [lia|]. change (64 - 1) with 63. lia.
  - replace (v mod 2 ^ w) with (v + 2 ^ w).
    + destruct (Z.leb_spec (2 ^ (w - 1)) (v + 2 ^ w)); [|lia]. rewrite uwrap_id by (change (2 ^ 64) with (2 * 2 ^ 63); lia).
      rewrite swrap_id by (change (64 - 1) with 63; lia). lia.
    + rewrite <- (Z.mod_add v 1 (2 ^ w)) by lia. rewrite Z.mod_small by lia. lia.
Qed.

Lemma lp_signed_le n v :
  (0 < n <= 8)%nat -> - (256 ^ Z.of_nat n) <= 2 * v < 256 ^ Z.of_nat n ->
  lp_signed (le_combine (le_split n v)) (2 ^ (8 * Z.of_nat n - 1)) (2 ^ (8 * Z.of_nat n) - 1) = v.
Proof.
  intros Hn Hv. rewrite le_combine_split. assert (256 ^ Z.of_nat n = 2 ^ (8 * Z.of_nat n)) as E by by rewrite Z.pow_mul_r by lia.
  rewrite E in *. assert (2 ^ (8 * Z.of_nat n) = 2 * 2 ^ (8 * Z.of_nat n - 1)) by (rewrite <- Z.pow_succ_r by lia; f_equal; lia).
  apply lp_signed_twos; lia.
Qed.

Definition value_at (p : Z) (e : elem) : lpvalue :=
  match e with
  | EInt v => Integer v
  | EStr s => InPack (p + enc_size e - Z.of_nat (length s)) (Z.of_nat (length s))
  end.

Lemma backlen_small l : 0 <= l <= 127 -> lpBacklenSize l = 1.
Proof. intros H. unfold lpBacklenSize, lpEncodeBacklen. by destruct (Z.leb_spec l 127); [|lia]. Qed.

Lemma int_answer x v (sz sz' : option Z) : x = v -> sz = sz' -> Ret (Integer x, sz) = Ret (Integer v, sz').
Proof. by intros -> ->. Qed.

Lemma get_int_form m p v k l :
  form (EInt v) k l -> elem_ok (EInt v) -> sees m p l ->
  lpGetWithSize m p None = Ret (Integer v, Some (Z.of_nat (length l) + lpBacklenSize (Z.of_nat (length l)))).
Proof.
  intros Hf Hok Hm. destruct (form_head _ _ _ Hf) as (b & t & E & Hb & Hk). subst l.
  rewrite (getWithSize_kind m p b) by by eapply sees_head. cbv zeta. rewrite Hk.
  remember (EInt v) as e eqn:He. remember (b :: t) as l eqn:Hl. destruct Hf as [v' Hv|v' Hv|v' k n Hk' Hv| | |]; simplify_eq.
  - destruct (byte_fields v ltac:(lia)) as ([-> _] & _); [lia|]. unfold lp_signed, UINT64_MAX.
    destruct (Z.leb_spec (2 ^ 64 - 1) v); [lia|]. rewrite swrap_id by (change (64 - 1) with 63; lia). done.
  - pose proof (Z.mod_pos_bound v 8192 ltac:(lia)). pose proof (Z.mod_pos_bound v 256 ltac:(lia)).
    pose proof (Z.div_lt_upper_bound (v mod 8192) 256 32 ltac:(lia) ltac:(lia)). pose proof (Z.div_pos (v mod 8192) 256).
    destruct (byte_fields (192 + v mod 8192 / 256) ltac:(lia)) as (_ & _ & _ & -> & _); [|lia].
    rewrite (sees_head _ _ _ _ (sees_tail _ _ _ _ Hm)). cbn [mbind res_bind]. rewrite lor_shiftl_add by lia.
    replace ((192 + v mod 8192 / 256 - 192) * 2 ^ 8 + v mod 256) with (v mod 2 ^ 13).
    + apply int_answer; [|done]. exact (lp_signed_twos v 13 ltac:(lia) ltac:(lia)).
    + change (2 ^ 13) with 8192. assert (v mod 256 = v mod 8192 mod 256) as -> by (rewrite <- Znumtheory.Zmod_div_mod; try lia; by exists 32).
      pose proof (Z.div_mod (v mod 8192) 256). lia.
  - assert (load (Z.of_nat n) (p + 1) m = Ret (le_combine (le_split n v))) as Hld.
    { rewrite <- (length_le_split n v) at 1. apply sees_load. by eapply sees_tail. }
    pose proof (lp_signed_le n v) as Hs. destruct (int_kinds _ _ Hk') as [[Ek ->]|[[Ek ->]|[[Ek ->]|[Ek ->]]]];
      try done; rewrite Ek; change (Z.of_nat 2) with 2 in *; change (Z.of_nat 3) with 3 in *; change (Z.of_nat 4) with 4 in *; change (Z.of_nat 8) with 8 in *; rewrite Hld; cbn [mbind res_bind];
      (apply int_answer; [exact (Hs ltac:(lia) Hv)|done]).
Qed.

Lemma get_str_form m p s k l :
  form (EStr s) k l -> elem_ok (EStr s) -> sees m p l ->
  lpGetWithSize m p None = Ret (InPack (p + Z.of_nat (length l) - Z.of_nat (length s)) (Z.of_nat (length s)),
                                Some (Z.of_nat (length l) + lpBacklenSize (Z.of_nat (length l)))).
Proof.
  intros Hf [_ Hok] Hm. destruct (form_head _ _ _ Hf) as (b & t & E & Hb & Hk).
  pose proof Hm as Hm'. rewrite E in Hm'. rewrite (getWithSize_kind m p b) by by eapply sees_head.
  cbv zeta. rewrite Hk. clear E Hk Hm'. inversion Hf as [| | |? Hs|? Hs|? Hs]; subst.
  - rewrite (str_len_6 m p s _ Hs Hm). cbn [mbind res_bind length]. do 2 f_equal; [f_equal; lia|]. f_equal. f_equal; [lia|f_equal; lia].
  - rewrite (str_len_12 m p s _ Hs Hm). cbn [mbind res_bind length]. do 2 f_equal; [f_equal; lia|]. f_equal. f_equal; [lia|f_equal; lia].
  - rewrite (str_len_32 m p s s) by (done || lia). cbn [mbind res_bind length]. rewrite length_app, length_le_split.
    do 2 f_equal; [f_equal; lia|]. f_equal. f_equal; [lia|f_equal; lia].
Qed.

Lemma enc_size_range e : elem_ok e -> 1 <= enc_size e < 2 ^ 32.
Proof.
  intros Hok. destruct (enc_form e Hok) as (k & Hf). unfold enc_size. destruct Hf as [v Hv|v Hv|v k n Hk Hv|s Hs|s Hs|s Hs];
    cbn [length]; rewrite ?length_app, ?length_le_split; try lia; try (destruct Hok; lia).
  destruct (int_kinds k n Hk) as [[-> ->]|[[-> ->]|[[-> ->]|[-> ->]]]]; lia.
Qed.

Lemma enc_str_suffix s : exists h, lpEncodeString s = h ++ s.
Proof.
  unfold lpEncodeString. case_match; [by exists [Z.lor (Z.of_nat (length s)) 0x80]|].
  case_match; [by eexists [_; _]|by eexists [_; _; _; _; _]].
Qed.

Section Located.
Context (m : list Z) (p : Z) (e : elem).
Hypothesis Hm : sees m p (entry_bytes e).
Hypothesis Hok : elem_ok e.

Lemma entry_size_eq : entry_size e = enc_size e + lpBacklenSize (enc_size e).
Proof using Type. unfold entry_size, entry_bytes. rewrite length_app. unfold enc_size, lpBacklenSize. lia. Qed.

Lemma entry_not_eof : exists b, aget m p = Ret b /\ (b =? LP_EOF) = false.
Proof using Hm Hok.
  destruct (enc_form e Hok) as (k & Hf). destruct (form_head _ _ _ Hf) as (b & t & E & Hb & _).
  exists b. split; [|unfold LP_EOF; lia]. eapply sees_head. rewrite <- E. by eapply sees_app_l.
Qed.

Lemma entry_sizeUnsafe : lpCurrentEncodedSizeUnsafe m p = Ret (enc_size e).
Proof using Hm Hok.
  destruct (enc_form e Hok) as (k & Hf). by apply (sizeUnsafe_form m p e k); [| |eapply sees_app_l].
Qed.

Lemma entry_sizeBytes : exists n, lpCurrentEncodedSizeBytes m p = Ret n /\ 1 <= n <= enc_size e.
Proof using Hm Hok. destruct (enc_form e Hok) as (k & Hf). apply (sizeBytes_form m p e k); [done|by eapply sees_app_l]. Qed.

Lemma entry_skip : lpSkip m p = Ret (p + entry_size e).
Proof using Hm Hok. unfold lpSkip. rewrite entry_sizeUnsafe. cbn. by rewrite entry_size_eq. Qed.

Lemma entry_backlen : lpDecodeBacklen m (p + entry_size e - 1) = Ret (enc_size e).
Proof using Hm Hok.
  apply lpDecodeBacklen_encode; [pose proof (enc_size_range e Hok); lia|]. apply sees_app_r in Hm.
  rewrite entry_size_eq. by replace (p + (enc_size e + lpBacklenSize (enc_size e)) - 1 + 1 - lpBacklenSize (enc_size e))
    with (p + Z.of_nat (length (enc_data e))) by (unfold enc_size; lia).
Qed.

Lemma entry_validate lpbytes :
  LP_HDR_SIZE <= p -> p + entry_size e <= lpbytes - 1 ->
  lpValidateNext m (Some p) lpbytes = Ret (Some (Some (p + entry_size e))).
Proof using Hm Hok.
  intros H6 Hle. pose proof (enc_size_range e Hok) as Hr. pose proof (lpBacklenSize_range (enc_size e)) as Hb.
  pose proof entry_size_eq as Es. unfold lpValidateNext.
  assert (forall q, p <= q <= p + entry_size e -> (q <? LP_HDR_SIZE) || (lpbytes - 1 <? q) = false) as Hin by (intros; lia).
  rewrite Hin by lia. destruct entry_not_eof as (b & -> & Hne). cbn [mbind res_bind]. rewrite Hne.
  destruct entry_sizeBytes as (n & -> & Hn). cbn [mbind res_bind]. destruct (Z.eqb_spec n 0); [lia|]. rewrite Hin by lia.
  rewrite entry_sizeUnsafe. cbn [mbind res_bind]. rewrite <- Es, Hin by lia.
  rewrite entry_backlen. cbn [mbind res_bind]. rewrite uwrap_id by lia. by rewrite <- Es, Z.eqb_refl.
Qed.

Lemma entry_assert lpbytes :
  LP_HDR_SIZE <= p -> p + entry_size e <= lpbytes - 1 -> lpAssertValidEntry m lpbytes p = Ret tt.
Proof using Hm Hok. intros H6 Hle. unfold lpAssertValidEntry. by rewrite entry_validate. Qed.

Lemma entry_get : lpGetWithSize m p None = Ret (value_at p e, Some (entry_size e)).
Proof using Hm Hok.
  destruct (enc_form e Hok) as (k & Hf). apply sees_app_l in Hm. rewrite entry_size_eq. unfold enc_size. destruct e as [v|s].
  - by apply (get_int_form m p v k).
  - by apply (get_str_form m p s k).
Qed.

(** A string is where the pointer says. *)
Lemma entry_string s : e = EStr s -> sees m (p + enc_size e - Z.of_nat (length s)) s.
Proof using Hm.
  clear Hok. intros ->. apply sees_app_l in Hm. cbn [enc_data] in Hm. destruct (enc_str_suffix s) as (h & E). unfold enc_size. cbn [enc_data].
  rewrite E in Hm |- *. apply sees_app_r in Hm. rewrite length_app.
  by replace (p + Z.of_nat (length h + length s) - Z.of_nat (length s)) with (p + Z.of_nat (length h)) by lia.
Qed.
End Located.
