(* ===== verification/ListpackNav.v ===== *)
(** * Listpacks as sequences of elements

    The representation of a list of elements by the bytes of a listpack, and
    the operations of [Listpack] that do not change the elements: moving
    between the entries in both directions, seeking by an index, counting,
    reading, comparing, searching and validating. *)
From S2P Require Import Prelude Mem NumStr Listpack ListpackEnc.

Local Open Scope Z_scope.

(** ** Representation *)

Definition body (es : list elem) : list Z := concat (map entry_bytes es).
Definition lp_total (es : list elem) : Z := 7 + Z.of_nat (length (body es)).
Definition lp_header (total num : Z) : list Z := le_split 4 total ++ le_split 2 num.

(** The header has the number of elements, or says that it is not known;
    after the end marker there may be unused bytes. *)
Definition num_ok (num : Z) (es : list elem) : Prop :=
  0 <= num <= LP_HDR_NUMELE_UNKNOWN /\ (num = LP_HDR_NUMELE_UNKNOWN \/ num = Z.of_nat (length es)).

Record lp_layout (m : list Z) (es : list elem) (num : Z) (slack : list Z) : Prop := {
  ll_bytes : m = lp_header (lp_total es) num ++ body es ++ LP_EOF :: slack;
  ll_num : num_ok num es;
  ll_elems : Forall elem_ok es;
  ll_size : lp_total es < 2 ^ 32;
}.

Definition lp_repr (m : list Z) (es : list elem) : Prop := exists num slack, lp_layout m es num slack.

(** The offset of the entry at an index; past the last one, of the end. *)
Definition off (es : list elem) (i : nat) : Z := LP_HDR_SIZE + Z.of_nat (length (body (take i es))).

(** The pointer to an entry, [NULL] past the last one. *)
Definition ptr (es : list elem) (i : nat) : option Z := (fun _ => off es i) <$> es !! i.

Lemma body_app es es' : body (es ++ es') = body es ++ body es'.
Proof. unfold body. by rewrite map_app, concat_app. Qed.

Lemma body_cons e es : body (e :: es) = entry_bytes e ++ body es.
Proof. done. Qed.

Lemma length_header total num : length (lp_header total num) = 6%nat.
Proof. unfold lp_header. by rewrite length_app, !length_le_split. Qed.

Lemma off_0 es : off es 0 = LP_HDR_SIZE.
Proof. done. Qed.

Lemma off_S es i e : es !! i = Some e -> off es (S i) = off es i + entry_size e.
Proof.
  intros He. unfold off. rewrite (take_S_r _ _ _ He), body_app, length_app. cbn. rewrite app_nil_r. unfold entry_size. lia.
Qed.

Lemma off_end es : off es (length es) = lp_total es - 1.
Proof. unfold off, lp_total, LP_HDR_SIZE. rewrite firstn_all. lia. Qed.

Lemma off_ge es i : LP_HDR_SIZE <= off es i.
Proof. unfold off. lia. Qed.

Lemma entry_size_pos e : elem_ok e -> 2 <= entry_size e.
Proof.
  intros Hok. rewrite entry_size_eq. pose proof (enc_size_range e Hok). pose proof (lpBacklenSize_range (enc_size e)). lia.
Qed.

Lemma off_le es i j : (i <= j)%nat -> off es i <= off es j.
Proof.
  intros Hij. unfold off. rewrite <- (take_drop i (take j es)), take_take, Nat.min_l by done.
  rewrite body_app, length_app. lia.
Qed.

Lemma ptr_lookup es i e : es !! i = Some e -> ptr es i = Some (off es i).
Proof. unfold ptr. by intros ->. Qed.

Lemma ptr_None es i : (length es <= i)%nat -> ptr es i = None.
Proof. intros H. unfold ptr. by rewrite lookup_ge_None_2. Qed.

Section Represented.
Context (m : list Z) (es : list elem) (num : Z) (slack : list Z).
Hypothesis Hm : lp_layout m es num slack.

Lemma repr_sees_header : sees m 0 (lp_header (lp_total es) num).
Proof. exists [], (body es ++ LP_EOF :: slack). by rewrite (ll_bytes _ _ _ _ Hm). Qed.

Lemma repr_total : lpGetTotalBytes m = Ret (lp_total es).
Proof.
  pose proof (sees_load _ _ _ (sees_app_l _ _ _ _ repr_sees_header)) as H. rewrite length_le_split in H.
  unfold lpGetTotalBytes. change (Z.of_nat 4) with 4 in H. rewrite H, le_combine_split. f_equal. apply Z.mod_small.
  pose proof (ll_size _ _ _ _ Hm). unfold lp_total in *. change (256 ^ Z.of_nat 4) with (2 ^ 32). lia.
Qed.

Lemma repr_num : lpGetNumElements m = Ret num.
Proof.
  pose proof (sees_load _ _ _ (sees_app_r _ _ _ _ repr_sees_header)) as H. rewrite !length_le_split in H.
  unfold lpGetNumElements. change (Z.of_nat 2) with 2 in H. change (0 + Z.of_nat 4) with 4 in H. rewrite H, le_combine_split.
  f_equal. apply Z.mod_small. destruct (ll_num _ _ _ _ Hm) as [Hn _]. unfold LP_HDR_NUMELE_UNKNOWN in Hn.
  change (256 ^ Z.of_nat 2) with 65536. lia.
Qed.

Lemma repr_sees_from i : sees m (off es i) (body (drop i es) ++ [LP_EOF]).
Proof.
  exists (lp_header (lp_total es) num ++ body (take i es)), slack. split.
  - rewrite (ll_bytes _ _ _ _ Hm) at 1. rewrite <- (take_drop i es) at 2. rewrite body_app, <- !app_assoc. done.
  - rewrite length_app, length_header. unfold off, LP_HDR_SIZE. lia.
Qed.

Lemma repr_entry i e : es !! i = Some e -> sees m (off es i) (entry_bytes e).
Proof.
  intros He. pose proof (repr_sees_from i) as H. rewrite (drop_S _ _ _ He), body_cons, <- app_assoc in H.
  by eapply sees_app_l.
Qed.

Lemma repr_eof : aget m (off es (length es)) = Ret LP_EOF.
Proof. pose proof (repr_sees_from (length es)) as H. rewrite drop_ge in H by lia. exact (sees_head _ _ _ [] H). Qed.

Lemma repr_ok i e : es !! i = Some e -> elem_ok e.
Proof. intros He. pose proof (ll_elems _ _ _ _ Hm) as H. rewrite Forall_lookup in H. eauto. Qed.

Lemma repr_entry_end i e : es !! i = Some e -> off es i + entry_size e <= lp_total es - 1.
Proof.
  intros He. rewrite <- (off_S _ _ _ He), <- off_end. apply off_le. by apply lookup_lt_Some in He.
Qed.

Lemma repr_assert i e : es !! i = Some e -> lpAssertValidEntry m (lp_total es) (off es i) = Ret tt.
Proof.
  intros He. apply (entry_assert m _ e); [by apply repr_entry|by eapply repr_ok|apply off_ge|by apply repr_entry_end].
Qed.

(** The byte at an entry or at the end, and the test for the end. *)
Lemma repr_byte i : (i <= length es)%nat ->
  exists b, aget m (off es i) = Ret b /\ (b =? LP_EOF) = bool_decide (i = length es).
Proof.
  intros Hi. destruct (decide (i = length es)) as [->|Hne].
  - exists LP_EOF. rewrite repr_eof, bool_decide_eq_true_2 by done. done.
  - destruct (lookup_lt_is_Some_2 es i) as [e He]; [lia|].
    destruct (entry_not_eof m (off es i) e) as (b & Hb & Hne'); [by apply repr_entry|by eapply repr_ok|].
    exists b. by rewrite bool_decide_eq_false_2.
Qed.

(** ** Moving *)

(** The common end of [lpFirst] and [lpNext]. *)
Lemma repr_arrive i : (i <= length es)%nat ->
  (b ← aget m (off es i);
   if b =? LP_EOF then Ret None else
   total ← lpBytes m; _ ← lpAssertValidEntry m total (off es i); Ret (Some (off es i))) = Ret (ptr es i).
Proof.
  intros Hi. destruct (repr_byte i Hi) as (b & -> & Hb). cbn [mbind res_bind]. rewrite Hb. case_bool_decide as E.
  - by rewrite ptr_None by lia.
  - destruct (lookup_lt_is_Some_2 es i) as [e He]; [lia|]. unfold lpBytes. rewrite repr_total. cbn [mbind res_bind].
    rewrite (repr_assert i e He). cbn. by rewrite (ptr_lookup _ _ _ He).
Qed.

Lemma lpFirst_spec : lpFirst m = Ret (ptr es 0).
Proof. apply (repr_arrive 0). lia. Qed.

Lemma lpNext_spec i e : es !! i = Some e -> lpNext m (off es i) = Ret (ptr es (S i)).
Proof.
  intros He. unfold lpNext. rewrite (entry_skip m _ e) by (by apply repr_entry || by eapply repr_ok). cbn [mbind res_bind].
  rewrite <- (off_S _ _ _ He). apply repr_arrive. by apply lookup_lt_Some in He.
Qed.

Lemma lpPrev_spec i : (i <= length es)%nat ->
  lpPrev m (off es i) = Ret (match i with O => None | S j => Some (off es j) end).
Proof.
  intros Hi. unfold lpPrev. destruct i as [|j]; [done|]. destruct (lookup_lt_is_Some_2 es j) as [e He]; [lia|].
  pose proof (repr_ok _ _ He) as Hok. pose proof (entry_size_pos e Hok). pose proof (off_ge es j).
  pose proof (enc_size_range e Hok). pose proof (lpBacklenSize_range (enc_size e)).
  rewrite (off_S _ _ _ He). destruct (Z.eqb_spec (off es j + entry_size e) LP_HDR_SIZE); [lia|].
  rewrite (entry_backlen m _ e) by (done || by apply repr_entry). cbn [mbind res_bind]. rewrite uwrap_id by lia.
  rewrite <- entry_size_eq. replace (off es j + entry_size e - 1 - (entry_size e - 1)) with (off es j) by lia.
  unfold lpBytes. rewrite repr_total. cbn [mbind res_bind]. by rewrite (repr_assert j e He).
Qed.

Lemma lpLast_spec : lpLast m = Ret (match length es with O => None | S j => Some (off es j) end).
Proof. unfold lpLast. rewrite repr_total. cbn [mbind res_bind]. rewrite <- off_end. by apply lpPrev_spec. Qed.

Lemma seek_forward_spec n i : seek_forward n m (ptr es i) = Ret (ptr es (i + n)).
Proof.
  revert i. induction n as [|n IH]; intros i; [by rewrite Nat.add_0_r; destruct (ptr es i)|].
  destruct (es !! i) as [e|] eqn:He.
  - rewrite (ptr_lookup _ _ _ He). cbn [seek_forward]. rewrite (lpNext_spec _ _ He). cbn [mbind res_bind].
    rewrite IH. do 2 f_equal. lia.
  - apply lookup_ge_None in He. rewrite !ptr_None by lia. done.
Qed.

(** The pointer to the entry before index [i]. *)
Definition bptr (i : nat) : option Z := match i with O => None | S j => Some (off es j) end.

Lemma seek_backward_spec n i : (i <= length es)%nat -> seek_backward n m (bptr i) = Ret (bptr (i - n)).
Proof.
  revert i. induction n as [|n IH]; intros i Hi; [by rewrite Nat.sub_0_r; destruct i|].
  destruct i as [|j]; [done|]. cbn [bptr seek_backward]. rewrite lpPrev_spec by lia. cbn [mbind res_bind].
  fold (bptr j). rewrite IH by lia. done.
Qed.
End Represented.

(** ** Seeking *)

(** The index of an element counted from the head, or from the tail when it
    is negative. *)
Definition abs_index (es : list elem) (index : Z) : Z :=
  if index <? 0 then Z.of_nat (length es) + index else index.

Lemma bptr_ptr es i : (0 < i <= length es)%nat -> bptr es i = ptr es (i - 1).
Proof.
  intros Hi. destruct i as [|j]; [lia|]. cbn. rewrite Nat.sub_0_r. unfold ptr.
  destruct (lookup_lt_is_Some_2 es j) as [e ->]; [lia|done].
Qed.

Lemma seek_tail m es num slack k :
  lp_layout m es num slack ->
  (ele ← lpLast m; seek_backward k m ele) = Ret (bptr es (length es - k)).
Proof.
  intros Hm. rewrite (lpLast_spec _ _ _ _ Hm). cbn [mbind res_bind]. by apply (seek_backward_spec _ _ _ _ Hm).
Qed.

Lemma seek_spec m es index :
  lp_repr m es ->
  lpSeek m index = Ret (if 0 <=? abs_index es index then ptr es (Z.to_nat (abs_index es index)) else None).
Proof.
  intros (num & slack & Hm). unfold lpSeek, abs_index. rewrite (repr_num _ _ _ _ Hm). cbn [mbind res_bind].
  destruct (ll_num _ _ _ _ Hm) as [Hn Hnum]. destruct (Z.eqb_spec num LP_HDR_NUMELE_UNKNOWN) as [E|E]; cbn [negb andb].
  - destruct (Z.ltb_spec index 0) as [Hneg|Hpos]; cbn [negb].
    + rewrite (seek_tail _ _ _ _ _ Hm). destruct (Z.leb_spec 0 (Z.of_nat (length es) + index)).
      * rewrite bptr_ptr by lia. do 2 f_equal. lia.
      * by replace (length es - Z.to_nat (-1 - index))%nat with 0%nat by lia.
    + destruct (Z.leb_spec 0 index); [|lia]. rewrite (lpFirst_spec _ _ _ _ Hm). cbn [mbind res_bind].
      by rewrite (seek_forward_spec _ _ _ _ Hm).
  - destruct Hnum as [->| ->]; [done|]. set (i := if index <? 0 then _ else index).
    destruct (Z.ltb_spec i 0); cbn [orb]; [by destruct (Z.leb_spec 0 i); [lia|]|].
    destruct (Z.leb_spec 0 i); [|lia]. destruct (Z.leb_spec (Z.of_nat (length es)) i).
    { by rewrite ptr_None by lia. }
    destruct (Z.ltb_spec (Z.of_nat (length es) / 2) i); cbn [negb].
    + rewrite (seek_tail _ _ _ _ _ Hm), bptr_ptr by lia. do 2 f_equal. lia.
    + rewrite (lpFirst_spec _ _ _ _ Hm). cbn [mbind res_bind]. by rewrite (seek_forward_spec _ _ _ _ Hm).
Qed.

(** [lpSeek] finds the entry at any index, from the head or from the tail,
    whichever way it walks and whether or not the header knows the number of
    elements; it returns null exactly for the indexes out of range, and no
    assertion of the walk fails. *)
Theorem lpSeek_correct m es index :
  lp_repr m es ->
  lpSeek m index = Ret (if 0 <=? abs_index es index then ptr es (Z.to_nat (abs_index es index)) else None).
Proof. apply seek_spec. Qed.

(** ** Counting *)

Lemma length_body_ge es : Forall elem_ok es -> (2 * length es <= length (body es))%nat.
Proof.
  induction 1 as [|e es Hok _ IH]; [done|]. rewrite body_cons, length_app. pose proof (entry_size_pos e Hok).
  unfold entry_size in *. cbn [length]. lia.
Qed.

Lemma repr_length m es num slack : lp_layout m es num slack -> (7 + 2 * length es <= length m)%nat.
Proof.
  intros Hm. rewrite (ll_bytes _ _ _ _ Hm), !length_app, length_header. cbn [length].
  pose proof (length_body_ge es (ll_elems _ _ _ _ Hm)). lia.
Qed.

Lemma repr_count_32 m es num slack : lp_layout m es num slack -> Z.of_nat (length es) < 2 ^ 31.
Proof.
  intros Hm. pose proof (length_body_ge es (ll_elems _ _ _ _ Hm)). pose proof (ll_size _ _ _ _ Hm). unfold lp_total in *. lia.
Qed.

Lemma count_loop_spec m es num slack i fuel :
  lp_layout m es num slack -> (i <= length es)%nat -> (length es - i <= fuel)%nat ->
  count_loop fuel m (ptr es i) (Z.of_nat i) = Ret (Z.of_nat (length es)).
Proof.
  intros Hm. pose proof (repr_count_32 _ _ _ _ Hm) as H32. revert i. induction fuel as [|fuel IH]; intros i Hi Hf.
  - rewrite ptr_None by lia. cbn. f_equal. lia.
  - destruct (es !! i) as [e|] eqn:He.
    + rewrite (ptr_lookup _ _ _ He). cbn [count_loop]. rewrite (lpNext_spec _ _ _ _ Hm _ _ He). cbn [mbind res_bind].
      apply lookup_lt_Some in He. rewrite uwrap_id by lia. replace (Z.of_nat i + 1) with (Z.of_nat (S i)) by lia. apply IH; lia.
    + apply lookup_ge_None in He. rewrite ptr_None by lia. cbn. f_equal. lia.
Qed.

Lemma set_num_repr m es num num' slack :
  lp_layout m es num slack -> 0 <= num' <= LP_HDR_NUMELE_UNKNOWN ->
  lpSetNumElements m num' = Ret (lp_header (lp_total es) num' ++ body es ++ LP_EOF :: slack).
Proof.
  intros Hm Hn. unfold lpSetNumElements, store. change (Z.to_nat 2) with 2%nat. change 4 with (Z.of_nat (length (le_split 4 (lp_total es)))).
  rewrite store_bytes_Ret; rewrite (ll_bytes _ _ _ _ Hm); unfold lp_header.
  - rewrite <- !app_assoc, sees_patch by (by rewrite !length_le_split). done.
  - rewrite !length_app, !length_le_split. lia.
Qed.

(** [lpLength] returns the number of elements; the header it may bring up to
    date represents the same elements. *)
Theorem lpLength_correct m es :
  lp_repr m es -> exists m', lpLength m = Ret (Z.of_nat (length es), m') /\ lp_repr m' es.
Proof.
  intros (num & slack & Hm). unfold lpLength. rewrite (repr_num _ _ _ _ Hm). cbn [mbind res_bind].
  destruct (ll_num _ _ _ _ Hm) as [Hn Hnum]. destruct (Z.eqb_spec num LP_HDR_NUMELE_UNKNOWN) as [E|E]; cbn [negb].
  - rewrite (lpFirst_spec _ _ _ _ Hm). cbn [mbind res_bind].
    rewrite (count_loop_spec m es num slack 0 _ Hm) by (pose proof (repr_length _ _ _ _ Hm); lia). cbn [mbind res_bind].
    destruct (Z.ltb_spec (Z.of_nat (length es)) LP_HDR_NUMELE_UNKNOWN) as [Hlt|Hge].
    + rewrite (set_num_repr _ _ _ _ _ Hm) by lia. cbn [mbind res_bind]. eexists. split; [done|].
      exists (Z.of_nat (length es)), slack. destruct Hm as [H1 H2 H3 H4]. split; try done. split; [lia|by right].
    + exists m. split; [done|]. by exists num, slack.
  - destruct Hnum as [->| ->]; [done|]. exists m. split; [done|]. by exists (Z.of_nat (length es)), slack.
Qed.

(** ** Elements as strings *)

(** What the user of the listpack stored. *)
Definition elem_string (e : elem) : list Z := match e with EInt v => dec v | EStr s => s end.

(** How a string is stored. *)
Definition elem_of_string (s : list Z) : elem :=
  match lpStringToInt64 s with Some v => EInt v | None => EStr s end.

Lemma lpStringToInt64_loop_eq p v : lpStringToInt64_loop p v = string2ll_loop p v.
Proof. revert v. induction p as [|c p IH]; intros v; cbn; [done|]. unfold UINT64_MAX, ULLONG_MAX. by rewrite IH. Qed.

(** The listpack's own parser of integers is the one of the rest of Redis. *)
Theorem lpStringToInt64_string2ll s : lpStringToInt64 s = string2ll s.
Proof.
  unfold lpStringToInt64, string2ll. do 2 (case_match; [done|]).
  destruct (if hd 0 s =? 45 then tl s else s) as [|c p]; [done|]. case_match; [|done].
  rewrite lpStringToInt64_loop_eq. destruct (string2ll_loop p (c - 48)) as [[v [|]]|]; [|done|done]. done.
Qed.

Lemma lpStringToInt64_iff s v : LLONG_MIN <= v <= LLONG_MAX -> lpStringToInt64 s = Some v <-> s = dec v.
Proof.
  intros Hv. rewrite lpStringToInt64_string2ll. split; [by intros [_ H]%string2ll_sound|].
  intros ->. by apply string2ll_complete.
Qed.

Lemma elem_string_of_string s : elem_string (elem_of_string s) = s.
Proof.
  unfold elem_of_string. destruct (lpStringToInt64 s) as [v|] eqn:E; [|done]. cbn.
  rewrite lpStringToInt64_string2ll in E. by apply string2ll_sound in E as [_ ->].
Qed.

Lemma elem_of_string_ok s : bytes s -> Z.of_nat (length s) + 5 < 2 ^ 32 -> elem_ok (elem_of_string s).
Proof.
  intros Hb Hl. unfold elem_of_string. destruct (lpStringToInt64 s) as [v|] eqn:E; [|done].
  rewrite lpStringToInt64_string2ll in E. by apply string2ll_sound in E as [Hv _].
Qed.

(** A stored value equals a string when its integer is what the string parses
    to, or its bytes are the string's. *)
Lemma elem_int_match v s :
  LLONG_MIN <= v <= LLONG_MAX ->
  match lpStringToInt64 s with Some sval => v =? sval | None => false end = bool_decide (elem_string (EInt v) = s).
Proof.
  intros Hv. pose proof (lpStringToInt64_iff s v Hv) as Hi. cbn [elem_string]. case_bool_decide as E.
  - rewrite (proj2 Hi) by done. apply Z.eqb_refl.
  - destruct (lpStringToInt64 s) as [w|] eqn:Es; [|done]. apply Z.eqb_neq. intros <-. apply E. symmetry. by apply Hi.
Qed.

Section Reading.
Context (m : list Z) (es : list elem) (num : Z) (slack : list Z).
Hypothesis Hm : lp_layout m es num slack.

Lemma repr_get i e : es !! i = Some e -> lpGetWithSize m (off es i) None = Ret (value_at (off es i) e, Some (entry_size e)).
Proof. intros He. apply entry_get; [by eapply repr_entry|by eapply repr_ok]. Qed.

Lemma repr_string i s :
  es !! i = Some (EStr s) ->
  load_bytes (Z.of_nat (length s)) (off es i + enc_size (EStr s) - Z.of_nat (length s)) m = Ret s.
Proof. intros He. apply sees_load_bytes. eapply entry_string; [|done]. by eapply repr_entry. Qed.
End Reading.

(** The bytes a value denotes: read from the listpack, from the buffer, or
    written out in decimal. *)
Definition value_string (m : list Z) (v : lpvalue) : res (list Z) :=
  match v with
  | InPack off len => load_bytes len off m
  | Integer v => Ret (dec v)
  | InBuf buf len => load_bytes len 0 buf
  end.

Lemma value_at_string m es num slack i e :
  lp_layout m es num slack -> es !! i = Some e -> value_string m (value_at (off es i) e) = Ret (elem_string e).
Proof. intros Hm He. destruct e as [v|s]; [done|]. by eapply repr_string. Qed.

Lemma get_buf m p v buf :
  lpGetWithSize m p None = Ret v ->
  lpGetWithSize m p (Some buf) =
  match v with
  | (Integer x, size) => '(buf, count) ← ll2string buf 0 LP_INTBUF_SIZE x; Ret (InBuf buf count, size)
  | v => Ret v
  end.
Proof.
  unfold lpGetWithSize. destruct (aget m p) as [b| |]; cbn [mbind res_bind]; [|done|done].
  repeat case_match; intros Hv; simplify_eq; try done.
  all: revert Hv; match goal with |- mbind _ ?e = _ -> _ => destruct e as [x| |] end; cbn [mbind res_bind]; intros Hv; by simplify_eq.
Qed.

(** [lpGet] gives back the element of every entry, both as a value and,
    with a buffer of the documented size, as the string that was stored. *)
Theorem lpGet_correct m es i e buf :
  lp_repr m es -> es !! i = Some e -> (Z.to_nat LP_INTBUF_SIZE <= length buf)%nat ->
  (exists v, lpGet m (off es i) None = Ret v /\ value_string m v = Ret (elem_string e) /\
     (forall x, v = Integer x <-> e = EInt x)) /\
  (exists v, lpGet m (off es i) (Some buf) = Ret v /\ value_string m v = Ret (elem_string e) /\ (forall x, v <> Integer x)).
Proof.
  intros (num & slack & Hm) He Hbuf. pose proof (repr_get _ _ _ _ Hm i e He) as Hg. pose proof (repr_ok _ _ _ _ Hm _ _ He) as Hok.
  unfold lpGet. rewrite Hg, (get_buf _ _ _ buf Hg). cbn [mbind res_bind]. destruct e as [v|s]; cbn [value_at].
  - split; [exists (Integer v); split_and!; [done|done|]; intros x; split; congruence|].
    pose proof (length_dec v Hok) as Hl. rewrite ll2string_fits by (done || unfold LP_INTBUF_SIZE in *; lia).
    cbn [mbind res_bind]. eexists. split; [done|]. split; [|done]. cbn [value_string elem_string].
    rewrite (load_bytes_Ret (length (dec v)) 0) by (rewrite length_patch by (rewrite length_app; cbn; unfold LP_INTBUF_SIZE in *; lia);
      unfold LP_INTBUF_SIZE in *; lia).
    f_equal. change 0%nat with (0 + 0)%nat at 1. change (Z.to_nat 0) with 0%nat.
    rewrite sub_patch_in by (rewrite length_app; cbn; unfold LP_INTBUF_SIZE in *; lia).
    rewrite sub_app_l by lia. by apply sub_all.
  - split; (eexists; split; [done|]); cbn [value_string elem_string]; (split; [by eapply repr_string|done]).
Qed.

(** ** Comparing and searching *)

(** [lpCompare] decides equality with the stored string. *)
Theorem lpCompare_correct m es i e s :
  lp_repr m es -> es !! i = Some e -> lpCompare m (off es i) s = Ret (bool_decide (elem_string e = s)).
Proof.
  intros (num & slack & Hm) He. pose proof (repr_ok _ _ _ _ Hm _ _ He) as Hok. unfold lpCompare, lpGet.
  destruct (entry_not_eof m (off es i) e) as (b & -> & Hb); [by eapply repr_entry|done|]. cbn [mbind res_bind]. rewrite Hb.
  rewrite (repr_get _ _ _ _ Hm i e He). cbn [mbind res_bind]. destruct e as [v|t]; cbn [value_at].
  - by rewrite elem_int_match.
  - cbn [elem_string]. destruct (Z.eqb_spec (Z.of_nat (length s)) (Z.of_nat (length t))) as [El|El].
    + rewrite (repr_string _ _ _ _ Hm i t He). cbn [mbind res_bind]. f_equal.
    + rewrite bool_decide_eq_false_2; [done|]. intros ->. lia.
Qed.

(** The reference search: the entries [skip] apart are compared, starting with
    the first one after [cnt] more. *)
Fixpoint find_from (s : list Z) (skip cnt : nat) (i : nat) (l : list elem) : option nat :=
  match l with
  | [] => None
  | e :: l =>
      match cnt with
      | O => if bool_decide (elem_string e = s) then Some i else find_from s skip skip (S i) l
      | S cnt => find_from s skip cnt (S i) l
      end
  end.

Section Finding.
Context (m : list Z) (es : list elem) (num : Z) (slack : list Z) (s : list Z) (skip : nat).
Hypothesis Hm : lp_layout m es num slack.
Hypothesis Hskip : Z.of_nat skip < 2 ^ 31.

(** The memo is the integer the string parses to, if it has been computed. *)
Definition memo_ok (venc : option (option Z)) : Prop := match venc with Some o => o = lpStringToInt64 s | None => True end.

Lemma memo_value venc :
  memo_ok venc ->
  match venc with
  | Some e => e
  | None => if (32 <=? Z.of_nat (length s)) || (Z.of_nat (length s) =? 0) then None else lpStringToInt64 s
  end = lpStringToInt64 s.
Proof.
  destruct venc as [o|]; cbn; [done|]. intros _. case_match eqn:E; [|done]. unfold lpStringToInt64.
  case_match eqn:E'; [done|]. unfold LONG_STR_SIZE in E'. lia.
Qed.

(** What the search does after it has moved to the next entry. *)
Lemma find_arrive i :
  (i <= length es)%nat ->
  (if lp_total es <=? off es i + 8 then lpAssertValidEntry m (lp_total es) (off es i)
   else assert ((LP_HDR_SIZE <=? off es i) && (off es i <? lp_total es))) = Ret tt.
Proof.
  intros Hi. pose proof (off_ge es i). destruct (decide (i = length es)) as [->|Hne].
  - rewrite off_end in *. destruct (Z.leb_spec (lp_total es) (lp_total es - 1 + 8)); [|lia].
    unfold lpAssertValidEntry, lpValidateNext. rewrite (proj2 (orb_false_iff _ _)) by lia.
    rewrite <- off_end, (repr_eof _ _ _ _ Hm). done.
  - destruct (lookup_lt_is_Some_2 es i) as [e He]; [lia|]. case_match; [by eapply repr_assert|].
    pose proof (repr_entry_end _ _ _ He). pose proof (entry_size_pos e (repr_ok _ _ _ _ Hm _ _ He)).
    rewrite (proj2 (andb_true_iff _ _)) by lia. done.
Qed.

Lemma find_loop_spec fuel i cnt venc esz :
  (i < length es)%nat -> (length es - i <= fuel)%nat -> memo_ok venc ->
  find_loop fuel m (lp_total es) (off es i) s (Z.of_nat skip) (Z.of_nat cnt) venc esz
  = Ret (off es <$> find_from s skip cnt i (drop i es)).
Proof.
  revert i cnt venc esz. induction fuel as [|fuel IH]; intros i cnt venc esz Hi Hf Hv; [lia|]. cbn [find_loop].
  rewrite (swrap_id 32 (Z.of_nat skip)) by lia.
  destruct (lookup_lt_is_Some_2 es i Hi) as [e He]. pose proof (repr_ok _ _ _ _ Hm _ _ He) as Hok.
  assert (forall cnt' venc' esz', memo_ok venc' ->
    (_ ← (if lp_total es <=? off es (S i) + 8 then lpAssertValidEntry m (lp_total es) (off es (S i))
          else assert ((LP_HDR_SIZE <=? off es (S i)) && (off es (S i) <? lp_total es)));
     b ← aget m (off es (S i));
     if b =? LP_EOF then Ret None
     else find_loop fuel m (lp_total es) (off es (S i)) s (Z.of_nat skip) (Z.of_nat cnt') venc' esz')
    = Ret (off es <$> find_from s skip cnt' (S i) (drop (S i) es))) as Hnext.
  { intros cnt' venc' esz' Hv'. rewrite find_arrive by lia. cbn [mbind res_bind].
    destruct (repr_byte _ _ _ _ Hm (S i)) as (b & -> & Hb); [lia|]. cbn [mbind res_bind]. rewrite Hb. case_bool_decide as E.
    - by rewrite drop_ge by lia.
    - apply IH; [lia|lia|done]. }
  rewrite (drop_S _ _ _ He). destruct cnt as [|cnt]; cbn [find_from].
  - rewrite (repr_get _ _ _ _ Hm i e He). change (Z.of_nat 0 =? 0) with true. cbn [mbind res_bind from_option id].
    pose proof (repr_entry_end _ _ _ He) as Hend. destruct e as [v|t]; cbn [value_at].
    + rewrite memo_value by done. rewrite elem_int_match by done. case_bool_decide; [done|]. cbn [mbind res_bind].
      rewrite <- (off_S _ _ _ He). apply Hnext. done.
    + rewrite (proj2 (andb_true_iff _ _)) by (pose proof (off_ge es i); lia). cbn [assert mbind res_bind].
      destruct (Z.eqb_spec (Z.of_nat (length s)) (Z.of_nat (length t))) as [El|El].
      * rewrite El, (repr_string _ _ _ _ Hm i t He). cbn [mbind res_bind elem_string andb]. case_bool_decide; [done|].
        cbn [mbind res_bind]. rewrite <- (off_S _ _ _ He). by apply Hnext.
      * cbn [mbind res_bind andb elem_string]. rewrite bool_decide_eq_false_2 by (intros ->; lia).
        rewrite <- (off_S _ _ _ He). by apply Hnext.
  - destruct (Z.eqb_spec (Z.of_nat (S cnt)) 0); [lia|]. rewrite (proj2 (Z.ltb_lt (- 2 ^ 31) _)) by lia.
    cbn [assert mbind res_bind]. rewrite (entry_skip m _ e) by (done || by eapply repr_entry).
    cbn [mbind res_bind]. rewrite <- (off_S _ _ _ He). replace (Z.of_nat (S cnt) - 1) with (Z.of_nat cnt) by lia. by apply Hnext.
Qed.
End Finding.

(** The reference search returns the first entry of the progression that
    holds the string. *)
Lemma find_from_Some s skip l cnt i j :
  find_from s skip cnt i l = Some j ->
  exists k e, j = (i + cnt + k * S skip)%nat /\ l !! (j - i)%nat = Some e /\ elem_string e = s /\
    forall k' e', (k' < k)%nat -> l !! (cnt + k' * S skip)%nat = Some e' -> elem_string e' <> s.
Proof.
  revert cnt i. induction l as [|e l IH]; intros cnt i Hj; cbn [find_from] in Hj; [done|].
  destruct cnt as [|cnt]; [case_bool_decide as E|].
  - injection Hj as <-. exists 0%nat, e. rewrite Nat.sub_diag. split_and!; [lia|done|done|lia].
  - apply IH in Hj as (k & e' & -> & Hl & Hs & Hno). exists (S k), e'. split; [lia|].
    replace (S i + skip + k * S skip - i)%nat with (S (S i + skip + k * S skip - S i)) by lia. split; [done|]. split; [done|].
    intros [|k'] e'' Hk He; [cbn in He; by simplify_eq|]. apply (Hno k'); [lia|]. cbn [Nat.add] in He.
    replace (S k' * S skip)%nat with (S (skip + k' * S skip)) in He by lia. done.
  - apply IH in Hj as (k & e' & -> & Hl & Hs & Hno). exists k, e'. split; [lia|].
    replace (S i + cnt + k * S skip - i)%nat with (S (S i + cnt + k * S skip - S i)) by lia. split_and!; [done|done|].
    intros k' e'' Hk He. by apply (Hno k').
Qed.

Lemma find_from_None s skip l cnt i :
  find_from s skip cnt i l = None -> forall k e, l !! (cnt + k * S skip)%nat = Some e -> elem_string e <> s.
Proof.
  revert cnt i. induction l as [|e l IH]; intros cnt i Hj k e' He; cbn [find_from] in Hj; [done|].
  destruct cnt as [|cnt]; [case_bool_decide as E; [done|]|].
  - destruct k as [|k]; [cbn in He; by simplify_eq|]. apply (IH skip (S i) Hj k).
    replace (0 + S k * S skip)%nat with (S (skip + k * S skip)) in He by lia. done.
  - by apply (IH cnt (S i) Hj k).
Qed.

(** The search, for the callers of [lpFind]. *)
Lemma find_spec m es i s skip :
  lp_repr m es -> (i < length es)%nat -> Z.of_nat skip < 2 ^ 31 ->
  exists o, lpFind m (off es i) s (Z.of_nat skip) = Ret (off es <$> o) /\
    match o with
    | Some j => exists k e, j = (i + k * S skip)%nat /\ es !! j = Some e /\ elem_string e = s /\
        forall k' e', (k' < k)%nat -> es !! (i + k' * S skip)%nat = Some e' -> elem_string e' <> s
    | None => forall k e, es !! (i + k * S skip)%nat = Some e -> elem_string e <> s
    end.
Proof.
  intros (num & slack & Hm) Hi Hskip. exists (find_from s skip 0 i (drop i es)). split.
  - unfold lpFind, lpBytes. rewrite (repr_total _ _ _ _ Hm). cbn [mbind res_bind].
    apply (find_loop_spec m es num slack s skip Hm Hskip _ i 0); [done|pose proof (repr_length _ _ _ _ Hm); lia|done].
  - destruct (find_from s skip 0 i (drop i es)) as [j|] eqn:E.
    + apply find_from_Some in E as (k & e & -> & Hl & Hs & Hno). exists k, e. rewrite lookup_drop in Hl.
      replace (i + (i + 0 + k * S skip - i))%nat with (i + k * S skip)%nat in Hl by lia.
      replace (i + 0 + k * S skip)%nat with (i + k * S skip)%nat by lia. split_and!; [done|done|done|].
      intros k' e' Hk He. apply (Hno k' e' Hk). by rewrite lookup_drop.
    + intros k e He. eapply (find_from_None _ _ _ _ _ E k). by rewrite lookup_drop.
Qed.

(** [lpFind] from an entry, comparing every [skip + 1]-th, returns the first
    of them that holds the searched string, whatever its encoding, and null
    when none does; it ends, and its assertions hold. *)
Theorem lpFind_correct m es i s skip :
  lp_repr m es -> (i < length es)%nat -> Z.of_nat skip < 2 ^ 31 ->
  exists o, lpFind m (off es i) s (Z.of_nat skip) = Ret (off es <$> o) /\
    match o with
    | Some j => exists k e, j = (i + k * S skip)%nat /\ es !! j = Some e /\ elem_string e = s /\
        forall k' e', (k' < k)%nat -> es !! (i + k' * S skip)%nat = Some e' -> elem_string e' <> s
    | None => forall k e, es !! (i + k * S skip)%nat = Some e -> elem_string e <> s
    end.
Proof. apply find_spec. Qed.

(** ** Validation *)

Lemma load_inside (n : nat) p m : 0 <= p -> p + Z.of_nat n <= Z.of_nat (length m) -> bytes m ->
  exists v, load (Z.of_nat n) p m = Ret v /\ 0 <= v.
Proof.
  intros Hp Hl Hb. rewrite <- (Z2Nat.id p) by lia. rewrite load_Ret by lia. eexists. split; [done|].
  apply (le_combine_range (sub (Z.to_nat p) n m)). by apply sub_bytes.
Qed.

Lemma backlen_loop_total fuel m p val shift :
  bytes m -> shift = 7 * (5 - Z.of_nat fuel) -> (0 < fuel <= 5)%nat -> Z.of_nat fuel - 1 <= p < Z.of_nat (length m) ->
  exists v, backlen_loop fuel m p val shift = Ret v.
Proof.
  revert p val shift. induction fuel as [|fuel IH]; intros p val shift Hb -> Hf Hp; [lia|]. cbn [backlen_loop].
  destruct (aget_byte m p Hb) as (b & -> & _); [lia|]. cbn [mbind res_bind]. case_match; [by eexists|].
  destruct (Z.ltb_spec 28 (7 * (5 - Z.of_nat (S fuel)) + 7)); [by eexists|].
  destruct fuel as [|fuel]; [lia|]. apply IH; done || lia.
Qed.

(** The size of an entry can be read once its length bytes are known to be
    inside, whatever they are. *)
Lemma sizeUnsafe_total m p n :
  bytes m -> 0 <= p -> lpCurrentEncodedSizeBytes m p = Ret n -> p + n < Z.of_nat (length m) -> 1 <= n ->
  exists len, lpCurrentEncodedSizeUnsafe m p = Ret len /\ 0 <= len.
Proof.
  intros Hm Hp Hn Hlt H1. destruct (aget m p) as [b| |] eqn:Hb; try (unfold lpCurrentEncodedSizeBytes in Hn; by rewrite Hb in Hn).
  rewrite (sizeBytes_kind m p b Hb) in Hn. rewrite (sizeUnsafe_kind m p b Hb).
  unfold LP_ENCODING_6BIT_STR_LEN, LP_ENCODING_12BIT_STR_LEN, LP_ENCODING_32BIT_STR_LEN. rewrite Hb. cbn [mbind res_bind].
  assert (forall x y, 0 <= y -> 0 <= Z.land x y) as Hland by (intros x y Hy; apply Z.land_nonneg; by right).
  destruct (kind_of b); injection Hn as <-; try (eexists; split; [done|]; lia).
  - eexists. split; [done|]. specialize (Hland b 0x3F). lia.
  - destruct (aget_byte m (p + 1) Hm) as (b1 & -> & Hb1 & _); [lia|]. cbn [mbind res_bind]. eexists. split; [done|].
    assert (0 <= Z.lor (Z.shiftl (Z.land b 0xF) 8) b1); [|lia].
    apply Z.lor_nonneg. split; [|lia]. apply Z.shiftl_nonneg, Hland. lia.
  - destruct (load_inside 4 (p + 1) m) as (v & Hv & Hv0); [lia|cbn; lia|done|]. change (Z.of_nat 4) with 4 in Hv. rewrite Hv.
    cbn [mbind res_bind]. eexists. split; [done|]. apply uwrap_range. lia.
Qed.

(** One step of the validation on arbitrary bytes: it is safe, and when it
    succeeds it has moved forward to where [lpSkip] goes. *)
Lemma validateNext_total m p size :
  bytes m -> size <= Z.of_nat (length m) ->
  exists r, lpValidateNext m (Some p) size = Ret r /\
    match r with
    | Some (Some q) => p < q <= size - 1 /\ LP_HDR_SIZE <= p /\ lpSkip m p = Ret q
    | Some None => aget m p = Ret LP_EOF
    | None => True
    end.
Proof.
  intros Hm Hs. unfold lpValidateNext. destruct (_ || _) eqn:E1; [by eexists|]. unfold LP_HDR_SIZE in *.
  destruct (aget_byte m p Hm) as (b & Hb & Hr & _); [lia|]. rewrite Hb. cbn [mbind res_bind].
  destruct (Z.eqb_spec b LP_EOF) as [->|Hne]; [by eexists|].
  destruct (lpCurrentEncodedSizeBytes m p) as [n| |] eqn:En; try (rewrite (sizeBytes_kind m p b Hb) in En; done).
  cbn [mbind res_bind]. destruct (Z.eqb_spec n 0) as [|Hn]; [by eexists|]. destruct ((p + n <? 6) || _) eqn:E2; [by eexists|].
  assert (1 <= n) by (rewrite (sizeBytes_kind m p b Hb) in En; injection En as <-; destruct (kind_of b); lia).
  destruct (sizeUnsafe_total m p n) as (len & Hlen & Hl0); [done|lia|done|lia|lia|]. rewrite Hlen. cbn [mbind res_bind].
  pose proof (lpBacklenSize_range len). destruct ((p + (len + lpBacklenSize len) <? 6) || _) eqn:E3; [by eexists|].
  destruct (backlen_loop_total 5 m (p + (len + lpBacklenSize len) - 1) 0 0) as (v & Hv); [done|done|lia|lia|].
  unfold lpDecodeBacklen. rewrite Hv. cbn [mbind res_bind]. case_match; [by eexists|]. eexists. split; [done|].
  unfold lpSkip. rewrite Hlen. cbn [mbind res_bind]. split_and!; [lia|lia|lia|done].
Qed.

(** Entries linked by successful steps, up to the end marker. *)
Inductive lp_chain (m : list Z) (size : Z) : Z -> nat -> Prop :=
  | chain_end : aget m (size - 1) = Ret LP_EOF -> lp_chain m size (size - 1) 0
  | chain_next p q n b : aget m p = Ret b -> b <> LP_EOF -> lpValidateNext m (Some p) size = Ret (Some (Some q)) ->
      lp_chain m size q n -> lp_chain m size p (S n).

Lemma lp_validate_loop_total m size numele cb fuel p count :
  bytes m -> size <= Z.of_nat (length m) -> LP_HDR_SIZE <= p < Z.of_nat (length m) ->
  (Z.to_nat (size - p) < fuel)%nat -> 0 <= count < 2 ^ 32 ->
  exists r, lp_validate_loop fuel m size numele cb (Some p) count = Ret r /\
    match r with
    | Some (o, c) => o = Some (size - 1) -> exists n, lp_chain m size p n /\ c = u32 (count + Z.of_nat n)
    | None => True
    end.
Proof.
  intros Hm Hs. revert p count. induction fuel as [|fuel IH]; intros p count Hp Hf Hc; [lia|]. cbn [lp_validate_loop].
  unfold LP_HDR_SIZE in Hp. destruct (aget_byte m p Hm) as (b & Hb & _); [lia|]. rewrite Hb. cbn [mbind res_bind].
  destruct (Z.eqb_spec b LP_EOF) as [->|Hne].
  { eexists. split; [done|]. intros [= ->]. exists 0%nat. split; [by constructor|]. by rewrite Z.add_0_r, uwrap_id. }
  destruct (validateNext_total m p size Hm Hs) as (r & Hr & Hspec). rewrite Hr. cbn [mbind res_bind].
  destruct r as [[q|]|]; [|by rewrite Hb in Hspec; simplify_eq|by eexists]. destruct Hspec as (Hq & _ & _).
  case_match; [by eexists|]. destruct (IH q (u32 (count + 1))) as (r & -> & Hr'); [unfold LP_HDR_SIZE; lia|lia|apply uwrap_range; lia|].
  eexists. split; [done|]. destruct r as [[o c]|]; [|done]. intros Ho. destruct (Hr' Ho) as (n & Hch & Hn).
  exists (S n). split; [by econstructor|]. rewrite Hn. unfold uwrap. rewrite Zplus_mod_idemp_l. f_equal. lia.
Qed.

Lemma lp_chain_bound m size p n : bytes m -> size <= Z.of_nat (length m) -> lp_chain m size p n -> Z.of_nat n <= size - 1 - p.
Proof.
  intros Hm Hs Hch. induction Hch as [|p q n b Hb Hne Hv Hch IH]; [lia|].
  destruct (validateNext_total m p size Hm Hs) as (r & Hr & Hspec). rewrite Hv in Hr. simplify_eq. lia.
Qed.

(** Arriving at an entry of a lp_chain. *)
Lemma lp_chain_arrive m size p n :
  lpGetTotalBytes m = Ret size -> lp_chain m size p n ->
  (b ← aget m p; if b =? LP_EOF then Ret None else
   total ← lpBytes m; _ ← lpAssertValidEntry m total p; Ret (Some p))
  = Ret (match n with O => None | S _ => Some p end).
Proof.
  intros Ht Hch. destruct Hch as [Hb|p q n b Hb Hne Hv Hch]; rewrite Hb; cbn [mbind res_bind]; [done|].
  rewrite (proj2 (Z.eqb_neq _ _)) by done. unfold lpBytes. rewrite Ht. cbn [mbind res_bind].
  unfold lpAssertValidEntry. by rewrite Hv.
Qed.

Lemma lp_chain_count m size p n fuel c :
  bytes m -> size <= Z.of_nat (length m) -> lpGetTotalBytes m = Ret size -> lp_chain m size p n -> (n <= fuel)%nat ->
  0 <= c -> c + Z.of_nat n < 2 ^ 32 ->
  count_loop fuel m (match n with O => None | S _ => Some p end) c = Ret (c + Z.of_nat n).
Proof.
  intros Hm Hs Ht Hch. revert fuel c. induction Hch as [Hb|p q n b Hb Hne Hv Hch IH]; intros fuel c Hf Hc Hlt.
  - destruct fuel; cbn; f_equal; lia.
  - destruct fuel as [|fuel]; [lia|]. cbn [count_loop]. unfold lpNext.
    destruct (validateNext_total m p size Hm Hs) as (r & Hr & Hspec). rewrite Hv in Hr. simplify_eq.
    destruct Hspec as (_ & _ & ->). cbn [mbind res_bind]. rewrite (lp_chain_arrive _ _ _ _ Ht Hch). cbn [mbind res_bind].
    rewrite uwrap_id by lia. rewrite IH by lia. f_equal. lia.
Qed.

(** C38: on any bytes whatsoever the validation of a listpack stays inside the
    allocation and ends, shallow or deep.  When the deep validation accepts,
    walking from the first entry to the end succeeds and meets as many entries as
    the header says, if it says.  The shallow one looks only at the header and the
    last byte, and promises nothing about the entries. *)
Theorem lpValidateIntegrity_safe m deep cb :
  bytes m ->
  exists b, lpValidateIntegrity m (Z.of_nat (length m)) deep cb = Ret b /\
    (b = true -> deep = true -> exists p n num,
       lpFirst m = Ret p /\ count_loop (length m) m p 0 = Ret n /\ lpGetNumElements m = Ret num /\
       (num = LP_HDR_NUMELE_UNKNOWN \/ num = n)).
Proof.
  intros Hm. unfold lpValidateIntegrity, LP_HDR_SIZE. destruct (Z.ltb_spec (Z.of_nat (length m)) (6 + 1)) as [|Hlen]; [by eexists|].
  destruct (lpGetTotalBytes m) as [total| |] eqn:Et;
    try (destruct (load_inside 4 0 m) as (v & Hv & _); [lia|lia|done|]; unfold lpGetTotalBytes in Et; change (Z.of_nat 4) with 4 in Hv; congruence).
  cbn [mbind res_bind]. destruct (Z.eqb_spec total (Z.of_nat (length m))) as [->|]; cbn [negb]; [|by eexists].
  destruct (aget_byte m (Z.of_nat (length m) - 1) Hm) as (b & -> & _); [lia|]. cbn [mbind res_bind].
  destruct (b =? LP_EOF); cbn [negb]; [|by eexists]. destruct deep; cbn [negb]; [|by eexists].
  destruct (load_inside 2 4 m) as (num & Hnum & Hn0); [lia|lia|done|]. change (Z.of_nat 2) with 2 in Hnum.
  unfold lpGetNumElements. rewrite Hnum. cbn [mbind res_bind].
  destruct (lp_validate_loop_total m (Z.of_nat (length m)) num cb (length m) 6 0) as (r & -> & Hr);
    [done|lia|unfold LP_HDR_SIZE; lia|lia|lia|].
  cbn [mbind res_bind]. destruct r as [[o c]|]; [|by eexists]. case_bool_decide as Ho; cbn [negb]; [|by eexists].
  eexists. split; [done|]. intros Hb _. destruct (Hr Ho) as (n & Hch & Hc).
  pose proof (lp_chain_bound _ _ _ _ Hm (Z.le_refl _) Hch) as Hnb.
  assert (Z.of_nat (length m) < 2 ^ 32) as H32.
  { unfold lpGetTotalBytes in Et. change 4 with (Z.of_nat 4) in Et. change 0 with (Z.of_nat 0) in Et. rewrite load_Ret in Et by lia.
    injection Et as Et. pose proof (le_combine_range (sub 0 4 m) (sub_bytes _ _ _ Hm)) as Hcr. rewrite length_sub in Hcr by lia.
    change (256 ^ Z.of_nat 4) with (2 ^ 32) in Hcr. lia. }
  exists (match n with O => None | S _ => Some 6 end), (Z.of_nat n), num.
  split; [exact (lp_chain_arrive _ _ _ _ Et Hch)|]. split.
  { apply (lp_chain_count m (Z.of_nat (length m)) 6 n (length m) 0); try done; lia. }
  split; [done|]. rewrite uwrap_id in Hc by lia. rewrite Z.add_0_l in Hc. subst c.
  destruct (Z.eqb_spec num LP_HDR_NUMELE_UNKNOWN); [by left|]. destruct (Z.eqb_spec num (Z.of_nat n)); [by right|done].
Qed.

Lemma lp_validate_loop_repr m es num slack fuel i :
  lp_layout m es num slack -> (i <= length es)%nat -> (length es - i < fuel)%nat ->
  lp_validate_loop fuel m (lp_total es) num None (Some (off es i)) (Z.of_nat i)
  = Ret (Some (Some (lp_total es - 1), Z.of_nat (length es))).
Proof.
  intros Hm. pose proof (repr_count_32 _ _ _ _ Hm). revert i. induction fuel as [|fuel IH]; intros i Hi Hf; [lia|]. cbn [lp_validate_loop].
  destruct (repr_byte _ _ _ _ Hm i Hi) as (b & -> & Hb). cbn [mbind res_bind]. rewrite Hb. case_bool_decide as E.
  - subst i. by rewrite off_end.
  - destruct (lookup_lt_is_Some_2 es i) as [e He]; [lia|].
    rewrite (entry_validate m _ e); [|by eapply repr_entry|by eapply repr_ok|apply off_ge|by apply repr_entry_end].
    cbn [mbind res_bind]. rewrite <- (off_S _ _ _ He), uwrap_id by lia. replace (Z.of_nat i + 1) with (Z.of_nat (S i)) by lia. apply IH; lia.
Qed.

(** Every listpack without unused bytes is accepted, shallow or deep. *)
Theorem lpValidateIntegrity_complete m es num deep :
  lp_layout m es num [] -> lpValidateIntegrity m (Z.of_nat (length m)) deep None = Ret true.
Proof.
  intros Hm. assert (Z.of_nat (length m) = lp_total es) as Hlen.
  { rewrite (ll_bytes _ _ _ _ Hm), !length_app, length_header. cbn [length]. unfold lp_total. lia. }
  unfold lpValidateIntegrity. rewrite Hlen. unfold lp_total at 1. unfold LP_HDR_SIZE at 1.
  destruct (Z.ltb_spec (7 + Z.of_nat (length (body es))) (6 + 1)); [lia|]. rewrite (repr_total _ _ _ _ Hm). cbn [mbind res_bind].
  rewrite Z.eqb_refl. cbn [negb]. rewrite <- off_end, (repr_eof _ _ _ _ Hm). cbn [mbind res_bind].
  change (LP_EOF =? LP_EOF) with true. cbn [negb]. destruct deep; [|done]. cbn [negb]. rewrite (repr_num _ _ _ _ Hm). cbn [mbind res_bind].
  pose proof (repr_length _ _ _ _ Hm). pose proof (lp_validate_loop_repr m es num [] (length m) 0 Hm ltac:(lia) ltac:(lia)) as Hl.
  change (Z.of_nat 0) with 0 in Hl. rewrite off_0 in Hl. rewrite Hl. cbn [mbind res_bind].
  rewrite off_end, bool_decide_eq_true_2 by done. cbn [negb].
  destruct (ll_num _ _ _ _ Hm) as [_ [-> | ->]]; [done|]. by rewrite Z.eqb_refl, andb_false_r.
Qed.

(** ** A concrete listpack *)

(** The elements [1], [hi], [1000] and [hi], and four unused bytes. *)
Definition demo_lp_elems : list elem := [EInt 1; EStr [104; 105]; EInt 1000; EStr [104; 105]].
Definition demo_lp : list Z :=
  [20; 0; 0; 0; 4; 0;  1; 1;  130; 104; 105; 3;  195; 232; 2;  130; 104; 105; 3;  255;  7; 7; 7; 7].

Lemma demo_lp_repr : lp_repr demo_lp demo_lp_elems.
Proof.
  exists 4, [7; 7; 7; 7]. split; [vm_compute; reflexivity| |  |vm_compute; reflexivity].
  - split; [split; vm_compute; discriminate|by right].
  - repeat constructor; unfold is_byte; vm_compute; by try split.
Qed.

Lemma lpSeek_correct_witness :
  lpSeek demo_lp (-2) = Ret (Some 12) /\ lpSeek demo_lp 1 = Ret (Some 8) /\ lpSeek demo_lp 4 = Ret None.
Proof.
  split_and!; [rewrite (lpSeek_correct _ _ (-2) demo_lp_repr)|rewrite (lpSeek_correct _ _ 1 demo_lp_repr)|
    rewrite (lpSeek_correct _ _ 4 demo_lp_repr)]; vm_compute; reflexivity.
Defined.

Lemma lpGet_correct_witness :
  exists v, lpGet demo_lp 12 None = Ret v /\ value_string demo_lp v = Ret [49; 48; 48; 48] /\
    (forall x, v = Integer x <-> EInt 1000 = EInt x).
Proof. exact (proj1 (lpGet_correct demo_lp _ 2 (EInt 1000) (replicate 21 0) demo_lp_repr eq_refl ltac:(vm_compute; lia))). Defined.

Lemma lpFind_correct_witness : exists o, lpFind demo_lp 8 [104; 105] 1 = Ret (off demo_lp_elems <$> o).
Proof.
  destruct (lpFind_correct demo_lp _ 1 [104; 105] 1 demo_lp_repr ltac:(cbn; lia) ltac:(lia)) as (o & E & _). exists o. exact E.
Defined.

(** The same without unused bytes. *)
Definition demo_exact : list Z := [20; 0; 0; 0; 4; 0;  1; 1;  130; 104; 105; 3;  195; 232; 2;  130; 104; 105; 3;  255].

Lemma lpValidateIntegrity_safe_witness :
  lpValidateIntegrity demo_exact (Z.of_nat (length demo_exact)) true None = Ret true /\
  exists p n num, lpFirst demo_exact = Ret p /\ count_loop (length demo_exact) demo_exact p 0 = Ret n /\ lpGetNumElements demo_exact = Ret num /\
    (num = LP_HDR_NUMELE_UNKNOWN \/ num = n).
Proof.
  assert (lpValidateIntegrity demo_exact (Z.of_nat (length demo_exact)) true None = Ret true) as Ha by (vm_compute; reflexivity). split; [exact Ha|].
  destruct (lpValidateIntegrity_safe demo_exact true None) as (b & E & Hb); [repeat constructor; vm_compute; by try split|]. apply Hb; [|reflexivity].
  rewrite Ha in E. by injection E.
Defined.
