(* ===== verification/ListpackEdit.v ===== *)
(** * Updates of listpacks

    [lpInsert] and the operations built on it, the deletion of ranges and the
    merging of listpacks implement the corresponding operations on the list
    of elements, or refuse when the result would not fit. *)
From S2P Require Import Prelude Mem NumStr Listpack ListpackEnc ListpackNav.

Local Open Scope Z_scope.

(** ** Memory *)

Lemma realloc_prefix `{Heap} size (l rest : list Z) :
  Z.of_nat (length l) <= size -> exists rest', realloc size (l ++ rest) = l ++ rest'.
Proof.
  intros Hs. unfold realloc. exists (take (Z.to_nat size - length l) rest ++
    map (fun i => uninit i mod 256) (seq 0 (Z.to_nat size - length (l ++ rest)))).
  rewrite take_app, (take_ge l) by lia. by rewrite <- app_assoc.
Qed.

Lemma realloc_usable `{Heap} `{Usable} (l rest : list Z) size :
  Z.of_nat (length l) <= size -> exists rest', lp_realloc (l ++ rest) size = l ++ rest' /\ size <= Z.of_nat (length (l ++ rest')).
Proof.
  intros Hs. pose proof (usable_ge size). unfold lp_realloc. destruct (realloc_prefix (usable size) l rest) as (rest' & E); [lia|].
  exists rest'. rewrite E. split; [done|]. rewrite <- E, length_realloc by lia. lia.
Qed.

(** Moving the tail [t] of a block so as to leave [n] bytes after [p]. *)
Lemma memmove_tail (p r t s : list Z) (n : nat) :
  (length p + n + length t <= length (p ++ r ++ t ++ s))%nat ->
  exists x s', length x = n /\
    memmove (Z.of_nat (length p) + Z.of_nat n) (Z.of_nat (length p) + Z.of_nat (length r)) (Z.of_nat (length t)) (p ++ r ++ t ++ s)
    = Ret (p ++ x ++ t ++ s').
Proof.
  intros Hl. rewrite <- !Nat2Z.inj_add, memmove_Ret by (rewrite !length_app in *; lia).
  exists (take n (r ++ t ++ s)), (drop (length p + n + length t) (p ++ r ++ t ++ s)). rewrite !length_app in Hl. split.
  - rewrite length_take, !length_app. lia.
  - f_equal. assert (sub (length p + length r) (length t) (p ++ r ++ t ++ s) = t) as ->.
    { rewrite app_assoc, sub_app_r, length_app, Nat.sub_diag, sub_app_l by (rewrite ?length_app; lia). by apply sub_all. }
    unfold patch. rewrite take_app, (take_ge p) by lia. rewrite <- app_assoc.
    by replace (length p + n - length p)%nat with n by lia.
Qed.

Section MakeRoom.
Context `{Heap} `{Usable}.

(** The room is made between [p] and [t], wherever it comes from. *)
Lemma lp_make_room_spec (p r t s : list Z) (n : nat) :
  exists x s', length x = n /\
    lp_make_room (p ++ r ++ t ++ s) (Z.of_nat (length p)) (Z.of_nat n) (Z.of_nat (length r))
      (Z.of_nat (length p + length r + length t)) (Z.of_nat (length p + n + length t)) = Ret (p ++ x ++ t ++ s').
Proof.
  unfold lp_make_room, lp_malloc_size. set (old := Z.of_nat (length p + length r + length t)). set (new := Z.of_nat (length p + n + length t)).
  assert (exists s1, (if (old <? new) && (Z.of_nat (length (p ++ r ++ t ++ s)) <? new) then lp_realloc (p ++ r ++ t ++ s) new
    else p ++ r ++ t ++ s) = p ++ r ++ t ++ s1 /\ new <= Z.of_nat (length (p ++ r ++ t ++ s1))) as (s1 & -> & Hlen).
  { destruct (_ && _) eqn:E.
    - destruct (realloc_usable (p ++ r ++ t) s new) as (s1 & E1 & Hs1); [rewrite !length_app; lia|].
      exists s1. rewrite <- !app_assoc in E1. rewrite <- !app_assoc in Hs1. rewrite E1. by split.
    - exists s. split; [done|]. unfold old, new in *. apply andb_false_iff in E as [E%Z.ltb_ge|E%Z.ltb_ge]; rewrite !length_app in *; lia. }
  destruct (memmove_tail p r t s1 n) as (x & s2 & Hx & Hm); [rewrite !length_app in *; lia|].
  replace (old - Z.of_nat (length p) - Z.of_nat (length r)) with (Z.of_nat (length t)) by lia. rewrite Hm. cbn [mbind res_bind].
  destruct (new <? old); [|by exists x, s2].
  destruct (realloc_usable (p ++ x ++ t) s2 new) as (s3 & E3 & _); [rewrite !length_app; lia|].
  exists x, s3. split; [done|]. rewrite <- !app_assoc in E3. by rewrite E3.
Qed.
End MakeRoom.

(** Filling the room. *)
Lemma fill_room (p x t : list Z) (d b : list Z) :
  length x = length (d ++ b) ->
  (m ← store_bytes (Z.of_nat (length p)) d (p ++ x ++ t); store_bytes (Z.of_nat (length p) + Z.of_nat (length d)) b m)
  = Ret (p ++ d ++ b ++ t).
Proof.
  intros Hx. rewrite length_app in Hx. rewrite store_bytes_Ret by (rewrite !length_app; lia). cbn [mbind res_bind].
  rewrite <- (take_drop (length d) x). rewrite <- app_assoc. rewrite sees_patch by (rewrite length_take; lia).
  rewrite <- Nat2Z.inj_add, <- length_app. rewrite (app_assoc p d). rewrite store_bytes_Ret by (rewrite !length_app, length_drop; lia).
  rewrite sees_patch by (rewrite length_drop; lia). by rewrite <- app_assoc.
Qed.

(** ** The header *)

Lemma header_num total num rest : 0 <= num < 65536 -> lpGetNumElements (lp_header total num ++ rest) = Ret num.
Proof.
  intros Hn. unfold lpGetNumElements. change 4 with (0 + Z.of_nat (length (le_split 4 total))). change 2 with (Z.of_nat (length (le_split 2 num))).
  rewrite sees_load; [by rewrite le_combine_split, Z.mod_small by (cbn; lia)|]. apply sees_app_r. by exists [], rest.
Qed.

Lemma header_set_num total num num' rest :
  lpSetNumElements (lp_header total num ++ rest) num' = Ret (lp_header total num' ++ rest).
Proof.
  unfold lpSetNumElements, store. change (Z.to_nat 2) with 2%nat. change 4 with (Z.of_nat (length (le_split 4 total))).
  unfold lp_header. rewrite store_bytes_Ret by (rewrite !length_app, !length_le_split; lia).
  rewrite <- !app_assoc, sees_patch by (by rewrite !length_le_split). done.
Qed.

Lemma header_set_total total num total' rest :
  lpSetTotalBytes (lp_header total num ++ rest) total' = Ret (lp_header total' num ++ rest).
Proof.
  unfold lpSetTotalBytes, store. change (Z.to_nat 4) with 4%nat. change 0 with (Z.of_nat (length ([] : list Z))).
  unfold lp_header. rewrite store_bytes_Ret by (rewrite !length_app, !length_le_split; cbn; lia).
  rewrite <- !app_assoc. reflexivity.
Qed.

(** The number after an insertion or a deletion. *)
Lemma update_header_spec total num rest (es es' : list elem) (counted delete : bool) total' :
  num_ok num es ->
  (counted = true -> Z.of_nat (length es') = if delete then Z.of_nat (length es) - 1 else Z.of_nat (length es) + 1) ->
  (counted = false -> length es' = length es) ->
  exists num', lp_update_header (lp_header total num ++ rest) counted delete total' = Ret (lp_header total' num' ++ rest) /\ num_ok num' es'.
Proof.
  intros [Hn Hnum] H1 H2. unfold lp_update_header, num_ok in *. unfold LP_HDR_NUMELE_UNKNOWN in *. destruct counted.
  - rewrite header_num by lia. cbn [mbind res_bind]. destruct (Z.eqb_spec num 65535) as [->|Hne]; cbn [negb mbind res_bind].
    + rewrite header_set_total. eexists. split; [done|]. lia.
    + rewrite header_set_num. cbn [mbind res_bind]. rewrite header_set_total. eexists. split; [done|].
      specialize (H1 eq_refl). destruct Hnum as [->| ->]; [done|]. destruct delete; lia.
  - cbn [mbind res_bind]. rewrite header_set_total. exists num. split; [done|]. rewrite (H2 eq_refl). lia.
Qed.

(** ** What is inserted *)

Inductive inserts : lpele -> list elem -> Prop :=
  | ins_string s : inserts (EleStr s) [elem_of_string s]
  | ins_integer v : inserts (EleInt (lpEncodeIntegerGetType v)) [EInt v]
  | ins_nothing : inserts EleNone [].

Lemma str_enclen s :
  (if Z.of_nat (length s) <? 64 then 1 + Z.of_nat (length s)
   else if Z.of_nat (length s) <? 4096 then 2 + Z.of_nat (length s) else 5 + Z.of_nat (length s)) = enc_size (EStr s).
Proof. unfold enc_size, enc_data, lpEncodeString. repeat case_match; cbn [length]; lia. Qed.

Lemma inserts_bytes x nw :
  inserts x nw ->
  lp_enclen x = Z.of_nat (length (lp_encode x)) /\
  lp_encode x ++ (if deletes x then [] else lpEncodeBacklen (lp_enclen x)) = body nw.
Proof.
  intros [s|v|]; cbn [lp_enclen lp_encode deletes]; [|split; [done|by unfold body; cbn; rewrite app_nil_r]|done].
  unfold lpEncodeGetType, elem_of_string. destruct (lpStringToInt64 s) as [v|]; unfold body; cbn [map concat]; rewrite app_nil_r.
  - done.
  - rewrite str_enclen. done.
Qed.

(** Where: the index of the change and the number of elements replaced. *)
Definition edit_at (x : lpele) (w : lpwhere) (i : nat) : nat * nat :=
  if deletes x then (i, 1%nat) else
  match w with LP_BEFORE => (i, 0%nat) | LP_AFTER => (S i, 0%nat) | LP_REPLACE => (i, 1%nat) end.

Definition edited (es nw : list elem) (j r : nat) : list elem := take j es ++ nw ++ drop (j + r) es.

Lemma body_edited es nw j r : body (edited es nw j r) = body (take j es) ++ body nw ++ body (drop (j + r) es).
Proof. unfold edited. by rewrite !body_app. Qed.

Lemma body_split es j r : body es = body (take j es) ++ body (take r (drop j es)) ++ body (drop (j + r) es).
Proof. rewrite <- !body_app. f_equal. rewrite <- drop_drop. by rewrite !take_drop. Qed.

Section Insert.
Context `{Heap} `{Usable}.
Context (m : list Z) (es : list elem) (num : Z) (slack : list Z).
Hypothesis Hm : lp_layout m es num slack.

Lemma layout_split j r :
  m = (lp_header (lp_total es) num ++ body (take j es)) ++ body (take r (drop j es)) ++ (body (drop (j + r) es) ++ [LP_EOF]) ++ slack.
Proof. rewrite (ll_bytes _ _ _ _ Hm) at 1. rewrite (body_split es j r) at 1. by rewrite <- !app_assoc. Qed.

Lemma total_split j r :
  lp_total es = Z.of_nat (6 + length (body (take j es)) + length (body (take r (drop j es))) + (length (body (drop (j + r) es)) + 1)).
Proof. unfold lp_total. rewrite (body_split es j r) at 1. rewrite !length_app. lia. Qed.

Lemma total_edited nw j r :
  lp_total (edited es nw j r) = Z.of_nat (6 + length (body (take j es)) + length (body nw) + (length (body (drop (j + r) es)) + 1)).
Proof. unfold lp_total. rewrite body_edited, !length_app. lia. Qed.

Lemma take_edited nw j r : (j <= length es)%nat -> take j (edited es nw j r) = take j es.
Proof. intros Hj. unfold edited. rewrite take_app_le by (rewrite length_take; lia). by rewrite take_take, Nat.min_id. Qed.

Lemma off_edited nw j r : (j <= length es)%nat -> off (edited es nw j r) j = off es j.
Proof. intros Hj. unfold off. by rewrite take_edited. Qed.

Lemma length_edited nw j r : (j + r <= length es)%nat -> length (edited es nw j r) = (length es + length nw - r)%nat.
Proof. intros Hj. unfold edited. rewrite !length_app, length_take, length_drop. lia. Qed.

Lemma edited_ok nw j r : Forall elem_ok nw -> Forall elem_ok (edited es nw j r).
Proof.
  intros Hn. unfold edited. pose proof (ll_elems _ _ _ _ Hm). apply Forall_app_2; [by apply Forall_take|].
  apply Forall_app_2; [done|by apply Forall_drop].
Qed.

(** The pointer that a deletion returns. *)
Lemma delete_newp j p s' :
  (j < length es)%nat -> off es j = Z.of_nat (length p) ->
  (b ← aget (p ++ (body (drop (j + 1) es) ++ [LP_EOF]) ++ s') (off es j); Ret (if b =? LP_EOF then None else Some (off es j)))
  = Ret (ptr (edited es [] j 1) j).
Proof.
  intros Hj Hoff. assert (edited es [] j 1 !! j = es !! (j + 1)%nat) as He.
  { unfold edited. rewrite lookup_app_r by (rewrite length_take; lia). rewrite length_take, Nat.min_l, Nat.sub_diag by lia. cbn [app].
    by rewrite lookup_drop, Nat.add_0_r. }
  unfold ptr. rewrite He, off_edited by lia.
  assert (sees (p ++ (body (drop (j + 1) es) ++ [LP_EOF]) ++ s') (off es j) (body (drop (j + 1) es) ++ [LP_EOF])) as Hs by (by exists p, s').
  destruct (es !! (j + 1)%nat) as [e|] eqn:E.
  - rewrite (drop_S _ _ _ E), body_cons in Hs |- *. rewrite <- !app_assoc in Hs |- *.
    pose proof (ll_elems _ _ _ _ Hm) as Hok. rewrite Forall_lookup in Hok.
    destruct (entry_not_eof _ _ _ (sees_app_l _ _ _ _ (sees_app_l _ _ _ _ Hs)) (Hok _ _ E)) as (b & -> & Hne). cbn.
    by rewrite Hne.
  - apply lookup_ge_None in E. rewrite (drop_ge es) in Hs |- * by lia. rewrite (sees_head _ _ _ [] Hs). done.
Qed.

(** The end of [lpInsert], once the place is known. *)
Lemma insert_here x nw j r :
  inserts x nw -> Forall elem_ok nw -> (j + r <= length es)%nat -> lp_total (edited es nw j r) < 2 ^ 32 ->
  let replaced := Z.of_nat (length (body (take r (drop j es)))) in
  let backlen := if deletes x then [] else lpEncodeBacklen (lp_enclen x) in
  let counted := negb (length nw =? r)%nat in
  (r <= 1)%nat -> (deletes x = true -> r = 1%nat) ->
  exists m' num' slack',
  (m ← lp_make_room m (off es j) (lp_enclen x + Z.of_nat (length backlen)) replaced (lp_total es) (lp_total (edited es nw j r));
   newp ← (if deletes x then b ← aget m (off es j); Ret (if b =? LP_EOF then None else Some (off es j)) else Ret (Some (off es j)));
   m ← (if deletes x then Ret m else
        m ← store_bytes (off es j) (lp_encode x) m; store_bytes (off es j + lp_enclen x) backlen m);
   m ← lp_update_header m counted (deletes x) (lp_total (edited es nw j r));
   Ret (Some (m, newp)))
  = Ret (Some (m', if deletes x then ptr (edited es nw j r) j else Some (off es j))) /\
  lp_layout m' (edited es nw j r) num' slack'.
Proof.
  intros Hx Hok Hjr Hsz replaced backlen counted Hr1 Hdel. destruct (inserts_bytes x nw Hx) as [Hlen Hbytes]. fold backlen in Hbytes.
  set (p := lp_header (lp_total es) num ++ body (take j es)). set (t := body (drop (j + r) es) ++ [LP_EOF]).
  assert (off es j = Z.of_nat (length p)) as Hoff by (unfold p, off, LP_HDR_SIZE; rewrite length_app, length_header; lia).
  assert (length (body nw) = length (lp_encode x) + length backlen)%nat as Hbl by (rewrite <- Hbytes; by rewrite length_app).
  destruct (lp_make_room_spec p (body (take r (drop j es))) t slack (length (body nw))) as (y & s' & Hy & Hroom).
  assert (lp_total es = Z.of_nat (length p + length (body (take r (drop j es))) + length t)) as Ht.
  { rewrite (total_split j r). unfold p, t. rewrite !length_app, length_header. cbn. lia. }
  assert (lp_total (edited es nw j r) = Z.of_nat (length p + length (body nw) + length t)) as Ht'.
  { rewrite (total_edited nw j r). unfold p, t. rewrite !length_app, length_header. cbn. lia. }
  replace (lp_enclen x + Z.of_nat (length backlen)) with (Z.of_nat (length (body nw))) by lia.
  rewrite <- Ht, <- Ht', <- Hoff in Hroom. rewrite (layout_split j r). fold p t. unfold replaced. rewrite Hroom. cbn [mbind res_bind].
  assert (exists newp, (if deletes x then b ← aget (p ++ y ++ t ++ s') (off es j); Ret (if b =? LP_EOF then None else Some (off es j))
    else Ret (Some (off es j))) = Ret newp /\ newp = if deletes x then ptr (edited es nw j r) j else Some (off es j)) as (newp & -> & ->).
  { destruct Hx; cbn [deletes]; [by eexists|by eexists|]. specialize (Hdel eq_refl). subst r. destruct y; [|done].
    eexists. split; [|done]. apply delete_newp; [lia|done]. }
  cbn [mbind res_bind].
  assert ((if deletes x then Ret (p ++ y ++ t ++ s') else
    m ← store_bytes (off es j) (lp_encode x) (p ++ y ++ t ++ s'); store_bytes (off es j + lp_enclen x) backlen m)
    = Ret (p ++ body nw ++ t ++ s')) as ->.
  { rewrite Hoff, Hlen. destruct (deletes x) eqn:Ed; [by destruct Hx; [..|destruct y]|].
    rewrite fill_room by (rewrite Hy, Hbl; by rewrite length_app). rewrite <- Hbytes. by rewrite <- app_assoc. }
  cbn [mbind res_bind]. unfold p. rewrite <- app_assoc.
  destruct (update_header_spec (lp_total es) num (body (take j es) ++ body nw ++ t ++ s') es (edited es nw j r) counted (deletes x)
    (lp_total (edited es nw j r)) (ll_num _ _ _ _ Hm)) as (num' & -> & Hnum').
  { unfold counted. intros Hcnt%negb_true_iff%Nat.eqb_neq. rewrite length_edited by done.
    destruct Hx; cbn [length deletes] in *; [lia|lia|]. specialize (Hdel eq_refl). lia. }
  { rewrite length_edited by done. unfold counted. destruct (Nat.eqb_spec (length nw) r); [lia|done]. }
  cbn [mbind res_bind]. eexists _, num', s'. split; [done|]. split; [|done|by apply edited_ok|done].
  rewrite body_edited. unfold t. by rewrite <- !app_assoc.
Qed.
End Insert.

Section InsertTheorem.
Context `{Heap} `{Usable}.
Context (m : list Z) (es : list elem) (num : Z) (slack : list Z).
Hypothesis Hm : lp_layout m es num slack.

Lemma insert_at_spec x nw j (w : lpwhere) :
  inserts x nw -> Forall elem_ok nw -> w <> LP_AFTER ->
  let r := match w with LP_REPLACE => 1%nat | _ => 0%nat end in
  (j + r <= length es)%nat -> (deletes x = true -> w = LP_REPLACE) ->
  let es' := edited es nw j r in
  if decide (lp_total es' < 2 ^ 32)
  then exists m', lp_insert_at m x (off es j) w = Ret (Some (m', if deletes x then ptr es' j else Some (off es' j))) /\ lp_repr m' es'
  else lp_insert_at m x (off es j) w = Ret None.
Proof.
  intros Hx Hok Hw r Hjr Hdel es'. destruct (inserts_bytes x nw Hx) as [Hlen Hbytes].
  set (backlen := if deletes x then [] else lpEncodeBacklen (lp_enclen x)) in *.
  assert (match w with
    | LP_REPLACE => n ← lpCurrentEncodedSizeUnsafe m (off es j); let n := u32 (n + lpBacklenSize n) in
                    _ ← ASSERT_INTEGRITY_LEN m (off es j) n; Ret n
    | _ => Ret 0 end = Ret (Z.of_nat (length (body (take r (drop j es)))))) as Hrep.
  { destruct w; [by unfold r|done|]. unfold r in *. destruct (lookup_lt_is_Some_2 es j) as [e He]; [lia|].
    pose proof (repr_ok _ _ _ _ Hm _ _ He) as Hoke. pose proof (repr_entry_end _ _ _ He) as Hend. pose proof (off_ge es j).
    rewrite (entry_sizeUnsafe m _ e) by (done || by eapply repr_entry). cbn [mbind res_bind]. cbv zeta. rewrite <- entry_size_eq.
    pose proof (ll_size _ _ _ _ Hm). pose proof (entry_size_pos e Hoke). unfold LP_HDR_SIZE in *. rewrite uwrap_id by lia.
    unfold ASSERT_INTEGRITY_LEN. rewrite (repr_total _ _ _ _ Hm). cbn [mbind res_bind].
    rewrite (proj2 (andb_true_iff _ _)) by (unfold LP_HDR_SIZE; lia). cbn [assert mbind res_bind].
    rewrite (drop_S _ _ _ He). cbn. rewrite take_0, app_nil_r. done. }
  pose proof (total_split es j r) as Ht. pose proof (total_edited es nw j r) as Ht'. fold es' in Ht'.
  assert (length (body nw) = length (lp_encode x) + length backlen)%nat as Hbl by (rewrite <- Hbytes; by rewrite length_app).
  assert (Z.of_nat (length (body nw)) < 2 ^ 34) as Hnw.
  { destruct Hx; [| |done]; apply Forall_inv in Hok; unfold body; cbn [map concat]; rewrite app_nil_r;
      fold (entry_size (elem_of_string s)) || fold (entry_size (EInt v)); rewrite entry_size_eq;
      match goal with |- enc_size ?e + _ < _ => pose proof (enc_size_range e Hok); pose proof (lpBacklenSize_range (enc_size e)) end; lia. }
  unfold lp_insert_at. fold backlen. rewrite (repr_total _ _ _ _ Hm). cbn [mbind res_bind] in Hrep |- *. cbv zeta in Hrep |- *. rewrite Hrep. cbn [mbind res_bind].
  pose proof (ll_size _ _ _ _ Hm) as Hsz.
  replace (lp_total es + lp_enclen x + Z.of_nat (length backlen) - Z.of_nat (length (body (take r (drop j es))))) with (lp_total es') by lia.
  rewrite uwrap_id by lia. unfold UINT32_MAX. destruct (Z.ltb_spec (2 ^ 32 - 1) (lp_total es')); [by rewrite decide_False by lia|].
  rewrite decide_True by lia.
  destruct (insert_here m es num slack Hm x nw j r Hx Hok Hjr ltac:(fold es'; lia)) as (m' & num' & slack' & Hins & Hl').
  { unfold r. destruct w; lia. } { intros Hd. unfold r. by rewrite (Hdel Hd). }
  exists m'. split; [|by exists num', slack']. unfold es'. rewrite off_edited by lia. rewrite <- Hins.
  assert (negb (length nw =? r)%nat = match w with LP_REPLACE => deletes x | _ => true end) as ->; [|done].
  unfold r. destruct Hx, w; done || (specialize (Hdel eq_refl); done).
Qed.
End InsertTheorem.

Lemma insert_spec `{Heap} `{Usable} m es x nw i w :
  lp_repr m es -> inserts x nw -> Forall elem_ok nw ->
  let '(j, r) := edit_at x w i in
  (j + r <= length es)%nat -> (w = LP_AFTER -> (i < length es)%nat) ->
  let es' := edited es nw j r in
  if decide (lp_total es' < 2 ^ 32)
  then exists m', lpInsert m x (off es i) w = Ret (Some (m', if deletes x then ptr es' j else Some (off es' j))) /\ lp_repr m' es'
  else lpInsert m x (off es i) w = Ret None.
Proof.
  intros (num & slack & Hm) Hx Hok. unfold lpInsert, edit_at. destruct (deletes x) eqn:Ed.
  { intros Hjr _. pose proof (insert_at_spec m es num slack Hm x nw i LP_REPLACE Hx Hok) as Hs. rewrite Ed in Hs. by apply Hs. }
  destruct w; cbn [fst snd]; intros Hjr Haft.
  - pose proof (insert_at_spec m es num slack Hm x nw i LP_BEFORE Hx Hok) as Hs. rewrite Ed in Hs. by apply Hs.
  - destruct (lookup_lt_is_Some_2 es i (Haft eq_refl)) as [e He].
    rewrite (entry_skip m _ e) by (by eapply repr_entry || by eapply repr_ok). cbn [mbind res_bind]. rewrite <- (off_S _ _ _ He).
    unfold ASSERT_INTEGRITY. rewrite (repr_total _ _ _ _ Hm). cbn [mbind res_bind].
    pose proof (off_ge es (S i)). pose proof (off_le es (S i) (length es) (Haft eq_refl)) as Hle. rewrite off_end in Hle.
    rewrite (proj2 (andb_true_iff _ _)) by lia. cbn [assert mbind res_bind].
    pose proof (insert_at_spec m es num slack Hm x nw (S i) LP_BEFORE Hx Hok) as Hs. rewrite Ed in Hs. by apply Hs.
  - pose proof (insert_at_spec m es num slack Hm x nw i LP_REPLACE Hx Hok) as Hs. rewrite Ed in Hs. by apply Hs.
Qed.

(** C27: [lpInsert] with a string, an integer or nothing, before, after or in
    place of an entry, has the effect of the insertion, replacement or
    deletion on the list of elements; the pointer it returns is to the new
    element, or after a deletion to the next one.  When the result would be
    larger than a listpack can be it returns null instead. *)
Theorem lpInsert_refines `{Heap} `{Usable} m es x nw i w :
  lp_repr m es -> inserts x nw -> Forall elem_ok nw ->
  let '(j, r) := edit_at x w i in
  (j + r <= length es)%nat -> (w = LP_AFTER -> (i < length es)%nat) ->
  let es' := edited es nw j r in
  if decide (lp_total es' < 2 ^ 32)
  then exists m', lpInsert m x (off es i) w = Ret (Some (m', if deletes x then ptr es' j else Some (off es' j))) /\ lp_repr m' es'
  else lpInsert m x (off es i) w = Ret None.
Proof. apply insert_spec. Qed.

(** ** Deletion of ranges *)

Lemma range_loop_spec m es num slack n i d :
  lp_layout m es num slack -> (i < length es)%nat ->
  range_loop n m (lp_total es) (off es i) d
  = Ret (off es (i + n `min` (length es - i))%nat, d + Z.of_nat (n `min` (length es - i))).
Proof.
  intros Hm. revert i d. induction n as [|n IH]; intros i d Hi; cbn [range_loop].
  { rewrite Nat.min_0_l, Nat.add_0_r. f_equal. f_equal. lia. }
  destruct (lookup_lt_is_Some_2 es i Hi) as [e He].
  rewrite (entry_skip m _ e) by (by eapply repr_entry || by eapply repr_ok). cbn [mbind res_bind]. rewrite <- (off_S _ _ _ He).
  destruct (repr_byte _ _ _ _ Hm (S i)) as (b & -> & Hb); [lia|]. cbn [mbind res_bind]. rewrite Hb. case_bool_decide as E.
  - replace (S n `min` (length es - i))%nat with 1%nat by lia. (apply f_equal, f_equal2; [apply f_equal; lia|lia]).
  - destruct (lookup_lt_is_Some_2 es (S i)) as [e' He']; [lia|]. rewrite (repr_assert _ _ _ _ Hm _ _ He'). cbn [mbind res_bind].
    rewrite IH by lia. (apply f_equal, f_equal2; [apply f_equal; lia|lia]).
Qed.

Lemma header_total total num rest : 0 <= total < 2 ^ 32 -> lpGetTotalBytes (lp_header total num ++ rest) = Ret total.
Proof.
  intros Ht. unfold lpGetTotalBytes. change 4 with (Z.of_nat (length (le_split 4 total))) at 1.
  rewrite sees_load; [rewrite le_combine_split; f_equal; apply Z.mod_small; change (256 ^ Z.of_nat 4) with (2 ^ 32); lia|].
  exists [], (le_split 2 num ++ rest). unfold lp_header. by rewrite <- !app_assoc.
Qed.

Lemma shrink_spec `{Heap} `{Usable} es num rest :
  lp_total es < 2 ^ 32 ->
  exists rest', lpShrinkToFit (lp_header (lp_total es) num ++ body es ++ LP_EOF :: rest)
    = Ret (lp_header (lp_total es) num ++ body es ++ LP_EOF :: rest').
Proof.
  intros Ht. unfold lpShrinkToFit. rewrite header_total by (unfold lp_total in *; lia). cbn [mbind res_bind].
  destruct (lp_total es <? _); [|by exists rest].
  destruct (realloc_usable (lp_header (lp_total es) num ++ body es ++ [LP_EOF]) rest (lp_total es)) as (rest' & E & _).
  { rewrite !length_app, length_header. unfold lp_total. cbn. lia. }
  exists rest'. rewrite <- !app_assoc in E. cbn [app] in E. by rewrite E.
Qed.

(** The end of a deletion: the header is set, and the block shrunk. *)
Lemma settle_spec `{Heap} `{Usable} (es es' : list elem) total num rest (k : nat) :
  num_ok num es -> (length es' + k = length es)%nat -> Forall elem_ok es' -> lp_total es' < 2 ^ 32 ->
  exists m', (m ← lpSetTotalBytes (lp_header total num ++ body es' ++ LP_EOF :: rest) (lp_total es');
              numele ← lpGetNumElements m;
              m ← (if negb (numele =? LP_HDR_NUMELE_UNKNOWN) then lpSetNumElements m (numele - Z.of_nat k) else Ret m);
              lpShrinkToFit m) = Ret m' /\ lp_repr m' es'.
Proof.
  intros [Hnr Hnum] Hlen Hok Ht. rewrite header_set_total. unfold LP_HDR_NUMELE_UNKNOWN in *. cbn [mbind res_bind].
  rewrite header_num by lia. cbn [mbind res_bind].
  assert (exists num', (if negb (num =? 65535) then lpSetNumElements (lp_header (lp_total es') num ++ body es' ++ LP_EOF :: rest) (num - Z.of_nat k)
      else Ret (lp_header (lp_total es') num ++ body es' ++ LP_EOF :: rest)) = Ret (lp_header (lp_total es') num' ++ body es' ++ LP_EOF :: rest) /\
    num_ok num' es') as (num' & -> & Hok').
  { unfold num_ok, LP_HDR_NUMELE_UNKNOWN. destruct (Z.eqb_spec num 65535) as [->|Hne]; cbn [negb].
    - exists 65535. split; [done|lia].
    - rewrite header_set_num. eexists. split; [done|]. destruct Hnum as [->| ->]; [done|]. lia. }
  cbn [mbind res_bind]. destruct (shrink_spec es' num' rest) as (s2 & ->); [lia|]. eexists. split; [done|].
  by exists num', s2.
Qed.

Section DeleteRange.
Context `{Heap} `{Usable}.
Context (m : list Z) (es : list elem) (num : Z) (slack : list Z).
Hypothesis Hm : lp_layout m es num slack.

Lemma cut_size i k : lp_total (edited es [] i k) <= lp_total es.
Proof. rewrite (total_edited es [] i k), (total_split es i k). cbn. lia. Qed.

Lemma close_gap_spec i k :
  (i + k <= length es)%nat ->
  exists m', lp_close_gap m (off es i) (off es (i + k)) (lp_total es) (Z.of_nat k) = Ret m' /\
    lp_repr m' (edited es [] i k).
Proof.
  intros Hik. unfold lp_close_gap. set (p := lp_header (lp_total es) num ++ body (take i es)).
  set (r := body (take k (drop i es))). set (t := body (drop (i + k) es) ++ [LP_EOF]). set (es' := edited es [] i k).
  assert (off es i = Z.of_nat (length p)) as Hoff by (unfold p, off, LP_HDR_SIZE; rewrite length_app, length_header; lia).
  assert (off es (i + k) = Z.of_nat (length p) + Z.of_nat (length r)) as Hoff'.
  { unfold off, p, r, LP_HDR_SIZE. rewrite <- take_take_drop, body_app, !length_app, length_header. lia. }
  pose proof (total_split es i k) as Ht. pose proof (total_edited es [] i k) as Ht'. pose proof (cut_size i k) as Hcut.
  fold r in Ht. fold es' in Ht', Hcut. cbn [length body map concat] in Ht'.
  pose proof (ll_size _ _ _ _ Hm) as Hsz. assert (length t = length (body (drop (i + k) es)) + 1)%nat as Htl by (unfold t; rewrite length_app; cbn; lia).
  assert (length p = 6 + length (body (take i es)))%nat as Hpl by (unfold p; by rewrite length_app, length_header).
  destruct (memmove_tail p r t slack 0) as (x & s' & Hx & Hmv); [rewrite !length_app; lia|]. destruct x; [|done].
  rewrite (layout_split m es num slack Hm i k). fold p r t. rewrite Hoff', Hoff.
  replace (lp_total es - 1 - (Z.of_nat (length p) + Z.of_nat (length r)) + 1) with (Z.of_nat (length t)) by lia.
  rewrite Z.add_0_r in Hmv. rewrite Hmv. cbn [mbind res_bind app].
  replace (lp_total es - _) with (lp_total es') by lia.
  assert (body es' ++ LP_EOF :: s' = body (take i es) ++ t ++ s') as Eb by (unfold es'; rewrite body_edited; unfold t; cbn; by rewrite <- !app_assoc).
  unfold p. rewrite <- app_assoc, <- Eb. apply (settle_spec es); [apply (ll_num _ _ _ _ Hm)| | |lia].
  - unfold es'. rewrite length_edited by lia. cbn [length]. lia.
  - eapply edited_ok; [done|constructor].
Qed.

Lemma lpDeleteRangeWithEntry_spec i n :
  (i < length es)%nat -> (0 < n)%nat ->
  let k := (n `min` (length es - i))%nat in
  exists m', lpDeleteRangeWithEntry m (off es i) n = Ret (m', ptr (edited es [] i k) i) /\ lp_repr m' (edited es [] i k).
Proof.
  intros Hi Hn k. unfold lpDeleteRangeWithEntry, lpBytes. rewrite (repr_total _ _ _ _ Hm). cbn [mbind res_bind].
  destruct (Nat.eqb_spec n 0); [lia|]. rewrite (range_loop_spec _ _ _ _ _ _ _ Hm Hi). fold k. rewrite Z.add_0_l. cbn [mbind res_bind].
  destruct (close_gap_spec i k) as (m' & -> & num' & s' & Hl); [lia|]. cbn [mbind res_bind].
  assert (length (edited es [] i k) = length es - k)%nat as Hlen by (rewrite length_edited by lia; cbn; lia).
  rewrite <- (off_edited es [] i k) by lia.
  destruct (repr_byte _ _ _ _ Hl i) as (b & -> & Hb); [lia|]. cbn [mbind res_bind]. rewrite Hb.
  eexists. split; [|by exists num', s']. f_equal. f_equal. case_bool_decide as E; [by rewrite ptr_None by lia|].
  destruct (lookup_lt_is_Some_2 (edited es [] i k) i) as [e He]; [lia|]. by rewrite (ptr_lookup _ _ _ He).
Qed.

(** Truncation: the end marker is put over the entry at [i]. *)
Lemma truncate_spec i :
  (i < length es)%nat -> num <> LP_HDR_NUMELE_UNKNOWN ->
  exists m', (m1 ← aset m (off es i) LP_EOF; m1 ← lpSetTotalBytes m1 (off es i + 1);
              m1 ← lpSetNumElements m1 (Z.of_nat i); lpShrinkToFit m1) = Ret m' /\
    lp_repr m' (take i es).
Proof.
  intros Hi Hne. destruct (ll_num _ _ _ _ Hm) as [Hnr Hnum]. destruct (lookup_lt_is_Some_2 es i Hi) as [e He].
  set (p := lp_header (lp_total es) num ++ body (take i es)).
  assert (off es i = Z.of_nat (length p)) as Hoff by (unfold p, off, LP_HDR_SIZE; rewrite length_app, length_header; lia).
  assert (off es i + 1 = lp_total (take i es)) as Ht by (unfold off, lp_total, LP_HDR_SIZE; lia).
  pose proof (cut_size i (length es - i)) as Hcut. pose proof (ll_size _ _ _ _ Hm) as Hsz.
  replace (edited es [] i (length es - i)) with (take i es) in Hcut by (unfold edited; rewrite drop_ge by lia; by rewrite app_nil_r).
  pose proof (layout_split m es num slack Hm i 0) as E. rewrite Nat.add_0_r in E.
  destruct (body (drop i es) ++ [LP_EOF]) as [|b t] eqn:Ed; [by destruct (body (drop i es))|].
  change (body (take 0 (drop i es))) with ([] : list Z) in E. cbn [app] in E. rewrite E, Hoff. fold p. rewrite aset_in by (rewrite !length_app; cbn [length]; lia).
  change (p ++ (b :: t) ++ slack) with (p ++ b :: (t ++ slack)).
  rewrite insert_app_r_alt, Nat.sub_diag by lia. cbn [mbind res_bind].
  rewrite <- Hoff, Ht. cbn [insert list_insert]. unfold p. rewrite <- app_assoc, header_set_total. cbn [mbind res_bind].
  rewrite header_set_num. cbn [mbind res_bind]. destruct (shrink_spec (take i es) (Z.of_nat i) (t ++ slack)) as (s' & ->); [lia|].
  eexists. split; [done|]. exists (Z.of_nat i), s'. unfold LP_HDR_NUMELE_UNKNOWN in *. split; [done| | |lia].
  - split; [unfold LP_HDR_NUMELE_UNKNOWN; lia|]. right. rewrite length_take. lia.
  - apply Forall_take, (ll_elems _ _ _ _ Hm).
Qed.
End DeleteRange.

(** The effect of [lpDeleteRange], for its callers. *)
Lemma lpDeleteRange_spec `{Heap} `{Usable} m es index n :
  lp_repr m es -> Z.of_nat n < 2 ^ 64 -> - 2 ^ 63 <= index < 2 ^ 63 ->
  let a := abs_index es index in
  if decide (0 <= a < Z.of_nat (length es))
  then exists m', lpDeleteRange m index n = Ret m' /\
    lp_repr m' (take (Z.to_nat a) es ++ drop (Z.to_nat a + n) es)
  else lpDeleteRange m index n = Ret m.
Proof.
  intros Hr Hn Hi a. pose proof (seek_spec m es index Hr) as Hs. fold a in Hs. destruct Hr as (num & slack & Hm).
  unfold lpDeleteRange. rewrite (repr_num _ _ _ _ Hm), Hs. cbn [mbind res_bind].
  destruct (Nat.eqb_spec n 0) as [->|Hn0].
  { case_decide; [|done]. exists m. rewrite Nat.add_0_r, take_drop. split; [done|]. by exists num, slack. }
  case_decide as Ha; [|by destruct (Z.leb_spec 0 a); [rewrite ptr_None by lia|]].
  rewrite (proj2 (Z.leb_le 0 a)) by lia. destruct (lookup_lt_is_Some_2 es (Z.to_nat a)) as [e He]; [lia|].
  rewrite (ptr_lookup _ _ _ He). destruct (ll_num _ _ _ _ Hm) as [Hnr Hnum]. pose proof (repr_count_32 _ _ _ _ Hm) as H32.
  destruct (lpDeleteRangeWithEntry_spec m es num slack Hm (Z.to_nat a) n) as (m' & E' & Hr'); [lia|lia|].
  replace (edited es [] (Z.to_nat a) _) with (take (Z.to_nat a) es ++ drop (Z.to_nat a + n) es) in *.
  2: { unfold edited. cbn [app]. f_equal. destruct (Nat.le_gt_cases n (length es - Z.to_nat a)); [f_equal; lia|]. by rewrite !drop_ge by lia. }
  destruct (Z.eqb_spec num LP_HDR_NUMELE_UNKNOWN) as [Ek|Ek]; cbn [negb andb].
  { rewrite E'. by exists m'. }
  destruct Hnum as [->|Hnum]; [done|]. replace (if index <? 0 then num + index else index) with a by (rewrite Hnum; done).
  rewrite uwrap_id by lia. destruct (Z.leb_spec (num - a) (Z.of_nat n)); [|rewrite E'; by exists m'].
  destruct (truncate_spec m es num slack Hm (Z.to_nat a)) as (m2 & E2 & Hr2); [lia|done|].
  rewrite Z2Nat.id in E2 by lia. rewrite E2. exists m2. split; [done|]. rewrite (drop_ge _ (_ + n)) by lia. by rewrite app_nil_r.
Qed.

(** [lpDeleteRange] removes up to [num] elements from an index counted
    from either end, by truncation or by moving the tail, and changes nothing
    when the index is out of range. *)
Theorem lpDeleteRange_refines `{Heap} `{Usable} m es index n :
  lp_repr m es -> Z.of_nat n < 2 ^ 64 -> - 2 ^ 63 <= index < 2 ^ 63 ->
  let a := abs_index es index in
  if decide (0 <= a < Z.of_nat (length es))
  then exists m', lpDeleteRange m index n = Ret m' /\
    lp_repr m' (take (Z.to_nat a) es ++ drop (Z.to_nat a + n) es)
  else lpDeleteRange m index n = Ret m.
Proof. apply lpDeleteRange_spec. Qed.

(** ** Deletion of a batch *)

(** What is left, from index [from] on, of [es] without the elements at the
    increasing indexes [is]. *)
Fixpoint kept (es : list elem) (from : nat) (idx : list nat) : list elem :=
  match idx with
  | [] => drop from es
  | i :: idx => take (i - from) (drop from es) ++ kept es (S i) idx
  end.

(** The indexes are increasing, from [from] on, and in range. *)
Fixpoint increasing (from : nat) (idx : list nat) (n : nat) : Prop :=
  match idx with
  | [] => True
  | i :: idx => (from <= i < n)%nat /\ increasing (S i) idx n
  end.

Lemma memmove_down (p r t s : list Z) :
  exists x, length x = length r /\
    memmove (Z.of_nat (length p)) (Z.of_nat (length p) + Z.of_nat (length r)) (Z.of_nat (length t)) (p ++ r ++ t ++ s)
    = Ret (p ++ t ++ x ++ s).
Proof.
  rewrite <- !Nat2Z.inj_add, memmove_Ret by (rewrite !length_app in *; lia).
  exists (drop (length t) (r ++ t)). split; [rewrite length_drop, length_app; lia|]. f_equal.
  assert (sub (length p + length r) (length t) (p ++ r ++ t ++ s) = t) as ->.
  { rewrite app_assoc, sub_app_r, length_app, Nat.sub_diag, sub_app_l by (rewrite ?length_app; lia). by apply sub_all. }
  unfold patch. rewrite take_app, (take_ge p), Nat.sub_diag, app_nil_r by lia. f_equal. f_equal.
  rewrite drop_app_ge by lia. replace (length p + length t - length p)%nat with (length t) by lia.
  rewrite (app_assoc r), drop_app_le by (rewrite length_app; lia). done.
Qed.

Section Batch.
Context (es : list elem) (Hok : Forall elem_ok es).

Lemma body_at i e : es !! i = Some e -> body (drop i es) = entry_bytes e ++ body (drop (S i) es).
Proof. intros He. by rewrite (drop_S _ _ _ He), body_cons. Qed.

Lemma body_between i j : (i <= j)%nat -> body (drop i es) = body (take (j - i) (drop i es)) ++ body (drop j es).
Proof. intros Hij. rewrite <- body_app. rewrite <- (take_drop (j - i) (drop i es)) at 1. rewrite drop_drop. by replace (i + (j - i))%nat with j by lia. Qed.

Lemma off_between i j : (i <= j)%nat -> off es j = off es i + Z.of_nat (length (body (take (j - i) (drop i es)))).
Proof.
  intros Hij. unfold off. replace (take j es) with (take i es ++ take (j - i) (drop i es)).
  - rewrite body_app, length_app. lia.
  - rewrite take_take_drop. f_equal. lia.
Qed.

Lemma batch_enter i e ps m dst lp_end :
  es !! i = Some e -> sees m (off es i) (entry_bytes e) ->
  batch_loop (off es i :: ps) m dst lp_end
  = (let keep_end := match ps with next :: _ => next | [] => lp_end end in
     if match ps with _ :: _ => off es (S i) =? keep_end | [] => false end then batch_loop ps m dst lp_end else
     _ ← assert (off es (S i) <? keep_end);
     m ← memmove dst (off es (S i)) (keep_end - off es (S i)) m;
     batch_loop ps m (dst + (keep_end - off es (S i))) lp_end).
Proof using Hok.
  intros He Hs. pose proof (Forall_lookup_1 _ _ _ _ Hok He) as Heok.
  destruct (entry_not_eof m (off es i) e Hs Heok) as (b & Hb & Hne).
  cbn [batch_loop]. rewrite Hb. cbn [mbind res_bind]. rewrite Hne. cbn [negb assert mbind res_bind].
  rewrite (entry_skip m _ e) by done. cbn [mbind res_bind]. by rewrite <- (off_S _ _ _ He).
Qed.

Lemma batch_loop_spec idx i p junk slack :
  increasing i (i :: idx) (length es) -> off es i = Z.of_nat (length (p ++ junk)) ->
  exists x, batch_loop (map (off es) (i :: idx)) (p ++ junk ++ body (drop i es) ++ LP_EOF :: slack) (Z.of_nat (length p)) (lp_total es)
    = Ret (p ++ body (kept es (S i) idx) ++ LP_EOF :: x, Z.of_nat (length p) + Z.of_nat (length (body (kept es (S i) idx))) + 1).
Proof using Hok.
  revert i p junk. induction idx as [|j idx IH]; intros i p junk [Hi Hinc] Ho;
    (destruct (lookup_lt_is_Some_2 es i) as [e He]; [lia|]); cbn [map];
    (rewrite (batch_enter _ e) by (done || rewrite Ho; exists (p ++ junk), (body (drop (S i) es) ++ LP_EOF :: slack);
      rewrite (body_at _ _ He), <- !app_assoc; done)); cbv zeta;
    (assert (off es (S i) = Z.of_nat (length p) + Z.of_nat (length (junk ++ entry_bytes e))) as Ho'
      by (rewrite (off_S _ _ _ He), Ho, !length_app; unfold entry_size; lia)); rewrite (body_at _ _ He).
  - pose proof (off_between (S i) (length es)) as Hend. rewrite off_end, (take_ge (drop _ _)) in Hend by (rewrite length_drop; lia).
    rewrite (proj2 (Z.ltb_lt _ _)) by lia. cbn [assert mbind res_bind kept].
    destruct (memmove_down p (junk ++ entry_bytes e) (body (drop (S i) es) ++ [LP_EOF]) slack) as (x & _ & E).
    rewrite <- !app_assoc in E. cbn [app] in E. rewrite <- !app_assoc. rewrite Ho'.
    replace (lp_total es - _) with (Z.of_nat (length (body (drop (S i) es) ++ [LP_EOF]))) by (rewrite length_app; cbn [length]; lia).
    rewrite E. cbn [mbind res_bind batch_loop]. eexists. apply f_equal, f_equal2; [done|]. rewrite length_app. cbn [length]. lia.
  - destruct Hinc as [Hj Hinc]. pose proof (off_between (S i) j ltac:(lia)) as Hend. set (t := take (j - S i) (drop (S i) es)) in *.
    cbn [kept]. fold t. rewrite body_app, (body_between (S i) j) by lia. fold t.
    destruct (Z.eqb_spec (off es (S i)) (off es j)) as [E|E].
    + destruct (body t) eqn:Et; [|cbn [length] in Hend; lia].
      destruct (IH j p (junk ++ entry_bytes e)) as (x & Hx); [by split; [lia|]|rewrite length_app; lia|]. exists x.
      rewrite <- !app_assoc in Hx. rewrite <- !app_assoc. exact Hx.
    + rewrite (proj2 (Z.ltb_lt _ _)) by lia. cbn [assert mbind res_bind]. rewrite Ho'.
      destruct (memmove_down p (junk ++ entry_bytes e) (body t) (body (drop j es) ++ LP_EOF :: slack)) as (x & Hx & Em).
      rewrite <- !app_assoc in Em. rewrite <- !app_assoc. replace (off es j - _) with (Z.of_nat (length (body t))) by lia.
      rewrite Em. cbn [mbind res_bind]. destruct (IH j (p ++ body t) x) as (y & Hy); [by split; [lia|]|rewrite !length_app in *; lia|].
      exists y. rewrite !length_app, Nat2Z.inj_add in Hy. rewrite <- !app_assoc in Hy. cbn [map] in Hy. rewrite Hy.
      apply f_equal, f_equal2; [by rewrite <- !app_assoc|]. rewrite length_app. lia.
Qed.
End Batch.

Lemma kept_length es from idx :
  increasing from idx (length es) -> (length (kept es from idx) + length idx = length es - from)%nat.
Proof.
  revert from. induction idx as [|i idx IH]; intros from Hinc; cbn [kept length].
  - rewrite length_drop. lia.
  - destruct Hinc as [Hi Hinc]. specialize (IH _ Hinc). rewrite length_app, length_take, length_drop. lia.
Qed.

Lemma kept_ok es from idx : Forall elem_ok es -> Forall elem_ok (kept es from idx).
Proof.
  intros Hok. revert from. induction idx as [|i idx IH]; intros from; cbn [kept]; [by apply Forall_drop|].
  apply Forall_app_2; [by apply Forall_take, Forall_drop|apply IH].
Qed.

Lemma kept_size es from idx :
  increasing from idx (length es) -> (length (body (kept es from idx)) <= length (body (drop from es)))%nat.
Proof.
  revert from. induction idx as [|i idx IH]; intros from Hinc; cbn [kept]; [done|]. destruct Hinc as [Hi Hinc].
  specialize (IH _ Hinc). rewrite (body_between es from i), body_app, !length_app by lia.
  destruct (lookup_lt_is_Some_2 es i) as [e He]; [lia|]. rewrite (body_at _ _ _ He), length_app. lia.
Qed.

(** [lpBatchDelete] at increasing entries removes exactly those, whatever
    runs of entries lie between them, and its assertions hold. *)
Theorem lpBatchDelete_refines `{Heap} `{Usable} m es idx :
  lp_repr m es -> increasing 0 idx (length es) ->
  exists m', lpBatchDelete m (map (off es) idx) = Ret m' /\ lp_repr m' (kept es 0 idx).
Proof.
  intros (num & slack & Hm) Hinc. destruct idx as [|i idx].
  { exists m. split; [done|]. by exists num, slack. }
  unfold lpBatchDelete. cbn [map]. rewrite (repr_total _ _ _ _ Hm). cbn [mbind res_bind].
  rewrite <- (off_end es), (repr_eof _ _ _ _ Hm). cbn [mbind res_bind]. rewrite Z.eqb_refl. cbn [assert mbind res_bind].
  set (es' := kept es 0 (i :: idx)). pose proof (kept_length es 0 _ Hinc) as Hlen. pose proof (kept_size es 0 _ Hinc) as Hsz.
  fold es' in Hlen, Hsz. rewrite drop_0 in Hsz. destruct (ll_num _ _ _ _ Hm) as [Hnr Hnum]. pose proof (ll_size _ _ _ _ Hm) as Htot.
  set (p := lp_header (lp_total es) num ++ body (take i es)). destruct Hinc as [Hi Hinc].
  assert (off es i = Z.of_nat (length p)) as Hoff by (unfold p, off, LP_HDR_SIZE; rewrite length_app, length_header; lia).
  assert (m = p ++ [] ++ body (drop i es) ++ LP_EOF :: slack) as Em.
  { rewrite (ll_bytes _ _ _ _ Hm) at 1. rewrite <- (take_drop i es) at 2. rewrite body_app. unfold p. by rewrite <- !app_assoc. }
  destruct (batch_loop_spec es (ll_elems _ _ _ _ Hm) idx i p [] slack) as (x & Hx); [by split; [lia|]|by rewrite app_nil_r|].
  cbn [map] in Hx. rewrite Hoff, Em. rewrite Hoff in Hx. rewrite Hx. cbn [mbind res_bind].
  assert (p ++ body (kept es (S i) idx) ++ LP_EOF :: x = lp_header (lp_total es) num ++ body es' ++ LP_EOF :: x) as ->.
  { unfold p, es'. cbn [kept]. by rewrite Nat.sub_0_r, drop_0, body_app, <- !app_assoc. }
  assert (Z.of_nat (length p) + Z.of_nat (length (body (kept es (S i) idx))) + 1 = lp_total es') as ->.
  { unfold p, es', lp_total. cbn [kept]. rewrite Nat.sub_0_r, drop_0, body_app, !length_app, length_header. lia. }
  replace (lp_total es - (lp_total es - lp_total es')) with (lp_total es') by lia.
  rewrite (sees_head _ (lp_total es' - 1) LP_EOF x).
  2: { exists (lp_header (lp_total es) num ++ body es'), []. split; [by rewrite app_nil_r, <- app_assoc|].
       unfold lp_total. rewrite length_app, length_header. lia. }
  cbn [mbind res_bind]. rewrite Z.eqb_refl. cbn [assert mbind res_bind].
  apply (settle_spec es); [done| |apply kept_ok, (ll_elems _ _ _ _ Hm)|unfold lp_total in *; lia].
  rewrite length_cons, length_map. cbn [length] in Hlen. lia.
Qed.

(** ** Merging *)

Section Merge.
Context `{Heap} `{Usable}.
Context (m1 m2 : list Z) (es1 es2 : list elem) (num1 num2 : Z) (slack1 slack2 : list Z).
Context (Hm1 : lp_layout m1 es1 num1 slack1) (Hm2 : lp_layout m2 es2 num2 slack2).

Lemma total_app : lp_total (es1 ++ es2) = lp_total es1 + lp_total es2 - LP_HDR_SIZE - 1.
Proof. unfold lp_total, LP_HDR_SIZE. rewrite body_app, length_app. lia. Qed.

(** The contents of a block with its end marker. *)
Lemma sees_contents m es num slack : lp_layout m es num slack -> sees m LP_HDR_SIZE (body es ++ [LP_EOF]).
Proof.
  intros Hl. exists (lp_header (lp_total es) num), slack. rewrite (ll_bytes _ _ _ _ Hl) at 1.
  by rewrite <- !app_assoc.
Qed.

Lemma sees_front m es num slack : lp_layout m es num slack -> sees m 0 (lp_header (lp_total es) num ++ body es).
Proof. intros Hl. exists [], (LP_EOF :: slack). rewrite (ll_bytes _ _ _ _ Hl) at 1. by rewrite <- !app_assoc. Qed.

(** Growing a listpack's block keeps the listpack. *)
Lemma grow_layout m es num slack size :
  lp_layout m es num slack -> lp_total es <= size ->
  exists rest, lp_realloc m size = lp_header (lp_total es) num ++ body es ++ LP_EOF :: rest /\
    size <= 7 + Z.of_nat (length (body es)) + Z.of_nat (length rest).
Proof.
  intros Hl Hs. destruct (realloc_usable (lp_header (lp_total es) num ++ body es ++ [LP_EOF]) slack size) as (rest & E & Hr).
  { rewrite !length_app, length_header. unfold lp_total in *. cbn [length]. lia. }
  exists rest. rewrite (ll_bytes _ _ _ _ Hl) at 1. rewrite <- !app_assoc in E. cbn [app] in E. rewrite E. split; [done|].
  rewrite !length_app, length_header in Hr. cbn [length] in Hr. lia.
Qed.

Lemma merge_append :
  exists num rest,
    (bs ← load_bytes (lp_total es2 - LP_HDR_SIZE) LP_HDR_SIZE m2;
     store_bytes (lp_total es1 - 1) bs (lp_realloc m1 (lp_total (es1 ++ es2))))
    = Ret (lp_header (lp_total es1) num ++ body (es1 ++ es2) ++ LP_EOF :: rest).
Proof using Hm1 Hm2.
  destruct (grow_layout _ _ _ _ (lp_total (es1 ++ es2)) Hm1) as (rest & -> & Hr); [rewrite total_app; unfold lp_total, LP_HDR_SIZE; lia|].
  replace (lp_total es2 - LP_HDR_SIZE) with (Z.of_nat (length (body es2 ++ [LP_EOF]))) by (rewrite length_app; unfold lp_total, LP_HDR_SIZE; cbn [length]; lia).
  rewrite (sees_load_bytes _ _ _ (sees_contents _ _ _ _ Hm2)). cbn [mbind res_bind].
  replace (lp_total es1 - 1) with (Z.of_nat (length (lp_header (lp_total es1) num1 ++ body es1))) by (rewrite length_app, length_header; unfold lp_total; lia).
  unfold lp_total in Hr. rewrite body_app, length_app in Hr.
  rewrite app_assoc, store_bytes_Ret by (rewrite !length_app, length_header; cbn [length]; lia).
  remember (LP_EOF :: rest) as t eqn:Et. exists num1, (drop (length (body es2 ++ [LP_EOF])) t).
  rewrite <- (take_drop (length (body es2 ++ [LP_EOF])) t) at 1.
  rewrite sees_patch by (rewrite length_take, length_app, Et; cbn [length]; lia).
  rewrite body_app, <- !app_assoc. cbn [app]. done.
Qed.

Lemma merge_prepend :
  exists num rest,
    (target ← memmove (lp_total es1 - 1) LP_HDR_SIZE (lp_total es2 - LP_HDR_SIZE) (lp_realloc m2 (lp_total (es1 ++ es2)));
     bs ← load_bytes (lp_total es1 - 1) 0 m1;
     store_bytes 0 bs target)
    = Ret (lp_header (lp_total es1) num ++ body (es1 ++ es2) ++ LP_EOF :: rest).
Proof using Hm1 Hm2.
  destruct (grow_layout _ _ _ _ (lp_total (es1 ++ es2)) Hm2) as (rest & -> & Hr); [rewrite total_app; unfold lp_total, LP_HDR_SIZE; lia|].
  unfold lp_total in Hr at 1. rewrite body_app, length_app in Hr.
  destruct (memmove_tail (lp_header (lp_total es2) num2) [] (body es2 ++ [LP_EOF]) rest (length (body es1))) as (x & s' & Hx & E).
  { rewrite !length_app, length_header. cbn [length]. lia. }
  rewrite length_header in E. cbn [app length] in E. rewrite <- !app_assoc in E. cbn [app] in E.
  replace (lp_total es1 - 1) with (Z.of_nat 6 + Z.of_nat (length (body es1))) by (unfold lp_total; lia).
  replace (lp_total es2 - LP_HDR_SIZE) with (Z.of_nat (length (body es2 ++ [LP_EOF]))) by (rewrite length_app; unfold lp_total, LP_HDR_SIZE; cbn [length]; lia).
  change LP_HDR_SIZE with (Z.of_nat 6 + Z.of_nat 0). rewrite E. cbn [mbind res_bind].
  replace (Z.of_nat 6 + Z.of_nat (length (body es1))) with (Z.of_nat (length (lp_header (lp_total es1) num1 ++ body es1))) by (rewrite length_app, length_header; unfold lp_total; lia).
  rewrite (sees_load_bytes _ _ _ (sees_front _ _ _ _ Hm1)). cbn [mbind res_bind].
  change 0 with (Z.of_nat (length ([] : list Z))). rewrite store_bytes_Ret by (rewrite !length_app, !length_header; cbn [length]; lia).
  rewrite (app_assoc (lp_header (lp_total es2) num2)).
  pose proof (sees_patch [] (lp_header (lp_total es2) num2 ++ x) (lp_header (lp_total es1) num1 ++ body es1) (body es2 ++ LP_EOF :: s')) as Hp.
  cbn [app length] in Hp |- *. rewrite Hp by (rewrite !length_app, !length_header; lia).
  exists num1, s'. rewrite body_app, <- !app_assoc. done.
Qed.
End Merge.

(** [lpMerge] builds the listpack of the elements of the first followed by
    those of the second, whichever of the two blocks it extends, with the
    number of elements in the header or, from 65535 on, unknown; it aborts
    when the result would be too large. *)
Theorem lpMerge_refines `{Heap} `{Usable} m1 m2 es1 es2 :
  lp_repr m1 es1 -> lp_repr m2 es2 ->
  if decide (lp_total (es1 ++ es2) < UINT32_MAX)
  then exists m', lpMerge m1 m2 = Ret m' /\ lp_repr m' (es1 ++ es2)
  else lpMerge m1 m2 = Abort.
Proof.
  intros Hr1 Hr2. destruct (lpLength_correct _ _ Hr1) as (m1' & El1 & num1 & s1 & Hl1).
  destruct (lpLength_correct _ _ Hr2) as (m2' & El2 & num2 & s2 & Hl2). destruct Hr1 as (? & ? & Hm1). destruct Hr2 as (? & ? & Hm2).
  unfold lpMerge, lpBytes. rewrite (repr_total _ _ _ _ Hm1), (repr_total _ _ _ _ Hm2), El1, El2. cbn [mbind res_bind].
  rewrite <- total_app.
  set (n := if _ <? 65535 then _ else _).
  assert (num_ok n (es1 ++ es2)) as Hn.
  { unfold n, num_ok, LP_HDR_NUMELE_UNKNOWN. rewrite length_app. destruct (Z.ltb_spec (Z.of_nat (length es1) + Z.of_nat (length es2)) 65535); lia. }
  assert (forall num rest, lp_total (es1 ++ es2) < UINT32_MAX -> exists m',
    (target ← lpSetNumElements (lp_header (lp_total es1) num ++ body (es1 ++ es2) ++ LP_EOF :: rest) n; lpSetTotalBytes target (lp_total (es1 ++ es2)))
    = Ret m' /\ lp_repr m' (es1 ++ es2)) as Hfin.
  { intros num rest Ht. rewrite header_set_num. cbn [mbind res_bind]. rewrite header_set_total. eexists. split; [done|].
    exists n, rest. unfold UINT32_MAX in Ht. split; [done|done| |lia]. apply Forall_app_2; [apply (ll_elems _ _ _ _ Hm1)|apply (ll_elems _ _ _ _ Hm2)]. }
  case_decide as Ht.
  - destruct (Z.leb_spec (lp_total es2) (lp_total es1)) as [Hle|Hle]; rewrite (proj2 (Z.ltb_lt _ _) Ht); cbn [assert mbind res_bind].
    + destruct (merge_append _ _ _ _ _ _ _ _ Hl1 Hl2) as (num & rest & E). cbn [mbind res_bind] in E. rewrite E. cbn [mbind res_bind]. by apply Hfin.
    + destruct (merge_prepend _ _ _ _ _ _ _ _ Hl1 Hl2) as (num & rest & E). cbn [mbind res_bind] in E. rewrite E. by apply Hfin.
  - apply Z.nlt_ge, Z.ltb_ge in Ht. destruct (lp_total es2 <=? lp_total es1); by rewrite Ht.
Qed.

(** ** A concrete run *)

(** The allocator that gives exactly what is asked for. *)
Definition exact_usable : Usable := {| usable := fun n => n; usable_ge := Z.le_refl |}.

#[local] Existing Instance zero_heap.
#[local] Existing Instance exact_usable.

(** [abc] takes the place of [1000]. *)
Lemma lpInsert_refines_witness :
  exists m', lpInsert demo_lp (EleStr [97; 98; 99]) 12 LP_REPLACE = Ret (Some (m', Some 12)) /\
    lp_repr m' [EInt 1; EStr [104; 105]; EStr [97; 98; 99]; EStr [104; 105]].
Proof.
  exact (lpInsert_refines demo_lp _ (EleStr [97; 98; 99]) _ 2 LP_REPLACE demo_lp_repr (ins_string _) ltac:(by repeat constructor)
    ltac:(cbn; lia) ltac:(discriminate)).
Defined.

Lemma lpDeleteRange_refines_witness :
  exists m', lpDeleteRange demo_lp (-3) 2 = Ret m' /\ lp_repr m' [EInt 1; EStr [104; 105]].
Proof. exact (lpDeleteRange_refines demo_lp _ (-3) 2 demo_lp_repr ltac:(lia) ltac:(lia)). Defined.

Lemma lpBatchDelete_refines_witness :
  exists m', lpBatchDelete demo_lp [6; 12] = Ret m' /\ lp_repr m' [EStr [104; 105]; EStr [104; 105]].
Proof. exact (lpBatchDelete_refines demo_lp _ [0; 2]%nat demo_lp_repr ltac:(cbn; lia)). Defined.

Lemma lpMerge_refines_witness :
  exists m', lpMerge demo_lp demo_lp = Ret m' /\ lp_repr m' (demo_lp_elems ++ demo_lp_elems).
Proof. exact (lpMerge_refines demo_lp demo_lp _ _ demo_lp_repr demo_lp_repr). Defined.
