(* ===== verification/ListpackApi.v ===== *)
(** * The listpack operations as a client uses them

    Creating, appending, prepending, replacing and deleting, in terms of the
    strings stored; what is appended is what is read back. *)
From S2P Require Import Prelude Mem NumStr Listpack ListpackEnc ListpackNav ListpackEdit.

Local Open Scope Z_scope.

(** A string is stored as the element it is the text of, so the size of a
    listpack is determined by the strings. *)
Definition elems_of (ss : list (list Z)) : list elem := map elem_of_string ss.

Definition string_ok (s : list Z) : Prop := bytes s /\ Z.of_nat (length s) + 5 < 2 ^ 32.

(** ** Sizes *)

Lemma int_size v : entry_size (EInt v) <= 14.
Proof.
  rewrite entry_size_eq. pose proof (lpBacklenSize_range (enc_size (EInt v))).
  assert (enc_size (EInt v) <= 9); [|lia]. unfold enc_size, enc_data, lpEncodeIntegerGetType. repeat case_match; cbn; lia.
Qed.

Lemma str_size s : Z.of_nat (length s) < entry_size (EStr s) <= Z.of_nat (length s) + 10.
Proof.
  rewrite entry_size_eq. pose proof (lpBacklenSize_range (enc_size (EStr s))). rewrite <- (str_enclen s) in *. repeat case_match; lia.
Qed.

Lemma ele_entry_size s : 0 < entry_size (elem_of_string s) <= Z.of_nat (length s) + 14 /\ Z.of_nat (length s) <= entry_size (elem_of_string s) + 20.
Proof.
  unfold elem_of_string. destruct (lpStringToInt64 s) as [v|] eqn:E.
  - rewrite lpStringToInt64_string2ll in E. apply string2ll_sound in E as [Hv ->]. pose proof (int_size v). pose proof (length_dec v Hv).
    pose proof (entry_size_pos (EInt v) Hv). lia.
  - pose proof (str_size s). lia.
Qed.

(** A list of strings takes the space of its entries. *)
Lemma total_snoc es e : lp_total (es ++ [e]) = lp_total es + entry_size e.
Proof. unfold lp_total, entry_size. rewrite body_app, length_app. unfold body. cbn [map concat]. rewrite app_nil_r. lia. Qed.

(** A copy of the bytes in use is a copy of the listpack. *)
Lemma list_copy zl es : lp_repr zl es -> exists zl', (sz ← lpBytes zl; load_bytes sz 0 zl) = Ret zl' /\ lp_repr zl' es.
Proof.
  intros (num & slack & Hm). unfold lpBytes. rewrite (repr_total _ _ _ _ Hm). cbn [mbind res_bind].
  set (zl' := lp_header (lp_total es) num ++ body es ++ [LP_EOF]).
  assert (lp_total es = Z.of_nat (length zl')) as -> by (unfold zl', lp_total; rewrite !length_app, length_header; cbn [length]; lia).
  exists zl'. split.
  - apply sees_load_bytes. exists [], slack. split; [|done]. rewrite (ll_bytes _ _ _ _ Hm). unfold zl'. rewrite <- !app_assoc. done.
  - exists num, []. split; [done|apply Hm..].
Qed.

Section Api.
Context `{Heap} `{Usable}.

Lemma new_header (l : list Z) :
  (7 <= length l)%nat ->
  exists slack, (m ← lpSetTotalBytes l (LP_HDR_SIZE + 1); m ← lpSetNumElements m 0; aset m LP_HDR_SIZE LP_EOF)
    = Ret (lp_header 7 0 ++ LP_EOF :: slack).
Proof.
  intros Hl. do 7 (destruct l as [|? l]; [cbn in Hl; lia|]). exists l. unfold lpSetTotalBytes, lpSetNumElements, store, LP_HDR_SIZE.
  change (le_split (Z.to_nat 4) (6 + 1)) with [7; 0; 0; 0]. change (le_split (Z.to_nat 2) 0) with [0; 0].
  rewrite (store_bytes_Ret 0) by (cbn [length]; lia). cbn [mbind res_bind patch take drop app Nat.add length].
  rewrite (store_bytes_Ret 4) by (cbn [length]; lia). cbn [mbind res_bind patch take drop app Nat.add length].
  rewrite (aset_in _ 6) by (cbn [length]; lia). done.
Qed.

Lemma lpNew_repr capacity : exists m, lpNew capacity = Ret m /\ lp_repr m [].
Proof.
  unfold lpNew. set (size := if _ : bool then _ else _).
  assert (7 <= size) as Hs by (unfold size, LP_HDR_SIZE; destruct (Z.ltb_spec (6 + 1) capacity); lia).
  destruct (realloc_usable [] [] size) as (l & E & Hl); [cbn [length]; lia|]. cbn [app] in E, Hl. rewrite E.
  destruct (new_header l) as (slack & ->); [lia|]. eexists. split; [done|]. exists 0, slack.
  split; [done|by split; [|right]|constructor|done].
Qed.

(** Insertion before, after or in place of an entry, seen as a change of the
    list of elements. *)
Lemma lpAppend_spec m es s :
  lp_repr m es -> string_ok s ->
  let es' := es ++ [elem_of_string s] in
  if decide (lp_total es' < 2 ^ 32)
  then exists m', lpAppend m s = Ret (Some (m', Some (off es' (length es)))) /\ lp_repr m' es'
  else lpAppend m s = Ret None.
Proof.
  intros Hr [Hb Hs] es'. pose proof Hr as (num & slack & Hm). unfold lpAppend. rewrite (repr_total _ _ _ _ Hm). cbn [mbind res_bind].
  rewrite <- off_end. pose proof (insert_spec m es (EleStr s) [elem_of_string s] (length es) LP_BEFORE Hr (ins_string s)) as Hi.
  cbn [edit_at deletes] in Hi. unfold edited in Hi. rewrite Nat.add_0_r, firstn_all, drop_all, app_nil_r in Hi. fold es' in Hi.
  apply Hi; [|lia|done]. constructor; [by apply elem_of_string_ok|constructor].
Qed.

Lemma lpAppendInteger_spec m es v :
  lp_repr m es -> LLONG_MIN <= v <= LLONG_MAX ->
  let es' := es ++ [EInt v] in
  if decide (lp_total es' < 2 ^ 32)
  then exists m', lpAppendInteger m v = Ret (Some (m', Some (off es' (length es)))) /\ lp_repr m' es'
  else lpAppendInteger m v = Ret None.
Proof.
  intros Hr Hv es'. pose proof Hr as (num & slack & Hm). unfold lpAppendInteger, lpInsertInteger. rewrite (repr_total _ _ _ _ Hm). cbn [mbind res_bind].
  rewrite <- off_end. pose proof (insert_spec m es (EleInt (lpEncodeIntegerGetType v)) [EInt v] (length es) LP_BEFORE Hr (ins_integer v)) as Hi.
  cbn [edit_at deletes] in Hi. unfold edited in Hi. rewrite Nat.add_0_r, firstn_all, drop_all, app_nil_r in Hi. fold es' in Hi.
  apply Hi; [|lia|done]. by constructor.
Qed.

Lemma lpPrepend_spec m es s :
  lp_repr m es -> string_ok s ->
  let es' := elem_of_string s :: es in
  if decide (lp_total es' < 2 ^ 32)
  then exists m', lpPrepend m s = Ret (Some (m', Some (off es' 0))) /\ lp_repr m' es'
  else lpPrepend m s = Ret None.
Proof.
  intros Hr [Hb Hs] es'. pose proof Hr as (num & slack & Hm). unfold lpPrepend. rewrite (lpFirst_spec _ _ _ _ Hm). cbn [mbind res_bind].
  destruct es as [|e es].
  - pose proof (lpAppend_spec m [] s Hr (conj Hb Hs)) as Ha. exact Ha.
  - cbn [ptr lookup list_lookup fmap option_fmap option_map].
    pose proof (insert_spec m (e :: es) (EleStr s) [elem_of_string s] 0 LP_BEFORE Hr (ins_string s)) as Hi.
    cbn [edit_at deletes] in Hi. apply Hi; [|lia|done]. constructor; [by apply elem_of_string_ok|constructor].
Qed.

Lemma lpReplace_spec m es i s :
  lp_repr m es -> string_ok s -> (i < length es)%nat ->
  let es' := <[i := elem_of_string s]> es in
  if decide (lp_total es' < 2 ^ 32)
  then exists m', lpReplace m (off es i) s = Ret (Some (m', Some (off es' i))) /\ lp_repr m' es'
  else lpReplace m (off es i) s = Ret None.
Proof.
  intros Hr [Hb Hs] Hi es'. pose proof (insert_spec m es (EleStr s) [elem_of_string s] i LP_REPLACE Hr (ins_string s)) as Hx.
  cbn [edit_at deletes] in Hx. unfold edited in Hx. replace (take i es ++ _ ++ _) with es' in Hx
    by (unfold es'; rewrite insert_take_drop by done; by replace (i + 1)%nat with (S i) by lia).
  apply Hx; [|lia|done]. constructor; [by apply elem_of_string_ok|constructor].
Qed.

Lemma lpDelete_spec m es i :
  lp_repr m es -> (i < length es)%nat ->
  exists m', lpDelete m (off es i) = Ret (Some (m', ptr (delete i es) i)) /\ lp_repr m' (delete i es).
Proof.
  intros Hr Hi. pose proof (insert_spec m es EleNone [] i LP_REPLACE Hr ins_nothing (List.Forall_nil _)) as Hx.
  cbn [edit_at deletes] in Hx. unfold edited in Hx. cbn [app] in Hx. replace (take i es ++ drop (i + 1) es) with (delete i es) in Hx
    by (rewrite delete_take_drop; by replace (i + 1)%nat with (S i) by lia).
  rewrite decide_True in Hx; [apply Hx; [lia|done]|].
  destruct Hr as (num & slack & Hm). pose proof (ll_size _ _ _ _ Hm). pose proof (cut_size es i 1) as Hc.
  unfold edited in Hc. cbn [app] in Hc. rewrite delete_take_drop. replace (S i) with (i + 1)%nat by lia. lia.
Qed.

Lemma lpShrinkToFit_spec m es : lp_repr m es -> exists m', lpShrinkToFit m = Ret m' /\ lp_repr m' es.
Proof.
  intros (num & slack & Hm). destruct (shrink_spec es num slack (ll_size _ _ _ _ Hm)) as (rest & E). rewrite <- (ll_bytes _ _ _ _ Hm) in E.
  eexists. split; [exact E|]. exists num, rest. destruct Hm. by split.
Qed.

(** Appending a list of strings one after the other, stopping where the
    listpack is full. *)
Fixpoint append_all (m : list Z) (ss : list (list Z)) : res (option (list Z)) :=
  match ss with
  | [] => Ret (Some m)
  | s :: ss =>
      r ← lpAppend m s;
      match r with Some (m, _) => append_all m ss | None => Ret None end
  end.

Lemma total_mono es es' : lp_total es <= lp_total (es ++ es').
Proof. unfold lp_total. rewrite body_app, length_app. lia. Qed.

Lemma append_all_spec ss m es :
  lp_repr m es -> Forall string_ok ss -> lp_total (es ++ elems_of ss) < 2 ^ 32 ->
  exists m', append_all m ss = Ret (Some m') /\ lp_repr m' (es ++ elems_of ss).
Proof.
  revert m es. induction ss as [|s ss IH]; intros m es Hr Hok Ht; cbn [append_all].
  { unfold elems_of. cbn [map]. rewrite app_nil_r. by exists m. }
  apply Forall_cons in Hok as [Hs Hok]. pose proof (lpAppend_spec m es s Hr Hs) as Ha. cbv zeta in Ha.
  replace (es ++ elems_of (s :: ss)) with ((es ++ [elem_of_string s]) ++ elems_of ss) in * by (by rewrite <- app_assoc).
  pose proof (total_mono (es ++ [elem_of_string s]) (elems_of ss)). rewrite decide_True in Ha by lia.
  destruct Ha as (m' & -> & Hr'). cbn [mbind res_bind]. by apply IH.
Qed.
End Api.

(** Seeking an index and reading the entry there as a string. *)
Definition read_at (m : list Z) (index : Z) : res (option (list Z)) :=
  p ← lpSeek m index;
  match p with
  | None => Ret None
  | Some p => v ← lpGet m p None; s ← value_string m v; Ret (Some s)
  end.

(** C26: strings appended one after the other to a new listpack are read back,
    each at its index counted from either end and unchanged whether it was
    stored as a string or as an integer, as long as they fit. *)
Theorem append_then_read `{Heap} `{Usable} capacity ss :
  Forall string_ok ss -> lp_total (elems_of ss) < 2 ^ 32 ->
  exists m0 m, lpNew capacity = Ret m0 /\ append_all m0 ss = Ret (Some m) /\
    (forall index, read_at m index =
       Ret (let i := if index <? 0 then Z.of_nat (length ss) + index else index in
            if 0 <=? i then ss !! Z.to_nat i else None)).
Proof.
  intros Hok Ht. destruct (lpNew_repr capacity) as (m0 & E0 & Hr0). destruct (append_all_spec ss m0 [] Hr0 Hok Ht) as (m & E & Hr).
  cbn [app] in Hr. exists m0, m. split_and!; [done|done|]. intros index. unfold read_at. rewrite (seek_spec _ _ _ Hr). cbn [mbind res_bind].
  unfold abs_index, elems_of. rewrite length_map. set (i := if index <? 0 then _ else _). destruct (Z.leb_spec 0 i); [|done].
  destruct (ss !! Z.to_nat i) as [s|] eqn:Es.
  - assert (elems_of ss !! Z.to_nat i = Some (elem_of_string s)) as He by (unfold elems_of; by rewrite list_lookup_fmap, Es).
    fold (elems_of ss). rewrite (ptr_lookup _ _ _ He). destruct Hr as (num & slack & Hm).
    unfold lpGet. rewrite (repr_get _ _ _ _ Hm _ _ He). cbn [mbind res_bind].
    rewrite (value_at_string _ _ _ _ _ _ Hm He). cbn [mbind res_bind]. by rewrite elem_string_of_string.
  - rewrite ptr_None; [done|]. apply lookup_ge_None in Es. by rewrite length_map.
Qed.

Lemma append_then_read_witness :
  exists m0 m, lpNew (H := zero_heap) (H0 := exact_usable) 0 = Ret m0 /\
    append_all (H := zero_heap) (H0 := exact_usable) m0 [[52; 50]; [48; 49]] = Ret (Some m) /\
    read_at m (-1) = Ret (Some [48; 49]).
Proof.
  destruct (append_then_read (H := zero_heap) (H0 := exact_usable) 0 [[52; 50]; [48; 49]]) as (m0 & m & E0 & E & Hr);
    [by repeat constructor|vm_compute; reflexivity|]. exists m0, m. split; [exact E0|]. split; [exact E|]. exact (Hr (-1)).
Defined.
