(* ===== verification/PyFloat.v ===== *)
(** * Floating-point numbers

    The floating-point numbers of Python, and the doubles of C, are IEEE 754
    binary64 numbers; here they are the standard library's executable
    specification of that format, so that every operation rounds as the
    program's does.  The integers of Python are unbounded.  The lemmas bound a rounded result by half a unit in the last
    place, for results of ordinary magnitude. *)
From Stdlib Require Import SpecFloat.
From S2P Require Import Prelude.

Local Open Scope Z_scope.

Declare Scope pyfloat_scope.
Delimit Scope pyfloat_scope with F.
Bind Scope pyfloat_scope with spec_float.

(** ** Operations *)

Abbreviation float := spec_float.

Definition fadd : float -> float -> float := SFadd 53 1024.
Definition fsub : float -> float -> float := SFsub 53 1024.
Definition fmul : float -> float -> float := SFmul 53 1024.
Definition fdiv : float -> float -> float := SFdiv 53 1024.
Definition fabs : float -> float := SFabs.
Definition fle : float -> float -> bool := SFleb.
Definition flt : float -> float -> bool := SFltb.
Definition feq : float -> float -> bool := SFeqb.

Infix "+" := fadd : pyfloat_scope.
Infix "-" := fsub : pyfloat_scope.
Infix "*" := fmul : pyfloat_scope.
Infix "/" := fdiv : pyfloat_scope.
Infix "<=?" := fle : pyfloat_scope.
Infix "<?" := flt : pyfloat_scope.
Infix "=?" := feq : pyfloat_scope.

(** [float(z)], for an integer. *)
Definition f_of_Z (z : Z) : float := binary_normalize 53 1024 z 0 false.

(** The literal [m / 10^k], rounded. *)
Definition dec_lit (m k : Z) : float := (f_of_Z m / f_of_Z (10 ^ k))%F.

(** [a / b] of two integers: the quotient rounded once, which depends on the
    reduced fraction only; [None] is [ZeroDivisionError].  The terms of the
    reduced fraction are below [2^53] wherever the programs divide integers,
    so that their conversion is exact. *)
Definition true_div (a b : Z) : option float :=
  if b =? 0 then None else
  let g := Z.gcd a b in
  Some (if b / g =? 1 then f_of_Z (a / g) else (f_of_Z (a / g) / f_of_Z (b / g))%F).

(** [int(x)] of a finite number: truncation towards zero. *)
Definition f_trunc (x : float) : Z :=
  match x with
  | S754_finite s m e => let a := Z.shiftl (Zpos m) e in if s then - a else a
  | _ => 0
  end.

(** [max(a, b)] and [min(a, b)] keep the first of two values unless the second
    compares strictly better, also when one is not a number. *)
Definition fmax (a b : float) : float := if (a <? b)%F then b else a.
Definition fmin (a b : float) : float := if (b <? a)%F then b else a.

(** ** Rounding *)

Lemma digits2_log2 p : Zpos (digits2_pos p) = Z.log2 (Zpos p) + 1.
Proof.
  induction p as [p IH|p IH|]; cbn [digits2_pos]; [| |done]; rewrite Pos2Z.inj_succ, IH.
  - change (Zpos p~1) with (2 * Zpos p + 1). rewrite Z.log2_succ_double by lia. lia.
  - change (Zpos p~0) with (2 * Zpos p). rewrite Z.log2_double by lia. lia.
Qed.

Lemma iter_pos_nat {A} (f : A -> A) p x : SpecFloat.iter_pos f p x = Nat.iter (Pos.to_nat p) f x.
Proof.
  revert x. induction p as [p IH|p IH|]; intros x; cbn [SpecFloat.iter_pos].
  - rewrite !IH, Pos2Nat.inj_xI, Nat.iter_succ_r. cbn [Nat.mul]. rewrite Nat.add_0_r, Nat.iter_add. done.
  - rewrite !IH, Pos2Nat.inj_xO. cbn [Nat.mul]. rewrite Nat.add_0_r, Nat.iter_add. done.
  - done.
Qed.

(** [n] positions shifted out of [2 m]: the last one shifted out is [shr_r],
    and [shr_s] tells whether anything is left below it. *)
Definition shifted (m : Z) (n : nat) (r : shr_record) : Prop :=
  exists x, 2 * m = 2 * shr_m r * 2 ^ Z.of_nat n + (if shr_r r then 2 ^ Z.of_nat n else 0) + x /\
    0 <= x < 2 ^ Z.of_nat n /\ shr_s r = negb (x =? 0) /\ 0 <= shr_m r.

Lemma shifted_S m n r : shifted m n r -> shifted m (S n) (shr_1 r).
Proof.
  intros (x & E & Hx & Hs & Hm). destruct r as [q r s]. cbn [shr_m shr_r shr_s] in *. subst s.
  assert (2 ^ Z.of_nat (S n) = 2 * 2 ^ Z.of_nat n) as E2 by (rewrite Nat2Z.inj_succ, Z.pow_succ_r by lia; lia).
  exists (x + if r then 2 ^ Z.of_nat n else 0). rewrite E2.
  assert (r || negb (x =? 0) = negb (x + (if r then 2 ^ Z.of_nat n else 0) =? 0)) as Hor
    by (destruct r; cbn [orb]; [|by rewrite Z.add_0_r]; destruct (Z.eqb_spec (x + 2 ^ Z.of_nat n) 0); [lia|done]).
  destruct q as [|[p|p|]|p]; cbn [shr_1 shr_m shr_r shr_s]; try lia; split_and!; try exact Hor; destruct r; lia.
Qed.

Lemma shifted_iter m n : 0 <= m -> shifted m n (Nat.iter n shr_1 (Build_shr_record m false false)).
Proof.
  intros Hm. induction n as [|n IH]; [|by apply shifted_S]. exists 0. cbn. lia.
Qed.

(** Rounding to nearest is off by at most half a unit. *)
Lemma shifted_round m n r :
  shifted m n r -> let q := round_nearest_even (shr_m r) (loc_of_shr_record r) in
  0 <= q /\ - 2 ^ Z.of_nat n <= 2 * m - 2 * q * 2 ^ Z.of_nat n <= 2 ^ Z.of_nat n.
Proof.
  intros (x & E & Hx & Hs & Hm). destruct r as [q r s]. cbn [shr_m shr_r shr_s loc_of_shr_record] in *.
  destruct r, s; cbn [loc_of_shr_record round_nearest_even]; try destruct (Z.even q);
    destruct (Z.eqb_spec x 0); cbn [negb] in Hs; try done; nia.
Qed.

(** A normal positive number of ordinary magnitude, [q 2^e]. *)
Definition normal (q e : Z) : float :=
  if q =? 2 ^ 53 then S754_finite false (2 ^ 52) (e + 1) else S754_finite false (Z.to_pos q) e.

Lemma fexp_plain d : -1021 <= d -> fexp 53 1024 d = d - 53.
Proof. intros Hd. unfold fexp, emin. lia. Qed.

Lemma shr_Exact m e k :
  0 <= k -> shr (Build_shr_record m false false) e k = (Nat.iter (Z.to_nat k) shr_1 (Build_shr_record m false false), e + k).
Proof.
  intros Hk. destruct k as [|p|p]; [cbn; f_equal; lia| |lia]. cbn [shr]. by rewrite iter_pos_nat, Z2Nat.inj_pos.
Qed.

(** The exact value [m 2^e] is rounded by at most half a unit. *)
Lemma round_half (m : positive) e n :
  n = Z.log2 (Zpos m) - 52 -> 0 <= n -> -1000 <= e + n <= 900 ->
  exists q, 2 ^ 52 <= q <= 2 ^ 53 /\ - 2 ^ n <= 2 * Zpos m - 2 * q * 2 ^ n <= 2 ^ n /\
    binary_round_aux 53 1024 false (Zpos m) e loc_Exact = normal q (e + n).
Proof.
  intros -> Hn He. set (n := Z.log2 (Zpos m) - 52) in *. unfold binary_round_aux, shr_fexp. cbn [Zdigits2 shr_record_of_loc].
  rewrite digits2_log2, fexp_plain by lia. replace (Z.log2 (Zpos m) + 1 + e - 53 - e) with n by lia.
  rewrite shr_Exact by done. pose proof (shifted_iter (Zpos m) (Z.to_nat n) ltac:(lia)) as Hs.
  set (r := Nat.iter _ _ _) in *. destruct (shifted_round _ _ _ Hs) as [Hq0 Hq]. rewrite Z2Nat.id in Hq by done.
  set (q := round_nearest_even _ _) in *. exists q.
  pose proof (Z.log2_spec (Zpos m) ltac:(lia)) as [Hl Hu]. replace (Z.log2 (Zpos m)) with (52 + n) in Hl, Hu by lia.
  rewrite Z.pow_add_r in Hl by lia. replace (Z.succ (52 + n)) with (53 + n) in Hu by lia. rewrite Z.pow_add_r in Hu by lia.
  assert (0 < 2 ^ n) by (apply Z.pow_pos_nonneg; lia).
  assert (2 ^ 52 <= q <= 2 ^ 53) as Hqr by nia. split_and!; [lia|lia|lia|lia|].
  unfold normal. destruct (Z.eqb_spec q (2 ^ 53)) as [->|Hne].
  - change (Zdigits2 (2 ^ 53)) with 54. rewrite fexp_plain by lia. replace (54 + (e + n) - 53 - (e + n)) with 1 by lia.
    change (2 ^ 53) with (Zpos (2 ^ 53)%positive). cbn -[Z.add Z.sub]. destruct (Z.leb_spec (e + n + 1) (1024 - 53)); [done|lia].
  - destruct q as [|p|p] eqn:Eq; [lia| |lia]. cbn [Zdigits2]. rewrite digits2_log2.
    assert (Z.log2 (Zpos p) = 52) as -> by (apply Z.log2_unique; [lia|]; change (Z.succ 52) with 53; lia).
    rewrite fexp_plain by lia. replace (52 + 1 + (e + n) - 53 - (e + n)) with 0 by lia. cbn [shr shr_m Z.to_pos].
    destruct (Z.leb_spec (e + n) (1024 - 53)); [done|lia].
Qed.

(** ** Bounds

    [fwithin a b x]: [x] is a normal number between [a / 1024] and
    [b / 1024]. *)
Definition fwithin (a b : Z) (x : float) : Prop :=
  exists q e, x = S754_finite false (Z.to_pos q) e /\ 2 ^ 52 <= q < 2 ^ 53 /\ -200 <= e <= -10 /\
    a * 2 ^ (-10 - e) <= q <= b * 2 ^ (-10 - e).

Lemma within_mono a b a' b' x : fwithin a b x -> a' <= a -> b <= b' -> fwithin a' b' x.
Proof.
  intros (q & e & -> & Hq & He & Hab) Ha Hb. assert (0 < 2 ^ (-10 - e)) by (apply Z.pow_pos_nonneg; lia).
  exists q, e. split_and!; try done; try lia; nia.
Qed.

Lemma normal_within q e a b :
  2 ^ 52 <= q <= 2 ^ 53 -> -200 <= e <= -11 -> a * 2 ^ (-10 - e) <= q <= b * 2 ^ (-10 - e) -> fwithin a b (normal q e).
Proof.
  intros Hq He Hab. unfold normal. destruct (Z.eqb_spec q (2 ^ 53)) as [->|Hne]; [|exists q, e; split_and!; try done; lia].
  exists (2 ^ 52), (e + 1). assert (2 ^ (-10 - e) = 2 * 2 ^ (-10 - (e + 1))) as E
    by (rewrite <- Z.pow_succ_r by lia; f_equal; lia). rewrite E in Hab. split_and!; try done; lia.
Qed.

(** A rounded value stays between bounds that are multiples of [1 / 1024]. *)
Lemma round_within (m : positive) e a b :
  1 <= a -> b <= 2 ^ 40 -> 2 ^ 52 <= Zpos m -> -300 <= e <= -10 -> a * 2 ^ (-10 - e) <= Zpos m <= b * 2 ^ (-10 - e) ->
  fwithin a b (binary_round_aux 53 1024 false (Zpos m) e loc_Exact).
Proof.
  intros Ha Hb Hm He Hab. pose proof (Z.log2_spec (Zpos m) ltac:(lia)) as [Hl Hu].
  assert (0 < 2 ^ (-10 - e)) as Hpow by (apply Z.pow_pos_nonneg; lia).
  assert (Z.log2 (Zpos m) <= 30 - e) as H1.
  { apply (Z.pow_le_mono_r_iff 2); [lia|lia|].
    replace (30 - e) with (40 + (-10 - e)) by lia. rewrite Z.pow_add_r by lia. nia. }
  assert (-10 - e <= Z.log2 (Zpos m)) as H2 by (apply Z.log2_le_pow2; nia).
  assert (52 <= Z.log2 (Zpos m)) as H3 by (apply Z.log2_le_pow2; lia).
  set (n := Z.log2 (Zpos m) - 52). destruct (round_half m e n eq_refl ltac:(lia) ltac:(lia)) as (q & Hq & Hh & ->).
  assert (0 < 2 ^ n) by (apply Z.pow_pos_nonneg; lia).
  assert (2 ^ (-10 - e) = 2 ^ (-10 - (e + n)) * 2 ^ n) as E by (rewrite <- Z.pow_add_r by lia; f_equal; lia).
  rewrite E, !Z.mul_assoc in Hab. apply normal_within; [lia|lia|]. nia.
Qed.

(** Normal numbers compare by exponents, then by mantissas. *)
Lemma normal_compare q1 e1 q2 e2 :
  2 ^ 52 <= q1 < 2 ^ 53 -> 2 ^ 52 <= q2 < 2 ^ 53 -> e1 <= -10 -> e2 <= -10 ->
  SFcompare (S754_finite false (Z.to_pos q1) e1) (S754_finite false (Z.to_pos q2) e2)
  = Some (Z.compare (q1 * 2 ^ (-10 - e2)) (q2 * 2 ^ (-10 - e1))).
Proof.
  intros H1 H2 He1 He2. cbn [SFcompare]. f_equal.
  assert (forall q q' e e', 2 ^ 52 <= q < 2 ^ 53 -> 2 ^ 52 <= q' < 2 ^ 53 -> e < e' -> e' <= -10 ->
    q * 2 ^ (-10 - e') < q' * 2 ^ (-10 - e)) as Hlt.
  { intros q q' e e' Hq Hq' Hee He'. assert (0 < 2 ^ (-10 - e')) by (apply Z.pow_pos_nonneg; lia).
    assert (2 ^ (-10 - e) = 2 ^ (-10 - e') * 2 ^ (e' - e)) as -> by (rewrite <- Z.pow_add_r by lia; f_equal; lia).
    assert (2 ^ 1 <= 2 ^ (e' - e)) by (apply Z.pow_le_mono_r; lia).
    set (P := 2 ^ (-10 - e')) in *. set (R := 2 ^ (e' - e)) in *. change (2 ^ 53) with (2 * 2 ^ 52) in *.
    apply Z.lt_le_trans with (2 * q' * P); [nia|]. transitivity (q' * P * 2); [lia|]. rewrite Z.mul_assoc. nia. }
  destruct (Z.compare_spec e1 e2) as [->|Hl|Hg].
  - assert (0 < 2 ^ (-10 - e2)) by (apply Z.pow_pos_nonneg; lia). change (Pos.compare_cont Eq ?a ?b) with (Pos.compare a b).
    change (Pos.compare ?a ?b) with (Z.compare (Zpos a) (Zpos b)).
    set (p := 2 ^ (-10 - e2)) in *. rewrite !Z2Pos.id by lia.
    destruct (Z.compare_spec q1 q2), (Z.compare_spec (q1 * p) (q2 * p)); try done; nia.
  - symmetry. apply Z.compare_lt_iff. by apply Hlt.
  - symmetry. apply Z.compare_gt_iff. by apply Hlt.
Qed.

Lemma compare_within a b c d x y :
  fwithin a b x -> fwithin c d y -> 0 <= b ->
  (b <= c -> (x <=? y)%F = true /\ (y <? x)%F = false) /\ (b < c -> (x <? y)%F = true /\ (y <=? x)%F = false).
Proof.
  intros (q1 & e1 & -> & Hq1 & He1 & Hab) (q2 & e2 & -> & Hq2 & He2 & Hcd) H0. unfold fle, flt, SFleb, SFltb.
  rewrite !normal_compare by lia. assert (0 < 2 ^ (-10 - e1)) by (apply Z.pow_pos_nonneg; lia). assert (0 < 2 ^ (-10 - e2)) by (apply Z.pow_pos_nonneg; lia).
  set (p1 := 2 ^ (-10 - e1)) in *. set (p2 := 2 ^ (-10 - e2)) in *.
  assert (q1 * p2 <= b * (p1 * p2)) by nia. assert (c * (p1 * p2) <= q2 * p1) by nia. assert (0 < p1 * p2) by nia.
  split; intros Hbc.
  - assert (b * (p1 * p2) <= c * (p1 * p2)) by (apply Z.mul_le_mono_nonneg_r; lia).
    destruct (Z.compare_spec (q1 * p2) (q2 * p1)), (Z.compare_spec (q2 * p1) (q1 * p2)); try lia; done.
  - assert (b * (p1 * p2) < c * (p1 * p2)) by (apply Z.mul_lt_mono_pos_r; lia).
    destruct (Z.compare_spec (q1 * p2) (q2 * p1)), (Z.compare_spec (q2 * p1) (q1 * p2)); try lia; done.
Qed.

(** Multiplication by, and addition of, a normal constant. *)
Lemma fmul_within a b x a' b' (mc : positive) ec :
  fwithin a b x -> 2 ^ 52 <= Zpos mc < 2 ^ 53 -> -100 <= ec <= 0 -> 1 <= a' -> b' <= 2 ^ 40 ->
  a' * 2 ^ (- ec) <= a * Zpos mc -> b * Zpos mc <= b' * 2 ^ (- ec) ->
  fwithin a' b' (x * S754_finite false mc ec)%F.
Proof.
  intros (q & e & -> & Hq & He & Hab) Hmc Hec Ha' Hb' Ha Hb. unfold fmul. cbn [SFmul xorb].
  assert (Zpos (Z.to_pos q * mc) = q * Zpos mc) as Em by (rewrite Pos2Z.inj_mul, Z2Pos.id by lia; done).
  apply round_within; [done|done|rewrite Em; nia|lia|]. rewrite Em.
  assert (0 < 2 ^ (-10 - e)) by (apply Z.pow_pos_nonneg; lia).
  assert (2 ^ (-10 - (e + ec)) = 2 ^ (-10 - e) * 2 ^ (- ec)) as -> by (rewrite <- Z.pow_add_r by lia; f_equal; lia).
  split; nia.
Qed.

Lemma shl_align_down m e e' : e' <= e -> Zpos (fst (shl_align m e e')) = Zpos m * 2 ^ (e - e').
Proof.
  intros He. unfold shl_align. destruct (e' - e) as [|p|p] eqn:E; [|lia|].
  - replace (e - e') with 0 by lia. cbn. lia.
  - replace (e - e') with (Zpos p) by lia. cbn [fst]. clear. 
    induction p as [|p IH] using Pos.peano_ind; [cbn; lia|]. rewrite Pos.iter_succ, Pos2Z.inj_succ, Z.pow_succ_r by lia.
    change (Zpos (Pos.iter xO m p)~0) with (2 * Zpos (Pos.iter xO m p)). lia.
Qed.

Lemma shl_align_up m e e' : e <= e' -> shl_align m e e' = (m, e).
Proof. intros He. unfold shl_align. destruct (e' - e) eqn:E; [done|done|lia]. Qed.

Lemma fadd_within a b x (mc : positive) ec c :
  fwithin a b x -> 2 ^ 52 <= Zpos mc < 2 ^ 53 -> -100 <= ec <= -10 -> Zpos mc = c * 2 ^ (-10 - ec) ->
  1 <= a -> b + c <= 2 ^ 40 -> fwithin (a + c) (b + c) (x + S754_finite false mc ec)%F.
Proof.
  intros (q & e & -> & Hq & He & Hab) Hmc Hec Ec Ha Hb. unfold fadd. cbn [SFadd cond_Zopp].
  set (ez := Z.min e ec). rewrite !shl_align_down, Z2Pos.id by lia.
  assert (0 < 2 ^ (e - ez)) by (apply Z.pow_pos_nonneg; lia). assert (0 < 2 ^ (ec - ez)) by (apply Z.pow_pos_nonneg; lia).
  assert (0 < 2 ^ (-10 - e)) by (apply Z.pow_pos_nonneg; lia). assert (0 < 2 ^ (-10 - ec)) by (apply Z.pow_pos_nonneg; lia).
  assert (2 ^ (-10 - ez) = 2 ^ (-10 - e) * 2 ^ (e - ez)) as E1 by (rewrite <- Z.pow_add_r by lia; f_equal; lia).
  assert (2 ^ (-10 - ez) = 2 ^ (-10 - ec) * 2 ^ (ec - ez)) as E2 by (rewrite <- Z.pow_add_r by lia; f_equal; lia).
  set (s := q * 2 ^ (e - ez) + Zpos mc * 2 ^ (ec - ez)).
  assert (2 ^ 52 <= s) as Hs by (unfold s; nia).
  assert ((a + c) * 2 ^ (-10 - ez) <= s <= (b + c) * 2 ^ (-10 - ez)) as Hbs.
  { unfold s. rewrite !Z.mul_add_distr_r. assert (c * 2 ^ (-10 - ez) = Zpos mc * 2 ^ (ec - ez)) as -> by (rewrite E2, Ec; lia).
    rewrite E1, !Z.mul_assoc. nia. }
  destruct s as [|m|m] eqn:Es; [lia| |lia]. cbn [binary_normalize]. unfold binary_round. rewrite digits2_log2.
  assert (52 <= Z.log2 (Zpos m)) by (apply Z.log2_le_pow2; lia).
  rewrite shl_align_up by (unfold fexp; lia). apply round_within; [nia|done|done|lia|done].
Qed.

(** ** Integers as floating-point numbers *)

Lemma f_of_Z_normal z :
  0 < z < 2 ^ 53 -> let k := 52 - Z.log2 z in f_of_Z z = S754_finite false (Z.to_pos (z * 2 ^ k)) (- k) /\ 2 ^ 52 <= z * 2 ^ k < 2 ^ 53 /\ 0 <= k <= 52.
Proof.
  intros Hz k. pose proof (Z.log2_spec z ltac:(lia)) as [Hl Hu]. assert (0 <= Z.log2 z <= 52) as Hlog.
  { split; [apply Z.log2_nonneg|]. enough (Z.log2 z < 53) by lia. apply Z.log2_lt_pow2; lia. }
  assert (0 < 2 ^ k) by (apply Z.pow_pos_nonneg; lia).
  assert (2 ^ 52 = 2 ^ Z.log2 z * 2 ^ k) as E52 by (rewrite <- Z.pow_add_r by lia; f_equal; lia).
  assert (2 ^ 53 = 2 ^ Z.succ (Z.log2 z) * 2 ^ k) as E53 by (rewrite <- Z.pow_add_r by lia; f_equal; lia).
  assert (2 ^ 52 <= z * 2 ^ k < 2 ^ 53) as Hr by nia. split; [|lia].
  destruct z as [|p|p]; [lia| |lia]. unfold f_of_Z. cbn [binary_normalize]. unfold binary_round. rewrite digits2_log2, fexp_plain by lia.
  replace (Z.log2 (Zpos p) + 1 + 0 - 53) with (- k) by lia.
  destruct (shl_align p 0 (- k)) as [m e] eqn:Es. pose proof (shl_align_down p 0 (- k) ltac:(lia)) as Em. rewrite Es in Em.
  replace (0 - - k) with k in Em by lia. cbn [fst] in Em.
  assert (e = - k) as -> by (unfold shl_align in Es; destruct (- k - 0) eqn:Ek; simplify_eq; lia).
  assert (Z.log2 (Zpos m) = 52) as Hlm by (apply Z.log2_unique; [lia|]; change (Z.succ 52) with 53; lia).
  destruct (round_half m (- k) 0 ltac:(lia) ltac:(lia) ltac:(lia)) as (q & Hq & Hh & ->). change (2 ^ 0) with 1 in Hh.
  assert (q = Zpos m) as -> by lia. rewrite Z.add_0_r. unfold normal. destruct (Z.eqb_spec (Zpos m) (2 ^ 53)); [lia|]. by rewrite Em.
Qed.

Lemma trunc_of_Z z : 0 < z < 2 ^ 53 -> f_trunc (f_of_Z z) = z.
Proof.
  intros Hz. destruct (f_of_Z_normal z Hz) as (-> & Hr & Hk). cbn [f_trunc]. rewrite Z2Pos.id by lia.
  rewrite Z.shiftl_div_pow2 by lia. rewrite Z.opp_involutive. apply Z.div_mul. apply Z.pow_nonzero; lia.
Qed.

Lemma within_of_Z z : 0 < z < 2 ^ 30 -> fwithin (1024 * z) (1024 * z) (f_of_Z z).
Proof.
  intros Hz. destruct (f_of_Z_normal z ltac:(lia)) as (-> & Hr & Hk). set (k := 52 - Z.log2 z) in *.
  assert (Z.log2 z < 30) by (apply Z.log2_lt_pow2; lia). exists (z * 2 ^ k), (- k). split_and!; try done; try lia;
    (assert (2 ^ k = 1024 * 2 ^ (-10 - - k)) as -> by (change 1024 with (2 ^ 10); rewrite <- Z.pow_add_r by lia; f_equal; lia)); lia.
Qed.

(** A quotient of integers does not depend on common factors. *)
Lemma true_div_scale a b c : 0 < c -> 0 < b -> true_div (a * c) (b * c) = true_div a b.
Proof.
  intros Hc Hb. unfold true_div. destruct (Z.eqb_spec b 0); [lia|]. destruct (Z.eqb_spec (b * c) 0); [nia|].
  rewrite Z.gcd_mul_mono_r, Z.abs_eq by lia. assert (Z.gcd a b <> 0) by (intros E%Z.gcd_eq_0_r; lia).
  by rewrite !Z.div_mul_cancel_r by lia.
Qed.

Lemma true_div_exact a b : 0 < b -> true_div (a * b) b = Some (f_of_Z a).
Proof.
  intros Hb. unfold true_div. destruct (Z.eqb_spec b 0); [lia|]. rewrite Z.gcd_comm, Z.mul_comm, Z.gcd_mul_diag_l by lia.
  rewrite Z.div_same, Z.eqb_refl by lia. f_equal. f_equal. rewrite Z.mul_comm. apply Z.div_mul. lia.
Qed.
