(* ===== verification/FloatError.v ===== *)
(** * Rounding errors of doubles

    The value of a floating-point number as a rational, and the error of a
    quotient, a product and a sum of positive numbers: at most one part in [2^53] of
    the exact result.  [PyFloat] has the operations. *)
From Stdlib Require Import SpecFloat QArith Qpower Lqa.
From S2P Require Import Prelude PyFloat.

Local Open Scope Z_scope.

(** ** Values *)

Definition pow2 (e : Z) : Q := Qpower 2 e.

Definition fval (x : float) : Q :=
  match x with
  | S754_finite s m e => (inject_Z (if s then Zneg m else Zpos m) * pow2 e)%Q
  | _ => 0%Q
  end.

Lemma pow2_pos e : (0 < pow2 e)%Q.
Proof. apply Qpower_0_lt. done. Qed.

Lemma pow2_nonzero e : ~ (pow2 e == 0)%Q.
Proof. intros H0. pose proof (pow2_pos e) as Hp. rewrite H0 in Hp. by apply Qlt_irrefl in Hp. Qed.

Lemma inject_nonzero z : z <> 0 -> ~ (inject_Z z == 0)%Q.
Proof. intros Hz H0. apply Hz. by apply (inject_Z_injective z 0). Qed.

Lemma pow2_add a b : (pow2 (a + b) == pow2 a * pow2 b)%Q.
Proof. apply Qpower_plus. done. Qed.

Lemma pow2_Z n : 0 <= n -> (pow2 n == inject_Z (2 ^ n))%Q.
Proof. intros Hn. unfold pow2. rewrite (Zpower_Qpower 2 n Hn). done. Qed.

(** The unit roundoff. *)
Definition ulp : Q := (1 # 2 ^ 53)%Q.

(** [x] is the result of rounding a positive exact value [v]; its exponent is in
    the given bounds. *)
Definition rounded (v : Q) (lo hi : Z) (x : float) : Prop :=
  exists m e, x = S754_finite false m e /\ 2 ^ 52 <= Zpos m < 2 ^ 53 /\ lo <= e <= hi /\
    (v * (1 - ulp) <= fval x /\ fval x <= v * (1 + ulp))%Q.

(** ** Rounding a fraction *)

(** [n] positions shifted out of twice the fraction [a / d]: the last one shifted
    out is [shr_r], and [shr_s] tells whether anything is left below it. *)
Definition shifted_frac (a d : Z) (n : nat) (r : shr_record) : Prop :=
  exists x, 2 * a = (2 * shr_m r * 2 ^ Z.of_nat n + (if shr_r r then 2 ^ Z.of_nat n else 0)) * d + x /\
    0 <= x < 2 ^ Z.of_nat n * d /\ shr_s r = negb (x =? 0) /\ 0 <= shr_m r.

Lemma shifted_frac_S a d n r : 0 < d -> shifted_frac a d n r -> shifted_frac a d (S n) (shr_1 r).
Proof.
  intros Hd (x & E & Hx & Hs & Hm). destruct r as [q r s]. cbn [shr_m shr_r shr_s] in *. subst s.
  assert (2 ^ Z.of_nat (S n) = 2 * 2 ^ Z.of_nat n) as E2 by (rewrite Nat2Z.inj_succ, Z.pow_succ_r by lia; lia).
  assert (0 < 2 ^ Z.of_nat n) by (apply Z.pow_pos_nonneg; lia). set (p := 2 ^ Z.of_nat n) in *.
  exists (x + if r then p * d else 0). rewrite E2.
  assert (r || negb (x =? 0) = negb (x + (if r then p * d else 0) =? 0)) as Hor
    by (destruct r; cbn [orb]; [|by rewrite Z.add_0_r]; destruct (Z.eqb_spec (x + p * d) 0); [nia|done]).
  destruct q as [|[k|k|]|k]; cbn [shr_1 shr_m shr_r shr_s]; try lia; split_and!; try exact Hor; destruct r; nia.
Qed.

Lemma shifted_frac_iter a d n r : 0 < d -> shifted_frac a d 0 r -> shifted_frac a d n (Nat.iter n shr_1 r).
Proof. intros Hd Hr. induction n as [|n IH]; [done|]. by apply shifted_frac_S. Qed.

Lemma shifted_frac_round a d n r : 0 < d ->
  shifted_frac a d n r -> let q := round_nearest_even (shr_m r) (loc_of_shr_record r) in
  0 <= q /\ - (2 ^ Z.of_nat n * d) <= 2 * a - 2 * q * (2 ^ Z.of_nat n * d) <= 2 ^ Z.of_nat n * d.
Proof.
  intros Hd (x & E & Hx & Hs & Hm). destruct r as [q r s]. cbn [shr_m shr_r shr_s loc_of_shr_record] in *.
  set (p := 2 ^ Z.of_nat n) in *.
  destruct r, s; cbn [loc_of_shr_record round_nearest_even]; try destruct (Z.even q);
    destruct (Z.eqb_spec x 0); cbn [negb] in Hs; try done; nia.
Qed.

Lemma shr_any r e k : 0 <= k -> shr r e k = (Nat.iter (Z.to_nat k) shr_1 r, e + k).
Proof. intros Hk. destruct k as [|p|p]; [cbn; f_equal; lia| |lia]. cbn [shr]. by rewrite iter_pos_nat, Z2Nat.inj_pos. Qed.

(** A mantissa that has 53 or 54 bits is rounded again without a change. *)
Lemma round_again q e : 2 ^ 52 <= q <= 2 ^ 53 -> -1000 <= e <= 900 ->
  (let '(r, e') := shr_fexp 53 1024 q e loc_Exact in
   match shr_m r with
   | Z0 => S754_zero false
   | Zpos m => if e' <=? 1024 - 53 then S754_finite false m e' else S754_infinity false
   | _ => S754_nan
   end) = normal q e.
Proof.
  intros Hq He. unfold normal, shr_fexp. destruct (Z.eqb_spec q (2 ^ 53)) as [->|Hne].
  - change (Zdigits2 (2 ^ 53)) with 54. rewrite fexp_plain by lia. replace (54 + e - 53 - e) with 1 by lia.
    change (2 ^ 53) with (Zpos (2 ^ 53)%positive). cbn -[Z.add Z.sub]. destruct (Z.leb_spec (e + 1) (1024 - 53)); [done|lia].
  - destruct q as [|p|p] eqn:Eq; [lia| |lia]. cbn [Zdigits2]. rewrite digits2_log2.
    assert (Z.log2 (Zpos p) = 52) as -> by (apply Z.log2_unique; [lia|]; change (Z.succ 52) with 53; lia).
    rewrite fexp_plain by lia. replace (52 + 1 + e - 53 - e) with 0 by lia. cbn [shr shr_m Z.to_pos shr_record_of_loc].
    destruct (Z.leb_spec e (1024 - 53)); [done|lia].
Qed.

Lemma round_frac a d (m : positive) e l n : 0 < d ->
  shifted_frac a d 0 (shr_record_of_loc (Zpos m) l) -> n = Z.log2 (Zpos m) - 52 -> 0 <= n -> -1000 <= e + n <= 900 ->
  exists q, 2 ^ 52 <= q <= 2 ^ 53 /\ - (2 ^ n * d) <= 2 * a - 2 * q * (2 ^ n * d) <= 2 ^ n * d /\
    binary_round_aux 53 1024 false (Zpos m) e l = normal q (e + n).
Proof.
  intros Hd Hsh -> Hn He. set (n := Z.log2 (Zpos m) - 52) in *. unfold binary_round_aux, shr_fexp at 1. cbn [Zdigits2].
  rewrite digits2_log2, fexp_plain by lia. replace (Z.log2 (Zpos m) + 1 + e - 53 - e) with n by lia.
  rewrite shr_any by done. pose proof (shifted_frac_iter a d (Z.to_nat n) _ Hd Hsh) as Hs.
  set (r := Nat.iter _ _ _) in *. pose proof (shifted_frac_round _ _ _ _ Hd Hs) as Hr. cbv zeta in Hr. destruct Hr as [Hq0 Hq].
  rewrite Z2Nat.id in Hq by done. set (q := round_nearest_even _ _) in *. exists q.
  assert (Zpos m * d <= a < (Zpos m + 1) * d) as Ha.
  { destruct Hsh as (x & E & Hx & _). change (2 ^ Z.of_nat 0) with 1 in *.
    destruct l as [|[]]; cbn [shr_record_of_loc shr_m shr_r] in E; nia. }
  pose proof (Z.log2_spec (Zpos m) ltac:(lia)) as [Hl Hu]. replace (Z.log2 (Zpos m)) with (52 + n) in Hl, Hu by lia.
  rewrite Z.pow_add_r in Hl by lia. replace (Z.succ (52 + n)) with (53 + n) in Hu by lia. rewrite Z.pow_add_r in Hu by lia.
  assert (0 < 2 ^ n) by (apply Z.pow_pos_nonneg; lia). set (p := 2 ^ n) in *.
  assert (2 ^ 52 <= q <= 2 ^ 53) as Hqr.
  { split; [|].
    - assert (2 ^ 52 * p * d <= a) by nia. assert (0 < p * d) by nia. nia.
    - assert (a < 2 ^ 53 * p * d) by nia. assert (0 < p * d) by nia. nia. }
  split_and!; [lia..|]. apply round_again; lia.
Qed.

Lemma fval_normal q e : 2 ^ 52 <= q <= 2 ^ 53 -> (fval (normal q e) == inject_Z q * pow2 e)%Q.
Proof.
  intros Hq. unfold normal. destruct (Z.eqb_spec q (2 ^ 53)) as [->|Hne]; cbn [fval].
  - rewrite pow2_add. change (pow2 1) with 2%Q. assert (inject_Z (2 ^ 53) == inject_Z (Zpos (2 ^ 52)) * 2)%Q as -> by reflexivity. ring.
  - rewrite Z2Pos.id by lia. reflexivity.
Qed.

Lemma normal_finite q e : 2 ^ 52 <= q <= 2 ^ 53 -> exists m e', normal q e = S754_finite false m e' /\ 2 ^ 52 <= Zpos m < 2 ^ 53 /\ e <= e' <= e + 1.
Proof.
  intros Hq. unfold normal. destruct (Z.eqb_spec q (2 ^ 53)) as [->|Hne]; [exists (2 ^ 52)%positive, (e + 1); split_and!; done || lia|].
  exists (Z.to_pos q), e. rewrite Z2Pos.id by lia. split_and!; done || lia.
Qed.

(** An integer [w] that is off a fraction [a / d] by one part in [2^53]. *)
Lemma frac_error a d w e : 0 < d -> 2 ^ 53 * (a - w * d) <= a -> 2 ^ 53 * (w * d - a) <= a ->
  let v := (inject_Z a / inject_Z d * pow2 e)%Q in
  (v * (1 - ulp) <= inject_Z w * pow2 e /\ inject_Z w * pow2 e <= v * (1 + ulp))%Q.
Proof.
  intros Hd H1 H2. cbv zeta. assert (0 < inject_Z d)%Q as HD by (change 0%Q with (inject_Z 0); by rewrite <- Zlt_Qlt).
  set (V := (inject_Z a / inject_Z d)%Q). assert (V * inject_Z d == inject_Z a)%Q as EV.
  { unfold V. field. apply inject_nonzero. lia. }
  assert (inject_Z (2 ^ 53) == 9007199254740992)%Q as E53 by reflexivity. change ulp with (1 # 9007199254740992)%Q.
  rewrite Zle_Qle in H1, H2. unfold Z.sub in H1, H2. rewrite inject_Z_mult, inject_Z_plus, inject_Z_opp, inject_Z_mult, E53, <- EV in H1, H2.
  assert (V * (1 - (1 # 9007199254740992)) <= inject_Z w)%Q as H3 by (apply (Qmult_le_r _ _ (inject_Z d) HD); lra).
  assert (inject_Z w <= V * (1 + (1 # 9007199254740992)))%Q as H4 by (apply (Qmult_le_r _ _ (inject_Z d) HD); lra).
  pose proof (pow2_pos e) as Hp. apply (Qmult_le_compat_r _ _ (pow2 e)) in H3, H4; [|by apply Qlt_le_weak..]. split; lra.
Qed.

Lemma round_rounded a d (m : positive) e l n : 0 < d ->
  shifted_frac a d 0 (shr_record_of_loc (Zpos m) l) -> n = Z.log2 (Zpos m) - 52 -> 0 <= n -> -1000 <= e + n <= 900 ->
  rounded (inject_Z a / inject_Z d * pow2 e) (e + n) (e + n + 1) (binary_round_aux 53 1024 false (Zpos m) e l).
Proof.
  intros Hd Hsh En Hn He. destruct (round_frac a d m e l n Hd Hsh En Hn He) as (q & Hq & Hh & ->).
  assert (2 ^ n * d * 2 ^ 52 <= a) as Ha.
  { destruct Hsh as (x & Ex & Hx & _). change (2 ^ Z.of_nat 0) with 1 in *.
    pose proof (Z.log2_spec (Zpos m) ltac:(lia)) as [Hl _]. replace (Z.log2 (Zpos m)) with (52 + n) in Hl by lia. rewrite Z.pow_add_r in Hl by lia.
    assert (Zpos m * d <= a) by (destruct l as [|[]]; cbn [shr_record_of_loc shr_m shr_r] in Ex; nia). nia. }
  destruct (frac_error a d (q * 2 ^ n) e Hd) as [R1 R2]; [nia..|].
  destruct (normal_finite q (e + n) Hq) as (m' & e' & E & Hm' & He'). exists m', e'. split_and!; [done|lia..| |];
    rewrite (fval_normal q _ Hq), (Z.add_comm e n), pow2_add, Qmult_assoc, (pow2_Z n Hn), <- inject_Z_mult; done.
Qed.

#[export] Instance rounded_proper : Proper (Qeq ==> eq ==> eq ==> eq ==> iff) rounded.
Proof.
  intros v w E lo ? <- hi ? <- x ? <-. unfold rounded. by setoid_rewrite E.
Qed.

(** ** Operations on positive numbers of full precision *)

Definition positive_normal (m : positive) : Prop := 2 ^ 52 <= Zpos m < 2 ^ 53.

Lemma log2_normal m : positive_normal m -> Z.log2 (Zpos m) = 52.
Proof. intros Hm. apply Z.log2_unique; [lia|]. exact Hm. Qed.

Lemma exact_frac m : 0 <= m -> shifted_frac m 1 0 (shr_record_of_loc m loc_Exact).
Proof. intros Hm. exists 0. cbn. lia. Qed.

Lemma fmul_rounded m1 e1 m2 e2 : positive_normal m1 -> positive_normal m2 -> -1000 <= e1 + e2 + 52 -> e1 + e2 + 53 <= 900 ->
  rounded (fval (S754_finite false m1 e1) * fval (S754_finite false m2 e2)) (e1 + e2 + 52) (e1 + e2 + 54)
    (S754_finite false m1 e1 * S754_finite false m2 e2)%F.
Proof.
  unfold positive_normal. intros H1 H2 He He'. unfold fmul. cbn [SFmul xorb fval]. set (m := (m1 * m2)%positive).
  assert (2 ^ 104 <= Zpos m < 2 ^ 106) as Hm by (unfold m; rewrite Pos2Z.inj_mul; nia).
  assert (104 <= Z.log2 (Zpos m) < 106) as Hl by (split; [apply Z.log2_le_pow2|apply Z.log2_lt_pow2]; lia).
  pose proof (round_rounded (Zpos m) 1 m (e1 + e2) loc_Exact (Z.log2 (Zpos m) - 52) ltac:(lia) (exact_frac (Zpos m) ltac:(lia)) eq_refl ltac:(lia) ltac:(lia)) as Hr.
  destruct Hr as (m' & e' & E & Hm' & Hexp & Hv). exists m', e'. split_and!; [done|lia..| |];
    (assert (inject_Z (Zpos m) / inject_Z 1 * pow2 (e1 + e2) == inject_Z (Zpos m1) * pow2 e1 * (inject_Z (Zpos m2) * pow2 e2))%Q as <-;
      [unfold m; rewrite Pos2Z.inj_mul, inject_Z_mult, pow2_add; field|apply Hv]).
Qed.

Lemma new_location_frac a d : 0 < d -> 0 <= a ->
  shifted_frac a d 0 (shr_record_of_loc (a / d) (new_location d (a mod d))).
Proof.
  intros Hd Ha. pose proof (Z.div_mod a d ltac:(lia)) as E. pose proof (Z.mod_pos_bound a d Hd) as Hr. pose proof (Z.div_pos a d Ha Hd) as Hq.
  set (q := a / d) in *. set (r := a mod d) in *. unfold new_location, new_location_even, new_location_odd, shifted_frac. change (2 ^ Z.of_nat 0) with 1.
  destruct (Z.even d) eqn:Ed; destruct (Z.eqb_spec r 0) as [E0|E0]; cbn [shr_record_of_loc].
  1,3: exists 0; cbn [shr_m shr_r shr_s Z.eqb negb]; split_and!; done || lia.
  - destruct (Z.compare_spec (2 * r) d) as [Hc|Hc|Hc]; cbn [shr_m shr_r shr_s]; [exists 0|exists (2 * r)|exists (2 * r - d)];
      split_and!; try (symmetry; apply negb_true_iff, Z.eqb_neq); done || lia.
  - assert (2 * r <> d) as Hne by (intros H2; rewrite <- H2, Z.even_mul in Ed; done).
    destruct (Z.compare_spec (2 * r + 1) d) as [Hc|Hc|Hc]; cbn [shr_m shr_r shr_s]; [exists (2 * r)|exists (2 * r)|exists (2 * r - d)];
      split_and!; try (symmetry; apply negb_true_iff, Z.eqb_neq); done || lia.
Qed.

Lemma fdiv_rounded m1 e1 m2 e2 : positive_normal m1 -> positive_normal m2 -> -900 <= e1 - e2 <= 900 ->
  rounded (fval (S754_finite false m1 e1) / fval (S754_finite false m2 e2)) (e1 - e2 - 53) (e1 - e2 - 51)
    (S754_finite false m1 e1 / S754_finite false m2 e2)%F.
Proof.
  intros H1 H2 He. unfold fdiv. cbn [SFdiv xorb fval]. unfold SFdiv_core_binary. cbn [Zdigits2].
  rewrite !digits2_log2, !log2_normal, fexp_plain by (done || lia). unfold positive_normal in *.
  replace (Z.min (52 + 1 + e1 - (52 + 1 + e2) - 53) (e1 - e2)) with (e1 - e2 - 53) by lia.
  replace (e1 - e2 - (e1 - e2 - 53)) with 53 by lia. set (a := Z.shiftl (Zpos m1) 53).
  assert (a = Zpos m1 * 2 ^ 53) as Ea by (apply Z.shiftl_mul_pow2; lia).
  assert (Z.div_eucl a (Zpos m2) = (a / Zpos m2, a mod Zpos m2)) as -> by (unfold Z.div, Z.modulo; by destruct (Z.div_eucl a (Zpos m2))).
  pose proof (new_location_frac a (Zpos m2) ltac:(lia) ltac:(lia)) as Hsh.
  assert (2 ^ 52 <= a / Zpos m2 < 2 ^ 54) as Hq.
  { split; [apply Z.div_le_lower_bound; lia|apply Z.div_lt_upper_bound; lia]. }
  destruct (a / Zpos m2) as [|q|q]; [lia| |lia].
  assert (52 <= Z.log2 (Zpos q) < 54) as Hl by (split; [apply Z.log2_le_pow2|apply Z.log2_lt_pow2]; lia).
  pose proof (round_rounded a (Zpos m2) q (e1 - e2 - 53) _ (Z.log2 (Zpos q) - 52) ltac:(lia) Hsh eq_refl ltac:(lia) ltac:(lia)) as Hr.
  destruct Hr as (m' & e' & E & Hm' & Hexp & Hv). exists m', e'. split_and!; [done|lia..| |];
    (assert (inject_Z a / inject_Z (Zpos m2) * pow2 (e1 - e2 - 53) == inject_Z (Zpos m1) * pow2 e1 / (inject_Z (Zpos m2) * pow2 e2))%Q as <-; [|apply Hv]).
  all: rewrite Ea, inject_Z_mult, <- (pow2_Z 53) by lia; 
    assert (pow2 e1 == pow2 (e1 - e2 - 53) * pow2 53 * pow2 e2)%Q as -> by (rewrite <- !pow2_add; by replace (e1 - e2 - 53 + 53 + e2) with e1 by lia);
    field; split; first [apply pow2_nonzero|by apply inject_nonzero].
Qed.

Lemma fadd_rounded m1 e1 m2 e2 : positive_normal m1 -> positive_normal m2 -> -900 <= e1 <= 800 -> -900 <= e2 <= 800 ->
  rounded (fval (S754_finite false m1 e1) + fval (S754_finite false m2 e2)) (Z.max e1 e2) (Z.max e1 e2 + 2)
    (S754_finite false m1 e1 + S754_finite false m2 e2)%F.
Proof.
  unfold positive_normal. intros H1 H2 He1 He2. unfold fadd. cbn [SFadd cond_Zopp fval]. set (ez := Z.min e1 e2). rewrite !shl_align_down by lia.
  set (a := Zpos m1 * 2 ^ (e1 - ez) + Zpos m2 * 2 ^ (e2 - ez)).
  assert (0 < 2 ^ (e1 - ez)) by (apply Z.pow_pos_nonneg; lia). assert (0 < 2 ^ (e2 - ez)) by (apply Z.pow_pos_nonneg; lia).
  assert (2 ^ (52 + (Z.max e1 e2 - ez)) <= a < 2 ^ (54 + (Z.max e1 e2 - ez))) as Ha.
  { rewrite !Z.pow_add_r by lia. unfold a. destruct (Z.leb_spec e1 e2).
    - replace (Z.max e1 e2) with e2 by lia. replace (e1 - ez) with 0 by lia. nia.
    - replace (Z.max e1 e2) with e1 by lia. replace (e2 - ez) with 0 by lia. nia. }
  destruct a as [|m|m] eqn:Ea; [assert (0 < 2 ^ (52 + (Z.max e1 e2 - ez))) by (apply Z.pow_pos_nonneg; lia); lia| |assert (0 < 2 ^ (52 + (Z.max e1 e2 - ez))) by (apply Z.pow_pos_nonneg; lia); lia].
  assert (52 + (Z.max e1 e2 - ez) <= Z.log2 (Zpos m) < 54 + (Z.max e1 e2 - ez)) as Hl by (split; [apply Z.log2_le_pow2|apply Z.log2_lt_pow2]; lia).
  cbn [binary_normalize]. unfold binary_round. rewrite digits2_log2, shl_align_up by (unfold fexp; lia).
  pose proof (round_rounded (Zpos m) 1 m ez loc_Exact (Z.log2 (Zpos m) - 52) ltac:(lia) (exact_frac (Zpos m) ltac:(lia)) eq_refl ltac:(lia) ltac:(lia)) as Hr.
  destruct Hr as (m' & e' & E & Hm' & Hexp & Hv). exists m', e'. split_and!; [done|lia..| |];
    (assert (inject_Z (Zpos m) / inject_Z 1 * pow2 ez == inject_Z (Zpos m1) * pow2 e1 + inject_Z (Zpos m2) * pow2 e2)%Q as <-; [|apply Hv]).
  all: assert (pow2 e1 == inject_Z (2 ^ (e1 - ez)) * pow2 ez)%Q as -> by (rewrite <- pow2_Z, <- pow2_add by lia; by replace (e1 - ez + ez) with e1 by lia);
    assert (pow2 e2 == inject_Z (2 ^ (e2 - ez)) * pow2 ez)%Q as -> by (rewrite <- pow2_Z, <- pow2_add by lia; by replace (e2 - ez + ez) with e2 by lia);
    rewrite <- Ea; unfold a; rewrite inject_Z_plus, !inject_Z_mult; field.
Qed.

(** ** Integers *)

Lemma fval_of_Z z : 0 < z < 2 ^ 53 ->
  exists m e, f_of_Z z = S754_finite false m e /\ positive_normal m /\ -52 <= e <= 0 /\ (fval (f_of_Z z) == inject_Z z)%Q.
Proof.
  intros Hz. destruct (f_of_Z_normal z Hz) as (-> & Hr & Hk). set (k := 52 - Z.log2 z) in *.
  exists (Z.to_pos (z * 2 ^ k)), (- k). unfold positive_normal. rewrite Z2Pos.id by lia. split_and!; [done|lia..|].
  cbn [fval]. rewrite Z2Pos.id, inject_Z_mult, <- (pow2_Z k), <- Qmult_assoc, <- pow2_add by lia.
  replace (k + - k) with 0 by lia. change (pow2 0) with 1%Q. ring.
Qed.

(** Truncation of a number that is not negative. *)
Lemma trunc_val m e : let x := S754_finite false m e in (inject_Z (f_trunc x) <= fval x /\ fval x < inject_Z (f_trunc x + 1))%Q.
Proof.
  cbn [f_trunc fval]. destruct (Z.leb_spec 0 e) as [He|He].
  - rewrite Z.shiftl_mul_pow2, (pow2_Z e He), <- inject_Z_mult, <- Zle_Qle, <- Zlt_Qlt by done. lia.
  - rewrite Z.shiftl_div_pow2 by lia. set (d := 2 ^ (- e)). assert (0 < d) as Hd by (apply Z.pow_pos_nonneg; lia).
    assert (0 < inject_Z d)%Q as HD by (change 0%Q with (inject_Z 0); by rewrite <- Zlt_Qlt).
    assert (pow2 e * inject_Z d == 1)%Q as Ed by (unfold d; rewrite <- (pow2_Z (- e)), <- pow2_add by lia; by replace (e + - e) with 0 by lia).
    pose proof (Z.div_mod (Zpos m) d ltac:(lia)). pose proof (Z.mod_pos_bound (Zpos m) d Hd).
    split; [apply (Qmult_le_r _ _ (inject_Z d) HD)|apply (Qmult_lt_r _ _ (inject_Z d) HD)];
      rewrite <- (Qmult_assoc _ (pow2 e)), Ed, Qmult_1_r, <- inject_Z_mult, <- ?Zle_Qle, <- ?Zlt_Qlt; lia.
Qed.
