(* ===== verification/HdrHistogram.v ===== *)
(** * wrk2's latency histogram ([wrk2/src/hdr_histogram.c])

    The histogram keeps one 64-bit counter per equivalence class of values;
    classes double in width from one bucket to the next, so that every class
    is narrower than the requested relative precision.  The model keeps the
    struct's fields, the 32- and 64-bit truncations of the code, its [assert]s
    (outcome [Abort]; the wrk2 build does not define NDEBUG) and its loops
    (fuel, with theorems that the fuel suffices).  Doubles are those of [PyFloat],
    which round as the code's do; the logarithm of the C library is a parameter. *)
From Stdlib Require Import SpecFloat QArith Lqa.
From stdpp Require Import sorting.
From S2P Require Import Prelude PyFloat FloatError.

Local Open Scope Z_scope.

(** ** Data *)

Record hdr_histogram : Type := {
  lowest_trackable_value : Z;
  highest_trackable_value : Z;
  unit_magnitude : Z;
  significant_figures : Z;
  sub_bucket_half_count_magnitude : Z;
  sub_bucket_half_count : Z;
  sub_bucket_mask : Z;
  sub_bucket_count : Z;
  bucket_count : Z;
  counts_len : Z;
  total_count : Z;
  counts : list Z;
}.

Definition set_counts (h : hdr_histogram) (total : Z) (cs : list Z) : hdr_histogram :=
  {| lowest_trackable_value := lowest_trackable_value h;
     highest_trackable_value := highest_trackable_value h;
     unit_magnitude := unit_magnitude h;
     significant_figures := significant_figures h;
     sub_bucket_half_count_magnitude := sub_bucket_half_count_magnitude h;
     sub_bucket_half_count := sub_bucket_half_count h;
     sub_bucket_mask := sub_bucket_mask h;
     sub_bucket_count := sub_bucket_count h;
     bucket_count := bucket_count h;
     counts_len := counts_len h;
     total_count := total;
     counts := cs |}.

(** ** Index arithmetic *)

(** The result variable is an [int]: each product is cut to 32 bits. *)
Definition power (base exp : Z) : Z :=
  Nat.iter (Z.to_nat exp) (fun result => s32 (result * base)) 1.

(** [__builtin_clzll]: leading zeros of the 64-bit pattern, undefined at 0. *)
Definition clzll (x : Z) : Z := 63 - Z.log2 (u64 x).

Definition get_bucket_index (h : hdr_histogram) (value : Z) : Z :=
  let pow2ceiling := 64 - clzll (Z.lor value (sub_bucket_mask h)) in
  s32 (pow2ceiling - unit_magnitude h - (sub_bucket_half_count_magnitude h + 1)).

Definition get_sub_bucket_index (value bucket_index unit_magnitude : Z) : Z :=
  s32 (Z.shiftr value (bucket_index + unit_magnitude)).

Definition counts_index (h : hdr_histogram) (bucket_index sub_bucket_index : Z) : res Z :=
  _ ← assert (bucket_index <? bucket_count h);
  _ ← assert (sub_bucket_index <? sub_bucket_count h);
  _ ← assert ((bucket_index =? 0) || (sub_bucket_half_count h <=? sub_bucket_index));
  let bucket_base_index :=
    s32 (Z.shiftl (bucket_index + 1) (sub_bucket_half_count_magnitude h)) in
  let offset_in_bucket := s32 (sub_bucket_index - sub_bucket_half_count h) in
  Ret (s32 (bucket_base_index + offset_in_bucket)).

Definition counts_index_for (h : hdr_histogram) (value : Z) : res Z :=
  let bucket_index := get_bucket_index h value in
  let sub_bucket_index := get_sub_bucket_index value bucket_index (unit_magnitude h) in
  counts_index h bucket_index sub_bucket_index.

Definition value_from_index (bucket_index sub_bucket_index unit_magnitude : Z) : Z :=
  s64 (Z.shiftl sub_bucket_index (bucket_index + unit_magnitude)).

Definition get_count_at_index (h : hdr_histogram) (bucket_index sub_bucket_index : Z) : res Z :=
  i ← counts_index h bucket_index sub_bucket_index;
  aget (counts h) i.

(** [1 << n] is an [int] shift: undefined when the result does not fit. *)
Definition int_one_shl (n : Z) : res Z :=
  if (0 <=? n) && (n <? 31) then Ret (Z.shiftl 1 n) else Abort.

(** The shift of an [int] in general. *)
Definition int_shl (a n : Z) : res Z :=
  if (0 <=? n) && (n <? 32) && (Z.shiftl a n <? 2 ^ 31) then Ret (Z.shiftl a n) else Abort.

Definition size_of_equivalent_value_range (h : hdr_histogram) (value : Z) : res Z :=
  let bucket_index := get_bucket_index h value in
  let sub_bucket_index := get_sub_bucket_index value bucket_index (unit_magnitude h) in
  let adjusted_bucket :=
    if sub_bucket_count h <=? sub_bucket_index then bucket_index + 1 else bucket_index in
  int_one_shl (unit_magnitude h + adjusted_bucket).

Definition lowest_equivalent_value (h : hdr_histogram) (value : Z) : Z :=
  let bucket_index := get_bucket_index h value in
  let sub_bucket_index := get_sub_bucket_index value bucket_index (unit_magnitude h) in
  value_from_index bucket_index sub_bucket_index (unit_magnitude h).

Definition next_non_equivalent_value (h : hdr_histogram) (value : Z) : res Z :=
  size ← size_of_equivalent_value_range h value;
  Ret (s64 (lowest_equivalent_value h value + size)).

Definition highest_equivalent_value (h : hdr_histogram) (value : Z) : res Z :=
  next ← next_non_equivalent_value h value;
  Ret (s64 (next - 1)).

Definition median_equivalent_value (h : hdr_histogram) (value : Z) : res Z :=
  size ← size_of_equivalent_value_range h value;
  Ret (s64 (lowest_equivalent_value h value + Z.shiftr size 1)).

(** ** Memory *)

Definition EINVAL : Z := 22.
Definition ENOMEM : Z := 12.

Fixpoint buckets_loop (fuel : nat) (trackable_value highest buckets_needed : Z) : res Z :=
  if trackable_value <? highest then
    match fuel with
    | O => Diverge
    | S fuel =>
        buckets_loop fuel (s64 (Z.shiftl trackable_value 1)) highest (s32 (buckets_needed + 1))
    end
  else Ret buckets_needed.

(** Conversions of a double to [int64_t] and [int32_t], which are undefined when the
    truncated number does not fit. *)
Definition to_int (width : Z) (x : float) : res Z :=
  match x with
  | S754_finite _ _ _ | S754_zero _ =>
      let t := f_trunc x in
      if (- 2 ^ (width - 1) <=? t) && (t <? 2 ^ (width - 1)) then Ret t else Abort
  | _ => Abort
  end.

(** [floor] and [ceil], of numbers that are small enough to have a fraction. *)
Definition f_floor (x : float) : float :=
  match x with
  | S754_finite s m e => if e <? 0 then f_of_Z (Z.shiftl (if s then Zneg m else Zpos m) e) else x
  | _ => x
  end.
Definition f_ceil (x : float) : float :=
  match x with
  | S754_finite s m e => if e <? 0 then f_of_Z (- Z.shiftl (if s then Zpos m else Zneg m) e) else x
  | _ => x
  end.

(** The logarithm of the C library.  Its errors may be anything as long as the
    quotients [log(x) / log(2)] fall between the right integers, for the numbers
    [2 * 10^figures] and for lowest values below [2^13]; for larger ones they do
    not have to. *)
Class Log := {
  log : float -> float;
  log_floor : forall x, 1 <= x < 2 ^ 13 -> to_int 32 (f_floor (log (f_of_Z x) / log (f_of_Z 2))%F) = Ret (Z.log2 x);
  log_ceil : forall f, 1 <= f <= 5 -> to_int 32 (f_ceil (log (f_of_Z (2 * 10 ^ f)) / log (f_of_Z 2))%F) = Ret (Z.log2_up (2 * 10 ^ f));
}.

(** [malloc_ok] is the answer of the allocator.  The value of [pow(2, n)] is exact. *)
Definition hdr_init `{Log} (malloc_ok : bool) (lowest highest figures : Z) : res (Z + hdr_histogram) :=
  if (figures <? 1) || (5 <? figures) then Ret (inl EINVAL) else
  let largest_value_with_single_unit_resolution := 2 * power 10 figures in
  sub_bucket_count_magnitude ← to_int 32 (f_ceil (log (f_of_Z largest_value_with_single_unit_resolution) / log (f_of_Z 2))%F);
  let half_count_magnitude :=
    (if 1 <? sub_bucket_count_magnitude then sub_bucket_count_magnitude else 1) - 1 in
  unit_mag ← to_int 32 (f_floor (log (f_of_Z lowest) / log (f_of_Z 2))%F);
  let sub_count := s32 (2 ^ (half_count_magnitude + 1)) in
  let half_count := Z.quot sub_count 2 in
  mask ← int_shl (sub_count - 1) unit_mag;
  buckets_needed ← buckets_loop 64 mask highest 1;
  let len := s32 ((buckets_needed + 1) * Z.quot sub_count 2) in
  if negb malloc_ok then Ret (inl ENOMEM) else
  Ret (inr {| lowest_trackable_value := lowest;
              highest_trackable_value := highest;
              unit_magnitude := unit_mag;
              significant_figures := figures;
              sub_bucket_half_count_magnitude := half_count_magnitude;
              sub_bucket_half_count := half_count;
              sub_bucket_mask := mask;
              sub_bucket_count := sub_count;
              bucket_count := buckets_needed;
              counts_len := len;
              total_count := 0;
              counts := replicate (Z.to_nat len) 0 |}).

Definition hdr_alloc `{Log} (malloc_ok : bool) (highest figures : Z) : res (Z + hdr_histogram) :=
  hdr_init malloc_ok 1 highest figures.

Definition hdr_reset (h : hdr_histogram) : hdr_histogram :=
  set_counts h 0 (replicate (Z.to_nat (counts_len h)) 0 ++ drop (Z.to_nat (counts_len h)) (counts h)).

(** [sizeof(struct hdr_histogram)] on an LP64 target. *)
Definition sizeof_hdr_histogram : Z := 72.

Definition hdr_get_memory_size (h : hdr_histogram) : Z :=
  u64 (sizeof_hdr_histogram + counts_len h * 8).

(** ** Updates *)

Definition hdr_record_values (h : hdr_histogram) (value count : Z) : res (bool * hdr_histogram) :=
  i ← counts_index_for h value;
  if (i <? 0) || (counts_len h <=? i) then Ret (false, h) else
  c ← aget (counts h) i;
  cs ← aset (counts h) i (s64 (c + count));
  Ret (true, set_counts h (s64 (total_count h + count)) cs).

Definition hdr_record_value (h : hdr_histogram) (value : Z) : res (bool * hdr_histogram) :=
  i ← counts_index_for h value;
  if (i <? 0) || (counts_len h <=? i) then Ret (false, h) else
  c ← aget (counts h) i;
  cs ← aset (counts h) i (s64 (c + 1));
  Ret (true, set_counts h (s64 (total_count h + 1)) cs).

Fixpoint corrected_loop (fuel : nat) (h : hdr_histogram) (missing_value expected_interval : Z)
  : res (bool * hdr_histogram) :=
  if expected_interval <=? missing_value then
    match fuel with
    | O => Diverge
    | S fuel =>
        '(ok, h') ← hdr_record_value h missing_value;
        if negb ok then Ret (false, h') else
        corrected_loop fuel h' (missing_value - expected_interval) expected_interval
    end
  else Ret (true, h).

Definition hdr_record_corrected_value (h : hdr_histogram) (value expected_interval : Z)
  : res (bool * hdr_histogram) :=
  '(ok, h') ← hdr_record_value h value;
  if negb ok then Ret (false, h') else
  if (expected_interval <=? 0) || (value <=? expected_interval) then Ret (true, h') else
  let missing_value := value - expected_interval in
  corrected_loop (Z.to_nat value) h' missing_value expected_interval.

(** ** Iterators

    [iter->h] is the histogram [h] every operation takes. *)

Record hdr_iter : Type := {
  it_bucket_index : Z;
  it_sub_bucket_index : Z;
  it_count_at_index : Z;
  it_count_to_index : Z;
  it_value_from_index : Z;
  it_highest_equivalent_value : Z;
}.

Definition has_buckets (h : hdr_histogram) (it : hdr_iter) : bool :=
  it_bucket_index it <? bucket_count h.

Definition has_next (h : hdr_histogram) (it : hdr_iter) : bool :=
  it_count_to_index it <? total_count h.

Definition increment_bucket (h : hdr_histogram) (bucket_index sub_bucket_index : Z) : Z * Z :=
  let sub_bucket_index := s32 (sub_bucket_index + 1) in
  if sub_bucket_count h <=? sub_bucket_index then
    (s32 (bucket_index + 1), sub_bucket_half_count h)
  else (bucket_index, sub_bucket_index).

Definition move_next (h : hdr_histogram) (it : hdr_iter) : res (bool * hdr_iter) :=
  let '(b, s) := increment_bucket h (it_bucket_index it) (it_sub_bucket_index it) in
  let it := {| it_bucket_index := b; it_sub_bucket_index := s;
               it_count_at_index := it_count_at_index it;
               it_count_to_index := it_count_to_index it;
               it_value_from_index := it_value_from_index it;
               it_highest_equivalent_value := it_highest_equivalent_value it |} in
  if negb (has_buckets h it) then Ret (false, it) else
  count ← get_count_at_index h b s;
  let value := value_from_index b s (unit_magnitude h) in
  highest ← highest_equivalent_value h value;
  Ret (true, {| it_bucket_index := b; it_sub_bucket_index := s;
                it_count_at_index := count;
                it_count_to_index := s64 (it_count_to_index it + count);
                it_value_from_index := value;
                it_highest_equivalent_value := highest |}).

Definition peek_next_value_from_index (h : hdr_histogram) (it : hdr_iter) : Z :=
  let '(b, s) := increment_bucket h (it_bucket_index it) (it_sub_bucket_index it) in
  value_from_index b s (unit_magnitude h).

Definition hdr_iter_init : hdr_iter :=
  {| it_bucket_index := 0; it_sub_bucket_index := -1; it_count_at_index := 0;
     it_count_to_index := 0; it_value_from_index := 0; it_highest_equivalent_value := 0 |}.

(** The result of [move_next] is ignored, as in the code. *)
Definition hdr_iter_next (h : hdr_histogram) (it : hdr_iter) : res (bool * hdr_iter) :=
  if negb (has_next h it) then Ret (false, it) else
  '(_, it) ← move_next h it;
  Ret (true, it).

(** [while (hdr_iter_next(&iter)) body], where the body may [break]. *)
Fixpoint iter_while {S} (fuel : nat) (h : hdr_histogram)
    (body : hdr_iter -> S -> res (bool * S)) (it : hdr_iter) (s : S) : res (hdr_iter * S) :=
  match fuel with
  | O => Diverge
  | Datatypes.S fuel =>
      '(more, it) ← hdr_iter_next h it;
      if negb more then Ret (it, s) else
      '(break, s) ← body it s;
      if (break : bool) then Ret (it, s) else iter_while fuel h body it s
  end.

(** Enough iterations for every counter and the final failing test. *)
Definition iter_fuel (h : hdr_histogram) : nat := Datatypes.S (Z.to_nat (counts_len h)).

Record hdr_recorded_iter : Type := {
  rec_iter : hdr_iter;
  rec_count_added_in_this_iteration_step : Z;
}.

Definition hdr_recorded_iter_init : hdr_recorded_iter :=
  {| rec_iter := hdr_iter_init; rec_count_added_in_this_iteration_step := 0 |}.

Fixpoint hdr_recorded_iter_next (fuel : nat) (h : hdr_histogram) (r : hdr_recorded_iter)
  : res (bool * hdr_recorded_iter) :=
  match fuel with
  | O => Diverge
  | S fuel =>
      '(more, it) ← hdr_iter_next h (rec_iter r);
      let r := {| rec_iter := it;
                  rec_count_added_in_this_iteration_step :=
                    rec_count_added_in_this_iteration_step r |} in
      if negb more then Ret (false, r) else
      if negb (it_count_at_index it =? 0) then
        Ret (true, {| rec_iter := it;
                      rec_count_added_in_this_iteration_step := it_count_at_index it |})
      else hdr_recorded_iter_next fuel h r
  end.

(** [hdr_add]: [h] and [from] are distinct blocks. *)
Fixpoint add_loop (fuel : nat) (h from : hdr_histogram) (r : hdr_recorded_iter) (dropped : Z)
  : res (hdr_histogram * Z) :=
  match fuel with
  | O => Diverge
  | S fuel' =>
      '(more, r) ← hdr_recorded_iter_next fuel from r;
      if negb more then Ret (h, dropped) else
      let value := it_value_from_index (rec_iter r) in
      let count := it_count_at_index (rec_iter r) in
      '(ok, h) ← hdr_record_values h value count;
      add_loop fuel' h from r (if (ok : bool) then dropped else s64 (dropped + count))
  end.

Definition hdr_add (h from : hdr_histogram) : res (hdr_histogram * Z) :=
  add_loop (iter_fuel from) h from hdr_recorded_iter_init 0.

(** ** Values *)

Definition hdr_max (h : hdr_histogram) : res Z :=
  '(_, max) ← iter_while (iter_fuel h) h
    (fun it max => Ret (false, if negb (0 =? it_count_at_index it)
                               then it_highest_equivalent_value it else max))
    hdr_iter_init 0;
  Ret (lowest_equivalent_value h max).

Definition hdr_min (h : hdr_histogram) : res Z :=
  '(_, min) ← iter_while (iter_fuel h) h
    (fun it min => Ret (if negb (0 =? it_count_to_index it) && (0 =? min)
                        then (true, it_value_from_index it) else (false, min)))
    hdr_iter_init 0;
  Ret min.

Definition count_at_percentile (h : hdr_histogram) (percentile : float) : res Z :=
  let requested_percentile := if (percentile <? f_of_Z 100)%F then percentile else f_of_Z 100 in
  c ← to_int 64 (requested_percentile / f_of_Z 100 * f_of_Z (total_count h) + dec_lit 5 1)%F;
  Ret (if 1 <? c then c else 1).

(** State of the loop: the running total and the value returned, if any. *)
Definition hdr_value_at_percentile (h : hdr_histogram) (percentile : float) : res Z :=
  count ← count_at_percentile h percentile;
  '(_, (_, r)) ← iter_while (iter_fuel h) h
    (fun it '(total, r) =>
       let total := s64 (total + it_count_at_index it) in
       if count <=? total then
         v ← highest_equivalent_value h (it_value_from_index it);
         Ret (true, (total, Some v))
       else Ret (false, (total, r)))
    hdr_iter_init (0, None);
  Ret (default 0 r).

Definition hdr_mean (h : hdr_histogram) : res float :=
  '(_, total) ← iter_while (iter_fuel h) h
    (fun it total =>
       if negb (0 =? it_count_at_index it) then
         m ← median_equivalent_value h (it_value_from_index it);
         Ret (false, s64 (total + it_count_at_index it * m))
       else Ret (false, total))
    hdr_iter_init 0;
  Ret (f_of_Z total * f_of_Z 1 / f_of_Z (total_count h))%F.

Definition hdr_values_are_equivalent (h : hdr_histogram) (a b : Z) : bool :=
  lowest_equivalent_value h a =? lowest_equivalent_value h b.

Definition hdr_lowest_equivalent_value (h : hdr_histogram) (value : Z) : Z :=
  lowest_equivalent_value h value.

Definition hdr_count_at_value (h : hdr_histogram) (value : Z) : res Z :=
  i ← counts_index_for h value;
  aget (counts h) i.

(** *** Linear iteration *)

Record hdr_linear_iter : Type := {
  lin_iter : hdr_iter;
  lin_count_added_in_this_iteration_step : Z;
  lin_value_units_per_bucket : Z;
  lin_next_value_reporting_level : Z;
  lin_next_value_reporting_level_lowest_equivalent : Z;
}.

Definition hdr_linear_iter_init (h : hdr_histogram) (value_units_per_bucket : Z) : hdr_linear_iter :=
  {| lin_iter := hdr_iter_init;
     lin_count_added_in_this_iteration_step := 0;
     lin_value_units_per_bucket := value_units_per_bucket;
     lin_next_value_reporting_level := value_units_per_bucket;
     lin_next_value_reporting_level_lowest_equivalent :=
       lowest_equivalent_value h value_units_per_bucket |}.

Fixpoint linear_loop (fuel : nat) (h : hdr_histogram) (l : hdr_linear_iter)
  : res (bool * hdr_linear_iter) :=
  match fuel with
  | O => Diverge
  | S fuel =>
      if lin_next_value_reporting_level_lowest_equivalent l <=? it_value_from_index (lin_iter l)
      then
        let level := s64 (lin_next_value_reporting_level l + lin_value_units_per_bucket l) in
        Ret (true,
             {| lin_iter := lin_iter l;
                lin_count_added_in_this_iteration_step := lin_count_added_in_this_iteration_step l;
                lin_value_units_per_bucket := lin_value_units_per_bucket l;
                lin_next_value_reporting_level := level;
                lin_next_value_reporting_level_lowest_equivalent :=
                  lowest_equivalent_value h level |})
      else
        '(more, it) ← move_next h (lin_iter l);
        let l' added :=
          {| lin_iter := it;
             lin_count_added_in_this_iteration_step := added;
             lin_value_units_per_bucket := lin_value_units_per_bucket l;
             lin_next_value_reporting_level := lin_next_value_reporting_level l;
             lin_next_value_reporting_level_lowest_equivalent :=
               lin_next_value_reporting_level_lowest_equivalent l |} in
        if negb more then Ret (false, l' (lin_count_added_in_this_iteration_step l)) else
        linear_loop fuel h
          (l' (s64 (lin_count_added_in_this_iteration_step l + it_count_at_index it)))
  end.

Definition hdr_linear_iter_next (h : hdr_histogram) (l : hdr_linear_iter)
  : res (bool * hdr_linear_iter) :=
  let l := {| lin_iter := lin_iter l;
              lin_count_added_in_this_iteration_step := 0;
              lin_value_units_per_bucket := lin_value_units_per_bucket l;
              lin_next_value_reporting_level := lin_next_value_reporting_level l;
              lin_next_value_reporting_level_lowest_equivalent :=
                lin_next_value_reporting_level_lowest_equivalent l |} in
  if has_next h (lin_iter l) ||
     (lin_next_value_reporting_level_lowest_equivalent l
      <? peek_next_value_from_index h (lin_iter l))
  then linear_loop (iter_fuel h) h l
  else Ret (false, l).

(** * Geometry: what the index arithmetic computes *)

(** The relations between the size fields that [hdr_init] establishes, and
    the bounds under which no shift or product leaves its C type. *)
Record hdr_geom (h : hdr_histogram) : Prop := {
  g_unit : 0 <= unit_magnitude h;
  g_mag : 0 <= sub_bucket_half_count_magnitude h;
  g_half : sub_bucket_half_count h = 2 ^ sub_bucket_half_count_magnitude h;
  g_count : sub_bucket_count h = 2 ^ (sub_bucket_half_count_magnitude h + 1);
  g_mask : sub_bucket_mask h =
    (2 ^ (sub_bucket_half_count_magnitude h + 1) - 1) * 2 ^ unit_magnitude h;
  g_buckets : 1 <= bucket_count h;
  g_int_shift : unit_magnitude h + bucket_count h <= 31;
  g_value64 : unit_magnitude h + sub_bucket_half_count_magnitude h + bucket_count h <= 62;
  g_len : counts_len h = (bucket_count h + 1) * 2 ^ sub_bucket_half_count_magnitude h;
  g_len32 : counts_len h < 2 ^ 31;
  g_precision : 10 ^ significant_figures h <= 2 ^ sub_bucket_half_count_magnitude h;
}.

(** Values whose class has a counter. *)
Definition trackable (h : hdr_histogram) (v : Z) : Prop :=
  0 <= v < 2 ^ (unit_magnitude h + sub_bucket_half_count_magnitude h + bucket_count h).

(** The bucket, sub-bucket and counter of a value in closed form. *)
Definition bucket_of (h : hdr_histogram) (v : Z) : Z :=
  Z.max 0 (Z.log2 v - (unit_magnitude h + sub_bucket_half_count_magnitude h)).
Definition width_of (h : hdr_histogram) (b : Z) : Z := 2 ^ (b + unit_magnitude h).
Definition sub_of (h : hdr_histogram) (v : Z) : Z := v / width_of h (bucket_of h v).
Definition index_of (h : hdr_histogram) (v : Z) : Z :=
  bucket_of h v * 2 ^ sub_bucket_half_count_magnitude h + sub_of h v.

(** The bucket, sub-bucket and least value of a counter. *)
Definition index_bucket (h : hdr_histogram) (i : Z) : Z :=
  Z.max 0 (i / 2 ^ sub_bucket_half_count_magnitude h - 1).
Definition index_sub (h : hdr_histogram) (i : Z) : Z :=
  i - index_bucket h i * 2 ^ sub_bucket_half_count_magnitude h.
Definition index_value (h : hdr_histogram) (i : Z) : Z :=
  index_sub h i * width_of h (index_bucket h i).
Definition index_width (h : hdr_histogram) (i : Z) : Z := width_of h (index_bucket h i).

Section geometry.
Context (h : hdr_histogram) (G : hdr_geom h).

Local Abbreviation um := (unit_magnitude h).
Local Abbreviation m := (sub_bucket_half_count_magnitude h).
Local Abbreviation bc := (bucket_count h).
Local Abbreviation half := (2 ^ sub_bucket_half_count_magnitude h).

Lemma half_pos : 0 < half.
Proof. pose proof (g_mag h G). lia. Qed.

Lemma count_double : sub_bucket_count h = 2 * half.
Proof. rewrite (g_count h G), Z.pow_add_r by (pose proof (g_mag h G); lia). lia. Qed.

Lemma width_pos b : 0 <= b -> 0 < width_of h b.
Proof. pose proof (g_unit h G). unfold width_of. lia. Qed.

Lemma log2_mask : Z.log2 (sub_bucket_mask h) = um + m.
Proof.
  destruct G. rewrite g_mask0.
  assert (2 ^ (m + 1) = 2 * half) as -> by (rewrite Z.pow_add_r by lia; lia).
  rewrite Z.log2_mul_pow2 by (pose proof half_pos; lia).
  rewrite (Z.log2_unique (2 * half - 1) m); [lia..|].
  rewrite Z.pow_succ_r by lia. pose proof half_pos. lia.
Qed.

Lemma mask_pos : 0 < sub_bucket_mask h.
Proof.
  destruct G. rewrite g_mask0.
  assert (2 <= 2 ^ (m + 1)) by (rewrite Z.pow_add_r by lia; pose proof half_pos; lia).
  pose proof (Z.pow_pos_nonneg 2 um). nia.
Qed.

Lemma bucket_of_range v : trackable h v -> 0 <= bucket_of h v < bc.
Proof.
  intros Hv. unfold bucket_of. destruct G. split; [lia|].
  destruct (Z.eq_dec v 0) as [->|Hv0]; [cbn; lia|].
  assert (Z.log2 v < um + m + bc) by (apply Z.log2_lt_pow2; unfold trackable in Hv; lia).
  lia.
Qed.

Lemma value_lt_pow2 n v : 0 < n -> Z.log2 v < n -> v < 2 ^ n.
Proof.
  intros Hn Hl. destruct (Z.lt_ge_cases 0 v) as [Hp|]; [|pose proof (Z.pow_pos_nonneg 2 n); lia].
  by apply Z.log2_lt_pow2.
Qed.

(** The sub-bucket is below the count, and in every bucket but the first
    it is in the upper half. *)
Lemma sub_of_range v : trackable h v ->
  0 <= sub_of h v < 2 * half /\ (bucket_of h v = 0 \/ half <= sub_of h v).
Proof.
  intros Hv. pose proof (bucket_of_range v Hv) as Hb. destruct G.
  pose proof (width_pos (bucket_of h v) ltac:(lia)) as Hw.
  unfold sub_of. unfold trackable in Hv.
  assert (2 * half * width_of h (bucket_of h v) = 2 ^ (m + 1 + bucket_of h v + um)) as Hup.
  { unfold width_of. rewrite !Z.pow_add_r by lia. lia. }
  assert (v < 2 * half * width_of h (bucket_of h v)).
  { rewrite Hup. apply value_lt_pow2; unfold bucket_of in *; lia. }
  split; [split|].
  - apply Z.div_pos; lia.
  - apply Z.div_lt_upper_bound; lia.
  - destruct (Z.eq_dec (bucket_of h v) 0) as [|Hne]; [by left|right].
    apply Z.div_le_lower_bound; [done|].
    replace (width_of h (bucket_of h v) * half) with (2 ^ (Z.log2 v)).
    + apply Z.log2_spec. destruct (Z.eq_dec v 0) as [->|]; [|lia].
      unfold bucket_of in Hne. cbn in Hne. lia.
    + unfold width_of. rewrite <- Z.pow_add_r by lia.
      f_equal. unfold bucket_of in *. lia.
Qed.

Lemma trackable_63 v : trackable h v -> 0 <= v < 2 ^ 62.
Proof.
  unfold trackable. intros Hv. destruct G.
  pose proof (Z.pow_le_mono_r 2 (um + m + bc) 62 ltac:(lia) ltac:(lia)). lia.
Qed.

Lemma half_31 : 2 * half < 2 ^ 31.
Proof. destruct G. pose proof half_pos. nia. Qed.

Lemma get_bucket_index_eq v : trackable h v -> get_bucket_index h v = bucket_of h v.
Proof.
  intros Hv. pose proof (bucket_of_range v Hv). pose proof (trackable_63 v Hv).
  pose proof mask_pos. pose proof log2_mask as Hlm. destruct G.
  assert (Z.log2 (Z.lor v (sub_bucket_mask h)) = Z.max (Z.log2 v) (um + m)) as Hl
    by (rewrite Z.log2_lor by lia; lia).
  assert (um + m < 62) by lia.
  assert (Z.log2 v < 62).
  { destruct (Z.eq_dec v 0) as [->|]; [cbn; lia|]. apply Z.log2_lt_pow2; lia. }
  assert (0 <= Z.lor v (sub_bucket_mask h)) by (apply Z.lor_nonneg; lia).
  assert (Z.lor v (sub_bucket_mask h) < 2 ^ 64).
  { apply value_lt_pow2; lia. }
  unfold get_bucket_index, clzll. rewrite uwrap_id, Hl by lia.
  rewrite swrap_id; unfold bucket_of; lia.
Qed.

Lemma get_sub_bucket_index_eq v : trackable h v ->
  get_sub_bucket_index v (bucket_of h v) um = sub_of h v.
Proof.
  intros Hv. pose proof (bucket_of_range v Hv). pose proof (sub_of_range v Hv).
  pose proof half_31. unfold get_sub_bucket_index.
  rewrite Z.shiftr_div_pow2 by (destruct G; lia).
  fold (width_of h (bucket_of h v)). fold (sub_of h v). apply swrap_id; cbn; lia.
Qed.

(** A bucket and sub-bucket that address a counter. *)
Definition valid_slot (b s : Z) : Prop :=
  0 <= b < bc /\ 0 <= s < 2 * half /\ (b = 0 \/ half <= s).

Lemma valid_slot_of v : trackable h v -> valid_slot (bucket_of h v) (sub_of h v).
Proof.
  intros Hv. pose proof (bucket_of_range v Hv). pose proof (sub_of_range v Hv).
  unfold valid_slot. tauto.
Qed.

Lemma slot_index_range b s : valid_slot b s -> 0 <= b * half + s < counts_len h.
Proof. intros (?&?&?). destruct G. pose proof half_pos. nia. Qed.

Lemma counts_index_eq b s : valid_slot b s -> counts_index h b s = Ret (b * half + s).
Proof.
  intros Hs. pose proof (slot_index_range b s Hs) as Hr. destruct Hs as (?&?&?).
  unfold counts_index.
  rewrite (proj2 (Z.ltb_lt b bc)) by lia.
  rewrite (proj2 (Z.ltb_lt s _)) by (rewrite count_double; lia).
  rewrite (proj2 (orb_true_iff _ _))
    by (rewrite Z.eqb_eq, Z.leb_le, (g_half h G); lia).
  cbn [assert mbind res_bind]. rewrite Z.shiftl_mul_pow2 by (destruct G; lia).
  rewrite (g_half h G). pose proof half_pos. pose proof half_31.
  pose proof (g_len h G). pose proof (g_len32 h G).
  rewrite (swrap_id 32 ((b + 1) * half)) by (cbn; nia).
  rewrite (swrap_id 32 (s - half)) by (cbn; lia).
  rewrite (swrap_id 32) by (cbn; nia). f_equal. lia.
Qed.

Lemma counts_index_for_eq v : trackable h v -> counts_index_for h v = Ret (index_of h v).
Proof.
  intros Hv. unfold counts_index_for.
  rewrite get_bucket_index_eq, get_sub_bucket_index_eq by done.
  by apply counts_index_eq, valid_slot_of.
Qed.

Lemma index_of_range v : trackable h v -> 0 <= index_of h v < counts_len h.
Proof. intros Hv. by apply slot_index_range, valid_slot_of. Qed.

Lemma width_le_pow2 b : 0 <= b < bc -> width_of h b <= 2 ^ 30.
Proof. intros. destruct G. apply Z.pow_le_mono_r; lia. Qed.

(** A class ends at or before the trackable bound. *)
Lemma slot_value_bound b s : valid_slot b s ->
  0 <= s * width_of h b /\ (s + 1) * width_of h b <= 2 ^ (um + m + bc).
Proof.
  intros (?&?&?). pose proof (width_pos b ltac:(lia)). split; [nia|].
  destruct G.
  assert (width_of h b * 2 ^ (bc - 1 - b) * (2 * half) = 2 ^ (um + m + bc)) as <-.
  { unfold width_of. change 2 with (2 ^ 1) at 3. rewrite <- !Z.pow_add_r by lia. f_equal. lia. }
  pose proof (Z.pow_pos_nonneg 2 (bc - 1 - b) ltac:(lia) ltac:(lia)).
  transitivity (width_of h b * 1 * (2 * half)); [nia|].
  apply Z.mul_le_mono_nonneg_r; [pose proof half_pos; lia|].
  apply Z.mul_le_mono_nonneg_l; lia.
Qed.

Lemma slot_value_64 b s : valid_slot b s -> 0 <= s * width_of h b /\ (s + 1) * width_of h b <= 2 ^ 62.
Proof.
  intros Hs. pose proof (slot_value_bound b s Hs).
  pose proof (Z.pow_le_mono_r 2 (um + m + bc) 62 ltac:(lia) ltac:(destruct G; lia)). lia.
Qed.

Lemma value_from_index_eq b s : valid_slot b s -> value_from_index b s um = s * width_of h b.
Proof.
  intros Hs. pose proof (slot_value_64 b s Hs). pose proof (width_pos b ltac:(destruct Hs; lia)).
  unfold value_from_index. rewrite Z.shiftl_mul_pow2 by (destruct G, Hs; lia).
  fold (width_of h b). apply swrap_id; lia.
Qed.

Lemma lowest_equivalent_value_eq v : trackable h v ->
  lowest_equivalent_value h v = sub_of h v * width_of h (bucket_of h v).
Proof.
  intros Hv. unfold lowest_equivalent_value.
  rewrite get_bucket_index_eq, get_sub_bucket_index_eq by done.
  by apply value_from_index_eq, valid_slot_of.
Qed.

Lemma size_of_equivalent_value_range_eq v : trackable h v ->
  size_of_equivalent_value_range h v = Ret (width_of h (bucket_of h v)).
Proof.
  intros Hv. pose proof (valid_slot_of v Hv) as (Hb&Hs&_).
  unfold size_of_equivalent_value_range.
  rewrite get_bucket_index_eq, get_sub_bucket_index_eq by done.
  rewrite count_double, (proj2 (Z.leb_gt _ _)) by lia.
  unfold int_one_shl. destruct G.
  rewrite (proj2 (Z.leb_le _ _)), (proj2 (Z.ltb_lt _ _)) by lia. cbn [andb].
  rewrite Z.shiftl_1_l. unfold width_of. do 2 f_equal. lia.
Qed.

Lemma highest_equivalent_value_eq v : trackable h v ->
  highest_equivalent_value h v =
    Ret (sub_of h v * width_of h (bucket_of h v) + width_of h (bucket_of h v) - 1).
Proof.
  intros Hv. pose proof (slot_value_64 _ _ (valid_slot_of v Hv)).
  pose proof (width_pos (bucket_of h v) ltac:(pose proof (bucket_of_range v Hv); lia)).
  unfold highest_equivalent_value, next_non_equivalent_value.
  rewrite size_of_equivalent_value_range_eq, lowest_equivalent_value_eq by done.
  cbn [mbind res_bind]. rewrite (swrap_id 64 (_ + _)) by lia.
  rewrite swrap_id by lia. done.
Qed.

Lemma median_equivalent_value_eq v : trackable h v ->
  median_equivalent_value h v =
    Ret (sub_of h v * width_of h (bucket_of h v) + width_of h (bucket_of h v) / 2).
Proof.
  intros Hv. pose proof (slot_value_64 _ _ (valid_slot_of v Hv)).
  pose proof (width_pos (bucket_of h v) ltac:(pose proof (bucket_of_range v Hv); lia)).
  unfold median_equivalent_value.
  rewrite size_of_equivalent_value_range_eq, lowest_equivalent_value_eq by done.
  cbn [mbind res_bind]. rewrite Z.shiftr_div_pow2, Z.pow_1_r by lia.
  pose proof (Z.div_le_upper_bound (width_of h (bucket_of h v)) 2 (width_of h (bucket_of h v))).
  pose proof (Z.div_pos (width_of h (bucket_of h v)) 2).
  rewrite swrap_id by lia. done.
Qed.

(** *** Counters and classes of values *)

Lemma index_slot i : 0 <= i < counts_len h -> valid_slot (index_bucket h i) (index_sub h i).
Proof.
  intros Hi. pose proof half_pos. pose proof (g_len h G).
  pose proof (Z.div_mod i half ltac:(lia)). pose proof (Z.mod_pos_bound i half ltac:(lia)).
  pose proof (Z.div_pos i half ltac:(lia) ltac:(lia)).
  assert (i / half < bc + 1) by (apply Z.div_lt_upper_bound; lia).
  pose proof (g_buckets h G).
  unfold valid_slot, index_sub, index_bucket.
  destruct (Z.max_spec 0 (i / half - 1)) as [[? ->]|[? ->]]; nia.
Qed.

Lemma index_slot_eq b s : valid_slot b s ->
  index_bucket h (b * half + s) = b /\ index_sub h (b * half + s) = s.
Proof.
  intros (?&?&?). pose proof half_pos.
  assert (index_bucket h (b * half + s) = b) as Hb.
  { unfold index_bucket. rewrite Z.div_add_l by lia.
    destruct (Z.lt_ge_cases s half).
    - rewrite (Z.div_small s half) by lia. lia.
    - rewrite <- (Z.div_unique s half 1 (s - half)) by lia. lia. }
  split; [done|]. unfold index_sub. rewrite Hb. lia.
Qed.

Lemma index_of_slot v : trackable h v ->
  index_bucket h (index_of h v) = bucket_of h v /\ index_sub h (index_of h v) = sub_of h v.
Proof. intros Hv. by apply index_slot_eq, valid_slot_of. Qed.

Lemma lowest_index v : trackable h v ->
  lowest_equivalent_value h v = index_value h (index_of h v).
Proof.
  intros Hv. rewrite lowest_equivalent_value_eq by done.
  unfold index_value. by destruct (index_of_slot v Hv) as [-> ->].
Qed.

Lemma highest_index v : trackable h v ->
  highest_equivalent_value h v =
    Ret (index_value h (index_of h v) + index_width h (index_of h v) - 1).
Proof.
  intros Hv. rewrite highest_equivalent_value_eq by done.
  unfold index_value, index_width. by destruct (index_of_slot v Hv) as [-> ->].
Qed.

Lemma in_own_class v : trackable h v ->
  index_value h (index_of h v) <= v < index_value h (index_of h v) + index_width h (index_of h v).
Proof.
  intros Hv. unfold index_value, index_width. destruct (index_of_slot v Hv) as [-> ->].
  pose proof (width_pos (bucket_of h v) ltac:(pose proof (bucket_of_range v Hv); lia)).
  unfold sub_of. pose proof (Z.div_mod v (width_of h (bucket_of h v)) ltac:(lia)).
  pose proof (Z.mod_pos_bound v (width_of h (bucket_of h v)) ltac:(lia)). lia.
Qed.

Lemma bucket_of_slot b s v : valid_slot b s ->
  s * width_of h b <= v < (s + 1) * width_of h b -> bucket_of h v = b.
Proof.
  intros (Hb&Hs&Hor) Hv. pose proof half_pos. pose proof (width_pos b ltac:(lia)).
  assert (v < 2 ^ (m + 1 + (b + um))) as Hlt.
  { rewrite Z.pow_add_r, Z.pow_add_r, Z.pow_1_r by (destruct G; lia).
    fold (width_of h b). nia. }
  unfold bucket_of. destruct Hor as [->|Hge].
  - destruct (Z.eq_dec v 0) as [->|]; [destruct G; cbn; lia|].
    assert (Z.log2 v < m + 1 + (0 + um)) by (apply Z.log2_lt_pow2; nia). lia.
  - assert (2 ^ (m + (b + um)) <= v).
    { rewrite Z.pow_add_r by (destruct G; lia). fold (width_of h b). nia. }
    rewrite (Z.log2_unique v (m + (b + um))); [destruct G; lia..|].
    split; [done|]. replace (Z.succ _) with (m + 1 + (b + um)) by lia. done.
Qed.

(** The values of a counter are exactly those of its interval. *)
Lemma index_of_iff i v : 0 <= i < counts_len h ->
  index_value h i <= v < index_value h i + index_width h i <->
  trackable h v /\ index_of h v = i.
Proof.
  intros Hi. pose proof (index_slot i Hi) as Hs. split.
  - intros Hv. unfold index_value, index_width in Hv.
    pose proof (bucket_of_slot _ _ v Hs ltac:(lia)) as Hb.
    pose proof (slot_value_bound _ _ Hs). split; [unfold trackable; lia|].
    unfold index_of, sub_of. rewrite Hb.
    rewrite <- (Z.div_unique v (width_of h (index_bucket h i)) (index_sub h i)
                  (v - index_sub h i * width_of h (index_bucket h i))) by lia.
    unfold index_sub. lia.
  - intros [Hv <-]. by apply in_own_class.
Qed.

Lemma index_value_trackable i : 0 <= i < counts_len h ->
  trackable h (index_value h i) /\ index_of h (index_value h i) = i.
Proof.
  intros Hi. apply index_of_iff; [done|].
  pose proof (width_pos (index_bucket h i) ltac:(pose proof (index_slot i Hi) as []; lia)).
  unfold index_width. lia.
Qed.

Lemma bucket_of_mono v w : v <= w -> bucket_of h v <= bucket_of h w.
Proof. intros Hvw. pose proof (Z.log2_le_mono v w Hvw). unfold bucket_of. lia. Qed.

Lemma index_of_mono v w : trackable h v -> trackable h w -> v <= w ->
  index_of h v <= index_of h w.
Proof.
  intros Hv Hw Hvw. pose proof (bucket_of_mono v w Hvw) as Hm.
  pose proof (valid_slot_of v Hv) as (?&?&?). pose proof (valid_slot_of w Hw) as (?&?&?).
  pose proof half_pos. unfold index_of.
  destruct (Z.eq_dec (bucket_of h v) (bucket_of h w)) as [Heq|Hne]; [|nia].
  unfold sub_of in *. rewrite Heq in *.
  pose proof (Z.div_le_mono v w _ (width_pos (bucket_of h w) ltac:(lia)) Hvw). lia.
Qed.

Lemma index_value_mono i j : 0 <= i -> i < j -> j < counts_len h ->
  index_value h i + index_width h i <= index_value h j.
Proof.
  intros Hi Hij Hj. destruct (index_value_trackable i ltac:(lia)) as [Hti Hii].
  destruct (index_value_trackable j ltac:(lia)) as [Htj Hij'].
  destruct (Z.le_gt_cases (index_value h i + index_width h i) (index_value h j)); [done|].
  exfalso. destruct (Z.le_gt_cases (index_value h i) (index_value h j)).
  - destruct (proj1 (index_of_iff i (index_value h j) ltac:(lia))); lia.
  - pose proof (index_of_mono _ _ Htj Hti ltac:(lia)). lia.
Qed.

(** [increment_bucket] steps to the next counter. *)
Lemma increment_bucket_eq i : -1 <= i < counts_len h ->
  increment_bucket h (index_bucket h i) (index_sub h i) =
    (index_bucket h (i + 1), index_sub h (i + 1)).
Proof.
  intros Hi. pose proof half_pos. pose proof half_31. pose proof (g_len h G).
  pose proof (g_int_shift h G). pose proof (g_unit h G). pose proof (g_buckets h G).
  pose proof (Z.div_mod i half ltac:(lia)). pose proof (Z.mod_pos_bound i half ltac:(lia)).
  assert (i / half < bc + 1) by (apply Z.div_lt_upper_bound; lia).
  assert (-1 <= i / half) by (apply Z.div_le_lower_bound; lia).
  pose proof (Z.div_mod (i + 1) half ltac:(lia)).
  pose proof (Z.mod_pos_bound (i + 1) half ltac:(lia)).
  assert (i / half <= (i + 1) / half <= i / half + 1) by nia.
  unfold increment_bucket. rewrite count_double, (g_half h G).
  assert (index_sub h i = i - index_bucket h i * half) as Hs by done.
  assert (-1 <= index_sub h i < 2 * half) by (unfold index_sub, index_bucket; nia).
  assert (0 <= index_bucket h i <= bc) by (unfold index_bucket; lia).
  rewrite (swrap_id 32 (index_sub h i + 1)) by (cbn; lia).
  rewrite (swrap_id 32 (index_bucket h i + 1)) by (cbn; lia).
  destruct (Z.leb_spec (2 * half) (index_sub h i + 1)).
  - assert (index_bucket h (i + 1) = index_bucket h i + 1) as Hb
      by (unfold index_sub, index_bucket in *; nia).
    unfold index_sub in *. rewrite Hb. f_equal. lia.
  - assert (index_bucket h (i + 1) = index_bucket h i) as Hb
      by (unfold index_sub, index_bucket in *; nia).
    unfold index_sub in *. rewrite Hb. f_equal. lia.
Qed.

Lemma index_bucket_end : index_bucket h (counts_len h) = bc.
Proof.
  unfold index_bucket. rewrite (g_len h G), Z.div_mul by (pose proof half_pos; lia).
  pose proof (g_buckets h G). lia.
Qed.
End geometry.

(** * What a histogram holds

    [represents h xs]: the counters are the tallies of the list [xs] of
    recorded values, the abstract state of the component. *)

Definition cell (h : hdr_histogram) (xs : list Z) (i : Z) : Z :=
  Z.of_nat (length (filter (fun x => index_of h x = i) xs)).

Definition below (h : hdr_histogram) (xs : list Z) (i : Z) : Z :=
  Z.of_nat (length (filter (fun x => index_of h x < i) xs)).

Record represents (h : hdr_histogram) (xs : list Z) : Prop := {
  r_geom : hdr_geom h;
  r_track : Forall (trackable h) xs;
  r_len : Z.of_nat (length (counts h)) = counts_len h;
  r_cell : forall i, 0 <= i < counts_len h -> counts h !! Z.to_nat i = Some (cell h xs i);
  r_total : total_count h = Z.of_nat (length xs);
  r_total64 : Z.of_nat (length xs) < 2 ^ 63;
}.

Definition iter_at (h : hdr_histogram) (xs : list Z) (i : Z) : hdr_iter :=
  {| it_bucket_index := index_bucket h i;
     it_sub_bucket_index := index_sub h i;
     it_count_at_index := cell h xs i;
     it_count_to_index := below h xs (i + 1);
     it_value_from_index := index_value h i;
     it_highest_equivalent_value := index_value h i + index_width h i - 1 |}.

(** [it] has just visited counter [i] ([-1]: none yet). *)
Definition visited (h : hdr_histogram) (xs : list Z) (i : Z) (it : hdr_iter) : Prop :=
  it_bucket_index it = index_bucket h i /\ it_sub_bucket_index it = index_sub h i /\
  it_count_to_index it = below h xs (i + 1).

Section contents.
Context (h : hdr_histogram) (xs : list Z) (R : represents h xs).

Lemma below_succ i : below h xs (i + 1) = below h xs i + cell h xs i.
Proof.
  clear R. unfold below, cell. induction xs as [|x l IH]; [done|].
  rewrite !filter_cons. repeat case_decide; cbn [length]; lia.
Qed.

Lemma below_le_total i : 0 <= below h xs i <= Z.of_nat (length xs).
Proof.
  unfold below. pose proof (length_filter (fun x => index_of h x < i) xs). lia.
Qed.

Lemma below_mono i j : i <= j -> below h xs i <= below h xs j.
Proof.
  clear R. intros Hij. unfold below. induction xs as [|x l IH]; [done|].
  rewrite !filter_cons. repeat case_decide; cbn [length]; lia.
Qed.

Lemma cell_nonneg i : 0 <= cell h xs i.
Proof. unfold cell. lia. Qed.

Lemma below_0 : below h xs 0 = 0.
Proof.
  destruct R as [G T _ _ _ _]. unfold below. clear R. induction T as [|x l Hx _ IH]; [done|].
  rewrite filter_cons. pose proof (index_of_range h G x Hx). case_decide; [lia|done].
Qed.

Lemma below_len : below h xs (counts_len h) = Z.of_nat (length xs).
Proof.
  destruct R as [G T _ _ _ _]. unfold below. clear R. induction T as [|x l Hx _ IH]; [done|].
  rewrite filter_cons. pose proof (index_of_range h G x Hx). case_decide; cbn [length]; lia.
Qed.

Lemma visited_init : visited h xs (-1) hdr_iter_init.
Proof.
  pose proof (half_pos h (r_geom h xs R)).
  assert (index_bucket h (-1) = 0) as Hb.
  { unfold index_bucket.
    pose proof (Z.div_lt_upper_bound (-1) (2 ^ sub_bucket_half_count_magnitude h) 1). lia. }
  unfold visited, index_sub. rewrite Hb. cbn [it_bucket_index it_sub_bucket_index it_count_to_index hdr_iter_init]. change (-1 + 1) with 0. by rewrite below_0.
Qed.

Lemma visited_at i : visited h xs i (iter_at h xs i).
Proof. done. Qed.

Lemma get_count_at_index_eq i : 0 <= i < counts_len h ->
  get_count_at_index h (index_bucket h i) (index_sub h i) = Ret (cell h xs i).
Proof.
  intros Hi. destruct R as [G _ _ C _ _]. unfold get_count_at_index.
  rewrite (counts_index_eq h G) by by apply index_slot.
  cbn [mbind res_bind]. unfold index_sub.
  replace (_ * _ + _) with i by lia.
  unfold aget. rewrite (proj2 (Z.leb_le _ _)) by lia. by rewrite C.
Qed.

Lemma move_next_eq i it : -1 <= i -> i + 1 < counts_len h -> visited h xs i it ->
  move_next h it = Ret (true, iter_at h xs (i + 1)).
Proof.
  intros Hi Hl (Eb&Es&Ec). pose proof (r_geom h xs R) as G. unfold move_next.
  rewrite Eb, Es, increment_bucket_eq by (done || lia).
  pose proof (index_slot h G (i + 1) ltac:(lia)) as Hs.
  unfold has_buckets. cbn [it_bucket_index it_count_to_index].
  rewrite (proj2 (Z.ltb_lt _ _)) by (destruct Hs; lia). cbn [negb].
  rewrite get_count_at_index_eq by lia. cbn [mbind res_bind].
  rewrite (value_from_index_eq h G _ _ Hs). fold (index_value h (i + 1)).
  destruct (index_value_trackable h G (i + 1) ltac:(lia)) as [Ht Hidx].
  rewrite (highest_index h G _ Ht), Hidx. cbn [mbind res_bind].
  rewrite Ec, <- below_succ, swrap_id; [done..|].
  pose proof (below_le_total (i + 1 + 1)). pose proof (r_total64 h xs R). lia.
Qed.

Lemma hdr_iter_next_more i it : -1 <= i -> visited h xs i it ->
  below h xs (i + 1) < Z.of_nat (length xs) ->
  i + 1 < counts_len h /\ hdr_iter_next h it = Ret (true, iter_at h xs (i + 1)).
Proof.
  intros Hi Hv Hlt. assert (i + 1 < counts_len h) as Hl.
  { destruct (Z.lt_ge_cases (i + 1) (counts_len h)); [done|].
    pose proof (below_mono (counts_len h) (i + 1) ltac:(lia)). rewrite below_len in *. lia. }
  split; [done|]. unfold hdr_iter_next, has_next.
  pose proof Hv as (_&_&->). rewrite (r_total h xs R), (proj2 (Z.ltb_lt _ _)) by lia.
  cbn [negb]. by rewrite (move_next_eq i it) by done.
Qed.

Lemma hdr_iter_next_done i it : visited h xs i it ->
  Z.of_nat (length xs) <= below h xs (i + 1) -> hdr_iter_next h it = Ret (false, it).
Proof.
  intros (_&_&Hc) Hge. unfold hdr_iter_next, has_next.
  rewrite Hc, (r_total h xs R), (proj2 (Z.ltb_ge _ _)) by lia. done.
Qed.

(** The loop rule: an invariant [P i s] before counter [i] is visited, a
    postcondition [Q] on leaving by [break] or when all values are seen. *)
Lemma iter_while_rule {S} (body : hdr_iter -> S -> res (bool * S))
    (P : Z -> S -> Prop) (Q : S -> Prop) s0 :
  P 0 s0 ->
  (forall i s, 0 <= i < counts_len h -> below h xs i < Z.of_nat (length xs) -> P i s ->
     exists b s', body (iter_at h xs i) s = Ret (b, s') /\
                  if (b : bool) then Q s' else P (i + 1) s') ->
  (forall i s, 0 <= i <= counts_len h -> below h xs i = Z.of_nat (length xs) -> P i s -> Q s) ->
  exists it s, iter_while (iter_fuel h) h body hdr_iter_init s0 = Ret (it, s) /\ Q s.
Proof.
  intros P0 Hstep Hend. pose proof (below_len) as Hbl.
  assert (forall fuel i it s, -1 <= i < counts_len h -> counts_len h - i <= Z.of_nat fuel ->
     visited h xs i it -> P (i + 1) s ->
     exists it' s', iter_while fuel h body it s = Ret (it', s') /\ Q s') as Hgo.
  { induction fuel as [|fuel IH]; intros i it s Hi Hf Hv HP; [lia|]. cbn [iter_while].
    destruct (Z.lt_ge_cases (below h xs (i + 1)) (Z.of_nat (length xs))) as [Hlt|Hge].
    - destruct (hdr_iter_next_more i it ltac:(lia) Hv Hlt) as [Hl ->].
      cbn [mbind res_bind negb].
      destruct (Hstep (i + 1) s ltac:(lia) Hlt HP) as (b&s'&->&Hb).
      cbn [mbind res_bind]. destruct b; [by eauto|].
      apply (IH (i + 1)); [lia|lia|done|done].
    - rewrite (hdr_iter_next_done i it Hv Hge). cbn. pose proof (below_le_total (i + 1)).
      eexists _, _. split; [done|]. apply (Hend (i + 1)); [lia|lia|done]. }
  pose proof (r_len h xs R). apply (Hgo _ (-1)); [lia| |apply visited_init|done].
  unfold iter_fuel. lia.
Qed.
End contents.

(** * Recording refines adding a value to the abstract list *)

Lemma geom_set_counts h t cs : hdr_geom h -> hdr_geom (set_counts h t cs).
Proof. by intros []. Qed.

Lemma cell_app h xs ys i : cell h (xs ++ ys) i = cell h xs i + cell h ys i.
Proof. unfold cell. rewrite filter_app, length_app. lia. Qed.

Lemma cell_replicate h n v i :
  cell h (replicate n v) i = if decide (index_of h v = i) then Z.of_nat n else 0.
Proof.
  unfold cell. induction n as [|n IH]; cbn [replicate]; [by case_decide|].
  rewrite filter_cons. case_decide; cbn [length]; lia.
Qed.

Lemma cell_le h xs i : 0 <= cell h xs i <= Z.of_nat (length xs).
Proof. unfold cell. pose proof (length_filter (fun x => index_of h x = i) xs). lia. Qed.

(** Adding [n] copies of [v] to the counters. *)
Lemma represents_add h xs v n :
  represents h xs -> trackable h v -> Z.of_nat (length xs) + Z.of_nat n < 2 ^ 63 ->
  represents
    (set_counts h (total_count h + Z.of_nat n)
       (<[Z.to_nat (index_of h v) := cell h xs (index_of h v) + Z.of_nat n]> (counts h)))
    (xs ++ replicate n v).
Proof.
  intros [G T L C Tot B] Hv Hn. pose proof (index_of_range h G v Hv) as Hi.
  constructor; cbn [counts total_count set_counts counts_len].
  - by apply geom_set_counts.
  - apply Forall_app_2; [done|]. by apply Forall_replicate.
  - by rewrite length_insert.
  - intros i Hr. change (cell (set_counts h _ _)) with (cell h).
    rewrite cell_app, cell_replicate.
    destruct (decide (index_of h v = i)) as [<-|Hne].
    + apply list_lookup_insert_eq. lia.
    + rewrite list_lookup_insert_ne by lia. rewrite C by done. f_equal. lia.
  - rewrite length_app, length_replicate. lia.
  - rewrite length_app, length_replicate. lia.
Qed.

Lemma hdr_record_values_eq h xs v n :
  represents h xs -> trackable h v -> Z.of_nat (length xs) + Z.of_nat n < 2 ^ 63 ->
  hdr_record_values h v (Z.of_nat n) =
    Ret (true, set_counts h (total_count h + Z.of_nat n)
       (<[Z.to_nat (index_of h v) := cell h xs (index_of h v) + Z.of_nat n]> (counts h))).
Proof.
  intros R Hv Hn. pose proof R as [G T L C Tot B]. pose proof (index_of_range h G v Hv) as Hi.
  unfold hdr_record_values. rewrite (counts_index_for_eq h G) by done. cbn [mbind res_bind].
  rewrite (proj2 (Z.ltb_ge _ 0)), (proj2 (Z.leb_gt _ _)) by lia. cbn [orb].
  unfold aget. rewrite (proj2 (Z.leb_le 0 _)) by lia. rewrite C by done. cbn [of_option mbind res_bind].
  rewrite <- (Z2Nat.id (index_of h v)) at 1 by lia. rewrite aset_in by lia. cbn [mbind res_bind].
  pose proof (cell_le h xs (index_of h v)).
  rewrite !swrap_id by lia. done.
Qed.

Lemma hdr_record_value_values h v : hdr_record_value h v = hdr_record_values h v 1.
Proof. done. Qed.

Lemma hdr_record_value_step h xs v :
  represents h xs -> trackable h v -> Z.of_nat (length xs) + 1 < 2 ^ 63 ->
  exists cs, hdr_record_value h v = Ret (true, set_counts h (total_count h + 1) cs) /\
             represents (set_counts h (total_count h + 1) cs) (xs ++ [v]).
Proof.
  intros R Hv Hn. rewrite hdr_record_value_values. change 1 with (Z.of_nat 1).
  rewrite (hdr_record_values_eq h xs) by done.
  eexists. split; [done|]. by apply represents_add.
Qed.

(** The values [hdr_record_corrected_value] adds after [value]. *)
Fixpoint backfill (fuel : nat) (missing interval : Z) : list Z :=
  match fuel with
  | O => []
  | S fuel => if interval <=? missing then missing :: backfill fuel (missing - interval) interval
              else []
  end.

Lemma corrected_loop_spec fuel h xs missing interval :
  represents h xs -> 0 < interval -> missing <= Z.of_nat fuel -> 0 <= missing -> trackable h missing ->
  Z.of_nat (length xs) + missing < 2 ^ 63 ->
  exists t cs, corrected_loop fuel h missing interval = Ret (true, set_counts h t cs) /\
    represents (set_counts h t cs) (xs ++ backfill fuel missing interval).
Proof.
  intros R Hint. revert h xs missing R.
  induction fuel as [|fuel IH]; intros h xs missing R Hf Hm Ht Hb; cbn [corrected_loop backfill].
  - rewrite (proj2 (Z.leb_gt _ _)) by lia. exists (total_count h), (counts h).
    rewrite app_nil_r. by destruct h.
  - destruct (Z.leb_spec interval missing).
    + destruct (hdr_record_value_step h xs missing R Ht ltac:(lia)) as (cs&->&R').
      cbn [mbind res_bind negb].
      destruct (IH _ (xs ++ [missing]) (missing - interval) R') as (t&cs'&Hrun&R''); try lia.
      * unfold trackable in *. cbn in *. lia.
      * rewrite length_app. cbn. lia.
      * exists t, cs'. split; [exact Hrun|]. rewrite <- app_assoc in R''. exact R''.
    + exists (total_count h), (counts h). rewrite app_nil_r. by destruct h.
Qed.

(** * Initialisation *)

Lemma buckets_loop_spec fuel mask highest j J :
  0 < mask -> 0 <= j <= J -> J <= 62 -> highest <= mask * 2 ^ J -> mask * 2 ^ J < 2 ^ 63 ->
  J - j <= Z.of_nat fuel ->
  exists n, buckets_loop fuel (mask * 2 ^ j) highest (j + 1) = Ret n /\
    j + 1 <= n <= J + 1 /\ highest <= mask * 2 ^ (n - 1).
Proof.
  intros Hm. revert j. induction fuel as [|fuel IH]; intros j Hj HJ Hh H63 Hf; cbn [buckets_loop].
  - replace J with j in * by lia. destruct (Z.ltb_spec (mask * 2 ^ j) highest); [lia|].
    exists (j + 1). replace (j + 1 - 1) with j by lia. split_and!; done || lia.
  - destruct (Z.ltb_spec (mask * 2 ^ j) highest) as [Hlt|Hge].
    + assert (j < J) as HjJ by (destruct (Z.eq_dec j J); [subst; lia|lia]).
      assert (Z.shiftl (mask * 2 ^ j) 1 = mask * 2 ^ (j + 1)) as ->.
      { rewrite Z.shiftl_mul_pow2, Z.pow_add_r by lia. lia. }
      pose proof (Z.pow_le_mono_r 2 (j + 1) J ltac:(lia) ltac:(lia)).
      pose proof (Z.pow_pos_nonneg 2 (j + 1) ltac:(lia) ltac:(lia)).
      rewrite !swrap_id by (cbn; nia).
      destruct (IH (j + 1)) as (n&->&?&?); try lia. exists n. split_and!; done || lia.
    + exists (j + 1). replace (j + 1 - 1) with j by lia. split_and!; done || lia.
Qed.

Lemma figures_cases f : 1 <= f <= 5 ->
  exists m, power 10 f = 10 ^ f /\ Z.log2_up (2 * 10 ^ f) = m + 1 /\ 4 <= m <= 17 /\ 10 ^ f <= 2 ^ m.
Proof.
  intros Hf.
  assert (f = 1 \/ f = 2 \/ f = 3 \/ f = 4 \/ f = 5) as [->|[->|[->|[->| ->]]]] by lia;
    [exists 4|exists 7|exists 10|exists 14|exists 17]; vm_compute; intuition congruence.
Qed.

(** C23: when memory is available and the logarithms of the C library are accurate
    enough, [hdr_init] succeeds on every configuration whose classes fit the
    32-bit arithmetic: one to five figures, a lowest value from 1 to below 2^13, and
    a highest value of at most 2^30 times the sub-bucket range.  The bucket-count
    loop terminates, the new histogram satisfies the size invariants, holds no
    value and can record everything up to [highest_trackable_value].  Beyond these
    bounds the loop may run forever ([hdr_init_max_range_diverges]). *)
Theorem hdr_init_correct `{Log} lowest highest figures :
  1 <= figures <= 5 -> 1 <= lowest < 2 ^ 13 -> 0 <= highest <= (2 * 10 ^ figures - 1) * 2 ^ 30 ->
  exists h, hdr_init true lowest highest figures = Ret (inr h) /\
    represents h [] /\ trackable h highest /\
    highest_trackable_value h = highest /\ lowest_trackable_value h = lowest.
Proof.
  intros Hf Hlo Hhi. destruct (figures_cases figures Hf) as (m&Hpow&Hm&Hmr&Hp).
  set (um := Z.log2 lowest).
  assert (0 <= um < 13) as Hum by (split; [apply Z.log2_nonneg|apply Z.log2_lt_pow2; lia]).
  pose proof (Z.pow_le_mono_r 2 m 17 ltac:(lia) ltac:(lia)) as Hm17.
  assert (2 ^ (m + 1) = 2 * 2 ^ m) as Hm1 by (rewrite Z.pow_add_r by lia; lia).
  assert (1 <= 2 ^ um) by lia.
  pose proof (Z.pow_le_mono_r 2 um 12 ltac:(lia) ltac:(lia)) as Hum12.
  set (mask := (2 ^ (m + 1) - 1) * 2 ^ um).
  assert (0 < mask < 2 ^ 30 + 1) as Hmask by (unfold mask; rewrite Hm1; split; nia).
  assert (mask * 2 ^ (30 - um) = (2 ^ (m + 1) - 1) * 2 ^ 30) as HmJ.
  { unfold mask. rewrite <- Z.mul_assoc, <- Z.pow_add_r by lia. f_equal. f_equal. lia. }
  destruct (buckets_loop_spec 64 mask highest 0 (30 - um)) as (n&Hn&Hnr&Hnh); try lia.
  rewrite Z.pow_0_r, Z.mul_1_r, Z.add_0_l in Hn.
  assert (highest < 2 ^ (um + m + n)) as Htr.
  { replace (um + m + n) with ((m + 1) + (um + (n - 1))) by lia.
    rewrite Z.pow_add_r, (Z.pow_add_r 2 um) by lia.
    pose proof (Z.pow_pos_nonneg 2 (n - 1) ltac:(lia) ltac:(lia)). unfold mask in Hnh. nia. }
  assert ((n + 1) * 2 ^ m < 2 ^ 31) as Hlen by nia.
  unfold hdr_init.
  rewrite (proj2 (Z.ltb_ge figures 1)), (proj2 (Z.ltb_ge 5 figures)) by lia. cbn [orb].
  rewrite Hpow, (log_ceil figures Hf), Hm, (log_floor lowest Hlo). cbn [mbind res_bind]. rewrite (proj2 (Z.ltb_lt 1 (m + 1))) by lia.
  replace (m + 1 - 1) with m by lia.
  rewrite (swrap_id 32 (2 ^ (m + 1))) by (cbn; lia).
  fold um. unfold int_shl. rewrite Z.shiftl_mul_pow2 by lia. fold mask.
  rewrite (proj2 (Z.leb_le 0 um)), (proj2 (Z.ltb_lt um 32)), (proj2 (Z.ltb_lt mask (2 ^ 31))) by lia. cbn [andb mbind res_bind].
  rewrite Hn. cbn [mbind res_bind negb].
  assert (Z.quot (2 ^ (m + 1)) 2 = 2 ^ m) as -> by (rewrite Hm1, Z.mul_comm; apply Z.quot_mul; lia).
  rewrite (swrap_id 32 ((n + 1) * 2 ^ m)) by (cbn; lia).
  eexists. split; [done|]. split_and!; [|unfold trackable; cbn; lia|done|done].
  constructor; cbn [counts total_count counts_len]; [constructor; cbn; (done || lia)|..].
  - constructor.
  - rewrite length_replicate. lia.
  - intros i Hi. rewrite lookup_replicate_2 by lia. done.
  - done.
  - done.
Qed.

(** A logarithm that is as accurate as needed: a whole number for powers of two, and
    half a unit above it otherwise. *)
Definition coarse_log (x : float) : float :=
  match x with
  | S754_finite false m e =>
      let k := Z.log2 (Zpos m) in
      if Zpos m =? 2 ^ k then f_of_Z (k + e) else (f_of_Z (2 * (k + e) + 1) / f_of_Z 2)%F
  | _ => S754_nan
  end.

Lemma coarse_log_table :
  forallb (fun k => let x := Z.of_nat k in
             match to_int 32 (f_floor (coarse_log (f_of_Z x) / coarse_log (f_of_Z 2))%F) with Ret z => z =? Z.log2 x | _ => false end) (seq 1 (Z.to_nat 8191)) = true.
Proof. vm_compute. reflexivity. Qed.

#[export] Instance demo_log : Log.
Proof.
  refine {| log := coarse_log |}.
  - intros x Hx. pose proof (proj1 (forallb_forall _ _) coarse_log_table (Z.to_nat x) ltac:(apply in_seq; lia)) as Hb. cbv beta zeta in Hb.
    rewrite Z2Nat.id in Hb by lia. destruct (to_int _ _) as [z| |]; [|done..]. f_equal. by apply Z.eqb_eq.
  - intros f Hf. assert (f = 1 \/ f = 2 \/ f = 3 \/ f = 4 \/ f = 5) as [->|[->|[->|[->| ->]]]] by lia; vm_compute; reflexivity.
Defined.

(** The configuration of every histogram wrk2 creates. *)
Lemma hdr_init_correct_witness :
  exists h, hdr_init true 1 86400000000 3 = Ret (inr h) /\
    represents h [] /\ trackable h 86400000000 /\
    highest_trackable_value h = 86400000000 /\ lowest_trackable_value h = 1.
Proof. apply hdr_init_correct; vm_compute; intuition congruence. Defined.

(** * Recording *)

(** C22: recording a trackable value returns [true], never touches memory
    outside the counters, and refines appending the value to the abstract
    list of recorded values; the configuration fields do not change. *)
Theorem hdr_record_value_refines h xs v :
  represents h xs -> trackable h v -> Z.of_nat (length xs) + 1 < 2 ^ 63 ->
  exists t cs, hdr_record_value h v = Ret (true, set_counts h t cs) /\
    represents (set_counts h t cs) (xs ++ [v]).
Proof.
  intros R Hv Hn. destruct (hdr_record_value_step h xs v R Hv Hn) as (cs&?&?). by eauto.
Qed.

(** A value above the trackable range makes [counts_index]'s assertion
    fail: [hdr_record_value] aborts the process instead of returning [false]
    as its header documents. *)
Theorem hdr_record_value_above_range_aborts h v :
  hdr_geom h ->
  2 ^ (unit_magnitude h + sub_bucket_half_count_magnitude h + bucket_count h) <= v < 2 ^ 63 ->
  hdr_record_value h v = Abort.
Proof.
  intros G Hv. pose proof (mask_pos h G). pose proof (log2_mask h G) as Hlm.
  pose proof G as [? ? _ _ _ ? ? ? _ _ _].
  assert (0 < v) by (pose proof (Z.pow_pos_nonneg 2 (unit_magnitude h +
    sub_bucket_half_count_magnitude h + bucket_count h)); lia).
  assert (unit_magnitude h + sub_bucket_half_count_magnitude h + bucket_count h <= Z.log2 v)
    by (apply Z.log2_le_pow2; lia).
  assert (Z.log2 v < 63) by (apply Z.log2_lt_pow2; lia).
  assert (Z.log2 (Z.lor v (sub_bucket_mask h)) = Z.log2 v) as Hl
    by (rewrite Z.log2_lor by lia; lia).
  assert (0 <= Z.lor v (sub_bucket_mask h)) by (apply Z.lor_nonneg; lia).
  assert (Z.lor v (sub_bucket_mask h) < 2 ^ 64)
    by (apply value_lt_pow2; lia).
  unfold hdr_record_value, counts_index_for, counts_index.
  assert ((get_bucket_index h v <? bucket_count h) = false) as ->; [|done].
  apply Z.ltb_ge. unfold get_bucket_index, clzll.
  rewrite uwrap_id, Hl by lia. rewrite swrap_id by lia. lia.
Qed.

(** C24: [hdr_record_corrected_value] terminates and records the value and
    the arithmetic progression [value - interval], [value - 2 interval], ...
    down to [interval], the samples lost to coordinated omission. *)
Theorem hdr_record_corrected_value_refines h xs v interval :
  represents h xs -> trackable h v -> Z.of_nat (length xs) + 1 + v < 2 ^ 63 ->
  exists t cs, hdr_record_corrected_value h v interval = Ret (true, set_counts h t cs) /\
    represents (set_counts h t cs)
      (xs ++ v :: if (interval <=? 0) || (v <=? interval) then []
                  else backfill (Z.to_nat v) (v - interval) interval).
Proof.
  intros R Hv Hn. unfold hdr_record_corrected_value.
  assert (0 <= v) by (unfold trackable in Hv; lia).
  destruct (hdr_record_value_step h xs v R Hv ltac:(lia)) as (cs&->&R').
  cbn [mbind res_bind negb].
  destruct (Z.leb_spec interval 0); cbn [orb]; [by eauto|].
  destruct (Z.leb_spec v interval); cbn [orb]; [by eauto|].
  destruct (corrected_loop_spec (Z.to_nat v) _ (xs ++ [v]) (v - interval) interval R')
    as (t&cs'&Hrun&R''); try lia.
  - unfold trackable in *. cbn. lia.
  - rewrite length_app. cbn. lia.
  - exists t, cs'. split; [exact Hrun|]. rewrite <- app_assoc in R''. exact R''.
Qed.

(** The backfilled samples are [v - i, v - 2i, ...] and stop at the interval. *)
Lemma backfill_elem fuel missing interval x :
  0 < interval -> missing <= Z.of_nat fuel ->
  x ∈ backfill fuel missing interval <->
  exists k, 0 <= k /\ x = missing - k * interval /\ interval <= x.
Proof.
  intros Hi. revert missing. induction fuel as [|fuel IH]; intros missing Hf; cbn [backfill].
  - split; [by intros ?%elem_of_nil|]. intros (k&?&->&?). nia.
  - destruct (Z.leb_spec interval missing).
    + rewrite elem_of_cons, IH by lia. split.
      * intros [->|(k&?&->&?)]; [exists 0; lia|exists (k + 1); lia].
      * intros (k&?&->&?). destruct (Z.eq_dec k 0) as [->|]; [left; lia|].
        right. exists (k - 1). lia.
    + split; [by intros ?%elem_of_nil|]. intros (k&?&->&?). nia.
Qed.

(** The counter of a value counts the recorded values of its class. *)
Theorem hdr_count_at_value_correct h xs v :
  represents h xs -> trackable h v ->
  hdr_count_at_value h v =
    Ret (Z.of_nat (length (filter (fun x => hdr_values_are_equivalent h x v = true) xs))).
Proof.
  intros [G T L C _ _] Hv. unfold hdr_count_at_value.
  rewrite (counts_index_for_eq h G) by done. cbn [mbind res_bind].
  pose proof (index_of_range h G v Hv). unfold aget.
  rewrite (proj2 (Z.leb_le 0 _)), C by lia. cbn [of_option]. unfold cell. do 3 f_equal.
  clear C L. induction T as [|x xs Hx _ IH]; [done|]. rewrite !filter_cons, IH.
  assert (index_of h x = index_of h v <-> hdr_values_are_equivalent h x v = true) as Hiff.
  { unfold hdr_values_are_equivalent. rewrite Z.eqb_eq, !lowest_index by done.
    split; [by intros ->|]. intros Heq.
    destruct (index_value_trackable h G (index_of h x) ltac:(by apply index_of_range)) as [_ <-].
    rewrite Heq. apply index_value_trackable; [done|by apply index_of_range]. }
  repeat case_decide; tauto || done.
Qed.

(** * Precision *)

(** C21: a class is an interval around the value it holds, two values are
    equivalent exactly when they are in the same interval, and the interval
    is one unit wide or narrower than [10^-significant_figures] of the value.  The
    unit is the largest power of two that is not above the lowest trackable value:
    with 1, as in wrk2, classes of one unit are exact and every value has the
    requested precision; with a larger lowest value those near it do not
    ([coarse_lowest_class]). *)
Theorem hdr_class_precision h v :
  hdr_geom h -> trackable h v ->
  exists top, highest_equivalent_value h v = Ret top /\
    lowest_equivalent_value h v <= v <= top /\
    (forall w, lowest_equivalent_value h v <= w <= top <->
       trackable h w /\ lowest_equivalent_value h w = lowest_equivalent_value h v) /\
    (top + 1 - lowest_equivalent_value h v = 2 ^ unit_magnitude h \/
     (top + 1 - lowest_equivalent_value h v) * 10 ^ significant_figures h <= v).
Proof.
  intros G Hv. pose proof (index_of_range h G v Hv) as Hi.
  pose proof (in_own_class h G v Hv) as Hin.
  exists (index_value h (index_of h v) + index_width h (index_of h v) - 1).
  rewrite highest_index, lowest_index by done. split_and!; [done|lia|lia| |].
  - intros w. split.
    + intros Hw. destruct (proj1 (index_of_iff h G _ w Hi) ltac:(lia)) as [Ht He].
      split; [done|]. by rewrite lowest_index, He.
    + intros [Ht He]. rewrite lowest_index in He by done.
      pose proof (index_of_range h G w Ht) as Hiw.
      destruct (index_value_trackable h G _ Hi) as [_ H1].
      destruct (index_value_trackable h G _ Hiw) as [_ H2].
      rewrite He in H2. rewrite H2 in H1. pose proof (in_own_class h G w Ht). rewrite <- H1 in *. lia.
  - replace (_ + 1 - _) with (index_width h (index_of h v)) by lia.
    pose proof (valid_slot_of h G v Hv) as (Hb&_&[Hz|Hh]); unfold index_width;
      destruct (index_of_slot h G v Hv) as [-> Hs].
    + left. rewrite Hz. done.
    + right. pose proof (g_precision h G). pose proof (width_pos h G (bucket_of h v) ltac:(lia)).
      transitivity (sub_of h v * width_of h (bucket_of h v)); [nia|].
      rewrite <- (lowest_equivalent_value_eq h G), lowest_index by done. lia.
Qed.

(** * Summaries *)

(** The percentiles a query makes sense for: zero, and the positive numbers but the
    tiniest; infinity and NaN count as 100. *)
Definition percentile_ok (p : float) : Prop :=
  match p with
  | S754_finite s m e => s = false /\ positive_normal m /\ -800 <= e
  | S754_infinity s => s = false
  | _ => True
  end.

(** The percentage that is requested, exactly. *)
Definition percent (p : float) : Q := if (p <? f_of_Z 100)%F then fval p else 100%Q.

Definition hundred : float := S754_finite false (100 * 2 ^ 46) (-46).

Lemma hundred_eq : f_of_Z 100 = hundred.
Proof. vm_compute. reflexivity. Qed.

Lemma requested_spec p :
  percentile_ok p -> let r := if (p <? f_of_Z 100)%F then p else f_of_Z 100 in
  (exists s, r = S754_zero s) /\ (percent p == 0)%Q \/
  exists m e, r = S754_finite false m e /\ positive_normal m /\ -800 <= e <= -46 /\ (percent p == fval r)%Q /\ (0 < fval r /\ fval r <= 100)%Q.
Proof.
  intros Hp. cbv zeta. unfold percent. rewrite hundred_eq in *.
  assert (exists m e, hundred = S754_finite false m e /\ positive_normal m /\ -800 <= e <= -46 /\ (100 == fval hundred)%Q /\ (0 < fval hundred /\ fval hundred <= 100)%Q) as H100.
  { exists (100 * 2 ^ 46)%positive, (-46). split_and!; [reflexivity|by split|lia|lia|vm_compute; reflexivity|vm_compute; reflexivity|vm_compute; discriminate]. }
  destruct (p <? hundred)%F eqn:E; [|right; exact H100]. destruct p as [s|s| |s m e]; [by left; split; [exists s|]|destruct s; done..|done|].
  right. destruct Hp as (-> & Hm & He). exists m, e. unfold hundred, flt, SFltb in E. cbn [SFcompare] in E. unfold positive_normal in *.
  assert (e < -46 \/ e = -46 /\ Zpos m < 100 * 2 ^ 46) as Hlt.
  { destruct (Z.compare_spec e (-46)) as [->|?|?]; [right|by left|done]. split; [done|]. change (Pos.compare_cont Eq ?a ?b) with (Pos.compare a b) in E.
    destruct (Pos.compare_spec m (100 * 2 ^ 46)) as [|Hc|]; [done| |done]. exact Hc. }
  split_and!; [done|lia..|reflexivity| |].
  - cbn [fval]. apply Qmult_lt_0_compat; [|apply pow2_pos]. change 0%Q with (inject_Z 0). rewrite <- Zlt_Qlt. lia.
  - cbn [fval]. apply Qle_trans with (inject_Z (100 * 2 ^ 46) * pow2 (-46))%Q; [|vm_compute; done].
    replace e with ((e + 46) + -46) by lia. rewrite pow2_add, Qmult_assoc. apply Qmult_le_compat_r; [|apply Qlt_le_weak, pow2_pos].
    assert (0 < 2 ^ (- (e + 46))) by (apply Z.pow_pos_nonneg; lia).
    assert (pow2 (e + 46) * inject_Z (2 ^ (- (e + 46))) == 1)%Q as Ed by (rewrite <- pow2_Z, <- pow2_add by lia; by replace (e + 46 + - (e + 46)) with 0 by lia).
    apply (Qmult_le_r _ _ (inject_Z (2 ^ (- (e + 46))))); [change 0%Q with (inject_Z 0); by rewrite <- Zlt_Qlt|].
    rewrite <- Qmult_assoc, Ed, Qmult_1_r, <- inject_Z_mult, <- Zle_Qle. destruct Hlt as [Hlt|[-> ?]]; [|lia].
    assert (2 ^ 1 <= 2 ^ (- (e + 46))) by (apply Z.pow_le_mono_r; lia). lia.
Qed.

(** What the three operations of the query make of a percentage and a total. *)
Lemma rank_rounded m e N :
  positive_normal m -> -800 <= e <= -46 -> 0 < N <= 2 ^ 50 -> (0 < fval (S754_finite false m e) /\ fval (S754_finite false m e) <= 100)%Q ->
  exists m' e', (S754_finite false m e / f_of_Z 100 * f_of_Z N + dec_lit 5 1)%F = S754_finite false m' e' /\
    let rank := (fval (S754_finite false m e) / 100 * inject_Z N)%Q in (rank < fval (S754_finite false m' e') /\ fval (S754_finite false m' e') < rank + 1)%Q.
Proof.
  intros Hm He HN [Hp0 Hp]. set (p := fval _) in *. rewrite hundred_eq. assert (positive_normal (100 * 2 ^ 46)) as H100 by (by split).
  destruct (fdiv_rounded m e (100 * 2 ^ 46) (-46) Hm H100 ltac:(lia)) as (m1 & e1 & E1 & Hm1 & He1 & L1 & U1). fold hundred p in E1, L1, U1. rewrite E1 in *.
  destruct (fval_of_Z N ltac:(lia)) as (mN & eN & EN & HmN & HeN & VN). rewrite EN in *.
  destruct (fmul_rounded m1 e1 mN eN Hm1 HmN ltac:(lia) ltac:(lia)) as (m2 & e2 & E2 & Hm2 & He2 & L2 & U2). rewrite E2 in *.
  assert (dec_lit 5 1 = S754_finite false (2 ^ 52) (-53)) as -> by (vm_compute; reflexivity).
  destruct (fadd_rounded m2 e2 (2 ^ 52) (-53) Hm2 ltac:(by split) ltac:(lia) ltac:(lia)) as (m3 & e3 & E3 & Hm3 & He3 & L3 & U3). rewrite E3 in *.
  exists m3, e3. split; [done|]. cbv zeta. rewrite VN in *.
  assert (fval hundred == 100)%Q as V100 by (vm_compute; reflexivity). rewrite V100 in *.
  assert (fval (S754_finite false (2 ^ 52) (-53)) == 1 # 2)%Q as Vh by (vm_compute; reflexivity). rewrite Vh in *.
  change ulp with (1 # 9007199254740992)%Q in *.
  assert (0 < inject_Z N /\ inject_Z N <= 1125899906842624)%Q as [N0 NU] by (change 0%Q with (inject_Z 0); change 1125899906842624%Q with (inject_Z (2 ^ 50)); rewrite <- Zlt_Qlt, <- Zle_Qle; lia).
  set (n := inject_Z N) in *. set (v1 := fval (S754_finite false m1 e1)) in *. set (v2 := fval (S754_finite false m2 e2)) in *. set (v3 := fval (S754_finite false m3 e3)) in *.
  clearbody p n v1 v2 v3. clear - Hp0 Hp N0 NU L1 U1 L2 U2 L3 U3.
  set (A := (p / 100)%Q) in *. assert (0 < A /\ A <= 1)%Q as [A0 A1] by (unfold A; split; [apply Qlt_shift_div_l|apply Qle_shift_div_r]; lra). clearbody A.
  assert (A * n <= 1125899906842624)%Q as AN by nra. assert (0 < A * n)%Q as AN0 by nra.
  apply (Qmult_le_compat_r _ _ n) in L1, U1; [|lra..]. split; lra.
Qed.

(** The rank is one of the integers around the exact one. *)
Lemma count_at_percentile_spec h p :
  percentile_ok p -> 0 < total_count h <= 2 ^ 50 ->
  exists c, count_at_percentile h p = Ret (Z.max 1 c) /\ 0 <= c <= total_count h /\
    let rank := (percent p / 100 * inject_Z (total_count h))%Q in (rank - 1 < inject_Z c /\ inject_Z c < rank + 1)%Q.
Proof.
  intros Hp HN. unfold count_at_percentile. assert (forall c, (if 1 <? c then c else 1) = Z.max 1 c) as Hmax by (intros c; destruct (Z.ltb_spec 1 c); lia).
  destruct (requested_spec p Hp) as [[(s & ->) Hz]|(m & e & -> & Hm & He & Er & Hpos)].
  - exists 0. destruct (fval_of_Z (total_count h) ltac:(lia)) as (mN & eN & -> & _). split; [by destruct s|]. split; [lia|]. cbv zeta. rewrite Hz.
    assert (0 / 100 * inject_Z (total_count h) == 0)%Q as -> by (unfold Qdiv; ring). split; reflexivity.
  - destruct (rank_rounded m e (total_count h) Hm He HN Hpos) as (m' & e' & -> & L & U). cbv zeta in L, U. rewrite <- Er in *.
    destruct (trunc_val m' e') as [T1 T2]. set (t := f_trunc (S754_finite false m' e')) in *.
    assert (0 <= t) as Ht0 by (unfold t; cbn [f_trunc]; by apply Z.shiftl_nonneg).
    assert (percent p / 100 <= 1)%Q as HA by (rewrite Er; apply Qle_shift_div_r; [done|lra]).
    assert (0 < inject_Z (total_count h))%Q as N0 by (change 0%Q with (inject_Z 0); rewrite <- Zlt_Qlt; lia).
    set (R := (percent p / 100 * inject_Z (total_count h))%Q) in *. assert (R <= inject_Z (total_count h))%Q as HR by (unfold R; nra).
    rewrite inject_Z_plus in T2. change (inject_Z 1) with 1%Q in T2.
    assert (t < total_count h + 1) by (rewrite Zlt_Qlt, inject_Z_plus; change (inject_Z 1) with 1%Q; lra).
    exists t. unfold to_int. fold t. rewrite (proj2 (Z.leb_le _ t)), (proj2 (Z.ltb_lt t _)) by lia. cbn [andb mbind res_bind]. rewrite Hmax.
    split; [done|]. split; [lia|]. cbv zeta. fold R. split; lra.
Qed.

Ltac set_loop_body body :=
  match goal with |- context [iter_while _ _ ?b _ _] => set (body := b) end.

Lemma length_pos (xs : list Z) : xs <> [] -> 1 <= Z.of_nat (length xs).
Proof. destruct xs; cbn [length]; [done|lia]. Qed.

Section summaries.
Context (h : hdr_histogram) (xs : list Z) (R : represents h xs).

Lemma represents_trackable x : x ∈ xs -> trackable h x.
Proof. destruct R as [_ T _ _ _ _]. rewrite Forall_forall in T. apply T. Qed.

(** The counter at which the running count reaches [c] is the class of
    the [c]-th smallest value. *)
Lemma class_of_order_statistic c i x :
  below h xs i < c <= below h xs (i + 1) -> is_order_statistic c xs x -> index_of h x = i.
Proof.
  intros Hc [Hx Hos]. pose proof (r_geom h xs R) as G.
  pose proof (represents_trackable x Hx) as Htx.
  destruct (Z.lt_trichotomy (index_of h x) i) as [Hlt|[Heq|Hgt]]; [exfalso|done|exfalso].
  - assert (count_if (fun y => y <= x) xs <= below h xs i); [|lia].
    apply (count_if_mono _ (fun y => index_of h y < i)). intros y Hy Hyx.
    pose proof (index_of_mono h G y x (represents_trackable y Hy) Htx Hyx). lia.
  - assert (below h xs (i + 1) <= count_if (fun y => y < x) xs); [|lia].
    apply (count_if_mono (fun y => index_of h y < i + 1)). intros y Hy Hyx.
    destruct (Z.lt_ge_cases y x) as [|Hge]; [done|].
    pose proof (index_of_mono h G x y Htx (represents_trackable y Hy) Hge). lia.
Qed.

Lemma top_of_index i : 0 <= i < counts_len h ->
  trackable h (index_value h i + index_width h i - 1) /\
  index_of h (index_value h i + index_width h i - 1) = i.
Proof.
  intros Hi. pose proof (r_geom h xs R) as G. apply index_of_iff; [done..|].
  pose proof (width_pos h G (index_bucket h i)
    ltac:(pose proof (index_slot h G i Hi) as []; lia)). unfold index_width in *. lia.
Qed.
End summaries.

(** C19: on a histogram of at most [2^50] values [hdr_value_at_percentile] terminates
    and returns the top of the class of an order statistic of the recorded values:
    the reported latency is not below the [c]-th smallest value and is equivalent to
    it.  The doubles of the code do not always give the rank that exact arithmetic
    would, but one of the integers around it: [c] is less than one away from
    [percent / 100 * total], or is 1.  The percentile may be any number that is not
    negative, except those below [2^-748]. *)
Theorem hdr_value_at_percentile_correct h xs p :
  represents h xs -> xs <> [] -> Z.of_nat (length xs) <= 2 ^ 50 -> percentile_ok p ->
  exists v x c, hdr_value_at_percentile h p = Ret v /\
    is_order_statistic (Z.max 1 c) xs x /\
    highest_equivalent_value h x = Ret v /\ x <= v /\
    let rank := (percent p / 100 * inject_Z (Z.of_nat (length xs)))%Q in (rank - 1 < inject_Z c /\ inject_Z c < rank + 1)%Q.
Proof.
  intros R Hne Hlen Hp. pose proof (r_geom h xs R) as G. pose proof (length_pos xs Hne).
  destruct (count_at_percentile_spec h p Hp) as (c0 & Ec & Hc0 & Hrank); [rewrite (r_total h xs R); lia|]. rewrite (r_total h xs R) in *.
  remember (Z.max 1 c0) as c eqn:Ecm. assert (1 <= c <= Z.of_nat (length xs)) as Hc by lia.
  destruct (order_statistic_exists c xs Hc) as [x Hx].
  unfold hdr_value_at_percentile. rewrite Ec. cbn [mbind res_bind].
  set_loop_body body. edestruct (iter_while_rule h xs R body
    (fun i '(t, r) => t = below h xs i /\ below h xs i < c)
    (fun '(_, r) => exists v, r = Some v /\ highest_equivalent_value h x = Ret v) (0, None))
    as (it&[t r]&Hrun&v&->&Hv).
  - rewrite (below_0 h xs R). lia.
  - intros i [t r] Hi Hb [-> Hlt]. unfold body. cbn [it_count_at_index iter_at it_value_from_index].
    rewrite <- below_succ. pose proof (below_le_total h xs (i + 1)). pose proof (r_total64 h xs R).
    rewrite swrap_id by lia. destruct (Z.leb_spec c (below h xs (i + 1))).
    + destruct (index_value_trackable h G i Hi) as [Ht Hidx].
      rewrite (highest_index h G _ Ht), Hidx. cbn [mbind res_bind].
      eexists true, _. split; [done|]. eexists. split; [done|].
      pose proof (represents_trackable h xs R x (proj1 Hx)) as Htx.
      by rewrite (highest_index h G x Htx), (class_of_order_statistic h xs R c i x) by (done || lia).
    + eexists false, _. split; [done|]. done.
  - intros i [t r] Hi Hb [-> Hlt]. lia.
  - rewrite Hrun. cbn [mbind res_bind default]. exists v, x, c0. rewrite <- Ecm. split; [done|]. split; [done|]. split; [done|]. split; [|exact Hrank].
    pose proof (represents_trackable h xs R x (proj1 Hx)) as Htx.
    rewrite (highest_index h G x Htx) in Hv. simplify_eq.
    pose proof (in_own_class h G x Htx). lia.
Qed.

(** [hdr_min] terminates and returns the lowest value equivalent to the
    least recorded value. *)
Theorem hdr_min_correct h xs :
  represents h xs -> xs <> [] ->
  exists x, x ∈ xs /\ (forall y, y ∈ xs -> x <= y) /\
    hdr_min h = Ret (lowest_equivalent_value h x).
Proof.
  intros R Hne. pose proof (r_geom h xs R) as G. pose proof (length_pos xs Hne).
  destruct (order_statistic_exists 1 xs ltac:(lia)) as [x Hx].
  pose proof (represents_trackable h xs R x (proj1 Hx)) as Htx.
  exists x. split_and!; [apply Hx| |].
  { intros y Hy. destruct (Z.le_gt_cases x y); [done|]. exfalso.
    destruct Hx as [_ Hx]. assert (1 <= count_if (fun z => z < x) xs); [|lia].
    unfold count_if. destruct (filter (fun z => z < x) xs) eqn:E; cbn [length]; [|lia].
    assert (y ∈ filter (fun z => z < x) xs) as Hin by by apply list_elem_of_filter.
    rewrite E in Hin. by apply elem_of_nil in Hin. }
  unfold hdr_min.
  set_loop_body body. edestruct (iter_while_rule h xs R body (fun i s => s = 0 /\ below h xs i = 0)
    (fun s => s = lowest_equivalent_value h x) 0) as (it&s&Hrun&->).
  - by rewrite (below_0 h xs R).
  - intros i s Hi Hb [-> Hz]. unfold body. cbn [it_count_to_index iter_at it_value_from_index].
    destruct (Z.eqb_spec 0 (below h xs (i + 1))); cbn [negb andb].
    + eexists false, _. by split; [|].
    + eexists true, _. split; [done|]. rewrite (lowest_index h G x Htx).
      pose proof (below_le_total h xs (i + 1)).
      by rewrite (class_of_order_statistic h xs R 1 i x) by (done || lia).
  - intros i s Hi Hb [-> Hz]. lia.
  - by rewrite Hrun.
Qed.

(** [hdr_max] terminates and returns the lowest value equivalent to the
    greatest recorded value. *)
Theorem hdr_max_correct h xs :
  represents h xs -> xs <> [] ->
  exists x, x ∈ xs /\ (forall y, y ∈ xs -> y <= x) /\
    hdr_max h = Ret (lowest_equivalent_value h x).
Proof.
  intros R Hne. pose proof (r_geom h xs R) as G. pose proof (length_pos xs Hne).
  destruct (order_statistic_exists (Z.of_nat (length xs)) xs ltac:(lia)) as [x Hx].
  pose proof (represents_trackable h xs R x (proj1 Hx)) as Htx.
  exists x. split_and!; [apply Hx| |].
  { intros y Hy. destruct (Z.le_gt_cases y x) as [|Hgt]; [done|]. exfalso.
    destruct Hx as [_ Hx]. unfold count_if in Hx.
    assert (length (filter (fun z => (z <= x)%Z) xs) < length xs)%nat; [|lia].
    apply (length_filter_lt _ _ y); [done|lia]. }
  unfold hdr_max.
  set_loop_body body. edestruct (iter_while_rule h xs R body
    (fun i s => below h xs i = 0 \/ exists j, 0 <= j < counts_len h /\ below h xs j < below h xs (j + 1) /\
        below h xs (j + 1) = below h xs i /\ s = index_value h j + index_width h j - 1)
    (fun s => lowest_equivalent_value h s = lowest_equivalent_value h x) 0) as (it&s&Hrun&Hs).
  - left. by rewrite (below_0 h xs R).
  - intros i s Hi Hb Hinv. unfold body. cbn [it_count_at_index iter_at it_highest_equivalent_value].
    eexists false, _. split; [done|]. pose proof (below_succ h xs i).
    pose proof (cell_nonneg h xs i). destruct (Z.eqb_spec 0 (cell h xs i)); cbn [negb].
    + replace (below h xs (i + 1)) with (below h xs i) by lia. exact Hinv.
    + right. exists i. split_and!; done || lia.
  - intros i s Hi Hb [Hz|(j&Hj&Hlt&Heq&->)]; [lia|].
    destruct (top_of_index h xs R j Hj) as [Ht Hidx].
    rewrite (lowest_index h G _ Ht), Hidx, (lowest_index h G x Htx).
    by rewrite (class_of_order_statistic h xs R (Z.of_nat (length xs)) j x) by (done || lia).
  - rewrite Hrun. cbn [mbind res_bind]. by rewrite Hs.
Qed.

(** * Merging *)

Definition same_config (h1 h2 : hdr_histogram) : Prop :=
  unit_magnitude h1 = unit_magnitude h2 /\
  sub_bucket_half_count_magnitude h1 = sub_bucket_half_count_magnitude h2 /\
  bucket_count h1 = bucket_count h2.

Lemma same_config_index h1 h2 x : same_config h1 h2 -> index_of h1 x = index_of h2 x.
Proof.
  intros (E1&E2&_). unfold index_of, sub_of, width_of, bucket_of. by rewrite E1, E2.
Qed.

Lemma same_config_trackable h1 h2 x : same_config h1 h2 -> trackable h1 x <-> trackable h2 x.
Proof. intros (E1&E2&E3). unfold trackable. by rewrite E1, E2, E3. Qed.

(** Only the tallies of the abstract list matter. *)
Lemma represents_cells h l1 l2 :
  represents h l1 -> Forall (trackable h) l2 -> length l1 = length l2 ->
  (forall i, cell h l1 i = cell h l2 i) -> represents h l2.
Proof.
  intros [G T L C Tot B] T2 Hl Hc.
  constructor; [done|done|done| |by rewrite <- Hl|by rewrite <- Hl].
  intros i Hi. rewrite <- Hc. by apply C.
Qed.

Lemma length_below_succ h xs i :
  Z.of_nat (length (filter (fun x => index_of h x < i + 1) xs)) =
  Z.of_nat (length (filter (fun x => index_of h x < i) xs)) + cell h xs i.
Proof. apply (below_succ h xs i). Qed.

Lemma cell_below h xs i j :
  cell h (filter (fun x => index_of h x < j) xs) i = if decide (i < j) then cell h xs i else 0.
Proof.
  unfold cell. induction xs as [|x xs IH]; [by case_decide|].
  rewrite (filter_cons (fun x => index_of h x < j)), (filter_cons (fun x => index_of h x = i)).
  repeat case_decide; rewrite ?filter_cons; repeat case_decide; cbn [length] in *; lia.
Qed.

Lemma hdr_recorded_iter_next_spec h xs : represents h xs -> forall fuel r i,
  -1 <= i < counts_len h -> counts_len h - i <= Z.of_nat fuel -> visited h xs i (rec_iter r) ->
  (exists r' j, hdr_recorded_iter_next fuel h r = Ret (true, r') /\ rec_iter r' = iter_at h xs j /\
     i < j < counts_len h /\ cell h xs j <> 0 /\ below h xs j = below h xs (i + 1)) \/
  (exists r', hdr_recorded_iter_next fuel h r = Ret (false, r') /\
     below h xs (i + 1) = Z.of_nat (length xs)).
Proof.
  intros R. induction fuel as [|fuel IH]; intros r i Hi Hf Hv; [lia|].
  cbn [hdr_recorded_iter_next].
  destruct (Z.lt_ge_cases (below h xs (i + 1)) (Z.of_nat (length xs))) as [Hlt|Hge].
  - destruct (hdr_iter_next_more h xs R i _ ltac:(lia) Hv Hlt) as [Hl ->].
    cbn [mbind res_bind negb it_count_at_index iter_at].
    destruct (Z.eqb_spec (cell h xs (i + 1)) 0) as [Hz|Hnz]; cbn [negb].
    + pose proof (below_succ h xs (i + 1)) as Hs.
      edestruct (IH {| rec_iter := iter_at h xs (i + 1);
         rec_count_added_in_this_iteration_step := rec_count_added_in_this_iteration_step r |}
         (i + 1)) as [(r'&j&Hrun&Hr'&Hj&Hc&Hb)|(r'&Hrun&Hb)]; [lia|lia|apply visited_at| |].
      * left. exists r', j. split_and!; done || lia.
      * right. exists r'. split; [done|lia].
    + left. eexists _, (i + 1). split_and!; [done|done|lia|lia|done|done].
  - right. rewrite (hdr_iter_next_done h xs R i _ Hv Hge). cbn.
    pose proof (below_le_total h xs (i + 1)). eexists. split; [done|lia].
Qed.

(** One step of the merge: the class of counter [j] is added at once. *)
Lemma merge_step h from ys xs i j :
  represents h (ys ++ filter (fun x => index_of from x < i) xs) -> represents from xs ->
  same_config h from -> 0 <= j < counts_len from -> i <= j -> below from xs j = below from xs i ->
  Z.of_nat (length ys + length xs) < 2 ^ 63 ->
  exists t cs, hdr_record_values h (index_value from j) (cell from xs j) =
      Ret (true, set_counts h t cs) /\
    represents (set_counts h t cs) (ys ++ filter (fun x => index_of from x < j + 1) xs).
Proof.
  intros R Rf Hc Hj Hij Hb Hlen. pose proof (r_geom _ _ Rf) as Gf.
  destruct (index_value_trackable from Gf j Hj) as [Ht Hidx].
  assert (trackable h (index_value from j)) as Hth by by apply (same_config_trackable h from).
  assert (index_of h (index_value from j) = j) as Hidxh by by rewrite (same_config_index h from).
  assert (Z.of_nat (length (ys ++ filter (fun x => index_of from x < i) xs)) + cell from xs j
          <= Z.of_nat (length ys + length xs)) as Hsum.
  { rewrite length_app. pose proof (below_le_total from xs (j + 1)) as Hle.
    rewrite below_succ, Hb in Hle. unfold below in Hle. lia. }
  rewrite <- (Z2Nat.id (cell from xs j)) in * by apply cell_nonneg.
  rewrite (hdr_record_values_eq h _ _ _ R Hth) by lia.
  eexists _, _. split; [done|].
  eapply represents_cells; [apply (represents_add h _ _ _ R Hth); lia|..].
  - apply Forall_app. split.
    + pose proof (r_track _ _ R) as T. apply Forall_app in T. exact (proj1 T).
    + rewrite Forall_forall. intros x Hx. apply list_elem_of_filter in Hx as [_ Hx].
      apply (same_config_trackable h from); [done|]. by apply (represents_trackable from xs Rf).
  - apply Nat2Z.inj. rewrite !length_app, length_replicate.
    rewrite !Nat2Z.inj_add, length_below_succ, Z2Nat.id by apply cell_nonneg.
    fold (below from xs j) (below from xs i). lia.
  - intros k. change (cell (set_counts h _ _)) with (cell h).
    rewrite !cell_app, cell_replicate, Hidxh.
    assert (forall l, cell h l k = cell from l k) as Hcell.
    { intros l. unfold cell. do 2 f_equal. apply list_filter_iff.
      intros x. by rewrite (same_config_index h from). }
    rewrite !Hcell, !cell_below, Z2Nat.id by apply cell_nonneg.
    assert (i <= k < j -> cell from xs k = 0).
    { intros Hk. pose proof (below_mono from xs i k ltac:(lia)).
      pose proof (below_succ from xs k). pose proof (below_mono from xs (k + 1) j ltac:(lia)).
      pose proof (cell_nonneg from xs k). lia. }
    repeat case_decide; subst; lia.
Qed.

(** C20: merging two histograms of the same configuration drops nothing that was
    recorded and represents the values of both, if there are fewer than 2^63: the
    result of merging the per-thread histograms is the histogram of all the
    recorded latencies.  This includes values outside the trackable range that were
    recorded because they have a counter, such as 0 with a lowest value of 1, which
    hdr_histogram.h says are dropped. *)
Theorem hdr_add_refines h from ys xs :
  represents h ys -> represents from xs -> same_config h from ->
  Z.of_nat (length ys + length xs) < 2 ^ 63 ->
  exists t cs, hdr_add h from = Ret (set_counts h t cs, 0) /\
    represents (set_counts h t cs) (ys ++ xs).
Proof.
  intros R Rf Hc Hlen. pose proof (r_geom _ _ Rf) as Gf. unfold hdr_add.
  assert (forall fuel h' r i, -1 <= i < counts_len from -> counts_len from - i <= Z.of_nat fuel ->
    visited from xs i (rec_iter r) -> (exists t cs, h' = set_counts h t cs) ->
    represents h' (ys ++ filter (fun x => index_of from x < i + 1) xs) ->
    exists t cs, add_loop fuel h' from r 0 = Ret (set_counts h t cs, 0) /\
      represents (set_counts h t cs) (ys ++ xs)) as Hgo.
  { induction fuel as [|fuel IH]; intros h' r i Hi Hf Hv (t&cs&->) R'; [lia|]. cbn [add_loop].
    destruct (hdr_recorded_iter_next_spec from xs Rf (S fuel) r i Hi Hf Hv)
      as [(r'&j&->&Hr'&Hj&Hnz&Hb)|(r'&->&Hb)]; cbn [mbind res_bind negb].
    - rewrite Hr'. cbn [it_value_from_index it_count_at_index iter_at].
      destruct (merge_step (set_counts h t cs) from ys xs (i + 1) j) as (t'&cs'&->&R''); try done; try lia.
      cbn [mbind res_bind]. apply (IH _ r' j); [lia|lia| |by exists t', cs'|done].
      rewrite Hr'. apply visited_at.
    - exists t, cs. split; [done|]. eapply represents_cells; [done|..].
      + apply Forall_app. split; [exact (r_track _ _ R)|].
        eapply Forall_impl; [exact (r_track _ _ Rf)|].
        intros x Hx. by apply (same_config_trackable h from).
      + rewrite !length_app. unfold below in Hb. lia.
      + intros k. f_equal. f_equal. apply filter_all_in. intros x Hx.
        unfold below in Hb. destruct (decide (index_of from x < i + 1)) as [|Hn]; [done|].
        pose proof (length_filter_lt (fun x => index_of from x < i + 1) xs x Hx Hn). lia. }
  pose proof (r_len _ _ Rf). apply (Hgo _ _ _ (-1)); [lia|unfold iter_fuel; lia| | |].
  - apply visited_init. done.
  - exists (total_count h), (counts h). by destruct h.
  - rewrite filter_all_out, app_nil_r; [done|]. intros x Hx.
    pose proof (index_of_range from Gf x (represents_trackable from xs Rf x Hx)). lia.
Qed.

(** * Limits of the configuration *)

(** A set of values of the loop variable that is closed under the loop and
    stays below the bound. *)
Lemma buckets_loop_closed (l : list Z) highest :
  forallb (fun t => (t <? highest) && existsb (Z.eqb (s64 (Z.shiftl t 1))) l) l = true ->
  forall fuel t n, In t l -> buckets_loop fuel t highest n = Diverge.
Proof.
  rewrite forallb_forall. intros Hl. induction fuel as [|fuel IH]; intros t n Ht;
    cbn [buckets_loop]; destruct (andb_prop _ _ (Hl t Ht)) as [-> Hn];
    [done|]. apply existsb_exists in Hn as (t'&Ht'&->%Z.eqb_eq). by apply IH.
Qed.

(** With the largest [int64_t] as highest value the loop of [hdr_init]
    that sizes the histogram shifts its variable out to 0 and never ends,
    whatever the fuel. *)
Theorem hdr_init_max_range_diverges fuel n :
  buckets_loop fuel 2047 (2 ^ 63 - 1) n = Diverge.
Proof.
  set (l := map (fun j => Nat.iter j (fun t => s64 (Z.shiftl t 1)) 2047) (seq 0 65)).
  assert (existsb (Z.eqb 2047) l = true) as (t&Ht&<-%Z.eqb_eq)%existsb_exists
    by (vm_compute; reflexivity).
  apply (buckets_loop_closed l); [vm_compute; reflexivity|exact Ht].
Qed.

(** * Concrete histograms for the theorems above *)

Lemma represents_intro h xs :
  hdr_geom h -> Forall (trackable h) xs ->
  map (cell h xs) (seqZ 0 (counts_len h)) = counts h -> 0 <= counts_len h ->
  total_count h = Z.of_nat (length xs) -> Z.of_nat (length xs) < 2 ^ 63 -> represents h xs.
Proof.
  intros G T C L Tot B. constructor; [done|done| | |done|done].
  - rewrite <- C, length_map, length_seqZ. lia.
  - intros i Hi. rewrite <- C. change (map ?f) with (fmap (M := list) f).
    rewrite list_lookup_fmap, lookup_seqZ_lt by lia. cbn. do 2 f_equal. lia.
Qed.

(** Range 1..1000 with one significant figure, holding 5, 700 and 701. *)
Definition demo_empty : hdr_histogram :=
  Eval vm_compute in
  match hdr_init true 1 1000 1 with
  | Ret (inr h) => h
  | _ => Build_hdr_histogram 0 0 0 0 0 0 0 0 0 0 0 []
  end.

Definition demo : hdr_histogram :=
  Eval vm_compute in
  foldl (fun h v => match hdr_record_value h v with Ret (_, h) => h | _ => h end)
    demo_empty [5; 700; 701].

Lemma demo_geom : hdr_geom demo.
Proof. constructor; vm_compute; intuition congruence. Qed.

Lemma demo_represents : represents demo [5; 700; 701].
Proof.
  apply represents_intro; [apply demo_geom| |vm_compute; reflexivity|vm_compute; congruence..].
  repeat constructor; vm_compute; intuition congruence.
Qed.

Lemma hdr_record_value_refines_witness :
  exists t cs, hdr_record_value demo 42 = Ret (true, set_counts demo t cs) /\
    represents (set_counts demo t cs) ([5; 700; 701] ++ [42]).
Proof.
  apply hdr_record_value_refines; [apply demo_represents|vm_compute; intuition congruence..].
Defined.

Lemma hdr_record_value_above_range_aborts_witness : hdr_record_value demo 2048 = Abort.
Proof.
  apply hdr_record_value_above_range_aborts; [apply demo_geom|vm_compute; intuition congruence].
Defined.

Lemma hdr_record_corrected_value_refines_witness :
  exists t cs, hdr_record_corrected_value demo 500 100 = Ret (true, set_counts demo t cs) /\
    represents (set_counts demo t cs) [5; 700; 701; 500; 400; 300; 200; 100].
Proof.
  apply (hdr_record_corrected_value_refines demo [5; 700; 701] 500 100);
    [apply demo_represents|vm_compute; intuition congruence..].
Defined.

Lemma hdr_count_at_value_correct_witness : hdr_count_at_value demo 703 = Ret 2.
Proof.
  refine (eq_trans (hdr_count_at_value_correct demo [5; 700; 701] 703 _ _) _);
    [apply demo_represents|vm_compute; intuition congruence|vm_compute; reflexivity].
Defined.

Lemma hdr_class_precision_witness :
  exists top, highest_equivalent_value demo 700 = Ret top /\
    lowest_equivalent_value demo 700 <= 700 <= top /\
    (forall w, lowest_equivalent_value demo 700 <= w <= top <->
       trackable demo w /\ lowest_equivalent_value demo w = lowest_equivalent_value demo 700) /\
    (top + 1 - lowest_equivalent_value demo 700 = 2 ^ unit_magnitude demo \/
     (top + 1 - lowest_equivalent_value demo 700) * 10 ^ significant_figures demo <= 700).
Proof.
  apply hdr_class_precision; [apply demo_geom|vm_compute; intuition congruence].
Defined.

(** With a lowest value of 1000 and three figures, 1000 is reported as anything from
    512 to 1023. *)
Example coarse_lowest_class :
  match hdr_init true 1000 1000000 3 with
  | Ret (inr h) => (lowest_equivalent_value h 1000, highest_equivalent_value h 1000) = (512, Ret 1023)
  | _ => False
  end.
Proof. vm_compute. reflexivity. Qed.

Lemma hdr_value_at_percentile_correct_witness :
  exists v x c, hdr_value_at_percentile demo (f_of_Z 50) = Ret v /\
    is_order_statistic (Z.max 1 c) [5; 700; 701] x /\ highest_equivalent_value demo x = Ret v /\ x <= v /\
    let rank := (percent (f_of_Z 50) / 100 * inject_Z (Z.of_nat (length [5; 700; 701])))%Q in (rank - 1 < inject_Z c /\ inject_Z c < rank + 1)%Q.
Proof.
  apply hdr_value_at_percentile_correct; [apply demo_represents|done|vm_compute; congruence|].
  assert (f_of_Z 50 = S754_finite false (50 * 2 ^ 47) (-47)) as -> by (vm_compute; reflexivity). vm_compute. intuition congruence.
Defined.

(** The rank is not always the nearest integer: 29 percent of 50 values are 14.5,
    which rounds to the 14th value and not to the 15th. *)
Example percentile_rank_rounds :
  count_at_percentile (set_counts demo 50 []) (f_of_Z 29) = Ret 14.
Proof. vm_compute. reflexivity. Qed.

Lemma hdr_min_correct_witness :
  exists x, x ∈ [5; 700; 701] /\ (forall y, y ∈ [5; 700; 701] -> x <= y) /\
    hdr_min demo = Ret (lowest_equivalent_value demo x).
Proof. apply hdr_min_correct; [apply demo_represents|done]. Defined.

Lemma hdr_max_correct_witness :
  exists x, x ∈ [5; 700; 701] /\ (forall y, y ∈ [5; 700; 701] -> y <= x) /\
    hdr_max demo = Ret (lowest_equivalent_value demo x).
Proof. apply hdr_max_correct; [apply demo_represents|done]. Defined.

Lemma hdr_add_refines_witness :
  exists t cs, hdr_add demo demo = Ret (set_counts demo t cs, 0) /\
    represents (set_counts demo t cs) ([5; 700; 701] ++ [5; 700; 701]).
Proof.
  apply hdr_add_refines; [apply demo_represents..|by split_and!|vm_compute; congruence].
Defined.
