(* ===== verification/Cpuset.v ===== *)
(** * Reading the processors of a cgroup

    [read_cpuset] of the controllers under src/control parses the kernel's
    list format for processor sets.  Strings are lists of character codes.
    An exception ends the parse and leaves what was read before it. *)
From S2P Require Import Prelude NumStr.

Local Open Scope Z_scope.

(** ** Strings of Python *)

(** White space, as [str.strip] and [str.split] see it. *)
Definition is_space (c : Z) : bool :=
  ((9 <=? c) && (c <=? 13)) || ((28 <=? c) && (c <=? 32)) || (c =? 133) || (c =? 160) || (c =? 5760)
  || ((8192 <=? c) && (c <=? 8202)) || (c =? 8232) || (c =? 8233) || (c =? 8239) || (c =? 8287) || (c =? 12288).

Fixpoint lstrip (s : list Z) : list Z :=
  match s with c :: s' => if is_space c then lstrip s' else s | [] => [] end.

Definition strip (s : list Z) : list Z := reverse (lstrip (reverse (lstrip s))).

(** [s.split(sep)] for a separator of one character. *)
Fixpoint split_on (sep : Z) (s : list Z) : list (list Z) :=
  match s with
  | [] => [[]]
  | c :: s =>
      let r := split_on sep s in
      if c =? sep then [] :: r
      else match r with w :: r => (c :: w) :: r | [] => [[c]] end
  end.

(** [s.split()]: the words between white space. *)
Fixpoint split_words (s : list Z) (word : list Z) : list (list Z) :=
  match s with
  | [] => match word with [] => [] | _ => [word] end
  | c :: s =>
      if is_space c then match word with [] => split_words s [] | _ => word :: split_words s [] end
      else split_words s (word ++ [c])
  end.

(** The digits of [int(s)]; single underscores may separate them. *)
Fixpoint int_digits (s : list Z) (after_digit : bool) (v : Z) : option Z :=
  match s with
  | [] => if after_digit then Some v else None
  | c :: s =>
      if is_digit c then int_digits s true (v * 10 + (c - 48))
      else if (c =? 95) && after_digit then int_digits s false v
      else None
  end.

(** [int(s)] of a string in ASCII; [None] is [ValueError]. *)
Definition py_int (s : list Z) : option Z :=
  match strip s with
  | c :: s' =>
      if c =? 45 then Z.opp <$> int_digits s' false 0
      else if c =? 43 then int_digits s' false 0
      else int_digits (c :: s') false 0
  | [] => None
  end.

(** ** The parser *)

(** [range(start, end + 1)] *)
Definition range_incl (a b : Z) : list Z := map (fun i => a + Z.of_nat i) (seq 0 (Z.to_nat (b - a + 1))).

(** One part of the list: a processor, or a range of them. *)
Definition cpuset_part (part : list Z) : option (list Z) :=
  if existsb (Z.eqb 45) part then
    match split_on 45 part with
    | [a; b] => match py_int a, py_int b with Some a, Some b => Some (range_incl a b) | _, _ => None end
    | _ => None
    end
  else (fun c => [c]) <$> py_int part.

Fixpoint cpuset_parts (parts : list (list Z)) (cores : list Z) : list Z :=
  match parts with
  | [] => cores
  | part :: parts =>
      match cpuset_part part with
      | Some cs => cpuset_parts parts (cores ++ cs)
      | None => cores
      end
  end.

(** The content of the file is [None] when it cannot be read. *)
Definition read_cpuset (content : option (list Z)) : list Z :=
  match content with
  | None => []
  | Some s =>
      let cpuset_str := strip s in
      merge_sort Z.le (if length cpuset_str =? 0 then [] else cpuset_parts (split_on 44 cpuset_str) [])%nat
  end.

(** ** The kernel's notation *)

(** A set of processors as the kernel prints it: a range, or a single
    processor, and a comma between two of them. *)
Definition print_range (r : Z * Z) : list Z :=
  let '(a, b) := r in if a =? b then dec a else dec a ++ 45 :: dec b.

Fixpoint join (sep : Z) (ws : list (list Z)) : list Z :=
  match ws with
  | [] => []
  | [w] => w
  | w :: ws => w ++ sep :: join sep ws
  end.

Definition print_cpuset (rs : list (Z * Z)) : list Z := join 44 (map print_range rs) ++ [10].

Definition range_ok (r : Z * Z) : Prop := 0 <= fst r <= snd r /\ snd r < 2 ^ 32.

(** ** The parser reads what the kernel prints *)

Definition plain (c : Z) : Prop := 44 <= c <= 57.

Lemma plain_not_space c : plain c -> is_space c = false.
Proof. unfold plain, is_space. lia. Qed.

Lemma lstrip_plain s : Forall plain s -> lstrip s = s.
Proof. destruct 1 as [|c s Hc _]; [done|]. cbn. by rewrite plain_not_space. Qed.

Lemma strip_plain s : Forall plain s -> strip s = s.
Proof.
  intros Hs. unfold strip. rewrite (lstrip_plain s) by done. rewrite lstrip_plain by (by apply Forall_reverse). apply reverse_involutive.
Qed.

Lemma strip_plain_newline s : Forall plain s -> strip (s ++ [10]) = s.
Proof.
  intros Hs. unfold strip. replace (reverse (lstrip (s ++ [10]))) with (if decide (s = []) then [] else 10 :: reverse s).
  - case_decide as E; [by subst|]. cbn [lstrip]. change (is_space 10) with true. cbn [lstrip].
    rewrite lstrip_plain by (by apply Forall_reverse). apply reverse_involutive.
  - destruct Hs as [|c s Hc Hs]; [reflexivity|]. rewrite decide_False by done. cbn [app lstrip]. rewrite plain_not_space by done.
    by rewrite app_comm_cons, reverse_snoc.
Qed.

Lemma int_digits_spec p b v :
  Forall (fun c => is_digit c = true) p -> (b = true \/ p <> []) -> int_digits p b v = Some (horner v p).
Proof.
  intros Hp. revert b v. induction Hp as [|c p Hc _ IH]; intros b v Hb; cbn [int_digits].
  - destruct Hb as [->|?]; done.
  - rewrite Hc. rewrite IH by (by left). done.
Qed.

(** The notation of a number: digits, and no minus sign. *)
Lemma dec_digits v : 0 <= v < 10 ^ 20 ->
  exists c p, dec v = c :: p /\ Forall (fun c => is_digit c = true) (c :: p) /\ horner 0 (c :: p) = v.
Proof.
  intros Hv. unfold dec. rewrite (proj2 (Z.ltb_ge v 0)) by lia. destruct (decide (v = 0)) as [->|].
  { exists 48, []. split; [done|]. split; [by repeat constructor|done]. }
  destruct (udec_horner v ltac:(lia)) as (c & p & -> & Hc & Hp & Hh). exists c, p. split; [done|].
  split; [constructor; [apply is_digit_range; lia|done]|]. unfold horner in *. cbn [foldl]. by replace (0 * 10 + (c - 48)) with (c - 48) by lia.
Qed.

Lemma digit_plain p : Forall (fun c => is_digit c = true) p -> Forall plain p.
Proof. intros Hp. eapply Forall_impl; [exact Hp|]. intros c Hc%is_digit_range. unfold plain. lia. Qed.

Lemma py_int_dec v : 0 <= v < 10 ^ 20 -> py_int (dec v) = Some v.
Proof.
  intros Hv. destruct (dec_digits v Hv) as (c & p & -> & Hp & Hh). unfold py_int. rewrite strip_plain by (by apply digit_plain).
  pose proof Hp as [Hc%is_digit_range _]%Forall_cons. destruct (Z.eqb_spec c 45); [lia|]. destruct (Z.eqb_spec c 43); [lia|].
  rewrite int_digits_spec by (done || by right). by rewrite Hh.
Qed.

Lemma split_on_none sep s : Forall (fun c => c <> sep) s -> split_on sep s = [s].
Proof.
  induction 1 as [|c s Hc _ IH]; [done|]. cbn [split_on]. destruct (Z.eqb_spec c sep); [done|]. by rewrite IH.
Qed.

Lemma split_on_app sep s s' : Forall (fun c => c <> sep) s -> split_on sep (s ++ sep :: s') = s :: split_on sep s'.
Proof.
  induction 1 as [|c s Hc _ IH]; cbn [app split_on]; [by rewrite Z.eqb_refl|].
  destruct (Z.eqb_spec c sep); [done|]. by rewrite IH.
Qed.

Lemma split_join sep ws : ws <> [] -> Forall (Forall (fun c => c <> sep)) ws -> split_on sep (join sep ws) = ws.
Proof.
  intros Hne Hws. induction Hws as [|w ws Hw Hws IH]; [done|]. destruct ws as [|w' ws]; [by apply split_on_none|].
  change (join sep (w :: w' :: ws)) with (w ++ sep :: join sep (w' :: ws)). by rewrite split_on_app, IH.
Qed.

Lemma digits_ne p sep : (sep < 48 \/ 57 < sep) -> Forall (fun c => is_digit c = true) p -> Forall (fun c => c <> sep) p.
Proof. intros Hs Hp. eapply Forall_impl; [exact Hp|]. intros c Hc%is_digit_range. lia. Qed.

Lemma existsb_digits p : Forall (fun c => is_digit c = true) p -> existsb (Z.eqb 45) p = false.
Proof.
  induction 1 as [|c p Hc%is_digit_range _ IH]; [done|]. cbn [existsb]. rewrite IH. destruct (Z.eqb_spec 45 c); [lia|done].
Qed.

Lemma cpuset_part_print r : range_ok r -> cpuset_part (print_range r) = Some (range_incl (fst r) (snd r)).
Proof.
  destruct r as [a b]. intros [Hab Hb]. cbn [fst snd print_range] in *. unfold cpuset_part.
  assert (0 <= a < 10 ^ 20 /\ 0 <= b < 10 ^ 20) as [Ha' Hb'] by lia.
  pose proof (py_int_dec a Ha') as Ea. pose proof (py_int_dec b Hb') as Eb.
  destruct (dec_digits a Ha') as (c & p & Ed & Hp & _). destruct (dec_digits b Hb') as (c' & p' & Ed' & Hp' & _).
  rewrite Ed in *. rewrite Ed' in *. destruct (Z.eqb_spec a b) as [<-|Hne].
  - rewrite existsb_digits by done. rewrite Ea. unfold range_incl. replace (a - a + 1) with 1 by lia.
    change (seq 0 (Z.to_nat 1)) with [0%nat]. cbn [map fmap option_fmap option_map]. by rewrite Z.add_0_r.
  - rewrite existsb_app. cbn [existsb]. rewrite Z.eqb_refl, orb_true_r.
    rewrite split_on_app by (by apply digits_ne; [lia|]). rewrite split_on_none by (by apply digits_ne; [lia|]). by rewrite Ea, Eb.
Qed.

Lemma cpuset_parts_print rs cores :
  Forall range_ok rs -> cpuset_parts (map print_range rs) cores = cores ++ concat (map (fun r => range_incl (fst r) (snd r)) rs).
Proof.
  intros Hrs. revert cores. induction Hrs as [|r rs Hr _ IH]; intros cores; cbn [map cpuset_parts concat]; [by rewrite app_nil_r|].
  rewrite cpuset_part_print by done. by rewrite IH, <- app_assoc.
Qed.

Lemma print_range_chars r : range_ok r -> Forall (fun c => plain c /\ c <> 44) (print_range r) /\ print_range r <> [].
Proof.
  destruct r as [a b]. intros [Hab Hb]. cbn [fst snd print_range] in *.
  destruct (dec_digits a ltac:(lia)) as (c & p & Ed & Hp & _). destruct (dec_digits b ltac:(lia)) as (c' & p' & Ed' & Hp' & _).
  rewrite Ed, Ed'. assert (forall p, Forall (fun c => is_digit c = true) p -> Forall (fun c => plain c /\ c <> 44) p) as Hd
    by (intros q Hq; eapply Forall_impl; [exact Hq|]; intros d Hd%is_digit_range; unfold plain; lia).
  destruct (a =? b); (split; [|done]); [by apply Hd|]. apply Forall_app_2; [by apply Hd|]. constructor; [unfold plain; lia|by apply Hd].
Qed.

Lemma join_plain ws : Forall (Forall plain) ws -> Forall plain (join 44 ws).
Proof.
  induction 1 as [|w ws Hw Hws IH]; [constructor|]. destruct ws as [|w' ws]; [done|].
  apply Forall_app_2; [done|]. constructor; [unfold plain; lia|done].
Qed.

(** The processors read from a list in the kernel's notation are those of
    its ranges, in increasing order. *)
Theorem read_cpuset_print rs :
  Forall range_ok rs ->
  read_cpuset (Some (print_cpuset rs)) = merge_sort Z.le (concat (map (fun r => range_incl (fst r) (snd r)) rs)).
Proof.
  intros Hrs. unfold read_cpuset, print_cpuset.
  assert (Forall (Forall plain) (map print_range rs)) as Hp.
  { apply Forall_map. eapply Forall_impl; [exact Hrs|]. intros r Hr. eapply Forall_impl; [apply print_range_chars, Hr|]. by intros c [? _]. }
  rewrite strip_plain_newline by (by apply join_plain). f_equal. destruct rs as [|r rs]; [done|].
  assert (Forall (Forall (fun c => c <> 44)) (map print_range (r :: rs))) as Hs.
  { apply Forall_map. eapply Forall_impl; [exact Hrs|]. intros r' Hr. eapply Forall_impl; [apply print_range_chars, Hr|]. by intros c [_ ?]. }
  rewrite split_join by done. rewrite cpuset_parts_print by done. cbn [app].
  destruct (Nat.eqb_spec (length (join 44 (map print_range (r :: rs)))) 0) as [E|]; [|done].
  apply Forall_cons in Hrs as [Hr _]. apply print_range_chars in Hr as [_ Hr]. destruct (print_range r) as [|c w] eqn:Er; [done|].
  cbn [map join] in E. rewrite Er in E. by destruct (map print_range rs).
Qed.

Lemma read_cpuset_print_witness : read_cpuset (Some [48; 45; 50; 44; 55; 10]) = [0; 1; 2; 7].
Proof. exact (read_cpuset_print [(0, 2); (7, 7)] ltac:(by repeat constructor)). Defined.
