(* ===== verification/PowerCap.v ===== *)
(** * The power-capping controller

    src/control/powercap_CPU_powertrace-final.py: the controller that keeps the
    power of a server below a budget by limiting the bandwidth of two cgroups,
    the low-priority "user" and the high-priority "critical" one, with a
    learnt model of the power.

    The globals of the program are the fields of [pstate], together with the
    quotas in the two [cpu.max] files.  A function of the program is a
    computation [ctl] that passes this state and may raise an exception, which
    keeps the changes made before it.  What the controller reads from outside
    is in [world], fixed for one iteration: the [cpuset] files, whether the
    kernel accepts a quota, and the model.  Writing a quota that the kernel
    accepts and reading it again gives the same quota. *)
From stdpp Require Import gmap.
From S2P Require Import Prelude PyFloat Cpuset.

Local Open Scope Z_scope.

(** ** State *)

(** An entry of a feature map: a float, an integer, the decimal notation of an
    integer, or something [float()] refuses. *)
Inductive cell : Type :=
  | CFloat (x : float)
  | CInt (z : Z)
  | CStr (z : Z)
  | CBad.

Inductive cgroup : Type := user | critical.

Record config : Type := {
  topol_size : Z;
  direct_metrics_size : Z;
  max_freq : Z;
  core_info_count : Z;
  num_cores : Z;
}.

Record world : Type := {
  cpus_effective : cgroup -> option (list Z);
  cpus_allowed : cgroup -> option (list Z);
  cpu_max_ok : cgroup -> Z -> bool;
  predict : list cell -> option float;
}.

Record pstate : Type := {
  current_bandwidth : Z;
  current_bandwidth2 : Z;
  adjustment_ratio : gmap Z float;
  predictive_feature_map : list cell;
  actual_power : float;
  target_power : Z;
  prev_prediction : float;
  prev : Z;
  retry : Z;
  calibration_offset : float;
  used_map : bool;
  full_mode : bool;
  cpu_max : cgroup -> option Z;
}.

Definition set_bandwidth (b : Z) (s : pstate) : pstate :=
  {| current_bandwidth := b; current_bandwidth2 := current_bandwidth2 s; adjustment_ratio := adjustment_ratio s;
     predictive_feature_map := predictive_feature_map s; actual_power := actual_power s; target_power := target_power s;
     prev_prediction := prev_prediction s; prev := prev s; retry := retry s; calibration_offset := calibration_offset s;
     used_map := used_map s; full_mode := full_mode s; cpu_max := cpu_max s |}.

Definition set_bandwidth2 (b : Z) (s : pstate) : pstate :=
  {| current_bandwidth := current_bandwidth s; current_bandwidth2 := b; adjustment_ratio := adjustment_ratio s;
     predictive_feature_map := predictive_feature_map s; actual_power := actual_power s; target_power := target_power s;
     prev_prediction := prev_prediction s; prev := prev s; retry := retry s; calibration_offset := calibration_offset s;
     used_map := used_map s; full_mode := full_mode s; cpu_max := cpu_max s |}.

Definition set_adjustment (a : gmap Z float) (s : pstate) : pstate :=
  {| current_bandwidth := current_bandwidth s; current_bandwidth2 := current_bandwidth2 s; adjustment_ratio := a;
     predictive_feature_map := predictive_feature_map s; actual_power := actual_power s; target_power := target_power s;
     prev_prediction := prev_prediction s; prev := prev s; retry := retry s; calibration_offset := calibration_offset s;
     used_map := used_map s; full_mode := full_mode s; cpu_max := cpu_max s |}.

(** The last prediction, and the map it was made for. *)
Definition set_prediction (m : list cell) (p : float) (s : pstate) : pstate :=
  {| current_bandwidth := current_bandwidth s; current_bandwidth2 := current_bandwidth2 s; adjustment_ratio := adjustment_ratio s;
     predictive_feature_map := m; actual_power := actual_power s; target_power := target_power s;
     prev_prediction := p; prev := prev s; retry := retry s; calibration_offset := calibration_offset s;
     used_map := used_map s; full_mode := full_mode s; cpu_max := cpu_max s |}.

Definition set_power (p : float) (s : pstate) : pstate :=
  {| current_bandwidth := current_bandwidth s; current_bandwidth2 := current_bandwidth2 s; adjustment_ratio := adjustment_ratio s;
     predictive_feature_map := predictive_feature_map s; actual_power := p; target_power := target_power s;
     prev_prediction := prev_prediction s; prev := prev s; retry := retry s; calibration_offset := calibration_offset s;
     used_map := used_map s; full_mode := full_mode s; cpu_max := cpu_max s |}.

Definition set_target (t : Z) (s : pstate) : pstate :=
  {| current_bandwidth := current_bandwidth s; current_bandwidth2 := current_bandwidth2 s; adjustment_ratio := adjustment_ratio s;
     predictive_feature_map := predictive_feature_map s; actual_power := actual_power s; target_power := t;
     prev_prediction := prev_prediction s; prev := prev s; retry := retry s; calibration_offset := calibration_offset s;
     used_map := used_map s; full_mode := full_mode s; cpu_max := cpu_max s |}.

Definition set_prev_retry (p r : Z) (s : pstate) : pstate :=
  {| current_bandwidth := current_bandwidth s; current_bandwidth2 := current_bandwidth2 s; adjustment_ratio := adjustment_ratio s;
     predictive_feature_map := predictive_feature_map s; actual_power := actual_power s; target_power := target_power s;
     prev_prediction := prev_prediction s; prev := p; retry := r; calibration_offset := calibration_offset s;
     used_map := used_map s; full_mode := full_mode s; cpu_max := cpu_max s |}.

Definition set_calibration (c : float) (s : pstate) : pstate :=
  {| current_bandwidth := current_bandwidth s; current_bandwidth2 := current_bandwidth2 s; adjustment_ratio := adjustment_ratio s;
     predictive_feature_map := predictive_feature_map s; actual_power := actual_power s; target_power := target_power s;
     prev_prediction := prev_prediction s; prev := prev s; retry := retry s; calibration_offset := c;
     used_map := used_map s; full_mode := full_mode s; cpu_max := cpu_max s |}.

Definition set_flags (u f : bool) (s : pstate) : pstate :=
  {| current_bandwidth := current_bandwidth s; current_bandwidth2 := current_bandwidth2 s; adjustment_ratio := adjustment_ratio s;
     predictive_feature_map := predictive_feature_map s; actual_power := actual_power s; target_power := target_power s;
     prev_prediction := prev_prediction s; prev := prev s; retry := retry s; calibration_offset := calibration_offset s;
     used_map := u; full_mode := f; cpu_max := cpu_max s |}.

Definition set_cpu_max (g : cgroup) (q : Z) (s : pstate) : pstate :=
  {| current_bandwidth := current_bandwidth s; current_bandwidth2 := current_bandwidth2 s; adjustment_ratio := adjustment_ratio s;
     predictive_feature_map := predictive_feature_map s; actual_power := actual_power s; target_power := target_power s;
     prev_prediction := prev_prediction s; prev := prev s; retry := retry s; calibration_offset := calibration_offset s;
     used_map := used_map s; full_mode := full_mode s;
     cpu_max := fun g' => match g, g' with user, user | critical, critical => Some q | _, _ => cpu_max s g' end |}.

(** The global that holds the throttle of a group. *)
Definition bandwidth_of (g : cgroup) (s : pstate) : Z :=
  match g with user => current_bandwidth s | critical => current_bandwidth2 s end.
Definition set_bandwidth_of (g : cgroup) (b : Z) (s : pstate) : pstate :=
  match g with user => set_bandwidth b s | critical => set_bandwidth2 b s end.

(** ** Computations *)

(** [None] is an exception. *)
Definition ctl (A : Type) : Type := pstate -> pstate * option A.

Definition done_ {A} (a : A) : ctl A := fun s => (s, Some a).
Definition modify (f : pstate -> pstate) : ctl unit := fun s => (f s, Some tt).
Definition reads {A} (f : pstate -> A) : ctl A := fun s => (s, Some (f s)).
Definition attempt {A} (f : pstate -> option A) : ctl A := fun s => (s, f s).
Definition then_ {A B} (c : ctl A) (k : A -> ctl B) : ctl B := fun s =>
  let '(s, r) := c s in match r with Some a => k a s | None => (s, None) end.

Declare Scope ctl_scope.
Delimit Scope ctl_scope with ctl.
Notation "x <- c ;; k" := (then_ c (fun x => k)) (at level 100, c at next level, right associativity) : ctl_scope.
Notation "c ;;; k" := (then_ c (fun _ => k)) (at level 100, right associativity) : ctl_scope.
Local Open Scope ctl_scope.

(** ** Constants *)

Definition TOLERANCE : Z := 5.
Definition ceiling : float := dec_lit 3 2.
Definition smoothing_cal : float := dec_lit 8 1.
Definition f1 : float := f_of_Z 1.

(** [int(topol_size / num_cores)], and zeros when the file cannot be parsed. *)
Definition load_topology_metrics (line : option (list Z)) (num_cores : Z) : config :=
  let zero := {| topol_size := 0; direct_metrics_size := 0; max_freq := 0; core_info_count := 0; num_cores := num_cores |} in
  match line with
  | None => zero
  | Some line =>
      match split_words line [] with
      | a :: b :: c :: _ =>
          match py_int a, py_int b, py_int c with
          | Some topol, Some direct, Some freq =>
              match (if num_cores =? 0 then Some 0 else f_trunc <$> true_div topol num_cores) with
              | Some n => {| topol_size := topol; direct_metrics_size := direct; max_freq := freq; core_info_count := n;
                             num_cores := num_cores |}
              | None => zero
              end
          | _, _, _ => zero
          end
      | _ => zero
      end
  end.

Section Controller.
Context (cfg : config) (w : world).

(** ** Cores and limits *)

Definition get_user_cores : list Z :=
  let cores := read_cpuset (cpus_effective w user) in
  if (length cores <? 2)%nat then read_cpuset (cpus_allowed w user) else cores.

Definition get_critical_cores : list Z :=
  let cores := read_cpuset (cpus_effective w critical) in
  if Z.of_nat (length cores) <? num_cores cfg / 2 then read_cpuset (cpus_allowed w critical) else cores.

Definition get_cores (g : cgroup) : list Z :=
  match g with user => get_user_cores | critical => get_critical_cores end.

(** The cores [read_cpu_max] counts. *)
Definition readback_cores (g : cgroup) : list Z :=
  match read_cpuset (cpus_effective w g) with [] => read_cpuset (cpus_allowed w g) | cores => cores end.

(** [int((quota / (100000 * len(cores))) * 100)] *)
Definition throttle_of_quota (quota ncores : Z) : option Z :=
  q ← true_div quota (100000 * ncores);
  Some (f_trunc (q * f_of_Z 100)%F).

(** [None] also when the file says "max". *)
Definition read_cpu_max (g : cgroup) (s : pstate) : option Z :=
  quota ← cpu_max s g;
  match readback_cores g with
  | [] => None
  | cores => throttle_of_quota quota (Z.of_nat (length cores))
  end.

(** [int(100000 * num_avail * throttle / 100)] *)
Definition quota_of_throttle (throttle ncores : Z) : Z :=
  match true_div (100000 * ncores * throttle) 100 with Some q => f_trunc q | None => 0 end.

Definition set_cpu_limit (g : cgroup) (throttle : Z) (available_cores : list Z) : ctl unit := fun s =>
  let quota := quota_of_throttle throttle (Z.of_nat (length available_cores)) in
  if cpu_max_ok w g quota then
    let s := set_cpu_max g quota s in
    match read_cpu_max g s with
    | Some new_throttle => (set_bandwidth_of g new_throttle s, Some tt)
    | None => (s, Some tt)
    end
  else (s, Some tt).

(** ** Feature maps *)

(** [float(x)] *)
Definition float_of (c : cell) : option float :=
  match c with CFloat x => Some x | CInt z | CStr z => Some (f_of_Z z) | CBad => None end.

(** Indexing, from the end for a negative index; [None] is [IndexError]. *)
Definition py_index (m : list cell) (i : Z) : option nat :=
  let n := Z.of_nat (length m) in
  if (0 <=? i) && (i <? n) then Some (Z.to_nat i)
  else if (- n <=? i) && (i <? 0) then Some (Z.to_nat (n + i))
  else None.
Definition get_float (m : list cell) (i : Z) : option float := k ← py_index m i; c ← m !! k; float_of c.
Definition set_cell (m : list cell) (i : Z) (c : cell) : option (list cell) := k ← py_index m i; Some (<[k := c]> m).

(** [max(x, z)] and [min(x, z)] of a float and an integer. *)
Definition max_cell (x : float) (z : Z) : cell := if (x <? f_of_Z z)%F then CInt z else CFloat x.
Definition min_cell (x : float) (z : Z) : cell := if (f_of_Z z <? x)%F then CInt z else CFloat x.

(** [range(a, b)] *)
Definition py_range (a b : Z) : list Z := map (fun k => a + Z.of_nat k) (seq 0 (Z.to_nat (b - a))).

(** [range(a, b, -5)] *)
Definition range_down (a b : Z) : list Z := map (fun k => a - 5 * Z.of_nat k) (seq 0 (Z.to_nat ((a - b + 4) / 5))).

(** The loop of [update_feature_map_generic]. *)
Fixpoint scale_loop (ixs : list Z) (adj : gmap Z float) (avail_ratio ratio : float) (m : list cell) : option (list cell) :=
  match ixs with
  | [] => Some m
  | i :: ixs =>
      base ← get_float m i;
      let sensitivity := default (f_of_Z 0) (adj !! i) in
      let simulated := (base * ((f1 - avail_ratio) + avail_ratio * (f1 + sensitivity * (ratio - f1))))%F in
      m ← set_cell m i (CFloat simulated);
      scale_loop ixs adj avail_ratio ratio m
  end.

Definition update_feature_map_generic (s : pstate) (m : list cell) (future_throttle available_cores : Z) (g : cgroup)
    : option (list cell) :=
  avail_ratio ← true_div available_cores (num_cores cfg);
  ratio ← true_div future_throttle (bandwidth_of g s);
  scale_loop (py_range (direct_metrics_size cfg) (Z.of_nat (length m))) (adjustment_ratio s) avail_ratio ratio m.

(** A core under a higher limit: one that has been running at its limit is
    expected to run up to the new one. *)
Definition raise_core (bound throttle idx : Z) (m : list cell) : option (list cell * Z) :=
  x ← get_float m idx;
  if (f_of_Z bound <=? x)%F then
    m ← set_cell m idx (max_cell x throttle);
    m ← set_cell m (idx + 1) (CInt (100 - throttle));
    m ← set_cell m (idx + 5) (CInt (100 - throttle));
    m ← set_cell m (idx + 2) (CStr (max_freq cfg));
    Some (m, 1)
  else Some (m, 0).

(** A core under a lower limit. *)
Definition lower_core (throttle idx : Z) (m : list cell) : option (list cell * Z) :=
  x ← get_float m idx;
  m ← set_cell m idx (min_cell x throttle);
  '(m, n) ← (if idx + 1 <? topol_size cfg then
               y ← get_float m (idx + 1);
               if (y <? f_of_Z (100 - throttle))%F then m ← set_cell m (idx + 1) (CInt (100 - throttle)); Some (m, 1)
               else Some (m, 0)
             else Some (m, 0));
  m ← (if idx + 5 <? topol_size cfg then
         y ← get_float m (idx + 5);
         if (y <? f_of_Z (100 - throttle))%F then
           m ← set_cell m (idx + 5) (CInt (100 - throttle));
           set_cell m (idx + 2) (CStr (max_freq cfg))
         else Some m
       else Some m);
  Some (m, n).

(** The loop over the cores; the second result is [core_count]. *)
Fixpoint cores_loop (f : Z -> list cell -> option (list cell * Z)) (cpus : list Z) (m : list cell) (core_count : Z)
    : option (list cell * Z) :=
  match cpus with
  | [] => Some (m, core_count)
  | core :: cpus =>
      let idx := core * core_info_count cfg in
      if idx <? topol_size cfg then
        '(m, n) ← f idx m;
        cores_loop f cpus m (core_count + n)
      else cores_loop f cpus m core_count
  end.

(** The loop of [update_adjustment] over the indexes [ixs]. *)
Fixpoint adjust_loop (ixs : list Z) (predictive_map actual_map : list cell) (adj : gmap Z float) : gmap Z float * option unit :=
  match ixs with
  | [] => (adj, Some tt)
  | i :: ixs =>
      match get_float predictive_map i with
      | None => (adj, None)
      | Some pred =>
          if negb (pred =? f_of_Z 0)%F then
            match get_float actual_map i with
            | None => (adj, None)
            | Some actual =>
                let new_sens := (actual / pred)%F in
                let v := match adj !! i with
                         | Some old => (smoothing_cal * old + (f1 - smoothing_cal) * new_sens)%F
                         | None => new_sens
                         end in
                adjust_loop ixs predictive_map actual_map (<[i := v]> adj)
            end
          else adjust_loop ixs predictive_map actual_map (<[i := f_of_Z 0]> adj)
      end
  end.

Definition update_adjustment (actual_map : list cell) : ctl unit := fun s =>
  let '(adj, r) := adjust_loop (py_range (direct_metrics_size cfg) (Z.of_nat (length actual_map)))
                     (predictive_feature_map s) actual_map (adjustment_ratio s) in
  (set_adjustment adj s, r).

(** ** Searching a throttle *)

(** The loop of [recover_bandwidth]: the first of the candidates whose
    prediction is accepted.  [core_count] is not reset between them. *)
Fixpoint recover_loop (s : pstate) (feature_map : list cell) (g : cgroup) (cands : list Z) (core_count : Z)
    : option (option Z) :=
  match cands with
  | [] => Some None
  | candidate :: cands =>
      '(new_map, core_count) ← cores_loop (raise_core (bandwidth_of g s) candidate) (get_cores g) feature_map core_count;
      new_map ← update_feature_map_generic s new_map candidate core_count g;
      p ← predict w new_map;
      let prediction := (p + calibration_offset s)%F in
      if (prediction <=? f_of_Z (target_power s) + calibration_offset s)%F then Some (Some candidate)
      else recover_loop s feature_map g cands core_count
  end.

(** The assignments to [prev_prediction] and [predictive_feature_map] in this
    function are to local variables. *)
Definition recover_bandwidth (feature_map : list cell) (g : cgroup) : ctl Z :=
  r <- attempt (fun s => recover_loop s feature_map g (range_down 100 (bandwidth_of g s)) 0);;
  match r with
  | Some candidate => modify (fun s => set_flags true (full_mode s) s);;; done_ candidate
  | None => reads (bandwidth_of g)
  end.

(** Again the prediction goes to local variables, so that only [used_map] and
    the exceptions are left.  The bound in the first loop is the throttle of
    the user group, whatever the group. *)
Definition predict_featuremap (feature_map : list cell) (g : cgroup) (throttle : Z) : ctl unit :=
  modify (fun s => set_flags true (full_mode s) s);;;
  attempt (fun s =>
    '(m, core_count) ← cores_loop (if bandwidth_of g s <? throttle then raise_core (current_bandwidth s) throttle
                                    else lower_core throttle) (get_cores g) feature_map 0;
    m ← update_feature_map_generic s m throttle core_count g;
    _ ← predict w m;
    Some tt).

(** The new throttle of a group that gets more bandwidth. *)
Definition next_throttle (feature_map : list cell) (g : cgroup) (gap : float) : ctl Z :=
  new_val <- (if (gap <? f_of_Z 10)%F then reads (fun s => bandwidth_of g s + 1)
              else
                candidate <- recover_bandwidth feature_map g;;
                reads (fun s => if (candidate =? bandwidth_of g s) || (bandwidth_of g s <? 10)
                                then Z.min (bandwidth_of g s + 5) 100 else candidate));;
  done_ (Z.min new_val 100).

Definition increase_bandwidth (feature_map : list cell) (gap : float) : ctl (Z * Z) :=
  modify (fun s => set_flags false (full_mode s) s);;;
  b2 <- reads current_bandwidth2;;
  b <- reads current_bandwidth;;
  (if b2 <? 100 then
     modify (set_bandwidth 1);;;
     set_cpu_limit user 1 get_user_cores;;;
     b <- reads current_bandwidth;;
     predict_featuremap feature_map user b;;;
     new_val <- next_throttle feature_map critical gap;;
     set_cpu_limit critical new_val get_critical_cores;;;
     predict_featuremap feature_map critical new_val;;;
     modify (set_bandwidth2 new_val)
   else if b <? 100 then
     new_val <- next_throttle feature_map user gap;;
     set_cpu_limit user new_val get_user_cores;;;
     predict_featuremap feature_map user new_val;;;
     modify (set_bandwidth new_val)
   else done_ tt);;;
  reads (fun s => (current_bandwidth s, current_bandwidth2 s)).

(** The search of the capping strategies: the first of the throttles whose
    calibrated prediction is within the budget, with its map and prediction;
    otherwise the last map and prediction made. *)
Fixpoint cap_loop (s : pstate) (feature_map : list cell) (g : cgroup) (cpus throttles : list Z) (core_count : Z)
    (last : option (list cell * float)) : option (option Z * option (list cell * float)) :=
  match throttles with
  | [] => Some (None, last)
  | throttle :: throttles =>
      '(m, core_count) ← cores_loop (lower_core throttle) cpus feature_map core_count;
      m ← update_feature_map_generic s m throttle core_count g;
      prediction ← predict w m;
      if (prediction + calibration_offset s <=? f_of_Z (target_power s))%F then Some (Some throttle, Some (m, prediction))
      else cap_loop s feature_map g cpus throttles core_count (Some (m, prediction))
  end.

(** The assignment of [5] is to a misspelt variable.  With no throttle to try
    the map and the prediction are unbound. *)
Definition critical_power_capping (feature_map : list cell) : ctl Z :=
  modify (fun s => if prev s =? 1 then set_prev_retry (prev s) (retry s + 1) s else set_prev_retry (prev s) 0 s);;;
  r <- attempt (fun s => cap_loop s feature_map critical get_critical_cores (range_down (current_bandwidth2 s) 0) 0 None);;
  let selected_throttle := default 1 (fst r) in
  set_cpu_limit critical selected_throttle get_critical_cores;;;
  last <- attempt (fun _ => snd r);;
  modify (set_prediction (fst last) (snd last));;;
  done_ selected_throttle.

(** The map with the user cores at their lowest limit. *)
Definition floor_core (throttle idx : Z) (m : list cell) : option (list cell * Z) :=
  m ← set_cell m idx (CStr throttle);
  m ← set_cell m (idx + 1) (CStr (100 - throttle));
  m ← set_cell m (idx + 5) (CStr (100 - throttle));
  m ← set_cell m (idx + 2) (CStr (max_freq cfg));
  Some (m, 0).

(** A small violation: one step down, of the user group first. *)
Definition strict_small : ctl (Z * Z) :=
  s <- reads id;;
  let step := if (actual_power s <? f_of_Z (target_power s))%F then 5 else 10 in
  if 1 <? current_bandwidth s then
    let new_throttle := Z.max (current_bandwidth s - step) 1 in
    set_cpu_limit user new_throttle get_user_cores;;;
    modify (set_bandwidth new_throttle);;;
    reads (fun s => (new_throttle, current_bandwidth2 s))
  else if 1 <? current_bandwidth2 s then
    let new_throttle := Z.max (current_bandwidth2 s - step) 1 in
    set_cpu_limit critical new_throttle get_critical_cores;;;
    modify (set_bandwidth2 new_throttle);;;
    reads (fun s => (current_bandwidth s, new_throttle))
  else done_ (current_bandwidth s, current_bandwidth2 s).

(** A large one: the user group is limited as the model says, and when that is
    not enough it gets the least and the critical group is limited too. *)
Definition strict_large (feature_map : list cell) : ctl (Z * Z) :=
  modify (fun s => if prev s =? 1 then set_prev_retry (prev s) (retry s + 1) s else set_prev_retry (prev s) 0 s);;;
  r <- attempt (fun s =>
         if 5 <? current_bandwidth s
         then cap_loop s feature_map user get_user_cores (range_down (current_bandwidth s - 5) 0) 0 None
         else Some (None, None));;
  match r with
  | (Some selected_throttle, Some (m, prediction)) =>
      modify (set_prediction m prediction);;;
      set_cpu_limit user selected_throttle get_user_cores;;;
      reads (fun s => (selected_throttle, current_bandwidth2 s))
  | _ =>
      m <- attempt (fun _ => fst <$> cores_loop (floor_core 1) get_user_cores feature_map 0);;
      critical_power_capping m;;;
      set_cpu_limit user 1 get_user_cores;;;
      reads (fun s => (1, current_bandwidth2 s))
  end.

Definition strict_power_capping (feature_map : list cell) : ctl (Z * Z) :=
  s <- reads id;;
  if (actual_power s - f_of_Z (target_power s) <? f_of_Z TOLERANCE)%F then strict_small else strict_large feature_map.

(** ** The control loop *)

(** The readings of one iteration: [None] is a budget that does not parse, a
    power that was not measured, a sample that does not parse. *)
Record sample : Type := {
  budget : option Z;
  power : option float;
  metrics : option (list cell);
}.

Definition over_budget (s : pstate) : bool := (f_of_Z (target_power s) * (f1 - ceiling) <=? actual_power s)%F.
Definition under_budget (s : pstate) : bool := (actual_power s <? f_of_Z (target_power s) * (f1 - ceiling * f_of_Z 2))%F.

(** The part of an iteration that has all its readings. *)
Definition control (metrics_data : list cell) : ctl unit :=
  s <- reads id;;
  (if used_map s then
     modify (set_calibration (smoothing_cal * calibration_offset s
                              + (f1 - smoothing_cal) * (actual_power s - prev_prediction s))%F);;;
     update_adjustment metrics_data
   else done_ tt);;;
  modify (fun s => set_flags false (full_mode s) s);;;
  s <- reads id;;
  if over_budget s then
    r <- strict_power_capping metrics_data;;
    modify (fun s => set_bandwidth2 (snd r) (set_bandwidth (fst r) s));;;
    modify (fun s => set_flags true (full_mode s) (set_prev_retry 1 (retry s + 1) s))
  else if under_budget s then
    r <- increase_bandwidth metrics_data (f_of_Z (target_power s) - actual_power s)%F;;
    modify (fun s => set_prev_retry 0 (retry s) (set_bandwidth2 (snd r) (set_bandwidth (fst r) s)))
  else modify (fun s => set_flags false (full_mode s) (set_prev_retry 0 0 s)).

Definition iteration (i : sample) : ctl unit :=
  match budget i with
  | None => done_ tt
  | Some b =>
      modify (set_target b);;;
      full <- reads full_mode;;
      match power i with
      | None => done_ tt
      | Some p =>
          modify (set_power p);;;
          if negb full then
            modify (fun s => if over_budget s then set_flags (used_map s) true s else s)
          else
            match metrics i with
            | None => done_ tt
            | Some metrics_data =>
                modify (fun s => match predictive_feature_map s with
                                 | [] => set_prediction metrics_data (prev_prediction s) s
                                 | _ => s
                                 end);;;
                control metrics_data
            end
      end
  end.

(** What [run_stress_test] does before its loop. *)
Definition run_stress_test_init (s : pstate) : pstate := set_bandwidth 100 (set_calibration (f_of_Z 0) s).
End Controller.

(** The globals when the program starts; the limits are not known. *)
Definition initial (limits : cgroup -> option Z) : pstate :=
  {| current_bandwidth := 100; current_bandwidth2 := 100; adjustment_ratio := ∅; predictive_feature_map := [];
     actual_power := f_of_Z 0; target_power := 0; prev_prediction := f_of_Z 0; prev := 0; retry := 0;
     calibration_offset := f_of_Z 0; used_map := false; full_mode := false; cpu_max := limits |}.
