(* ===== verification/PowerCapFacts.v ===== *)
(** * What the power-capping controller guarantees

    The throttles stay percentages, the critical group is limited only when
    the user group has the least, capping never raises a limit, and repeated
    iterations above or below the budget reach the lowest or the highest
    throttles. *)
From stdpp Require Import gmap.
From S2P Require Import Prelude PyFloat Cpuset PowerCap.

Local Open Scope Z_scope.
Local Open Scope ctl_scope.

(** ** Reading a limit back *)

(** What [read_cpu_max] makes of a throttle that was just set. *)
Definition readback (t : Z) : Z := if (t =? 29) || (t =? 57) || (t =? 58) then t - 1 else t.

Lemma quota_value n t : 0 < n < 2 ^ 20 -> 1 <= t <= 100 -> quota_of_throttle t n = 1000 * n * t.
Proof.
  intros Hn Ht. unfold quota_of_throttle. replace (100000 * n * t) with (1000 * n * t * 100) by lia.
  rewrite true_div_exact by lia. apply trunc_of_Z. nia.
Qed.

Lemma readback_table :
  forallb (fun k => let t := Z.of_nat k in
             match true_div t 100 with Some q => f_trunc (q * f_of_Z 100)%F =? readback t | None => false end) (seq 1 100) = true.
Proof. vm_compute. reflexivity. Qed.

Lemma readback_value n t : 0 < n -> 1 <= t <= 100 -> throttle_of_quota (1000 * n * t) n = Some (readback t).
Proof.
  intros Hn Ht. unfold throttle_of_quota. replace (1000 * n * t) with (t * (1000 * n)) by lia.
  replace (100000 * n) with (100 * (1000 * n)) by lia. rewrite true_div_scale by lia.
  pose proof (proj1 (forallb_forall _ _) readback_table (Z.to_nat t) ltac:(apply in_seq; lia)) as Hb. cbv beta zeta in Hb.
  rewrite Z2Nat.id in Hb by lia. destruct (true_div t 100) as [q|]; [|done]. cbn [mbind option_bind]. f_equal. by apply Z.eqb_eq.
Qed.

Lemma readback_range t : 1 <= t <= 100 -> 1 <= readback t <= t.
Proof. unfold readback. intros Ht. destruct (_ || _) eqn:E; lia. Qed.

(** ** Environments *)

(** Both functions that count the cores of a group agree, and find some.  They
    need not: [get_user_cores] and [get_critical_cores] fall back to the allowed cores
    when few are effective, [read_cpu_max] only when none is. *)
Definition world_ok (cfg : config) (w : world) (ncores : cgroup -> Z) : Prop :=
  forall g, Z.of_nat (length (get_cores cfg w g)) = ncores g /\ Z.of_nat (length (readback_cores w g)) = ncores g /\ 0 < ncores g < 2 ^ 20.

(** The kernel accepts every limit. *)
Definition accepting (w : world) : Prop := forall g q, cpu_max_ok w g q = true.

(** The state after a limit was set. *)
Definition limited (ncores : cgroup -> Z) (g : cgroup) (t : Z) (s : pstate) : pstate :=
  set_bandwidth_of g (readback t) (set_cpu_max g (1000 * ncores g * t) s).

Section Specs.
Context (cfg : config) (w : world) (ncores : cgroup -> Z) (Hw : world_ok cfg w ncores).

Lemma set_cpu_limit_spec g t s :
  1 <= t <= 100 ->
  set_cpu_limit w g t (get_cores cfg w g) s = (if cpu_max_ok w g (1000 * ncores g * t) then limited ncores g t s else s, Some tt).
Proof.
  intros Ht. destruct (Hw g) as (H1 & H2 & H3). unfold set_cpu_limit. rewrite H1, quota_value by lia.
  destruct (cpu_max_ok w g _); [|done]. unfold read_cpu_max.
  assert (cpu_max (set_cpu_max g (1000 * ncores g * t) s) g = Some (1000 * ncores g * t)) as -> by (by destruct g). cbn [mbind option_bind].
  destruct (readback_cores w g) eqn:E; [cbn in H2; lia|]. rewrite H2, readback_value by lia. done.
Qed.
End Specs.

(** C40: where the cores counted for writing a limit are as many as those counted
    for reading it ([world_ok]), a limit that the kernel accepts gives the group
    exactly that fraction of its cores, but the throttle the controller reads back
    is one less for 29, 57 and 58 percent, where the floating-point quotient falls
    short. *)
Theorem set_cpu_limit_reads_back cfg w ncores g t s :
  world_ok cfg w ncores -> 1 <= t <= 100 -> cpu_max_ok w g (1000 * ncores g * t) = true ->
  exists s', set_cpu_limit w g t (get_cores cfg w g) s = (s', Some tt) /\
    cpu_max s' g = Some (1000 * ncores g * t) /\
    bandwidth_of g s' = if (t =? 29) || (t =? 57) || (t =? 58) then t - 1 else t.
Proof.
  intros Hw Ht Hok. rewrite (set_cpu_limit_spec _ _ _ Hw _ _ _ Ht), Hok. eexists. split; [done|]. by destruct g.
Qed.

(** ** Reasoning about computations *)

(** The state and the result of a computation satisfy [Q]. *)
Definition post {A} (c : ctl A) (s : pstate) (Q : pstate -> option A -> Prop) : Prop := Q (fst (c s)) (snd (c s)).

Lemma post_then {A B} (c : ctl A) (k : A -> ctl B) s Q :
  post c s (fun s' r => match r with Some a => post (k a) s' Q | None => Q s' None end) -> post (then_ c k) s Q.
Proof. unfold post, then_. destruct (c s) as [s' [a|]]; done. Qed.

Lemma post_weaken {A} (c : ctl A) s (Q Q' : pstate -> option A -> Prop) :
  post c s Q -> (forall s' r, Q s' r -> Q' s' r) -> post c s Q'.
Proof. unfold post. auto. Qed.

Lemma post_then_spec {A B} (c : ctl A) (k : A -> ctl B) s Q R :
  post c s Q -> (forall s' a, Q s' (Some a) -> post (k a) s' R) -> (forall s', Q s' None -> R s' None) -> post (then_ c k) s R.
Proof. intros Hc Hs Hn. apply post_then. eapply post_weaken; [exact Hc|]. intros s' [a|]; auto. Qed.

Lemma post_run {A} (c : ctl A) s (Q : pstate -> option A -> Prop) s' r : c s = (s', r) -> Q s' r -> post c s Q.
Proof. unfold post. by intros ->. Qed.

Lemma post_reads {A B} (f : pstate -> A) (k : A -> ctl B) s Q : post (k (f s)) s Q -> post (then_ (reads f) k) s Q.
Proof. done. Qed.

Lemma post_modify {B} f (k : unit -> ctl B) s Q : post (k tt) (f s) Q -> post (then_ (modify f) k) s Q.
Proof. done. Qed.

Lemma post_attempt {A B} (f : pstate -> option A) (k : A -> ctl B) s Q :
  match f s with Some a => post (k a) s Q | None => Q s None end -> post (then_ (attempt f) k) s Q.
Proof. intros H. apply post_then. exact H. Qed.

(** What leaves throttles and limits alone. *)
Definition same (s s' : pstate) : Prop :=
  current_bandwidth s' = current_bandwidth s /\ current_bandwidth2 s' = current_bandwidth2 s /\ cpu_max s' = cpu_max s.

Lemma same_refl s : same s s.
Proof. done. Qed.

Lemma same_bandwidth_of g s s' : same s s' -> bandwidth_of g s' = bandwidth_of g s.
Proof. intros (? & ? & ?). by destruct g. Qed.

(** Throttles are percentages. *)
Definition throttles_ok (s : pstate) : Prop := 1 <= current_bandwidth s <= 100 /\ 1 <= current_bandwidth2 s <= 100.

Lemma same_throttles s s' : same s s' -> throttles_ok s -> throttles_ok s'.
Proof. intros (E1 & E2 & _). unfold throttles_ok. by rewrite E1, E2. Qed.

(** The critical group is limited only when the user group has the least. *)
Definition prioritised (s : pstate) : Prop := current_bandwidth2 s = 100 \/ current_bandwidth s = 1.

(** The limits of the groups are those of the throttles; a group that was never
    limited has the full throttle.  What was read back for the critical group
    may be one less than the limit. *)
Definition limits_ok (ncores : cgroup -> Z) (s : pstate) : Prop :=
  (cpu_max s user = Some (1000 * ncores user * current_bandwidth s) \/ cpu_max s user = None /\ current_bandwidth s = 100) /\
  (cpu_max s critical = None /\ current_bandwidth2 s = 100 \/
   exists t, 1 <= t <= 100 /\ cpu_max s critical = Some (1000 * ncores critical * t) /\ readback t <= current_bandwidth2 s <= t).

Create HintDb powercap.
#[export] Hint Resolve same_refl same_throttles : powercap.

Lemma range_down_spec a b t : t ∈ range_down a b -> b < t <= a.
Proof.
  unfold range_down. intros (k & -> & Hk)%list_elem_of_fmap. apply elem_of_seq in Hk.
  pose proof (Z.mul_div_le (a - b + 4) 5 ltac:(lia)). lia.
Qed.

Lemma range_down_first a b : b < a -> exists l, range_down a b = a :: l.
Proof.
  intros Hab. unfold range_down. assert (1 <= (a - b + 4) / 5) by (apply Z.div_le_lower_bound; lia).
  destruct (Z.to_nat ((a - b + 4) / 5)) as [|n] eqn:E; [lia|]. cbn [seq map]. exists (map (fun k => a - 5 * Z.of_nat k) (seq 1 n)). f_equal. lia.
Qed.

Section Steps.
Context (cfg : config) (w : world) (ncores : cgroup -> Z) (Hw : world_ok cfg w ncores).

Lemma recover_loop_in s fm g cands n c : recover_loop cfg w s fm g cands n = Some (Some c) -> c ∈ cands.
Proof.
  revert n. induction cands as [|c' cands IH]; intros n; cbn [recover_loop]; [done|].
  destruct (cores_loop _ _ _ _ _) as [[m n']|]; cbn [mbind option_bind]; [|done].
  destruct (update_feature_map_generic _ _ _ _ _ _) as [m'|]; cbn [mbind option_bind]; [|done].
  destruct (predict w m') as [p|]; cbn [mbind option_bind]; [|done].
  destruct (_ <=? _)%F; [intros [= ->]; by left|]. intros H. right. by eapply IH.
Qed.

Lemma recover_spec fm g s :
  post (recover_bandwidth cfg w fm g) s (fun s' r => same s s' /\
    match r with Some c => c = bandwidth_of g s \/ bandwidth_of g s < c <= 100 | None => True end).
Proof.
  unfold recover_bandwidth. apply post_then. unfold post, attempt. cbn [fst snd].
  destruct (recover_loop _ _ _ _ _ _ _) as [[c|]|] eqn:E; cbn; split; try done; [|by left].
  right. by apply recover_loop_in, range_down_spec in E.
Qed.

Lemma predict_spec fm g t s : post (predict_featuremap cfg w fm g t) s (fun s' _ => same s s').
Proof. done. Qed.

Lemma next_throttle_spec fm g gap s :
  bandwidth_of g s < 100 ->
  post (next_throttle cfg w fm g gap) s (fun s' r => same s s' /\ match r with Some v => bandwidth_of g s < v <= 100 | None => True end).
Proof.
  intros Hb. unfold next_throttle. apply post_then. destruct (gap <? f_of_Z 10)%F.
  { unfold reads, done_, post. cbn [fst snd]. split; [done|]. lia. }
  eapply post_then_spec; [apply recover_spec| |by intros s' [Hs _]]. intros s' c [Hs Hc]. unfold reads, done_, post. cbn [fst snd]. split; [done|].
  rewrite !(same_bandwidth_of _ _ _ Hs). destruct (Z.eqb_spec c (bandwidth_of g s)); cbn [orb]; [lia|].
  destruct (Z.ltb_spec (bandwidth_of g s) 10); lia.
Qed.

(** Setting a limit, whether or not the kernel accepts it. *)
Lemma post_set {B} g cores t (k : unit -> ctl B) s Q :
  cores = get_cores cfg w g -> 1 <= t <= 100 ->
  post (k tt) (if cpu_max_ok w g (1000 * ncores g * t) then limited ncores g t s else s) Q -> post (then_ (set_cpu_limit w g t cores) k) s Q.
Proof using Hw.
  intros -> Ht Hk. apply post_then. eapply post_run; [by apply set_cpu_limit_spec|exact Hk].
Qed.

(** What the result of giving bandwidth must be. *)
Definition increased (s s' : pstate) (b b2 : Z) : Prop :=
  b = current_bandwidth s' /\ b2 = current_bandwidth2 s' /\ throttles_ok s' /\
  (if current_bandwidth2 s <? 100 then b = 1 /\ current_bandwidth2 s < b2
   else b2 = current_bandwidth2 s /\ (if current_bandwidth s <? 100 then current_bandwidth s < b else b = current_bandwidth s)) /\
  (accepting w -> limits_ok ncores s -> limits_ok ncores s').

Lemma increase_critical fm gap s :
  throttles_ok s -> current_bandwidth2 s < 100 ->
  post (modify (set_bandwidth 1);;;
        set_cpu_limit w user 1 (get_user_cores w);;;
        b <- reads current_bandwidth;;
        predict_featuremap cfg w fm user b;;;
        new_val <- next_throttle cfg w fm critical gap;;
        set_cpu_limit w critical new_val (get_critical_cores cfg w);;;
        predict_featuremap cfg w fm critical new_val;;;
        modify (set_bandwidth2 new_val)) s
    (fun s' r => throttles_ok s' /\
       (r = Some tt -> increased s s' (current_bandwidth s') (current_bandwidth2 s'))).
Proof using Hw.
  intros [Hb Hb2] H100. apply post_modify.
  apply post_set; [done|lia|]. set (s1 := if cpu_max_ok _ _ _ then _ else _).
  assert (current_bandwidth s1 = 1 /\ current_bandwidth2 s1 = current_bandwidth2 s /\ cpu_max s1 critical = cpu_max s critical /\
    (accepting w -> cpu_max s1 user = Some (1000 * ncores user * 1))) as (E1 & E2 & E3 & E4).
  { unfold s1. destruct (cpu_max_ok _ _ _) eqn:Eok; split_and!; try done; intros Ha; by rewrite Ha in Eok. }
  clearbody s1.
  apply post_reads.
  eapply post_then_spec; [apply predict_spec| |]; [|intros s2 (F1 & F2 & _); split; [unfold throttles_ok; lia|done]].
  intros s2 [] (F1 & F2 & F3). eapply post_then_spec; [apply next_throttle_spec; cbn [bandwidth_of]; lia| |];
    [|intros s3 [(G1 & G2 & _) _]; split; [unfold throttles_ok; lia|done]].
  intros s3 v [(G1 & G2 & G3) Hv]. cbn [bandwidth_of] in Hv. pose proof (readback_range v ltac:(lia)).
  apply post_set; [done|lia|]. set (s4 := if cpu_max_ok _ _ _ then _ else _).
  assert (current_bandwidth s4 = 1 /\ 1 <= current_bandwidth2 s4 <= 100 /\ cpu_max s4 user = cpu_max s1 user /\
    (accepting w -> cpu_max s4 critical = Some (1000 * ncores critical * v))) as (I1 & I2 & I3 & I4).
  { unfold s4. destruct (cpu_max_ok _ _ _) eqn:Eok; cbn -[readback Z.mul]; split_and!; try lia; try congruence; try (intros Ha; by rewrite Ha in Eok); try done. }
  clearbody s4.
  eapply post_then_spec; [apply predict_spec| |]; [|intros s5 (J1 & J2 & _); split; [unfold throttles_ok; lia|done]].
  intros s5 [] (J1 & J2 & J3). unfold post, modify. cbn [fst snd]. assert (throttles_ok (set_bandwidth2 v s5)) as Hok by (unfold throttles_ok; cbn; lia).
  split; [done|]. intros _. split_and!; try done; cbn [current_bandwidth current_bandwidth2 set_bandwidth2].
  - destruct (Z.ltb_spec (current_bandwidth2 s) 100); lia.
  - intros Ha _. specialize (E4 Ha). specialize (I4 Ha). unfold limits_ok. cbn [current_bandwidth current_bandwidth2 set_bandwidth2 cpu_max].
    rewrite J3, I3, I4, E4. split; [left; do 2 f_equal; lia|right]. exists v. split_and!; try done; lia.
Qed.

Lemma increase_user fm gap s :
  throttles_ok s -> 100 <= current_bandwidth2 s -> current_bandwidth s < 100 ->
  post (new_val <- next_throttle cfg w fm user gap;;
        set_cpu_limit w user new_val (get_user_cores w);;;
        predict_featuremap cfg w fm user new_val;;;
        modify (set_bandwidth new_val)) s
    (fun s' r => throttles_ok s' /\
       (r = Some tt -> increased s s' (current_bandwidth s') (current_bandwidth2 s'))).
Proof using Hw.
  intros [Hb Hb2] H2 H1. eapply post_then_spec; [apply next_throttle_spec; done| |];
    [|intros s3 [(G1 & G2 & _) _]; split; [unfold throttles_ok; lia|done]].
  intros s3 v [(G1 & G2 & G3) Hv]. cbn [bandwidth_of] in Hv. pose proof (readback_range v ltac:(lia)).
  apply post_set; [done|lia|]. set (s4 := if cpu_max_ok _ _ _ then _ else _).
  assert (1 <= current_bandwidth s4 <= 100 /\ current_bandwidth2 s4 = current_bandwidth2 s /\ cpu_max s4 critical = cpu_max s critical /\
    (accepting w -> cpu_max s4 user = Some (1000 * ncores user * v))) as (I1 & I2 & I3 & I4).
  { unfold s4. destruct (cpu_max_ok _ _ _) eqn:Eok; cbn -[readback Z.mul]; split_and!; try lia; try congruence; try (intros Ha; by rewrite Ha in Eok); try done. }
  clearbody s4.
  eapply post_then_spec; [apply predict_spec| |]; [|intros s5 (J1 & J2 & _); split; [unfold throttles_ok; lia|done]].
  intros s5 [] (J1 & J2 & J3). unfold post, modify. cbn [fst snd]. assert (throttles_ok (set_bandwidth v s5)) as Hok by (unfold throttles_ok; cbn; lia).
  split; [done|]. intros _. split_and!; try done; cbn [current_bandwidth current_bandwidth2 set_bandwidth].
  - destruct (Z.ltb_spec (current_bandwidth2 s) 100); [lia|]. destruct (Z.ltb_spec (current_bandwidth s) 100); lia.
  - intros Ha [_ Hc]. specialize (I4 Ha). unfold limits_ok. cbn [current_bandwidth current_bandwidth2 set_bandwidth cpu_max].
    rewrite J3, I3, I4, J2, I2. split; [by left|done].
Qed.

Lemma increase_spec fm gap s :
  throttles_ok s ->
  post (increase_bandwidth cfg w fm gap) s (fun s' r => throttles_ok s' /\
    match r with Some (b, b2) => increased s s' b b2 | None => True end).
Proof using Hw.
  intros Hok. unfold increase_bandwidth. apply post_modify.
  set (s0 := set_flags _ _ _). apply post_reads. apply post_reads.
  assert (forall s' b b2, increased s0 s' b b2 -> increased s s' b b2) as Hinc by done.
  change (current_bandwidth2 s0) with (current_bandwidth2 s). change (current_bandwidth s0) with (current_bandwidth s).
  destruct (Z.ltb_spec (current_bandwidth2 s) 100) as [H2|H2]; [|destruct (Z.ltb_spec (current_bandwidth s) 100) as [H1|H1]].
  - eapply post_then_spec; [by apply increase_critical| |by intros s' [Ht _]].
    intros s' [] [Ht Hi]. split; [done|]. by apply Hinc, Hi.
  - eapply post_then_spec; [by apply increase_user| |by intros s' [Ht _]].
    intros s' [] [Ht Hi]. split; [done|]. by apply Hinc, Hi.
  - unfold done_, then_, reads, post. cbn [fst snd]. split; [done|]. unfold increased. split_and!; try done.
    destruct (Z.ltb_spec (current_bandwidth2 s) 100); [lia|]. destruct (Z.ltb_spec (current_bandwidth s) 100); [lia|done].
Qed.

(** What the result of capping must be: no throttle has grown, and the critical
    group has lost bandwidth only if the user group has the least.  The loop
    assigns the result to the throttles. *)
Definition capped (s s' : pstate) (b b2 : Z) : Prop :=
  1 <= b <= current_bandwidth s /\ 1 <= b2 <= current_bandwidth2 s /\ (b2 < current_bandwidth2 s -> b = 1) /\
  (accepting w -> limits_ok ncores s -> limits_ok ncores (set_bandwidth2 b2 (set_bandwidth b s'))).

(** One step down. *)
Definition one_down (step : Z) (s : pstate) : Z * Z :=
  if 1 <? current_bandwidth s then (Z.max (current_bandwidth s - step) 1, current_bandwidth2 s)
  else if 1 <? current_bandwidth2 s then (current_bandwidth s, Z.max (current_bandwidth2 s - step) 1)
  else (current_bandwidth s, current_bandwidth2 s).

(** A limit that was set and then assigned. *)
Lemma limited_user t s :
  1 <= t <= 100 -> let s' := set_bandwidth t (if cpu_max_ok w user (1000 * ncores user * t) then limited ncores user t s else s) in
  current_bandwidth2 s' = current_bandwidth2 s /\ (accepting w -> limits_ok ncores s -> limits_ok ncores s') /\
  (accepting w -> cpu_max s' user = Some (1000 * ncores user * t)).
Proof.
  intros Ht s'. unfold s'. destruct (cpu_max_ok _ _ _) eqn:E; (split; [done|split; [|intros Ha; by try rewrite Ha in E]]); [|intros Ha; by rewrite Ha in E].
  intros _ [_ Hc]. split; [by left|exact Hc].
Qed.

Lemma limited_critical t s b2 :
  1 <= t <= 100 -> readback t <= b2 <= t ->
  let s' := set_bandwidth2 b2 (if cpu_max_ok w critical (1000 * ncores critical * t) then limited ncores critical t s else s) in
  current_bandwidth s' = current_bandwidth s /\ (accepting w -> limits_ok ncores s -> limits_ok ncores s').
Proof.
  intros Ht Hb s'. unfold s'. destruct (cpu_max_ok _ _ _) eqn:E; (split; [done|]); [|intros Ha; by rewrite Ha in E].
  intros _ [Hu _]. split; [exact Hu|]. right. by exists t.
Qed.

Lemma strict_small_spec s :
  throttles_ok s ->
  post (strict_small cfg w) s (fun s' r => throttles_ok s' /\ exists step, 5 <= step <= 10 /\ r = Some (one_down step s) /\
    capped s s' (fst (one_down step s)) (snd (one_down step s)) /\
    (accepting w -> 1 < current_bandwidth s -> cpu_max s' user = Some (1000 * ncores user * fst (one_down step s)))).
Proof using Hw.
  intros [Hb Hb2]. unfold strict_small. apply post_reads. unfold id. set (step := if (_ <? _)%F then 5 else 10).
  assert (5 <= step <= 10) as Hstep by (unfold step; destruct (_ <? _)%F; lia). clearbody step. unfold one_down.
  destruct (Z.ltb_spec 1 (current_bandwidth s)) as [H1|H1]; [|destruct (Z.ltb_spec 1 (current_bandwidth2 s)) as [H2|H2]].
  - remember (Z.max _ 1) as t eqn:Etd. destruct (limited_user t s ltac:(lia)) as (E & El & Eu). cbv zeta in E, El, Eu.
    apply post_set; [done|lia|]. apply post_modify. set (s' := set_bandwidth t _) in *. assert (current_bandwidth s' = t) as Et by done. clearbody s'.
    unfold post, reads. cbn [fst snd]. split; [unfold throttles_ok; lia|]. exists step. rewrite E, <- Etd. split_and!; [lia|lia|done| |by try (intros Ha _; apply Eu)].
    unfold capped. split_and!; try lia. intros Ha Hl. specialize (El Ha Hl). unfold limits_ok in *.
    cbn [fst snd set_bandwidth set_bandwidth2 cpu_max current_bandwidth current_bandwidth2]. by rewrite <- Et, <- E.
  - remember (Z.max _ 1) as t eqn:Etd. pose proof (readback_range t ltac:(lia)). destruct (limited_critical t s t ltac:(lia) ltac:(lia)) as [E El]. cbv zeta in E, El.
    apply post_set; [done|lia|]. apply post_modify. set (s' := set_bandwidth2 t _) in *. assert (current_bandwidth2 s' = t) as Et by done. clearbody s'.
    unfold post, reads. cbn [fst snd]. split; [unfold throttles_ok; lia|]. exists step. rewrite E, <- Etd. split_and!; [lia|lia|done| |intros _ ?; lia].
    unfold capped. split_and!; try lia. intros Ha Hl. specialize (El Ha Hl). unfold limits_ok in *.
    cbn [fst snd set_bandwidth set_bandwidth2 cpu_max current_bandwidth current_bandwidth2]. by rewrite <- Et, <- E.
  - unfold post, done_. cbn [fst snd]. split; [done|]. exists step. split_and!; [lia|lia|done| |intros _ ?; lia]. unfold capped. split_and!; try lia. done.
Qed.

Lemma cap_loop_in s fm g cpus ts n last t l : cap_loop cfg w s fm g cpus ts n last = Some (Some t, l) -> t ∈ ts /\ is_Some l.
Proof.
  revert n last. induction ts as [|t' ts IH]; intros n last; cbn [cap_loop]; [done|].
  destruct (cores_loop _ _ _ _ _) as [[m n']|]; cbn [mbind option_bind]; [|done].
  destruct (update_feature_map_generic _ _ _ _ _ _) as [m'|]; cbn [mbind option_bind]; [|done].
  destruct (predict w m') as [p|]; cbn [mbind option_bind]; [|done].
  destruct (_ <=? _)%F; [intros [= -> <-]; split; [by left|done]|]. intros Hl. destruct (IH _ _ Hl). split; [by right|done].
Qed.

(** The critical group is limited to a throttle that is not above its own. *)
Lemma critical_spec fm s :
  throttles_ok s ->
  post (critical_power_capping cfg w fm) s (fun s' r => throttles_ok s' /\ current_bandwidth s' = current_bandwidth s /\
    current_bandwidth2 s' <= current_bandwidth2 s /\ cpu_max s' user = cpu_max s user /\
    (accepting w -> limits_ok ncores s -> limits_ok ncores s')).
Proof using Hw.
  intros [Hb Hb2]. unfold critical_power_capping. apply post_modify. set (s1 := if _ =? 1 then _ else _).
  assert (same s s1) as (E1 & E2 & E3) by (unfold s1; by destruct (_ =? 1)). clearbody s1. apply post_attempt.
  destruct (cap_loop _ _ _ _ _ _ _ _ _) as [[o l]|] eqn:El; [|unfold throttles_ok, limits_ok; rewrite E1, E2, E3; split_and!; done || lia].
  set (t := default 1 (fst (o, l))). assert (1 <= t <= current_bandwidth2 s) as Ht.
  { destruct o as [t0|]; cbn in t; unfold t; [|lia]. apply cap_loop_in in El as [Ht%range_down_spec _]. lia. }
  clearbody t. pose proof (readback_range t ltac:(lia)). destruct (limited_critical t s1 (readback t) ltac:(lia) ltac:(lia)) as [F1 F2]. cbv zeta in F1, F2.
  apply post_set; [done|lia|]. set (s2 := if cpu_max_ok _ _ _ then _ else _) in *.
  assert (throttles_ok s2 /\ current_bandwidth s2 = current_bandwidth s /\ current_bandwidth2 s2 <= current_bandwidth2 s /\
    cpu_max s2 user = cpu_max s user /\ (accepting w -> limits_ok ncores s -> limits_ok ncores s2)) as Hs2.
  { split_and!.
    1-4: unfold s2, throttles_ok; destruct (cpu_max_ok _ _ _); cbn -[readback]; rewrite ?E1, ?E2, ?E3; split_and?; done || lia.
    intros Ha Hl. assert (limits_ok ncores s1) as Hl1 by (unfold limits_ok; by rewrite E1, E2, E3). specialize (F2 Ha Hl1).
    unfold s2 in *. rewrite Ha in *. exact F2. }
  clearbody s2. apply post_attempt. cbn [snd]. destruct l as [[m p]|]; [|done]. exact Hs2.
Qed.

(** Assigning to the user throttle what its limit was set to. *)
Lemma limited_commit t s :
  1 <= t <= 100 ->
  let s' := if cpu_max_ok w user (1000 * ncores user * t) then limited ncores user t s else s in
  current_bandwidth2 s' = current_bandwidth2 s /\ current_bandwidth s' <= Z.max t (current_bandwidth s) /\
  (throttles_ok s -> throttles_ok s') /\
  (accepting w -> limits_ok ncores s -> limits_ok ncores (set_bandwidth2 (current_bandwidth2 s') (set_bandwidth t s'))).
Proof using Hw.
  intros Ht s'. pose proof (readback_range t Ht). destruct (limited_user t s Ht) as (E & El & _). cbv zeta in E, El. split_and!.
  - unfold s'. by destruct (cpu_max_ok _ _ _).
  - unfold s'. destruct (cpu_max_ok _ _ _); cbn -[readback]; lia.
  - unfold s', throttles_ok. destruct (cpu_max_ok _ _ _); cbn -[readback]; lia.
  - intros Ha Hl. specialize (El Ha Hl). exact El.
Qed.

Lemma strict_large_spec fm s :
  throttles_ok s ->
  post (strict_large cfg w fm) s (fun s' r => throttles_ok s' /\
    match r with Some (b, b2) => capped s s' b b2
    | None => current_bandwidth s' <= current_bandwidth s /\ current_bandwidth2 s' <= current_bandwidth2 s end).
Proof using Hw.
  intros [Hb Hb2]. unfold strict_large. apply post_modify. set (s1 := if _ =? 1 then _ else _).
  assert (same s s1) as (E1 & E2 & E3) by (unfold s1; by destruct (_ =? 1)). clearbody s1.
  assert (throttles_ok s1) as Hok1 by (unfold throttles_ok; lia).
  assert (limits_ok ncores s -> limits_ok ncores s1) as Hlim by (unfold limits_ok; by rewrite E1, E2, E3).
  apply post_attempt.
  destruct (if 5 <? current_bandwidth s1 then _ else _) as [[o l]|] eqn:El; [|split; [done|lia]].
  assert ((exists t m p, o = Some t /\ l = Some (m, p) /\ 1 <= t <= current_bandwidth s) \/ o = None) as [(t & m & p & -> & -> & Ht)| ->].
  { destruct o as [t|]; [left|by right]. destruct (Z.ltb_spec 5 (current_bandwidth s1)); [|done].
    apply cap_loop_in in El as [Ht%range_down_spec [[m p] ->]]. exists t, m, p. split_and!; try done; lia. }
  - apply post_modify. apply post_set; [done|lia|]. set (s2 := set_prediction m p s1) in *.
    destruct (limited_commit t s2 ltac:(lia)) as (F1 & F2 & F3 & F4). cbv zeta in F1, F2, F3, F4.
    set (s3 := if cpu_max_ok _ _ _ then _ else _) in *. clearbody s3. unfold post, reads. cbn [fst snd]. split; [by apply F3|].
    change (current_bandwidth2 s2) with (current_bandwidth2 s1) in *. rewrite F1 in *. unfold capped. split_and!; try lia.
    intros Ha Hl. apply F4; [done|]. by apply Hlim.
  - apply post_attempt. destruct (fst <$> _) as [m|]; [|split; [done|lia]].
    eapply post_then_spec; [by apply critical_spec| |intros s' (? & ? & ? & _); split; [done|lia]].
    intros s2 t (Hok2 & G1 & G2 & _ & G4). apply post_set; [done|lia|].
    destruct (limited_commit 1 s2 ltac:(lia)) as (F1 & F2 & F3 & F4). cbv zeta in F1, F2, F3, F4.
    set (s3 := if cpu_max_ok _ _ _ then _ else _) in *. clearbody s3. unfold post, reads. cbn [fst snd]. split; [by apply F3|].
    destruct (F3 Hok2) as [_ ?]. unfold capped. split_and!; try lia. intros Ha Hl. apply F4; [done|]. apply G4; auto.
Qed.

Lemma strict_spec fm s :
  throttles_ok s ->
  post (strict_power_capping cfg w fm) s (fun s' r => throttles_ok s' /\
    match r with Some (b, b2) => capped s s' b b2
    | None => current_bandwidth s' <= current_bandwidth s /\ current_bandwidth2 s' <= current_bandwidth2 s end).
Proof using Hw.
  intros Hok. unfold strict_power_capping. apply post_reads. destruct (_ <? _)%F; [|by apply strict_large_spec].
  eapply post_weaken; [by apply strict_small_spec|]. intros s' r (Hok' & step & Hstep & -> & Hc & _). split; [done|]. by destruct (one_down step s).
Qed.

(** What every iteration keeps. *)
Definition kept_by (s s' : pstate) (r : option unit) : Prop :=
  throttles_ok s' /\
  (r = Some tt -> (prioritised s -> prioritised s') /\ (accepting w -> limits_ok ncores s -> limits_ok ncores s')).

Lemma same_kept s s1 s' r : same s s1 -> kept_by s1 s' r -> kept_by s s' r.
Proof. intros (E1 & E2 & E3). unfold kept_by, prioritised, limits_ok. by rewrite E1, E2, E3. Qed.

(** The calibration that starts an iteration. *)
Lemma calibrate_spec fm s :
  post (if used_map s then
          modify (set_calibration (smoothing_cal * calibration_offset s + (f1 - smoothing_cal) * (actual_power s - prev_prediction s))%F);;;
          update_adjustment cfg fm
        else done_ tt) s (fun s' _ => same s s' /\ actual_power s' = actual_power s /\ target_power s' = target_power s).
Proof.
  destruct (used_map s); [|done]. apply post_modify. unfold post, update_adjustment. by destruct (adjust_loop _ _ _ _).
Qed.

Lemma control_spec fm s : throttles_ok s -> post (control cfg w fm) s (kept_by s).
Proof using Hw.
  intros Hok. unfold control. apply post_reads. eapply post_then_spec; [apply calibrate_spec| |].
  2: { intros s' [Hs _]. split; [by eapply same_throttles|done]. }
  intros s1 [] [Hs _]. pose proof (same_throttles _ _ Hs Hok) as Hok1. apply post_modify. set (s2 := set_flags _ _ s1).
  assert (same s s2) as Hs2 by exact Hs. apply (post_weaken _ _ (kept_by s2)); [|intros s' r; by apply same_kept].
  assert (throttles_ok s2) as Hok2 by exact Hok1. clearbody s2. clear s1 Hs Hok1 Hs2. apply post_reads. unfold id.
  destruct (over_budget s2); [|destruct (under_budget s2)].
  - eapply post_then_spec; [by apply strict_spec| |by intros s' [? _]]. intros s3 [b b2] (Hok3 & H1 & H2 & H3 & H4).
    destruct Hok2 as [Hb Hb2]. apply post_modify. split; [unfold throttles_ok; cbn; lia|]. intros _. split; [unfold prioritised; cbn; lia|exact H4].
  - eapply post_then_spec; [by apply increase_spec| |by intros s' [? _]]. intros s3 [b b2] (Hok3 & -> & -> & _ & H3 & H4).
    split; [exact Hok3|]. intros _. split; [|exact H4]. unfold prioritised. cbn.
    destruct Hok2, Hok3. destruct (Z.ltb_spec (current_bandwidth2 s2) 100); lia.
  - split; [exact Hok2|]. intros _. by split.
Qed.

Lemma iteration_spec i s : throttles_ok s -> post (iteration cfg w i) s (kept_by s).
Proof using Hw.
  intros Hok. assert (forall s', same s s' -> kept_by s s' (Some tt)) as Hsame.
  { intros s' Hs. apply (same_kept _ s'); [done|]. split; [by eapply same_throttles|]. by intros _. }
  unfold iteration. destruct (budget i) as [b|]; [|by apply Hsame]. apply post_modify, post_reads.
  destruct (power i) as [p|]; [|by apply Hsame]. apply post_modify. destruct (negb _).
  { apply Hsame. unfold post, modify. cbn [fst snd]. by destruct (over_budget _). }
  destruct (metrics i) as [fm|]; [|by apply Hsame]. apply post_modify. set (s1 := match _ with [] => _ | _ => _ end).
  assert (same s s1) as Hs1 by (unfold s1; by destruct (predictive_feature_map _)). clearbody s1.
  eapply post_weaken; [apply control_spec; by eapply same_throttles|]. intros s' r. by apply same_kept.
Qed.
End Steps.

(** ** The program *)

(** The thread of the loop, running or ended by an exception. *)
Inductive machine : Type := Running (s : pstate) | Stopped (s : pstate).

(** An iteration ends normally or with an exception; then the main program
    starts the thread again.  The surroundings and the cores of the groups may
    change between iterations, as long as the two counts of them agree. *)
Inductive machine_step (cfg : config) : machine -> machine -> Prop :=
  | step_iteration w ncores i s s' :
      world_ok cfg w ncores -> iteration cfg w i s = (s', Some tt) -> machine_step cfg (Running s) (Running s')
  | step_exception w ncores i s s' :
      world_ok cfg w ncores -> iteration cfg w i s = (s', None) -> machine_step cfg (Running s) (Stopped s')
  | step_restart s : machine_step cfg (Stopped s) (Running (run_stress_test_init s)).

(** The runs without an exception, under a kernel that accepts the limits, of
    groups that keep their numbers of cores. *)
Inductive calm_step (cfg : config) (ncores : cgroup -> Z) : pstate -> pstate -> Prop :=
  | calm_iteration w i s s' :
      world_ok cfg w ncores -> accepting w -> iteration cfg w i s = (s', Some tt) -> calm_step cfg ncores s s'.

Definition machine_state (m : machine) : pstate := match m with Running s | Stopped s => s end.

Lemma machine_step_ok cfg m m' :
  machine_step cfg m m' -> throttles_ok (machine_state m) -> throttles_ok (machine_state m').
Proof.
  intros [w ncores i s s' Hw E|w ncores i s s' Hw E|s] Hok; cbn [machine_state] in *.
  1,2: pose proof (iteration_spec cfg w ncores Hw i s Hok) as Hp; unfold post in Hp; rewrite E in Hp; apply Hp.
  unfold throttles_ok, run_stress_test_init in *. cbn. lia.
Qed.

(** C1: in every run of the program in which, at each iteration, the cores that are
    counted for writing a limit are as many as those counted for reading it back
    ([world_ok]), both throttles are percentages from 1 to 100: whatever power, budget
    and metrics it reads, whatever the model predicts, whichever limits the kernel
    refuses, whatever limits there are at the start, however the cores change between
    iterations, and however often an exception ends the thread.  Without the condition a
    limit of 50 percent can be read back as 200 ([mismatched_cores]). *)
Theorem throttles_in_range cfg limits m :
  rtc (machine_step cfg) (Running (run_stress_test_init (initial limits))) m ->
  1 <= current_bandwidth (machine_state m) <= 100 /\ 1 <= current_bandwidth2 (machine_state m) <= 100.
Proof.
  intros Hr. assert (throttles_ok (machine_state (Running (run_stress_test_init (initial limits))))) as H0 by (by unfold throttles_ok).
  revert H0. generalize dependent (Running (run_stress_test_init (initial limits))). intros m0 Hr H0.
  induction Hr as [m|m m1 m2 Hs _ IH]; [exact H0|]. apply IH. by eapply machine_step_ok.
Qed.

(** C2: when the program starts with groups that have no limit, and as long as no
    exception ends the thread, the kernel accepts every limit, and the two counts of
    the cores of a group agree and stay as they are, the critical group is limited
    below its full bandwidth only while the user group is limited to one percent of
    its own. *)
Theorem critical_has_priority cfg ncores s q :
  rtc (calm_step cfg ncores) (run_stress_test_init (initial (fun _ => None))) s ->
  cpu_max s critical = Some q -> q < 100000 * ncores critical -> cpu_max s user = Some (1000 * ncores user).
Proof.
  intros Hr Hq Hlt.
  assert (throttles_ok s /\ prioritised s /\ limits_ok ncores s) as (Hok & Hp & Hu & Hc).
  { set (s0 := run_stress_test_init _) in Hr. assert (throttles_ok s0 /\ prioritised s0 /\ limits_ok ncores s0) as H0.
    { split_and!; try done; [by left|]. split; [by right|by left]. }
    clearbody s0. clear -Hr H0. induction Hr as [s|s s1 s2 Hs _ IH]; [exact H0|]. apply IH. destruct Hs as [w i s s1 Hw Ha E]. destruct H0 as (Hok & Hp & Hl).
    pose proof (iteration_spec cfg w ncores Hw i s Hok) as Hi. unfold post in Hi. rewrite E in Hi. destruct Hi as [Hok1 Hi].
    destruct (Hi eq_refl) as [H1 H2]. auto. }
  destruct Hc as [[? _]|(t & Ht & Et & Hrb)]; [congruence|]. rewrite Hq in Et. injection Et as ->.
  assert (t < 100) by (destruct (decide (t = 100)) as [->|]; lia). assert (current_bandwidth s = 1) as E1 by (destruct Hp; lia).
  destruct Hu as [->|[_ ?]]; [|lia]. rewrite E1. f_equal. lia.
Qed.

(** ** A concrete run *)

(** Two cores, one for each group; the model predicts 500 Watts always. *)
Definition demo_cfg : config :=
  {| topol_size := 12; direct_metrics_size := 12; max_freq := 2000; core_info_count := 6; num_cores := 2 |}.
Definition demo_world : world :=
  {| cpus_effective := fun g => Some (match g with user => [48; 10] | critical => [49; 10] end);
     cpus_allowed := fun g => Some (match g with user => [48; 10] | critical => [49; 10] end);
     cpu_max_ok := fun _ _ => true;
     predict := fun _ => Some (f_of_Z 500) |}.
Definition demo_cores : cgroup -> Z := fun _ => 1.
Definition demo_map : list cell := replicate 13 (CFloat (f_of_Z 10)).

Lemma demo_world_ok : world_ok demo_cfg demo_world demo_cores.
Proof. intros []; split_and!; vm_compute; done. Qed.

(** A budget of 100 Watts and a power of [p]. *)
Definition demo_sample (p : Z) : sample := {| budget := Some 100; power := Some (f_of_Z p); metrics := Some demo_map |}.

Definition demo_start : pstate := run_stress_test_init (initial (fun _ => None)).
Definition demo_after (s : pstate) (p : Z) : pstate := fst (iteration demo_cfg demo_world (demo_sample p) s).

Lemma demo_calm s p :
  snd (iteration demo_cfg demo_world (demo_sample p) s) = Some tt -> calm_step demo_cfg demo_cores s (demo_after s p).
Proof.
  intros E. apply (calm_iteration _ _ demo_world (demo_sample p)); [apply demo_world_ok|done|]. rewrite <- E. apply surjective_pairing.
Qed.

Lemma set_cpu_limit_reads_back_witness :
  exists s', set_cpu_limit demo_world critical 29 (get_cores demo_cfg demo_world critical) demo_start = (s', Some tt) /\
    cpu_max s' critical = Some 29000 /\ bandwidth_of critical s' = 28.
Proof. exact (set_cpu_limit_reads_back demo_cfg demo_world demo_cores critical 29 demo_start demo_world_ok ltac:(lia) eq_refl). Defined.

Lemma throttles_in_range_witness :
  1 <= current_bandwidth (demo_after demo_start 200) <= 100 /\ 1 <= current_bandwidth2 (demo_after demo_start 200) <= 100.
Proof.
  apply (throttles_in_range demo_cfg (fun _ => None) (Running (demo_after demo_start 200))). apply rtc_once.
  apply (step_iteration _ demo_world demo_cores (demo_sample 200)); [apply demo_world_ok|]. vm_compute. reflexivity.
Defined.

Lemma critical_has_priority_witness :
  cpu_max (demo_after (demo_after demo_start 200) 200) user = Some 1000.
Proof.
  apply (critical_has_priority demo_cfg demo_cores _ 1000); [|vm_compute; reflexivity|vm_compute; reflexivity].
  apply (rtc_l _ _ (demo_after demo_start 200)); [apply demo_calm; vm_compute; reflexivity|].
  apply rtc_once, demo_calm. vm_compute. reflexivity.
Defined.
