(* ===== verification/PowerCapProgress.v ===== *)
(** * Progress of the power-capping controller

    On samples that parse, every iteration ends normally; iterations above the
    budget never raise a throttle and, repeated, reach the lowest throttles;
    repeated iterations below the budget reach the highest ones. *)
From stdpp Require Import gmap.
From S2P Require Import Prelude PyFloat Cpuset PowerCap PowerCapFacts.

Local Open Scope Z_scope.
Local Open Scope ctl_scope.

(** ** Well-formed feature maps *)

Definition numeric (c : cell) : Prop := is_Some (float_of c).
Definition map_ok (len : nat) (m : list cell) : Prop := length m = len /\ Forall numeric m.

(** The columns of every core are inside the map, and the model answers. *)
Record setup_ok (cfg : config) (w : world) (len : nat) : Prop := {
  so_cores : 0 < num_cores cfg;
  so_direct : 0 <= direct_metrics_size cfg;
  so_columns : forall g core, core ∈ get_cores cfg w g -> core * core_info_count cfg < topol_size cfg ->
    0 <= core * core_info_count cfg /\ core * core_info_count cfg + 5 < Z.of_nat len;
  so_model : forall m, is_Some (predict w m);
}.

Lemma py_index_in m i : 0 <= i < Z.of_nat (length m) -> py_index m i = Some (Z.to_nat i).
Proof. intros Hi. unfold py_index. by rewrite (proj2 (andb_true_iff _ _)) by lia. Qed.

Section Maps.
Context (cfg : config) (w : world) (len : nat) (Hset : setup_ok cfg w len).

Lemma get_float_ok m i : map_ok len m -> 0 <= i < Z.of_nat len -> exists x, get_float m i = Some x.
Proof.
  intros [Hl Hn] Hi. unfold get_float. rewrite py_index_in by lia. cbn [mbind option_bind].
  destruct (lookup_lt_is_Some_2 m (Z.to_nat i)) as [c Hc]; [lia|]. rewrite Hc. cbn [mbind option_bind]. by apply (Forall_lookup_1 _ _ _ _ Hn Hc).
Qed.

Lemma set_cell_ok m i c : map_ok len m -> 0 <= i < Z.of_nat len -> numeric c -> exists m', set_cell m i c = Some m' /\ map_ok len m'.
Proof.
  intros [Hl Hn] Hi Hc. unfold set_cell. rewrite py_index_in by lia. eexists. split; [done|]. split; [by rewrite length_insert|].
  by apply Forall_insert.
Qed.

Lemma max_cell_numeric x z : numeric (max_cell x z).
Proof. unfold max_cell, numeric. destruct (_ <? _)%F; cbn; eauto. Qed.
Lemma min_cell_numeric x z : numeric (min_cell x z).
Proof. unfold min_cell, numeric. destruct (_ <? _)%F; cbn; eauto. Qed.
Lemma int_numeric z : numeric (CInt z).
Proof. by eexists. Qed.
Lemma str_numeric z : numeric (CStr z).
Proof. by eexists. Qed.
Lemma float_numeric x : numeric (CFloat x).
Proof. by eexists. Qed.

#[local] Hint Resolve max_cell_numeric min_cell_numeric int_numeric str_numeric float_numeric : powercap.

(** An update of a cell, in the middle of a computation. *)
Ltac set_one m' H := match goal with
  |- context [set_cell ?m ?i ?c] =>
    let E := fresh in
    destruct (set_cell_ok m i c) as (m' & E & H); [done|lia|by auto with powercap|]; rewrite E; clear E; cbn [mbind option_bind]
  end.
Ltac get_one x := match goal with
  |- context [get_float ?m ?i] =>
    let E := fresh in destruct (get_float_ok m i) as (x & E); [done|lia|]; rewrite E; clear E; cbn [mbind option_bind]
  end.

(** A change of the columns of one core that keeps maps well-formed. *)
Definition core_total (f : Z -> list cell -> option (list cell * Z)) : Prop :=
  forall idx m, map_ok len m -> 0 <= idx -> idx + 5 < Z.of_nat len -> exists m' n, f idx m = Some (m', n) /\ map_ok len m'.

Lemma raise_core_total b t : core_total (raise_core cfg b t).
Proof.
  intros idx m Hm H0 H5. unfold raise_core. get_one x. destruct (_ <=? _)%F; [|by eauto].
  set_one m1 Hm1. set_one m2 Hm2. set_one m3 Hm3. set_one m4 Hm4. by eauto.
Qed.

Lemma floor_core_total t : core_total (floor_core cfg t).
Proof.
  intros idx m Hm H0 H5. unfold floor_core. set_one m1 Hm1. set_one m2 Hm2. set_one m3 Hm3. set_one m4 Hm4. by eauto.
Qed.

Lemma lower_core_total t : core_total (lower_core cfg t).
Proof.
  intros idx m Hm H0 H5. unfold lower_core. get_one x. set_one m1 Hm1.
  assert (exists m2 n, (if idx + 1 <? topol_size cfg then
      y ← get_float m1 (idx + 1);
      if (y <? f_of_Z (100 - t))%F then m ← set_cell m1 (idx + 1) (CInt (100 - t)); Some (m, 1) else Some (m1, 0)
    else Some (m1, 0)) = Some (m2, n) /\ map_ok len m2) as (m2 & n & -> & Hm2).
  { destruct (_ <? topol_size cfg); [|by eauto]. get_one y. destruct (_ <? _)%F; [|by eauto]. set_one m2 Hm2. by eauto. }
  cbn [mbind option_bind].
  assert (exists m3, (if idx + 5 <? topol_size cfg then
      y ← get_float m2 (idx + 5);
      if (y <? f_of_Z (100 - t))%F then
        m ← set_cell m2 (idx + 5) (CInt (100 - t)); set_cell m (idx + 2) (CStr (max_freq cfg))
      else Some m2
    else Some m2) = Some m3 /\ map_ok len m3) as (m3 & -> & Hm3); [|by eauto].
  destruct (_ <? topol_size cfg); [|by eauto]. get_one y. destruct (_ <? _)%F; [|by eauto]. set_one m3 Hm3.
  destruct (set_cell_ok m3 (idx + 2) (CStr (max_freq cfg))) as (m4 & E4 & Hm4); [done|lia|auto with powercap|]. by eauto.
Qed.

Lemma cores_loop_total f g m n :
  core_total f -> map_ok len m -> exists m' n', cores_loop cfg f (get_cores cfg w g) m n = Some (m', n') /\ map_ok len m'.
Proof using Hset.
  intros Hf. assert (forall core, core ∈ get_cores cfg w g -> core ∈ get_cores cfg w g) as Hin by done. revert Hin.
  generalize (get_cores cfg w g) at 1 3. intros cpus. revert m n. induction cpus as [|core cpus IH]; intros m n Hin Hm; cbn [cores_loop]; [by eauto|].
  destruct (Z.ltb_spec (core * core_info_count cfg) (topol_size cfg)) as [Hlt|Hge].
  - destruct (so_columns _ _ _ Hset g core) as [H0 H5]; [apply Hin; by left|done|].
    destruct (Hf _ m Hm H0 H5) as (m' & n' & -> & Hm'). cbn [mbind option_bind]. apply IH; [|done]. intros c Hc. apply Hin. by right.
  - apply IH; [|done]. intros c Hc. apply Hin. by right.
Qed.

Lemma scale_loop_total ixs adj a r m :
  Forall (fun i => 0 <= i < Z.of_nat len) ixs -> map_ok len m -> exists m', scale_loop ixs adj a r m = Some m' /\ map_ok len m'.
Proof.
  intros Hi. revert m. induction Hi as [|i ixs Hi _ IH]; intros m Hm; cbn [scale_loop]; [by eauto|]. get_one x. set_one m1 Hm1. by apply IH.
Qed.

Lemma py_range_in a b : Forall (fun i => a <= i < b) (py_range a b).
Proof. apply Forall_forall. intros i (k & -> & Hk%elem_of_seq)%list_elem_of_fmap. lia. Qed.

Lemma true_div_total a b : b <> 0 -> is_Some (true_div a b).
Proof. intros Hb. unfold true_div. destruct (Z.eqb_spec b 0); [done|]. by eexists. Qed.

Lemma generic_total s m t n g :
  bandwidth_of g s <> 0 -> map_ok len m -> exists m', update_feature_map_generic cfg s m t n g = Some m' /\ map_ok len m'.
Proof using Hset.
  intros Hb Hm. unfold update_feature_map_generic. pose proof (so_cores _ _ _ Hset). pose proof (so_direct _ _ _ Hset).
  destruct (true_div_total n (num_cores cfg)) as [a ->]; [lia|]. destruct (true_div_total t _ Hb) as [r ->]. cbn [mbind option_bind].
  apply scale_loop_total; [|done]. destruct Hm as [-> _]. eapply Forall_impl; [apply py_range_in|]. cbn beta. intros i Hi. lia.
Qed.

Lemma recover_loop_total s fm g cands n :
  bandwidth_of g s <> 0 -> map_ok len fm -> is_Some (recover_loop cfg w s fm g cands n).
Proof using Hset.
  intros Hb Hm. revert n. induction cands as [|c cands IH]; intros n; cbn [recover_loop]; [by eexists|].
  destruct (cores_loop_total _ g fm n (raise_core_total (bandwidth_of g s) c) Hm) as (m1 & n1 & -> & Hm1). cbn [mbind option_bind].
  destruct (generic_total s m1 c n1 g Hb Hm1) as (m2 & -> & Hm2). cbn [mbind option_bind].
  destruct (so_model _ _ _ Hset m2) as [p ->]. cbn [mbind option_bind]. destruct (_ <=? _)%F; [by eexists|apply IH].
Qed.

(** The search of the capping strategies ends with a prediction if it has a
    throttle to try. *)
Lemma cap_loop_total s fm g ts n last :
  bandwidth_of g s <> 0 -> map_ok len fm -> (forall m p, last = Some (m, p) -> map_ok len m) -> ts <> [] \/ is_Some last ->
  exists o m p, cap_loop cfg w s fm g (get_cores cfg w g) ts n last = Some (o, Some (m, p)) /\ map_ok len m.
Proof using Hset.
  intros Hb Hm. revert n last. induction ts as [|t ts IH]; intros n last Hlast Hne; cbn [cap_loop].
  { destruct Hne as [?|[[m p] ->]]; [done|]. exists None, m, p. split; [done|]. by eapply Hlast. }
  destruct (cores_loop_total _ g fm n (lower_core_total t) Hm) as (m1 & n1 & -> & Hm1). cbn [mbind option_bind].
  destruct (generic_total s m1 t n1 g Hb Hm1) as (m2 & -> & Hm2). cbn [mbind option_bind].
  destruct (so_model _ _ _ Hset m2) as [p ->]. cbn [mbind option_bind]. destruct (_ <=? _)%F; [by eauto|].
  apply IH; [by intros ? ? [= <- <-]|right; by eexists].
Qed.

Lemma adjust_loop_total ixs pm am adj :
  Forall (fun i => 0 <= i < Z.of_nat len) ixs -> map_ok len pm -> map_ok len am -> exists adj', adjust_loop ixs pm am adj = (adj', Some tt).
Proof.
  intros Hi Hp Ha. revert adj. induction Hi as [|i ixs Hi _ IH]; intros adj; cbn [adjust_loop]; [by eauto|].
  get_one x. destruct (negb _); [|apply IH]. get_one y. apply IH.
Qed.
End Maps.

(** ** Computations that return *)

Definition tot {A} (c : ctl A) (s : pstate) (Q : pstate -> A -> Prop) : Prop := exists s' a, c s = (s', Some a) /\ Q s' a.

Lemma tot_then {A B} (c : ctl A) (k : A -> ctl B) s Q R :
  tot c s Q -> (forall s' a, Q s' a -> tot (k a) s' R) -> tot (then_ c k) s R.
Proof. intros (s' & a & E & Hq) Hk. unfold tot, then_. rewrite E. by apply Hk. Qed.

Lemma tot_post {A} (c : ctl A) s Q P : tot c s Q -> post c s P -> tot c s (fun s' a => Q s' a /\ P s' (Some a)).
Proof. intros (s' & a & E & Hq) Hp. unfold post in Hp. rewrite E in Hp. by exists s', a. Qed.

Lemma tot_weaken {A} (c : ctl A) s (Q R : pstate -> A -> Prop) : tot c s Q -> (forall s' a, Q s' a -> R s' a) -> tot c s R.
Proof. intros (s' & a & E & Hq) H. exists s', a. auto. Qed.

Lemma tot_modify f s (Q : pstate -> unit -> Prop) : Q (f s) tt -> tot (modify f) s Q.
Proof. intros H. by exists (f s), tt. Qed.

Lemma tot_reads {A} (f : pstate -> A) s (Q : pstate -> A -> Prop) : Q s (f s) -> tot (reads f) s Q.
Proof. intros H. by exists s, (f s). Qed.

(** The map of the last prediction stays as well-formed as it was. *)
Definition pmap_kept (len : nat) (s s' : pstate) : Prop := map_ok len (predictive_feature_map s) -> map_ok len (predictive_feature_map s').

Section Totality.
Context (cfg : config) (w : world) (ncores : cgroup -> Z) (len : nat).
Context (Hw : world_ok cfg w ncores) (Hset : setup_ok cfg w len).

Lemma set_limit_tot g cores t s :
  cores = get_cores cfg w g -> 1 <= t <= 100 -> throttles_ok s ->
  tot (set_cpu_limit w g t cores) s (fun s' _ => throttles_ok s' /\ predictive_feature_map s' = predictive_feature_map s /\
    (g = user -> current_bandwidth2 s' = current_bandwidth2 s)).
Proof using Hw.
  intros -> Ht [Hb Hb2]. eexists _, tt. split; [by apply (set_cpu_limit_spec _ _ _ Hw)|]. pose proof (readback_range t Ht).
  destruct (cpu_max_ok _ _ _); [|done]. split; [|split; [by destruct g|by intros ->]].
  unfold throttles_ok. destruct g; cbn -[readback]; lia.
Qed.

Lemma predict_tot fm g t s :
  map_ok len fm -> throttles_ok s ->
  tot (predict_featuremap cfg w fm g t) s (fun s' _ => same s s' /\ predictive_feature_map s' = predictive_feature_map s).
Proof using Hset.
  intros Hm Hok. unfold predict_featuremap. eapply tot_then; [by apply (tot_modify _ s (fun s' _ => s' = set_flags true (full_mode s) s))|].
  intros s1 [] ->. unfold tot, attempt. set (s1 := set_flags _ _ _). assert (bandwidth_of g s1 <> 0) as Hb by (destruct Hok, g; cbn; lia).
  destruct (cores_loop_total cfg w len Hset (if bandwidth_of g s1 <? t then raise_core cfg (current_bandwidth s1) t else lower_core cfg t) g fm 0)
    as (m1 & n1 & -> & Hm1); [by destruct (_ <? t); [apply raise_core_total|apply lower_core_total]|done|]. cbn [mbind option_bind].
  destruct (generic_total cfg w len Hset s1 m1 t n1 g Hb Hm1) as (m2 & -> & Hm2). cbn [mbind option_bind].
  destruct (so_model _ _ _ Hset m2) as [p ->]. by eexists _, tt.
Qed.

Lemma next_throttle_tot fm g gap s :
  map_ok len fm -> throttles_ok s -> bandwidth_of g s < 100 ->
  tot (next_throttle cfg w fm g gap) s (fun s' v => throttles_ok s' /\ predictive_feature_map s' = predictive_feature_map s /\ 1 <= v <= 100).
Proof using Hset.
  intros Hm Hok Hlt. assert (1 <= bandwidth_of g s) as Hb by (destruct Hok, g; cbn; lia).
  assert (tot (next_throttle cfg w fm g gap) s (fun s' v => predictive_feature_map s' = predictive_feature_map s)) as Ht.
  { unfold next_throttle. eapply tot_then; [|by intros s' v Hp; eexists _, _; split; [done|exact Hp]].
    destruct (_ <? _)%F; [by apply tot_reads|].
    eapply tot_then; [|intros s' v Hp; apply tot_reads; exact Hp].
    unfold recover_bandwidth, attempt, then_, tot at 1.
    destruct (recover_loop_total cfg w len Hset s fm g (range_down 100 (bandwidth_of g s)) 0 ltac:(lia) Hm) as [[c|] ->]; by eexists _, _. }
  eapply tot_weaken; [apply (tot_post _ _ _ _ Ht (next_throttle_spec cfg w fm g gap s Hlt))|].
  intros s' v (Hp & Hs & Hv). split_and!; [by eapply same_throttles|done|lia|lia].
Qed.

Lemma increase_critical_tot fm gap s :
  map_ok len fm -> throttles_ok s -> current_bandwidth2 s < 100 ->
  tot (modify (set_bandwidth 1);;;
       set_cpu_limit w user 1 (get_user_cores w);;;
       b <- reads current_bandwidth;;
       predict_featuremap cfg w fm user b;;;
       new_val <- next_throttle cfg w fm critical gap;;
       set_cpu_limit w critical new_val (get_critical_cores cfg w);;;
       predict_featuremap cfg w fm critical new_val;;;
       modify (set_bandwidth2 new_val)) s (fun s' _ => predictive_feature_map s' = predictive_feature_map s).
Proof using Hset Hw.
  intros Hm Hok H2. eapply tot_then; [by apply (tot_modify _ _ (fun s' _ => s' = set_bandwidth 1 s))|]. intros ? [] ->.
  assert (throttles_ok (set_bandwidth 1 s)) as Hok0 by (unfold throttles_ok in *; cbn; lia).
  eapply tot_then; [apply set_limit_tot; [done|lia|done]|]. intros s1 [] (Hok1 & E1 & F1). cbn in E1.
  eapply tot_then; [by apply (tot_reads _ _ (fun s' _ => s' = s1))|]. intros ? b ->.
  eapply tot_then; [by apply predict_tot|]. intros s2 [] (Hs2 & E2). pose proof (same_throttles _ _ Hs2 Hok1) as Hok2.
  eapply tot_then; [apply next_throttle_tot; [done|done|]|].
  { rewrite (same_bandwidth_of critical _ _ Hs2). cbn [bandwidth_of]. rewrite (F1 eq_refl). exact H2. }
  intros s3 v (Hok3 & E3 & Hv). eapply tot_then; [apply set_limit_tot; [done|lia|done]|]. intros s4 [] (Hok4 & E4 & _).
  eapply tot_then; [by apply predict_tot|]. intros s5 [] (_ & E5). apply tot_modify. cbn. congruence.
Qed.

Lemma increase_user_tot fm gap s :
  map_ok len fm -> throttles_ok s -> current_bandwidth s < 100 ->
  tot (new_val <- next_throttle cfg w fm user gap;;
       set_cpu_limit w user new_val (get_user_cores w);;;
       predict_featuremap cfg w fm user new_val;;;
       modify (set_bandwidth new_val)) s (fun s' _ => predictive_feature_map s' = predictive_feature_map s).
Proof using Hset Hw.
  intros Hm Hok H1. eapply tot_then; [by apply next_throttle_tot|].
  intros s3 v (Hok3 & E3 & Hv). eapply tot_then; [apply set_limit_tot; [done|lia|done]|]. intros s4 [] (Hok4 & E4 & _).
  eapply tot_then; [by apply predict_tot|]. intros s5 [] (_ & E5). apply tot_modify. cbn. congruence.
Qed.

Lemma increase_tot fm gap s :
  map_ok len fm -> throttles_ok s -> tot (increase_bandwidth cfg w fm gap) s (fun s' _ => pmap_kept len s s').
Proof using Hset Hw.
  intros Hm Hok. unfold increase_bandwidth.
  eapply tot_then; [by apply (tot_modify _ _ (fun s' _ => s' = set_flags false (full_mode s) s))|]. intros s1 [] ->.
  eapply tot_then; [by apply (tot_reads _ _ (fun s' a => s' = set_flags false (full_mode s) s /\ a = current_bandwidth2 s))|]. intros ? ? [-> ->].
  eapply tot_then; [by apply (tot_reads _ _ (fun s' a => s' = set_flags false (full_mode s) s /\ a = current_bandwidth s))|]. intros ? ? [-> ->].
  eapply (tot_then _ _ _ (fun s' _ => predictive_feature_map s' = predictive_feature_map s)).
  2: { intros s' _ Hp. apply tot_reads. unfold pmap_kept. by rewrite Hp. }
  destruct (Z.ltb_spec (current_bandwidth2 s) 100) as [H2|H2]; [|destruct (Z.ltb_spec (current_bandwidth s) 100) as [H3|H3]].
  - by apply (increase_critical_tot fm gap (set_flags false (full_mode s) s)).
  - by apply (increase_user_tot fm gap (set_flags false (full_mode s) s)).
  - by eexists _, tt.
Qed.

Lemma critical_tot fm s :
  map_ok len fm -> throttles_ok s ->
  tot (critical_power_capping cfg w fm) s (fun s' _ => throttles_ok s' /\ map_ok len (predictive_feature_map s')).
Proof using Hset Hw.
  intros Hm Hok. unfold critical_power_capping.
  eapply tot_then; [by apply (tot_modify _ _ (fun s' _ => same s s')); destruct (_ =? 1)|]. intros s1 [] Hs1.
  pose proof (same_throttles _ _ Hs1 Hok) as Hok1. destruct Hok1 as [Hb Hb2].
  destruct (cap_loop_total cfg w len Hset s1 fm critical (range_down (current_bandwidth2 s1) 0) 0 None) as (o & m & p & El & Hmo);
    [cbn; lia|done|done| |].
  { left. destruct (range_down_first (current_bandwidth2 s1) 0 ltac:(lia)) as [l ->]. done. }
  eapply (tot_then _ _ _ (fun s' r => s' = s1 /\ r = (o, Some (m, p)))).
  { eexists _, _. split; [unfold attempt; f_equal; exact El|done]. }
  intros ? ? [-> ->]. cbn [fst snd]. assert (1 <= default 1 o <= 100) as Ht.
  { destruct o as [t|]; cbn; [|lia]. apply cap_loop_in in El as [Ht%range_down_spec _]. lia. }
  eapply tot_then; [by apply set_limit_tot|]. intros s2 [] (Hok2 & _).
  eapply (tot_then _ _ _ (fun s' r => s' = s2 /\ r = (m, p))); [by eexists _, _|]. intros ? ? [-> ->].
  eapply tot_then; [by apply (tot_modify _ _ (fun s' _ => throttles_ok s' /\ map_ok len (predictive_feature_map s')))|].
  intros s3 [] H3. by eexists _, _.
Qed.

Lemma strict_large_tot fm s :
  map_ok len fm -> throttles_ok s -> tot (strict_large cfg w fm) s (fun s' _ => map_ok len (predictive_feature_map s')).
Proof using Hset Hw.
  intros Hm Hok. unfold strict_large.
  eapply tot_then; [by apply (tot_modify _ _ (fun s' _ => same s s')); destruct (_ =? 1)|]. intros s1 [] Hs1.
  pose proof (same_throttles _ _ Hs1 Hok) as Hok1. pose proof Hok1 as [Hb Hb2].
  assert (exists o l, (if 5 <? current_bandwidth s1 then cap_loop cfg w s1 fm user (get_user_cores w) (range_down (current_bandwidth s1 - 5) 0) 0 None
    else Some (None, None)) = Some (o, l) /\ (forall t, o = Some t -> 1 <= t <= 100 /\ exists m p, l = Some (m, p) /\ map_ok len m)) as (o & l & El & Hol).
  { destruct (Z.ltb_spec 5 (current_bandwidth s1)) as [H5|H5]; [|by eexists _, _].
    destruct (cap_loop_total cfg w len Hset s1 fm user (range_down (current_bandwidth s1 - 5) 0) 0 None) as (o & m & p & El & Hmo);
      [cbn; lia|done|done|left; destruct (range_down_first (current_bandwidth s1 - 5) 0 ltac:(lia)) as [l ->]; done|].
    exists o, (Some (m, p)). split; [exact El|]. intros t ->. apply cap_loop_in in El as [Ht%range_down_spec _]. split; [lia|by eauto]. }
  eapply (tot_then _ _ _ (fun s' r => s' = s1 /\ r = (o, l))); [eexists _, _; split; [unfold attempt; f_equal; exact El|done]|].
  intros ? ? [-> ->]. destruct o as [t|].
  - destruct (Hol t eq_refl) as (Ht & m & p & -> & Hmo).
    eapply tot_then; [by apply (tot_modify _ _ (fun s' _ => throttles_ok s' /\ map_ok len (predictive_feature_map s')))|]. intros s2 [] [Hok2 Hp2].
    eapply tot_then; [by apply set_limit_tot|]. intros s3 [] (_ & E3 & _). apply tot_reads. by rewrite E3.
  - destruct (cores_loop_total cfg w len Hset (floor_core cfg 1) user fm 0) as (m & n & Ef & Hmf); [apply floor_core_total|done|].
    eapply (tot_then _ _ _ (fun s' r => s' = s1 /\ r = m)).
    { eexists _, _. unfold attempt. change (get_user_cores w) with (get_cores cfg w user). rewrite Ef. by split. }
    intros ? ? [-> ->]. eapply tot_then; [by apply critical_tot|]. intros s2 t [Hok2 Hp2].
    eapply tot_then; [apply set_limit_tot; [done|lia|done]|]. intros s3 [] (_ & E3 & _). apply tot_reads. by rewrite E3.
Qed.

(** The calibration needs the map of the last prediction. *)
Lemma calibrate_tot fm s :
  map_ok len fm -> map_ok len (predictive_feature_map s) ->
  tot (if used_map s then
         modify (set_calibration (smoothing_cal * calibration_offset s + (f1 - smoothing_cal) * (actual_power s - prev_prediction s))%F);;;
         update_adjustment cfg fm
       else done_ tt) s (fun s' _ => predictive_feature_map s' = predictive_feature_map s).
Proof using Hset.
  intros Hm Hp. destruct (used_map s); [|by eexists _, tt].
  eapply tot_then; [by apply (tot_modify _ _ (fun s' _ => predictive_feature_map s' = predictive_feature_map s))|]. intros s1 [] E1.
  unfold tot, update_adjustment. destruct (adjust_loop_total len (py_range (direct_metrics_size cfg) (Z.of_nat (length fm)))
    (predictive_feature_map s1) fm (adjustment_ratio s1)) as [adj ->]; [|by rewrite E1|done|by eexists _, tt].
  destruct Hm as [-> _]. pose proof (so_direct _ _ _ Hset). eapply Forall_impl; [apply py_range_in|]. cbn beta. intros i Hi. lia.
Qed.

(** The part of an iteration before the decision. *)
Lemma control_start {A} fm s (k : pstate -> ctl A) Q :
  map_ok len fm -> map_ok len (predictive_feature_map s) ->
  (forall s1, same s s1 -> predictive_feature_map s1 = predictive_feature_map s ->
     actual_power s1 = actual_power s -> target_power s1 = target_power s -> tot (k s1) s1 Q) ->
  tot (s <- reads id;;
       (if used_map s then
          modify (set_calibration (smoothing_cal * calibration_offset s + (f1 - smoothing_cal) * (actual_power s - prev_prediction s))%F);;;
          update_adjustment cfg fm
        else done_ tt);;;
       modify (fun s => set_flags false (full_mode s) s);;;
       s <- reads id;; k s) s Q.
Proof using Hset.
  intros Hm Hp Hk. eapply tot_then; [by apply (tot_reads _ _ (fun s' a => s' = s /\ a = s))|]. intros ? ? [-> ->].
  eapply tot_then; [apply tot_post; [by apply calibrate_tot|apply calibrate_spec]|]. intros s1 [] (Ep & Hs & Ea & Et).
  eapply tot_then; [by apply (tot_modify _ _ (fun s' _ => s' = set_flags false (full_mode s1) s1))|]. intros ? [] ->.
  eapply tot_then; [by apply (tot_reads _ _ (fun s' a => s' = set_flags false (full_mode s1) s1 /\ a = set_flags false (full_mode s1) s1))|].
  intros ? ? [-> ->]. by apply Hk.
Qed.

(** A violation below the tolerance. *)
Definition small_violation (s : pstate) : bool := (actual_power s - f_of_Z (target_power s) <? f_of_Z TOLERANCE)%F.

Lemma strict_tot fm s :
  map_ok len fm -> throttles_ok s -> map_ok len (predictive_feature_map s) ->
  tot (strict_power_capping cfg w fm) s (fun s' r => map_ok len (predictive_feature_map s') /\
    (small_violation s = true -> exists step, 5 <= step <= 10 /\ r = one_down step s /\
       (accepting w -> 1 < current_bandwidth s -> cpu_max s' user = Some (1000 * ncores user * fst r)))).
Proof using Hset Hw.
  intros Hm Hok Hp. unfold strict_power_capping. eapply tot_then; [by apply (tot_reads _ _ (fun s' a => s' = s /\ a = s))|]. intros ? ? [-> ->].
  fold (small_violation s). destruct (small_violation s).
  - assert (tot (strict_small cfg w) s (fun s' _ => predictive_feature_map s' = predictive_feature_map s)) as Ht.
    { unfold strict_small. eapply tot_then; [by apply (tot_reads _ _ (fun s' a => s' = s /\ a = s))|]. intros ? ? [-> ->].
      set (step := if (_ <? _)%F then 5 else 10). assert (5 <= step <= 10) by (unfold step; destruct (_ <? _)%F; lia). pose proof Hok as [Hb Hb2].
      destruct (1 <? current_bandwidth s); [|destruct (1 <? current_bandwidth2 s)]; [| |by eexists _, _].
      1,2: eapply tot_then; [apply set_limit_tot; [done|lia|done]|]; intros s1 [] (_ & E1 & _);
        (eapply tot_then; [by apply (tot_modify _ _ (fun s' _ => predictive_feature_map s' = predictive_feature_map s))|]);
        intros s2 [] E2; by apply tot_reads. }
    eapply tot_weaken; [apply (tot_post _ _ _ _ Ht (strict_small_spec cfg w ncores Hw s Hok))|].
    intros s' r (E & _ & step & Hstep & [= ->] & _ & Hu). split; [by rewrite E|]. intros _. by exists step.
  - eapply tot_weaken; [by apply strict_large_tot|]. intros s' r Hp'. by split.
Qed.

(** An iteration above the budget, and one below it. *)
Lemma control_over fm s :
  map_ok len fm -> throttles_ok s -> map_ok len (predictive_feature_map s) -> over_budget s = true ->
  tot (control cfg w fm) s (fun s' _ => throttles_ok s' /\ map_ok len (predictive_feature_map s') /\
    (small_violation s = true -> exists step, 5 <= step <= 10 /\ (current_bandwidth s', current_bandwidth2 s') = one_down step s /\
       (accepting w -> 1 < current_bandwidth s -> cpu_max s' user = Some (1000 * ncores user * current_bandwidth s')))).
Proof using Hset Hw.
  intros Hm Hok Hp Ho. apply control_start; [done|done|]. intros s1 Hs Ep Ea Et. pose proof (same_throttles _ _ Hs Hok) as Hok1.
  assert (over_budget s1 = true) as -> by (unfold over_budget in *; by rewrite Ea, Et).
  eapply tot_then; [apply tot_post; [apply strict_tot; [done|done|by rewrite Ep]|by apply (strict_spec cfg w ncores Hw)]|].
  intros s2 [b b2] ((Hp2 & Hstep) & Hok2 & Hb & Hb2 & _). destruct Hok1 as [H1 H2].
  eapply tot_then; [by apply (tot_modify _ _ (fun s' _ => s' = set_bandwidth2 b2 (set_bandwidth b s2)))|]. intros ? [] ->.
  apply tot_modify. split; [unfold throttles_ok; cbn; lia|]. split; [done|]. intros Hsm. cbn.
  destruct Hstep as (step & Hr & Er & Hu); [unfold small_violation in *; by rewrite Ea, Et|]. destruct Hs as (E1 & E2 & _). cbn [fst] in Hu. rewrite E1 in Hu.
  exists step. split_and!; [lia|lia| |done]. rewrite Er. unfold one_down. by rewrite E1, E2.
Qed.

Lemma control_under fm s :
  map_ok len fm -> throttles_ok s -> map_ok len (predictive_feature_map s) -> over_budget s = false -> under_budget s = true ->
  tot (control cfg w fm) s (fun s' _ => throttles_ok s' /\ map_ok len (predictive_feature_map s') /\
    increased w ncores s s' (current_bandwidth s') (current_bandwidth2 s')).
Proof using Hset Hw.
  intros Hm Hok Hp Ho Hu. apply control_start; [done|done|]. intros s1 Hs Ep Ea Et. pose proof (same_throttles _ _ Hs Hok) as Hok1.
  assert (over_budget s1 = false) as -> by (unfold over_budget in *; by rewrite Ea, Et).
  assert (under_budget s1 = true) as -> by (unfold under_budget in *; by rewrite Ea, Et).
  eapply tot_then; [apply tot_post; [by apply increase_tot|by apply (increase_spec cfg w ncores Hw)]|].
  intros s2 [b b2] (Hp2 & Hok2 & -> & -> & _ & Hi & Hl). apply tot_modify. destruct Hs as (E1 & E2 & E3).
  split; [done|]. split; [apply Hp2; by rewrite Ep|]. unfold increased. split_and!; try done; cbn.
  - by rewrite E1, E2 in Hi.
  - intros Ha Hls. apply Hl; [done|]. unfold limits_ok in *. by rewrite E1, E2, E3.
Qed.
End Totality.

(** ** The mode is kept *)

Definition keeps_mode {A} (c : ctl A) : Prop := forall s, full_mode (fst (c s)) = full_mode s.

Lemma keeps_then {A B} (c : ctl A) (k : A -> ctl B) : keeps_mode c -> (forall a, keeps_mode (k a)) -> keeps_mode (then_ c k).
Proof.
  intros Hc Hk s. unfold then_. specialize (Hc s). destruct (c s) as [s1 [a|]]; cbn in *; [|done]. by rewrite Hk.
Qed.
Lemma keeps_modify f : (forall s, full_mode (f s) = full_mode s) -> keeps_mode (modify f).
Proof. intros Hf s. apply Hf. Qed.
Lemma keeps_reads {A} (f : pstate -> A) : keeps_mode (reads f).
Proof. done. Qed.
Lemma keeps_attempt {A} (f : pstate -> option A) : keeps_mode (attempt f).
Proof. done. Qed.
Lemma keeps_done {A} (a : A) : keeps_mode (done_ a).
Proof. done. Qed.
Lemma keeps_limit w g t cores : keeps_mode (set_cpu_limit w g t cores).
Proof. intros s. unfold set_cpu_limit. destruct (cpu_max_ok _ _ _); [|done]. destruct (read_cpu_max _ _ _), g; done. Qed.
Lemma keeps_adjust cfg fm : keeps_mode (update_adjustment cfg fm).
Proof. intros s. unfold update_adjustment. by destruct (adjust_loop _ _ _ _). Qed.

#[export] Hint Resolve keeps_reads keeps_attempt keeps_done keeps_limit keeps_adjust : powercap.

Ltac keeps := repeat first
  [ progress auto with powercap
  | apply keeps_then; intros
  | apply keeps_modify; intros; repeat case_match; reflexivity
  | case_match ].

Lemma keeps_increase cfg w fm gap : keeps_mode (increase_bandwidth cfg w fm gap).
Proof. unfold increase_bandwidth, next_throttle, recover_bandwidth, predict_featuremap. keeps. Qed.
Lemma keeps_strict cfg w fm : keeps_mode (strict_power_capping cfg w fm).
Proof. unfold strict_power_capping, strict_small, strict_large, critical_power_capping. keeps. Qed.
#[export] Hint Resolve keeps_increase keeps_strict : powercap.
Lemma keeps_control cfg w fm : keeps_mode (control cfg w fm).
Proof. unfold control. keeps. Qed.

(** ** Runs *)

(** The samples of a run, each with what surrounds it. *)
Fixpoint iterate (cfg : config) (l : list (world * sample)) : ctl unit :=
  match l with
  | [] => done_ tt
  | (w, i) :: l => iteration cfg w i;;; iterate cfg l
  end.

(** A sample that parses, with its relation to its budget. *)
Definition reading (len : nat) (P : pstate -> bool) (i : sample) : Prop :=
  exists b p m, i = {| budget := Some b; power := Some p; metrics := Some m |} /\ map_ok len m /\
    forall s, P (set_power p (set_target b s)) = true.

(** The states between the iterations of a run in the full mode. *)
Definition between (len : nat) (s : pstate) : Prop :=
  throttles_ok s /\ full_mode s = true /\ (predictive_feature_map s = [] \/ map_ok len (predictive_feature_map s)).

Lemma iteration_control cfg w len i b p m s Q :
  i = {| budget := Some b; power := Some p; metrics := Some m |} -> map_ok len m -> between len s ->
  (forall s1, same s s1 -> map_ok len (predictive_feature_map s1) -> full_mode s1 = true ->
     actual_power s1 = p -> target_power s1 = b -> tot (control cfg w m) s1 Q) ->
  tot (iteration cfg w i) s (fun s' r => full_mode s' = true /\ Q s' r).
Proof.
  intros -> Hm (Hok & Hf & Hp) Hc. unfold iteration. cbn [budget power metrics].
  unfold tot, then_ at 1, modify at 1, then_ at 1, reads at 1. cbn [full_mode set_target]. rewrite Hf. cbn [negb].
  unfold then_ at 1, modify at 1, then_ at 1, modify at 1. set (s1 := match _ with [] => _ | _ => _ end).
  assert (full_mode s1 = true) as Hf1 by (unfold s1; by destruct (predictive_feature_map _)).
  destruct (Hc s1) as (s' & r & E & HQ); try done.
  - unfold s1. by destruct (predictive_feature_map _).
  - unfold s1. cbn. destruct (predictive_feature_map s) eqn:Es; cbn; [done|]. destruct Hp as [?|Hp]; [done|]. by rewrite Es.
  - unfold s1. by destruct (predictive_feature_map _).
  - unfold s1. by destruct (predictive_feature_map _).
  - exists s', r. split; [exact E|]. split; [|done]. pose proof (keeps_control cfg w m s1) as Hk. rewrite E in Hk. cbn in Hk. congruence.
Qed.

(** A list of readings in a fixed setup. *)
Definition readings (cfg : config) (ncores : cgroup -> Z) (len : nat) (P : pstate -> bool) (l : list (world * sample)) : Prop :=
  Forall (fun '(w, i) => world_ok cfg w ncores /\ setup_ok cfg w len /\ reading len P i) l.

(** A run in which every iteration brings a measure down to zero. *)
Lemma iterate_measure cfg ncores len P (mu : pstate -> Z) l s :
  (forall w i s, world_ok cfg w ncores -> setup_ok cfg w len -> reading len P i -> between len s ->
     tot (iteration cfg w i) s (fun s' _ => between len s' /\ (mu s' <= 0 \/ mu s' < mu s))) ->
  readings cfg ncores len P l -> between len s -> mu s <= Z.of_nat (length l) ->
  tot (iterate cfg l) s (fun s' _ => between len s' /\ mu s' <= 0).
Proof.
  intros Hstep Hl. revert s. induction Hl as [|[w i] l (Hw & Hs & Hr) _ IH]; intros s Hb Hmu; cbn [iterate].
  - exists s, tt. split; [done|]. cbn in Hmu. by split.
  - eapply tot_then; [by apply (Hstep w i s)|]. intros s1 [] [Hb1 Hmu1]. apply IH; [done|]. cbn [length] in Hmu. lia.
Qed.

Definition over_small (s : pstate) : bool := over_budget s && small_violation s.
Definition under_only (s : pstate) : bool := negb (over_budget s) && under_budget s.

(** Steps of five left to go down, and throttle left to gain. *)
Definition steps_down (s : pstate) : Z := (current_bandwidth s + 3) / 5 + (current_bandwidth2 s + 3) / 5.
Definition to_gain (s : pstate) : Z :=
  if current_bandwidth2 s <? 100 then 200 - current_bandwidth2 s else 100 - current_bandwidth s.

Lemma one_down_measure step s s' :
  throttles_ok s -> 5 <= step -> (current_bandwidth s', current_bandwidth2 s') = one_down step s ->
  steps_down s' <= 0 \/ steps_down s' < steps_down s.
Proof.
  intros [Hb Hb2] Hstep E. unfold one_down, steps_down in *.
  destruct (Z.ltb_spec 1 (current_bandwidth s)), (Z.ltb_spec 1 (current_bandwidth2 s)); injection E as -> ->;
    Z.to_euclidean_division_equations; lia.
Qed.

Lemma iteration_down cfg w ncores len i s :
  world_ok cfg w ncores -> setup_ok cfg w len -> reading len over_small i -> between len s ->
  tot (iteration cfg w i) s (fun s' _ => between len s' /\ (steps_down s' <= 0 \/ steps_down s' < steps_down s)).
Proof.
  intros Hw Hset (b & p & m & Ei & Hm & HP) Hb. pose proof Hb as (Hok & _).
  eapply tot_weaken; [apply (iteration_control cfg w len i b p m s (fun s' _ => throttles_ok s' /\ map_ok len (predictive_feature_map s') /\
    exists step, 5 <= step <= 10 /\ (current_bandwidth s', current_bandwidth2 s') = one_down step s) Ei Hm Hb)|].
  - intros s1 Hs1 Hp1 Hf1 Ea Et. pose proof (HP s1) as HPs. apply andb_true_iff in HPs as [Ho Hsm].
    eapply tot_weaken; [apply (control_over cfg w ncores len Hw Hset m s1 Hm (same_throttles _ _ Hs1 Hok) Hp1)|].
    + unfold over_budget in *. rewrite Ea, Et. exact Ho.
    + cbn beta. intros s' _ (Hok' & Hp' & Hd). destruct Hd as (step & Hr & E & _); [unfold small_violation in *; rewrite Ea, Et; exact Hsm|].
      split_and!; [done|done|]. exists step. split; [done|]. destruct Hs1 as (E1 & E2 & _). unfold one_down in *. by rewrite <- E1, <- E2.
  - cbn beta. intros s' _ (Hf & Hok' & Hp' & step & Hr & E). split; [by split_and!; [..|right]|]. by eapply one_down_measure; [| |exact E]; [|lia].
Qed.

Lemma iteration_up cfg w ncores len i s :
  world_ok cfg w ncores -> setup_ok cfg w len -> reading len under_only i -> between len s ->
  tot (iteration cfg w i) s (fun s' _ => between len s' /\ (to_gain s' <= 0 \/ to_gain s' < to_gain s)).
Proof.
  intros Hw Hset (b & p & m & Ei & Hm & HP) Hb. pose proof Hb as (Hok & _).
  eapply tot_weaken; [apply (iteration_control cfg w len i b p m s (fun s' _ => throttles_ok s' /\ map_ok len (predictive_feature_map s') /\
    increased w ncores s s' (current_bandwidth s') (current_bandwidth2 s')) Ei Hm Hb)|].
  - intros s1 Hs1 Hp1 Hf1 Ea Et. pose proof (HP s1) as HPs. apply andb_true_iff in HPs as [Ho%negb_true_iff Hu].
    eapply tot_weaken; [apply (control_under cfg w ncores len Hw Hset m s1 Hm (same_throttles _ _ Hs1 Hok) Hp1)|].
    + unfold over_budget in *. rewrite Ea, Et. exact Ho.
    + unfold under_budget in *. rewrite Ea, Et. exact Hu.
    + cbn beta. intros s' _ (Hok' & Hp' & H1 & H2 & H3 & H4 & H5). split_and!; [done|done|]. destruct Hs1 as (E1 & E2 & E3). rewrite E1, E2 in H4.
      unfold increased. split_and!; try done. intros Ha Hl. apply H5; [done|]. unfold limits_ok in *. by rewrite E1, E2, E3.
  - cbn beta. intros s' _ (Hf & Hok' & Hp' & _ & _ & _ & Hi & _). split; [by split_and!; [..|right]|]. destruct Hok, Hok'.
    unfold to_gain. destruct (Z.ltb_spec (current_bandwidth2 s) 100), (Z.ltb_spec (current_bandwidth s) 100), (Z.ltb_spec (current_bandwidth2 s') 100); lia.
Qed.

(** C5: while the power stays at or above the threshold but less than the
    tolerance above the budget, the samples parse, the model answers and the two
    counts of the cores of a group agree, forty iterations bring both throttles down
    to one percent. *)
Theorem small_violations_reach_floor cfg ncores len l s :
  readings cfg ncores len over_small l -> between len s -> (40 <= length l)%nat ->
  exists s', iterate cfg l s = (s', Some tt) /\ current_bandwidth s' = 1 /\ current_bandwidth2 s' = 1.
Proof.
  intros Hl Hb Hn. destruct (iterate_measure cfg ncores len over_small steps_down l s) as (s' & [] & E & (Hok & _) & Hmu); [|done|done| |].
  - intros w i s0. apply iteration_down.
  - destruct Hb as [[? ?] _]. unfold steps_down. Z.to_euclidean_division_equations; lia.
  - exists s'. split; [done|]. destruct Hok as [H1 H2]. unfold steps_down in Hmu. Z.to_euclidean_division_equations; lia.
Qed.

(** Iterations under a kernel that accepts every limit keep the limits those of the
    throttles. *)
Lemma iterate_limits cfg ncores l s s' :
  Forall (fun '(w, _) => world_ok cfg w ncores /\ accepting w) l -> throttles_ok s -> limits_ok ncores s ->
  iterate cfg l s = (s', Some tt) -> limits_ok ncores s'.
Proof.
  intros Hl. revert s. induction Hl as [|[w i] l [Hw Ha] _ IH]; intros s Hok Hlim; cbn [iterate]; [by intros [= <-]|].
  unfold then_. pose proof (iteration_spec cfg w ncores Hw i s Hok) as Hi. unfold post in Hi.
  destruct (iteration cfg w i s) as [s1 [[]|]]; [|done]. destruct Hi as [Hok1 Hi]. destruct (Hi eq_refl) as [_ Hl1]. apply IH; auto.
Qed.

(** With full throttles no limit is below the full bandwidth. *)
Lemma full_limits ncores s g q :
  limits_ok ncores s -> current_bandwidth s = 100 -> current_bandwidth2 s = 100 -> cpu_max s g = Some q -> q = 100000 * ncores g.
Proof.
  intros [Hu Hc] E1 E2 Eq. destruct g.
  - destruct Hu as [Hu|[Hu _]]; rewrite Eq in Hu; [injection Hu as ->|done]. rewrite E1. lia.
  - destruct Hc as [[Hc _]|(t & Ht & Hc & Hr)]; rewrite Eq in Hc; [done|]. injection Hc as ->. rewrite E2 in Hr. replace t with 100 by lia. lia.
Qed.


(** C3: an iteration in the full mode that finds the power at or above the threshold
    raises neither throttle, not even when an exception ends it or the kernel refuses a
    limit, provided that the cores counted for writing a limit are as many as those
    counted for reading it back ([world_ok]). *)
Theorem capping_never_raises cfg w ncores i b p s :
  world_ok cfg w ncores -> throttles_ok s -> full_mode s = true -> budget i = Some b -> power i = Some p ->
  over_budget (set_power p (set_target b s)) = true ->
  let s' := fst (iteration cfg w i s) in
  current_bandwidth s' <= current_bandwidth s /\ current_bandwidth2 s' <= current_bandwidth2 s.
Proof.
  intros Hw Hok Hf Eb Ep Ho. change (post (iteration cfg w i) s (fun s' _ =>
    current_bandwidth s' <= current_bandwidth s /\ current_bandwidth2 s' <= current_bandwidth2 s)).
  unfold iteration. rewrite Eb, Ep. apply post_modify, post_reads. change (full_mode (set_target b s)) with (full_mode s). rewrite Hf.
  apply post_modify. cbn [negb]. destruct (metrics i) as [m|]; [|by split]. apply post_modify.
  set (s1 := match _ with [] => _ | _ => _ end).
  assert (same s s1 /\ over_budget s1 = true) as [Hs1 Ho1] by (unfold s1; by destruct (predictive_feature_map _)). clearbody s1.
  unfold control. apply post_reads. eapply post_then_spec; [apply calibrate_spec| |].
  2: { intros s' [(E1 & E2 & _) _]. destruct Hs1 as (F1 & F2 & _). lia. }
  intros s2 [] (Hs2 & Ea & Et). apply post_modify, post_reads. unfold id. set (s3 := set_flags _ _ s2).
  assert (same s s3) as Hs3 by (destruct Hs1 as (F1 & F2 & F3), Hs2 as (G1 & G2 & G3); unfold same; cbn; split_and!; congruence).
  assert (over_budget s3 = true) as -> by (unfold over_budget in *; cbn; by rewrite Ea, Et). pose proof (same_throttles _ _ Hs3 Hok) as Hok3.
  clearbody s3. destruct Hs3 as (E1 & E2 & _).
  eapply post_then_spec; [by apply (strict_spec cfg w ncores Hw)| |intros s' [_ H]; lia].
  intros s4 [b1 b2] (_ & H1 & H2 & _). apply post_modify. unfold post, modify. cbn. lia.
Qed.

(** ** A thread that is started again *)

(** When an exception has ended the thread, the new one takes the user
    group to have its full bandwidth, whatever its limit is; so the first small
    violation of the budget after the restart sets the limit to at least 90
    percent, even where it was one percent. *)
Theorem restart_forgets_limit cfg w ncores len i s :
  world_ok cfg w ncores -> setup_ok cfg w len -> accepting w -> reading len over_small i ->
  throttles_ok s -> full_mode s = true -> (predictive_feature_map s = [] \/ map_ok len (predictive_feature_map s)) ->
  exists s' t, iteration cfg w i (run_stress_test_init s) = (s', Some tt) /\
    cpu_max s' user = Some (1000 * ncores user * t) /\ 90 <= t.
Proof.
  intros Hw Hset Ha (b & p & m & Ei & Hm & HP) [Hb Hb2] Hf Hp. set (s0 := run_stress_test_init s).
  assert (between len s0) as Hbt by (split_and!; [unfold throttles_ok, s0; cbn; lia|done|done]).
  destruct (iteration_control cfg w len i b p m s0 (fun s' _ => 90 <= current_bandwidth s' /\
    cpu_max s' user = Some (1000 * ncores user * current_bandwidth s')) Ei Hm Hbt) as (s' & [] & E & _ & Ht & Eu); [|by eauto].
  intros s1 Hs1 Hp1 Hf1 Ea Et. pose proof (HP s1) as HPs. apply andb_true_iff in HPs as [Ho Hsm].
  eapply tot_weaken; [apply (control_over cfg w ncores len Hw Hset m s1 Hm (same_throttles _ _ Hs1 (proj1 Hbt)) Hp1)|].
  - unfold over_budget in *. rewrite Ea, Et. exact Ho.
  - cbn beta. intros s' _ (_ & _ & Hd). destruct Hd as (step & Hr & E & Eu); [unfold small_violation in *; rewrite Ea, Et; exact Hsm|].
    destruct Hs1 as (E1 & _ & _). change (current_bandwidth s0) with 100 in E1. rewrite E1 in Eu. split; [|apply Eu; [done|lia]].
    unfold one_down in E. rewrite E1 in E. change (1 <? 100) with true in E. injection E as -> _. lia.
Qed.

(** ** Concrete runs *)

Lemma demo_setup_ok : setup_ok demo_cfg demo_world 13.
Proof.
  split; [done|done| |by intros m; eexists]. intros g core Hc _.
  assert (0 <= core <= 1) as Hr; [|cbn; lia]. destruct g; vm_compute in Hc; apply list_elem_of_singleton in Hc; lia.
Qed.

Lemma demo_map_ok : map_ok 13 demo_map.
Proof. split; [done|]. apply Forall_replicate. by eexists. Qed.

Lemma demo_reading P p :
  (forall s, P (set_power (f_of_Z p) (set_target 100 s)) = true) -> reading 13 P (demo_sample p).
Proof. intros HP. exists 100, (f_of_Z p), demo_map. split; [done|]. split; [apply demo_map_ok|done]. Qed.

Lemma demo_readings P p n :
  (forall s, P (set_power (f_of_Z p) (set_target 100 s)) = true) ->
  readings demo_cfg demo_cores 13 P (replicate n (demo_world, demo_sample p)).
Proof. intros HP. apply Forall_replicate. split_and!; [apply demo_world_ok|apply demo_setup_ok|by apply demo_reading]. Qed.

Lemma demo_between : between 13 (demo_after demo_start 200).
Proof. split_and!; [by split; vm_compute|done|by left]. Qed.

Lemma small_violations_reach_floor_witness :
  exists s', iterate demo_cfg (replicate 40 (demo_world, demo_sample 102)) (demo_after demo_start 200) = (s', Some tt) /\
    current_bandwidth s' = 1 /\ current_bandwidth2 s' = 1.
Proof.
  apply (small_violations_reach_floor demo_cfg demo_cores 13); [|apply demo_between|by rewrite length_replicate].
  apply demo_readings. intros s. vm_compute. reflexivity.
Defined.

(** Both groups limited to one percent. *)
Definition demo_limited : pstate := demo_after (demo_after demo_start 200) 200.

Lemma demo_limited_ok : between 13 demo_limited /\ limits_ok demo_cores demo_limited.
Proof.
  split; [split_and!; [by split; vm_compute|done|right; split; [vm_compute; reflexivity|]]|].
  - assert (forallb (fun c => match c with CBad => false | _ => true end) (predictive_feature_map demo_limited) = true) as Hall by (vm_compute; reflexivity).
    apply Forall_forall. intros c Hc%list_elem_of_In. apply (proj1 (forallb_forall _ _) Hall) in Hc. destruct c; [by eexists..|done].
  - split; [left; vm_compute; reflexivity|right; exists 1; vm_compute; by split_and!].
Qed.


Lemma capping_never_raises_witness :
  let s := demo_after demo_start 200 in let s' := demo_after s 200 in
  current_bandwidth s' <= current_bandwidth s /\ current_bandwidth2 s' <= current_bandwidth2 s.
Proof.
  apply (capping_never_raises demo_cfg demo_world demo_cores (demo_sample 200) 100 (f_of_Z 200));
    [apply demo_world_ok|by split; vm_compute|reflexivity|reflexivity|reflexivity|vm_compute; reflexivity].
Defined.

Lemma restart_forgets_limit_witness :
  exists s' t, iteration demo_cfg demo_world (demo_sample 102) (run_stress_test_init (set_cpu_max user 1000 (demo_after demo_start 200))) = (s', Some tt) /\
    cpu_max s' user = Some (1000 * demo_cores user * t) /\ 90 <= t.
Proof.
  apply (restart_forgets_limit demo_cfg demo_world demo_cores 13 (demo_sample 102));
    [apply demo_world_ok|apply demo_setup_ok|done| |by split; vm_compute|reflexivity|by left].
  apply demo_reading. intros s. vm_compute. reflexivity.
Defined.

(** ** What the search for a higher throttle does not do *)

(** One user core and one metric; the model is the metric. *)
Definition metric_world : world :=
  {| cpus_effective := fun _ => Some [48; 10]; cpus_allowed := fun _ => Some [48; 10]; cpu_max_ok := fun _ _ => true;
     predict := fun m => get_float m 6 |}.
Definition metric_cfg : config :=
  {| topol_size := 6; direct_metrics_size := 6; max_freq := 2000; core_info_count := 6; num_cores := 1 |}.
Definition metric_state (target : Z) (offset : float) : pstate :=
  set_target target (set_calibration offset (set_adjustment {[ 6 := f_of_Z 1 ]} (set_bandwidth 50 (initial (fun _ => None))))).
Definition metric_map : list cell := replicate 6 (CFloat (f_of_Z 100)) ++ [CFloat (f_of_Z 10)].

(** The documentation promises a throttle whose prediction plus the calibration
    offset is within the budget; the offset is on both sides of the comparison,
    so that 20 Watts are accepted for a budget of 21 although 30 is the
    calibrated prediction. *)
Example recover_ignores_calibration :
  snd (recover_bandwidth metric_cfg metric_world metric_map user (metric_state 21 (f_of_Z 10))) = Some 100.
Proof. vm_compute. reflexivity. Qed.

(** The number of cores grows from candidate to candidate: 95 percent would be
    accepted for itself, with 19 Watts, but not after 100 percent has been
    tried, when it counts for two cores of one. *)
Example recover_counts_accumulate :
  recover_loop metric_cfg metric_world (metric_state 19 (f_of_Z 0)) metric_map user [95] 0 = Some (Some 95) /\
  recover_loop metric_cfg metric_world (metric_state 19 (f_of_Z 0)) metric_map user [100; 95] 0 = Some None.
Proof. vm_compute. split; reflexivity. Qed.

(** ** Counting cores twice *)

(** The limit is computed for the cores of [get_user_cores] and read back for
    the effective ones; with one effective core of four, a limit of 50 percent
    is read back as 200. *)
Definition mismatch_world : world :=
  {| cpus_effective := fun _ => Some [48; 10]; cpus_allowed := fun _ => Some [48; 45; 51; 10]; cpu_max_ok := fun _ _ => true;
     predict := fun _ => None |}.

Example mismatched_cores :
  current_bandwidth (fst (set_cpu_limit mismatch_world user 50 (get_user_cores mismatch_world) demo_start)) = 200.
Proof. vm_compute. reflexivity. Qed.
