(* ===== verification/Rumd.v ===== *)
(** * The baseline controllers

    The controllers the power-capping controller is compared with:
    src/control/powercap_CPU_google-ALL-v1.2.py, which multiplies the throttle
    down and adds to it after random waits, powercap_CPU_MS.py and
    powercap_CPU_oracle.py.  The throttles of the first are floating-point
    numbers, and the results are about the rounded values.  Writing a limit is
    taken to succeed. *)
From Stdlib Require Import SpecFloat.
From S2P Require Import Prelude PyFloat Cpuset.

Local Open Scope Z_scope.

(** ** Multiplicative decrease, additive increase *)

Definition HARD_MULTIPLIER : float := dec_lit 1 2.
Definition SOFT_MULTIPLIER : float := dec_lit 75 2.
Definition THROTTLE_MIN : float := f_of_Z 1.
Definition THROTTLE_MAX : float := f_of_Z 100.
Definition HIGH_THRESHOLD : float := dec_lit 98 2.
Definition LOW_THRESHOLD : float := dec_lit 96 2.
Definition UNTHROTTLE_STEP : float := f_of_Z 5.

(** The cores of a cgroup; every core of the machine when the file cannot be
    read or parsed. *)
Fixpoint all_parts (parts : list (list Z)) : option (list Z) :=
  match parts with
  | [] => Some []
  | part :: parts => cs ← cpuset_part part; rest ← all_parts parts; Some (cs ++ rest)
  end.

Definition get_cgroup_available_cores (content : option (list Z)) (cpu_count : Z) : list Z :=
  let all := map Z.of_nat (seq 0 (Z.to_nat cpu_count)) in
  merge_sort Z.le
    match content with
    | None => all
    | Some s =>
        let s := strip s in
        if (length s =? 0)%nat then [] else default all (all_parts (split_on 44 s))
    end.

(** The quota that [set_cpu_max] writes; [None] when there are no cores. *)
Definition rumd_quota (num_available_cores : Z) (percent_limit : float) : option Z :=
  if num_available_cores =? 0 then None else
  let period_us := 100000 in
  let quota_us := f_trunc (f_of_Z (period_us * num_available_cores) * percent_limit / f_of_Z 100)%F in
  let max_quota_us := period_us * num_available_cores in
  let quota_us := if (f_of_Z 0 <? percent_limit)%F then Z.max 1000 quota_us else 0 in
  Some (Z.min quota_us max_quota_us).

Record rumd : Type := {
  current_bandwidth_user : float;
  current_bandwidth_critical : float;
  throttling_active_state : bool;
  next_unthrottle_time : float;
  user_quota : option Z;
  critical_quota : option Z;
}.

(** The new throttle of a group that is throttled. *)
Definition rumd_throttle (hard soft : bool) (bw : float) : float :=
  let bw := if hard then (bw * HARD_MULTIPLIER)%F else if soft then (bw * SOFT_MULTIPLIER)%F else bw in
  fmax THROTTLE_MIN bw.

(** One iteration with a measured power: [now] is the clock, [wait] the random
    waiting time, and the counts are of the cores of the groups. *)
Definition rumd_step (nuser ncritical : Z) (target actual now wait : float) (s : rumd) : rumd :=
  let low := (target * LOW_THRESHOLD <? actual)%F in
  let active := if low then true
                else if (actual <=? target * dec_lit 90 2)%F then false else throttling_active_state s in
  let '(u, c, next) :=
    if low then
      let hard := (target * HIGH_THRESHOLD <? actual)%F in
      let soft := low && negb hard && active in
      if (THROTTLE_MIN <? current_bandwidth_user s)%F then
        (rumd_throttle hard soft (current_bandwidth_user s), current_bandwidth_critical s, next_unthrottle_time s)
      else if (THROTTLE_MIN <? current_bandwidth_critical s)%F then
        (current_bandwidth_user s, rumd_throttle hard soft (current_bandwidth_critical s), next_unthrottle_time s)
      else (current_bandwidth_user s, current_bandwidth_critical s, next_unthrottle_time s)
    else if (next_unthrottle_time s <=? now)%F then
      if (current_bandwidth_critical s <? THROTTLE_MAX)%F then
        (current_bandwidth_user s, fmin THROTTLE_MAX (current_bandwidth_critical s + UNTHROTTLE_STEP)%F, (now + wait)%F)
      else if (current_bandwidth_user s <? THROTTLE_MAX)%F then
        (fmin THROTTLE_MAX (current_bandwidth_user s + UNTHROTTLE_STEP)%F, current_bandwidth_critical s, (now + wait)%F)
      else (current_bandwidth_user s, current_bandwidth_critical s, next_unthrottle_time s)
    else (current_bandwidth_user s, current_bandwidth_critical s, next_unthrottle_time s) in
  let changed old new := (dec_lit 1 2 <? fabs (new - old))%F in
  let apply_ n old new quota :=
    if changed old new then match rumd_quota n new with Some q => Some q | None => quota end else quota in
  {| current_bandwidth_user := u; current_bandwidth_critical := c; throttling_active_state := active; next_unthrottle_time := next;
     user_quota := apply_ nuser (current_bandwidth_user s) u (user_quota s);
     critical_quota := apply_ ncritical (current_bandwidth_critical s) c (critical_quota s) |}.

(** Before the loop both groups get their full bandwidth. *)
Definition rumd_initial (nuser ncritical : Z) : rumd :=
  {| current_bandwidth_user := THROTTLE_MAX; current_bandwidth_critical := THROTTLE_MAX; throttling_active_state := false;
     next_unthrottle_time := f_of_Z 0; user_quota := rumd_quota nuser THROTTLE_MAX; critical_quota := rumd_quota ncritical THROTTLE_MAX |}.

(** ** The controller of powercap_CPU_MS.py *)

(** [core_throttling]: the quota it writes. *)
Definition core_throttling (num_cores index : Z) : option Z := f_trunc <$> true_div (100000 * num_cores * index) 100.

Definition ms_control (num_cores : Z) (actual_power : float) (target_power current_bandwidth : Z) : Z * option Z :=
  let current_bandwidth := if (f_of_Z target_power <? actual_power)%F then 5 else Z.min (current_bandwidth + 1) 100 in
  (current_bandwidth, core_throttling num_cores current_bandwidth).

(** ** The controller of powercap_CPU_oracle.py *)

(** The preanalysed power of every level; [select_throttle] raises an exception
    when there is none. *)
Definition select_throttle (power_info : list (Z * float)) (target_power : float) : option Z :=
  let levels := reverse (merge_sort Z.le (map fst power_info)) in
  let power_of level := snd <$> find (fun e => fst e =? level) power_info in
  match find (fun level => match power_of level with Some p => (p <=? target_power)%F | None => false end) levels with
  | Some level => Some level
  | None => last levels
  end.

(** [None] is the unlimited quota. *)
Definition set_user_cpu_max (num_cores percent : Z) : option Z :=
  if percent =? 100 then None
  else Some (f_trunc (f_of_Z (100000 * num_cores) * (f_of_Z percent / f_of_Z 100))%F).

(** ** Rounded throttles *)

(** A value of a throttle: from 1 to 100 percent, and equal to a bound it is not
    strictly inside of. *)
Definition throttle_ok (x : float) : Prop :=
  fwithin 1024 102400 x /\ (x = THROTTLE_MIN \/ (THROTTLE_MIN <? x)%F = true) /\ (x = THROTTLE_MAX \/ (x <? THROTTLE_MAX)%F = true).

Lemma min_within : fwithin 1024 1024 THROTTLE_MIN.
Proof. by apply (within_of_Z 1). Qed.
Lemma max_within : fwithin 102400 102400 THROTTLE_MAX.
Proof. by apply (within_of_Z 100). Qed.

(** A normal number above 1, or below 100, has the bound as an integer one. *)
Lemma within_above a b x : fwithin a b x -> (THROTTLE_MIN <? x)%F = true -> fwithin 1024 b x.
Proof.
  intros (q & e & -> & Hq & He & Hab) Hlt. exists q, e. split_and!; try done; try lia.
  destruct min_within as (q1 & e1 & E1 & Hq1 & He1 & Hab1). unfold flt, SFltb in Hlt. rewrite E1, normal_compare in Hlt by lia.
  assert (0 < 2 ^ (-10 - e1)) by (apply Z.pow_pos_nonneg; lia). assert (0 < 2 ^ (-10 - e)) by (apply Z.pow_pos_nonneg; lia).
  destruct (Z.compare_spec (q1 * 2 ^ (-10 - e)) (q * 2 ^ (-10 - e1))); try done.
  set (p := 2 ^ (-10 - e)) in *. set (p1 := 2 ^ (-10 - e1)) in *. assert (q1 = 1024 * p1) as -> by lia. nia.
Qed.

Lemma within_below a b x : fwithin a b x -> (x <? THROTTLE_MAX)%F = true -> fwithin a 102400 x.
Proof.
  intros (q & e & -> & Hq & He & Hab) Hlt. exists q, e. split_and!; try done; try lia.
  destruct max_within as (q1 & e1 & E1 & Hq1 & He1 & Hab1). unfold flt, SFltb in Hlt. rewrite E1, normal_compare in Hlt by lia.
  assert (0 < 2 ^ (-10 - e1)) by (apply Z.pow_pos_nonneg; lia). assert (0 < 2 ^ (-10 - e)) by (apply Z.pow_pos_nonneg; lia).
  destruct (Z.compare_spec (q * 2 ^ (-10 - e1)) (q1 * 2 ^ (-10 - e))); try done.
  set (p := 2 ^ (-10 - e)) in *. set (p1 := 2 ^ (-10 - e1)) in *. assert (q1 = 102400 * p1) as -> by lia. nia.
Qed.

Lemma min_ok : throttle_ok THROTTLE_MIN.
Proof.
  split; [eapply within_mono; [apply min_within|lia|lia]|]. split; [by left|right; vm_compute; reflexivity].
Qed.
Lemma max_ok : throttle_ok THROTTLE_MAX.
Proof.
  split; [eapply within_mono; [apply max_within|lia|lia]|]. split; [right; vm_compute; reflexivity|by left].
Qed.

(** The larger of 1 and a normal number, the smaller of 100 and one. *)
Lemma fmax_ok a b x : fwithin a b x -> b <= 102400 -> (x <? THROTTLE_MAX)%F = true -> throttle_ok (fmax THROTTLE_MIN x).
Proof.
  intros Hx Hb Hlt. unfold fmax. destruct (THROTTLE_MIN <? x)%F eqn:E; [|apply min_ok]. split; [|split; by right].
  eapply within_mono; [by eapply within_above|lia|lia].
Qed.

Lemma fmin_ok a b x : fwithin a b x -> 1024 < a -> throttle_ok (fmin THROTTLE_MAX x).
Proof.
  intros Hx Ha. unfold fmin. destruct (x <? THROTTLE_MAX)%F eqn:E; [|apply max_ok].
  split; [eapply within_mono; [by eapply within_below|lia|lia]|]. split; [right|by right].
  apply (compare_within 1024 1024 a b); [apply min_within|done|lia|lia].
Qed.

(** Three quarters of a throttle. *)
Lemma soft_ok x : throttle_ok x -> throttle_ok (fmax THROTTLE_MIN (x * SOFT_MULTIPLIER)%F).
Proof.
  intros [Hx _]. assert (fwithin 768 76800 (x * SOFT_MULTIPLIER)%F) as Hs.
  { change SOFT_MULTIPLIER with (S754_finite false 6755399441055744 (-53)). eapply fmul_within; [exact Hx|lia|lia|lia|lia|lia|lia]. }
  apply (fmax_ok _ _ _ Hs); [lia|]. apply (compare_within 768 76800 102400 102400); [done|apply max_within|lia|lia].
Qed.

(** A hundredth of a throttle, rounded, is not above 1: for 100 percent the
    exact product with the rounded constant is, by less than half a unit. *)
Lemma hard_product x : throttle_ok x -> (THROTTLE_MIN <? x * HARD_MULTIPLIER)%F = false.
Proof.
  intros [(q & e & -> & Hq & He & Hab) _]. change HARD_MULTIPLIER with (S754_finite false 5764607523034235 (-59)).
  unfold fmul. cbn [SFmul xorb]. set (m := (Z.to_pos q * 5764607523034235)%positive).
  assert (Zpos m = q * 5764607523034235) as Em by (unfold m; rewrite Pos2Z.inj_mul, Z2Pos.id by lia; done).
  assert (0 < 2 ^ (- e)) as Hpe by (apply Z.pow_pos_nonneg; lia).
  assert (q <= 100 * 2 ^ (- e)) as Hq100.
  { replace (- e) with (10 + (-10 - e)) by lia. rewrite Z.pow_add_r by lia. change (2 ^ 10) with 1024. lia. }
  assert (Zpos m <= (2 ^ 59 + 12) * 2 ^ (- e)) as Hm by (rewrite Em; lia).
  assert (2 ^ 104 <= Zpos m) as Hm0 by (rewrite Em; lia).
  pose proof (Z.log2_spec (Zpos m) ltac:(lia)) as [Hl _]. set (n := Z.log2 (Zpos m) - 52) in *.
  assert (104 <= Z.log2 (Zpos m)) by (apply Z.log2_le_pow2; lia).
  assert (e - 59 + n <= -52) as HE.
  { enough (Z.log2 (Zpos m) < 60 + - e) by lia. apply Z.log2_lt_pow2; [lia|]. rewrite Z.pow_add_r by lia. lia. }
  destruct (round_half m (e + -59) n eq_refl ltac:(lia) ltac:(lia)) as (q' & Hq' & Hh & ->). replace (e + -59 + n) with (e - 59 + n) by lia.
  set (E := e - 59 + n) in *. assert (E = -52 -> q' <= 2 ^ 52) as Heq.
  { intros E52. replace n with (7 + - e) in Hh by lia. rewrite Z.pow_add_r in Hh by lia. change (2 ^ 7) with 128 in Hh. nia. }
  change THROTTLE_MIN with (S754_finite false (Z.to_pos (2 ^ 52)) (-52)). unfold normal, flt, SFltb.
  destruct (Z.eqb_spec q' (2 ^ 53)) as [->|Hne].
  - change (2 ^ 52)%positive with (Z.to_pos (2 ^ 52)). rewrite normal_compare by lia.
    assert (2 ^ 42 <= 2 ^ (-10 - (E + 1))) by (apply Z.pow_le_mono_r; lia). change (-10 - -52) with 42. destruct (Z.compare_spec (2 ^ 52 * 2 ^ (-10 - (E + 1))) (2 ^ 52 * 2 ^ 42)); [done|lia|done].
  - rewrite normal_compare by lia. change (-10 - -52) with 42.
    assert (q' * 2 ^ 42 <= 2 ^ 52 * 2 ^ (-10 - E)) as Hfin.
    { destruct (decide (E = -52)) as [E52|]; [rewrite E52; specialize (Heq E52); change (-10 - -52) with 42; lia|].
      assert (2 ^ 43 <= 2 ^ (-10 - E)) by (apply Z.pow_le_mono_r; lia). lia. }
    destruct (Z.compare_spec (2 ^ 52 * 2 ^ (-10 - E)) (q' * 2 ^ 42)); [done|lia|done].
Qed.

Lemma throttle_keeps_ok hard soft x : throttle_ok x -> throttle_ok (rumd_throttle hard soft x).
Proof.
  intros Hx. unfold rumd_throttle. destruct hard; [unfold fmax; rewrite hard_product by done; apply min_ok|].
  destruct soft; [by apply soft_ok|]. unfold fmax. destruct (THROTTLE_MIN <? x)%F; [done|apply min_ok].
Qed.

Lemma unthrottle_ok x : throttle_ok x -> throttle_ok (fmin THROTTLE_MAX (x + UNTHROTTLE_STEP)%F).
Proof.
  intros [Hx _]. assert (fwithin (1024 + 5120) (102400 + 5120) (x + UNTHROTTLE_STEP)%F) as Hs.
  { change UNTHROTTLE_STEP with (S754_finite false 5629499534213120 (-50)). apply fadd_within; [done|lia|lia|done|lia|lia]. }
  apply (fmin_ok _ _ _ Hs). lia.
Qed.

(** ** Invariants of the first controller *)

Definition quota_ok (n : Z) (q : option Z) : Prop := forall x, q = Some x -> 1000 <= x <= 100000 * n.

Record rumd_ok (nuser ncritical : Z) (s : rumd) : Prop := {
  ro_user : throttle_ok (current_bandwidth_user s);
  ro_critical : throttle_ok (current_bandwidth_critical s);
  ro_priority : current_bandwidth_critical s = THROTTLE_MAX \/ current_bandwidth_user s = THROTTLE_MIN;
  ro_user_quota : quota_ok nuser (user_quota s);
  ro_critical_quota : quota_ok ncritical (critical_quota s);
}.

(** A throttle is positive, so that the quota is not below the least one. *)
Lemma quota_of_throttle_ok n x : 0 < n -> throttle_ok x -> quota_ok n (rumd_quota n x).
Proof.
  intros Hn [Hx _] q. unfold rumd_quota. destruct (n =? 0); [done|].
  assert ((f_of_Z 0 <? x)%F = true) as -> by (destruct Hx as (m & e & -> & _); done). intros [= <-]. lia.
Qed.

Section Invariant.
Context (nuser ncritical : Z) (Hu : 0 < nuser) (Hc : 0 < ncritical).

Lemma rumd_initial_ok : rumd_ok nuser ncritical (rumd_initial nuser ncritical).
Proof using Hu Hc.
  split; cbn; try apply max_ok; [by left|by apply quota_of_throttle_ok, max_ok|by apply quota_of_throttle_ok, max_ok].
Qed.

Lemma rumd_step_ok target actual now wait s :
  rumd_ok nuser ncritical s -> rumd_ok nuser ncritical (rumd_step nuser ncritical target actual now wait s).
Proof using Hu Hc.
  intros [H1 H2 H3 H4 H5]. unfold rumd_step. destruct (if (target * LOW_THRESHOLD <? actual)%F then _ else _) as [[u c] next] eqn:E.
  assert (throttle_ok u /\ throttle_ok c /\ (c = THROTTLE_MAX \/ u = THROTTLE_MIN)) as (Ku & Kc & Kp).
  { destruct (target * LOW_THRESHOLD <? actual)%F; [|destruct (_ <=? now)%F; [|by simplify_eq]].
    - destruct (THROTTLE_MIN <? current_bandwidth_user s)%F eqn:Eu.
      + simplify_eq. split_and!; [by apply throttle_keeps_ok|done|]. destruct H3 as [?|H3]; [by left|]. rewrite H3 in Eu. by vm_compute in Eu.
      + assert (current_bandwidth_user s = THROTTLE_MIN) as Em by (destruct H1 as (_ & [?|?] & _); congruence).
        destruct (THROTTLE_MIN <? current_bandwidth_critical s)%F; simplify_eq; split_and!; try done; try (by right). by apply throttle_keeps_ok.
    - destruct (current_bandwidth_critical s <? THROTTLE_MAX)%F eqn:Ec.
      + simplify_eq. split_and!; [done|by apply unthrottle_ok|]. destruct H3 as [H3|?]; [|by right]. rewrite H3 in Ec. by vm_compute in Ec.
      + assert (current_bandwidth_critical s = THROTTLE_MAX) as Em by (destruct H2 as (_ & _ & [?|?]); congruence).
        destruct (current_bandwidth_user s <? THROTTLE_MAX)%F; simplify_eq; split_and!; try done; try (by left). by apply unthrottle_ok. }
  split; cbn; [done|done|done| |].
  - destruct (_ <? fabs _)%F; [|done]. pose proof (quota_of_throttle_ok nuser u Hu Ku) as Hq. by destruct (rumd_quota nuser u).
  - destruct (_ <? fabs _)%F; [|done]. pose proof (quota_of_throttle_ok ncritical c Hc Kc) as Hq. by destruct (rumd_quota ncritical c).
Qed.
End Invariant.

(** The states of the controller, under any measurements and waits. *)
Inductive rumd_reach (nuser ncritical : Z) : rumd -> Prop :=
  | rumd_start : rumd_reach nuser ncritical (rumd_initial nuser ncritical)
  | rumd_next target actual now wait s :
      rumd_reach nuser ncritical s -> rumd_reach nuser ncritical (rumd_step nuser ncritical target actual now wait s).

Lemma rumd_reach_ok nuser ncritical s : 0 < nuser -> 0 < ncritical -> rumd_reach nuser ncritical s -> rumd_ok nuser ncritical s.
Proof. intros Hu Hc. induction 1; [by apply rumd_initial_ok|by apply rumd_step_ok]. Qed.

(** C32: under any measurements, waits and budgets, with every operation rounded,
    both throttles of the baseline controller stay between 1.0 and 100.0, the
    critical group is throttled only while the user group is at 1.0, and the
    quotas written are at least what the kernel accepts and at most all the
    cores. *)
Theorem rumd_invariant nuser ncritical s :
  0 < nuser -> 0 < ncritical -> rumd_reach nuser ncritical s ->
  Forall (fun x => (THROTTLE_MIN <=? x)%F = true /\ (x <=? THROTTLE_MAX)%F = true) [current_bandwidth_user s; current_bandwidth_critical s] /\
  ((current_bandwidth_critical s <? THROTTLE_MAX)%F = true -> current_bandwidth_user s = THROTTLE_MIN) /\
  quota_ok nuser (user_quota s) /\ quota_ok ncritical (critical_quota s).
Proof.
  intros Hu Hc Hr. destruct (rumd_reach_ok _ _ _ Hu Hc Hr) as [H1 H2 H3 H4 H5].
  assert (forall x, throttle_ok x -> (THROTTLE_MIN <=? x)%F = true /\ (x <=? THROTTLE_MAX)%F = true) as Hok.
  { intros x [Hx _]. split; [apply (compare_within 1024 1024 1024 102400)|apply (compare_within 1024 102400 102400 102400)];
      try done; try lia; [apply min_within|apply max_within]. }
  split; [constructor; [by apply Hok|constructor; [by apply Hok|constructor]]|]. split; [|by split].
  intros Hlt. destruct H3 as [E|?]; [|done]. rewrite E in Hlt. by vm_compute in Hlt.
Qed.

(** In every reachable state one measurement above the high threshold takes
    a throttled user group to exactly 1.0, and a second one the critical
    group. *)
Theorem rumd_hard_throttle nuser ncritical s target actual now wait target' actual' now' wait' :
  0 < nuser -> 0 < ncritical -> rumd_reach nuser ncritical s ->
  (target * LOW_THRESHOLD <? actual)%F = true -> (target * HIGH_THRESHOLD <? actual)%F = true ->
  (target' * LOW_THRESHOLD <? actual')%F = true -> (target' * HIGH_THRESHOLD <? actual')%F = true ->
  let s1 := rumd_step nuser ncritical target actual now wait s in
  let s2 := rumd_step nuser ncritical target' actual' now' wait' s1 in
  current_bandwidth_user s1 = THROTTLE_MIN /\ current_bandwidth_user s2 = THROTTLE_MIN /\ current_bandwidth_critical s2 = THROTTLE_MIN.
Proof.
  intros Hu Hc Hr Hl Hh Hl' Hh' s1 s2. pose proof (rumd_reach_ok _ _ _ Hu Hc Hr) as Hok.
  assert (forall t a n w s, rumd_ok nuser ncritical s -> (t * LOW_THRESHOLD <? a)%F = true -> (t * HIGH_THRESHOLD <? a)%F = true ->
    let s' := rumd_step nuser ncritical t a n w s in
    current_bandwidth_user s' = THROTTLE_MIN /\ (current_bandwidth_user s = THROTTLE_MIN -> current_bandwidth_critical s' = THROTTLE_MIN)) as Hstep.
  { intros t a n w s0 [H1 H2 H3 _ _] El Eh. unfold rumd_step. rewrite El, Eh. cbn [andb negb].
    assert (forall x, throttle_ok x -> rumd_throttle true false x = THROTTLE_MIN) as Ht
      by (intros x Hx; unfold rumd_throttle, fmax; by rewrite hard_product).
    destruct (THROTTLE_MIN <? current_bandwidth_user s0)%F eqn:Eu; cbn [current_bandwidth_user current_bandwidth_critical].
    - split; [by apply Ht|]. intros E. rewrite E in Eu. by vm_compute in Eu.
    - assert (current_bandwidth_user s0 = THROTTLE_MIN) by (destruct H1 as (_ & [?|?] & _); congruence).
      destruct (THROTTLE_MIN <? current_bandwidth_critical s0)%F eqn:Ec; cbn [current_bandwidth_user current_bandwidth_critical]; (split; [done|]); intros _; [by apply Ht|].
      destruct H2 as (_ & [?|?] & _); congruence. }
  destruct (Hstep target actual now wait s Hok Hl Hh) as [E1 _]. fold s1 in E1.
  destruct (Hstep target' actual' now' wait' s1 (rumd_step_ok _ _ Hu Hc _ _ _ _ _ Hok) Hl' Hh') as [E2 E3]. fold s2 in E2, E3. auto.
Qed.

Lemma rumd_invariant_witness :
  let s := rumd_step 2 2 (f_of_Z 100) (f_of_Z 97) (f_of_Z 0) (f_of_Z 0) (rumd_initial 2 2) in
  quota_ok 2 (user_quota s) /\ quota_ok 2 (critical_quota s).
Proof. apply (rumd_invariant 2 2); [lia|lia|]. apply rumd_next, rumd_start. Defined.

Lemma rumd_hard_throttle_witness :
  let s1 := rumd_step 2 2 (f_of_Z 100) (f_of_Z 120) (f_of_Z 0) (f_of_Z 0) (rumd_initial 2 2) in
  let s2 := rumd_step 2 2 (f_of_Z 100) (f_of_Z 99) (f_of_Z 1) (f_of_Z 0) s1 in
  current_bandwidth_user s1 = THROTTLE_MIN /\ current_bandwidth_user s2 = THROTTLE_MIN /\ current_bandwidth_critical s2 = THROTTLE_MIN.
Proof.
  apply (rumd_hard_throttle 2 2); [lia|lia|apply rumd_start|vm_compute; reflexivity..].
Defined.

(** ** The other baselines *)

Lemma descending_snoc (l : list Z) y :
  StronglySorted Z.ge l -> (forall x, x ∈ l -> y <= x) -> StronglySorted Z.ge (l ++ [y]).
Proof.
  induction 1 as [|x l Hs IH Hx]; intros Hy; cbn [app]; [by repeat constructor|]. constructor.
  - apply IH. intros z Hz. apply Hy. by right.
  - apply Forall_app_2; [done|]. constructor; [|constructor]. specialize (Hy x ltac:(by left)). lia.
Qed.

Lemma descending_reverse (l : list Z) : StronglySorted Z.le l -> StronglySorted Z.ge (reverse l).
Proof.
  induction 1 as [|x l Hs IH Hx]; [constructor|]. rewrite reverse_cons. apply descending_snoc; [done|].
  intros y Hy. rewrite elem_of_reverse in Hy. rewrite Forall_forall in Hx. by apply Hx.
Qed.

Lemma find_descending (f : Z -> bool) l x :
  StronglySorted Z.ge l -> find f l = Some x -> x ∈ l /\ f x = true /\ forall y, y ∈ l -> f y = true -> y <= x.
Proof.
  induction 1 as [|z l Hs IH Hz]; cbn [find]; [done|]. rewrite Forall_forall in Hz. destruct (f z) eqn:Ez.
  - intros [= ->]. split_and!; [by left|done|]. intros y [->|Hy]%elem_of_cons _; [lia|]. specialize (Hz y Hy). lia.
  - intros Hf. destruct (IH Hf) as (Hx & Hfx & Hmax). split_and!; [by right|done|]. intros y [->|Hy]%elem_of_cons Hfy; [congruence|auto].
Qed.

Lemma last_descending l : StronglySorted Z.ge l -> l <> [] -> exists x, last l = Some x /\ x ∈ l /\ forall y, y ∈ l -> x <= y.
Proof.
  induction 1 as [|z l Hs IH Hz]; intros Hne; [done|]. rewrite Forall_forall in Hz. destruct l as [|z' l].
  - exists z. split_and!; [done|by left|]. intros y [->|Hy]%elem_of_cons; [lia|]. by apply elem_of_nil in Hy.
  - destruct (IH ltac:(done)) as (x & Ex & Hx & Hmin). exists x. split_and!; [done|by right|].
    intros y [->|Hy]%elem_of_cons; [|auto]. specialize (Hz x Hx). lia.
Qed.

Lemma find_key (info : list (Z * float)) l p :
  NoDup (map fst info) -> (l, p) ∈ info -> snd <$> find (fun e => fst e =? l) info = Some p.
Proof.
  induction info as [|[l' p'] info IH]; intros Hnd Hin; [by apply elem_of_nil in Hin|]. cbn [map] in Hnd. apply NoDup_cons in Hnd as [Hni Hnd].
  cbn [find fst]. apply elem_of_cons in Hin as [[= <- <-]|Hin]; [by rewrite Z.eqb_refl|].
  destruct (Z.eqb_spec l' l) as [->|]; [|by apply IH]. destruct Hni. apply list_elem_of_fmap. by exists (l, p).
Qed.

(** The oracle selects the highest level whose power is fwithin the budget,
    and the lowest one when there is none. *)
Theorem select_throttle_highest power_info target :
  NoDup (map fst power_info) -> power_info <> [] ->
  exists level, select_throttle power_info target = Some level /\ level ∈ map fst power_info /\
    ((exists l p, (l, p) ∈ power_info /\ (p <=? target)%F = true) ->
       (exists p, (level, p) ∈ power_info /\ (p <=? target)%F = true) /\
       (forall l p, (l, p) ∈ power_info -> (p <=? target)%F = true -> l <= level)) /\
    ((forall l p, (l, p) ∈ power_info -> (p <=? target)%F = false) -> forall l, l ∈ map fst power_info -> level <= l).
Proof.
  intros Hnd Hne. unfold select_throttle. set (levels := reverse (merge_sort Z.le (map fst power_info))).
  assert (forall l, l ∈ levels <-> l ∈ map fst power_info) as Hin
    by (intros l; unfold levels; rewrite elem_of_reverse; by rewrite merge_sort_Permutation).
  assert (StronglySorted Z.ge levels) as Hsort by (apply descending_reverse, StronglySorted_merge_sort; apply _).
  set (f := fun level => match snd <$> find (fun e => fst e =? level) power_info with Some p => (p <=? target)%F | None => false end).
  assert (forall l p, (l, p) ∈ power_info -> f l = (p <=? target)%F) as Hf by (intros l p Hlp; unfold f; by rewrite (find_key _ _ _ Hnd Hlp)).
  destruct (find f levels) as [level|] eqn:E.
  - destruct (find_descending _ _ _ Hsort E) as (Hl & Hfl & Hmax). exists level. split; [done|]. split; [by apply Hin|].
    apply Hin in Hl as ([l p] & -> & Hlp)%list_elem_of_fmap. cbn [fst] in *. rewrite (Hf _ _ Hlp) in Hfl. split.
    + intros _. split; [by exists p|]. intros l' p' Hlp' Hp'. apply Hmax; [|by rewrite (Hf _ _ Hlp')]. apply Hin, list_elem_of_fmap. by exists (l', p').
    + intros Hall. by rewrite (Hall _ _ Hlp) in Hfl.
  - assert (forall l p, (l, p) ∈ power_info -> (p <=? target)%F = false) as Hall.
    { intros l p Hlp. rewrite <- (Hf _ _ Hlp). apply (find_none _ _ E), list_elem_of_In, Hin, list_elem_of_fmap. by exists (l, p). }
    destruct (last_descending levels Hsort) as (x & Ex & Hx & Hmin).
    { destruct power_info as [|[l p] info]; [done|]. intros El. assert (l ∈ levels) as H by (apply Hin; by left). rewrite El in H. by apply elem_of_nil in H. }
    exists x. split; [done|]. split; [by apply Hin|]. split; [|intros _ l Hl; by apply Hmin, Hin].
    intros (l & p & Hlp & Hp). by rewrite (Hall _ _ Hlp) in Hp.
Qed.

Lemma select_throttle_highest_witness :
  exists level, select_throttle [(100, f_of_Z 90); (50, f_of_Z 60); (10, f_of_Z 30)] (f_of_Z 70) = Some level /\ level ∈ [100; 50; 10].
Proof.
  destruct (select_throttle_highest [(100, f_of_Z 90); (50, f_of_Z 60); (10, f_of_Z 30)] (f_of_Z 70)) as (l & E & Hl & _);
    [|done|by exists l].
  cbn [map fst]. repeat apply NoDup_cons_2; try apply NoDup_nil_2; rewrite ?elem_of_cons, ?elem_of_nil; lia.
Defined.

(** The controller that drops to five percent regains the full bandwidth in at
    most 95 iterations below the budget. *)
Fixpoint ms_below (n : nat) (b : Z) : Z := match n with O => b | S n => ms_below n (fst (ms_control 1 (f_of_Z 0) 1 b)) end.

Theorem ms_recovers b n : 5 <= b <= 100 -> (95 <= n)%nat -> ms_below n b = 100.
Proof.
  intros Hb Hn. assert (forall n b, 5 <= b <= 100 -> 100 - b <= Z.of_nat n -> ms_below n b = 100) as H; [|apply H; lia]. clear.
  induction n as [|n IH]; intros b Hb Hn; cbn [ms_below]; [lia|]. apply IH; change (fst (ms_control 1 (f_of_Z 0) 1 b)) with (Z.min (b + 1) 100); lia.
Qed.
