(* ===== verification/Score.v ===== *)
(** * Scores of sorted sets

    The score of an element is a double other than NaN.  The specifications of the
    skip list and of sorted sets order scores by [score_key], an integer of the
    same order; the two zeros, which are equal, have one key, and nothing else is
    lost by it.  The models themselves keep and compare doubles.  Small
    sorted sets store a score in a listpack as an integer or as text:
    [double2ll] and [d2string] of [redis-7.2.3/src/util.c].  The shortest
    decimal notation of a double and its reader ([fpconv_dtoa] of the bundled
    fpconv, [strtod] of the C library) are parameters. *)
From Stdlib Require Import SpecFloat.
From S2P Require Import Prelude Mem NumStr PyFloat.

Local Open Scope Z_scope.

Definition isnan (x : float) : bool := match x with S754_nan => true | _ => false end.

(** ** Doubles as integers *)

Definition magnitude (m : positive) (e : Z) : Z := (e + 1074) * 2 ^ 53 + Zpos m.

Definition score_key (x : float) : Z :=
  match x with
  | S754_zero _ | S754_nan => 0
  | S754_infinity s => if s then - 2 ^ 64 else 2 ^ 64
  | S754_finite s m e => if s then - magnitude m e else magnitude m e
  end.

Definition key_score (k : Z) : float :=
  if k =? 0 then S754_zero false
  else if Z.abs k =? 2 ^ 64 then S754_infinity (k <? 0)
  else S754_finite (k <? 0) (Z.to_pos (Z.abs k mod 2 ^ 53)) (Z.abs k / 2 ^ 53 - 1074).

(** The doubles that are not NaN. *)
Definition score_ok (x : float) : Prop :=
  match x with
  | S754_nan => False
  | S754_finite _ m e => Zpos m < 2 ^ 53 /\ -1074 <= e <= 971
  | _ => True
  end.

Definition key_ok (k : Z) : Prop := exists x, score_ok x /\ score_key x = k.

Lemma magnitude_range m e : Zpos m < 2 ^ 53 -> -1074 <= e <= 971 -> 0 < magnitude m e < 2 ^ 64.
Proof. intros Hm He. unfold magnitude. change (2 ^ 64) with (2 ^ 11 * 2 ^ 53). nia. Qed.

Lemma magnitude_compare m1 e1 m2 e2 :
  Zpos m1 < 2 ^ 53 -> Zpos m2 < 2 ^ 53 ->
  Z.compare (magnitude m1 e1) (magnitude m2 e2) = match Z.compare e1 e2 with Eq => Pos.compare m1 m2 | c => c end.
Proof.
  intros H1 H2. unfold magnitude. change (Pos.compare m1 m2) with (Z.compare (Zpos m1) (Zpos m2)).
  destruct (Z.compare_spec e1 e2) as [->|Hlt|Hgt].
  - destruct (Z.compare_spec (Zpos m1) (Zpos m2)) as [->| |].
    + apply Z.compare_eq_iff. done.
    + apply Z.compare_lt_iff. lia.
    + apply Z.compare_gt_iff. lia.
  - apply Z.compare_lt_iff. nia.
  - apply Z.compare_gt_iff. nia.
Qed.

(** The order of scores is that of their keys. *)
Lemma key_compare x y : score_ok x -> score_ok y -> SFcompare x y = Some (Z.compare (score_key x) (score_key y)).
Proof.
  assert (forall m e, Zpos m < 2 ^ 53 /\ -1074 <= e <= 971 -> 0 < magnitude m e < 2 ^ 64) as Hr
    by (intros m e [Hm He]; by apply magnitude_range).
  assert (forall a b : Z, a < b -> Z.compare a b = Lt /\ Z.compare b a = Gt) as Hc
    by (intros a b Hab; split; [by apply Z.compare_lt_iff|by apply Z.compare_gt_iff]).
  destruct x as [[]|[]| |[] m1 e1], y as [[]|[]| |[] m2 e2]; cbn [score_ok score_key SFcompare]; intros Hx Hy; try done;
    try (pose proof (Hr _ _ Hx)); try (pose proof (Hr _ _ Hy)); f_equal; symmetry; try (by apply Hc; lia); try (by apply (Hc _ _); lia).
  - rewrite <- Z.compare_opp, Z.opp_involutive, Z.opp_involutive, (Z.compare_antisym (magnitude m1 e1)), magnitude_compare by lia.
    change (Pos.compare_cont Eq m1 m2) with (Pos.compare m1 m2). by destruct (Z.compare e1 e2).
  - rewrite magnitude_compare by lia. done.
Qed.

Lemma flt_key x y : score_ok x -> score_ok y -> (x <? y)%F = (score_key x <? score_key y).
Proof. intros Hx Hy. unfold flt, SFltb. rewrite key_compare by done. unfold Z.ltb. by destruct (Z.compare _ _). Qed.

Lemma fle_key x y : score_ok x -> score_ok y -> (x <=? y)%F = (score_key x <=? score_key y).
Proof. intros Hx Hy. unfold fle, SFleb. rewrite key_compare by done. unfold Z.leb. by destruct (Z.compare _ _). Qed.

Lemma feq_key x y : score_ok x -> score_ok y -> (x =? y)%F = (score_key x =? score_key y).
Proof. intros Hx Hy. unfold feq, SFeqb. rewrite key_compare by done. rewrite Z.eqb_compare. by destruct (Z.compare _ _). Qed.

(** A number equal to a score is one, with the same key. *)
Lemma feq_ok x y : score_ok y -> (x =? y)%F = true -> score_ok x /\ score_key x = score_key y.
Proof.
  unfold feq, SFeqb. destruct x as [[]|[]| |[] m1 e1], y as [[]|[]| |[] m2 e2]; cbn; try done; intros Hy He.
  - destruct (Z.compare_spec e1 e2) as [->| |]; try done. change (Pos.compare_cont Eq m1 m2) with (Pos.compare m1 m2) in He.
    destruct (Pos.compare_spec m1 m2) as [->| |]; done.
  - destruct (Z.compare_spec e1 e2) as [->| |]; try done. change (Pos.compare_cont Eq m1 m2) with (Pos.compare m1 m2) in He.
    destruct (Pos.compare_spec m1 m2) as [->| |]; done.
Qed.

Lemma magnitude_parts m e : Zpos m < 2 ^ 53 -> magnitude m e mod 2 ^ 53 = Zpos m /\ magnitude m e / 2 ^ 53 = e + 1074.
Proof.
  intros Hm. unfold magnitude. split.
  - symmetry. apply (Z.mod_unique _ _ (e + 1074)); lia.
  - symmetry. apply (Z.div_unique _ _ _ (Zpos m)); lia.
Qed.

(** A score is recovered from its key, up to the sign of zero. *)
Lemma key_score_key x : score_ok x -> key_score (score_key x) = match x with S754_zero _ => S754_zero false | x => x end.
Proof.
  destruct x as [|[]| |s m e]; cbn [score_ok score_key]; try done. intros [Hm He]. pose proof (magnitude_range m e Hm He) as Hr.
  destruct (magnitude_parts m e Hm) as [E1 E2]. unfold key_score.
  assert (Z.abs (if s then - magnitude m e else magnitude m e) = magnitude m e) as Ea by (destruct s; lia).
  rewrite Ea. destruct (Z.eqb_spec (if s then - magnitude m e else magnitude m e) 0); [destruct s; lia|].
  destruct (Z.eqb_spec (magnitude m e) (2 ^ 64)); [lia|]. rewrite E1, E2. cbn [Z.to_pos].
  replace (e + 1074 - 1074) with e by lia. f_equal. destruct s; [apply Z.ltb_lt|apply Z.ltb_ge]; lia.
Qed.

Lemma key_score_ok k : key_ok k -> score_ok (key_score k) /\ score_key (key_score k) = k.
Proof. intros (x & Hx & <-). rewrite key_score_key by done. by destruct x. Qed.

Lemma score_key_ok x : score_ok x -> key_ok (score_key x).
Proof. intros Hx. by exists x. Qed.

(** *** Scores up to the sign of a zero *)

Definition unsigned_zero (x : float) : float := match x with S754_zero _ => S754_zero false | x => x end.
Definition same_score (x y : float) : Prop := unsigned_zero x = unsigned_zero y.

#[export] Instance same_score_equiv : Equivalence same_score.
Proof. split; [done|by intros ??|]. intros x y z H1 H2. unfold same_score in *. congruence. Qed.

Lemma same_score_cases x y : same_score x y -> x = y \/ exists s t, x = S754_zero s /\ y = S754_zero t.
Proof. unfold same_score. destruct x, y; cbn; intros E; try discriminate E; [right; eauto|left; congruence..]. Qed.

#[export] Instance flt_same : Proper (same_score ==> same_score ==> eq) flt.
Proof. by intros x x' [->|(? & ? & -> & ->)]%same_score_cases y y' [->|(? & ? & -> & ->)]%same_score_cases. Qed.
#[export] Instance fle_same : Proper (same_score ==> same_score ==> eq) fle.
Proof. by intros x x' [->|(? & ? & -> & ->)]%same_score_cases y y' [->|(? & ? & -> & ->)]%same_score_cases. Qed.
#[export] Instance feq_same : Proper (same_score ==> same_score ==> eq) feq.
Proof. by intros x x' [->|(? & ? & -> & ->)]%same_score_cases y y' [->|(? & ? & -> & ->)]%same_score_cases. Qed.
#[export] Instance isnan_same : Proper (same_score ==> eq) isnan.
Proof. by intros x x' [->|(? & ? & -> & ->)]%same_score_cases. Qed.
#[export] Instance score_ok_same : Proper (same_score ==> iff) score_ok.
Proof. by intros x x' [->|(? & ? & -> & ->)]%same_score_cases. Qed.
#[export] Instance score_key_same : Proper (same_score ==> eq) score_key.
Proof. by intros x x' [->|(? & ? & -> & ->)]%same_score_cases. Qed.
#[export] Instance fadd_same : Proper (same_score ==> same_score ==> same_score) fadd.
Proof.
  assert (forall s t y, same_score (fadd y (S754_zero s)) (fadd y (S754_zero t)) /\ same_score (fadd (S754_zero s) y) (fadd (S754_zero t) y)) as H
    by (intros [] [] [[]|[]| |[]]; done).
  intros x x' [->|(s & t & -> & ->)]%same_score_cases y y' [->|(s' & t' & -> & ->)]%same_score_cases; [done|apply H|apply H|].
  by destruct s, t, s', t'.
Qed.

(** A score is what its key says, up to the sign of a zero. *)
Lemma key_score_same x : score_ok x -> same_score (key_score (score_key x)) x.
Proof. intros Hx. unfold same_score. rewrite key_score_key by done. by destruct x. Qed.
Lemma same_score_key x k : score_ok x -> score_key x = k -> same_score x (key_score k).
Proof. intros Hx <-. symmetry. by apply key_score_same. Qed.

(** ** The order of doubles *)

Definition place (x : float) : Z * Z * Z :=
  match x with
  | S754_zero _ | S754_nan => (0, 0, 0)
  | S754_infinity s => (if s then -2 else 2, 0, 0)
  | S754_finite s m e => if s then (-1, - e, Zneg m) else (1, e, Zpos m)
  end.
Definition compare_place (p q : Z * Z * Z) : comparison :=
  match p.1.1 ?= q.1.1 with Eq => match p.1.2 ?= q.1.2 with Eq => p.2 ?= q.2 | c => c end | c => c end.

Lemma place_compare x y : SFcompare x y = if isnan x || isnan y then None else Some (compare_place (place x) (place y)).
Proof.
  destruct x as [[]|[]| |[] m1 e1], y as [[]|[]| |[] m2 e2]; cbn [isnan orb SFcompare place]; try done; f_equal; unfold compare_place; cbn [fst snd Z.compare].
  rewrite Z.compare_opp, (Z.compare_antisym e1 e2). change (Pos.compare_cont Eq m1 m2) with (Pos.compare m1 m2). by destruct (e1 ?= e2).
Qed.

Ltac by_place :=
  unfold flt, fle, feq, SFltb, SFleb, SFeqb; rewrite !place_compare; unfold compare_place;
  repeat match goal with |- context [isnan ?x] => destruct (isnan x) end; cbn [orb]; try done;
  repeat match goal with |- context [place ?x] => generalize (place x); intros [[? ?] ?] end; cbn [fst snd];
  repeat match goal with |- context [?a ?= ?b] => destruct (Z.compare_spec a b) end; try done; intros; lia.

Lemma fle_flt_trans x y z : (x <=? y)%F = true -> (y <? z)%F = true -> (x <? z)%F = true.
Proof. by_place. Qed.
Lemma flt_fle_trans x y z : (x <? y)%F = true -> (y <=? z)%F = true -> (x <? z)%F = true.
Proof. by_place. Qed.
Lemma fle_trans x y z : (x <=? y)%F = true -> (y <=? z)%F = true -> (x <=? z)%F = true.
Proof. by_place. Qed.
Lemma flt_trans x y z : (x <? y)%F = true -> (y <? z)%F = true -> (x <? z)%F = true.
Proof. by_place. Qed.
Lemma flt_le x y : (x <? y)%F = true -> (x <=? y)%F = true.
Proof. by_place. Qed.
Lemma flt_not_le x y : (x <? y)%F = true -> (y <=? x)%F = false.
Proof. by_place. Qed.
Lemma feq_le x y : (x =? y)%F = true -> (x <=? y)%F = true /\ (y <=? x)%F = true.
Proof. by_place. Qed.

(** ** Sums *)

Lemma Zdigits2_bound m d : 0 <= m -> 0 <= d -> Zdigits2 m <= d <-> m < 2 ^ d.
Proof.
  intros Hm Hd. destruct m as [|p|p]; [|..|lia]; cbn [Zdigits2].
  - split; [|lia]. intros _. lia.
  - rewrite digits2_log2. rewrite Z.log2_lt_pow2 by lia. lia.
Qed.

Lemma shr_1_m r : 0 <= shr_m r -> shr_m (shr_1 r) = shr_m r / 2.
Proof.
  destruct r as [q r s]. cbn [shr_m]. intros Hq. destruct q as [|[p|p|]|p]; cbn [shr_1 shr_m]; try (exfalso; lia); try done.
  - change (Zpos p~1) with (2 * Zpos p + 1). apply (Z.div_unique _ _ _ 1); lia.
  - change (Zpos p~0) with (2 * Zpos p). apply (Z.div_unique _ _ _ 0); lia.
Qed.

Lemma shr_iter_m r n : 0 <= shr_m r -> shr_m (Nat.iter n shr_1 r) = shr_m r / 2 ^ Z.of_nat n.
Proof.
  intros Hr. induction n as [|n IH]; [by rewrite Z.div_1_r|]. rewrite Nat.iter_succ, shr_1_m, IH.
  - rewrite Nat2Z.inj_succ, Z.pow_succ_r, Z.div_div by lia. f_equal. lia.
  - rewrite IH. apply Z.div_pos; lia.
Qed.

(** Shifting to the target exponent leaves at most 53 digits. *)
Lemma shr_fexp_bound m e l r e' :
  0 <= m -> shr_fexp 53 1024 m e l = (r, e') -> 0 <= shr_m r < 2 ^ 53 /\ -1074 <= e'.
Proof.
  intros Hm. unfold shr_fexp. set (n := fexp 53 1024 (Zdigits2 m + e) - e).
  assert (Zdigits2 m + e - 53 <= n + e /\ -1074 <= n + e) as [Hn1 Hn2] by (unfold n, fexp, emin; lia).
  assert (shr_m (shr_record_of_loc m l) = m) as El by (destruct l as [|[]]; done).
  destruct (Z.leb_spec n 0) as [Hle|Hgt].
  - assert (shr (shr_record_of_loc m l) e n = (shr_record_of_loc m l, e)) as -> by (destruct n; [done|lia|done]).
    intros [= <- <-]. rewrite El. split; [|lia]. split; [done|]. apply Zdigits2_bound; lia.
  - destruct n as [|p|p] eqn:En; [lia| |lia]. cbn [shr]. rewrite iter_pos_nat. intros [= <- <-]. split; [|lia].
    rewrite shr_iter_m, El by (rewrite El; done). rewrite positive_nat_Z.
    assert (0 < 2 ^ Zpos p) by (apply Z.pow_pos_nonneg; lia). split; [apply Z.div_pos; lia|].
    apply Z.div_lt_upper_bound; [lia|]. rewrite <- Z.pow_add_r by lia. apply Zdigits2_bound; lia.
Qed.

Lemma round_nearest_even_nonneg m l : 0 <= m -> 0 <= round_nearest_even m l.
Proof. intros Hm. unfold round_nearest_even. destruct l as [|[]]; try destruct (Z.even m); lia. Qed.

Lemma binary_round_aux_ok s m e l : 0 <= m -> score_ok (binary_round_aux 53 1024 s m e l).
Proof.
  intros Hm. unfold binary_round_aux. destruct (shr_fexp 53 1024 m e l) as [r e'] eqn:E1.
  apply shr_fexp_bound in E1 as [Hr He']; [|done].
  destruct (shr_fexp 53 1024 (round_nearest_even (shr_m r) (loc_of_shr_record r)) e' loc_Exact) as [r2 e2] eqn:E2.
  apply shr_fexp_bound in E2 as [Hr2 He2]; [|apply round_nearest_even_nonneg; lia].
  destruct (shr_m r2) as [|p|p]; [done| |lia]. destruct (Z.leb_spec e2 (1024 - 53)); [|done]. cbn. lia.
Qed.

Lemma binary_normalize_ok m e s : score_ok (binary_normalize 53 1024 m e s).
Proof.
  destruct m as [|p|p]; cbn [binary_normalize]; [done|..]; unfold binary_round;
    destruct (shl_align p e _) as [q e']; by apply binary_round_aux_ok.
Qed.

(** A sum of scores is a score or NaN. *)
Lemma fadd_ok x y : score_ok x -> score_ok y -> isnan (x + y)%F = false -> score_ok (x + y)%F.
Proof.
  unfold fadd. destruct x as [[]|[]| |s1 m1 e1], y as [[]|[]| |s2 m2 e2]; cbn [SFadd Bool.eqb isnan]; try done.
  intros _ _ _. apply binary_normalize_ok.
Qed.

Lemma f_of_Z_ok z : score_ok (f_of_Z z).
Proof. apply binary_normalize_ok. Qed.

(** ** Scores that are integers *)

(** The cast of a double in the tested range truncates. *)
Definition double2ll (d : float) : option Z :=
  if (d <? f_of_Z (Z.quot (- LLONG_MAX) 2))%F || (f_of_Z (Z.quot LLONG_MAX 2) <? d)%F then None else
  let ll := f_trunc d in
  if (f_of_Z ll =? d)%F then Some ll else None.

Lemma trunc_bound m e : Zpos m < 2 ^ 53 -> magnitude m e <= magnitude (2 ^ 52) 10 -> 0 <= Z.shiftl (Zpos m) e <= 2 ^ 62.
Proof.
  intros Hm Hle. unfold magnitude in Hle. assert (e < 10 \/ e = 10 /\ Zpos m <= 2 ^ 52) as He by lia.
  split; [by apply Z.shiftl_nonneg|]. destruct (Z.leb_spec 0 e) as [H0|H0].
  - rewrite Z.shiftl_mul_pow2 by done. destruct He as [He|[-> Hm']]; [|lia].
    assert (2 ^ e <= 2 ^ 9) by (apply Z.pow_le_mono_r; lia). change (2 ^ 62) with (2 ^ 53 * 2 ^ 9). nia.
  - rewrite Z.shiftl_div_pow2 by lia. assert (Zpos m / 2 ^ (- e) <= Zpos m); [|lia].
    apply Z.div_le_upper_bound; [apply Z.pow_pos_nonneg; lia|]. assert (2 ^ 0 <= 2 ^ (- e)) by (apply Z.pow_le_mono_r; lia). nia.
Qed.

Lemma double2ll_spec d v :
  score_ok d -> double2ll d = Some v -> LLONG_MIN <= v <= LLONG_MAX /\ score_key (f_of_Z v) = score_key d.
Proof.
  intros Hd. unfold double2ll. destruct (_ || _) eqn:E; [done|]. destruct (f_of_Z (f_trunc d) =? d)%F eqn:Eq; [|done].
  intros [= <-]. split; [|by apply feq_ok]. apply orb_false_iff in E as [E1 E2].
  rewrite flt_key in E1, E2 by (done || apply f_of_Z_ok).
  change (f_of_Z (Z.quot (- LLONG_MAX) 2)) with (S754_finite true (2 ^ 52) 10) in E1.
  change (f_of_Z (Z.quot LLONG_MAX 2)) with (S754_finite false (2 ^ 52) 10) in E2.
  apply Z.ltb_ge in E1, E2. cbn [score_key] in E1, E2. unfold LLONG_MIN, LLONG_MAX.
  destruct d as [|[]| |s m e]; cbn [f_trunc]; try lia. destruct Hd as [Hm He].
  pose proof (trunc_bound m e Hm) as Hb. destruct s; cbn [score_key] in E1, E2; lia.
Qed.

(** ** Scores as text *)

(** The shortest decimal notation and its reader.  A notation is read back
    exactly, fits its buffer of 24 bytes, and integers and infinities are read
    as what they denote. *)
Class Decimal := {
  fpconv_dtoa : float -> list Z;
  strtod : list Z -> float;
  dtoa_bytes : forall x, bytes (fpconv_dtoa x) /\ (length (fpconv_dtoa x) <= 24)%nat;
  strtod_dtoa : forall s m e, score_ok (S754_finite s m e) -> strtod (fpconv_dtoa (S754_finite s m e)) = S754_finite s m e;
  strtod_dec : forall v, LLONG_MIN <= v <= LLONG_MAX -> strtod (dec v) = f_of_Z v;
  strtod_inf : strtod [105; 110; 102] = S754_infinity false;
  strtod_minus_inf : strtod [45; 105; 110; 102] = S754_infinity true;
}.

Section Text.
Context `{Decimal}.

Definition d2string (value : float) : list Z :=
  if isnan value then [110; 97; 110]
  else match value with
       | S754_infinity s => if s then [45; 105; 110; 102] else [105; 110; 102]
       | S754_zero s => if s then [45; 48] else [48]
       | _ => match double2ll value with Some lvalue => dec lvalue | None => fpconv_dtoa value end
       end.

(** [zzlStrtod] reads at most 127 bytes. *)
Definition zzlStrtod (vstr : list Z) : float := strtod (take 127 vstr).

(** The text of a score that is not stored as an integer is read back. *)
Lemma d2string_read x :
  score_ok x -> double2ll x = None ->
  bytes (d2string x) /\ (length (d2string x) <= 24)%nat /\ strtod (d2string x) = x.
Proof.
  intros Hx Hn. unfold d2string. destruct x as [s|s| |s m e]; cbn [isnan].
  - by destruct s.
  - destruct s; (split_and!; [by repeat constructor|cbn; lia|]); [apply strtod_minus_inf|apply strtod_inf].
  - done.
  - rewrite Hn. destruct (dtoa_bytes (S754_finite s m e)). by rewrite strtod_dtoa.
Qed.
End Text.
