(* ===== verification/Skiplist.v ===== *)
(** * Redis' skip list ([zsl*] of [redis-7.2.3/src/t_zset.c])

    Sorted sets are ordered by a skip list whose links carry spans, so that
    ranks are found in logarithmic time.  The model is a heap of nodes with
    the forward and backward pointers of the C structures; the address of a
    new node and the outcome of [zslRandomLevel] are arguments.  A node keeps
    its score as the double it was given, and scores are compared as doubles.
    Elements are byte strings compared as [sdscmp] does.

    The specification is a list of entries sorted by the keys of their scores,
    which are not NaN; it determines every link and every span. *)
From stdpp Require Import gmap.
From Stdlib Require Import SpecFloat.
From S2P Require Import Prelude PyFloat Score.

Local Open Scope Z_scope.

Definition ZSKIPLIST_MAXLEVEL : nat := 32.

(** ** Data *)

Abbreviation loc := positive.

Record zskiplistLevel : Type := Level { forward : option loc; span : Z }.

Record zskiplistNode : Type := Node {
  ele : option (list Z);
  score : float;
  backward : option loc;
  level : list zskiplistLevel;
}.

Abbreviation heap := (gmap positive zskiplistNode).

Record zskiplist : Type := Skiplist {
  header : loc;
  tail : option loc;
  zlength : Z;
  zlevel : nat;
  mem : heap;
}.

(** ** Comparison of elements *)

(** [memcmp] over the common length, then the lengths. *)
Fixpoint sdscmp (a b : list Z) : Z :=
  match a, b with
  | [], [] => 0
  | [], _ :: _ => -1
  | _ :: _, [] => 1
  | x :: a, y :: b => if x <? y then -1 else if y <? x then 1 else sdscmp a b
  end.

(** The order of the nodes. *)
Definition node_lt (s1 : float) (e1 : list Z) (s2 : float) (e2 : list Z) : bool :=
  (s1 <? s2)%F || ((s1 =? s2)%F && (sdscmp e1 e2 <? 0)).

(** The element of a node; the header has none. *)
Definition ele_of (n : zskiplistNode) : res (list Z) := of_option (ele n).

(** ** Heap access *)

Definition node_at (m : heap) (x : loc) : res zskiplistNode := of_option (m !! x).
Definition load_level (m : heap) (x : loc) (i : nat) : res zskiplistLevel :=
  n ← node_at m x; of_option (level n !! i).
Definition store_level (m : heap) (x : loc) (i : nat) (l : zskiplistLevel) : res heap :=
  n ← node_at m x;
  if (i <? length (level n))%nat
  then Ret (<[x := Node (ele n) (score n) (backward n) (<[i := l]> (level n))]> m)
  else Abort.
Definition store_backward (m : heap) (x : loc) (b : option loc) : res heap :=
  n ← node_at m x; Ret (<[x := Node (ele n) (score n) b (level n)]> m).
Definition store_score (m : heap) (x : loc) (s : float) : res heap :=
  n ← node_at m x; Ret (<[x := Node (ele n) s (backward n) (level n)]> m).

(** ** Creation *)

Definition zslCreateNode (lev : nat) (sc : float) (e : option (list Z)) (junk : zskiplistLevel) : zskiplistNode :=
  Node e sc None (repeat junk lev).

Definition zslCreate (hd : loc) : zskiplist :=
  Skiplist hd None 0 1 {[ hd := Node None (f_of_Z 0) None (repeat (Level None 0) ZSKIPLIST_MAXLEVEL) ]}.

(** ** Search *)

(** [while (x->level[i].forward && ...) { rank += span; x = forward; }]; the
    condition sees the next node and the rank it would be reached with. *)
Fixpoint walk (fuel : nat) (m : heap) (cond : zskiplistNode -> Z -> res bool) (i : nat) (x : loc) (rank : Z)
    : res (loc * Z) :=
  l ← load_level m x i;
  match forward l with
  | None => Ret (x, rank)
  | Some f =>
      n ← node_at m f;
      go ← cond n (rank + span l);
      if go : bool then
        match fuel with O => Diverge | S fuel => walk fuel m cond i f (rank + span l) end
      else Ret (x, rank)
  end.

(** [for (i = zsl->level-1; i >= 0; i--)] from level [i - 1] down: the arrays
    [update] and [rank]. *)
Fixpoint descend (fuel : nat) (m : heap) (cond : zskiplistNode -> Z -> res bool) (i : nat) (x : loc) (rank : Z)
    : res (list (loc * Z)) :=
  match i with
  | O => Ret []
  | S i =>
      '(x, rank) ← walk fuel m cond i x rank;
      up ← descend fuel m cond i x rank;
      Ret (up ++ [(x, rank)])
  end.

Definition before (sc : float) (e : list Z) (n : zskiplistNode) (_ : Z) : res bool :=
  e' ← ele_of n; Ret (node_lt (score n) e' sc e).

Definition zfuel (z : zskiplist) : nat := Z.to_nat (zlength z).

(** ** Insertion *)

(** A loop over levels that updates the heap. *)
Fixpoint for_levels (idx : list nat) (body : heap -> nat -> res heap) (m : heap) : res heap :=
  match idx with
  | [] => Ret m
  | i :: idx => m ← body m i; for_levels idx body m
  end.

(** The new levels of the header, when the node is higher than the list. *)
Definition raise_loop (m : heap) (hd : loc) (len : Z) (idx : list nat) : res heap :=
  for_levels idx (fun m i => l ← load_level m hd i; store_level m hd i (Level (forward l) len)) m.

(** [for (i = 0; i < level; i++)]: splice the node in. *)
Definition link_loop (m : heap) (x : loc) (up : list (loc * Z)) (rank0 : Z) (idx : list nat) : res heap :=
  for_levels idx (fun m i =>
    '(u, rank) ← of_option (up !! i);
    l ← load_level m u i;
    m ← store_level m x i (Level (forward l) (span l - (rank0 - rank)));
    store_level m u i (Level (Some x) (rank0 - rank + 1))) m.

(** "increment span for untouched levels" *)
Definition grow_loop (m : heap) (up : list (loc * Z)) (idx : list nat) : res heap :=
  for_levels idx (fun m i =>
    '(u, _) ← of_option (up !! i);
    l ← load_level m u i;
    store_level m u i (Level (forward l) (span l + 1))) m.

(** [x] is the address of the new node and [lev] its random level. *)
Definition zslInsert (z : zskiplist) (sc : float) (e : list Z) (x : loc) (lev : nat) (junk : zskiplistLevel)
    : res zskiplist :=
  up ← descend (zfuel z) (mem z) (before sc e) (zlevel z) (header z) 0;
  '(m, up) ←
    (if (zlevel z <? lev)%nat then
       m ← raise_loop (mem z) (header z) (zlength z) (seq (zlevel z) (lev - zlevel z));
       Ret (m, up ++ repeat (header z, 0) (lev - zlevel z))
     else Ret (mem z, up));
  let zl := if (zlevel z <? lev)%nat then lev else zlevel z in
  let m := <[x := zslCreateNode lev sc (Some e) junk]> m in
  '(u0, rank0) ← of_option (up !! 0%nat);
  m ← link_loop m x up rank0 (seq 0 lev);
  m ← grow_loop m up (seq lev (zl - lev));
  m ← store_backward m x (if bool_decide (u0 = header z) then None else Some u0);
  l ← load_level m x 0;
  match forward l with
  | Some f => m ← store_backward m f (Some x); Ret (Skiplist (header z) (tail z) (zlength z + 1) zl m)
  | None => Ret (Skiplist (header z) (Some x) (zlength z + 1) zl m)
  end.

(** ** Deletion *)

Definition unlink_loop (m : heap) (x : loc) (up : list (loc * Z)) (idx : list nat) : res heap :=
  for_levels idx (fun m i =>
    '(u, _) ← of_option (up !! i);
    l ← load_level m u i;
    if bool_decide (forward l = Some x) then
      lx ← load_level m x i;
      store_level m u i (Level (forward lx) (span l + (span lx - 1)))
    else store_level m u i (Level (forward l) (span l - 1))) m.

(** [while(zsl->level > 1 && header->level[zsl->level-1].forward == NULL)] *)
Fixpoint shrink_loop (m : heap) (hd : loc) (lev : nat) : res nat :=
  match lev with
  | S (S _ as lev') =>
      l ← load_level m hd lev';
      match forward l with None => shrink_loop m hd lev' | Some _ => Ret lev end
  | _ => Ret lev
  end.

Definition zslFreeNode (z : zskiplist) (x : loc) : zskiplist :=
  Skiplist (header z) (tail z) (zlength z) (zlevel z) (delete x (mem z)).

Definition zslDeleteNode (z : zskiplist) (x : loc) (up : list (loc * Z)) : res zskiplist :=
  m ← unlink_loop (mem z) x up (seq 0 (zlevel z));
  l ← load_level m x 0;
  n ← node_at m x;
  '(m, tl) ←
    match forward l with
    | Some f => m ← store_backward m f (backward n); Ret (m, tail z)
    | None => Ret (m, backward n)
    end;
  lev ← shrink_loop m (header z) (zlevel z);
  Ret (Skiplist (header z) tl (zlength z - 1) lev m).

(** The node found, if any; it is freed unless the caller asks for it
    (a [node] argument that is not null). *)
Definition zslDelete (z : zskiplist) (sc : float) (e : list Z) (keep : bool) : res (zskiplist * option loc) :=
  up ← descend (zfuel z) (mem z) (before sc e) (zlevel z) (header z) 0;
  '(u0, _) ← of_option (up !! 0%nat);
  l ← load_level (mem z) u0 0;
  match forward l with
  | None => Ret (z, None)
  | Some x =>
      n ← node_at (mem z) x;
      e' ← ele_of n;
      if (sc =? score n)%F && (sdscmp e' e =? 0) then
        z ← zslDeleteNode z x up;
        Ret (if keep then z else zslFreeNode z x, Some x)
      else Ret (z, None)
  end.

(** The new address [y] and level [lev] are used when the node has to move. *)
Definition zslUpdateScore (z : zskiplist) (cur : float) (e : list Z) (new : float) (y : loc) (lev : nat)
    (junk : zskiplistLevel) : res (zskiplist * loc) :=
  up ← descend (zfuel z) (mem z) (before cur e) (zlevel z) (header z) 0;
  '(u0, _) ← of_option (up !! 0%nat);
  l ← load_level (mem z) u0 0;
  x ← of_option (forward l);
  n ← node_at (mem z) x;
  e' ← ele_of n;
  if negb ((cur =? score n)%F && (sdscmp e' e =? 0)) then Abort else
  lx ← load_level (mem z) x 0;
  left ← match backward n with
         | None => Ret true
         | Some b => nb ← node_at (mem z) b; Ret (score nb <? new)%F
         end;
  right ← match forward lx with
          | None => Ret true
          | Some f => nf ← node_at (mem z) f; Ret (new <? score nf)%F
          end;
  if left && right then
    m ← store_score (mem z) x new;
    Ret (Skiplist (header z) (tail z) (zlength z) (zlevel z) m, x)
  else
    z ← zslDeleteNode z x up;
    z ← zslInsert z new e' y lev junk;
    Ret (zslFreeNode z x, y).

(** ** Ranks *)

Definition upto (sc : float) (e : list Z) (n : zskiplistNode) (_ : Z) : res bool :=
  e' ← ele_of n; Ret ((score n <? sc)%F || ((score n =? sc)%F && (sdscmp e' e <=? 0))).

Fixpoint rank_loop (fuel : nat) (m : heap) (sc : float) (e : list Z) (i : nat) (x : loc) (rank : Z) : res Z :=
  match i with
  | O => Ret 0
  | S i =>
      '(x, rank) ← walk fuel m (upto sc e) i x rank;
      n ← node_at m x;
      match ele n with
      | Some e' =>
          if (score n =? sc)%F && (sdscmp e' e =? 0) then Ret rank else rank_loop fuel m sc e i x rank
      | None => rank_loop fuel m sc e i x rank
      end
  end.

Definition zslGetRank (z : zskiplist) (sc : float) (e : list Z) : res Z :=
  rank_loop (zfuel z) (mem z) sc e (zlevel z) (header z) 0.

Definition within (r : Z) (_ : zskiplistNode) (traversed : Z) : res bool := Ret (traversed <=? r).

Fixpoint by_rank_loop (fuel : nat) (m : heap) (r : Z) (i : nat) (x : loc) (traversed : Z) : res (option loc) :=
  match i with
  | O => Ret None
  | S i =>
      '(x, traversed) ← walk fuel m (within r) i x traversed;
      if traversed =? r then Ret (Some x) else by_rank_loop fuel m r i x traversed
  end.

Definition zslGetElementByRank (z : zskiplist) (r : Z) : res (option loc) :=
  by_rank_loop (zfuel z) (mem z) r (zlevel z) (header z) 0.

(** ** Ranges of scores *)

Record zrangespec : Type := Range { rmin : float; rmax : float; minex : bool; maxex : bool }.

Definition zslValueGteMin (v : float) (r : zrangespec) : bool := if minex r then (rmin r <? v)%F else (rmin r <=? v)%F.
Definition zslValueLteMax (v : float) (r : zrangespec) : bool := if maxex r then (v <? rmax r)%F else (v <=? rmax r)%F.
(** Ranges that are empty for every sorted set. *)
Definition empty_range (r : zrangespec) : bool :=
  (rmax r <? rmin r)%F || ((rmin r =? rmax r)%F && (minex r || maxex r)).

Definition zslIsInRange (z : zskiplist) (r : zrangespec) : res bool :=
  if empty_range r then Ret false else
  match tail z with
  | None => Ret false
  | Some t =>
      nt ← node_at (mem z) t;
      if negb (zslValueGteMin (score nt) r) then Ret false else
      l ← load_level (mem z) (header z) 0;
      match forward l with
      | None => Ret false
      | Some f => nf ← node_at (mem z) f; Ret (zslValueLteMax (score nf) r)
      end
  end.

Definition out_of_range (r : zrangespec) (n : zskiplistNode) (_ : Z) : res bool :=
  Ret (negb (zslValueGteMin (score n) r)).
Definition up_to_max (r : zrangespec) (n : zskiplistNode) (_ : Z) : res bool :=
  Ret (zslValueLteMax (score n) r).

Definition zslFirstInRange (z : zskiplist) (r : zrangespec) : res (option loc) :=
  ok ← zslIsInRange z r;
  if negb ok then Ret None else
  up ← descend (zfuel z) (mem z) (out_of_range r) (zlevel z) (header z) 0;
  '(x, _) ← of_option (up !! 0%nat);
  l ← load_level (mem z) x 0;
  x ← of_option (forward l);
  n ← node_at (mem z) x;
  Ret (if zslValueLteMax (score n) r then Some x else None).

Definition zslLastInRange (z : zskiplist) (r : zrangespec) : res (option loc) :=
  ok ← zslIsInRange z r;
  if negb ok then Ret None else
  up ← descend (zfuel z) (mem z) (up_to_max r) (zlevel z) (header z) 0;
  '(x, _) ← of_option (up !! 0%nat);
  n ← node_at (mem z) x;
  Ret (if zslValueGteMin (score n) r then Some x else None).

(** ** Deletion of ranges *)

(** [while (x && ...)]: delete the nodes from [x] on while the condition
    holds of them; the condition sees the node and its rank.  The elements
    deleted are the ones the caller's dictionary loses. *)
Fixpoint delete_loop (fuel : nat) (z : zskiplist) (cond : zskiplistNode -> Z -> bool) (up : list (loc * Z))
    (x : option loc) (rank : Z) : res (zskiplist * list (list Z)) :=
  match x with
  | None => Ret (z, [])
  | Some x =>
      n ← node_at (mem z) x;
      if cond n rank then
        match fuel with
        | O => Diverge
        | S fuel =>
            l ← load_level (mem z) x 0;
            z ← zslDeleteNode z x up;
            e ← ele_of n;
            '(z, removed) ← delete_loop fuel (zslFreeNode z x) cond up (forward l) (rank + 1);
            Ret (z, e :: removed)
        end
      else Ret (z, [])
  end.

Definition zslDeleteRangeByScore (z : zskiplist) (r : zrangespec) : res (zskiplist * list (list Z)) :=
  up ← descend (zfuel z) (mem z) (out_of_range r) (zlevel z) (header z) 0;
  '(x, rank) ← of_option (up !! 0%nat);
  l ← load_level (mem z) x 0;
  delete_loop (zfuel z) z (fun n _ => zslValueLteMax (score n) r) up (forward l) (rank + 1).

Definition ranked_before (start : Z) (_ : zskiplistNode) (traversed : Z) : res bool := Ret (traversed <? start).

Definition zslDeleteRangeByRank (z : zskiplist) (start stop : Z) : res (zskiplist * list (list Z)) :=
  up ← descend (zfuel z) (mem z) (ranked_before start) (zlevel z) (header z) 0;
  '(x, rank) ← of_option (up !! 0%nat);
  l ← load_level (mem z) x 0;
  delete_loop (zfuel z) z (fun _ traversed => traversed <=? stop) up (forward l) (rank + 1).

(** ** Specification *)

Record entry : Type := Entry { e_loc : loc; e_score : float; e_ele : list Z; e_h : nat }.

(** The first entry of [l] that reaches level [i]: its distance and address. *)
Fixpoint nextd (i : nat) (l : list entry) : option (nat * loc) :=
  match l with
  | [] => None
  | e :: l =>
      if (i <? e_h e)%nat then Some (1%nat, e_loc e)
      else match nextd i l with Some (d, x) => Some (S d, x) | None => None end
  end.

(** The link of level [i] from position [j]; position 0 is the header. *)
Definition exp_level (ns : list entry) (i j : nat) : zskiplistLevel :=
  match nextd i (drop j ns) with
  | Some (d, x) => Level (Some x) (Z.of_nat d)
  | None => Level None (Z.of_nat (length ns - j))
  end.

Definition prev_loc (ns : list entry) (j : nat) : option loc :=
  match j with O => None | S j => e_loc <$> ns !! j end.

Definition exp_node (ns : list entry) (j : nat) (e : entry) : zskiplistNode :=
  Node (Some (e_ele e)) (e_score e) (prev_loc ns j) (map (fun i => exp_level ns i (S j)) (seq 0 (e_h e))).

(** The heap holds exactly the links and spans of the entries [ns]. *)
Record layout (z : zskiplist) (ns : list entry) : Prop := {
  ly_nodup : NoDup (header z :: map e_loc ns);
  ly_nodes : forall j e, ns !! j = Some e -> mem z !! e_loc e = Some (exp_node ns j e);
  ly_header : exists ls, mem z !! header z = Some (Node None (f_of_Z 0) None ls) /\
    length ls = ZSKIPLIST_MAXLEVEL /\
    (forall i, (i < zlevel z)%nat -> ls !! i = Some (exp_level ns i 0)) /\
    (forall i l, (zlevel z <= i)%nat -> ls !! i = Some l -> forward l = None);
  ly_length : zlength z = Z.of_nat (length ns);
  ly_tail : tail z = e_loc <$> last ns;
  ly_level : (1 <= zlevel z <= ZSKIPLIST_MAXLEVEL)%nat;
  ly_heights : Forall (fun e => 1 <= e_h e <= zlevel z)%nat ns;
}.

(** The order of entries, by the keys of their scores. *)
Definition key_lt (s1 : Z) (e1 : list Z) (s2 : Z) (e2 : list Z) : bool :=
  (s1 <? s2) || ((s1 =? s2) && (sdscmp e1 e2 <? 0)).
Definition e_key (a : entry) : Z := score_key (e_score a).
Definition entry_lt (a b : entry) : Prop := key_lt (e_key a) (e_ele a) (e_key b) (e_ele b) = true.

(** The skip list implements the sorted list of entries. *)
Definition scores_ok (ns : list entry) : Prop := Forall (fun a => score_ok (e_score a)) ns.
Record skiplist_repr (z : zskiplist) (ns : list entry) : Prop := {
  sr_layout : layout z ns;
  sr_sorted : StronglySorted entry_lt ns;
  sr_scores : scores_ok ns;
}.

(** ** Positions *)

Definition pos_loc (hd : loc) (ns : list entry) (j : nat) : loc :=
  match j with O => hd | S j => match ns !! j with Some e => e_loc e | None => hd end end.

(** Position [j] has a link of level [i]. *)
Definition tall (ns : list entry) (i j : nat) : Prop :=
  match j with O => True | S j => exists e, ns !! j = Some e /\ (i < e_h e)%nat end.

(** The last position up to [r] with a link of level [i]. *)
Fixpoint lastpos (ns : list entry) (i r : nat) : nat :=
  match r with
  | O => O
  | S r' =>
      match ns !! r' with
      | Some e => if (i <? e_h e)%nat then r else lastpos ns i r'
      | None => lastpos ns i r'
      end
  end.

Lemma lastpos_le ns i r : (lastpos ns i r <= r)%nat.
Proof. induction r as [|r IH]; simpl; [lia|]. repeat case_match; lia. Qed.

Lemma lastpos_tall ns i r : tall ns i (lastpos ns i r).
Proof.
  induction r as [|r IH]; [done|]. cbn [lastpos]. destruct (ns !! r) as [e|] eqn:E; [|done].
  destruct (Nat.ltb_spec i (e_h e)); [|done]. by exists e.
Qed.

Lemma lastpos_max ns i r p : (p <= r)%nat -> tall ns i p -> (p <= lastpos ns i r)%nat.
Proof.
  induction r as [|r IH]; intros Hp Ht; [lia|]. cbn [lastpos]. destruct (decide (p = S r)) as [->|].
  - destruct Ht as (e & -> & He). rewrite (proj2 (Nat.ltb_lt _ _)) by done. lia.
  - specialize (IH ltac:(lia) Ht). repeat case_match; lia.
Qed.

Lemma lastpos_eq ns i r u : (u <= r)%nat -> tall ns i u ->
  (forall p, (u < p <= r)%nat -> ~ tall ns i p) -> lastpos ns i r = u.
Proof.
  intros Hu Ht Hn. pose proof (lastpos_max ns i r u Hu Ht). pose proof (lastpos_le ns i r).
  destruct (decide (lastpos ns i r = u)); [done|]. exfalso. apply (Hn (lastpos ns i r)); [lia|]. apply lastpos_tall.
Qed.

Lemma tall_mono ns i i' j : (i <= i')%nat -> tall ns i' j -> tall ns i j.
Proof. intros Hi. destruct j as [|j]; [done|]. intros (e & ? & ?). exists e. split; [done|lia]. Qed.

Lemma lastpos_mono ns i i' r : (i <= i')%nat -> (lastpos ns i' r <= lastpos ns i r)%nat.
Proof.
  intros Hi. apply lastpos_max; [apply lastpos_le|]. eapply tall_mono; [exact Hi|]. apply lastpos_tall.
Qed.

Lemma lastpos_0 ns r : Forall (fun e => 1 <= e_h e)%nat ns -> (r <= length ns)%nat -> lastpos ns 0 r = r.
Proof.
  intros Hh Hr. destruct r as [|r]; [done|]. cbn [lastpos].
  destruct (lookup_lt_is_Some_2 ns r Hr) as [e He]. rewrite He.
  by rewrite (proj2 (Nat.ltb_lt _ _)) by (apply (Forall_lookup_1 _ _ _ _ Hh He)).
Qed.

(** *** The next position of a level *)

Lemma nextd_spec i ns j :
  match nextd i (drop j ns) with
  | Some (d, x) => (1 <= d)%nat /\ (exists e, ns !! (j + d - 1)%nat = Some e /\ e_loc e = x /\ (i < e_h e)%nat) /\
      (forall p, (j < p < j + d)%nat -> ~ tall ns i p)
  | None => forall p, (j < p)%nat -> ~ tall ns i p
  end.
Proof.
  remember (drop j ns) as l eqn:El. revert j El. induction l as [|e l IH]; intros j El; cbn [nextd].
  - intros [|p] Hp; [lia|]. intros (e & He & _). apply lookup_lt_Some in He.
    assert (length (drop j ns) = 0)%nat by (by rewrite <- El). rewrite length_drop in *. lia.
  - assert (Hj : ns !! j = Some e) by (rewrite <- (Nat.add_0_r j), <- lookup_drop, <- El; done).
    assert (El' : l = drop (S j) ns) by (rewrite (drop_S _ _ _ Hj) in El; congruence).
    destruct (Nat.ltb_spec i (e_h e)).
    + split; [lia|]. split; [exists e; replace (j + 1 - 1)%nat with j by lia; done|]. lia.
    + specialize (IH (S j) El').
      assert (Hs : ~ tall ns i (S j)) by (intros (e' & He' & ?); simplify_eq; lia).
      destruct (nextd i l) as [[d x]|].
      * destruct IH as (Hd & (e' & He' & Hx & Hh) & Hb). split; [lia|]. split.
        { exists e'. by replace (j + S d - 1)%nat with (S j + d - 1)%nat by lia. }
        intros p Hp. destruct (decide (p = S j)) as [->|]; [done|]. apply Hb. lia.
      * intros p Hp. destruct (decide (p = S j)) as [->|]; [done|]. apply IH. lia.
Qed.

Lemma nextd_Some i ns j d e :
  (1 <= d)%nat -> ns !! (j + d - 1)%nat = Some e -> (i < e_h e)%nat ->
  (forall p, (j < p < j + d)%nat -> ~ tall ns i p) -> nextd i (drop j ns) = Some (d, e_loc e).
Proof.
  intros Hd He Hh Hb. pose proof (nextd_spec i ns j) as Hn. destruct (nextd i (drop j ns)) as [[d' x]|].
  - destruct Hn as (Hd' & (e' & He' & Hx & Hh') & Hb').
    assert (d = d') as <-.
    { destruct (lt_eq_lt_dec d d') as [[Hlt| ->]|Hlt]; [|done|].
      - exfalso. apply (Hb' (j + d)%nat); [lia|]. replace (j + d)%nat with (S (j + d - 1)) by lia. by exists e.
      - exfalso. apply (Hb (j + d')%nat); [lia|]. replace (j + d')%nat with (S (j + d' - 1)) by lia. by exists e'. }
    simplify_eq. done.
  - exfalso. apply (Hn (j + d)%nat); [lia|]. replace (j + d)%nat with (S (j + d - 1)) by lia. by exists e.
Qed.

Lemma nextd_None i ns j : (forall p, (j < p)%nat -> ~ tall ns i p) -> nextd i (drop j ns) = None.
Proof.
  intros H. pose proof (nextd_spec i ns j) as Hn. destruct (nextd i (drop j ns)) as [[d x]|]; [|done].
  destruct Hn as (Hd & (e & He & _ & Hh) & _). exfalso. apply (H (j + d)%nat); [lia|].
  replace (j + d)%nat with (S (j + d - 1)) by lia. by exists e.
Qed.

(** A link by positions: to the next position of the level, or to the end. *)
Lemma exp_level_cases hd ns i j :
  (exists p, (j < p <= length ns)%nat /\ tall ns i p /\ (forall q, (j < q < p)%nat -> ~ tall ns i q) /\
     exp_level ns i j = Level (Some (pos_loc hd ns p)) (Z.of_nat (p - j))) \/
  ((forall q, (j < q)%nat -> ~ tall ns i q) /\ exp_level ns i j = Level None (Z.of_nat (length ns - j))).
Proof.
  unfold exp_level. pose proof (nextd_spec i ns j) as Hn. destruct (nextd i (drop j ns)) as [[d x]|]; [left|by right].
  destruct Hn as (Hd & (e & He & <- & Hh) & Hb). exists (j + d)%nat. pose proof (lookup_lt_Some _ _ _ He).
  replace (j + d)%nat with (S (j + d - 1)) by lia. split; [lia|]. split; [by exists e|].
  split; [intros q Hq; apply Hb; lia|]. cbn [pos_loc]. rewrite He. do 2 f_equal. lia.
Qed.

Lemma exp_level_at hd ns i j p :
  (j < p)%nat -> tall ns i p -> (forall q, (j < q < p)%nat -> ~ tall ns i q) ->
  exp_level ns i j = Level (Some (pos_loc hd ns p)) (Z.of_nat (p - j)).
Proof.
  intros Hjp Ht Hb. destruct (exp_level_cases hd ns i j) as [(p' & Hp' & Ht' & Hb' & ->)|[Hn _]].
  - assert (p = p') as ->; [|done]. destruct (lt_eq_lt_dec p p') as [[Hlt| ->]|Hlt]; [|done|].
    + exfalso. by apply (Hb' p).
    + exfalso. apply (Hb p'); [lia|done].
  - exfalso. by apply (Hn p).
Qed.

Lemma exp_level_end ns i j :
  (forall q, (j < q)%nat -> ~ tall ns i q) -> exp_level ns i j = Level None (Z.of_nat (length ns - j)).
Proof.
  intros Hn. destruct (exp_level_cases 1%positive ns i j) as [(p & Hp & Ht & _)|[_ ->]]; [|done].
  exfalso. apply (Hn p); [lia|done].
Qed.

(** ** An example

    Three entries, two of them with the same score; the middle node is the
    highest. *)
Definition demo_entries : list entry := [Entry 2 (f_of_Z 10) [97] 1; Entry 3 (f_of_Z 10) [98] 3; Entry 4 (f_of_Z 20) [97] 2].

Definition demo_zsl : zskiplist :=
  match
    (z ← zslInsert (zslCreate 1) (f_of_Z 10) [98] 3 3 (Level None 7);
     z ← zslInsert z (f_of_Z 20) [97] 4 2 (Level None 7);
     zslInsert z (f_of_Z 10) [97] 2 1 (Level None 7))
  with Ret z => z | _ => zslCreate 1 end.

Lemma demo_zsl_repr : skiplist_repr demo_zsl demo_entries.
Proof.
  split; [split| |].
  - by apply (bool_decide_unpack _); vm_compute.
  - intros j e. do 3 (destruct j as [|j]; [intros [= <-]; vm_compute; reflexivity|]). done.
  - eexists. split; [vm_compute; reflexivity|]. split; [reflexivity|]. split.
    + assert (zlevel demo_zsl = 3%nat) as -> by reflexivity. intros i Hi.
      do 3 (destruct i as [|i]; [reflexivity|]). lia.
    + assert (zlevel demo_zsl = 3%nat) as -> by reflexivity. intros i l Hi.
      do 3 (destruct i as [|i]; [lia|]). do 29 (destruct i as [|i]; [by intros [= <-]|]). done.
  - reflexivity.
  - reflexivity.
  - assert (zlevel demo_zsl = 3%nat) as -> by reflexivity. unfold ZSKIPLIST_MAXLEVEL. lia.
  - assert (zlevel demo_zsl = 3%nat) as -> by reflexivity. repeat constructor; cbn; lia.
  - repeat constructor.
  - repeat (apply Forall_cons; split; [apply f_of_Z_ok|]). constructor.
Qed.

(** ** Searching *)

Lemma load_level_pos z ns i j :
  layout z ns -> (j <= length ns)%nat -> tall ns i j -> (i < zlevel z)%nat ->
  load_level (mem z) (pos_loc (header z) ns j) i = Ret (exp_level ns i j).
Proof.
  intros Hly Hj Ht Hi. unfold load_level, node_at. destruct j as [|j]; cbn [pos_loc].
  - destruct (ly_header _ _ Hly) as (ls & -> & _ & Hls & _). cbn. by rewrite Hls.
  - destruct Ht as (e & He & Hh). rewrite He, (ly_nodes _ _ Hly j e He). cbn.
    rewrite list_lookup_fmap, lookup_seq_lt by done. done.
Qed.

(** The condition of a search holds exactly up to position [r]. *)
Definition cuts (ns : list entry) (cond : zskiplistNode -> Z -> res bool) (r : nat) : Prop :=
  (r <= length ns)%nat /\
  forall p e, ns !! p = Some e -> cond (exp_node ns p e) (Z.of_nat (S p)) = Ret (bool_decide (S p <= r)%nat).

Lemma walk_spec z ns cond r fuel i j :
  layout z ns -> cuts ns cond r -> (i < zlevel z)%nat -> (length ns - j <= fuel)%nat ->
  (j <= r)%nat -> tall ns i j ->
  walk fuel (mem z) cond i (pos_loc (header z) ns j) (Z.of_nat j)
  = Ret (pos_loc (header z) ns (lastpos ns i r), Z.of_nat (lastpos ns i r)).
Proof.
  intros Hly [Hr Hcut] Hi. revert j. induction fuel as [|fuel IH]; intros j Hf Hj Ht; cbn [walk].
  all: rewrite load_level_pos by (done || lia); cbn [mbind res_bind];
    destruct (exp_level_cases (header z) ns i j) as [(p & Hp & Htp & Hb & ->)|[Hn ->]]; cbn [forward span];
    [|rewrite (lastpos_eq ns i r j); [done|done|done|intros q Hq; apply Hn; lia]].
  - lia.
  - destruct p as [|p]; [lia|]. destruct Htp as (e & He & Hh). cbn [pos_loc]. rewrite He. unfold node_at.
    rewrite (ly_nodes _ _ Hly p e He). cbn [of_option mbind res_bind].
    replace (Z.of_nat j + Z.of_nat (S p - j)) with (Z.of_nat (S p)) by lia.
    rewrite (Hcut p e He). cbn [mbind res_bind]. case_bool_decide as Hle.
    + specialize (IH (S p)). cbn [pos_loc] in IH. rewrite He in IH. apply IH; [lia|lia|]. by exists e.
    + rewrite (lastpos_eq ns i r j); [done|done|done|]. intros q Hq. apply Hb. lia.
Qed.

Lemma descend_spec z ns cond r fuel i j :
  layout z ns -> cuts ns cond r -> (i <= zlevel z)%nat -> (length ns <= fuel)%nat ->
  (j <= r)%nat -> tall ns (i - 1) j ->
  descend fuel (mem z) cond i (pos_loc (header z) ns j) (Z.of_nat j)
  = Ret (map (fun k => (pos_loc (header z) ns (lastpos ns k r), Z.of_nat (lastpos ns k r))) (seq 0 i)).
Proof.
  intros Hly Hcut. revert j. induction i as [|i IH]; intros j Hi Hf Hj Ht; cbn [descend]; [done|].
  replace (S i - 1)%nat with i in Ht by lia.
  rewrite (walk_spec z ns cond r) by (done || lia). cbn [mbind res_bind].
  rewrite IH; [|lia|done|apply lastpos_le|].
  - cbn [mbind res_bind]. by rewrite seq_S, map_app.
  - eapply tall_mono; [|apply lastpos_tall]. lia.
Qed.

(** *** Order *)

Lemma sdscmp_refl a : sdscmp a a = 0.
Proof. induction a as [|x a IH]; [done|]. cbn. by rewrite Z.ltb_irrefl. Qed.

Lemma sdscmp_eq a b : sdscmp a b = 0 <-> a = b.
Proof.
  split; [|intros ->; apply sdscmp_refl]. revert b. induction a as [|x a IH]; intros [|y b]; cbn; try done.
  destruct (Z.ltb_spec x y); [done|]. destruct (Z.ltb_spec y x); [done|].
  intros E. f_equal; [lia|by apply IH].
Qed.

Lemma sdscmp_antisym a b : sdscmp b a = - sdscmp a b.
Proof.
  revert b. induction a as [|x a IH]; intros [|y b]; cbn; try done.
  destruct (Z.ltb_spec x y), (Z.ltb_spec y x); try done; try lia.
Qed.

Lemma sdscmp_trans a b c : sdscmp a b < 0 -> sdscmp b c < 0 -> sdscmp a c < 0.
Proof.
  revert b c. induction a as [|x a IH]; intros [|y b] [|w c]; cbn; try lia.
  destruct (Z.ltb_spec x y), (Z.ltb_spec y x), (Z.ltb_spec y w), (Z.ltb_spec w y), (Z.ltb_spec x w), (Z.ltb_spec w x);
    try lia. apply IH.
Qed.

Lemma key_lt_irrefl s e : key_lt s e s e = false.
Proof. unfold key_lt. rewrite sdscmp_refl, Z.ltb_irrefl. by rewrite andb_false_r. Qed.

Lemma key_lt_trans s1 e1 s2 e2 s3 e3 :
  key_lt s1 e1 s2 e2 = true -> key_lt s2 e2 s3 e3 = true -> key_lt s1 e1 s3 e3 = true.
Proof.
  unfold key_lt. rewrite !orb_true_iff, !andb_true_iff, !Z.ltb_lt, !Z.eqb_eq.
  intros [H1|[-> H1]] [H2|[-> H2]]; [left; lia|left; lia|left; lia|right].
  split; [done|]. by eapply sdscmp_trans.
Qed.

Lemma key_trichotomy s1 e1 s2 e2 :
  key_lt s1 e1 s2 e2 = true \/ (s1 = s2 /\ e1 = e2) \/ key_lt s2 e2 s1 e1 = true.
Proof.
  unfold key_lt. rewrite !orb_true_iff, !andb_true_iff, !Z.ltb_lt, !Z.eqb_eq.
  rewrite (sdscmp_antisym e1 e2). pose proof (sdscmp_eq e1 e2) as Heq.
  destruct (Ztrichotomy s1 s2) as [?|[->|?]]; [by left; left| |by right; right; left; lia].
  destruct (Ztrichotomy (sdscmp e1 e2) 0) as [?|[E|?]]; [left; right; done| |].
  - right; left. split; [done|by apply Heq].
  - right; right; right. split; [done|lia].
Qed.

Lemma key_lt_asym s1 e1 s2 e2 : key_lt s1 e1 s2 e2 = true -> key_lt s2 e2 s1 e1 = false.
Proof.
  intros H. destruct (key_lt s2 e2 s1 e1) eqn:E; [|done].
  pose proof (key_lt_trans _ _ _ _ _ _ H E) as Hc. by rewrite key_lt_irrefl in Hc.
Qed.

Lemma sorted_lookup ns p q a b :
  StronglySorted entry_lt ns -> (p < q)%nat -> ns !! p = Some a -> ns !! q = Some b -> entry_lt a b.
Proof.
  intros Hs. revert p q. induction Hs as [|c l Hs IH Hall]; intros p q Hpq Hp Hq; [done|].
  destruct q as [|q]; [lia|]. destruct p as [|p]; simpl in *.
  - simplify_eq. rewrite Forall_lookup in Hall. eauto.
  - eapply (IH p q); eauto. lia.
Qed.

Lemma sorted_key_inj ns p q a b :
  StronglySorted entry_lt ns -> ns !! p = Some a -> ns !! q = Some b ->
  e_key a = e_key b -> e_ele a = e_ele b -> p = q.
Proof.
  intros Hs Hp Hq H1 H2. destruct (lt_eq_lt_dec p q) as [[Hlt| ->]|Hlt]; [|done|].
  - pose proof (sorted_lookup _ _ _ _ _ Hs Hlt Hp Hq) as H. unfold entry_lt in H.
    by rewrite H1, H2, key_lt_irrefl in H.
  - pose proof (sorted_lookup _ _ _ _ _ Hs Hlt Hq Hp) as H. unfold entry_lt in H.
    by rewrite H1, H2, key_lt_irrefl in H.
Qed.

(** A predicate that is closed downwards in the order of the list holds on a
    prefix of it. *)
Lemma prefix_cut (P : entry -> bool) ns :
  StronglySorted entry_lt ns -> (forall a b, a ∈ ns -> b ∈ ns -> entry_lt a b -> P b = true -> P a = true) ->
  exists r, (r <= length ns)%nat /\ forall p e, ns !! p = Some e -> P e = bool_decide (S p <= r)%nat.
Proof.
  intros Hs HP. exists (length (List.filter P ns)). split; [apply List.filter_length_le|].
  induction Hs as [|a l Hs IH Hall]; intros p e Hp; [done|]. rewrite Forall_forall in Hall.
  specialize (IH ltac:(intros b c Hb Hc; apply HP; by right)).
  assert (forall b, b ∈ l -> P b = true -> P a = true) as Hlow by (intros b Hb; apply HP; [left|by right|by apply Hall]).
  destruct p as [|p]; cbn [lookup list_lookup] in Hp; [simplify_eq|].
  - cbn [List.filter]. destruct (P e) eqn:E; cbn [length]; [by rewrite bool_decide_eq_true_2 by lia|].
    assert (List.filter P l = []) as ->; [|done].
    destruct (List.filter P l) as [|b k] eqn:F; [done|]. exfalso.
    assert (In b (List.filter P l)) as Hb by (rewrite F; by left). apply filter_In in Hb as [Hb HPb].
    apply list_elem_of_In in Hb. pose proof (Hlow _ Hb HPb). congruence.
  - rewrite (IH _ _ Hp). cbn [List.filter]. destruct (P a) eqn:E; cbn [length].
    + apply bool_decide_ext. lia.
    + assert (P e = false) as HPe.
      { destruct (P e) eqn:F; [|done]. apply list_elem_of_lookup_2 in Hp. pose proof (Hlow _ Hp F). congruence. }
      rewrite (IH _ _ Hp) in HPe. apply bool_decide_eq_false in HPe. apply bool_decide_ext. lia.
Qed.

Lemma node_lt_key s1 e1 s2 e2 : score_ok s1 -> score_ok s2 -> node_lt s1 e1 s2 e2 = key_lt (score_key s1) e1 (score_key s2) e2.
Proof. intros H1 H2. unfold node_lt, key_lt. by rewrite flt_key, feq_key. Qed.

Lemma scores_lookup ns p a : scores_ok ns -> ns !! p = Some a -> score_ok (e_score a).
Proof. intros Hok Ha. by apply (Forall_lookup_1 _ _ _ _ Hok Ha). Qed.

Lemma cuts_before ns sc e :
  StronglySorted entry_lt ns -> scores_ok ns -> score_ok sc ->
  exists r, cuts ns (before sc e) r /\
    (forall p a, ns !! p = Some a -> key_lt (e_key a) (e_ele a) (score_key sc) e = bool_decide (S p <= r)%nat).
Proof.
  intros Hs Hok Hsc. destruct (prefix_cut (fun a => key_lt (e_key a) (e_ele a) (score_key sc) e) ns Hs) as (r & Hr & H).
  { intros a b _ _ Hab Hb. by eapply key_lt_trans. }
  exists r. split; [split; [done|]|done]. intros p a Hp. cbn. rewrite node_lt_key by (done || by eapply scores_lookup). f_equal. by apply H.
Qed.

(** [upto] is the complement of the strict order the other way round. *)
Lemma upto_key sc e s a :
  score_ok sc -> score_ok s -> (s <? sc)%F || ((s =? sc)%F && (sdscmp a e <=? 0)) = negb (key_lt (score_key sc) e (score_key s) a).
Proof.
  intros Hsc Hs. rewrite flt_key, feq_key by done. unfold key_lt. rewrite (sdscmp_antisym a e). generalize (score_key s), (score_key sc). intros k c.
  destruct (Z.ltb_spec k c), (Z.ltb_spec c k), (Z.eqb_spec k c), (Z.eqb_spec c k); simpl; try lia;
  destruct (Z.leb_spec (sdscmp a e) 0), (Z.ltb_spec (- sdscmp a e) 0); simpl; lia.
Qed.

Lemma cuts_upto ns sc e :
  StronglySorted entry_lt ns -> scores_ok ns -> score_ok sc ->
  exists r, cuts ns (upto sc e) r /\
    (forall p a, ns !! p = Some a -> negb (key_lt (score_key sc) e (e_key a) (e_ele a)) = bool_decide (S p <= r)%nat).
Proof.
  intros Hs Hok Hsc. destruct (prefix_cut (fun a => negb (key_lt (score_key sc) e (e_key a) (e_ele a))) ns Hs) as (r & Hr & H).
  { intros a b _ _ Hab Hb. rewrite negb_true_iff in *. destruct (key_lt (score_key sc) e (e_key a) (e_ele a)) eqn:E; [|done].
    by rewrite (key_lt_trans _ _ _ _ _ _ E Hab) in Hb. }
  exists r. split; [split; [done|]|done]. intros p a Hp. cbn. rewrite upto_key by (done || by eapply scores_lookup). f_equal. by apply H.
Qed.

Lemma lastpos_bottom z ns r : layout z ns -> (r <= length ns)%nat -> lastpos ns 0 r = r.
Proof.
  intros Hly Hr. apply lastpos_eq; [done| |lia]. destruct r as [|r]; [done|].
  destruct (lookup_lt_is_Some_2 ns r) as [e He]; [lia|]. exists e. split; [done|].
  pose proof (ly_heights _ _ Hly) as Hh. rewrite Forall_lookup in Hh. specialize (Hh _ _ He). simpl in Hh. lia.
Qed.

(** ** Ranks *)

Lemma node_at_pos z ns p e :
  layout z ns -> ns !! p = Some e -> node_at (mem z) (pos_loc (header z) ns (S p)) = Ret (exp_node ns p e).
Proof. intros Hly He. cbn [pos_loc]. unfold node_at. by rewrite He, (ly_nodes _ _ Hly _ _ He). Qed.

Lemma node_at_header z ns :
  layout z ns -> exists ls, node_at (mem z) (header z) = Ret (Node None (f_of_Z 0) None ls).
Proof. intros Hly. destruct (ly_header _ _ Hly) as (ls & H & _). exists ls. unfold node_at. by rewrite H. Qed.

Definition same_key (k : Z) (e : list Z) (a : entry) : bool := (e_key a =? k) && (sdscmp (e_ele a) e =? 0).

Lemma same_key_true k e a : same_key k e a = true <-> e_key a = k /\ e_ele a = e.
Proof. unfold same_key. rewrite andb_true_iff, !Z.eqb_eq, sdscmp_eq. done. Qed.

(** The loop finds the entry, at whichever level it is met, or returns 0. *)
Lemma rank_loop_spec z ns sc e r fuel i j :
  skiplist_repr z ns -> score_ok sc -> cuts ns (upto sc e) r -> (i <= zlevel z)%nat -> (length ns <= fuel)%nat ->
  (j <= r)%nat -> tall ns (i - 1) j ->
  (forall p a, ns !! p = Some a -> same_key (score_key sc) e a = true -> S p = r) ->
  rank_loop fuel (mem z) sc e i (pos_loc (header z) ns j) (Z.of_nat j)
  = Ret (if (0 <? i)%nat && existsb (same_key (score_key sc) e) ns then Z.of_nat r else 0).
Proof.
  intros [Hly Hs Hok] Hsc Hcut. revert j. induction i as [|i IH]; intros j Hi Hf Hj Ht Hpos; cbn [rank_loop]; [done|].
  replace (S i - 1)%nat with i in Ht by lia. rewrite (walk_spec z ns _ r) by (done || lia). cbn [mbind res_bind].
  assert (existsb (same_key (score_key sc) e) ns = true -> exists a, ns !! (r - 1)%nat = Some a /\ same_key (score_key sc) e a = true /\ (0 < r)%nat) as Hex.
  { intros (a & Ha & Hk)%existsb_exists. apply list_elem_of_In, list_elem_of_lookup in Ha as [p Ha].
    pose proof (Hpos _ _ Ha Hk) as <-. exists a. replace (S p - 1)%nat with p by lia. split_and!; [done|done|lia]. }
  assert (rank_loop fuel (mem z) sc e i (pos_loc (header z) ns (lastpos ns i r)) (Z.of_nat (lastpos ns i r))
    = Ret (if (0 <? i)%nat && existsb (same_key (score_key sc) e) ns then Z.of_nat r else 0)) as Hrec.
  { apply IH; [lia|done|apply lastpos_le| |done]. eapply tall_mono; [|apply lastpos_tall]. lia. }
  pose proof (lastpos_tall ns i r) as Hl. pose proof (lastpos_le ns i r) as Hle. destruct Hcut as [Hr _].
  destruct (lastpos ns i r) as [|p] eqn:El.
  - destruct (node_at_header _ _ Hly) as (ls & Hn). cbn [pos_loc] in *. rewrite Hn. cbn [mbind res_bind ele].
    rewrite Hrec. destruct i as [|i]; [|done]. rewrite (lastpos_bottom z) in El by done.
    destruct (existsb _ ns) eqn:Ex; [|done]. destruct Hex as (_ & _ & _ & Hex); [done|]. lia.
  - destruct Hl as (a & Ha & Hh). rewrite (node_at_pos _ _ _ _ Hly Ha). cbn [mbind res_bind exp_node ele score].
    rewrite feq_key by (done || by eapply scores_lookup). fold (e_key a) (same_key (score_key sc) e a). destruct (same_key (score_key sc) e a) eqn:Ek.
    + assert (existsb (same_key (score_key sc) e) ns = true) as ->; [|by rewrite (Hpos _ _ Ha Ek)].
      apply existsb_exists. exists a. split; [|done]. by eapply list_elem_of_In, list_elem_of_lookup_2.
    + rewrite Hrec. destruct i as [|i]; [|done]. rewrite (lastpos_bottom z) in El by done. subst r.
      destruct (existsb _ ns) eqn:Ex; [|done]. destruct Hex as (b & Hb & Hk & _); [done|].
      replace (S p - 1)%nat with p in Hb by lia. congruence.
Qed.

(** The rank of an entry, for the callers of [zslGetRank]. *)
Lemma rank_spec z ns sc e :
  skiplist_repr z ns -> score_ok sc ->
  (forall p a, ns !! p = Some a -> e_key a = score_key sc -> e_ele a = e -> zslGetRank z sc e = Ret (Z.of_nat (S p))) /\
  ((forall a, a ∈ ns -> ~ (e_key a = score_key sc /\ e_ele a = e)) -> zslGetRank z sc e = Ret 0).
Proof.
  intros Hr Hsc. destruct Hr as [Hly Hs Hok]. destruct (cuts_upto ns sc e Hs Hok Hsc) as (r & Hcut & Hkey).
  assert (forall p a, ns !! p = Some a -> same_key (score_key sc) e a = true -> S p = r) as Hpos.
  { intros p a Ha [Ek <-]%same_key_true. pose proof (Hkey _ _ Ha) as Hp. rewrite Ek, key_lt_irrefl in Hp.
    symmetry in Hp. apply bool_decide_eq_true in Hp. destruct (decide (S p = r)) as [|Hne]; [done|].
    destruct Hcut as [Hlen _]. destruct (lookup_lt_is_Some_2 ns (S p)) as [b Hb]; [lia|].
    assert (entry_lt a b) as Hab by (eapply (sorted_lookup ns p (S p)); [done|lia|done|done]).
    pose proof (Hkey _ _ Hb) as Hkb. rewrite <- Ek, Hab in Hkb. symmetry in Hkb. apply bool_decide_eq_false in Hkb. lia. }
  assert (zslGetRank z sc e = Ret (if existsb (same_key (score_key sc) e) ns then Z.of_nat r else 0)) as ->.
  { unfold zslGetRank. pose proof (ly_level _ _ Hly).
    rewrite (rank_loop_spec z ns sc e r _ _ 0) by (done || unfold zfuel; rewrite ?(ly_length _ _ Hly); lia).
    by rewrite (proj2 (Nat.ltb_lt 0 (zlevel z))) by lia. }
  split.
  - intros p a Ha H1 H2. rewrite (proj2 (existsb_exists _ _)).
    + by rewrite <- (Hpos p a Ha) by by apply same_key_true.
    + exists a. split; [by eapply list_elem_of_In, list_elem_of_lookup_2|by apply same_key_true].
  - intros Hno. destruct (existsb _ ns) eqn:Ex; [|done]. apply existsb_exists in Ex as (a & Ha & Hk).
    exfalso. eapply Hno; [by apply list_elem_of_In|by apply same_key_true].
Qed.

(** [zslGetRank] returns the 1-based position of the entry with the given
    score and element, and 0 when there is none. *)
Theorem zslGetRank_correct z ns sc e :
  skiplist_repr z ns -> score_ok sc ->
  (forall p a, ns !! p = Some a -> e_key a = score_key sc -> e_ele a = e -> zslGetRank z sc e = Ret (Z.of_nat (S p))) /\
  ((forall a, a ∈ ns -> ~ (e_key a = score_key sc /\ e_ele a = e)) -> zslGetRank z sc e = Ret 0).
Proof. apply rank_spec. Qed.

Lemma zslGetRank_correct_witness : zslGetRank demo_zsl (f_of_Z 10) [98] = Ret 2 /\ zslGetRank demo_zsl (f_of_Z 20) [98] = Ret 0.
Proof.
  split.
  - exact (proj1 (zslGetRank_correct demo_zsl demo_entries (f_of_Z 10) [98] demo_zsl_repr (f_of_Z_ok 10)) 1%nat (Entry 3 (f_of_Z 10) [98] 3) eq_refl eq_refl eq_refl).
  - apply (proj2 (zslGetRank_correct demo_zsl demo_entries (f_of_Z 20) [98] demo_zsl_repr (f_of_Z_ok 20))).
    intros a Ha [H1 H2]. repeat (apply elem_of_cons in Ha as [->|Ha]; [done|]). by apply not_elem_of_nil in Ha.
Defined.

Lemma cuts_within ns k : cuts ns (within (Z.of_nat k)) (k `min` length ns).
Proof.
  split; [lia|]. intros p e He. apply lookup_lt_Some in He. unfold within. f_equal.
  destruct (Z.leb_spec (Z.of_nat (S p)) (Z.of_nat k)); symmetry;
    [apply bool_decide_eq_true_2|apply bool_decide_eq_false_2]; lia.
Qed.

Lemma by_rank_loop_spec z ns k fuel i j :
  layout z ns -> (i <= zlevel z)%nat -> (length ns <= fuel)%nat -> (j <= k `min` length ns)%nat ->
  tall ns (i - 1) j ->
  by_rank_loop fuel (mem z) (Z.of_nat k) i (pos_loc (header z) ns j) (Z.of_nat j)
  = Ret (if (0 <? i)%nat && (k <=? length ns)%nat then Some (pos_loc (header z) ns k) else None).
Proof.
  intros Hly. revert j. induction i as [|i IH]; intros j Hi Hf Hj Ht; cbn [by_rank_loop]; [done|].
  replace (S i - 1)%nat with i in Ht by lia.
  rewrite (walk_spec z ns _ (k `min` length ns)) by (done || lia || apply cuts_within). cbn [mbind res_bind].
  pose proof (lastpos_le ns i (k `min` length ns)) as Hle. destruct (Z.eqb_spec (Z.of_nat (lastpos ns i (k `min` length ns))) (Z.of_nat k)) as [E|E].
  - assert (lastpos ns i (k `min` length ns) = k) as -> by lia. by rewrite (proj2 (Nat.leb_le k (length ns))) by lia.
  - rewrite IH; [|lia|done|done|eapply tall_mono; [|apply lastpos_tall]; lia].
    destruct i as [|i]; [|done]. rewrite (lastpos_bottom z) in E by (done || lia).
    by rewrite (proj2 (Nat.leb_gt k (length ns))) by lia.
Qed.

(** [zslGetElementByRank] is the indexing of the sorted list from 1; past
    the last entry it finds nothing. *)
Theorem zslGetElementByRank_correct z ns k :
  skiplist_repr z ns ->
  zslGetElementByRank z (Z.of_nat (S k)) = Ret (e_loc <$> ns !! k).
Proof.
  intros [Hly Hs _]. unfold zslGetElementByRank. pose proof (ly_level _ _ Hly).
  rewrite (by_rank_loop_spec z ns (S k) _ _ 0) by (done || unfold zfuel; rewrite ?(ly_length _ _ Hly); lia).
  rewrite (proj2 (Nat.ltb_lt 0 (zlevel z))) by lia. cbn [andb pos_loc].
  destruct (ns !! k) as [e|] eqn:Ek.
  - apply lookup_lt_Some in Ek. by rewrite (proj2 (Nat.leb_le (S k) (length ns))) by lia.
  - apply lookup_ge_None in Ek. by rewrite (proj2 (Nat.leb_gt (S k) (length ns))) by lia.
Qed.

(** ** Ranges of scores *)

Definition entry_in_range (r : zrangespec) (a : entry) : bool :=
  zslValueGteMin (e_score a) r && zslValueLteMax (e_score a) r.

(** The answer is the first (or the last) entry of the list that satisfies
    [P], or nothing when none does. *)
Definition is_first (P : entry -> bool) (ns : list entry) (o : option loc) : Prop :=
  match o with
  | Some x => exists p a, ns !! p = Some a /\ e_loc a = x /\ P a = true /\
      forall q b, ns !! q = Some b -> (q < p)%nat -> P b = false
  | None => forall q b, ns !! q = Some b -> P b = false
  end.

Definition is_last (P : entry -> bool) (ns : list entry) (o : option loc) : Prop :=
  match o with
  | Some x => exists p a, ns !! p = Some a /\ e_loc a = x /\ P a = true /\
      forall q b, ns !! q = Some b -> (p < q)%nat -> P b = false
  | None => forall q b, ns !! q = Some b -> P b = false
  end.

Lemma entry_lt_key a b : entry_lt a b -> e_key a <= e_key b.
Proof. unfold entry_lt, key_lt. rewrite orb_true_iff, andb_true_iff, Z.ltb_lt, Z.eqb_eq. lia. Qed.
Lemma key_le_score a b : score_ok (e_score a) -> score_ok (e_score b) -> e_key a <= e_key b -> (e_score a <=? e_score b)%F = true.
Proof. intros Ha Hb Hle. rewrite fle_key by done. by apply Z.leb_le. Qed.
Lemma entry_lt_score ns a b : scores_ok ns -> a ∈ ns -> b ∈ ns -> entry_lt a b -> (e_score a <=? e_score b)%F = true.
Proof. intros Hok Ha Hb Hab%entry_lt_key. unfold scores_ok in Hok. rewrite Forall_forall in Hok. apply key_le_score; auto. Qed.
Lemma sorted_score ns p q a b :
  StronglySorted entry_lt ns -> scores_ok ns -> (p <= q)%nat -> ns !! p = Some a -> ns !! q = Some b -> (e_score a <=? e_score b)%F = true.
Proof.
  intros Hs Hok Hpq Ha Hb. apply key_le_score; [by eapply scores_lookup..|]. destruct (decide (p = q)) as [->|Hne]; [simplify_eq; lia|].
  apply entry_lt_key. eapply (sorted_lookup ns p q); [done|lia|done|done].
Qed.

#[export] Instance zslValueGteMin_same : Proper (same_score ==> eq ==> eq) zslValueGteMin.
Proof. intros v w Hvw r r' <-. unfold zslValueGteMin. destruct (minex r); by rewrite Hvw. Qed.
#[export] Instance zslValueLteMax_same : Proper (same_score ==> eq ==> eq) zslValueLteMax.
Proof. intros v w Hvw r r' <-. unfold zslValueLteMax. destruct (maxex r); by rewrite Hvw. Qed.

Lemma gte_mono r v w : (v <=? w)%F = true -> zslValueGteMin v r = true -> zslValueGteMin w r = true.
Proof. unfold zslValueGteMin. destruct (minex r); intros H1 H2; [by eapply flt_fle_trans|by eapply fle_trans]. Qed.
Lemma lte_mono r v w : (v <=? w)%F = true -> zslValueLteMax w r = true -> zslValueLteMax v r = true.
Proof. unfold zslValueLteMax. destruct (maxex r); intros H1 H2; [by eapply fle_flt_trans|by eapply fle_trans]. Qed.

(** No value is in an empty range. *)
Lemma empty_range_spec r v : empty_range r = true -> zslValueGteMin v r && zslValueLteMax v r = false.
Proof.
  unfold empty_range, zslValueGteMin, zslValueLteMax. intros He. apply not_true_iff_false. intros [H1 H2]%andb_prop.
  assert ((rmin r <=? rmax r)%F = true \/ (rmin r <? rmax r)%F = true) as Hle.
  { destruct (minex r), (maxex r); [right|right|right|left]; eauto using flt_fle_trans, fle_flt_trans, fle_trans, flt_trans. }
  apply orb_prop in He as [He|[Heq Hex]%andb_prop].
  - destruct Hle as [Hle|Hle]; apply flt_not_le in He; [congruence|]. apply flt_le in Hle. congruence.
  - apply feq_le in Heq as [_ Heq]. assert ((rmin r <? rmax r)%F = true) as Hlt.
    { destruct (minex r), (maxex r); try done; eauto using flt_fle_trans, fle_flt_trans, flt_trans. }
    apply flt_not_le in Hlt. congruence.
Qed.

Lemma cuts_out_of_range ns r :
  StronglySorted entry_lt ns -> scores_ok ns ->
  exists k, cuts ns (out_of_range r) k /\
    forall p a, ns !! p = Some a -> zslValueGteMin (e_score a) r = negb (bool_decide (S p <= k)%nat).
Proof.
  intros Hs Hok. destruct (prefix_cut (fun a => negb (zslValueGteMin (e_score a) r)) ns Hs) as (k & Hk & H).
  { intros a b Ha Hb' Hab%(entry_lt_score ns) Hb; [|done..]. rewrite negb_true_iff in *.
    destruct (zslValueGteMin (e_score a) r) eqn:E; [|done]. by rewrite (gte_mono _ _ _ Hab E) in Hb. }
  exists k. split; [split; [done|]|].
  - intros p a Hp. unfold out_of_range. cbn. by rewrite (H _ _ Hp).
  - intros p a Hp. by rewrite <- (H _ _ Hp), negb_involutive.
Qed.

Lemma cuts_up_to_max ns r :
  StronglySorted entry_lt ns -> scores_ok ns ->
  exists k, cuts ns (up_to_max r) k /\
    forall p a, ns !! p = Some a -> zslValueLteMax (e_score a) r = bool_decide (S p <= k)%nat.
Proof.
  intros Hs Hok. destruct (prefix_cut (fun a => zslValueLteMax (e_score a) r) ns Hs) as (k & Hk & H).
  { intros a b Ha Hb' Hab%(entry_lt_score ns) Hb; [by eapply lte_mono|done..]. }
  exists k. split; [split; [done|]|done]. intros p a Hp. unfold up_to_max. cbn. by rewrite (H _ _ Hp).
Qed.

Lemma bottom_tall ns j : Forall (fun e => 1 <= e_h e)%nat ns -> (j <= length ns)%nat -> tall ns 0 j.
Proof.
  intros Hh Hj. rewrite Forall_lookup in Hh. destruct j as [|j]; [done|].
  destruct (lookup_lt_is_Some_2 ns j) as [e He]; [lia|]. exists e. split; [done|]. apply (Hh _ _ He).
Qed.

(** The successor on the bottom level is the next entry. *)
Lemma bottom_forward ns j :
  Forall (fun e => 1 <= e_h e)%nat ns -> forward (exp_level ns 0 j) = e_loc <$> ns !! j.
Proof.
  intros Hh. destruct (ns !! j) as [e|] eqn:E.
  - pose proof (lookup_lt_Some _ _ _ E). rewrite (exp_level_at 1%positive ns 0 j (S j)); [|lia|by apply bottom_tall|lia].
    cbn. by rewrite E.
  - apply lookup_ge_None in E. rewrite exp_level_end; [done|]. intros [|q] Hq; [lia|]. intros (e & He & _).
    apply lookup_lt_Some in He. lia.
Qed.

Lemma layout_heights z ns : layout z ns -> Forall (fun e => 1 <= e_h e)%nat ns.
Proof. intros Hly. eapply Forall_impl; [apply (ly_heights _ _ Hly)|]. simpl. lia. Qed.

Lemma bottom_level z ns j :
  layout z ns -> (j <= length ns)%nat -> load_level (mem z) (pos_loc (header z) ns j) 0 = Ret (exp_level ns 0 j) /\
  forward (exp_level ns 0 j) = e_loc <$> ns !! j.
Proof.
  intros Hly Hj. pose proof (layout_heights _ _ Hly) as Hh. split; [|by apply bottom_forward].
  apply load_level_pos; [done|done|by apply bottom_tall|]. pose proof (ly_level _ _ Hly). lia.
Qed.

Lemma node_at_loc z ns p a : layout z ns -> ns !! p = Some a -> node_at (mem z) (e_loc a) = Ret (exp_node ns p a).
Proof. intros Hly Ha. unfold node_at. by rewrite (ly_nodes _ _ Hly _ _ Ha). Qed.

(** The early test: [false] only if no entry is in the range; [true] means
    that the last entry reaches the minimum and the first the maximum. *)
Lemma zslIsInRange_spec z ns r :
  skiplist_repr z ns -> exists b, zslIsInRange z r = Ret b /\
    (b = false -> forall q a, ns !! q = Some a -> entry_in_range r a = false) /\
    (b = true -> exists f l, ns !! 0%nat = Some f /\ ns !! (length ns - 1)%nat = Some l /\
       zslValueLteMax (e_score f) r = true /\ zslValueGteMin (e_score l) r = true).
Proof.
  intros [Hly Hs Hok]. unfold zslIsInRange. destruct (empty_range r) eqn:Ee.
  { exists false. split; [done|]. split; [|done]. intros _ q a _. by apply empty_range_spec. }
  rewrite (ly_tail _ _ Hly). destruct (last ns) as [l|] eqn:El; cbn [fmap option_fmap option_map].
  2:{ apply last_None in El as ->. exists false. split; [done|]. by split; [|done]. }
  rewrite last_lookup in El. replace (pred (length ns)) with (length ns - 1)%nat in El by lia.
  rewrite (node_at_loc _ _ _ _ Hly El). cbn [mbind res_bind exp_node score].
  destruct (zslValueGteMin (e_score l) r) eqn:Eg; cbn [negb].
  2:{ exists false. split; [done|]. split; [|done]. intros _ q a Ha. unfold entry_in_range.
      destruct (zslValueGteMin (e_score a) r) eqn:E; [|done]. exfalso.
      assert ((e_score a <=? e_score l)%F = true) as Hle; [|by rewrite (gte_mono _ _ _ Hle E) in Eg].
      eapply (sorted_score ns q (length ns - 1)); eauto. apply lookup_lt_Some in Ha. lia. }
  destruct (bottom_level z ns 0 Hly) as [Hb Hf]; [lia|]. cbn [pos_loc] in Hb. rewrite Hb. cbn [mbind res_bind]. rewrite Hf.
  destruct (ns !! 0%nat) as [f|] eqn:E0; [|apply lookup_ge_None in E0; apply lookup_lt_Some in El; lia].
  cbn [fmap option_fmap option_map]. rewrite (node_at_loc _ _ _ _ Hly E0). cbn [mbind res_bind exp_node score].
  eexists. split; [done|]. split; [|intros Hm; by exists f, l].
  intros Hm q a Ha. unfold entry_in_range. destruct (zslValueLteMax (e_score a) r) eqn:E; [|apply andb_false_r]. exfalso.
  assert ((e_score f <=? e_score a)%F = true) as Hle; [|by rewrite (lte_mono _ _ _ Hle E) in Hm].
  eapply (sorted_score ns 0 q); eauto. lia.
Qed.

Lemma descend_bottom z ns cond k :
  layout z ns -> cuts ns cond k ->
  exists up, descend (zfuel z) (mem z) cond (zlevel z) (header z) 0 = Ret up /\
    up = map (fun i => (pos_loc (header z) ns (lastpos ns i k), Z.of_nat (lastpos ns i k))) (seq 0 (zlevel z)) /\
    up !! 0%nat = Some (pos_loc (header z) ns k, Z.of_nat k).
Proof.
  intros Hly Hc. eexists. split; [|split; [done|]].
  - apply (descend_spec z ns cond k _ _ 0); [done|done|done| |lia|done]. unfold zfuel. rewrite (ly_length _ _ Hly). lia.
  - rewrite list_lookup_fmap, lookup_seq_lt by (pose proof (ly_level _ _ Hly); lia). cbn.
    by rewrite (lastpos_bottom z) by (done || apply Hc).
Qed.

Lemma zslFirstInRange_spec z ns r :
  skiplist_repr z ns -> exists o, zslFirstInRange z r = Ret o /\ is_first (entry_in_range r) ns o.
Proof.
  intros Hr. destruct (zslIsInRange_spec z ns r Hr) as (b & Hb & Hno & Hyes). destruct Hr as [Hly Hs Hok].
  unfold zslFirstInRange. rewrite Hb. cbn [mbind res_bind]. destruct b; cbn [negb]; [|exists None; split; [done|exact (Hno eq_refl)]].
  destruct (Hyes eq_refl) as (_ & l & _ & Hl & _ & Hlm).
  destruct (cuts_out_of_range ns r Hs Hok) as (k & Hc & Hk). destruct (descend_bottom _ _ _ _ Hly Hc) as (up & -> & _ & Hup).
  cbn [mbind res_bind]. rewrite Hup. cbn [of_option mbind res_bind].
  assert (k < length ns)%nat as Hlt.
  { rewrite (Hk _ _ Hl) in Hlm. apply negb_true_iff, bool_decide_eq_false in Hlm. apply lookup_lt_Some in Hl. lia. }
  destruct (bottom_level z ns k Hly) as [Hld Hfw]; [lia|]. rewrite Hld. cbn [mbind res_bind]. rewrite Hfw.
  destruct (lookup_lt_is_Some_2 ns k Hlt) as [a Ha]. rewrite Ha. cbn [fmap option_fmap option_map of_option mbind res_bind].
  rewrite (node_at_loc _ _ _ _ Hly Ha). cbn [mbind res_bind exp_node score]. eexists. split; [done|].
  destruct (zslValueLteMax (e_score a) r) eqn:Em; [exists k, a|]; unfold entry_in_range.
  - split_and!; [done|done|by rewrite Em, (Hk _ _ Ha), bool_decide_eq_false_2 by lia|].
    intros q b Hq Hqk. by rewrite (Hk _ _ Hq), bool_decide_eq_true_2 by lia.
  - intros q b Hq. rewrite (Hk _ _ Hq). case_bool_decide; [done|]. cbn.
    destruct (zslValueLteMax (e_score b) r) eqn:E; [|done]. rewrite <- Em. symmetry.
    eapply lte_mono; [|done]. eapply (sorted_score ns k q); eauto. lia.
Qed.

Lemma zslLastInRange_spec z ns r :
  skiplist_repr z ns -> exists o, zslLastInRange z r = Ret o /\ is_last (entry_in_range r) ns o.
Proof.
  intros Hr. destruct (zslIsInRange_spec z ns r Hr) as (b & Hb & Hno & Hyes). destruct Hr as [Hly Hs Hok].
  unfold zslLastInRange. rewrite Hb. cbn [mbind res_bind]. destruct b; cbn [negb]; [|exists None; split; [done|exact (Hno eq_refl)]].
  destruct (Hyes eq_refl) as (f & _ & Hf & _ & Hfm & _).
  destruct (cuts_up_to_max ns r Hs Hok) as (k & Hc & Hk). destruct (descend_bottom _ _ _ _ Hly Hc) as (up & -> & _ & Hup).
  cbn [mbind res_bind]. rewrite Hup. cbn [of_option mbind res_bind]. destruct k as [|k].
  { by rewrite (Hk _ _ Hf), bool_decide_eq_false_2 in Hfm by lia. }
  destruct Hc as [Hc _]. destruct (lookup_lt_is_Some_2 ns k) as [a Ha]; [lia|].
  rewrite (node_at_pos _ _ _ _ Hly Ha). cbn [mbind res_bind exp_node score]. eexists. split; [done|].
  destruct (zslValueGteMin (e_score a) r) eqn:Em; [exists k, a|]; unfold entry_in_range.
  - split_and!; [done|cbn; by rewrite Ha|by rewrite Em, (Hk _ _ Ha), bool_decide_eq_true_2 by lia|].
    intros q b Hq Hqk. rewrite (Hk _ _ Hq), bool_decide_eq_false_2 by lia. apply andb_false_r.
  - intros q b Hq. rewrite (Hk _ _ Hq). case_bool_decide as Hle; [|apply andb_false_r].
    destruct (zslValueGteMin (e_score b) r) eqn:E; [|done]. rewrite <- Em. symmetry.
    eapply gte_mono; [|done]. eapply (sorted_score ns q k); eauto. lia.
Qed.

(** [zslFirstInRange] and [zslLastInRange] return the first and the last
    entry whose score is in the range, and nothing when there is none; the
    assertions in them never fail. *)
Theorem zsl_range_ends z ns r :
  skiplist_repr z ns ->
  (exists o, zslFirstInRange z r = Ret o /\ is_first (entry_in_range r) ns o) /\
  (exists o, zslLastInRange z r = Ret o /\ is_last (entry_in_range r) ns o).
Proof. intros Hr. split; [by apply zslFirstInRange_spec|by apply zslLastInRange_spec]. Qed.

Definition demo_range : zrangespec := Range (f_of_Z 10) (f_of_Z 20) true false.
Lemma zsl_range_ends_witness :
  (exists o, zslFirstInRange demo_zsl demo_range = Ret o /\ is_first (entry_in_range demo_range) demo_entries o) /\
  (exists o, zslLastInRange demo_zsl demo_range = Ret o /\ is_last (entry_in_range demo_range) demo_entries o).
Proof. exact (zsl_range_ends demo_zsl demo_entries demo_range demo_zsl_repr). Defined.
