(* ===== verification/SkiplistUpdate.v ===== *)
(** * Updates of Redis' skip list

    Insertion, deletion, the change of a score and the deletion of ranges
    ([zslInsert], [zslDelete], [zslUpdateScore], [zslDeleteRangeByScore] and
    [zslDeleteRangeByRank] of [redis-7.2.3/src/t_zset.c], defined in
    [Skiplist]) implement the operations on the sorted list of entries.

    One step of a loop over the levels touches cells of one level only; the
    heap is therefore followed through its cells ([load_level]) and through
    the parts of the nodes the loops leave alone ([shape_of]). *)
From stdpp Require Import gmap.
From S2P Require Import Prelude PyFloat Score Skiplist.

Local Open Scope Z_scope.

#[local] Arguments Nat.ltb : simpl never.

(** ** The heap, cell by cell *)

Definition shape (n : zskiplistNode) : option (list Z) * float * option loc * nat :=
  (ele n, score n, backward n, length (level n)).
Definition shape_of (m : heap) (y : loc) := shape <$> m !! y.

Lemma load_level_shape m y i sh :
  shape_of m y = Some sh -> (i < sh.2)%nat -> exists l, load_level m y i = Ret l.
Proof.
  unfold shape_of, load_level, node_at. destruct (m !! y) as [n|]; [|done]. cbn. intros [= <-] Hi. cbn in Hi.
  destruct (lookup_lt_is_Some_2 _ _ Hi) as [l ->]. by exists l.
Qed.

Lemma store_level_spec m y i l0 l :
  load_level m y i = Ret l0 ->
  exists m', store_level m y i l = Ret m' /\ (forall w, shape_of m' w = shape_of m w) /\
    (forall w k, load_level m' w k = if decide (w = y /\ k = i) then Ret l else load_level m w k).
Proof.
  unfold load_level, store_level, node_at. destruct (m !! y) as [n|] eqn:En; [|done]. cbn.
  destruct (level n !! i) as [l1|] eqn:El; [|done]. intros _. apply lookup_lt_Some in El as Hi.
  rewrite (proj2 (Nat.ltb_lt _ _) Hi). eexists. split; [done|]. split.
  - intros w. unfold shape_of. destruct (decide (w = y)) as [->|Hw].
    + rewrite lookup_insert_eq, En. unfold shape. cbn. by rewrite length_insert.
    + by rewrite lookup_insert_ne by done.
  - intros w k. destruct (decide (w = y)) as [->|Hw].
    + rewrite lookup_insert_eq. cbn. rewrite En. cbn. destruct (decide (k = i)) as [->|Hk].
      * rewrite decide_True by done. by rewrite list_lookup_insert_eq.
      * rewrite decide_False by tauto. by rewrite list_lookup_insert_ne.
    + rewrite decide_False by tauto. by rewrite lookup_insert_ne.
Qed.

Lemma store_backward_spec m y sh b :
  shape_of m y = Some sh ->
  exists m', store_backward m y b = Ret m' /\ (forall w k, load_level m' w k = load_level m w k) /\
    (forall w, shape_of m' w = if decide (w = y) then Some (sh.1.1.1, sh.1.1.2, b, sh.2) else shape_of m w).
Proof.
  unfold shape_of, store_backward, load_level, node_at. destruct (m !! y) as [n|] eqn:En; [|done]. cbn.
  intros [= <-]. eexists. split; [done|]. split.
  - intros w k. destruct (decide (w = y)) as [->|Hw]; [by rewrite lookup_insert_eq, En|by rewrite lookup_insert_ne].
  - intros w. destruct (decide (w = y)) as [->|Hw]; [by rewrite lookup_insert_eq|by rewrite lookup_insert_ne].
Qed.

(** A loop over levels, from what each iteration does to its level: [new i y]
    is the link it writes into [y], if any. *)
Lemma for_levels_from (body : heap -> nat -> res heap) (new : nat -> loc -> option zskiplistLevel) m0 idx :
  NoDup idx ->
  (forall i m, i ∈ idx -> (forall w, shape_of m w = shape_of m0 w) ->
     (forall w, load_level m w i = load_level m0 w i) ->
     exists m', body m i = Ret m' /\ (forall w, shape_of m' w = shape_of m w) /\
       (forall w k, load_level m' w k = if decide (k = i) then from_option Ret (load_level m w k) (new i w)
                                         else load_level m w k)) ->
  forall m, (forall w, shape_of m w = shape_of m0 w) ->
    (forall w i, i ∈ idx -> load_level m w i = load_level m0 w i) ->
  exists m', for_levels idx body m = Ret m' /\ (forall w, shape_of m' w = shape_of m w) /\
    (forall w k, load_level m' w k = if decide (k ∈ idx) then from_option Ret (load_level m w k) (new k w)
                                      else load_level m w k).
Proof.
  induction idx as [|i idx IH]; intros Hnd Hbody m Hsh Hld; cbn [for_levels]; [by exists m|].
  apply NoDup_cons in Hnd as [Hni Hnd].
  destruct (Hbody i m) as (m1 & -> & Hsh1 & Hld1); [set_solver|done|intros w; apply Hld; set_solver|].
  destruct (IH Hnd) with (m := m1) as (m2 & Hm2 & Hsh2 & Hld2).
  - intros k m' Hk. apply Hbody. set_solver.
  - intros w. by rewrite Hsh1.
  - intros w k Hk. rewrite Hld1, decide_False by set_solver. apply Hld. set_solver.
  - exists m2. cbn [mbind res_bind]. split; [done|]. split; [intros w; by rewrite Hsh2, Hsh1|].
    intros w k. rewrite Hld2. destruct (decide (k = i)) as [->|Hki].
    + rewrite decide_False, decide_True by set_solver. by rewrite Hld1, decide_True.
    + rewrite Hld1, (decide_False (P := k = i)) by done. by destruct (decide (k ∈ idx)), (decide (k ∈ i :: idx)); set_solver.
Qed.

Lemma for_levels_spec (body : heap -> nat -> res heap) (new : nat -> loc -> option zskiplistLevel) m0 idx :
  NoDup idx ->
  (forall i m, i ∈ idx -> (forall w, shape_of m w = shape_of m0 w) ->
     (forall w, load_level m w i = load_level m0 w i) ->
     exists m', body m i = Ret m' /\ (forall w, shape_of m' w = shape_of m w) /\
       (forall w k, load_level m' w k = if decide (k = i) then from_option Ret (load_level m w k) (new i w)
                                         else load_level m w k)) ->
  exists m', for_levels idx body m0 = Ret m' /\ (forall w, shape_of m' w = shape_of m0 w) /\
    (forall w k, load_level m' w k = if decide (k ∈ idx) then from_option Ret (load_level m0 w k) (new k w)
                                      else load_level m0 w k).
Proof. intros Hnd Hbody. by apply (for_levels_from body new m0). Qed.

(** The layout, cell by cell. *)
Lemma layout_intro z ns :
  NoDup (header z :: map e_loc ns) ->
  (forall j e, ns !! j = Some e ->
     shape_of (mem z) (e_loc e) = Some (Some (e_ele e), e_score e, prev_loc ns j, e_h e)) ->
  shape_of (mem z) (header z) = Some (None, f_of_Z 0, None, ZSKIPLIST_MAXLEVEL) ->
  (forall i j, (i < zlevel z)%nat -> (j <= length ns)%nat -> tall ns i j ->
     load_level (mem z) (pos_loc (header z) ns j) i = Ret (exp_level ns i j)) ->
  (forall i l, (zlevel z <= i)%nat -> load_level (mem z) (header z) i = Ret l -> forward l = None) ->
  zlength z = Z.of_nat (length ns) -> tail z = e_loc <$> last ns ->
  (1 <= zlevel z <= ZSKIPLIST_MAXLEVEL)%nat -> Forall (fun e => 1 <= e_h e <= zlevel z)%nat ns ->
  layout z ns.
Proof.
  intros Hnd Hsh Hhd Hld Htop Hlen Htl Hlev Hh. split; try done.
  - intros j e He. specialize (Hsh j e He). unfold shape_of in Hsh.
    destruct (mem z !! e_loc e) as [[el sc bk lv]|] eqn:En; [|done]. unfold shape in Hsh. cbn in Hsh. simplify_eq.
    unfold exp_node. do 2 f_equal. apply list_eq. intros i. rewrite list_lookup_fmap. rewrite Forall_lookup in Hh. specialize (Hh _ _ He). simpl in Hh.
    destruct (decide (i < e_h e)%nat) as [Hi|Hi].
    + rewrite lookup_seq_lt by done. specialize (Hld i (S j)). cbn [pos_loc] in Hld. rewrite He in Hld.
      unfold load_level, node_at in Hld. rewrite En in Hld. cbn in Hld.
      destruct (lookup_lt_is_Some_2 lv i) as [l Hl]; [lia|]. rewrite Hl in Hld |- *. cbn in Hld |- *.
      specialize (Hld ltac:(lia)). apply lookup_lt_Some in He as Hj. specialize (Hld Hj).
      assert (tall ns i (S j)) as Ht by by exists e. by injection (Hld Ht) as ->.
    + rewrite !lookup_ge_None_2; [done|rewrite length_seq; lia|lia].
  - unfold shape_of in Hhd. destruct (mem z !! header z) as [[el sc bk lv]|] eqn:En; [|done]. unfold shape in Hhd. cbn in Hhd. simplify_eq.
    exists lv. split_and!; [done|done| |].
    + intros i Hi. specialize (Hld i 0%nat Hi). unfold load_level, node_at in Hld. cbn [pos_loc] in Hld. rewrite En in Hld.
      cbn in Hld. destruct (lv !! i) as [l|] eqn:El; [|apply lookup_ge_None in El; lia].
      by injection (Hld ltac:(lia) I) as ->.
    + intros i l Hi Hl. apply (Htop i l Hi). unfold load_level, node_at. rewrite En. cbn. by rewrite Hl.
Qed.

Lemma layout_shape z ns j e :
  layout z ns -> ns !! j = Some e ->
  shape_of (mem z) (e_loc e) = Some (Some (e_ele e), e_score e, prev_loc ns j, e_h e).
Proof.
  intros Hly He. unfold shape_of. rewrite (ly_nodes _ _ Hly _ _ He). cbn. unfold shape, exp_node. cbn.
  by rewrite length_map, length_seq.
Qed.

Lemma layout_header_shape z ns :
  layout z ns -> shape_of (mem z) (header z) = Some (None, f_of_Z 0, None, ZSKIPLIST_MAXLEVEL).
Proof. intros Hly. destruct (ly_header _ _ Hly) as (ls & Hm & Hl & _). unfold shape_of. rewrite Hm. cbn. by rewrite <- Hl. Qed.

Lemma layout_top z ns i l :
  layout z ns -> (zlevel z <= i)%nat -> load_level (mem z) (header z) i = Ret l -> forward l = None.
Proof.
  intros Hly Hi. destruct (ly_header _ _ Hly) as (ls & Hm & _ & _ & Ht). unfold load_level, node_at. rewrite Hm. cbn.
  destruct (ls !! i) as [l'|] eqn:El; [|done]. intros [= <-]. by eapply Ht.
Qed.

(** ** Positions around an insertion point

    [ns'] is [ns] with the entry [a] put in at index [r]; position [p] of
    [ns] becomes [shift r p]. *)
Definition shift (r p : nat) : nat := if (p <=? r)%nat then p else S p.

Section Around.
Context (ns : list entry) (r : nat) (a : entry) (hd : loc).
Hypothesis Hr : (r <= length ns)%nat.

Let ns' := take r ns ++ a :: drop r ns.

Lemma around_length : length ns' = S (length ns).
Proof. unfold ns'. rewrite length_app, length_take. cbn. rewrite length_drop. lia. Qed.

Lemma around_lt p : (p < r)%nat -> ns' !! p = ns !! p.
Proof. intros H. unfold ns'. rewrite lookup_app_l, lookup_take_lt; [done|lia|rewrite length_take; lia]. Qed.

Lemma around_eq : ns' !! r = Some a.
Proof. unfold ns'. rewrite lookup_app_r, length_take; [|rewrite length_take; lia]. by rewrite Nat.min_l, Nat.sub_diag. Qed.

Lemma around_gt p : (r <= p)%nat -> ns' !! S p = ns !! p.
Proof.
  intros H. unfold ns'. rewrite lookup_app_r, length_take; [|rewrite length_take; lia].
  replace (S p - r `min` length ns)%nat with (S (p - r)) by lia.
  change (drop r ns !! (p - r)%nat = ns !! p). rewrite lookup_drop. f_equal. lia.
Qed.

Lemma shift_le p : (p <= r)%nat -> shift r p = p.
Proof. intros H. unfold shift. by rewrite (proj2 (Nat.leb_le _ _) H). Qed.

Lemma shift_gt p : (r < p)%nat -> shift r p = S p.
Proof. intros H. unfold shift. by rewrite (proj2 (Nat.leb_gt _ _) H). Qed.

Lemma around_tall i p : tall ns' i (shift r p) <-> tall ns i p.
Proof.
  destruct (decide (p <= r)%nat) as [H|H].
  - rewrite shift_le by done. destruct p as [|p]; [done|]. cbn. by rewrite around_lt by lia.
  - rewrite shift_gt by lia. destruct p as [|p]; [lia|]. cbn -[lookup]. by rewrite around_gt by lia.
Qed.

Lemma around_tall_new i : tall ns' i (S r) <-> (i < e_h a)%nat.
Proof. cbn. rewrite around_eq. split; [by intros (e & [= <-] & H)|by exists a]. Qed.

Lemma around_pos p : (p <= length ns)%nat -> pos_loc hd ns' (shift r p) = pos_loc hd ns p.
Proof.
  intros Hp. destruct (decide (p <= r)%nat) as [H|H].
  - rewrite shift_le by done. destruct p as [|p]; [done|]. cbn. by rewrite around_lt by lia.
  - rewrite shift_gt by lia. destruct p as [|p]; [lia|]. cbn -[lookup]. by rewrite around_gt by lia.
Qed.

Lemma around_pos_new : pos_loc hd ns' (S r) = e_loc a.
Proof. cbn. by rewrite around_eq. Qed.

Lemma around_prev_le j : (j <= r)%nat -> prev_loc ns' j = prev_loc ns j.
Proof. intros Hj. destruct j as [|j]; [done|]. cbn [prev_loc]. by rewrite around_lt by lia. Qed.

Lemma around_prev_next : prev_loc ns' (S r) = Some (e_loc a).
Proof. cbn [prev_loc]. by rewrite around_eq. Qed.

Lemma around_prev_gt j : (r < j)%nat -> prev_loc ns' (S j) = prev_loc ns j.
Proof. intros Hj. destruct j as [|j]; [lia|]. cbn [prev_loc]. by rewrite around_gt by lia. Qed.

(** The entries of the new list, by case. *)
Lemma around_entries j e :
  ns' !! j = Some e ->
  ((j < r)%nat /\ ns !! j = Some e) \/ (j = r /\ e = a) \/ (exists p, j = S p /\ (r <= p)%nat /\ ns !! p = Some e).
Proof.
  intros He. destruct (lt_eq_lt_dec j r) as [[H| ->]|H].
  - left. by rewrite around_lt in He.
  - right; left. rewrite around_eq in He. by simplify_eq.
  - right; right. destruct j as [|p]; [lia|]. exists p. rewrite around_gt in He by lia. split; [done|]. split; [lia|done].
Qed.

(** Every position of the new list is an old one or the new one. *)
Lemma around_positions q :
  (q <= length ns')%nat -> q = S r \/ exists p, (p <= length ns)%nat /\ q = shift r p.
Proof.
  rewrite around_length. intros Hq. destruct (lt_eq_lt_dec q (S r)) as [[H| ->]|H]; [right|by left|right].
  - exists q. rewrite shift_le by lia. lia.
  - exists (q - 1)%nat. rewrite shift_gt by lia. lia.
Qed.

Lemma around_lastpos i : lastpos ns' i r = lastpos ns i r.
Proof.
  apply lastpos_eq; [apply lastpos_le| |].
  - pose proof (lastpos_le ns i r). rewrite <- (shift_le (lastpos ns i r)) by done. apply around_tall, lastpos_tall.
  - intros q Hq Ht. rewrite <- (shift_le q), around_tall in Ht by lia. pose proof (lastpos_max ns i r q ltac:(lia) Ht). lia.
Qed.

(** The next old position after the insertion point. *)
Lemma around_next i q :
  (q = lastpos ns i r \/ (r <= q <= length ns)%nat) ->
  let L := exp_level ns i q in
  (exists p, (r < p)%nat /\ (q < p)%nat /\ tall ns i p /\ (forall k, (q < k < p)%nat -> ~ tall ns i k) /\
     L = Level (Some (pos_loc hd ns p)) (Z.of_nat (p - q)) /\ (p <= length ns)%nat) \/
  ((forall k, (q < k)%nat -> ~ tall ns i k) /\ L = Level None (Z.of_nat (length ns - q))).
Proof.
  intros Hq L. destruct (exp_level_cases hd ns i q) as [(p & Hp & Ht & Hb & E)|[Hn E]]; [left|by right].
  exists p. split_and!; try done; try lia. destruct Hq as [->|Hq]; [|lia].
  destruct (decide (r < p)%nat) as [|H]; [done|]. exfalso.
  pose proof (lastpos_max ns i r p ltac:(lia) Ht). lia.
Qed.

(** Links that do not cross the insertion point are unchanged. *)
Lemma around_other i p :
  (p <= length ns)%nat -> tall ns i p -> p <> lastpos ns i r ->
  exp_level ns' i (shift r p) = exp_level ns i p.
Proof.
  intros Hp Ht Hne. destruct (exp_level_cases hd ns i p) as [(q & Hq & Htq & Hb & E)|[Hn E]]; rewrite E.
  - rewrite (exp_level_at hd ns' i (shift r p) (shift r q)).
    + rewrite around_pos by lia. f_equal. unfold shift. repeat case_match; rewrite ?Nat.leb_le, ?Nat.leb_gt in *; try lia.
      exfalso. apply Hne. symmetry. apply lastpos_eq; [lia|done|]. intros k Hk. apply Hb. lia.
    + unfold shift. repeat case_match; rewrite ?Nat.leb_le, ?Nat.leb_gt in *; lia.
    + by apply around_tall.
    + intros k Hk Htk. destruct (around_positions k) as [->|(k0 & Hk0 & ->)].
      { rewrite around_length. unfold shift in Hk. repeat case_match; lia. }
      * apply Hne. symmetry. apply lastpos_eq; [|done|].
        -- unfold shift in Hk. repeat case_match; rewrite ?Nat.leb_le, ?Nat.leb_gt in *; lia.
        -- intros k Hk'. apply Hb. unfold shift in Hk. repeat case_match; rewrite ?Nat.leb_le, ?Nat.leb_gt in *; lia.
      * apply around_tall in Htk. revert Htk. apply Hb. unfold shift in Hk. repeat case_match; rewrite ?Nat.leb_le, ?Nat.leb_gt in *; lia.
  - assert (r < p)%nat as Hrp.
    { destruct (decide (r < p)%nat) as [|H]; [done|]. exfalso. apply Hne. symmetry.
      apply lastpos_eq; [lia|done|]. intros k Hk. apply Hn. lia. }
    rewrite shift_gt by done. rewrite exp_level_end.
    + by rewrite around_length.
    + intros [|k] Hk; [lia|]. rewrite <- (shift_gt k) by lia. rewrite around_tall. apply Hn. lia.
Qed.

(** The link into the new node. *)
Lemma around_into i :
  (i < e_h a)%nat ->
  exp_level ns' i (lastpos ns i r) = Level (Some (e_loc a)) (Z.of_nat r - Z.of_nat (lastpos ns i r) + 1).
Proof.
  intros Hi. pose proof (lastpos_le ns i r). rewrite (exp_level_at hd ns' i _ (S r)); [|lia|by apply around_tall_new|].
  - rewrite around_pos_new. f_equal. lia.
  - intros k Hk Ht. rewrite <- (shift_le k), around_tall in Ht by lia.
    pose proof (lastpos_max ns i r k ltac:(lia) Ht). lia.
Qed.

(** No position of the new list lies between the insertion point and the
    images of two old ones. *)
Lemma around_gap i q p :
  (r <= q)%nat -> (forall k, (q < k < p)%nat -> ~ tall ns i k) -> forall k, (S q < k < S p)%nat -> ~ tall ns' i k.
Proof. intros Hq Hb [|k] Hk; [lia|]. rewrite <- (shift_gt k), around_tall by lia. apply Hb. lia. Qed.

(** The link out of the new node. *)
Lemma around_out i :
  let L := exp_level ns i (lastpos ns i r) in
  exp_level ns' i (S r) = Level (forward L) (span L - (Z.of_nat r - Z.of_nat (lastpos ns i r))).
Proof.
  intros L. pose proof (lastpos_le ns i r). destruct (around_next i (lastpos ns i r)) as [(p & Hrp & _ & Ht & Hb & E & Hp)|[Hn E]]; [by left| |].
  - unfold L. rewrite E. cbn [forward span]. rewrite (exp_level_at hd ns' i (S r) (S p)); [|lia| |].
    + rewrite <- (shift_gt p), around_pos by lia. f_equal. rewrite shift_gt; lia.
    + rewrite <- (shift_gt p), around_tall; done.
    + apply around_gap; [done|]. intros k Hk. apply Hb. lia.
  - unfold L. rewrite E. cbn [forward span]. rewrite exp_level_end, around_length; [f_equal; lia|].
    intros [|k] Hk; [lia|]. rewrite <- (shift_gt k), around_tall by lia. apply Hn. lia.
Qed.

(** A link that passes over the new node. *)
Lemma around_over i :
  (e_h a <= i)%nat ->
  let L := exp_level ns i (lastpos ns i r) in
  exp_level ns' i (lastpos ns i r) = Level (forward L) (span L + 1).
Proof.
  intros Hi L. pose proof (lastpos_le ns i r) as Hle.
  assert (forall k, (lastpos ns i r < k <= S r)%nat -> ~ tall ns' i k) as Hgap.
  { intros k Hk Ht. destruct (decide (k = S r)) as [->|]; [apply around_tall_new in Ht; lia|].
    rewrite <- (shift_le k), around_tall in Ht by lia. pose proof (lastpos_max ns i r k ltac:(lia) Ht). lia. }
  destruct (around_next i (lastpos ns i r)) as [(p & Hrp & _ & Ht & Hb & E & Hp)|[Hn E]]; [by left| |].
  - unfold L. rewrite E. cbn [forward span]. rewrite (exp_level_at hd ns' i _ (S p)); [|lia| |].
    + rewrite <- (shift_gt p), around_pos by lia. f_equal. rewrite shift_gt; lia.
    + rewrite <- (shift_gt p), around_tall; done.
    + intros k Hk. destruct (decide (k <= S r)%nat); [apply Hgap; lia|].
      apply (around_gap i r p); [done|intros k' Hk'; apply Hb; lia|lia].
  - unfold L. rewrite E. cbn [forward span]. rewrite exp_level_end, around_length; [f_equal; lia|].
    intros k Hk. destruct (decide (k <= S r)%nat); [apply Hgap; lia|].
    destruct k as [|k]; [lia|]. rewrite <- (shift_gt k), around_tall by lia. apply Hn. lia.
Qed.
End Around.

Lemma pos_loc_lookup hd ns j : (j <= length ns)%nat -> (hd :: map e_loc ns) !! j = Some (pos_loc hd ns j).
Proof.
  destruct j as [|j]; [done|]. intros Hj. change (map e_loc ns !! j = Some (pos_loc hd ns (S j))).
  destruct (lookup_lt_is_Some_2 ns j) as [e He]; [lia|]. cbn [pos_loc]. by rewrite list_lookup_fmap, He.
Qed.

Lemma pos_loc_inj hd ns j k :
  NoDup (hd :: map e_loc ns) -> (j <= length ns)%nat -> (k <= length ns)%nat ->
  pos_loc hd ns j = pos_loc hd ns k -> j = k.
Proof. intros Hnd Hj Hk E. eapply NoDup_lookup; [done|by apply pos_loc_lookup|]. rewrite E. by apply pos_loc_lookup. Qed.

(** The arrays [update] and [rank] of a search that stops at [r]. *)
Definition update_at (hd : loc) (ns : list entry) (r zl : nat) : list (loc * Z) :=
  map (fun i => (pos_loc hd ns (lastpos ns i r), Z.of_nat (lastpos ns i r))) (seq 0 zl).

Lemma update_at_lookup hd ns r zl i :
  (i < zl)%nat -> update_at hd ns r zl !! i = Some (pos_loc hd ns (lastpos ns i r), Z.of_nat (lastpos ns i r)).
Proof. intros Hi. unfold update_at. by rewrite list_lookup_fmap, lookup_seq_lt by done. Qed.

(** All cells of the levels from [lo] to [zl] are those of [ns]. *)
Definition cells (m : heap) (hd : loc) (ns : list entry) (lo zl : nat) : Prop :=
  forall i j, (lo <= i < zl)%nat -> (j <= length ns)%nat -> tall ns i j ->
    load_level m (pos_loc hd ns j) i = Ret (exp_level ns i j).

Lemma layout_cells z ns : layout z ns -> cells (mem z) (header z) ns 0 (zlevel z).
Proof. intros Hly i j Hi Hj Ht. apply load_level_pos; [done..|lia]. Qed.

Section Splice.
Context (hd : loc) (ns : list entry) (r zl : nat) (a : entry).
Hypothesis Hr : (r <= length ns)%nat.
Hypothesis Hnd : NoDup (hd :: e_loc a :: map e_loc ns).
Hypothesis Hlev : (e_h a <= zl)%nat.

Let ns' := take r ns ++ a :: drop r ns.
Let P i := lastpos ns i r.
Let U i := pos_loc hd ns (P i).

Lemma splice_nodup : NoDup (hd :: map e_loc ns).
Proof using Hnd. clear -Hnd. apply NoDup_cons in Hnd as [H1 H2]. apply NoDup_cons in H2 as [H2 H3]. apply NoDup_cons. set_solver. Qed.

Lemma splice_fresh j : (j <= length ns)%nat -> pos_loc hd ns j <> e_loc a.
Proof using Hnd.
  clear -Hnd. intros Hj E. pose proof (list_elem_of_lookup_2 _ _ _ (pos_loc_lookup hd ns j Hj)) as Hin. rewrite E in Hin.
  apply NoDup_cons in Hnd as [H1 H2]. apply NoDup_cons in H2 as [H2 H3]. set_solver.
Qed.

Lemma splice_P i : (P i <= length ns)%nat.
Proof. pose proof (lastpos_le ns i r). unfold P. lia. Qed.

Definition new_link (i : nat) (w : loc) : option zskiplistLevel :=
  if decide (w = U i) then Some (exp_level ns' i (P i))
  else if decide (w = e_loc a) then Some (exp_level ns' i (S r)) else None.

Definition new_span (i : nat) (w : loc) : option zskiplistLevel :=
  if decide (w = U i) then Some (exp_level ns' i (P i)) else None.

Lemma link_loop_spec m :
  cells m hd ns 0 zl -> (forall i, (i < e_h a)%nat -> exists l, load_level m (e_loc a) i = Ret l) ->
  exists m', link_loop m (e_loc a) (update_at hd ns r zl) (Z.of_nat r) (seq 0 (e_h a)) = Ret m' /\
    (forall w, shape_of m' w = shape_of m w) /\
    (forall w k, load_level m' w k = if decide (k ∈ seq 0 (e_h a)) then from_option Ret (load_level m w k) (new_link k w)
                                      else load_level m w k).
Proof.
  intros Hc Hx. apply (for_levels_spec _ new_link m); [apply NoDup_seq|].
  intros i m1 Hi Hsh Hld. apply elem_of_seq in Hi.
  rewrite update_at_lookup by lia. cbn [of_option mbind res_bind]. fold (P i). fold (U i).
  assert (load_level m (U i) i = Ret (exp_level ns i (P i))) as Hm.
  { apply Hc; [lia|apply splice_P|apply lastpos_tall]. }
  rewrite Hld, Hm. cbn [mbind res_bind].
  destruct (Hx i) as (l & Hl); [lia|]. rewrite <- Hld in Hl.
  pose proof (around_out ns r a hd Hr i) as Eo. cbn in Eo. fold (P i) in Eo. rewrite <- Eo.
  pose proof (around_into ns r a hd Hr i) as Ei. fold (P i) in Ei. rewrite <- Ei by lia. fold ns'.
  destruct (store_level_spec m1 (e_loc a) i l (exp_level ns' i (S r)) Hl) as (m2 & -> & Hsh2 & Hld2).
  cbn [mbind res_bind]. assert (U i <> e_loc a) as Hne by apply splice_fresh, splice_P.
  assert (load_level m2 (U i) i = Ret (exp_level ns i (P i))) as Hu.
  { rewrite Hld2, decide_False by naive_solver. by rewrite Hld. }
  destruct (store_level_spec m2 (U i) i _ (exp_level ns' i (P i)) Hu) as (m3 & -> & Hsh3 & Hld3).
  exists m3. split; [done|]. split; [intros w; by rewrite Hsh3, Hsh2|].
  intros w k. rewrite Hld3, Hld2. unfold new_link. repeat case_decide; naive_solver.
Qed.

Lemma grow_loop_spec m :
  cells m hd ns (e_h a) zl ->
  exists m', grow_loop m (update_at hd ns r zl) (seq (e_h a) (zl - e_h a)) = Ret m' /\
    (forall w, shape_of m' w = shape_of m w) /\
    (forall w k, load_level m' w k = if decide (k ∈ seq (e_h a) (zl - e_h a))
                                      then from_option Ret (load_level m w k) (new_span k w) else load_level m w k).
Proof.
  intros Hc. apply (for_levels_spec _ new_span m); [apply NoDup_seq|].
  intros i m1 Hi Hsh Hld. apply elem_of_seq in Hi.
  rewrite update_at_lookup by lia. cbn [of_option mbind res_bind]. fold (P i). fold (U i).
  assert (load_level m1 (U i) i = Ret (exp_level ns i (P i))) as Hu.
  { rewrite Hld. apply Hc; [lia|apply splice_P|apply lastpos_tall]. }
  rewrite Hu. cbn [mbind res_bind].
  pose proof (around_over ns r a hd Hr i) as Eo. cbn in Eo. fold (P i) in Eo. rewrite <- Eo by lia. fold ns'.
  destruct (store_level_spec m1 (U i) i _ (exp_level ns' i (P i)) Hu) as (m3 & -> & Hsh3 & Hld3).
  exists m3. split; [done|]. split; [done|].
  intros w k. rewrite Hld3. unfold new_span. repeat case_decide; naive_solver.
Qed.

(** The two loops together produce the cells of the new list. *)
Lemma splice_cells m :
  cells m hd ns 0 zl -> (forall i, (i < e_h a)%nat -> exists l, load_level m (e_loc a) i = Ret l) ->
  exists m' m'', link_loop m (e_loc a) (update_at hd ns r zl) (Z.of_nat r) (seq 0 (e_h a)) = Ret m' /\
    grow_loop m' (update_at hd ns r zl) (seq (e_h a) (zl - e_h a)) = Ret m'' /\
    (forall w, shape_of m'' w = shape_of m w) /\ cells m'' hd ns' 0 zl /\
    (forall w i, (zl <= i)%nat -> load_level m'' w i = load_level m w i).
Proof.
  intros Hc Hx. unfold ns'. destruct (link_loop_spec m Hc Hx) as (m1 & H1 & Hsh1 & Hld1). exists m1.
  assert (cells m1 hd ns (e_h a) zl) as Hc1.
  { intros i j Hi Hj Ht. rewrite Hld1, decide_False by (rewrite elem_of_seq; lia). apply Hc; [lia|done..]. }
  destruct (grow_loop_spec m1 Hc1) as (m2 & H2 & Hsh2 & Hld2). exists m2.
  split_and!; [done|done|intros w; by rewrite Hsh2| |].
  2:{ intros w i Hi. by rewrite Hld2, Hld1, !decide_False by (rewrite elem_of_seq; lia). }
  intros i q Hi Hq Ht. rewrite Hld2, Hld1. unfold new_link, new_span, ns'.
  destruct (around_positions ns r a Hr q Hq) as [->|(p & Hp & ->)].
  - apply around_tall_new in Ht; [|done]. rewrite around_pos_new by done.
    rewrite decide_False by (rewrite elem_of_seq; lia). rewrite decide_True by (rewrite elem_of_seq; lia).
    pose proof (splice_fresh (P i) (splice_P i)). rewrite decide_False by (unfold U; done). by rewrite decide_True by done.
  - apply around_tall in Ht; [|done]. rewrite (around_pos ns r a hd Hr) by done. pose proof (splice_fresh p Hp).
    destruct (decide (p = P i)) as [->|Hne].
    + pose proof (lastpos_le ns i r). rewrite shift_le by done. fold (U i) in *. rewrite !(decide_True (P := U i = U i)) by done.
      cbn [from_option]. destruct (decide (i < e_h a)%nat).
      * rewrite decide_False by (rewrite elem_of_seq; lia). by rewrite decide_True by (rewrite elem_of_seq; lia).
      * by rewrite decide_True by (rewrite elem_of_seq; lia).
    + assert (pos_loc hd ns p <> U i) as Hnu.
      { intros E. apply Hne. eapply pos_loc_inj; [apply splice_nodup|done|apply splice_P|done]. }
      rewrite !(decide_False (P := pos_loc hd ns p = U i)), !(decide_False (P := pos_loc hd ns p = e_loc a)) by done.
      unfold ns'. rewrite (around_other ns r a hd Hr) by done. cbn [from_option]. rewrite Hc by (done || lia).
      by repeat case_decide.
Qed.

(** One iteration of the unlinking loop writes the link of the old list. *)
Lemma unlink_step m i :
  load_level m (U i) i = Ret (exp_level ns' i (P i)) ->
  ((i < e_h a)%nat -> load_level m (e_loc a) i = Ret (exp_level ns' i (S r))) ->
  (l ← load_level m (U i) i;
   if bool_decide (forward l = Some (e_loc a)) then
     lx ← load_level m (e_loc a) i;
     store_level m (U i) i (Level (forward lx) (span l + (span lx - 1)))
   else store_level m (U i) i (Level (forward l) (span l - 1)))
  = store_level m (U i) i (exp_level ns i (P i)).
Proof.
  intros Hu Hx. rewrite Hu. cbn [mbind res_bind]. unfold ns', P in *. destruct (decide (i < e_h a)%nat) as [Hi|Hi].
  - rewrite (around_into ns r a hd Hr i Hi). cbn [forward span]. rewrite bool_decide_eq_true_2 by done.
    rewrite Hx by done. cbn [mbind res_bind]. rewrite (around_out ns r a hd Hr i). cbn [forward span].
    f_equal. destruct (exp_level ns i _) as [fw sp]. cbn [forward span]. f_equal. lia.
  - rewrite (around_over ns r a hd Hr i) by lia. cbn [forward span]. rewrite bool_decide_eq_false_2.
    + f_equal. destruct (exp_level ns i _) as [fw sp]. cbn [forward span]. f_equal. lia.
    + destruct (exp_level_cases hd ns i (lastpos ns i r)) as [(p & Hp & _ & _ & ->)|[_ ->]]; cbn [forward]; [|done].
      intros [= E]. by apply (splice_fresh p) in E; [|lia].
Qed.

Lemma splice_pos_P i : pos_loc hd ns' (P i) = U i.
Proof.
  unfold U, ns'. pose proof (lastpos_le ns i r). rewrite <- (shift_le r (P i)) at 1 by done.
  apply around_pos; [done|apply splice_P].
Qed.

Lemma splice_cell_P m i : cells m hd ns' 0 zl -> (i < zl)%nat -> load_level m (U i) i = Ret (exp_level ns' i (P i)).
Proof.
  intros Hc Hi. pose proof (lastpos_le ns i r). rewrite <- splice_pos_P. apply Hc; [lia| |].
  - unfold ns'. rewrite around_length by done. pose proof (splice_P i). lia.
  - rewrite <- (shift_le r (P i)) by done. apply around_tall; [done|]. apply lastpos_tall.
Qed.

(** The unlinking loop undoes the splice; the removed node keeps its cells. *)
Lemma unlink_loop_spec m up :
  cells m hd ns' 0 zl -> (forall i, (i < zl)%nat -> up !! i = Some (U i, Z.of_nat (P i))) ->
  exists m', unlink_loop m (e_loc a) up (seq 0 zl) = Ret m' /\
    (forall w, shape_of m' w = shape_of m w) /\ cells m' hd ns 0 zl /\
    (forall i, load_level m' (e_loc a) i = load_level m (e_loc a) i) /\
    (forall w i, (zl <= i)%nat -> load_level m' w i = load_level m w i).
Proof.
  intros Hc Hup. set (old i w := if decide (w = U i) then Some (exp_level ns i (P i)) else None).
  unfold unlink_loop. match goal with |- context [for_levels _ ?body m] =>
    destruct (for_levels_spec body old m (seq 0 zl)) as (m' & -> & Hsh & Hld) end; [apply NoDup_seq| |].
  - intros i m1 Hi Hsh Hld. apply elem_of_seq in Hi. cbv beta.
    assert (load_level m1 (U i) i = Ret (exp_level ns' i (P i))) as Hu.
    { rewrite Hld. apply splice_cell_P; [done|lia]. }
    assert ((i < e_h a)%nat -> load_level m1 (e_loc a) i = Ret (exp_level ns' i (S r))) as Hx.
    { intros Hi'. rewrite Hld, <- (around_pos_new ns r a hd Hr). apply Hc; [lia| |by apply around_tall_new].
      unfold ns'. rewrite around_length; lia. }
    rewrite Hup by lia. cbn [of_option mbind res_bind].
    rewrite (unlink_step m1 i Hu Hx).
    destruct (store_level_spec m1 (U i) i _ (exp_level ns i (P i)) Hu) as (m3 & -> & Hsh3 & Hld3).
    exists m3. split; [done|]. split; [done|]. intros w k. rewrite Hld3. unfold old. repeat case_decide; naive_solver.
  - exists m'. split_and!; [done|done| | |].
    + intros i p Hi Hp Ht. rewrite Hld, decide_True by (rewrite elem_of_seq; lia). unfold old. case_decide as E.
      * assert (p = P i) as -> by (eapply pos_loc_inj; [apply splice_nodup|done|apply splice_P|done]). done.
      * cbn [from_option]. rewrite <- (around_pos ns r a hd Hr) by done. fold ns'. rewrite Hc; [|lia| |by apply around_tall].
        -- unfold ns'. rewrite (around_other ns r a hd Hr); [done|done|done|]. intros ->. done.
        -- unfold ns', shift. rewrite around_length by done. case_match; lia.
    + intros i. rewrite Hld. unfold old. pose proof (splice_fresh (P i) (splice_P i)).
      rewrite (decide_False (P := e_loc a = U i)) by (unfold U; congruence). by case_decide.
    + intros w i Hi. by rewrite Hld, decide_False by (rewrite elem_of_seq; lia).
Qed.
End Splice.

(** ** Insertion *)

Lemma high_levels_empty ns zl i j :
  Forall (fun e => 1 <= e_h e <= zl)%nat ns -> (zl <= i)%nat -> (0 < j)%nat -> ~ tall ns i j.
Proof.
  intros Hh Hi Hj. destruct j as [|j]; [lia|]. intros (e & He & Hlt). rewrite Forall_lookup in Hh.
  specialize (Hh _ _ He). simpl in Hh. lia.
Qed.

Lemma high_lastpos ns zl i r : Forall (fun e => 1 <= e_h e <= zl)%nat ns -> (zl <= i)%nat -> lastpos ns i r = 0%nat.
Proof.
  intros Hh Hi. apply lastpos_eq; [lia|done|]. intros p Hp. eapply high_levels_empty; [done|done|lia].
Qed.

Lemma high_exp_level ns zl i :
  Forall (fun e => 1 <= e_h e <= zl)%nat ns -> (zl <= i)%nat -> exp_level ns i 0 = Level None (Z.of_nat (length ns)).
Proof.
  intros Hh Hi. rewrite exp_level_end; [by rewrite Nat.sub_0_r|]. intros q Hq. by eapply high_levels_empty.
Qed.

(** Raising the level of the list, with links to nowhere. *)
Lemma raise_loop_spec z ns lev :
  layout z ns -> (zlevel z <= lev <= ZSKIPLIST_MAXLEVEL)%nat ->
  exists m, raise_loop (mem z) (header z) (zlength z) (seq (zlevel z) (lev - zlevel z)) = Ret m /\
    (forall w, shape_of m w = shape_of (mem z) w) /\
    layout (Skiplist (header z) (tail z) (zlength z) lev m) ns.
Proof.
  intros Hly Hlev. pose proof (ly_heights _ _ Hly) as Hh. set (new i w := if decide (w = header z) then Some (exp_level ns i 0) else None).
  unfold raise_loop. match goal with |- context [for_levels _ ?body ?m] =>
    destruct (for_levels_spec body new m (seq (zlevel z) (lev - zlevel z))) as (m' & -> & Hsh & Hld) end; [apply NoDup_seq| |].
  - intros i m Hi Hsh Hld. apply elem_of_seq in Hi.
    destruct (load_level_shape (mem z) (header z) i _ (layout_header_shape _ _ Hly)) as [l Hl]; [cbn [snd]; lia|].
    rewrite Hld, Hl. cbn [mbind res_bind]. rewrite (layout_top _ _ i l Hly) by (done || lia).
    rewrite <- Hld in Hl. rewrite (ly_length _ _ Hly), <- (high_exp_level ns (zlevel z) i) by (done || lia).
    destruct (store_level_spec m (header z) i l (exp_level ns i 0) Hl) as (m3 & -> & Hsh3 & Hld3).
    exists m3. split; [done|]. split; [done|]. intros w k. rewrite Hld3. unfold new. repeat case_decide; naive_solver.
  - exists m'. split; [done|]. split; [done|]. pose proof (ly_level _ _ Hly).
    apply layout_intro; cbn [header tail zlength zlevel mem]; try apply Hly; [| | | |lia|].
    + intros j e He. rewrite Hsh. by apply layout_shape.
    + rewrite Hsh. by eapply layout_header_shape.
    + intros i j Hi Hj Ht. rewrite Hld. destruct (decide (i < zlevel z)%nat).
      * rewrite decide_False by (rewrite elem_of_seq; lia). by apply load_level_pos.
      * rewrite decide_True by (rewrite elem_of_seq; lia). unfold new. destruct j as [|j].
        -- by rewrite decide_True.
        -- exfalso. eapply (high_levels_empty ns (zlevel z) i (S j)); [done|lia|lia|done].
    + intros i l Hi. rewrite Hld, decide_False by (rewrite elem_of_seq; lia). apply (layout_top _ _ _ _ Hly). lia.
    + eapply Forall_impl; [done|]. simpl. lia.
Qed.

Lemma update_at_raise hd ns r zl lev :
  Forall (fun e => 1 <= e_h e <= zl)%nat ns -> (zl <= lev)%nat ->
  update_at hd ns r zl ++ repeat (hd, 0) (lev - zl) = update_at hd ns r lev.
Proof.
  intros Hh Hlev. unfold update_at. replace lev with (zl + (lev - zl))%nat at 2 by lia.
  rewrite seq_app, map_app. f_equal. cbn. generalize (lev - zl)%nat as d. intros d.
  assert (forall k, (zl <= k)%nat -> repeat (hd, 0) d =
    map (fun i => (pos_loc hd ns (lastpos ns i r), Z.of_nat (lastpos ns i r))) (seq k d)) as H.
  { induction d as [|d IH]; intros k Hk; [done|]. cbn. rewrite <- IH by lia. by rewrite (high_lastpos ns zl). }
  by apply H.
Qed.

Lemma prev_of_pos hd ns r :
  NoDup (hd :: map e_loc ns) -> (r <= length ns)%nat ->
  (if bool_decide (pos_loc hd ns r = hd) then None else Some (pos_loc hd ns r)) = prev_loc ns r.
Proof.
  intros Hnd Hr. destruct r as [|r]; [by rewrite bool_decide_eq_true_2|].
  rewrite bool_decide_eq_false_2.
  - destruct (lookup_lt_is_Some_2 ns r) as [e He]; [lia|]. cbn. by rewrite He.
  - intros E. apply (pos_loc_inj hd ns (S r) 0 Hnd) in E; lia.
Qed.

Lemma entry_loc_inj hd ns j k e f :
  NoDup (hd :: map e_loc ns) -> ns !! j = Some e -> ns !! k = Some f -> e_loc e = e_loc f -> j = k.
Proof.
  intros Hnd He Hf E. pose proof (lookup_lt_Some _ _ _ He). pose proof (lookup_lt_Some _ _ _ Hf).
  assert (S j = S k); [|lia]. eapply (pos_loc_inj hd ns); [done|lia|lia|]. cbn. by rewrite He, Hf.
Qed.

Lemma last_around (ns : list entry) r a :
  (r <= length ns)%nat ->
  last (take r ns ++ a :: drop r ns) = match ns !! r with Some _ => last ns | None => Some a end.
Proof.
  intros Hr. rewrite last_app_cons. destruct (ns !! r) as [f|] eqn:E.
  - rewrite <- (take_drop r ns) at 2. rewrite (drop_S _ _ _ E). rewrite last_app_cons. by rewrite last_cons_cons.
  - apply lookup_ge_None in E. by rewrite drop_ge.
Qed.

Section LinkNode.
Context (z : zskiplist) (ns : list entry) (r : nat) (a : entry) (junk : zskiplistLevel).
Hypothesis Hly : layout z ns.
Hypothesis Hr : (r <= length ns)%nat.
Hypothesis Hnd : NoDup (header z :: e_loc a :: map e_loc ns).
Hypothesis Hlev : (1 <= e_h a <= zlevel z)%nat.

Let ns' := take r ns ++ a :: drop r ns.
Let m0 := <[e_loc a := zslCreateNode (e_h a) (e_score a) (Some (e_ele a)) junk]> (mem z).

Lemma link_fresh_loads w i : w <> e_loc a -> load_level m0 w i = load_level (mem z) w i.
Proof. intros Hw. unfold m0, load_level, node_at. by rewrite lookup_insert_ne. Qed.

Lemma link_fresh_shapes w :
  shape_of m0 w = if decide (w = e_loc a) then Some (Some (e_ele a), e_score a, None, e_h a) else shape_of (mem z) w.
Proof.
  unfold m0, shape_of. case_decide as E; [subst; rewrite lookup_insert_eq|by rewrite lookup_insert_ne].
  cbn. unfold shape, zslCreateNode. cbn. by rewrite repeat_length.
Qed.

(** The shapes after the two backward pointers have been set. *)
Lemma link_shapes m :
  (forall w, shape_of m w = if decide (w = e_loc a) then Some (Some (e_ele a), e_score a, prev_loc ns r, e_h a)
     else if decide (Some w = e_loc <$> ns !! r) then (fun n => (n.1.1, Some (e_loc a), n.2)) <$> shape_of (mem z) w
     else shape_of (mem z) w) ->
  (forall j e, ns' !! j = Some e -> shape_of m (e_loc e) = Some (Some (e_ele e), e_score e, prev_loc ns' j, e_h e)) /\
  shape_of m (header z) = Some (None, f_of_Z 0, None, ZSKIPLIST_MAXLEVEL).
Proof.
  intros Hm. pose proof (splice_nodup _ _ _ Hnd) as Hnd'.
  assert (forall p e, ns !! p = Some e -> e_loc e <> e_loc a) as Hfresh.
  { intros p e He. pose proof (splice_fresh (header z) ns a Hnd (S p)) as Hf. cbn [pos_loc] in Hf. rewrite He in Hf.
    apply Hf. by apply lookup_lt_Some in He. }
  split.
  - intros j e He. rewrite Hm. destruct (around_entries ns r a Hr j e He) as [[Hj Hj']|[[-> ->]|(p & -> & Hp & Hp')]].
    + rewrite decide_False by (by eapply Hfresh). rewrite decide_False.
      * unfold ns'. rewrite around_prev_le by lia. by apply layout_shape.
      * destruct (ns !! r) as [f|] eqn:Ef; [|done]. intros [= E]. pose proof (entry_loc_inj _ _ _ _ _ _ Hnd' Hj' Ef E). lia.
    + rewrite decide_True by done. unfold ns'. by rewrite around_prev_le by lia.
    + rewrite decide_False by (by eapply Hfresh). destruct (decide (p = r)) as [->|Hne].
      * rewrite Hp'. cbn [fmap option_fmap option_map]. rewrite decide_True by done.
        rewrite (layout_shape _ _ _ _ Hly Hp'). unfold ns'. by rewrite around_prev_next.
      * rewrite decide_False.
        -- unfold ns'. rewrite around_prev_gt by lia. by apply layout_shape.
        -- destruct (ns !! r) as [f|] eqn:Ef; [|done]. intros [= E]. pose proof (entry_loc_inj _ _ _ _ _ _ Hnd' Hp' Ef E). lia.
  - rewrite Hm. rewrite decide_False, decide_False; [by eapply layout_header_shape| |].
    + destruct (ns !! r) as [f|] eqn:Ef; [|done]. intros [= E]. pose proof (lookup_lt_Some _ _ _ Ef).
      assert (0%nat = S r); [|done]. eapply (pos_loc_inj (header z) ns); [done|lia|lia|]. cbn. by rewrite Ef.
    + apply NoDup_cons in Hnd as [Hn _]. set_solver.
Qed.

Lemma link_layout m tl :
  cells m (header z) ns' 0 (zlevel z) ->
  (forall i, (zlevel z <= i)%nat -> load_level m (header z) i = load_level (mem z) (header z) i) ->
  (forall w, shape_of m w = if decide (w = e_loc a) then Some (Some (e_ele a), e_score a, prev_loc ns r, e_h a)
     else if decide (Some w = e_loc <$> ns !! r) then (fun n => (n.1.1, Some (e_loc a), n.2)) <$> shape_of (mem z) w
     else shape_of (mem z) w) ->
  tl = e_loc <$> last ns' ->
  layout (Skiplist (header z) tl (zlength z + 1) (zlevel z) m) ns'.
Proof.
  intros Hc Htop Hsh Htl. destruct (link_shapes m Hsh) as [Hs1 Hs2].
  apply layout_intro; cbn [header tail zlength zlevel mem]; try done.
  - unfold ns'. rewrite <- (Permutation_middle (take r ns) (drop r ns) a), take_drop. done.
  - intros i j Hi Hj Ht. apply Hc; [lia|done..].
  - intros i l Hi. rewrite Htop by done. by apply (layout_top _ _ _ _ Hly).
  - rewrite (ly_length _ _ Hly). unfold ns'. rewrite around_length by done. lia.
  - apply (ly_level _ _ Hly).
  - unfold ns'. rewrite <- (Permutation_middle (take r ns) (drop r ns) a), take_drop. constructor; [done|]. apply (ly_heights _ _ Hly).
Qed.

(** The end of [zslInsert], from the splice on. *)
Lemma link_node_spec :
  exists z',
  (m ← link_loop m0 (e_loc a) (update_at (header z) ns r (zlevel z)) (Z.of_nat r) (seq 0 (e_h a));
   m ← grow_loop m (update_at (header z) ns r (zlevel z)) (seq (e_h a) (zlevel z - e_h a));
   m ← store_backward m (e_loc a)
         (if bool_decide (pos_loc (header z) ns r = header z) then None else Some (pos_loc (header z) ns r));
   l ← load_level m (e_loc a) 0;
   match forward l with
   | Some f => m ← store_backward m f (Some (e_loc a));
               Ret (Skiplist (header z) (tail z) (zlength z + 1) (zlevel z) m)
   | None => Ret (Skiplist (header z) (Some (e_loc a)) (zlength z + 1) (zlevel z) m)
   end) = Ret z' /\ header z' = header z /\ layout z' ns'.
Proof.
  pose proof (splice_nodup _ _ _ Hnd) as Hnd'. pose proof (layout_heights _ _ Hly) as Hh.
  destruct (splice_cells (header z) ns r (zlevel z) a Hr Hnd ltac:(lia) m0) as (m1 & m2 & -> & E2 & Hsh2 & Hc2 & Htop2).
  { intros i j Hi Hj Ht. rewrite link_fresh_loads by by apply splice_fresh. apply load_level_pos; [done..|lia]. }
  { intros i Hi. eapply load_level_shape; [rewrite link_fresh_shapes; by rewrite decide_True|done]. }
  cbn [mbind res_bind]. rewrite E2. cbn [mbind res_bind]. rewrite prev_of_pos by done.
  assert (shape_of m2 (e_loc a) = Some (Some (e_ele a), e_score a, None, e_h a)) as Hx.
  { by rewrite Hsh2, link_fresh_shapes, decide_True. }
  destruct (store_backward_spec m2 (e_loc a) _ (prev_loc ns r) Hx) as (m3 & -> & Hld3 & Hsh3). cbn [mbind res_bind].
  assert (load_level m3 (e_loc a) 0 = Ret (exp_level ns' 0 (S r))) as ->.
  { rewrite Hld3. rewrite <- (around_pos_new ns r a (header z) Hr). apply Hc2; [lia| |].
    - rewrite around_length; lia.
    - apply around_tall_new; [done|lia]. }
  cbn [mbind res_bind]. assert (Forall (fun e => 1 <= e_h e)%nat ns') as Hh'.
  { unfold ns'. rewrite <- (Permutation_middle (take r ns) (drop r ns) a), take_drop. constructor; [lia|done]. }
  rewrite (bottom_forward ns' _ Hh'). unfold ns' at 1. rewrite around_gt by (done || lia).
  destruct (ns !! r) as [f|] eqn:Ef; cbn [fmap option_fmap option_map].
  - assert (e_loc f <> e_loc a) as Hfa.
    { pose proof (splice_fresh (header z) ns a Hnd (S r)) as Hf. cbn [pos_loc] in Hf. rewrite Ef in Hf.
      apply Hf. by apply lookup_lt_Some in Ef. }
    pose proof (layout_shape _ _ _ _ Hly Ef) as Hshf.
    destruct (store_backward_spec m3 (e_loc f) (Some (e_ele f), e_score f, prev_loc ns r, e_h f) (Some (e_loc a)))
      as (m4 & -> & Hld4 & Hsh4).
    { rewrite Hsh3, decide_False, Hsh2, link_fresh_shapes, decide_False by done. done. }
    cbn [mbind res_bind]. eexists. split; [done|]. split; [done|]. apply link_layout.
    + intros i j Hi Hj Ht. rewrite Hld4, Hld3. by apply Hc2.
    + intros i Hi. rewrite Hld4, Hld3, Htop2 by done. apply link_fresh_loads. apply (splice_fresh _ ns a Hnd 0). lia.
    + intros w. rewrite Hsh4, Hsh3, Hsh2, link_fresh_shapes, Ef. cbn [fmap option_fmap option_map].
      repeat case_decide; simplify_eq; try done. by rewrite Hshf.
    + unfold ns'. rewrite last_around, Ef by done. apply Hly.
  - eexists. split; [done|]. split; [done|]. apply link_layout.
    + intros i j Hi Hj Ht. rewrite Hld3. by apply Hc2.
    + intros i Hi. rewrite Hld3, Htop2 by done. apply link_fresh_loads. apply (splice_fresh _ ns a Hnd 0). lia.
    + intros w. rewrite Hsh3, Hsh2, link_fresh_shapes, Ef. cbn [fmap option_fmap option_map].
      by repeat case_decide.
    + unfold ns'. by rewrite last_around, Ef.
Qed.
End LinkNode.

(** The reference: insertion into a sorted list. *)
Fixpoint insert_entry (a : entry) (l : list entry) : list entry :=
  match l with
  | [] => [a]
  | b :: l' => if key_lt (e_key b) (e_ele b) (e_key a) (e_ele a) then b :: insert_entry a l' else a :: l
  end.

Lemma insert_entry_at a ns r :
  (r <= length ns)%nat ->
  (forall p b, ns !! p = Some b -> key_lt (e_key b) (e_ele b) (e_key a) (e_ele a) = bool_decide (S p <= r)%nat) ->
  insert_entry a ns = take r ns ++ a :: drop r ns.
Proof.
  revert r. induction ns as [|b ns IH]; intros r Hr Hk; [by rewrite take_nil, drop_nil|]. cbn [insert_entry].
  pose proof (Hk 0%nat b eq_refl) as Hb. rewrite Hb. case_bool_decide as H1; destruct r as [|r]; try lia; [|done].
  cbn. f_equal. apply IH; [cbn in Hr; lia|]. intros p c Hp. rewrite (Hk (S p) c Hp). apply bool_decide_ext. lia.
Qed.

Lemma elem_of_insert_entry a b ns : b ∈ insert_entry a ns <-> b = a \/ b ∈ ns.
Proof. induction ns as [|c ns IH]; cbn; [set_solver|]. case_match; set_solver. Qed.

Lemma insert_entry_sorted a ns :
  StronglySorted entry_lt ns -> (forall b, b ∈ ns -> ~ (e_key b = e_key a /\ e_ele b = e_ele a)) ->
  StronglySorted entry_lt (insert_entry a ns).
Proof.
  induction 1 as [|b ns Hs IH Hall]; intros Hne; cbn; [by repeat constructor|].
  rewrite Forall_forall in Hall. case_match eqn:E.
  - constructor; [apply IH; set_solver|]. apply Forall_forall. intros c [->|Hc]%elem_of_insert_entry; [done|by apply Hall].
  - assert (entry_lt a b) as Hab.
    { destruct (key_trichotomy (e_key a) (e_ele a) (e_key b) (e_ele b)) as [|[[H1 H2]|H]]; [done| |unfold entry_lt; congruence].
      exfalso. eapply (Hne b); [set_solver|done]. }
    constructor; [constructor; [done|by rewrite Forall_forall]|]. constructor; [done|]. apply Forall_forall. intros c Hc.
    eapply key_lt_trans; [done|]. by apply Hall.
Qed.

Lemma insert_scores a ns : scores_ok ns -> score_ok (e_score a) -> scores_ok (insert_entry a ns).
Proof. unfold scores_ok. rewrite !Forall_forall. intros Hns Ha b [->|Hb]%elem_of_insert_entry; auto. Qed.
Lemma sublist_scores ns ns' : ns' `sublist_of` ns -> scores_ok ns -> scores_ok ns'.
Proof. intros Hs Hok. unfold scores_ok in *. rewrite Forall_forall in *. intros a Ha. apply Hok. by eapply elem_of_sublist. Qed.

Lemma zslInsert_layout z ns sc e x lev junk :
  skiplist_repr z ns -> score_ok sc -> x ∉ header z :: map e_loc ns -> (1 <= lev <= ZSKIPLIST_MAXLEVEL)%nat ->
  exists z', zslInsert z sc e x lev junk = Ret z' /\ header z' = header z /\
    layout z' (insert_entry (Entry x sc e lev) ns).
Proof.
  intros [Hly Hs Hok] Hsc Hx Hlev. set (a := Entry x sc e lev).
  destruct (cuts_before ns sc e Hs Hok Hsc) as (r & Hc & Hk). destruct (descend_bottom _ _ _ _ Hly Hc) as (up & Hd & Hup & _).
  fold (update_at (header z) ns r (zlevel z)) in Hup. subst up. pose proof Hc as [Hr _].
  rewrite (insert_entry_at a ns r Hr Hk). unfold zslInsert. rewrite Hd. cbn [mbind res_bind].
  assert (NoDup (header z :: e_loc a :: map e_loc ns)) as Hnd.
  { pose proof (ly_nodup _ _ Hly) as Hnd. apply NoDup_cons in Hnd as [H1 H2]. cbn. repeat (apply NoDup_cons; split); set_solver. }
  pose proof (ly_level _ _ Hly). assert (exists m z1, layout z1 ns /\ header z1 = header z /\ tail z1 = tail z /\ zlength z1 = zlength z /\
    zlevel z1 = (if (zlevel z <? lev)%nat then lev else zlevel z) /\ mem z1 = m /\
    (if (zlevel z <? lev)%nat then
       m ← raise_loop (mem z) (header z) (zlength z) (seq (zlevel z) (lev - zlevel z));
       Ret (m, update_at (header z) ns r (zlevel z) ++ repeat (header z, 0) (lev - zlevel z))
     else Ret (mem z, update_at (header z) ns r (zlevel z))) = Ret (m, update_at (header z) ns r (zlevel z1)))
    as (m & z1 & Hly1 & Eh & Et & El & Ev & Em & ->).
  { destruct (Nat.ltb_spec (zlevel z) lev).
    - destruct (raise_loop_spec z ns lev Hly) as (m & -> & _ & Hl); [lia|]. eexists m, _. split_and!; [exact Hl|done..|].
      cbn [mbind res_bind zlevel]. rewrite update_at_raise; [done|apply Hly|lia].
    - by exists (mem z), z. }
  cbn [mbind res_bind]. rewrite <- Ev, <- Eh, <- Et, <- El, <- Em.
  rewrite update_at_lookup by (pose proof (ly_level _ _ Hly1); lia). cbn [of_option mbind res_bind].
  rewrite (lastpos_bottom z1) by done.
  destruct (link_node_spec z1 ns r a junk Hly1 Hr) as (z' & Hz' & Eh' & Hl'); [by rewrite Eh| |].
  { cbn. rewrite Ev. destruct (Nat.ltb_spec (zlevel z) lev); lia. }
  exists z'. split; [exact Hz'|]. by rewrite Eh', Eh.
Qed.

(** The interface of the updates for their callers: insertion, deletion and
    the change of a score, on the sorted list. *)
Lemma insert_node_spec z ns sc e x lev junk :
  skiplist_repr z ns -> score_ok sc -> x ∉ header z :: map e_loc ns -> (1 <= lev <= ZSKIPLIST_MAXLEVEL)%nat ->
  (forall b, b ∈ ns -> ~ (e_key b = score_key sc /\ e_ele b = e)) ->
  exists z', zslInsert z sc e x lev junk = Ret z' /\ skiplist_repr z' (insert_entry (Entry x sc e lev) ns).
Proof.
  intros Hr Hsc Hx Hlev Hne. destruct (zslInsert_layout z ns sc e x lev junk Hr Hsc Hx Hlev) as (z' & Hz & _ & Hly).
  exists z'. split; [done|]. split; [done|apply insert_entry_sorted; [apply Hr|done]|]. by apply insert_scores; [apply Hr|].
Qed.



(** ** Deletion *)

Lemma shrink_loop_spec m hd ns lev :
  cells m hd ns 0 lev -> (1 <= lev)%nat ->
  exists lev', shrink_loop m hd lev = Ret lev' /\ (1 <= lev' <= lev)%nat /\
    forall i, (lev' <= i < lev)%nat -> forward (exp_level ns i 0) = None.
Proof.
  induction lev as [|[|lev] IH]; intros Hc Hl; [lia|by exists 1%nat; split_and!; [done|lia|lia|lia]|].
  cbn [shrink_loop]. pose proof (Hc (S lev) 0%nat ltac:(lia) ltac:(lia) I) as H0. cbn [pos_loc] in H0. rewrite H0. cbn [mbind res_bind].
  destruct (forward (exp_level ns (S lev) 0)) as [f|] eqn:E; [exists (S (S lev)); split_and!; [done|lia|lia|lia]|].
  destruct IH as (lev' & Hs & Hb & Hn); [|lia|].
  - intros i j Hi. apply Hc. lia.
  - exists lev'. split; [exact Hs|]. split; [lia|]. intros i Hi. destruct (decide (i = S lev)) as [->|]; [done|]. apply Hn. lia.
Qed.

Lemma no_forward_heights ns i :
  forward (exp_level ns i 0) = None -> Forall (fun e => e_h e <= i)%nat ns.
Proof.
  intros Hf. destruct (exp_level_cases 1%positive ns i 0) as [(p & _ & _ & _ & E)|[Hn _]]; [by rewrite E in Hf|].
  apply Forall_lookup. intros p e He. destruct (decide (e_h e <= i)%nat) as [|H]; [done|].
  exfalso. apply (Hn (S p)); [lia|]. exists e. split; [done|lia].
Qed.

Section UnlinkNode.
Context (z : zskiplist) (ns : list entry) (r : nat) (a : entry).
Hypothesis Hr : (r <= length ns)%nat.
Hypothesis Hly : layout z (take r ns ++ a :: drop r ns).

Lemma unlink_nodup : NoDup (header z :: e_loc a :: map e_loc ns).
Proof.
  pose proof (ly_nodup _ _ Hly) as Hnd. rewrite <- (Permutation_middle (take r ns) (drop r ns) a), take_drop in Hnd. done.
Qed.

(** The shapes after the backward pointer of the next node has been set. *)
Lemma unlink_shapes m :
  (forall w, shape_of m w =
     if decide (Some w = e_loc <$> ns !! r) then (fun n => (n.1.1, prev_loc ns r, n.2)) <$> shape_of (mem z) w
     else shape_of (mem z) w) ->
  (forall j e, ns !! j = Some e -> shape_of m (e_loc e) = Some (Some (e_ele e), e_score e, prev_loc ns j, e_h e)) /\
  shape_of m (header z) = Some (None, f_of_Z 0, None, ZSKIPLIST_MAXLEVEL).
Proof.
  intros Hm. pose proof (splice_nodup _ _ _ unlink_nodup) as Hnd. split.
  - intros j e He. rewrite Hm. case_decide as Hd.
    + destruct (ns !! r) as [f|] eqn:Ef; [|done]. injection Hd as E.
      pose proof (entry_loc_inj _ _ _ _ _ _ Hnd He Ef E) as ->. rewrite Ef in He. simplify_eq.
      rewrite (layout_shape z _ (S r) e Hly) by (by rewrite around_gt by lia). done.
    + destruct (decide (j < r)%nat).
      * rewrite (layout_shape z _ j e Hly) by (by rewrite around_lt by lia). by rewrite around_prev_le by lia.
      * destruct (decide (j = r)) as [->|]; [by rewrite He in Hd|].
        rewrite (layout_shape z _ (S j) e Hly) by (by rewrite around_gt by lia). by rewrite around_prev_gt by lia.
  - rewrite Hm, decide_False; [by eapply layout_header_shape|].
    destruct (ns !! r) as [f|] eqn:Ef; [|done]. intros [= E]. pose proof (lookup_lt_Some _ _ _ Ef).
    assert (0%nat = S r); [|done]. eapply (pos_loc_inj (header z) ns); [done|lia|lia|]. cbn. by rewrite Ef.
Qed.

Lemma unlink_tail : e_loc <$> last ns = match ns !! r with Some _ => tail z | None => prev_loc ns r end.
Proof.
  rewrite (ly_tail _ _ Hly), last_around by done. destruct (ns !! r) as [f|] eqn:E; [done|].
  apply lookup_ge_None in E. assert (r = length ns) as -> by lia. rewrite last_lookup. unfold prev_loc.
  destruct (length ns) as [|n] eqn:El; [|done]. apply nil_length_inv in El. by rewrite El.
Qed.

Lemma unlink_layout m lev :
  cells m (header z) ns 0 (zlevel z) -> (1 <= lev <= zlevel z)%nat ->
  (forall i, (lev <= i < zlevel z)%nat -> forward (exp_level ns i 0) = None) ->
  (forall i, (zlevel z <= i)%nat -> load_level m (header z) i = load_level (mem z) (header z) i) ->
  (forall w, shape_of m w =
     if decide (Some w = e_loc <$> ns !! r) then (fun n => (n.1.1, prev_loc ns r, n.2)) <$> shape_of (mem z) w
     else shape_of (mem z) w) ->
  layout (Skiplist (header z) (e_loc <$> last ns) (zlength z - 1) lev m) ns.
Proof.
  intros Hc Hlev Hlow Htop Hsh. destruct (unlink_shapes m Hsh) as [Hs1 Hs2].
  pose proof (ly_level _ _ Hly). apply layout_intro; cbn [header tail zlength zlevel mem]; try done.
  - apply (splice_nodup _ _ _ unlink_nodup).
  - intros i j Hi Hj Ht. apply Hc; [lia|done..].
  - intros i l Hi Hl. destruct (decide (i < zlevel z)%nat).
    + pose proof (Hc i 0%nat ltac:(lia) ltac:(lia) I) as H0. cbn [pos_loc] in H0. rewrite H0 in Hl. injection Hl as <-. apply Hlow. lia.
    + rewrite Htop in Hl by lia. apply (layout_top _ _ _ _ Hly) in Hl; [done|lia].
  - rewrite (ly_length _ _ Hly), around_length by done. lia.
  - lia.
  - pose proof (ly_heights _ _ Hly) as Hh. rewrite <- (Permutation_middle (take r ns) (drop r ns) a), take_drop in Hh.
    apply Forall_cons in Hh as [_ Hh]. destruct (decide (lev = zlevel z)) as [->|]; [done|].
    pose proof (no_forward_heights ns lev (Hlow lev ltac:(lia))) as Hh2.
    eapply Forall_impl; [apply Forall_and; exact (conj Hh Hh2)|]. simpl. lia.
Qed.

(** [zslDeleteNode], called with the predecessors of the node. *)
Lemma zslDeleteNode_spec up :
  update_at (header z) ns r (zlevel z) `prefix_of` up ->
  exists z', zslDeleteNode z (e_loc a) up = Ret z' /\
    header z' = header z /\ (zlevel z' <= zlevel z)%nat /\ layout z' ns.
Proof.
  intros Hup. pose proof unlink_nodup as Hnd. pose proof (ly_heights _ _ Hly) as Hh.
  rewrite <- (Permutation_middle (take r ns) (drop r ns) a), take_drop in Hh. apply Forall_cons in Hh as [Ha Hh].
  destruct (unlink_loop_spec (header z) ns r (zlevel z) a Hr Hnd ltac:(lia) (mem z) up (layout_cells _ _ Hly))
    as (m & Em & Hsh & Hc & Hx & Htop).
  { intros i Hi. eapply prefix_lookup_Some; [by apply update_at_lookup|done]. }
  unfold zslDeleteNode. rewrite Em. cbn [mbind res_bind].
  destruct (bottom_level z _ (S r) Hly) as [Hb Hf]; [rewrite around_length; lia|].
  rewrite around_pos_new in Hb by done. rewrite around_gt in Hf by lia. rewrite Hx, Hb. cbn [mbind res_bind]. rewrite Hf.
  pose proof (layout_shape z _ r a Hly (around_eq ns r a Hr)) as Hsa. rewrite <- Hsh, around_prev_le in Hsa by lia.
  assert (exists n, node_at m (e_loc a) = Ret n /\ backward n = prev_loc ns r) as (n & -> & Hn).
  { unfold shape_of in Hsa. unfold node_at. destruct (m !! e_loc a) as [n|]; [|done]. exists n. split; [done|].
    cbn in Hsa. unfold shape in Hsa. by simplify_eq. }
  cbn [mbind res_bind]. rewrite Hn.
  assert (exists m', match e_loc <$> ns !! r with
      | Some f => m ← store_backward m f (prev_loc ns r); Ret (m, tail z)
      | None => Ret (m, prev_loc ns r) end = Ret (m', e_loc <$> last ns) /\
    (forall w k, load_level m' w k = load_level m w k) /\
    (forall w, shape_of m' w =
     if decide (Some w = e_loc <$> ns !! r) then (fun n => (n.1.1, prev_loc ns r, n.2)) <$> shape_of (mem z) w
     else shape_of (mem z) w)) as (m' & -> & Hld' & Hsh').
  { rewrite unlink_tail. destruct (ns !! r) as [f|] eqn:Ef; cbn [fmap option_fmap option_map]; [|by exists m].
    pose proof (layout_shape z _ (S r) f Hly ltac:(by rewrite around_gt by lia)) as Hsf.
    rewrite <- Hsh in Hsf. destruct (store_backward_spec m (e_loc f) _ (prev_loc ns r) Hsf) as (m' & -> & Hld' & Hsh').
    exists m'. split; [done|]. split; [done|]. intros w. rewrite Hsh'. rewrite Hsh in Hsf.
    repeat case_decide; simplify_eq; try done; by rewrite Hsf. }
  cbn [mbind res_bind]. assert (cells m' (header z) ns 0 (zlevel z)) as Hc'.
  { intros i j Hi Hj Ht. rewrite Hld'. by apply Hc. }
  pose proof (ly_level _ _ Hly).
  destruct (shrink_loop_spec m' (header z) ns (zlevel z) Hc') as (lev & -> & Hlev & Hlow); [lia|].
  cbn [mbind res_bind]. eexists. split; [done|]. cbn [header zlevel]. split; [done|]. split; [lia|].
  apply unlink_layout; try done. intros i Hi. by rewrite Hld', Htop.
Qed.
End UnlinkNode.

Lemma layout_delete z ns x : layout z ns -> x ∉ header z :: map e_loc ns -> layout (zslFreeNode z x) ns.
Proof.
  intros Hly Hx. destruct Hly as [H1 H2 H3 H4 H5 H6 H7]. split; cbn [zslFreeNode header tail zlength zlevel mem]; try done.
  - intros j e He. rewrite lookup_delete_ne; [by apply H2|]. intros ->. apply Hx. right.
    apply list_elem_of_fmap. exists e. split; [done|]. by eapply list_elem_of_lookup_2.
  - destruct H3 as (ls & Hm & Hls). exists ls. rewrite lookup_delete_ne; [done|]. set_solver.
Qed.

(** A list around one of its entries. *)
Lemma split_entry (ns : list entry) r a :
  ns !! r = Some a -> let b := take r ns ++ drop (S r) ns in
  (r <= length b)%nat /\ take r b = take r ns /\ drop r b = drop (S r) ns /\ ns = take r b ++ a :: drop r b.
Proof.
  intros Ha b. pose proof (lookup_lt_Some _ _ _ Ha). assert (length (take r ns) = r) as Hl by (rewrite length_take; lia).
  unfold b. rewrite take_app_length', drop_app_length', length_app by done. split_and!; [lia|done|done|].
  by rewrite take_drop_middle.
Qed.

Lemma update_at_around hd ns r a zl :
  (r <= length ns)%nat -> update_at hd (take r ns ++ a :: drop r ns) r zl = update_at hd ns r zl.
Proof.
  intros Hr. unfold update_at. apply map_ext. intros i. rewrite around_lastpos by done. f_equal.
  pose proof (lastpos_le ns i r). rewrite <- (shift_le r (lastpos ns i r)) at 1 by done. apply around_pos; [done|lia].
Qed.

Lemma update_at_prefix hd ns r zl zl' : (zl <= zl')%nat -> update_at hd ns r zl `prefix_of` update_at hd ns r zl'.
Proof.
  intros H. unfold update_at. replace zl' with (zl + (zl' - zl))%nat by lia. rewrite seq_app, map_app. by apply prefix_app_r.
Qed.

(** Deleting the entry at index [r], found by a search that stops there. *)
Lemma delete_at z ns r a up :
  layout z ns -> ns !! r = Some a -> update_at (header z) ns r (zlevel z) `prefix_of` up ->
  exists z', zslDeleteNode z (e_loc a) up = Ret z' /\ header z' = header z /\
    layout z' (take r ns ++ drop (S r) ns) /\ layout (zslFreeNode z' (e_loc a)) (take r ns ++ drop (S r) ns) /\
    update_at (header z') (take r ns ++ drop (S r) ns) r (zlevel z') `prefix_of` up.
Proof.
  intros Hly Ha Hup. destruct (split_entry ns r a Ha) as (Hr & _ & _ & E). set (b := take r ns ++ drop (S r) ns) in *.
  rewrite E in Hly, Hup. rewrite update_at_around in Hup by done.
  destruct (zslDeleteNode_spec z b r a Hr Hly up Hup) as (z' & -> & Hhd & Hlev & Hly'). exists z'.
  split_and!; [done|done|done| |].
  - apply layout_delete; [done|]. rewrite Hhd. pose proof (unlink_nodup _ _ _ _ Hly) as Hnd.
    apply NoDup_cons in Hnd as [H1 H2]. apply NoDup_cons in H2 as [H2 _]. set_solver.
  - etrans; [|exact Hup]. rewrite Hhd. by apply update_at_prefix.
Qed.

Lemma sorted_sublist (ns ns' : list entry) :
  ns' `sublist_of` ns -> StronglySorted entry_lt ns -> StronglySorted entry_lt ns'.
Proof.
  induction 1 as [|a ns' ns Hsub IH|a ns' ns Hsub IH]; intros Hs; [done| |]; apply StronglySorted_inv in Hs as [Hs Hall].
  - constructor; [by apply IH|]. rewrite Forall_forall in *. intros b Hb. apply Hall. by eapply elem_of_submseteq, sublist_submseteq.
  - by apply IH.
Qed.

Definition delete_entry (sc : Z) (e : list Z) (ns : list entry) : list entry :=
  List.filter (fun a => negb (same_key sc e a)) ns.

Lemma filter_all (f : entry -> bool) l : (forall p b, l !! p = Some b -> f b = true) -> List.filter f l = l.
Proof.
  induction l as [|b l IH]; intros H; cbn; [done|]. rewrite (H 0%nat b eq_refl). f_equal. apply IH. intros p c. apply (H (S p)).
Qed.

Lemma delete_entry_at sc e ns r a :
  StronglySorted entry_lt ns -> ns !! r = Some a -> same_key sc e a = true ->
  delete_entry sc e ns = take r ns ++ drop (S r) ns.
Proof.
  intros Hs Ha Hk. rewrite <- (take_drop_middle ns r a Ha) at 1. unfold delete_entry.
  assert (forall p b, ns !! p = Some b -> p <> r -> negb (same_key sc e b) = true) as Hno.
  { intros p b Hb Hp. apply negb_true_iff. destruct (same_key sc e b) eqn:E; [|done].
    apply same_key_true in E as [E1 E2]. apply same_key_true in Hk as [K1 K2].
    exfalso. apply Hp. eapply sorted_key_inj; [done|done|done|congruence..]. }
  rewrite List.filter_app. cbn. rewrite Hk. cbn. rewrite !filter_all; [done| |].
  - intros p b Hb. rewrite lookup_drop in Hb. eapply Hno; [done|lia].
  - intros p b Hb. apply lookup_take_Some in Hb as [Hb Hp]. eapply Hno; [done|lia].
Qed.

(** Where the search stops is where the entry is, if it is there. *)
Lemma cut_finds ns sc e r :
  StronglySorted entry_lt ns ->
  (forall p a, ns !! p = Some a -> key_lt (e_key a) (e_ele a) sc e = bool_decide (S p <= r)%nat) ->
  forall p a, ns !! p = Some a -> same_key sc e a = true -> p = r.
Proof.
  intros Hs Hk p a Ha [<- <-]%same_key_true. pose proof (Hk _ _ Ha) as H1. rewrite key_lt_irrefl in H1.
  symmetry in H1. apply bool_decide_eq_false in H1. destruct (decide (p = r)) as [|Hne]; [done|].
  pose proof (lookup_lt_Some _ _ _ Ha). destruct (lookup_lt_is_Some_2 ns r) as [b Hb]; [lia|].
  assert (entry_lt b a) as Hba by (eapply (sorted_lookup ns r p); [done|lia|done|done]).
  pose proof (Hk _ _ Hb) as H2. rewrite Hba in H2. symmetry in H2. apply bool_decide_eq_true in H2. lia.
Qed.

Lemma delete_entry_absent sc e ns :
  (forall a, a ∈ ns -> same_key sc e a = false) -> delete_entry sc e ns = ns.
Proof. intros H. apply filter_all. intros p b Hb. apply negb_true_iff, H. by eapply list_elem_of_lookup_2. Qed.

Lemma find_at sc e ns r a :
  ns !! r = Some a -> same_key sc e a = true ->
  (forall p b, ns !! p = Some b -> same_key sc e b = true -> p = r) -> List.find (same_key sc e) ns = Some a.
Proof.
  revert r. induction ns as [|b ns IH]; intros r Ha Hk Hu; [done|]. cbn. destruct (same_key sc e b) eqn:E.
  - pose proof (Hu 0%nat b eq_refl E) as <-. done.
  - destruct r as [|r]; [cbn in Ha; congruence|]. apply (IH r); [done|done|]. intros p c Hc Hkc.
    specialize (Hu (S p) c Hc Hkc). lia.
Qed.

Lemma find_absent sc e ns :
  (forall a, a ∈ ns -> same_key sc e a = false) -> List.find (same_key sc e) ns = None.
Proof. intros H. induction ns as [|b ns IH]; [done|]. cbn. rewrite H by set_solver. apply IH. set_solver. Qed.

(** Deletion, with the node that was found. *)
Lemma delete_node_spec z ns sc e keep :
  skiplist_repr z ns -> score_ok sc ->
  exists z', zslDelete z sc e keep = Ret (z', e_loc <$> List.find (same_key (score_key sc) e) ns) /\
    skiplist_repr z' (delete_entry (score_key sc) e ns).
Proof.
  intros [Hly Hs Hok] Hsc. destruct (cuts_before ns sc e Hs Hok Hsc) as (r & Hc & Hk). pose proof (cut_finds ns (score_key sc) e r Hs Hk) as Hat.
  destruct (descend_bottom _ _ _ _ Hly Hc) as (up & Hd & Hup & H0). fold (update_at (header z) ns r (zlevel z)) in Hup.
  unfold zslDelete. rewrite Hd. cbn [mbind res_bind]. rewrite H0. cbn [of_option mbind res_bind].
  destruct (bottom_level z ns r Hly) as [Hb Hf]; [apply Hc|]. rewrite Hb. cbn [mbind res_bind]. rewrite Hf.
  assert ((forall a, ns !! r = Some a -> same_key (score_key sc) e a = false) ->
    (forall a, a ∈ ns -> same_key (score_key sc) e a = false)) as Habs.
  { intros Hn a Ha. destruct (same_key (score_key sc) e a) eqn:E; [|done]. apply list_elem_of_lookup in Ha as [p Hp].
    pose proof (Hat _ _ Hp E) as ->. by rewrite (Hn _ Hp) in E. }
  destruct (ns !! r) as [a|] eqn:Ea; cbn [fmap option_fmap option_map].
  2:{ exists z. rewrite find_absent, delete_entry_absent by (by apply Habs). done. }
  rewrite (node_at_loc _ _ _ _ Hly Ea). cbn [mbind res_bind exp_node ele_of ele of_option score].
  assert ((sc =? e_score a)%F && (sdscmp (e_ele a) e =? 0) = same_key (score_key sc) e a) as ->
    by (rewrite feq_key by (done || by eapply scores_lookup); unfold same_key; by rewrite Z.eqb_sym).
  destruct (same_key (score_key sc) e a) eqn:Ek.
  2:{ exists z. rewrite find_absent, delete_entry_absent; [done| |]; apply Habs; by intros ? [= <-]. }
  rewrite (find_at (score_key sc) e ns r a) by done. rewrite (delete_entry_at (score_key sc) e ns r a) by done.
  destruct (delete_at z ns r a up Hly Ea) as (z' & -> & _ & Hl1 & Hl2 & _); [by rewrite Hup|]. cbn [mbind res_bind].
  assert (take r ns ++ drop (S r) ns `sublist_of` ns) as Hsub
    by (rewrite <- (take_drop_middle ns r a Ea) at 3; apply sublist_app; [done|by constructor]).
  eexists. split; [done|]. split; [by destruct keep|by eapply sorted_sublist|by eapply sublist_scores].
Qed.

(** [zslDelete] implements the removal of an entry from the sorted list
    and returns the removed node; without a matching entry the skip list is
    left unchanged.  It is right whether the node is freed or handed over. *)
Theorem zslDelete_refines z ns sc e keep :
  skiplist_repr z ns -> score_ok sc ->
  exists z', zslDelete z sc e keep = Ret (z', e_loc <$> List.find (same_key (score_key sc) e) ns) /\
    skiplist_repr z' (delete_entry (score_key sc) e ns).
Proof. apply delete_node_spec. Qed.

Lemma zslDelete_refines_witness :
  exists z', zslDelete demo_zsl (f_of_Z 10) [98] true = Ret (z', Some 3%positive) /\
    skiplist_repr z' [Entry 2 (f_of_Z 10) [97] 1; Entry 4 (f_of_Z 20) [97] 2].
Proof. exact (zslDelete_refines demo_zsl demo_entries (f_of_Z 10) [98] true demo_zsl_repr (f_of_Z_ok 10)). Defined.

(** ** Deletion of ranges *)

(** How many entries from the front satisfy [f], counting ranks from [k]. *)
Fixpoint run_length (f : entry -> Z -> bool) (k : Z) (l : list entry) : nat :=
  match l with
  | [] => 0
  | a :: l => if f a k then S (run_length f (k + 1) l) else 0
  end.

(** The loop deletes the run of entries that starts at index [r]. *)
Lemma delete_loop_spec (cond : zskiplistNode -> Z -> bool) (f : entry -> Z -> bool) r up fuel z ns k :
  (forall a bk lv k, cond (Node (Some (e_ele a)) (e_score a) bk lv) k = f a k) ->
  layout z ns -> (r <= length ns)%nat -> (length ns - r <= fuel)%nat ->
  update_at (header z) ns r (zlevel z) `prefix_of` up ->
  let d := run_length f k (drop r ns) in
  exists z', delete_loop fuel z cond up (e_loc <$> ns !! r) k = Ret (z', map e_ele (take d (drop r ns))) /\
    layout z' (take r ns ++ drop (r + d) ns).
Proof.
  intros Hcond. revert z ns k. induction fuel as [|fuel IH]; intros z ns k Hly Hr Hf Hup d; cbn [delete_loop];
    destruct (ns !! r) as [a|] eqn:Ea; cbn [fmap option_fmap option_map].
  2,4: assert (drop r ns = []) as E by (apply lookup_ge_None in Ea; by rewrite drop_ge);
    unfold d; rewrite E; cbn; exists z; rewrite Nat.add_0_r, take_drop; done.
  { apply lookup_lt_Some in Ea. lia. }
  rewrite (node_at_loc _ _ _ _ Hly Ea). cbn [mbind res_bind exp_node ele_of ele of_option]. unfold exp_node at 1. rewrite Hcond.
  pose proof (drop_S _ _ _ Ea) as Ed. subst d. rewrite Ed. cbn [run_length]. destruct (f a k).
  2:{ exists z. rewrite Nat.add_0_r, take_drop. done. }
  destruct (bottom_level z ns (S r) Hly) as [Hb Hfw]; [by apply lookup_lt_Some in Ea|].
  cbn [pos_loc] in Hb. rewrite Ea in Hb. rewrite Hb. cbn [mbind res_bind]. rewrite Hfw.
  destruct (delete_at z ns r a up Hly Ea Hup) as (z1 & -> & Hhd & _ & Hl1 & Hup1). cbn [mbind res_bind].
  destruct (split_entry ns r a Ea) as (Hr1 & Ht1 & Hd1 & _). set (b := take r ns ++ drop (S r) ns) in *.
  assert (ns !! S r = b !! r) as Hnext.
  { unfold b. rewrite lookup_app_r by (rewrite length_take; lia). rewrite length_take, lookup_drop. f_equal.
    apply lookup_lt_Some in Ea. lia. }
  rewrite Hnext. apply lookup_lt_Some in Ea as Hlt.
  assert (length b = length ns - 1)%nat as Hlb by (unfold b; rewrite length_app, length_take, length_drop; lia).
  destruct (IH (zslFreeNode z1 (e_loc a)) b (k + 1) Hl1 Hr1 ltac:(lia) Hup1) as (z' & -> & Hl').
  cbn [mbind res_bind]. exists z'. rewrite Hd1 in *. split; [done|].
  rewrite Ht1, <- drop_drop, Hd1, drop_drop in Hl'. cbn [app] in *.
  by rewrite Nat.add_succ_r.
Qed.

Lemma zfuel_length z ns r : layout z ns -> (length ns - r <= zfuel z)%nat.
Proof. intros Hly. unfold zfuel. rewrite (ly_length _ _ Hly). lia. Qed.

(** The search and the loop together. *)
Lemma delete_range_spec z ns search (cond : zskiplistNode -> Z -> bool) (f : entry -> Z -> bool) r :
  (forall a bk lv k, cond (Node (Some (e_ele a)) (e_score a) bk lv) k = f a k) ->
  skiplist_repr z ns -> cuts ns search r ->
  let d := run_length f (Z.of_nat r + 1) (drop r ns) in
  exists z', (up ← descend (zfuel z) (mem z) search (zlevel z) (header z) 0;
     '(x, rank) ← of_option (up !! 0%nat);
     l ← load_level (mem z) x 0;
     delete_loop (zfuel z) z cond up (forward l) (rank + 1)) = Ret (z', map e_ele (take d (drop r ns))) /\
    skiplist_repr z' (take r ns ++ drop (r + d) ns).
Proof.
  intros Hcond [Hly Hs Hok] Hc d. destruct (descend_bottom _ _ _ _ Hly Hc) as (up & -> & Hup & H0).
  fold (update_at (header z) ns r (zlevel z)) in Hup. cbn [mbind res_bind]. rewrite H0. cbn [of_option mbind res_bind].
  destruct (bottom_level z ns r Hly) as [Hb Hf]; [apply Hc|]. rewrite Hb. cbn [mbind res_bind]. rewrite Hf.
  destruct (delete_loop_spec cond f r up (zfuel z) z ns (Z.of_nat r + 1) Hcond Hly) as (z' & -> & Hl);
    [apply Hc|by apply zfuel_length|by rewrite Hup|]. exists z'. split; [done|].
  assert (take r ns ++ drop (r + d) ns `sublist_of` ns) as Hsub
    by (rewrite <- (take_drop r ns) at 3; apply sublist_app; [done|]; rewrite <- drop_drop; apply sublist_drop).
  split; [done|by eapply sorted_sublist|by eapply sublist_scores].
Qed.

Lemma run_lte r k l :
  StronglySorted entry_lt l -> scores_ok l ->
  let d := run_length (fun a _ => zslValueLteMax (e_score a) r) k l in
  List.filter (fun a => zslValueLteMax (e_score a) r) l = take d l /\
  List.filter (fun a => negb (zslValueLteMax (e_score a) r)) l = drop d l.
Proof.
  intros Hs Hok. revert k. induction Hs as [|a l Hs IH Hall]; intros k d; [done|]. subst d. cbn.
  specialize (IH (Forall_inv_tail Hok)).
  destruct (zslValueLteMax (e_score a) r) eqn:E; cbn.
  - destruct (IH (k + 1)) as [-> ->]. done.
  - assert (forall b, b ∈ l -> zslValueLteMax (e_score b) r = false) as Hno.
    { intros b Hb. rewrite Forall_forall in Hall. pose proof (entry_lt_score (a :: l) a b Hok (list_elem_of_here _ _) (list_elem_of_further _ _ _ Hb) (Hall b Hb)) as Hle.
      destruct (zslValueLteMax (e_score b) r) eqn:F; [|done]. by rewrite (lte_mono _ _ _ Hle F) in E. }
    split.
    + clear IH Hs Hall Hok. induction l as [|b l IH]; [done|]. cbn. rewrite Hno by set_solver. apply IH. set_solver.
    + f_equal. apply filter_all. intros p b Hb. apply negb_true_iff, Hno. by eapply list_elem_of_lookup_2.
Qed.

Lemma filter_none (l : list entry) : List.filter (fun _ => false) l = [].
Proof. by induction l. Qed.

Lemma filter_ext_elem (f g : entry -> bool) l : (forall a, a ∈ l -> f a = g a) -> List.filter f l = List.filter g l.
Proof. intros H. apply List.filter_ext_in. intros a Ha. apply H. by apply list_elem_of_In. Qed.

(** The reference: what is left, and what is taken out. *)
Definition outside_range (r : zrangespec) (ns : list entry) : list entry := List.filter (fun a => negb (entry_in_range r a)) ns.
Definition inside_range (r : zrangespec) (ns : list entry) : list entry := List.filter (entry_in_range r) ns.

(** [zslDeleteRangeByScore] removes exactly the entries whose score is in
    the range, and reports their elements in order. *)
Theorem zslDeleteRangeByScore_refines z ns r :
  skiplist_repr z ns ->
  exists z', zslDeleteRangeByScore z r = Ret (z', map e_ele (inside_range r ns)) /\
    skiplist_repr z' (outside_range r ns).
Proof.
  unfold inside_range, outside_range. intros Hr. pose proof Hr as [_ Hs Hok]. destruct (cuts_out_of_range ns r Hs Hok) as (k & Hc & Hk).
  destruct (delete_range_spec z ns _ (fun n _ => zslValueLteMax (score n) r) (fun a _ => zslValueLteMax (e_score a) r) k
    ltac:(done) Hr Hc) as (z' & Hz & Hr'). exists z'. unfold zslDeleteRangeByScore. rewrite Hz.
  assert (StronglySorted entry_lt (drop k ns)) as Hsd by (eapply sorted_sublist; [apply sublist_drop|done]).
  destruct (run_lte r (Z.of_nat k + 1) _ Hsd (sublist_scores _ _ (sublist_drop _ _) Hok)) as [Hd1 Hd2]. rewrite <- Hd1. rewrite <- drop_drop, <- Hd2 in Hr'.
  assert (forall a, a ∈ take k ns -> entry_in_range r a = false) as Hlow.
  { intros a [p Hp]%list_elem_of_lookup. apply lookup_take_Some in Hp as [Hp Hpk]. unfold entry_in_range.
    by rewrite (Hk _ _ Hp), bool_decide_eq_true_2 by lia. }
  assert (forall a, a ∈ drop k ns -> entry_in_range r a = zslValueLteMax (e_score a) r) as Hhigh.
  { intros a [p Hp]%list_elem_of_lookup. rewrite lookup_drop in Hp. unfold entry_in_range.
    by rewrite (Hk _ _ Hp), bool_decide_eq_false_2 by lia. }
  assert (List.filter (entry_in_range r) ns = List.filter (fun a => zslValueLteMax (e_score a) r) (drop k ns)) as ->.
  { rewrite <- (take_drop k ns) at 1. rewrite List.filter_app, (filter_ext_elem (entry_in_range r) (fun _ => false) (take k ns) Hlow),
      (filter_ext_elem (entry_in_range r) _ (drop k ns) Hhigh). by rewrite filter_none. }
  assert (List.filter (fun a => negb (entry_in_range r a)) ns =
    take k ns ++ List.filter (fun a => negb (zslValueLteMax (e_score a) r)) (drop k ns)) as ->; [|done].
  rewrite <- (take_drop k ns) at 1. rewrite List.filter_app, (filter_all _ (take k ns)).
  - f_equal. apply filter_ext_elem. intros a Ha. by rewrite Hhigh.
  - intros p a Ha. apply negb_true_iff, Hlow. by eapply list_elem_of_lookup_2.
Qed.

Lemma zslDeleteRangeByScore_refines_witness :
  exists z', zslDeleteRangeByScore demo_zsl (Range (f_of_Z 10) (f_of_Z 20) false true) = Ret (z', [[97]; [98]]) /\
    skiplist_repr z' [Entry 4 (f_of_Z 20) [97] 2].
Proof. exact (zslDeleteRangeByScore_refines demo_zsl demo_entries (Range (f_of_Z 10) (f_of_Z 20) false true) demo_zsl_repr). Defined.

Lemma cuts_ranked ns start :
  cuts ns (ranked_before (Z.of_nat (S start))) (start `min` length ns).
Proof.
  split; [lia|]. intros p e He. apply lookup_lt_Some in He. unfold ranked_before. f_equal.
  destruct (Z.ltb_spec (Z.of_nat (S p)) (Z.of_nat (S start))); symmetry;
    [apply bool_decide_eq_true_2|apply bool_decide_eq_false_2]; lia.
Qed.

Lemma run_ranked stop k l :
  run_length (fun _ t => t <=? Z.of_nat stop) (Z.of_nat k + 1) l = ((stop - k) `min` length l)%nat.
Proof.
  revert k. induction l as [|a l IH]; intros k; cbn [run_length length]; [lia|].
  replace (Z.of_nat k + 1) with (Z.of_nat (S k)) by lia. rewrite IH.
  destruct (Z.leb_spec (Z.of_nat (S k)) (Z.of_nat stop)); lia.
Qed.

(** [zslDeleteRangeByRank] with 1-based inclusive ranks removes exactly
    that slice of the list, which may reach past its end. *)
Theorem zslDeleteRangeByRank_refines z ns start stop :
  skiplist_repr z ns -> (start <= stop)%nat ->
  exists z', zslDeleteRangeByRank z (Z.of_nat (S start)) (Z.of_nat stop)
    = Ret (z', map e_ele (take (stop - start) (drop start ns))) /\
    skiplist_repr z' (take start ns ++ drop stop ns).
Proof.
  intros Hr Hle. set (r := (start `min` length ns)%nat).
  destruct (delete_range_spec z ns _ (fun _ t => t <=? Z.of_nat stop) (fun _ t => t <=? Z.of_nat stop) r
    ltac:(done) Hr (cuts_ranked ns start)) as (z' & Hz & Hr').
  exists z'. unfold zslDeleteRangeByRank. rewrite Hz. rewrite run_ranked, length_drop in Hr' |- *. clear Hz.
  destruct (decide (start <= length ns)%nat) as [Hs|Hs].
  - assert (r = start) as E by lia. rewrite E in *. split.
    + do 2 f_equal. destruct (decide (stop <= length ns)%nat); [by rewrite Nat.min_l by lia|].
      rewrite Nat.min_r by lia. rewrite !(take_ge (drop start ns)); [done|rewrite length_drop; lia|rewrite length_drop; lia].
    + destruct (decide (stop <= length ns)%nat).
      * by replace stop with (start + (stop - start) `min` (length ns - start))%nat at 1 by lia.
      * rewrite (drop_ge ns stop) by lia. rewrite drop_ge in Hr' by lia. done.
  - assert (r = length ns) as E by lia. rewrite E in *. split.
    + by rewrite !(drop_ge ns), !take_nil by lia.
    + rewrite (drop_ge ns stop) by lia. rewrite drop_ge in Hr' by lia. by rewrite (take_ge ns) in Hr' |- * by lia.
Qed.

(** ** Change of a score *)

(** Addresses and heights determine the links. *)
Definition outline (ns : list entry) : list (loc * nat) := map (fun e => (e_loc e, e_h e)) ns.

Lemma nextd_outline i l l' : outline l = outline l' -> nextd i l = nextd i l'.
Proof.
  revert l'. induction l as [|a l IH]; intros [|b l'] E; try done. cbn in E. injection E as E1 E2 E3.
  cbn. rewrite E1, E2, (IH l' E3). done.
Qed.

Section SameOutline.
Context (ns ns' : list entry).
Hypothesis Ho : outline ns = outline ns'.

Lemma outline_length : length ns = length ns'.
Proof using Ho. rewrite <- (length_map (fun e => (e_loc e, e_h e)) ns). unfold outline in Ho. by rewrite Ho, length_map. Qed.

Lemma outline_level i j : exp_level ns i j = exp_level ns' i j.
Proof using Ho.
  unfold exp_level. rewrite (nextd_outline i (drop j ns) (drop j ns')), outline_length; [done|].
  unfold outline in *. rewrite <- !skipn_map. by rewrite Ho.
Qed.

Lemma outline_lookup j : (fun e => (e_loc e, e_h e)) <$> ns !! j = (fun e => (e_loc e, e_h e)) <$> ns' !! j.
Proof using Ho. pose proof (f_equal (lookup j) Ho) as H. unfold outline in H. by rewrite !list_lookup_fmap in H. Qed.

Lemma outline_prev j : prev_loc ns j = prev_loc ns' j.
Proof using Ho.
  destruct j as [|j]; [done|]. cbn. pose proof (outline_lookup j). destruct (ns !! j), (ns' !! j); cbn in *; congruence.
Qed.

Lemma outline_node j e e' :
  e_ele e = e_ele e' -> e_h e = e_h e' -> exp_node ns j e = exp_node ns' j (Entry (e_loc e) (e_score e) (e_ele e') (e_h e')).
Proof using Ho.
  intros E1 E2. unfold exp_node. cbn. rewrite E1, E2, outline_prev. f_equal. apply map_ext. intros i. apply outline_level.
Qed.
End SameOutline.

Lemma store_score_spec z ns p a new :
  layout z ns -> ns !! p = Some a ->
  exists m, store_score (mem z) (e_loc a) new = Ret m /\
    layout (Skiplist (header z) (tail z) (zlength z) (zlevel z) m) (<[p := Entry (e_loc a) new (e_ele a) (e_h a)]> ns).
Proof.
  intros Hly Ha. set (a' := Entry _ _ _ _). assert (outline ns = outline (<[p := a']> ns)) as Ho.
  { unfold outline. rewrite list_fmap_insert. symmetry. apply list_insert_id. rewrite list_lookup_fmap, Ha. done. }
  assert (map e_loc (<[p := a']> ns) = map e_loc ns) as Hloc.
  { rewrite list_fmap_insert. apply list_insert_id. by rewrite list_lookup_fmap, Ha. }
  unfold store_score. rewrite (node_at_loc _ _ _ _ Hly Ha). cbn [mbind res_bind]. eexists. split; [done|].
  destruct Hly as [H1 H2 H3 H4 H5 H6 H7]. pose proof (lookup_lt_Some _ _ _ Ha) as Hp.
  split; cbn [header tail zlength zlevel mem]; [by rewrite Hloc| | |by rewrite length_insert| |done|].
  - intros j b Hb. destruct (decide (j = p)) as [->|Hj].
    + rewrite list_lookup_insert_eq in Hb by done. simplify_eq. cbn [e_loc]. rewrite lookup_insert_eq. f_equal.
      unfold exp_node. cbn. rewrite (outline_prev _ _ Ho). f_equal. apply map_ext. intros i. by apply outline_level.
    + rewrite list_lookup_insert_ne in Hb by done. rewrite lookup_insert_ne.
      * rewrite (H2 _ _ Hb). f_equal. rewrite (outline_node ns _ Ho j b b) by done. by destruct b.
      * intros E. apply Hj. symmetry. by eapply entry_loc_inj.
  - destruct H3 as (ls & Hm & Hl1 & Hl2 & Hl3). exists ls. rewrite lookup_insert_ne.
    + split_and!; [done|done| |done]. intros i Hi. rewrite <- (outline_level _ _ Ho). by apply Hl2.
    + intros E. apply NoDup_cons in H1 as [Hn _]. apply Hn. rewrite <- E. apply list_elem_of_fmap. exists a. split; [done|].
      by eapply list_elem_of_lookup_2.
  - rewrite H5, <- !fmap_last. change (last (map e_loc ns) = last (map e_loc (<[p := a']> ns))). by rewrite Hloc.
  - apply Forall_insert; [done|]. rewrite Forall_lookup in H7. apply (H7 _ _ Ha).
Qed.

Lemma left_test z ns p new :
  layout z ns -> scores_ok ns -> score_ok new -> (p <= length ns)%nat ->
  exists b, match prev_loc ns p with
            | None => Ret true
            | Some b => nb ← node_at (mem z) b; Ret (score nb <? new)%F
            end = Ret b /\ (b = true -> forall c, ns !! pred p = Some c -> (0 < p)%nat -> e_key c < score_key new).
Proof.
  intros Hly Hok Hnew Hp. destruct p as [|q]; [exists true; split; [done|lia]|]. cbn [prev_loc pred].
  destruct (lookup_lt_is_Some_2 ns q) as [c Hc]; [lia|]. rewrite Hc. cbn [fmap option_fmap option_map].
  rewrite (node_at_loc _ _ _ _ Hly Hc). cbn [mbind res_bind exp_node score]. eexists. split; [done|].
  rewrite flt_key by (done || by eapply scores_lookup). intros Hb%Z.ltb_lt ? [= <-] _. done.
Qed.

Lemma right_test z ns p new :
  layout z ns -> scores_ok ns -> score_ok new ->
  exists b, match e_loc <$> ns !! p with
            | None => Ret true
            | Some f => nf ← node_at (mem z) f; Ret (new <? score nf)%F
            end = Ret b /\ (b = true -> forall c, ns !! p = Some c -> score_key new < e_key c).
Proof.
  intros Hly Hok Hnew. destruct (ns !! p) as [c|] eqn:Hc; cbn [fmap option_fmap option_map]; [|by exists true].
  rewrite (node_at_loc _ _ _ _ Hly Hc). cbn [mbind res_bind exp_node score]. eexists. split; [done|].
  rewrite flt_key by (done || by eapply scores_lookup). intros Hb%Z.ltb_lt ? [= <-]. done.
Qed.

(** The neighbours' scores decide whether the entry can keep its place. *)
Lemma insert_in_place ns p a new :
  StronglySorted entry_lt ns -> ns !! p = Some a ->
  (forall c, ns !! pred p = Some c -> (0 < p)%nat -> e_key c < score_key new) ->
  (forall c, ns !! S p = Some c -> score_key new < e_key c) ->
  insert_entry (Entry (e_loc a) new (e_ele a) (e_h a)) (take p ns ++ drop (S p) ns)
  = <[p := Entry (e_loc a) new (e_ele a) (e_h a)]> ns.
Proof.
  intros Hs Ha Hlo Hhi. destruct (split_entry ns p a Ha) as (Hr & Ht & Hd & _). set (b := take p ns ++ drop (S p) ns) in *.
  pose proof (lookup_lt_Some _ _ _ Ha). rewrite (insert_entry_at _ b p Hr).
  - by rewrite Ht, Hd, insert_take_drop.
  - intros q c Hc. change (e_key (Entry _ _ _ _)) with (score_key new). cbn [e_ele]. unfold key_lt. destruct (decide (q < p)%nat) as [Hq|Hq].
    + rewrite bool_decide_eq_true_2 by lia. unfold b in Hc.
      rewrite lookup_app_l, lookup_take_lt in Hc by (rewrite ?length_take; lia).
      destruct (lookup_lt_is_Some_2 ns (pred p)) as [d Hd']; [lia|]. specialize (Hlo d Hd' ltac:(lia)).
      assert (e_key c <= e_key d); [|apply orb_true_iff; left; apply Z.ltb_lt; lia].
      destruct (decide (q = pred p)) as [->|]; [by simplify_eq|]. apply entry_lt_key.
      eapply (sorted_lookup ns q (pred p)); [done|lia|done|done].
    + rewrite bool_decide_eq_false_2 by lia. unfold b in Hc.
      rewrite lookup_app_r, length_take, lookup_drop in Hc by (rewrite ?length_take; lia).
      replace (S p + (q - p `min` length ns))%nat with (S q) in Hc by lia.
      assert (score_key new < e_key c) as Hlt; [|by rewrite (proj2 (Z.ltb_ge _ _)), (proj2 (Z.eqb_neq _ _)) by lia].
      pose proof (lookup_lt_Some _ _ _ Hc). destruct (lookup_lt_is_Some_2 ns (S p)) as [d Hd']; [lia|]. specialize (Hhi d Hd').
      destruct (decide (q = p)) as [->|]; [by simplify_eq|]. assert (e_key d <= e_key c); [|lia].
      apply entry_lt_key. eapply (sorted_lookup ns (S p) (S q)); [done|lia|done|done].
Qed.

(** The branch that deletes the node and inserts another one. *)
Lemma update_by_moving z ns p a up new y lev junk :
  layout z ns -> ns !! p = Some a -> up = update_at (header z) ns p (zlevel z) ->
  score_ok new -> scores_ok (take p ns ++ drop (S p) ns) -> StronglySorted entry_lt (take p ns ++ drop (S p) ns) ->
  (forall x h, StronglySorted entry_lt (insert_entry (Entry x new (e_ele a) h) (take p ns ++ drop (S p) ns))) ->
  y ∉ header z :: map e_loc ns -> (1 <= lev <= ZSKIPLIST_MAXLEVEL)%nat ->
  exists z' x h,
    (z ← zslDeleteNode z (e_loc a) up; z ← zslInsert z new (e_ele a) y lev junk; Ret (zslFreeNode z (e_loc a), y)) = Ret (z', x) /\
    ((x, h) = (e_loc a, e_h a) \/ (x, h) = (y, lev)) /\
    skiplist_repr z' (insert_entry (Entry x new (e_ele a) h) (take p ns ++ drop (S p) ns)).
Proof.
  intros Hly Ha -> Hnew Hok Hs Hs' Hy Hlev. destruct (delete_at z ns p a _ Hly Ha ltac:(done)) as (z1 & -> & Hhd & Hl1 & _ & _).
  cbn [mbind res_bind]. set (b := take p ns ++ drop (S p) ns) in *.
  assert (map e_loc ns ≡ₚ e_loc a :: map e_loc b) as Hperm.
  { unfold b. rewrite <- (take_drop_middle ns p a Ha) at 1. rewrite !map_app. symmetry. apply Permutation_middle. }
  destruct (zslInsert_layout z1 b new (e_ele a) y lev junk) as (z2 & -> & Hhd2 & Hl2); [done|done| |done|].
  { rewrite Hhd. rewrite Hperm in Hy. set_solver. }
  cbn [mbind res_bind]. eexists _, y, lev. split; [done|]. split; [by right|]. split; [|done|by apply insert_scores].
  apply layout_delete; [done|]. rewrite Hhd2, Hhd. pose proof (ly_nodup _ _ Hly) as Hnd. rewrite Hperm in Hnd, Hy.
  apply NoDup_cons in Hnd as [H1 H2]. apply NoDup_cons in H2 as [H2 _]. intros [E|Hin]%elem_of_cons; [set_solver|].
  apply list_elem_of_fmap in Hin as (c & Hc & [->|Hin]%elem_of_insert_entry); cbn in Hc; [set_solver|].
  apply H2. rewrite Hc. apply list_elem_of_fmap. by exists c.
Qed.

(** The change of a score, in place or with a new node. *)
Lemma update_score_spec z ns p a new y lev junk :
  skiplist_repr z ns -> ns !! p = Some a -> score_ok new ->
  (forall q b, ns !! q = Some b -> e_ele b = e_ele a -> q = p) ->
  y ∉ header z :: map e_loc ns -> (1 <= lev <= ZSKIPLIST_MAXLEVEL)%nat ->
  exists z' x h, zslUpdateScore z (e_score a) (e_ele a) new y lev junk = Ret (z', x) /\
    ((x, h) = (e_loc a, e_h a) \/ (x, h) = (y, lev)) /\
    skiplist_repr z' (insert_entry (Entry x new (e_ele a) h) (delete_entry (e_key a) (e_ele a) ns)).
Proof.
  intros [Hly Hs Hok] Ha Hnew Hu Hy Hlev. pose proof (scores_lookup _ _ _ Hok Ha) as Hsc.
  destruct (cuts_before ns (e_score a) (e_ele a) Hs Hok Hsc) as (r & Hc & Hk).
  assert (same_key (e_key a) (e_ele a) a = true) as Hka by by apply same_key_true.
  pose proof (cut_finds _ _ _ _ Hs Hk _ _ Ha Hka) as <-.
  destruct (descend_bottom _ _ _ _ Hly Hc) as (up & Hd & Hup & H0). fold (update_at (header z) ns p (zlevel z)) in Hup.
  unfold zslUpdateScore. rewrite Hd. cbn [mbind res_bind]. rewrite H0. cbn [of_option mbind res_bind].
  destruct (bottom_level z ns p Hly) as [Hb Hf]; [apply Hc|]. rewrite Hb. cbn [mbind res_bind]. rewrite Hf, Ha.
  cbn [fmap option_fmap option_map of_option mbind res_bind]. rewrite (node_at_loc _ _ _ _ Hly Ha).
  cbn [mbind res_bind exp_node ele_of ele of_option score backward]. rewrite feq_key, Z.eqb_refl, sdscmp_refl by done. cbn [andb negb Z.eqb].
  pose proof (lookup_lt_Some _ _ _ Ha) as Hp. destruct (bottom_level z ns (S p) Hly) as [Hb' Hf']; [done|].
  cbn [pos_loc] in Hb'. rewrite Ha in Hb'. rewrite Hb'. cbn [mbind res_bind]. rewrite Hf'.
  destruct (left_test z ns p new Hly Hok Hnew) as (b1 & -> & Hlo); [lia|]. cbn [mbind res_bind].
  destruct (right_test z ns (S p) new Hly Hok Hnew) as (b2 & -> & Hhi). cbn [mbind res_bind].
  rewrite (delete_entry_at _ _ ns p a Hs Ha Hka).
  assert (take p ns ++ drop (S p) ns `sublist_of` ns) as Hsub
    by (rewrite <- (take_drop_middle ns p a Ha) at 3; apply sublist_app; [done|by constructor]).
  pose proof (sorted_sublist _ _ Hsub Hs) as Hsb. pose proof (sublist_scores _ _ Hsub Hok) as Hokb.
  assert (forall x h, StronglySorted entry_lt (insert_entry (Entry x new (e_ele a) h) (take p ns ++ drop (S p) ns))) as Hs'.
  { intros x h. apply insert_entry_sorted; [done|].
    intros b Hin [_ E]. cbn in E. apply elem_of_app in Hin as [[q Hq]%list_elem_of_lookup|[q Hq]%list_elem_of_lookup].
    - apply lookup_take_Some in Hq as [Hq Hqp]. specialize (Hu _ _ Hq E). lia.
    - rewrite lookup_drop in Hq. specialize (Hu _ _ Hq E). lia. }
  destruct (b1 && b2) eqn:Eb.
  - apply andb_true_iff in Eb as [-> ->]. destruct (store_score_spec z ns p a new Hly Ha) as (m & -> & Hm). cbn [mbind res_bind].
    eexists _, _, _. split; [done|]. split; [by left|]. split; [|done|by apply insert_scores].
    by rewrite (insert_in_place ns p a new Hs Ha (Hlo eq_refl) (Hhi eq_refl)).
  - by apply (update_by_moving z ns p a up).
Qed.

(** [zslUpdateScore] of an existing element has the effect of deleting it
    and inserting it with the new score; it keeps the node (and its height)
    when the neighbours allow it, and uses a new one otherwise.  Its
    assertion holds. *)
Theorem zslUpdateScore_refines z ns p a new y lev junk :
  skiplist_repr z ns -> ns !! p = Some a -> score_ok new ->
  (forall q b, ns !! q = Some b -> e_ele b = e_ele a -> q = p) ->
  y ∉ header z :: map e_loc ns -> (1 <= lev <= ZSKIPLIST_MAXLEVEL)%nat ->
  exists z' x h, zslUpdateScore z (e_score a) (e_ele a) new y lev junk = Ret (z', x) /\
    ((x, h) = (e_loc a, e_h a) \/ (x, h) = (y, lev)) /\
    skiplist_repr z' (insert_entry (Entry x new (e_ele a) h) (delete_entry (e_key a) (e_ele a) ns)).
Proof. apply update_score_spec. Qed.

Lemma zslUpdateScore_refines_witness :
  exists z' x h, zslUpdateScore demo_zsl (f_of_Z 10) [98] (f_of_Z 30) 5 2 (Level None 0) = Ret (z', x) /\
    ((x, h) = (3%positive, 3%nat) \/ (x, h) = (5%positive, 2%nat)) /\
    skiplist_repr z' (insert_entry (Entry x (f_of_Z 30) [98] h) [Entry 2 (f_of_Z 10) [97] 1; Entry 4 (f_of_Z 20) [97] 2]).
Proof.
  apply (zslUpdateScore_refines demo_zsl demo_entries 1 (Entry 3 (f_of_Z 10) [98] 3) (f_of_Z 30) 5 2 (Level None 0) demo_zsl_repr eq_refl (f_of_Z_ok 30)).
  - intros q b Hq E. do 3 (destruct q as [|q]; [injection Hq as <-; done|]). done.
  - by apply (bool_decide_unpack _); vm_compute.
  - unfold ZSKIPLIST_MAXLEVEL. lia.
Defined.
