(* ===== verification/Zset.v ===== *)
(** * Sorted sets ([redis-7.2.3/src/t_zset.c])

    A sorted set maps elements to scores and keeps them in order.  A small one
    is a listpack with elements and scores in turn; a larger one is a dictionary
    together with a skip list, where the dictionary has pointers to the scores
    inside the nodes of the skip list.  The operations work on both encodings
    and change the encoding when a listpack becomes too large.

    This file has the definitions, on the models of the three containers:
    [Listpack], [Dict] and [Skiplist].  [ZsetList] is about the listpack,
    [ZsetSkip] about the pair, [ZsetRefine] about the objects.  The strings of
    the elements are values, shorter than 2^32 bytes, the width of a length in a
    listpack; who owns and frees an [sds] is not modelled.  A
    score is kept as the double it is by a skip list, so that a negative zero is
    read back from it; a listpack has an integer for it, which is read as a
    positive zero.  A listpack that would exceed its size limit makes the
    operations abort. *)
From stdpp Require Import gmap.
From S2P Require Import Prelude Mem NumStr Listpack ListpackNav Dict Skiplist PyFloat Score.

Local Open Scope Z_scope.

(** ** Data *)

(** The address of a new node, the random level of [zslRandomLevel] and what is
    in the new node's memory. *)
Class NodeAlloc := {
  malloc_node : heap -> positive;
  random_level : heap -> nat;
  old_level : heap -> zskiplistLevel;
  malloc_fresh : forall m, m !! malloc_node m = None;
  random_level_range : forall m, (1 <= random_level m <= ZSKIPLIST_MAXLEVEL)%nat;
}.

(** The value of an entry of the dictionary is the node that has the score. *)
Record zset : Type := Zset { zdict : dict (list Z) positive; zsl : zskiplist }.

Inductive zobj : Type :=
  | OBJ_ENCODING_LISTPACK (zl : list Z)
  | OBJ_ENCODING_SKIPLIST (zs : zset).

Definition ZADD_IN_INCR : Z := 1.
Definition ZADD_IN_NX : Z := 2.
Definition ZADD_IN_XX : Z := 4.
Definition ZADD_IN_GT : Z := 8.
Definition ZADD_IN_LT : Z := 16.
Definition ZADD_OUT_NOP : Z := 1.
Definition ZADD_OUT_NAN : Z := 2.
Definition ZADD_OUT_ADDED : Z := 4.
Definition ZADD_OUT_UPDATED : Z := 8.

Definition has_flag (flags flag : Z) : bool := negb (Z.land flags flag =? 0).

(** ** Elements and scores in a listpack *)

Section Listpack.
Context `{Heap} `{Usable} `{Decimal}.

Definition zzlGetScore (zl : list Z) (sptr : Z) : res float :=
  v ← lpGetValue zl sptr;
  match v with
  | Integer vlong => Ret (f_of_Z vlong)
  | v => vstr ← value_string zl v; Ret (zzlStrtod vstr)
  end.

Definition lpGetObject (zl : list Z) (sptr : Z) : res (list Z) :=
  v ← lpGetValue zl sptr; value_string zl v.

(** [memcmp] of two blocks of the same size: the sign of the first difference. *)
Fixpoint memcmp (a b : list Z) : Z :=
  match a, b with
  | x :: a, y :: b => if x =? y then memcmp a b else if x <? y then -1 else 1
  | _, _ => 0
  end.

Definition zzlCompareElements (zl : list Z) (eptr : Z) (cstr : list Z) : res Z :=
  v ← lpGetValue zl eptr;
  vstr ← value_string zl v;
  let vlen := Z.of_nat (length vstr) in
  let clen := Z.of_nat (length cstr) in
  let minlen := Z.to_nat (if vlen <? clen then vlen else clen) in
  let cmp := memcmp (take minlen vstr) (take minlen cstr) in
  Ret (if cmp =? 0 then s32 (vlen - clen) else cmp).

Definition zzlLength (zl : list Z) : res (Z * list Z) :=
  '(n, zl) ← lpLength zl; Ret (n / 2, zl).

Definition zzlNext (zl : list Z) (sptr : Z) : res (option (Z * Z)) :=
  e ← lpNext zl sptr;
  match e with
  | Some eptr => s ← lpNext zl eptr; sptr ← of_option s; Ret (Some (eptr, sptr))
  | None => Ret None
  end.

(** The element and its score, if it is there; the score is read also when the
    caller passes no place for it. *)
Definition zzlFind (zl ele : list Z) : res (option (Z * float)) :=
  e ← lpFirst zl;
  match e with
  | None => Ret None
  | Some eptr =>
      e ← lpFind zl eptr ele 1;
      match e with
      | None => Ret None
      | Some eptr =>
          s ← lpNext zl eptr; sptr ← of_option s;
          score ← zzlGetScore zl sptr;
          Ret (Some (eptr, score))
      end
  end.

Definition zzlDelete (zl : list Z) (eptr : Z) : res (list Z) :=
  '(zl, _) ← lpDeleteRangeWithEntry zl eptr 2; Ret zl.

Definition zzlInsertAt (zl : list Z) (eptr : option Z) (ele : list Z) (score : float) : res (list Z) :=
  match eptr with
  | None =>
      r ← lpAppend zl ele; '(zl, _) ← of_option r;
      r ← match double2ll score with
          | Some lscore => lpAppendInteger zl lscore
          | None => lpAppend zl (d2string score)
          end;
      '(zl, _) ← of_option r; Ret zl
  | Some eptr =>
      r ← lpInsertString zl ele eptr LP_BEFORE; '(zl, s) ← of_option r; sptr ← of_option s;
      r ← match double2ll score with
          | Some lscore => lpInsertInteger zl lscore sptr LP_AFTER
          | None => lpInsertString zl (d2string score) sptr LP_AFTER
          end;
      '(zl, _) ← of_option r; Ret zl
  end.

(** The loop of [zzlInsert] from an element on. *)
Fixpoint insert_loop (fuel : nat) (zl : list Z) (eptr : option Z) (ele : list Z) (score : float) : res (list Z) :=
  match eptr with
  | None => zzlInsertAt zl None ele score
  | Some e =>
      match fuel with
      | O => Diverge
      | S fuel =>
          s ← lpNext zl e; sptr ← of_option s;
          s ← zzlGetScore zl sptr;
          if (score <? s)%F then zzlInsertAt zl (Some e) ele score
          else
            here ← (if (s =? score)%F then cmp ← zzlCompareElements zl e ele; Ret (0 <? cmp) else Ret false);
            if here : bool then zzlInsertAt zl (Some e) ele score
            else next ← lpNext zl sptr; insert_loop fuel zl next ele score
      end
  end.

Definition zzlInsert (zl ele : list Z) (score : float) : res (list Z) :=
  eptr ← lpSeek zl 0; insert_loop (length zl) zl eptr ele score.
End Listpack.

(** ** The operations *)

Section Zset.
Context `{Heap} `{Usable} `{Decimal} `{NodeAlloc}.
(** The hash function of strings, the global resize policy, the contents of
    fresh memory in the dictionary, and the two limits of the configuration. *)
Context (dictSdsHash : list Z -> Z) (dict_can_resize : dictResizeEnable) (old_value : positive).
Context (zset_max_listpack_entries zset_max_listpack_value : Z).

(** The type of the dictionary: values, no callbacks. *)
Definition zdictFind := dictFind (V := positive) dictSdsHash false false (fun _ => false) dict_can_resize.
Definition zdictAdd := dictAdd dictSdsHash false false (fun _ => false) (fun _ _ _ => true) dict_can_resize old_value.
Definition zdictUnlink := dictUnlink (V := positive) dictSdsHash false false (fun _ => false) dict_can_resize.

(** What the value of an entry points to: the score in the node. *)
Definition score_at (zs : zset) (x : positive) : res float :=
  n ← node_at (mem (zsl zs)) x; Ret (score n).

Definition zslInsertNew (z : zskiplist) (sc : float) (e : list Z) : res (zskiplist * positive) :=
  let x := malloc_node (mem z) in
  z ← zslInsert z sc e x (random_level (mem z)) (old_level (mem z));
  Ret (z, x).

Definition zslUpdateScoreNew (z : zskiplist) (cur : float) (e : list Z) (new : float) : res (zskiplist * positive) :=
  zslUpdateScore z cur e new (malloc_node (mem z)) (random_level (mem z)) (old_level (mem z)).

Definition createZsetObject : zset := Zset dictCreate (zslCreate (malloc_node ∅)).

Definition zsetLength (o : zobj) : res (Z * zobj) :=
  match o with
  | OBJ_ENCODING_LISTPACK zl => '(n, zl) ← zzlLength zl; Ret (n, OBJ_ENCODING_LISTPACK zl)
  | OBJ_ENCODING_SKIPLIST zs => Ret (zlength (zsl zs), o)
  end.

Definition zsetTypeCreate (size_hint val_len_hint : Z) : res zobj :=
  if (size_hint <=? zset_max_listpack_entries) && (val_len_hint <=? zset_max_listpack_value) then
    zl ← lpNew 0; Ret (OBJ_ENCODING_LISTPACK zl)
  else
    let zs := createZsetObject in
    '(d, _) ← dictExpand (zdict zs) size_hint;
    Ret (OBJ_ENCODING_SKIPLIST (Zset d (zsl zs))).

(** *** Conversion *)

(** A new node, and its entry in the dictionary. *)
Definition link_new (zs : zset) (ele : list Z) (score : float) : res zset :=
  '(z, x) ← zslInsertNew (zsl zs) score ele;
  '(d, ok) ← zdictAdd (zdict zs) ele x;
  _ ← assert ok;
  Ret (Zset d z).

Fixpoint load_loop (fuel : nat) (zl : list Z) (p : option (Z * Z)) (zs : zset) : res zset :=
  match p with
  | None => Ret zs
  | Some (eptr, sptr) =>
      match fuel with
      | O => Diverge
      | S fuel =>
          score ← zzlGetScore zl sptr;
          ele ← lpGetObject zl eptr;
          zs ← link_new zs ele score;
          p ← zzlNext zl sptr;
          load_loop fuel zl p zs
      end
  end.

(** The nodes are freed one after the other. *)
Fixpoint unload_loop (fuel : nat) (m : heap) (node : option positive) (zl : list Z) : res (list Z) :=
  match node with
  | None => Ret zl
  | Some x =>
      match fuel with
      | O => Diverge
      | S fuel =>
          n ← node_at m x;
          e ← ele_of n;
          zl ← zzlInsertAt zl None e (score n);
          l ← load_level m x 0;
          unload_loop fuel (delete x m) (forward l) zl
      end
  end.

(** [skiplist] tells the target encoding. *)
Definition zsetConvertAndExpand (o : zobj) (skiplist : bool) (cap : Z) : res zobj :=
  match o, skiplist with
  | OBJ_ENCODING_LISTPACK zl, true =>
      let zs := createZsetObject in
      '(d, _) ← dictExpand (zdict zs) cap;
      e ← lpSeek zl 0;
      p ← match e with
          | Some eptr => s ← lpNext zl eptr; sptr ← of_option s; Ret (Some (eptr, sptr))
          | None => Ret None
          end;
      zs ← load_loop (length zl) zl p (Zset d (zsl zs));
      Ret (OBJ_ENCODING_SKIPLIST zs)
  | OBJ_ENCODING_SKIPLIST zs, false =>
      zl ← lpNew 0;
      let z := zsl zs in
      l ← load_level (mem z) (header z) 0;
      zl ← unload_loop (Z.to_nat (zlength z)) (delete (header z) (mem z)) (forward l) zl;
      Ret (OBJ_ENCODING_LISTPACK zl)
  | _, _ => Ret o
  end.

Definition zsetConvert (o : zobj) (skiplist : bool) : res zobj :=
  '(n, o) ← zsetLength o; zsetConvertAndExpand o skiplist n.

Definition zsetTypeMaybeConvert (o : zobj) (size_hint : Z) : res zobj :=
  match o with
  | OBJ_ENCODING_LISTPACK _ =>
      if zset_max_listpack_entries <? size_hint then zsetConvertAndExpand o true size_hint else Ret o
  | _ => Ret o
  end.

Definition zsetConvertToListpackIfNeeded (o : zobj) (maxelelen totelelen : Z) : res zobj :=
  match o with
  | OBJ_ENCODING_LISTPACK _ => Ret o
  | OBJ_ENCODING_SKIPLIST zs =>
      safe ← lpSafeToAdd None totelelen;
      if (zlength (zsl zs) <=? zset_max_listpack_entries) && (maxelelen <=? zset_max_listpack_value) && safe
      then zsetConvert o false else Ret o
  end.

(** *** Reading *)

Definition zsetScore (o : zobj) (member : list Z) : res (zobj * option float) :=
  match o with
  | OBJ_ENCODING_LISTPACK zl =>
      r ← zzlFind zl member;
      Ret (o, match r with Some (_, score) => Some score | None => None end)
  | OBJ_ENCODING_SKIPLIST zs =>
      '(d, de) ← zdictFind (zdict zs) member;
      let zs := Zset d (zsl zs) in
      match de with
      | None => Ret (OBJ_ENCODING_SKIPLIST zs, None)
      | Some de => x ← dictGetVal d de; s ← score_at zs x; Ret (OBJ_ENCODING_SKIPLIST zs, Some s)
      end
  end.

Fixpoint list_rank_loop (fuel : nat) (zl : list Z) (p : option (Z * Z)) (ele : list Z) (rank : Z) : res (option (Z * Z)) :=
  match p with
  | None => Ret None
  | Some (eptr, sptr) =>
      match fuel with
      | O => Diverge
      | S fuel =>
          found ← lpCompare zl eptr ele;
          if found : bool then Ret (Some (rank, sptr))
          else p ← zzlNext zl sptr; list_rank_loop fuel zl p ele (rank + 1)
      end
  end.

(** The rank from the first or from the last element, and the score. *)
Definition zsetRank (o : zobj) (ele : list Z) (reverse : bool) : res (zobj * option (Z * float)) :=
  '(llen, o) ← zsetLength o;
  let answer rank := if reverse then llen - rank else rank - 1 in
  match o with
  | OBJ_ENCODING_LISTPACK zl =>
      e ← lpSeek zl 0; eptr ← of_option e;
      s ← lpNext zl eptr; sptr ← of_option s;
      r ← list_rank_loop (length zl) zl (Some (eptr, sptr)) ele 1;
      match r with
      | Some (rank, sptr) => score ← zzlGetScore zl sptr; Ret (o, Some (answer rank, score))
      | None => Ret (o, None)
      end
  | OBJ_ENCODING_SKIPLIST zs =>
      '(d, de) ← zdictFind (zdict zs) ele;
      let zs := Zset d (zsl zs) in
      match de with
      | None => Ret (OBJ_ENCODING_SKIPLIST zs, None)
      | Some de =>
          x ← dictGetVal d de;
          score ← score_at zs x;
          rank ← zslGetRank (zsl zs) score ele;
          _ ← assert (negb (rank =? 0));
          Ret (OBJ_ENCODING_SKIPLIST zs, Some (answer rank, score))
      end
  end.

(** *** Adding and changing *)

(** What the flags make of a new score for an element that has one. *)
Inductive decision : Type :=
  | DNop
  | DNan
  | DSet (score : float).

Definition zadd_decide (in_flags : Z) (curscore score : float) : decision :=
  if has_flag in_flags ZADD_IN_NX then DNop else
  let score := if has_flag in_flags ZADD_IN_INCR then (score + curscore)%F else score in
  if has_flag in_flags ZADD_IN_INCR && isnan score then DNan else
  if (has_flag in_flags ZADD_IN_LT && (curscore <=? score)%F) || (has_flag in_flags ZADD_IN_GT && (score <=? curscore)%F) then DNop else
  DSet score.

(** The return value, [*out_flags] and [*newscore] where it is set. *)
Definition zadd_result : Type := bool * Z * option float.

Definition zsetAdd_skiplist (zs : zset) (score : float) (ele : list Z) (in_flags : Z) : res (zset * zadd_result) :=
  '(d, de) ← zdictFind (zdict zs) ele;
  let zs := Zset d (zsl zs) in
  match de with
  | Some de =>
      x ← dictGetVal d de;
      curscore ← score_at zs x;
      match zadd_decide in_flags curscore score with
      | DNop => Ret (zs, (true, ZADD_OUT_NOP, None))
      | DNan => Ret (zs, (false, ZADD_OUT_NAN, None))
      | DSet score =>
          if negb (score =? curscore)%F then
            '(z, x) ← zslUpdateScoreNew (zsl zs) curscore ele score;
            d ← dictSetVal d de x;
            Ret (Zset d z, (true, ZADD_OUT_UPDATED, Some score))
          else Ret (zs, (true, 0, Some score))
      end
  | None =>
      if negb (has_flag in_flags ZADD_IN_XX) then
        zs ← link_new zs ele score;
        Ret (zs, (true, ZADD_OUT_ADDED, Some score))
      else Ret (zs, (true, ZADD_OUT_NOP, None))
  end.

Definition zsetAdd (o : zobj) (score : float) (ele : list Z) (in_flags : Z) : res (zobj * zadd_result) :=
  if isnan score then Ret (o, (false, ZADD_OUT_NAN, None)) else
  let on_skiplist o :=
    match o with
    | OBJ_ENCODING_SKIPLIST zs =>
        '(zs, r) ← zsetAdd_skiplist zs score ele in_flags; Ret (OBJ_ENCODING_SKIPLIST zs, r)
    | OBJ_ENCODING_LISTPACK _ => Abort
    end in
  match o with
  | OBJ_ENCODING_SKIPLIST _ => on_skiplist o
  | OBJ_ENCODING_LISTPACK zl =>
      found ← zzlFind zl ele;
      match found with
      | Some (eptr, curscore) =>
          match zadd_decide in_flags curscore score with
          | DNop => Ret (o, (true, ZADD_OUT_NOP, None))
          | DNan => Ret (o, (false, ZADD_OUT_NAN, None))
          | DSet score =>
              if negb (score =? curscore)%F then
                zl ← zzlDelete zl eptr;
                zl ← zzlInsert zl ele score;
                Ret (OBJ_ENCODING_LISTPACK zl, (true, ZADD_OUT_UPDATED, Some score))
              else Ret (o, (true, 0, Some score))
          end
      | None =>
          if negb (has_flag in_flags ZADD_IN_XX) then
            '(n, zl) ← zzlLength zl;
            safe ← lpSafeToAdd (Some zl) (Z.of_nat (length ele));
            if (zset_max_listpack_entries <? n + 1) || (zset_max_listpack_value <? Z.of_nat (length ele)) || negb safe then
              '(n, o) ← zsetLength (OBJ_ENCODING_LISTPACK zl);
              o ← zsetConvertAndExpand o true (n + 1);
              on_skiplist o
            else
              zl ← zzlInsert zl ele score;
              Ret (OBJ_ENCODING_LISTPACK zl, (true, ZADD_OUT_ADDED, Some score))
          else Ret (o, (true, ZADD_OUT_NOP, None))
      end
  end.

(** *** Deletion *)

Definition zsetRemoveFromSkiplist (zs : zset) (ele : list Z) : res (zset * bool) :=
  '(d, de) ← zdictUnlink (zdict zs) ele;
  let zs := Zset d (zsl zs) in
  match de with
  | None => Ret (zs, false)
  | Some (CNormal _ x _) =>
      score ← score_at zs x;
      '(z, retval) ← zslDelete (zsl zs) score ele false;
      _ ← assert (match retval with Some _ => true | None => false end);
      Ret (Zset d z, true)
  | Some _ => Abort
  end.

Definition zsetDel (o : zobj) (ele : list Z) : res (zobj * bool) :=
  match o with
  | OBJ_ENCODING_LISTPACK zl =>
      found ← zzlFind zl ele;
      match found with
      | Some (eptr, _) => zl ← zzlDelete zl eptr; Ret (OBJ_ENCODING_LISTPACK zl, true)
      | None => Ret (o, false)
      end
  | OBJ_ENCODING_SKIPLIST zs =>
      '(zs, removed) ← zsetRemoveFromSkiplist zs ele;
      if removed : bool then
        '(d, _) ← (if htNeedsResize (zdict zs) then dictResize dict_can_resize (zdict zs) else Ret (zdict zs, false));
        Ret (OBJ_ENCODING_SKIPLIST (Zset d (zsl zs)), true)
      else Ret (OBJ_ENCODING_SKIPLIST zs, false)
  end.

(** *** Copies *)

(** [while (llen--)], from the last node on; the result of [dictAdd] is not
    looked at. *)
Fixpoint dup_loop (llen : nat) (m : heap) (ln : option positive) (zs : zset) : res zset :=
  match llen with
  | O => Ret zs
  | S llen =>
      x ← of_option ln;
      n ← node_at m x;
      e ← ele_of n;
      '(z, y) ← zslInsertNew (zsl zs) (score n) e;
      '(d, _) ← zdictAdd (zdict zs) e y;
      dup_loop llen m (backward n) (Zset d z)
  end.

Definition zsetDup (o : zobj) : res zobj :=
  match o with
  | OBJ_ENCODING_LISTPACK zl =>
      sz ← lpBytes zl;
      new_zl ← load_bytes sz 0 zl;
      Ret (OBJ_ENCODING_LISTPACK new_zl)
  | OBJ_ENCODING_SKIPLIST zs =>
      let new_zs := createZsetObject in
      '(d, _) ← dictExpand (zdict new_zs) (dictSize (zdict zs));
      zs ← dup_loop (Z.to_nat (zlength (zsl zs))) (mem (zsl zs)) (tail (zsl zs)) (Zset d (zsl new_zs));
      Ret (OBJ_ENCODING_SKIPLIST zs)
  end.
End Zset.
