(* ===== verification/ZsetSpec.v ===== *)
(** * The specification of sorted sets

    A sorted set is a finite map from elements to scores, given by the keys of
    [Score].  Its listing is the list of its items in the order of scores, and
    of elements where scores are equal; it is determined by the map.  The
    operations of [Zset] change the listing by removing an item and by
    inserting one in its place. *)
From stdpp Require Import gmap.
From S2P Require Import Prelude Skiplist PyFloat Score Zset.

Local Open Scope Z_scope.

Abbreviation item := (list Z * Z)%type.
Abbreviation zmap := (gmap (list Z) Z).

Definition item_ltb (a b : item) : bool := key_lt a.2 a.1 b.2 b.1.
Definition item_lt (a b : item) : Prop := item_ltb a b = true.

Fixpoint insert_item (a : item) (l : list item) : list item :=
  match l with
  | [] => [a]
  | b :: l' => if item_ltb b a then b :: insert_item a l' else a :: l
  end.

Definition remove_item (e : list Z) (l : list item) : list item :=
  List.filter (fun a => negb (bool_decide (a.1 = e))) l.

Record listing (M : zmap) (l : list item) : Prop := {
  ls_items : l ≡ₚ map_to_list M;
  ls_sorted : StronglySorted item_lt l;
}.

(** The number of items before an item. *)
Definition rank_in (M : zmap) (a : item) : nat := size (filter (fun b : item => item_ltb b a = true) M).

(** ** Order *)

Lemma item_lt_trans a b c : item_lt a b -> item_lt b c -> item_lt a c.
Proof. apply key_lt_trans. Qed.

Lemma item_lt_irrefl a : ~ item_lt a a.
Proof. unfold item_lt, item_ltb. by rewrite key_lt_irrefl. Qed.

Lemma item_lt_total a b : item_lt a b \/ a = b \/ item_lt b a.
Proof.
  destruct (key_trichotomy a.2 a.1 b.2 b.1) as [|[[]|]]; [by left| |by right; right]. right. left. destruct a, b; cbn in *; congruence.
Qed.

Lemma item_ltb_asym a b : item_ltb a b = false -> a <> b -> item_lt b a.
Proof. intros H Hne. destruct (item_lt_total a b) as [E|[E|E]]; [unfold item_lt in E; congruence|done|done]. Qed.

Lemma insert_item_perm a l : insert_item a l ≡ₚ a :: l.
Proof. induction l as [|b l IH]; cbn; [done|]. destruct (item_ltb b a); [|done]. rewrite IH. apply Permutation_swap. Qed.

Lemma insert_item_sorted a l : StronglySorted item_lt l -> a ∉ l -> StronglySorted item_lt (insert_item a l).
Proof.
  induction 1 as [|b l Hs IH Hall]; intros Ha; cbn; [by repeat constructor|]. rewrite Forall_forall in Hall.
  destruct (item_ltb b a) eqn:E.
  - constructor; [apply IH; set_solver|]. apply Forall_forall. intros c Hc. rewrite insert_item_perm in Hc.
    apply elem_of_cons in Hc as [->|Hc]; [done|by apply Hall].
  - assert (item_lt a b) as Hab by (apply item_ltb_asym; [done|set_solver]).
    constructor; [constructor; [done|by rewrite Forall_forall]|]. constructor; [done|]. apply Forall_forall. intros c Hc.
    eapply item_lt_trans; [done|by apply Hall].
Qed.

(** Where an item is inserted: after the smaller ones. *)
Lemma insert_item_at a l1 l2 :
  Forall (fun b => item_ltb b a = true) l1 -> (forall b, head l2 = Some b -> item_ltb b a = false) ->
  insert_item a (l1 ++ l2) = l1 ++ a :: l2.
Proof.
  intros H1 H2. induction H1 as [|b l1 Hb _ IH]; cbn; [|by rewrite Hb, IH].
  destruct l2 as [|b l2]; [done|]. cbn. by rewrite (H2 b eq_refl).
Qed.

Lemma sorted_unique l1 l2 : StronglySorted item_lt l1 -> StronglySorted item_lt l2 -> l1 ≡ₚ l2 -> l1 = l2.
Proof.
  intros H1. revert l2. induction H1 as [|a l1 Hs IH Hall]; intros l2 H2 Hp; [by apply Permutation_nil in Hp|].
  destruct H2 as [|b l2 Hs2 Hall2]; [by symmetry in Hp; apply Permutation_nil in Hp|]. rewrite Forall_forall in Hall, Hall2.
  assert (a = b) as ->; [|f_equal; apply IH; [done|by eapply Permutation_cons_inv]].
  assert (a ∈ b :: l2) as Ha by (rewrite <- Hp; left). assert (b ∈ a :: l1) as Hb by (rewrite Hp; left).
  apply elem_of_cons in Ha as [|Ha]; [done|]. apply elem_of_cons in Hb as [|Hb]; [done|].
  destruct (item_lt_irrefl a). eapply item_lt_trans; [by apply Hall|by apply Hall2].
Qed.

(** ** Removal *)

Lemma remove_item_absent e l : e ∉ l.*1 -> remove_item e l = l.
Proof.
  unfold remove_item. induction l as [|a l IH]; intros He; cbn; [done|]. rewrite bool_decide_eq_false_2 by set_solver. cbn.
  f_equal. apply IH. set_solver.
Qed.

Lemma remove_item_at e k l1 l2 : NoDup (l1 ++ (e, k) :: l2).*1 -> remove_item e (l1 ++ (e, k) :: l2) = l1 ++ l2.
Proof.
  intros Hnd. rewrite fmap_app in Hnd. apply NoDup_app in Hnd as (_ & H1 & H2). cbn in H2. apply NoDup_cons in H2 as [H2 _].
  unfold remove_item. rewrite List.filter_app. cbn [List.filter fst]. rewrite bool_decide_eq_true_2 by done. cbn [negb].
  fold (remove_item e l1) (remove_item e l2). rewrite !remove_item_absent; [done|done|]. intros Hin. apply (H1 e Hin). cbn. left.
Qed.

Lemma remove_item_elem e l a : a ∈ remove_item e l <-> a ∈ l /\ a.1 <> e.
Proof.
  unfold remove_item. rewrite !list_elem_of_In, List.filter_In, negb_true_iff, bool_decide_eq_false. done.
Qed.

Lemma remove_item_sorted e l : StronglySorted item_lt l -> StronglySorted item_lt (remove_item e l).
Proof.
  induction 1 as [|a l Hs IH Hall]; cbn; [constructor|]. destruct (negb _); [|done]. constructor; [done|].
  rewrite Forall_forall in *. intros b [Hb _]%remove_item_elem. by apply Hall.
Qed.

(** ** Listings *)

Section Listing.
Context (M : zmap) (l : list item).
Hypothesis Hl : listing M l.

Lemma listing_lookup e k : (e, k) ∈ l <-> M !! e = Some k.
Proof using Hl. by rewrite (ls_items _ _ Hl), elem_of_map_to_list. Qed.

Lemma listing_nodup : NoDup l.*1.
Proof using Hl. rewrite (ls_items _ _ Hl). apply NoDup_fst_map_to_list. Qed.

Lemma listing_absent e : M !! e = None <-> e ∉ l.*1.
Proof using Hl.
  split.
  - intros He ((e' & k) & -> & Hin)%list_elem_of_fmap. apply listing_lookup in Hin. cbn in He. congruence.
  - intros He. destruct (M !! e) as [k|] eqn:E; [|done]. apply listing_lookup in E. destruct He.
    apply list_elem_of_fmap. by exists (e, k).
Qed.

Lemma listing_size : length l = size M.
Proof using Hl. by rewrite (ls_items _ _ Hl), length_map_to_list. Qed.

Lemma listing_insert e k : M !! e = None -> listing (<[e := k]> M) (insert_item (e, k) l).
Proof using Hl.
  intros He. split.
  - by rewrite insert_item_perm, map_to_list_insert, (ls_items _ _ Hl).
  - apply insert_item_sorted; [apply Hl|]. intros Hin%listing_lookup. congruence.
Qed.

Lemma listing_delete e : listing (delete e M) (remove_item e l).
Proof using Hl.
  split; [|by apply remove_item_sorted, Hl]. destruct (M !! e) as [k|] eqn:E.
  - pose proof (proj2 (listing_lookup e k) E) as Hin. apply list_elem_of_split in Hin as (l1 & l2 & El).
    pose proof listing_nodup as Hnd. rewrite El in Hnd |- *. rewrite (remove_item_at e k) by done.
    apply (Permutation_cons_inv (a := (e, k))). rewrite Permutation_middle, <- El, map_to_list_delete by done. apply Hl.
  - rewrite delete_id by done. rewrite remove_item_absent; [apply Hl|by apply listing_absent].
Qed.

Lemma listing_update e k : listing (<[e := k]> M) (insert_item (e, k) (remove_item e l)).
Proof using Hl.
  rewrite <- insert_delete_eq. pose proof listing_delete e as Hd.
  split.
  - by rewrite insert_item_perm, map_to_list_insert, (ls_items _ _ Hd) by apply lookup_delete_eq.
  - apply insert_item_sorted; [apply Hd|]. intros [_ Hne]%remove_item_elem. by apply Hne.
Qed.

(** The position of an item in the listing is its rank. *)
Lemma listing_rank i a : l !! i = Some a -> rank_in M a = i.
Proof using Hl.
  intros Ha. unfold rank_in. rewrite <- length_map_to_list, map_filter_alt, map_to_list_to_map, <- (ls_items _ _ Hl).
  2:{ apply NoDup_fmap_fst; [|apply NoDup_filter, NoDup_map_to_list]. intros e k1 k2 [_ H1]%list_elem_of_filter [_ H2]%list_elem_of_filter.
      apply elem_of_map_to_list in H1, H2. congruence. }
  pose proof (ls_sorted _ _ Hl) as Hs. clear Hl. revert i Ha. induction Hs as [|b l' Hs IH Hall]; intros i Ha; [done|].
  rewrite Forall_forall in Hall. destruct i as [|i].
  - injection Ha as ->. rewrite filter_cons_False by (apply item_lt_irrefl).
    assert (filter (fun b => item_ltb b a = true) l' = []) as ->; [|done].
    apply filter_all_out. intros c Hc Hlt. destruct (item_lt_irrefl a).
    eapply item_lt_trans; [by apply Hall|exact Hlt].
  - cbn in Ha. rewrite filter_cons_True by (apply Hall; by eapply list_elem_of_lookup_2). cbn. f_equal. by apply IH.
Qed.
End Listing.

Lemma listing_empty : listing ∅ [].
Proof. split; [by rewrite map_to_list_empty|constructor]. Qed.

Lemma listing_unique M l1 l2 : listing M l1 -> listing M l2 -> l1 = l2.
Proof. intros [H1 S1] [H2 S2]. apply sorted_unique; [done|done|]. by rewrite H1, H2. Qed.

(** ** The effect of [zsetAdd] *)

(** What [ZADD] does to the map, with the return value and the output
    arguments of [zsetAdd]. *)
Definition zadd (M : zmap) (score : float) (ele : list Z) (in_flags : Z) : zmap * zadd_result :=
  match M !! ele with
  | Some k =>
      match zadd_decide in_flags (key_score k) score with
      | DNop => (M, (true, ZADD_OUT_NOP, None))
      | DNan => (M, (false, ZADD_OUT_NAN, None))
      | DSet s =>
          if negb (s =? key_score k)%F then (<[ele := score_key s]> M, (true, ZADD_OUT_UPDATED, Some s))
          else (M, (true, 0, Some s))
      end
  | None =>
      if negb (has_flag in_flags ZADD_IN_XX) then (<[ele := score_key score]> M, (true, ZADD_OUT_ADDED, Some score))
      else (M, (true, ZADD_OUT_NOP, None))
  end.

(** Results that differ at most in the sign of a zero. *)
Definition same_result (r r' : zadd_result) : Prop := r.1 = r'.1 /\ option_Forall2 same_score r.2 r'.2.
#[export] Instance same_result_equiv : Equivalence same_result.
Proof.
  split.
  - intros r. by split.
  - intros r r' [H1 H2]. by split.
  - intros r1 r2 r3 [H1 H2] [H3 H4]. split; [congruence|by etransitivity].
Qed.

Definition same_decision (d d' : decision) : Prop :=
  match d, d' with DNop, DNop | DNan, DNan => True | DSet s, DSet s' => same_score s s' | _, _ => False end.
Lemma zadd_decide_same flags cur cur' score : same_score cur cur' -> same_decision (zadd_decide flags cur score) (zadd_decide flags cur' score).
Proof.
  intros Hc. unfold zadd_decide. destruct (has_flag flags ZADD_IN_NX); [done|].
  set (new := if has_flag flags ZADD_IN_INCR then (score + cur)%F else score). set (new' := if has_flag flags ZADD_IN_INCR then (score + cur')%F else score).
  assert (same_score new new') as Hs by (unfold new, new'; destruct (has_flag flags ZADD_IN_INCR); [by apply fadd_same|done]).
  rewrite (isnan_same _ _ Hs), (fle_same _ _ Hc _ _ Hs), (fle_same _ _ Hs _ _ Hc). destruct (_ && _); [done|]. by destruct (_ || _).
Qed.

(** Every score of the map is one of a double. *)
Definition keys_ok (M : zmap) : Prop := map_Forall (fun _ k => key_ok k) M.

Lemma zadd_decide_ok flags cur score s :
  score_ok cur -> score_ok score -> zadd_decide flags cur score = DSet s -> score_ok s.
Proof.
  intros Hc Hs. unfold zadd_decide. destruct (has_flag flags ZADD_IN_NX); [done|].
  destruct (has_flag flags ZADD_IN_INCR); cbn [andb].
  - destruct (isnan (score + cur)%F) eqn:En; [done|]. destruct (_ || _); [done|]. intros [= <-]. by apply fadd_ok.
  - destruct (_ || _); [done|]. by intros [= <-].
Qed.

Lemma zadd_keys_ok M score ele flags : keys_ok M -> score_ok score -> keys_ok (zadd M score ele flags).1.
Proof.
  intros HM Hs. unfold zadd. destruct (M !! ele) as [k|] eqn:Ek.
  - destruct (zadd_decide flags (key_score k) score) as [| |s] eqn:Ed; [done|done|]. destruct (negb _); [|done]. cbn [fst].
    apply map_Forall_insert_2; [|done]. apply score_key_ok. eapply zadd_decide_ok; [|done|done].
    apply key_score_ok. by apply (HM ele).
  - destruct (negb _); [|done]. cbn [fst]. apply map_Forall_insert_2; [by apply score_key_ok|done].
Qed.

Lemma zadd_size M score ele flags : (size (zadd M score ele flags).1 <= S (size M))%nat.
Proof.
  assert (forall k, size (<[ele := k]> M) <= S (size M))%nat as Hins by (intros k; rewrite map_size_insert; destruct (M !! ele); unfold id; lia).
  unfold zadd. repeat case_match; cbn [fst]; try lia; apply Hins.
Qed.
