(* ===== verification/ZsetSkip.v ===== *)
(** * Sorted sets as a dictionary and a skip list

    The second encoding of [Zset]: the dictionary has exactly one entry for
    every node of the skip list, with the element as its key and the address of
    the node as its value, so that the score read through the dictionary is the
    one the skip list is ordered by.  Every operation keeps this, and has the
    effect of its specification on the listing. *)
From stdpp Require Import gmap.
From S2P Require Import Prelude Mem Dict Skiplist SkiplistUpdate PyFloat Score Zset ZsetSpec.

Local Open Scope Z_scope.

(** ** Nodes and items *)

Definition item_of (a : entry) : item := (e_ele a, e_key a).
Definition items (ns : list entry) : list item := map item_of ns.
Definition links (ns : list entry) : list (list Z * option positive) := map (fun a => (e_ele a, Some (e_loc a))) ns.

Lemma items_insert a ns : items (insert_entry a ns) = insert_item (item_of a) (items ns).
Proof.
  induction ns as [|b ns IH]; [done|]. unfold items in *. cbn [insert_entry map insert_item].
  change (item_ltb (item_of b) (item_of a)) with (key_lt (e_key b) (e_ele b) (e_key a) (e_ele a)).
  destruct (key_lt _ _ _ _); cbn [map]; [by f_equal|done].
Qed.

Lemma items_elems ns : (items ns).*1 = map e_ele ns.
Proof. unfold items. rewrite <- list_fmap_compose. done. Qed.

Lemma links_elems ns : (links ns).*1 = map e_ele ns.
Proof. unfold links. rewrite <- list_fmap_compose. done. Qed.

Lemma insert_entry_perm a ns : insert_entry a ns ≡ₚ a :: ns.
Proof. induction ns as [|b ns IH]; cbn; [done|]. case_match; [|done]. rewrite IH. apply Permutation_swap. Qed.

Lemma items_sorted ns : StronglySorted entry_lt ns -> StronglySorted item_lt (items ns).
Proof.
  induction 1 as [|a ns Hs IH Hall]; cbn; [constructor|]. constructor; [done|]. rewrite Forall_map. done.
Qed.

(** With distinct elements the entry of a key is the item of the element. *)
Lemma delete_entry_items ns p a :
  StronglySorted entry_lt ns -> NoDup (map e_ele ns) -> ns !! p = Some a ->
  delete_entry (e_key a) (e_ele a) ns = take p ns ++ drop (S p) ns /\
  items (delete_entry (e_key a) (e_ele a) ns) = remove_item (e_ele a) (items ns).
Proof.
  intros Hs Hnd Ha. assert (delete_entry (e_key a) (e_ele a) ns = take p ns ++ drop (S p) ns) as ->
    by (eapply delete_entry_at; [done|done|by apply same_key_true]). split; [done|].
  assert (items ns = items (take p ns) ++ (e_ele a, e_key a) :: items (drop (S p) ns)) as E
    by (rewrite <- (take_drop_middle ns p a Ha) at 1; unfold items; by rewrite map_app).
  rewrite <- items_elems, E in Hnd. rewrite E, (remove_item_at _ _ _ _ Hnd). unfold items. by rewrite map_app.
Qed.

(** ** Representation *)

Section Skip.
Context `{Halloc : NodeAlloc}.
Context (dictSdsHash : list Z -> Z) (dict_can_resize : dictResizeEnable) (old_value : positive).
Local Abbreviation wf := (dict_wf dictSdsHash false).

Record skip_layout (zs : zset) (ns : list entry) : Prop := {
  sk_list : skiplist_repr (zsl zs) ns;
  sk_dict : wf (zdict zs);
  sk_links : contents (zdict zs) ≡ₚ links ns;
  sk_distinct : NoDup (map e_ele ns);
}.

Lemma skip_rehashed zs ns d : skip_layout zs ns -> rehashed dictSdsHash false (zdict zs) d -> skip_layout (Zset d (zsl zs)) ns.
Proof. intros [H1 H2 H3 H4] (Hwf & Hc & _). split; [done|done| |done]. cbn. by rewrite Hc. Qed.

Lemma skip_size zs ns : skip_layout zs ns -> dictSize (zdict zs) = Z.of_nat (length ns).
Proof. intros [H1 H2 H3 H4]. rewrite (dictSize_contents dictSdsHash false), H3 by done. unfold links. by rewrite length_map. Qed.

Lemma skip_link zs ns e v :
  skip_layout zs ns -> (e, v) ∈ contents (zdict zs) ->
  exists p a, ns !! p = Some a /\ e_ele a = e /\ v = Some (e_loc a).
Proof.
  intros Hk. rewrite (sk_links _ _ Hk). intros (a & [= -> ->] & Ha)%list_elem_of_fmap.
  apply list_elem_of_lookup in Ha as [p Ha]. by exists p, a.
Qed.

Lemma skip_unique zs ns p q a b :
  skip_layout zs ns -> ns !! p = Some a -> ns !! q = Some b -> e_ele a = e_ele b -> p = q.
Proof.
  intros Hk Ha Hb E. eapply NoDup_lookup; [apply (sk_distinct _ _ Hk)|by rewrite list_lookup_fmap, Ha|].
  rewrite list_lookup_fmap, Hb. cbn. by rewrite E.
Qed.

(** ** The dictionary *)

Lemma no_odd_keys : false = true -> forall k : list Z, (fun _ => false) k = true.
Proof. done. Qed.

(** Looking up an element gives the node of its item. *)
Lemma skip_find zs ns e :
  skip_layout zs ns ->
  exists d de, zdictFind dictSdsHash dict_can_resize (zdict zs) e = Ret (d, de) /\ skip_layout (Zset d (zsl zs)) ns /\
    match de with
    | Some de => exists p a, ns !! p = Some a /\ e_ele a = e /\ points dictSdsHash d de e (Some (e_loc a)) /\
        dictGetVal d de = Ret (e_loc a)
    | None => e ∉ map e_ele ns
    end.
Proof.
  intros Hk. destruct (dictFind_spec dictSdsHash false false (fun _ => false) dict_can_resize no_odd_keys (zdict zs) e (sk_dict _ _ Hk))
    as (d & de & Ef & Hre & Hres). exists d, de. split; [done|]. pose proof (skip_rehashed _ _ _ Hk Hre) as Hk'. split; [done|].
  destruct de as [de|].
  - destruct Hres as (v & Hp). pose proof (points_contents _ _ _ _ _ Hp) as Hin.
    destruct (skip_link _ _ _ _ Hk' Hin) as (p & a & Ha & He & ->). exists p, a. split_and!; [done|done|done|].
    destruct (dictGetVal_spec dictSdsHash false d de e _ (sk_dict _ _ Hk') eq_refl Hp) as (w & [= <-] & Hw). done.
  - intros Hin. apply list_elem_of_fmap in Hin as (a & -> & Ha). apply (Hres (Some (e_loc a))).
    rewrite (sk_links _ _ Hk'). apply list_elem_of_fmap. by exists a.
Qed.

(** A new entry, for an element that has none. *)
Lemma zdictAdd_spec d e x :
  wf d -> NoDup (contents d).*1 -> e ∉ (contents d).*1 -> Z.of_nat (length (contents d)) < 2 ^ 60 ->
  exists d', zdictAdd dictSdsHash dict_can_resize old_value d e x = Ret (d', true) /\ wf d' /\
    contents d' ≡ₚ (e, Some x) :: contents d.
Proof.
  intros Hwf Hnd He Hlen. set (M := list_to_map (contents d) : gmap (list Z) (option positive)).
  assert (contents d ≡ₚ map_to_list M) as Hp by (unfold M; by rewrite map_to_list_to_map).
  assert (M !! e = None) as Hnone by by apply not_elem_of_list_to_map.
  destruct (dictAdd_spec dictSdsHash false false (fun _ => false) (fun _ _ _ => true) dict_can_resize old_value no_odd_keys
    d M e x) as (d' & b & Ed & _ & Hb); [by split|rewrite <- length_map_to_list, <- Hp; done|].
  rewrite Hnone in Hb. destruct Hb as (-> & Hwf' & Hc). exists d'. split_and!; [done|done|].
  by rewrite Hc, map_to_list_insert, Hp by done.
Qed.

(** ** Creation and insertion *)

Lemma malloc_not_in z ns : layout z ns -> malloc_node (mem z) ∉ header z :: map e_loc ns.
Proof.
  intros Hly Hin. pose proof (malloc_fresh (mem z)) as Hf. apply elem_of_cons in Hin as [E|Hin].
  - destruct (ly_header _ _ Hly) as (ls & Hh & _). rewrite E in Hf. congruence.
  - apply list_elem_of_fmap in Hin as (a & E & Ha). apply list_elem_of_lookup in Ha as [p Ha].
    rewrite E, (ly_nodes _ _ Hly _ _ Ha) in Hf. done.
Qed.

Lemma zslCreate_repr hd : skiplist_repr (zslCreate hd) [].
Proof.
  split; [|constructor|constructor]. split; try done.
  - cbn. repeat constructor. set_solver.
  - exists (repeat (Level None 0) ZSKIPLIST_MAXLEVEL). cbn [zslCreate mem header]. split; [apply lookup_singleton_eq|].
    split; [by rewrite repeat_length|]. split; intros i; [intros Hi|intros l Hi Hl].
    + cbn in Hi. replace i with 0%nat by lia. done.
    + apply list_elem_of_lookup_2, list_elem_of_In, repeat_spec in Hl as ->. done.
  - cbn. unfold ZSKIPLIST_MAXLEVEL. lia.
Qed.

Lemma createZsetObject_layout : skip_layout createZsetObject [].
Proof.
  split; [apply zslCreate_repr| |done|constructor]. apply (dictCreate_repr (V := positive) dictSdsHash false).
Qed.

(** A presized dictionary is still empty. *)
Lemma skip_expand zs ns cap :
  skip_layout zs ns -> 0 <= cap <= 2 ^ 60 ->
  exists d b, dictExpand (zdict zs) cap = Ret (d, b) /\ skip_layout (Zset d (zsl zs)) ns.
Proof.
  intros Hk Hc. destruct (dictExpand_spec dictSdsHash false (zdict zs) cap (sk_dict _ _ Hk) Hc) as (d & b & Ed & Hre & _).
  exists d, b. split; [done|]. by eapply skip_rehashed.
Qed.

Lemma link_new_spec zs ns e sc :
  skip_layout zs ns -> score_ok sc -> e ∉ map e_ele ns -> Z.of_nat (length ns) < 2 ^ 60 ->
  exists zs' x h, link_new dictSdsHash dict_can_resize old_value zs e sc = Ret zs' /\
    skip_layout zs' (insert_entry (Entry x sc e h) ns).
Proof.
  intros Hk Hsc He Hlen. unfold link_new, zslInsertNew. pose proof (sk_list _ _ Hk) as Hr. pose proof Hr as [Hly Hs _].
  set (x := malloc_node (mem (zsl zs))). set (h := random_level (mem (zsl zs))).
  destruct (insert_node_spec (zsl zs) ns sc e x h (old_level (mem (zsl zs)))) as (z & -> & Hz);
    [done|done|by apply malloc_not_in|apply random_level_range|intros b Hb [_ E]; apply He; rewrite <- E; by apply list_elem_of_fmap_2|].
  cbn [mbind res_bind]. pose proof (sk_links _ _ Hk) as Hc.
  destruct (zdictAdd_spec (zdict zs) e x) as (d & -> & Hwf & Hd).
  - apply Hk.
  - rewrite Hc, links_elems. apply Hk.
  - by rewrite Hc, links_elems.
  - rewrite Hc. unfold links. by rewrite length_map.
  - cbn [mbind res_bind assert]. exists (Zset d z), x, h. split; [done|]. split; [done|done| |].
    + cbn [zdict]. unfold links. rewrite Hd, Hc, insert_entry_perm. done.
    + rewrite insert_entry_perm. cbn. constructor; [done|apply Hk].
Qed.
(** ** Sorted sets *)

Definition skip_repr (zs : zset) (M : zmap) : Prop := exists ns, skip_layout zs ns /\ listing M (items ns).

Lemma skip_listing zs ns M p a : skip_layout zs ns -> listing M (items ns) -> ns !! p = Some a -> M !! e_ele a = Some (e_key a).
Proof.
  intros Hk Hl Ha. apply (listing_lookup _ _ Hl). apply list_elem_of_fmap. exists a. split; [done|]. by eapply list_elem_of_lookup_2.
Qed.

Lemma skip_absent ns M e : listing M (items ns) -> e ∉ map e_ele ns -> M !! e = None.
Proof. intros Hl He. apply (listing_absent _ _ Hl). by rewrite items_elems. Qed.

Lemma score_at_spec zs ns p a : skip_layout zs ns -> ns !! p = Some a -> score_at zs (e_loc a) = Ret (e_score a).
Proof. intros Hk Ha. unfold score_at. by rewrite (node_at_loc _ _ _ _ (sr_layout _ _ (sk_list _ _ Hk)) Ha). Qed.

(** The score of an entry is what its key says. *)
Lemma skip_score zs ns p a : skip_layout zs ns -> ns !! p = Some a -> score_ok (e_score a) /\ same_score (e_score a) (key_score (e_key a)).
Proof.
  intros Hk Ha. assert (score_ok (e_score a)) as Hok by (eapply scores_lookup; [apply (sr_scores _ _ (sk_list _ _ Hk))|done]).
  split; [done|]. by apply same_score_key.
Qed.

(** The pointer the dictionary has for an element leads to its score. *)
Lemma skip_lookup zs M e :
  skip_repr zs M ->
  exists d de, zdictFind dictSdsHash dict_can_resize (zdict zs) e = Ret (d, de) /\ skip_repr (Zset d (zsl zs)) M /\
    match de with
    | Some de => exists x k s, M !! e = Some k /\ dictGetVal d de = Ret x /\ score_at (Zset d (zsl zs)) x = Ret s /\
        score_ok s /\ score_key s = k
    | None => M !! e = None
    end.
Proof.
  intros (ns & Hk & Hl). destruct (skip_find zs ns e Hk) as (d & de & Ef & Hk' & Hres). exists d, de. split; [done|].
  split; [by exists ns|]. destruct de as [de|].
  - destruct Hres as (p & a & Ha & <- & _ & Hv). exists (e_loc a), (e_key a), (e_score a). split_and!; [by eapply skip_listing|done| | |done].
    + by eapply score_at_spec.
    + by eapply skip_score.
  - by eapply skip_absent.
Qed.

(** A changed score: the node keeps its place or is replaced, and the entry of
    the dictionary follows it. *)
Lemma skip_update zs ns p a d de new :
  skip_layout zs ns -> zdict zs = d -> ns !! p = Some a -> points dictSdsHash d de (e_ele a) (Some (e_loc a)) ->
  score_ok new ->
  exists z x d' ns', zslUpdateScoreNew (zsl zs) (e_score a) (e_ele a) new = Ret (z, x) /\ dictSetVal d de x = Ret d' /\
    skip_layout (Zset d' z) ns' /\ items ns' = insert_item (e_ele a, score_key new) (remove_item (e_ele a) (items ns)).
Proof.
  intros Hk <- Ha Hp Hok. pose proof (sk_list _ _ Hk) as [Hly Hs _]. unfold zslUpdateScoreNew.
  destruct (update_score_spec (zsl zs) ns p a new (malloc_node (mem (zsl zs))) (random_level (mem (zsl zs)))
    (old_level (mem (zsl zs)))) as (z & x & h & -> & _ & Hz);
    [apply Hk|done|done|intros q b Hb E; by eapply skip_unique|by apply malloc_not_in|apply random_level_range|].
  destruct (dictSetVal_spec dictSdsHash false (zdict zs) de (e_ele a) _ x (sk_dict _ _ Hk) eq_refl Hp)
    as (d' & R & Ed & Hwf & Hc & Hc' & _).
  destruct (delete_entry_items ns p a Hs (sk_distinct _ _ Hk) Ha) as [Ed1 Ed2]. rewrite Ed1 in Hz, Ed2.
  exists z, x, d', (insert_entry (Entry x new (e_ele a) h) (take p ns ++ drop (S p) ns)).
  split_and!; [done|done| |by rewrite items_insert, Ed2].
  assert (ns ≡ₚ a :: (take p ns ++ drop (S p) ns)) as Hperm by (rewrite <- (take_drop_middle ns p a Ha) at 1; symmetry; apply Permutation_middle).
  assert (R ≡ₚ links (take p ns ++ drop (S p) ns)) as HR.
  { apply (Permutation_cons_inv (a := (e_ele a, Some (e_loc a)))). rewrite <- Hc, (sk_links _ _ Hk). unfold links. by rewrite Hperm at 1. }
  split; [done|done| |].
  - cbn [zdict]. unfold links. rewrite Hc', HR, insert_entry_perm. done.
  - pose proof (sk_distinct _ _ Hk) as Hnd. rewrite Hperm in Hnd. rewrite insert_entry_perm. done.
Qed.
Lemma zsetAdd_skiplist_spec zs M score e flags :
  skip_repr zs M -> score_ok score -> Z.of_nat (size M) < 2 ^ 60 ->
  exists zs' r, zsetAdd_skiplist dictSdsHash dict_can_resize old_value zs score e flags = Ret (zs', r) /\
    same_result r (zadd M score e flags).2 /\ skip_repr zs' (zadd M score e flags).1.
Proof.
  intros (ns & Hk & Hl) Hsc Hsz. unfold zsetAdd_skiplist, zadd.
  destruct (skip_find zs ns e Hk) as (d & de & -> & Hk' & Hres). cbn [mbind res_bind]. destruct de as [de|].
  - destruct Hres as (p & a & Ha & <- & Hp & Hv). rewrite (skip_listing _ _ _ _ _ Hk Hl Ha).
    rewrite Hv. cbn [mbind res_bind]. rewrite (score_at_spec _ _ _ _ Hk' Ha). cbn [mbind res_bind].
    destruct (skip_score _ _ _ _ Hk Ha) as [Hok Hsame]. pose proof (zadd_decide_same flags _ _ score Hsame) as Hd.
    pose proof (zadd_decide_ok flags (e_score a) score) as Hdo.
    destruct (zadd_decide flags (e_score a) score) as [| |s], (zadd_decide flags (key_score _) score) as [| |s']; try done;
      [eexists _, _; split; [done|]; split; [done|by exists ns]..|]. cbn in Hd. rewrite <- (feq_same _ _ Hd _ _ Hsame).
    destruct (negb _); [|eexists _, _; split; [done|]; split; [split; [done|by constructor]|by exists ns]].
    destruct (skip_update _ ns p a d de s Hk' eq_refl Ha Hp (Hdo s Hok Hsc eq_refl)) as (z & x & d' & ns' & Ez & Ed & Hk'' & Hi).
    cbn [zsl] in Ez |- *. rewrite Ez. cbn [mbind res_bind]. rewrite Ed. cbn [mbind res_bind fst snd].
    eexists _, _. split; [done|]. split; [split; [done|by constructor]|]. exists ns'. split; [done|]. rewrite Hi, <- (score_key_same _ _ Hd). by apply listing_update.
  - rewrite (skip_absent _ _ _ Hl Hres). destruct (negb _); [|eexists _, _; split; [done|]; split; [done|by exists ns]].
    pose proof (listing_size _ _ Hl) as Hlen. unfold items in Hlen. rewrite length_map in Hlen.
    destruct (link_new_spec _ ns e score Hk' Hsc Hres) as (zs' & x & h & -> & Hk''); [by rewrite Hlen|].
    cbn [mbind res_bind fst snd]. eexists _, _. split; [done|]. split; [done|]. eexists. split; [done|]. rewrite items_insert.
    apply listing_insert; [done|by eapply skip_absent].
Qed.

(** ** Deletion *)

Lemma skip_resize zs ns :
  skip_layout zs ns -> Z.of_nat (length ns) < 2 ^ 60 ->
  exists d b, dictResize dict_can_resize (zdict zs) = Ret (d, b) /\ skip_layout (Zset d (zsl zs)) ns.
Proof.
  intros Hk Hlen. unfold dictResize. destruct (_ || _).
  { eexists _, _. split; [done|]. by destruct zs. }
  pose proof (skip_size _ _ Hk) as Hsz. unfold dictSize in Hsz.
  pose proof (wf_used _ _ _ (sk_dict _ _ Hk) false). pose proof (wf_used _ _ _ (sk_dict _ _ Hk) true).
  apply skip_expand; [done|]. change DICT_HT_INITIAL_SIZE with 4. case_match; lia.
Qed.

Lemma zsetRemove_spec zs M e :
  skip_repr zs M ->
  exists zs', zsetRemoveFromSkiplist dictSdsHash dict_can_resize zs e = Ret (zs', bool_decide (is_Some (M !! e))) /\
    skip_repr zs' (delete e M).
Proof.
  intros (ns & Hk & Hl). unfold zsetRemoveFromSkiplist.
  destruct (dictGenericDelete_spec dictSdsHash false false (fun _ => false) dict_can_resize no_odd_keys (zdict zs) e (sk_dict _ _ Hk))
    as (d & r & Ed & Hwf & _ & Hres). unfold zdictUnlink, dictUnlink. rewrite Ed. cbn [mbind res_bind]. destruct r as [c|].
  - destruct Hres as (v & Hh & Hc). assert ((e, v) ∈ contents (zdict zs)) as Hin by (rewrite Hc; left).
    destruct (skip_link _ _ _ _ Hk Hin) as (p & a & Ha & <- & ->). pose proof (skip_listing _ _ _ _ _ Hk Hl Ha) as HMa.
    destruct c as [|k|k n|k x n]; cbn in Hh; simplify_eq. rewrite bool_decide_eq_true_2 by (rewrite HMa; by eexists).
    pose proof (sk_list _ _ Hk) as [Hly Hs _]. unfold score_at. cbn [zsl]. rewrite (node_at_loc _ _ _ _ Hly Ha).
    cbn [mbind res_bind exp_node score]. destruct (skip_score _ _ _ _ Hk Ha) as [Hok _].
    destruct (delete_node_spec (zsl zs) ns (e_score a) (e_ele a) false (sk_list _ _ Hk) Hok) as (z & -> & Hz). cbn [mbind res_bind].
    rewrite (find_at _ _ ns p a Ha) by (by apply same_key_true || (intros q b Hb [_ E]%same_key_true; by eapply skip_unique)).
    cbn [fmap option_fmap option_map assert mbind res_bind]. eexists. split; [done|].
    destruct (delete_entry_items ns p a Hs (sk_distinct _ _ Hk) Ha) as [E1 E2].
    assert (ns ≡ₚ a :: (take p ns ++ drop (S p) ns)) as Hperm by (rewrite <- (take_drop_middle ns p a Ha) at 1; symmetry; apply Permutation_middle).
    change (score_key (e_score a)) with (e_key a) in Hz. exists (delete_entry (e_key a) (e_ele a) ns). split; [|rewrite E2; by apply listing_delete]. rewrite E1 in Hz |- *. split; [done|done| |].
    + apply (Permutation_cons_inv (a := (e_ele a, Some (e_loc a)))). cbn [zdict]. rewrite <- Hc, (sk_links _ _ Hk). unfold links. by rewrite Hperm at 1.
    + pose proof (sk_distinct _ _ Hk) as Hnd. rewrite Hperm in Hnd. by apply NoDup_cons in Hnd as [_ ?].
  - destruct Hres as (Hc & Hno). assert (M !! e = None) as HMe.
    { eapply skip_absent; [done|]. intros Hin. apply list_elem_of_fmap in Hin as (a & -> & Ha). apply (Hno (Some (e_loc a))).
      rewrite (sk_links _ _ Hk). apply list_elem_of_fmap. by exists a. }
    rewrite HMe, bool_decide_eq_false_2 by (by intros []). eexists. split; [done|]. rewrite delete_id by done.
    exists ns. split; [|done]. destruct Hk as [K1 K2 K3 K4]. split; [done|done| |done]. cbn. by rewrite Hc.
Qed.

Lemma skip_resize_repr zs M :
  skip_repr zs M -> Z.of_nat (size M) < 2 ^ 60 ->
  exists d b, (if htNeedsResize (zdict zs) then dictResize dict_can_resize (zdict zs) else Ret (zdict zs, false)) = Ret (d, b) /\
    skip_repr (Zset d (zsl zs)) M.
Proof.
  intros (ns & Hk & Hl) Hsz. pose proof (listing_size _ _ Hl) as Hlen. unfold items in Hlen. rewrite length_map in Hlen.
  destruct (htNeedsResize _).
  - destruct (skip_resize zs ns Hk) as (d & b & Ed & Hk'); [by rewrite Hlen|]. exists d, b. split; [done|]. by exists ns.
  - exists (zdict zs), false. split; [done|]. exists ns. by destruct zs.
Qed.

(** ** Ranks *)

Lemma skip_rank zs M e k :
  skip_repr zs M -> M !! e = Some k ->
  (forall s, score_ok s -> score_key s = k -> zslGetRank (zsl zs) s e = Ret (Z.of_nat (S (rank_in M (e, k))))) /\
  zlength (zsl zs) = Z.of_nat (size M).
Proof.
  intros (ns & Hk & Hl) HM. apply (listing_lookup _ _ Hl) in HM. apply list_elem_of_fmap in HM as (a & [= -> ->] & Ha).
  apply list_elem_of_lookup in Ha as [p Ha]. split.
  - intros s Hs Es. rewrite (proj1 (rank_spec _ ns _ _ (sk_list _ _ Hk) Hs) p a Ha) by done. do 3 f_equal. symmetry.
    apply (listing_rank _ _ Hl). unfold items. by rewrite list_lookup_fmap, Ha.
  - rewrite (ly_length _ _ (sr_layout _ _ (sk_list _ _ Hk))), <- (listing_size _ _ Hl). unfold items. by rewrite length_map.
Qed.
End Skip.
