(* ===== verification/ZsetList.v ===== *)
(** * Sorted sets as listpacks

    The first encoding of [Zset]: the elements of the listing and their scores
    in turn, an integer score as an integer and any other as text.  What is
    read is the listing; searching, inserting and deleting are its
    operations. *)
From Stdlib Require Import SpecFloat.
From stdpp Require Import gmap.
From S2P Require Import Prelude Mem NumStr Listpack ListpackEnc ListpackNav ListpackEdit ListpackApi.
From S2P Require Import Skiplist PyFloat Score Zset ZsetSpec.

Local Open Scope Z_scope.

(** ** Comparison of elements *)

Lemma sdscmp_range a b : sdscmp a b = -1 \/ sdscmp a b = 0 \/ sdscmp a b = 1.
Proof.
  revert b. induction a as [|x a IH]; intros [|y b]; cbn; auto. destruct (x <? y); [auto|]. destruct (y <? x); [auto|]. apply IH.
Qed.

(** [memcmp] of the common part, then the lengths. *)
Lemma memcmp_sdscmp a b :
  let n := (length a `min` length b)%nat in
  let c := memcmp (take n a) (take n b) in
  (if c =? 0 then Z.sgn (Z.of_nat (length a) - Z.of_nat (length b)) else c) = sdscmp a b.
Proof.
  revert b. induction a as [|x a IH]; intros [|y b]; cbn [length Nat.min take memcmp sdscmp]; try done.
  cbv zeta in IH. destruct (Z.eqb_spec x y) as [->|Hne].
  - rewrite !Z.ltb_irrefl, <- IH. rewrite !Nat2Z.inj_succ. replace (Z.succ _ - Z.succ _) with (Z.of_nat (length a) - Z.of_nat (length b)) by lia. done.
  - destruct (Z.ltb_spec x y); [done|]. destruct (Z.ltb_spec y x); [done|lia].
Qed.

(** ** Items in a listpack *)

Section List.
Context `{Hheap : Heap} `{Husable : Usable} `{Hdec : Decimal}.

Definition float_elem (x : float) : elem :=
  match double2ll x with Some v => EInt v | None => elem_of_string (d2string x) end.
Definition score_elem (k : Z) : elem := float_elem (key_score k).

Definition flat (l : list item) : list elem := concat (map (fun a => [elem_of_string a.1; score_elem a.2]) l).

(** The element at a pointer, as a score. *)
Definition elem_score (e : elem) : float := match e with EInt v => f_of_Z v | EStr s => zzlStrtod s end.

Lemma float_elem_key x : score_ok x -> float_elem x = score_elem (score_key x).
Proof. intros Hx. unfold score_elem. rewrite key_score_key by done. by destruct x as [[]| | |]. Qed.

Lemma float_elem_ok x : score_ok x -> elem_ok (float_elem x).
Proof.
  intros Hx. unfold float_elem. destruct (double2ll x) as [v|] eqn:E; [by apply double2ll_spec in E as [? _]|].
  destruct (d2string_read x Hx E) as (Hb & Hl & _). apply elem_of_string_ok; [done|lia].
Qed.

Lemma key_score_inj y k : score_ok y -> score_key y = k -> k <> 0 -> y = key_score k.
Proof. intros Hy <- Hk. rewrite key_score_key by done. by destruct y. Qed.

Lemma score_elem_ok k : key_ok k -> elem_ok (score_elem k).
Proof. intros Hk. apply float_elem_ok. by apply key_score_ok. Qed.

(** A stored score is read back. *)
Lemma elem_score_elem k : key_ok k -> elem_score (score_elem k) = key_score k.
Proof.
  intros Hk. destruct (key_score_ok k Hk) as [Hx Ek]. destruct (decide (k = 0)) as [->|Hne]; [done|]. unfold score_elem, float_elem.
  destruct (double2ll (key_score k)) as [v|] eqn:E.
  - apply double2ll_spec in E as [_ E]; [|done]. cbn [elem_score]. apply key_score_inj; [apply f_of_Z_ok|congruence|done].
  - destruct (d2string_read _ Hx E) as (Hb & Hl & Hr). unfold elem_of_string.
    destruct (lpStringToInt64 (d2string (key_score k))) as [v|] eqn:Es; cbn [elem_score].
    + rewrite lpStringToInt64_string2ll in Es. apply string2ll_sound in Es as [Hv Es]. by rewrite <- strtod_dec, <- Es.
    + unfold zzlStrtod. by rewrite take_ge by lia.
Qed.

(** *** Positions *)

Lemma length_flat l : length (flat l) = (2 * length l)%nat.
Proof. unfold flat. induction l as [|a l IH]; [done|]. cbn [map concat app length] in *. lia. Qed.

Lemma flat_cons a l : flat (a :: l) = elem_of_string a.1 :: score_elem a.2 :: flat l.
Proof. done. Qed.

Lemma flat_app l l' : flat (l ++ l') = flat l ++ flat l'.
Proof. unfold flat. by rewrite map_app, concat_app. Qed.

Lemma flat_take l i : take (2 * i) (flat l) = flat (take i l).
Proof.
  revert l. induction i as [|i IH]; intros l; [done|]. destruct l as [|a l]; [by rewrite !take_nil|].
  replace (2 * S i)%nat with (S (S (2 * i))) by lia. cbn [take]. rewrite !flat_cons. cbn [take]. by rewrite IH.
Qed.

Lemma flat_drop l i : drop (2 * i) (flat l) = flat (drop i l).
Proof.
  revert l. induction i as [|i IH]; intros l; [done|]. destruct l as [|a l]; [by rewrite !drop_nil|].
  replace (2 * S i)%nat with (S (S (2 * i))) by lia. cbn [drop]. rewrite flat_cons. cbn [drop]. by rewrite IH.
Qed.

Lemma flat_ele l i a : l !! i = Some a -> flat l !! (2 * i)%nat = Some (elem_of_string a.1).
Proof.
  intros Ha. rewrite <- (Nat.add_0_r (2 * i)), <- lookup_drop, flat_drop, (drop_S _ _ _ Ha). done.
Qed.

Lemma flat_score l i a : l !! i = Some a -> flat l !! S (2 * i) = Some (score_elem a.2).
Proof.
  intros Ha. rewrite <- (Nat.add_1_r (2 * i)), <- lookup_drop, flat_drop, (drop_S _ _ _ Ha). done.
Qed.

(** ** Reading *)

Section Reading.
Context (zl : list Z) (l : list item).
Hypothesis Hr : lp_repr zl (flat l).
Hypothesis Hkeys : Forall (fun a => key_ok a.2) l.
Local Abbreviation off := (off (flat l)).

Lemma get_value i e : flat l !! i = Some e -> lpGetValue zl (off i) = Ret (value_at (off i) e).
Proof using Hr.
  intros He. destruct Hr as (num & slack & Hm). unfold lpGetValue, lpGet. rewrite (repr_get _ _ _ _ Hm _ _ He). cbn [mbind res_bind].
  destruct e as [v|s]; [done|]. cbn [value_at]. pose proof (repr_ok _ _ _ _ Hm _ _ He) as [_ Hok]. by rewrite uwrap_id by lia.
Qed.

Lemma get_object i e : flat l !! i = Some e -> lpGetObject zl (off i) = Ret (elem_string e).
Proof using Hr.
  intros He. unfold lpGetObject. rewrite (get_value _ _ He). cbn [mbind res_bind]. destruct Hr as (num & slack & Hm).
  by apply (value_at_string _ _ _ _ _ _ Hm).
Qed.

Lemma key_at i a : l !! i = Some a -> key_ok a.2.
Proof using Hkeys. intros Ha. by apply (Forall_lookup_1 _ _ _ _ Hkeys Ha). Qed.

Lemma get_score i a : l !! i = Some a -> zzlGetScore zl (off (S (2 * i))) = Ret (key_score a.2).
Proof using Hr Hkeys.
  intros Ha. pose proof (flat_score _ _ _ Ha) as He. unfold zzlGetScore. rewrite (get_value _ _ He). cbn [mbind res_bind].
  rewrite <- (elem_score_elem a.2) by (by eapply key_at). destruct (score_elem a.2) as [v|s] eqn:E; [done|]. cbn [value_at].
  destruct Hr as (num & slack & Hm). cbn [value_string]. rewrite (repr_string _ _ _ _ Hm _ _ He). done.
Qed.

Lemma get_ele i a : l !! i = Some a -> lpGetObject zl (off (2 * i)) = Ret a.1.
Proof using Hr. intros Ha. rewrite (get_object _ _ (flat_ele _ _ _ Ha)). by rewrite elem_string_of_string. Qed.

Lemma next_score i a : l !! i = Some a -> lpNext zl (off (2 * i)) = Ret (Some (off (S (2 * i)))).
Proof using Hr.
  intros Ha. destruct Hr as (num & slack & Hm). rewrite (lpNext_spec _ _ _ _ Hm _ _ (flat_ele _ _ _ Ha)).
  by rewrite (ptr_lookup _ _ _ (flat_score _ _ _ Ha)).
Qed.

(** The pointer to item [i]. *)
Definition ele_ptr (i : nat) : option Z := ptr (flat l) (2 * i).

Lemma ele_ptr_Some i a : l !! i = Some a -> ele_ptr i = Some (off (2 * i)).
Proof using Type. intros Ha. by apply (ptr_lookup _ _ _ (flat_ele _ _ _ Ha)). Qed.
Lemma ele_ptr_None i : (length l <= i)%nat -> ele_ptr i = None.
Proof using Type. intros Hi. apply ptr_None. rewrite length_flat. lia. Qed.

Lemma next_ele i a : l !! i = Some a -> lpNext zl (off (S (2 * i))) = Ret (ele_ptr (S i)).
Proof using Hr.
  intros Ha. destruct Hr as (num & slack & Hm). rewrite (lpNext_spec _ _ _ _ Hm _ _ (flat_score _ _ _ Ha)).
  unfold ele_ptr. do 2 f_equal. lia.
Qed.

(** Item [i] as the pair of pointers of [zzlNext]. *)
Definition item_ptr (i : nat) : option (Z * Z) := (fun _ => (off (2 * i), off (S (2 * i)))) <$> l !! i.

Lemma zzlNext_spec i a : l !! i = Some a -> zzlNext zl (off (S (2 * i))) = Ret (item_ptr (S i)).
Proof using Hr.
  intros Ha. unfold zzlNext, item_ptr. rewrite (next_ele _ _ Ha). cbn [mbind res_bind]. destruct (l !! S i) as [b|] eqn:Hb.
  - rewrite (ele_ptr_Some _ _ Hb), (next_score _ _ Hb). done.
  - rewrite ele_ptr_None by (by apply lookup_ge_None). done.
Qed.

Lemma first_item : lpSeek zl 0 = Ret (ele_ptr 0).
Proof using Hr. rewrite (seek_spec _ _ _ Hr). done. Qed.

Lemma zzlLength_spec : exists zl', zzlLength zl = Ret (Z.of_nat (length l), zl') /\ lp_repr zl' (flat l).
Proof using Hr.
  destruct (lpLength_correct _ _ Hr) as (zl' & E & Hr'). exists zl'. unfold zzlLength. rewrite E. cbn [mbind res_bind]. split; [|done].
  rewrite length_flat, Nat2Z.inj_mul. change (Z.of_nat 2) with 2. rewrite Z.mul_comm, Z.div_mul by lia. done.
Qed.

(** The search finds the item of the element. *)
Lemma zzlFind_spec e :
  exists r, zzlFind zl e = Ret r /\
    match r with
    | Some (p, s) => exists i k, l !! i = Some (e, k) /\ p = off (2 * i) /\ s = key_score k
    | None => e ∉ l.*1
    end.
Proof using Hr Hkeys.
  unfold zzlFind. pose proof Hr as (num & slack & Hm). rewrite (lpFirst_spec _ _ _ _ Hm). cbn [mbind res_bind].
  change (ptr (flat l) 0) with (ele_ptr 0). destruct (l !! 0%nat) as [a|] eqn:Ha.
  2:{ apply lookup_ge_None in Ha. rewrite ele_ptr_None by done. exists None. split; [done|]. destruct l; [cbn; set_solver|cbn in Ha; lia]. }
  rewrite (ele_ptr_Some _ _ Ha). apply lookup_lt_Some in Ha. change (off (2 * 0)) with (off 0).
  destruct (find_spec zl (flat l) 0 e 1 Hr) as (o & Ef & Ho); [rewrite length_flat; lia|lia|]. change (Z.of_nat 1) with 1 in Ef.
  rewrite Ef. cbn [mbind res_bind]. destruct o as [j|]; cbn [fmap option_fmap option_map].
  - destruct Ho as (i & el & -> & Hj & Hs & _). replace (0 + i * 2)%nat with (2 * i)%nat in * by lia.
    destruct (l !! i) as [[e' k]|] eqn:Hi.
    2:{ apply lookup_lt_Some in Hj. apply lookup_ge_None in Hi. rewrite length_flat in Hj. lia. }
    rewrite (flat_ele _ _ _ Hi) in Hj. injection Hj as <-. rewrite elem_string_of_string in Hs. cbn [fst] in Hs. subst e'.
    rewrite (next_score _ _ Hi). cbn [mbind res_bind of_option]. rewrite (get_score _ _ Hi). cbn [mbind res_bind].
    eexists. split; [done|]. by exists i, k.
  - exists None. split; [done|]. intros ((e' & k) & -> & Hin)%list_elem_of_fmap. apply list_elem_of_lookup in Hin as [i Hi].
    apply (Ho i (elem_of_string e')); [|by rewrite elem_string_of_string]. replace (0 + i * 2)%nat with (2 * i)%nat by lia.
    by apply (flat_ele _ _ _ Hi).
Qed.
End Reading.
(** ** Sizes *)

Definition ele_size (l : list item) : Z := sumZ (map (fun a => entry_size (elem_of_string a.1)) l).

(** A listpack of at most a million items whose elements take little more than a
    gigabyte stays below the limit of its format, whatever the scores are. *)
Record list_bound (l : list item) : Prop := {
  lb_length : Z.of_nat (length l) <= 2 ^ 20;
  lb_size : ele_size l <= 2 ^ 30 + 2 ^ 24;
}.

Lemma score_entry_size k : key_ok k -> 0 <= entry_size (score_elem k) <= 34.
Proof.
  intros Hk. split; [unfold entry_size; lia|]. destruct (key_score_ok k Hk) as [Hx _]. unfold score_elem, float_elem.
  destruct (double2ll _) as [v|] eqn:E; [pose proof (int_size v); lia|]. destruct (d2string_read _ Hx E) as (_ & Hl & _).
  unfold elem_of_string. destruct (lpStringToInt64 _) as [v|]; [pose proof (int_size v); lia|]. pose proof (str_size (d2string (key_score k))). lia.
Qed.

Lemma flat_total l : Forall (fun a => key_ok a.2) l -> 7 + ele_size l <= lp_total (flat l) <= 7 + ele_size l + 34 * Z.of_nat (length l).
Proof.
  unfold lp_total, ele_size. induction 1 as [|a l Ha _ IH]; [cbn; lia|]. rewrite flat_cons, !body_cons, !length_app. cbn [map sumZ length].
  pose proof (score_entry_size _ Ha). unfold entry_size in *. lia.
Qed.

(** The size does not depend on the order of the items. *)
#[export] Instance ele_size_perm : Proper ((≡ₚ) ==> (=)) ele_size.
Proof. intros l l'. unfold ele_size. induction 1; cbn in *; lia. Qed.

Lemma ele_size_nonneg l : 0 <= ele_size l.
Proof. apply sumZ_nonneg. apply Forall_map, Forall_forall. intros a _. unfold entry_size. lia. Qed.

Lemma ele_size_in l a : a ∈ l -> entry_size (elem_of_string a.1) <= ele_size l.
Proof.
  intros Ha. apply list_elem_of_split in Ha as (l1 & l2 & ->). rewrite <- Permutation_middle. unfold ele_size. cbn [map sumZ].
  pose proof (ele_size_nonneg (l1 ++ l2)). unfold ele_size in *. lia.
Qed.

#[export] Instance list_bound_perm : Proper ((≡ₚ) ==> iff) list_bound.
Proof. intros l l' Hp. split; intros [H1 H2]; split; by rewrite Hp in * || by rewrite <- Hp in *. Qed.

Lemma list_bound_tail a l : list_bound (a :: l) -> list_bound l.
Proof.
  intros [H1 H2]. unfold ele_size in *. cbn [length map sumZ] in *. pose proof (ele_entry_size a.1). split; unfold ele_size; lia.
Qed.

Lemma list_bound_total l : Forall (fun a => key_ok a.2) l -> list_bound l -> lp_total (flat l) < 2 ^ 31.
Proof. intros Hk [H1 H2]. pose proof (flat_total l Hk). lia. Qed.

Lemma list_bound_length l e k : list_bound l -> (e, k) ∈ l -> Z.of_nat (length e) < 2 ^ 31 - 2.
Proof.
  intros [_ H] Hin. pose proof (ele_size_in _ _ Hin) as Hs. cbn [fst] in Hs. pose proof (ele_entry_size e). lia.
Qed.

(** ** Updates *)

Lemma zzlDelete_spec zl l i :
  lp_repr zl (flat l) -> (i < length l)%nat ->
  exists zl', zzlDelete zl (off (flat l) (2 * i)) = Ret zl' /\ lp_repr zl' (flat (take i l ++ drop (S i) l)).
Proof.
  intros (num & slack & Hm) Hi. unfold zzlDelete.
  destruct (lpDeleteRangeWithEntry_spec zl (flat l) num slack Hm (2 * i) 2) as (zl' & -> & Hr); [rewrite length_flat; lia|lia|].
  exists zl'. split; [done|]. rewrite length_flat in Hr. replace (2 `min` (2 * length l - 2 * i))%nat with 2%nat in Hr by lia.
  unfold edited in Hr. cbn [app] in Hr. replace (2 * i + 2)%nat with (2 * S i)%nat in Hr by lia.
  by rewrite flat_take, flat_drop, <- flat_app in Hr.
Qed.

(** What is stored for a score. *)
Definition score_ele (x : float) : lpele :=
  match double2ll x with Some v => EleInt (lpEncodeIntegerGetType v) | None => EleStr (d2string x) end.

Lemma score_ele_inserts x : score_ok x -> inserts (score_ele x) [score_elem (score_key x)] /\ deletes (score_ele x) = false.
Proof.
  intros Hx. rewrite <- float_elem_key by done. unfold score_ele, float_elem. destruct (double2ll x); split; try done; constructor.
Qed.

Lemma zzlInsertAt_eq zl p ele score :
  zzlInsertAt zl p ele score =
  match p with
  | None =>
      r ← lpAppend zl ele; '(zl, _) ← of_option r;
      r ← (n ← lpGetTotalBytes zl; lpInsert zl (score_ele score) (n - 1) LP_BEFORE);
      '(zl, _) ← of_option r; Ret zl
  | Some p =>
      r ← lpInsert zl (EleStr ele) p LP_BEFORE; '(zl, s) ← of_option r; sptr ← of_option s;
      r ← lpInsert zl (score_ele score) sptr LP_AFTER;
      '(zl, _) ← of_option r; Ret zl
  end.
Proof. unfold zzlInsertAt, score_ele. destruct p, (double2ll score); done. Qed.

Section Insert.
Context (zl : list Z) (es : list elem) (x : lpele) (nw : elem).
Hypothesis Hr : lp_repr zl es.
Hypothesis Hx : inserts x [nw].
Hypothesis Hd : deletes x = false.
Hypothesis Hok : elem_ok nw.

Lemma insert_before j :
  (j <= length es)%nat -> lp_total (take j es ++ nw :: drop j es) < 2 ^ 32 ->
  exists zl', lpInsert zl x (off es j) LP_BEFORE = Ret (Some (zl', Some (off (take j es ++ nw :: drop j es) j))) /\
    lp_repr zl' (take j es ++ nw :: drop j es).
Proof using Hr Hx Hd Hok.
  intros Hj Ht. pose proof (insert_spec zl es x [nw] j LP_BEFORE Hr Hx) as Hi. unfold edit_at in Hi. rewrite Hd in Hi.
  specialize (Hi ltac:(by repeat constructor) ltac:(lia) ltac:(done)). unfold edited in Hi. rewrite Nat.add_0_r in Hi.
  rewrite decide_True in Hi by done. exact Hi.
Qed.

Lemma insert_after j :
  (j < length es)%nat -> lp_total (take (S j) es ++ nw :: drop (S j) es) < 2 ^ 32 ->
  exists zl' p, lpInsert zl x (off es j) LP_AFTER = Ret (Some (zl', p)) /\ lp_repr zl' (take (S j) es ++ nw :: drop (S j) es).
Proof using Hr Hx Hd Hok.
  intros Hj Ht. pose proof (insert_spec zl es x [nw] j LP_AFTER Hr Hx) as Hi. unfold edit_at in Hi. rewrite Hd in Hi.
  specialize (Hi ltac:(by repeat constructor) ltac:(lia) ltac:(done)). unfold edited in Hi. rewrite Nat.add_0_r in Hi.
  rewrite decide_True in Hi by done. destruct Hi as (zl' & E & Hr'). by eexists _, _.
Qed.
End Insert.

Lemma total_insert_le es1 e es2 : lp_total (es1 ++ es2) <= lp_total (es1 ++ e :: es2).
Proof. unfold lp_total. rewrite !body_app, body_cons, !length_app. lia. Qed.

(** An item inserted at position [i]; past the last one it is appended. *)
Lemma zzlInsertAt_spec zl l i e score :
  lp_repr zl (flat l) -> (i <= length l)%nat -> string_ok e -> score_ok score ->
  lp_total (flat (take i l ++ (e, score_key score) :: drop i l)) < 2 ^ 32 ->
  exists zl', zzlInsertAt zl (ele_ptr l i) e score = Ret zl' /\
    lp_repr zl' (flat (take i l ++ (e, score_key score) :: drop i l)).
Proof.
  intros Hr Hi [Hb Hs] Hsc Ht. rewrite zzlInsertAt_eq. rewrite flat_app, flat_cons in *. cbn [fst snd] in *.
  rewrite <- flat_take, <- flat_drop in *. set (es := flat l) in *. set (j := (2 * i)%nat) in *. set (k := score_key score) in *.
  assert (j <= length es)%nat as Hj by (unfold es, j; rewrite length_flat; lia).
  destruct (score_ele_inserts score Hsc) as [Hins Hdel]. assert (elem_ok (score_elem k)) as Hok by (by apply score_elem_ok, score_key_ok).
  pose proof (elem_of_string_ok e Hb Hs) as Hoke. set (ee := elem_of_string e) in *.
  assert (take j es ++ ee :: score_elem k :: drop j es = (take j es ++ [ee]) ++ score_elem k :: drop j es) as Esplit by (by rewrite <- app_assoc).
  assert (take j es ++ ee :: drop j es = (take j es ++ [ee]) ++ drop j es) as Esplit1 by (by rewrite <- app_assoc).
  set (es1 := take j es ++ ee :: drop j es) in *.
  assert (lp_total es1 < 2 ^ 32) as Ht1 by (rewrite Esplit1; rewrite Esplit in Ht; pose proof (total_insert_le (take j es ++ [ee]) (score_elem k) (drop j es)); lia).
  assert (length (take j es ++ [ee]) = S j) as Hlen by (rewrite length_app, length_take; cbn; lia).
  assert (take (S j) es1 = take j es ++ [ee]) as Etake by (by rewrite Esplit1, <- Hlen, take_app_length).
  assert (drop (S j) es1 = drop j es) as Edrop by (by rewrite Esplit1, <- Hlen, drop_app_length).
  assert (length es1 = S (length es)) as Hlen1 by (unfold es1; rewrite length_app, length_take; cbn; rewrite length_drop; lia).
  destruct (ele_ptr l i) as [p|] eqn:Ep.
  - assert (p = off es j) as ->.
    { unfold ele_ptr, ptr in Ep. fold es j in Ep. destruct (es !! j); [|done]. by injection Ep. }
    destruct (insert_before zl es (EleStr e) ee Hr (ins_string e) eq_refl Hoke j Hj Ht1) as (zl1 & -> & Hr1). fold es1 in Hr1 |- *.
    cbn [mbind res_bind of_option].
    destruct (insert_after zl1 es1 (score_ele score) (score_elem k) Hr1 Hins Hdel Hok j) as (zl2 & q & -> & Hr2); [lia|by rewrite Etake, Edrop, <- Esplit|].
    cbn [mbind res_bind of_option]. exists zl2. split; [done|]. by rewrite Etake, Edrop, <- Esplit in Hr2.
  - assert (j = length es) as Ej.
    { unfold ele_ptr, ptr in Ep. fold es j in Ep. destruct (es !! j) eqn:E; [done|]. apply lookup_ge_None in E. lia. }
    unfold lpAppend. pose proof Hr as (num & slack & Hm). rewrite (repr_total _ _ _ _ Hm). cbn [mbind res_bind]. rewrite <- off_end, <- Ej.
    destruct (insert_before zl es (EleStr e) ee Hr (ins_string e) eq_refl Hoke j Hj Ht1) as (zl1 & -> & Hr1). fold es1 in Hr1 |- *.
    cbn [mbind res_bind of_option]. pose proof Hr1 as (num1 & slack1 & Hm1). rewrite (repr_total _ _ _ _ Hm1). cbn [mbind res_bind].
    rewrite <- off_end, Hlen1, <- Ej.
    destruct (insert_before zl1 es1 (score_ele score) (score_elem k) Hr1 Hins Hdel Hok (S j)) as (zl2 & -> & Hr2); [lia|by rewrite Etake, Edrop, <- Esplit|].
    cbn [mbind res_bind of_option]. exists zl2. split; [done|]. by rewrite Etake, Edrop, <- Esplit in Hr2.
Qed.

Lemma zzlCompareElements_spec zl l i a e :
  lp_repr zl (flat l) -> l !! i = Some a -> Z.of_nat (length a.1) < 2 ^ 31 -> Z.of_nat (length e) < 2 ^ 31 ->
  exists c, zzlCompareElements zl (off (flat l) (2 * i)) e = Ret c /\ Z.sgn c = sdscmp a.1 e.
Proof.
  intros Hr Ha H1 H2. unfold zzlCompareElements. pose proof (get_ele zl l Hr _ _ Ha) as Hg. unfold lpGetObject in Hg.
  destruct (lpGetValue zl _) as [v| |]; [|done|done]. cbn [mbind res_bind] in *. rewrite Hg. cbn [mbind res_bind]. eexists. split; [done|].
  pose proof (memcmp_sdscmp a.1 e) as Hm. cbv zeta in Hm.
  assert (Z.to_nat (if Z.of_nat (length a.1) <? Z.of_nat (length e) then Z.of_nat (length a.1) else Z.of_nat (length e))
    = (length a.1 `min` length e)%nat) as -> by (destruct (Z.ltb_spec (Z.of_nat (length a.1)) (Z.of_nat (length e))); lia).
  pose proof (sdscmp_range a.1 e). destruct (_ =? 0).
  - rewrite swrap_id by lia. done.
  - rewrite Hm. lia.
Qed.

(** The test of the loop: the item at the pointer is not smaller. *)
Lemma insert_test b e (score : float) (c : Z) :
  key_ok b.2 -> score_ok score -> Z.sgn c = sdscmp b.1 e -> e <> b.1 ->
  (score <? key_score b.2)%F || ((key_score b.2 =? score)%F && (0 <? c)) = negb (item_ltb b (e, score_key score)).
Proof.
  intros Hb Hs Hc Hne. destruct (key_score_ok _ Hb) as [Hok Ek]. rewrite flt_key, feq_key, Ek by done.
  unfold item_ltb, key_lt. cbn [fst snd]. pose proof (sdscmp_eq b.1 e) as He. pose proof (sdscmp_range b.1 e).
  assert (sdscmp b.1 e <> 0) as Hnz by (intros E; apply He in E; congruence).
  destruct (Z.ltb_spec (score_key score) b.2), (Z.ltb_spec b.2 (score_key score)), (Z.eqb_spec b.2 (score_key score)),
    (Z.ltb_spec 0 c), (Z.ltb_spec (sdscmp b.1 e) 0); cbn; lia.
Qed.

Section Insertion.
Context (zl : list Z) (l : list item) (e : list Z) (score : float).
Hypothesis Hr : lp_repr zl (flat l).
Hypothesis Hkeys : Forall (fun a => key_ok a.2) l.
Hypothesis Hsc : score_ok score.
Hypothesis He : string_ok e.
Hypothesis Hnew : e ∉ l.*1.
Hypothesis Hlens : Forall (fun a : item => Z.of_nat (length a.1) < 2 ^ 31) ((e, score_key score) :: l).
Hypothesis Htotal : lp_total (flat (insert_item (e, score_key score) l)) < 2 ^ 32.

Lemma insert_before_head i :
  (i <= length l)%nat -> Forall (fun b => item_ltb b (e, score_key score) = true) (take i l) ->
  (forall b, l !! i = Some b -> item_ltb b (e, score_key score) = false) ->
  exists zl', zzlInsertAt zl (ele_ptr l i) e score = Ret zl' /\ lp_repr zl' (flat (insert_item (e, score_key score) l)).
Proof using Hr Hsc He Htotal.
  intros Hi Hlo Hhi. assert (insert_item (e, score_key score) l = take i l ++ (e, score_key score) :: drop i l) as E.
  { rewrite <- (take_drop i l) at 1. apply insert_item_at; [done|]. intros b Hb. apply Hhi.
    rewrite <- (Nat.add_0_r i), <- lookup_drop. by destruct (drop i l). }
  rewrite E in *. by apply zzlInsertAt_spec.
Qed.

Lemma insert_loop_spec fuel i :
  (i <= length l)%nat -> (length l - i <= fuel)%nat -> Forall (fun b => item_ltb b (e, score_key score) = true) (take i l) ->
  exists zl', insert_loop fuel zl (ele_ptr l i) e score = Ret zl' /\ lp_repr zl' (flat (insert_item (e, score_key score) l)).
Proof using All.
  revert i. induction fuel as [|fuel IH]; intros i Hi Hf Hlo.
  { assert (i = length l) as -> by lia. rewrite ele_ptr_None by done. cbn [insert_loop]. rewrite <- (ele_ptr_None l (length l)) by done.
    apply insert_before_head; [done|done|]. intros b Hb%lookup_lt_Some. lia. }
  destruct (l !! i) as [b|] eqn:Hb.
  2:{ apply lookup_ge_None in Hb. rewrite ele_ptr_None by done. cbn [insert_loop]. rewrite <- (ele_ptr_None l i) by done.
      apply insert_before_head; [done|done|]. intros b Hb'%lookup_lt_Some. lia. }
  rewrite (ele_ptr_Some _ _ _ Hb). cbn [insert_loop]. rewrite (next_score _ _ Hr _ _ Hb). cbn [mbind res_bind of_option].
  rewrite (get_score _ _ Hr Hkeys _ _ Hb). cbn [mbind res_bind]. rewrite <- (ele_ptr_Some _ _ _ Hb).
  apply Forall_cons in Hlens as [Hle Hll]. cbn [fst] in Hle. pose proof (Forall_lookup_1 _ _ _ _ Hll Hb) as Hlb.
  destruct (zzlCompareElements_spec zl l i b e Hr Hb Hlb Hle) as (c & Hc & Hsgn).
  assert (e <> b.1) as Hne by (intros ->; apply Hnew, list_elem_of_fmap; exists b; split; [done|by eapply list_elem_of_lookup_2]).
  pose proof (insert_test b e score c (key_at l Hkeys _ _ Hb) Hsc Hsgn Hne) as Htest.
  pose proof (lookup_lt_Some _ _ _ Hb) as Hil.
  assert (item_ltb b (e, score_key score) = true -> exists zl',
    (next ← lpNext zl (off (flat l) (S (2 * i))); insert_loop fuel zl next e score) = Ret zl' /\
    lp_repr zl' (flat (insert_item (e, score_key score) l))) as Hgo.
  { intros Hlt. rewrite (next_ele _ _ Hr _ _ Hb). cbn [mbind res_bind]. apply IH; [lia|lia|].
    rewrite (take_S_r _ _ _ Hb). apply Forall_app. split; [done|]. by constructor. }
  assert (item_ltb b (e, score_key score) = false -> exists zl', zzlInsertAt zl (ele_ptr l i) e score = Ret zl' /\
    lp_repr zl' (flat (insert_item (e, score_key score) l))) as Hhere.
  { intros Hge. apply insert_before_head; [lia|done|]. intros b' Hb'. by simplify_eq. }
  destruct (score <? key_score b.2)%F; cbn [orb] in Htest; [by apply Hhere, negb_true_iff|].
  destruct (key_score b.2 =? score)%F; cbn [andb mbind res_bind] in *.
  - rewrite (ele_ptr_Some _ _ _ Hb) in *. rewrite Hc. cbn [mbind res_bind]. destruct (0 <? c); [by apply Hhere, negb_true_iff|by apply Hgo, negb_false_iff].
  - by apply Hgo, negb_false_iff.
Qed.

Lemma zzlInsert_spec : exists zl', zzlInsert zl e score = Ret zl' /\ lp_repr zl' (flat (insert_item (e, score_key score) l)).
Proof using All.
  unfold zzlInsert. rewrite (first_item _ _ Hr). cbn [mbind res_bind]. apply insert_loop_spec; [lia| |constructor].
  destruct Hr as (num & slack & Hm). pose proof (repr_length _ _ _ _ Hm) as Hl. rewrite length_flat in Hl. lia.
Qed.
End Insertion.
End List.
