(* ===== verification/ZsetConvert.v ===== *)
(** * Changing the encoding of a sorted set

    The loops that walk over one encoding and build the other, and the copy of
    an object: [zsetConvertAndExpand] and [zsetDup] of [Zset]. *)
From stdpp Require Import gmap.
From S2P Require Import Prelude Mem NumStr Listpack ListpackEnc ListpackNav ListpackEdit ListpackApi.
From S2P Require Import Dict Skiplist SkiplistUpdate PyFloat Score Zset ZsetSpec ZsetSkip ZsetList.

Local Open Scope Z_scope.

Section Convert.
Context `{Hheap : Heap} `{Husable : Usable} `{Hdec : Decimal} `{Halloc : NodeAlloc}.
Context (dictSdsHash : list Z -> Z) (dict_can_resize : dictResizeEnable) (old_value : positive).

(** ** Ranks in a listpack *)

Lemma list_rank_loop_spec zl l e fuel i :
  lp_repr zl (flat l) -> (length l - i <= fuel)%nat -> e ∉ (take i l).*1 ->
  exists r, list_rank_loop fuel zl (item_ptr l i) e (Z.of_nat i + 1) = Ret r /\
    match r with
    | Some (rank, sptr) => exists j k, l !! j = Some (e, k) /\ rank = Z.of_nat j + 1 /\ sptr = off (flat l) (S (2 * j))
    | None => e ∉ l.*1
    end.
Proof using Type.
  intros Hr. revert i. induction fuel as [|fuel IH]; intros i Hf Hno; unfold item_ptr.
  { rewrite lookup_ge_None_2 by lia. exists None. split; [done|]. by rewrite take_ge in Hno by lia. }
  destruct (l !! i) as [a|] eqn:Ha.
  2:{ exists None. split; [done|]. apply lookup_ge_None in Ha. by rewrite take_ge in Hno by lia. }
  cbn [fmap option_fmap option_map list_rank_loop]. rewrite (lpCompare_correct _ _ _ _ e Hr (flat_ele _ _ _ Ha)), elem_string_of_string.
  cbn [mbind res_bind]. destruct a as [e' k]. cbn [fst]. case_bool_decide as E.
  - subst e'. eexists. split; [done|]. by exists i, k.
  - rewrite (zzlNext_spec _ _ Hr _ _ Ha). cbn [mbind res_bind]. replace (Z.of_nat i + 1 + 1) with (Z.of_nat (S i) + 1) by lia. apply IH; [lia|].
    rewrite (take_S_r _ _ _ Ha), fmap_app. intros [Hin|Hin]%elem_of_app; [done|]. cbn in Hin.
    apply elem_of_cons in Hin as [->|Hin]; [done|by apply not_elem_of_nil in Hin].
Qed.

(** ** From a listpack to a skip list *)

Lemma insert_last (l : list item) a : StronglySorted item_lt (l ++ [a]) -> insert_item a l = l ++ [a].
Proof using Type.
  intros Hs. rewrite <- (app_nil_r l) at 1. apply insert_item_at; [|done]. apply Forall_forall. intros b Hb.
  apply StronglySorted_app in Hs as (Hs & _). apply Hs; [done|left].
Qed.

Lemma sorted_take (l : list item) i : StronglySorted item_lt l -> StronglySorted item_lt (take i l).
Proof using Type. intros Hs. rewrite <- (take_drop i l) in Hs. by apply StronglySorted_app in Hs as (_ & ? & _). Qed.

Lemma load_loop_spec zl l fuel i zs ns :
  lp_repr zl (flat l) -> Forall (fun a => key_ok a.2) l -> StronglySorted item_lt l -> NoDup l.*1 -> Z.of_nat (length l) < 2 ^ 60 ->
  (i <= length l)%nat -> (length l - i <= fuel)%nat -> skip_layout dictSdsHash zs ns -> items ns = take i l ->
  exists zs' ns', load_loop dictSdsHash dict_can_resize old_value fuel zl (item_ptr l i) zs = Ret zs' /\
    skip_layout dictSdsHash zs' ns' /\ items ns' = l.
Proof.
  intros Hr Hkeys Hs Hnd Hlen. revert i zs ns. induction fuel as [|fuel IH]; intros i zs ns Hi Hf Hk Hit; unfold item_ptr.
  { rewrite lookup_ge_None_2 by lia. exists zs, ns. split; [done|]. split; [done|]. by rewrite take_ge in Hit by lia. }
  destruct (l !! i) as [a|] eqn:Ha.
  2:{ apply lookup_ge_None in Ha. exists zs, ns. split; [done|]. split; [done|]. by rewrite take_ge in Hit by lia. }
  cbn [fmap option_fmap option_map load_loop]. rewrite (get_score _ _ Hr Hkeys _ _ Ha), (get_ele _ _ Hr _ _ Ha). cbn [mbind res_bind].
  pose proof (lookup_lt_Some _ _ _ Ha) as Hil.
  assert (length ns = i) as Hns by (apply (f_equal length) in Hit; unfold items in Hit; rewrite length_map, length_take in Hit; lia).
  destruct (link_new_spec dictSdsHash dict_can_resize old_value zs ns a.1 (key_score a.2) Hk) as (zs1 & x & h & -> & Hk1).
  - apply (key_score_ok _ (key_at l Hkeys _ _ Ha)).
  - rewrite <- items_elems, Hit. rewrite <- (take_drop_middle l i a Ha), fmap_app in Hnd. apply NoDup_app in Hnd as (_ & Hno & _).
    intros Hin. apply (Hno _ Hin). cbn. left.
  - lia.
  - cbn [mbind res_bind]. rewrite (zzlNext_spec _ _ Hr _ _ Ha). cbn [mbind res_bind]. apply (IH (S i) zs1 _ ltac:(lia) ltac:(lia) Hk1).
    rewrite items_insert, Hit. unfold item_of, e_key. cbn [e_ele e_score]. rewrite (proj2 (key_score_ok _ (key_at l Hkeys _ _ Ha))).
    rewrite (take_S_r _ _ _ Ha). destruct a as [e k]. apply insert_last. rewrite <- (take_S_r _ _ _ Ha). by apply sorted_take.
Qed.

(** ** From a skip list to a listpack *)

Lemma load_level_eq (m m' : Skiplist.heap) x i : m !! x = m' !! x -> load_level m x i = load_level m' x i.
Proof using Type. intros E. unfold load_level, node_at. by rewrite E. Qed.

Lemma unload_loop_spec z ns fuel i m zl :
  layout z ns -> scores_ok ns -> Forall (fun a => string_ok (e_ele a)) ns -> lp_total (flat (items ns)) < 2 ^ 32 ->
  (i <= length ns)%nat -> (length ns - i <= fuel)%nat -> (forall p a, ns !! p = Some a -> (i <= p)%nat -> m !! e_loc a = mem z !! e_loc a) ->
  lp_repr zl (flat (take i (items ns))) ->
  exists zl', unload_loop fuel m (e_loc <$> ns !! i) zl = Ret zl' /\ lp_repr zl' (flat (items ns)).
Proof using Type.
  intros Hly Hkeys Hstr Htot. revert i m zl. induction fuel as [|fuel IH]; intros i m zl Hi Hf Hm Hr.
  { rewrite lookup_ge_None_2 by lia. exists zl. split; [done|]. by rewrite take_ge in Hr by (unfold items; rewrite length_map; lia). }
  destruct (ns !! i) as [a|] eqn:Ha; cbn [fmap option_fmap option_map unload_loop].
  2:{ apply lookup_ge_None in Ha. exists zl. split; [done|]. by rewrite take_ge in Hr by (unfold items; rewrite length_map; lia). }
  pose proof (lookup_lt_Some _ _ _ Ha) as Hil. pose proof (Hm i a Ha (le_n i)) as Hma.
  unfold node_at. rewrite Hma, (ly_nodes _ _ Hly _ _ Ha). cbn [of_option mbind res_bind exp_node ele_of ele score].
  assert (items ns !! i = Some (item_of a)) as Hia by (unfold items; by rewrite list_lookup_fmap, Ha).
  pose proof (scores_lookup _ _ _ Hkeys Ha) as Hsc.
  pose proof (zzlInsertAt_spec zl (take i (items ns)) i (e_ele a) (e_score a) Hr) as Hins.
  assert (length (take i (items ns)) = i) as Hlt by (unfold items; rewrite length_take, length_map; lia).
  rewrite (take_ge (take i _)), (drop_ge (take i _)), ele_ptr_None in Hins by lia.
  change (e_ele a, score_key (e_score a)) with (item_of a) in Hins. rewrite <- (take_S_r _ _ _ Hia) in Hins.
  destruct Hins as (zl1 & -> & Hr1); [lia|by apply (Forall_lookup_1 _ _ _ _ Hstr Ha)|done| |].
  { rewrite <- (take_drop (S i) (items ns)), flat_app in Htot. pose proof (total_mono (flat (take (S i) (items ns))) (flat (drop (S i) (items ns)))). lia. }
  cbn [mbind res_bind]. rewrite (load_level_eq m (mem z)) by done.
  destruct (bottom_level z ns (S i) Hly) as [Hb Hfw]; [lia|]. cbn [pos_loc] in Hb. rewrite Ha in Hb. rewrite Hb. cbn [mbind res_bind]. rewrite Hfw.
  apply IH; [lia|lia| |done]. intros p b Hb' Hp. rewrite lookup_delete_ne; [apply (Hm p b Hb'); lia|].
  intros E. assert (i = p) as ->; [|lia]. eapply (entry_loc_inj (header z)); [apply Hly|done|done|done].
Qed.

(** ** Copies *)

Lemma insert_first (l : list item) a : StronglySorted item_lt (a :: l) -> insert_item a l = a :: l.
Proof using Type.
  intros Hs. apply StronglySorted_inv in Hs as [_ Hall]. destruct l as [|b l]; [done|]. cbn [insert_item].
  apply Forall_cons in Hall as [Hab _]. unfold item_ltb. by rewrite (key_lt_asym _ _ _ _ Hab).
Qed.

(** The nodes are copied from the last to the first. *)
Lemma dup_loop_spec z ns n zs ns' :
  layout z ns -> scores_ok ns -> StronglySorted entry_lt ns -> NoDup (map e_ele ns) ->
  Z.of_nat (length ns) < 2 ^ 60 -> (n <= length ns)%nat -> skip_layout dictSdsHash zs ns' -> items ns' = drop n (items ns) ->
  exists zs' ns'', dup_loop dictSdsHash dict_can_resize old_value n (mem z) (prev_loc ns n) zs = Ret zs' /\
    skip_layout dictSdsHash zs' ns'' /\ items ns'' = items ns.
Proof.
  intros Hly Hkeys Hs Hnd Hlen. revert zs ns'. induction n as [|n IH]; intros zs ns' Hn Hk Hit; cbn [dup_loop]; [by exists zs, ns'|].
  destruct (lookup_lt_is_Some_2 ns n) as [a Ha]; [lia|]. cbn [prev_loc]. rewrite Ha. cbn [fmap option_fmap option_map of_option mbind res_bind].
  rewrite (node_at_loc _ _ _ _ Hly Ha). cbn [mbind res_bind exp_node ele_of ele of_option score backward].
  assert (items ns !! n = Some (item_of a)) as Hia by (unfold items; by rewrite list_lookup_fmap, Ha).
  assert (length ns' = length ns - S n)%nat as Hns by (apply (f_equal length) in Hit; unfold items in Hit; rewrite length_drop, !length_map in Hit; lia).
  destruct (link_new_spec dictSdsHash dict_can_resize old_value zs ns' (e_ele a) (e_score a) Hk) as (zs1 & x & h & El & Hk1).
  - by eapply scores_lookup.
  - rewrite <- items_elems, Hit. rewrite <- items_elems, <- (take_drop_middle _ _ _ Hia), fmap_app in Hnd.
    apply NoDup_app in Hnd as (_ & _ & Hnd). cbn in Hnd. by apply NoDup_cons in Hnd as [? _].
  - lia.
  - unfold link_new in El. destruct (zslInsertNew _ _ _) as [[z1 y]| |]; [|done|done]. cbn [mbind res_bind] in *.
    destruct (zdictAdd _ _ _ _ _ _) as [[d ok]| |]; [|done|done]. cbn [mbind res_bind] in *. destruct ok; [|done]. cbn in El. simplify_eq.
    apply (IH _ _ ltac:(lia) Hk1). rewrite items_insert, Hit. rewrite (drop_S _ _ _ Hia). apply insert_first.
    rewrite <- (drop_S _ _ _ Hia). apply items_sorted in Hs. rewrite <- (take_drop n (items ns)) in Hs. by apply StronglySorted_app in Hs as (_ & _ & ?).
Qed.
End Convert.
