(* ===== verification/ZsetRefine.v ===== *)
(** * Sorted sets refine finite maps

    Both encodings of [Zset] behind one relation: an object represents a finite
    map from elements to scores.  Every operation returns, whichever encoding
    it meets, has the effect of [ZsetSpec] on the map, and leaves an object
    that represents the result. *)
From stdpp Require Import gmap.
From S2P Require Import Prelude Mem NumStr Listpack ListpackEnc ListpackNav ListpackEdit ListpackApi.
From S2P Require Import Dict Skiplist SkiplistUpdate PyFloat Score Zset ZsetSpec ZsetSkip ZsetList ZsetConvert.

Local Open Scope Z_scope.

(** The functions of a listpack take the length of an element in 32 bits. *)
Definition element_ok (e : list Z) : Prop := bytes e /\ Z.of_nat (length e) < 2 ^ 32.

Record zmap_ok (M : zmap) : Prop := {
  zm_keys : keys_ok M;
  zm_elements : map_Forall (fun e _ => element_ok e) M;
  zm_size : Z.of_nat (size M) < 2 ^ 60;
}.

Lemma zmap_ok_insert M e k :
  zmap_ok M -> element_ok e -> key_ok k -> Z.of_nat (size M) + 1 < 2 ^ 60 -> zmap_ok (<[e := k]> M).
Proof.
  intros [H1 H2 H3] He Hk Hs. split; [by apply map_Forall_insert_2|by apply map_Forall_insert_2|].
  rewrite map_size_insert. destruct (M !! e); unfold id; lia.
Qed.

Lemma zmap_ok_delete M e : zmap_ok M -> zmap_ok (delete e M).
Proof.
  intros [H1 H2 H3]. split; [by apply map_Forall_delete|by apply map_Forall_delete|].
  rewrite map_size_delete. destruct (M !! e); unfold id; lia.
Qed.

Lemma zadd_ok M score e flags :
  zmap_ok M -> element_ok e -> score_ok score -> Z.of_nat (size M) + 1 < 2 ^ 60 -> zmap_ok (zadd M score e flags).1.
Proof.
  intros HM He Hsc Hs. pose proof (zadd_size M score e flags). split; [apply zadd_keys_ok; [apply HM|done]| |lia].
  unfold zadd. repeat case_match; cbn [fst]; try apply HM; apply map_Forall_insert_2; done || apply HM.
Qed.

Lemma listing_keys M l : zmap_ok M -> listing M l -> Forall (fun a => key_ok a.2) l.
Proof.
  intros HM Hl. apply Forall_forall. intros [e k] Hin. apply (listing_lookup _ _ Hl) in Hin. apply (zm_keys _ HM e k Hin).
Qed.

Section Refine.
Context `{Hheap : Heap} `{Husable : Usable} `{Hdec : Decimal} `{Halloc : NodeAlloc}.
Context (dictSdsHash : list Z -> Z) (dict_can_resize : dictResizeEnable) (old_value : positive).
Context (zset_max_listpack_entries zset_max_listpack_value : Z).

Definition list_repr (zl : list Z) (M : zmap) : Prop := exists l, listing M l /\ lp_repr zl (flat l) /\ list_bound l.

Definition zobj_repr (o : zobj) (M : zmap) : Prop :=
  zmap_ok M /\
  match o with
  | OBJ_ENCODING_LISTPACK zl => list_repr zl M
  | OBJ_ENCODING_SKIPLIST zs => skip_repr dictSdsHash zs M
  end.

(** ** Length and creation *)

Lemma zsetLength_spec o M :
  zobj_repr o M -> exists o', zsetLength o = Ret (Z.of_nat (size M), o') /\ zobj_repr o' M /\
    match o, o' with
    | OBJ_ENCODING_LISTPACK _, OBJ_ENCODING_LISTPACK _ => True
    | OBJ_ENCODING_SKIPLIST zs, OBJ_ENCODING_SKIPLIST zs' => zs' = zs
    | _, _ => False
    end.
Proof.
  intros [HM Ho]. destruct o as [zl|zs]; cbn [zsetLength].
  - destruct Ho as (l & Hl & Hr & Hb). destruct (zzlLength_spec zl l Hr) as (zl' & -> & Hr'). cbn [mbind res_bind].
    rewrite (listing_size _ _ Hl). eexists. split; [done|]. split; [|done]. split; [done|]. by exists l.
  - pose proof Ho as (ns & Hk & Hl). exists (OBJ_ENCODING_SKIPLIST zs). split; [|split; [by split|done]].
    rewrite (ly_length _ _ (sr_layout _ _ (sk_list _ _ _ Hk))), <- (listing_size _ _ Hl). unfold items. by rewrite length_map.
Qed.

Lemma zmap_ok_empty : zmap_ok ∅.
Proof. split; [done|done|]. by rewrite map_size_empty. Qed.

Lemma zsetTypeCreate_spec size_hint val_len_hint :
  0 <= size_hint <= 2 ^ 60 ->
  exists o, zsetTypeCreate zset_max_listpack_entries zset_max_listpack_value size_hint val_len_hint = Ret o /\ zobj_repr o ∅.
Proof.
  intros Hs. unfold zsetTypeCreate. destruct (_ && _).
  - destruct (lpNew_repr 0) as (zl & -> & Hr). eexists. split; [done|]. split; [apply zmap_ok_empty|].
    exists []. split; [apply listing_empty|]. split; [done|]. split; [done|]. unfold ele_size. cbn. lia.
  - destruct (skip_expand dictSdsHash _ _ size_hint (createZsetObject_layout dictSdsHash) Hs) as (d & b & -> & Hk). cbn [mbind res_bind].
    eexists. split; [done|]. split; [apply zmap_ok_empty|]. exists []. split; [done|apply listing_empty].
Qed.

(** ** Conversion *)

Lemma convert_to_skiplist zl M cap :
  zmap_ok M -> list_repr zl M -> 0 <= cap <= 2 ^ 60 ->
  exists zs, zsetConvertAndExpand dictSdsHash dict_can_resize old_value (OBJ_ENCODING_LISTPACK zl) true cap = Ret (OBJ_ENCODING_SKIPLIST zs) /\
    skip_repr dictSdsHash zs M.
Proof.
  intros HM (l & Hl & Hr & Hb) Hc. unfold zsetConvertAndExpand.
  destruct (skip_expand dictSdsHash _ _ cap (createZsetObject_layout dictSdsHash) Hc) as (d & b & -> & Hk). cbn [mbind res_bind].
  rewrite (first_item _ _ Hr). cbn [mbind res_bind].
  assert (match ele_ptr l 0 with
          | Some eptr => s ← lpNext zl eptr; sptr ← of_option s; Ret (Some (eptr, sptr))
          | None => Ret None
          end = Ret (item_ptr l 0)) as ->.
  { unfold item_ptr. destruct (l !! 0%nat) as [a|] eqn:Ha.
    - rewrite (ele_ptr_Some _ _ _ Ha), (next_score _ _ Hr _ _ Ha). done.
    - rewrite ele_ptr_None by (by apply lookup_ge_None). done. }
  cbn [mbind res_bind]. pose proof Hr as (num & slack & Hm). pose proof (repr_length _ _ _ _ Hm) as Hlen. rewrite length_flat in Hlen.
  destruct (load_loop_spec dictSdsHash dict_can_resize old_value zl l (length zl) 0
    (Zset d (zsl createZsetObject)) [] Hr) as (zs & ns & -> & Hk' & Hit);
    [by eapply listing_keys|apply Hl|by eapply listing_nodup|rewrite (listing_size _ _ Hl); apply HM|lia|lia|done|done|].
  cbn [mbind res_bind]. eexists. split; [done|]. exists ns. split; [done|]. by rewrite Hit.
Qed.

Lemma convert_to_listpack zs M cap :
  zmap_ok M -> skip_repr dictSdsHash zs M -> (forall l, listing M l -> list_bound l) ->
  exists zl, zsetConvertAndExpand dictSdsHash dict_can_resize old_value (OBJ_ENCODING_SKIPLIST zs) false cap = Ret (OBJ_ENCODING_LISTPACK zl) /\
    list_repr zl M.
Proof.
  intros HM (ns & Hk & Hl) Hb. unfold zsetConvertAndExpand. destruct (lpNew_repr 0) as (zl0 & -> & Hr0). cbn [mbind res_bind].
  pose proof (sr_layout _ _ (sk_list _ _ _ Hk)) as Hly. destruct (bottom_level _ _ 0 Hly) as [Hlev Hfw]; [lia|]. cbn [pos_loc] in Hlev.
  rewrite Hlev. cbn [mbind res_bind]. rewrite Hfw. specialize (Hb _ Hl). pose proof (listing_keys _ _ HM Hl) as Hkeys.
  destruct (unload_loop_spec (zsl zs) ns (Z.to_nat (zlength (zsl zs))) 0 (delete (header (zsl zs)) (mem (zsl zs))) zl0 Hly) as (zl & -> & Hr).
  - apply (sk_list _ _ _ Hk).
  - apply Forall_forall. intros a Ha. assert (item_of a ∈ items ns) as Hin by (by apply list_elem_of_fmap_2).
    pose proof (list_bound_length _ _ _ Hb Hin). apply (listing_lookup _ _ Hl) in Hin. destruct (zm_elements _ HM _ _ Hin). split; [done|lia].
  - pose proof (list_bound_total _ Hkeys Hb). lia.
  - lia.
  - rewrite (ly_length _ _ Hly). lia.
  - intros p a Ha _. apply lookup_delete_ne. intros E. pose proof (ly_nodup _ _ Hly) as Hnd. apply NoDup_cons in Hnd as [Hno _].
    apply Hno. rewrite E. apply list_elem_of_fmap_2. by eapply list_elem_of_lookup_2.
  - done.
  - cbn [mbind res_bind]. eexists. split; [done|]. by exists (items ns).
Qed.

(** ** Reading *)

(** The double read for a key: the one of the key, whose zero has no sign, from
    a listpack, and the one that was stored from a skip list. *)
Definition score_of (x : float) (k : Z) : Prop := score_ok x /\ score_key x = k.
Lemma score_of_key k : key_ok k -> score_of (key_score k) k.
Proof. apply key_score_ok. Qed.
Lemma score_of_same x k : score_of x k -> same_score x (key_score k).
Proof. intros [H1 H2]. by apply same_score_key. Qed.

Lemma zsetScore_spec o M e :
  zobj_repr o M ->
  exists o' s, zsetScore dictSdsHash dict_can_resize o e = Ret (o', s) /\ option_Forall2 score_of s (M !! e) /\ zobj_repr o' M.
Proof.
  intros [HM Ho]. destruct o as [zl|zs]; cbn [zsetScore].
  - pose proof Ho as (l & Hl & Hr & Hb). destruct (zzlFind_spec zl l Hr (listing_keys _ _ HM Hl) e) as (r & -> & Hres).
    cbn [mbind res_bind]. exists (OBJ_ENCODING_LISTPACK zl). destruct r as [[p s]|].
    + destruct Hres as (i & k & Hi & _ & ->). pose proof (proj1 (listing_lookup _ _ Hl e k) (list_elem_of_lookup_2 _ _ _ Hi)) as HMe.
      rewrite HMe. eexists. split; [done|]. split; [constructor; apply score_of_key, (zm_keys _ HM _ _ HMe)|by split].
    + rewrite (proj2 (listing_absent _ _ Hl e) Hres). eexists. split; [done|]. split; [constructor|by split].
  - destruct (skip_lookup dictSdsHash dict_can_resize zs M e Ho) as (d & de & -> & Ho' & Hres). cbn [mbind res_bind]. destruct de as [de|].
    + destruct Hres as (x & k & s & HMe & -> & Hx & Hs). cbn [mbind res_bind]. rewrite Hx, HMe. do 2 eexists. split; [done|].
      split; [by constructor|by split].
    + rewrite Hres. do 2 eexists. split; [done|]. split; [constructor|by split].
Qed.

(** The rank counts from the first item or from the last one; the listpack must
    not be empty. *)
Lemma zsetRank_spec o M e reverse :
  zobj_repr o M -> M <> ∅ ->
  exists o' r, zsetRank dictSdsHash dict_can_resize o e reverse = Ret (o', r) /\ zobj_repr o' M /\
    option_Forall2 (fun r k => r.1 = (let i := Z.of_nat (rank_in M (e, k)) in if reverse : bool then Z.of_nat (size M) - 1 - i else i) /\
      score_of r.2 k) r (M !! e).
Proof.
  intros Hrep Hne. unfold zsetRank. destruct (zsetLength_spec o M Hrep) as (o1 & -> & [HM Ho1] & _). cbn [mbind res_bind]. clear o Hrep.
  destruct o1 as [zl|zs].
  - pose proof Ho1 as (l & Hl & Hr & Hb). rewrite (first_item _ _ Hr). cbn [mbind res_bind].
    destruct (l !! 0%nat) as [a|] eqn:Ha.
    2:{ exfalso. apply lookup_ge_None in Ha. pose proof (listing_size _ _ Hl). apply Hne, map_size_empty_iff. lia. }
    rewrite (ele_ptr_Some _ _ _ Ha). cbn [of_option mbind res_bind]. rewrite (next_score _ _ Hr _ _ Ha). cbn [of_option mbind res_bind].
    pose proof Hr as (num & slack & Hm). pose proof (repr_length _ _ _ _ Hm) as Hlen. rewrite length_flat in Hlen.
    destruct (list_rank_loop_spec zl l e (length zl) 0 Hr) as (r & Er & Hres); [lia|cbn; set_solver|]. unfold item_ptr in Er. rewrite Ha in Er.
    cbn [fmap option_fmap option_map] in Er. change (Z.of_nat 0 + 1) with 1 in Er. rewrite Er. cbn [mbind res_bind]. destruct r as [[rank sptr]|].
    + destruct Hres as (j & k & Hj & -> & ->). rewrite (get_score _ _ Hr (listing_keys _ _ HM Hl) _ _ Hj). cbn [mbind res_bind snd].
      pose proof (proj1 (listing_lookup _ _ Hl e k) (list_elem_of_lookup_2 _ _ _ Hj)) as HMe. rewrite HMe.
      do 2 eexists. split; [done|]. split; [by split|]. constructor. cbn [fst snd].
      rewrite (listing_rank _ _ Hl _ _ Hj). split; [destruct reverse; lia|apply score_of_key, (zm_keys _ HM _ _ HMe)].
    + rewrite (proj2 (listing_absent _ _ Hl e) Hres). do 2 eexists. split; [done|split; [by split|constructor]].
  - destruct (skip_lookup dictSdsHash dict_can_resize zs M e Ho1) as (d & de & -> & Ho' & Hres). cbn [mbind res_bind]. destruct de as [de|].
    + destruct Hres as (x & k & s & HMe & -> & Hx & Hs & Ek). cbn [mbind res_bind]. rewrite Hx, HMe. cbn [mbind res_bind].
      destruct (skip_rank dictSdsHash _ M e k Ho' HMe) as [Hrank _]. rewrite (Hrank s Hs Ek). cbn [mbind res_bind].
      rewrite (proj2 (Z.eqb_neq _ 0)) by lia. cbn [negb assert mbind res_bind].
      do 2 eexists. split; [done|]. split; [by split|]. constructor. cbn [fst snd]. split; [destruct reverse; lia|by split].
    + rewrite Hres. do 2 eexists. split; [done|split; [by split|constructor]].
Qed.

(** ** Updates *)

(** Only the elements count for the bound. *)
Lemma list_bound_rekey e k k' l : list_bound ((e, k) :: l) -> list_bound ((e, k') :: l).
Proof. intros [H1 H2]. by split. Qed.

Lemma list_split M l i e k :
  listing M l -> l !! i = Some (e, k) -> l ≡ₚ (e, k) :: remove_item e l /\ take i l ++ drop (S i) l = remove_item e l.
Proof.
  intros Hl Hi. pose proof (listing_nodup _ _ Hl) as Hnd. rewrite <- (take_drop_middle l i _ Hi) in Hnd.
  pose proof (remove_item_at e k _ _ Hnd) as E. rewrite (take_drop_middle l i _ Hi) in E. rewrite E. split; [|done].
  rewrite <- (take_drop_middle l i _ Hi) at 1. symmetry. apply Permutation_middle.
Qed.

Lemma bound_lengths l : list_bound l -> Forall (fun a : item => Z.of_nat (length a.1) < 2 ^ 31) l.
Proof. intros Hb. apply Forall_forall. intros [e k] Hin. pose proof (list_bound_length _ _ _ Hb Hin). cbn. lia. Qed.

(** Insertion of an item into a listpack that has room for it. *)
Lemma list_insert zl M l e score :
  zmap_ok M -> listing M l -> lp_repr zl (flat l) -> M !! e = None -> bytes e -> score_ok score -> list_bound ((e, score_key score) :: l) ->
  exists zl', zzlInsert zl e score = Ret zl' /\ list_repr zl' (<[e := score_key score]> M).
Proof.
  intros HM Hl Hr HMe Hbe Hsc Hb. pose proof (listing_keys _ _ HM Hl) as Hkeys. rewrite <- insert_item_perm in Hb.
  assert (Forall (fun a => key_ok a.2) (insert_item (e, score_key score) l)) as Hkeys'
    by (rewrite insert_item_perm; constructor; [by apply score_key_ok|done]).
  destruct (zzlInsert_spec zl l e score Hr Hkeys Hsc) as (zl' & E & Hr').
  - split; [done|]. assert ((e, score_key score) ∈ insert_item (e, score_key score) l) as Hin by (rewrite insert_item_perm; left).
    pose proof (list_bound_length _ _ _ Hb Hin). lia.
  - by apply (listing_absent _ _ Hl).
  - rewrite <- insert_item_perm. by apply bound_lengths.
  - pose proof (list_bound_total _ Hkeys' Hb). lia.
  - exists zl'. split; [done|]. exists (insert_item (e, score_key score) l). split; [by apply listing_insert|done].
Qed.

Lemma list_delete zl M l i e k :
  listing M l -> lp_repr zl (flat l) -> list_bound l -> l !! i = Some (e, k) ->
  exists zl', zzlDelete zl (off (flat l) (2 * i)) = Ret zl' /\ listing (delete e M) (remove_item e l) /\
    lp_repr zl' (flat (remove_item e l)) /\ list_bound ((e, k) :: remove_item e l).
Proof.
  intros Hl Hr Hb Hi. destruct (list_split _ _ _ _ _ Hl Hi) as [Hp Hrem].
  destruct (zzlDelete_spec zl l i Hr) as (zl' & E & Hr'); [by eapply lookup_lt_Some|]. rewrite Hrem in Hr'.
  exists zl'. split_and!; [done|by apply listing_delete|done|by rewrite <- Hp].
Qed.

(** The listpack has room when the three tests say so. *)
Lemma room_for zl M l e k :
  zset_max_listpack_entries <= 2 ^ 20 -> zmap_ok M -> listing M l -> lp_repr zl (flat l) -> element_ok e ->
  exists safe, lpSafeToAdd (Some zl) (Z.of_nat (length e)) = Ret safe /\
    ((zset_max_listpack_entries <? Z.of_nat (length l) + 1) || (zset_max_listpack_value <? Z.of_nat (length e)) || negb safe = false ->
     list_bound ((e, k) :: l)).
Proof.
  intros Hmax HM Hl (num & slack & Hm) [_ He]. unfold lpSafeToAdd. rewrite (repr_total _ _ _ _ Hm). cbn [mbind res_bind].
  eexists. split; [done|]. pose proof (ll_size _ _ _ _ Hm) as Hsz. pose proof (flat_total l (listing_keys _ _ HM Hl)) as Htot.
  pose proof (ele_size_nonneg l). unfold LISTPACK_MAX_SAFETY_SIZE. rewrite uwrap_id by lia.
  intros [[H1%Z.ltb_ge _]%orb_false_iff H3]%orb_false_iff. rewrite negb_involutive in H3. apply Z.ltb_ge in H3.
  pose proof (ele_entry_size e). split; [cbn [length]; lia|]. unfold ele_size in *. cbn [map sumZ fst]. lia.
Qed.

Lemma zsetAdd_spec o M score e flags :
  zset_max_listpack_entries <= 2 ^ 20 -> zobj_repr o M -> element_ok e -> score_ok score -> Z.of_nat (size M) + 1 < 2 ^ 60 ->
  exists o' r, zsetAdd dictSdsHash dict_can_resize old_value zset_max_listpack_entries zset_max_listpack_value o score e flags = Ret (o', r) /\
    same_result r (zadd M score e flags).2 /\ zobj_repr o' (zadd M score e flags).1.
Proof.
  intros Hmax [HM Ho] He Hsc Hsz. unfold zsetAdd. assert (isnan score = false) as -> by (by destruct score).
  pose proof (zadd_ok M score e flags HM He Hsc Hsz) as HM'.
  assert (forall zs, skip_repr dictSdsHash zs M -> exists o' r, ('(zs, r) ← zsetAdd_skiplist dictSdsHash dict_can_resize old_value zs score e flags;
    Ret (OBJ_ENCODING_SKIPLIST zs, r)) = Ret (o', r) /\ same_result r (zadd M score e flags).2 /\ zobj_repr o' (zadd M score e flags).1) as Hskip.
  { intros zs Hs. destruct (zsetAdd_skiplist_spec dictSdsHash dict_can_resize old_value zs M score e flags Hs) as (zs' & r & -> & Hr & Hs'); [done|lia|].
    cbn [mbind res_bind]. do 2 eexists. by split_and!. }
  destruct o as [zl|zs]; [|by apply Hskip]. pose proof Ho as (l & Hl & Hr & Hb).
  destruct (zzlFind_spec zl l Hr (listing_keys _ _ HM Hl) e) as (found & -> & Hres). cbn [mbind res_bind]. destruct found as [[p cur]|].
  - destruct Hres as (i & k & Hi & -> & ->). pose proof (proj1 (listing_lookup _ _ Hl e k) (list_elem_of_lookup_2 _ _ _ Hi)) as HMe.
    unfold zadd in *. rewrite HMe in *. destruct (zadd_decide flags (key_score k) score) as [| |s] eqn:Ed; [do 2 eexists; split_and!; [done|done|by split]..|].
    destruct (negb _); [|do 2 eexists; split_and!; [done|done|by split]].
    destruct (list_delete zl M l i e k Hl Hr Hb Hi) as (zl1 & -> & Hl1 & Hr1 & Hb1). cbn [mbind res_bind].
    destruct (list_insert zl1 (delete e M) _ e s (zmap_ok_delete _ _ HM) Hl1 Hr1) as (zl2 & -> & Ho2); cbn [mbind res_bind fst snd] in *;
      [apply lookup_delete_eq|apply He|eapply zadd_decide_ok; [apply key_score_ok, (zm_keys _ HM _ _ HMe)|done|done]|by eapply list_bound_rekey|].
    rewrite insert_delete_eq in Ho2. do 2 eexists. split_and!; [done|done|by split].
  - pose proof (proj2 (listing_absent _ _ Hl e) Hres) as HMe. destruct (zzlLength_spec zl l Hr) as (zl1 & -> & Hr1). cbn [mbind res_bind].
    destruct (room_for zl1 M l e (score_key score) Hmax HM Hl Hr1 He) as (safe & -> & Hroom). cbn [mbind res_bind].
    assert (list_repr zl1 M) as Ho1 by (by exists l).
    destruct (_ || negb safe).
    + unfold zadd in Hskip |- *. rewrite HMe in *. destruct (negb (has_flag flags ZADD_IN_XX)); [|do 2 eexists; split_and!; [done|done|by split]].
      destruct (zsetLength_spec (OBJ_ENCODING_LISTPACK zl1) M) as (o2 & -> & [_ Ho2] & Henc); [by split|]. cbn [mbind res_bind].
      destruct o2 as [zl2|]; [|done]. destruct (convert_to_skiplist zl2 M (Z.of_nat (size M) + 1) HM Ho2) as (zs & -> & Hs); [lia|].
      cbn [mbind res_bind]. by apply Hskip.
    + unfold zadd in *. rewrite HMe in *. destruct (negb (has_flag flags ZADD_IN_XX)); [|do 2 eexists; split_and!; [done|done|by split]].
      destruct (list_insert zl1 M l e score HM Hl Hr1 HMe) as (zl2 & -> & Ho2); [apply He|done|by apply Hroom|].
      cbn [mbind res_bind fst snd] in *. do 2 eexists. split_and!; [done|done|by split].
Qed.

Lemma zsetDel_spec o M e :
  zobj_repr o M ->
  exists o', zsetDel dictSdsHash dict_can_resize o e = Ret (o', bool_decide (is_Some (M !! e))) /\ zobj_repr o' (delete e M).
Proof.
  intros [HM Ho]. pose proof (zmap_ok_delete M e HM) as HM'. destruct o as [zl|zs]; cbn [zsetDel].
  - pose proof Ho as (l & Hl & Hr & Hb). destruct (zzlFind_spec zl l Hr (listing_keys _ _ HM Hl) e) as (found & -> & Hres). cbn [mbind res_bind].
    destruct found as [[p cur]|].
    + destruct Hres as (i & k & Hi & -> & _). pose proof (proj1 (listing_lookup _ _ Hl e k) (list_elem_of_lookup_2 _ _ _ Hi)) as HMe.
      rewrite HMe, bool_decide_eq_true_2 by (by eexists). destruct (list_delete zl M l i e k Hl Hr Hb Hi) as (zl1 & -> & Hl1 & Hr1 & Hb1).
      cbn [mbind res_bind]. eexists. split; [done|]. split; [done|]. exists (remove_item e l). split_and!; [done|done|by eapply list_bound_tail].
    + pose proof (proj2 (listing_absent _ _ Hl e) Hres) as HMe. rewrite HMe, bool_decide_eq_false_2 by (by intros []).
      rewrite delete_id by done. eexists. split; [done|]. by split.
  - destruct (zsetRemove_spec dictSdsHash dict_can_resize zs M e Ho) as (zs1 & -> & Ho1). cbn [mbind res_bind].
    case_bool_decide; [|eexists; split; [done|by split]].
    destruct (skip_resize_repr dictSdsHash dict_can_resize zs1 _ Ho1 (zm_size _ HM')) as (d & b & -> & Ho2). cbn [mbind res_bind].
    eexists. split; [done|]. by split.
Qed.

Lemma zsetDup_spec o M :
  zobj_repr o M -> exists o', zsetDup dictSdsHash dict_can_resize old_value o = Ret o' /\ zobj_repr o' M.
Proof.
  intros [HM Ho]. destruct o as [zl|zs]; cbn [zsetDup].
  - pose proof Ho as (l & Hl & Hr & Hb). destruct (list_copy zl _ Hr) as (zl' & E & Hr').
    destruct (lpBytes zl) as [sz| |]; [|done|done]. cbn [mbind res_bind] in *. rewrite E. cbn [mbind res_bind].
    eexists. split; [done|]. split; [done|]. by exists l.
  - pose proof Ho as (ns & Hk & Hl). pose proof (skip_size dictSdsHash _ _ Hk) as Hsz. pose proof (listing_size _ _ Hl) as Hlen.
    unfold items in Hlen. rewrite length_map in Hlen. pose proof (zm_size _ HM).
    destruct (skip_expand dictSdsHash _ _ (dictSize (zdict zs)) (createZsetObject_layout dictSdsHash)) as (d & b & -> & Hk1); [lia|].
    cbn [mbind res_bind]. pose proof (sk_list _ _ _ Hk) as [Hly Hs Hsc]. rewrite (ly_length _ _ Hly), Nat2Z.id.
    assert (tail (zsl zs) = prev_loc ns (length ns)) as ->.
    { rewrite (ly_tail _ _ Hly). destruct ns as [|a ns'] using rev_ind; [done|]. rewrite last_snoc, length_app, Nat.add_1_r. cbn [prev_loc length].
      by rewrite lookup_app_r, Nat.sub_diag by lia. }
    destruct (dup_loop_spec dictSdsHash dict_can_resize old_value (zsl zs) ns (length ns) (Zset d (zsl createZsetObject)) [] Hly Hsc Hs)
      as (zs' & ns' & -> & Hk' & Hit); [apply Hk|lia|done|done|by rewrite drop_ge by (unfold items; by rewrite length_map)|].
    cbn [mbind res_bind]. eexists. split; [done|]. split; [done|]. exists ns'. split; [done|]. by rewrite Hit.
Qed.

(** ** Changes of the encoding *)

(** A conversion keeps the map; to a listpack it must fit. *)
Lemma zsetConvert_spec o M skiplist :
  zobj_repr o M -> (skiplist = false -> forall l, listing M l -> list_bound l) ->
  exists o', zsetConvert dictSdsHash dict_can_resize old_value o skiplist = Ret o' /\ zobj_repr o' M /\
    match o' with OBJ_ENCODING_LISTPACK _ => skiplist = false | OBJ_ENCODING_SKIPLIST _ => skiplist = true end.
Proof.
  intros Hrep Hb. unfold zsetConvert. destruct (zsetLength_spec o M Hrep) as (o1 & -> & [HM Ho1] & _). cbn [mbind res_bind].
  pose proof (zm_size _ HM). destruct o1 as [zl|zs], skiplist.
  - destruct (convert_to_skiplist zl M (Z.of_nat (size M)) HM Ho1) as (zs & -> & Ho); [lia|]. eexists. split; [done|]. by split.
  - eexists. split; [done|]. by split.
  - eexists. split; [done|]. by split.
  - destruct (convert_to_listpack zs M (Z.of_nat (size M)) HM Ho1) as (zl & -> & Ho); [by apply Hb|]. eexists. split; [done|]. by split.
Qed.

Lemma zsetTypeMaybeConvert_spec o M size_hint :
  zobj_repr o M -> size_hint <= 2 ^ 60 -> 0 <= zset_max_listpack_entries ->
  exists o', zsetTypeMaybeConvert dictSdsHash dict_can_resize old_value zset_max_listpack_entries o size_hint = Ret o' /\ zobj_repr o' M.
Proof.
  intros [HM Ho] Hs H0. destruct o as [zl|zs]; cbn [zsetTypeMaybeConvert]; [|eexists; split; [done|by split]].
  destruct (Z.ltb_spec zset_max_listpack_entries size_hint); [|eexists; split; [done|by split]].
  destruct (convert_to_skiplist zl M size_hint HM Ho) as (zs & -> & Ho'); [lia|]. eexists. split; [done|]. by split.
Qed.

(** The caller passes the total length of the elements. *)
Lemma zsetConvertToListpackIfNeeded_spec o M maxelelen totelelen :
  zset_max_listpack_entries <= 2 ^ 20 -> zobj_repr o M -> 0 <= totelelen < 2 ^ 64 ->
  (forall l, listing M l -> sumZ (map (fun a => Z.of_nat (length a.1)) l) <= totelelen) ->
  exists o', zsetConvertToListpackIfNeeded dictSdsHash dict_can_resize old_value zset_max_listpack_entries zset_max_listpack_value o maxelelen totelelen
    = Ret o' /\ zobj_repr o' M.
Proof.
  intros Hmax Hrep Ht Hsum. pose proof Hrep as [HM Ho]. destruct o as [zl|zs]; cbn [zsetConvertToListpackIfNeeded]; [eexists; by split|].
  unfold lpSafeToAdd. cbn [mbind res_bind]. rewrite uwrap_id by lia. destruct (_ && _) eqn:E; [|eexists; by split].
  apply andb_true_iff in E as [[E1%Z.leb_le _]%andb_true_iff E3]. apply negb_true_iff, Z.ltb_ge in E3. unfold LISTPACK_MAX_SAFETY_SIZE in E3.
  destruct (zsetConvert_spec (OBJ_ENCODING_SKIPLIST zs) M false Hrep) as (o' & -> & Ho' & _); [|eexists; by split].
  intros _ l Hl. specialize (Hsum l Hl). pose proof Ho as (ns & Hk & Hl').
  rewrite (ly_length _ _ (sr_layout _ _ (sk_list _ _ _ Hk))) in E1. pose proof (listing_size _ _ Hl). pose proof (listing_size _ _ Hl') as Hns.
  unfold items in Hns. rewrite length_map in Hns. split; [lia|].
  assert (forall l' : list item, ele_size l' <= sumZ (map (fun a => Z.of_nat (length a.1)) l') + 14 * Z.of_nat (length l')) as Hes.
  { unfold ele_size. induction l' as [|a l' IH]; [done|]. cbn [map sumZ length]. pose proof (ele_entry_size a.1). lia. }
  specialize (Hes l). lia.
Qed.
End Refine.
