(* ===== verification/ZsetTheorems.v ===== *)
(** * Theorems about sorted sets

    The refinement of the operations of [Zset] one by one, and of whole
    histories of an object: whatever is added, removed, copied or converted,
    in whichever encoding, what is read is what the finite map says. *)
From stdpp Require Import gmap.
From Stdlib Require Import SpecFloat.
From S2P Require Import Prelude Mem NumStr Listpack Dict Skiplist PyFloat Score Zset ZsetSpec ZsetSkip ZsetList ZsetRefine.

Local Open Scope Z_scope.

(** ** Histories *)

Inductive zop : Type :=
  | ZAdd (score : float) (ele : list Z) (in_flags : Z)
  | ZRem (ele : list Z)
  | ZHint (size_hint : Z)
  | ZCopy.

Definition double_ok (x : float) : Prop := isnan x = false -> score_ok x.

Definition zop_ok (op : zop) : Prop :=
  match op with
  | ZAdd score ele _ => double_ok score /\ element_ok ele
  | ZRem ele => element_ok ele
  | ZHint size_hint => size_hint <= 2 ^ 60
  | ZCopy => True
  end.

(** [ZADD] with a score that is not a number changes nothing. *)
Definition zadd_any (M : zmap) (score : float) (ele : list Z) (in_flags : Z) : zmap * zadd_result :=
  if isnan score then (M, (false, ZADD_OUT_NAN, None)) else zadd M score ele in_flags.

Definition spec_op (M : zmap) (op : zop) : zmap :=
  match op with
  | ZAdd score ele in_flags => (zadd_any M score ele in_flags).1
  | ZRem ele => delete ele M
  | ZHint _ | ZCopy => M
  end.

Section Theorems.
Context `{Hheap : Heap} `{Husable : Usable} `{Hdec : Decimal} `{Halloc : NodeAlloc}.
Context (dictSdsHash : list Z -> Z) (dict_can_resize : dictResizeEnable) (old_value : positive).
Context (zset_max_listpack_entries zset_max_listpack_value : Z).

Definition run_op (o : zobj) (op : zop) : res zobj :=
  match op with
  | ZAdd score ele in_flags =>
      '(o, _) ← zsetAdd dictSdsHash dict_can_resize old_value zset_max_listpack_entries zset_max_listpack_value o score ele in_flags; Ret o
  | ZRem ele => '(o, _) ← zsetDel dictSdsHash dict_can_resize o ele; Ret o
  | ZHint size_hint => zsetTypeMaybeConvert dictSdsHash dict_can_resize old_value zset_max_listpack_entries o size_hint
  | ZCopy => zsetDup dictSdsHash dict_can_resize old_value o
  end.

Fixpoint run_ops (o : zobj) (ops : list zop) : res zobj :=
  match ops with
  | [] => Ret o
  | op :: ops => o ← run_op o op; run_ops o ops
  end.

Lemma zsetAdd_any o M score e flags :
  zset_max_listpack_entries <= 2 ^ 20 -> zobj_repr dictSdsHash o M -> element_ok e -> double_ok score -> Z.of_nat (size M) + 1 < 2 ^ 60 ->
  exists o' r, zsetAdd dictSdsHash dict_can_resize old_value zset_max_listpack_entries zset_max_listpack_value o score e flags = Ret (o', r) /\
    same_result r (zadd_any M score e flags).2 /\ zobj_repr dictSdsHash o' (zadd_any M score e flags).1.
Proof.
  intros Hmax Ho He Hsc Hs. unfold zadd_any. destruct (isnan score) eqn:En.
  - do 2 eexists. unfold zsetAdd. rewrite En. done.
  - apply zsetAdd_spec; [done..|by apply Hsc|done].
Qed.

Lemma spec_op_size M op : (size (spec_op M op) <= S (size M))%nat.
Proof.
  destruct op as [score e flags|e|n|]; cbn [spec_op]; [|rewrite map_size_delete; destruct (M !! e); unfold id; lia|lia|lia].
  unfold zadd_any. destruct (isnan score); [cbn; lia|apply zadd_size].
Qed.

Lemma run_op_spec o M op :
  0 <= zset_max_listpack_entries <= 2 ^ 20 -> zobj_repr dictSdsHash o M -> zop_ok op -> Z.of_nat (size M) + 1 < 2 ^ 60 ->
  exists o', run_op o op = Ret o' /\ zobj_repr dictSdsHash o' (spec_op M op).
Proof.
  intros Hmax Ho Hop Hs. destruct op as [score e flags|e|n|]; cbn [run_op spec_op zop_ok] in *.
  - destruct (zsetAdd_any o M score e flags) as (o' & r & -> & _ & Ho'); [lia|done|apply Hop|apply Hop|done|]. by exists o'.
  - destruct (zsetDel_spec dictSdsHash dict_can_resize o M e Ho) as (o' & -> & Ho'). by exists o'.
  - apply zsetTypeMaybeConvert_spec; [done|done|lia].
  - by apply zsetDup_spec.
Qed.

Lemma run_ops_spec ops o M :
  0 <= zset_max_listpack_entries <= 2 ^ 20 -> zobj_repr dictSdsHash o M -> Forall zop_ok ops ->
  Z.of_nat (size M) + Z.of_nat (length ops) < 2 ^ 60 ->
  exists o', run_ops o ops = Ret o' /\ zobj_repr dictSdsHash o' (fold_left spec_op ops M).
Proof.
  intros Hmax. revert o M. induction ops as [|op ops IH]; intros o M Ho Hops Hs; cbn [run_ops fold_left]; [by exists o|].
  apply Forall_cons in Hops as [Hop Hops]. cbn [length] in Hs.
  destruct (run_op_spec o M op Hmax Ho Hop) as (o1 & -> & Ho1); [lia|]. cbn [mbind res_bind]. apply IH; [done|done|].
  pose proof (spec_op_size M op). lia.
Qed.

(** a sorted set implements a finite map with an order, through every
    history.  An object that is created and then changed by any sequence of
    additions under any flags, removals, size hints and copies never fails an
    assertion, and then gives every element a score of the key the map has, so
    the same double except perhaps for the sign of a zero, its rank among
    the items ordered by score and element, from either end, and the number of
    elements; this is so whatever the encoding was at each point, for every hash
    function, allocator, sequence of random levels, resize policy and
    configuration. *)
Theorem zset_history size_hint val_len_hint ops :
  0 <= zset_max_listpack_entries <= 2 ^ 20 -> 0 <= size_hint <= 2 ^ 60 -> Forall zop_ok ops -> Z.of_nat (length ops) < 2 ^ 60 ->
  exists o0 o, zsetTypeCreate zset_max_listpack_entries zset_max_listpack_value size_hint val_len_hint = Ret o0 /\
    run_ops o0 ops = Ret o /\
    let M := fold_left spec_op ops ∅ in
    (exists o', zsetLength o = Ret (Z.of_nat (size M), o')) /\
    (forall e, element_ok e -> exists o' s, zsetScore dictSdsHash dict_can_resize o e = Ret (o', s) /\ option_Forall2 score_of s (M !! e)) /\
    (forall e k reverse, M !! e = Some k ->
       exists o' s, score_of s k /\ zsetRank dictSdsHash dict_can_resize o e reverse
         = Ret (o', Some (if reverse : bool then Z.of_nat (size M) - 1 - Z.of_nat (rank_in M (e, k)) else Z.of_nat (rank_in M (e, k)), s))).
Proof.
  intros Hmax Hh Hops Hlen. destruct (zsetTypeCreate_spec dictSdsHash zset_max_listpack_entries zset_max_listpack_value size_hint val_len_hint Hh)
    as (o0 & E0 & Ho0). destruct (run_ops_spec ops o0 ∅ Hmax Ho0 Hops) as (o & Eo & Ho); [rewrite map_size_empty; lia|].
  exists o0, o. split; [done|]. split; [done|]. cbv zeta. set (M := fold_left spec_op ops ∅) in *. split_and!.
  - destruct (zsetLength_spec dictSdsHash o M Ho) as (o' & E & _). by exists o'.
  - intros e _. destruct (zsetScore_spec dictSdsHash dict_can_resize o M e Ho) as (o' & s & E & Hs & _). by exists o', s.
  - intros e k reverse He. destruct (zsetRank_spec dictSdsHash dict_can_resize o M e reverse Ho) as (o' & r & E & _ & Hr); [by intros E; rewrite E in He|].
    rewrite He in Hr. inversion Hr as [[i s] ? [Hi Hs]|]; subst. cbn in Hi. subst i. by exists o', s.
Qed.

(** [zsetAdd] refines the addition to a map under the flags INCR, NX, XX, GT
    and LT, in both encodings and across the conversion from a listpack to a
    skip list: the object represents the new map, and the return value, the
    output flags and the new score (up to the sign of a zero) are those of the
    specification.  A sum or a
    score that is not a number is refused and changes nothing. *)
Theorem zsetAdd_refines o M score e flags :
  zset_max_listpack_entries <= 2 ^ 20 -> zobj_repr dictSdsHash o M -> element_ok e -> double_ok score -> Z.of_nat (size M) + 1 < 2 ^ 60 ->
  exists o' r, zsetAdd dictSdsHash dict_can_resize old_value zset_max_listpack_entries zset_max_listpack_value o score e flags = Ret (o', r) /\
    same_result r (zadd_any M score e flags).2 /\ zobj_repr dictSdsHash o' (zadd_any M score e flags).1.
Proof. apply zsetAdd_any. Qed.

(** [zsetDel] refines deletion from a map in both encodings: in the second
    one the element leaves the dictionary and the skip list, and the assertion
    that the skip list had it holds. *)
Theorem zsetDel_refines o M e :
  zobj_repr dictSdsHash o M -> element_ok e ->
  exists o', zsetDel dictSdsHash dict_can_resize o e = Ret (o', bool_decide (is_Some (M !! e))) /\ zobj_repr dictSdsHash o' (delete e M).
Proof. intros Ho _. by apply zsetDel_spec. Qed.

(** converting a sorted set from one encoding to the other keeps its map, and
    with it the key of every score and every rank; a listpack can hold it when its items
    fit. *)
Theorem zsetConvert_refines o M skiplist :
  zobj_repr dictSdsHash o M -> (skiplist = false -> forall l, listing M l -> list_bound l) ->
  exists o', zsetConvert dictSdsHash dict_can_resize old_value o skiplist = Ret o' /\ zobj_repr dictSdsHash o' M /\
    match o' with OBJ_ENCODING_LISTPACK _ => skiplist = false | OBJ_ENCODING_SKIPLIST _ => skiplist = true end.
Proof. apply zsetConvert_spec. Qed.
End Theorems.

(** ** Instances of the theorems *)

(** A notation of doubles: the key in base 256 after a letter. *)
Definition demo_dtoa (x : float) : list Z := 112 :: le_split 9 (score_key x + 2 ^ 64).
Definition demo_strtod (s : list Z) : float :=
  match string2ll s with
  | Some v => f_of_Z v
  | None =>
      match s with
      | 105 :: _ => S754_infinity false
      | 45 :: _ => S754_infinity true
      | _ :: t => key_score (le_combine t - 2 ^ 64)
      | [] => S754_nan
      end
  end.

Lemma demo_dtoa_text x : string2ll (demo_dtoa x) = None.
Proof. unfold demo_dtoa, string2ll. cbn [List.length]. rewrite length_le_split. done. Qed.

Lemma demo_strtod_dtoa s m e : score_ok (S754_finite s m e) -> demo_strtod (demo_dtoa (S754_finite s m e)) = S754_finite s m e.
Proof.
  intros Hx. unfold demo_strtod. rewrite demo_dtoa_text. unfold demo_dtoa. cbn [tl]. rewrite le_combine_split.
  destruct Hx as [Hm He]. pose proof (magnitude_range m e Hm He) as Hr. change (256 ^ Z.of_nat 9) with (2 ^ 72).
  rewrite Z.mod_small by (cbn [score_key]; destruct s; lia). rewrite Z.add_simpl_r. by rewrite key_score_key.
Qed.

Definition demo_decimal : Decimal.
Proof.
  refine {| fpconv_dtoa := demo_dtoa; strtod := demo_strtod |}.
  - intros x. split; [|unfold demo_dtoa; cbn [length]; rewrite length_le_split; lia]. constructor; [unfold is_byte; lia|apply le_split_bytes].
  - apply demo_strtod_dtoa.
  - intros v Hv. unfold demo_strtod. by rewrite string2ll_complete.
  - done.
  - done.
Defined.

Definition demo_alloc : NodeAlloc.
Proof.
  refine {| malloc_node := fun m => fresh (dom m); random_level := fun m => S (Z.to_nat (Z.of_nat (size m) mod 2)); old_level := fun _ => Level None 0 |}.
  - intros m. apply not_elem_of_dom, is_fresh.
  - intros m. pose proof (Z.mod_pos_bound (Z.of_nat (size m)) 2). unfold ZSKIPLIST_MAXLEVEL. lia.
Defined.

#[local] Existing Instance zero_heap.
#[local] Existing Instance ListpackEdit.exact_usable.
#[local] Existing Instance demo_decimal.
#[local] Existing Instance demo_alloc.

Definition string_hash (s : list Z) : Z := u64 (fold_left (fun h c => 33 * h + c) s 5381).

(** Two elements, where a listpack has room for one. *)
Definition demo_ops : list zop :=
  [ZAdd (dec_lit 15 1) [98] 0; ZAdd (f_of_Z 2) [97] 0; ZCopy; ZAdd (f_of_Z 1) [97] ZADD_IN_INCR; ZRem [99]].

Lemma demo_ops_ok : Forall zop_ok demo_ops.
Proof.
  repeat constructor; unfold double_ok, element_ok; try (intros _; vm_compute; split; congruence); try (intros _; vm_compute; intuition congruence).
  all: try (by intros _; apply f_of_Z_ok); try done.
Qed.

Lemma zset_history_witness :
  exists o0 o, zsetTypeCreate 1 64 1 1 = Ret o0 /\ run_ops string_hash DICT_RESIZE_ENABLE 1 1 64 o0 demo_ops = Ret o /\
    (exists o' s, zsetScore string_hash DICT_RESIZE_ENABLE o [97] = Ret (o', s) /\ option_Forall2 score_of s (Some (score_key (f_of_Z 3)))) /\
    (exists o' s, score_of s (score_key (dec_lit 15 1)) /\ zsetRank string_hash DICT_RESIZE_ENABLE o [98] true = Ret (o', Some (1, s))).
Proof.
  destruct (zset_history string_hash DICT_RESIZE_ENABLE 1 1 64 1 1 demo_ops ltac:(lia) ltac:(lia) demo_ops_ok ltac:(cbn; lia))
    as (o0 & o & E0 & Eo & _ & Hs & Hk).
  exists o0, o. split; [exact E0|]. split; [exact Eo|]. split; [exact (Hs [97] ltac:(split; [by repeat constructor|cbn; lia]))|].
  exact (Hk [98] (score_key (dec_lit 15 1)) true ltac:(vm_compute; reflexivity)).
Defined.

(** An object with two elements, in the second encoding. *)
Lemma demo_zobj : exists o, zobj_repr string_hash o (fold_left spec_op demo_ops ∅).
Proof.
  destruct (zsetTypeCreate_spec string_hash 1 64 1 1 ltac:(lia)) as (o0 & _ & Ho0).
  destruct (run_ops_spec string_hash DICT_RESIZE_ENABLE 1 1 64 demo_ops o0 ∅ ltac:(lia) Ho0 demo_ops_ok) as (o & _ & Ho);
    [rewrite map_size_empty; cbn; lia|]. by exists o.
Defined.

Lemma zsetAdd_refines_witness :
  exists o o' r, zsetAdd string_hash DICT_RESIZE_ENABLE 1 1 64 o (f_of_Z 7) [98] ZADD_IN_GT = Ret (o', r) /\
    same_result r (true, ZADD_OUT_UPDATED, Some (f_of_Z 7)).
Proof.
  destruct demo_zobj as (o & Ho).
  destruct (zsetAdd_refines string_hash DICT_RESIZE_ENABLE 1 1 64 o _ (f_of_Z 7) [98] ZADD_IN_GT ltac:(lia) Ho) as (o' & r & E & Er & _);
    [split; [by repeat constructor|cbn; lia]|intros _; apply f_of_Z_ok|vm_compute; reflexivity|]. exists o, o', r. split; [exact E|exact Er].
Defined.

Lemma zsetDel_refines_witness : exists o o', zsetDel string_hash DICT_RESIZE_ENABLE o [97] = Ret (o', true).
Proof.
  destruct demo_zobj as (o & Ho). destruct (zsetDel_refines string_hash DICT_RESIZE_ENABLE o _ [97] Ho ltac:(split; [by repeat constructor|cbn; lia])) as (o' & E & _). exists o, o'. exact E.
Defined.

Lemma zsetConvert_refines_witness :
  exists o o', zobj_repr string_hash o (fold_left spec_op demo_ops ∅) /\ zsetConvert string_hash DICT_RESIZE_ENABLE 1 o false = Ret o' /\
    zobj_repr string_hash o' (fold_left spec_op demo_ops ∅).
Proof.
  destruct demo_zobj as (o & Ho). destruct (zsetConvert_refines string_hash DICT_RESIZE_ENABLE 1 o _ false Ho) as (o' & E & Ho' & _).
  - intros _ l Hl. rewrite (ls_items _ _ Hl). split; [rewrite length_map_to_list; vm_compute; congruence|vm_compute; congruence].
  - exists o, o'. by split.
Defined.
