(* ===== verification/ZsetRange.v ===== *)
(** * Ranges of sorted sets ([redis-7.2.3/src/t_zset.c])

    The items of a sorted set from one bound to another: of ranks, of scores, or
    of elements in lexicographic order.  The searches for the ends of a range and
    the deletion of a range are there once for each encoding; the commands that
    list, count and delete ranges choose between them.

    This file has the definitions.  What a command lists is passed to a handler,
    an interface with one implementation for a reply to a client and one for a
    new sorted set; both are in [ZsetCommand]. *)
From stdpp Require Import gmap.
From S2P Require Import Prelude Mem NumStr Listpack ListpackNav Dict Skiplist PyFloat Score Zset.

Local Open Scope Z_scope.

(** ** Lexicographic ranges *)

(** [shared.minstring] and [shared.maxstring] are told by their addresses. *)
Inductive lexstring : Type :=
  | MinString
  | MaxString
  | LexString (s : list Z).

Record zlexrangespec : Type := LexRange { lmin : lexstring; lmax : lexstring; lminex : bool; lmaxex : bool }.

Definition sdscmplex (a b : lexstring) : Z :=
  match a, b with
  | MinString, MinString | MaxString, MaxString => 0
  | MinString, _ | _, MaxString => -1
  | MaxString, _ | _, MinString => 1
  | LexString a, LexString b => sdscmp a b
  end.

Definition zslLexValueGteMin (value : list Z) (spec : zlexrangespec) : bool :=
  if lminex spec then 0 <? sdscmplex (LexString value) (lmin spec) else 0 <=? sdscmplex (LexString value) (lmin spec).
Definition zslLexValueLteMax (value : list Z) (spec : zlexrangespec) : bool :=
  if lmaxex spec then sdscmplex (LexString value) (lmax spec) <? 0 else sdscmplex (LexString value) (lmax spec) <=? 0.

(** A string is followed by a NUL. *)
Definition zslParseLexRangeItem (c : list Z) : option (lexstring * bool) :=
  match c with
  | 43 :: c => if negb (hd 0 c =? 0) then None else Some (MaxString, true)
  | 45 :: c => if negb (hd 0 c =? 0) then None else Some (MinString, true)
  | 40 :: c => Some (LexString c, true)
  | 91 :: c => Some (LexString c, false)
  | _ => None
  end.

Definition zslParseLexRange (min max : list Z) : option zlexrangespec :=
  match zslParseLexRangeItem min, zslParseLexRangeItem max with
  | Some (lo, loex), Some (hi, hiex) => Some (LexRange lo hi loex hiex)
  | _, _ => None
  end.

(** Ranges that are empty for every sorted set. *)
Definition empty_lex_range (r : zlexrangespec) : bool :=
  let cmp := sdscmplex (lmin r) (lmax r) in (0 <? cmp) || ((cmp =? 0) && (lminex r || lmaxex r)).

(** *** In a skip list *)

Definition zslIsInLexRange (z : zskiplist) (r : zlexrangespec) : res bool :=
  if empty_lex_range r then Ret false else
  match tail z with
  | None => Ret false
  | Some t =>
      nt ← node_at (mem z) t;
      et ← ele_of nt;
      if negb (zslLexValueGteMin et r) then Ret false else
      l ← load_level (mem z) (header z) 0;
      match forward l with
      | None => Ret false
      | Some f => nf ← node_at (mem z) f; ef ← ele_of nf; Ret (zslLexValueLteMax ef r)
      end
  end.

Definition out_of_lex_range (r : zlexrangespec) (n : zskiplistNode) (_ : Z) : res bool :=
  e ← ele_of n; Ret (negb (zslLexValueGteMin e r)).
Definition up_to_lex_max (r : zlexrangespec) (n : zskiplistNode) (_ : Z) : res bool :=
  e ← ele_of n; Ret (zslLexValueLteMax e r).

Definition zslFirstInLexRange (z : zskiplist) (r : zlexrangespec) : res (option loc) :=
  ok ← zslIsInLexRange z r;
  if negb ok then Ret None else
  up ← descend (zfuel z) (mem z) (out_of_lex_range r) (zlevel z) (header z) 0;
  '(x, _) ← of_option (up !! 0%nat);
  l ← load_level (mem z) x 0;
  x ← of_option (forward l);
  n ← node_at (mem z) x;
  e ← ele_of n;
  Ret (if zslLexValueLteMax e r then Some x else None).

Definition zslLastInLexRange (z : zskiplist) (r : zlexrangespec) : res (option loc) :=
  ok ← zslIsInLexRange z r;
  if negb ok then Ret None else
  up ← descend (zfuel z) (mem z) (up_to_lex_max r) (zlevel z) (header z) 0;
  '(x, _) ← of_option (up !! 0%nat);
  n ← node_at (mem z) x;
  e ← ele_of n;
  Ret (if zslLexValueGteMin e r then Some x else None).

(** The header has no element, and no node of a range is the header. *)
Definition node_lte_lex (r : zlexrangespec) (n : zskiplistNode) (_ : Z) : bool :=
  match ele n with Some e => zslLexValueLteMax e r | None => false end.

Definition zslDeleteRangeByLex (z : zskiplist) (r : zlexrangespec) : res (zskiplist * list (list Z)) :=
  up ← descend (zfuel z) (mem z) (out_of_lex_range r) (zlevel z) (header z) 0;
  '(x, rank) ← of_option (up !! 0%nat);
  l ← load_level (mem z) x 0;
  delete_loop (zfuel z) z (node_lte_lex r) up (forward l) (rank + 1).

(** ** Ranges of a listpack *)

Section Listpack.
Context `{Heap} `{Usable} `{Decimal}.

Definition zzlPrev (zl : list Z) (eptr : Z) : res (option (Z * Z)) :=
  s ← lpPrev zl eptr;
  match s with
  | Some sptr => e ← lpPrev zl sptr; eptr ← of_option e; Ret (Some (eptr, sptr))
  | None => Ret None
  end.

Definition score_gte (zl : list Z) (sptr : Z) (r : zrangespec) : res bool :=
  score ← zzlGetScore zl sptr; Ret (zslValueGteMin score r).
Definition score_lte (zl : list Z) (sptr : Z) (r : zrangespec) : res bool :=
  score ← zzlGetScore zl sptr; Ret (zslValueLteMax score r).

Definition zzlIsInRange (zl : list Z) (r : zrangespec) : res bool :=
  if empty_range r then Ret false else
  p ← lpSeek zl (-1);
  match p with
  | None => Ret false
  | Some p =>
      ok ← score_gte zl p r;
      if negb ok then Ret false else
      p ← lpSeek zl 1; p ← of_option p; score_lte zl p r
  end.

Fixpoint first_loop (fuel : nat) (zl : list Z) (eptr : option Z) (r : zrangespec) : res (option Z) :=
  match eptr with
  | None => Ret None
  | Some e =>
      match fuel with
      | O => Diverge
      | S fuel =>
          s ← lpNext zl e; sptr ← of_option s;
          ge ← score_gte zl sptr r;
          if ge : bool then le ← score_lte zl sptr r; Ret (if le : bool then Some e else None)
          else next ← lpNext zl sptr; first_loop fuel zl next r
      end
  end.

Definition zzlFirstInRange (zl : list Z) (r : zrangespec) : res (option Z) :=
  eptr ← lpSeek zl 0;
  ok ← zzlIsInRange zl r;
  if negb ok then Ret None else first_loop (length zl) zl eptr r.

Fixpoint last_loop (fuel : nat) (zl : list Z) (eptr : option Z) (r : zrangespec) : res (option Z) :=
  match eptr with
  | None => Ret None
  | Some e =>
      match fuel with
      | O => Diverge
      | S fuel =>
          s ← lpNext zl e; sptr ← of_option s;
          le ← score_lte zl sptr r;
          if le : bool then ge ← score_gte zl sptr r; Ret (if ge : bool then Some e else None)
          else
            s ← lpPrev zl e;
            match s with
            | Some sptr => p ← lpPrev zl sptr; p ← of_option p; last_loop fuel zl (Some p) r
            | None => Ret None
            end
      end
  end.

Definition zzlLastInRange (zl : list Z) (r : zrangespec) : res (option Z) :=
  eptr ← lpSeek zl (-2);
  ok ← zzlIsInRange zl r;
  if negb ok then Ret None else last_loop (length zl) zl eptr r.

Definition zzlLexValueGteMin (zl : list Z) (p : Z) (r : zlexrangespec) : res bool :=
  value ← lpGetObject zl p; Ret (zslLexValueGteMin value r).
Definition zzlLexValueLteMax (zl : list Z) (p : Z) (r : zlexrangespec) : res bool :=
  value ← lpGetObject zl p; Ret (zslLexValueLteMax value r).

Definition zzlIsInLexRange (zl : list Z) (r : zlexrangespec) : res bool :=
  if empty_lex_range r then Ret false else
  p ← lpSeek zl (-2);
  match p with
  | None => Ret false
  | Some p =>
      ok ← zzlLexValueGteMin zl p r;
      if negb ok then Ret false else
      p ← lpSeek zl 0; p ← of_option p; zzlLexValueLteMax zl p r
  end.

Fixpoint first_lex_loop (fuel : nat) (zl : list Z) (eptr : option Z) (r : zlexrangespec) : res (option Z) :=
  match eptr with
  | None => Ret None
  | Some e =>
      match fuel with
      | O => Diverge
      | S fuel =>
          ge ← zzlLexValueGteMin zl e r;
          if ge : bool then le ← zzlLexValueLteMax zl e r; Ret (if le : bool then Some e else None)
          else
            s ← lpNext zl e; sptr ← of_option s;
            next ← lpNext zl sptr; first_lex_loop fuel zl next r
      end
  end.

Definition zzlFirstInLexRange (zl : list Z) (r : zlexrangespec) : res (option Z) :=
  eptr ← lpSeek zl 0;
  ok ← zzlIsInLexRange zl r;
  if negb ok then Ret None else first_lex_loop (length zl) zl eptr r.

Fixpoint last_lex_loop (fuel : nat) (zl : list Z) (eptr : option Z) (r : zlexrangespec) : res (option Z) :=
  match eptr with
  | None => Ret None
  | Some e =>
      match fuel with
      | O => Diverge
      | S fuel =>
          le ← zzlLexValueLteMax zl e r;
          if le : bool then ge ← zzlLexValueGteMin zl e r; Ret (if ge : bool then Some e else None)
          else
            s ← lpPrev zl e;
            match s with
            | Some sptr => p ← lpPrev zl sptr; p ← of_option p; last_lex_loop fuel zl (Some p) r
            | None => Ret None
            end
      end
  end.

Definition zzlLastInLexRange (zl : list Z) (r : zlexrangespec) : res (option Z) :=
  eptr ← lpSeek zl (-2);
  ok ← zzlIsInLexRange zl r;
  if negb ok then Ret None else last_lex_loop (length zl) zl eptr r.

(** *** Deletion *)

(** [test] sees the pointers to the element and to the score. *)
Fixpoint zzl_delete_loop (fuel : nat) (zl : list Z) (test : list Z -> Z -> Z -> res bool) (eptr : option Z) (num : Z) : res (list Z * Z) :=
  match eptr with
  | None => Ret (zl, num)
  | Some e =>
      s ← lpNext zl e;
      match s with
      | None => Ret (zl, num)
      | Some sptr =>
          match fuel with
          | O => Diverge
          | S fuel =>
              inside ← test zl e sptr;
              if inside : bool then
                '(zl, eptr) ← lpDeleteRangeWithEntry zl e 2;
                zzl_delete_loop fuel zl test eptr (num + 1)
              else Ret (zl, num)
          end
      end
  end.

Definition zzlDeleteRangeByScore (zl : list Z) (r : zrangespec) : res (list Z * Z) :=
  eptr ← zzlFirstInRange zl r;
  zzl_delete_loop (length zl) zl (fun zl _ sptr => score_lte zl sptr r) eptr 0.

Definition zzlDeleteRangeByLex (zl : list Z) (r : zlexrangespec) : res (list Z * Z) :=
  eptr ← zzlFirstInLexRange zl r;
  zzl_delete_loop (length zl) zl (fun zl eptr _ => zzlLexValueLteMax zl eptr r) eptr 0.

(** Ranks are 1-based and unsigned. *)
Definition zzlDeleteRangeByRank (zl : list Z) (start stop : Z) : res (list Z * Z) :=
  let num := u32 (u32 (stop - start) + 1) in
  zl ← lpDeleteRange zl (u32 (2 * u32 (start - 1))) (Z.to_nat (u32 (2 * num)));
  Ret (zl, num).
End Listpack.

(** ** What is done with the items of a range *)

(** The methods of [zrange_result_handler], on a state of the handler.  An
    element is emitted as a string or as the integer a listpack has for it. *)
Class Handler (S : Type) := {
  beginResultEmission : S -> Z -> res S;
  emitResultFromCBuffer : S -> list Z -> float -> res S;
  emitResultFromLongLong : S -> Z -> float -> res S;
  finalizeResultEmission : S -> Z -> res S;
  emit_longlong : forall s v score, LLONG_MIN <= v <= LLONG_MAX ->
    emitResultFromLongLong s v score = emitResultFromCBuffer s (dec v) score;
}.

Section Listing.
Context `{Heap} `{Usable} `{Decimal}.
Context {S : Type} `{Handler S}.

Definition emit_value (s : S) (zl : list Z) (eptr : Z) (score : float) : res S :=
  v ← lpGetValue zl eptr;
  match v with
  | Integer vlong => emitResultFromLongLong s vlong score
  | v => vstr ← value_string zl v; emitResultFromCBuffer s vstr score
  end.

(** To the next item in the direction of the command. *)
Definition list_step (zl : list Z) (reverse : bool) (p : Z * Z) : res (option (Z * Z)) :=
  if reverse then zzlPrev zl p.1 else zzlNext zl p.2.
Definition skip_step (m : heap) (reverse : bool) (ln : positive) : res (option positive) :=
  if reverse then n ← node_at m ln; Ret (backward n)
  else l ← load_level m ln 0; Ret (forward l).

(** The pointers of an element and of its score. *)
Definition with_score (zl : list Z) (eptr : option Z) : res (option (Z * Z)) :=
  match eptr with
  | Some eptr => s ← lpNext zl eptr; sptr ← of_option s; Ret (Some (eptr, sptr))
  | None => Ret None
  end.

(** *** By rank *)

(** The score is read only when it is needed. *)
Definition score_if (withscores : bool) (zl : list Z) (sptr : Z) : res float :=
  if withscores then zzlGetScore zl sptr else Ret (f_of_Z 0).

Fixpoint list_rank_emit (rangelen : nat) (zl : list Z) (p : option (Z * Z)) (withscores reverse : bool) (s : S) : res S :=
  match rangelen with
  | O => Ret s
  | Datatypes.S rangelen =>
      '(eptr, sptr) ← of_option p;
      score ← score_if withscores zl sptr;
      s ← emit_value s zl eptr score;
      p ← list_step zl reverse (eptr, sptr);
      list_rank_emit rangelen zl p withscores reverse s
  end.

Fixpoint skip_rank_emit (rangelen : nat) (m : heap) (ln : option positive) (reverse : bool) (s : S) : res S :=
  match rangelen with
  | O => Ret s
  | Datatypes.S rangelen =>
      ln ← of_option ln;
      n ← node_at m ln;
      e ← ele_of n;
      s ← emitResultFromCBuffer s e (score n);
      next ← skip_step m reverse ln;
      skip_rank_emit rangelen m next reverse s
  end.

(** Negative indices count from the end; [None] is an empty range. *)
Definition sanitize_indexes (llen start stop : Z) : option (Z * Z) :=
  let start := if start <? 0 then llen + start else start in
  let stop := if stop <? 0 then llen + stop else stop in
  let start := if start <? 0 then 0 else start in
  if (stop <? start) || (llen <=? start) then None
  else Some (start, if llen <=? stop then llen - 1 else stop).

Definition genericZrangebyrankCommand (s : S) (o : zobj) (start stop : Z) (withscores reverse : bool) : res (S * zobj) :=
  '(llen, o) ← zsetLength o;
  match sanitize_indexes llen start stop with
  | None => s ← beginResultEmission s 0; s ← finalizeResultEmission s 0; Ret (s, o)
  | Some (start, stop) =>
      let rangelen := stop - start + 1 in
      s ← beginResultEmission s rangelen;
      s ← match o with
          | OBJ_ENCODING_LISTPACK zl =>
              e ← lpSeek zl (if reverse then -2 - 2 * start else 2 * start);
              eptr ← of_option e;
              p ← with_score zl (Some eptr);
              list_rank_emit (Z.to_nat rangelen) zl p withscores reverse s
          | OBJ_ENCODING_SKIPLIST zs =>
              let z := zsl zs in
              ln ← (if 0 <? start then zslGetElementByRank z (if reverse then llen - start else start + 1)
                    else if reverse then Ret (tail z)
                    else l ← load_level (mem z) (header z) 0; Ret (forward l));
              skip_rank_emit (Z.to_nat rangelen) (mem z) ln reverse s
          end;
      s ← finalizeResultEmission s rangelen;
      Ret (s, o)
  end.

(** *** By score and by element *)

(** [while (p && offset--)]. *)
Fixpoint offset_loop {P : Type} (fuel : nat) (step : P -> res (option P)) (p : option P) (offset : Z) : res (option P) :=
  match p with
  | None => Ret None
  | Some x =>
      if offset =? 0 then Ret p else
      match fuel with
      | O => Diverge
      | Datatypes.S fuel => p ← step x; offset_loop fuel step p (s64 (offset - 1))
      end
  end.

(** [while (p && limit--)]: [emit] tells that the item is no longer in the range
    by [None]; the number of items is counted. *)
Fixpoint limit_loop {P : Type} (fuel : nat) (step : P -> res (option P)) (emit : P -> S -> res (option S))
    (p : option P) (limit rangelen : Z) (s : S) : res (Z * S) :=
  match p with
  | None => Ret (rangelen, s)
  | Some x =>
      if limit =? 0 then Ret (rangelen, s) else
      match fuel with
      | O => Diverge
      | Datatypes.S fuel =>
          r ← emit x s;
          match r with
          | None => Ret (rangelen, s)
          | Some s => p ← step x; limit_loop fuel step emit p (s64 (limit - 1)) (rangelen + 1) s
          end
      end
  end.

(** One item: [probe] gives the score if the item is in the range. *)
Definition list_emit (zl : list Z) (probe : Z -> Z -> res (option float)) (p : Z * Z) (s : S) : res (option S) :=
  r ← probe p.1 p.2;
  match r with
  | None => Ret None
  | Some score => s ← emit_value s zl p.1 score; Ret (Some s)
  end.

Definition skip_emit (m : heap) (inside : zskiplistNode -> res bool) (ln : positive) (s : S) : res (option S) :=
  n ← node_at m ln;
  ok ← inside n;
  if ok : bool then e ← ele_of n; s ← emitResultFromCBuffer s e (score n); Ret (Some s) else Ret None.

Definition list_range_emit (zl : list Z) (eptr : option Z) (offset limit : Z) (reverse : bool)
    (probe : Z -> Z -> res (option float)) (s : S) : res (Z * S) :=
  p ← with_score zl eptr;
  p ← offset_loop (length zl) (list_step zl reverse) p offset;
  limit_loop (length zl) (list_step zl reverse) (list_emit zl probe) p limit 0 s.

Definition skip_range_emit (z : zskiplist) (ln : option positive) (offset limit : Z) (reverse : bool)
    (inside : zskiplistNode -> res bool) (s : S) : res (Z * S) :=
  ln ← offset_loop (zfuel z) (skip_step (mem z) reverse) ln offset;
  limit_loop (zfuel z) (skip_step (mem z) reverse) (skip_emit (mem z) inside) ln limit 0 s.

Definition genericZrangebyscoreCommand (s : S) (r : zrangespec) (o : zobj) (offset limit : Z) (reverse : bool) : res (S * zobj) :=
  s ← beginResultEmission s (-1);
  '(past, o) ← (if 0 <? offset then '(n, o) ← zsetLength o; Ret (n <=? offset, o) else Ret (false, o));
  if past : bool then s ← finalizeResultEmission s 0; Ret (s, o) else
  let in_range score := if reverse then zslValueGteMin score r else zslValueLteMax score r in
  '(rangelen, s) ←
    match o with
    | OBJ_ENCODING_LISTPACK zl =>
        eptr ← (if reverse then zzlLastInRange zl r else zzlFirstInRange zl r);
        list_range_emit zl eptr offset limit reverse (fun _ sptr =>
          score ← zzlGetScore zl sptr; Ret (if in_range score then Some score else None)) s
    | OBJ_ENCODING_SKIPLIST zs =>
        let z := zsl zs in
        ln ← (if reverse then zslLastInRange z r else zslFirstInRange z r);
        skip_range_emit z ln offset limit reverse (fun n => Ret (in_range (score n))) s
    end;
  s ← finalizeResultEmission s rangelen;
  Ret (s, o).

Definition genericZrangebylexCommand (s : S) (r : zlexrangespec) (o : zobj) (withscores : bool) (offset limit : Z) (reverse : bool)
    : res (S * zobj) :=
  s ← beginResultEmission s (-1);
  let in_range e := if reverse then zslLexValueGteMin e r else zslLexValueLteMax e r in
  '(rangelen, s) ←
    match o with
    | OBJ_ENCODING_LISTPACK zl =>
        eptr ← (if reverse then zzlLastInLexRange zl r else zzlFirstInLexRange zl r);
        list_range_emit zl eptr offset limit reverse (fun eptr sptr =>
          score ← score_if withscores zl sptr;
          e ← lpGetObject zl eptr; Ret (if in_range e then Some score else None)) s
    | OBJ_ENCODING_SKIPLIST zs =>
        let z := zsl zs in
        ln ← (if reverse then zslLastInLexRange z r else zslFirstInLexRange z r);
        skip_range_emit z ln offset limit reverse (fun n => e ← ele_of n; Ret (in_range e)) s
    end;
  s ← finalizeResultEmission s rangelen;
  Ret (s, o).
End Listing.

(** ** Counting *)

Section Count.
Context `{Heap} `{Usable} `{Decimal}.

Fixpoint list_count_loop (fuel : nat) (zl : list Z) (test : Z -> Z -> res bool) (p : option (Z * Z)) (count : Z) : res Z :=
  match p with
  | None => Ret count
  | Some (eptr, sptr) =>
      match fuel with
      | O => Diverge
      | S fuel =>
          inside ← test eptr sptr;
          if inside : bool then p ← zzlNext zl sptr; list_count_loop fuel zl test p (u64 (count + 1))
          else Ret count
      end
  end.

(** From the first item of the range, which is in it. *)
Definition list_count (zl : list Z) (test : Z -> Z -> res bool) (eptr : option Z) : res Z :=
  match eptr with
  | None => Ret 0
  | Some eptr =>
      s ← lpNext zl eptr; sptr ← of_option s;
      ok ← test eptr sptr;
      _ ← assert ok;
      list_count_loop (length zl) zl test (Some (eptr, sptr)) 0
  end.

Definition node_rank (z : zskiplist) (x : positive) : res Z :=
  n ← node_at (mem z) x; e ← ele_of n; zslGetRank z (score n) e.

(** From the ranks of the ends; [last] is called when there is a first one. *)
Definition skip_count (z : zskiplist) (first : option positive) (last : res (option positive)) : res Z :=
  match first with
  | None => Ret 0
  | Some zn =>
      rank ← node_rank z zn;
      let count := u64 (zlength z - u64 (rank - 1)) in
      zn ← last;
      match zn with
      | None => Ret count
      | Some zn => rank ← node_rank z zn; Ret (u64 (count - u64 (zlength z - rank)))
      end
  end.

Definition zcount (o : zobj) (r : zrangespec) : res Z :=
  match o with
  | OBJ_ENCODING_LISTPACK zl => eptr ← zzlFirstInRange zl r; list_count zl (fun _ sptr => score_lte zl sptr r) eptr
  | OBJ_ENCODING_SKIPLIST zs => zn ← zslFirstInRange (zsl zs) r; skip_count (zsl zs) zn (zslLastInRange (zsl zs) r)
  end.

Definition zlexcount (o : zobj) (r : zlexrangespec) : res Z :=
  match o with
  | OBJ_ENCODING_LISTPACK zl => eptr ← zzlFirstInLexRange zl r; list_count zl (fun eptr _ => zzlLexValueLteMax zl eptr r) eptr
  | OBJ_ENCODING_SKIPLIST zs => zn ← zslFirstInLexRange (zsl zs) r; skip_count (zsl zs) zn (zslLastInLexRange (zsl zs) r)
  end.
End Count.

(** ** Deleting ranges and taking items out *)

Inductive zrange : Type :=
  | ZRANGE_RANK (start stop : Z)
  | ZRANGE_SCORE (r : zrangespec)
  | ZRANGE_LEX (r : zlexrangespec).

Section Remove.
Context `{Heap} `{Usable} `{Decimal} `{NodeAlloc}.
Context (dictSdsHash : list Z -> Z) (dict_can_resize : dictResizeEnable).

Definition zdictDelete := dictDelete (V := positive) dictSdsHash false false (fun _ => false) dict_can_resize.

(** The deletion of a node from the skip list and that of its element from the
    dictionary touch different memory: the elements are deleted afterwards. *)
Fixpoint dict_delete_all (d : dict (list Z) positive) (es : list (list Z)) : res (dict (list Z) positive) :=
  match es with
  | [] => Ret d
  | e :: es => '(d, _) ← zdictDelete d e; dict_delete_all d es
  end.

(** The object, the number of items deleted and whether none is left. *)
Definition zremrange (o : zobj) (range : zrange) : res (zobj * Z * bool) :=
  '(range, o) ←
    match range with
    | ZRANGE_RANK start stop =>
        '(llen, o) ← zsetLength o;
        Ret (match sanitize_indexes llen start stop with Some (start, stop) => Some (ZRANGE_RANK start stop) | None => None end, o)
    | _ => Ret (Some range, o)
    end;
  match range with
  | None => Ret (o, 0, false)
  | Some range =>
      match o with
      | OBJ_ENCODING_LISTPACK zl =>
          '(zl, deleted) ←
            match range with
            | ZRANGE_RANK start stop => zzlDeleteRangeByRank zl (u32 (start + 1)) (u32 (stop + 1))
            | ZRANGE_SCORE r => zzlDeleteRangeByScore zl r
            | ZRANGE_LEX r => zzlDeleteRangeByLex zl r
            end;
          '(n, zl) ← zzlLength zl;
          Ret (OBJ_ENCODING_LISTPACK zl, deleted, n =? 0)
      | OBJ_ENCODING_SKIPLIST zs =>
          '(z, removed) ←
            match range with
            | ZRANGE_RANK start stop => zslDeleteRangeByRank (zsl zs) (u32 (start + 1)) (u32 (stop + 1))
            | ZRANGE_SCORE r => zslDeleteRangeByScore (zsl zs) r
            | ZRANGE_LEX r => zslDeleteRangeByLex (zsl zs) r
            end;
          d ← dict_delete_all (zdict zs) removed;
          '(d, _) ← (if htNeedsResize d then dictResize dict_can_resize d else Ret (d, false));
          Ret (OBJ_ENCODING_SKIPLIST (Zset d z), Z.of_nat (length removed), dictSize d =? 0)
      end
  end.

(** [where_max] is [where == ZSET_MAX]. *)
Definition zpop_one (o : zobj) (where_max : bool) : res (zobj * (list Z * float)) :=
  '(ele, score) ←
    match o with
    | OBJ_ENCODING_LISTPACK zl =>
        e ← lpSeek zl (if where_max then -2 else 0); eptr ← of_option e;
        ele ← lpGetObject zl eptr;
        s ← lpNext zl eptr; sptr ← of_option s;
        score ← zzlGetScore zl sptr;
        Ret (ele, score)
    | OBJ_ENCODING_SKIPLIST zs =>
        let z := zsl zs in
        ln ← (if where_max then Ret (tail z) else l ← load_level (mem z) (header z) 0; Ret (forward l));
        ln ← of_option ln;
        n ← node_at (mem z) ln;
        ele ← ele_of n;
        Ret (ele, score n)
    end;
  '(o, deleted) ← zsetDel dictSdsHash dict_can_resize o ele;
  _ ← assert deleted;
  Ret (o, (ele, score)).

(** [do ... while(--rangelen)]. *)
Fixpoint zpop_loop (rangelen : nat) (o : zobj) (where_max : bool) : res (zobj * list (list Z * float)) :=
  '(o, item) ← zpop_one o where_max;
  match rangelen with
  | O | S O => Ret (o, [item])
  | S rangelen => '(o, items) ← zpop_loop rangelen o where_max; Ret (o, item :: items)
  end.
End Remove.
