(* ===== verification/ZsetRangeSpec.v ===== *)
(** * The ends of ranges

    A range of scores or of elements cuts the listing of a sorted set: the items
    from its lower bound on are a suffix, the items up to its upper bound a
    prefix.  For a range of elements this takes items of one score.  The searches
    of [ZsetRange] find the two cuts in both encodings. *)
From stdpp Require Import gmap.
From S2P Require Import Prelude Mem NumStr Listpack ListpackEnc ListpackNav ListpackEdit ListpackApi.
From S2P Require Import Dict Skiplist SkiplistUpdate PyFloat Score Zset ZsetSpec ZsetSkip ZsetList ZsetRange.

Local Open Scope Z_scope.

(** ** Bounds *)

Inductive bounds : Type :=
  | ByScore (r : zrangespec)
  | ByLex (r : zlexrangespec).

Definition above (b : bounds) (a : item) : bool :=
  match b with ByScore r => zslValueGteMin (key_score a.2) r | ByLex r => zslLexValueGteMin a.1 r end.
Definition below (b : bounds) (a : item) : bool :=
  match b with ByScore r => zslValueLteMax (key_score a.2) r | ByLex r => zslLexValueLteMax a.1 r end.
Definition inside (b : bounds) (a : item) : bool := above b a && below b a.

Definition no_bounds (b : bounds) : bool :=
  match b with ByScore r => empty_range r | ByLex r => empty_lex_range r end.

Definition one_score (l : list item) : Prop := forall a c, a ∈ l -> c ∈ l -> a.2 = c.2.
Definition comparable (b : bounds) (l : list item) : Prop :=
  match b with ByScore _ => True | ByLex _ => one_score l end.

(** *** Order of lexicographic bounds *)

Definition lex_le (a b : lexstring) : Prop := sdscmplex a b <= 0.

Lemma sdscmplex_antisym a b : sdscmplex b a = - sdscmplex a b.
Proof. destruct a, b; cbn; try done. apply sdscmp_antisym. Qed.

Lemma sdscmp_le_trans a b c : sdscmp a b <= 0 -> sdscmp b c <= 0 -> sdscmp a c <= 0.
Proof.
  intros H1 H2. destruct (Z.eq_dec (sdscmp a b) 0) as [E1%sdscmp_eq|]; [by subst|].
  destruct (Z.eq_dec (sdscmp b c) 0) as [E2%sdscmp_eq|]; [by subst|]. pose proof (sdscmp_trans a b c). lia.
Qed.

Lemma sdscmp_lt_le_trans a b c : sdscmp a b < 0 -> sdscmp b c <= 0 -> sdscmp a c < 0.
Proof.
  intros H1 H2. destruct (Z.eq_dec (sdscmp b c) 0) as [E2%sdscmp_eq|]; [by subst|]. apply (sdscmp_trans a b c); lia.
Qed.

Lemma sdscmplex_trans a b c : sdscmplex a b <= 0 -> sdscmplex b c <= 0 -> sdscmplex a c <= 0.
Proof. destruct a, b, c; cbn; try lia. apply sdscmp_le_trans. Qed.

Lemma sdscmplex_trans_strict a b c : sdscmplex a b < 0 -> sdscmplex b c <= 0 -> sdscmplex a c < 0.
Proof. destruct a, b, c; cbn; try lia. apply sdscmp_lt_le_trans. Qed.

Lemma lex_gte_mono r v w : sdscmp v w <= 0 -> zslLexValueGteMin v r = true -> zslLexValueGteMin w r = true.
Proof.
  intros Hvw. assert (sdscmplex (LexString v) (LexString w) <= 0) as Hl by done. unfold zslLexValueGteMin.
  pose proof (sdscmplex_antisym (LexString v) (lmin r)) as A1. pose proof (sdscmplex_antisym (LexString w) (lmin r)) as A2.
  pose proof (sdscmplex_trans (lmin r) (LexString v) (LexString w)) as T1. pose proof (sdscmplex_trans_strict (lmin r) (LexString v) (LexString w)) as T2.
  destruct (lminex r); rewrite ?Z.ltb_lt, ?Z.leb_le; lia.
Qed.

Lemma lex_lte_mono r v w : sdscmp v w <= 0 -> zslLexValueLteMax w r = true -> zslLexValueLteMax v r = true.
Proof.
  intros Hvw. assert (sdscmplex (LexString v) (LexString w) <= 0) as Hl by done. unfold zslLexValueLteMax.
  pose proof (sdscmplex_trans (LexString v) (LexString w) (lmax r)) as T1.
  pose proof (sdscmplex_antisym (LexString v) (lmax r)) as A1. pose proof (sdscmplex_antisym (LexString w) (lmax r)) as A2.
  pose proof (sdscmplex_antisym (LexString v) (LexString w)) as A3. pose proof (sdscmplex_trans (lmax r) (LexString v) (LexString w)) as T2.
  destruct (lmaxex r); rewrite ?Z.ltb_lt, ?Z.leb_le; [|lia]. intros Hw. destruct (Z.lt_trichotomy (sdscmplex (LexString v) (lmax r)) 0) as [|[E|E]]; [done| |]; lia.
Qed.

(** The bounds that the code takes to be empty are. *)
Lemma no_bounds_inside b a : no_bounds b = true -> inside b a = false.
Proof.
  unfold inside. destruct b as [r|r]; cbn [no_bounds above below].
  - apply empty_range_spec.
  - unfold empty_lex_range, zslLexValueGteMin, zslLexValueLteMax. rewrite orb_true_iff, andb_true_iff, Z.ltb_lt, Z.eqb_eq.
    intros He. apply not_true_is_false. intros Ht. apply andb_true_iff in Ht as [H1 H2]. set (v := LexString a.1) in *.
    pose proof (sdscmplex_antisym v (lmin r)) as A1. pose proof (sdscmplex_trans (lmin r) v (lmax r)) as T1.
    pose proof (sdscmplex_trans_strict (lmin r) v (lmax r)) as T2.
    pose proof (sdscmplex_antisym (lmin r) (lmax r)) as A2. pose proof (sdscmplex_antisym v (lmax r)) as A3.
    pose proof (sdscmplex_trans (lmax r) (lmin r) v) as T3. 
    destruct (lminex r), (lmaxex r); rewrite ?Z.ltb_lt, ?Z.leb_le in *; cbn in *; lia.
Qed.

(** ** Cuts *)

Lemma monotone_cut {A} (P : A -> bool) (l : list A) :
  (forall p q a b, l !! p = Some a -> l !! q = Some b -> (p < q)%nat -> P b = true -> P a = true) ->
  exists k, (k <= length l)%nat /\ forall p a, l !! p = Some a -> P a = bool_decide (p < k)%nat.
Proof.
  induction l as [|x l IH]; intros Hm; [by exists 0%nat|]. destruct (P x) eqn:Ex.
  - destruct IH as (k & Hk & H); [intros p q a b Ha Hb Hpq; apply (Hm (S p) (S q)); [done|done|lia]|].
    exists (S k). split; [cbn; lia|]. intros [|p] a Ha; cbn in Ha.
    + injection Ha as <-. rewrite Ex. symmetry. apply bool_decide_eq_true. lia.
    + rewrite (H _ _ Ha). apply bool_decide_ext. lia.
  - exists 0%nat. split; [lia|]. intros p a Ha. rewrite bool_decide_eq_false_2 by lia.
    destruct p as [|p]; [by injection Ha as <-|]. destruct (P a) eqn:E; [|done].
    by rewrite (Hm 0%nat (S p) x a eq_refl Ha ltac:(lia) E) in Ex.
Qed.

(** The items from position [i] on are above the lower bound, those before
    position [j] below the upper one. *)
Record cut (b : bounds) (l : list item) (i j : nat) : Prop := {
  cut_i : (i <= length l)%nat;
  cut_j : (j <= length l)%nat;
  cut_above : forall p a, l !! p = Some a -> above b a = bool_decide (i <= p)%nat;
  cut_below : forall p a, l !! p = Some a -> below b a = bool_decide (p < j)%nat;
}.

Lemma item_lt_score a b : item_lt a b -> a.2 <= b.2.
Proof. unfold item_lt, item_ltb, key_lt. rewrite orb_true_iff, andb_true_iff, Z.ltb_lt, Z.eqb_eq. lia. Qed.

Lemma item_lt_ele a b : item_lt a b -> a.2 = b.2 -> sdscmp a.1 b.1 <= 0.
Proof. unfold item_lt, item_ltb, key_lt. rewrite orb_true_iff, andb_true_iff, !Z.ltb_lt, Z.eqb_eq. lia. Qed.

Lemma sorted_items l p q a b : StronglySorted item_lt l -> l !! p = Some a -> l !! q = Some b -> (p < q)%nat -> item_lt a b.
Proof.
  intros Hs. revert p q. induction Hs as [|x l Hs IH Hall]; intros p q Ha Hb Hpq; [done|]. destruct q as [|q]; [lia|]. cbn in Hb.
  destruct p as [|p]; cbn in Ha; [|by eapply IH; [done|done|lia]].
  injection Ha as <-. rewrite Forall_forall in Hall. apply Hall. by eapply list_elem_of_lookup_2.
Qed.

Lemma cut_exists b l : StronglySorted item_lt l -> Forall (fun a => key_ok a.2) l -> comparable b l -> exists i j, cut b l i j.
Proof.
  intros Hs Hkeys Hc.
  assert (forall p q a c, l !! p = Some a -> l !! q = Some c -> (p < q)%nat ->
    (above b a = true -> above b c = true) /\ (below b c = true -> below b a = true)) as Hm.
  { intros p q a c Ha Hb Hpq. pose proof (sorted_items _ _ _ _ _ Hs Ha Hb Hpq) as Hlt.
    destruct b as [r|r]; cbn [above below comparable] in *.
    - apply item_lt_score in Hlt. destruct (key_score_ok _ (Forall_lookup_1 _ _ _ _ Hkeys Ha)) as [Ha1 Ha2].
      destruct (key_score_ok _ (Forall_lookup_1 _ _ _ _ Hkeys Hb)) as [Hb1 Hb2].
      assert ((key_score a.2 <=? key_score c.2)%F = true) as Hle by (rewrite fle_key, Ha2, Hb2 by done; by apply Z.leb_le).
      split; [by apply gte_mono|by apply lte_mono].
    - apply item_lt_ele in Hlt; [|apply Hc; by eapply list_elem_of_lookup_2]. split; [by apply lex_gte_mono|by apply lex_lte_mono]. }
  destruct (monotone_cut (fun a => negb (above b a)) l) as (i & Hi & Hlo).
  { intros p q a c Ha Hb Hpq. rewrite !negb_true_iff. intros E. destruct (above b a) eqn:Ea; [|done].
    by rewrite (proj1 (Hm _ _ _ _ Ha Hb Hpq) Ea) in E. }
  destruct (monotone_cut (below b) l) as (j & Hj & Hhi); [intros p q a c Ha Hb Hpq; by apply (Hm p q)|].
  exists i, j. split; [done|done| |done]. intros p a Ha. rewrite <- (negb_involutive (above b a)), (Hlo _ _ Ha).
  repeat case_bool_decide; cbn; done || lia.
Qed.

Lemma filter_const {A} (f : A -> bool) (v : bool) l : (forall p a, l !! p = Some a -> f a = v) -> List.filter f l = if v then l else [].
Proof.
  induction l as [|a l IH]; intros Hf; [by destruct v|]. cbn. rewrite (Hf 0%nat a eq_refl), IH by (intros p c; apply (Hf (S p))). by destruct v.
Qed.

Section Cut.
Context (b : bounds) (l : list item) (i j : nat).
Hypothesis Hcut : cut b l i j.

Lemma inside_at p a : l !! p = Some a -> inside b a = bool_decide (i <= p < j)%nat.
Proof using Hcut.
  intros Ha. unfold inside. rewrite (cut_above _ _ _ _ Hcut _ _ Ha), (cut_below _ _ _ _ Hcut _ _ Ha).
  repeat case_bool_decide; cbn; done || lia.
Qed.

Lemma inside_slice : List.filter (inside b) l = take (j - i) (drop i l).
Proof using Hcut.
  destruct (decide (i <= j)%nat) as [Hij|Hij].
  - rewrite <- (take_drop i l) at 1. rewrite <- (take_drop (j - i) (drop i l)) at 1. rewrite !List.filter_app, drop_drop.
    rewrite (filter_const _ false (take i l)), (filter_const _ true (take _ _)), (filter_const _ false (drop _ _)); [by rewrite app_nil_r|..];
      intros p a Ha; rewrite ?lookup_take_Some, ?lookup_drop in Ha; rewrite ?lookup_drop in Ha.
    + rewrite (inside_at _ _ Ha). apply bool_decide_eq_false. lia.
    + destruct Ha as [Ha Hp]. rewrite (inside_at _ _ Ha). apply bool_decide_eq_true. lia.
    + destruct Ha as [Ha Hp]. rewrite (inside_at _ _ Ha). apply bool_decide_eq_false. lia.
  - replace (j - i)%nat with 0%nat by lia. apply (filter_const _ false). intros p a Ha. rewrite (inside_at _ _ Ha). apply bool_decide_eq_false. lia.
Qed.

Lemma outside_slice : List.filter (fun a => negb (inside b a)) l = take i l ++ drop (i + (j - i)) l.
Proof using Hcut.
  destruct (decide (i <= j)%nat) as [Hij|Hij].
  - rewrite <- (take_drop i l) at 1. rewrite <- (take_drop (j - i) (drop i l)) at 1. rewrite !List.filter_app, drop_drop.
    rewrite (filter_const _ true (take i l)), (filter_const _ false (take _ _)), (filter_const _ true (drop _ _)); [done|..];
      intros p a Ha; rewrite ?lookup_take_Some, ?lookup_drop in Ha; rewrite ?lookup_drop in Ha.
    + rewrite (inside_at _ _ Ha). rewrite bool_decide_eq_false_2 by lia. done.
    + destruct Ha as [Ha Hp]. rewrite (inside_at _ _ Ha). rewrite bool_decide_eq_true_2 by lia. done.
    + destruct Ha as [Ha Hp]. rewrite (inside_at _ _ Ha). rewrite bool_decide_eq_false_2 by lia. done.
  - replace (i + (j - i))%nat with i by lia. rewrite take_drop. apply (filter_const _ true). intros p a Ha.
    rewrite (inside_at _ _ Ha). rewrite bool_decide_eq_false_2 by lia. done.
Qed.

(** An empty intersection, seen from an early test. *)
Lemma cut_empty : (forall a, a ∈ l -> inside b a = false) -> ~ (i < j)%nat.
Proof using Hcut.
  intros Hno Hij. pose proof (cut_j _ _ _ _ Hcut). destruct (lookup_lt_is_Some_2 l i) as [a Ha]; [lia|].
  specialize (Hno a ltac:(by eapply list_elem_of_lookup_2)). rewrite (inside_at _ _ Ha) in Hno. apply bool_decide_eq_false in Hno. lia.
Qed.

Lemma cut_last a : last l = Some a -> above b a = bool_decide (i < length l)%nat.
Proof using Hcut.
  rewrite last_lookup. intros Ha. rewrite (cut_above _ _ _ _ Hcut _ _ Ha). apply bool_decide_ext. apply lookup_lt_Some in Ha. lia.
Qed.

Lemma cut_head a : l !! 0%nat = Some a -> below b a = bool_decide (0 < j)%nat.
Proof using Hcut. intros Ha. by rewrite (cut_below _ _ _ _ Hcut _ _ Ha). Qed.
End Cut.

(** ** Listpacks *)

Section Listpack.
Context `{Hheap : Heap} `{Husable : Usable} `{Hdec : Decimal}.
Context (zl : list Z) (l : list item).
Hypothesis Hr : lp_repr zl (flat l).
Hypothesis Hkeys : Forall (fun a => key_ok a.2) l.
Local Abbreviation off := (off (flat l)).

Lemma fuel_items : (length l <= length zl)%nat.
Proof using Hr. destruct Hr as (num & slack & Hm). pose proof (repr_length _ _ _ _ Hm) as Hl. rewrite length_flat in Hl. lia. Qed.

Lemma prev_item p a : l !! p = Some a ->
  lpPrev zl (off (2 * p)) = Ret (match p with O => None | S q => Some (off (S (2 * q))) end).
Proof using Hr.
  intros Ha%lookup_lt_Some. destruct Hr as (num & slack & Hm). rewrite (lpPrev_spec _ _ _ _ Hm) by (rewrite length_flat; lia).
  destruct p as [|q]; [done|]. replace (2 * S q)%nat with (S (S (2 * q))) by lia. done.
Qed.

Lemma prev_ele q a : l !! q = Some a -> lpPrev zl (off (S (2 * q))) = Ret (Some (off (2 * q))).
Proof using Hr.
  intros Ha%lookup_lt_Some. destruct Hr as (num & slack & Hm). rewrite (lpPrev_spec _ _ _ _ Hm) by (rewrite length_flat; lia). done.
Qed.

Lemma zzlPrev_spec p a : l !! p = Some a ->
  zzlPrev zl (off (2 * p)) = Ret (match p with O => None | S q => item_ptr l q end).
Proof using Hr.
  intros Ha. unfold zzlPrev. rewrite (prev_item _ _ Ha). cbn [mbind res_bind]. destruct p as [|q]; [done|].
  destruct (lookup_lt_is_Some_2 l q) as [c Hc]; [apply lookup_lt_Some in Ha; lia|].
  rewrite (prev_ele _ _ Hc). cbn [mbind res_bind of_option]. unfold item_ptr. by rewrite Hc.
Qed.

(** From the start and from the end. *)
Lemma seek_item p : lpSeek zl (2 * Z.of_nat p) = Ret (ele_ptr l p).
Proof using Hr.
  rewrite (seek_spec _ _ _ Hr). unfold abs_index, ele_ptr. rewrite (proj2 (Z.ltb_ge (2 * Z.of_nat p) 0)) by lia.
  rewrite (proj2 (Z.leb_le 0 (2 * Z.of_nat p))) by lia. do 2 f_equal. lia.
Qed.

Lemma seek_back p : lpSeek zl (-2 - 2 * Z.of_nat p) = Ret (if (p <? length l)%nat then ele_ptr l (length l - 1 - p) else None).
Proof using Hr.
  rewrite (seek_spec _ _ _ Hr). unfold abs_index, ele_ptr. rewrite (proj2 (Z.ltb_lt _ 0)) by lia. rewrite length_flat.
  destruct (Nat.ltb_spec p (length l)).
  - rewrite (proj2 (Z.leb_le 0 _)) by lia. do 2 f_equal. lia.
  - by rewrite (proj2 (Z.leb_gt 0 _)) by lia.
Qed.

Lemma seek_last_score : lpSeek zl (-1) = Ret (match last l with Some _ => Some (off (S (2 * (length l - 1)))) | None => None end).
Proof using Hr.
  rewrite (seek_spec _ _ _ Hr). unfold abs_index. change (-1 <? 0) with true. cbn match. rewrite length_flat.
  destruct (last l) as [a|] eqn:Ha.
  - rewrite last_lookup in Ha. pose proof (lookup_lt_Some _ _ _ Ha). rewrite (proj2 (Z.leb_le 0 _)) by lia.
    replace (Z.to_nat (Z.of_nat (2 * length l) + -1)) with (S (2 * (length l - 1))) by lia.
    replace (pred (length l)) with (length l - 1)%nat in Ha by lia. by rewrite (ptr_lookup _ _ _ (flat_score _ _ _ Ha)).
  - apply last_None in Ha. rewrite Ha. done.
Qed.

Lemma seek_first_score a : l !! 0%nat = Some a -> lpSeek zl 1 = Ret (Some (off (S (2 * 0)))).
Proof using Hr.
  intros Ha. rewrite (seek_spec _ _ _ Hr). unfold abs_index. cbn. by rewrite (ptr_lookup _ _ _ (flat_score _ _ _ Ha)).
Qed.

Lemma with_score_spec p : with_score zl (ele_ptr l p) = Ret (item_ptr l p).
Proof using Hr.
  unfold with_score, item_ptr. destruct (l !! p) as [a|] eqn:Ha.
  - rewrite (ele_ptr_Some _ _ _ Ha), (next_score _ _ Hr _ _ Ha). done.
  - rewrite ele_ptr_None by (by apply lookup_ge_None). done.
Qed.

(** *** The tests *)

Lemma score_gte_at p a r : l !! p = Some a -> score_gte zl (off (S (2 * p))) r = Ret (zslValueGteMin (key_score a.2) r).
Proof using Hr Hkeys. intros Ha. unfold score_gte. by rewrite (get_score _ _ Hr Hkeys _ _ Ha). Qed.
Lemma score_lte_at p a r : l !! p = Some a -> score_lte zl (off (S (2 * p))) r = Ret (zslValueLteMax (key_score a.2) r).
Proof using Hr Hkeys. intros Ha. unfold score_lte. by rewrite (get_score _ _ Hr Hkeys _ _ Ha). Qed.
Lemma lex_gte_at p a r : l !! p = Some a -> zzlLexValueGteMin zl (off (2 * p)) r = Ret (zslLexValueGteMin a.1 r).
Proof using Hr. intros Ha. unfold zzlLexValueGteMin. by rewrite (get_ele _ _ Hr _ _ Ha). Qed.
Lemma lex_lte_at p a r : l !! p = Some a -> zzlLexValueLteMax zl (off (2 * p)) r = Ret (zslLexValueLteMax a.1 r).
Proof using Hr. intros Ha. unfold zzlLexValueLteMax. by rewrite (get_ele _ _ Hr _ _ Ha). Qed.

(** The early test answers [false] only if the range is empty. *)
Definition early (i j : nat) (ok : bool) : Prop :=
  (ok = false -> ~ (i < j)%nat) /\ (ok = true -> (i < length l)%nat /\ (0 < j)%nat).

Lemma early_no_bounds b i j : cut b l i j -> no_bounds b = true -> early i j false.
Proof using Type. intros Hc Hb. split; [|done]. intros _. apply (cut_empty b l i j Hc). intros a _. by apply no_bounds_inside. Qed.

Lemma early_empty b i j : cut b l i j -> l = [] -> early i j false.
Proof using Type. intros Hc E. split; [|done]. intros _. pose proof (cut_j _ _ _ _ Hc) as H. rewrite E in H. cbn in H. lia. Qed.

Lemma early_last b i j a : cut b l i j -> last l = Some a -> above b a = false -> early i j false.
Proof using Type.
  intros Hc Ha E. split; [|done]. intros _. rewrite (cut_last b l i j Hc a Ha) in E. apply bool_decide_eq_false in E.
  pose proof (cut_j _ _ _ _ Hc). lia.
Qed.

Lemma early_head b i j a c :
  cut b l i j -> last l = Some a -> above b a = true -> l !! 0%nat = Some c -> early i j (below b c).
Proof using Type.
  intros Hc Ha E Hf. rewrite (cut_last b l i j Hc a Ha) in E. apply bool_decide_eq_true in E.
  rewrite (cut_head b l i j Hc c Hf). split; [intros H%bool_decide_eq_false; lia|by intros H%bool_decide_eq_true].
Qed.

Lemma last_head a : last l = Some a -> l !! (length l - 1)%nat = Some a /\ exists c, l !! 0%nat = Some c.
Proof using Type.
  rewrite last_lookup. intros Ha. replace (pred (length l)) with (length l - 1)%nat in Ha by lia. split; [done|].
  apply lookup_lt_is_Some_2. apply lookup_lt_Some in Ha. lia.
Qed.

Lemma zzlIsInRange_spec r i j : cut (ByScore r) l i j -> exists ok, zzlIsInRange zl r = Ret ok /\ early i j ok.
Proof using Hr Hkeys.
  intros Hc. unfold zzlIsInRange. destruct (empty_range r) eqn:Ee; [eexists; split; [done|by eapply early_no_bounds]|].
  rewrite seek_last_score. cbn [mbind res_bind]. destruct (last l) as [a|] eqn:Ha.
  2:{ eexists. split; [done|]. eapply early_empty; [done|by apply last_None]. }
  destruct (last_head a Ha) as (Hl & c & Hf). rewrite (score_gte_at _ _ r Hl). cbn [mbind res_bind].
  destruct (zslValueGteMin (key_score a.2) r) eqn:Eg; cbn [negb]; [|eexists; split; [done|by eapply early_last]].
  rewrite (seek_first_score c Hf). cbn [mbind res_bind of_option]. rewrite (score_lte_at 0 c r Hf). eexists. split; [done|].
  by apply (early_head (ByScore r) i j a c).
Qed.

Lemma seek_last : lpSeek zl (-2) = Ret (ele_ptr l (length l - 1)).
Proof using Hr.
  pose proof (seek_back 0) as E. change (-2 - 2 * Z.of_nat 0) with (-2) in E. rewrite E. rewrite Nat.sub_0_r.
  destruct (Nat.ltb_spec 0 (length l)); [done|]. by rewrite ele_ptr_None by lia.
Qed.

Lemma zzlIsInLexRange_spec r i j : cut (ByLex r) l i j -> exists ok, zzlIsInLexRange zl r = Ret ok /\ early i j ok.
Proof using Hr.
  intros Hc. unfold zzlIsInLexRange. destruct (empty_lex_range r) eqn:Ee; [eexists; split; [done|by eapply early_no_bounds]|].
  rewrite seek_last. cbn [mbind res_bind]. destruct (last l) as [a|] eqn:Ha.
  2:{ apply last_None in Ha. rewrite ele_ptr_None by (rewrite Ha; cbn; lia). eexists. split; [done|]. by eapply early_empty. }
  destruct (last_head a Ha) as (Hl & c & Hf). rewrite (ele_ptr_Some _ _ _ Hl), (lex_gte_at _ _ r Hl). cbn [mbind res_bind].
  destruct (zslLexValueGteMin a.1 r) eqn:Eg; cbn [negb]; [|eexists; split; [done|by eapply early_last]].
  rewrite (first_item _ _ Hr), (ele_ptr_Some _ _ _ Hf). cbn [mbind res_bind of_option]. rewrite (lex_lte_at 0 c r Hf). eexists. split; [done|].
  by apply (early_head (ByLex r) i j a c).
Qed.

(** *** The ends *)

Lemma first_loop_spec r i j fuel p :
  cut (ByScore r) l i j -> (i < length l)%nat -> (p <= i)%nat -> (i - p < fuel)%nat ->
  first_loop fuel zl (ele_ptr l p) r = Ret (if (i <? j)%nat then ele_ptr l i else None).
Proof using Hr Hkeys.
  intros Hc Hi. revert p. induction fuel as [|fuel IH]; intros p Hp Hf; [lia|]. destruct (lookup_lt_is_Some_2 l p) as [a Ha]; [lia|].
  rewrite (ele_ptr_Some _ _ _ Ha). cbn [first_loop]. rewrite (next_score _ _ Hr _ _ Ha). cbn [mbind res_bind of_option].
  rewrite (score_gte_at _ _ r Ha). cbn [mbind res_bind]. change (zslValueGteMin (key_score a.2) r) with (above (ByScore r) a).
  rewrite (cut_above _ _ _ _ Hc _ _ Ha). case_bool_decide as Hip.
  - assert (p = i) as -> by lia. rewrite (score_lte_at _ _ r Ha). cbn [mbind res_bind]. change (zslValueLteMax (key_score a.2) r) with (below (ByScore r) a).
    rewrite (cut_below _ _ _ _ Hc _ _ Ha). rewrite (ele_ptr_Some _ _ _ Ha).
    destruct (Nat.ltb_spec i j); [by rewrite bool_decide_eq_true_2 by lia|by rewrite bool_decide_eq_false_2 by lia].
  - rewrite (next_ele _ _ Hr _ _ Ha). cbn [mbind res_bind]. apply IH; lia.
Qed.

Lemma zzlFirstInRange_spec r i j :
  cut (ByScore r) l i j -> zzlFirstInRange zl r = Ret (if (i <? j)%nat then ele_ptr l i else None).
Proof using Hr Hkeys.
  intros Hc. unfold zzlFirstInRange. rewrite (first_item _ _ Hr). cbn [mbind res_bind].
  destruct (zzlIsInRange_spec r i j Hc) as (ok & -> & Hno & Hyes). cbn [mbind res_bind]. destruct ok; cbn [negb].
  - destruct (Hyes eq_refl) as [Hi _]. pose proof fuel_items. apply first_loop_spec; [done|done|lia|lia].
  - destruct (Nat.ltb_spec i j); [by destruct (Hno eq_refl)|done].
Qed.

Lemma first_lex_loop_spec r i j fuel p :
  cut (ByLex r) l i j -> (i < length l)%nat -> (p <= i)%nat -> (i - p < fuel)%nat ->
  first_lex_loop fuel zl (ele_ptr l p) r = Ret (if (i <? j)%nat then ele_ptr l i else None).
Proof using Hr.
  intros Hc Hi. revert p. induction fuel as [|fuel IH]; intros p Hp Hf; [lia|]. destruct (lookup_lt_is_Some_2 l p) as [a Ha]; [lia|].
  rewrite (ele_ptr_Some _ _ _ Ha). cbn [first_lex_loop]. rewrite (lex_gte_at _ _ r Ha). cbn [mbind res_bind].
  change (zslLexValueGteMin a.1 r) with (above (ByLex r) a). rewrite (cut_above _ _ _ _ Hc _ _ Ha). case_bool_decide as Hip.
  - assert (p = i) as -> by lia. rewrite (lex_lte_at _ _ r Ha). cbn [mbind res_bind]. change (zslLexValueLteMax a.1 r) with (below (ByLex r) a).
    rewrite (cut_below _ _ _ _ Hc _ _ Ha). rewrite (ele_ptr_Some _ _ _ Ha).
    destruct (Nat.ltb_spec i j); [by rewrite bool_decide_eq_true_2 by lia|by rewrite bool_decide_eq_false_2 by lia].
  - rewrite (next_score _ _ Hr _ _ Ha). cbn [mbind res_bind of_option]. rewrite (next_ele _ _ Hr _ _ Ha). cbn [mbind res_bind]. apply IH; lia.
Qed.

Lemma zzlFirstInLexRange_spec r i j :
  cut (ByLex r) l i j -> zzlFirstInLexRange zl r = Ret (if (i <? j)%nat then ele_ptr l i else None).
Proof using Hr.
  intros Hc. unfold zzlFirstInLexRange. rewrite (first_item _ _ Hr). cbn [mbind res_bind].
  destruct (zzlIsInLexRange_spec r i j Hc) as (ok & -> & Hno & Hyes). cbn [mbind res_bind]. destruct ok; cbn [negb].
  - destruct (Hyes eq_refl) as [Hi _]. pose proof fuel_items. apply first_lex_loop_spec; [done|done|lia|lia].
  - destruct (Nat.ltb_spec i j); [by destruct (Hno eq_refl)|done].
Qed.

Lemma last_loop_spec r i j fuel p :
  cut (ByScore r) l i j -> (0 < j)%nat -> (j <= S p)%nat -> (p < length l)%nat -> (S p - j < fuel)%nat ->
  last_loop fuel zl (ele_ptr l p) r = Ret (if (i <? j)%nat then ele_ptr l (j - 1) else None).
Proof using Hr Hkeys.
  intros Hc Hj. revert p. induction fuel as [|fuel IH]; intros p Hp Hl Hf; [lia|]. destruct (lookup_lt_is_Some_2 l p) as [a Ha]; [lia|].
  rewrite (ele_ptr_Some _ _ _ Ha). cbn [last_loop]. rewrite (next_score _ _ Hr _ _ Ha). cbn [mbind res_bind of_option].
  rewrite (score_lte_at _ _ r Ha). cbn [mbind res_bind]. change (zslValueLteMax (key_score a.2) r) with (below (ByScore r) a).
  rewrite (cut_below _ _ _ _ Hc _ _ Ha). case_bool_decide as Hpj.
  - assert (p = j - 1)%nat as -> by lia. rewrite (score_gte_at _ _ r Ha). cbn [mbind res_bind]. change (zslValueGteMin (key_score a.2) r) with (above (ByScore r) a).
    rewrite (cut_above _ _ _ _ Hc _ _ Ha). rewrite (ele_ptr_Some _ _ _ Ha).
    destruct (Nat.ltb_spec i j); [by rewrite bool_decide_eq_true_2 by lia|by rewrite bool_decide_eq_false_2 by lia].
  - rewrite (prev_item _ _ Ha). cbn [mbind res_bind]. destruct p as [|q]; [lia|]. destruct (lookup_lt_is_Some_2 l q) as [c Hq]; [lia|].
    rewrite (prev_ele _ _ Hq). cbn [mbind res_bind of_option]. rewrite <- (ele_ptr_Some _ _ _ Hq). apply IH; lia.
Qed.

Lemma zzlLastInRange_spec r i j :
  cut (ByScore r) l i j -> zzlLastInRange zl r = Ret (if (i <? j)%nat then ele_ptr l (j - 1) else None).
Proof using Hr Hkeys.
  intros Hc. unfold zzlLastInRange. rewrite seek_last. cbn [mbind res_bind].
  destruct (zzlIsInRange_spec r i j Hc) as (ok & -> & Hno & Hyes). cbn [mbind res_bind]. destruct ok; cbn [negb].
  - destruct (Hyes eq_refl) as [Hi Hj]. pose proof fuel_items. pose proof (cut_j _ _ _ _ Hc). apply last_loop_spec; done || lia.
  - destruct (Nat.ltb_spec i j); [by destruct (Hno eq_refl)|done].
Qed.

Lemma last_lex_loop_spec r i j fuel p :
  cut (ByLex r) l i j -> (0 < j)%nat -> (j <= S p)%nat -> (p < length l)%nat -> (S p - j < fuel)%nat ->
  last_lex_loop fuel zl (ele_ptr l p) r = Ret (if (i <? j)%nat then ele_ptr l (j - 1) else None).
Proof using Hr.
  intros Hc Hj. revert p. induction fuel as [|fuel IH]; intros p Hp Hl Hf; [lia|]. destruct (lookup_lt_is_Some_2 l p) as [a Ha]; [lia|].
  rewrite (ele_ptr_Some _ _ _ Ha). cbn [last_lex_loop]. rewrite (lex_lte_at _ _ r Ha). cbn [mbind res_bind].
  change (zslLexValueLteMax a.1 r) with (below (ByLex r) a). rewrite (cut_below _ _ _ _ Hc _ _ Ha). case_bool_decide as Hpj.
  - assert (p = j - 1)%nat as -> by lia. rewrite (lex_gte_at _ _ r Ha). cbn [mbind res_bind]. change (zslLexValueGteMin a.1 r) with (above (ByLex r) a).
    rewrite (cut_above _ _ _ _ Hc _ _ Ha). rewrite (ele_ptr_Some _ _ _ Ha).
    destruct (Nat.ltb_spec i j); [by rewrite bool_decide_eq_true_2 by lia|by rewrite bool_decide_eq_false_2 by lia].
  - rewrite (prev_item _ _ Ha). cbn [mbind res_bind]. destruct p as [|q]; [lia|]. destruct (lookup_lt_is_Some_2 l q) as [c Hq]; [lia|].
    rewrite (prev_ele _ _ Hq). cbn [mbind res_bind of_option]. rewrite <- (ele_ptr_Some _ _ _ Hq). apply IH; lia.
Qed.

Lemma zzlLastInLexRange_spec r i j :
  cut (ByLex r) l i j -> zzlLastInLexRange zl r = Ret (if (i <? j)%nat then ele_ptr l (j - 1) else None).
Proof using Hr.
  intros Hc. unfold zzlLastInLexRange. rewrite seek_last. cbn [mbind res_bind].
  destruct (zzlIsInLexRange_spec r i j Hc) as (ok & -> & Hno & Hyes). cbn [mbind res_bind]. destruct ok; cbn [negb].
  - destruct (Hyes eq_refl) as [Hi Hj]. pose proof fuel_items. pose proof (cut_j _ _ _ _ Hc). apply last_lex_loop_spec; done || lia.
  - destruct (Nat.ltb_spec i j); [by destruct (Hno eq_refl)|done].
Qed.
End Listpack.

(** ** Skip lists *)

Section Skip.
Context (z : zskiplist) (ns : list entry).
Hypothesis Hz : skiplist_repr z ns.
Local Abbreviation l := (items ns).

Lemma items_lookup p a : ns !! p = Some a -> l !! p = Some (item_of a).
Proof using Type. intros Ha. unfold items. by rewrite list_lookup_fmap, Ha. Qed.

Lemma length_items : length l = length ns.
Proof using Type. unfold items. by rewrite length_map. Qed.

Lemma inside_entry b i j p a : cut b l i j -> ns !! p = Some a -> inside b (item_of a) = bool_decide (i <= p < j)%nat.
Proof using Type. intros Hc Ha. by apply (inside_at b l i j Hc), items_lookup. Qed.

(** The double of a node and the one of its key are on the same side of a
    bound. *)
Lemma entry_above r p a : ns !! p = Some a -> zslValueGteMin (e_score a) r = above (ByScore r) (item_of a).
Proof using Hz. intros Ha. apply zslValueGteMin_same; [|done]. by apply same_score_key; [eapply scores_lookup; [apply Hz|]|]. Qed.
Lemma entry_below r p a : ns !! p = Some a -> zslValueLteMax (e_score a) r = below (ByScore r) (item_of a).
Proof using Hz. intros Ha. apply zslValueLteMax_same; [|done]. by apply same_score_key; [eapply scores_lookup; [apply Hz|]|]. Qed.
Lemma entry_inside r p a : ns !! p = Some a -> entry_in_range r a = inside (ByScore r) (item_of a).
Proof using Hz. intros Ha. unfold entry_in_range, inside. by rewrite (entry_above r _ _ Ha), (entry_below r _ _ Ha). Qed.

Lemma zslFirstInRange_cut r i j :
  cut (ByScore r) l i j -> zslFirstInRange z r = Ret (if (i <? j)%nat then e_loc <$> ns !! i else None).
Proof using Hz.
  intros Hc. destruct (zslFirstInRange_spec z ns r Hz) as (o & -> & Ho). f_equal. pose proof (cut_j _ _ _ _ Hc) as Hj. rewrite length_items in Hj.
  destruct o as [x|]; cbn [is_first] in Ho.
  - destruct Ho as (p & a & Ha & <- & Hin & Hno). rewrite (entry_inside r _ _ Ha) in Hin.
    rewrite (inside_entry _ _ _ _ _ Hc Ha) in Hin. apply bool_decide_eq_true in Hin. rewrite (proj2 (Nat.ltb_lt i j)) by lia.
    destruct (decide (p = i)) as [->|]; [by rewrite Ha|]. destruct (lookup_lt_is_Some_2 ns i) as [c Hi]; [lia|]. specialize (Hno i c Hi ltac:(lia)).
    rewrite (entry_inside r _ _ Hi) in Hno. rewrite (inside_entry _ _ _ _ _ Hc Hi) in Hno. apply bool_decide_eq_false in Hno. lia.
  - destruct (Nat.ltb_spec i j) as [Hij|]; [|done]. destruct (lookup_lt_is_Some_2 ns i) as [c Hi]; [lia|]. specialize (Ho i c Hi).
    rewrite (entry_inside r _ _ Hi) in Ho. rewrite (inside_entry _ _ _ _ _ Hc Hi) in Ho. apply bool_decide_eq_false in Ho. lia.
Qed.

Lemma zslLastInRange_cut r i j :
  cut (ByScore r) l i j -> zslLastInRange z r = Ret (if (i <? j)%nat then e_loc <$> ns !! (j - 1)%nat else None).
Proof using Hz.
  intros Hc. destruct (zslLastInRange_spec z ns r Hz) as (o & -> & Ho). f_equal. pose proof (cut_j _ _ _ _ Hc) as Hj. rewrite length_items in Hj.
  destruct o as [x|]; cbn [is_last] in Ho.
  - destruct Ho as (p & a & Ha & <- & Hin & Hno). rewrite (entry_inside r _ _ Ha) in Hin.
    rewrite (inside_entry _ _ _ _ _ Hc Ha) in Hin. apply bool_decide_eq_true in Hin. rewrite (proj2 (Nat.ltb_lt i j)) by lia.
    destruct (decide (p = j - 1)%nat) as [->|]; [by rewrite Ha|]. destruct (lookup_lt_is_Some_2 ns (j - 1)) as [c Hi]; [lia|].
    specialize (Hno _ c Hi ltac:(lia)).
    rewrite (entry_inside r _ _ Hi) in Hno. rewrite (inside_entry _ _ _ _ _ Hc Hi) in Hno. apply bool_decide_eq_false in Hno. lia.
  - destruct (Nat.ltb_spec i j) as [Hij|]; [|done]. destruct (lookup_lt_is_Some_2 ns i) as [c Hi]; [lia|]. specialize (Ho i c Hi).
    rewrite (entry_inside r _ _ Hi) in Ho. rewrite (inside_entry _ _ _ _ _ Hc Hi) in Ho. apply bool_decide_eq_false in Ho. lia.
Qed.

(** *** Elements *)

Lemma node_ele p a : ns !! p = Some a -> ele_of (exp_node ns p a) = Ret (e_ele a).
Proof using Type. done. Qed.

Lemma zslIsInLexRange_spec r i j : cut (ByLex r) l i j -> exists ok, zslIsInLexRange z r = Ret ok /\ early l i j ok.
Proof using Hz.
  destruct Hz as [Hly Hs _]. intros Hc. unfold zslIsInLexRange. destruct (empty_lex_range r) eqn:Ee; [eexists; split; [done|by eapply early_no_bounds]|].
  rewrite (ly_tail _ _ Hly). destruct (last ns) as [a|] eqn:Ha; cbn [fmap option_fmap option_map].
  2:{ apply last_None in Ha. eexists. split; [done|]. eapply early_empty; [done|by rewrite Ha]. }
  assert (last l = Some (item_of a)) as Hla by (unfold items; rewrite fmap_last, Ha; done).
  rewrite last_lookup in Ha. rewrite (node_at_loc _ _ _ _ Hly Ha). cbn [mbind res_bind]. rewrite (node_ele _ _ Ha). cbn [mbind res_bind].
  destruct (zslLexValueGteMin (e_ele a) r) eqn:Eg; cbn [negb]; [|eexists; split; [done|by eapply (early_last _ (ByLex r))]].
  destruct (bottom_level z ns 0 Hly) as [Hb Hf]; [lia|]. cbn [pos_loc] in Hb. rewrite Hb. cbn [mbind res_bind]. rewrite Hf.
  destruct (ns !! 0%nat) as [c|] eqn:E0; [|apply lookup_ge_None in E0; apply lookup_lt_Some in Ha; lia].
  cbn [fmap option_fmap option_map]. rewrite (node_at_loc _ _ _ _ Hly E0). cbn [mbind res_bind]. rewrite (node_ele _ _ E0). cbn [mbind res_bind].
  eexists. split; [done|]. apply (early_head l (ByLex r) i j (item_of a) (item_of c)); [done|done|done|by apply items_lookup].
Qed.

Lemma cuts_lex_low r i j : cut (ByLex r) l i j -> cuts ns (out_of_lex_range r) i.
Proof using Type.
  intros Hc. split; [rewrite <- length_items; apply Hc|]. intros p a Ha. unfold out_of_lex_range. cbn.
  change (zslLexValueGteMin (e_ele a) r) with (above (ByLex r) (item_of a)). rewrite (cut_above _ _ _ _ Hc p) by (by apply items_lookup).
  f_equal. repeat case_bool_decide; cbn; done || lia.
Qed.

Lemma cuts_lex_high r i j : cut (ByLex r) l i j -> cuts ns (up_to_lex_max r) j.
Proof using Type.
  intros Hc. split; [rewrite <- length_items; apply Hc|]. intros p a Ha. unfold up_to_lex_max. cbn.
  change (zslLexValueLteMax (e_ele a) r) with (below (ByLex r) (item_of a)). rewrite (cut_below _ _ _ _ Hc p) by (by apply items_lookup).
  f_equal.
Qed.

Lemma zslFirstInLexRange_cut r i j :
  cut (ByLex r) l i j -> zslFirstInLexRange z r = Ret (if (i <? j)%nat then e_loc <$> ns !! i else None).
Proof using Hz.
  intros Hc. destruct (zslIsInLexRange_spec r i j Hc) as (ok & Eok & Hno & Hyes). destruct Hz as [Hly Hs _].
  unfold zslFirstInLexRange. rewrite Eok. cbn [mbind res_bind]. destruct ok; cbn [negb].
  2:{ destruct (Nat.ltb_spec i j); [by destruct (Hno eq_refl)|done]. }
  destruct (Hyes eq_refl) as [Hi _]. rewrite length_items in Hi.
  destruct (descend_bottom _ _ _ _ Hly (cuts_lex_low _ _ _ Hc)) as (up & -> & _ & Hup). cbn [mbind res_bind]. rewrite Hup. cbn [of_option mbind res_bind].
  destruct (bottom_level z ns i Hly) as [Hld Hfw]; [lia|]. rewrite Hld. cbn [mbind res_bind]. rewrite Hfw.
  destruct (lookup_lt_is_Some_2 ns i Hi) as [a Ha]. rewrite Ha. cbn [fmap option_fmap option_map of_option mbind res_bind].
  rewrite (node_at_loc _ _ _ _ Hly Ha). cbn [mbind res_bind]. rewrite (node_ele _ _ Ha). cbn [mbind res_bind]. f_equal.
  change (zslLexValueLteMax (e_ele a) r) with (below (ByLex r) (item_of a)). rewrite (cut_below _ _ _ _ Hc i) by (by apply items_lookup).
  destruct (Nat.ltb_spec i j); [by rewrite bool_decide_eq_true_2|by rewrite bool_decide_eq_false_2 by lia].
Qed.

Lemma zslLastInLexRange_cut r i j :
  cut (ByLex r) l i j -> zslLastInLexRange z r = Ret (if (i <? j)%nat then e_loc <$> ns !! (j - 1)%nat else None).
Proof using Hz.
  intros Hc. destruct (zslIsInLexRange_spec r i j Hc) as (ok & Eok & Hno & Hyes). destruct Hz as [Hly Hs _].
  unfold zslLastInLexRange. rewrite Eok. cbn [mbind res_bind]. destruct ok; cbn [negb].
  2:{ destruct (Nat.ltb_spec i j); [by destruct (Hno eq_refl)|done]. }
  destruct (Hyes eq_refl) as [_ Hj]. destruct j as [|k]; [lia|]. pose proof (cut_j _ _ _ _ Hc) as Hk. rewrite length_items in Hk.
  destruct (descend_bottom _ _ _ _ Hly (cuts_lex_high _ _ _ Hc)) as (up & -> & _ & Hup). cbn [mbind res_bind]. rewrite Hup. cbn [of_option mbind res_bind].
  destruct (lookup_lt_is_Some_2 ns k) as [a Ha]; [lia|]. rewrite (node_at_pos _ _ _ _ Hly Ha). cbn [mbind res_bind]. rewrite (node_ele _ _ Ha).
  cbn [mbind res_bind]. f_equal. change (zslLexValueGteMin (e_ele a) r) with (above (ByLex r) (item_of a)).
  rewrite (cut_above _ _ _ _ Hc k) by (by apply items_lookup). rewrite Nat.sub_1_r. cbn [pred pos_loc]. rewrite Ha.
  destruct (Nat.ltb_spec i (S k)); [by rewrite bool_decide_eq_true_2 by lia|by rewrite bool_decide_eq_false_2 by lia].
Qed.
End Skip.
