(* ===== verification/ZsetRangeRefine.v ===== *)
(** * Listing, counting and deleting ranges

    The commands of [ZsetRange] on an object that represents a map: whatever the
    encoding, they pass the items of the range to the handler in order, count
    them, or remove exactly them. *)
From stdpp Require Import gmap.
From S2P Require Import Prelude Mem NumStr Listpack ListpackEnc ListpackNav ListpackEdit ListpackApi.
From S2P Require Import Dict Skiplist SkiplistUpdate PyFloat Score Zset ZsetSpec ZsetSkip ZsetList ZsetConvert ZsetRefine ZsetRange ZsetRangeSpec.

Local Open Scope Z_scope.

(** ** Offsets and limits *)

(** A negative offset passes over everything, a negative limit is none. *)
Definition take_limit {A} (limit : Z) (l : list A) : list A := if limit <? 0 then l else take (Z.to_nat limit) l.
Definition drop_offset {A} (offset : Z) (l : list A) : list A := if offset <? 0 then [] else drop (Z.to_nat offset) l.

Definition is_long (z : Z) : Prop := - 2 ^ 63 <= z < 2 ^ 63.

Lemma s64_pred z : is_long z -> is_long (s64 (z - 1)) /\ (z <> - 2 ^ 63 -> s64 (z - 1) = z - 1) /\ (z = - 2 ^ 63 -> s64 (z - 1) = 2 ^ 63 - 1).
Proof.
  unfold is_long. intros Hz. split; [apply (swrap_range 64); lia|]. split; [intros Hn; apply swrap_id; lia|]. by intros ->.
Qed.

Lemma take_limit_cons {A} limit (a : A) l :
  is_long limit -> limit <> 0 -> Z.of_nat (length l) < 2 ^ 62 -> take_limit limit (a :: l) = a :: take_limit (s64 (limit - 1)) l.
Proof.
  intros Hl Hn Hlen. destruct (s64_pred limit Hl) as (_ & H1 & H2). unfold take_limit. destruct (Z.ltb_spec limit 0) as [Hlt|Hge].
  - destruct (Z.eq_dec limit (- 2 ^ 63)) as [E|E].
    + rewrite (H2 E). rewrite take_ge; [done|]. cbn. lia.
    + rewrite (H1 E). by rewrite (proj2 (Z.ltb_lt _ 0)) by lia.
  - rewrite H1 by lia. rewrite (proj2 (Z.ltb_ge _ 0)) by lia. replace (Z.to_nat limit) with (S (Z.to_nat (limit - 1))) by lia. done.
Qed.

Lemma take_limit_0 {A} (l : list A) : take_limit 0 l = [].
Proof. done. Qed.

Lemma take_limit_nil {A} limit : take_limit limit (@nil A) = [].
Proof. unfold take_limit. by destruct (limit <? 0); rewrite ?take_nil. Qed.

Lemma drop_offset_nil {A} offset : drop_offset offset (@nil A) = [].
Proof. unfold drop_offset. by destruct (offset <? 0); rewrite ?drop_nil. Qed.

(** ** Walks *)

(** A direction through the items: the pointers of the items of [L] in order,
    and a null pointer after the last one. *)
Section Walk.
Context {P : Type} (step : P -> res (option P)) (pt : nat -> option P) (L : list item).
Hypothesis Hpt : forall k, is_Some (pt k) <-> is_Some (L !! k).
Hypothesis Hstep : forall k x, pt k = Some x -> step x = Ret (pt (S k)).
Hypothesis Hlen : Z.of_nat (length L) < 2 ^ 62.

Lemma pt_None k : (length L <= k)%nat -> pt k = None.
Proof using Hpt.
  intros Hk. destruct (pt k) eqn:E; [|done]. destruct (proj1 (Hpt k)) as [a Ha]; [by rewrite E|]. apply lookup_lt_Some in Ha. lia.
Qed.

Lemma pt_Some k a : L !! k = Some a -> exists x, pt k = Some x.
Proof using Hpt. intros Ha. destruct (proj2 (Hpt k)) as [x Hx]; [by rewrite Ha|]. by exists x. Qed.

(** Where the walk is after an offset. *)
Definition after (k : nat) (offset : Z) : option P := if offset <? 0 then None else pt (k + Z.to_nat offset).

Lemma offset_loop_spec fuel k offset :
  is_long offset -> (length L - k <= fuel)%nat -> offset_loop fuel step (pt k) offset = Ret (after k offset).
Proof using Hpt Hstep Hlen.
  revert k offset. induction fuel as [|fuel IH]; intros k offset Ho Hf; unfold after.
  { rewrite pt_None by lia. cbn [offset_loop]. destruct (offset <? 0); [done|]. by rewrite pt_None by lia. }
  destruct (pt k) as [x|] eqn:Ek; cbn [offset_loop].
  2:{ destruct (Z.ltb_spec offset 0); [done|]. rewrite pt_None; [done|]. destruct (L !! k) as [a|] eqn:Ea.
      - destruct (pt_Some _ _ Ea) as [x Hx]. congruence.
      - apply lookup_ge_None in Ea. lia. }
  destruct (Z.eqb_spec offset 0) as [->|Hn]; [by rewrite Nat.add_0_r, Ek|].
  assert (k < length L)%nat as Hk. { destruct (proj1 (Hpt k)) as [a Ha]; [by rewrite Ek|]. by apply lookup_lt_Some in Ha. }
  rewrite (Hstep _ _ Ek). cbn [mbind res_bind]. destruct (s64_pred offset Ho) as (Hl & H1 & H2). rewrite IH by (done || lia). unfold after. f_equal.
  destruct (Z.eq_dec offset (- 2 ^ 63)) as [E|E].
  - rewrite (H2 E), E. cbn -[Z.to_nat]. rewrite pt_None; [done|]. lia.
  - rewrite (H1 E). destruct (Z.ltb_spec offset 0), (Z.ltb_spec (offset - 1) 0); try lia; [done|]. f_equal. lia.
Qed.

(** *** Emission *)

Context {S : Type} (put : S -> item -> res S) (emit : P -> S -> res (option S)) (inn : item -> bool) (n : nat).
Hypothesis Hinn : forall k a, L !! k = Some a -> inn a = bool_decide (k < n)%nat.
Hypothesis Hemit : forall k x a s, pt k = Some x -> L !! k = Some a ->
  emit x s = (if inn a then s ← put s a; Ret (Some s) else Ret None).

Fixpoint put_all (s : S) (l : list item) : res S :=
  match l with [] => Ret s | a :: l => s ← put s a; put_all s l end.

Lemma limit_loop_spec fuel k limit count s :
  is_long limit -> (length L - k <= fuel)%nat ->
  let answer := take_limit limit (drop k (take n L)) in
  limit_loop fuel step emit (pt k) limit count s = (s ← put_all s answer; Ret (count + Z.of_nat (length answer), s)).
Proof using Hpt Hstep Hlen Hinn Hemit.
  revert k limit count s. induction fuel as [|fuel IH]; intros k limit count s Hl Hf; cbv zeta.
  { rewrite pt_None by lia. cbn [limit_loop]. rewrite (drop_ge (take n L)) by (rewrite length_take; lia).
    rewrite take_limit_nil. cbn. by rewrite Z.add_0_r. }
  destruct (L !! k) as [a|] eqn:Ea.
  2:{ apply lookup_ge_None in Ea. rewrite pt_None by lia. cbn [limit_loop]. rewrite (drop_ge (take n L)) by (rewrite length_take; lia).
      rewrite take_limit_nil. cbn. by rewrite Z.add_0_r. }
  destruct (pt_Some _ _ Ea) as [x Hx]. rewrite Hx. cbn [limit_loop].
  destruct (Z.eqb_spec limit 0) as [->|Hn]; [rewrite take_limit_0; cbn; by rewrite Z.add_0_r|].
  rewrite (Hemit _ _ _ s Hx Ea), (Hinn _ _ Ea). case_bool_decide as Hk.
  - assert (take n L !! k = Some a) as Ht by (by rewrite lookup_take_lt by done).
    rewrite (drop_S _ _ _ Ht), take_limit_cons by (done || (rewrite length_drop, length_take; lia)). cbn [put_all].
    destruct (put s a) as [s'| |]; cbn [mbind res_bind]; [|done|done]. rewrite (Hstep _ _ Hx). cbn [mbind res_bind].
    rewrite IH by (lia || apply s64_pred, Hl). cbn [length].
    destruct (put_all s' _); cbn [mbind res_bind]; [|done|done]. do 2 f_equal. lia.
  - rewrite (drop_ge (take n L)) by (rewrite length_take; lia). rewrite take_limit_nil. cbn. by rewrite Z.add_0_r.
Qed.

Lemma range_walk_spec fuel k offset limit s :
  is_long offset -> is_long limit -> (length L - k <= fuel)%nat -> (n <= length L)%nat ->
  let answer := take_limit limit (drop_offset offset (drop k (take n L))) in
  (p ← offset_loop fuel step (pt k) offset; limit_loop fuel step emit p limit 0 s)
  = (s ← put_all s answer; Ret (Z.of_nat (length answer), s)).
Proof using Hpt Hstep Hlen Hinn Hemit.
  intros Ho Hl Hf Hn. cbv zeta. rewrite offset_loop_spec by done. cbn [mbind res_bind]. unfold after, drop_offset.
  destruct (Z.ltb_spec offset 0); [rewrite take_limit_nil; by destruct fuel|].
  rewrite limit_loop_spec by (done || lia). cbv zeta. rewrite drop_drop. done.
Qed.
End Walk.

(** ** Directions *)

Lemma rev_lookup {A} (l : list A) k : (k < length l)%nat -> rev l !! k = l !! (length l - S k)%nat.
Proof. rewrite rev_alt. apply reverse_lookup. Qed.

(** From the first item in the range on, or backwards from the last one. *)
Definition directed {A} (reverse : bool) (i j : nat) (l : list A) : list A := if reverse then rev (take j l) else drop i l.
Definition position (reverse : bool) (i j k : nat) : option nat := if reverse then (if (k <? j)%nat then Some (j - 1 - k)%nat else None) else Some (i + k)%nat.

Lemma directed_lookup {A} reverse i j k (l : list A) :
  (j <= length l)%nat -> directed reverse i j l !! k = position reverse i j k ≫= (l !!.).
Proof.
  intros Hj. destruct reverse; cbn [directed position]; [|by rewrite lookup_drop].
  assert (length (take j l) = j) as Hlen by (rewrite length_take; lia).
  destruct (Nat.ltb_spec k j) as [Hk|Hk].
  - rewrite rev_lookup by lia. rewrite Hlen, lookup_take_lt by lia. cbn. f_equal. lia.
  - rewrite lookup_ge_None_2; [done|]. rewrite length_rev. lia.
Qed.

Lemma length_directed {A} reverse i j (l : list A) : (length (directed reverse i j l) <= length l)%nat.
Proof. destruct reverse; cbn; rewrite ?length_rev, ?length_take, ?length_drop; lia. Qed.

(** The items in the range are the first ones in the direction. *)
Lemma directed_inside b l i j reverse :
  cut b l i j -> (i < j)%nat ->
  take (j - i) (directed reverse i j l) = (if reverse then rev (List.filter (inside b) l) else List.filter (inside b) l) /\
  forall k a, directed reverse i j l !! k = Some a -> (if reverse then above b a else below b a) = bool_decide (k < j - i)%nat.
Proof.
  intros Hc Hij. pose proof (cut_j _ _ _ _ Hc) as Hj. split.
  - rewrite (inside_slice b l i j Hc). destruct reverse; cbn [directed]; [|done]. rewrite <- (take_drop i (take j l)), rev_app_distr.
    rewrite take_app_length'; [|rewrite length_rev, length_drop, length_take; lia]. f_equal. by rewrite skipn_firstn_comm.
  - intros k a Ha. rewrite directed_lookup in Ha by done. destruct reverse; cbn [position] in Ha.
    + destruct (Nat.ltb_spec k j); [|done]. cbn in Ha. rewrite (cut_above _ _ _ _ Hc _ _ Ha). apply bool_decide_ext. lia.
    + cbn in Ha. rewrite (cut_below _ _ _ _ Hc _ _ Ha). apply bool_decide_ext. lia.
Qed.

(** The doubles that are read for the items: [val] gives each a score of its
    key. *)
Definition values (val : item -> float) (l : list item) : Prop := Forall (fun a => score_of (val a) a.2) l.

(** A listpack has the double of the key; a skip list has it in the node. *)
Definition list_value (a : item) : float := key_score a.2.
Definition skip_value (ns : list entry) (a : item) : float :=
  match List.find (fun b => bool_decide (e_ele b = a.1)) ns with Some b => e_score b | None => key_score a.2 end.

Lemma list_values l : Forall (fun a => key_ok a.2) l -> values list_value l.
Proof. intros Hk. eapply Forall_impl; [exact Hk|]. intros a. apply score_of_key. Qed.

Lemma skip_value_at ns p a : NoDup (map e_ele ns) -> ns !! p = Some a -> skip_value ns (item_of a) = e_score a.
Proof.
  intros Hnd Ha. unfold skip_value. cbn [item_of fst]. revert p Ha. induction ns as [|b ns IH]; intros p Ha; [done|]. cbn [map] in Hnd.
  apply NoDup_cons in Hnd as [Hno Hnd]. cbn [List.find]. case_bool_decide as E.
  - destruct p as [|p]; [by injection Ha as <-|]. exfalso. apply Hno. rewrite E. apply list_elem_of_fmap_2. by eapply list_elem_of_lookup_2.
  - destruct p as [|p]; [by injection Ha as <-|]. by apply (IH Hnd p).
Qed.

Lemma skip_values ns : NoDup (map e_ele ns) -> scores_ok ns -> values (skip_value ns) (items ns).
Proof.
  intros Hnd Hok. apply Forall_forall. intros a (b & -> & Hb)%list_elem_of_fmap. apply list_elem_of_lookup in Hb as [p Hp].
  rewrite (skip_value_at _ _ _ Hnd Hp). split; [by eapply scores_lookup|done].
Qed.

Section Emission.
Context `{Hheap : Heap} `{Husable : Usable} `{Hdec : Decimal}.
Context {S : Type} `{Hh : Handler S}.

Context (val : item -> float).

Definition put_item (s : S) (a : item) : res S := emitResultFromCBuffer s a.1 (val a).
Local Abbreviation emit_all := (put_all put_item).

(** When the score of an item does not matter to the handler. *)
Definition no_scores : Prop := forall s e x y, emitResultFromCBuffer (S := S) s e x = emitResultFromCBuffer s e y.

(** *** In a listpack *)

Section Listpack.
Context (zl : list Z) (l : list item).
Hypothesis Hr : lp_repr zl (flat l).
Hypothesis Hkeys : Forall (fun a => key_ok a.2) l.
Hypothesis Hlen : Z.of_nat (length l) < 2 ^ 62.
Hypothesis Hval : forall p a, l !! p = Some a -> val a = key_score a.2.

Lemma emit_value_spec s p a score : l !! p = Some a -> emit_value s zl (off (flat l) (2 * p)) score = emitResultFromCBuffer s a.1 score.
Proof using Hr.
  intros Ha. pose proof (flat_ele _ _ _ Ha) as He. unfold emit_value. rewrite (get_value _ _ Hr _ _ He). cbn [mbind res_bind].
  pose proof Hr as (num & slack & Hm). pose proof (value_at_string _ _ _ _ _ _ Hm He) as Hs. rewrite elem_string_of_string in Hs.
  pose proof (repr_ok _ _ _ _ Hm _ _ He) as Hok. unfold elem_of_string in *.
  destruct (lpStringToInt64 a.1) as [v|] eqn:E; cbn [value_at] in *.
  - rewrite emit_longlong by done. rewrite lpStringToInt64_string2ll in E. apply string2ll_sound in E as [_ <-]. done.
  - rewrite Hs. done.
Qed.

Lemma score_if_spec withscores p a : l !! p = Some a ->
  exists x, score_if withscores zl (off (flat l) (Datatypes.S (2 * p))) = Ret x /\ (withscores = true -> x = key_score a.2).
Proof using Hr Hkeys.
  intros Ha. unfold score_if. destruct withscores; [|by eexists]. rewrite (get_score _ _ Hr Hkeys _ _ Ha). by eexists.
Qed.

Lemma list_step_spec reverse i j k p a :
  (j <= length l)%nat -> position reverse i j k = Some p -> l !! p = Some a ->
  list_step zl reverse (off (flat l) (2 * p), off (flat l) (Datatypes.S (2 * p)))
  = Ret (position reverse i j (Datatypes.S k) ≫= item_ptr l).
Proof using Hr.
  intros Hj Hp Ha. unfold list_step. cbn [fst snd]. destruct reverse; cbn [position] in *.
  - destruct (Nat.ltb_spec k j); [|done]. injection Hp as <-. rewrite (zzlPrev_spec _ _ Hr _ _ Ha). f_equal.
    destruct (Nat.ltb_spec (Datatypes.S k) j).
    + replace (j - 1 - k)%nat with (Datatypes.S (j - 1 - Datatypes.S k)) by lia. done.
    + by replace (j - 1 - k)%nat with 0%nat by lia.
  - injection Hp as <-. rewrite (zzlNext_spec _ _ Hr _ _ Ha). cbn. do 2 f_equal. lia.
Qed.

Lemma item_ptr_position reverse i j k x :
  position reverse i j k ≫= item_ptr l = Some x -> (j <= length l)%nat ->
  exists p a, position reverse i j k = Some p /\ l !! p = Some a /\ directed reverse i j l !! k = Some a /\
    x = (off (flat l) (2 * p), off (flat l) (Datatypes.S (2 * p))).
Proof using Type.
  intros Hx Hj. rewrite directed_lookup by done. destruct (position reverse i j k) as [p|]; [|done]. cbn in *. unfold item_ptr in Hx.
  destruct (l !! p) as [a|] eqn:Ha; [|done]. injection Hx as <-. by exists p, a.
Qed.

Lemma item_ptr_dom reverse i j k :
  (j <= length l)%nat -> is_Some (position reverse i j k ≫= item_ptr l) <-> is_Some (directed reverse i j l !! k).
Proof using Type.
  intros Hj. rewrite directed_lookup by done. destruct (position reverse i j k) as [p|]; cbn; [|by split; intros []]. unfold item_ptr. by rewrite fmap_is_Some.
Qed.

Lemma list_walk_step reverse i j k x :
  (j <= length l)%nat -> position reverse i j k ≫= item_ptr l = Some x ->
  list_step zl reverse x = Ret (position reverse i j (Datatypes.S k) ≫= item_ptr l).
Proof using Hr.
  intros Hj Hx. destruct (item_ptr_position _ _ _ _ _ Hx Hj) as (p & a & Hp & Ha & _ & ->). by eapply list_step_spec.
Qed.

(** What a probe has to tell of the items. *)
Definition probes (b : bounds) (reverse : bool) (probe : Z -> Z -> res (option float)) : Prop :=
  forall p a, l !! p = Some a -> exists x, probe (off (flat l) (2 * p)) (off (flat l) (Datatypes.S (2 * p)))
    = Ret (if (if reverse then above b a else below b a) then Some x else None) /\
    forall s : S, emitResultFromCBuffer s a.1 x = put_item s a.

Lemma list_walk_emit b i j (reverse : bool) probe k x a s :
  (j <= length l)%nat -> probes b reverse probe -> position reverse i j k ≫= item_ptr l = Some x -> directed reverse i j l !! k = Some a ->
  list_emit zl probe x s
  = (if (if reverse then above b a else below b a) then s ← put_item s a; Ret (Some s) else Ret None).
Proof using Hr.
  intros Hj Hprobe Hx Hda. destruct (item_ptr_position _ _ _ _ _ Hx Hj) as (p & a' & Hp & Ha & Hda' & ->). simplify_eq.
  unfold list_emit. cbn [fst snd]. destruct (Hprobe _ _ Ha) as (x & -> & Hput). cbn [mbind res_bind]. destruct (if reverse then above b a else below b a); [|done].
  rewrite (emit_value_spec _ _ _ _ Ha). by rewrite Hput.
Qed.

(** The range in the listpack, given by its cut. *)
Lemma list_range_emit_spec b i j offset limit (reverse : bool) (probe : Z -> Z -> res (option float)) s :
  cut b l i j -> is_long offset -> is_long limit ->
  probes b reverse probe ->
  let range := List.filter (inside b) l in
  let answer := take_limit limit (drop_offset offset (if reverse then rev range else range)) in
  list_range_emit zl (if (i <? j)%nat then ele_ptr l (if reverse then j - 1 else i) else None) offset limit reverse probe s
  = (s ← emit_all s answer; Ret (Z.of_nat (length answer), s)).
Proof using Hr Hlen.
  intros Hc Ho Hl Hprobe range answer. unfold list_range_emit. pose proof (cut_j _ _ _ _ Hc) as Hj.
  destruct (Nat.ltb_spec i j) as [Hij|Hij].
  2:{ assert (answer = []) as ->.
      { unfold answer, range. rewrite (inside_slice b l i j Hc). replace (j - i)%nat with 0%nat by lia. rewrite take_0. by destruct reverse; cbn [rev]; rewrite drop_offset_nil, take_limit_nil. }
      cbn [with_score mbind res_bind]. by destruct (length zl). }
  rewrite (with_score_spec _ _ Hr). cbn [mbind res_bind].
  destruct (directed_inside b l i j reverse Hc Hij) as [Hin Hk].
  assert (item_ptr l (if reverse then j - 1 else i)%nat = position reverse i j 0 ≫= item_ptr l) as ->.
  { destruct reverse; cbn [position]; [|cbn; by rewrite Nat.add_0_r]. rewrite (proj2 (Nat.ltb_lt 0 j)) by lia. cbn. by rewrite Nat.sub_0_r. }
  pose proof (length_directed reverse i j l) as Hd. pose proof (fuel_items zl l Hr) as Hf.
  rewrite (range_walk_spec (list_step zl reverse) (fun k => position reverse i j k ≫= item_ptr l) (directed reverse i j l)
    (fun k => item_ptr_dom reverse i j k Hj) (fun k x Hx => list_walk_step reverse i j k x Hj Hx) ltac:(lia) put_item (list_emit zl probe)
    (fun a => if reverse then above b a else below b a) (j - i) Hk (fun k x a s Hx Ha => list_walk_emit b i j reverse probe k x a s Hj Hprobe Hx Ha)
    (length zl) 0 offset limit s Ho Hl ltac:(lia) ltac:(destruct reverse; cbn [directed]; rewrite ?length_rev, ?length_take, ?length_drop; lia)).
  cbv zeta. rewrite drop_0, Hin. done.
Qed.

(** A number of items from a rank on. *)
Lemma list_rank_emit_spec n withscores reverse i j k s :
  (j <= length l)%nat -> (withscores = false -> no_scores) -> (k + n <= length (directed reverse i j l))%nat ->
  list_rank_emit n zl (position reverse i j k ≫= item_ptr l) withscores reverse s = emit_all s (take n (drop k (directed reverse i j l))).
Proof using Hr Hkeys Hval.
  intros Hj Hws. revert k s. induction n as [|n IH]; intros k s Hk; [by rewrite take_0|]. cbn [list_rank_emit].
  destruct (lookup_lt_is_Some_2 (directed reverse i j l) k) as [a Hda]; [lia|].
  destruct (proj2 (item_ptr_dom reverse i j k Hj)) as [x Hx]; [by rewrite Hda|]. rewrite Hx. cbn [of_option mbind res_bind].
  pose proof (list_walk_step reverse i j k x Hj Hx) as Hstep.
  destruct (item_ptr_position _ _ _ _ _ Hx Hj) as (p & a' & Hp & Ha & Hda' & ->). simplify_eq. cbn [fst snd] in *.
  destruct (score_if_spec withscores p a Ha) as (x & -> & Hsc). cbn [mbind res_bind]. rewrite (emit_value_spec _ _ _ _ Ha).
  assert (emitResultFromCBuffer s a.1 x = put_item s a) as ->.
  { unfold put_item. destruct withscores; [by rewrite Hsc, (Hval _ _ Ha)|by apply (Hws eq_refl)]. }
  rewrite (drop_S _ _ _ Hda). cbn [firstn put_all]. destruct (put_item s a) as [s'| |]; cbn [mbind res_bind]; [|done|done].
  rewrite Hstep. cbn [mbind res_bind]. apply IH. lia.
Qed.
End Listpack.

(** *** In a skip list *)

Section Skip.
Context (z : zskiplist) (ns : list entry).
Hypothesis Hz : skiplist_repr z ns.
Hypothesis Hlen : Z.of_nat (length ns) < 2 ^ 62.
Hypothesis Hval : forall p a, ns !! p = Some a -> val (item_of a) = e_score a.

Definition entry_ptr (p : nat) : option positive := e_loc <$> ns !! p.

Lemma skip_step_spec reverse i j k p a :
  (j <= length ns)%nat -> position reverse i j k = Some p -> ns !! p = Some a ->
  skip_step (mem z) reverse (e_loc a) = Ret (position reverse i j (Datatypes.S k) ≫= entry_ptr).
Proof using Hz.
  destruct Hz as [Hly Hs _]. intros Hj Hp Ha. unfold skip_step. destruct reverse; cbn [position] in *.
  - destruct (Nat.ltb_spec k j); [|done]. injection Hp as <-. rewrite (node_at_loc _ _ _ _ Hly Ha). cbn [mbind res_bind exp_node backward]. f_equal.
    destruct (Nat.ltb_spec (Datatypes.S k) j).
    + replace (j - 1 - k)%nat with (Datatypes.S (j - 1 - Datatypes.S k)) by lia. done.
    + by replace (j - 1 - k)%nat with 0%nat by lia.
  - injection Hp as <-. destruct (bottom_level z ns (Datatypes.S (i + k)) Hly) as [Hb Hf]; [apply lookup_lt_Some in Ha; lia|]. cbn [pos_loc] in Hb.
    rewrite Ha in Hb. rewrite Hb. cbn [mbind res_bind]. rewrite Hf. cbn. unfold entry_ptr. do 3 f_equal. lia.
Qed.

Lemma entry_ptr_position reverse i j k x :
  position reverse i j k ≫= entry_ptr = Some x -> (j <= length ns)%nat ->
  exists p a, position reverse i j k = Some p /\ ns !! p = Some a /\ directed reverse i j (items ns) !! k = Some (item_of a) /\ x = e_loc a.
Proof using Type.
  intros Hx Hj. rewrite directed_lookup by (by rewrite length_items). destruct (position reverse i j k) as [p|]; [|done]. cbn in *. unfold entry_ptr in Hx.
  destruct (ns !! p) as [a|] eqn:Ha; [|done]. injection Hx as <-. exists p, a. by rewrite (items_lookup _ _ _ Ha).
Qed.

Lemma entry_ptr_dom reverse i j k :
  (j <= length ns)%nat -> is_Some (position reverse i j k ≫= entry_ptr) <-> is_Some (directed reverse i j (items ns) !! k).
Proof using Type.
  intros Hj. rewrite directed_lookup by (by rewrite length_items). destruct (position reverse i j k) as [p|]; cbn; [|by split; intros []].
  unfold entry_ptr, items. by rewrite list_lookup_fmap, !fmap_is_Some.
Qed.

Lemma skip_walk_step reverse i j k x :
  (j <= length ns)%nat -> position reverse i j k ≫= entry_ptr = Some x ->
  skip_step (mem z) reverse x = Ret (position reverse i j (Datatypes.S k) ≫= entry_ptr).
Proof using Hz.
  intros Hj Hx. destruct (entry_ptr_position _ _ _ _ _ Hx Hj) as (p & a & Hp & Ha & _ & ->). by eapply skip_step_spec.
Qed.

(** What the test of a node has to tell. *)
Definition node_test (b : bounds) (reverse : bool) (test : zskiplistNode -> res bool) : Prop :=
  forall p a, ns !! p = Some a -> test (exp_node ns p a) = Ret (if reverse then above b (item_of a) else below b (item_of a)).

Lemma skip_walk_emit b i j (reverse : bool) test k x a s :
  (j <= length ns)%nat -> node_test b reverse test -> position reverse i j k ≫= entry_ptr = Some x -> directed reverse i j (items ns) !! k = Some a ->
  skip_emit (mem z) test x s = (if (if reverse then above b a else below b a) then s ← put_item s a; Ret (Some s) else Ret None).
Proof using Hz Hval.
  destruct Hz as [Hly Hs _]. intros Hj Ht Hx Hda. destruct (entry_ptr_position _ _ _ _ _ Hx Hj) as (p & a' & Hp & Ha & Hda' & ->). simplify_eq.
  unfold skip_emit. rewrite (node_at_loc _ _ _ _ Hly Ha). cbn [mbind res_bind]. rewrite (Ht _ _ Ha). cbn [mbind res_bind].
  destruct (if reverse then above b (item_of a') else below b (item_of a')); [|done].
  unfold put_item. by rewrite (Hval _ _ Ha).
Qed.

Lemma skip_range_emit_spec b i j offset limit (reverse : bool) test s :
  cut b (items ns) i j -> is_long offset -> is_long limit -> node_test b reverse test ->
  let range := List.filter (inside b) (items ns) in
  let answer := take_limit limit (drop_offset offset (if reverse then rev range else range)) in
  skip_range_emit z (if (i <? j)%nat then e_loc <$> ns !! (if reverse then j - 1 else i)%nat else None) offset limit reverse test s
  = (s ← emit_all s answer; Ret (Z.of_nat (length answer), s)).
Proof using Hz Hlen Hval.
  intros Hc Ho Hl Ht range answer. unfold skip_range_emit. pose proof (cut_j _ _ _ _ Hc) as Hj. rewrite length_items in Hj.
  destruct (Nat.ltb_spec i j) as [Hij|Hij].
  2:{ assert (answer = []) as ->.
      { unfold answer, range. rewrite (inside_slice b _ i j Hc). replace (j - i)%nat with 0%nat by lia. rewrite take_0. by destruct reverse; cbn [rev]; rewrite drop_offset_nil, take_limit_nil. }
      by destruct (zfuel z). }
  destruct (directed_inside b _ i j reverse Hc Hij) as [Hin Hk].
  assert (e_loc <$> ns !! (if reverse then j - 1 else i)%nat = position reverse i j 0 ≫= entry_ptr) as ->.
  { destruct reverse; cbn [position]; [|cbn; by rewrite Nat.add_0_r]. rewrite (proj2 (Nat.ltb_lt 0 j)) by lia. cbn. by rewrite Nat.sub_0_r. }
  pose proof (length_directed reverse i j (items ns)) as Hd. rewrite length_items in Hd.
  assert (zfuel z = length ns) as Hf by (unfold zfuel; rewrite (ly_length _ _ (sr_layout _ _ Hz)); lia).
  rewrite (range_walk_spec (skip_step (mem z) reverse) (fun k => position reverse i j k ≫= entry_ptr) (directed reverse i j (items ns))
    (fun k => entry_ptr_dom reverse i j k Hj) (fun k x Hx => skip_walk_step reverse i j k x Hj Hx) ltac:(lia) put_item (skip_emit (mem z) test)
    (fun a => if reverse then above b a else below b a) (j - i) Hk (fun k x a s Hx Ha => skip_walk_emit b i j reverse test k x a s Hj Ht Hx Ha)
    (zfuel z) 0 offset limit s Ho Hl ltac:(lia) ltac:(destruct reverse; cbn [directed]; rewrite ?length_rev, ?length_take, ?length_drop, ?length_items; lia)).
  cbv zeta. rewrite drop_0, Hin. done.
Qed.

Lemma skip_rank_emit_spec n reverse i j k s :
  (j <= length ns)%nat -> (k + n <= length (directed reverse i j (items ns)))%nat ->
  skip_rank_emit n (mem z) (position reverse i j k ≫= entry_ptr) reverse s = emit_all s (take n (drop k (directed reverse i j (items ns)))).
Proof using Hz Hval.
  intros Hj. revert k s. induction n as [|n IH]; intros k s Hk; [by rewrite take_0|]. cbn [skip_rank_emit].
  destruct (lookup_lt_is_Some_2 (directed reverse i j (items ns)) k) as [a Hda]; [lia|].
  destruct (proj2 (entry_ptr_dom reverse i j k Hj)) as [x Hx]; [by rewrite Hda|]. rewrite Hx. cbn [of_option mbind res_bind].
  pose proof (skip_walk_step reverse i j k x Hj Hx) as Hstep.
  destruct (entry_ptr_position _ _ _ _ _ Hx Hj) as (p & a' & Hp & Ha & Hda' & ->). simplify_eq.
  rewrite (node_at_loc _ _ _ _ (sr_layout _ _ Hz) Ha). cbn [mbind res_bind exp_node ele_of ele of_option score].
  replace (emitResultFromCBuffer s (e_ele a') (e_score a')) with (put_item s (item_of a')) by (unfold put_item; by rewrite (Hval _ _ Ha)).
  rewrite (drop_S _ _ _ Hda). cbn [firstn put_all]. destruct (put_item s (item_of a')) as [s'| |]; cbn [mbind res_bind]; [|done|done].
  rewrite Hstep. cbn [mbind res_bind]. apply IH. lia.
Qed.
End Skip.
End Emission.

(** ** Objects *)

Lemma sanitize_range llen start stop a c : 0 <= llen -> sanitize_indexes llen start stop = Some (a, c) -> 0 <= a <= c /\ c < llen.
Proof.
  intros Hl. unfold sanitize_indexes. set (x := if start <? 0 then llen + start else start). set (y := if stop <? 0 then llen + stop else stop).
  destruct (Z.ltb_spec x 0), (Z.ltb_spec y (if x <? 0 then 0 else x)); cbn [orb]; try done; repeat case_match; intros; simplify_eq; lia.
Qed.

(** The items of a range of ranks, and of a range of scores or elements. *)
Definition rank_answer (l : list item) (start stop : Z) (reverse : bool) : list item :=
  match sanitize_indexes (Z.of_nat (length l)) start stop with
  | None => []
  | Some (a, c) => take (Z.to_nat (c - a + 1)) (drop (Z.to_nat a) (if reverse then rev l else l))
  end.
Definition range_answer (b : bounds) (l : list item) (offset limit : Z) (reverse : bool) : list item :=
  let range := List.filter (inside b) l in
  take_limit limit (drop_offset offset (if reverse then rev range else range)).

Section Objects.
Context `{Hheap : Heap} `{Husable : Usable} `{Hdec : Decimal} `{Halloc : NodeAlloc}.
Context (dictSdsHash : list Z -> Z).
Local Abbreviation zobj_repr := (zobj_repr dictSdsHash).

(** The two encodings over the listing of the map. *)
Lemma repr_cases o M l :
  zobj_repr o M -> listing M l ->
  match o with
  | OBJ_ENCODING_LISTPACK zl => lp_repr zl (flat l) /\ list_bound l
  | OBJ_ENCODING_SKIPLIST zs => exists ns, skip_layout dictSdsHash zs ns /\ items ns = l
  end /\ Forall (fun a => key_ok a.2) l /\ Z.of_nat (length l) < 2 ^ 60.
Proof.
  intros [HM Ho] Hl. split; [|split; [by eapply listing_keys|rewrite (listing_size _ _ Hl); apply HM]]. destruct o as [zl|zs].
  - destruct Ho as (l' & Hl' & Hr & Hb). by rewrite (listing_unique _ _ _ Hl Hl').
  - destruct Ho as (ns & Hk & Hl'). exists ns. split; [done|]. by eapply listing_unique.
Qed.

(** And the doubles that are read from them. *)
Lemma repr_values o M l :
  zobj_repr o M -> listing M l ->
  exists val, values val l /\
    match o with
    | OBJ_ENCODING_LISTPACK zl => lp_repr zl (flat l) /\ forall p a, l !! p = Some a -> val a = key_score a.2
    | OBJ_ENCODING_SKIPLIST zs => exists ns, skip_layout dictSdsHash zs ns /\ items ns = l /\
        forall p a, ns !! p = Some a -> val (item_of a) = e_score a
    end /\ Forall (fun a => key_ok a.2) l /\ Z.of_nat (length l) < 2 ^ 60.
Proof.
  intros Ho Hl. destruct (repr_cases _ _ _ Ho Hl) as (Hcase & Hkeys & Hlen). destruct o as [zl|zs].
  - exists list_value. split; [by apply list_values|]. split; [split; [apply Hcase|done]|done].
  - destruct Hcase as (ns & Hk & <-). exists (skip_value ns). pose proof (sk_distinct _ _ _ Hk) as Hnd.
    split; [apply skip_values; [done|apply (sk_list _ _ _ Hk)]|]. split; [|done].
    exists ns. split_and!; [done|done|]. intros p a. by apply skip_value_at.
Qed.

Section Deliver.
Context {S : Type} `{Hh : Handler S}.

(** What a handler is given: the announced length, the items, their number. *)
Definition deliver (val : item -> float) (s : S) (len : Z) (answer : list item) : res S :=
  s ← beginResultEmission s len;
  s ← put_all (put_item val) s answer;
  finalizeResultEmission s (Z.of_nat (length answer)).

Lemma rank_directed (l : list item) (start : nat) (reverse : bool) :
  drop start (if reverse then rev l else l) = directed reverse start (length l - start) l.
Proof using Type. destruct reverse; [apply skipn_rev|done]. Qed.

(** The position of a rank. *)
Definition start_pos (reverse : bool) (len start : nat) : nat := if reverse then (len - 1 - start)%nat else start.

Lemma start_position reverse len start : (start < len)%nat -> position reverse start (len - start) 0 = Some (start_pos reverse len start).
Proof using Type.
  intros Hs. destruct reverse; cbn [position start_pos]; [|f_equal; lia]. rewrite (proj2 (Nat.ltb_lt 0 _)) by lia. f_equal. lia.
Qed.

Lemma list_start zl l (reverse : bool) start :
  lp_repr zl (flat l) -> (start < length l)%nat ->
  lpSeek zl (if reverse then -2 - 2 * Z.of_nat start else 2 * Z.of_nat start) = Ret (ele_ptr l (start_pos reverse (length l) start)).
Proof using Type.
  intros Hr Hs. destruct reverse; cbn [start_pos]; [|apply (seek_item _ _ Hr)]. rewrite (seek_back _ _ Hr). by rewrite (proj2 (Nat.ltb_lt _ _)) by lia.
Qed.

Lemma skip_start z ns (reverse : bool) start :
  skiplist_repr z ns -> (start < length ns)%nat ->
  (if 0 <? Z.of_nat start then zslGetElementByRank z (if reverse then Z.of_nat (length ns) - Z.of_nat start else Z.of_nat start + 1)
   else if reverse then Ret (tail z) else l ← load_level (mem z) (header z) 0; Ret (forward l))
  = Ret (entry_ptr ns (start_pos reverse (length ns) start)).
Proof using Type.
  intros Hz Hs. pose proof Hz as [Hly _]. unfold start_pos, entry_ptr. destruct (Z.ltb_spec 0 (Z.of_nat start)).
  - destruct reverse; [replace (Z.of_nat (length ns) - Z.of_nat start) with (Z.of_nat (Datatypes.S (length ns - 1 - start))) by lia
      |replace (Z.of_nat start + 1) with (Z.of_nat (Datatypes.S start)) by lia]; by apply zslGetElementByRank_correct.
  - replace start with 0%nat by lia. destruct reverse.
    + rewrite (ly_tail _ _ Hly), last_lookup. do 3 f_equal. lia.
    + destruct (bottom_level z ns 0 Hly) as [Hb Hf]; [lia|]. cbn [pos_loc] in Hb. rewrite Hb. cbn [mbind res_bind]. by rewrite Hf.
Qed.

Lemma byrank_spec s o M l start stop withscores reverse :
  zobj_repr o M -> listing M l -> (withscores = false -> no_scores (S := S)) ->
  let answer := rank_answer l start stop reverse in
  exists val o', values val l /\ zobj_repr o' M /\
    genericZrangebyrankCommand s o start stop withscores reverse
    = (s ← deliver val s (Z.of_nat (length answer)) answer; Ret (s, o')).
Proof using Type.
  intros Ho Hl Hws answer. unfold genericZrangebyrankCommand. destruct (zsetLength_spec dictSdsHash o M Ho) as (o' & -> & Ho' & _).
  cbn [mbind res_bind]. destruct (repr_values _ _ _ Ho' Hl) as (val & Hv & Hcase & Hkeys & Hlen). exists val, o'. split; [done|]. split; [done|].
  unfold answer, rank_answer, deliver. rewrite <- (listing_size _ _ Hl).
  destruct (sanitize_indexes _ start stop) as [[a c]|] eqn:Es.
  2:{ cbn [length put_all mbind res_bind]. change (Z.of_nat 0) with 0. destruct (beginResultEmission s 0); cbn [mbind res_bind]; done. }
  apply sanitize_range in Es as [Ha Hc]; [|lia]. rewrite rank_directed. set (L := directed _ _ _ _). set (n := Z.to_nat (c - a + 1)).
  assert (length L = length l - Z.to_nat a)%nat as HL by (unfold L; rewrite <- rank_directed, length_drop; destruct reverse; rewrite ?length_rev; lia).
  assert (length (take n L) = n) as Hn by (rewrite length_take; lia). rewrite Hn. replace (Z.of_nat n) with (c - a + 1) by lia.
  destruct (beginResultEmission s (c - a + 1)) as [s1| |]; cbn [mbind res_bind]; [|done|done].
  replace (take n L) with (take n (drop 0 L)) by (by rewrite drop_0).
  rewrite <- (Z2Nat.id a) by lia. set (k := Z.to_nat a) in *. assert (k < length l)%nat as Hk by lia. pose proof (start_position reverse _ _ Hk) as Hpos.
  destruct o' as [zl|zs].
  - destruct Hcase as [Hr Hval]. rewrite (list_start zl l reverse k Hr Hk). cbn [mbind res_bind].
    destruct (lookup_lt_is_Some_2 l (start_pos reverse (length l) k)) as [x Hx]; [unfold start_pos; destruct reverse; lia|].
    rewrite (ele_ptr_Some _ _ _ Hx). cbn [of_option mbind res_bind]. rewrite <- (ele_ptr_Some _ _ _ Hx), (with_score_spec _ _ Hr). cbn [mbind res_bind].
    replace (item_ptr l _) with (position reverse k (length l - k) 0 ≫= item_ptr l) by (by rewrite Hpos).
    rewrite (list_rank_emit_spec val _ _ Hr Hkeys Hval) by (done || fold L; lia). fold L.
    destruct (put_all _ _ _); cbn [mbind res_bind]; [|done|done]. by destruct (finalizeResultEmission _ _).
  - destruct Hcase as (ns & Hsk & Hns & Hval). pose proof (sk_list _ _ _ Hsk) as Hz. assert (length ns = length l) as Hnl by (by rewrite <- Hns, length_items).
    rewrite <- Hnl in Hk, Hpos |- *. rewrite (skip_start (zsl zs) ns reverse k Hz Hk). cbn [mbind res_bind].
    replace (entry_ptr ns _) with (position reverse k (length ns - k) 0 ≫= entry_ptr ns) by (by rewrite Hpos).
    rewrite (skip_rank_emit_spec val _ _ Hz Hval) by (lia || (rewrite Hns, Hnl; fold L; lia)). rewrite Hns, Hnl. fold L.
    destruct (put_all _ _ _); cbn [mbind res_bind]; [|done|done]. by destruct (finalizeResultEmission _ _).
Qed.

(** *** By score *)

Lemma score_probes val zl l r (reverse : bool) :
  lp_repr zl (flat l) -> Forall (fun a => key_ok a.2) l -> (forall p a, l !! p = Some a -> val a = key_score a.2) ->
  probes (S := S) val l (ByScore r) reverse (fun _ sptr => score ← zzlGetScore zl sptr;
    Ret (if (if reverse then zslValueGteMin score r else zslValueLteMax score r) then Some score else None)).
Proof using Type.
  intros Hr Hkeys Hval p a Ha. exists (key_score a.2). rewrite (get_score _ _ Hr Hkeys _ _ Ha). cbn [mbind res_bind]. split; [done|].
  intros s. unfold put_item. by rewrite (Hval _ _ Ha).
Qed.

Lemma score_emit o M l r offset limit (reverse : bool) :
  zobj_repr o M -> listing M l -> is_long offset -> is_long limit ->
  let in_range score := if reverse then zslValueGteMin score r else zslValueLteMax score r in
  let answer := range_answer (ByScore r) l offset limit reverse in
  exists val, values val l /\ forall s,
  match o with
  | OBJ_ENCODING_LISTPACK zl =>
      eptr ← (if reverse then zzlLastInRange zl r else zzlFirstInRange zl r);
      list_range_emit zl eptr offset limit reverse (fun _ sptr =>
        score ← zzlGetScore zl sptr; Ret (if in_range score then Some score else None)) s
  | OBJ_ENCODING_SKIPLIST zs =>
      ln ← (if reverse then zslLastInRange (zsl zs) r else zslFirstInRange (zsl zs) r);
      skip_range_emit (zsl zs) ln offset limit reverse (fun n => Ret (in_range (score n))) s
  end = (s ← put_all (put_item val) s answer; Ret (Z.of_nat (length answer), s)).
Proof using Type.
  intros Ho Hl Hoff Hlim in_range answer. destruct (repr_values _ _ _ Ho Hl) as (val & Hv & Hcase & Hkeys & Hlen).
  exists val. split; [done|]. intros s. destruct (cut_exists (ByScore r) l (ls_sorted _ _ Hl) Hkeys I) as (i & j & Hc). destruct o as [zl|zs].
  - destruct Hcase as [Hr Hval].
    assert ((if reverse then zzlLastInRange zl r else zzlFirstInRange zl r)
      = Ret (if (i <? j)%nat then ele_ptr l (if reverse then j - 1 else i) else None)) as ->
      by (destruct reverse; [by apply zzlLastInRange_spec|by apply zzlFirstInRange_spec]).
    cbn [mbind res_bind]. apply (list_range_emit_spec val zl l Hr ltac:(lia) (ByScore r) i j); [done|done|done|by apply score_probes].
  - destruct Hcase as (ns & Hk & <- & Hval). rewrite length_items in Hlen. pose proof (sk_list _ _ _ Hk) as Hz.
    assert ((if reverse then zslLastInRange (zsl zs) r else zslFirstInRange (zsl zs) r)
      = Ret (if (i <? j)%nat then e_loc <$> ns !! (if reverse then j - 1 else i)%nat else None)) as ->
      by (destruct reverse; [by apply zslLastInRange_cut|by apply zslFirstInRange_cut]).
    cbn [mbind res_bind]. apply (skip_range_emit_spec val _ ns Hz ltac:(lia) Hval (ByScore r) i j); [done|done|done|].
    intros p a Ha. unfold in_range. cbn [exp_node score]. by rewrite (entry_above _ _ Hz r _ _ Ha), (entry_below _ _ Hz r _ _ Ha).
Qed.

Lemma past_end (b : bounds) l offset limit (reverse : bool) :
  Z.of_nat (length l) <= offset -> range_answer b l offset limit reverse = [].
Proof using Type.
  intros Ho. unfold range_answer, drop_offset. destruct (Z.ltb_spec offset 0); [apply take_limit_nil|].
  pose proof (filter_length_le (inside b) l). rewrite drop_ge; [apply take_limit_nil|]. destruct reverse; rewrite ?length_rev; lia.
Qed.

Lemma byscore_spec s o M l r offset limit reverse :
  zobj_repr o M -> listing M l -> is_long offset -> is_long limit ->
  exists val o', values val l /\ zobj_repr o' M /\
    genericZrangebyscoreCommand s r o offset limit reverse
    = (s ← deliver val s (-1) (range_answer (ByScore r) l offset limit reverse); Ret (s, o')).
Proof using Type.
  intros Ho Hl Hoff Hlim. unfold genericZrangebyscoreCommand, deliver.
  assert (exists o' past, (if 0 <? offset then '(n, o) ← zsetLength o; Ret (n <=? offset, o) else Ret (false, o)) = Ret (past, o') /\
    zobj_repr o' M /\ (past = true -> Z.of_nat (length l) <= offset)) as (o' & past & -> & Ho' & Hpast).
  { destruct (0 <? offset); [|by exists o, false]. destruct (zsetLength_spec dictSdsHash o M Ho) as (o' & -> & Ho' & _). cbn [mbind res_bind].
    eexists _, _. split; [done|]. split; [done|]. rewrite <- (listing_size _ _ Hl). by intros ?%Z.leb_le. }
  destruct (score_emit o' M l r offset limit reverse) as (val & Hv & Hemit); [done..|]. cbv zeta in Hemit.
  exists val, o'. split; [done|]. split; [done|]. destruct (beginResultEmission s (-1)) as [s1| |]; cbn [mbind res_bind]; [|done|done]. destruct past.
  - rewrite past_end by auto. cbn [put_all mbind res_bind length]. by destruct (finalizeResultEmission _ _).
  - rewrite Hemit. destruct (put_all _ _ _); cbn [mbind res_bind]; [|done|done].
    by destruct (finalizeResultEmission _ _).
Qed.

(** *** By element *)

Lemma lex_probes val zl l r withscores (reverse : bool) :
  lp_repr zl (flat l) -> Forall (fun a => key_ok a.2) l -> (forall p a, l !! p = Some a -> val a = key_score a.2) ->
  (withscores = false -> no_scores (S := S)) ->
  probes (S := S) val l (ByLex r) reverse (fun eptr sptr => score ← score_if withscores zl sptr; e ← lpGetObject zl eptr;
    Ret (if (if reverse then zslLexValueGteMin e r else zslLexValueLteMax e r) then Some score else None)).
Proof using Type.
  intros Hr Hkeys Hval Hws p a Ha. destruct (score_if_spec zl l Hr Hkeys withscores p a Ha) as (x & -> & Hx). exists x. cbn [mbind res_bind].
  rewrite (get_ele _ _ Hr _ _ Ha). cbn [mbind res_bind]. split; [done|]. intros s. unfold put_item.
  destruct withscores; [by rewrite Hx, (Hval _ _ Ha)|by apply (Hws eq_refl)].
Qed.

Lemma bylex_spec s o M l r withscores offset limit (reverse : bool) :
  zobj_repr o M -> listing M l -> one_score l -> is_long offset -> is_long limit -> (withscores = false -> no_scores (S := S)) ->
  exists val, values val l /\ genericZrangebylexCommand s r o withscores offset limit reverse
  = (s ← deliver val s (-1) (range_answer (ByLex r) l offset limit reverse); Ret (s, o)).
Proof using Type.
  intros Ho Hl Hone Hoff Hlim Hws. unfold genericZrangebylexCommand, deliver.
  destruct (repr_values _ _ _ Ho Hl) as (val & Hv & Hcase & Hkeys & Hlen). exists val. split; [done|].
  destruct (beginResultEmission s (-1)) as [s1| |]; cbn [mbind res_bind]; [|done|done]. set (answer := range_answer _ _ _ _ _).
  destruct (cut_exists (ByLex r) l (ls_sorted _ _ Hl) Hkeys Hone) as (i & j & Hc).
  match goal with |- context [match o with OBJ_ENCODING_LISTPACK zl => @?f zl | OBJ_ENCODING_SKIPLIST zs => @?g zs end] =>
    assert (match o with OBJ_ENCODING_LISTPACK zl => f zl | OBJ_ENCODING_SKIPLIST zs => g zs end
      = (s ← put_all (put_item val) s1 answer; Ret (Z.of_nat (length answer), s))) as -> end.
  { destruct o as [zl|zs].
    - destruct Hcase as [Hr Hval].
      assert ((if reverse then zzlLastInLexRange zl r else zzlFirstInLexRange zl r)
        = Ret (if (i <? j)%nat then ele_ptr l (if reverse then j - 1 else i) else None)) as ->
        by (destruct reverse; [by apply zzlLastInLexRange_spec|by apply zzlFirstInLexRange_spec]).
      cbn [mbind res_bind]. apply (list_range_emit_spec val zl l Hr ltac:(lia) (ByLex r) i j); [done|done|done|by apply lex_probes].
    - destruct Hcase as (ns & Hk & Hns & Hval). assert (Z.of_nat (length ns) < 2 ^ 62) as Hnl by (rewrite <- length_items, Hns; lia).
      pose proof (sk_list _ _ _ Hk) as Hz. unfold answer. rewrite <- Hns in *.
      assert ((if reverse then zslLastInLexRange (zsl zs) r else zslFirstInLexRange (zsl zs) r)
        = Ret (if (i <? j)%nat then e_loc <$> ns !! (if reverse then j - 1 else i)%nat else None)) as ->
        by (destruct reverse; [by apply zslLastInLexRange_cut|by apply zslFirstInLexRange_cut]).
      cbn [mbind res_bind]. by apply (skip_range_emit_spec val _ ns Hz Hnl Hval (ByLex r) i j). }
  destruct (put_all _ _ _); cbn [mbind res_bind]; [|done|done]. by destruct (finalizeResultEmission _ _).
Qed.
End Deliver.

(** *** Counting *)

Lemma list_count_loop_spec b zl l i j (test : Z -> Z -> res bool) fuel p count :
  lp_repr zl (flat l) -> cut b l i j ->
  (forall p a, l !! p = Some a -> test (off (flat l) (2 * p)) (off (flat l) (S (2 * p))) = Ret (below b a)) ->
  (length l - p <= fuel)%nat -> 0 <= count -> count + Z.of_nat (j - p) < 2 ^ 64 ->
  list_count_loop fuel zl test (item_ptr l p) count = Ret (count + Z.of_nat (j - p)).
Proof using Type.
  intros Hr Hc Ht. pose proof (cut_j _ _ _ _ Hc) as Hj. revert p count. induction fuel as [|fuel IH]; intros p count Hf H0 Hb; unfold item_ptr.
  { rewrite lookup_ge_None_2 by lia. cbn. f_equal. lia. }
  destruct (l !! p) as [a|] eqn:Ha; cbn [fmap option_fmap option_map list_count_loop].
  2:{ apply lookup_ge_None in Ha. f_equal. lia. }
  rewrite (Ht _ _ Ha). cbn [mbind res_bind]. rewrite (cut_below _ _ _ _ Hc _ _ Ha). case_bool_decide as Hp; [|f_equal; lia].
  rewrite (zzlNext_spec _ _ Hr _ _ Ha). cbn [mbind res_bind]. rewrite uwrap_id by lia. rewrite IH by lia. f_equal. lia.
Qed.

Lemma list_count_spec b zl l i j (test : Z -> Z -> res bool) :
  lp_repr zl (flat l) -> cut b l i j -> Z.of_nat (length l) < 2 ^ 60 ->
  (forall p a, l !! p = Some a -> test (off (flat l) (2 * p)) (off (flat l) (S (2 * p))) = Ret (below b a)) ->
  list_count zl test (if (i <? j)%nat then ele_ptr l i else None) = Ret (Z.of_nat (j - i)).
Proof using Type.
  intros Hr Hc Hlen Ht. pose proof (cut_j _ _ _ _ Hc) as Hj. destruct (Nat.ltb_spec i j) as [Hij|Hij]; cbn [list_count]; [|f_equal; lia].
  destruct (lookup_lt_is_Some_2 l i) as [a Ha]; [lia|]. rewrite (ele_ptr_Some _ _ _ Ha). cbn [list_count]. rewrite (next_score _ _ Hr _ _ Ha). cbn [mbind res_bind of_option].
  rewrite (Ht _ _ Ha). cbn [mbind res_bind]. rewrite (cut_below _ _ _ _ Hc _ _ Ha), bool_decide_eq_true_2 by lia. cbn [assert mbind res_bind].
  pose proof (fuel_items zl l Hr). pose proof (list_count_loop_spec b zl l i j test (length zl) i 0 Hr Hc Ht ltac:(lia) ltac:(lia) ltac:(lia)) as E.
  unfold item_ptr in E. rewrite Ha in E. exact E.
Qed.

Lemma node_rank_spec z ns p a : skiplist_repr z ns -> ns !! p = Some a -> node_rank z (e_loc a) = Ret (Z.of_nat (S p)).
Proof using Type.
  intros Hz Ha. unfold node_rank. rewrite (node_at_loc _ _ _ _ (sr_layout _ _ Hz) Ha). cbn [mbind res_bind exp_node ele_of ele of_option score].
  by apply (proj1 (rank_spec z ns (e_score a) (e_ele a) Hz (scores_lookup _ _ _ (sr_scores _ _ Hz) Ha)) p a Ha).
Qed.

Lemma skip_count_spec b z ns i j :
  skiplist_repr z ns -> cut b (items ns) i j -> Z.of_nat (length ns) < 2 ^ 60 ->
  skip_count z (if (i <? j)%nat then e_loc <$> ns !! i else None) (Ret (if (i <? j)%nat then e_loc <$> ns !! (j - 1)%nat else None)) = Ret (Z.of_nat (j - i)).
Proof using Type.
  intros Hz Hc Hlen. pose proof (cut_j _ _ _ _ Hc) as Hj. rewrite length_items in Hj.
  destruct (Nat.ltb_spec i j) as [Hij|Hij]; cbn [skip_count]; [|f_equal; lia].
  destruct (lookup_lt_is_Some_2 ns i) as [a Ha]; [lia|]. destruct (lookup_lt_is_Some_2 ns (j - 1)) as [c Hcc]; [lia|].
  rewrite Ha, Hcc. cbn [fmap option_fmap option_map skip_count]. rewrite (node_rank_spec _ _ _ _ Hz Ha). cbn [mbind res_bind].
  rewrite (node_rank_spec _ _ _ _ Hz Hcc). cbn [mbind res_bind]. rewrite (ly_length _ _ (sr_layout _ _ Hz)). f_equal. wrap_id. lia.
Qed.

Lemma length_inside b l i j : cut b l i j -> length (List.filter (inside b) l) = (j - i)%nat.
Proof using Type.
  intros Hc. rewrite (inside_slice _ _ _ _ Hc), length_take, length_drop. pose proof (cut_j _ _ _ _ Hc). lia.
Qed.

Lemma zcount_spec o M l r :
  zobj_repr o M -> listing M l -> zcount o r = Ret (Z.of_nat (length (List.filter (inside (ByScore r)) l))).
Proof using Type.
  intros Ho Hl. destruct (repr_cases _ _ _ Ho Hl) as (Hcase & Hkeys & Hlen).
  destruct (cut_exists (ByScore r) l (ls_sorted _ _ Hl) Hkeys I) as (i & j & Hc). rewrite (length_inside _ _ _ _ Hc). destruct o as [zl|zs]; cbn [zcount].
  - destruct Hcase as [Hr Hb]. rewrite (zzlFirstInRange_spec _ _ Hr Hkeys _ _ _ Hc). cbn [mbind res_bind].
    apply (list_count_spec (ByScore r)); [done|done|done|]. intros p a Ha. by apply (score_lte_at _ _ Hr Hkeys).
  - destruct Hcase as (ns & Hk & <-). rewrite length_items in Hlen. pose proof (sk_list _ _ _ Hk) as Hz.
    rewrite (zslFirstInRange_cut _ _ Hz _ _ _ Hc), (zslLastInRange_cut _ _ Hz _ _ _ Hc). by apply (skip_count_spec (ByScore r)).
Qed.

Lemma zlexcount_spec o M l r :
  zobj_repr o M -> listing M l -> one_score l -> zlexcount o r = Ret (Z.of_nat (length (List.filter (inside (ByLex r)) l))).
Proof using Type.
  intros Ho Hl Hone. destruct (repr_cases _ _ _ Ho Hl) as (Hcase & Hkeys & Hlen).
  destruct (cut_exists (ByLex r) l (ls_sorted _ _ Hl) Hkeys Hone) as (i & j & Hc). rewrite (length_inside _ _ _ _ Hc). destruct o as [zl|zs]; cbn [zlexcount].
  - destruct Hcase as [Hr Hb]. rewrite (zzlFirstInLexRange_spec _ _ Hr _ _ _ Hc). cbn [mbind res_bind].
    apply (list_count_spec (ByLex r)); [done|done|done|]. intros p a Ha. by apply (lex_lte_at _ _ Hr).
  - destruct Hcase as (ns & Hk & <-). rewrite length_items in Hlen. pose proof (sk_list _ _ _ Hk) as Hz.
    rewrite (zslFirstInLexRange_cut _ _ Hz _ _ _ Hc), (zslLastInLexRange_cut _ _ Hz _ _ _ Hc). by apply (skip_count_spec (ByLex r)).
Qed.
End Objects.
