(* ===== verification/ZsetRemove.v ===== *)
(** * Deleting ranges and taking items out

    [zremrange] and [zpop_loop] of [ZsetRange] on an object that represents a
    map: the items of the range, or the first or last ones, are removed from both
    containers of either encoding, and no others. *)
From stdpp Require Import gmap.
From S2P Require Import Prelude Mem NumStr Listpack ListpackEnc ListpackNav ListpackEdit ListpackApi.
From S2P Require Import Dict Skiplist SkiplistUpdate PyFloat Score Zset ZsetSpec ZsetSkip ZsetList ZsetConvert ZsetRefine.
From S2P Require Import ZsetRange ZsetRangeSpec ZsetRangeRefine.

Local Open Scope Z_scope.

(** ** Specification *)

(** The items a range takes out of the listing. *)
Definition removed_items (l : list item) (range : zrange) : list item :=
  match range with
  | ZRANGE_RANK start stop => rank_answer l start stop false
  | ZRANGE_SCORE r => List.filter (inside (ByScore r)) l
  | ZRANGE_LEX r => List.filter (inside (ByLex r)) l
  end.

Definition remove_items (rm : list item) (M : zmap) : zmap := M ∖ list_to_map rm.

Lemma lookup_remove_items rm M e k : remove_items rm M !! e = Some k <-> M !! e = Some k /\ e ∉ rm.*1.
Proof. unfold remove_items. rewrite lookup_difference_Some. by rewrite <- not_elem_of_list_to_map. Qed.

Lemma remove_items_nil M : remove_items [] M = M.
Proof. unfold remove_items. cbn. apply map_difference_empty. Qed.

Lemma remove_items_cons a rm M : remove_items (a :: rm) M = remove_items rm (delete a.1 M).
Proof.
  apply map_eq. intros e. apply option_eq. intros k. rewrite !lookup_remove_items, lookup_delete_Some. cbn. rewrite not_elem_of_cons. intuition congruence.
Qed.

Lemma remove_items_one a M : remove_items [a] M = delete a.1 M.
Proof. by rewrite remove_items_cons, remove_items_nil. Qed.

Lemma remove_items_subset rm M : remove_items rm M ⊆ M.
Proof. apply map_subseteq_spec. intros e k He%lookup_remove_items. apply He. Qed.

(** A slice of the listing is removed. *)
Lemma listing_slice M l A rm B : listing M l -> l = A ++ rm ++ B -> listing (remove_items rm M) (A ++ B).
Proof.
  intros Hl E. pose proof (listing_nodup _ _ Hl) as Hnd. assert (l ≡ₚ rm ++ A ++ B) as Hp by (rewrite E; apply Permutation_app_swap_app).
  rewrite Hp, fmap_app in Hnd. apply NoDup_app in Hnd as (_ & Hno & HndAB). apply NoDup_fmap_1 in HndAB.
  assert (forall a, a ∈ A ++ B -> a.1 ∉ rm.*1) as Hdis by (intros a Ha Hin; apply (Hno _ Hin); by apply list_elem_of_fmap_2).
  split.
  - apply NoDup_Permutation; [done|apply NoDup_map_to_list|]. intros [e k]. rewrite elem_of_map_to_list, lookup_remove_items, <- (listing_lookup _ _ Hl), E.
    split.
    + intros Hin. split; [|by apply (Hdis _ Hin)]. apply elem_of_app in Hin as []; set_solver.
    + intros [Hin Hnr]. apply elem_of_app in Hin as [Hin|[Hin|Hin]%elem_of_app]; [set_solver| |set_solver].
      destruct Hnr. by apply (list_elem_of_fmap_2 fst) in Hin.
  - pose proof (ls_sorted _ _ Hl) as Hs. rewrite E in Hs. apply StronglySorted_app in Hs as (H1 & H2 & H3).
    apply StronglySorted_app in H3 as (_ & _ & H3). apply StronglySorted_app. split_and!; [|done|done]. intros a c Ha Hc. apply H1; [done|]. set_solver.
Qed.

Lemma zmap_ok_subset M M' : zmap_ok M -> M' ⊆ M -> zmap_ok M'.
Proof.
  intros [H1 H2 H3] Hs. pose proof (proj1 (map_subseteq_spec M' M) Hs) as Hsub. split.
  - intros e k He. apply (H1 e k). by apply Hsub.
  - intros e k He. apply (H2 e k). by apply Hsub.
  - pose proof (map_subseteq_size _ _ Hs). lia.
Qed.

(** Every range takes out a slice. *)
Lemma removed_slice M l range :
  listing M l -> Forall (fun a => key_ok a.2) l -> match range with ZRANGE_LEX _ => one_score l | _ => True end ->
  exists i n, removed_items l range = take n (drop i l) /\ (i + n <= length l)%nat.
Proof.
  intros Hl Hkeys Hone. assert (forall b, comparable b l -> exists i n, List.filter (inside b) l = take n (drop i l) /\ (i + n <= length l)%nat) as Hb.
  { intros b Hcmp. destruct (cut_exists b l (ls_sorted _ _ Hl) Hkeys Hcmp) as (i & j & Hc). exists i, (j - i)%nat. split; [by apply inside_slice|].
    pose proof (cut_i _ _ _ _ Hc). pose proof (cut_j _ _ _ _ Hc). lia. }
  destruct range as [start stop|r|r]; cbn [removed_items]; [|by apply Hb|by apply Hb]. unfold rank_answer.
  destruct (sanitize_indexes _ start stop) as [[a c]|] eqn:E; [|exists 0%nat, 0%nat; cbn; split; [done|lia]].
  apply sanitize_range in E as [Ha Hc]; [|lia]. eexists _, _. split; [done|]. lia.
Qed.

Lemma slice_split {A} (l : list A) i n : l = take i l ++ take n (drop i l) ++ drop (i + n) l.
Proof. rewrite <- drop_drop, take_drop. by rewrite take_drop. Qed.

Lemma listing_removed M l i n : listing M l -> listing (remove_items (take n (drop i l)) M) (take i l ++ drop (i + n) l).
Proof. intros Hl. eapply listing_slice; [done|apply slice_split]. Qed.

Lemma list_bound_remove l i n : list_bound l -> list_bound (take i l ++ drop (i + n) l).
Proof.
  intros Hb. rewrite (slice_split l i n) in Hb. rewrite Permutation_app_swap_app in Hb. revert Hb.
  generalize (take i l ++ drop (i + n) l). induction (take n (drop i l)) as [|a t IH]; [done|]. intros l' Hb. apply IH. by eapply list_bound_tail.
Qed.

(** ** Listpacks *)

Section Remove.
Context `{Hheap : Heap} `{Husable : Usable} `{Hdec : Decimal} `{Halloc : NodeAlloc}.
Context (dictSdsHash : list Z -> Z) (dict_can_resize : dictResizeEnable).

Section Listpack.
Context (b : bounds) (test : list Z -> Z -> Z -> res bool).
Hypothesis Htest : forall zl l p a, lp_repr zl (flat l) -> Forall (fun a => key_ok a.2) l -> l !! p = Some a ->
  test zl (off (flat l) (2 * p)) (off (flat l) (S (2 * p))) = Ret (below b a).

Lemma zzl_delete_loop_spec fuel zl l i d num :
  lp_repr zl (flat l) -> Forall (fun a => key_ok a.2) l -> (i + d <= length l)%nat ->
  (forall q a, l !! (i + q)%nat = Some a -> below b a = bool_decide (q < d)%nat) -> (length l - i <= fuel)%nat ->
  exists zl', zzl_delete_loop fuel zl test (ele_ptr l i) num = Ret (zl', num + Z.of_nat d) /\ lp_repr zl' (flat (take i l ++ drop (i + d) l)).
Proof using Htest.
  revert zl l d num. induction fuel as [|fuel IH]; intros zl l d num Hr Hkeys Hd Hb Hf.
  { rewrite ele_ptr_None by lia. cbn [zzl_delete_loop]. exists zl. assert (d = 0)%nat as -> by lia. rewrite Z.add_0_r, Nat.add_0_r, take_drop. done. }
  destruct (l !! i) as [a|] eqn:Ha.
  2:{ apply lookup_ge_None in Ha. rewrite ele_ptr_None by lia. cbn [zzl_delete_loop]. exists zl. assert (d = 0)%nat as -> by lia.
      rewrite Z.add_0_r, Nat.add_0_r, take_drop. done. }
  rewrite (ele_ptr_Some _ _ _ Ha). cbn [zzl_delete_loop]. rewrite (next_score _ _ Hr _ _ Ha). cbn [mbind res_bind].
  rewrite (Htest _ _ _ _ Hr Hkeys Ha). cbn [mbind res_bind]. rewrite (Hb 0%nat a) by (by rewrite Nat.add_0_r). case_bool_decide as Hd0.
  2:{ assert (d = 0)%nat as -> by lia. exists zl. rewrite Z.add_0_r, Nat.add_0_r, take_drop. done. }
  pose proof (lookup_lt_Some _ _ _ Ha) as Hi. pose proof Hr as (nume & slack & Hm).
  destruct (lpDeleteRangeWithEntry_spec zl (flat l) nume slack Hm (2 * i) 2) as (zl1 & -> & Hr1); [rewrite length_flat; lia|lia|].
  rewrite length_flat in *. replace (2 `min` (2 * length l - 2 * i))%nat with 2%nat in * by lia. unfold edited in *. cbn [app] in *.
  replace (2 * i + 2)%nat with (2 * S i)%nat in * by lia. rewrite flat_take, flat_drop, <- flat_app in *. cbn [mbind res_bind].
  set (l1 := take i l ++ drop (S i) l) in *. change (ptr (flat l1) (2 * i)) with (ele_ptr l1 i).
  assert (length l1 = length l - 1)%nat as Hl1 by (unfold l1; rewrite length_app, length_take, length_drop; lia).
  assert (length (take i l) = i) as Hti by (rewrite length_take; lia).
  assert (forall q, l1 !! (i + q)%nat = l !! (i + S q)%nat) as Hl1q by (intros q; unfold l1; rewrite lookup_app_r, lookup_drop by lia; f_equal; lia).
  destruct (IH zl1 l1 (d - 1)%nat (num + 1) Hr1) as (zl' & -> & Hr').
  - unfold l1. apply Forall_app. split; [by apply Forall_take|by apply Forall_drop].
  - lia.
  - intros q c Hq. rewrite Hl1q in Hq. rewrite (Hb _ _ Hq). apply bool_decide_ext. lia.
  - lia.
  - exists zl'. split; [do 2 f_equal; lia|]. unfold l1 in Hr'. rewrite take_app_length' in Hr' by lia.
    rewrite drop_app_ge, Hti, drop_drop in Hr' by lia. replace (S i + (i + (d - 1) - i))%nat with (i + d)%nat in Hr' by lia. done.
Qed.

(** From the first item in the range. *)
Lemma zzl_delete_range zl l i j :
  lp_repr zl (flat l) -> Forall (fun a => key_ok a.2) l -> cut b l i j ->
  exists zl', zzl_delete_loop (length zl) zl test (if (i <? j)%nat then ele_ptr l i else None) 0 = Ret (zl', Z.of_nat (j - i)) /\
    lp_repr zl' (flat (take i l ++ drop (i + (j - i)) l)).
Proof using Htest.
  intros Hr Hkeys Hc. pose proof (cut_j _ _ _ _ Hc) as Hj. pose proof (cut_i _ _ _ _ Hc) as Hi. destruct (Nat.ltb_spec i j).
  - destruct (zzl_delete_loop_spec (length zl) zl l i (j - i) 0 Hr Hkeys) as (zl' & -> & Hr'); [lia| |pose proof (fuel_items zl l Hr); lia|].
    + intros q a Ha. rewrite (cut_below _ _ _ _ Hc _ _ Ha). apply bool_decide_ext. lia.
    + by exists zl'.
  - exists zl. replace (j - i)%nat with 0%nat by lia. rewrite Nat.add_0_r, take_drop. by destruct (length zl).
Qed.
End Listpack.

Lemma zzlDeleteRangeByRank_spec zl l a c :
  lp_repr zl (flat l) -> list_bound l -> 0 <= a <= c -> c < Z.of_nat (length l) ->
  let n := Z.to_nat (c - a + 1) in
  exists zl', zzlDeleteRangeByRank zl (u32 (a + 1)) (u32 (c + 1)) = Ret (zl', Z.of_nat n) /\
    lp_repr zl' (flat (take (Z.to_nat a) l ++ drop (Z.to_nat a + n) l)).
Proof using Type.
  intros Hr [Hb _] Ha Hc n. unfold zzlDeleteRangeByRank. wrap_id.
  replace (2 * (a + 1 - 1)) with (2 * a) by lia. replace (c + 1 - (a + 1) + 1) with (c - a + 1) by lia.
  pose proof (lpDeleteRange_spec zl (flat l) (2 * a) (Z.to_nat (2 * (c - a + 1))) Hr ltac:(lia) ltac:(lia)) as Hd. cbv zeta in Hd.
  assert (abs_index (flat l) (2 * a) = 2 * a) as E by (unfold abs_index; by rewrite (proj2 (Z.ltb_ge _ 0)) by lia).
  rewrite E, length_flat in Hd. rewrite decide_True in Hd by lia. destruct Hd as (zl' & -> & Hr'). cbn [mbind res_bind]. exists zl'.
  split; [do 2 f_equal; unfold n; lia|].
  replace (Z.to_nat (2 * a) + Z.to_nat (2 * (c - a + 1)))%nat with (2 * (Z.to_nat a + n))%nat in Hr' by (unfold n; lia).
  replace (Z.to_nat (2 * a)) with (2 * Z.to_nat a)%nat in Hr' by lia. by rewrite flat_take, flat_drop, <- flat_app in Hr'.
Qed.

(** ** Skip lists *)

Lemma run_length_cut (f : entry -> bool) L n k :
  (n <= length L)%nat -> (forall q a, L !! q = Some a -> f a = bool_decide (q < n)%nat) -> run_length (fun a _ => f a) k L = n.
Proof using Type.
  revert n k. induction L as [|a L IH]; intros n k Hn Hf; cbn [run_length]; [cbn in Hn; lia|]. rewrite (Hf 0%nat a eq_refl). case_bool_decide.
  - destruct n as [|n]; [lia|]. f_equal. apply IH; [cbn in Hn; lia|]. intros q c Hq. rewrite (Hf (S q) c Hq). apply bool_decide_ext. lia.
  - lia.
Qed.

Lemma zsl_delete_cut z ns b search (cond : zskiplistNode -> Z -> bool) (f : entry -> bool) i j :
  skiplist_repr z ns -> cut b (items ns) i j -> cuts ns search i ->
  (forall a bk lv k, cond (Node (Some (e_ele a)) (e_score a) bk lv) k = f a) -> (forall p a, ns !! p = Some a -> f a = below b (item_of a)) ->
  exists z', (up ← descend (zfuel z) (mem z) search (zlevel z) (header z) 0;
     '(x, rank) ← of_option (up !! 0%nat);
     l ← load_level (mem z) x 0;
     delete_loop (zfuel z) z cond up (forward l) (rank + 1)) = Ret (z', map e_ele (take (j - i) (drop i ns))) /\
    skiplist_repr z' (take i ns ++ drop (i + (j - i)) ns).
Proof using Type.
  intros Hz Hc Hcuts Hcond Hf. destruct (delete_range_spec z ns search cond (fun a _ => f a) i) as (z' & -> & Hz'); [intros; apply Hcond|done|done|].
  pose proof (cut_i _ _ _ _ Hc) as Hi. pose proof (cut_j _ _ _ _ Hc) as Hj. rewrite length_items in Hi, Hj.
  assert (forall q a, drop i ns !! q = Some a -> f a = bool_decide (q < j - i)%nat) as Hb.
  { intros q a Ha. rewrite lookup_drop in Ha. rewrite (Hf _ _ Ha), (cut_below _ _ _ _ Hc _ _ (items_lookup _ _ _ Ha)). apply bool_decide_ext. lia. }
  rewrite (run_length_cut f (drop i ns) (j - i)) in Hz' |- * by (done || (rewrite length_drop; lia)). by exists z'.
Qed.

Lemma cuts_score_low z ns r i j : skiplist_repr z ns -> cut (ByScore r) (items ns) i j -> cuts ns (out_of_range r) i.
Proof using Type.
  intros Hz Hc. split; [rewrite <- length_items; apply Hc|]. intros p a Ha. unfold out_of_range. cbn.
  rewrite (entry_above _ _ Hz r _ _ Ha), (cut_above _ _ _ _ Hc p) by (by apply items_lookup).
  f_equal. repeat case_bool_decide; cbn; done || lia.
Qed.

(** The elements of the nodes leave the dictionary. *)
Lemma dict_delete_all_spec d rm keep :
  dict_wf dictSdsHash false d -> contents d ≡ₚ links (rm ++ keep) -> NoDup (map e_ele (rm ++ keep)) ->
  exists d', dict_delete_all dictSdsHash dict_can_resize d (map e_ele rm) = Ret d' /\ dict_wf dictSdsHash false d' /\ contents d' ≡ₚ links keep.
Proof using Type.
  revert d. induction rm as [|a rm IH]; intros d Hwf Hc Hnd; cbn [map dict_delete_all]; [by exists d|]. cbn [app map] in Hnd. apply NoDup_cons in Hnd as [Ha Hnd].
  destruct (dictGenericDelete_spec dictSdsHash false false (fun _ => false) dict_can_resize no_odd_keys d (e_ele a) Hwf)
    as (d1 & r & Ed & Hwf1 & _ & Hres). unfold zdictDelete, dictDelete. rewrite Ed. cbn [mbind res_bind].
  assert ((e_ele a, Some (e_loc a)) ∈ contents d) as Hin by (rewrite Hc; left). destruct r as [c|]; [|by destruct Hres as [_ Hno]; destruct (Hno (Some (e_loc a)))].
  destruct Hres as (v & _ & Hc1). apply IH; [done| |done]. rewrite Hc1 in Hin. unfold links in Hc. cbn [app map] in Hc. fold (links (rm ++ keep)) in Hc.
  apply elem_of_cons in Hin as [[= <-]|Hin].
  - apply (Permutation_cons_inv (a := (e_ele a, Some (e_loc a)))). by rewrite <- Hc1, Hc.
  - exfalso. assert ((e_ele a, v) :: contents d1 ≡ₚ (e_ele a, Some (e_loc a)) :: links (rm ++ keep)) as Hp by (by rewrite <- Hc1, Hc).
    apply (fmap_Permutation fst) in Hp. cbn in Hp. apply Permutation_cons_inv in Hp. apply Ha. rewrite <- links_elems, <- Hp.
    by apply (list_elem_of_fmap_2 fst) in Hin.
Qed.

Lemma skip_slice zs ns z' i n :
  skip_layout dictSdsHash zs ns -> skiplist_repr z' (take i ns ++ drop (i + n) ns) ->
  exists d', dict_delete_all dictSdsHash dict_can_resize (zdict zs) (map e_ele (take n (drop i ns))) = Ret d' /\
    skip_layout dictSdsHash (Zset d' z') (take i ns ++ drop (i + n) ns).
Proof using Type.
  intros [K1 K2 K3 K4] Hz'. assert (ns ≡ₚ take n (drop i ns) ++ (take i ns ++ drop (i + n) ns)) as Hp
    by (rewrite (slice_split ns i n) at 1; apply Permutation_app_swap_app).
  set (rm := take n (drop i ns)) in *. set (keep := take i ns ++ drop (i + n) ns) in *.
  destruct (dict_delete_all_spec (zdict zs) rm keep K2) as (d' & -> & Hwf & Hc); [unfold links in *; by rewrite K3, <- Hp|by rewrite <- Hp|].
  exists d'. split; [done|]. split; [done|done|done|]. rewrite Hp, map_app in K4. by apply NoDup_app in K4 as (_ & _ & ?).
Qed.

Lemma items_slice ns i n : items (take i ns ++ drop (i + n) ns) = take i (items ns) ++ drop (i + n) (items ns).
Proof using Type. unfold items. by rewrite map_app, firstn_map, skipn_map. Qed.

(** ** Objects *)

Definition one_score_for (l : list item) (range : zrange) : Prop :=
  match range with ZRANGE_LEX _ => one_score l | _ => True end.

(** A range whose ranks are positions. *)
Definition range_ok (l : list item) (range : zrange) : Prop :=
  match range with
  | ZRANGE_RANK a c => 0 <= a <= c /\ c < Z.of_nat (length l) /\ Z.of_nat (length l) < 2 ^ 32
  | ZRANGE_SCORE _ => True
  | ZRANGE_LEX _ => one_score l
  end.

Definition sliced (l : list item) (range : zrange) : list item :=
  match range with
  | ZRANGE_RANK a c => take (Z.to_nat (c - a + 1)) (drop (Z.to_nat a) l)
  | _ => removed_items l range
  end.

Lemma list_delete_range zl l range :
  lp_repr zl (flat l) -> Forall (fun a => key_ok a.2) l -> StronglySorted item_lt l -> list_bound l -> range_ok l range ->
  exists zl' i n,
    match range with
    | ZRANGE_RANK start stop => zzlDeleteRangeByRank zl (u32 (start + 1)) (u32 (stop + 1))
    | ZRANGE_SCORE r => zzlDeleteRangeByScore zl r
    | ZRANGE_LEX r => zzlDeleteRangeByLex zl r
    end = Ret (zl', Z.of_nat n) /\ lp_repr zl' (flat (take i l ++ drop (i + n) l)) /\
    sliced l range = take n (drop i l) /\ (i + n <= length l)%nat.
Proof using Type.
  intros Hr Hkeys Hs Hb Hok. destruct range as [a c|r|r]; cbn [range_ok sliced removed_items] in *.
  - destruct Hok as (Ha & Hc & _). destruct (zzlDeleteRangeByRank_spec zl l a c Hr Hb Ha Hc) as (zl' & -> & Hr').
    exists zl', (Z.to_nat a), (Z.to_nat (c - a + 1)). split_and!; [done|done|done|lia].
  - destruct (cut_exists (ByScore r) l Hs Hkeys I) as (i & j & Hc). unfold zzlDeleteRangeByScore. rewrite (zzlFirstInRange_spec _ _ Hr Hkeys _ _ _ Hc).
    cbn [mbind res_bind]. destruct (zzl_delete_range (ByScore r) (fun zl _ sptr => score_lte zl sptr r)
      (fun zl l p a Hr Hk Ha => score_lte_at zl l Hr Hk p a r Ha) zl l i j Hr Hkeys Hc) as (zl' & -> & Hr').
    exists zl', i, (j - i)%nat. split_and!; [done|done|by apply inside_slice|]. pose proof (cut_i _ _ _ _ Hc). pose proof (cut_j _ _ _ _ Hc). lia.
  - destruct (cut_exists (ByLex r) l Hs Hkeys Hok) as (i & j & Hc). unfold zzlDeleteRangeByLex. rewrite (zzlFirstInLexRange_spec _ _ Hr _ _ _ Hc).
    cbn [mbind res_bind]. destruct (zzl_delete_range (ByLex r) (fun zl eptr _ => zzlLexValueLteMax zl eptr r)
      (fun zl l p a Hr Hk Ha => lex_lte_at zl l Hr p a r Ha) zl l i j Hr Hkeys Hc) as (zl' & -> & Hr').
    exists zl', i, (j - i)%nat. split_and!; [done|done|by apply inside_slice|]. pose proof (cut_i _ _ _ _ Hc). pose proof (cut_j _ _ _ _ Hc). lia.
Qed.

Lemma skip_delete z ns range :
  skiplist_repr z ns -> Forall (fun a => key_ok a.2) (items ns) -> range_ok (items ns) range ->
  exists z' i n,
    match range with
    | ZRANGE_RANK start stop => zslDeleteRangeByRank z (u32 (start + 1)) (u32 (stop + 1))
    | ZRANGE_SCORE r => zslDeleteRangeByScore z r
    | ZRANGE_LEX r => zslDeleteRangeByLex z r
    end = Ret (z', map e_ele (take n (drop i ns))) /\ skiplist_repr z' (take i ns ++ drop (i + n) ns) /\
    sliced (items ns) range = take n (drop i (items ns)) /\ (i + n <= length ns)%nat.
Proof using Type.
  intros Hz Hkeys Hok. pose proof (items_sorted _ (sr_sorted _ _ Hz)) as Hs. destruct range as [a c|r|r]; cbn [range_ok sliced removed_items] in *.
  - rewrite length_items in Hok. destruct Hok as (Ha & Hc & H32). wrap_id.
    destruct (zslDeleteRangeByRank_refines z ns (Z.to_nat a) (Z.to_nat (c + 1)) Hz ltac:(lia)) as (z' & E & Hz').
    replace (Z.of_nat (S (Z.to_nat a))) with (a + 1) in E by lia. replace (Z.of_nat (Z.to_nat (c + 1))) with (c + 1) in E by lia.
    rewrite E. exists z', (Z.to_nat a), (Z.to_nat (c - a + 1)). replace (Z.to_nat (c + 1) - Z.to_nat a)%nat with (Z.to_nat (c - a + 1)) by lia.
    replace (Z.to_nat a + Z.to_nat (c - a + 1))%nat with (Z.to_nat (c + 1)) by lia. split_and!; [done|done|done|lia].
  - destruct (cut_exists (ByScore r) _ Hs Hkeys I) as (i & j & Hc). unfold zslDeleteRangeByScore.
    destruct (zsl_delete_cut z ns (ByScore r) (out_of_range r) (fun n _ => zslValueLteMax (score n) r) (fun a => zslValueLteMax (e_score a) r) i j Hz Hc
      (cuts_score_low z _ _ _ _ Hz Hc)) as (z' & -> & Hz'); [done|intros p a; by apply (entry_below z)|].
    exists z', i, (j - i)%nat. split_and!; [done|done|by apply inside_slice|]. pose proof (cut_i _ _ _ _ Hc). pose proof (cut_j _ _ _ _ Hc). rewrite length_items in *. lia.
  - destruct (cut_exists (ByLex r) _ Hs Hkeys Hok) as (i & j & Hc). unfold zslDeleteRangeByLex.
    destruct (zsl_delete_cut z ns (ByLex r) (out_of_lex_range r) (node_lte_lex r) (fun a => below (ByLex r) (item_of a)) i j Hz Hc (cuts_lex_low _ _ _ _ Hc)) as (z' & -> & Hz'); [done|done|].
    exists z', i, (j - i)%nat. split_and!; [done|done|by apply inside_slice|]. pose proof (cut_i _ _ _ _ Hc). pose proof (cut_j _ _ _ _ Hc). rewrite length_items in *. lia.
Qed.

Lemma empty_listing M l : listing M l -> (Z.of_nat (length l) =? 0) = bool_decide (M = ∅).
Proof using Type.
  intros Hl. rewrite (listing_size _ _ Hl). case_bool_decide as E; [subst; by rewrite map_size_empty|].
  apply Z.eqb_neq. intros Hz. apply E, map_size_empty_inv. lia.
Qed.

(** The body of the command, for ranks that are positions. *)
Lemma delete_body o M l range :
  zobj_repr dictSdsHash o M -> listing M l -> range_ok l range ->
  let M' := remove_items (sliced l range) M in
  exists o',
    match o with
    | OBJ_ENCODING_LISTPACK zl =>
        '(zl, deleted) ←
          match range with
          | ZRANGE_RANK start stop => zzlDeleteRangeByRank zl (u32 (start + 1)) (u32 (stop + 1))
          | ZRANGE_SCORE r => zzlDeleteRangeByScore zl r
          | ZRANGE_LEX r => zzlDeleteRangeByLex zl r
          end;
        '(n, zl) ← zzlLength zl;
        Ret (OBJ_ENCODING_LISTPACK zl, deleted, n =? 0)
    | OBJ_ENCODING_SKIPLIST zs =>
        '(z, removed) ←
          match range with
          | ZRANGE_RANK start stop => zslDeleteRangeByRank (zsl zs) (u32 (start + 1)) (u32 (stop + 1))
          | ZRANGE_SCORE r => zslDeleteRangeByScore (zsl zs) r
          | ZRANGE_LEX r => zslDeleteRangeByLex (zsl zs) r
          end;
        d ← dict_delete_all dictSdsHash dict_can_resize (zdict zs) removed;
        '(d, _) ← (if htNeedsResize d then dictResize dict_can_resize d else Ret (d, false));
        Ret (OBJ_ENCODING_SKIPLIST (Zset d z), Z.of_nat (length removed), dictSize d =? 0)
    end = Ret (o', Z.of_nat (length (sliced l range)), bool_decide (M' = ∅)) /\ zobj_repr dictSdsHash o' M'.
Proof using Type.
  intros Ho Hl Hok M'. destruct (repr_cases _ _ _ _ Ho Hl) as (Hcase & Hkeys & Hlen). pose proof Ho as [HM _].
  assert (zmap_ok M') as HM' by (eapply zmap_ok_subset; [done|apply remove_items_subset]). destruct o as [zl|zs].
  - destruct Hcase as [Hr Hb]. destruct (list_delete_range zl l range Hr Hkeys (ls_sorted _ _ Hl) Hb Hok) as (zl' & i & n & -> & Hr' & Es & Hin). cbn [mbind res_bind].
    pose proof (listing_removed M l i n Hl) as Hl'. rewrite <- Es in Hl'. fold M' in Hl'.
    destruct (zzlLength_spec zl' _ Hr') as (zl2 & -> & Hr2). cbn [mbind res_bind]. rewrite (empty_listing _ _ Hl').
    eexists. split; [rewrite Es, length_take, length_drop; repeat f_equal; lia|]. split; [done|]. eexists. split; [done|]. split; [done|by apply list_bound_remove].
  - destruct Hcase as (ns & Hk & <-). destruct (skip_delete (zsl zs) ns range (sk_list _ _ _ Hk) Hkeys Hok) as (z' & i & n & -> & Hz' & Es & Hin). cbn [mbind res_bind].
    destruct (skip_slice zs ns z' i n Hk Hz') as (d & -> & Hk'). cbn [mbind res_bind]. pose proof (listing_removed M _ i n Hl) as Hl'.
    rewrite <- Es, <- items_slice in Hl'. fold M' in Hl'.
    destruct (skip_resize_repr dictSdsHash dict_can_resize (Zset d z') M') as (d2 & b & Ed & Hk2); [by eexists|apply HM'|]. cbn [zdict] in Ed. rewrite Ed. cbn [mbind res_bind zsl].
    destruct Hk2 as (ns2 & Hk2 & Hl2). pose proof (skip_size _ _ _ Hk2) as Hsz. cbn [zdict zsl] in *. rewrite Hsz, <- length_items, (empty_listing _ _ Hl2).
    exists (OBJ_ENCODING_SKIPLIST (Zset d2 z')). split; [|split; [done|by exists ns2]]. rewrite Es, length_map, !length_take, !length_drop, length_items. done.
Qed.

Lemma zremrange_spec o M l range :
  zobj_repr dictSdsHash o M -> listing M l -> M <> ∅ -> one_score_for l range -> Z.of_nat (length l) < 2 ^ 32 ->
  let M' := remove_items (removed_items l range) M in
  exists o', zremrange dictSdsHash dict_can_resize o range = Ret (o', Z.of_nat (length (removed_items l range)), bool_decide (M' = ∅)) /\
    zobj_repr dictSdsHash o' M'.
Proof using Type.
  intros Ho Hl Hne Hone H32 M'. unfold zremrange. destruct range as [start stop|r|r]; cbn [mbind res_bind].
  2: by apply (delete_body o M l (ZRANGE_SCORE r)).
  2: by apply (delete_body o M l (ZRANGE_LEX r)).
  destruct (zsetLength_spec dictSdsHash o M Ho) as (o1 & -> & Ho1 & _). cbn [mbind res_bind]. unfold M'. cbn [removed_items]. unfold rank_answer.
  rewrite <- (listing_size _ _ Hl). destruct (sanitize_indexes _ start stop) as [[a c]|] eqn:E.
  - apply sanitize_range in E as [Ha Hc]; [|lia]. apply (delete_body o1 M l (ZRANGE_RANK a c) Ho1 Hl). done.
  - exists o1. rewrite remove_items_nil. split; [|done]. by rewrite bool_decide_eq_false_2.
Qed.

(** ** Taking out the first or the last items *)

Definition from_end (where_max : bool) (l : list item) : list item := if where_max then rev l else l.
Definition out (a : item) : list Z * float := (a.1, key_score a.2).
(** An item as it comes out, with the double that was read. *)
Definition popped (p : list Z * float) (a : item) : Prop := p.1 = a.1 /\ score_of p.2 a.2.

Lemma from_end_delete M l where_max a t :
  listing M l -> from_end where_max l = a :: t -> exists l', listing (delete a.1 M) l' /\ from_end where_max l' = t /\ length l = S (length l').
Proof using Type.
  intros Hl E. destruct where_max; cbn [from_end] in *.
  - assert (l = rev t ++ [a]) as El by (rewrite <- (rev_involutive l), E; done). exists (rev t). rewrite rev_involutive.
    split; [|split; [done|rewrite El, length_app; cbn; lia]]. pose proof (listing_slice M l (rev t) [a] [] Hl) as Hs. rewrite remove_items_one in Hs. specialize (Hs El). by rewrite app_nil_r in Hs.
  - exists t. split; [|split; [done|by rewrite E]]. pose proof (listing_slice M l [] [a] t Hl) as Hs. rewrite remove_items_one in Hs. by apply Hs.
Qed.

Lemma from_end_head l where_max a t : from_end where_max l = a :: t -> l !! (if where_max then length l - 1 else 0)%nat = Some a.
Proof using Type.
  destruct where_max; cbn [from_end]; intros E; [|by rewrite E]. assert (l = rev t ++ [a]) as -> by (rewrite <- (rev_involutive l), E; done).
  rewrite length_app. cbn. replace (length (rev t) + 1 - 1)%nat with (length (rev t)) by lia. by rewrite list_lookup_middle.
Qed.

Lemma zpop_one_spec o M l where_max a t :
  zobj_repr dictSdsHash o M -> listing M l -> from_end where_max l = a :: t ->
  exists o' p, zpop_one dictSdsHash dict_can_resize o where_max = Ret (o', p) /\ popped p a /\ zobj_repr dictSdsHash o' (delete a.1 M).
Proof using Type.
  intros Ho Hl E. apply from_end_head in E as Ha. set (p := (if where_max then length l - 1 else 0)%nat) in *.
  assert (M !! a.1 = Some a.2) as HMa by (apply (listing_lookup _ _ Hl); destruct a; by eapply list_elem_of_lookup_2).
  destruct (repr_cases _ _ _ _ Ho Hl) as (Hcase & Hkeys & Hlen). unfold zpop_one.
  match goal with |- context [match o with OBJ_ENCODING_LISTPACK zl => @?f zl | OBJ_ENCODING_SKIPLIST zs => @?g zs end] =>
    assert (exists x, match o with OBJ_ENCODING_LISTPACK zl => f zl | OBJ_ENCODING_SKIPLIST zs => g zs end = Ret (a.1, x) /\ score_of x a.2)
      as (x & -> & Hx) end.
  { destruct o as [zl|zs].
    - destruct Hcase as [Hr Hb]. assert (lpSeek zl (if where_max then -2 else 0) = Ret (ele_ptr l p)) as ->
        by (unfold p; destruct where_max; [by apply seek_last|by apply first_item]).
      cbn [mbind res_bind]. rewrite (ele_ptr_Some _ _ _ Ha). cbn [of_option mbind res_bind]. rewrite (get_ele _ _ Hr _ _ Ha). cbn [mbind res_bind].
      rewrite (next_score _ _ Hr _ _ Ha). cbn [mbind res_bind of_option]. rewrite (get_score _ _ Hr Hkeys _ _ Ha). cbn [mbind res_bind].
      eexists. split; [done|]. apply score_of_key. by eapply key_at.
    - destruct Hcase as (ns & Hk & <-). pose proof (sk_list _ _ _ Hk) as [Hly _ Hsc].
      assert ((if where_max then Ret (tail (zsl zs)) else l ← load_level (mem (zsl zs)) (header (zsl zs)) 0; Ret (forward l)) = Ret (e_loc <$> ns !! p)) as ->.
      { unfold p. destruct where_max; [rewrite (ly_tail _ _ Hly), last_lookup, length_items; do 3 f_equal; lia|].
        destruct (bottom_level (zsl zs) ns 0 Hly) as [Hb Hf]; [lia|]. cbn [pos_loc] in Hb. rewrite Hb. cbn [mbind res_bind]. by rewrite Hf. }
      unfold items in Ha. rewrite list_lookup_fmap in Ha. destruct (ns !! p) as [x|] eqn:Hx; [|done]. injection Ha as <-.
      cbn [mbind res_bind fmap option_fmap option_map of_option]. rewrite (node_at_loc _ _ _ _ Hly Hx). cbn [mbind res_bind exp_node ele_of ele of_option score].
      eexists. split; [done|]. split; [by eapply scores_lookup|done]. }
  cbn [mbind res_bind]. destruct (zsetDel_spec dictSdsHash dict_can_resize o M a.1 Ho) as (o' & -> & Ho'). cbn [mbind res_bind].
  rewrite bool_decide_eq_true_2 by (rewrite HMa; by eexists). cbn [assert mbind res_bind]. by exists o', (a.1, x).
Qed.

Lemma zpop_loop_spec n o M l where_max :
  zobj_repr dictSdsHash o M -> listing M l -> (1 <= n <= length l)%nat ->
  let rm := take n (from_end where_max l) in
  exists o' ps, zpop_loop dictSdsHash dict_can_resize n o where_max = Ret (o', ps) /\ Forall2 popped ps rm /\ zobj_repr dictSdsHash o' (remove_items rm M).
Proof using Type.
  revert o M l. induction n as [|n IH]; intros o M l Ho Hl Hn; [lia|]. cbv zeta.
  destruct (from_end where_max l) as [|a t] eqn:E.
  { apply (f_equal length) in E. unfold from_end in E. destruct where_max; rewrite ?length_rev in E; cbn in E; lia. }
  destruct (zpop_one_spec o M l where_max a t Ho Hl E) as (o1 & p & E1 & Hp & Ho1). cbn [zpop_loop]. rewrite E1. cbn [mbind res_bind].
  destruct n as [|n]; [exists o1, [p]; cbn [firstn]; split_and!; [done|constructor; [done|constructor]|by rewrite remove_items_one]|].
  destruct (from_end_delete M l where_max a t Hl E) as (l' & Hl' & E' & Hlen).
  destruct (IH o1 _ l' Ho1 Hl' ltac:(lia)) as (o2 & ps & E2 & Hps & Ho2). rewrite E2. cbn [mbind res_bind]. exists o2, (p :: ps). rewrite E' in *.
  cbn [firstn]. split; [done|]. split; [by constructor|]. by rewrite remove_items_cons.
Qed.
End Remove.
