(* ===== verification/ZsetCommand.v ===== *)
(** * The commands on sorted sets ([redis-7.2.3/src/t_zset.c])

    A command reads its arguments, looks up the object of a key, calls the
    operations of [Zset] and [ZsetRange] on it, and replies.  A client has a
    keyspace and the replies sent to it so far; objects of other types are there
    only to be refused.  Keys do not expire, and notifications are not modelled.
    [args] are the arguments after the key, whose number the server has checked
    against the minimum of the command.

    This file has the definitions; [ZsetCommandSpec] has the specification and the
    theorems. *)
From stdpp Require Import gmap strings.
From S2P Require Import Prelude Mem NumStr Listpack Dict Skiplist PyFloat Score Zset ZsetRange.

Local Open Scope Z_scope.

(** ** Clients *)

Inductive robj : Type :=
  | OBJ_ZSET (o : zobj)
  | OBJ_OTHER.

Abbreviation keyspace := (gmap (list Z) robj).

Inductive cmd_error : Type :=
  | ErrSyntax
  | ErrWrongType
  | ErrArity
  | ErrNotInteger
  | ErrNotPositive
  | ErrNumkeys
  | ErrCount
  | ErrNotFloat
  | ErrRangeNotFloat
  | ErrRangeNotString
  | ErrLimitByRank
  | ErrScoresByLex
  | ErrXxNx
  | ErrGtLtNx
  | ErrIncrPair
  | ErrNan.

(** A length that is sent before the elements, or after them in its place. *)
Inductive reply : Type :=
  | ReplyArrayLen (n : Z)
  | ReplyDeferredLen
  | ReplyBulk (s : list Z)
  | ReplyDouble (x : float)
  | ReplyLongLong (n : Z)
  | ReplyNull
  | ReplyNullArray
  | ReplyError (e : cmd_error).

Record client : Type := Client { db : keyspace; replies : list reply }.

Definition addReply (c : client) (r : reply) : client := Client (db c) (replies c ++ [r]).
Definition add_replies (c : client) (rs : list reply) : client := Client (db c) (replies c ++ rs).
Definition set_key (c : client) (key : list Z) (o : zobj) : client := Client (<[key := OBJ_ZSET o]> (db c)) (replies c).
Definition dbDelete (c : client) (key : list Z) : client := Client (delete key (db c)) (replies c).

(** [addReplyDeferredLen] and [setDeferredArrayLen]. *)
Definition addReplyDeferredLen (c : client) : client * nat := (addReply c ReplyDeferredLen, length (replies c)).
Definition setDeferredArrayLen (c : client) (node : nat) (n : Z) : client := Client (db c) (<[node := ReplyArrayLen n]> (replies c)).

(** ** Arguments *)

Definition isspace (c : Z) : bool := (c =? 32) || ((9 <=? c) && (c <=? 13)).

(** [strtod] with its end pointer, as the number of bytes it has read, and
    whether it has set [errno] to [ERANGE].  Its value is a double. *)
Class Strtod := {
  strtod_end : list Z -> float * nat * bool;
  strtod_end_ok : forall s, isnan (strtod_end s).1.1 = false -> score_ok (strtod_end s).1.1;
}.

Section Arguments.
Context `{Strtod}.

Definition is_zero_or_inf (x : float) : bool :=
  match x with SpecFloat.S754_zero _ | SpecFloat.S754_infinity _ => true | _ => false end.

Definition string2d (s : list Z) : option float :=
  let '(value, n, erange) := strtod_end s in
  if (length s =? 0)%nat || isspace (hd 0 s) || negb (n =? length s)%nat || (erange && is_zero_or_inf value) || isnan value
  then None else Some value.

(** A bound of a range of scores: its value and whether it is exclusive. *)
Definition parse_bound (s : list Z) : option (float * bool) :=
  let '(s, ex) := match s with 40 :: s => (s, true) | _ => (s, false) end in
  let '(value, n, _) := strtod_end s in
  if negb (nth n s 0 =? 0) || isnan value then None else Some (value, ex).

Definition zslParseRange (min max : list Z) : option zrangespec :=
  match parse_bound min with
  | None => None
  | Some (lo, loex) =>
      match parse_bound max with
      | None => None
      | Some (hi, hiex) => Some (Range lo hi loex hiex)
      end
  end.
End Arguments.

(** What the arguments are read as, or the error that is replied. *)
Inductive parsed (A : Type) : Type :=
  | Parsed (a : A)
  | Refused (e : cmd_error).
Arguments Parsed {A} a.
Arguments Refused {A} e.

Inductive zrange_type : Type := TYPE_AUTO | TYPE_RANK | TYPE_SCORE | TYPE_LEX.
Inductive zrange_direction : Type := DIRECTION_AUTO | DIRECTION_FORWARD | DIRECTION_REVERSE.
#[export] Instance zrange_type_eq : EqDecision zrange_type.
Proof. solve_decision. Defined.
#[export] Instance zrange_direction_eq : EqDecision zrange_direction.
Proof. solve_decision. Defined.

(** ** Handlers of ranges *)

Section Client.
Context `{Heap} `{Usable} `{Decimal} `{NodeAlloc} `{Strtod}.
Context (dictSdsHash : list Z -> Z) (dict_can_resize : dictResizeEnable) (old_value : positive).
Context (zset_max_listpack_entries zset_max_listpack_value : Z).
(** The version of the protocol. *)
Context (resp : Z).

Record reply_state : Type := ReplyState { rs_client : client; userdata : option nat }.

Definition zrangeResultBeginClient (withscores : bool) (s : reply_state) (len : Z) : res reply_state :=
  let c := rs_client s in
  if 0 <? len then
    Ret (ReplyState (addReply c (ReplyArrayLen (if withscores && (resp =? 2) then len * 2 else len))) None)
  else let '(c, node) := addReplyDeferredLen c in Ret (ReplyState c (Some node)).

Definition zrangeResultEmitCBufferToClient (withscores : bool) (s : reply_state) (value : list Z) (score : float) : res reply_state :=
  let c := rs_client s in
  let c := if withscores && (2 <? resp) then addReply c (ReplyArrayLen 2) else c in
  let c := addReply c (ReplyBulk value) in
  let c := if withscores then addReply c (ReplyDouble score) else c in
  Ret (ReplyState c (userdata s)).

Definition zrangeResultEmitLongLongToClient (withscores : bool) (s : reply_state) (value : Z) (score : float) : res reply_state :=
  let c := rs_client s in
  let c := if withscores && (2 <? resp) then addReply c (ReplyArrayLen 2) else c in
  let c := addReply c (ReplyBulk (dec value)) in
  let c := if withscores then addReply c (ReplyDouble score) else c in
  Ret (ReplyState c (userdata s)).

Definition zrangeResultFinalizeClient (withscores : bool) (s : reply_state) (result_count : Z) : res reply_state :=
  match userdata s with
  | None => Ret s
  | Some node =>
      let result_count := if withscores && (resp =? 2) then result_count * 2 else result_count in
      Ret (ReplyState (setDeferredArrayLen (rs_client s) node result_count) (userdata s))
  end.

Definition client_handler (withscores : bool) : Handler reply_state.
Proof.
  refine {| beginResultEmission := zrangeResultBeginClient withscores;
            emitResultFromCBuffer := zrangeResultEmitCBufferToClient withscores;
            emitResultFromLongLong := zrangeResultEmitLongLongToClient withscores;
            finalizeResultEmission := zrangeResultFinalizeClient withscores |}.
  reflexivity.
Defined.

Record store_state : Type := StoreState { ss_client : client; dstobj : option zobj }.

(** A length of -1 becomes the largest [size_t]. *)
Definition zrangeResultBeginStore (s : store_state) (len : Z) : res store_state :=
  o ← zsetTypeCreate zset_max_listpack_entries zset_max_listpack_value (u64 len) 0;
  Ret (StoreState (ss_client s) (Some o)).

Definition zrangeResultEmitCBufferForStore (s : store_state) (value : list Z) (score : float) : res store_state :=
  o ← of_option (dstobj s);
  '(o, (retval, _, _)) ← zsetAdd dictSdsHash dict_can_resize old_value zset_max_listpack_entries zset_max_listpack_value o score value 0;
  _ ← assert retval;
  Ret (StoreState (ss_client s) (Some o)).

Definition zrangeResultEmitLongLongForStore (s : store_state) (value : Z) (score : float) : res store_state :=
  o ← of_option (dstobj s);
  '(o, (retval, _, _)) ← zsetAdd dictSdsHash dict_can_resize old_value zset_max_listpack_entries zset_max_listpack_value o score (dec value) 0;
  _ ← assert retval;
  Ret (StoreState (ss_client s) (Some o)).

Definition zrangeResultFinalizeStore (dstkey : list Z) (s : store_state) (result_count : Z) : res store_state :=
  o ← of_option (dstobj s);
  let c := ss_client s in
  Ret (StoreState (if negb (result_count =? 0) then addReply (set_key c dstkey o) (ReplyLongLong result_count)
                   else dbDelete (addReply c (ReplyLongLong 0)) dstkey) (Some o)).

Definition store_handler (dstkey : list Z) : Handler store_state.
Proof.
  refine {| beginResultEmission := zrangeResultBeginStore;
            emitResultFromCBuffer := zrangeResultEmitCBufferForStore;
            emitResultFromLongLong := zrangeResultEmitLongLongForStore;
            finalizeResultEmission := zrangeResultFinalizeStore dstkey |}.
  reflexivity.
Defined.
(** ** Looking up a key *)

Inductive found : Type :=
  | Missing
  | WrongType
  | Found (o : zobj).

Definition lookup_zset (c : client) (key : list Z) : found :=
  match db c !! key with
  | None => Missing
  | Some OBJ_OTHER => WrongType
  | Some (OBJ_ZSET o) => Found o
  end.

Definition wrong_type (c : client) : client := addReply c (ReplyError ErrWrongType).

(** ** ZADD and ZINCRBY *)

Fixpoint zadd_options (args : list (list Z)) (flags : Z) (ch : bool) : Z * bool * list (list Z) :=
  match args with
  | [] => (flags, ch, [])
  | opt :: rest =>
      if is_option opt (lit "nx") then zadd_options rest (Z.lor flags ZADD_IN_NX) ch
      else if is_option opt (lit "xx") then zadd_options rest (Z.lor flags ZADD_IN_XX) ch
      else if is_option opt (lit "ch") then zadd_options rest flags true
      else if is_option opt (lit "incr") then zadd_options rest (Z.lor flags ZADD_IN_INCR) ch
      else if is_option opt (lit "gt") then zadd_options rest (Z.lor flags ZADD_IN_GT) ch
      else if is_option opt (lit "lt") then zadd_options rest (Z.lor flags ZADD_IN_LT) ch
      else (flags, ch, args)
  end.

(** The scores are all read before anything is added. *)
Fixpoint parse_pairs (args : list (list Z)) : option (list (float * list Z)) :=
  match args with
  | score :: ele :: rest =>
      match string2d score with
      | None => None
      | Some score => match parse_pairs rest with Some pairs => Some ((score, ele) :: pairs) | None => None end
      end
  | _ => Some []
  end.

Definition parse_zadd (flags : Z) (args : list (list Z)) : parsed (Z * bool * list (float * list Z)) :=
  let '(flags, ch, args) := zadd_options args flags false in
  let incr := has_flag flags ZADD_IN_INCR in
  let nx := has_flag flags ZADD_IN_NX in
  let xx := has_flag flags ZADD_IN_XX in
  let gt := has_flag flags ZADD_IN_GT in
  let lt := has_flag flags ZADD_IN_LT in
  let elements := length args in
  if negb (elements mod 2 =? 0)%nat || (elements =? 0)%nat then Refused ErrSyntax else
  let elements := (elements / 2)%nat in
  if nx && xx then Refused ErrXxNx else
  if (gt && nx) || (lt && nx) || (gt && lt) then Refused ErrGtLtNx else
  if incr && (1 <? elements)%nat then Refused ErrIncrPair else
  match parse_pairs args with
  | None => Refused ErrNotFloat
  | Some pairs => Parsed (flags, ch, pairs)
  end.

(** What the additions of one command have done. *)
Record zadd_state : Type := ZaddState { za_added : Z; za_updated : Z; za_processed : Z; za_score : float }.

(** [false] is an addition that was refused.  [newscore] is read also where
    [zsetAdd] has not set it, but then the value is not used. *)
Fixpoint zadd_loop (o : zobj) (flags : Z) (pairs : list (float * list Z)) (s : zadd_state) : res (zobj * zadd_state * bool) :=
  match pairs with
  | [] => Ret (o, s, true)
  | (score, ele) :: pairs =>
      '(o, (retval, retflags, newscore)) ←
        zsetAdd dictSdsHash dict_can_resize old_value zset_max_listpack_entries zset_max_listpack_value o score ele flags;
      if negb retval then Ret (o, s, false) else
      zadd_loop o flags pairs
        (ZaddState (if has_flag retflags ZADD_OUT_ADDED then za_added s + 1 else za_added s)
                   (if has_flag retflags ZADD_OUT_UPDATED then za_updated s + 1 else za_updated s)
                   (if negb (has_flag retflags ZADD_OUT_NOP) then za_processed s + 1 else za_processed s)
                   (match newscore with Some x => x | None => score end))
  end.

Definition zadd_reply (flags : Z) (ch : bool) (s : zadd_state) : reply :=
  if has_flag flags ZADD_IN_INCR then
    if negb (za_processed s =? 0) then ReplyDouble (za_score s) else ReplyNull
  else ReplyLongLong (if ch then za_added s + za_updated s else za_added s).

Definition zadd_start : zadd_state := ZaddState 0 0 0 (f_of_Z 0).

Definition zaddGenericCommand (c : client) (flags : Z) (key : list Z) (args : list (list Z)) : res client :=
  match parse_zadd flags args with
  | Refused e => Ret (addReply c (ReplyError e))
  | Parsed (flags, ch, pairs) =>
      let elements := Z.of_nat (length pairs) in
      let continue o :=
        '(o, s, ok) ← zadd_loop o flags pairs zadd_start;
        let c := set_key c key o in
        Ret (addReply c (if ok : bool then zadd_reply flags ch s else ReplyError ErrNan)) in
      match lookup_zset c key with
      | WrongType => Ret (wrong_type c)
      | Missing =>
          if has_flag flags ZADD_IN_XX then Ret (addReply c (zadd_reply flags ch zadd_start)) else
          o ← zsetTypeCreate zset_max_listpack_entries zset_max_listpack_value elements
                (match pairs with (_, ele) :: _ => Z.of_nat (length ele) | [] => 0 end);
          continue o
      | Found o =>
          o ← zsetTypeMaybeConvert dictSdsHash dict_can_resize old_value zset_max_listpack_entries o elements;
          continue o
      end
  end.

Definition zaddCommand (c : client) := zaddGenericCommand c 0.
Definition zincrbyCommand (c : client) := zaddGenericCommand c ZADD_IN_INCR.

(** ** ZREM *)

(** [None] is an object that has become empty. *)
Fixpoint zrem_loop (o : zobj) (eles : list (list Z)) (deleted : Z) : res (option zobj * Z) :=
  match eles with
  | [] => Ret (Some o, deleted)
  | ele :: eles =>
      '(o, removed) ← zsetDel dictSdsHash dict_can_resize o ele;
      let deleted := if removed : bool then deleted + 1 else deleted in
      '(n, o) ← zsetLength o;
      if n =? 0 then Ret (None, deleted) else zrem_loop o eles deleted
  end.

Definition zremCommand (c : client) (key : list Z) (args : list (list Z)) : res client :=
  match lookup_zset c key with
  | Missing => Ret (addReply c (ReplyLongLong 0))
  | WrongType => Ret (wrong_type c)
  | Found o =>
      '(o, deleted) ← zrem_loop o args 0;
      Ret (addReply (match o with Some o => set_key c key o | None => dbDelete c key end) (ReplyLongLong deleted))
  end.

(** ** ZREMRANGEBYRANK, ZREMRANGEBYSCORE, ZREMRANGEBYLEX *)

Definition parse_zremrange (rangetype : zrange_type) (min max : list Z) : res (parsed zrange) :=
  match rangetype with
  | TYPE_RANK =>
      Ret (match string2ll min with
           | None => Refused ErrNotInteger
           | Some start => match string2ll max with None => Refused ErrNotInteger | Some stop => Parsed (ZRANGE_RANK start stop) end
           end)
  | TYPE_SCORE => Ret (match zslParseRange min max with None => Refused ErrRangeNotFloat | Some r => Parsed (ZRANGE_SCORE r) end)
  | TYPE_LEX => Ret (match zslParseLexRange min max with None => Refused ErrRangeNotString | Some r => Parsed (ZRANGE_LEX r) end)
  | TYPE_AUTO => Abort
  end.

Definition zremrangeGenericCommand (c : client) (rangetype : zrange_type) (key min max : list Z) : res client :=
  range ← parse_zremrange rangetype min max;
  match range with
  | Refused e => Ret (addReply c (ReplyError e))
  | Parsed range =>
      match lookup_zset c key with
      | Missing => Ret (addReply c (ReplyLongLong 0))
      | WrongType => Ret (wrong_type c)
      | Found o =>
          '(o, deleted, keyremoved) ← zremrange dictSdsHash dict_can_resize o range;
          Ret (addReply (if keyremoved : bool then dbDelete c key else set_key c key o) (ReplyLongLong deleted))
      end
  end.

(** ** ZCARD, ZSCORE, ZMSCORE, ZRANK, ZREVRANK, ZCOUNT, ZLEXCOUNT *)

Definition zcardCommand (c : client) (key : list Z) : res client :=
  match lookup_zset c key with
  | Missing => Ret (addReply c (ReplyLongLong 0))
  | WrongType => Ret (wrong_type c)
  | Found o => '(n, o) ← zsetLength o; Ret (addReply (set_key c key o) (ReplyLongLong n))
  end.

Definition score_reply (score : option float) : reply := match score with Some x => ReplyDouble x | None => ReplyNull end.

Definition zscoreCommand (c : client) (key ele : list Z) : res client :=
  match lookup_zset c key with
  | Missing => Ret (addReply c ReplyNull)
  | WrongType => Ret (wrong_type c)
  | Found o => '(o, score) ← zsetScore dictSdsHash dict_can_resize o ele; Ret (addReply (set_key c key o) (score_reply score))
  end.

Fixpoint zmscore_loop (o : zobj) (eles : list (list Z)) : res (zobj * list reply) :=
  match eles with
  | [] => Ret (o, [])
  | ele :: eles =>
      '(o, score) ← zsetScore dictSdsHash dict_can_resize o ele;
      '(o, rs) ← zmscore_loop o eles;
      Ret (o, score_reply score :: rs)
  end.

Definition zmscoreCommand (c : client) (key : list Z) (args : list (list Z)) : res client :=
  match lookup_zset c key with
  | WrongType => Ret (wrong_type c)
  | Missing => Ret (add_replies c (ReplyArrayLen (Z.of_nat (length args)) :: map (fun _ => ReplyNull) args))
  | Found o =>
      '(o, rs) ← zmscore_loop o args;
      Ret (add_replies (set_key c key o) (ReplyArrayLen (Z.of_nat (length args)) :: rs))
  end.

Definition parse_zrank (args : list (list Z)) : parsed bool :=
  match args with
  | [] => Parsed false
  | [opt] => if is_option opt (lit "withscore") then Parsed true else Refused ErrSyntax
  | _ => Refused ErrArity
  end.

Definition rank_reply (withscore : bool) (r : option (Z * float)) : list reply :=
  match r with
  | Some (rank, score) => if withscore then [ReplyArrayLen 2; ReplyLongLong rank; ReplyDouble score] else [ReplyLongLong rank]
  | None => [if withscore then ReplyNullArray else ReplyNull]
  end.

Definition zrankGenericCommand (c : client) (reverse : bool) (key ele : list Z) (args : list (list Z)) : res client :=
  match parse_zrank args with
  | Refused e => Ret (addReply c (ReplyError e))
  | Parsed withscore =>
      match lookup_zset c key with
      | Missing => Ret (add_replies c (rank_reply withscore None))
      | WrongType => Ret (wrong_type c)
      | Found o =>
          '(o, r) ← zsetRank dictSdsHash dict_can_resize o ele reverse;
          Ret (add_replies (set_key c key o) (rank_reply withscore r))
      end
  end.

Definition zcountCommand (c : client) (key min max : list Z) : res client :=
  match zslParseRange min max with
  | None => Ret (addReply c (ReplyError ErrRangeNotFloat))
  | Some r =>
      match lookup_zset c key with
      | Missing => Ret (addReply c (ReplyLongLong 0))
      | WrongType => Ret (wrong_type c)
      | Found o => n ← zcount o r; Ret (addReply c (ReplyLongLong n))
      end
  end.

Definition zlexcountCommand (c : client) (key min max : list Z) : res client :=
  match zslParseLexRange min max with
  | None => Ret (addReply c (ReplyError ErrRangeNotString))
  | Some r =>
      match lookup_zset c key with
      | Missing => Ret (addReply c (ReplyLongLong 0))
      | WrongType => Ret (wrong_type c)
      | Found o => n ← zlexcount o r; Ret (addReply c (ReplyLongLong n))
      end
  end.

(** ** ZPOPMIN, ZPOPMAX and ZMPOP *)

(** [getRangeLongFromObjectOrReply] with a message, and no bound above. *)
Definition get_long_from (s : list Z) (min : Z) (msg : cmd_error) : parsed Z :=
  match string2ll s with
  | None => Refused msg
  | Some target => if target <? min then Refused msg else Parsed target
  end.

Definition parse_zpop (args : list (list Z)) : parsed Z :=
  match args with
  | [] => Parsed (-1)
  | [count] => get_long_from count 0 ErrNotPositive
  | _ => Refused ErrSyntax
  end.

Definition pop_reply (use_nested_array : bool) (items : list (list Z * float)) : list reply :=
  concat (map (fun '(ele, score) =>
    (if use_nested_array then [ReplyArrayLen 2] else []) ++ [ReplyBulk ele; ReplyDouble score]) items).

Definition pop_header (use_nested_array emitkey : bool) (key : list Z) (rangelen : Z) : list reply :=
  match use_nested_array, emitkey with
  | false, false => [ReplyArrayLen (rangelen * 2)]
  | true, false => [ReplyArrayLen rangelen]
  | false, true => [ReplyArrayLen (rangelen * 2 + 1); ReplyBulk key]
  | true, true => [ReplyArrayLen 2; ReplyBulk key; ReplyArrayLen rangelen]
  end.

(** The first key that exists. *)
Fixpoint pop_candidate (c : client) (keyv : list (list Z)) : list Z * found :=
  match keyv with
  | [] => ([], Missing)
  | key :: keyv => match lookup_zset c key with Missing => pop_candidate c keyv | r => (key, r) end
  end.

Definition genericZpopCommand (c : client) (keyv : list (list Z)) (where_max emitkey : bool) (count : Z) (use_nested_array reply_nil_when_empty : bool) : res client :=
  match pop_candidate c keyv with
  | (_, Missing) => Ret (addReply c (if reply_nil_when_empty then ReplyNullArray else ReplyArrayLen 0))
  | (_, WrongType) => Ret (wrong_type c)
  | (key, Found o) =>
      if count =? 0 then Ret (addReply c (ReplyArrayLen 0)) else
      let count := if count =? -1 then 1 else count in
      '(llen, o) ← zsetLength o;
      let rangelen := if llen <? count then llen else count in
      let c := add_replies c (pop_header use_nested_array emitkey key rangelen) in
      '(o, items) ← zpop_loop dictSdsHash dict_can_resize (Z.to_nat rangelen) o where_max;
      let c := add_replies c (pop_reply use_nested_array items) in
      '(n, o) ← zsetLength o;
      Ret (if n =? 0 then dbDelete c key else set_key c key o)
  end.

Definition zpopMinMaxCommand (c : client) (where_max : bool) (key : list Z) (args : list (list Z)) : res client :=
  match parse_zpop args with
  | Refused e => Ret (addReply c (ReplyError e))
  | Parsed count => genericZpopCommand c [key] where_max false count ((2 <? resp) && negb (count =? -1)) false
  end.

(** [moreargs] is whether [rest] has a value for COUNT. *)
Fixpoint zmpop_options (args : list (list Z)) (count : Z) : parsed Z :=
  match args with
  | [] => Parsed count
  | opt :: rest =>
      match rest with
      | v :: rest =>
          if (count =? -1) && is_option opt (lit "count") then
            match get_long_from v 1 ErrCount with
            | Refused e => Refused e
            | Parsed count => zmpop_options rest count
            end
          else Refused ErrSyntax
      | [] => Refused ErrSyntax
      end
  end.

(** The sum of [where_idx] may wrap to a negative number; an address does not
    have the upper bits of an index. *)
Definition argv_at (argv : list (list Z)) (i : Z) : res (list Z) := of_option (argv !! Z.to_nat (i mod 2 ^ 61)).

(** The keys, the end to take from, and how many; [argv] has the name first. *)
Definition parse_zmpop (argv : list (list Z)) : res (parsed (list (list Z) * bool * Z)) :=
  arg ← argv_at argv 1;
  match get_long_from arg 1 ErrNumkeys with
  | Refused e => Ret (Refused e)
  | Parsed numkeys =>
      let where_idx := s64 (s64 (1 + numkeys) + 1) in
      if Z.of_nat (length argv) <=? where_idx then Ret (Refused ErrSyntax) else
      arg ← argv_at argv where_idx;
      let options where_max :=
        match zmpop_options (drop (Z.to_nat (where_idx + 1)) argv) (-1) with
        | Refused e => Refused e
        | Parsed count => Parsed (take (Z.to_nat numkeys) (drop 2 argv), where_max, if count =? -1 then 1 else count)
        end in
      if is_option arg (lit "min") then Ret (options false)
      else if is_option arg (lit "max") then Ret (options true)
      else Ret (Refused ErrSyntax)
  end.

Definition zmpopCommand (c : client) (argv : list (list Z)) : res client :=
  p ← parse_zmpop argv;
  match p with
  | Refused e => Ret (addReply c (ReplyError e))
  | Parsed (keyv, where_max, count) => genericZpopCommand c keyv where_max true count true true
  end.

(** ** ZRANGE and its relatives *)

Record zrange_options : Type := Options {
  opt_withscores : bool;
  opt_offset : Z;
  opt_limit : Z;
  opt_direction : zrange_direction;
  opt_type : zrange_type;
}.

Fixpoint parse_options (store : bool) (args : list (list Z)) (o : zrange_options) : parsed zrange_options :=
  match args with
  | [] => Parsed o
  | arg :: rest =>
      let '(Options ws offset limit dir type) := o in
      let others :=
        if bool_decide (dir = DIRECTION_AUTO) && is_option arg (lit "rev")
        then parse_options store rest (Options ws offset limit DIRECTION_REVERSE type)
        else if bool_decide (type = TYPE_AUTO) && is_option arg (lit "bylex")
        then parse_options store rest (Options ws offset limit dir TYPE_LEX)
        else if bool_decide (type = TYPE_AUTO) && is_option arg (lit "byscore")
        then parse_options store rest (Options ws offset limit dir TYPE_SCORE)
        else Refused ErrSyntax in
      if negb store && is_option arg (lit "withscores") then parse_options store rest (Options true offset limit dir type)
      else match rest with
           | a :: b :: rest' =>
               if is_option arg (lit "limit") then
                 match string2ll a with
                 | None => Refused ErrNotInteger
                 | Some offset =>
                     match string2ll b with
                     | None => Refused ErrNotInteger
                     | Some limit => parse_options store rest' (Options ws offset limit dir type)
                     end
                 end
               else others
           | _ => others
           end
  end.

(** A range with all that a listing of it needs. *)
Record zrange_query : Type := Query { q_range : zrange; q_offset : Z; q_limit : Z; q_reverse : bool; q_withscores : bool }.

Definition parse_zrange (store : bool) (type : zrange_type) (dir : zrange_direction) (min max : list Z) (args : list (list Z)) : parsed zrange_query :=
  match parse_options store args (Options false 0 (-1) dir type) with
  | Refused e => Refused e
  | Parsed (Options ws offset limit dir type) =>
      let reverse := bool_decide (dir = DIRECTION_REVERSE) in
      let type := if bool_decide (type = TYPE_AUTO) then TYPE_RANK else type in
      if negb (limit =? -1) && bool_decide (type = TYPE_RANK) then Refused ErrLimitByRank else
      if ws && bool_decide (type = TYPE_LEX) then Refused ErrScoresByLex else
      let '(min, max) := if reverse && negb (bool_decide (type = TYPE_RANK)) then (max, min) else (min, max) in
      match type with
      | TYPE_SCORE =>
          match zslParseRange min max with
          | None => Refused ErrRangeNotFloat
          | Some r => Parsed (Query (ZRANGE_SCORE r) offset limit reverse (ws || store))
          end
      | TYPE_LEX =>
          match zslParseLexRange min max with
          | None => Refused ErrRangeNotString
          | Some r => Parsed (Query (ZRANGE_LEX r) offset limit reverse (ws || store))
          end
      | _ =>
          match string2ll min with
          | None => Refused ErrNotInteger
          | Some start =>
              match string2ll max with
              | None => Refused ErrNotInteger
              | Some stop => Parsed (Query (ZRANGE_RANK start stop) offset limit reverse (ws || store))
              end
          end
      end
  end.

Definition run_query {S : Type} (h : Handler S) (s : S) (o : zobj) (q : zrange_query) : res (S * zobj) :=
  match q_range q with
  | ZRANGE_RANK start stop => genericZrangebyrankCommand s o start stop (q_withscores q) (q_reverse q)
  | ZRANGE_SCORE r => genericZrangebyscoreCommand s r o (q_offset q) (q_limit q) (q_reverse q)
  | ZRANGE_LEX r => genericZrangebylexCommand s r o (q_withscores q) (q_offset q) (q_limit q) (q_reverse q)
  end.

(** [zrangeGenericCommand] with a client's handler. *)
Definition zrangeToClient (c : client) (type : zrange_type) (dir : zrange_direction) (key min max : list Z) (args : list (list Z)) : res client :=
  match parse_zrange false type dir min max args with
  | Refused e => Ret (addReply c (ReplyError e))
  | Parsed q =>
      match lookup_zset c key with
      | Missing => Ret (addReply c (ReplyArrayLen 0))
      | WrongType => Ret (wrong_type c)
      | Found o =>
          '(s, o) ← run_query (client_handler (q_withscores q)) (ReplyState c None) o q;
          Ret (set_key (rs_client s) key o)
      end
  end.

(** [zrangeGenericCommand] with a handler that stores.  The source may be the
    destination: then the object that was read is no longer in the keyspace. *)
Definition zrangeToStore (c : client) (type : zrange_type) (dir : zrange_direction) (dstkey key min max : list Z) (args : list (list Z)) : res client :=
  match parse_zrange true type dir min max args with
  | Refused e => Ret (addReply c (ReplyError e))
  | Parsed q =>
      let h := store_handler dstkey in
      match lookup_zset c key with
      | Missing =>
          s ← beginResultEmission (Handler := h) (StoreState c None) (-1);
          s ← finalizeResultEmission (Handler := h) s 0;
          Ret (ss_client s)
      | WrongType => Ret (wrong_type c)
      | Found o =>
          '(s, o) ← run_query h (StoreState c None) o q;
          Ret (if bool_decide (dstkey = key) then ss_client s else set_key (ss_client s) key o)
      end
  end.

Definition zrangestoreCommand (c : client) (dstkey key min max : list Z) (args : list (list Z)) : res client :=
  zrangeToStore c TYPE_AUTO DIRECTION_AUTO dstkey key min max args.
Definition zrangeCommand (c : client) (key min max : list Z) (args : list (list Z)) : res client :=
  zrangeToClient c TYPE_AUTO DIRECTION_AUTO key min max args.
Definition zrevrangeCommand (c : client) (key min max : list Z) (args : list (list Z)) : res client :=
  zrangeToClient c TYPE_RANK DIRECTION_REVERSE key min max args.
Definition zrangebyscoreCommand (c : client) (key min max : list Z) (args : list (list Z)) : res client :=
  zrangeToClient c TYPE_SCORE DIRECTION_FORWARD key min max args.
Definition zrevrangebyscoreCommand (c : client) (key min max : list Z) (args : list (list Z)) : res client :=
  zrangeToClient c TYPE_SCORE DIRECTION_REVERSE key min max args.
Definition zrangebylexCommand (c : client) (key min max : list Z) (args : list (list Z)) : res client :=
  zrangeToClient c TYPE_LEX DIRECTION_FORWARD key min max args.
Definition zrevrangebylexCommand (c : client) (key min max : list Z) (args : list (list Z)) : res client :=
  zrangeToClient c TYPE_LEX DIRECTION_REVERSE key min max args.
End Client.
