(* ===== verification/ZsetCommandSpec.v ===== *)
(** * What the commands on sorted sets mean

    A keyspace of finite maps, and for every command of [ZsetCommand] its effect
    on the maps and its replies.  The commands refine this through every history:
    they return normally, send these replies up to the sign of a score that is
    zero, and leave objects that represent these maps.  No key ever has an empty sorted set. *)
From stdpp Require Import gmap strings.
From Stdlib Require Import SpecFloat.
From S2P Require Import Prelude Mem NumStr Listpack ListpackEnc ListpackNav ListpackEdit ListpackApi.
From S2P Require Import Dict Skiplist SkiplistUpdate PyFloat Score Zset ZsetSpec ZsetSkip ZsetList ZsetConvert ZsetRefine.
From S2P Require Import ZsetRange ZsetRangeSpec ZsetRangeRefine ZsetRemove ZsetCommand.

Local Open Scope Z_scope.

(** ** The listing of a map *)

Definition item_le (a b : item) : Prop := item_ltb b a = false.

#[export] Instance item_le_dec a b : Decision (item_le a b) := decide (item_ltb b a = false).
#[export] Instance item_le_total : Total item_le.
Proof.
  intros a b. unfold item_le. destruct (item_ltb b a) eqn:E; [|by left]. right. unfold item_ltb in *. by apply key_lt_asym.
Qed.
#[export] Instance item_le_trans : Transitive item_le.
Proof.
  intros a b c Hab Hbc. unfold item_le in *. destruct (item_ltb c a) eqn:E; [|done].
  destruct (item_lt_total b c) as [H|[->|H]]; [|congruence|unfold item_lt in H; congruence].
  pose proof (item_lt_trans b c a H E) as Hba. unfold item_lt in Hba. congruence.
Qed.

Definition listing_of (M : zmap) : list item := merge_sort item_le (map_to_list M).

Lemma sorted_strict l : StronglySorted item_le l -> NoDup l -> StronglySorted item_lt l.
Proof.
  induction 1 as [|a l Hs IH Hall]; intros Hnd; [constructor|]. apply NoDup_cons in Hnd as [Ha Hnd]. constructor; [by apply IH|].
  rewrite Forall_forall in Hall |- *. intros b Hb. apply item_ltb_asym; [by apply Hall|]. intros ->. done.
Qed.

Lemma listing_of_spec M : listing M (listing_of M).
Proof.
  assert (listing_of M ≡ₚ map_to_list M) as Hp by apply merge_sort_Permutation. split; [done|].
  apply sorted_strict; [apply (StronglySorted_merge_sort item_le)|]. rewrite Hp. apply NoDup_map_to_list.
Qed.

(** ** Replies up to the sign of zero *)

(** A listpack forgets the sign of a zero and a skip list keeps it, so a reply
    that is a score is determined up to that sign. *)
Definition unsigned_reply (r : reply) : reply := match r with ReplyDouble x => ReplyDouble (unsigned_zero x) | r => r end.
Definition same_replies (rs rs' : list reply) : Prop := map unsigned_reply rs = map unsigned_reply rs'.

#[export] Instance same_replies_equiv : Equivalence same_replies.
Proof. split; [done|by intros ??|]. intros x y z H1 H2. unfold same_replies in *. congruence. Qed.
#[export] Instance app_same : Proper (same_replies ==> same_replies ==> same_replies) app.
Proof. intros x x' Hx y y' Hy. unfold same_replies in *. by rewrite !map_app, Hx, Hy. Qed.
#[export] Instance cons_same r : Proper (same_replies ==> same_replies) (cons r).
Proof. intros x x' Hx. unfold same_replies in *. cbn [map]. by rewrite Hx. Qed.

Lemma double_same x y rs rs' : same_score x y -> same_replies rs rs' -> same_replies (ReplyDouble x :: rs) (ReplyDouble y :: rs').
Proof. unfold same_replies, same_score. cbn [map unsigned_reply]. by intros -> ->. Qed.

(** What is replied for an item comes from its element and its double. *)
Lemma concat_same {A B} (f : A -> list reply) (g : B -> list reply) (l : list A) (l' : list B) :
  Forall2 (fun a b => same_replies (f a) (g b)) l l' -> same_replies (concat (map f l)) (concat (map g l')).
Proof. induction 1 as [|a b l l' Hab Hl IH]; [done|]. cbn [map concat]. by apply app_same. Qed.

(** ** The specification *)

(** A key has a sorted set, or an object of another type. *)
Abbreviation akeyspace := (gmap (list Z) (option zmap)).

Record aclient : Type := AClient { adb : akeyspace; areplies : list reply }.

Definition areply (a : aclient) (rs : list reply) : aclient := AClient (adb a) (areplies a ++ rs).
(** A sorted set without items is no sorted set. *)
Definition aput (a : aclient) (key : list Z) (M : zmap) : aclient :=
  AClient (if bool_decide (M = ∅) then delete key (adb a) else <[key := Some M]> (adb a)) (areplies a).

Definition with_zset (a : aclient) (key : list Z) (missing : list reply) (f : zmap -> aclient) : aclient :=
  match adb a !! key with
  | None => areply a missing
  | Some None => areply a [ReplyError ErrWrongType]
  | Some (Some M) => f M
  end.

(** *** ZADD *)

Fixpoint zadd_pairs (M : zmap) (flags : Z) (pairs : list (float * list Z)) (s : zadd_state) : zmap * zadd_state * bool :=
  match pairs with
  | [] => (M, s, true)
  | (score, ele) :: pairs =>
      let '(M', (retval, retflags, newscore)) := zadd M score ele flags in
      if negb retval then (M', s, false) else
      zadd_pairs M' flags pairs
        (ZaddState (if has_flag retflags ZADD_OUT_ADDED then za_added s + 1 else za_added s)
                   (if has_flag retflags ZADD_OUT_UPDATED then za_updated s + 1 else za_updated s)
                   (if negb (has_flag retflags ZADD_OUT_NOP) then za_processed s + 1 else za_processed s)
                   (match newscore with Some x => x | None => score end))
  end.

Section Spec.
Context `{Strtod}.
Context (resp : Z).

Definition spec_zadd (a : aclient) (flags : Z) (key : list Z) (args : list (list Z)) : aclient :=
  match parse_zadd flags args with
  | Refused e => areply a [ReplyError e]
  | Parsed (flags, ch, pairs) =>
      let add M :=
        let '(M', s, ok) := zadd_pairs M flags pairs zadd_start in
        areply (aput a key M') [if ok : bool then zadd_reply flags ch s else ReplyError ErrNan] in
      match adb a !! key with
      | None => if has_flag flags ZADD_IN_XX then areply a [zadd_reply flags ch zadd_start] else add ∅
      | Some None => areply a [ReplyError ErrWrongType]
      | Some (Some M) => add M
      end
  end.

(** *** Removal *)

Definition spec_zrem (a : aclient) (key : list Z) (args : list (list Z)) : aclient :=
  with_zset a key [ReplyLongLong 0] (fun M =>
    let M' := fold_left (fun M e => delete e M) args M in
    areply (aput a key M') [ReplyLongLong (Z.of_nat (size M) - Z.of_nat (size M'))]).

Definition spec_zremrange (a : aclient) (range : parsed zrange) (key : list Z) : aclient :=
  match range with
  | Refused e => areply a [ReplyError e]
  | Parsed range =>
      with_zset a key [ReplyLongLong 0] (fun M =>
        let rm := removed_items (listing_of M) range in
        areply (aput a key (remove_items rm M)) [ReplyLongLong (Z.of_nat (length rm))])
  end.

(** The first key that exists. *)
Fixpoint acandidate (a : aclient) (keyv : list (list Z)) : option (list Z * option zmap) :=
  match keyv with
  | [] => None
  | key :: keyv => match adb a !! key with Some m => Some (key, m) | None => acandidate a keyv end
  end.

Definition spec_pop (a : aclient) (keyv : list (list Z)) (where_max emitkey : bool) (count : Z) (nested nil : bool) : aclient :=
  match acandidate a keyv with
  | None => areply a [if nil then ReplyNullArray else ReplyArrayLen 0]
  | Some (_, None) => areply a [ReplyError ErrWrongType]
  | Some (key, Some M) =>
      if count =? 0 then areply a [ReplyArrayLen 0] else
      let rm := take (Z.to_nat (if count =? -1 then 1 else count)) (from_end where_max (listing_of M)) in
      areply (aput a key (remove_items rm M)) (pop_header nested emitkey key (Z.of_nat (length rm)) ++ pop_reply nested (map out rm))
  end.

Definition spec_zpop (a : aclient) (where_max : bool) (key : list Z) (args : list (list Z)) : aclient :=
  match parse_zpop args with
  | Refused e => areply a [ReplyError e]
  | Parsed count => spec_pop a [key] where_max false count ((2 <? resp) && negb (count =? -1)) false
  end.

(** The arguments of ZMPOP, on integers that do not wrap. *)
Definition zmpop_args (argv : list (list Z)) : parsed (list (list Z) * bool * Z) :=
  match argv !! 1%nat with
  | None => Refused ErrSyntax
  | Some arg =>
      match get_long_from arg 1 ErrNumkeys with
      | Refused e => Refused e
      | Parsed numkeys =>
          if Z.of_nat (length argv) <=? numkeys + 2 then Refused ErrSyntax else
          match argv !! Z.to_nat (numkeys + 2) with
          | None => Refused ErrSyntax
          | Some arg =>
              if negb (is_option arg (lit "min")) && negb (is_option arg (lit "max")) then Refused ErrSyntax else
              match zmpop_options (drop (Z.to_nat (numkeys + 3)) argv) (-1) with
              | Refused e => Refused e
              | Parsed count => Parsed (take (Z.to_nat numkeys) (drop 2 argv), negb (is_option arg (lit "min")), if count =? -1 then 1 else count)
              end
          end
      end
  end.

Definition spec_zmpop (a : aclient) (argv : list (list Z)) : aclient :=
  match zmpop_args argv with
  | Refused e => areply a [ReplyError e]
  | Parsed (keyv, where_max, count) => spec_pop a keyv where_max true count true true
  end.

(** *** Queries *)

Definition spec_query (a : aclient) (key : list Z) (missing : list reply) (f : zmap -> list reply) : aclient :=
  with_zset a key missing (fun M => areply a (f M)).

Definition member_score (M : zmap) (e : list Z) : reply := score_reply (key_score <$> M !! e).
Definition rank_of (M : zmap) (reverse : bool) (e : list Z) : option (Z * float) :=
  match M !! e with
  | Some k =>
      let rank := Z.of_nat (rank_in M (e, k)) in
      Some (if reverse then Z.of_nat (size M) - 1 - rank else rank, key_score k)
  | None => None
  end.
Definition count_in (M : zmap) (b : bounds) : reply := ReplyLongLong (Z.of_nat (length (List.filter (inside b) (listing_of M)))).

Definition spec_zcard (a : aclient) (key : list Z) : aclient :=
  spec_query a key [ReplyLongLong 0] (fun M => [ReplyLongLong (Z.of_nat (size M))]).
Definition spec_zscore (a : aclient) (key ele : list Z) : aclient := spec_query a key [ReplyNull] (fun M => [member_score M ele]).
Definition spec_zmscore (a : aclient) (key : list Z) (args : list (list Z)) : aclient :=
  let len := ReplyArrayLen (Z.of_nat (length args)) in
  spec_query a key (len :: map (fun _ => ReplyNull) args) (fun M => len :: map (member_score M) args).
Definition spec_zrank (a : aclient) (reverse : bool) (key ele : list Z) (args : list (list Z)) : aclient :=
  match parse_zrank args with
  | Refused e => areply a [ReplyError e]
  | Parsed withscore => spec_query a key (rank_reply withscore None) (fun M => rank_reply withscore (rank_of M reverse ele))
  end.
Definition spec_count (a : aclient) (key : list Z) (b : option bounds) (e : cmd_error) : aclient :=
  match b with
  | None => areply a [ReplyError e]
  | Some b => spec_query a key [ReplyLongLong 0] (fun M => [count_in M b])
  end.

(** *** Ranges *)

Definition answer_of (M : zmap) (q : zrange_query) : list item :=
  match q_range q with
  | ZRANGE_RANK start stop => rank_answer (listing_of M) start stop (q_reverse q)
  | ZRANGE_SCORE r => range_answer (ByScore r) (listing_of M) (q_offset q) (q_limit q) (q_reverse q)
  | ZRANGE_LEX r => range_answer (ByLex r) (listing_of M) (q_offset q) (q_limit q) (q_reverse q)
  end.

(** The announced length counts what follows it. *)
Definition item_reply (withscores : bool) (a : list Z * float) : list reply :=
  (if withscores && (2 <? resp) then [ReplyArrayLen 2] else []) ++ [ReplyBulk a.1] ++ (if withscores then [ReplyDouble a.2] else []).
Definition listing_reply (withscores : bool) (l : list (list Z * float)) : list reply :=
  let n := Z.of_nat (length l) in
  ReplyArrayLen (if withscores && (resp =? 2) then n * 2 else n) :: concat (map (item_reply withscores) l).

Definition spec_zrange (a : aclient) (q : parsed zrange_query) (key : list Z) : aclient :=
  match q with
  | Refused e => areply a [ReplyError e]
  | Parsed q => spec_query a key [ReplyArrayLen 0] (fun M => listing_reply (q_withscores q) (map out (answer_of M q)))
  end.

Definition spec_zrangestore (a : aclient) (q : parsed zrange_query) (dstkey key : list Z) : aclient :=
  match q with
  | Refused e => areply a [ReplyError e]
  | Parsed q =>
      match adb a !! key with
      | None => areply (aput a dstkey ∅) [ReplyLongLong 0]
      | Some None => areply a [ReplyError ErrWrongType]
      | Some (Some M) =>
          let l := answer_of M q in
          areply (aput a dstkey (list_to_map l)) [ReplyLongLong (Z.of_nat (length l))]
      end
  end.
End Spec.

(** The members of the set of a key have one score, if the range is one of strings. *)
Definition lex_ok (a : aclient) (key : list Z) (range : zrange) : Prop :=
  forall M, adb a !! key = Some (Some M) -> one_score_for (listing_of M) range.

(** ** Representation *)

Section Refinement.
Context `{Hheap : Heap} `{Husable : Usable} `{Hdec : Decimal} `{Halloc : NodeAlloc} `{Hstr : Strtod}.
Context (dictSdsHash : list Z -> Z) (dict_can_resize : dictResizeEnable) (old_value : positive).
Context (zset_max_listpack_entries zset_max_listpack_value : Z).
Context (resp : Z).
Hypothesis Hentries : 0 <= zset_max_listpack_entries <= 2 ^ 20.
Local Abbreviation zobj_repr := (zobj_repr dictSdsHash).

(** An object of the keyspace; no sorted set is empty, or has more than [N] items. *)
Definition obj_repr (N : Z) (r : robj) (m : option zmap) : Prop :=
  match r, m with
  | OBJ_OTHER, None => True
  | OBJ_ZSET o, Some M => zobj_repr o M /\ M <> ∅ /\ Z.of_nat (size M) <= N
  | _, _ => False
  end.

Record crepr (N : Z) (c : client) (a : aclient) : Prop := {
  cr_replies : same_replies (replies c) (areplies a);
  cr_db : forall key, match db c !! key, adb a !! key with
    | None, None => True
    | Some r, Some m => obj_repr N r m
    | _, _ => False
    end;
}.

Lemma crepr_mono N N' c a : crepr N c a -> N <= N' -> crepr N' c a.
Proof using Type.
  intros [H1 H2] HN. split; [done|]. intros key. specialize (H2 key). destruct (db c !! key) as [[o|]|], (adb a !! key) as [[M|]|]; try done.
  destruct H2 as (Ho & Hne & Hs). split; [done|]. split; [done|lia].
Qed.

Lemma crepr_reply N c a r : crepr N c a -> crepr N (addReply c r) (areply a [r]).
Proof using Type. intros [H1 H2]. split; [cbn; by apply app_same|done]. Qed.

Lemma crepr_replies N c a rs rs' : crepr N c a -> same_replies rs rs' -> crepr N (add_replies c rs) (areply a rs').
Proof using Type. intros [H1 H2] Hrs. split; [cbn; by apply app_same|done]. Qed.

(** Storing an object, or deleting the key of an empty one. *)
Lemma crepr_set N c a key o M :
  crepr N c a -> zobj_repr o M -> M <> ∅ -> Z.of_nat (size M) <= N -> crepr N (set_key c key o) (aput a key M).
Proof using Type.
  intros [H1 H2] Ho Hne Hs. split; [done|]. intros k. cbn [db set_key adb aput]. rewrite bool_decide_eq_false_2 by done.
  destruct (decide (key = k)) as [->|Hk]; [by rewrite !lookup_insert_eq|]. rewrite !lookup_insert_ne by done. apply H2.
Qed.

Lemma crepr_delete N c a key : crepr N c a -> crepr N (dbDelete c key) (aput a key ∅).
Proof using Type.
  intros [H1 H2]. split; [done|]. intros k. cbn [db dbDelete adb aput]. rewrite bool_decide_eq_true_2 by done.
  destruct (decide (key = k)) as [->|Hk]; [by rewrite !lookup_delete_eq|]. rewrite !lookup_delete_ne by done. apply H2.
Qed.

(** The same map, after an operation that only reads. *)
Lemma crepr_same N c a key o M :
  crepr N c a -> adb a !! key = Some (Some M) -> zobj_repr o M -> M <> ∅ -> Z.of_nat (size M) <= N -> crepr N (set_key c key o) a.
Proof using Type.
  intros Hc Ha Ho Hne Hs. pose proof (crepr_set N c a key o M Hc Ho Hne Hs) as [H1 H2]. split; [done|]. intros k. specialize (H2 k).
  cbn [adb aput] in H2. rewrite bool_decide_eq_false_2, insert_id in H2 by done. done.
Qed.

Lemma lookup_repr N c a key :
  crepr N c a ->
  match lookup_zset c key, adb a !! key with
  | Missing, None => True
  | WrongType, Some None => True
  | Found o, Some (Some M) => zobj_repr o M /\ M <> ∅ /\ Z.of_nat (size M) <= N
  | _, _ => False
  end.
Proof using Type.
  intros [_ H2]. specialize (H2 key). unfold lookup_zset. by destruct (db c !! key) as [[o|]|], (adb a !! key) as [[M|]|].
Qed.

(** A command on one sorted set. *)
Lemma on_zset N N' c a key (f : zobj -> res client) missing g :
  crepr N c a -> N <= N' ->
  (forall o M, lookup_zset c key = Found o -> adb a !! key = Some (Some M) -> zobj_repr o M -> M <> ∅ -> Z.of_nat (size M) <= N ->
     exists c', f o = Ret c' /\ crepr N' c' (g M)) ->
  exists c', match lookup_zset c key with
    | Missing => Ret (add_replies c missing)
    | WrongType => Ret (wrong_type c)
    | Found o => f o
    end = Ret c' /\ crepr N' c' (with_zset a key missing g).
Proof using Type.
  intros Hc HN Hf. pose proof (lookup_repr N c a key Hc) as Hl. unfold with_zset.
  destruct (lookup_zset c key) as [| |o] eqn:El, (adb a !! key) as [[M|]|] eqn:Ea; try done.
  - eexists. split; [done|]. eapply crepr_mono; [by apply crepr_replies|done].
  - eexists. split; [done|]. eapply crepr_mono; [by apply crepr_reply|done].
  - destruct Hl as (Ho & Hne & Hs). by apply (Hf o M).
Qed.

(** ** ZADD *)

Definition pair_ok (p : float * list Z) : Prop := score_ok p.1 /\ element_ok p.2.

Lemma zadd_nonempty M score e flags : M <> ∅ -> (zadd M score e flags).1 <> ∅.
Proof using Type. intros Hne. unfold zadd. repeat case_match; cbn [fst]; try done; apply insert_non_empty. Qed.

(** The states of the two loops differ at most in the sign of a zero. *)
Definition same_state (s s' : zadd_state) : Prop :=
  za_added s = za_added s' /\ za_updated s = za_updated s' /\ za_processed s = za_processed s' /\ same_score (za_score s) (za_score s').

Lemma zadd_reply_same flags ch s s' : same_state s s' -> same_replies [zadd_reply flags ch s] [zadd_reply flags ch s'].
Proof using Type. intros (H1 & H2 & H3 & H4). unfold zadd_reply. rewrite H1, H2, H3. repeat case_match; try done. by apply double_same. Qed.

Lemma zadd_loop_spec pairs o M flags s s0 :
  zobj_repr o M -> same_state s0 s -> Forall pair_ok pairs -> Z.of_nat (size M) + Z.of_nat (length pairs) < 2 ^ 60 ->
  let '(M', s', ok) := zadd_pairs M flags pairs s in
  exists o' s1, zadd_loop dictSdsHash dict_can_resize old_value zset_max_listpack_entries zset_max_listpack_value o flags pairs s0 = Ret (o', s1, ok) /\
    same_state s1 s' /\ zobj_repr o' M' /\ (size M' <= size M + length pairs)%nat /\ (M <> ∅ -> M' <> ∅).
Proof using Hentries.
  revert o M s s0. induction pairs as [|[score e] pairs IH]; intros o M s s0 Ho Hst Hp Hs; cbn [zadd_pairs zadd_loop].
  { exists o, s0. split_and!; [done|done|done|cbn; lia|done]. }
  apply Forall_cons in Hp as [[Hsc He] Hp]. cbn [length fst snd] in *.
  destruct (zsetAdd_spec dictSdsHash dict_can_resize old_value zset_max_listpack_entries zset_max_listpack_value o M score e flags ltac:(lia) Ho He Hsc ltac:(lia))
    as (o1 & [[rv rf] ns] & E1 & [Er Ens] & Ho1). rewrite E1. pose proof (zadd_size M score e flags) as Hsz. pose proof (zadd_nonempty M score e flags) as Hne.
  destruct (zadd M score e flags) as [M1 [[retval retflags] newscore]]. cbn [fst snd mbind res_bind] in *.
  injection Er as -> ->. destruct retval; cbn [negb].
  - set (s1 := ZaddState _ _ _ (match newscore with Some x => x | None => score end)). set (s2 := ZaddState _ _ _ _).
    assert (same_state s2 s1) as Hst'.
    { destruct Hst as (H1 & H2 & H3 & H4). unfold s1, s2. split_and!; cbn; [by rewrite H1|by rewrite H2|by rewrite H3|]. by destruct Ens. }
    specialize (IH o1 M1 s1 s2 Ho1 Hst' Hp ltac:(lia)). destruct (zadd_pairs M1 flags pairs s1) as [[M' s'] ok].
    destruct IH as (o' & s3 & -> & Hst3 & Ho' & Hs' & Hne'). exists o', s3. split_and!; [done|done|done|lia|auto].
  - exists o1, s0. split_and!; [done|done|done|lia|done].
Qed.

Lemma zadd_pairs_new flags pairs s :
  has_flag flags ZADD_IN_XX = false -> pairs <> [] -> (zadd_pairs ∅ flags pairs s).1.1 <> ∅.
Proof using Type.
  intros Hxx Hne. destruct pairs as [|[score e] pairs]; [done|]. cbn [zadd_pairs].
  assert (zadd ∅ score e flags = (<[e := score_key score]> ∅, (true, ZADD_OUT_ADDED, Some score))) as -> by (unfold zadd; by rewrite lookup_empty, Hxx).
  cbn [negb]. generalize (insert_non_empty (M := gmap (list Z)) ∅ e (score_key score)). generalize (<[e := score_key score]> (∅ : zmap)).
  generalize (ZaddState (if has_flag ZADD_OUT_ADDED ZADD_OUT_ADDED then za_added s + 1 else za_added s) 
    (if has_flag ZADD_OUT_ADDED ZADD_OUT_UPDATED then za_updated s + 1 else za_updated s)
    (if negb (has_flag ZADD_OUT_ADDED ZADD_OUT_NOP) then za_processed s + 1 else za_processed s) score).
  clear. induction pairs as [|[score e] pairs IH]; intros s M HM; cbn [zadd_pairs]; [done|].
  pose proof (zadd_nonempty M score e flags HM). destruct (zadd M score e flags) as [M1 [[retval retflags] newscore]]. cbn [fst] in *.
  destruct retval; cbn [negb]; [by apply IH|done].
Qed.

(** *** Arguments *)

Lemma string2d_ok s x : string2d s = Some x -> score_ok x.
Proof using Type.
  unfold string2d. pose proof (strtod_end_ok s) as Hok. destruct (strtod_end s) as [[v n] er]. cbn in Hok. destruct (_ || _) eqn:E; [done|].
  intros [= <-]. apply Hok. by apply orb_false_iff in E as [_ ?].
Qed.

Lemma parse_pairs_ok args pairs :
  Forall element_ok args -> parse_pairs args = Some pairs -> Forall pair_ok pairs /\ (2 * length pairs <= length args)%nat.
Proof using Type.
  revert pairs. induction args as [args IH] using (induction_ltof1 _ (@length (list Z))). intros pairs Ha. destruct args as [|sc [|e rest]]; cbn [parse_pairs].
  - intros [= <-]. split; [constructor|cbn; lia].
  - intros [= <-]. split; [constructor|cbn; lia].
  - destruct (string2d sc) as [x|] eqn:Ex; [|done]. destruct (parse_pairs rest) as [ps|] eqn:Ep; [|done]. intros [= <-].
    apply Forall_cons in Ha as [_ Ha]. apply Forall_cons in Ha as [He Ha].
    destruct (IH rest ltac:(unfold ltof; cbn; lia) ps Ha Ep) as [H1 H2]. split; [|cbn; lia]. constructor; [|done]. split; [by eapply string2d_ok|done].
Qed.

Lemma zadd_options_suffix args flags ch f c rest : zadd_options args flags ch = (f, c, rest) -> rest `suffix_of` args.
Proof using Type.
  revert flags ch. induction args as [|opt args IH]; intros flags ch; cbn [zadd_options]; [by intros [= _ _ <-]|].
  repeat case_match; try (intros E%IH; by apply suffix_cons_r); by intros [= _ _ <-].
Qed.

Lemma parse_zadd_ok flags args f ch pairs :
  Forall element_ok args -> parse_zadd flags args = Parsed (f, ch, pairs) -> Forall pair_ok pairs /\ pairs <> [] /\ (length pairs <= length args)%nat.
Proof using Type.
  intros Ha. unfold parse_zadd. destruct (zadd_options args flags false) as [[f' ch'] rest] eqn:Eo. apply zadd_options_suffix in Eo as Hs.
  destruct (_ || _) eqn:Ee; [done|]. repeat (case_match; [done|]). destruct (parse_pairs rest) as [ps|] eqn:Ep; [|done]. intros [= <- <- <-].
  assert (Forall element_ok rest) as Hr by (destruct Hs as [k ->]; by apply Forall_app in Ha as [_ ?]). destruct (parse_pairs_ok _ _ Hr Ep) as [Hq Hl].
  split; [done|]. apply suffix_length in Hs. split; [|lia]. apply orb_false_iff in Ee as [Em Ez]. apply negb_false_iff, Nat.eqb_eq in Em. apply Nat.eqb_neq in Ez.
  destruct rest as [|x [|y rest]]; [done|done|]. cbn in Ep. intros ->. destruct (string2d x); [|done]. by destruct (parse_pairs rest).
Qed.
End Refinement.
