(* ===== verification/ZsetCommandRefine.v ===== *)
(** * The commands on sorted sets refine their specification

    For every command of [ZsetCommand] that is not a range listing: on a client
    that represents an abstract one, it returns, and the client it leaves
    represents what the specification of [ZsetCommandSpec] says. *)
From stdpp Require Import gmap strings.
From S2P Require Import Prelude Mem NumStr Listpack Dict Skiplist PyFloat Score Zset ZsetSpec ZsetSkip ZsetList ZsetConvert ZsetRefine ZsetRange ZsetRangeSpec ZsetRangeRefine ZsetRemove ZsetCommand ZsetCommandSpec.

Local Open Scope Z_scope.

Section Commands.
Context `{Hheap : Heap} `{Husable : Usable} `{Hdec : Decimal} `{Halloc : NodeAlloc} `{Hstr : Strtod}.
Context (dictSdsHash : list Z -> Z) (dict_can_resize : dictResizeEnable) (old_value : positive).
Context (zset_max_listpack_entries zset_max_listpack_value : Z).
Context (resp : Z).
Hypothesis Hentries : 0 <= zset_max_listpack_entries <= 2 ^ 20.
Local Abbreviation zobj_repr := (zobj_repr dictSdsHash).
Local Abbreviation crepr := (crepr dictSdsHash).

(** ** ZADD *)

Lemma zadd_continue N N' c a key o M flags ch pairs :
  crepr N c a -> zobj_repr o M -> Forall pair_ok pairs -> N <= N' -> N' < 2 ^ 32 ->
  Z.of_nat (size M) + Z.of_nat (length pairs) <= N' -> (zadd_pairs M flags pairs zadd_start).1.1 <> ∅ ->
  exists c', ('(o, s, ok) ← zadd_loop dictSdsHash dict_can_resize old_value zset_max_listpack_entries zset_max_listpack_value o flags pairs zadd_start;
    Ret (addReply (set_key c key o) (if ok : bool then zadd_reply flags ch s else ReplyError ErrNan))) = Ret c' /\
  crepr N' c' (let '(M', s, ok) := zadd_pairs M flags pairs zadd_start in
    areply (aput a key M') [if ok : bool then zadd_reply flags ch s else ReplyError ErrNan]).
Proof using Hentries.
  intros Hc Ho Hp HN H32 Hs Hne.
  pose proof (zadd_loop_spec dictSdsHash dict_can_resize old_value zset_max_listpack_entries zset_max_listpack_value Hentries pairs o M flags zadd_start zadd_start Ho ltac:(done) Hp ltac:(lia)) as Hl.
  destruct (zadd_pairs M flags pairs zadd_start) as [[M' s'] ok]. destruct Hl as (o' & s1 & -> & Hst & Ho' & Hs' & _). cbn [mbind res_bind fst] in *.
  eexists. split; [done|]. apply (crepr_replies dictSdsHash N' (set_key c key o')); [apply crepr_set; [by eapply crepr_mono|done|done|lia]|].
  destruct ok; [by apply zadd_reply_same|done].
Qed.

Lemma zadd_refines N c a flags key args :
  crepr N c a -> Forall element_ok args -> 0 <= N -> N + Z.of_nat (length args) < 2 ^ 32 ->
  exists c', zaddGenericCommand dictSdsHash dict_can_resize old_value zset_max_listpack_entries zset_max_listpack_value c flags key args = Ret c' /\
    crepr (N + Z.of_nat (length args)) c' (spec_zadd a flags key args).
Proof using Hentries.
  intros Hc Ha H0 HN. unfold zaddGenericCommand, spec_zadd.
  destruct (parse_zadd flags args) as [[[f ch] pairs]|e] eqn:Ep; [|eexists; split; [done|]; eapply crepr_mono; [by apply crepr_reply|lia]].
  destruct (parse_zadd_ok _ _ _ _ _ Ha Ep) as (Hp & Hne & Hlen). pose proof (lookup_repr dictSdsHash N c a key Hc) as Hl.
  destruct (lookup_zset c key) as [| |o], (adb a !! key) as [[M|]|]; try done.
  - destruct (has_flag f ZADD_IN_XX) eqn:Exx; [eexists; split; [done|]; eapply crepr_mono; [by apply crepr_reply|lia]|].
    destruct (zsetTypeCreate_spec dictSdsHash zset_max_listpack_entries zset_max_listpack_value (Z.of_nat (length pairs)) (match pairs with (_, ele) :: _ => Z.of_nat (length ele) | [] => 0 end))
      as (o & -> & Ho); [lia|]. cbn [mbind res_bind].
    eapply zadd_continue; [done|done|done|lia|done|rewrite map_size_empty; lia|by apply zadd_pairs_new].
  - eexists. split; [done|]. eapply crepr_mono; [by apply crepr_reply|lia].
  - destruct Hl as (Ho & HMne & HMs).
    destruct (zsetTypeMaybeConvert_spec dictSdsHash dict_can_resize old_value zset_max_listpack_entries o M (Z.of_nat (length pairs)) Ho) as (o1 & -> & Ho1); [lia|lia|].
    cbn [mbind res_bind]. eapply zadd_continue; [done|done|done|lia|done|lia|].
    pose proof (zadd_loop_spec dictSdsHash dict_can_resize old_value zset_max_listpack_entries zset_max_listpack_value Hentries pairs o M f zadd_start zadd_start Ho ltac:(done) Hp ltac:(lia)) as Hl.
    destruct (zadd_pairs M f pairs zadd_start) as [[M' s'] ok]. destruct Hl as (_ & _ & _ & _ & _ & _ & Hl). by apply Hl.
Qed.

(** ** ZREM *)

Lemma fold_delete_empty args : fold_left (fun (M : zmap) e => delete e M) args ∅ = ∅.
Proof using Type. induction args as [|e args IH]; [done|]. cbn [fold_left]. by rewrite delete_empty. Qed.

Lemma zrem_loop_spec args o M deleted :
  zobj_repr o M -> M <> ∅ ->
  let M' := fold_left (fun M e => delete e M) args M in
  exists o', zrem_loop dictSdsHash dict_can_resize o args deleted
    = Ret (o', deleted + (Z.of_nat (size M) - Z.of_nat (size M'))) /\
    (size M' <= size M)%nat /\
    match o' with Some o' => zobj_repr o' M' /\ M' <> ∅ | None => M' = ∅ end.
Proof using Type.
  revert o M deleted. induction args as [|e args IH]; intros o M deleted Ho Hne; cbn [fold_left zrem_loop]; cbv zeta.
  { exists (Some o). split; [|done]. do 2 f_equal. lia. }
  destruct (zsetDel_spec dictSdsHash dict_can_resize o M e Ho) as (o1 & -> & Ho1). cbn [mbind res_bind].
  destruct (zsetLength_spec dictSdsHash o1 _ Ho1) as (o2 & -> & Ho2 & _). cbn [mbind res_bind].
  assert (Z.of_nat (size M) = (if bool_decide (is_Some (M !! e)) then 1 else 0) + Z.of_nat (size (delete e M))) as Hsz.
  { case_bool_decide as Hin; [|rewrite delete_id by (by apply eq_None_not_Some); lia]. 
    rewrite map_size_delete_Some by done. assert (size M <> 0%nat) by (intros Hz; by apply map_size_empty_inv in Hz). lia. }
  destruct (Z.eqb_spec (Z.of_nat (size (delete e M))) 0) as [Hz|Hz].
  - exists None. assert (delete e M = ∅) as -> by (apply map_size_empty_inv; lia). rewrite fold_delete_empty, !map_size_empty in *.
    split; [|split; [lia|done]]. do 2 f_equal. case_bool_decide; lia.
  - destruct (IH o2 (delete e M) (if bool_decide (is_Some (M !! e)) then deleted + 1 else deleted) Ho2) as (o' & -> & Hs' & Ho').
    { intros E. rewrite E, map_size_empty in Hz. lia. }
    exists o'. split; [|split; [case_bool_decide; lia|done]]. do 2 f_equal. case_bool_decide; lia.
Qed.

Lemma zrem_refines N c a key args :
  crepr N c a ->
  exists c', zremCommand dictSdsHash dict_can_resize c key args = Ret c' /\ crepr N c' (spec_zrem a key args).
Proof using Type.
  intros Hc. unfold zremCommand, spec_zrem. eapply (on_zset dictSdsHash N N); [done|lia|]. intros o M Hl Ha Ho Hne Hs.
  destruct (zrem_loop_spec args o M 0 Ho Hne) as (o' & -> & Hs' & Ho'). cbn [mbind res_bind]. eexists. split; [done|]. rewrite Z.add_0_l.
  apply crepr_reply. destruct o' as [o'|]; [destruct Ho'; apply crepr_set; [done|done|done|lia]|]. rewrite Ho'. by apply crepr_delete.
Qed.

(** ** ZREMRANGE, ZPOPMIN and ZPOPMAX *)

Lemma size_is_empty (M : zmap) : (Z.of_nat (size M) =? 0) = bool_decide (M = ∅).
Proof using Type.
  case_bool_decide as E; [by rewrite E, map_size_empty|]. apply Z.eqb_neq. intros Hz. apply E, map_size_empty_inv. lia.
Qed.

Lemma length_listing_of M : length (listing_of M) = size M.
Proof using Type. apply listing_size, listing_of_spec. Qed.

Lemma remove_items_size (rm : list item) (M : zmap) : (size (remove_items rm M) <= size M)%nat.
Proof using Type. apply map_subseteq_size, remove_items_subset. Qed.

Lemma crepr_remove (N : Z) (c : client) (a : aclient) (key : list Z) (o : zobj) (M M' : zmap) :
  crepr N c a -> zobj_repr o M' -> (size M' <= size M)%nat -> Z.of_nat (size M) <= N ->
  crepr N (if bool_decide (M' = ∅) then dbDelete c key else set_key c key o) (aput a key M').
Proof using Type.
  intros Hc Ho Hs HN. case_bool_decide as E; [rewrite E; by apply crepr_delete|]. apply crepr_set; [done|done|done|lia].
Qed.

Lemma zremrange_refines N c a type key min max range :
  crepr N c a -> N < 2 ^ 32 -> parse_zremrange type min max = Ret range ->
  (forall r, range = Parsed r -> lex_ok a key r) ->
  exists c', zremrangeGenericCommand dictSdsHash dict_can_resize c type key min max = Ret c' /\ crepr N c' (spec_zremrange a range key).
Proof using Type.
  intros Hc HN Hp Hlex. unfold zremrangeGenericCommand. rewrite Hp. cbn [mbind res_bind]. destruct range as [range|e]; cbn [spec_zremrange];
    [|eexists; split; [done|by apply crepr_reply]].
  eapply (on_zset dictSdsHash N N); [done|lia|]. intros o M Hl Ha Ho Hne Hs.
  destruct (zremrange_spec dictSdsHash dict_can_resize o M (listing_of M) range Ho (listing_of_spec M) Hne (Hlex _ eq_refl _ Ha)) as (o' & -> & Ho').
  { rewrite length_listing_of. lia. }
  cbn [mbind res_bind]. eexists. split; [done|]. apply crepr_reply. eapply crepr_remove; [done|done|apply remove_items_size|done].
Qed.

Lemma pop_reply_same nested ps rm : Forall2 popped ps rm -> same_replies (pop_reply nested ps) (pop_reply nested (map out rm)).
Proof using Type.
  intros Hp. unfold pop_reply. rewrite map_map. apply concat_same. eapply Forall2_impl; [exact Hp|]. intros [e x] a [Ee Hx%score_of_same].
  cbn [fst snd out] in *. subst e. apply app_same; [done|]. apply cons_same. by apply double_same.
Qed.

(** A number of items is popped from one end. *)
Lemma pop_found N c a where_max emitkey key o M n nested :
  crepr N c a -> zobj_repr o M -> M <> ∅ -> Z.of_nat (size M) <= N -> 1 <= n ->
  let rm := take (Z.to_nat n) (from_end where_max (listing_of M)) in
  exists c', ('(llen, o) ← zsetLength o;
    let rangelen := if llen <? n then llen else n in
    let c := add_replies c (pop_header nested emitkey key rangelen) in
    '(o, items) ← zpop_loop dictSdsHash dict_can_resize (Z.to_nat rangelen) o where_max;
    let c := add_replies c (pop_reply nested items) in
    '(n, o) ← zsetLength o;
    Ret (if n =? 0 then dbDelete c key else set_key c key o)) = Ret c' /\
  crepr N c' (areply (aput a key (remove_items rm M)) (pop_header nested emitkey key (Z.of_nat (length rm)) ++ pop_reply nested (map out rm))).
Proof using Type.
  intros Hc Ho Hne HN Hn. cbv zeta. destruct (zsetLength_spec dictSdsHash o M Ho) as (o1 & -> & Ho1 & _). cbn [mbind res_bind].
  assert (size M <> 0%nat) as Hsz by (intros Hz; by apply map_size_empty_inv in Hz).
  assert (length (from_end where_max (listing_of M)) = size M) as El by (unfold from_end; destruct where_max; rewrite ?length_rev; apply length_listing_of).
  set (k := if Z.of_nat (size M) <? n then Z.of_nat (size M) else n).
  assert (1 <= k <= Z.of_nat (size M)) as Hk by (unfold k; destruct (Z.ltb_spec (Z.of_nat (size M)) n); lia).
  assert (take (Z.to_nat n) (from_end where_max (listing_of M)) = take (Z.to_nat k) (from_end where_max (listing_of M))) as ->.
  { unfold k. destruct (Z.ltb_spec (Z.of_nat (size M)) n); [|done]. rewrite !take_ge by lia. done. }
  destruct (zpop_loop_spec dictSdsHash dict_can_resize (Z.to_nat k) o1 M (listing_of M) where_max Ho1 (listing_of_spec M)) as (o2 & ps & -> & Hps & Ho2).
  { rewrite length_listing_of. lia. }
  cbn [mbind res_bind]. set (rm := take (Z.to_nat k) _) in *. assert (Z.of_nat (length rm) = k) as -> by (unfold rm; rewrite length_take; lia).
  destruct (zsetLength_spec dictSdsHash o2 _ Ho2) as (o3 & -> & Ho3 & _). cbn [mbind res_bind]. eexists. split; [done|].
  pose proof (crepr_remove N c a key o3 M (remove_items rm M) Hc Ho3 (remove_items_size _ _) HN) as Hr. rewrite size_is_empty.
  apply (crepr_replies dictSdsHash _ _ _ (pop_header nested emitkey key k ++ pop_reply nested ps)
    (pop_header nested emitkey key k ++ pop_reply nested (map out rm))) in Hr; [|apply app_same; [done|by apply pop_reply_same]].
  revert Hr. case_bool_decide; unfold add_replies, dbDelete, set_key; cbn [db replies]; by rewrite <- !app_assoc.
Qed.

Lemma pop_candidate_repr N c a keyv :
  crepr N c a ->
  match pop_candidate c keyv, acandidate a keyv with
  | (_, Missing), None => True
  | (_, WrongType), Some (_, None) => True
  | (key, Found o), Some (key', Some M) => key' = key /\ zobj_repr o M /\ M <> ∅ /\ Z.of_nat (size M) <= N
  | _, _ => False
  end.
Proof using Type.
  intros Hc. induction keyv as [|key keyv IH]; cbn [pop_candidate acandidate]; [done|]. pose proof (lookup_repr dictSdsHash N c a key Hc) as Hl.
  by destruct (lookup_zset c key) as [| |o], (adb a !! key) as [[M|]|].
Qed.

Lemma pop_refines N c a keyv where_max emitkey count nested nil :
  crepr N c a -> -1 <= count ->
  exists c', genericZpopCommand dictSdsHash dict_can_resize c keyv where_max emitkey count nested nil = Ret c' /\
    crepr N c' (spec_pop a keyv where_max emitkey count nested nil).
Proof using Type.
  intros Hc Hcount. unfold genericZpopCommand, spec_pop. pose proof (pop_candidate_repr N c a keyv Hc) as Hk.
  destruct (pop_candidate c keyv) as [key [| |o]], (acandidate a keyv) as [[key' [M|]]|]; try done; try (eexists; split; [done|by apply crepr_reply]).
  destruct Hk as (-> & Ho & Hne & Hs). destruct (Z.eqb_spec count 0) as [->|Hnz]; [eexists; split; [done|by apply crepr_reply]|].
  apply pop_found; [done|done|done|done|]. destruct (Z.eqb_spec count (-1)); lia.
Qed.

Lemma get_long_from_ok s min e v : get_long_from s min e = Parsed v -> min <= v <= LLONG_MAX.
Proof using Type.
  unfold get_long_from. destruct (string2ll s) as [z|] eqn:E; [|done]. destruct (Z.ltb_spec z min); [done|]. intros [= <-].
  apply string2ll_sound in E as [? _]. lia.
Qed.

Lemma zpop_refines N c a where_max key args :
  crepr N c a ->
  exists c', zpopMinMaxCommand dictSdsHash dict_can_resize resp c where_max key args = Ret c' /\ crepr N c' (spec_zpop resp a where_max key args).
Proof using Type.
  intros Hc. unfold zpopMinMaxCommand, spec_zpop.
  destruct (parse_zpop args) as [count|e] eqn:Ep; [|eexists; split; [done|by apply crepr_reply]].
  apply pop_refines; [done|]. unfold parse_zpop in Ep. destruct args as [|x [|y args]]; [by injection Ep as <-| |done].
  apply get_long_from_ok in Ep. lia.
Qed.

Lemma argv_at_ok argv i : 0 <= i < Z.of_nat (length argv) -> i < 2 ^ 61 -> exists x, argv !! Z.to_nat i = Some x /\ argv_at argv i = Ret x.
Proof using Type.
  intros Hi Hlt. destruct (lookup_lt_is_Some_2 argv (Z.to_nat i)) as [x Hx]; [lia|]. exists x. split; [done|].
  unfold argv_at. rewrite Z.mod_small by lia. by rewrite Hx.
Qed.

Lemma zmpop_options_ok args n : zmpop_options args (-1) = Parsed n -> n = -1 \/ 1 <= n.
Proof using Type.
  assert (forall args m, 1 <= m -> zmpop_options args m = Parsed n -> n = m) as Hset.
  { intros [|opt [|v rest]] m Hm; cbn [zmpop_options]; [by intros [= <-]|done|]. by rewrite (proj2 (Z.eqb_neq m (-1))) by lia. }
  destruct args as [|opt [|v rest]]; cbn [zmpop_options]; [by intros [= <-]; left|done|]. destruct (_ && _); [|done].
  destruct (get_long_from v 1 ErrCount) as [m|] eqn:Em; [|done]. apply get_long_from_ok in Em. intros E. right. rewrite (Hset _ _ (proj1 Em) E). lia.
Qed.

(** A number of keys that makes the index wrap reads the name of the command, or
    the number itself, and is refused like every number that is too large. *)
Lemma parse_zmpop_overflow arg args numkeys :
  string2ll arg = Some numkeys -> 2 ^ 63 - 2 <= numkeys <= 2 ^ 63 - 1 ->
  parse_zmpop (lit "zmpop" :: arg :: args) = Ret (Refused ErrSyntax).
Proof using Type.
  intros E Hn. apply string2ll_sound in E as Es. destruct Es as [_ Es]. unfold parse_zmpop. change (argv_at _ 1) with (Ret arg). cbn [mbind res_bind].
  unfold get_long_from. rewrite E, (proj2 (Z.ltb_ge numkeys 1)) by lia. cbv zeta.
  assert (numkeys = 2 ^ 63 - 2 \/ numkeys = 2 ^ 63 - 1) as [->| ->] by lia; rewrite (proj2 (Z.leb_gt _ _)) by (vm_compute s64; lia).
  - reflexivity.
  - change (argv_at _ _) with (Ret arg). subst arg. cbn [mbind res_bind]. reflexivity.
Qed.

Lemma parse_zmpop_spec args :
  (1 <= length args)%nat -> Z.of_nat (length args) < 2 ^ 32 -> parse_zmpop (lit "zmpop" :: args) = Ret (zmpop_args (lit "zmpop" :: args)).
Proof using Type.
  destruct args as [|arg args]; cbn [length]; [lia|]. intros _ H32. unfold zmpop_args. cbn [lookup list_lookup].
  destruct (get_long_from arg 1 ErrNumkeys) as [numkeys|e] eqn:En; [|unfold parse_zmpop; change (argv_at _ 1) with (Ret arg); cbn [mbind res_bind]; by rewrite En].
  pose proof (get_long_from_ok _ _ _ _ En) as Hn. unfold LLONG_MAX in Hn. set (argv := lit "zmpop" :: arg :: args).
  assert (Z.of_nat (length argv) < 2 ^ 33) as Hlen by (cbn [length argv]; lia).
  destruct (Z_lt_le_dec numkeys (2 ^ 63 - 2)) as [Hs|Hs].
  - unfold parse_zmpop. change (argv_at argv 1) with (Ret arg). cbn [mbind res_bind]. rewrite En. wrap_id. replace (1 + numkeys + 1) with (numkeys + 2) by lia.
    destruct (Z.leb_spec (Z.of_nat (length argv)) (numkeys + 2)) as [|Hl]; [done|]. replace (numkeys + 2 + 1) with (numkeys + 3) by lia.
    destruct (argv_at_ok argv (numkeys + 2)) as (x & -> & ->); [lia|lia|]. cbn [mbind res_bind].
    destruct (is_option x (lit "min")), (is_option x (lit "max")); cbn [negb andb]; done.
  - rewrite (proj2 (Z.leb_le _ _)) by lia. eapply parse_zmpop_overflow; [|split; [exact Hs|lia]].
    unfold get_long_from in En. destruct (string2ll arg) as [z|]; [|done]. destruct (z <? 1); [done|]. by injection En as ->.
Qed.

Lemma zmpop_refines N c a args :
  crepr N c a -> (1 <= length args)%nat -> Z.of_nat (length args) < 2 ^ 32 ->
  exists c', zmpopCommand dictSdsHash dict_can_resize c (lit "zmpop" :: args) = Ret c' /\ crepr N c' (spec_zmpop a (lit "zmpop" :: args)).
Proof using Type.
  intros Hc H1 H32. unfold zmpopCommand, spec_zmpop. rewrite parse_zmpop_spec by done. cbn [mbind res_bind].
  destruct (zmpop_args _) as [[[keyv w] n]|e] eqn:E; [|eexists; split; [done|by apply crepr_reply]]. apply pop_refines; [done|].
  unfold zmpop_args in E. repeat case_match; simplify_eq; try lia.
  match goal with Ho : zmpop_options _ _ = Parsed _ |- _ => destruct (zmpop_options_ok _ _ Ho); lia end.
Qed.

(** ** Queries *)

(** A query leaves an object that represents the same map. *)
Lemma query_refines N c a key (f : zobj -> res client) missing g :
  crepr N c a ->
  (forall o M, adb a !! key = Some (Some M) -> zobj_repr o M -> M <> ∅ -> Z.of_nat (size M) <= N ->
     exists o' rs, f o = Ret (add_replies (set_key c key o') rs) /\ same_replies rs (g M) /\ zobj_repr o' M) ->
  exists c', match lookup_zset c key with
    | Missing => Ret (add_replies c missing)
    | WrongType => Ret (wrong_type c)
    | Found o => f o
    end = Ret c' /\ crepr N c' (spec_query a key missing g).
Proof using Type.
  intros Hc Hf. apply (on_zset dictSdsHash N N); [done|lia|]. intros o M _ Ha Ho Hne Hs. destruct (Hf o M Ha Ho Hne Hs) as (o' & rs & -> & Hrs & Ho').
  eexists. split; [done|]. apply crepr_replies; [by eapply crepr_same|done].
Qed.

Lemma zcard_refines N c a key :
  crepr N c a -> exists c', zcardCommand c key = Ret c' /\ crepr N c' (spec_zcard a key).
Proof using Type.
  intros Hc. unfold zcardCommand. apply query_refines; [done|]. intros o M _ Ho Hne Hs.
  destruct (zsetLength_spec dictSdsHash o M Ho) as (o' & -> & Ho' & _). by exists o', [ReplyLongLong (Z.of_nat (size M))].
Qed.

Lemma score_reply_same x M e : option_Forall2 score_of x (M !! e) -> same_replies [score_reply x] [member_score M e].
Proof using Type. unfold member_score. intros [x' k Hx%score_of_same|]; [by apply double_same|done]. Qed.

Lemma zscore_refines N c a key ele :
  crepr N c a -> exists c', zscoreCommand dictSdsHash dict_can_resize c key ele = Ret c' /\ crepr N c' (spec_zscore a key ele).
Proof using Type.
  intros Hc. unfold zscoreCommand. apply query_refines; [done|]. intros o M _ Ho Hne Hs.
  destruct (zsetScore_spec dictSdsHash dict_can_resize o M ele Ho) as (o' & x & -> & Hx & Ho'). exists o', [score_reply x].
  split; [done|]. split; [by apply score_reply_same|done].
Qed.

Lemma zmscore_loop_spec o M args :
  zobj_repr o M -> exists o' rs, zmscore_loop dictSdsHash dict_can_resize o args = Ret (o', rs) /\ same_replies rs (map (member_score M) args) /\
    zobj_repr o' M.
Proof using Type.
  revert o. induction args as [|e args IH]; intros o Ho; cbn [zmscore_loop map]; [by exists o, []|].
  destruct (zsetScore_spec dictSdsHash dict_can_resize o M e Ho) as (o1 & x & -> & Hx & Ho1). cbn [mbind res_bind].
  destruct (IH o1 Ho1) as (o2 & rs & -> & Hrs & Ho2). exists o2, (score_reply x :: rs). split; [done|]. split; [|done].
  apply (app_same [score_reply x] [member_score M e]); [by apply score_reply_same|done].
Qed.

Lemma zmscore_refines N c a key args :
  crepr N c a -> exists c', zmscoreCommand dictSdsHash dict_can_resize c key args = Ret c' /\ crepr N c' (spec_zmscore a key args).
Proof using Type.
  intros Hc. unfold zmscoreCommand.
  destruct (query_refines N c a key (fun o => '(o, rs) ← zmscore_loop dictSdsHash dict_can_resize o args;
      Ret (add_replies (set_key c key o) (ReplyArrayLen (Z.of_nat (length args)) :: rs)))
    (ReplyArrayLen (Z.of_nat (length args)) :: map (fun _ => ReplyNull) args)
    (fun M => ReplyArrayLen (Z.of_nat (length args)) :: map (member_score M) args) Hc) as (c' & E & Hc').
  - intros o M _ Ho Hne Hs. destruct (zmscore_loop_spec o M args Ho) as (o' & rs & -> & Hrs & Ho'). eexists o', _. split; [done|].
    split; [by apply cons_same|done].
  - exists c'. split; [|done]. rewrite <- E. by destruct (lookup_zset c key).
Qed.

Lemma zrank_refines N c a reverse key ele args :
  crepr N c a -> exists c', zrankGenericCommand dictSdsHash dict_can_resize c reverse key ele args = Ret c' /\ crepr N c' (spec_zrank a reverse key ele args).
Proof using Type.
  intros Hc. unfold zrankGenericCommand, spec_zrank. destruct (parse_zrank args) as [ws|e]; [|eexists; split; [done|by apply crepr_reply]].
  apply query_refines; [done|]. intros o M _ Ho Hne Hs. destruct (zsetRank_spec dictSdsHash dict_can_resize o M ele reverse Ho Hne) as (o' & r & -> & Ho' & Hr).
  exists o', (rank_reply ws r). split; [done|]. split; [|done]. unfold rank_of. destruct Hr as [[i x] k [Hi Hx%score_of_same]|]; [|done].
  cbn [fst snd] in *. subst i. unfold rank_reply. destruct ws; [|done]. do 2 apply cons_same. by apply double_same.
Qed.

(** The object of a key is read only. *)
Lemma count_refines N c a key (f : zobj -> res Z) b :
  crepr N c a -> (forall o M, adb a !! key = Some (Some M) -> zobj_repr o M -> f o = Ret (Z.of_nat (length (List.filter (inside b) (listing_of M))))) ->
  exists c', match lookup_zset c key with
    | Missing => Ret (addReply c (ReplyLongLong 0))
    | WrongType => Ret (wrong_type c)
    | Found o => n ← f o; Ret (addReply c (ReplyLongLong n))
    end = Ret c' /\ crepr N c' (spec_query a key [ReplyLongLong 0] (fun M => [count_in M b])).
Proof using Type.
  intros Hc Hf. apply (on_zset dictSdsHash N N); [done|lia|]. intros o M _ Ha Ho Hne Hs. rewrite (Hf o M Ha Ho). cbn [mbind res_bind].
  eexists. split; [done|]. by apply crepr_reply.
Qed.

Lemma zcount_refines N c a key min max :
  crepr N c a ->
  exists c', zcountCommand c key min max = Ret c' /\ crepr N c' (spec_count a key (ByScore <$> zslParseRange min max) ErrRangeNotFloat).
Proof using Type.
  intros Hc. unfold zcountCommand. destruct (zslParseRange min max) as [r|]; cbn [fmap option_fmap option_map spec_count];
    [|eexists; split; [done|by apply crepr_reply]].
  apply count_refines; [done|]. intros o M _ Ho. eapply zcount_spec; [done|apply listing_of_spec].
Qed.

Lemma zlexcount_refines N c a key min max :
  crepr N c a -> (forall r, lex_ok a key (ZRANGE_LEX r)) ->
  exists c', zlexcountCommand c key min max = Ret c' /\ crepr N c' (spec_count a key (ByLex <$> zslParseLexRange min max) ErrRangeNotString).
Proof using Type.
  intros Hc Hlex. unfold zlexcountCommand. destruct (zslParseLexRange min max) as [r|]; cbn [fmap option_fmap option_map spec_count];
    [|eexists; split; [done|by apply crepr_reply]].
  apply count_refines; [done|]. intros o M Ha Ho. eapply zlexcount_spec; [done|apply listing_of_spec|]. by apply (Hlex r).
Qed.
End Commands.
