(* ===== verification/ZsetCommandRange.v ===== *)
(** * Range listings refine their specification

    The commands ZRANGE, ZREVRANGE, ZRANGEBYSCORE, ZRANGEBYLEX and their reverses
    send the listing that the specification says, with the announced length in its
    place; ZRANGESTORE builds an object for the listing and stores it. *)
From stdpp Require Import gmap.
From S2P Require Import Prelude Mem NumStr Listpack Dict Skiplist PyFloat Score Zset ZsetSpec ZsetSkip ZsetList ZsetConvert ZsetRefine.
From S2P Require Import ZsetRange ZsetRangeSpec ZsetRangeRefine ZsetRemove ZsetCommand ZsetCommandSpec ZsetCommandRefine.

Local Open Scope Z_scope.

(** ** Answers *)

Lemma rank_answer_submseteq l start stop reverse : rank_answer l start stop reverse ⊆+ l.
Proof.
  unfold rank_answer. destruct (sanitize_indexes _ start stop) as [[a c]|]; [|apply submseteq_nil_l].
  transitivity (if reverse then rev l else l).
  - apply sublist_submseteq. etransitivity; [apply sublist_take|apply sublist_drop].
  - destruct reverse; [|done]. apply Permutation_submseteq. symmetry. apply Permutation_rev.
Qed.

Lemma filter_sublist {A} (f : A -> bool) l : List.filter f l `sublist_of` l.
Proof. induction l as [|a l IH]; cbn [List.filter]; [done|]. destruct (f a); by constructor. Qed.

Lemma window_sublist {A} offset limit (l : list A) : take_limit limit (drop_offset offset l) `sublist_of` l.
Proof.
  transitivity (drop_offset offset l); [unfold take_limit; case_match; [done|apply sublist_take]|].
  unfold drop_offset. case_match; [apply sublist_nil_l|apply sublist_drop].
Qed.

Lemma range_answer_submseteq b l offset limit reverse : range_answer b l offset limit reverse ⊆+ l.
Proof.
  unfold range_answer. transitivity (if reverse then rev (List.filter (inside b) l) else List.filter (inside b) l).
  - apply sublist_submseteq, window_sublist.
  - transitivity (List.filter (inside b) l); [|apply sublist_submseteq, filter_sublist].
    destruct reverse; [|done]. apply Permutation_submseteq. symmetry. apply Permutation_rev.
Qed.

Lemma answer_of_submseteq M q : answer_of M q ⊆+ listing_of M.
Proof. unfold answer_of. case_match; [apply rank_answer_submseteq|apply range_answer_submseteq..]. Qed.

Lemma answer_of_item M q e k : (e, k) ∈ answer_of M q -> M !! e = Some k.
Proof.
  intros He. apply (listing_lookup _ _ (listing_of_spec M)). by eapply elem_of_submseteq; [|apply answer_of_submseteq].
Qed.

Lemma answer_of_nodup M q : NoDup (answer_of M q).*1.
Proof.
  assert ((answer_of M q).*1 ⊆+ (listing_of M).*1) as Hs by apply fmap_submseteq, answer_of_submseteq.
  apply submseteq_Permutation in Hs as [k Hk]. pose proof (listing_nodup _ _ (listing_of_spec M)) as Hnd. rewrite Hk in Hnd. by apply NoDup_app in Hnd as [? _].
Qed.

Lemma answer_of_length M q : (length (answer_of M q) <= size M)%nat.
Proof. rewrite <- (listing_size _ _ (listing_of_spec M)). apply submseteq_length, answer_of_submseteq. Qed.

(** ** Arguments *)

Lemma string2ll_long s v : string2ll s = Some v -> is_long v.
Proof. intros [Hv _]%string2ll_sound. unfold is_long, LLONG_MIN, LLONG_MAX in *. lia. Qed.

Definition options_ok (o : zrange_options) : Prop := is_long (opt_offset o) /\ is_long (opt_limit o).

Lemma parse_options_ok store args o o' : parse_options store args o = Parsed o' -> options_ok o -> options_ok o'.
Proof.
  revert o. induction args as [args IH] using (induction_ltof1 _ (@length (list Z))). intros o. destruct args as [|arg rest]; cbn [parse_options].
  { by intros [= <-]. }
  assert (forall rest', (length rest' <= length rest)%nat -> forall o1, parse_options store rest' o1 = Parsed o' -> options_ok o1 -> options_ok o') as IH'.
  { intros rest' Hl. apply IH. unfold ltof. cbn. lia. }
  destruct o as [ws offset limit dir type]. intros E [Ho Hl]. cbn in Ho, Hl.
  repeat match type of E with
  | (if ?x then _ else _) = _ => destruct x
  | match ?x with [] => _ | _ :: _ => _ end = _ => destruct x as [|? ?]
  | match string2ll ?x with Some _ => _ | None => _ end = _ => destruct (string2ll x) eqn:?
  end; try done; (eapply IH'; [|exact E|split; cbn; eauto using string2ll_long]; cbn; lia).
Qed.

Lemma parse_zrange_ok `{Strtod} store type dir min max args q :
  parse_zrange store type dir min max args = Parsed q -> is_long (q_offset q) /\ is_long (q_limit q) /\ (store = true -> q_withscores q = true).
Proof.
  unfold parse_zrange. destruct (parse_options store args _) as [[ws offset limit dir' type']|] eqn:Eo; [|done].
  destruct (parse_options_ok _ _ _ _ Eo) as [Ho Hl]; [unfold options_ok, is_long; cbn; lia|]. cbn in Ho, Hl.
  intros E. repeat case_match; try done; injection E as <-; cbn; (split; [done|split; [done|]]); intros ->; by rewrite orb_true_r.
Qed.

Section Listings.
Context `{Hheap : Heap} `{Husable : Usable} `{Hdec : Decimal} `{Halloc : NodeAlloc} `{Hstr : Strtod}.
Context (dictSdsHash : list Z -> Z) (dict_can_resize : dictResizeEnable) (old_value : positive).
Context (zset_max_listpack_entries zset_max_listpack_value : Z).
Context (resp : Z).
Hypothesis Hentries : 0 <= zset_max_listpack_entries <= 2 ^ 20.
Local Abbreviation zobj_repr := (zobj_repr dictSdsHash).
Local Abbreviation crepr := (crepr dictSdsHash).

(** What a handler is given for a query: the length is announced only if it is
    known, and is then that of the answer. *)
Lemma run_query_spec {S : Type} (h : Handler S) s o M q :
  zobj_repr o M -> is_long (q_offset q) -> is_long (q_limit q) -> one_score_for (listing_of M) (q_range q) ->
  (q_withscores q = false -> no_scores (S := S)) ->
  exists val o' len, values val (listing_of M) /\ zobj_repr o' M /\ (len = -1 \/ len = Z.of_nat (length (answer_of M q))) /\
    run_query h s o q = (s ← deliver val s len (answer_of M q); Ret (s, o')).
Proof using Type.
  intros Ho Hoff Hlim Hone Hws. unfold run_query, answer_of. destruct (q_range q) as [start stop|r|r].
  - destruct (byrank_spec dictSdsHash s o M (listing_of M) start stop (q_withscores q) (q_reverse q) Ho (listing_of_spec M) Hws) as (val & o' & Hv & Ho' & E).
    exists val, o', (Z.of_nat (length (rank_answer (listing_of M) start stop (q_reverse q)))). split; [done|]. split; [done|]. split; [by right|done].
  - destruct (byscore_spec dictSdsHash s o M (listing_of M) r (q_offset q) (q_limit q) (q_reverse q) Ho (listing_of_spec M) Hoff Hlim) as (val & o' & Hv & Ho' & E).
    exists val, o', (-1). split; [done|]. split; [done|]. split; [by left|done].
  - destruct (bylex_spec dictSdsHash s o M (listing_of M) r (q_withscores q) (q_offset q) (q_limit q) (q_reverse q) Ho (listing_of_spec M) Hone Hoff Hlim Hws)
      as (val & Hv & E). exists val, o, (-1). split; [done|]. split; [done|]. split; [by left|done].
Qed.

(** ** To a client *)

Definition with_value (val : item -> float) (a : item) : list Z * float := (a.1, val a).

Lemma client_put val withscores s a :
  put_item (Hh := client_handler resp withscores) val s a
  = Ret (ReplyState (add_replies (rs_client s) (item_reply resp withscores (with_value val a))) (userdata s)).
Proof using Type.
  unfold put_item. cbn [emitResultFromCBuffer client_handler]. unfold zrangeResultEmitCBufferToClient, add_replies, addReply, item_reply, with_value.
  destruct withscores, (2 <? resp); cbn [andb db replies app]; by rewrite <- ?app_assoc.
Qed.

Lemma client_put_all val withscores l s :
  put_all (put_item (Hh := client_handler resp withscores) val) s l
  = Ret (ReplyState (add_replies (rs_client s) (concat (map (item_reply resp withscores) (map (with_value val) l)))) (userdata s)).
Proof using Type.
  revert s. induction l as [|a l IH]; intros [c u]; cbn [put_all map concat].
  - unfold add_replies. cbn [rs_client userdata]. rewrite app_nil_r. by destruct c.
  - rewrite client_put. cbn [mbind res_bind rs_client userdata]. rewrite IH. cbn [rs_client userdata]. unfold add_replies. cbn [db replies].
    by rewrite <- app_assoc.
Qed.

Lemma client_deliver val withscores c len l :
  len = -1 \/ len = Z.of_nat (length l) ->
  exists u, deliver (Hh := client_handler resp withscores) val (ReplyState c None) len l
    = Ret (ReplyState (add_replies c (listing_reply resp withscores (map (with_value val) l))) u).
Proof using Type.
  intros Hlen. unfold deliver. cbn [beginResultEmission client_handler]. unfold zrangeResultBeginClient. cbn [rs_client].
  destruct (Z.ltb_spec 0 len) as [Hl|Hl]; cbn [mbind res_bind addReplyDeferredLen]; rewrite client_put_all; cbn [mbind res_bind finalizeResultEmission client_handler];
    unfold zrangeResultFinalizeClient; cbn [userdata rs_client]; eexists; do 2 f_equal.
  - destruct Hlen as [->| ->]; [lia|]. unfold add_replies, addReply, listing_reply. rewrite length_map. cbn [db replies]. by rewrite <- app_assoc.
  - unfold setDeferredArrayLen, add_replies, addReply, listing_reply. rewrite length_map. cbn [db replies]. f_equal. rewrite <- app_assoc.
    rewrite insert_app_r_alt, Nat.sub_diag by lia. done.
Qed.

Lemma listing_reply_same val withscores l :
  values val l -> same_replies (listing_reply resp withscores (map (with_value val) l)) (listing_reply resp withscores (map out l)).
Proof using Type.
  intros Hv. unfold listing_reply. rewrite !length_map. apply cons_same. rewrite !map_map. apply concat_same.
  induction Hv as [|a l Ha%score_of_same Hv IH]; constructor; [|done]. unfold item_reply. cbn [with_value out fst snd].
  apply app_same; [done|]. apply cons_same. destruct withscores; [|done]. by apply double_same.
Qed.

Lemma answer_values val M q : values val (listing_of M) -> values val (answer_of M q).
Proof using Type.
  unfold values. rewrite !Forall_forall. intros Hv a Ha. apply Hv. by eapply elem_of_submseteq; [|apply answer_of_submseteq].
Qed.

Lemma zrange_refines N c a type dir key min max args :
  crepr N c a -> (forall q, parse_zrange false type dir min max args = Parsed q -> lex_ok a key (q_range q)) ->
  exists c', zrangeToClient resp c type dir key min max args = Ret c' /\
    crepr N c' (spec_zrange resp a (parse_zrange false type dir min max args) key).
Proof using Type.
  intros Hc Hlex. unfold zrangeToClient, spec_zrange. destruct (parse_zrange false type dir min max args) as [q|e] eqn:Eq;
    [|eexists; split; [done|by apply crepr_reply]].
  destruct (parse_zrange_ok _ _ _ _ _ _ _ Eq) as (Hoff & Hlim & _). apply query_refines; [done|]. intros o M Ha Ho Hne Hs.
  destruct (run_query_spec (client_handler resp (q_withscores q)) (ReplyState c None) o M q Ho Hoff Hlim (Hlex _ eq_refl _ Ha)) as (val & o' & len & Hv & Ho' & Hlen & ->).
  { intros Hws s e x y. rewrite Hws. reflexivity. }
  destruct (client_deliver val (q_withscores q) c len (answer_of M q) Hlen) as [u ->]. cbn [mbind res_bind rs_client]. eexists o', _.
  split; [done|]. split; [by apply listing_reply_same, answer_values|done].
Qed.

(** ** To a key *)

Local Abbreviation stores := (store_handler dictSdsHash dict_can_resize old_value zset_max_listpack_entries zset_max_listpack_value).

(** An unknown length is the largest hint: a skip list whose dictionary is not
    expanded. *)
Lemma create_unknown : exists o, zsetTypeCreate zset_max_listpack_entries zset_max_listpack_value (u64 (-1)) 0 = Ret o /\ zobj_repr o ∅.
Proof using Hentries.
  unfold zsetTypeCreate. change (u64 (-1)) with (2 ^ 64 - 1). rewrite (proj2 (Z.leb_gt (2 ^ 64 - 1) _)) by lia. cbn [andb].
  change (dictExpand (zdict createZsetObject) (2 ^ 64 - 1)) with (Ret (zdict createZsetObject, false)). cbn [mbind res_bind].
  eexists. split; [done|]. split; [apply zmap_ok_empty|]. exists []. split; [apply createZsetObject_layout|apply listing_empty].
Qed.

Lemma create_for_listing len n :
  len = -1 \/ len = Z.of_nat n -> Z.of_nat n < 2 ^ 60 ->
  exists o, zsetTypeCreate zset_max_listpack_entries zset_max_listpack_value (u64 len) 0 = Ret o /\ zobj_repr o ∅.
Proof using Hentries.
  intros [->| ->] Hn; [apply create_unknown|]. wrap_id. apply zsetTypeCreate_spec. lia.
Qed.

Definition fresh_items (M : zmap) (l : list item) : Prop :=
  NoDup l.*1 /\ Forall (fun a => element_ok a.1 /\ key_ok a.2 /\ M !! a.1 = None) l.

Lemma store_put_all val dstkey l c o M :
  zobj_repr o M -> fresh_items M l -> values val l -> Z.of_nat (size M) + Z.of_nat (length l) < 2 ^ 60 ->
  exists o', put_all (put_item (Hh := stores dstkey) val) (StoreState c (Some o)) l = Ret (StoreState c (Some o')) /\
    zobj_repr o' (list_to_map l ∪ M).
Proof using Hentries.
  revert o M. induction l as [|[e k] l IH]; intros o M Ho [Hnd Hall] Hv Hs; cbn [put_all].
  { exists o. split; [done|]. cbn. by rewrite map_empty_union. }
  rewrite fmap_cons in Hnd. apply NoDup_cons in Hnd as [He Hnd]. apply Forall_cons in Hall as [(Hok & Hk & Hno) Hall]. cbn [fst snd] in *.
  apply Forall_cons in Hv as [[Hsc Ek] Hv]. cbn [snd] in Ek.
  destruct (zsetAdd_spec dictSdsHash dict_can_resize old_value zset_max_listpack_entries zset_max_listpack_value o M (val (e, k)) e 0 ltac:(lia) Ho Hok Hsc)
    as (o1 & [[rv rf] ns] & E1 & [Er _] & Ho1); [cbn [length] in Hs; lia|].
  assert (zadd M (val (e, k)) e 0 = (<[e := k]> M, (true, ZADD_OUT_ADDED, Some (val (e, k))))) as Ez by (unfold zadd; by rewrite Hno, Ek).
  rewrite Ez in Er, Ho1. cbn [fst snd] in Er, Ho1. injection Er as -> ->.
  assert (put_item (Hh := stores dstkey) val (StoreState c (Some o)) (e, k) = Ret (StoreState c (Some o1))) as ->.
  { unfold put_item. cbn [emitResultFromCBuffer store_handler fst snd]. unfold zrangeResultEmitCBufferForStore. cbn [dstobj of_option mbind res_bind]. by rewrite E1. }
  cbn [mbind res_bind]. destruct (IH o1 (<[e := k]> M) Ho1) as (o' & -> & Ho').
  - split; [done|]. rewrite Forall_forall in Hall |- *. intros a Ha. destruct (Hall a Ha) as (? & ? & ?). split; [done|]. split; [done|].
    rewrite lookup_insert_ne; [done|]. intros ->. by apply He, list_elem_of_fmap_2.
  - done.
  - rewrite map_size_insert_None by done. cbn [length] in Hs. lia.
  - exists o'. split; [done|]. rewrite <- insert_union_r in Ho'; [|by apply not_elem_of_list_to_map_1]. cbn [list_to_map foldr fst snd]. by rewrite <- insert_union_l.
Qed.

Lemma answer_fresh M q : zmap_ok M -> fresh_items ∅ (answer_of M q).
Proof using Type.
  intros HM. split; [apply answer_of_nodup|]. rewrite Forall_forall. intros [e k] Ha%answer_of_item. cbn. split; [|split; [|apply lookup_empty]].
  - apply (zm_elements _ HM _ _ Ha).
  - apply (zm_keys _ HM _ _ Ha).
Qed.

(** The object is stored, or there is nothing to store and the key is deleted. *)
Lemma store_deliver N val dstkey c a len M q :
  crepr N c a -> zmap_ok M -> values val (listing_of M) -> Z.of_nat (size M) <= N -> len = -1 \/ len = Z.of_nat (length (answer_of M q)) ->
  exists s, deliver (Hh := stores dstkey) val (StoreState c None) len (answer_of M q) = Ret s /\
    crepr N (ss_client s) (areply (aput a dstkey (list_to_map (answer_of M q))) [ReplyLongLong (Z.of_nat (length (answer_of M q)))]).
Proof using Hentries.
  intros Hc HM Hv HN Hlen. pose proof (answer_of_length M q) as Hl. pose proof (zm_size _ HM) as Hs.
  destruct (create_for_listing len (length (answer_of M q)) Hlen) as (o & Eo & Ho); [lia|].
  destruct (store_put_all val dstkey (answer_of M q) c o ∅ Ho (answer_fresh M q HM) (answer_values _ _ _ Hv)) as (o' & Ep & Ho'); [rewrite map_size_empty; lia|].
  rewrite map_union_empty in Ho'. set (l := answer_of M q) in *. unfold deliver. cbn [beginResultEmission store_handler]. unfold zrangeResultBeginStore.
  rewrite Eo. cbn [mbind res_bind ss_client]. rewrite Ep. cbn [mbind res_bind finalizeResultEmission store_handler].
  unfold zrangeResultFinalizeStore. cbn [dstobj of_option mbind res_bind ss_client]. eexists. split; [done|]. cbn [ss_client].
  assert (size (list_to_map l : zmap) = length l) as Hsz by (apply map_size_list_to_map, answer_of_nodup).
  assert ((list_to_map l : zmap) = ∅ <-> Z.of_nat (length l) = 0) as He by (rewrite <- map_size_empty_iff, Hsz; lia).
  destruct (Z.eqb_spec (Z.of_nat (length l)) 0) as [Hz|Hz]; cbn [negb].
  - rewrite (proj2 He Hz), Hz. apply (crepr_reply dictSdsHash N (dbDelete c dstkey)). by apply crepr_delete.
  - apply crepr_reply, crepr_set; [done|done|tauto|lia].
Qed.

Lemma zrangestore_refines N c a type dir dstkey key min max args :
  crepr N c a -> (forall q, parse_zrange true type dir min max args = Parsed q -> lex_ok a key (q_range q)) ->
  exists c', zrangeToStore dictSdsHash dict_can_resize old_value zset_max_listpack_entries zset_max_listpack_value c type dir dstkey key min max args = Ret c' /\
    crepr N c' (spec_zrangestore a (parse_zrange true type dir min max args) dstkey key).
Proof using Hentries.
  intros Hc Hlex. unfold zrangeToStore, spec_zrangestore. destruct (parse_zrange true type dir min max args) as [q|e] eqn:Eq;
    [|eexists; split; [done|by apply crepr_reply]].
  destruct (parse_zrange_ok _ _ _ _ _ _ _ Eq) as (Hoff & Hlim & Hws). pose proof (lookup_repr dictSdsHash N c a key Hc) as Hl.
  destruct (lookup_zset c key) as [| |o], (adb a !! key) as [[M|]|] eqn:Ea; try done.
  - cbn [beginResultEmission store_handler]. unfold zrangeResultBeginStore. destruct create_unknown as (o & -> & Ho). cbn [mbind res_bind].
    eexists. split; [done|]. apply (crepr_reply dictSdsHash N (dbDelete c dstkey)). by apply crepr_delete.
  - eexists. split; [done|]. by apply crepr_reply.
  - destruct Hl as (Ho & Hne & HN).
    destruct (run_query_spec (stores dstkey) (StoreState c None) o M q Ho Hoff Hlim (Hlex _ eq_refl _ Ea)) as (val & o' & len & Hv & Ho' & Hlen & ->).
    { by rewrite Hws. }
    destruct (store_deliver N val dstkey c a len M q Hc (proj1 Ho) Hv HN Hlen) as (s & -> & Hc'). cbn [mbind res_bind]. eexists. split; [done|].
    case_bool_decide as E; [done|]. eapply crepr_same; [done| |done|done|done]. cbn [adb areply aput].
    case_bool_decide; [by rewrite lookup_delete_ne|by rewrite lookup_insert_ne].
Qed.
End Listings.
