(* ===== verification/ZsetCommandTheorems.v ===== *)
(** * Histories of commands on sorted sets

    A client sends any sequence of the commands of [ZsetCommand].  The server
    never aborts and always answers, the replies are those of the specification
    of [ZsetCommandSpec] up to the sign of a score that is zero, and the keyspace
    represents its maps.  So but for that sign the replies do not depend on the
    encodings of the objects, on when they are converted, on the hash function, on
    the rehashing policy or on the levels of the skip lists.  The sign does depend
    on the encoding: [zero_sign_visible]. *)
From stdpp Require Import gmap strings.
From Stdlib Require Import SpecFloat.
From S2P Require Import Prelude Mem NumStr Listpack ListpackEdit Dict Skiplist PyFloat Score Zset ZsetSpec ZsetSkip ZsetList ZsetConvert ZsetRefine ZsetTheorems.
From S2P Require Import ZsetRange ZsetRangeSpec ZsetRangeRefine ZsetRemove ZsetCommand ZsetCommandSpec ZsetCommandRefine ZsetCommandRange.

Local Open Scope Z_scope.

Inductive command : Type :=
  | Zadd (key : list Z) (args : list (list Z))
  | Zincrby (key : list Z) (args : list (list Z))
  | Zrem (key : list Z) (args : list (list Z))
  | Zremrangebyrank (key min max : list Z)
  | Zremrangebyscore (key min max : list Z)
  | Zremrangebylex (key min max : list Z)
  | Zpopmin (key : list Z) (args : list (list Z))
  | Zpopmax (key : list Z) (args : list (list Z))
  | Zmpop (args : list (list Z))
  | Zcard (key : list Z)
  | Zscore (key ele : list Z)
  | Zmscore (key : list Z) (args : list (list Z))
  | Zrank (key ele : list Z) (args : list (list Z))
  | Zrevrank (key ele : list Z) (args : list (list Z))
  | Zcount (key min max : list Z)
  | Zlexcount (key min max : list Z)
  | Zrange (key min max : list Z) (args : list (list Z))
  | Zrevrange (key min max : list Z) (args : list (list Z))
  | Zrangebyscore (key min max : list Z) (args : list (list Z))
  | Zrevrangebyscore (key min max : list Z) (args : list (list Z))
  | Zrangebylex (key min max : list Z) (args : list (list Z))
  | Zrevrangebylex (key min max : list Z) (args : list (list Z))
  | Zrangestore (dstkey key min max : list Z) (args : list (list Z)).

(** ** Execution *)

Section Exec.
Context `{Heap} `{Usable} `{Decimal} `{NodeAlloc} `{Strtod}.
Context (dictSdsHash : list Z -> Z) (dict_can_resize : dictResizeEnable) (old_value : positive).
Context (zset_max_listpack_entries zset_max_listpack_value : Z).
Context (resp : Z).

Definition exec (c : client) (cmd : command) : res client :=
  match cmd with
  | Zadd key args => zaddCommand dictSdsHash dict_can_resize old_value zset_max_listpack_entries zset_max_listpack_value c key args
  | Zincrby key args => zincrbyCommand dictSdsHash dict_can_resize old_value zset_max_listpack_entries zset_max_listpack_value c key args
  | Zrem key args => zremCommand dictSdsHash dict_can_resize c key args
  | Zremrangebyrank key min max => zremrangeGenericCommand dictSdsHash dict_can_resize c TYPE_RANK key min max
  | Zremrangebyscore key min max => zremrangeGenericCommand dictSdsHash dict_can_resize c TYPE_SCORE key min max
  | Zremrangebylex key min max => zremrangeGenericCommand dictSdsHash dict_can_resize c TYPE_LEX key min max
  | Zpopmin key args => zpopMinMaxCommand dictSdsHash dict_can_resize resp c false key args
  | Zpopmax key args => zpopMinMaxCommand dictSdsHash dict_can_resize resp c true key args
  | Zmpop args => zmpopCommand dictSdsHash dict_can_resize c (lit "zmpop" :: args)
  | Zcard key => zcardCommand c key
  | Zscore key ele => zscoreCommand dictSdsHash dict_can_resize c key ele
  | Zmscore key args => zmscoreCommand dictSdsHash dict_can_resize c key args
  | Zrank key ele args => zrankGenericCommand dictSdsHash dict_can_resize c false key ele args
  | Zrevrank key ele args => zrankGenericCommand dictSdsHash dict_can_resize c true key ele args
  | Zcount key min max => zcountCommand c key min max
  | Zlexcount key min max => zlexcountCommand c key min max
  | Zrange key min max args => zrangeCommand resp c key min max args
  | Zrevrange key min max args => zrevrangeCommand resp c key min max args
  | Zrangebyscore key min max args => zrangebyscoreCommand resp c key min max args
  | Zrevrangebyscore key min max args => zrevrangebyscoreCommand resp c key min max args
  | Zrangebylex key min max args => zrangebylexCommand resp c key min max args
  | Zrevrangebylex key min max args => zrevrangebylexCommand resp c key min max args
  | Zrangestore dstkey key min max args =>
      zrangestoreCommand dictSdsHash dict_can_resize old_value zset_max_listpack_entries zset_max_listpack_value c dstkey key min max args
  end.

Fixpoint exec_all (c : client) (cmds : list command) : res client :=
  match cmds with [] => Ret c | cmd :: cmds => c ← exec c cmd; exec_all c cmds end.
End Exec.

(** ** Specification *)

Section CommandSpec.
Context `{Strtod}.
Context (resp : Z).

Definition removed_range (type : zrange_type) (min max : list Z) : parsed zrange :=
  match parse_zremrange type min max with Ret r => r | _ => Refused ErrSyntax end.

Definition spec_listing (a : aclient) (type : zrange_type) (dir : zrange_direction) (key min max : list Z) (args : list (list Z)) : aclient :=
  spec_zrange resp a (parse_zrange false type dir min max args) key.

Definition spec (a : aclient) (cmd : command) : aclient :=
  match cmd with
  | Zadd key args => spec_zadd a 0 key args
  | Zincrby key args => spec_zadd a ZADD_IN_INCR key args
  | Zrem key args => spec_zrem a key args
  | Zremrangebyrank key min max => spec_zremrange a (removed_range TYPE_RANK min max) key
  | Zremrangebyscore key min max => spec_zremrange a (removed_range TYPE_SCORE min max) key
  | Zremrangebylex key min max => spec_zremrange a (removed_range TYPE_LEX min max) key
  | Zpopmin key args => spec_zpop resp a false key args
  | Zpopmax key args => spec_zpop resp a true key args
  | Zmpop args => spec_zmpop a (lit "zmpop" :: args)
  | Zcard key => spec_zcard a key
  | Zscore key ele => spec_zscore a key ele
  | Zmscore key args => spec_zmscore a key args
  | Zrank key ele args => spec_zrank a false key ele args
  | Zrevrank key ele args => spec_zrank a true key ele args
  | Zcount key min max => spec_count a key (ByScore <$> zslParseRange min max) ErrRangeNotFloat
  | Zlexcount key min max => spec_count a key (ByLex <$> zslParseLexRange min max) ErrRangeNotString
  | Zrange key min max args => spec_listing a TYPE_AUTO DIRECTION_AUTO key min max args
  | Zrevrange key min max args => spec_listing a TYPE_RANK DIRECTION_REVERSE key min max args
  | Zrangebyscore key min max args => spec_listing a TYPE_SCORE DIRECTION_FORWARD key min max args
  | Zrevrangebyscore key min max args => spec_listing a TYPE_SCORE DIRECTION_REVERSE key min max args
  | Zrangebylex key min max args => spec_listing a TYPE_LEX DIRECTION_FORWARD key min max args
  | Zrevrangebylex key min max args => spec_listing a TYPE_LEX DIRECTION_REVERSE key min max args
  | Zrangestore dstkey key min max args => spec_zrangestore a (parse_zrange true TYPE_AUTO DIRECTION_AUTO min max args) dstkey key
  end.

(** Ranges of strings are meant for sets whose members have one score. *)
Definition one_score_at (a : aclient) (key : list Z) : Prop :=
  forall M, adb a !! key = Some (Some M) -> one_score (listing_of M).

Definition listing_ok (a : aclient) (store : bool) (type : zrange_type) (dir : zrange_direction) (key min max : list Z) (args : list (list Z)) : Prop :=
  forall q, parse_zrange store type dir min max args = Parsed q -> match q_range q with ZRANGE_LEX _ => one_score_at a key | _ => True end.

(** Elements are strings that a listpack can hold; the server has checked that
    ZMPOP has arguments. *)
Definition cmd_ok (a : aclient) (cmd : command) : Prop :=
  match cmd with
  | Zadd _ args | Zincrby _ args => Forall element_ok args
  | Zmpop args => (1 <= length args)%nat /\ Z.of_nat (length args) < 2 ^ 32
  | Zremrangebylex key _ _ | Zlexcount key _ _ | Zrangebylex key _ _ _ | Zrevrangebylex key _ _ _ => one_score_at a key
  | Zrange key min max args => listing_ok a false TYPE_AUTO DIRECTION_AUTO key min max args
  | Zrangestore _ key min max args => listing_ok a true TYPE_AUTO DIRECTION_AUTO key min max args
  | _ => True
  end.

(** How many items the command may add. *)
Definition cmd_size (cmd : command) : Z :=
  match cmd with Zadd _ args | Zincrby _ args => Z.of_nat (length args) | _ => 0 end.

Fixpoint history_ok (a : aclient) (cmds : list command) : Prop :=
  match cmds with [] => True | cmd :: cmds => cmd_ok a cmd /\ history_ok (spec a cmd) cmds end.
Fixpoint history_size (cmds : list command) : Z :=
  match cmds with [] => 0 | cmd :: cmds => cmd_size cmd + history_size cmds end.
End CommandSpec.

(** ** One command *)

(** A command that names the kind of its ranges keeps it. *)
Lemma parse_options_type store args o o' : parse_options store args o = Parsed o' -> opt_type o <> TYPE_AUTO -> opt_type o' = opt_type o.
Proof.
  revert o. induction args as [args IH] using (induction_ltof1 _ (@length (list Z))). intros o. destruct args as [|arg rest]; cbn [parse_options].
  { by intros [= <-]. }
  assert (forall rest', (length rest' <= length rest)%nat -> forall o1, parse_options store rest' o1 = Parsed o' -> opt_type o1 = opt_type o ->
    opt_type o <> TYPE_AUTO -> opt_type o' = opt_type o) as IH'.
  { intros rest' Hl o1 E1 Et Hn. rewrite <- Et. eapply IH; [|exact E1|congruence]. unfold ltof. cbn. lia. }
  destruct o as [ws offset limit dir type]. cbn [opt_type] in *. intros E Hn. rewrite (bool_decide_eq_false_2 (type = TYPE_AUTO)) in E by done. cbn [andb] in E.
  repeat match type of E with
  | (if ?x then _ else _) = _ => destruct x
  | match ?x with [] => _ | _ :: _ => _ end = _ => destruct x as [|? ?]
  | match string2ll ?x with Some _ => _ | None => _ end = _ => destruct (string2ll x) eqn:?
  end; try done; (eapply IH'; [|exact E|done|done]; cbn; lia).
Qed.

Lemma parse_zrange_type `{Strtod} store type dir min max args q r :
  parse_zrange store type dir min max args = Parsed q -> q_range q = ZRANGE_LEX r -> type = TYPE_AUTO \/ type = TYPE_LEX.
Proof.
  unfold parse_zrange. destruct (parse_options store args _) as [[ws offset limit dir' type']|] eqn:Eo; [|done].
  pose proof (parse_options_type _ _ _ _ Eo) as Ht. cbn [opt_type] in Ht. intros E Hr. destruct (decide (type = TYPE_AUTO)) as [|Hn]; [by left|right].
  rewrite <- (Ht Hn). rewrite (Ht Hn) in E. rewrite (Ht Hn). destruct type; [done| | |done].
  all: repeat case_match; simplify_eq; done.
Qed.

Section Histories.
Context `{Hheap : Heap} `{Husable : Usable} `{Hdec : Decimal} `{Halloc : NodeAlloc} `{Hstr : Strtod}.
Context (dictSdsHash : list Z -> Z) (dict_can_resize : dictResizeEnable) (old_value : positive).
Context (zset_max_listpack_entries zset_max_listpack_value : Z).
Context (resp : Z).
Hypothesis Hentries : 0 <= zset_max_listpack_entries <= 2 ^ 20.
Local Abbreviation crepr := (crepr dictSdsHash).
Local Abbreviation exec := (exec dictSdsHash dict_can_resize old_value zset_max_listpack_entries zset_max_listpack_value resp).
Local Abbreviation exec_all := (exec_all dictSdsHash dict_can_resize old_value zset_max_listpack_entries zset_max_listpack_value resp).

Lemma fixed_listing_ok a store type dir key min max args :
  type <> TYPE_AUTO -> (type = TYPE_LEX -> one_score_at a key) ->
  forall q, parse_zrange store type dir min max args = Parsed q -> lex_ok a key (q_range q).
Proof using Type.
  intros Hn Hlex q Hq M Ha. unfold one_score_for. destruct (q_range q) as [| |r] eqn:Er; [done|done|].
  destruct (parse_zrange_type _ _ _ _ _ _ _ _ Hq Er) as [|Ht]; [done|]. by apply (Hlex Ht).
Qed.

Lemma auto_listing_ok a store key min max args :
  listing_ok a store TYPE_AUTO DIRECTION_AUTO key min max args ->
  forall q, parse_zrange store TYPE_AUTO DIRECTION_AUTO min max args = Parsed q -> lex_ok a key (q_range q).
Proof using Type.
  intros Hok q Hq M Ha. specialize (Hok q Hq). unfold one_score_for. destruct (q_range q); [done|done|]. by apply Hok.
Qed.

Lemma zremrange_type_refines N c a type key min max :
  crepr N c a -> N < 2 ^ 32 -> type <> TYPE_AUTO -> (type = TYPE_LEX -> one_score_at a key) ->
  exists c', zremrangeGenericCommand dictSdsHash dict_can_resize c type key min max = Ret c' /\ crepr N c' (spec_zremrange a (removed_range type min max) key).
Proof using Type.
  intros Hc HN Hn Hlex. apply zremrange_refines; [done|done|by destruct type|]. intros r Hr M Ha. unfold one_score_for. destruct r as [| |r]; [done|done|].
  unfold removed_range, parse_zremrange in Hr. destruct type; [done| | |by apply (Hlex eq_refl)]; cbn in Hr; repeat case_match; simplify_eq.
Qed.

#[local] Hint Resolve zrem_refines zpop_refines zcard_refines zscore_refines zmscore_refines zrank_refines zcount_refines : zset_cmd.

Lemma exec_spec N c a cmd :
  crepr N c a -> 0 <= N -> N + cmd_size cmd < 2 ^ 32 -> cmd_ok a cmd ->
  exists c', exec c cmd = Ret c' /\ crepr (N + cmd_size cmd) c' (spec resp a cmd).
Proof using Hentries.
  intros Hc H0 HN Hok. destruct cmd; cbn [ZsetCommandTheorems.exec spec cmd_size cmd_ok] in *; rewrite ?Z.add_0_r in *; try by auto with zset_cmd.
  1,2: by apply zadd_refines.
  1,2,3: apply zremrange_type_refines; try done; lia.
  { destruct Hok. by apply zmpop_refines. }
  { apply zlexcount_refines; [done|]. intros r M Ha. by apply Hok. }
  { apply zrange_refines; [done|]. by apply auto_listing_ok. }
  1,2,3,4,5: apply zrange_refines; [done|]; by apply fixed_listing_ok.
  apply zrangestore_refines; [done|done|]. by apply auto_listing_ok.
Qed.

Lemma cmd_size_nonneg cmd : 0 <= cmd_size cmd.
Proof using Type. destruct cmd; cbn; lia. Qed.
Lemma history_size_nonneg cmds : 0 <= history_size cmds.
Proof using Type. induction cmds as [|cmd cmds IH]; cbn [history_size]; [lia|]. pose proof (cmd_size_nonneg cmd). lia. Qed.

Lemma exec_all_spec N c a cmds :
  crepr N c a -> 0 <= N -> N + history_size cmds < 2 ^ 32 -> history_ok resp a cmds ->
  exists c', exec_all c cmds = Ret c' /\ crepr (N + history_size cmds) c' (fold_left (spec resp) cmds a).
Proof using Hentries.
  revert N c a. induction cmds as [|cmd cmds IH]; intros N c a Hc H0 HN Hok; cbn [ZsetCommandTheorems.exec_all history_size fold_left history_ok] in *.
  { rewrite Z.add_0_r. by exists c. }
  pose proof (cmd_size_nonneg cmd). pose proof (history_size_nonneg cmds). destruct Hok as [Hcmd Hok].
  destruct (exec_spec N c a cmd Hc H0 ltac:(lia) Hcmd) as (c1 & -> & Hc1). cbn [mbind res_bind]. rewrite Z.add_assoc. apply IH; [done|lia|lia|done].
Qed.
End Histories.

(** ** Histories *)

(** The keyspace has no sorted sets yet; [others] are the keys of other types. *)
Definition start (others : gset (list Z)) : client := Client (gset_to_gmap OBJ_OTHER others) [].
Definition astart (others : gset (list Z)) : aclient := AClient (gset_to_gmap None others) [].

Lemma start_repr `{Decimal} dictSdsHash others : crepr dictSdsHash 0 (start others) (astart others).
Proof.
  split; [done|]. intros key. cbn [db start adb astart]. rewrite !lookup_gset_to_gmap. destruct (decide (key ∈ others)) as [Hk|Hk].
  - by rewrite !option_guard_True.
  - by rewrite !option_guard_False.
Qed.

Section Claims.
Context `{Hheap : Heap} `{Husable : Usable} `{Hdec : Decimal} `{Hstr : Strtod}.

(** What a server may choose without a client seeing it: where nodes are
    allocated and with how many levels, the hash function of dictionaries, when
    they are resized, what an uninitialised value is, and the limits of listpacks. *)
Record settings : Type := Settings {
  s_alloc : NodeAlloc;
  s_hash : list Z -> Z;
  s_resize : dictResizeEnable;
  s_old : positive;
  s_entries : Z;
  s_value : Z;
}.
Definition settings_ok (s : settings) : Prop := 0 <= s_entries s <= 2 ^ 20.

Definition serve (s : settings) (resp : Z) (others : gset (list Z)) (cmds : list command) : res client :=
  exec_all (H2 := s_alloc s) (s_hash s) (s_resize s) (s_old s) (s_entries s) (s_value s) resp (start others) cmds.

Lemma serve_spec s resp others cmds :
  settings_ok s -> history_ok resp (astart others) cmds -> history_size cmds < 2 ^ 32 ->
  exists c, serve s resp others cmds = Ret c /\ crepr (s_hash s) (history_size cmds) c (fold_left (spec resp) cmds (astart others)).
Proof.
  intros Hs Hok Hn.
  exact (exec_all_spec (Halloc := s_alloc s) (s_hash s) (s_resize s) (s_old s) (s_entries s) (s_value s) resp Hs 0 (start others) (astart others) cmds
    (start_repr (s_hash s) others) ltac:(lia) ltac:(lia) Hok).
Qed.

(** C6: through any history of the commands on sorted sets, whatever the settings:
    every command returns, the replies are those of the specification on finite
    maps, except that a score that is zero may have either sign, and each key has an object that represents its map, which is not empty,
    or none. *)
Theorem zset_commands_refine s resp others cmds :
  settings_ok s -> history_ok resp (astart others) cmds -> history_size cmds < 2 ^ 32 ->
  let a := fold_left (spec resp) cmds (astart others) in
  exists c, serve s resp others cmds = Ret c /\ same_replies (replies c) (areplies a) /\
    forall key, match db c !! key with
      | None => adb a !! key = None
      | Some OBJ_OTHER => adb a !! key = Some None
      | Some (OBJ_ZSET o) => exists M, adb a !! key = Some (Some M) /\ zobj_repr (s_hash s) o M /\ M <> ∅
      end.
Proof.
  intros Hs Hok Hn a. destruct (serve_spec s resp others cmds Hs Hok Hn) as (c & E & [Hr Hdb]).
  exists c. split; [done|]. split; [done|]. intros key. specialize (Hdb key). fold a in Hdb.
  destruct (db c !! key) as [[o|]|], (adb a !! key) as [[M|]|]; try done. exists M. destruct Hdb as (? & ? & _). done.
Qed.

(** C7: two servers with different settings send the same replies to the same
    commands, except that a score that is zero may have a different sign, and have
    the same keys. *)
Theorem zset_replies_agree s s' resp others cmds :
  settings_ok s -> settings_ok s' -> history_ok resp (astart others) cmds -> history_size cmds < 2 ^ 32 ->
  exists c c', serve s resp others cmds = Ret c /\ serve s' resp others cmds = Ret c' /\
    same_replies (replies c) (replies c') /\ dom (db c) = dom (db c').
Proof.
  intros Hs Hs' Hok Hn. destruct (serve_spec s resp others cmds Hs Hok Hn) as (c & E & Hc).
  destruct (serve_spec s' resp others cmds Hs' Hok Hn) as (c' & E' & Hc'). exists c, c'. split; [done|]. split; [done|].
  split; [transitivity (areplies (fold_left (spec resp) cmds (astart others))); [apply Hc|symmetry; apply Hc']|]. apply set_eq. intros key. rewrite !elem_of_dom.
  pose proof (cr_db _ _ _ _ Hc key) as H1. pose proof (cr_db _ _ _ _ Hc' key) as H2. 
  destruct (db c !! key), (db c' !! key), (adb _ !! key); try done; by split; intros [].
Qed.
End Claims.

(** ** An example *)

(** Decimal integers. *)
Fixpoint demo_digits (s : list Z) (v : Z) (n : nat) : Z * nat :=
  match s with
  | c :: s => if (48 <=? c) && (c <=? 57) then demo_digits s (10 * v + (c - 48)) (S n) else (v, n)
  | [] => (v, n)
  end.
#[local] Instance demo_strtod : Strtod.
Proof.
  refine {| strtod_end := fun s =>
    let negative := match s with 45 :: _ :: _ => true | _ => false end in
    let '(v, n) := demo_digits (if negative then drop 1 s else s) 0 0 in
    if negative then (SFopp (f_of_Z v), S n, false) else (f_of_Z v, n, false) |}.
  intros s _. cbv zeta. destruct (demo_digits _ 0 0) as [v n]. pose proof (f_of_Z_ok v) as Hv.
  match goal with |- context [if ?b then _ else _] => destruct b end; [|exact Hv]. cbn [fst]. destruct (f_of_Z v); exact Hv.
Defined.

#[local] Existing Instance zero_heap.
#[local] Existing Instance ListpackEdit.exact_usable.
#[local] Existing Instance demo_decimal.

(** One server has listpacks, the other one only skip lists. *)
Definition small_settings : settings := Settings demo_alloc string_hash DICT_RESIZE_ENABLE 1 128 64.
Definition skip_settings : settings := Settings demo_alloc (fun _ => 0) DICT_RESIZE_AVOID 1 0 64.

Definition demo_key : list Z := [107].
Definition demo_dst : list Z := [100].
(** ZADD k 2 b 1 a 10 c; ZRANGE k 0 -1 WITHSCORES; ZRANGESTORE d k (1 2 BYSCORE;
    ZADD d 2 x; ZRANGEBYLEX d - [c; ZPOPMAX k; ZMPOP 2 q d Min;
    ZREM k a b; ZADD o 1 a; ZCARD k. *)
Definition demo_commands : list command :=
  [Zadd demo_key [[50]; [98]; [49]; [97]; [49; 48]; [99]];
   Zrange demo_key [48] [45; 49] [lit "withscores"];
   Zrangestore demo_dst demo_key [40; 49] [50] [lit "byscore"];
   Zadd demo_dst [[50]; [120]];
   Zrangebylex demo_dst [45] [91; 99] [];
   Zpopmax demo_key [];
   Zmpop [[50]; [113]; demo_dst; lit "Min"];
   Zrem demo_key [[97]; [98]];
   Zadd [111] [[49]; [97]];
   Zcard demo_key].

Definition demo_replies : list reply :=
  [ReplyLongLong 3;
   ReplyArrayLen 6; ReplyBulk [97]; ReplyDouble (f_of_Z 1); ReplyBulk [98]; ReplyDouble (f_of_Z 2); ReplyBulk [99]; ReplyDouble (f_of_Z 10);
   ReplyLongLong 1; ReplyLongLong 1; ReplyArrayLen 1; ReplyBulk [98];
   ReplyArrayLen 2; ReplyBulk [99]; ReplyDouble (f_of_Z 10);
   ReplyArrayLen 2; ReplyBulk demo_dst; ReplyArrayLen 1; ReplyArrayLen 2; ReplyBulk [98]; ReplyDouble (f_of_Z 2);
   ReplyLongLong 2; ReplyError ErrWrongType; ReplyLongLong 0].

Definition demo_a : aclient := fold_left (spec 2) (take 4 demo_commands) (astart {[ [111] ]}).
Lemma demo_one_score : one_score_at demo_a demo_dst.
Proof.
  intros M HM. assert (Some (Some M) = Some (Some ({[ [98] := score_key (f_of_Z 2); [120] := score_key (f_of_Z 2) ]} : zmap))) as [= ->]
    by (rewrite <- HM; vm_compute; reflexivity).
  intros a b. rewrite !(ls_items _ _ (listing_of_spec _)). vm_compute map_to_list. rewrite !list_elem_of_In. cbn.
  by intros [<-|[<-|[]]] [<-|[<-|[]]].
Qed.

Lemma demo_commands_ok : history_ok 2 (astart {[ [111] ]}) demo_commands.
Proof.
  cbn [history_ok demo_commands cmd_ok]. split_and!; try done; try (repeat constructor; cbn; lia); try apply demo_one_score;
    intros q; vm_compute; by intros [= <-].
Qed.

Lemma zset_commands_refine_witness : exists c, serve small_settings 2 {[ [111] ]} demo_commands = Ret c /\ same_replies (replies c) demo_replies.
Proof.
  destruct (zset_commands_refine small_settings 2 {[ [111] ]} demo_commands ltac:(split; cbn; lia) demo_commands_ok ltac:(cbn; lia)) as (c & E & Hr & _).
  exists c. split; [exact E|]. refine (eq_trans Hr _). vm_compute. reflexivity.
Defined.

Lemma zset_replies_agree_witness :
  exists c c', serve small_settings 2 {[ [111] ]} demo_commands = Ret c /\ serve skip_settings 2 {[ [111] ]} demo_commands = Ret c' /\
    same_replies (replies c) (replies c').
Proof.
  destruct (zset_replies_agree small_settings skip_settings 2 {[ [111] ]} demo_commands ltac:(split; cbn; lia) ltac:(split; cbn; lia)
    demo_commands_ok ltac:(cbn; lia)) as (c & c' & E & E' & Hr & _).
  exists c, c'. split; [exact E|]. split; [exact E'|exact Hr].
Defined.

(** The sign of zero is seen: after ZADD k -0 a, ZSCORE k a has a plus sign from a
    listpack, which stores the integer 0, and a minus sign from a skip list. *)
Definition zero_commands : list command := [Zadd demo_key [[45; 48]; [97]]; Zscore demo_key [97]].
Definition replies_of (r : res client) : option (list reply) := match r with Ret c => Some (replies c) | _ => None end.
Lemma zero_sign_visible :
  replies_of (serve small_settings 2 ∅ zero_commands) = Some [ReplyLongLong 1; ReplyDouble (S754_zero false)] /\
  replies_of (serve skip_settings 2 ∅ zero_commands) = Some [ReplyLongLong 1; ReplyDouble (S754_zero true)].
Proof. split; vm_compute; reflexivity. Qed.
