(* ===== verification/SetType.v ===== *)
(** * Sets ([redis-7.2.3/src/t_set.c])

    A set of strings has one of three encodings: an [intset] while all elements
    are integers, a listpack while the set is small, and a dictionary without
    values.  The operations work on all of them and change the encoding when an
    element does not fit it or a limit of the configuration is reached; an
    iterator enumerates the elements, as strings or as integers, as they are
    stored.

    This file has the definitions, on the models of the three containers:
    [IntSet], [Listpack] and [Dict] with its iterators [DictIter].  [SetRefine] has
    the theorems.  Strings are values; who owns an [sds] ([str_is_sds]) is not
    modelled.  A listpack that would exceed its size limit makes the operations
    abort. *)
From stdpp Require Import gmap.
From S2P Require Import Prelude Mem IntSet NumStr Dict DictIter Listpack ListpackNav.

Local Open Scope Z_scope.

(** ** Data *)

Inductive set_encoding : Type := ENC_INTSET | ENC_LISTPACK | ENC_HT.
#[export] Instance set_encoding_eq : EqDecision set_encoding.
Proof. solve_decision. Defined.

Inductive sobj : Type :=
  | OBJ_INTSET (ints : intset)
  | OBJ_LISTPACK (lp : list Z)
  | OBJ_HT (ht : dict (list Z) unit).

Definition encoding_of (o : sobj) : set_encoding :=
  match o with OBJ_INTSET _ => ENC_INTSET | OBJ_LISTPACK _ => ENC_LISTPACK | OBJ_HT _ => ENC_HT end.

(** An element as it is passed around: [str] with [len], or [llval] when [str] is
    NULL. *)
Inductive sval : Type :=
  | SStr (str : list Z)
  | SInt (llval : Z).

(** The field of the iterator that its encoding uses. *)
Inductive setTypeIterator : Type :=
  | IterIntset (ii : Z)
  | IterListpack (lpi : option Z)
  | IterHT (di : dictIterator (list Z) unit).

Section SetType.
Context `{Heap} `{Usable}.
(** The hash function of strings, the global resize policy, the checksum of the
    tables of a dictionary, and the limits of the configuration. *)
Context (dictSdsHash : list Z -> Z) (dict_can_resize : dictResizeEnable).
Context (dictFingerprint : dict (list Z) unit -> Z).
Context (set_max_intset_entries set_max_listpack_entries set_max_listpack_value : Z).

(** [setDictType]: no values, and the address of an [sds] is odd. *)
Definition sdictFind := dictFind (V := unit) dictSdsHash true true (fun _ => true) dict_can_resize.
Definition sdictAdd (d : dict (list Z) unit) (key : list Z) :=
  dictAdd dictSdsHash true true (fun _ => true) (fun _ _ _ => true) dict_can_resize tt d key tt.
Definition sdictDelete := dictDelete (V := unit) dictSdsHash true true (fun _ => true) dict_can_resize.
Definition sdictFindPositionForInsert :=
  dictFindPositionForInsert (V := unit) dictSdsHash true true (fun _ => true) (fun _ _ _ => true) dict_can_resize.
Definition sdictInsertAtPosition := dictInsertAtPosition true true (fun _ : list Z => true) tt.

Definition createSetObject : dict (list Z) unit := dictCreate.
Definition createIntsetObject : sobj := OBJ_INTSET intsetNew.
Definition createSetListpackObject : res sobj := lp ← lpNew 0; Ret (OBJ_LISTPACK lp).

(** A decimal number in a buffer of [LONG_STR_SIZE] bytes. *)
Definition sdsfromlonglong (value : Z) : res (list Z) :=
  '(buf, len) ← ll2string (realloc LONG_STR_SIZE []) 0 LONG_STR_SIZE value;
  load_bytes len 0 buf.

Definition isSdsRepresentableAsLongLong (s : list Z) : bool :=
  match string2ll s with Some _ => true | None => false end.

(** ** Iteration *)

Definition setTypeInitIterator (subject : sobj) : setTypeIterator :=
  match subject with
  | OBJ_HT _ => IterHT dictGetIterator
  | OBJ_INTSET _ => IterIntset 0
  | OBJ_LISTPACK _ => IterListpack None
  end.

Definition setTypeReleaseIterator (subject : sobj) (si : setTypeIterator) : res unit :=
  match subject, si with
  | OBJ_HT d, IterHT di => dictReleaseIterator dictFingerprint d di
  | _, _ => Ret tt
  end.

(** [None] is the return value -1. *)
Definition setTypeNext (subject : sobj) (si : setTypeIterator) : res (setTypeIterator * option (set_encoding * sval)) :=
  match subject, si with
  | OBJ_HT d, IterHT di =>
      '(di, de) ← dictNext dictFingerprint d di;
      match de with
      | None => Ret (IterHT di, None)
      | Some de => str ← of_option (dictGetKey de); Ret (IterHT di, Some (ENC_HT, SStr str))
      end
  | OBJ_INTSET ints, IterIntset ii =>
      v ← intsetGet ints (u32 ii);
      Ret (IterIntset (ii + 1), match v with Some llele => Some (ENC_INTSET, SInt llele) | None => None end)
  | OBJ_LISTPACK lp, IterListpack lpi =>
      lpi' ← match lpi with None => lpFirst lp | Some p => lpNext lp p end;
      match lpi' with
      | None => Ret (si, None)
      | Some p =>
          v ← lpGetValue lp p;
          match v with
          | Integer llele => Ret (IterListpack lpi', Some (ENC_LISTPACK, SInt llele))
          | v => str ← value_string lp v; Ret (IterListpack lpi', Some (ENC_LISTPACK, SStr str))
          end
      end
  | _, _ => Abort
  end.

Definition setTypeNextObject (subject : sobj) (si : setTypeIterator) : res (setTypeIterator * option (list Z)) :=
  '(si, v) ← setTypeNext subject si;
  match v with
  | None => Ret (si, None)
  | Some (_, SStr str) => Ret (si, Some str)
  | Some (_, SInt intele) => s ← sdsfromlonglong intele; Ret (si, Some s)
  end.

(** No more turns than the elements can be. *)
Definition iteration_fuel (o : sobj) : nat :=
  match o with
  | OBJ_INTSET ints => S (Z.to_nat (intsetLen ints))
  | OBJ_LISTPACK lp => S (length lp)
  | OBJ_HT d => S (Z.to_nat (dictSize d))
  end.

(** [while (setTypeNext(si, ...) != -1) body], where the object of the iterator is
    part of the state the body works on.  The body tells whether the loop goes
    on. *)
Section Loop.
Context {S : Type} (subject : S -> res sobj) (body : S -> set_encoding -> sval -> res (S * bool)).

Fixpoint next_while (fuel : nat) (si : setTypeIterator) (s : S) : res (S * setTypeIterator) :=
  match fuel with
  | O => Diverge
  | Datatypes.S fuel =>
      o ← subject s;
      '(si, v) ← setTypeNext o si;
      match v with
      | None => Ret (s, si)
      | Some (enc, v) =>
          '(s, continue) ← body s enc v;
          if continue : bool then next_while fuel si s else Ret (s, si)
      end
  end.

(** The iterator is initialised before the loop and released after it. *)
Definition for_each (s : S) : res S :=
  o ← subject s;
  '(s, si) ← next_while (iteration_fuel o) (setTypeInitIterator o) s;
  o ← subject s;
  _ ← setTypeReleaseIterator o si;
  Ret s.
End Loop.

(** ** Size and conversion *)

(** The count, and the object: [lpLength] may bring the header of a listpack up
    to date. *)
Definition setTypeSize (subject : sobj) : res (Z * sobj) :=
  match subject with
  | OBJ_HT d => Ret (dictSize d, subject)
  | OBJ_INTSET ints => Ret (intsetLen ints, subject)
  | OBJ_LISTPACK lp => '(n, lp) ← lpLength lp; Ret (n, OBJ_LISTPACK lp)
  end.

(** [while ((element = setTypeNextObject(si)) != NULL)] of the conversion. *)
Fixpoint to_dict_loop (fuel : nat) (setobj : sobj) (si : setTypeIterator) (d : dict (list Z) unit) : res (dict (list Z) unit * setTypeIterator) :=
  match fuel with
  | O => Diverge
  | S fuel =>
      '(si, element) ← setTypeNextObject setobj si;
      match element with
      | None => Ret (d, si)
      | Some element =>
          '(d, ok) ← sdictAdd d element;
          _ ← assert ok;
          to_dict_loop fuel setobj si d
      end
  end.

Definition append_value (lp : list Z) (enc : set_encoding) (v : sval) : res (list Z * bool) :=
  r ← match v with SStr str => lpAppend lp str | SInt llele => lpAppendInteger lp llele end;
  '(lp, _) ← of_option r;
  Ret (lp, true).

(** With [panic]; only the loading of a file passes 0. *)
Definition setTypeConvertAndExpand (setobj : sobj) (enc : set_encoding) (cap : Z) : res sobj :=
  _ ← assert (negb (bool_decide (encoding_of setobj = enc)));
  match enc with
  | ENC_HT =>
      '(d, _) ← dictExpand createSetObject cap;
      '(d, si) ← to_dict_loop (iteration_fuel setobj) setobj (setTypeInitIterator setobj) d;
      _ ← setTypeReleaseIterator setobj si;
      Ret (OBJ_HT d)
  | ENC_LISTPACK =>
      let estcap := u64 (cap * 2) in
      estcap ← match setobj with
               | OBJ_INTSET ints =>
                   if 0 <? intsetLen ints then
                     min ← intsetMin ints;
                     max ← intsetMax ints;
                     Ret (Z.max (lpEstimateBytesRepeatedInteger min cap) (lpEstimateBytesRepeatedInteger max cap))
                   else Ret estcap
               | _ => Ret estcap
               end;
      lp ← lpNew estcap;
      lp ← for_each (fun _ => Ret setobj) append_value lp;
      Ret (OBJ_LISTPACK lp)
  | ENC_INTSET => Abort
  end.

Definition setTypeConvert (setobj : sobj) (enc : set_encoding) : res sobj :=
  '(n, setobj) ← setTypeSize setobj; setTypeConvertAndExpand setobj enc n.

Definition setTypeCreate (value : list Z) (size_hint : Z) : res sobj :=
  if isSdsRepresentableAsLongLong value && (size_hint <=? set_max_intset_entries) then Ret createIntsetObject else
  if size_hint <=? set_max_listpack_entries then createSetListpackObject else
  '(d, _) ← dictExpand createSetObject size_hint;
  Ret (OBJ_HT d).

Definition setTypeMaybeConvert (set : sobj) (size_hint : Z) : res sobj :=
  if (bool_decide (encoding_of set = ENC_LISTPACK) && (set_max_listpack_entries <? size_hint))
     || (bool_decide (encoding_of set = ENC_INTSET) && (set_max_intset_entries <? size_hint))
  then setTypeConvertAndExpand set ENC_HT size_hint else Ret set.

Definition intsetMaxEntries : Z :=
  let max_entries := set_max_intset_entries in
  if Z.shiftl 1 30 <=? max_entries then Z.shiftl 1 30 else max_entries.

Definition maybeConvertIntset (subject : sobj) : res sobj :=
  match subject with
  | OBJ_INTSET ints => if intsetMaxEntries <? intsetLen ints then setTypeConvert subject ENC_HT else Ret subject
  | _ => Abort
  end.

(** The body of the loop of [maybeConvertToIntset]. *)
Definition add_integer (ints : intset) (enc : set_encoding) (v : sval) : res (intset * bool) :=
  llval ← match v with SStr str => of_option (string2ll str) | SInt llval => Ret llval end;
  '(ints, success) ← intsetAdd ints llval;
  _ ← assert success;
  Ret (ints, true).

Definition maybeConvertToIntset (set : sobj) : res sobj :=
  match set with
  | OBJ_INTSET _ => Ret set
  | _ =>
      '(n, set) ← setTypeSize set;
      if intsetMaxEntries <? n then Ret set else
      ints ← for_each (fun _ => Ret set) add_integer intsetNew;
      Ret (OBJ_INTSET ints)
  end.

(** ** Adding *)

(** [maxelelen] and [totsize]. *)
Definition intset_estimate (ints : intset) : res (Z * Z) :=
  let n := intsetLen ints in
  if negb (n =? 0) then
    max ← intsetMax ints;
    min ← intsetMin ints;
    Ret (Z.max (sdigits10 max) (sdigits10 min),
         Z.max (lpEstimateBytesRepeatedInteger max n) (lpEstimateBytesRepeatedInteger min n))
  else Ret (0, 0).

Definition setTypeAddAux (set : sobj) (v : sval) : res (sobj * bool) :=
  match set, v with
  | OBJ_INTSET ints, SInt llval =>
      '(ints, success) ← intsetAdd ints llval;
      set ← (if success : bool then maybeConvertIntset (OBJ_INTSET ints) else Ret (OBJ_INTSET ints));
      Ret (set, success)
  | _, _ =>
      str ← match v with SStr str => Ret str | SInt llval => sdsfromlonglong llval end;
      let len := Z.of_nat (length str) in
      match set with
      | OBJ_HT ht =>
          '(ht, position) ← sdictFindPositionForInsert ht str;
          match position with
          | Some (inr (t, idx)) => '(ht, _) ← sdictInsertAtPosition ht str t idx; Ret (OBJ_HT ht, true)
          | _ => Ret (OBJ_HT ht, false)
          end
      | OBJ_LISTPACK lp =>
          p ← lpFirst lp;
          p ← match p with Some p => lpFind lp p str 0 | None => Ret None end;
          match p with
          | Some _ => Ret (set, false)
          | None =>
              '(n, lp) ← lpLength lp;
              safe ← lpSafeToAdd (Some lp) len;
              if (n <? set_max_listpack_entries) && (len <=? set_max_listpack_value) && safe then
                r ← match v with SInt llval => lpAppendInteger lp llval | SStr str => lpAppend lp str end;
                '(lp, _) ← of_option r;
                Ret (OBJ_LISTPACK lp, true)
              else
                '(n, lp) ← lpLength lp;
                set ← setTypeConvertAndExpand (OBJ_LISTPACK lp) ENC_HT (n + 1);
                match set with
                | OBJ_HT ht => '(ht, ok) ← sdictAdd ht str; _ ← assert ok; Ret (OBJ_HT ht, true)
                | _ => Abort
                end
          end
      | OBJ_INTSET ints =>
          match string2ll str with
          | Some value =>
              '(ints, success) ← intsetAdd ints value;
              if success : bool then set ← maybeConvertIntset (OBJ_INTSET ints); Ret (set, true)
              else Ret (OBJ_INTSET ints, false)
          | None =>
              '(maxelelen, totsize) ← intset_estimate ints;
              safe ← lpSafeToAdd None (totsize + len);
              if (intsetLen ints <? set_max_listpack_entries) && (len <=? set_max_listpack_value)
                 && (maxelelen <=? set_max_listpack_value) && safe then
                set ← setTypeConvertAndExpand set ENC_LISTPACK (intsetLen ints + 1);
                match set with
                | OBJ_LISTPACK lp =>
                    r ← lpAppend lp str; '(lp, _) ← of_option r;
                    lp ← lpShrinkToFit lp;
                    Ret (OBJ_LISTPACK lp, true)
                | _ => Abort
                end
              else
                set ← setTypeConvertAndExpand set ENC_HT (intsetLen ints + 1);
                match set with
                | OBJ_HT ht => '(ht, ok) ← sdictAdd ht str; _ ← assert ok; Ret (OBJ_HT ht, true)
                | _ => Abort
                end
          end
      end
  end.

Definition setTypeAdd (subject : sobj) (value : list Z) : res (sobj * bool) := setTypeAddAux subject (SStr value).

(** ** Removing *)

Definition setTypeRemoveAux (setobj : sobj) (v : sval) : res (sobj * bool) :=
  match setobj, v with
  | OBJ_INTSET ints, SInt llval =>
      '(ints, success) ← intsetRemove ints llval; Ret (OBJ_INTSET ints, success)
  | _, _ =>
      str ← match v with SStr str => Ret str | SInt llval => sdsfromlonglong llval end;
      match setobj with
      | OBJ_HT ht =>
          '(ht, deleted) ← sdictDelete ht str;
          '(ht, _) ← (if deleted && htNeedsResize ht then dictResize dict_can_resize ht else Ret (ht, false));
          Ret (OBJ_HT ht, deleted)
      | OBJ_LISTPACK lp =>
          p ← lpFirst lp;
          match p with
          | None => Ret (setobj, false)
          | Some p =>
              p ← lpFind lp p str 0;
              match p with
              | Some p => r ← lpDelete lp p; '(lp, _) ← of_option r; Ret (OBJ_LISTPACK lp, true)
              | None => Ret (setobj, false)
              end
          end
      | OBJ_INTSET ints =>
          match string2ll str with
          | Some llval => '(ints, success) ← intsetRemove ints llval; Ret (OBJ_INTSET ints, success)
          | None => Ret (setobj, false)
          end
      end
  end.

Definition setTypeRemove (setobj : sobj) (value : list Z) : res (sobj * bool) := setTypeRemoveAux setobj (SStr value).

(** ** Membership *)

(** A dictionary that is being rehashed does a step of it. *)
Definition setTypeIsMemberAux (set : sobj) (v : sval) : res (sobj * bool) :=
  match set, v with
  | OBJ_INTSET ints, SInt llval => b ← intsetFind ints llval; Ret (set, b)
  | _, _ =>
      str ← match v with SStr str => Ret str | SInt llval => sdsfromlonglong llval end;
      match set with
      | OBJ_LISTPACK lp =>
          p ← lpFirst lp;
          match p with
          | None => Ret (set, false)
          | Some p => p ← lpFind lp p str 0; Ret (set, match p with Some _ => true | None => false end)
          end
      | OBJ_INTSET ints =>
          match string2ll str with
          | Some llval => b ← intsetFind ints llval; Ret (set, b)
          | None => Ret (set, false)
          end
      | OBJ_HT ht =>
          '(ht, de) ← sdictFind ht str;
          Ret (OBJ_HT ht, match de with Some _ => true | None => false end)
      end
  end.

Definition setTypeIsMember (subject : sobj) (value : list Z) : res (sobj * bool) := setTypeIsMemberAux subject (SStr value).

(** ** Copies *)

Definition setTypeDup (o : sobj) : res sobj :=
  match o with
  | OBJ_INTSET ints =>
      let size := intsetBlobLen ints in
      contents ← load_bytes (size - sizeof_intset) 0 (IntSet.contents ints);
      Ret (OBJ_INTSET (set_contents ints contents))
  | OBJ_LISTPACK lp =>
      sz ← lpBytes lp;
      new_lp ← load_bytes sz 0 lp;
      Ret (OBJ_LISTPACK new_lp)
  | OBJ_HT d =>
      '(new, _) ← dictExpand createSetObject (dictSize d);
      for_each (fun _ => Ret o)
        (fun set _ v => match v with SStr str => '(set, _) ← setTypeAdd set str; Ret (set, true) | SInt _ => Abort end)
        (OBJ_HT new)
  end.
End SetType.
