(* ===== verification/SetRefine.v ===== *)
(** * The operations on sets are those of finite sets

    Whatever its encoding, an object represents a finite set of strings, and
    within the limits of the configuration: an [intset] has no more than
    [intsetMaxEntries] elements, a listpack no more than
    [set_max_listpack_entries], none longer than [set_max_listpack_value].  An
    iterator enumerates the set without repetition; every operation has the
    effect of its specification, keeps the limits, and none of the assertions
    of the code fails. *)
From stdpp Require Import gmap.
From S2P Require Import Prelude Mem IntSet NumStr Dict DictIter Listpack ListpackEnc ListpackNav ListpackEdit ListpackApi SetType.

Local Open Scope Z_scope.

Abbreviation strset := (gset (list Z)).

(** ** Values *)

Definition val_string (v : sval) : list Z := match v with SStr s => s | SInt i => dec i end.

Abbreviation int64 v := (LLONG_MIN <= v <= LLONG_MAX).

(** What an iterator over an object of this encoding returns: an element of a
    listpack is returned as a string only when it is not an integer. *)
Definition val_ok (enc : set_encoding) (v : sval) : Prop :=
  match enc, v with
  | ENC_HT, SStr _ => True
  | ENC_LISTPACK, SStr s => string2ll s = None
  | (ENC_LISTPACK | ENC_INTSET), SInt i => int64 i
  | _, _ => False
  end.

Definition elem_val (e : elem) : sval := match e with EInt v => SInt v | EStr s => SStr s end.

Lemma elem_val_string s : val_string (elem_val (elem_of_string s)) = s.
Proof. rewrite <- (elem_string_of_string s) at 2. by destruct (elem_of_string s). Qed.

Lemma elem_val_ok s : val_ok ENC_LISTPACK (elem_val (elem_of_string s)).
Proof.
  unfold elem_of_string. rewrite lpStringToInt64_string2ll. destruct (string2ll s) as [v|] eqn:E; cbn; [|done]. by apply string2ll_sound in E as [? _].
Qed.

Lemma dec_inj v w : int64 v -> dec v = dec w -> int64 w -> v = w.
Proof. intros Hv E Hw. apply (inj Some). rewrite <- (string2ll_complete v), <- (string2ll_complete w) by done. by rewrite E. Qed.

Lemma elem_of_dec v : int64 v -> elem_of_string (dec v) = EInt v.
Proof. intros Hv. unfold elem_of_string. by rewrite lpStringToInt64_string2ll, string2ll_complete. Qed.

Lemma dec_ok v : int64 v -> string_ok (dec v).
Proof. intros Hv. split; [apply dec_bytes|]. pose proof (length_dec v Hv). lia. Qed.

Lemma sdsfromlonglong_spec `{Heap} v : int64 v -> sdsfromlonglong v = Ret (dec v).
Proof.
  intros Hv. unfold sdsfromlonglong. destruct (ll2string_buffer LONG_STR_SIZE v Hv ltac:(done)) as (rest & ->). cbn [mbind res_bind].
  rewrite (load_bytes_Ret (length (dec v)) 0) by (rewrite length_app; lia). unfold sub. by rewrite drop_0, take_app_length.
Qed.

(** The string an operation works on. *)
Lemma value_str `{Heap} v : match v with SInt i => int64 i | SStr _ => True end ->
  match v with SStr str => Ret str | SInt llval => sdsfromlonglong llval end = Ret (val_string v).
Proof. destruct v as [s|i]; [done|]. apply sdsfromlonglong_spec. Qed.

(** ** Representation *)

Section SetRefine.
Context `{Heap} `{Usable}.
Context (dictSdsHash : list Z -> Z) (dict_can_resize : dictResizeEnable).
Context (dictFingerprint : dict (list Z) unit -> Z).
Context (set_max_intset_entries set_max_listpack_entries set_max_listpack_value : Z).
Local Abbreviation max_entries := (intsetMaxEntries set_max_intset_entries).
Local Abbreviation dict_ok := (dict_wf (V := unit) dictSdsHash true).
Local Abbreviation dict_is := (dict_repr (V := unit) dictSdsHash true).
Local Abbreviation next := (setTypeNext dictFingerprint).
Local Abbreviation release := (setTypeReleaseIterator dictFingerprint).
Implicit Types (X : strset) (o : sobj).

(** The elements an iterator returns, in its order. *)
Definition listed (o : sobj) (vs : list sval) : Prop :=
  match o with
  | OBJ_INTSET ints => exists w xs, rep w ints xs /\ vs = map SInt xs
  | OBJ_LISTPACK lp => exists ss, lp_repr lp (elems_of ss) /\ vs = map elem_val (elems_of ss)
  | OBJ_HT d => dict_ok d /\ vs = map (fun e => SStr e.1) (Dict.contents d)
  end.

(** The limits of the encodings. *)
Definition within_limits (o : sobj) (vs : list sval) : Prop :=
  match o with
  | OBJ_INTSET _ => Z.of_nat (length vs) <= max_entries
  | OBJ_LISTPACK _ => Z.of_nat (length vs) <= set_max_listpack_entries /\
      Forall (fun v => Z.of_nat (length (val_string v)) <= set_max_listpack_value) vs
  | OBJ_HT _ => True
  end.

Record set_listing (o : sobj) (X : strset) (vs : list sval) : Prop := {
  sl_listed : listed o vs;
  sl_distinct : NoDup (map val_string vs);
  sl_set : X = list_to_set (map val_string vs);
  sl_ok : Forall string_ok (map val_string vs);
}.

Definition set_repr (o : sobj) (X : strset) : Prop := exists vs, set_listing o X vs /\ within_limits o vs.

Lemma set_listing_size o X vs : set_listing o X vs -> size X = length vs.
Proof using Type. intros [_ Hnd -> _]. by rewrite size_list_to_set, length_map. Qed.

Lemma listing_elem o X vs v : set_listing o X vs -> v ∈ vs -> val_string v ∈ X.
Proof using Type. intros [_ _ -> _] Hv. apply elem_of_list_to_set. by apply list_elem_of_fmap_2. Qed.

Lemma repr_ok_elem o X s : set_repr o X -> s ∈ X -> string_ok s.
Proof using Type. intros (vs & [_ _ -> Hok] & _) Hs. rewrite elem_of_list_to_set in Hs. by eapply Forall_forall. Qed.

(** *** Intsets *)

Lemma rep_int64 w ints xs : rep w ints xs -> Forall (fun v => int64 v) xs.
Proof using Type.
  intros R. eapply Forall_impl; [apply (rep_fits _ _ _ R)|]. intros v Hv. pose proof (fits_64 w v (rep_width_ok _ _ _ R) Hv). unfold LLONG_MIN, LLONG_MAX. lia.
Qed.

Lemma map_dec_NoDup xs : Forall (fun v => int64 v) xs -> NoDup xs -> NoDup (map dec xs).
Proof using Type.
  intros Hr Hnd. rewrite Forall_forall in Hr. apply NoDup_fmap_2_strong; [|done]. intros v w Hv Hw E. by apply dec_inj; [apply Hr| |apply Hr].
Qed.

Lemma intset_listing w ints xs : rep w ints xs -> set_listing (OBJ_INTSET ints) (list_to_set (map dec xs)) (map SInt xs).
Proof using Type.
  intros R. pose proof (rep_int64 _ _ _ R) as Hr. assert (map val_string (map SInt xs) = map dec xs) as E by (by rewrite map_map).
  split; [by exists w, xs|rewrite E; apply map_dec_NoDup; [done|by eapply rep_NoDup]|by rewrite E|].
  rewrite E. apply Forall_map. eapply Forall_impl; [exact Hr|]. apply dec_ok.
Qed.

(** The set of integers behind an intset. *)
Definition int_repr (ints : intset) (X : strset) (Y : gset Z) : Prop :=
  intset_repr ints Y /\ (forall s, s ∈ X <-> exists v, v ∈ Y /\ s = dec v) /\ size X = size Y /\ forall v, v ∈ Y -> int64 v.

Lemma intset_ints ints X vs : set_listing (OBJ_INTSET ints) X vs -> exists Y, int_repr ints X Y.
Proof using Type.
  intros Hl. pose proof (set_listing_size _ _ _ Hl) as Hs. destruct Hl as [(w & xs & R & ->) Hnd -> Hok]. exists (list_to_set xs).
  split_and!; [by exists w, xs| |by rewrite Hs, (rep_size_set _ _ _ R), length_map|].
  - intros s. rewrite elem_of_list_to_set, map_map. cbn [val_string]. rewrite list_elem_of_fmap. setoid_rewrite elem_of_list_to_set. naive_solver.
  - intros v Hv%elem_of_list_to_set. pose proof (rep_int64 _ _ _ R) as Hr. rewrite Forall_forall in Hr. by apply Hr.
Qed.

Lemma ints_intset ints X Y : intset_repr ints Y -> (forall s, s ∈ X <-> exists v, v ∈ Y /\ s = dec v) -> exists vs, set_listing (OBJ_INTSET ints) X vs.
Proof using Type.
  intros (w & xs & R & ->) HX. exists (map SInt xs). replace X with (list_to_set (map dec xs) : strset); [by eapply intset_listing|].
  apply set_eq. intros s. rewrite HX, elem_of_list_to_set, list_elem_of_fmap. setoid_rewrite elem_of_list_to_set. naive_solver.
Qed.

(** *** Listpacks *)

Lemma vals_strings ss : map val_string (map elem_val (elems_of ss)) = ss.
Proof using Type. unfold elems_of. rewrite !map_map. setoid_rewrite elem_val_string. apply map_id. Qed.

Lemma pack_listing lp ss : lp_repr lp (elems_of ss) -> NoDup ss -> Forall string_ok ss ->
  set_listing (OBJ_LISTPACK lp) (list_to_set ss) (map elem_val (elems_of ss)).
Proof using Type. intros Hr Hnd Hok. split; [by exists ss|by rewrite vals_strings..]. Qed.

Lemma pack_repr lp X : set_repr (OBJ_LISTPACK lp) X <->
  exists ss, lp_repr lp (elems_of ss) /\ NoDup ss /\ X = list_to_set ss /\ Forall string_ok ss /\
    Z.of_nat (length ss) <= set_max_listpack_entries /\ Forall (fun s => Z.of_nat (length s) <= set_max_listpack_value) ss.
Proof using Type.
  split.
  - intros (vs & [(ss & Hr & ->) Hnd -> Hok] & Hn & Hl). exists ss. rewrite vals_strings in *. unfold elems_of in Hn. rewrite !length_map in Hn.
    split_and!; [done..|]. by rewrite <- (vals_strings ss), Forall_map.
  - intros (ss & Hr & Hnd & -> & Hok & Hn & Hl). exists (map elem_val (elems_of ss)). split; [by apply pack_listing|]. split.
    + unfold elems_of. by rewrite !length_map.
    + by rewrite <- (vals_strings ss), Forall_map in Hl.
Qed.

(** *** Dictionaries *)

Lemma contents_keys d M : dict_is d M -> (Dict.contents d).*1 ≡ₚ (map_to_list M).*1.
Proof using Type. intros [_ Hp]. by rewrite Hp. Qed.

Lemma dict_listing d M : dict_is d M -> set_Forall string_ok (dom M) -> set_repr (OBJ_HT d) (dom M).
Proof using Type.
  intros Hr Hok. exists (map (fun e => SStr e.1) (Dict.contents d)). split; [|done].
  assert (map val_string (map (fun e => SStr e.1) (Dict.contents d)) = (Dict.contents d).*1) as E by (by rewrite map_map).
  pose proof (contents_keys _ _ Hr) as Hk. split; rewrite ?E.
  - by split; [destruct Hr|].
  - rewrite Hk. apply NoDup_fst_map_to_list.
  - apply set_eq. intros s. rewrite elem_of_list_to_set, Hk, elem_of_dom. rewrite list_elem_of_fmap. split.
    + intros [x Hx]. exists (s, x). by rewrite elem_of_map_to_list.
    + intros ([s' x] & -> & Hx). exists x. by apply elem_of_map_to_list.
  - rewrite Hk. apply Forall_forall. intros s Hs. apply Hok. rewrite list_elem_of_fmap in Hs. destruct Hs as ([s' x] & -> & Hx).
    apply elem_of_map_to_list in Hx. by eapply elem_of_dom_2.
Qed.

Lemma dict_map d X : set_repr (OBJ_HT d) X -> exists M, dict_is d M /\ X = dom M.
Proof using Type.
  intros (vs & [[Hwf ->] Hnd -> _] & _). rewrite map_map in *. cbn [val_string] in *. exists (list_to_map (Dict.contents d)).
  split; [split; [done|by rewrite map_to_list_to_map]|]. rewrite dom_list_to_map_L. done.
Qed.

Lemma dict_set_repr d X : set_repr (OBJ_HT d) X <-> set_Forall string_ok X /\ exists M, dict_is d M /\ X = dom M.
Proof using Type.
  split; [|by intros (Hok & M & Hr & ->); apply dict_listing]. intros Hr. split; [intros s; by eapply repr_ok_elem|by apply dict_map].
Qed.

(** ** Iteration *)

(** The iterator is about to return [vs]. *)
Definition iter_at (o : sobj) (si : setTypeIterator) (vs : list sval) : Prop :=
  match o, si with
  | OBJ_INTSET ints, IterIntset ii =>
      exists w xs (i : nat), rep w ints xs /\ ii = Z.of_nat i /\ (i <= length xs)%nat /\ vs = map SInt (drop i xs)
  | OBJ_LISTPACK lp, IterListpack lpi =>
      exists es i, lp_repr lp es /\ vs = map elem_val (drop i es) /\
        match i with O => lpi = None | S i => lpi = Some (off es i) /\ (i < length es)%nat end
  | OBJ_HT d, IterHT di => dict_ok d /\ iter_ok dictFingerprint d di /\ vs = map (fun e => SStr e.1) (rest d di)
  | _, _ => False
  end.

Lemma iter_start o vs : listed o vs -> iter_at o (setTypeInitIterator o) vs.
Proof using Type.
  destruct o as [ints|lp|d]; cbn [listed iter_at setTypeInitIterator].
  - intros (w & xs & R & ->). exists w, xs, 0%nat. by split_and!; [done|done|lia|].
  - intros (ss & Hr & ->). by exists (elems_of ss), 0%nat.
  - intros (Hwf & ->). destruct (iterator_start dictFingerprint d) as [Hok Hrest]. split_and!; [done|done|by rewrite Hrest].
Qed.

Lemma iter_release o si vs : iter_at o si vs -> release o si = Ret tt.
Proof using Type. destruct o, si; cbn; try done. intros (_ & Hok & _). by apply release_ok. Qed.

Lemma lp_value lp es num slack i e : lp_layout lp es num slack -> es !! i = Some e -> lpGetValue lp (off es i) = Ret (value_at (off es i) e).
Proof using Type.
  intros Hm He. unfold lpGetValue, lpGet. rewrite (repr_get _ _ _ _ Hm _ _ He). cbn [mbind res_bind].
  destruct e as [v|s]; [done|]. cbn [value_at]. pose proof (repr_ok _ _ _ _ Hm _ _ He) as [_ Hok]. by rewrite uwrap_id by lia.
Qed.

(** One call returns the first of the remaining elements. *)
Lemma next_spec o si vs : iter_at o si vs ->
  match vs with
  | [] => exists si', next o si = Ret (si', None) /\ release o si' = Ret tt
  | v :: vs => exists si', next o si = Ret (si', Some (encoding_of o, v)) /\ iter_at o si' vs
  end.
Proof using Type.
  destruct o as [ints|lp|d], si as [ii|lpi|di]; try done; cbn [iter_at setTypeNext encoding_of].
  - intros (w & xs & i & R & -> & Hi & ->). pose proof (rep_small _ _ _ R). rewrite uwrap_id by lia. rewrite (intsetGet_pos w ints xs i R). cbn [mbind res_bind].
    destruct (xs !! i) as [x|] eqn:Ex.
    + rewrite (drop_S _ _ _ Ex). cbn [map]. eexists. split; [done|]. exists w, xs, (S i). apply lookup_lt_Some in Ex. by split_and!; [done|lia|lia|].
    + apply lookup_ge_None in Ex. rewrite drop_ge by done. cbn [map]. by eexists.
  - intros (es & i & (num & slack & Hm) & -> & Hi).
    assert ((match lpi with None => lpFirst lp | Some p => lpNext lp p end) = Ret (ptr es i)) as ->.
    { destruct i as [|i]; [subst lpi; by apply (lpFirst_spec _ _ _ _ Hm)|]. destruct Hi as [-> Hi]. destruct (lookup_lt_is_Some_2 _ _ Hi) as [e He].
      by apply (lpNext_spec _ _ _ _ Hm _ e). }
    cbn [mbind res_bind]. destruct (es !! i) as [e|] eqn:Ee.
    + rewrite (ptr_lookup _ _ _ Ee), (drop_S _ _ _ Ee), (lp_value _ _ _ _ _ _ Hm Ee). cbn [map mbind res_bind]. apply lookup_lt_Some in Ee as Hlt.
      assert (forall p, p = off es i -> iter_at (OBJ_LISTPACK lp) (IterListpack (Some p)) (map elem_val (drop (S i) es))) as Hat.
      { intros p ->. exists es, (S i). split_and!; [by exists num, slack|done|done|done]. }
      destruct e as [v|s]; cbn [value_at elem_val]; [eexists; split; [done|by apply Hat]|].
      pose proof (value_at_string _ _ _ _ _ _ Hm Ee) as Hv. cbn [value_at elem_string] in Hv. rewrite Hv. cbn [mbind res_bind]. eexists. split; [done|by apply Hat].
    + apply lookup_ge_None in Ee. rewrite ptr_None, drop_ge by done. by eexists.
  - intros (Hwf & Hok & ->). pose proof (dictNext_spec dictSdsHash true dictFingerprint d di Hwf Hok) as Hn. destruct (rest d di) as [|e l]; cbn [next_returns map] in *.
    + destruct Hn as (di' & -> & Hok' & _). cbn [mbind res_bind]. eexists. split; [done|]. cbn. by apply release_ok.
    + destruct Hn as (di' & de & -> & Hk & Hok' & Hr). cbn [mbind res_bind]. rewrite Hk. cbn [of_option mbind res_bind]. eexists. split; [done|]. by rewrite <- Hr.
Qed.

Lemma listing_fuel o vs : listed o vs -> (length vs < iteration_fuel o)%nat.
Proof using Type.
  destruct o as [ints|lp|d]; cbn [listed iteration_fuel].
  - intros (w & xs & R & ->). unfold intsetLen. rewrite (rep_len _ _ _ R), length_map. lia.
  - intros (ss & (num & slack & Hm) & ->). pose proof (repr_length _ _ _ _ Hm). rewrite length_map. lia.
  - intros (Hwf & ->). rewrite (dictSize_contents dictSdsHash true d Hwf), length_map. lia.
Qed.

(** The loop over an object that its body leaves as it is: [I] is what holds
    after some of the elements, [Q] what holds when the body ends it. *)
Section Loop.
Context {S : Type} (subject : S -> res sobj) (body : S -> set_encoding -> sval -> res (S * bool)).
Context (o : sobj) (vs : list sval) (I : list sval -> S -> Prop) (Q : S -> Prop).
Hypothesis I_subject : forall l s, I l s -> subject s = Ret o.
Hypothesis Q_subject : forall s, Q s -> subject s = Ret o.
Hypothesis step : forall l v r s, vs = l ++ v :: r -> I l s ->
  exists s' b, body s (encoding_of o) v = Ret (s', b) /\ if b : bool then I (l ++ [v]) s' else Q s'.

Lemma next_while_spec fuel l r si s : vs = l ++ r -> iter_at o si r -> I l s -> (length r < fuel)%nat ->
  exists s' si', next_while dictFingerprint subject body fuel si s = Ret (s', si') /\ (I vs s' \/ Q s') /\ release o si' = Ret tt.
Proof using I_subject Q_subject step.
  revert l r si s. induction fuel as [|fuel IH]; intros l r si s Hvs Hat HI Hf; [lia|]. cbn [next_while].
  rewrite (I_subject _ _ HI). cbn [mbind res_bind]. pose proof (next_spec _ _ _ Hat) as Hn. destruct r as [|v r].
  - destruct Hn as (si' & -> & Hrel). cbn [mbind res_bind]. rewrite app_nil_r in Hvs. subst. eexists _, _. split; [done|]. auto.
  - destruct Hn as (si' & -> & Hat'). cbn [mbind res_bind]. destruct (step _ _ _ _ Hvs HI) as (s' & b & -> & Hs'). cbn [mbind res_bind]. destruct b.
    + apply (IH (l ++ [v]) r); [by rewrite <- app_assoc|done|done|cbn in Hf; lia].
    + eexists _, _. split; [done|]. split; [by right|]. by eapply iter_release.
Qed.

Lemma for_each_spec s : listed o vs -> I [] s -> exists s', for_each dictFingerprint subject body s = Ret s' /\ (I vs s' \/ Q s').
Proof using I_subject Q_subject step.
  intros Hl HI. unfold for_each. rewrite (I_subject _ _ HI). cbn [mbind res_bind].
  destruct (next_while_spec (iteration_fuel o) [] vs (setTypeInitIterator o) s) as (s' & si & -> & Hs & Hrel); [done|by apply iter_start|done|by apply listing_fuel|].
  cbn [mbind res_bind]. assert (subject s' = Ret o) as -> by (destruct Hs; eauto). cbn [mbind res_bind]. rewrite Hrel. eexists. by split.
Qed.
End Loop.

(** What is known of the elements. *)
Lemma listing_val_ok o X vs v : set_listing o X vs -> v ∈ vs -> val_ok (encoding_of o) v.
Proof using Type.
  intros [Hl _ _ _] Hv. destruct o as [ints|lp|d]; cbn in *.
  - destruct Hl as (w & xs & R & ->). rewrite list_elem_of_fmap in Hv. destruct Hv as (x & -> & Hx). pose proof (rep_int64 _ _ _ R) as Hr.
    rewrite Forall_forall in Hr. by apply Hr.
  - destruct Hl as (ss & Hr & ->). rewrite list_elem_of_fmap in Hv. destruct Hv as (e & -> & He). unfold elems_of in He. rewrite list_elem_of_fmap in He.
    destruct He as (s & -> & _). apply elem_val_ok.
  - destruct Hl as (_ & ->). rewrite list_elem_of_fmap in Hv. by destruct Hv as (e & -> & _).
Qed.

Lemma val_ok_int enc v : val_ok enc v -> match v with SInt i => int64 i | SStr _ => True end.
Proof using Type. by destruct enc, v. Qed.
End SetRefine.
