(* ===== verification/SetOps.v ===== *)
(** * The operations on set objects

    Conversion between the encodings, insertion, deletion, membership and
    size, for every encoding: each returns, has the effect of its specification
    on the set that is represented, and keeps the limits of [SetRefine].  The
    estimates by which an intset is turned into a listpack are upper bounds. *)
From stdpp Require Import gmap.
From S2P Require Import Prelude Mem IntSet NumStr Dict DictIter Listpack ListpackEnc ListpackNav ListpackEdit ListpackApi SetType SetRefine.

Local Open Scope Z_scope.

(** ** Sizes of integers *)

Lemma udec_digits v : 0 <= v < 10 ^ 20 ->
  exists k, (k < 20)%nat /\ length (udec v) = S k /\ v < 10 ^ Z.of_nat (S k) /\ (k = 0%nat \/ 10 ^ Z.of_nat k <= v).
Proof.
  intros Hv. assert (forall n, (n <= 20)%nat -> v < 10 ^ Z.of_nat n -> n <> 0%nat ->
    exists k, (k < 20)%nat /\ v < 10 ^ Z.of_nat (S k) /\ (k = 0%nat \/ 10 ^ Z.of_nat k <= v)) as Hex.
  { induction n as [|n IH]; intros Hn Hlt H0; [done|]. destruct (decide (n = 0%nat)) as [->|Hne]; [exists 0%nat; auto with lia|].
    destruct (Z_lt_ge_dec v (10 ^ Z.of_nat n)) as [Hl|Hg]; [apply IH; [lia|done|done]|]. exists n. split; [lia|]. split; [done|]. right. lia. }
  destruct (Hex 20%nat) as (k & Hk & Hlt & Hge); [lia|apply Hv|done|]. exists k. split_and!; [done| |done|done].
  apply length_udec; [done|lia|done].
Qed.

Lemma length_udec_mono v w : 0 <= v <= w -> w < 10 ^ 20 -> (length (udec v) <= length (udec w))%nat.
Proof.
  intros Hv Hw. destruct (udec_digits v) as (k & _ & -> & _ & Hk); [lia|]. destruct (udec_digits w) as (j & _ & -> & Hj & _); [lia|].
  destruct (decide (k <= j)%nat); [lia|]. exfalso. destruct Hk as [->|Hk]; [lia|].
  pose proof (Z.pow_le_mono_r 10 (Z.of_nat (S j)) (Z.of_nat k) ltac:(lia) ltac:(lia)). lia.
Qed.

(** The text of an integer between two others is no longer than theirs. *)
Lemma length_dec_between lo v hi : int64 lo -> int64 hi -> lo <= v <= hi ->
  (length (dec v) <= Nat.max (length (dec lo)) (length (dec hi)))%nat.
Proof.
  unfold LLONG_MIN, LLONG_MAX. intros Hlo Hhi Hv. unfold dec at 1. destruct (Z.ltb_spec v 0) as [Hn|Hn].
  - unfold dec at 1. rewrite (proj2 (Z.ltb_lt lo 0)) by lia. cbn [length]. pose proof (length_udec_mono (- v) (- lo) ltac:(lia) ltac:(lia)). lia.
  - unfold dec at 2. rewrite (proj2 (Z.ltb_ge hi 0)) by lia. pose proof (length_udec_mono v hi ltac:(lia) ltac:(lia)). lia.
Qed.

(** The size of the entry of an integer. *)
Definition int_cost (v : Z) : Z :=
  if (0 <=? v) && (v <=? 127) then 2 else if (-4096 <=? v) && (v <=? 4095) then 3
  else if (-32768 <=? v) && (v <=? 32767) then 4 else if (-8388608 <=? v) && (v <=? 8388607) then 5
  else if (-2147483648 <=? v) && (v <=? 2147483647) then 6 else 10.

Lemma entry_size_int v : entry_size (EInt v) = int_cost v /\
  Z.of_nat (length (lpEncodeIntegerGetType v)) + lpBacklenSize (Z.of_nat (length (lpEncodeIntegerGetType v))) = int_cost v.
Proof.
  assert (entry_size (EInt v) = Z.of_nat (length (lpEncodeIntegerGetType v)) + lpBacklenSize (Z.of_nat (length (lpEncodeIntegerGetType v)))) as -> by (by rewrite entry_size_eq).
  split; unfold int_cost, lpEncodeIntegerGetType; repeat case_match; reflexivity || lia.
Qed.

Lemma int_cost_between lo v hi : lo <= v <= hi -> int_cost v <= Z.max (int_cost lo) (int_cost hi).
Proof. intros Hv. unfold int_cost. repeat case_match; lia. Qed.

Lemma estimate_cost v n : lpEstimateBytesRepeatedInteger v n = 7 + int_cost v * n.
Proof. unfold lpEstimateBytesRepeatedInteger, LP_HDR_SIZE. destruct (entry_size_int v) as [_ ->]. lia. Qed.

Lemma total_ints xs c : Forall (fun v => int_cost v <= c) xs -> lp_total (map EInt xs) <= 7 + c * Z.of_nat (length xs).
Proof.
  induction xs as [|v xs IH] using rev_ind; intros Hc; [change (7 <= 7 + c * 0); lia|]. apply Forall_app in Hc as [Hc Hv]. rewrite Forall_singleton in Hv. rewrite map_app. cbn [map].
  rewrite total_snoc, length_app. destruct (entry_size_int v) as [-> _]. specialize (IH Hc). rewrite Nat2Z.inj_add, Z.mul_add_distr_l. cbn [length]. lia.
Qed.

(** ** Insertion into a set *)

(** The set is the same when the element was there. *)
Lemma add_present (s : list Z) (X : strset) : s ∈ X -> {[s]} ∪ X = X.
Proof. set_solver. Qed.

Lemma add_size (s : list Z) (X : strset) n : Z.of_nat (size X) < n -> Z.of_nat (size ({[s]} ∪ X)) <= n.
Proof.
  intros Hn. rewrite size_union_alt, size_singleton. assert (size (X ∖ {[s]}) <= size X)%nat by (apply subseteq_size; set_solver). lia.
Qed.

(** ** Dictionaries as sets of keys *)

Section Keys.
Context (dictSdsHash : list Z -> Z) (dict_can_resize : dictResizeEnable).
Implicit Types (X : strset) (d : dict (list Z) unit).

Definition keys_are d X : Prop := exists M, dict_repr (V := unit) dictSdsHash true d M /\ X = dom M.

Lemma odd_sds : true = true -> forall k : list Z, (fun _ => true) k = true.
Proof using Type. done. Qed.

Lemma keys_size d X : keys_are d X -> dictSize d = Z.of_nat (size X).
Proof using Type. intros (M & Hr & ->). rewrite (repr_size _ _ _ _ Hr). f_equal. symmetry. apply size_dom. Qed.

Lemma keys_rehashed d d' X : keys_are d X -> rehashed dictSdsHash true d d' -> keys_are d' X.
Proof using Type. intros (M & Hr & ->) Hre. exists M. split; [|done]. by eapply repr_rehashed. Qed.

Lemma keys_empty : keys_are createSetObject ∅.
Proof using Type. exists ∅. split; [apply dictCreate_repr|by rewrite dom_empty_L]. Qed.

Lemma keys_expand d X cap : keys_are d X -> 0 <= cap <= 2 ^ 60 -> exists d' b, dictExpand d cap = Ret (d', b) /\ keys_are d' X.
Proof using Type.
  intros Hd Hc. pose proof Hd as (M & [Hwf _] & _). destruct (dictExpand_spec dictSdsHash true d cap Hwf Hc) as (d' & b & E & Hre & _).
  exists d', b. split; [done|]. by eapply keys_rehashed.
Qed.

Lemma keys_add d X s : keys_are d X -> Z.of_nat (size X) < 2 ^ 60 ->
  exists d', sdictAdd dictSdsHash dict_can_resize d s = Ret (d', bool_decide (s ∉ X)) /\ keys_are d' ({[s]} ∪ X).
Proof using Type.
  intros (M & Hr & ->) Hn. rewrite size_dom in Hn. unfold sdictAdd.
  destruct (dictAdd_spec dictSdsHash true true (fun _ => true) (fun _ _ _ => true) dict_can_resize tt odd_sds d M s tt Hr Hn) as (d' & b & -> & _ & Hb).
  exists d'. destruct (M !! s) as [x|] eqn:Es; destruct Hb as [-> Hr'].
  - assert (s ∈ dom M) as Hs by (by apply elem_of_dom_2 in Es). rewrite bool_decide_eq_false_2 by (intros Hn'; by apply Hn'). split; [done|].
    exists M. split; [done|]. set_solver.
  - assert (s ∉ dom M) as Hs by (by apply not_elem_of_dom). rewrite bool_decide_eq_true_2 by done. split; [done|].
    eexists. split; [exact Hr'|]. by rewrite dom_insert_L.
Qed.

Lemma keys_delete d X s : keys_are d X ->
  exists d', sdictDelete dictSdsHash dict_can_resize d s = Ret (d', bool_decide (s ∈ X)) /\ keys_are d' (X ∖ {[s]}).
Proof using Type.
  intros (M & Hr & ->). unfold sdictDelete.
  destruct (dictDelete_spec dictSdsHash true true (fun _ => true) dict_can_resize odd_sds d M s Hr) as (d' & e & _ & -> & Hr' & _).
  exists d'. split; [|exists (delete s M); split; [done|by rewrite dom_delete_L]]. do 2 f_equal. apply bool_decide_ext. by rewrite elem_of_dom.
Qed.

Lemma keys_find d X s : keys_are d X ->
  exists d' l, sdictFind dictSdsHash dict_can_resize d s = Ret (d', l) /\
    match l with Some _ => true | None => false end = bool_decide (s ∈ X) /\ keys_are d' X.
Proof using Type.
  intros Hd. pose proof Hd as (M & Hr & ->). pose proof Hr as [Hwf _]. unfold sdictFind.
  destruct (dictFind_spec dictSdsHash true true (fun _ => true) dict_can_resize odd_sds d s Hwf) as (d' & l & -> & Hre & Hl).
  exists d', l. split; [done|]. split; [|by eapply keys_rehashed]. symmetry. pose proof (repr_rehashed _ _ _ _ _ Hr Hre) as Hr'. destruct l as [l|].
  - destruct Hl as (v & Hp%points_contents). apply bool_decide_eq_true_2. apply (repr_elem _ _ _ _ _ _ Hr') in Hp. by eapply elem_of_dom_2.
  - apply bool_decide_eq_false_2, not_elem_of_dom. by apply (repr_none dictSdsHash true d').
Qed.

Lemma keys_resize d X (deleted : bool) : keys_are d X -> Z.of_nat (size X) <= 2 ^ 60 ->
  exists d' b, (if deleted && htNeedsResize d then dictResize dict_can_resize d else Ret (d, false)) = Ret (d', b) /\ keys_are d' X.
Proof using Type.
  intros Hd Hn. destruct (_ && _); [|by exists d, false]. pose proof Hd as (M & Hr & ->). rewrite size_dom in Hn.
  destruct (dictResize_spec dictSdsHash true dict_can_resize d M Hr Hn) as (d' & b & E & Hre). exists d', b. split; [done|]. by eapply keys_rehashed.
Qed.

(** Inserting at the position that was found is [dictAdd]. *)
Lemma insert_position d s :
  ('(ht, position) ← sdictFindPositionForInsert dictSdsHash dict_can_resize d s;
   match position with
   | Some (inr (t, idx)) => '(ht, _) ← sdictInsertAtPosition ht s t idx; Ret (OBJ_HT ht, true)
   | _ => Ret (OBJ_HT ht, false)
   end) = ('(ht, ok) ← sdictAdd dictSdsHash dict_can_resize d s; Ret (OBJ_HT ht, ok)).
Proof using Type.
  unfold sdictAdd, dictAdd, dictAddRaw, sdictFindPositionForInsert, sdictInsertAtPosition. destruct (dictFindPositionForInsert _ _ _ _ _ _ d s) as [[ht p]| |]; [|done|done].
  cbn [mbind res_bind]. destruct p as [[l|[t idx]]|]; [done| |done]. destruct (dictInsertAtPosition _ _ _ _ ht s t idx) as [[ht' l]| |]; done.
Qed.
End Keys.

Section SetOps.
Context `{Heap} `{Usable}.
Context (dictSdsHash : list Z -> Z) (dict_can_resize : dictResizeEnable).
Context (dictFingerprint : dict (list Z) unit -> Z).
Context (set_max_intset_entries set_max_listpack_entries set_max_listpack_value : Z).
Local Abbreviation max_entries := (intsetMaxEntries set_max_intset_entries).
Local Abbreviation release := (setTypeReleaseIterator dictFingerprint).
Local Abbreviation listing := (set_listing dictSdsHash).
Local Abbreviation repr := (set_repr dictSdsHash set_max_intset_entries set_max_listpack_entries set_max_listpack_value).
Local Abbreviation convert := (setTypeConvertAndExpand dictSdsHash dict_can_resize dictFingerprint).
Implicit Types (X : strset) (o : sobj) (d : dict (list Z) unit).

Local Abbreviation keys_are := (keys_are dictSdsHash).

Lemma keys_repr d X : repr (OBJ_HT d) X <-> set_Forall string_ok X /\ keys_are d X.
Proof using Type. apply dict_set_repr. Qed.

(** ** Size and conversion *)

Lemma size_spec o X vs : listing o X vs ->
  exists o', setTypeSize o = Ret (Z.of_nat (size X), o') /\ encoding_of o' = encoding_of o /\ listing o' X vs.
Proof using Type.
  intros Hl. rewrite (set_listing_size _ _ _ _ Hl). destruct o as [ints|lp|d]; cbn [setTypeSize].
  - pose proof (sl_listed _ _ _ _ Hl) as (w & xs & R & ->). unfold intsetLen. rewrite (rep_len _ _ _ R), length_map. by eexists.
  - pose proof Hl as [(ss & Hr & ->) Hnd HX Hok]. destruct (lpLength_correct lp _ Hr) as (lp' & -> & Hr'). cbn [mbind res_bind]. rewrite length_map.
    eexists. split; [done|]. split; [done|]. split; [by exists ss|done..].
  - pose proof (sl_listed _ _ _ _ Hl) as (Hwf & ->). rewrite (dictSize_contents dictSdsHash true d Hwf), length_map. by eexists.
Qed.

Lemma next_object o si vs : iter_at dictSdsHash dictFingerprint o si vs -> Forall (val_ok (encoding_of o)) vs ->
  match vs with
  | [] => exists si', setTypeNextObject dictFingerprint o si = Ret (si', None) /\ release o si' = Ret tt
  | v :: vs => exists si', setTypeNextObject dictFingerprint o si = Ret (si', Some (val_string v)) /\ iter_at dictSdsHash dictFingerprint o si' vs
  end.
Proof using Type.
  intros Hat Hok. pose proof (next_spec _ _ _ _ _ Hat) as Hn. unfold setTypeNextObject. destruct vs as [|v vs].
  - destruct Hn as (si' & -> & Hr). by eexists.
  - apply Forall_cons in Hok as [Hv _]. destruct Hn as (si' & -> & Hat'). cbn [mbind res_bind]. exists si'. split; [|done].
    destruct v as [s|i]; [done|]. rewrite sdsfromlonglong_spec by (by apply val_ok_int in Hv). done.
Qed.

Lemma to_dict_loop_spec o fuel si vs d X :
  iter_at dictSdsHash dictFingerprint o si vs -> Forall (val_ok (encoding_of o)) vs -> NoDup (map val_string vs) ->
  Forall (fun s => s ∉ X) (map val_string vs) -> keys_are d X -> Z.of_nat (size X) + Z.of_nat (length vs) <= 2 ^ 60 -> (length vs < fuel)%nat ->
  exists d' si', to_dict_loop dictSdsHash dict_can_resize dictFingerprint fuel o si d = Ret (d', si') /\
    keys_are d' (list_to_set (map val_string vs) ∪ X) /\ release o si' = Ret tt.
Proof using Type.
  revert si vs d X. induction fuel as [|fuel IH]; intros si vs d X Hat Hok Hnd Hno Hd Hn Hf; [lia|]. cbn [to_dict_loop].
  pose proof (next_object _ _ _ Hat Hok) as Hx. destruct vs as [|v vs]; destruct Hx as (si' & -> & Hx); cbn [mbind res_bind map length] in *.
  { eexists _, _. split; [done|]. split; [|done]. cbn. by rewrite union_empty_l_L. }
  apply Forall_cons in Hok as [_ Hok], Hno as [Hv Hno]. apply NoDup_cons in Hnd as [Hv' Hnd].
  destruct (keys_add dictSdsHash dict_can_resize d X (val_string v) Hd) as (d' & -> & Hd'); [lia|]. rewrite bool_decide_eq_true_2 by done. cbn [mbind res_bind assert].
  destruct (IH si' vs d' ({[val_string v]} ∪ X)) as (d2 & si2 & -> & Hd2 & Hr); [done|done|done| |done| |lia|].
  - rewrite Forall_forall in *. intros s Hs [->%elem_of_singleton|Hin]%elem_of_union; [done|]. by apply (Hno s).
  - rewrite size_union_alt, size_singleton. assert (size (X ∖ {[val_string v]}) <= size X)%nat by (apply subseteq_size; set_solver). lia.
  - eexists _, _. split; [done|]. split; [|done]. cbn [list_to_set]. by replace ({[val_string v]} ∪ list_to_set (map val_string vs) ∪ X)
      with (list_to_set (map val_string vs) ∪ ({[val_string v]} ∪ X) : strset) by set_solver.
Qed.

(** To a dictionary. *)
Lemma convert_ht o X vs cap : listing o X vs -> encoding_of o <> ENC_HT -> Z.of_nat (size X) <= 2 ^ 60 -> 0 <= cap <= 2 ^ 60 ->
  exists d, convert o ENC_HT cap = Ret (OBJ_HT d) /\ keys_are d X.
Proof using Type.
  intros Hl Henc Hn Hcap. unfold setTypeConvertAndExpand. rewrite bool_decide_eq_false_2 by done. cbn [negb assert mbind res_bind].
  destruct (keys_expand dictSdsHash _ _ cap (keys_empty dictSdsHash) Hcap) as (d & b & -> & Hd). cbn [mbind res_bind].
  destruct (to_dict_loop_spec o (iteration_fuel o) (setTypeInitIterator o) vs d ∅) as (d' & si & -> & Hd' & Hrel).
  - apply iter_start. apply Hl.
  - apply Forall_forall. intros v Hv. by eapply listing_val_ok.
  - apply Hl.
  - apply Forall_forall. intros s _. apply not_elem_of_empty.
  - done.
  - rewrite size_empty, <- (set_listing_size _ _ _ _ Hl). lia.
  - eapply listing_fuel. apply Hl.
  - cbn [mbind res_bind]. rewrite Hrel. exists d'. split; [done|]. by rewrite union_empty_r_L, <- (sl_set _ _ _ _ Hl) in Hd'.
Qed.

Lemma append_value_spec lp es enc v : lp_repr lp es -> match v with SInt i => int64 i | SStr _ => True end -> string_ok (val_string v) ->
  lp_total (es ++ [elem_of_string (val_string v)]) < 2 ^ 32 ->
  exists lp', append_value lp enc v = Ret (lp', true) /\ lp_repr lp' (es ++ [elem_of_string (val_string v)]).
Proof using Type.
  intros Hr Hv Hok Ht. unfold append_value. destruct v as [s|i]; cbn [val_string] in *.
  - pose proof (lpAppend_spec lp es s Hr Hok) as Ha. cbv zeta in Ha. rewrite decide_True in Ha by done. destruct Ha as (lp' & -> & Hr'). by exists lp'.
  - rewrite elem_of_dec in * by done. pose proof (lpAppendInteger_spec lp es i Hr Hv) as Ha. cbv zeta in Ha. rewrite decide_True in Ha by done.
    destruct Ha as (lp' & -> & Hr'). by exists lp'.
Qed.

(** To a listpack, when the elements fit. *)
Lemma convert_pack o X vs cap : listing o X vs -> encoding_of o <> ENC_LISTPACK -> lp_total (elems_of (map val_string vs)) < 2 ^ 32 ->
  exists lp, convert o ENC_LISTPACK cap = Ret (OBJ_LISTPACK lp) /\ lp_repr lp (elems_of (map val_string vs)).
Proof using Type.
  intros Hl Henc Ht. unfold setTypeConvertAndExpand. rewrite bool_decide_eq_false_2 by done. cbn [negb assert mbind res_bind].
  set (est := match o with OBJ_INTSET _ => _ | _ => _ end). assert (exists c, est = Ret c) as (c & ->).
  { unfold est. destruct o as [ints|lp|d]; [|by eexists..]. destruct (intset_ints _ _ _ _ Hl) as (Y & HY & _). destruct (Z.ltb_spec 0 (intsetLen ints)) as [Hlt|]; [|by eexists].
    destruct (intsetGet_enumerates _ _ HY) as (xs & _ & _ & Hlen & _ & Hmm). destruct Hmm as (lo & hi & -> & -> & _); [|by eexists].
    intros ->. rewrite Hlen, size_empty in Hlt. lia. }
  cbn [mbind res_bind]. destruct (lpNew_repr c) as (lp & -> & Hr). cbn [mbind res_bind].
  destruct (for_each_spec dictSdsHash dictFingerprint (fun _ => Ret o) append_value o vs (fun l lp => lp_repr lp (elems_of (map val_string l))) (fun _ => False))
    with (s := lp) as (lp' & -> & [Hr'|[]]); [done|done| |apply Hl|done|by exists lp'].
  intros l v r m Hvs Hm. assert (v ∈ vs) as Hin by (rewrite Hvs; set_solver). unfold elems_of in *. rewrite Hvs, !map_app in Ht. cbn [map] in Ht.
  rewrite cons_middle, app_assoc in Ht. destruct (append_value_spec m (map elem_of_string (map val_string l)) (encoding_of o) v Hm) as (m' & -> & Hm').
  - eapply val_ok_int, listing_val_ok; done.
  - pose proof (sl_ok _ _ _ _ Hl) as Hok. rewrite Forall_forall in Hok. apply Hok. by apply list_elem_of_fmap_2.
  - eapply Z.le_lt_trans; [|exact Ht]. apply total_mono.
  - eexists _, _. split; [done|]. rewrite !map_app. done.
Qed.

(** An intset that has become too large is converted. *)
Lemma maybeConvertIntset_spec ints X vs : listing (OBJ_INTSET ints) X vs -> Z.of_nat (size X) <= 2 ^ 60 ->
  exists o', maybeConvertIntset dictSdsHash dict_can_resize dictFingerprint set_max_intset_entries (OBJ_INTSET ints) = Ret o' /\ repr o' X.
Proof using Type.
  intros Hl Hn. unfold maybeConvertIntset. pose proof (set_listing_size _ _ _ _ Hl) as Hsz. assert (intsetLen ints = Z.of_nat (length vs)) as ->.
  { pose proof (sl_listed _ _ _ _ Hl) as (w & xs & R & ->). unfold intsetLen. by rewrite (rep_len _ _ _ R), length_map. }
  destruct (Z.ltb_spec max_entries (Z.of_nat (length vs))) as [Hlt|Hge].
  - unfold setTypeConvert. destruct (size_spec _ _ _ Hl) as (o' & -> & Henc & Hl'). cbn [mbind res_bind].
    destruct (convert_ht o' X vs (Z.of_nat (size X)) Hl') as (d & -> & Hd); [by rewrite Henc|done|lia|]. eexists. split; [done|].
    apply keys_repr. split; [|done]. intros s Hs. rewrite (sl_set _ _ _ _ Hl), elem_of_list_to_set in Hs. pose proof (sl_ok _ _ _ _ Hl) as Hok. by eapply Forall_forall.
  - eexists. split; [done|]. by exists vs.
Qed.
(** *** Listpacks *)

(** The search for a string. *)
Lemma pack_find lp ss s : lp_repr lp (elems_of ss) ->
  exists r, (p ← lpFirst lp; match p with Some p => lpFind lp p s 0 | None => Ret None end) = Ret (off (elems_of ss) <$> r) /\
    match r with Some j => ss !! j = Some s | None => s ∉ ss end.
Proof using Type.
  intros Hr. pose proof Hr as (num & slack & Hm). rewrite (lpFirst_spec _ _ _ _ Hm). cbn [mbind res_bind]. destruct ss as [|a ss].
  { exists None. split; [done|]. apply not_elem_of_nil. }
  assert (ptr (elems_of (a :: ss)) 0 = Some (off (elems_of (a :: ss)) 0)) as -> by done.
  destruct (find_spec lp _ 0 s 0 Hr) as (r & E & Ho); [cbn; lia|lia|]. change (Z.of_nat 0) with 0 in E. exists r. split; [done|].
  unfold elems_of in Ho. destruct r as [j|].
  - destruct Ho as (k & e & _ & He & Hs & _). rewrite list_lookup_fmap in He. destruct ((a :: ss) !! j) as [s'|]; [|done]. cbn in He. simplify_eq.
    by rewrite elem_string_of_string.
  - intros [i Hi]%list_elem_of_lookup. apply (Ho i (elem_of_string s)); [|apply elem_string_of_string]. rewrite list_lookup_fmap.
    replace (0 + i * 1)%nat with i by lia. by rewrite Hi.
Qed.

Lemma safe_spec lp ss (len : Z) : lp_repr lp (elems_of ss) -> 0 <= len < 2 ^ 32 ->
  lpSafeToAdd (Some lp) len = Ret (lp_total (elems_of ss) + len <=? 2 ^ 30).
Proof using Type.
  intros (num & slack & Hm) Hl. unfold lpSafeToAdd. rewrite (repr_total _ _ _ _ Hm). cbn [mbind res_bind]. pose proof (ll_size _ _ _ _ Hm).
  assert (0 <= lp_total (elems_of ss)) by (unfold lp_total, LP_HDR_SIZE; lia). rewrite uwrap_id by lia. f_equal. unfold LISTPACK_MAX_SAFETY_SIZE.
  destruct (Z.leb_spec (lp_total (elems_of ss) + len) (2 ^ 30)), (Z.ltb_spec (2 ^ 30) (lp_total (elems_of ss) + len)); (done || lia).
Qed.

(** Appending a string that is not there. *)
Lemma append_repr lp ss s v : lp_repr lp (elems_of ss) -> NoDup ss -> Forall string_ok ss -> Forall (fun s => Z.of_nat (length s) <= set_max_listpack_value) ss ->
  match v with SInt i => int64 i | SStr _ => True end -> val_string v = s -> string_ok s -> s ∉ ss -> Z.of_nat (length s) <= set_max_listpack_value ->
  Z.of_nat (length ss) + 1 <= set_max_listpack_entries -> lp_total (elems_of ss) + Z.of_nat (length s) <= 2 ^ 30 ->
  exists lp' q, match v with SInt llval => lpAppendInteger lp llval | SStr str => lpAppend lp str end = Ret (Some (lp', q)) /\
    repr (OBJ_LISTPACK lp') ({[s]} ∪ list_to_set ss).
Proof using Type.
  intros Hr Hnd Hok Hlen Hv <- Hs Hno Hl Hn Ht. destruct (ele_entry_size (val_string v)) as [He _].
  assert (lp_total (elems_of ss ++ [elem_of_string (val_string v)]) < 2 ^ 32) as Ht' by (rewrite total_snoc; lia).
  destruct (append_value_spec lp (elems_of ss) ENC_HT v Hr Hv Hs Ht') as (lp' & E & Hr'). unfold append_value in E.
  assert (exists q, match v with SStr str => lpAppend lp str | SInt llele => lpAppendInteger lp llele end = Ret (Some (lp', q))) as (q & Eq).
  { destruct (match v with SStr str => lpAppend lp str | SInt llele => lpAppendInteger lp llele end) as [[[l q]|]| |]; cbn in E; simplify_eq. by exists q. }
  exists lp', q. split; [by destruct v|]. apply pack_repr. exists (ss ++ [val_string v]). unfold elems_of in *. rewrite map_app. split_and!; [done| | | | |].
  - apply NoDup_app. split_and!; [done|set_solver|apply NoDup_singleton].
  - rewrite list_to_set_app_L. cbn. set_solver.
  - apply Forall_app_2; [done|by constructor].
  - rewrite length_app. cbn. lia.
  - apply Forall_app_2; [done|by constructor].
Qed.

(** A conversion to a dictionary followed by an insertion. *)
Lemma convert_add o X vs cap s : listing o X vs -> encoding_of o <> ENC_HT -> Z.of_nat (size X) < 2 ^ 60 -> 0 <= cap <= 2 ^ 60 -> string_ok s -> s ∉ X ->
  exists o', (set ← convert o ENC_HT cap;
      match set with
      | OBJ_HT ht => '(ht, ok) ← sdictAdd dictSdsHash dict_can_resize ht s; _ ← assert ok; Ret (OBJ_HT ht, true)
      | _ => Abort
      end) = Ret (o', true) /\ repr o' ({[s]} ∪ X).
Proof using Type.
  intros Hl Henc Hn Hcap Hs Hno. destruct (convert_ht o X vs cap Hl Henc) as (d & -> & Hd); [lia|done|]. cbn [mbind res_bind].
  destruct (keys_add dictSdsHash dict_can_resize d X s Hd Hn) as (d' & -> & Hd'). rewrite bool_decide_eq_true_2 by done. cbn [mbind res_bind assert].
  eexists. split; [done|]. apply keys_repr. split; [|done]. intros x [->%elem_of_singleton|Hx]%elem_of_union; [done|].
  rewrite (sl_set _ _ _ _ Hl), elem_of_list_to_set in Hx. pose proof (sl_ok _ _ _ _ Hl) as Hok. by eapply Forall_forall.
Qed.
(** ** Adding *)

(** The limit of intsets is below the number of elements their 32-bit sizes can
    hold; the other limits are arbitrary. *)
Hypothesis max_small : set_max_intset_entries + 1 < 2 ^ 29.

Lemma max_entries_eq : max_entries = set_max_intset_entries.
Proof using max_small. unfold intsetMaxEntries. change (Z.shiftl 1 30) with (2 ^ 30). rewrite (proj2 (Z.leb_gt _ _)) by lia. done. Qed.

Lemma int_elem ints X Y v : int_repr ints X Y -> int64 v -> dec v ∈ X <-> v ∈ Y.
Proof using Type.
  intros (_ & HX & _ & HY) Hv. rewrite HX. split; [|by exists v]. intros (w & Hw & E). by rewrite (dec_inj v w Hv E (HY w Hw)).
Qed.

Lemma intsetAdd_strings ints X v : repr (OBJ_INTSET ints) X -> int64 v ->
  exists ints' vs, intsetAdd ints v = Ret (ints', bool_decide (dec v ∉ X)) /\ listing (OBJ_INTSET ints') ({[dec v]} ∪ X) vs.
Proof using max_small.
  intros (vs & Hl & Hlim) Hv. destruct (intset_ints _ _ _ _ Hl) as (Y & HY). pose proof (int_elem _ _ _ v HY Hv) as Hin.
  pose proof HY as (HYr & HX & Hsz & HYr'). cbn in Hlim. rewrite <- (set_listing_size _ _ _ _ Hl), max_entries_eq, Hsz in Hlim.
  destruct (intsetAdd_refines ints Y v HYr) as (ints' & -> & HYr2); [unfold LLONG_MIN, LLONG_MAX in Hv; lia|lia|].
  destruct (ints_intset dictSdsHash ints' ({[dec v]} ∪ X) _ HYr2) as (vs' & Hl').
  { intros s. rewrite elem_of_union, elem_of_singleton, HX. setoid_rewrite elem_of_union. setoid_rewrite elem_of_singleton. naive_solver. }
  exists ints', vs'. split; [|done]. do 2 f_equal. apply bool_decide_ext. by rewrite Hin.
Qed.

Lemma add_int ints X v : repr (OBJ_INTSET ints) X -> int64 v -> Z.of_nat (size X) < 2 ^ 60 ->
  exists ints' o', intsetAdd ints v = Ret (ints', bool_decide (dec v ∉ X)) /\
    (if bool_decide (dec v ∉ X) then maybeConvertIntset dictSdsHash dict_can_resize dictFingerprint set_max_intset_entries (OBJ_INTSET ints') else Ret (OBJ_INTSET ints')) = Ret o' /\
    repr o' ({[dec v]} ∪ X).
Proof using max_small.
  intros Hr Hv Hn. destruct (intsetAdd_strings ints X v Hr Hv) as (ints' & vs & E & Hl). pose proof (add_size (dec v) X _ Hn) as Hn'.
  case_bool_decide as Hin.
  - destruct (maybeConvertIntset_spec ints' _ vs Hl Hn') as (o' & Eo & Ho). by exists ints', o'.
  - exists ints', (OBJ_INTSET ints'). split; [done|]. split; [done|]. exists vs. split; [done|]. cbn. rewrite <- (set_listing_size _ _ _ _ Hl).
    destruct (decide (dec v ∈ X)) as [Hx|]; [|done]. rewrite add_present by done. destruct Hr as (vs' & Hl' & Hlim). cbn in Hlim.
    by rewrite (set_listing_size _ _ _ _ Hl').
Qed.

(** The estimates are upper bounds. *)
Lemma estimate_spec ints X vs : listing (OBJ_INTSET ints) X vs ->
  exists maxelelen totsize, intset_estimate ints = Ret (maxelelen, totsize) /\ 0 <= totsize < 2 ^ 40 /\
    Forall (fun v => Z.of_nat (length (val_string v)) <= maxelelen) vs /\ lp_total (elems_of (map val_string vs)) <= Z.max 7 totsize.
Proof using Type.
  intros Hl. destruct (intset_ints _ _ _ _ Hl) as (Y & HY & _ & _ & HYr). pose proof (sl_listed _ _ _ _ Hl) as (w & xs & R & ->).
  destruct (intsetGet_enumerates _ _ HY) as (_ & _ & _ & Hlen & _ & Hmm). unfold intset_estimate. pose proof (rep_small _ _ _ R) as Hsm. unfold intsetLen in *.
  rewrite (rep_len _ _ _ R) in *. destruct (Z.eqb_spec (Z.of_nat (length xs)) 0) as [E|E]; cbn [negb].
  { destruct xs; [|cbn in E; lia]. eexists _, _. split; [done|]. split; [done|]. split; [constructor|done]. }
  destruct Hmm as (lo & hi & -> & -> & Hlo & Hhi & Hb); [intros ->; rewrite size_empty in Hlen; lia|]. cbn [mbind res_bind].
  assert (Forall (fun v => lo <= v <= hi /\ int64 v) xs) as Hxs.
  { pose proof (rep_int64 _ _ _ R) as Hr. destruct HY as (w' & xs' & R' & ->). rewrite Forall_forall in *. intros v Hv. split; [|by apply Hr]. apply Hb.
    assert (w' = w) as -> by (apply (rep_enc_unique ints); [apply R'|apply R]). assert (xs' = xs) as ->; [|by apply elem_of_list_to_set].
    rewrite (rep_elements_of _ _ _ R), (rep_elements_of _ _ _ R'). f_equal. pose proof (rep_len _ _ _ R). pose proof (rep_len _ _ _ R'). lia. }
  eexists _, _. split; [done|]. rewrite !sdigits10_correct, !estimate_cost by (by apply HYr).
  assert (map val_string (map SInt xs) = map dec xs) as -> by (by rewrite map_map).
  assert (forall v, 0 <= int_cost v <= 10) as Hc by (intros v; unfold int_cost; repeat case_match; lia). pose proof (Hc lo). pose proof (Hc hi). split; [nia|]. split.
  - apply Forall_map. eapply Forall_impl; [exact Hxs|]. intros v [Hv Hr]. cbn [val_string].
    pose proof (length_dec_between lo v hi (HYr _ Hlo) (HYr _ Hhi) Hv). lia.
  - assert (elems_of (map dec xs) = map EInt xs) as ->.
    { unfold elems_of. rewrite map_map. apply map_ext_in. intros v Hv%list_elem_of_In. rewrite Forall_forall in Hxs. apply elem_of_dec. by apply Hxs. }
    pose proof (total_ints xs (Z.max (int_cost hi) (int_cost lo))) as Ht. etransitivity; [apply Ht|nia].
    eapply Forall_impl; [exact Hxs|]. intros v [Hv _]. pose proof (int_cost_between lo v hi Hv). lia.
Qed.

Local Abbreviation add := (setTypeAddAux dictSdsHash dict_can_resize dictFingerprint set_max_intset_entries set_max_listpack_entries set_max_listpack_value).

Lemma add_pack lp X v : repr (OBJ_LISTPACK lp) X -> match v with SInt i => int64 i | SStr _ => True end -> string_ok (val_string v) -> Z.of_nat (size X) + 1 < 2 ^ 60 ->
  exists o', add (OBJ_LISTPACK lp) v = Ret (o', bool_decide (val_string v ∉ X)) /\ repr o' ({[val_string v]} ∪ X).
Proof using Type.
  intros Hrepr Hv Hs Hn. pose proof Hrepr as (ss & Hr & Hnd & -> & Hok & Hlen & Hval)%pack_repr. unfold setTypeAddAux. rewrite (value_str v Hv). cbn [mbind res_bind].
  destruct (pack_find lp ss (val_string v) Hr) as (r & E & Hres). destruct (lpFirst lp) as [p| |]; [|done|done].
  cbn [mbind res_bind] in E |- *. rewrite E. cbn [mbind res_bind]. clear E. destruct r as [j|]; cbn [fmap option_fmap option_map].
  { assert (val_string v ∈ (list_to_set ss : strset)) as Hin by (apply elem_of_list_to_set; by eapply list_elem_of_lookup_2).
    rewrite bool_decide_eq_false_2 by (by intros []). eexists. split; [done|]. by rewrite add_present. }
  assert (val_string v ∉ (list_to_set ss : strset)) as Hno by (by rewrite elem_of_list_to_set). rewrite bool_decide_eq_true_2 by done.
  destruct (lpLength_correct lp _ Hr) as (lp1 & -> & Hr1). cbn [mbind res_bind]. destruct Hs as [Hb Hsl] eqn:Es. rewrite (safe_spec lp1 ss) by (done || lia). cbn [mbind res_bind].
  assert (length (elems_of ss) = length ss) as El by (unfold elems_of; by rewrite length_map). rewrite El. destruct (_ && _) eqn:Ec.
  - apply andb_true_iff in Ec as [[Hc1 Hc2]%andb_true_iff Hc3]. destruct (append_repr lp1 ss (val_string v) v) as (lp2 & q & -> & Hr2); try done; [lia|lia|lia|].
    cbn [mbind res_bind of_option]. eexists. by split.
  - destruct (lpLength_correct lp1 _ Hr1) as (lp2 & -> & Hr2). cbn [mbind res_bind]. rewrite El.
    pose proof (pack_listing dictSdsHash lp2 ss Hr2 Hnd Hok) as Hl. rewrite size_list_to_set in Hn by done.
    apply (convert_add _ _ _ _ _ Hl); [done|rewrite size_list_to_set by done; lia|lia|done|done].
Qed.

Lemma no_int_elem ints X s : repr (OBJ_INTSET ints) X -> string2ll s = None -> s ∉ X.
Proof using Type.
  intros (vs & Hl & _) E Hin. destruct (intset_ints _ _ _ _ Hl) as (Y & _ & HX & _ & HY). destruct (proj1 (HX s) Hin) as (v & Hv & Es). rewrite Es, string2ll_complete in E by (by apply HY). done.
Qed.

(** A string that is no integer turns an intset into a listpack or a dictionary. *)
Lemma add_other ints X s : repr (OBJ_INTSET ints) X -> string2ll s = None -> string_ok s -> Z.of_nat (size X) + 1 < 2 ^ 60 ->
  exists o', add (OBJ_INTSET ints) (SStr s) = Ret (o', true) /\ repr o' ({[s]} ∪ X).
Proof using Type.
  intros Hrepr Es Hs Hn. pose proof (no_int_elem _ _ _ Hrepr Es) as Hno. destruct Hrepr as (vs & Hl & _). cbn [setTypeAddAux mbind res_bind]. rewrite Es.
  destruct (estimate_spec ints X vs Hl) as (me & ts & -> & Hts & Hme & Htot). cbn [mbind res_bind lpSafeToAdd]. rewrite Z.add_0_l, uwrap_id by (destruct Hs; lia).
  pose proof (set_listing_size _ _ _ _ Hl) as Hsz. assert (intsetLen ints = Z.of_nat (length vs)) as ->.
  { pose proof (sl_listed _ _ _ _ Hl) as (w & xs & R & ->). unfold intsetLen. by rewrite (rep_len _ _ _ R), length_map. }
  destruct (_ && _) eqn:Ec; [|apply (convert_add _ _ vs); [done|done|lia|lia|done|done]].
  apply andb_true_iff in Ec as [[[Hc1 Hc2]%andb_true_iff Hc3]%andb_true_iff Hc4]. apply negb_true_iff in Hc4. unfold LISTPACK_MAX_SAFETY_SIZE in Hc4. apply Z.ltb_ge in Hc4.
  destruct (convert_pack _ _ _ (Z.of_nat (length vs) + 1) Hl) as (lp & -> & Hr); [done|lia|]. cbn [mbind res_bind].
  pose proof (lpAppend_spec lp _ s Hr Hs) as Ha. cbv zeta in Ha. destruct (ele_entry_size s) as [He _]. rewrite decide_True in Ha by (rewrite total_snoc; lia).
  destruct Ha as (lp1 & -> & Hr1). cbn [mbind res_bind of_option]. destruct (lpShrinkToFit_spec lp1 _ Hr1) as (lp2 & -> & Hr2). cbn [mbind res_bind].
  eexists. split; [done|]. apply pack_repr. exists (map val_string vs ++ [s]). pose proof Hl as [_ Hnd HX Hok]. split_and!.
  - unfold elems_of in *. by rewrite map_app.
  - apply NoDup_app. split_and!; [done| |apply NoDup_singleton]. intros x Hx ->%list_elem_of_singleton. apply Hno. by rewrite HX, elem_of_list_to_set.
  - rewrite HX, list_to_set_app_L, union_comm_L. cbn. by rewrite union_empty_r_L.
  - apply Forall_app_2; [done|by constructor].
  - rewrite length_app, length_map. cbn. lia.
  - apply Forall_app_2; [apply Forall_map; eapply Forall_impl; [exact Hme|cbn; intros; lia]|constructor; [lia|done]].
Qed.

(** [setTypeAddAux] is insertion, whatever the encoding and the way the element
    is passed. *)
Lemma add_spec o X v : repr o X -> match v with SInt i => int64 i | SStr _ => True end -> string_ok (val_string v) -> Z.of_nat (size X) + 1 < 2 ^ 60 ->
  exists o', add o v = Ret (o', bool_decide (val_string v ∉ X)) /\ repr o' ({[val_string v]} ∪ X).
Proof using max_small.
  intros Hr Hv Hs Hn. destruct o as [ints|lp|d].
  - destruct v as [s|i]; cbn [val_string] in *.
    + destruct (string2ll s) as [i|] eqn:E.
      * apply string2ll_sound in E as Hi. destruct Hi as [Hi ->]. destruct (add_int ints X i Hr Hi) as (ints' & o' & Ea & Ec & Hr'); [lia|].
        unfold setTypeAddAux. cbn [mbind res_bind]. rewrite E, Ea. cbn [mbind res_bind]. exists o'. split; [|done]. destruct (bool_decide _); [by rewrite Ec|congruence].
      * rewrite bool_decide_eq_true_2 by (by eapply no_int_elem). by apply add_other.
    + destruct (add_int ints X i Hr Hv) as (ints' & o' & Ea & Ec & Hr'); [lia|]. unfold setTypeAddAux. rewrite Ea. cbn [mbind res_bind]. exists o'. split; [|done].
      destruct (bool_decide _); rewrite Ec; done.
  - by apply add_pack.
  - apply keys_repr in Hr as [Hok Hd]. destruct (keys_add dictSdsHash dict_can_resize d X (val_string v) Hd) as (d' & Ea & Hd'); [lia|].
    unfold setTypeAddAux. rewrite (value_str v Hv). cbn [mbind res_bind]. rewrite insert_position, Ea. cbn [mbind res_bind]. eexists. split; [done|].
    apply keys_repr. split; [|done]. intros x [->%elem_of_singleton|Hx]%elem_of_union; [done|by apply Hok].
Qed.
End SetOps.
