(* ===== verification/SetLookup.v ===== *)
(** * Deletion, membership and the other operations on set objects

    The operations of [SetType] that [SetOps] does not treat: deletion,
    membership, creation, the conversions between the encodings that the
    commands ask for, and copies. *)
From stdpp Require Import gmap.
From S2P Require Import Prelude Mem IntSet NumStr Dict DictIter Listpack ListpackEnc ListpackNav ListpackEdit ListpackApi SetType SetRefine SetOps.

Local Open Scope Z_scope.

Section SetLookup.
Context `{Heap} `{Usable}.
Context (dictSdsHash : list Z -> Z) (dict_can_resize : dictResizeEnable).
Context (dictFingerprint : dict (list Z) unit -> Z).
Context (set_max_intset_entries set_max_listpack_entries set_max_listpack_value : Z).
Local Abbreviation max_entries := (intsetMaxEntries set_max_intset_entries).
Local Abbreviation listing := (set_listing dictSdsHash).
Local Abbreviation repr := (set_repr dictSdsHash set_max_intset_entries set_max_listpack_entries set_max_listpack_value).
Local Abbreviation keys_are := (keys_are dictSdsHash).
Implicit Types (X : strset) (o : sobj).

(** ** Size *)

Lemma limits_encoding o o' vs : encoding_of o' = encoding_of o ->
  within_limits set_max_intset_entries set_max_listpack_entries set_max_listpack_value o vs ->
  within_limits set_max_intset_entries set_max_listpack_entries set_max_listpack_value o' vs.
Proof using Type. by destruct o, o'. Qed.

Lemma size_repr o X : repr o X -> exists o', setTypeSize o = Ret (Z.of_nat (size X), o') /\ repr o' X /\ encoding_of o' = encoding_of o.
Proof using Type.
  intros (vs & Hl & Hlim). destruct (size_spec dictSdsHash o X vs Hl) as (o' & E & Henc & Hl'). exists o'. split; [done|]. split; [|done].
  exists vs. split; [done|]. by eapply limits_encoding.
Qed.

(** ** Membership *)

Lemma int_member ints X i : repr (OBJ_INTSET ints) X -> int64 i -> intsetFind ints i = Ret (bool_decide (dec i ∈ X)).
Proof using Type.
  intros (vs & Hl & _) Hi. destruct (intset_ints _ _ _ _ Hl) as (Y & HY). pose proof HY as (HYr & _). unfold LLONG_MIN, LLONG_MAX in Hi.
  rewrite (intsetFind_correct ints Y i HYr) by lia. f_equal. apply bool_decide_ext. symmetry. by apply (int_elem ints).
Qed.

Local Abbreviation is_member := (setTypeIsMemberAux dictSdsHash dict_can_resize).

(** [setTypeIsMemberAux] decides membership. *)
Lemma member_spec o X v : repr o X -> match v with SInt i => int64 i | SStr _ => True end ->
  exists o', is_member o v = Ret (o', bool_decide (val_string v ∈ X)) /\ repr o' X.
Proof using Type.
  intros Hr Hv. destruct o as [ints|lp|d].
  - destruct v as [s|i]; cbn [val_string setTypeIsMemberAux mbind res_bind].
    + destruct (string2ll s) as [i|] eqn:E.
      * apply string2ll_sound in E as [Hi ->]. rewrite (int_member _ _ _ Hr Hi). by eexists.
      * rewrite bool_decide_eq_false_2 by (by eapply no_int_elem). by eexists.
    + rewrite (int_member _ _ _ Hr Hv). by eexists.
  - unfold setTypeIsMemberAux. rewrite (value_str v Hv). cbn [mbind res_bind]. pose proof Hr as (ss & Hlp & _ & -> & _)%pack_repr.
    destruct (pack_find lp ss (val_string v) Hlp) as (r & E & Hres). exists (OBJ_LISTPACK lp). split; [|done].
    destruct (lpFirst lp) as [p| |]; [|done|done]. cbn [mbind res_bind] in E |- *.
    assert (bool_decide (val_string v ∈ (list_to_set ss : strset)) = match r with Some _ => true | None => false end) as ->.
    { destruct r as [j|]; [apply bool_decide_eq_true_2|apply bool_decide_eq_false_2]; rewrite elem_of_list_to_set; [by eapply list_elem_of_lookup_2|done]. }
    destruct p as [p|]; [rewrite E; by destruct r|]. by destruct r.
  - apply keys_repr in Hr as [Hok Hd]. unfold setTypeIsMemberAux. rewrite (value_str v Hv). cbn [mbind res_bind].
    destruct (keys_find dictSdsHash dict_can_resize d X (val_string v) Hd) as (d' & l & -> & El & Hd'). cbn [mbind res_bind]. rewrite El.
    eexists. split; [done|]. by apply keys_repr.
Qed.

(** ** Deletion *)

Lemma remove_int ints X i : repr (OBJ_INTSET ints) X -> int64 i ->
  exists ints', intsetRemove ints i = Ret (ints', bool_decide (dec i ∈ X)) /\ repr (OBJ_INTSET ints') (X ∖ {[dec i]}).
Proof using Type.
  intros (vs & Hl & Hlim) Hi. destruct (intset_ints _ _ _ _ Hl) as (Y & HY). pose proof (int_elem ints X Y i HY Hi) as Hin. pose proof HY as (HYr & HX & _ & HY64).
  unfold LLONG_MIN, LLONG_MAX in Hi. destruct (intsetRemove_refines ints Y i HYr ltac:(lia)) as (ints' & -> & HYr').
  exists ints'. split; [do 2 f_equal; apply bool_decide_ext; by rewrite Hin|].
  destruct (ints_intset dictSdsHash ints' (X ∖ {[dec i]}) _ HYr') as (vs' & Hl').
  { intros s. rewrite elem_of_difference, not_elem_of_singleton, HX. setoid_rewrite elem_of_difference. setoid_rewrite not_elem_of_singleton. split.
    - intros ((v & Hv & ->) & Hne). exists v. split; [|done]. split; [done|]. by intros ->.
    - intros (v & [Hv Hne] & ->). split; [by exists v|]. intros E. apply Hne. apply dec_inj; [by apply HY64|done|unfold LLONG_MIN, LLONG_MAX; lia]. }
  exists vs'. split; [done|]. cbn in *. rewrite <- (set_listing_size _ _ _ _ Hl'). rewrite <- (set_listing_size _ _ _ _ Hl) in Hlim.
  assert (size (X ∖ {[dec i]}) <= size X)%nat by (apply subseteq_size, subseteq_difference_l; done). lia.
Qed.

Lemma delete_repr lp ss j s : lp_repr lp (elems_of ss) -> NoDup ss -> Forall string_ok ss -> Z.of_nat (length ss) <= set_max_listpack_entries ->
  Forall (fun s => Z.of_nat (length s) <= set_max_listpack_value) ss -> ss !! j = Some s ->
  exists lp' q, lpDelete lp (off (elems_of ss) j) = Ret (Some (lp', q)) /\ repr (OBJ_LISTPACK lp') (list_to_set ss ∖ {[s]}).
Proof using Type.
  intros Hr Hnd Hok Hlen Hval Hj. pose proof (lookup_lt_Some _ _ _ Hj). destruct (lpDelete_spec lp _ j Hr) as (lp' & -> & Hr'); [unfold elems_of; by rewrite length_map|].
  eexists _, _. split; [done|]. apply pack_repr. exists (delete j ss). pose proof (delete_Permutation ss j s Hj) as Hp.
  rewrite Hp in Hnd, Hok, Hval. apply NoDup_cons in Hnd as [Hno Hnd]. apply Forall_cons in Hok as [_ Hok], Hval as [_ Hval]. split_and!; [|done| |done| |done].
  - unfold elems_of in *. by rewrite (list_fmap_delete _ _ _ : map _ (delete j ss) = _).
  - apply set_eq. intros x. assert (x ∈ ss <-> x = s \/ x ∈ delete j ss) as Hx by (rewrite Hp at 1; apply elem_of_cons).
    rewrite elem_of_difference, elem_of_singleton, !elem_of_list_to_set, Hx. naive_solver.
  - rewrite length_delete by done. lia.
Qed.

Local Abbreviation remove := (setTypeRemoveAux dictSdsHash dict_can_resize).

(** [setTypeRemoveAux] is deletion. *)
Lemma remove_spec o X v : repr o X -> match v with SInt i => int64 i | SStr _ => True end -> Z.of_nat (size X) <= 2 ^ 60 ->
  exists o', remove o v = Ret (o', bool_decide (val_string v ∈ X)) /\ repr o' (X ∖ {[val_string v]}).
Proof using Type.
  intros Hr Hv Hn. destruct o as [ints|lp|d].
  - destruct v as [s|i]; cbn [val_string setTypeRemoveAux mbind res_bind].
    + destruct (string2ll s) as [i|] eqn:E.
      * apply string2ll_sound in E as [Hi ->]. destruct (remove_int _ _ _ Hr Hi) as (ints' & -> & Hr'). by eexists.
      * pose proof (no_int_elem _ _ _ _ _ _ _ Hr E) as Hno. rewrite bool_decide_eq_false_2, difference_disjoint_L by (done || by apply disjoint_singleton_r). by eexists.
    + destruct (remove_int _ _ _ Hr Hv) as (ints' & -> & Hr'). by eexists.
  - unfold setTypeRemoveAux. rewrite (value_str v Hv). cbn [mbind res_bind]. pose proof Hr as (ss & Hlp & Hnd & -> & Hok & Hlen & Hval)%pack_repr.
    destruct (pack_find lp ss (val_string v) Hlp) as (r & E & Hres). destruct (lpFirst lp) as [p| |]; [|done|done]. cbn [mbind res_bind] in E |- *. destruct r as [j|].
    + destruct p as [p|]; [|done]. rewrite E. cbn [mbind res_bind fmap option_fmap option_map]. destruct (delete_repr lp ss j _ Hlp Hnd Hok Hlen Hval Hres) as (lp' & q & -> & Hr').
      rewrite bool_decide_eq_true_2 by (apply elem_of_list_to_set; by eapply list_elem_of_lookup_2). by eexists.
    + assert (val_string v ∉ (list_to_set ss : strset)) as Hno by (by rewrite elem_of_list_to_set).
      rewrite bool_decide_eq_false_2, difference_disjoint_L by (done || by apply disjoint_singleton_r). exists (OBJ_LISTPACK lp). split; [|done].
      destruct p as [p|]; [by rewrite E|done].
  - apply keys_repr in Hr as [Hok Hd]. unfold setTypeRemoveAux. rewrite (value_str v Hv). cbn [mbind res_bind].
    destruct (keys_delete dictSdsHash dict_can_resize d X (val_string v) Hd) as (d' & -> & Hd'). cbn [mbind res_bind].
    destruct (keys_resize dictSdsHash dict_can_resize d' _ (bool_decide (val_string v ∈ X)) Hd') as (d2 & b & -> & Hd2).
    { assert (size (X ∖ {[val_string v]}) <= size X)%nat by (apply subseteq_size, subseteq_difference_l; done). lia. }
    cbn [mbind res_bind]. eexists. split; [done|]. apply keys_repr. split; [|done]. intros x [Hx _]%elem_of_difference. by apply Hok.
Qed.
(** ** Creation and conversion *)

Hypothesis max_small : set_max_intset_entries + 1 < 2 ^ 29.
Hypothesis max_intset_nonneg : 0 <= set_max_intset_entries.
Hypothesis max_listpack_nonneg : 0 <= set_max_listpack_entries.

Lemma empty_ok : set_Forall string_ok (∅ : strset).
Proof using Type. intros s Hs. by apply not_elem_of_empty in Hs. Qed.

Lemma new_intset : repr createIntsetObject ∅.
Proof using max_small max_intset_nonneg.
  exists []. split; [|cbn; rewrite max_entries_eq by done; done]. destruct intsetNew_repr as (w & xs & R & E). assert (xs = []) as -> by (pose proof (rep_len _ _ _ R) as Hx; by destruct xs).
  exact (intset_listing dictSdsHash w _ _ R).
Qed.

(** An empty listpack, whatever it was created from. *)
Lemma new_pack capacity : exists lp, lpNew capacity = Ret lp /\ repr (OBJ_LISTPACK lp) ∅.
Proof using max_listpack_nonneg.
  destruct (lpNew_repr capacity) as (lp & E & Hr). exists lp. split; [done|]. apply pack_repr. exists []. split_and!; [done|constructor|done|constructor|done|constructor].
Qed.

Lemma new_pack_object : exists o, createSetListpackObject = Ret o /\ repr o ∅.
Proof using max_listpack_nonneg. unfold createSetListpackObject. destruct (new_pack 0) as (lp & -> & Hr). by eexists. Qed.

Lemma create_spec value size_hint : 0 <= size_hint <= 2 ^ 60 ->
  exists o, setTypeCreate set_max_intset_entries set_max_listpack_entries value size_hint = Ret o /\ repr o ∅.
Proof using max_small max_intset_nonneg max_listpack_nonneg.
  intros Hs. unfold setTypeCreate. destruct (_ && _); [eexists; split; [done|apply new_intset]|]. destruct (_ <=? _); [apply new_pack_object|].
  destruct (keys_expand dictSdsHash _ _ size_hint (keys_empty dictSdsHash) Hs) as (d & b & -> & Hd). cbn [mbind res_bind]. eexists. split; [done|].
  apply keys_repr. split; [apply empty_ok|done].
Qed.

Lemma maybeConvert_spec o X size_hint : repr o X -> Z.of_nat (size X) <= 2 ^ 60 -> 0 <= size_hint <= 2 ^ 60 ->
  exists o', setTypeMaybeConvert dictSdsHash dict_can_resize dictFingerprint set_max_intset_entries set_max_listpack_entries o size_hint = Ret o' /\ repr o' X.
Proof using Type.
  intros Hr Hn Hs. unfold setTypeMaybeConvert. destruct (_ || _) eqn:E; [|by exists o]. destruct Hr as (vs & Hl & Hlim).
  destruct (convert_ht dictSdsHash dict_can_resize dictFingerprint o X vs size_hint Hl) as (d & -> & Hd); [by destruct o|done|done|].
  eexists. split; [done|]. apply keys_repr. split; [|done]. intros s Hs'. eapply (repr_ok_elem dictSdsHash); [by exists vs|done].
Qed.

(** Back to an intset, when all elements are integers. *)
Lemma toIntset_spec o X : repr o X -> (forall s, s ∈ X -> is_Some (string2ll s)) ->
  exists o', maybeConvertToIntset dictFingerprint set_max_intset_entries o = Ret o' /\ repr o' X.
Proof using max_small max_intset_nonneg max_listpack_nonneg.
  intros Hr HX. assert (encoding_of o = ENC_INTSET \/ encoding_of o <> ENC_INTSET) as [He|He] by (destruct o; cbn; auto).
  { destruct o; [|done|done]. by eexists. }
  destruct (size_repr o X Hr) as (o1 & E1 & (vs & Hl & Hlim) & Henc).
  assert (maybeConvertToIntset dictFingerprint set_max_intset_entries o = (if max_entries <? Z.of_nat (size X) then Ret o1 else
    ints ← for_each dictFingerprint (fun _ => Ret o1) add_integer intsetNew; Ret (OBJ_INTSET ints))) as ->.
  { unfold maybeConvertToIntset. destruct o; [done| |]; by rewrite E1. }
  destruct (Z.ltb_spec max_entries (Z.of_nat (size X))) as [Hlt|Hge]; [exists o1; split; [done|by exists vs]|].
  destruct (for_each_spec dictSdsHash dictFingerprint (fun _ => Ret o1) add_integer o1 vs
    (fun l ints => repr (OBJ_INTSET ints) (list_to_set (map val_string l))) (fun _ => False)) with (s := intsetNew) as (ints & -> & [Hints|[]]);
    [done|done| |apply Hl|apply new_intset|by rewrite <- (sl_set _ _ _ _ Hl) in Hints; eexists].
  intros l v r ints Hvs Hints. assert (v ∈ vs) as Hin by (rewrite Hvs; set_solver).
  destruct (HX (val_string v)) as [i Hi]; [by eapply listing_elem|]. apply string2ll_sound in Hi as Hi'. destruct Hi' as [Hi64 Evi].
  assert (match v with SStr str => of_option (string2ll str) | SInt llval => Ret llval end = Ret i) as E.
  { destruct v as [s|j]; cbn in *; [by rewrite Hi|]. f_equal. apply dec_inj; [|done|done]. exact (val_ok_int _ _ (listing_val_ok _ _ _ _ _ Hl Hin)). }
  unfold add_integer. rewrite E. cbn [mbind res_bind]. pose proof (sl_distinct _ _ _ _ Hl) as Hnd. rewrite Hvs, map_app in Hnd. cbn [map] in Hnd.
  apply NoDup_app in Hnd as (_ & Hno & _). assert (dec i ∉ (list_to_set (map val_string l) : strset)) as Hnew.
  { rewrite elem_of_list_to_set, <- Evi. intros Hx. apply (Hno _ Hx). left. }
  destruct (intsetAdd_strings dictSdsHash _ _ _ max_small ints _ i Hints Hi64) as (ints' & vs' & -> & Hl'). rewrite bool_decide_eq_true_2 by done.
  eexists _, _. split; [done|]. rewrite map_app. cbn [map]. rewrite list_to_set_app_L, Evi, union_comm_L. cbn. rewrite union_empty_r_L. exists vs'. split; [done|]. cbn.
  rewrite <- (set_listing_size _ _ _ _ Hl'). etransitivity; [|exact Hge]. apply Nat2Z.inj_le, subseteq_size.
  rewrite (sl_set _ _ _ _ Hl), Hvs, map_app. cbn [map]. rewrite list_to_set_app_L, <- Evi. cbn. set_solver.
Qed.

(** ** Copies *)

Lemma dup_ht d X : repr (OBJ_HT d) X -> Z.of_nat (size X) + 1 < 2 ^ 60 ->
  exists o', setTypeDup dictSdsHash dict_can_resize dictFingerprint set_max_intset_entries set_max_listpack_entries set_max_listpack_value (OBJ_HT d) = Ret o' /\
    repr o' X /\ encoding_of o' = ENC_HT.
Proof using max_small max_intset_nonneg max_listpack_nonneg.
  intros Hr Hn. pose proof Hr as [Hok Hd]%keys_repr. cbn [setTypeDup]. rewrite (keys_size dictSdsHash _ _ Hd).
  destruct (keys_expand dictSdsHash _ _ (Z.of_nat (size X)) (keys_empty dictSdsHash)) as (d1 & b & -> & Hd1); [lia|]. cbn [mbind res_bind].
  destruct Hr as (vs & Hl & _). pose proof (set_listing_size _ _ _ _ Hl) as Hsz.
  destruct (for_each_spec dictSdsHash dictFingerprint (fun _ => Ret (OBJ_HT d))
    (fun set _ v => match v with SStr str => '(set, _) ← setTypeAdd dictSdsHash dict_can_resize dictFingerprint set_max_intset_entries set_max_listpack_entries set_max_listpack_value set str;
       Ret (set, true) | SInt _ => Abort end) (OBJ_HT d) vs
    (fun l o => exists d', o = OBJ_HT d' /\ keys_are d' (list_to_set (map val_string l))) (fun _ => False)) with (s := OBJ_HT d1)
    as (o' & E & [(d' & -> & Hd')|[]]); [done|done| |apply Hl|by exists d1|].
  - intros l v r o Hvs (d' & -> & Hd'). assert (v ∈ vs) as Hin by (rewrite Hvs; set_solver). pose proof (listing_val_ok _ _ _ _ _ Hl Hin) as Hv.
    destruct v as [s|i]; [|done]. unfold setTypeAdd, setTypeAddAux. cbn [mbind res_bind]. rewrite insert_position.
    destruct (keys_add dictSdsHash dict_can_resize d' _ s Hd') as (d2 & -> & Hd2).
    { pose proof (size_list_to_set (map val_string l) (C := strset)) as Hls. pose proof (sl_distinct _ _ _ _ Hl) as Hnd. rewrite Hvs, map_app in Hnd.
      apply NoDup_app in Hnd as (Hnd & _ & _). rewrite Hls, length_map by done. rewrite Hvs, length_app in Hsz. lia. }
    cbn [mbind res_bind]. eexists _, _. split; [done|]. exists d2. split; [done|]. rewrite map_app, list_to_set_app_L, union_comm_L. cbn. by rewrite union_empty_r_L.
  - rewrite <- (sl_set _ _ _ _ Hl) in Hd'. eexists. split; [exact E|]. split; [|done]. by apply keys_repr.
Qed.

(** [setTypeDup] makes a copy with the same encoding. *)
Lemma dup_spec o X : repr o X -> Z.of_nat (size X) + 1 < 2 ^ 60 ->
  exists o', setTypeDup dictSdsHash dict_can_resize dictFingerprint set_max_intset_entries set_max_listpack_entries set_max_listpack_value o = Ret o' /\
    repr o' X /\ encoding_of o' = encoding_of o.
Proof using max_small max_intset_nonneg max_listpack_nonneg.
  intros Hr Hn. destruct o as [ints|lp|d]; [| |by apply dup_ht]; cbn [setTypeDup encoding_of].
  - exists (OBJ_INTSET ints). split; [|done]. destruct Hr as (vs & [(w & xs & R & ->) _ _ _] & _). unfold intsetBlobLen, sizeof_intset.
    rewrite (rep_len _ _ _ R), (rep_enc _ _ _ R). pose proof (rep_small _ _ _ R). assert (0 < Z.of_nat w <= 8) by (destruct (rep_width_ok _ _ _ R) as [->|[->| ->]]; lia).
    rewrite uwrap_id by nia. replace (8 + Z.of_nat (length xs) * Z.of_nat w - 8) with (Z.of_nat (length (IntSet.contents ints))) by (rewrite (rep_size _ _ _ R); lia).
    change 0 with (Z.of_nat 0). rewrite load_bytes_Ret by lia. cbn [mbind res_bind]. rewrite sub_all by done. by destruct ints.
  - pose proof Hr as (ss & Hlp & Hrest)%pack_repr. destruct (list_copy lp _ Hlp) as (lp' & E & Hlp').
    destruct (lpBytes lp) as [sz| |]; [|done|done]. cbn [mbind res_bind] in *. rewrite E. eexists. split; [done|]. split; [|done]. apply pack_repr. by exists ss.
Qed.
End SetLookup.
