(* ===== verification/SetCommand.v ===== *)
(** * The commands on sets ([redis-7.2.3/src/t_set.c])

    SADD, SREM, SMOVE, SISMEMBER, SMISMEMBER, SCARD, and the commands that combine
    sets: SINTER, SMEMBERS, SINTERSTORE, SINTERCARD, SUNION, SUNIONSTORE, SDIFF,
    SDIFFSTORE.  A client has a keyspace and the replies sent to it so far; objects
    of other types are there only to be refused.  The pointer to the object of a
    key is the key: no two keys have the same object, and what is done to the
    object is done to the keyspace, so that a set that is read through an
    iterator while other sets are searched is the one in the keyspace.  Keys do
    not expire; notifications and [server.dirty] are not modelled.  [args] are the
    arguments after the key, whose number the server has checked against the
    minimum of the command.

    This file has the definitions; [SetCommandSpec] has the specification and
    [SetTheorems] the theorems. *)
From stdpp Require Import gmap strings.
From S2P Require Import Prelude Mem IntSet NumStr Dict DictIter Listpack SetType.

Local Open Scope Z_scope.

(** ** Clients *)

Inductive sval_obj : Type :=
  | OBJ_SET (o : sobj)
  | OBJ_NO_SET.

Inductive set_error : Type :=
  | SErrWrongType
  | SErrSyntax
  | SErrNumkeys
  | SErrTooManyKeys
  | SErrLimit.

(** The empty set [shared.emptyset] is a set of length 0. *)
Inductive sreply : Type :=
  | SReplySetLen (n : Z)
  | SReplyArrayLen (n : Z)
  | SReplyDeferredLen
  | SReplyBulk (s : list Z)
  | SReplyLongLong (n : Z)
  | SReplyError (e : set_error).

Record sclient : Type := SClient { sdb : gmap (list Z) sval_obj; sreplies : list sreply }.

Definition add_reply (c : sclient) (r : sreply) : sclient := SClient (sdb c) (sreplies c ++ [r]).
Definition store_set (c : sclient) (key : list Z) (o : sobj) : sclient := SClient (<[key := OBJ_SET o]> (sdb c)) (sreplies c).
Definition delete_key (c : sclient) (key : list Z) : sclient := SClient (delete key (sdb c)) (sreplies c).
Definition set_reply_len (c : sclient) (node : nat) (n : Z) : sclient := SClient (sdb c) (<[node := SReplySetLen n]> (sreplies c)).

(** A value is sent as a string. *)
Definition reply_value (c : sclient) (v : sval) : sclient :=
  add_reply c (SReplyBulk (match v with SStr str => str | SInt llval => dec llval end)).

Inductive sfound : Type :=
  | SMissing
  | SWrongType
  | SFound (o : sobj).

Definition lookup_set (c : sclient) (key : list Z) : sfound :=
  match sdb c !! key with
  | None => SMissing
  | Some OBJ_NO_SET => SWrongType
  | Some (OBJ_SET o) => SFound o
  end.

(** What a pointer to the object of a key points to. *)
Definition set_at (c : sclient) (key : list Z) : res sobj :=
  match lookup_set c key with SFound o => Ret o | _ => Abort end.

(** [qsort]: it reorders the array. *)
Class Qsort := {
  qsort : forall A : Type, (A -> A -> Z) -> list A -> list A;
  qsort_perm : forall A cmp (l : list A), qsort A cmp l ≡ₚ l;
}.
Arguments qsort {_ A}.

Section Commands.
Context `{Heap} `{Usable} `{Qsort}.
Context (dictSdsHash : list Z -> Z) (dict_can_resize : dictResizeEnable).
Context (dictFingerprint : dict (list Z) unit -> Z).
Context (set_max_intset_entries set_max_listpack_entries set_max_listpack_value : Z).

Local Abbreviation set_create := (setTypeCreate set_max_intset_entries set_max_listpack_entries).
Local Abbreviation set_maybe_convert := (setTypeMaybeConvert dictSdsHash dict_can_resize dictFingerprint set_max_intset_entries set_max_listpack_entries).
Local Abbreviation set_add := (setTypeAddAux dictSdsHash dict_can_resize dictFingerprint set_max_intset_entries set_max_listpack_entries set_max_listpack_value).
Local Abbreviation set_remove := (setTypeRemoveAux dictSdsHash dict_can_resize).
Local Abbreviation set_is_member := (setTypeIsMemberAux dictSdsHash dict_can_resize).

(** The size of the object of a key; NULL has none. *)
Definition size_at (c : sclient) (key : option (list Z)) : res (Z * sclient) :=
  match key with
  | None => Ret (0, c)
  | Some key => o ← set_at c key; '(n, o) ← setTypeSize o; Ret (n, store_set c key o)
  end.

(** ** SADD, SREM, SMOVE *)

Fixpoint sadd_loop (set : sobj) (args : list (list Z)) (added : Z) : res (sobj * Z) :=
  match args with
  | [] => Ret (set, added)
  | ele :: args =>
      '(set, new) ← set_add set (SStr ele);
      sadd_loop set args (if new : bool then added + 1 else added)
  end.

Definition saddCommand (c : sclient) (key : list Z) (args : list (list Z)) : res sclient :=
  let continue set :=
    '(set, added) ← sadd_loop set args 0;
    Ret (add_reply (store_set c key set) (SReplyLongLong added)) in
  let size_hint := Z.of_nat (length args) in
  match lookup_set c key with
  | SWrongType => Ret (add_reply c (SReplyError SErrWrongType))
  | SMissing => set ← set_create (hd [] args) size_hint; continue set
  | SFound set => set ← set_maybe_convert set size_hint; continue set
  end.

(** [None]: the set has become empty, and the key is removed. *)
Fixpoint srem_loop (set : sobj) (args : list (list Z)) (deleted : Z) : res (option sobj * Z) :=
  match args with
  | [] => Ret (Some set, deleted)
  | ele :: args =>
      '(set, removed) ← set_remove set (SStr ele);
      if removed : bool then
        '(n, set) ← setTypeSize set;
        if n =? 0 then Ret (None, deleted + 1) else srem_loop set args (deleted + 1)
      else srem_loop set args deleted
  end.

Definition sremCommand (c : sclient) (key : list Z) (args : list (list Z)) : res sclient :=
  match lookup_set c key with
  | SMissing => Ret (add_reply c (SReplyLongLong 0))
  | SWrongType => Ret (add_reply c (SReplyError SErrWrongType))
  | SFound set =>
      '(set, deleted) ← srem_loop set args 0;
      Ret (add_reply (match set with Some set => store_set c key set | None => delete_key c key end) (SReplyLongLong deleted))
  end.

Definition smoveCommand (c : sclient) (srckey dstkey ele : list Z) : res sclient :=
  match lookup_set c srckey with
  | SMissing => Ret (add_reply c (SReplyLongLong 0))
  | SWrongType => Ret (add_reply c (SReplyError SErrWrongType))
  | SFound srcset =>
      match lookup_set c dstkey with
      | SWrongType => Ret (add_reply c (SReplyError SErrWrongType))
      | dst =>
          if bool_decide (srckey = dstkey) then
            '(srcset, b) ← set_is_member srcset (SStr ele);
            Ret (add_reply (store_set c srckey srcset) (SReplyLongLong (if b : bool then 1 else 0)))
          else
            '(srcset, removed) ← set_remove srcset (SStr ele);
            if negb removed then Ret (add_reply (store_set c srckey srcset) (SReplyLongLong 0)) else
            '(n, srcset) ← setTypeSize srcset;
            let c := if n =? 0 then delete_key c srckey else store_set c srckey srcset in
            dstset ← match dst with SFound o => Ret o | _ => set_create ele 1 end;
            '(dstset, _) ← set_add dstset (SStr ele);
            Ret (add_reply (store_set c dstkey dstset) (SReplyLongLong 1))
      end
  end.

(** ** SISMEMBER, SMISMEMBER, SCARD *)

Definition sismemberCommand (c : sclient) (key ele : list Z) : res sclient :=
  match lookup_set c key with
  | SMissing => Ret (add_reply c (SReplyLongLong 0))
  | SWrongType => Ret (add_reply c (SReplyError SErrWrongType))
  | SFound set =>
      '(set, b) ← set_is_member set (SStr ele);
      Ret (add_reply (store_set c key set) (SReplyLongLong (if b : bool then 1 else 0)))
  end.

Fixpoint smismember_loop (c : sclient) (key : list Z) (args : list (list Z)) : res sclient :=
  match args with
  | [] => Ret c
  | ele :: args =>
      c ← match lookup_set c key with
          | SFound set =>
              '(set, b) ← set_is_member set (SStr ele);
              Ret (add_reply (store_set c key set) (SReplyLongLong (if b : bool then 1 else 0)))
          | _ => Ret (add_reply c (SReplyLongLong 0))
          end;
      smismember_loop c key args
  end.

Definition smismemberCommand (c : sclient) (key : list Z) (args : list (list Z)) : res sclient :=
  match lookup_set c key with
  | SWrongType => Ret (add_reply c (SReplyError SErrWrongType))
  | _ => smismember_loop (add_reply c (SReplyArrayLen (Z.of_nat (length args)))) key args
  end.

Definition scardCommand (c : sclient) (key : list Z) : res sclient :=
  match lookup_set c key with
  | SMissing => Ret (add_reply c (SReplyLongLong 0))
  | SWrongType => Ret (add_reply c (SReplyError SErrWrongType))
  | SFound set => '(n, set) ← setTypeSize set; Ret (add_reply (store_set c key set) (SReplyLongLong n))
  end.

(** ** Combining sets *)

(** The array [sets], with [None] for NULL; the result is [None] when an object is
    not a set. *)
Fixpoint lookup_sets (c : sclient) (setkeys : list (list Z)) : option (list (option (list Z))) :=
  match setkeys with
  | [] => Some []
  | key :: setkeys =>
      match lookup_set c key with
      | SWrongType => None
      | SMissing => (fun sets => None :: sets) <$> lookup_sets c setkeys
      | SFound _ => (fun sets => Some key :: sets) <$> lookup_sets c setkeys
      end
  end.

Fixpoint read_sizes (c : sclient) (sets : list (option (list Z))) : res (sclient * list (option (list Z) * Z)) :=
  match sets with
  | [] => Ret (c, [])
  | key :: sets => '(n, c) ← size_at c key; '(c, sizes) ← read_sizes c sets; Ret (c, (key, n) :: sizes)
  end.

Definition qsortCompareSetsByCardinality (s1 s2 : option (list Z) * Z) : Z :=
  if s2.2 <? s1.2 then 1 else if s1.2 <? s2.2 then -1 else 0.
Definition qsortCompareSetsByRevCardinality (s1 s2 : option (list Z) * Z) : Z :=
  if s1.2 <? s2.2 then 1 else if s2.2 <? s1.2 then -1 else 0.

(** [qsort] with a comparison that reads the sizes.  The first reading of a
    listpack may bring its header up to date, and the others then change
    nothing; a single set is not compared. *)
Definition sort_sets (c : sclient) (cmp : option (list Z) * Z -> option (list Z) * Z -> Z) (sets : list (option (list Z))) : res (sclient * list (option (list Z))) :=
  match sets with
  | _ :: _ :: _ => '(c, sizes) ← read_sizes c sets; Ret (c, (qsort cmp sizes).*1)
  | _ => Ret (c, sets)
  end.

(** The element is tested against the other sets, up to the first that does not
    have it. *)
Fixpoint in_all (c : sclient) (first : list Z) (sets : list (list Z)) (v : sval) : res (sclient * bool) :=
  match sets with
  | [] => Ret (c, true)
  | key :: sets =>
      if bool_decide (key = first) then in_all c first sets v else
      o ← set_at c key;
      '(o, b) ← set_is_member o v;
      let c := store_set c key o in
      if b : bool then in_all c first sets v else Ret (c, false)
  end.

(** The result under construction: in the target set, or in the reply and counted
    in [cardinality]. *)
Record inter_state : Type := Inter { in_client : sclient; dstset : option sobj; cardinality : Z; only_integers : bool }.

(** An element that goes to the target set, as it is added: one that is a string
    in a dictionary may be an integer all the same. *)
Definition inter_value (dst : sobj) (enc : set_encoding) (v : sval) (only : bool) : sval * bool :=
  match v with
  | SStr str =>
      if only then
        match enc, string2ll str with
        | ENC_HT, Some intobj => (match dst with OBJ_HT _ => v | _ => SInt intobj end, true)
        | _, _ => (v, false)
        end
      else (v, only)
  | SInt _ => (v, only)
  end.

Definition inter_body (first : list Z) (sets : list (list Z)) (cardinality_only : bool) (limit : Z) (s : inter_state) (enc : set_encoding) (v : sval) : res (inter_state * bool) :=
  '(c, all) ← in_all (in_client s) first sets v;
  if negb all then Ret (Inter c (dstset s) (cardinality s) (only_integers s), true) else
  if cardinality_only then
    let n := u64 (cardinality s + 1) in
    Ret (Inter c (dstset s) n (only_integers s), negb (negb (limit =? 0) && (limit <=? n)))
  else
    match dstset s with
    | None => Ret (Inter (reply_value c v) None (u64 (cardinality s + 1)) (only_integers s), true)
    | Some dst =>
        let '(v, only) := inter_value dst enc v (only_integers s) in
        '(dst, _) ← set_add dst v;
        Ret (Inter c (Some dst) (cardinality s) only, true)
    end.

(** The object is stored, or the key is removed when it is empty. *)
Definition store_result (c : sclient) (dstkey : list Z) (dst : sobj) : res sclient :=
  '(n, dst) ← setTypeSize dst;
  if 0 <? n then
    '(n, dst) ← setTypeSize dst;
    Ret (add_reply (store_set c dstkey dst) (SReplyLongLong n))
  else Ret (delete_key (add_reply c (SReplyLongLong 0)) dstkey).

(** The target set, empty, in an encoding that suits the first set. *)
Definition inter_target (o : sobj) : res sobj :=
  match o with
  | OBJ_INTSET _ => Ret createIntsetObject
  | OBJ_LISTPACK lp => n ← lpBytes lp; lp ← lpNew n; Ret (OBJ_LISTPACK lp)
  | OBJ_HT _ => createSetListpackObject
  end.

(** After the loop with a target key. *)
Definition inter_store (s : inter_state) (dstkey : list Z) (dst : sobj) : res sclient :=
  '(n, dst) ← setTypeSize dst;
  if 0 <? n then
    dst ← (if only_integers s then maybeConvertToIntset dictFingerprint set_max_intset_entries dst else Ret dst);
    dst ← match dst with OBJ_LISTPACK lp => lp ← lpShrinkToFit lp; Ret (OBJ_LISTPACK lp) | _ => Ret dst end;
    '(n, dst) ← setTypeSize dst;
    Ret (add_reply (store_set (in_client s) dstkey dst) (SReplyLongLong n))
  else Ret (delete_key (add_reply (in_client s) (SReplyLongLong 0)) dstkey).

Definition sinterGenericCommand (c : sclient) (setkeys : list (list Z)) (dstkey : option (list Z)) (cardinality_only : bool) (limit : Z) : res sclient :=
  match lookup_sets c setkeys with
  | None => Ret (add_reply c (SReplyError SErrWrongType))
  | Some sets =>
      if existsb (fun key => match key with None => true | Some _ => false end) sets then
        Ret (match dstkey with
             | Some dstkey => add_reply (delete_key c dstkey) (SReplyLongLong 0)
             | None => if cardinality_only then add_reply c (SReplyLongLong 0) else add_reply c (SReplySetLen 0)
             end)
      else
        '(c, sets) ← sort_sets c qsortCompareSetsByCardinality sets;
        match omap id sets with
        | [] => Abort
        | first :: sets =>
            o ← set_at c first;
            dst ← match dstkey with Some _ => dst ← inter_target o; Ret (Some dst) | None => Ret None end;
            let replylen := length (sreplies c) in
            let c := match dstkey with None => if cardinality_only then c else add_reply c SReplyDeferredLen | Some _ => c end in
            s ← for_each dictFingerprint (fun s => set_at (in_client s) first) (inter_body first sets cardinality_only limit) (Inter c dst 0 true);
            if cardinality_only then Ret (add_reply (in_client s) (SReplyLongLong (cardinality s))) else
            match dstkey, dstset s with
            | Some dstkey, Some dst => inter_store s dstkey dst
            | _, _ => Ret (set_reply_len (in_client s) replylen (cardinality s))
            end
        end
  end.

Definition sinterCommand (c : sclient) (keys : list (list Z)) : res sclient := sinterGenericCommand c keys None false 0.
Definition sinterstoreCommand (c : sclient) (dstkey : list Z) (keys : list (list Z)) : res sclient := sinterGenericCommand c keys (Some dstkey) false 0.

(** *** SINTERCARD *)

(** The limit, from the arguments after the keys. *)
Fixpoint parse_limit (args : list (list Z)) (limit : Z) : set_error + Z :=
  match args with
  | [] => inr limit
  | opt :: args =>
      match args with
      | arg :: args' =>
          if is_option opt (lit "limit") then
            match string2ll arg with
            | Some l => if l <? 0 then inl SErrLimit else parse_limit args' l
            | None => inl SErrLimit
            end
          else inl SErrSyntax
      | [] => inl SErrSyntax
      end
  end.

Definition parse_sintercard (numkeys : list Z) (args : list (list Z)) : set_error + list (list Z) * Z :=
  match string2ll numkeys with
  | None => inl SErrNumkeys
  | Some n =>
      if n <? 1 then inl SErrNumkeys else
      if Z.of_nat (length args) <? n then inl SErrTooManyKeys else
      match parse_limit (drop (Z.to_nat n) args) 0 with
      | inl e => inl e
      | inr limit => inr (take (Z.to_nat n) args, limit)
      end
  end.

Definition sinterCardCommand (c : sclient) (numkeys : list Z) (args : list (list Z)) : res sclient :=
  match parse_sintercard numkeys args with
  | inl e => Ret (add_reply c (SReplyError e))
  | inr (keys, limit) => sinterGenericCommand c keys None true limit
  end.

(** *** SUNION and SDIFF *)

Inductive set_op : Type := SET_OP_UNION | SET_OP_DIFF.

(** The keyspace, the result and the number of its elements, an [int]. *)
Record union_state : Type := Union { un_client : sclient; un_dstset : sobj; un_cardinality : Z }.

Definition add_body (s : union_state) (enc : set_encoding) (v : sval) : res (union_state * bool) :=
  '(dst, new) ← set_add (un_dstset s) v;
  Ret (Union (un_client s) dst (s32 (un_cardinality s + (if new : bool then 1 else 0))), true).

Definition remove_body (s : union_state) (enc : set_encoding) (v : sval) : res (union_state * bool) :=
  '(dst, removed) ← set_remove (un_dstset s) v;
  Ret (Union (un_client s) dst (s32 (un_cardinality s - (if removed : bool then 1 else 0))), true).

Definition over (key : list Z) := for_each dictFingerprint (fun s : union_state => set_at (un_client s) key).

Fixpoint union_loop (sets : list (option (list Z))) (s : union_state) : res union_state :=
  match sets with
  | [] => Ret s
  | None :: sets => union_loop sets s
  | Some key :: sets => s ← over key add_body s; union_loop sets s
  end.

(** The first algorithm: the element is searched in the other sets, up to the
    first that has it. *)
Fixpoint in_some (c : sclient) (first : list Z) (sets : list (option (list Z))) (v : sval) : res (sclient * bool) :=
  match sets with
  | [] => Ret (c, false)
  | None :: sets => in_some c first sets v
  | Some key :: sets =>
      if bool_decide (key = first) then Ret (c, true) else
      o ← set_at c key;
      '(o, b) ← set_is_member o v;
      let c := store_set c key o in
      if b : bool then Ret (c, true) else in_some c first sets v
  end.

Definition diff_body (first : list Z) (sets : list (option (list Z))) (s : union_state) (enc : set_encoding) (v : sval) : res (union_state * bool) :=
  '(c, found) ← in_some (un_client s) first sets v;
  let s := Union c (un_dstset s) (un_cardinality s) in
  if negb found then add_body s enc v else Ret (s, true).

(** The second algorithm: the elements of the other sets are removed; the loop
    ends when nothing is left. *)
Fixpoint diff_loop (sets : list (option (list Z))) (s : union_state) : res union_state :=
  match sets with
  | [] => Ret s
  | None :: sets => diff_loop sets s
  | Some key :: sets =>
      s ← over key remove_body s;
      if un_cardinality s =? 0 then Ret s else diff_loop sets s
  end.

(** The work of the two algorithms. *)
Fixpoint diff_work (c : sclient) (first : list Z) (sets : list (option (list Z))) (one two : Z) : res (sclient * Z * Z) :=
  match sets with
  | [] => Ret (c, one, two)
  | None :: sets => diff_work c first sets one two
  | Some key :: sets =>
      '(n, c) ← size_at c (Some first);
      '(m, c) ← size_at c (Some key);
      diff_work c first sets (s64 (one + n)) (s64 (two + m))
  end.

(** The sets to subtract are sorted by decreasing size. *)
Definition diff_algo_one (c : sclient) (first : list Z) (sets : list (option (list Z))) : res union_state :=
  '(c, sets) ← sort_sets c qsortCompareSetsByRevCardinality sets;
  over first (diff_body first sets) (Union c createIntsetObject 0).

Definition diff_algo_two (c : sclient) (first : list Z) (sets : list (option (list Z))) : res union_state :=
  s ← over first add_body (Union c createIntsetObject 0);
  if un_cardinality s =? 0 then Ret s else diff_loop sets s.

Definition sdiff (c : sclient) (first : list Z) (sets : list (option (list Z))) : res union_state :=
  '(c, one, two) ← diff_work c first (Some first :: sets) 0 0;
  if Z.quot one 2 <=? two then diff_algo_one c first sets else diff_algo_two c first sets.

(** The reply with the elements of an object. *)
Definition reply_set (c : sclient) (n : Z) (o : sobj) : res sclient :=
  for_each dictFingerprint (fun _ => Ret o) (fun c _ v => Ret (reply_value c v, true)) (add_reply c (SReplySetLen n)).

Definition sunionDiffGenericCommand (c : sclient) (setkeys : list (list Z)) (dstkey : option (list Z)) (op : set_op) : res sclient :=
  match lookup_sets c setkeys with
  | None => Ret (add_reply c (SReplyError SErrWrongType))
  | Some sets =>
      s ← match op, sets with
          | SET_OP_UNION, _ => union_loop sets (Union c createIntsetObject 0)
          | SET_OP_DIFF, Some first :: others =>
              if bool_decide (Some first ∈ others) then Ret (Union c createIntsetObject 0) else sdiff c first others
          | SET_OP_DIFF, _ => Ret (Union c createIntsetObject 0)
          end;
      match dstkey with
      | None => reply_set (un_client s) (un_cardinality s) (un_dstset s)
      | Some dstkey => store_result (un_client s) dstkey (un_dstset s)
      end
  end.

Definition sunionCommand (c : sclient) (keys : list (list Z)) : res sclient := sunionDiffGenericCommand c keys None SET_OP_UNION.
Definition sunionstoreCommand (c : sclient) (dstkey : list Z) (keys : list (list Z)) : res sclient := sunionDiffGenericCommand c keys (Some dstkey) SET_OP_UNION.
Definition sdiffCommand (c : sclient) (keys : list (list Z)) : res sclient := sunionDiffGenericCommand c keys None SET_OP_DIFF.
Definition sdiffstoreCommand (c : sclient) (dstkey : list Z) (keys : list (list Z)) : res sclient := sunionDiffGenericCommand c keys (Some dstkey) SET_OP_DIFF.
End Commands.
