(* ===== verification/SetCommandSpec.v ===== *)
(** * What the commands on sets mean

    A keyspace of finite sets, and for every command of [SetCommand] its effect on
    the sets and its answer.  An answer that is a set may list its elements in any
    order, without repetition.  The commands on single sets refine this; the ones
    that combine sets are in [SetCombine]. *)
From stdpp Require Import gmap strings.
From S2P Require Import Prelude Mem IntSet NumStr Dict DictIter Listpack ListpackApi SetType SetRefine SetOps SetLookup SetCommand.

Local Open Scope Z_scope.

(** ** The specification *)

(** A key has a set, or an object of another type. *)
Abbreviation skeyspace := (gmap (list Z) (option strset)).

Inductive answer : Type :=
  | AnsInt (n : Z)
  | AnsInts (l : list Z)
  | AnsSet (X : strset)
  | AnsError (e : set_error).

Definition answers (a : answer) (rs : list sreply) : Prop :=
  match a with
  | AnsInt n => rs = [SReplyLongLong n]
  | AnsInts l => rs = SReplyArrayLen (Z.of_nat (length l)) :: map SReplyLongLong l
  | AnsSet X => exists l, NoDup l /\ list_to_set l = X /\ rs = SReplySetLen (Z.of_nat (length l)) :: map SReplyBulk l
  | AnsError e => rs = [SReplyError e]
  end.

Inductive set_command : Type :=
  | SADD (key : list Z) (args : list (list Z))
  | SREM (key : list Z) (args : list (list Z))
  | SMOVE (srckey dstkey ele : list Z)
  | SISMEMBER (key ele : list Z)
  | SMISMEMBER (key : list Z) (args : list (list Z))
  | SCARD (key : list Z)
  | SINTER (keys : list (list Z))
  | SINTERSTORE (dstkey : list Z) (keys : list (list Z))
  | SINTERCARD (numkeys : list Z) (args : list (list Z))
  | SUNION (keys : list (list Z))
  | SUNIONSTORE (dstkey : list Z) (keys : list (list Z))
  | SDIFF (keys : list (list Z))
  | SDIFFSTORE (dstkey : list Z) (keys : list (list Z)).

(** A set without elements is no set. *)
Definition put_set (a : skeyspace) (key : list Z) (X : strset) : skeyspace :=
  if bool_decide (X = ∅) then delete key a else <[key := Some X]> a.

Definition with_set (a : skeyspace) (key : list Z) (f : strset -> skeyspace * answer) : skeyspace * answer :=
  match a !! key with
  | Some None => (a, AnsError SErrWrongType)
  | Some (Some X) => f X
  | None => f ∅
  end.

(** The sets of some keys, if all are sets. *)
Fixpoint sets_of (a : skeyspace) (keys : list (list Z)) : option (list strset) :=
  match keys with
  | [] => Some []
  | key :: keys =>
      match a !! key with
      | Some None => None
      | Some (Some X) => cons X <$> sets_of a keys
      | None => cons ∅ <$> sets_of a keys
      end
  end.

Definition inter_all (Xs : list strset) : strset := match Xs with [] => ∅ | X :: Xs => foldr (∩) X Xs end.
Definition union_all (Xs : list strset) : strset := ⋃ Xs.
Definition diff_all (Xs : list strset) : strset := match Xs with [] => ∅ | X :: Xs => X ∖ ⋃ Xs end.

Definition query_sets (a : skeyspace) (keys : list (list Z)) (f : list strset -> strset) (answer_of : strset -> answer) : skeyspace * answer :=
  match sets_of a keys with None => (a, AnsError SErrWrongType) | Some Xs => (a, answer_of (f Xs)) end.

Definition store_sets (a : skeyspace) (dstkey : list Z) (keys : list (list Z)) (f : list strset -> strset) : skeyspace * answer :=
  match sets_of a keys with
  | None => (a, AnsError SErrWrongType)
  | Some Xs => (put_set a dstkey (f Xs), AnsInt (Z.of_nat (size (f Xs))))
  end.

Definition int_of_bool (b : bool) : Z := if b then 1 else 0.

Definition spec_command (a : skeyspace) (cmd : set_command) : skeyspace * answer :=
  match cmd with
  | SADD key args => with_set a key (fun X =>
      let X' := list_to_set args ∪ X in (put_set a key X', AnsInt (Z.of_nat (size X') - Z.of_nat (size X))))
  | SREM key args => with_set a key (fun X =>
      let X' := X ∖ list_to_set args in (put_set a key X', AnsInt (Z.of_nat (size X) - Z.of_nat (size X'))))
  | SMOVE srckey dstkey ele =>
      match a !! srckey with
      | None => (a, AnsInt 0)
      | _ => with_set a srckey (fun X => with_set a dstkey (fun Y =>
          if bool_decide (ele ∈ X) then (put_set (put_set a srckey (X ∖ {[ele]})) dstkey ({[ele]} ∪ Y), AnsInt 1) else (a, AnsInt 0)))
      end
  | SISMEMBER key ele => with_set a key (fun X => (a, AnsInt (int_of_bool (bool_decide (ele ∈ X)))))
  | SMISMEMBER key args => with_set a key (fun X => (a, AnsInts (map (fun ele => int_of_bool (bool_decide (ele ∈ X))) args)))
  | SCARD key => with_set a key (fun X => (a, AnsInt (Z.of_nat (size X))))
  | SINTER keys => query_sets a keys inter_all AnsSet
  | SINTERSTORE dstkey keys => store_sets a dstkey keys inter_all
  | SINTERCARD numkeys args =>
      match parse_sintercard numkeys args with
      | inl e => (a, AnsError e)
      | inr (keys, limit) => query_sets a keys inter_all (fun X => AnsInt (if limit =? 0 then Z.of_nat (size X) else Z.min limit (Z.of_nat (size X))))
      end
  | SUNION keys => query_sets a keys union_all AnsSet
  | SUNIONSTORE dstkey keys => store_sets a dstkey keys union_all
  | SDIFF keys => query_sets a keys diff_all AnsSet
  | SDIFFSTORE dstkey keys => store_sets a dstkey keys diff_all
  end.

Lemma empty_difference (X : strset) : ∅ ∖ X = ∅.
Proof. set_solver. Qed.

(** ** The keyspace of a client *)

(** The limits of the configuration: intsets stay below what their 32-bit sizes
    can hold. *)
Record limits_ok (set_max_intset_entries set_max_listpack_entries : Z) : Prop := {
  max_intset_small : set_max_intset_entries + 1 < 2 ^ 29;
  max_intset_nonneg : 0 <= set_max_intset_entries;
  max_listpack_nonneg : 0 <= set_max_listpack_entries;
}.

(** The strings that can be elements are fewer than an [int] can count. *)
Record universe_ok (U : strset) : Prop := {
  universe_strings : set_Forall string_ok U;
  universe_size : Z.of_nat (size U) < 2 ^ 31;
}.

Section Spec.
Context `{Heap} `{Usable} `{Qsort}.
Context (dictSdsHash : list Z -> Z) (dict_can_resize : dictResizeEnable).
Context (dictFingerprint : dict (list Z) unit -> Z).
Context (set_max_intset_entries set_max_listpack_entries set_max_listpack_value : Z).
Hypothesis limits : limits_ok set_max_intset_entries set_max_listpack_entries.
Context (U : strset).
Hypothesis HU : universe_ok U.
Local Abbreviation repr := (set_repr dictSdsHash set_max_intset_entries set_max_listpack_entries set_max_listpack_value).

Local Abbreviation add := (setTypeAddAux dictSdsHash dict_can_resize dictFingerprint set_max_intset_entries set_max_listpack_entries set_max_listpack_value).
Local Abbreviation remove := (setTypeRemoveAux dictSdsHash dict_can_resize).
Local Abbreviation is_member := (setTypeIsMemberAux dictSdsHash dict_can_resize).

Definition run_command (c : sclient) (cmd : set_command) : res sclient :=
  match cmd with
  | SADD key args => saddCommand dictSdsHash dict_can_resize dictFingerprint set_max_intset_entries set_max_listpack_entries set_max_listpack_value c key args
  | SREM key args => sremCommand dictSdsHash dict_can_resize c key args
  | SMOVE srckey dstkey ele => smoveCommand dictSdsHash dict_can_resize dictFingerprint set_max_intset_entries set_max_listpack_entries set_max_listpack_value c srckey dstkey ele
  | SISMEMBER key ele => sismemberCommand dictSdsHash dict_can_resize c key ele
  | SMISMEMBER key args => smismemberCommand dictSdsHash dict_can_resize c key args
  | SCARD key => scardCommand c key
  | SINTER keys => sinterCommand dictSdsHash dict_can_resize dictFingerprint set_max_intset_entries set_max_listpack_entries set_max_listpack_value c keys
  | SINTERSTORE dstkey keys => sinterstoreCommand dictSdsHash dict_can_resize dictFingerprint set_max_intset_entries set_max_listpack_entries set_max_listpack_value c dstkey keys
  | SINTERCARD numkeys args => sinterCardCommand dictSdsHash dict_can_resize dictFingerprint set_max_intset_entries set_max_listpack_entries set_max_listpack_value c numkeys args
  | SUNION keys => sunionCommand dictSdsHash dict_can_resize dictFingerprint set_max_intset_entries set_max_listpack_entries set_max_listpack_value c keys
  | SUNIONSTORE dstkey keys => sunionstoreCommand dictSdsHash dict_can_resize dictFingerprint set_max_intset_entries set_max_listpack_entries set_max_listpack_value c dstkey keys
  | SDIFF keys => sdiffCommand dictSdsHash dict_can_resize dictFingerprint set_max_intset_entries set_max_listpack_entries set_max_listpack_value c keys
  | SDIFFSTORE dstkey keys => sdiffstoreCommand dictSdsHash dict_can_resize dictFingerprint set_max_intset_entries set_max_listpack_entries set_max_listpack_value c dstkey keys
  end.

(** The object of a key represents its set, which is not empty. *)
Definition obj_repr (x : option sval_obj) (y : option (option strset)) : Prop :=
  match x, y with
  | None, None => True
  | Some OBJ_NO_SET, Some None => True
  | Some (OBJ_SET o), Some (Some X) => repr o X /\ X <> ∅ /\ X ⊆ U
  | _, _ => False
  end.

Definition db_repr (c : sclient) (a : skeyspace) : Prop := forall key, obj_repr (sdb c !! key) (a !! key).

(** What the refinement of a command is. *)
Definition refines (c : sclient) (r : res sclient) (s : skeyspace * answer) : Prop :=
  exists c' rs, r = Ret c' /\ sreplies c' = sreplies c ++ rs /\ answers s.2 rs /\ db_repr c' s.1.

Implicit Types (a : skeyspace) (c : sclient) (X : strset) (o : sobj).

Lemma db_reply c a r : db_repr c a -> db_repr (add_reply c r) a.
Proof using Type. done. Qed.

Lemma db_store c a key o X : db_repr c a -> repr o X -> X <> ∅ -> X ⊆ U -> db_repr (store_set c key o) (<[key := Some X]> a).
Proof using Type.
  intros Hc Hr Hne HX k. cbn. destruct (decide (k = key)) as [->|Hk]; [by rewrite !lookup_insert_eq|]. rewrite !lookup_insert_ne by done. apply Hc.
Qed.

Lemma db_delete c a key : db_repr c a -> db_repr (delete_key c key) (delete key a).
Proof using Type.
  intros Hc k. cbn. destruct (decide (k = key)) as [->|Hk]; [by rewrite !lookup_delete_eq|]. rewrite !lookup_delete_ne by done. apply Hc.
Qed.

(** The object is another, the set the same. *)
Lemma db_update c a key o X : db_repr c a -> a !! key = Some (Some X) -> repr o X -> db_repr (store_set c key o) a.
Proof using Type.
  intros Hc Ha Hr. rewrite <- (insert_id a key (Some X)) by done. pose proof (Hc key) as Hk. rewrite Ha in Hk.
  destruct (sdb c !! key) as [[o'|]|]; cbn in Hk; try done. apply db_store; [done|done|apply Hk..].
Qed.

Lemma db_put c a key o X : db_repr c a -> repr o X -> X <> ∅ -> X ⊆ U -> db_repr (store_set c key o) (put_set a key X).
Proof using Type. intros Hc Hr Hne HX. unfold put_set. rewrite bool_decide_eq_false_2 by done. by apply db_store. Qed.

Lemma put_empty a key : put_set a key ∅ = delete key a.
Proof using Type. unfold put_set. by rewrite bool_decide_eq_true_2. Qed.

(** The cases of a lookup. *)
Lemma lookup_cases c a key : db_repr c a ->
  match lookup_set c key with
  | SMissing => a !! key = None
  | SWrongType => a !! key = Some None
  | SFound o => exists X, a !! key = Some (Some X) /\ repr o X /\ X <> ∅ /\ X ⊆ U
  end.
Proof using Type.
  intros Hc. pose proof (Hc key) as Hk. unfold lookup_set. destruct (sdb c !! key) as [[o|]|], (a !! key) as [[X|]|]; cbn in Hk; try done. by exists X.
Qed.

Lemma set_at_spec c a key X : db_repr c a -> a !! key = Some (Some X) -> exists o, set_at c key = Ret o /\ repr o X /\ X <> ∅ /\ X ⊆ U.
Proof using Type.
  intros Hc Ha. pose proof (lookup_cases c a key Hc) as Hk. unfold set_at. destruct (lookup_set c key) as [| |o]; rewrite Ha in Hk; [done|done|].
  destruct Hk as (X' & [= <-] & Hk). by exists o.
Qed.

Lemma universe_bound X : X ⊆ U -> Z.of_nat (size X) < 2 ^ 31.
Proof using HU. intros HX. pose proof (universe_size U HU). apply subseteq_size in HX. lia. Qed.

Lemma refines_reply c a r ans : db_repr c a -> answers ans [r] -> refines c (Ret (add_reply c r)) (a, ans).
Proof using Type. intros Hc Ha. exists (add_reply c r), [r]. by split_and!. Qed.

(** A reply with one number, after a change of the keyspace. *)
Lemma refines_int c c1 a' n : sreplies c1 = sreplies c -> db_repr c1 a' -> refines c (Ret (add_reply c1 (SReplyLongLong n))) (a', AnsInt n).
Proof using Type. intros Hr Hc. exists (add_reply c1 (SReplyLongLong n)), [SReplyLongLong n]. split_and!; [done|cbn; by rewrite Hr|done|done]. Qed.

(** ** SADD and SREM *)

Lemma add_ok o X s : repr o X -> X ⊆ U -> s ∈ U -> exists o', add o (SStr s) = Ret (o', bool_decide (s ∉ X)) /\ repr o' ({[s]} ∪ X).
Proof using HU limits.
  intros Hr HX Hs. pose proof (universe_bound X HX). destruct limits as [Hm1 Hm2 Hm3].
  apply (add_spec dictSdsHash dict_can_resize dictFingerprint _ _ _ Hm1 o X (SStr s)); [done|done|by apply (universe_strings U HU)|lia].
Qed.

Lemma sadd_loop_spec args o X n : repr o X -> X ⊆ U -> Forall (fun s => s ∈ U) args ->
  exists o', sadd_loop dictSdsHash dict_can_resize dictFingerprint set_max_intset_entries set_max_listpack_entries set_max_listpack_value o args n =
    Ret (o', n + (Z.of_nat (size (list_to_set args ∪ X)) - Z.of_nat (size X))) /\ repr o' (list_to_set args ∪ X).
Proof using HU limits.
  revert o X n. induction args as [|s args IH]; intros o X n Hr HX Hargs; cbn [sadd_loop].
  { cbn [list_to_set]. rewrite union_empty_l_L. exists o. split; [|done]. do 2 f_equal. lia. }
  apply Forall_cons in Hargs as [Hs Hargs]. destruct (add_ok o X s Hr HX Hs) as (o1 & -> & Hr1). cbn [mbind res_bind].
  destruct (IH o1 ({[s]} ∪ X) (if bool_decide (s ∉ X) then n + 1 else n) Hr1) as (o2 & -> & Hr2); [|done|].
  { apply union_subseteq. split; [|done]. by apply singleton_subseteq_l. }
  exists o2. assert (list_to_set args ∪ ({[s]} ∪ X) = list_to_set (s :: args) ∪ X) as E by (cbn [list_to_set]; rewrite (union_comm_L {[s]} (list_to_set args)), union_assoc_L; done).
  rewrite E in *. split; [|done]. do 2 f_equal. case_bool_decide as Hin.
  - rewrite (size_union {[s]} X) by (by apply disjoint_singleton_l). rewrite size_singleton. lia.
  - destruct (decide (s ∈ X)) as [Hx|]; [|done]. rewrite (add_present s X) by done. lia.
Qed.

Lemma refines_sadd c a key args : db_repr c a -> Forall (fun s => s ∈ U) args -> args <> [] -> Z.of_nat (length args) < 2 ^ 60 ->
  refines c (run_command c (SADD key args)) (spec_command a (SADD key args)).
Proof using HU limits.
  intros Hc Hargs Hne Hlen. cbn [run_command spec_command]. unfold saddCommand, with_set. pose proof (lookup_cases c a key Hc) as Hk. pose proof limits as [Hm1 Hm2 Hm3].
  assert (forall X, X ⊆ U -> list_to_set args ∪ X ⊆ U) as HXU.
  { intros X HX. apply union_subseteq. split; [|done]. intros s Hs%elem_of_list_to_set. exact (proj1 (Forall_forall _ _) Hargs s Hs). }
  assert (forall o X, repr o X -> X ⊆ U -> refines c ('(set, added) ← sadd_loop dictSdsHash dict_can_resize dictFingerprint set_max_intset_entries set_max_listpack_entries set_max_listpack_value o args 0;
    Ret (add_reply (store_set c key set) (SReplyLongLong added))) (put_set a key (list_to_set args ∪ X), AnsInt (Z.of_nat (size (list_to_set args ∪ X)) - Z.of_nat (size X)))) as Hadd.
  { intros o X Hr HX. destruct (sadd_loop_spec args o X 0 Hr HX Hargs) as (o' & -> & Hr'). cbn [mbind res_bind]. rewrite Z.add_0_l. apply refines_int; [done|].
    apply db_put; [done|done| |by apply HXU]. destruct args as [|s args]; [done|]. cbn [list_to_set]. intros E. apply (not_elem_of_empty (C := strset) s). rewrite <- E. set_solver. }
  destruct (lookup_set c key) as [| |o].
  - rewrite Hk. destruct (create_spec dictSdsHash _ _ set_max_listpack_value Hm1 Hm2 Hm3 (hd [] args) (Z.of_nat (length args))) as (o & -> & Hr); [lia|]. cbn [mbind res_bind].
    by apply Hadd; [|apply empty_subseteq].
  - rewrite Hk. by apply refines_reply.
  - destruct Hk as (X & -> & Hr & _ & HX). pose proof (universe_bound X HX).
    destruct (maybeConvert_spec dictSdsHash dict_can_resize dictFingerprint set_max_intset_entries set_max_listpack_entries set_max_listpack_value o X (Z.of_nat (length args)) Hr) as (o' & -> & Hr'); [lia|lia|].
    cbn [mbind res_bind]. by apply Hadd.
Qed.

Lemma diff_cons X (s : list Z) args : X ∖ list_to_set (s :: args) = X ∖ {[s]} ∖ list_to_set args.
Proof using Type. cbn [list_to_set]. by rewrite difference_difference_l_L. Qed.

Lemma remove_size X (s : list Z) : Z.of_nat (size (X ∖ {[s]})) = Z.of_nat (size X) - int_of_bool (bool_decide (s ∈ X)).
Proof using Type.
  case_bool_decide as Hs; cbn [int_of_bool].
  - assert ({[s]} ## X ∖ {[s]}) as Hd by (apply disjoint_singleton_l; intros [_ Hx]%elem_of_difference; by apply Hx, elem_of_singleton).
    pose proof (size_union _ _ Hd) as E. rewrite <- union_difference_singleton_L, size_singleton in E by done. lia.
  - rewrite difference_disjoint_L by (by apply disjoint_singleton_r). lia.
Qed.

Lemma remove_ok o X s : repr o X -> X ⊆ U -> exists o', remove o (SStr s) = Ret (o', bool_decide (s ∈ X)) /\ repr o' (X ∖ {[s]}).
Proof using HU.
  intros Hr HX. pose proof (universe_bound X HX). apply (remove_spec dictSdsHash dict_can_resize _ _ _ o X (SStr s)); [done|done|lia].
Qed.

Lemma difference_U X Y : X ⊆ U -> X ∖ Y ⊆ U.
Proof using Type. intros HX s [Hs _]%elem_of_difference. by apply HX. Qed.

Lemma size_zero X : (Z.of_nat (size X) =? 0) = bool_decide (X = ∅).
Proof using Type.
  case_bool_decide as E; [by rewrite E|]. apply Z.eqb_neq. intros Hz. apply E, leibniz_equiv, size_empty_iff. lia.
Qed.

Lemma srem_loop_spec args o X n : repr o X -> X <> ∅ -> X ⊆ U ->
  exists r, srem_loop dictSdsHash dict_can_resize o args n = Ret (r, n + (Z.of_nat (size X) - Z.of_nat (size (X ∖ list_to_set args)))) /\
    match r with Some o' => repr o' (X ∖ list_to_set args) /\ X ∖ list_to_set args <> ∅ | None => X ∖ list_to_set args = ∅ end.
Proof using HU.
  revert o X n. induction args as [|s args IH]; intros o X n Hr Hne HX; cbn [srem_loop].
  { cbn [list_to_set]. rewrite difference_empty_L. exists (Some o). split; [|done]. do 2 f_equal. lia. }
  rewrite diff_cons. destruct (remove_ok o X s Hr HX) as (o1 & -> & Hr1). cbn [mbind res_bind]. pose proof (remove_size X s) as Hsz. pose proof (difference_U X {[s]} HX) as HX1.
  case_bool_decide as Hs; cbn [int_of_bool] in Hsz.
  - destruct (size_repr dictSdsHash _ _ _ o1 _ Hr1) as (o2 & -> & Hr2 & _). cbn [mbind res_bind]. rewrite size_zero. case_bool_decide as He.
    + exists None. rewrite He, size_empty in Hsz. rewrite He, empty_difference, size_empty. split; [|done]. do 2 f_equal. lia.
    + destruct (IH o2 _ (n + 1) Hr2 He HX1) as (r & -> & Hres). exists r. split; [|done]. do 2 f_equal. lia.
  - assert (X ∖ {[s]} = X) as E by (by rewrite difference_disjoint_L by (by apply disjoint_singleton_r)). rewrite E in *.
    destruct (IH o1 X n Hr1 Hne HX) as (r & -> & Hres). exists r. by split.
Qed.

Lemma refines_srem c a key args : db_repr c a -> refines c (run_command c (SREM key args)) (spec_command a (SREM key args)).
Proof using HU.
  intros Hc. cbn [run_command spec_command]. unfold sremCommand, with_set. pose proof (lookup_cases c a key Hc) as Hk. destruct (lookup_set c key) as [| |o].
  - rewrite Hk. rewrite empty_difference, put_empty, delete_id by done. by apply refines_reply.
  - rewrite Hk. by apply refines_reply.
  - destruct Hk as (X & -> & Hr & Hne & HX). destruct (srem_loop_spec args o X 0 Hr Hne HX) as (r & -> & Hres). cbn [mbind res_bind]. rewrite Z.add_0_l.
    destruct r as [o'|].
    + apply refines_int; [done|]. destruct Hres as [Hr' Hne']. apply db_put; [done|done|done|by apply difference_U].
    + apply refines_int; [done|]. rewrite Hres, put_empty. by apply db_delete.
Qed.

(** ** SISMEMBER, SMISMEMBER, SCARD *)

Lemma member_ok o X s : repr o X -> exists o', is_member o (SStr s) = Ret (o', bool_decide (s ∈ X)) /\ repr o' X.
Proof using Type. intros Hr. by apply (member_spec dictSdsHash dict_can_resize _ _ _ o X (SStr s)). Qed.

Lemma refines_sismember c a key ele : db_repr c a -> refines c (run_command c (SISMEMBER key ele)) (spec_command a (SISMEMBER key ele)).
Proof using Type.
  intros Hc. cbn [run_command spec_command]. unfold sismemberCommand, with_set. pose proof (lookup_cases c a key Hc) as Hk. destruct (lookup_set c key) as [| |o].
  - rewrite Hk. by apply refines_reply.
  - rewrite Hk. by apply refines_reply.
  - destruct Hk as (X & Ha & Hr & _). rewrite Ha. destruct (member_ok o X ele Hr) as (o' & -> & Hr'). cbn [mbind res_bind]. apply refines_int; [done|]. by eapply db_update.
Qed.

Lemma smismember_loop_spec args c a key X : db_repr c a -> match a !! key with Some (Some Y) => Y = X | _ => X = ∅ end ->
  exists c', smismember_loop dictSdsHash dict_can_resize c key args = Ret c' /\ db_repr c' a /\
    sreplies c' = sreplies c ++ map (fun ele => SReplyLongLong (int_of_bool (bool_decide (ele ∈ X)))) args.
Proof using Type.
  intros Hc HX. revert c Hc. induction args as [|s args IH]; intros c Hc; cbn [smismember_loop map].
  { exists c. by rewrite app_nil_r. }
  pose proof (lookup_cases c a key Hc) as Hk. destruct (lookup_set c key) as [| |o]; cbn [mbind res_bind].
  1,2: rewrite Hk in HX; subst X; destruct (IH (add_reply c (SReplyLongLong 0)) Hc) as (c' & -> & Hc' & E); exists c'; split_and!; [done|done|]; rewrite E; cbn; by rewrite <- app_assoc.
  destruct Hk as (Y & Ha & Hr & _). rewrite Ha in HX. subst Y. destruct (member_ok o X s Hr) as (o' & -> & Hr'). cbn [mbind res_bind].
  destruct (IH (add_reply (store_set c key o') (SReplyLongLong (if bool_decide (s ∈ X) then 1 else 0)))) as (c' & -> & Hc' & E).
  { apply db_reply. by eapply db_update. }
  exists c'. split_and!; [done|done|]. rewrite E. cbn. by rewrite <- app_assoc.
Qed.

Lemma refines_smismember c a key args : db_repr c a -> refines c (run_command c (SMISMEMBER key args)) (spec_command a (SMISMEMBER key args)).
Proof using Type.
  intros Hc. cbn [run_command spec_command]. unfold smismemberCommand, with_set. pose proof (lookup_cases c a key Hc) as Hk.
  set (c1 := add_reply c (SReplyArrayLen (Z.of_nat (length args)))).
  assert (forall X, match a !! key with Some (Some Y) => Y = X | _ => X = ∅ end ->
    refines c (smismember_loop dictSdsHash dict_can_resize c1 key args) (a, AnsInts (map (fun ele => int_of_bool (bool_decide (ele ∈ X))) args))) as Hl.
  { intros X HX. destruct (smismember_loop_spec args c1 a key X Hc HX) as (c' & -> & Hc' & E). eexists c', _. split; [done|]. split; [|split; [|done]].
    - rewrite E. cbn. rewrite <- app_assoc. reflexivity.
    - cbn. by rewrite length_map, map_map. }
  destruct (lookup_set c key) as [| |o].
  - rewrite Hk in Hl |- *. by apply Hl.
  - rewrite Hk. by apply refines_reply.
  - destruct Hk as (X & Ha & _). rewrite Ha in Hl |- *. by apply Hl.
Qed.

Lemma refines_scard c a key : db_repr c a -> refines c (run_command c (SCARD key)) (spec_command a (SCARD key)).
Proof using Type.
  intros Hc. cbn [run_command spec_command]. unfold scardCommand, with_set. pose proof (lookup_cases c a key Hc) as Hk. destruct (lookup_set c key) as [| |o].
  - rewrite Hk. by apply refines_reply.
  - rewrite Hk. by apply refines_reply.
  - destruct Hk as (X & Ha & Hr & _). rewrite Ha. destruct (size_repr dictSdsHash _ _ _ o X Hr) as (o' & -> & Hr' & _). cbn [mbind res_bind].
    apply refines_int; [done|]. by eapply db_update.
Qed.

(** ** SMOVE *)

Lemma put_put a key X Y : Y <> ∅ -> put_set (put_set a key X) key Y = <[key := Some Y]> a.
Proof using Type.
  intros HY. unfold put_set at 1. rewrite bool_decide_eq_false_2 by done. unfold put_set. case_bool_decide; [by rewrite insert_delete_eq|by rewrite insert_insert_eq].
Qed.

Lemma singleton_nonempty (s : list Z) X : {[s]} ∪ X <> ∅.
Proof using Type. intros E. apply (not_elem_of_empty (C := strset) s). rewrite <- E. apply elem_of_union_l. by apply elem_of_singleton. Qed.

(** Between two keys. *)
Lemma smove_keys c a srckey dstkey ele o X dst Y :
  srckey <> dstkey -> db_repr c a -> repr o X -> X ⊆ U -> ele ∈ X -> match dst with SFound o => repr o Y | _ => Y = ∅ end -> Y ⊆ U ->
  refines c ('(o, removed) ← remove o (SStr ele);
     if negb removed then Ret (add_reply (store_set c srckey o) (SReplyLongLong 0)) else
     '(n, o) ← setTypeSize o;
     let c := if n =? 0 then delete_key c srckey else store_set c srckey o in
     dstset ← match dst with SFound o => Ret o | _ => setTypeCreate set_max_intset_entries set_max_listpack_entries ele 1 end;
     '(dstset, _) ← add dstset (SStr ele);
     Ret (add_reply (store_set c dstkey dstset) (SReplyLongLong 1))) (put_set (put_set a srckey (X ∖ {[ele]})) dstkey ({[ele]} ∪ Y), AnsInt 1).
Proof using HU limits.
  intros Hne Hc Hr HX Hele Hdst HY. destruct (remove_ok o X ele Hr HX) as (o1 & -> & Hr1). rewrite bool_decide_eq_true_2 by done. cbn [mbind res_bind negb].
  destruct (size_repr dictSdsHash _ _ _ o1 _ Hr1) as (o2 & -> & Hr2 & _). cbn [mbind res_bind]. rewrite size_zero.
  set (c1 := if bool_decide (X ∖ {[ele]} = ∅) then delete_key c srckey else store_set c srckey o2).
  assert (db_repr c1 (put_set a srckey (X ∖ {[ele]})) /\ sreplies c1 = sreplies c) as [Hc1 Er].
  { unfold c1. case_bool_decide as E; split; try done; [rewrite E, put_empty; by apply db_delete|]. apply db_put; [done|done|done|by apply difference_U]. }
  pose proof limits as [Hm1 Hm2 Hm3]. assert (exists d, match dst with SFound o => Ret o | _ => setTypeCreate set_max_intset_entries set_max_listpack_entries ele 1 end = Ret d /\ repr d Y) as (d & -> & Hd).
  { destruct dst as [| |d]; [..|by exists d]; subst Y; by apply (create_spec dictSdsHash). }
  cbn [mbind res_bind]. assert (ele ∈ U) as He by (by apply HX). destruct (add_ok d Y ele Hd HY He) as (d' & -> & Hd'). cbn [mbind res_bind].
  apply refines_int; [done|]. apply db_put; [done|done|apply singleton_nonempty|]. apply union_subseteq. split; [by apply singleton_subseteq_l|done].
Qed.

Lemma refines_smove c a srckey dstkey ele : db_repr c a -> refines c (run_command c (SMOVE srckey dstkey ele)) (spec_command a (SMOVE srckey dstkey ele)).
Proof using HU limits.
  intros Hc. cbn [run_command spec_command]. unfold smoveCommand, with_set. pose proof (lookup_cases c a srckey Hc) as Hs. pose proof (lookup_cases c a dstkey Hc) as Hd.
  destruct (lookup_set c srckey) as [| |o].
  { rewrite Hs. by apply refines_reply. }
  { rewrite Hs. by apply refines_reply. }
  destruct Hs as (X & Ha & Hr & Hne & HX). rewrite Ha. case_bool_decide as Ek.
  { subst dstkey. destruct (lookup_set c srckey) as [| |o1]; [congruence|congruence|]. rewrite Ha. destruct (member_ok o X ele Hr) as (o' & -> & Hr'). cbn [mbind res_bind].
    assert (db_repr (store_set c srckey o') a) as Hc' by (by eapply db_update). case_bool_decide as Hele; [|by apply refines_int].
    rewrite put_put by apply singleton_nonempty. rewrite (add_present ele X) by done. rewrite insert_id by done. by apply refines_int. }
  assert (forall o', ele ∉ X -> repr o' X -> refines c (Ret (add_reply (store_set c srckey o') (SReplyLongLong 0))) (a, AnsInt 0)) as Hzero.
  { intros o' _ Hr'. apply refines_int; [done|]. by eapply db_update. }
  destruct (lookup_set c dstkey) as [| |od] eqn:El.
  - rewrite Hd. destruct (decide (ele ∈ X)) as [He|He].
    + rewrite bool_decide_eq_true_2 by done. by apply (smove_keys c a srckey dstkey ele o X SMissing ∅).
    + rewrite bool_decide_eq_false_2 by done. destruct (remove_ok o X ele Hr HX) as (o1 & -> & Hr1). rewrite bool_decide_eq_false_2 by done. cbn [mbind res_bind negb].
      rewrite difference_disjoint_L in Hr1 by (by apply disjoint_singleton_r). by apply Hzero.
  - rewrite Hd. by apply refines_reply.
  - destruct Hd as (Y & Hy & Hrd & Hney & HY). rewrite Hy. destruct (decide (ele ∈ X)) as [He|He].
    + rewrite bool_decide_eq_true_2 by done. by apply (smove_keys c a srckey dstkey ele o X (SFound od) Y).
    + rewrite bool_decide_eq_false_2 by done. destruct (remove_ok o X ele Hr HX) as (o1 & -> & Hr1). rewrite bool_decide_eq_false_2 by done. cbn [mbind res_bind negb].
      rewrite difference_disjoint_L in Hr1 by (by apply disjoint_singleton_r). by apply Hzero.
Qed.
End Spec.
