(* ===== verification/SetCombine.v ===== *)
(** * The commands that combine sets

    SINTER, SINTERSTORE, SINTERCARD, SUNION, SUNIONSTORE, SDIFF and SDIFFSTORE refine
    the specification of [SetCommandSpec].  The order in which [qsort] puts the
    sets is arbitrary, a key may be named more than once and be the target, and
    both algorithms of SDIFF compute the same set.  The set that is iterated is
    never one that is searched, so that its dictionary is not rehashed under the
    iterator. *)
From stdpp Require Import gmap strings.
From S2P Require Import Prelude Mem IntSet NumStr Dict DictIter Listpack ListpackNav ListpackApi SetType SetRefine SetOps SetLookup SetCommand SetCommandSpec.

Local Open Scope Z_scope.

(** ** Lists of sets *)

Definition opt_set (a : skeyspace) (key : option (list Z)) : strset :=
  match key with Some key => match a !! key with Some (Some X) => X | _ => ∅ end | None => ∅ end.

(** The pointers are those of sets. *)
Definition is_set (a : skeyspace) (key : option (list Z)) : Prop :=
  match key with Some key => exists X, a !! key = Some (Some X) | None => True end.

Lemma foldr_inter (X : strset) Xs s : s ∈ foldr (∩) X Xs <-> s ∈ X /\ forall Y, Y ∈ Xs -> s ∈ Y.
Proof.
  induction Xs as [|Y Xs IH]; cbn [foldr]; [split; [intros Hs; split; [done|]; by intros Y ?%not_elem_of_nil|by intros []]|].
  rewrite elem_of_intersection, IH. split.
  - intros (HY & HX & Hall). split; [done|]. intros Z [->|HZ]%elem_of_cons; [done|by apply Hall].
  - intros (HX & Hall). split; [apply Hall; left|]. split; [done|]. intros Z HZ. apply Hall. by right.
Qed.

Lemma elem_of_inter_all Xs s : s ∈ inter_all Xs <-> Xs <> [] /\ forall Y, Y ∈ Xs -> s ∈ Y.
Proof.
  destruct Xs as [|X Xs]; cbn [inter_all]; [rewrite elem_of_empty; naive_solver|]. rewrite foldr_inter. split.
  - intros [HX Hall]. split; [done|]. intros Y [->|HY]%elem_of_cons; [done|by apply Hall].
  - intros [_ Hall]. split; [apply Hall; left|]. intros Y HY. apply Hall. by right.
Qed.

Lemma inter_all_empty Xs : ∅ ∈ Xs -> inter_all Xs = ∅.
Proof. intros Hin. apply set_eq. intros s. rewrite elem_of_inter_all. set_solver. Qed.

#[export] Instance inter_all_perm : Proper ((≡ₚ) ==> (=)) inter_all.
Proof.
  assert (forall Xs Ys s, Xs ≡ₚ Ys -> s ∈ inter_all Xs -> s ∈ inter_all Ys) as Himp.
  { intros Xs Ys s Hp. rewrite !elem_of_inter_all. intros [Hne Hall]. split; [|intros Y HY; apply Hall; by rewrite Hp].
    intros ->. by apply Hne, Permutation_nil_r. }
  intros Xs Ys Hp. apply set_eq. intros s. split; apply Himp; [done|by symmetry].
Qed.

Section Combine.
Context `{Heap} `{Usable} `{Qsort}.
Context (dictSdsHash : list Z -> Z) (dict_can_resize : dictResizeEnable).
Context (dictFingerprint : dict (list Z) unit -> Z).
Context (set_max_intset_entries set_max_listpack_entries set_max_listpack_value : Z).
Hypothesis limits : limits_ok set_max_intset_entries set_max_listpack_entries.
Context (U : strset).
Hypothesis HU : universe_ok U.
Local Abbreviation repr := (set_repr dictSdsHash set_max_intset_entries set_max_listpack_entries set_max_listpack_value).
Local Abbreviation add := (setTypeAddAux dictSdsHash dict_can_resize dictFingerprint set_max_intset_entries set_max_listpack_entries set_max_listpack_value).
Local Abbreviation remove := (setTypeRemoveAux dictSdsHash dict_can_resize).
Local Abbreviation db_is := (db_repr dictSdsHash set_max_intset_entries set_max_listpack_entries set_max_listpack_value U).
Local Abbreviation refines := (refines dictSdsHash set_max_intset_entries set_max_listpack_entries set_max_listpack_value U).
Implicit Types (a : skeyspace) (c : sclient) (X : strset) (o : sobj) (sets : list (option (list Z))).

Lemma lookup_sets_spec c a keys : db_is c a ->
  match lookup_sets c keys with
  | None => sets_of a keys = None
  | Some sets => sets_of a keys = Some (map (opt_set a) sets) /\ Forall (is_set a) sets /\ length sets = length keys
  end.
Proof using Type.
  intros Hc. induction keys as [|key keys IH]; cbn [lookup_sets sets_of]; [by split_and!|].
  pose proof (lookup_cases _ _ _ _ _ c a key Hc) as Hk. destruct (lookup_set c key) as [| |o].
  - rewrite Hk. destruct (lookup_sets c keys) as [sets|]; cbn; [|by rewrite IH]. destruct IH as (-> & Hs & Hl). split_and!; [done|by constructor|cbn; lia].
  - by rewrite Hk.
  - destruct Hk as (X & Ha & _). rewrite Ha. destruct (lookup_sets c keys) as [sets|]; cbn; [|by rewrite IH]. destruct IH as (-> & Hs & Hl).
    split_and!; [by rewrite Ha|constructor; [by exists X|done]|cbn; lia].
Qed.

(** The keyspace changes only in ways that are not seen. *)
Definition same_sets (c c' : sclient) (a : skeyspace) : Prop := db_is c' a /\ sreplies c' = sreplies c.

Lemma size_at_spec c a key : db_is c a -> is_set a key -> exists c', size_at c key = Ret (Z.of_nat (size (opt_set a key)), c') /\ same_sets c c' a.
Proof using Type.
  intros Hc Hs. unfold size_at. destruct key as [key|]; [|by eexists]. destruct Hs as [X Ha]. cbn [opt_set]. rewrite Ha.
  destruct (set_at_spec _ _ _ _ _ c a key X Hc Ha) as (o & -> & Hr & _). cbn [mbind res_bind]. destruct (size_repr _ _ _ _ o X Hr) as (o' & -> & Hr' & _).
  eexists. split; [done|]. split; [by eapply db_update|done].
Qed.

Lemma read_sizes_spec c a sets : db_is c a -> Forall (is_set a) sets ->
  exists c', read_sizes c sets = Ret (c', map (fun key => (key, Z.of_nat (size (opt_set a key)))) sets) /\ same_sets c c' a.
Proof using Type.
  intros Hc Hs. revert c Hc. induction Hs as [|key sets Hk Hs IH]; intros c Hc; cbn [read_sizes map]; [by eexists|].
  destruct (size_at_spec c a key Hc Hk) as (c1 & -> & Hc1 & E1). cbn [mbind res_bind]. destruct (IH c1 Hc1) as (c2 & -> & Hc2 & E2). cbn [mbind res_bind].
  eexists. split; [done|]. split; [done|congruence].
Qed.

Lemma sort_sets_spec c a cmp sets : db_is c a -> Forall (is_set a) sets ->
  exists c' sets', sort_sets c cmp sets = Ret (c', sets') /\ sets' ≡ₚ sets /\ same_sets c c' a.
Proof using Type.
  intros Hc Hs. unfold sort_sets. destruct sets as [|k1 [|k2 sets]]; [by eexists _, _|by eexists _, _|].
  destruct (read_sizes_spec c a _ Hc Hs) as (c' & -> & Hc'). cbn [mbind res_bind]. eexists _, _. split; [done|]. split; [|done].
  rewrite qsort_perm. rewrite <- list_fmap_compose. cbn. by rewrite list_fmap_id.
Qed.

(** An object other than the one of a key. *)
Lemma set_at_other c key key' o : key' <> key -> set_at (store_set c key o) key' = set_at c key'.
Proof using Type. intros Hne. unfold set_at, lookup_set. cbn. by rewrite lookup_insert_ne. Qed.

Lemma member_val o X v : repr o X -> match v with SInt i => int64 i | SStr _ => True end ->
  exists o', setTypeIsMemberAux dictSdsHash dict_can_resize o v = Ret (o', bool_decide (val_string v ∈ X)) /\ repr o' X.
Proof using Type. apply member_spec. Qed.

Lemma add_val o X v : repr o X -> X ⊆ U -> match v with SInt i => int64 i | SStr _ => True end -> val_string v ∈ U ->
  exists o', add o v = Ret (o', bool_decide (val_string v ∉ X)) /\ repr o' ({[val_string v]} ∪ X).
Proof using HU limits.
  intros Hr HX Hv Hs. pose proof (universe_bound U HU X HX). destruct limits as [Hm1 Hm2 Hm3].
  apply (add_spec dictSdsHash dict_can_resize dictFingerprint _ _ _ Hm1 o X v); [done|done|by apply (universe_strings U HU)|lia].
Qed.

Lemma remove_val o X v : repr o X -> X ⊆ U -> match v with SInt i => int64 i | SStr _ => True end ->
  exists o', remove o v = Ret (o', bool_decide (val_string v ∈ X)) /\ repr o' (X ∖ {[val_string v]}).
Proof using HU.
  intros Hr HX Hv. pose proof (universe_bound U HU X HX). apply (remove_spec dictSdsHash dict_can_resize _ _ _ o X v); [done|done|lia].
Qed.

(** ** Intersection *)

(** The set that is iterated, its elements, and the other sets. *)
Section Inter.
Context (a : skeyspace) (first : list Z) (X : strset) (o : sobj) (vs : list sval) (others : list (list Z)).
Hypothesis Ha : a !! first = Some (Some X).
Hypothesis HX : X ⊆ U.
Hypothesis Hl : set_listing dictSdsHash o X vs.
Hypothesis Hothers : Forall (fun key => is_set a (Some key)) others.

Definition in_others (s : list Z) : Prop := Forall (fun key => s ∈ opt_set a (Some key)) others.
#[local] Instance in_others_dec s : Decision (in_others s).
Proof using Type. unfold in_others. apply _. Defined.

(** What has been found among the first elements. *)
Definition found (l : list sval) : list (list Z) := filter in_others (map val_string l).

Lemma found_snoc l v : found (l ++ [v]) = found l ++ (if decide (in_others (val_string v)) then [val_string v] else []).
Proof using Type. unfold found. rewrite map_app, filter_app. done. Qed.

Lemma found_all : NoDup (found vs) /\ list_to_set (found vs) = inter_all (map (opt_set a) (map Some (first :: others))).
Proof using Ha Hl.
  split; [apply NoDup_filter, Hl|]. apply set_eq. intros s. unfold found. rewrite elem_of_list_to_set, list_elem_of_filter, elem_of_inter_all.
  rewrite <- (elem_of_list_to_set (C := strset)), <- (sl_set _ _ _ _ Hl). unfold in_others. rewrite Forall_forall. split.
  - intros [Hall Hs]. split; [done|]. intros Y HY. rewrite list_elem_of_fmap in HY. destruct HY as (k & -> & Hk). rewrite list_elem_of_fmap in Hk. destruct Hk as (key & -> & Hk).
    apply elem_of_cons in Hk as [->|Hk]; [cbn; by rewrite Ha|by apply Hall].
  - intros [_ Hall]. split.
    + intros key Hk. apply Hall. apply list_elem_of_fmap_2, list_elem_of_fmap_2. by right.
    + specialize (Hall X). apply Hall. rewrite list_elem_of_fmap. exists (Some first). cbn. rewrite Ha. split; [done|left].
Qed.

Lemma found_sub l r : vs = l ++ r -> (list_to_set (found l) : strset) ⊆ X.
Proof using Hl.
  intros Hvs s Hs. rewrite elem_of_list_to_set in Hs. unfold found in Hs. rewrite list_elem_of_filter in Hs. destruct Hs as [_ Hs]. rewrite (sl_set _ _ _ _ Hl), elem_of_list_to_set, Hvs, map_app, elem_of_app. by left.
Qed.

Lemma in_all_spec keys c v : db_is c a -> set_at c first = Ret o -> v ∈ vs -> Forall (fun key => is_set a (Some key)) keys ->
  exists c', in_all dictSdsHash dict_can_resize c first keys v = Ret (c', bool_decide (Forall (fun key => val_string v ∈ opt_set a (Some key)) keys)) /\
    same_sets c c' a /\ set_at c' first = Ret o.
Proof using Ha Hl.
  intros Hc Ho Hv Hk. revert c Hc Ho. induction Hk as [|key keys Hkey Hk IH]; intros c Hc Ho; cbn [in_all].
  { exists c. split; [by rewrite bool_decide_eq_true_2|]. done. }
  destruct (decide (key = first)) as [Ek|Ek]; [rewrite (bool_decide_eq_true_2 (key = first)) by done|rewrite (bool_decide_eq_false_2 (key = first)) by done].
  - subst key. destruct (IH c Hc Ho) as (c' & -> & Hc'). exists c'. split; [|done]. do 2 f_equal. apply bool_decide_ext. rewrite Forall_cons. cbn [opt_set]. rewrite Ha.
    pose proof (listing_elem _ _ _ _ _ Hl Hv). naive_solver.
  - destruct Hkey as [Y HY]. destruct (set_at_spec _ _ _ _ _ c a key Y Hc HY) as (oy & -> & Hr & _). cbn [mbind res_bind].
    destruct (member_val oy Y v Hr) as (oy' & -> & Hr'); [by eapply val_ok_int, listing_val_ok|]. cbn [mbind res_bind].
    assert (db_is (store_set c key oy') a) as Hc1 by (by eapply db_update). assert (set_at (store_set c key oy') first = Ret o) as Ho1 by (rewrite set_at_other; done).
    cbn [opt_set]. destruct (decide (val_string v ∈ Y)) as [Hin|Hin]; [rewrite (bool_decide_eq_true_2 (val_string v ∈ Y)) by done|rewrite (bool_decide_eq_false_2 (val_string v ∈ Y)) by done].
    + destruct (IH _ Hc1 Ho1) as (c' & -> & [Hc' E] & Ho'). exists c'. split; [|by split_and!]. do 2 f_equal. apply bool_decide_ext. rewrite Forall_cons. rewrite HY. naive_solver.
    + exists (store_set c key oy'). split; [|done]. rewrite bool_decide_eq_false_2; [done|]. rewrite Forall_cons, HY. naive_solver.
Qed.

(** One turn of the loop, up to what is done with an element that all sets
    have. *)
Lemma inter_turn l v r s (card_only : bool) (limit : Z) : vs = l ++ v :: r -> db_is (in_client s) a -> set_at (in_client s) first = Ret o ->
  exists c', same_sets (in_client s) c' a /\ set_at c' first = Ret o /\
    inter_body dictSdsHash dict_can_resize dictFingerprint set_max_intset_entries set_max_listpack_entries set_max_listpack_value first others card_only limit s (encoding_of o) v =
    (if decide (in_others (val_string v)) then
       if card_only then Ret (Inter c' (dstset s) (u64 (cardinality s + 1)) (only_integers s), negb (negb (limit =? 0) && (limit <=? u64 (cardinality s + 1))))
       else match dstset s with
            | None => Ret (Inter (reply_value c' v) None (u64 (cardinality s + 1)) (only_integers s), true)
            | Some dst => let '(v, only) := inter_value dst (encoding_of o) v (only_integers s) in '(dst, _) ← add dst v; Ret (Inter c' (Some dst) (cardinality s) only, true)
            end
     else Ret (Inter c' (dstset s) (cardinality s) (only_integers s), true)).
Proof using Ha Hl Hothers.
  intros Hvs Hc Ho. unfold inter_body. destruct (in_all_spec others (in_client s) v Hc Ho) as (c' & -> & Hc' & Ho'); [rewrite Hvs; apply elem_of_app; right; left|done|].
  cbn [mbind res_bind]. exists c'. split; [done|]. split; [done|]. change (Forall (fun key => val_string v ∈ opt_set a (Some key)) others) with (in_others (val_string v)).
  case_decide as Hd; [rewrite bool_decide_eq_true_2 by done|rewrite bool_decide_eq_false_2 by done]; done.
Qed.

Lemma found_bound l r : vs = l ++ r -> (length (found l) + length (found r) = length (found vs))%nat /\ Z.of_nat (length (found vs)) < 2 ^ 31.
Proof using Hl HU HX.
  intros Hvs. split; [rewrite Hvs; unfold found; by rewrite map_app, filter_app, length_app|]. pose proof (universe_bound U HU X HX) as Hb. rewrite (set_listing_size _ _ _ _ Hl) in Hb.
  pose proof (length_filter in_others (map val_string vs)) as Hf. rewrite length_map in Hf. unfold found. lia.
Qed.

(** With [cardinality_only]. *)
Lemma count_loop_ok c limit : db_is c a -> set_at c first = Ret o -> 0 <= limit < 2 ^ 63 ->
  exists s, for_each dictFingerprint (fun s => set_at (in_client s) first)
      (inter_body dictSdsHash dict_can_resize dictFingerprint set_max_intset_entries set_max_listpack_entries set_max_listpack_value first others true limit) (Inter c None 0 true) = Ret s /\
    same_sets c (in_client s) a /\
    cardinality s = (if limit =? 0 then Z.of_nat (length (found vs)) else Z.min limit (Z.of_nat (length (found vs)))).
Proof using Ha Hl Hothers HU HX.
  intros Hc Ho Hlim. set (body := inter_body _ _ _ _ _ _ _ _ _ _).
  set (ok := fun s => same_sets c (in_client s) a /\ set_at (in_client s) first = Ret o).
  destruct (for_each_spec dictSdsHash dictFingerprint (fun s => set_at (in_client s) first) body o vs
    (fun l s => ok s /\ cardinality s = Z.of_nat (length (found l)) /\ (limit = 0 \/ cardinality s < limit))
    (fun s => ok s /\ cardinality s = limit /\ limit <> 0 /\ limit <= Z.of_nat (length (found vs)))) with (s := Inter c None 0 true) as (s & E & Hs).
  - intros l s [[_ Hs] _]. exact Hs.
  - intros s [[_ Hs] _]. exact Hs.
  - intros l v r s Hvs [[Hsame Hat] [Hcard Hlt]]. destruct (inter_turn l v r s true limit Hvs (proj1 Hsame) Hat) as (c' & [Hc' E'] & Ho' & Eb). unfold body. rewrite Eb.
    destruct (found_bound (l ++ [v]) r) as [Hb1 Hb2]; [by rewrite Hvs, <- app_assoc|]. pose proof (found_snoc l v) as Hsn. assert (same_sets c c' a) as Hs' by (split; [done|]; destruct Hsame; congruence).
    case_decide as Hd.
    + rewrite Hsn, length_app in Hb1. cbn [length] in Hb1. rewrite uwrap_id by lia. eexists _, _. split; [done|].
      destruct (Z.eqb_spec limit 0) as [Hz|Hz]; cbn [negb andb]; [|destruct (Z.leb_spec limit (cardinality s + 1)) as [Hle|Hgt]; cbn [negb]]; cbn [in_client cardinality].
      * split; [by split|]. rewrite Hsn, length_app. cbn [length]. split; [lia|by left].
      * split; [by split|]. split_and!; [lia|done|lia].
      * split; [by split|]. rewrite Hsn, length_app. cbn [length]. split; [lia|right; lia].
    + eexists _, _. split; [done|]. split; [by split|]. rewrite Hsn, app_nil_r. by split.
  - apply Hl.
  - split; [by split|]. split; [done|]. cbn. lia.
  - exists s. split; [exact E|]. destruct Hs as [[[Hsame _] [Hcard Hlt]]|[[Hsame _] (Hcard & Hnz & Hle)]]; (split; [done|]).
    + destruct (Z.eqb_spec limit 0); [done|]. lia.
    + rewrite (proj2 (Z.eqb_neq limit 0)) by done. lia.
Qed.

(** With a reply. *)
Lemma reply_loop_ok c : db_is c a -> set_at c first = Ret o ->
  exists s, for_each dictFingerprint (fun s => set_at (in_client s) first)
      (inter_body dictSdsHash dict_can_resize dictFingerprint set_max_intset_entries set_max_listpack_entries set_max_listpack_value first others false 0) (Inter c None 0 true) = Ret s /\
    db_is (in_client s) a /\ sreplies (in_client s) = sreplies c ++ map SReplyBulk (found vs) /\ dstset s = None /\ cardinality s = Z.of_nat (length (found vs)).
Proof using Ha Hl Hothers HU HX.
  intros Hc Ho. set (body := inter_body _ _ _ _ _ _ _ _ _ _).
  destruct (for_each_spec dictSdsHash dictFingerprint (fun s => set_at (in_client s) first) body o vs
    (fun l s => set_at (in_client s) first = Ret o /\ db_is (in_client s) a /\ sreplies (in_client s) = sreplies c ++ map SReplyBulk (found l) /\ dstset s = None /\ cardinality s = Z.of_nat (length (found l)))
    (fun s => False)) with (s := Inter c None 0 true) as (s & E & [(_ & Hs)|[]]).
  - by intros l s [Hs _].
  - done.
  - intros l v r s Hvs (Hat & Hdb & Hrep & Hdst & Hcard). destruct (inter_turn l v r s false 0 Hvs Hdb Hat) as (c' & [Hc' E'] & Ho' & Eb). unfold body. rewrite Eb, Hdst.
    destruct (found_bound (l ++ [v]) r) as [Hb1 Hb2]; [by rewrite Hvs, <- app_assoc|]. pose proof (found_snoc l v) as Hsn. case_decide as Hd.
    + rewrite Hsn, length_app in Hb1. cbn [length] in Hb1. rewrite uwrap_id by lia. eexists _, _. split; [done|]. cbn [in_client dstset cardinality]. split_and!; [done|done| |done|].
      * unfold reply_value, add_reply. cbn [sreplies]. rewrite E', Hrep, Hsn, map_app, <- app_assoc. done.
      * rewrite Hsn, length_app. cbn [length]. lia.
    + eexists _, _. split; [done|]. cbn [in_client dstset cardinality]. rewrite Hsn, app_nil_r. split_and!; [done|done|congruence|done|done].
  - apply Hl.
  - cbn. rewrite app_nil_r. by split_and!.
  - exists s. by split.
Qed.

(** The value that is added is the element, and as long as only integers have been
    seen, all are. *)
Lemma inter_value_spec dst v only : v ∈ vs ->
  let '(v', only') := inter_value dst (encoding_of o) v only in
  val_string v' = val_string v /\ match v' with SInt i => int64 i | SStr _ => True end /\
  (only' = true -> only = true /\ is_Some (string2ll (val_string v))).
Proof using Hl.
  intros Hv. pose proof (listing_val_ok _ _ _ _ _ Hl Hv) as Hok. unfold inter_value. destruct v as [s|i].
  - destruct only; [|done]. destruct (encoding_of o); try done. destruct (string2ll s) as [i|] eqn:E; [|done]. apply string2ll_sound in E as Hi. destruct Hi as [Hi Es].
    destruct dst; cbn [val_string]; (split; [congruence|]; split; [done|]; intros _; split; [done|rewrite E; by exists i]).
  - assert (int64 i) as Hi by (by destruct (encoding_of o)). split; [done|]. split; [done|]. intros Ho. split; [done|]. cbn [val_string]. by rewrite string2ll_complete.
Qed.

(** With a target. *)
Lemma store_loop_ok c dst : db_is c a -> set_at c first = Ret o -> repr dst ∅ ->
  exists s d, for_each dictFingerprint (fun s => set_at (in_client s) first)
      (inter_body dictSdsHash dict_can_resize dictFingerprint set_max_intset_entries set_max_listpack_entries set_max_listpack_value first others false 0) (Inter c (Some dst) 0 true) = Ret s /\
    same_sets c (in_client s) a /\ dstset s = Some d /\ repr d (list_to_set (found vs)) /\
    (only_integers s = true -> forall s, s ∈ (list_to_set (found vs) : strset) -> is_Some (string2ll s)).
Proof using Ha Hl Hothers HU HX limits.
  intros Hc Ho Hdst. set (body := inter_body _ _ _ _ _ _ _ _ _ _).
  destruct (for_each_spec dictSdsHash dictFingerprint (fun s => set_at (in_client s) first) body o vs
    (fun l s => set_at (in_client s) first = Ret o /\ same_sets c (in_client s) a /\ exists d, dstset s = Some d /\ repr d (list_to_set (found l)) /\
       (only_integers s = true -> forall s, s ∈ (list_to_set (found l) : strset) -> is_Some (string2ll s)))
    (fun s => False)) with (s := Inter c (Some dst) 0 true) as (s & E & [(_ & Hs & d & Hd)|[]]).
  - by intros l s [Hs _].
  - done.
  - intros l v r s Hvs (Hat & [Hdb Hrep] & d & Hd & Hr & Honly). destruct (inter_turn l v r s false 0 Hvs Hdb Hat) as (c' & [Hc' E'] & Ho' & Eb). unfold body. rewrite Eb, Hd.
    pose proof (found_snoc l v) as Hsn. assert (v ∈ vs) as Hv by (rewrite Hvs; apply elem_of_app; right; left). pose proof (listing_elem _ _ _ _ _ Hl Hv) as HvX. case_decide as Hin.
    + pose proof (inter_value_spec d v (only_integers s) Hv) as Hval. destruct (inter_value d (encoding_of o) v (only_integers s)) as [v' only']. destruct Hval as (Ev & Hv' & Hon).
      pose proof (found_sub l (v :: r) Hvs) as Hsub. assert ((list_to_set (found l) : strset) ⊆ U) as HlU by (by etransitivity). assert (val_string v' ∈ U) as HvU by (rewrite Ev; by apply HX).
      destruct (add_val d _ v' Hr HlU Hv' HvU) as (d' & -> & Hr'). cbn [mbind res_bind]. eexists _, _. split; [done|]. cbn [in_client dstset only_integers].
      assert ((list_to_set (found (l ++ [v])) : strset) = {[val_string v]} ∪ list_to_set (found l)) as Es by (rewrite Hsn, list_to_set_app_L, union_comm_L; cbn [list_to_set]; by rewrite union_empty_r_L).
      split; [done|]. split; [split; [done|congruence]|]. exists d'. rewrite Es. rewrite Ev in Hr'. split_and!; [done|done|]. intros [Ho1 Hv1]%Hon s'.
      rewrite elem_of_union, elem_of_singleton. intros [->|Hs']; [done|]. by apply Honly.
    + eexists _, _. split; [done|]. cbn [in_client dstset only_integers]. rewrite Hsn, app_nil_r. split; [done|]. split; [split; [done|congruence]|]. by exists d.
  - apply Hl.
  - cbn. split; [done|]. split; [done|]. exists dst. split_and!; [done|done|]. intros _ s Hs. by apply not_elem_of_empty in Hs.
  - exists s, d. by split.
Qed.
End Inter.

(** The target set after the loop. *)
Lemma shrink_repr o X : repr o X -> exists o', match o with OBJ_LISTPACK lp => lp ← lpShrinkToFit lp; Ret (OBJ_LISTPACK lp) | _ => Ret o end = Ret o' /\ repr o' X.
Proof using Type.
  intros Hr. destruct o as [ints|lp|d]; [by eexists| |by eexists]. pose proof Hr as (ss & Hlp & Hrest)%pack_repr. destruct (lpShrinkToFit_spec lp _ Hlp) as (lp' & -> & Hlp').
  eexists. split; [done|]. apply pack_repr. by exists ss.
Qed.

Lemma size_pos X : (0 <? Z.of_nat (size X)) = bool_decide (X <> ∅).
Proof using Type.
  case_bool_decide as E; [|by rewrite E]. apply Z.ltb_lt. assert (size X <> 0%nat); [|lia]. intros Hz. by apply E, leibniz_equiv, size_empty_iff.
Qed.

Lemma inter_store_spec c c1 a s dstkey dst X : same_sets c1 (in_client s) a -> sreplies c1 = sreplies c -> repr dst X -> X ⊆ U ->
  (only_integers s = true -> forall s, s ∈ X -> is_Some (string2ll s)) ->
  refines c (inter_store dictFingerprint set_max_intset_entries s dstkey dst) (put_set a dstkey X, AnsInt (Z.of_nat (size X))).
Proof using HU limits.
  intros [Hc Er] Er1 Hr HX Hint. pose proof limits as [Hm1 Hm2 Hm3]. unfold inter_store. destruct (size_repr dictSdsHash _ _ _ dst X Hr) as (d1 & -> & Hr1 & _). cbn [mbind res_bind].
  rewrite size_pos. case_bool_decide as Hne.
  - assert (exists d2, (if only_integers s then maybeConvertToIntset dictFingerprint set_max_intset_entries d1 else Ret d1) = Ret d2 /\ repr d2 X) as (d2 & -> & Hr2).
    { destruct (only_integers s); [|by exists d1]. by apply (toIntset_spec dictSdsHash); [..|apply Hint]. }
    cbn [mbind res_bind]. destruct (shrink_repr d2 X Hr2) as (d3 & -> & Hr3). cbn [mbind res_bind]. destruct (size_repr dictSdsHash _ _ _ d3 X Hr3) as (d4 & -> & Hr4 & _). cbn [mbind res_bind].
    apply refines_int; [cbn; congruence|]. by apply db_put.
  - subst X. rewrite put_empty. eexists _, _. split; [done|]. cbn [sreplies delete_key add_reply]. split; [by rewrite Er, Er1|]. split; [done|]. by apply db_delete.
Qed.

Lemma target_spec o X : repr o X -> exists dst, inter_target o = Ret dst /\ repr dst ∅.
Proof using limits.
  intros Hr. pose proof limits as [Hm1 Hm2 Hm3]. destruct o as [ints|lp|d]; cbn [inter_target].
  - eexists. split; [done|]. by apply new_intset.
  - pose proof Hr as (ss & (num & slack & Hm) & _)%pack_repr. unfold lpBytes. rewrite (repr_total _ _ _ _ Hm). cbn [mbind res_bind].
    destruct (new_pack dictSdsHash set_max_intset_entries _ set_max_listpack_value Hm3 (lp_total (elems_of ss))) as (lp' & -> & Hr'). by eexists.
  - by apply (new_pack_object dictSdsHash).
Qed.

(** The array after sorting, when no set is missing. *)
Lemma all_present sets : existsb (fun key => match key with None => true | Some _ => false end) sets = false -> map Some (omap id sets) = sets.
Proof using Type. induction sets as [|[key|] sets IH]; cbn; intros E; [done|by rewrite IH|done]. Qed.

Lemma some_missing a sets : existsb (fun key => match key with None => true | Some _ => false end) sets = true -> inter_all (map (opt_set a) sets) = ∅.
Proof using Type.
  intros E. apply inter_all_empty. apply existsb_exists in E as (key & Hin & Hk). destruct key as [key|]; [done|]. apply list_elem_of_fmap. exists None. split; [done|]. by apply list_elem_of_In.
Qed.

Lemma missing_perm sets sets' : sets' ≡ₚ sets -> existsb (fun key => match key with None => true | Some _ => false end) sets = false ->
  existsb (fun key => match key with None => true | Some _ => false end) sets' = false.
Proof using Type.
  intros Hp E. apply not_true_iff_false. intros (key & Hin & Hk)%existsb_exists. apply (Permutation_in _ Hp) in Hin.
  assert (existsb (fun key => match key with None => true | Some _ => false end) sets = true) as E'; [|congruence]. apply existsb_exists. by exists key.
Qed.

(** SINTER, SINTERSTORE and SINTERCARD. *)
Lemma refines_inter c a keys (dstkey : option (list Z)) (card_only : bool) limit : db_is c a -> keys <> [] -> 0 <= limit < 2 ^ 63 ->
  (card_only = true -> dstkey = None) -> (card_only = false -> limit = 0) ->
  refines c (sinterGenericCommand dictSdsHash dict_can_resize dictFingerprint set_max_intset_entries set_max_listpack_entries set_max_listpack_value c keys dstkey card_only limit)
    (match dstkey with
     | Some dstkey => store_sets a dstkey keys inter_all
     | None => query_sets a keys inter_all (fun X =>
         if card_only then AnsInt (if limit =? 0 then Z.of_nat (size X) else Z.min limit (Z.of_nat (size X))) else AnsSet X)
     end).
Proof using HU limits.
  intros Hc Hne Hlim Hcd Hl0. unfold sinterGenericCommand, store_sets, query_sets. pose proof (lookup_sets_spec c a keys Hc) as Hlk. destruct (lookup_sets c keys) as [sets|].
  2: { rewrite Hlk. destruct dstkey; by apply refines_reply. }
  destruct Hlk as (-> & Hsets & Hlen). destruct (existsb _ sets) eqn:Ee.
  { rewrite (some_missing a sets Ee). destruct dstkey as [dstkey|]; [rewrite put_empty, size_empty; apply refines_int; [done|by apply db_delete]|].
    destruct card_only; [rewrite size_empty; destruct (limit =? 0); [by apply refines_reply|rewrite Z.min_r by lia; by apply refines_reply]|].
    apply refines_reply; [done|]. exists []. by split_and!; [constructor|..]. }
  destruct (sort_sets_spec c a qsortCompareSetsByCardinality sets Hc Hsets) as (c1 & sets' & -> & Hp & Hc1 & Er1). cbn [mbind res_bind].
  rewrite <- (inter_all_perm _ _ (Permutation_map (opt_set a) Hp)). assert (Forall (is_set a) sets') as Hs' by (by rewrite Hp).
  pose proof (all_present sets' (missing_perm _ _ Hp Ee)) as Eo. rewrite <- Eo in Hs'. replace (map (opt_set a) sets') with (map (opt_set a) (map Some (omap id sets'))) by (by rewrite Eo).
  assert (omap id sets' <> []) as Hne'.
  { intros E0. rewrite E0 in Eo. cbn in Eo. subst sets'. apply Permutation_nil_l in Hp. subst sets. by destruct keys. }
  clear Eo. destruct (omap id sets') as [|first others]; [done|]. clear Hne'. cbn [map] in Hs'. apply Forall_cons in Hs' as [[X Ha] Hoth].
  assert (Forall (fun key => is_set a (Some key)) others) as Hothers by (by rewrite Forall_map in Hoth).
  destruct (set_at_spec _ _ _ _ _ c1 a first X Hc1 Ha) as (o & Eo & Hr & _ & HX). rewrite Eo. cbn [mbind res_bind]. pose proof Hr as (vs & Hl & _).
  destruct (found_all a first X o vs others Ha Hl) as [Hnd <-]. destruct dstkey as [dstkey|].
  - destruct card_only; [by specialize (Hcd eq_refl)|]. rewrite (Hl0 eq_refl). destruct (target_spec o X Hr) as (dst & -> & Hdst). cbn [mbind res_bind].
    destruct (store_loop_ok a first X o vs others Ha HX Hl Hothers c1 dst Hc1 Eo Hdst) as (s & d & -> & Hsame & Hd & Hrd & Hint). cbn [mbind res_bind]. rewrite Hd.
    apply (inter_store_spec c c1); [done|done|done| |done]. etransitivity; [|exact HX]. eapply (found_sub a X o vs others Hl vs []). by rewrite app_nil_r.
  - cbn [mbind res_bind]. destruct card_only.
    + destruct (count_loop_ok a first X o vs others Ha HX Hl Hothers c1 limit Hc1 Eo Hlim) as (s & -> & [Hs Er] & Hcard). cbn [mbind res_bind].
      rewrite Hcard, size_list_to_set by done. apply refines_int; [congruence|done].
    + rewrite (Hl0 eq_refl). set (c2 := add_reply c1 SReplyDeferredLen).
      destruct (reply_loop_ok a first X o vs others Ha HX Hl Hothers c2 Hc1 Eo) as (s & -> & Hs & Er & Hd & Hcard). cbn [mbind res_bind].
      eexists _, (SReplySetLen (Z.of_nat (length (found a others vs))) :: map SReplyBulk (found a others vs)). split; [done|]. split; [|split; [by exists (found a others vs)|done]].
      cbn [set_reply_len sreplies]. rewrite Er, Hcard. unfold c2. cbn [add_reply sreplies]. rewrite Er1, <- app_assoc. cbn [app].
      rewrite insert_app_r_alt, Nat.sub_diag by lia. done.
Qed.
End Combine.
