(* ===== verification/SetUnion.v ===== *)
(** * Union and difference

    SUNION, SUNIONSTORE, SDIFF and SDIFFSTORE refine the specification of
    [SetCommandSpec].  The two algorithms of SDIFF, searching every element of the
    first set in the others and removing the elements of the others from a copy
    of the first, compute the same set, so that the estimate by which one of them
    is chosen matters only for the time. *)
From stdpp Require Import gmap strings.
From S2P Require Import Prelude Mem IntSet NumStr Dict DictIter Listpack ListpackApi SetType SetRefine SetOps SetLookup SetCommand SetCommandSpec SetCombine.

Local Open Scope Z_scope.

Lemma list_to_set_snoc (l : list (list Z)) s : (list_to_set (l ++ [s]) : strset) = {[s]} ∪ list_to_set l.
Proof. rewrite list_to_set_app_L, union_comm_L. cbn [list_to_set]. by rewrite union_empty_r_L. Qed.

Lemma diff_snoc (Y : strset) (l : list (list Z)) s : Y ∖ list_to_set (l ++ [s]) = Y ∖ list_to_set l ∖ {[s]}.
Proof. rewrite list_to_set_snoc. set_solver. Qed.

Lemma singleton_covered (D : strset) s : s ∈ D -> {[s]} ∖ D = ∅.
Proof. set_solver. Qed.

Lemma singleton_kept (D : strset) s : s ∉ D -> {[s]} ∖ D = {[s]}.
Proof. set_solver. Qed.

Lemma set_covered (X : strset) Xs : X ∈ Xs -> X ∖ ⋃ Xs = ∅.
Proof. intros Hin. apply set_eq. intros s. rewrite elem_of_difference, elem_of_union_list, elem_of_empty. naive_solver. Qed.

Section UnionDiff.
Context `{Heap} `{Usable} `{Qsort}.
Context (dictSdsHash : list Z -> Z) (dict_can_resize : dictResizeEnable).
Context (dictFingerprint : dict (list Z) unit -> Z).
Context (set_max_intset_entries set_max_listpack_entries set_max_listpack_value : Z).
Hypothesis limits : limits_ok set_max_intset_entries set_max_listpack_entries.
Context (U : strset).
Hypothesis HU : universe_ok U.
Local Abbreviation repr := (set_repr dictSdsHash set_max_intset_entries set_max_listpack_entries set_max_listpack_value).
Local Abbreviation db_is := (db_repr dictSdsHash set_max_intset_entries set_max_listpack_entries set_max_listpack_value U).
Local Abbreviation same_sets := (same_sets dictSdsHash set_max_intset_entries set_max_listpack_entries set_max_listpack_value U).
Local Abbreviation refines := (refines dictSdsHash set_max_intset_entries set_max_listpack_entries set_max_listpack_value U).
Local Abbreviation add_body := (add_body dictSdsHash dict_can_resize dictFingerprint set_max_intset_entries set_max_listpack_entries set_max_listpack_value).
Local Abbreviation remove_body := (remove_body dictSdsHash dict_can_resize).
Local Abbreviation over := (over dictFingerprint).
Implicit Types (a : skeyspace) (c : sclient) (X Y : strset) (o : sobj) (sets : list (option (list Z))).

(** The result so far is [Y]. *)
Record result_is (c : sclient) (a : skeyspace) (s : union_state) (Y : strset) : Prop := {
  ri_client : same_sets c (un_client s) a;
  ri_set : repr (un_dstset s) Y;
  ri_bound : Y ⊆ U;
  ri_count : un_cardinality s = Z.of_nat (size Y);
}.

Lemma result_start c c1 a : same_sets c c1 a -> result_is c a (Union c1 createIntsetObject 0) ∅.
Proof using limits. intros Hc. destruct limits. split; [done|by apply new_intset|apply empty_subseteq|done]. Qed.

Lemma add_body_spec c a s Y enc v : result_is c a s Y -> match v with SInt i => int64 i | SStr _ => True end -> val_string v ∈ U ->
  exists s', add_body s enc v = Ret (s', true) /\ un_client s' = un_client s /\ result_is c a s' ({[val_string v]} ∪ Y).
Proof using HU limits.
  intros [Hc Hr HY Hn] Hv Hs. unfold SetCommand.add_body. destruct (add_val dictSdsHash dict_can_resize dictFingerprint _ _ _ limits U HU _ Y v Hr HY Hv Hs) as (d & -> & Hd). cbn [mbind res_bind].
  eexists. split; [done|]. split; [done|]. assert ({[val_string v]} ∪ Y ⊆ U) as HU' by (apply union_subseteq; split; [by apply singleton_subseteq_l|done]).
  split; [done|done|done|]. cbn [un_cardinality]. pose proof (universe_bound U HU _ HU') as Hb. rewrite Hn. case_bool_decide as Hin.
  - rewrite size_union, size_singleton in * by (by apply disjoint_singleton_l). rewrite swrap_id by (cbn; lia). lia.
  - destruct (decide (val_string v ∈ Y)) as [Hx|]; [|done]. rewrite add_present in * by done. rewrite swrap_id by (cbn; lia). lia.
Qed.

Lemma remove_body_spec c a s Y enc v : result_is c a s Y -> match v with SInt i => int64 i | SStr _ => True end ->
  exists s', remove_body s enc v = Ret (s', true) /\ un_client s' = un_client s /\ result_is c a s' (Y ∖ {[val_string v]}).
Proof using HU.
  intros [Hc Hr HY Hn] Hv. unfold SetCommand.remove_body. destruct (remove_val dictSdsHash dict_can_resize _ _ _ U HU _ Y v Hr HY Hv) as (d & -> & Hd). cbn [mbind res_bind].
  eexists. split; [done|]. split; [done|]. split; [done|done|by apply difference_U|]. cbn [un_cardinality]. pose proof (universe_bound U HU _ HY) as Hb. pose proof (remove_size Y (val_string v)) as Hsz. rewrite Hn.
  unfold int_of_bool in Hsz. case_bool_decide; rewrite swrap_id by (cbn; lia); lia.
Qed.

(** The loop over the set of a key. *)
Lemma over_add c a s Y key X : result_is c a s Y -> a !! key = Some (Some X) -> exists s', over key add_body s = Ret s' /\ result_is c a s' (X ∪ Y).
Proof using HU limits.
  intros Hs Ha. destruct (set_at_spec _ _ _ _ _ _ a key X (proj1 (ri_client _ _ _ _ Hs)) Ha) as (o & Eo & Hr & _ & HX). destruct Hr as (vs & Hl & _). unfold SetCommand.over.
  destruct (for_each_spec dictSdsHash dictFingerprint (fun s => set_at (un_client s) key) add_body o vs
    (fun l s' => un_client s' = un_client s /\ result_is c a s' (list_to_set (map val_string l) ∪ Y)) (fun _ => False)) with (s := s) as (s' & E & [[_ Hs']|[]]).
  - intros l s' [-> _]. done.
  - done.
  - intros l v r s' Hvs [Ec Hs']. assert (v ∈ vs) as Hv by (rewrite Hvs; apply elem_of_app; right; left).
    destruct (add_body_spec c a s' _ (encoding_of o) v Hs') as (s2 & -> & Ec2 & Hs2); [by eapply val_ok_int, listing_val_ok|by eapply HX, listing_elem|].
    eexists _, _. split; [done|]. split; [congruence|]. rewrite map_app. cbn [map]. by rewrite list_to_set_snoc, <- union_assoc_L.
  - apply Hl.
  - split; [done|]. cbn [map list_to_set]. by rewrite union_empty_l_L.
  - exists s'. split; [exact E|]. by rewrite <- (sl_set _ _ _ _ Hl) in Hs'.
Qed.

Lemma over_remove c a s Y key X : result_is c a s Y -> a !! key = Some (Some X) -> exists s', over key remove_body s = Ret s' /\ result_is c a s' (Y ∖ X).
Proof using HU.
  intros Hs Ha. destruct (set_at_spec _ _ _ _ _ _ a key X (proj1 (ri_client _ _ _ _ Hs)) Ha) as (o & Eo & Hr & _ & HX). destruct Hr as (vs & Hl & _). unfold SetCommand.over.
  destruct (for_each_spec dictSdsHash dictFingerprint (fun s => set_at (un_client s) key) remove_body o vs
    (fun l s' => un_client s' = un_client s /\ result_is c a s' (Y ∖ list_to_set (map val_string l))) (fun _ => False)) with (s := s) as (s' & E & [[_ Hs']|[]]).
  - intros l s' [-> _]. done.
  - done.
  - intros l v r s' Hvs [Ec Hs']. assert (v ∈ vs) as Hv by (rewrite Hvs; apply elem_of_app; right; left).
    destruct (remove_body_spec c a s' _ (encoding_of o) v Hs') as (s2 & -> & Ec2 & Hs2); [by eapply val_ok_int, listing_val_ok|].
    eexists _, _. split; [done|]. split; [congruence|]. rewrite map_app. cbn [map]. by rewrite diff_snoc.
  - apply Hl.
  - split; [done|]. cbn [map list_to_set]. by rewrite difference_empty_L.
  - exists s'. split; [exact E|]. by rewrite <- (sl_set _ _ _ _ Hl) in Hs'.
Qed.

(** ** Union *)

Lemma opt_set_some a key X : a !! key = Some (Some X) -> opt_set a (Some key) = X.
Proof using Type. intros Ha. cbn. by rewrite Ha. Qed.

Lemma union_loop_spec c a sets s Y : result_is c a s Y -> Forall (is_set a) sets ->
  exists s', union_loop dictSdsHash dict_can_resize dictFingerprint set_max_intset_entries set_max_listpack_entries set_max_listpack_value sets s = Ret s' /\ result_is c a s' (⋃ map (opt_set a) sets ∪ Y).
Proof using HU limits.
  intros Hs Hsets. revert s Y Hs. induction Hsets as [|[key|] sets Hk Hsets IH]; intros s Y Hs; cbn [union_loop map].
  - exists s. split; [done|]. by rewrite union_list_nil, union_empty_l_L.
  - destruct Hk as [X Ha]. destruct (over_add c a s Y key X Hs Ha) as (s1 & -> & Hs1). cbn [mbind res_bind]. destruct (IH s1 _ Hs1) as (s2 & -> & Hs2). exists s2. split; [done|].
    rewrite (opt_set_some a key X Ha). rewrite union_list_cons. by rewrite union_assoc_L, (union_comm_L _ X) in Hs2.
  - destruct (IH s Y Hs) as (s' & -> & Hs'). exists s'. split; [done|]. cbn [opt_set]. by rewrite union_list_cons, union_empty_l_L.
Qed.

(** ** Difference *)

Lemma diff_loop_spec c a sets s Y : result_is c a s Y -> Forall (is_set a) sets ->
  exists s', diff_loop dictSdsHash dict_can_resize dictFingerprint sets s = Ret s' /\ result_is c a s' (Y ∖ ⋃ map (opt_set a) sets).
Proof using HU.
  intros Hs Hsets. revert s Y Hs. induction Hsets as [|[key|] sets Hk Hsets IH]; intros s Y Hs; cbn [diff_loop map].
  - exists s. split; [done|]. by rewrite union_list_nil, difference_empty_L.
  - destruct Hk as [X Ha]. destruct (over_remove c a s Y key X Hs Ha) as (s1 & -> & Hs1). cbn [mbind res_bind]. rewrite (opt_set_some a key X Ha), union_list_cons, <- difference_difference_l_L.
    rewrite (ri_count _ _ _ _ Hs1), size_zero. case_bool_decide as Hz; [|by apply IH].
    exists s1. split; [done|]. rewrite Hz in Hs1 |- *. by rewrite empty_difference.
  - destruct (IH s Y Hs) as (s' & -> & Hs'). exists s'. split; [done|]. cbn [opt_set]. by rewrite union_list_cons, union_empty_l_L.
Qed.

Lemma diff_work_spec c a first sets one two : db_is c a -> is_set a (Some first) -> Forall (is_set a) sets ->
  exists c' one' two', diff_work c first sets one two = Ret (c', one', two') /\ same_sets c c' a.
Proof using Type.
  intros Hc Hf Hsets. revert c one two Hc. induction Hsets as [|[key|] sets Hk Hsets IH]; intros c one two Hc; cbn [diff_work].
  - by eexists _, _, _.
  - destruct (size_at_spec _ _ _ _ U c a (Some first) Hc Hf) as (c1 & -> & Hc1 & E1). cbn [mbind res_bind].
    destruct (size_at_spec _ _ _ _ U c1 a (Some key) Hc1 Hk) as (c2 & -> & Hc2 & E2). cbn [mbind res_bind].
    destruct (IH c2 (s64 (one + Z.of_nat (size (opt_set a (Some first))))) (s64 (two + Z.of_nat (size (opt_set a (Some key))))) Hc2) as (c3 & o3 & t3 & -> & Hc3 & E3).
    eexists _, _, _. split; [done|]. split; [done|congruence].
  - by apply IH.
Qed.

(** The first algorithm. *)
Section DiffOne.
Context (a : skeyspace) (first : list Z) (X : strset) (o : sobj) (vs : list sval) (others : list (option (list Z))).
Hypothesis Ha : a !! first = Some (Some X).
Hypothesis HX : X ⊆ U.
Hypothesis Hl : set_listing dictSdsHash o X vs.
Hypothesis Hothers : Forall (is_set a) others.
Hypothesis Hdiff : Some first ∉ others.

Lemma in_some_spec sets c v : db_is c a -> set_at c first = Ret o -> v ∈ vs -> Forall (is_set a) sets -> Some first ∉ sets ->
  exists c', in_some dictSdsHash dict_can_resize c first sets v = Ret (c', bool_decide (val_string v ∈ ⋃ map (opt_set a) sets)) /\
    same_sets c c' a /\ set_at c' first = Ret o.
Proof using Hl.
  intros Hc Ho Hv Hs. revert c Hc Ho. induction Hs as [|[key|] sets Hk Hs IH]; intros c Hc Ho Hno; cbn [in_some map].
  { exists c. split; [|done]. by rewrite union_list_nil, bool_decide_eq_false_2 by apply not_elem_of_empty. }
  2: { apply not_elem_of_cons in Hno as [_ Hno]. destruct (IH c Hc Ho Hno) as (c' & -> & Hc'). exists c'. split; [|done]. cbn [opt_set]. by rewrite union_list_cons, union_empty_l_L. }
  apply not_elem_of_cons in Hno as [Hne Hno]. assert (key <> first) as Hne' by congruence. rewrite (bool_decide_eq_false_2 (key = first)) by done.
  destruct Hk as [Y HY]. destruct (set_at_spec _ _ _ _ _ c a key Y Hc HY) as (oy & -> & Hr & _). cbn [mbind res_bind]. rewrite (opt_set_some a key Y HY), union_list_cons.
  destruct (member_val dictSdsHash dict_can_resize _ _ _ oy Y v Hr) as (oy' & -> & Hr'); [by eapply val_ok_int, listing_val_ok|]. cbn [mbind res_bind].
  assert (db_is (store_set c key oy') a) as Hc1 by (by eapply db_update). assert (set_at (store_set c key oy') first = Ret o) as Ho1 by (rewrite set_at_other; done).
  destruct (decide (val_string v ∈ Y)) as [Hin|Hin].
  - rewrite !bool_decide_eq_true_2 by (done || by apply elem_of_union_l). exists (store_set c key oy'). by split.
  - rewrite (bool_decide_eq_false_2 (val_string v ∈ Y)) by done. destruct (IH _ Hc1 Ho1 Hno) as (c' & -> & [Hc' E] & Ho'). exists c'. split; [|by split_and!].
    do 2 f_equal. apply bool_decide_ext. rewrite elem_of_union. tauto.
Qed.

Lemma diff_one_spec c : db_is c a -> set_at c first = Ret o ->
  exists s', over first (diff_body dictSdsHash dict_can_resize dictFingerprint set_max_intset_entries set_max_listpack_entries set_max_listpack_value first others) (Union c createIntsetObject 0) = Ret s' /\
    result_is c a s' (X ∖ ⋃ map (opt_set a) others).
Proof using HU limits HX Hl Hothers Hdiff.
  intros Hc Ho. unfold SetCommand.over. set (body := diff_body _ _ _ _ _ _ _ _). set (D := ⋃ map (opt_set a) others).
  destruct (for_each_spec dictSdsHash dictFingerprint (fun s => set_at (un_client s) first) body o vs
    (fun l s' => set_at (un_client s') first = Ret o /\ result_is c a s' (list_to_set (map val_string l) ∖ D)) (fun _ => False)) with (s := Union c createIntsetObject 0) as (s' & E & [[_ Hs']|[]]).
  - intros l s' [Hs' _]. done.
  - done.
  - intros l v r s' Hvs [Ho' Hs']. assert (v ∈ vs) as Hv by (rewrite Hvs; apply elem_of_app; right; left). pose proof Hs' as [[Hc' Er] Hset Hb Hn]. unfold body, diff_body.
    destruct (in_some_spec others (un_client s') v Hc' Ho' Hv Hothers Hdiff) as (c1 & -> & [Hc1 Er1] & Ho1). cbn [mbind res_bind]. fold D.
    assert (result_is c a (Union c1 (un_dstset s') (un_cardinality s')) (list_to_set (map val_string l) ∖ D)) as Hs1 by (split; [split; [done|cbn; congruence]|done..]).
    rewrite map_app. cbn [map]. rewrite list_to_set_snoc, difference_union_distr_l_L. case_bool_decide as Hin; cbn [negb].
    + eexists _, _. split; [done|]. split; [done|]. replace ({[val_string v]} ∖ D) with (∅ : strset) by (by rewrite singleton_covered). by rewrite union_empty_l_L.
    + destruct (add_body_spec c a _ _ (encoding_of o) v Hs1) as (s2 & -> & Ec & Hs2); [by eapply val_ok_int, listing_val_ok|by eapply HX, listing_elem|].
      eexists _, _. split; [done|]. split; [by rewrite Ec|]. by rewrite singleton_kept.
  - apply Hl.
  - split; [done|]. cbn [map list_to_set]. rewrite empty_difference. by apply result_start.
  - exists s'. split; [exact E|]. by rewrite <- (sl_set _ _ _ _ Hl) in Hs'.
Qed.
End DiffOne.

Lemma union_perm (Xs Ys : list strset) : Xs ≡ₚ Ys -> ⋃ Xs = ⋃ Ys.
Proof using Type. intros Hp. apply set_eq. intros s. rewrite !elem_of_union_list. by setoid_rewrite Hp. Qed.

Lemma algo_one_spec c a first others X : db_is c a -> a !! first = Some (Some X) -> Forall (is_set a) others -> Some first ∉ others ->
  exists s', diff_algo_one dictSdsHash dict_can_resize dictFingerprint set_max_intset_entries set_max_listpack_entries set_max_listpack_value c first others = Ret s' /\
    result_is c a s' (X ∖ ⋃ map (opt_set a) others).
Proof using HU limits.
  intros Hc1 Ha Hs Hno. unfold diff_algo_one.
  destruct (sort_sets_spec dictSdsHash _ _ _ U c a qsortCompareSetsByRevCardinality others Hc1 Hs) as (c2 & sets & -> & Hp & Hc2 & E2). cbn [mbind res_bind].
  destruct (set_at_spec _ _ _ _ _ c2 a first X Hc2 Ha) as (o & Eo & (vs & Hl & _) & _ & HX).
  destruct (diff_one_spec a first X o vs sets HX Hl) with (c := c2) as (s' & -> & [[Hd Er] Hset Hb Hn]); [by rewrite Hp|by rewrite Hp|done|done|].
  exists s'. split; [done|]. rewrite (union_perm _ _ (Permutation_map (opt_set a) Hp)) in *. split; [split; [done|congruence]|done|done|done].
Qed.

Lemma algo_two_spec c a first others X : db_is c a -> a !! first = Some (Some X) -> Forall (is_set a) others ->
  exists s', diff_algo_two dictSdsHash dict_can_resize dictFingerprint set_max_intset_entries set_max_listpack_entries set_max_listpack_value c first others = Ret s' /\
    result_is c a s' (X ∖ ⋃ map (opt_set a) others).
Proof using HU limits.
  intros Hc Ha Hs. unfold diff_algo_two.
  destruct (over_add c a (Union c createIntsetObject 0) ∅ first X) as (s1 & -> & Hs1); [by apply result_start|done|]. cbn [mbind res_bind]. rewrite union_empty_r_L in Hs1.
  rewrite (ri_count _ _ _ _ Hs1), size_zero. case_bool_decide as Hz; [|by apply diff_loop_spec]. exists s1. split; [done|]. rewrite Hz in Hs1 |- *. by rewrite empty_difference.
Qed.

(** Whichever algorithm is chosen. *)
Lemma sdiff_spec c a first others X : db_is c a -> a !! first = Some (Some X) -> Forall (is_set a) others -> Some first ∉ others ->
  exists s', sdiff dictSdsHash dict_can_resize dictFingerprint set_max_intset_entries set_max_listpack_entries set_max_listpack_value c first others = Ret s' /\
    result_is c a s' (X ∖ ⋃ map (opt_set a) others).
Proof using HU limits.
  intros Hc Ha Hs Hno. unfold sdiff. assert (is_set a (Some first)) as Hf by (by exists X).
  destruct (diff_work_spec c a first (Some first :: others) 0 0 Hc Hf) as (c1 & one & two & -> & Hc1 & E1); [by constructor|]. cbn [mbind res_bind].
  assert (forall s', result_is c1 a s' (X ∖ ⋃ map (opt_set a) others) -> result_is c a s' (X ∖ ⋃ map (opt_set a) others)) as Htr
    by (intros s' [[Hd Er] Hset Hb Hn]; split; [split; [done|congruence]|done..]).
  destruct (_ <=? _); [destruct (algo_one_spec c1 a first others X) as (s' & -> & Hs')|destruct (algo_two_spec c1 a first others X) as (s' & -> & Hs')]; try done; exists s'; auto.
Qed.

(** ** The commands *)

Lemma reply_set_spec c c1 a o X : same_sets c c1 a -> repr o X -> X ⊆ U ->
  refines c (reply_set dictFingerprint c1 (Z.of_nat (size X)) o) (a, AnsSet X).
Proof using Type.
  intros [Hc Er] (vs & Hl & _) HX. unfold reply_set.
  destruct (for_each_spec dictSdsHash dictFingerprint (fun _ => Ret o) (fun c _ v => Ret (reply_value c v, true)) o vs
    (fun l c' => db_is c' a /\ sreplies c' = sreplies c ++ SReplySetLen (Z.of_nat (size X)) :: map SReplyBulk (map val_string l)) (fun _ => False))
    with (s := add_reply c1 (SReplySetLen (Z.of_nat (size X)))) as (c' & -> & [[Hc' Er']|[]]).
  - done.
  - done.
  - intros l v r c' _ [Hc' Er']. eexists _, _. split; [done|]. split; [done|]. unfold reply_value, add_reply. cbn [sreplies]. rewrite Er', map_app, map_app, <- app_assoc. by destruct v.
  - apply Hl.
  - split; [done|]. cbn. by rewrite Er.
  - exists c', (SReplySetLen (Z.of_nat (size X)) :: map SReplyBulk (map val_string vs)). split_and!; [done|done| |done]. exists (map val_string vs).
    split_and!; [apply Hl|by rewrite (sl_set _ _ _ _ Hl)|]. by rewrite (set_listing_size _ _ _ _ Hl), length_map.
Qed.

Lemma store_result_spec c c1 a dstkey dst X : same_sets c c1 a -> repr dst X -> X ⊆ U ->
  refines c (store_result c1 dstkey dst) (put_set a dstkey X, AnsInt (Z.of_nat (size X))).
Proof using Type.
  intros [Hc Er] Hr HX. unfold store_result. destruct (size_repr dictSdsHash _ _ _ dst X Hr) as (d1 & -> & Hr1 & _). cbn [mbind res_bind]. rewrite size_pos. case_bool_decide as Hne.
  - destruct (size_repr dictSdsHash _ _ _ d1 X Hr1) as (d2 & -> & Hr2 & _). cbn [mbind res_bind]. apply refines_int; [done|]. by apply db_put.
  - subst X. rewrite put_empty. eexists _, _. split; [done|]. cbn [sreplies delete_key add_reply]. split; [by rewrite Er|]. split; [done|]. by apply db_delete.
Qed.

Lemma refines_union_diff c a keys (dstkey : option (list Z)) op : db_is c a ->
  let f := match op with SET_OP_UNION => union_all | SET_OP_DIFF => diff_all end in
  refines c (sunionDiffGenericCommand dictSdsHash dict_can_resize dictFingerprint set_max_intset_entries set_max_listpack_entries set_max_listpack_value c keys dstkey op)
    (match dstkey with Some dstkey => store_sets a dstkey keys f | None => query_sets a keys f AnsSet end).
Proof using HU limits.
  intros Hc f. unfold sunionDiffGenericCommand, store_sets, query_sets. pose proof (lookup_sets_spec dictSdsHash _ _ _ U c a keys Hc) as Hlk. destruct (lookup_sets c keys) as [sets|].
  2: { rewrite Hlk. destruct dstkey; by apply refines_reply. }
  destruct Hlk as (-> & Hsets & _). set (r := match op with SET_OP_UNION => _ | SET_OP_DIFF => _ end).
  assert (exists s, r = Ret s /\ result_is c a s (f (map (opt_set a) sets))) as (s & -> & [Hs Hset Hb Hn]).
  { assert (result_is c a (Union c createIntsetObject 0) ∅) as Hst by (by apply result_start). unfold r, f. destruct op.
    - destruct (union_loop_spec c a sets _ ∅ Hst Hsets) as (s & -> & Hs). exists s. rewrite union_empty_r_L in Hs. by split.
    - destruct sets as [|[first|] others]; [by eexists| |eexists; split; [done|]; cbn [map diff_all opt_set]; by rewrite empty_difference].
      apply Forall_cons in Hsets as [[X Ha] Hoth]. cbn [map diff_all]. rewrite (opt_set_some a first X Ha). case_bool_decide as Hin; [|by apply sdiff_spec].
      eexists. split; [done|]. rewrite set_covered; [done|]. apply list_elem_of_fmap. exists (Some first). by rewrite (opt_set_some a first X Ha). }
  cbn [mbind res_bind]. destruct dstkey as [dstkey|]; [by apply store_result_spec|]. rewrite Hn. by apply reply_set_spec.
Qed.
End UnionDiff.
