(* ===== verification/SetTheorems.v ===== *)
(** * Histories of commands on sets

    The theorems about [SetType] and [SetCommand]: through every history of
    commands a client is answered as if its keys had finite sets, and the objects
    stay within the limits of their encodings. *)
From stdpp Require Import gmap strings.
From S2P Require Import Prelude Mem IntSet NumStr Dict DictIter Listpack ListpackEnc ListpackNav ListpackEdit ListpackApi SetType SetRefine SetOps SetLookup SetCommand SetCommandSpec SetCombine SetUnion.

Local Open Scope Z_scope.

(** What the server has checked of a command, and its elements are among [U]. *)
Definition command_ok (U : strset) (cmd : set_command) : Prop :=
  match cmd with
  | SADD _ args => args <> [] /\ Forall (fun s => s ∈ U) args /\ Z.of_nat (length args) < 2 ^ 31
  | SINTER keys | SINTERSTORE _ keys => keys <> []
  | _ => True
  end.

(** The specification of a history. *)
Fixpoint spec_history (a : skeyspace) (cmds : list set_command) : skeyspace * list answer :=
  match cmds with
  | [] => (a, [])
  | cmd :: cmds =>
      let '(a, ans) := spec_command a cmd in
      let '(a, anss) := spec_history a cmds in (a, ans :: anss)
  end.

Lemma parse_limit_range args l : 0 <= l < 2 ^ 63 -> match parse_limit args l with inr n => 0 <= n < 2 ^ 63 | inl _ => True end.
Proof.
  revert l. induction args as [args IH] using (induction_ltof1 _ length). unfold ltof in IH. intros l Hl. destruct args as [|opt [|arg args]]; [done|done|].
  cbn [parse_limit]. destruct (is_option _ _); [|done]. destruct (string2ll arg) as [v|] eqn:E; [|done]. apply string2ll_sound in E as [Hv _]. unfold LLONG_MAX in Hv.
  destruct (Z.ltb_spec v 0); [done|]. apply IH; [cbn; lia|lia].
Qed.

Lemma parse_sintercard_ok numkeys args keys limit : parse_sintercard numkeys args = inr (keys, limit) -> keys <> [] /\ 0 <= limit < 2 ^ 63.
Proof.
  unfold parse_sintercard. destruct (string2ll numkeys) as [n|]; [|done]. destruct (Z.ltb_spec n 1); [done|]. destruct (Z.ltb_spec (Z.of_nat (length args)) n); [done|].
  pose proof (parse_limit_range (drop (Z.to_nat n) args) 0 ltac:(lia)) as Hl. destruct (parse_limit _ 0) as [e|l]; [done|]. intros [= <- <-]. split; [|done].
  intros E. apply (f_equal length) in E. rewrite length_take in E. cbn in E. lia.
Qed.

Section History.
Context `{Heap} `{Usable} `{Qsort}.
Context (dictSdsHash : list Z -> Z) (dict_can_resize : dictResizeEnable).
Context (dictFingerprint : dict (list Z) unit -> Z).
Context (set_max_intset_entries set_max_listpack_entries set_max_listpack_value : Z).
Context (U : strset).
Local Abbreviation limits := (limits_ok set_max_intset_entries set_max_listpack_entries).
Local Abbreviation repr := (set_repr dictSdsHash set_max_intset_entries set_max_listpack_entries set_max_listpack_value).
Local Abbreviation db_is := (db_repr dictSdsHash set_max_intset_entries set_max_listpack_entries set_max_listpack_value U).
Local Abbreviation run := (run_command dictSdsHash dict_can_resize dictFingerprint set_max_intset_entries set_max_listpack_entries set_max_listpack_value).

Fixpoint run_history (c : sclient) (cmds : list set_command) : res sclient :=
  match cmds with
  | [] => Ret c
  | cmd :: cmds => c ← run c cmd; run_history c cmds
  end.

Lemma command_refines c a cmd : limits -> universe_ok U -> db_is c a -> command_ok U cmd ->
  refines dictSdsHash set_max_intset_entries set_max_listpack_entries set_max_listpack_value U c (run c cmd) (spec_command a cmd).
Proof using Type.
  intros Hlim HU Hc Hok. destruct cmd; cbn in Hok.
  - destruct Hok as (Hne & Hargs & Hlen). apply refines_sadd; [done..|lia].
  - by apply refines_srem.
  - by apply refines_smove.
  - by apply refines_sismember.
  - by apply refines_smismember.
  - by apply refines_scard.
  - by apply (refines_inter _ _ _ _ _ _ Hlim U HU c a keys None false 0).
  - by apply (refines_inter _ _ _ _ _ _ Hlim U HU c a keys (Some dstkey) false 0).
  - cbn [run_command spec_command]. unfold sinterCardCommand. destruct (parse_sintercard numkeys args) as [e|[keys limit]] eqn:E; [by apply refines_reply|].
    apply parse_sintercard_ok in E as [Hne Hl]. by apply (refines_inter _ _ _ _ _ _ Hlim U HU c a keys None true limit).
  - by apply (refines_union_diff _ _ _ _ _ _ Hlim U HU c a keys None SET_OP_UNION).
  - by apply (refines_union_diff _ _ _ _ _ _ Hlim U HU c a keys (Some dstkey) SET_OP_UNION).
  - by apply (refines_union_diff _ _ _ _ _ _ Hlim U HU c a keys None SET_OP_DIFF).
  - by apply (refines_union_diff _ _ _ _ _ _ Hlim U HU c a keys (Some dstkey) SET_OP_DIFF).
Qed.

Lemma history_spec cmds c a : limits -> universe_ok U -> db_is c a -> Forall (command_ok U) cmds ->
  exists c' rss, run_history c cmds = Ret c' /\ sreplies c' = sreplies c ++ concat rss /\
    Forall2 answers (spec_history a cmds).2 rss /\ db_is c' (spec_history a cmds).1.
Proof using Type.
  intros Hlim HU. revert c a. induction cmds as [|cmd cmds IH]; intros c a Hc Hok; cbn [run_history spec_history].
  { exists c, []. cbn. rewrite app_nil_r. by split_and!; [..|constructor|]. }
  apply Forall_cons in Hok as [Hcmd Hok]. destruct (command_refines c a cmd Hlim HU Hc Hcmd) as (c1 & rs & -> & Er & Ha & Hc1). cbn [mbind res_bind].
  destruct (spec_command a cmd) as [a1 ans]. cbn [fst snd] in *. destruct (IH c1 a1 Hc1 Hok) as (c2 & rss & -> & Er2 & Ha2 & Hc2).
  destruct (spec_history a1 cmds) as [a2 anss]. cbn [fst snd] in *. exists c2, (rs :: rss). split_and!; [done| |by constructor|done].
  cbn [concat]. by rewrite Er2, Er, app_assoc.
Qed.

(** The limits of an object, as the code measures them. *)
Definition object_limits (x : sval_obj) : Prop :=
  match x with
  | OBJ_NO_SET => True
  | OBJ_SET (OBJ_INTSET ints) => 0 < intsetLen ints <= set_max_intset_entries
  | OBJ_SET (OBJ_LISTPACK lp) => exists n lp', lpLength lp = Ret (n, lp') /\ 0 < n <= set_max_listpack_entries /\
      forall p, (exists i, lpSeek lp i = Ret (Some p)) -> exists v s, lpGetValue lp p = Ret v /\ value_string lp v = Ret s /\ Z.of_nat (length s) <= set_max_listpack_value
  | OBJ_SET (OBJ_HT d) => 0 < dictSize d
  end.

Lemma pack_limits lp X : repr (OBJ_LISTPACK lp) X -> X <> ∅ -> object_limits (OBJ_SET (OBJ_LISTPACK lp)).
Proof using Type.
  intros (ss & Hr & _ & -> & _ & Hn & Hval)%pack_repr Hne. pose proof Hr as (num & slack & Hm). destruct (lpLength_correct lp _ Hr) as (lp' & E & _).
  exists (Z.of_nat (length (elems_of ss))), lp'. assert (length (elems_of ss) = length ss) as El by (unfold elems_of; by rewrite length_map). split; [done|]. rewrite El. split.
  { destruct ss; [done|]. cbn in *. lia. }
  assert (forall j, elems_of ss !! j = elem_of_string <$> ss !! j) as Hel by (intros j; apply list_lookup_fmap).
  intros p (i & Hi). rewrite (seek_spec _ _ _ Hr) in Hi. assert (exists j s, p = off (elems_of ss) j /\ ss !! j = Some s) as (j & s & -> & Hj).
  { destruct (0 <=? _); [|done]. unfold ptr in Hi. rewrite Hel in Hi. destruct (ss !! _) as [s|] eqn:Es; [|done]. cbn in Hi. injection Hi as <-. by eexists _, _. }
  assert (elems_of ss !! j = Some (elem_of_string s)) as He by (by rewrite Hel, Hj).
  eexists _, s. split; [by apply (lp_value _ _ _ _ _ _ Hm He)|]. split; [|by apply (Forall_lookup_1 _ _ _ _ Hval Hj)].
  rewrite (value_at_string _ _ _ _ _ _ Hm He). by rewrite elem_string_of_string.
Qed.

Lemma repr_limits o X : limits -> repr o X -> X <> ∅ -> object_limits (OBJ_SET o).
Proof using Type.
  intros Hlim Hr Hne. assert (0 < Z.of_nat (size X)) as Hsz by (apply Z.ltb_lt; rewrite size_pos; by apply bool_decide_eq_true_2). destruct o as [ints|lp|d]; [| |].
  - destruct Hr as (vs & Hl & Hn). pose proof (set_listing_size _ _ _ _ Hl) as Hs. cbn in Hn |- *. rewrite max_entries_eq in Hn by apply Hlim.
    pose proof (sl_listed _ _ _ _ Hl) as (w & xs & R & ->). unfold intsetLen. rewrite (rep_len _ _ _ R). rewrite length_map in *. lia.
  - by eapply pack_limits.
  - apply keys_repr in Hr as [_ Hd]. cbn. by rewrite (keys_size dictSdsHash d X Hd).
Qed.


(** C9: after every history the objects are within the limits of their encodings:
    no set is empty, an intset has no more elements than
    [set_max_intset_entries], a listpack no more than [set_max_listpack_entries]
    and none of them longer than [set_max_listpack_value]. *)
Theorem set_limits_kept c a cmds : limits -> universe_ok U -> db_is c a -> Forall (command_ok U) cmds ->
  exists c', run_history c cmds = Ret c' /\ forall key x, sdb c' !! key = Some x -> object_limits x.
Proof using Type.
  intros Hlim HU Hc Hok. destruct (history_spec cmds c a Hlim HU Hc Hok) as (c' & rss & E & _ & _ & Hc'). exists c'. split; [done|].
  intros key x Hx. specialize (Hc' key). rewrite Hx in Hc'. destruct x as [o|]; [|done]. destruct (_ !! key) as [[X|]|]; [|done|done].
  destruct Hc' as (Hr & Hne & _). by eapply repr_limits.
Qed.


(** The estimates by which an intset may become a listpack are upper bounds:
    no element has a longer text, and the listpack the conversion makes has no
    more bytes. *)
Theorem intset_estimates_bound ints X : repr (OBJ_INTSET ints) X -> X <> ∅ ->
  exists maxelelen totsize, intset_estimate ints = Ret (maxelelen, totsize) /\
    (forall s, s ∈ X -> Z.of_nat (length s) <= maxelelen) /\
    (totsize < 2 ^ 32 -> forall cap, exists lp bytes,
       setTypeConvertAndExpand dictSdsHash dict_can_resize dictFingerprint (OBJ_INTSET ints) ENC_LISTPACK cap = Ret (OBJ_LISTPACK lp) /\
       lpGetTotalBytes lp = Ret bytes /\ bytes <= totsize).
Proof using Type.
  intros (vs & Hl & _) Hne. destruct (estimate_spec dictSdsHash ints X vs Hl) as (me & ts & E & Hts & Hme & Htot). exists me, ts. split; [done|]. split.
  - intros s. rewrite (sl_set _ _ _ _ Hl), elem_of_list_to_set, list_elem_of_fmap. intros (v & -> & Hv). rewrite Forall_forall in Hme. by apply Hme.
  - intros H32 cap. assert (7 < lp_total (elems_of (map val_string vs))) as H7.
    { destruct vs as [|v vs]; [by rewrite (sl_set _ _ _ _ Hl) in Hne|]. unfold lp_total, elems_of. cbn [map]. rewrite body_cons, length_app. pose proof (ele_entry_size (val_string v)).
      unfold entry_size in *. unfold LP_HDR_SIZE. lia. }
    destruct (convert_pack dictSdsHash dict_can_resize dictFingerprint _ _ _ cap Hl) as (lp & -> & num & slack & Hm); [done|lia|].
    exists lp, (lp_total (elems_of (map val_string vs))). split; [done|]. split; [by apply (repr_total _ _ _ _ Hm)|lia].
Qed.

(** A copy of a set is the same set in the same encoding. *)
Theorem setTypeDup_copies o X : limits -> repr o X -> Z.of_nat (size X) + 1 < 2 ^ 60 ->
  exists o', setTypeDup dictSdsHash dict_can_resize dictFingerprint set_max_intset_entries set_max_listpack_entries set_max_listpack_value o = Ret o' /\ repr o' X /\ encoding_of o' = encoding_of o.
Proof using Type. intros [Hm1 Hm2 Hm3]. by apply dup_spec. Qed.
End History.

(** ** Concrete runs *)

(** [qsort] as insertion. *)
Fixpoint insert_by {A} (cmp : A -> A -> Z) (x : A) (l : list A) : list A :=
  match l with [] => [x] | y :: l => if cmp y x <=? 0 then y :: insert_by cmp x l else x :: y :: l end.

Lemma insert_by_perm {A} cmp (x : A) l : insert_by cmp x l ≡ₚ x :: l.
Proof. induction l as [|y l IH]; cbn; [done|]. destruct (_ <=? _); [|done]. rewrite IH. apply Permutation_swap. Qed.

Lemma insertion_sort_perm A cmp (l : list A) : foldr (insert_by cmp) [] l ≡ₚ l.
Proof. induction l as [|x l IH]; cbn; [done|]. by rewrite insert_by_perm, IH. Qed.

Definition demo_qsort : Qsort := {| qsort := fun A cmp l => foldr (insert_by cmp) [] l; qsort_perm := insertion_sort_perm |}.

Definition demo_sds_hash (s : list Z) : Z := u64 (sumZ s).
Definition demo_fingerprint (d : dict (list Z) unit) : Z := dictSize d.
Definition demo_elements : list (list Z) := [[49]; [50]; [97]; [98; 98]; [55; 48; 48; 48; 48]].
Definition demo_universe : strset := list_to_set demo_elements.
Definition demo_client : sclient := SClient ∅ [].

Lemma demo_limits : limits_ok 3 3.
Proof. by split. Qed.

Lemma demo_universe_ok : universe_ok demo_universe.
Proof.
  split; [|vm_compute; reflexivity]. intros s Hs. unfold demo_universe in Hs. rewrite elem_of_list_to_set in Hs.
  assert (Forall string_ok demo_elements) as Hok by (by repeat constructor). by eapply Forall_forall.
Qed.

Lemma demo_client_repr : db_repr demo_sds_hash 3 3 8 demo_universe demo_client ∅.
Proof. intros key. cbn. by rewrite !lookup_empty. Qed.

Definition demo_history : list set_command :=
  [SADD [1] [[49]; [55; 48; 48; 48; 48]]; SADD [2] [[97]; [98; 98]; [49]; [50]]; SADD [1] [[98; 98]]; SINTERSTORE [3] [[1]; [2]; [1]];
   SDIFF [[2]; [3]]; SUNION [[1]; [2]; [9]]; SMOVE [1] [3] [49]; SREM [3] [[49]; [98; 98]]; SCARD [2]].

Lemma demo_history_ok : Forall (command_ok demo_universe) demo_history.
Proof.
  unfold demo_history. repeat (apply Forall_cons_2); try exact I; try (cbn; discriminate); try apply Forall_nil_2.
  all: cbn [command_ok]; split; [discriminate|]; split; [|cbn; lia]; apply (bool_decide_unpack _); vm_compute; exact I.
Qed.


Lemma set_limits_kept_witness :
  exists c', run_history (H := zero_heap) (H0 := exact_usable) (H1 := demo_qsort) demo_sds_hash DICT_RESIZE_ENABLE demo_fingerprint 3 3 8 demo_client demo_history = Ret c' /\
    forall key x, sdb c' !! key = Some x -> object_limits 3 3 8 x.
Proof.
  exact (set_limits_kept (H := zero_heap) (H0 := exact_usable) (H1 := demo_qsort) demo_sds_hash DICT_RESIZE_ENABLE demo_fingerprint 3 3 8 demo_universe
    demo_client ∅ demo_history demo_limits demo_universe_ok demo_client_repr demo_history_ok).
Defined.

Definition demo_setup : list set_command := [SADD [1] [[49]; [97]]; SADD [2] [[97]; [98; 98]; [49]; [50]]].

Lemma demo_set_setup_ok : Forall (command_ok demo_universe) demo_setup.
Proof.
  unfold demo_setup. repeat (apply Forall_cons_2); try apply Forall_nil_2.
  all: cbn [command_ok]; split; [discriminate|]; split; [|cbn; lia]; apply (bool_decide_unpack _); vm_compute; exact I.
Qed.


Lemma demo_intset_repr : exists X, set_repr demo_sds_hash 3 3 8 (OBJ_INTSET demo_set) X /\ X <> ∅ /\ size X = 3%nat.
Proof.
  destruct demo_set_repr as (w & xs & R & E). pose proof (intset_listing demo_sds_hash w _ xs R) as Hl. pose proof (set_listing_size _ _ _ _ Hl) as Hsz.
  assert (length xs = 3%nat) as Hx by (pose proof (rep_len _ _ _ R) as Hlen; change (is_length demo_set) with 3 in Hlen; lia). rewrite length_map, Hx in Hsz.
  exists (list_to_set (map dec xs)). split_and!; [exists (map SInt xs); split; [done|]; cbn; rewrite length_map, Hx; by vm_compute| |done].
  intros E0. rewrite E0, size_empty in Hsz. done.
Qed.

Lemma intset_estimates_bound_witness :
  exists maxelelen totsize, intset_estimate demo_set = Ret (maxelelen, totsize) /\
    (totsize < 2 ^ 32 -> forall cap, exists lp bytes,
       setTypeConvertAndExpand (H := zero_heap) (H0 := exact_usable) demo_sds_hash DICT_RESIZE_ENABLE demo_fingerprint (OBJ_INTSET demo_set) ENC_LISTPACK cap = Ret (OBJ_LISTPACK lp) /\
       lpGetTotalBytes lp = Ret bytes /\ bytes <= totsize).
Proof.
  destruct demo_intset_repr as (X & Hr & Hne & _).
  destruct (intset_estimates_bound (H := zero_heap) (H0 := exact_usable) demo_sds_hash DICT_RESIZE_ENABLE demo_fingerprint 3 3 8 demo_set X Hr Hne) as (me & ts & E & _ & Hc).
  exists me, ts. exact (conj E Hc).
Defined.

Lemma setTypeDup_copies_witness :
  exists X o', setTypeDup (H := zero_heap) (H0 := exact_usable) demo_sds_hash DICT_RESIZE_ENABLE demo_fingerprint 3 3 8 (OBJ_INTSET demo_set) = Ret o' /\
    set_repr demo_sds_hash 3 3 8 o' X /\ encoding_of o' = ENC_INTSET.
Proof.
  destruct demo_intset_repr as (X & Hr & _ & Hsz). exists X.
  apply (setTypeDup_copies (H := zero_heap) (H0 := exact_usable) demo_sds_hash DICT_RESIZE_ENABLE demo_fingerprint 3 3 8 (OBJ_INTSET demo_set) X demo_limits Hr). rewrite Hsz. lia.
Defined.
