(* ===== verification/Bitops.v ===== *)
(** * Operations on bits ([redis-7.2.3/src/bitops.c])

    Counting and searching bits in a string, and integers of up to 64 bits at any
    offset of it.  A string is a block of bytes; the first bit is the most
    significant one of the first byte.  [addr] is the address of the block: the
    loops that read words start at aligned addresses.  [BitString] has the
    theorems, [BitopsCommand] the commands. *)
From S2P Require Import Prelude Mem.

Local Open Scope Z_scope.

(** ** Counting *)

Definition bitsinbyte : list Z :=
 [0; 1; 1; 2; 1; 2; 2; 3; 1; 2; 2; 3; 2; 3; 3; 4; 1; 2; 2; 3; 2; 3; 3; 4; 2; 3; 3; 4; 3; 4; 4; 5;
   1; 2; 2; 3; 2; 3; 3; 4; 2; 3; 3; 4; 3; 4; 4; 5; 2; 3; 3; 4; 3; 4; 4; 5; 3; 4; 4; 5; 4; 5; 5; 6;
   1; 2; 2; 3; 2; 3; 3; 4; 2; 3; 3; 4; 3; 4; 4; 5; 2; 3; 3; 4; 3; 4; 4; 5; 3; 4; 4; 5; 4; 5; 5; 6;
   2; 3; 3; 4; 3; 4; 4; 5; 3; 4; 4; 5; 4; 5; 5; 6; 3; 4; 4; 5; 4; 5; 5; 6; 4; 5; 5; 6; 5; 6; 6; 7;
   1; 2; 2; 3; 2; 3; 3; 4; 2; 3; 3; 4; 3; 4; 4; 5; 2; 3; 3; 4; 3; 4; 4; 5; 3; 4; 4; 5; 4; 5; 5; 6;
   2; 3; 3; 4; 3; 4; 4; 5; 3; 4; 4; 5; 4; 5; 5; 6; 3; 4; 4; 5; 4; 5; 5; 6; 4; 5; 5; 6; 5; 6; 6; 7;
   2; 3; 3; 4; 3; 4; 4; 5; 3; 4; 4; 5; 4; 5; 5; 6; 3; 4; 4; 5; 4; 5; 5; 6; 4; 5; 5; 6; 5; 6; 6; 7;
   3; 4; 4; 5; 4; 5; 5; 6; 4; 5; 5; 6; 5; 6; 6; 7; 4; 5; 5; 6; 5; 6; 6; 7; 5; 6; 6; 7; 6; 7; 7; 8].

(** [while((unsigned long)p & 3 && count)]; the results are [p], [count] and
    [bits]. *)
Fixpoint count_unaligned (fuel : nat) (addr : Z) (m : list Z) (p count bits : Z) : res (Z * Z * Z) :=
  match fuel with
  | O => Diverge
  | S fuel =>
      if negb (Z.land (addr + p) 3 =? 0) && negb (count =? 0) then
        b ← aget m p;
        n ← aget bitsinbyte b;
        count_unaligned fuel addr m (p + 1) (count - 1) (bits + n)
      else Ret (p, count, bits)
  end.

(** The two steps on each of the words, and the third one in the sum. *)
Definition pair_counts (aux : Z) : Z := u32 (aux - Z.land (Z.shiftr aux 1) 0x55555555).
Definition nibble_counts (aux : Z) : Z := u32 (Z.land aux 0x33333333 + Z.land (Z.shiftr aux 2) 0x33333333).
Definition byte_counts (aux : Z) : Z := Z.land (u32 (aux + Z.shiftr aux 4)) 0x0F0F0F0F.

(** [while(count>=28)]: seven words at a time. *)
Fixpoint count_words (fuel : nat) (m : list Z) (p4 count bits : Z) : res (Z * Z * Z) :=
  match fuel with
  | O => Diverge
  | S fuel =>
      if 28 <=? count then
        aux1 ← load 4 p4 m;
        aux2 ← load 4 (p4 + 4) m;
        aux3 ← load 4 (p4 + 8) m;
        aux4 ← load 4 (p4 + 12) m;
        aux5 ← load 4 (p4 + 16) m;
        aux6 ← load 4 (p4 + 20) m;
        aux7 ← load 4 (p4 + 24) m;
        let aux1 := nibble_counts (pair_counts aux1) in
        let aux2 := nibble_counts (pair_counts aux2) in
        let aux3 := nibble_counts (pair_counts aux3) in
        let aux4 := nibble_counts (pair_counts aux4) in
        let aux5 := nibble_counts (pair_counts aux5) in
        let aux6 := nibble_counts (pair_counts aux6) in
        let aux7 := nibble_counts (pair_counts aux7) in
        let sum := u32 (byte_counts aux1 + byte_counts aux2 + byte_counts aux3 + byte_counts aux4
                        + byte_counts aux5 + byte_counts aux6 + byte_counts aux7) in
        count_words fuel m (p4 + 28) (count - 28) (bits + Z.shiftr (u32 (sum * 0x01010101)) 24)
      else Ret (p4, count, bits)
  end.

(** [while(count--)]. *)
Fixpoint count_bytes (fuel : nat) (m : list Z) (p count bits : Z) : res Z :=
  match fuel with
  | O => Diverge
  | S fuel =>
      if negb (count =? 0) then
        b ← aget m p;
        n ← aget bitsinbyte b;
        count_bytes fuel m (p + 1) (count - 1) (bits + n)
      else Ret bits
  end.

Definition redisPopcount (addr : Z) (m : list Z) (s count : Z) : res Z :=
  let fuel := S (Z.to_nat count) in
  '(p, count, bits) ← count_unaligned fuel addr m s count 0;
  '(p4, count, bits) ← count_words fuel m p count bits;
  count_bytes fuel m p4 count bits.

(** ** Searching *)

Definition ULONG_MAX : Z := 2 ^ 64 - 1.
Definition UCHAR_MAX : Z := 255.

(** The results are [c], [count], [pos] and [found]. *)
Fixpoint skip_unaligned (fuel : nat) (addr : Z) (m : list Z) (c count pos skipval : Z) : res (Z * Z * Z * bool) :=
  match fuel with
  | O => Diverge
  | S fuel =>
      if negb (Z.land (addr + c) 7 =? 0) && negb (count =? 0) then
        b ← aget m c;
        if negb (b =? skipval) then Ret (c, count, pos, true)
        else skip_unaligned fuel addr m (c + 1) (count - 1) (pos + 8) skipval
      else Ret (c, count, pos, false)
  end.

Fixpoint skip_words (fuel : nat) (m : list Z) (l count pos skipval : Z) : res (Z * Z * Z) :=
  match fuel with
  | O => Diverge
  | S fuel =>
      if 8 <=? count then
        w ← load 8 l m;
        if negb (w =? skipval) then Ret (l, count, pos)
        else skip_words fuel m (l + 8) (count - 8) (pos + 64) skipval
      else Ret (l, count, pos)
  end.

(** [for (j = 0; j < sizeof( *l ); j++)], with [j] turns left. *)
Fixpoint load_word (j : nat) (m : list Z) (c count word : Z) : res Z :=
  match j with
  | O => Ret word
  | S j =>
      let word := u64 (Z.shiftl word 8) in
      if negb (count =? 0) then b ← aget m c; load_word j m (c + 1) (count - 1) (Z.lor word b)
      else load_word j m c count word
  end.

(** [while(one)]; the panic after the loop is [Abort]. *)
Fixpoint scan_word (fuel : nat) (one word pos : Z) (bit : bool) : res Z :=
  match fuel with
  | O => Diverge
  | S fuel =>
      if negb (one =? 0) then
        if eqb (negb (Z.land one word =? 0)) bit then Ret pos
        else scan_word fuel (Z.shiftr one 1) word (pos + 1) bit
      else Abort
  end.

Definition redisBitpos (addr : Z) (m : list Z) (s count : Z) (bit : bool) : res Z :=
  let fuel := S (Z.to_nat count) in
  '(c, count, pos, found) ← skip_unaligned fuel addr m s count 0 (if bit then 0 else UCHAR_MAX);
  '(l, count, pos) ← (if negb found then skip_words fuel m c count pos (if bit then 0 else ULONG_MAX) else Ret (c, count, pos));
  word ← load_word 8 m l count 0;
  if bit && (word =? 0) then Ret (-1) else
  let one := u64 (Z.lnot (Z.shiftr ULONG_MAX 1)) in
  scan_word 65 one word pos bit.

(** ** Integers at any offset *)

(** [for (j = 0; j < bits; j++)], with [n] turns left. *)
Fixpoint set_bits (n : nat) (p : list Z) (offset value : Z) : res (list Z) :=
  match n with
  | O => Ret p
  | S n =>
      let bitval := if negb (Z.land value (Z.shiftl 1 (Z.of_nat n)) =? 0) then 1 else 0 in
      let byte := Z.shiftr offset 3 in
      let bit := 7 - Z.land offset 0x7 in
      byteval ← aget p byte;
      let byteval := Z.land byteval (Z.lnot (Z.shiftl 1 bit)) in
      let byteval := Z.lor byteval (Z.shiftl bitval bit) in
      p ← aset p byte (Z.land byteval 0xff);
      set_bits n p (offset + 1) value
  end.

Definition setUnsignedBitfield (p : list Z) (offset bits value : Z) : res (list Z) := set_bits (Z.to_nat bits) p offset value.

Definition setSignedBitfield (p : list Z) (offset bits value : Z) : res (list Z) := setUnsignedBitfield p offset bits (u64 value).

Fixpoint get_bits (n : nat) (p : list Z) (offset value : Z) : res Z :=
  match n with
  | O => Ret value
  | S n =>
      let byte := Z.shiftr offset 3 in
      let bit := 7 - Z.land offset 0x7 in
      byteval ← aget p byte;
      let bitval := Z.land (Z.shiftr byteval bit) 1 in
      get_bits n p (offset + 1) (Z.lor (u64 (Z.shiftl value 1)) bitval)
  end.

Definition getUnsignedBitfield (p : list Z) (offset bits : Z) : res Z := get_bits (Z.to_nat bits) p offset 0.

Definition getSignedBitfield (p : list Z) (offset bits : Z) : res Z :=
  u ← getUnsignedBitfield p offset bits;
  let value := s64 u in
  Ret (if (bits <? 64) && negb (Z.land (u64 value) (Z.shiftl 1 (bits - 1)) =? 0)
       then s64 (Z.lor (u64 value) (u64 (Z.shiftl ULONG_MAX bits))) else value).

(** ** Overflow *)

Inductive owtype : Type := BFOVERFLOW_WRAP | BFOVERFLOW_SAT | BFOVERFLOW_FAIL.
#[export] Instance owtype_eq : EqDecision owtype.
Proof. solve_decision. Defined.

(** The results are the return value and [*limit], which is left as it was when
    the operation fails.  A shift by the width of the type is undefined. *)
Definition checkUnsignedBitfieldOverflow (value incr bits : Z) (ow : owtype) (limit : Z) : res (Z * Z) :=
  let max := if bits =? 64 then ULONG_MAX else Z.shiftl 1 bits - 1 in
  let maxincr := s64 (u64 (max - value)) in
  let minincr := s64 (u64 (- value)) in
  let handle_wrap :=
    _ ← assert (bits <? 64);
    let mask := u64 (Z.shiftl ULONG_MAX bits) in
    let r := u64 (value + incr) in
    Ret (1, Z.land r (u64 (Z.lnot mask))) in
  if (max <? value) || ((0 <? incr) && (maxincr <? incr)) then
    match ow with BFOVERFLOW_WRAP => handle_wrap | BFOVERFLOW_SAT => Ret (1, max) | BFOVERFLOW_FAIL => Ret (1, limit) end
  else if (incr <? 0) && (incr <? minincr) then
    match ow with BFOVERFLOW_WRAP => handle_wrap | BFOVERFLOW_SAT => Ret (-1, 0) | BFOVERFLOW_FAIL => Ret (-1, limit) end
  else Ret (0, limit).

(** The subtraction of [minincr] may overflow; it wraps around. *)
Definition checkSignedBitfieldOverflow (value incr bits : Z) (ow : owtype) (limit : Z) : Z * Z :=
  let max := if bits =? 64 then 2 ^ 63 - 1 else Z.shiftl 1 (bits - 1) - 1 in
  let min := - max - 1 in
  let maxincr := s64 (u64 (max - value)) in
  let minincr := s64 (min - value) in
  let handle_wrap :=
    let msb := Z.shiftl 1 (bits - 1) in
    let c := u64 (u64 value + u64 incr) in
    let mask := u64 (Z.shiftl ULONG_MAX bits) in
    let c := if bits <? 64 then if negb (Z.land c msb =? 0) then Z.lor c mask else Z.land c (u64 (Z.lnot mask)) else c in
    (1, s64 c) in
  if (max <? value) || (negb (bits =? 64) && (maxincr <? incr)) || ((0 <=? value) && (0 <? incr) && (maxincr <? incr)) then
    match ow with BFOVERFLOW_WRAP => handle_wrap | BFOVERFLOW_SAT => (1, max) | BFOVERFLOW_FAIL => (1, limit) end
  else if (value <? min) || (negb (bits =? 64) && (incr <? minincr)) || ((value <? 0) && (incr <? 0) && (incr <? minincr)) then
    match ow with BFOVERFLOW_WRAP => handle_wrap | BFOVERFLOW_SAT => (-1, min) | BFOVERFLOW_FAIL => (-1, limit) end
  else (0, limit).
