(* ===== verification/BitString.v ===== *)
(** * Strings as sequences of bits

    The functions of [Bitops] in terms of the list of the bits of a string:
    counting is counting, searching finds the first, integers are read and
    written in binary notation, and the checks for overflow are exact.  None of it
    depends on the alignment of the string. *)
From S2P Require Import Prelude Mem Bitops.

Local Open Scope Z_scope.

(** Results whose components are equal numbers. *)
Ltac same_result :=
  repeat match goal with |- Ret _ = Ret _ => apply (f_equal Ret) | |- (_, _) = (_, _) => apply (f_equal2 pair) end;
  first [reflexivity | lia].

(** ** Bits of bytes *)

Definition byte_bits (b : Z) : list bool := map (fun k => Z.testbit b (7 - Z.of_nat k)) (seq 0 8).
Definition bits_of (s : list Z) : list bool := concat (map byte_bits s).

Definition ones (l : list bool) : Z := sumZ (map Z.b2z l).

Lemma bits_of_cons b s : bits_of (b :: s) = byte_bits b ++ bits_of s.
Proof. done. Qed.
Lemma bits_of_app s t : bits_of (s ++ t) = bits_of s ++ bits_of t.
Proof. unfold bits_of. by rewrite map_app, concat_app. Qed.

Lemma length_bits_of s : length (bits_of s) = (8 * length s)%nat.
Proof. induction s as [|b s IH]; [done|]. rewrite bits_of_cons, length_app, IH. cbn [length byte_bits map seq]. lia. Qed.

Lemma lookup_byte_bits b i : (i < 8)%nat -> byte_bits b !! i = Some (Z.testbit b (7 - Z.of_nat i)).
Proof. intros Hi. unfold byte_bits. rewrite list_lookup_fmap, lookup_seq_lt by done. done. Qed.

Lemma lookup_bits_of s i : bits_of s !! i = (fun b => Z.testbit b (7 - Z.of_nat (i `mod` 8)%nat)) <$> s !! (i `div` 8)%nat.
Proof.
  revert i. induction s as [|b s IH]; intros i; [done|]. rewrite bits_of_cons. destruct (decide (i < 8)%nat) as [Hi|Hi].
  - rewrite lookup_app_l by (cbn; lia). rewrite lookup_byte_bits by done. rewrite Nat.div_small, Nat.mod_small by done. done.
  - rewrite lookup_app_r by (cbn; lia). cbn [length byte_bits map seq]. rewrite IH.
    set (j := (i - 8)%nat). replace i with (j + 1 * 8)%nat by lia. rewrite Nat.div_add, Nat.Div0.mod_add by lia.
    by replace (j `div` 8 + 1)%nat with (S (j `div` 8)) by lia.
Qed.

Lemma bits_of_sub p n s : bits_of (sub p n s) = sub (8 * p) (8 * n) (bits_of s).
Proof.
  apply list_eq. intros i. unfold sub. rewrite lookup_bits_of. destruct (decide (i < 8 * n)%nat) as [Hi|Hi].
  - rewrite !lookup_take_lt, !lookup_drop, lookup_bits_of by (try apply Nat.Div0.div_lt_upper_bound; lia).
    replace (8 * p + i)%nat with (i + p * 8)%nat by lia. rewrite Nat.div_add, Nat.Div0.mod_add by lia. by rewrite Nat.add_comm.
  - rewrite !lookup_take_ge; [done|lia|apply Nat.div_le_lower_bound; lia].
Qed.

Lemma bits_of_sub_succ p n s b : s !! p = Some b -> bits_of (sub p (S n) s) = byte_bits b ++ bits_of (sub (S p) n s).
Proof. intros Hb. unfold sub. by rewrite (drop_S _ _ _ Hb). Qed.

Lemma bits_of_zeros n : bits_of (replicate n 0) = replicate (8 * n) false.
Proof.
  induction n as [|n IH]; [done|]. cbn [replicate]. rewrite bits_of_cons, IH. replace (8 * S n)%nat with (8 + 8 * n)%nat by lia. by rewrite replicate_add.
Qed.

Lemma ones_app l1 l2 : ones (l1 ++ l2) = ones l1 + ones l2.
Proof. unfold ones. by rewrite map_app, sumZ_app. Qed.

(** The bytes are those of the bits. *)
Lemma byte_bits_inj a b : is_byte a -> is_byte b -> byte_bits a = byte_bits b -> a = b.
Proof.
  unfold is_byte. intros Ha Hb E. apply (bits_eq 8); [lia|lia|]. intros i Hi. pose proof (f_equal (fun l => l !! Z.to_nat (7 - i)) E) as E'. cbv beta in E'.
  rewrite !lookup_byte_bits in E' by lia. injection E'. by replace (7 - Z.of_nat (Z.to_nat (7 - i))) with i by lia.
Qed.

Lemma bits_of_inj s t : bytes s -> bytes t -> bits_of s = bits_of t -> s = t.
Proof.
  intros Hs. revert t. induction Hs as [|a s Ha Hs IH]; intros t Ht E; destruct Ht as [|b t Hb Ht]; [done|..].
  1,2: by apply (f_equal length) in E; rewrite !length_bits_of in E; cbn in E; lia.
  rewrite !bits_of_cons in E. apply app_inj_1 in E as [E1 E2]; [|done]. f_equal; [by apply byte_bits_inj|by apply IH].
Qed.

(** What holds of all bytes is checked on each. *)
Lemma all_bytes (f : Z -> bool) b : forallb f (map Z.of_nat (seq 0 256)) = true -> is_byte b -> f b = true.
Proof.
  unfold is_byte. intros H Hb. rewrite forallb_forall in H. apply H. apply List.in_map_iff. exists (Z.to_nat b). split; [lia|]. apply List.in_seq. lia.
Qed.

(** ** Counting *)

Lemma ones_byte_range b : 0 <= ones (byte_bits b) <= 8.
Proof. unfold ones, byte_bits. cbn [map seq sumZ]. repeat (destruct (Z.testbit _ _); cbn [Z.b2z]); lia. Qed.

Lemma bitsinbyte_spec b : is_byte b -> aget bitsinbyte b = Ret (ones (byte_bits b)).
Proof.
  intros Hb. pose proof (all_bytes (fun b => match aget bitsinbyte b with Ret n => n =? ones (byte_bits b) | _ => false end) b ltac:(by vm_compute) Hb) as E.
  cbv beta in E. destruct (aget bitsinbyte b) as [n| |]; [|done|done]. by apply Z.eqb_eq in E as ->.
Qed.

Lemma byte_in m (p : nat) : bytes m -> (p < length m)%nat -> exists b, m !! p = Some b /\ is_byte b.
Proof. intros Hm Hp. destruct (lookup_lt_is_Some_2 m p Hp) as [b Hb]. exists b. split; [done|]. by apply (Forall_lookup_1 _ _ _ _ Hm Hb). Qed.

Lemma ones_none p m : ones (bits_of (sub p 0 m)) = 0.
Proof. done. Qed.

Lemma count_bytes_spec fuel m (p n : nat) bits : bytes m -> (p + n <= length m)%nat -> (n < fuel)%nat ->
  count_bytes fuel m (Z.of_nat p) (Z.of_nat n) bits = Ret (bits + ones (bits_of (sub p n m))).
Proof.
  intros Hm. revert p n bits. induction fuel as [|fuel IH]; intros p n bits Hp Hf; [lia|]. cbn [count_bytes]. destruct n as [|n]; cbn [negb].
  - replace (Z.of_nat 0 =? 0) with true by done. cbn [negb]. f_equal. rewrite ones_none. lia.
  - rewrite (proj2 (Z.eqb_neq _ _)) by lia. cbn [negb]. destruct (byte_in m p Hm) as (b & Hb & Hbb); [lia|]. rewrite (aget_in _ _ _ Hb). cbn [mbind res_bind].
    rewrite bitsinbyte_spec by done. cbn [mbind res_bind]. replace (Z.of_nat p + 1) with (Z.of_nat (S p)) by lia. replace (Z.of_nat (S n) - 1) with (Z.of_nat n) by lia.
    rewrite IH by lia. f_equal. rewrite (bits_of_sub_succ _ _ _ _ Hb), ones_app. lia.
Qed.

Lemma count_unaligned_spec fuel addr m (p n : nat) bits : bytes m -> (p + n <= length m)%nat -> (n < fuel)%nat ->
  exists k : nat, (k <= n)%nat /\
    count_unaligned fuel addr m (Z.of_nat p) (Z.of_nat n) bits = Ret (Z.of_nat (p + k), Z.of_nat (n - k), bits + ones (bits_of (sub p k m))).
Proof.
  intros Hm. revert p n bits. induction fuel as [|fuel IH]; intros p n bits Hp Hf; [lia|]. cbn [count_unaligned].
  destruct (negb (Z.land (addr + Z.of_nat p) 3 =? 0) && negb (Z.of_nat n =? 0)) eqn:E.
  - apply andb_true_iff in E as [_ E]. rewrite negb_true_iff, Z.eqb_neq in E. destruct n as [|n]; [lia|]. destruct (byte_in m p Hm) as (b & Hb & Hbb); [lia|].
    rewrite (aget_in _ _ _ Hb). cbn [mbind res_bind]. rewrite bitsinbyte_spec by done. cbn [mbind res_bind].
    replace (Z.of_nat p + 1) with (Z.of_nat (S p)) by lia. replace (Z.of_nat (S n) - 1) with (Z.of_nat n) by lia.
    destruct (IH (S p) n (bits + ones (byte_bits b))) as (k & Hk & ->); [lia|lia|]. exists (S k). split; [lia|].
    rewrite (bits_of_sub_succ _ _ _ _ Hb), ones_app. same_result.
  - exists O. split; [lia|]. rewrite ones_none. same_result.
Qed.

(** *** Seven words at a time *)

Lemma testbit_byte_cons x y i : 0 <= x < 256 -> 0 <= i -> Z.testbit (x + 256 * y) i = if i <? 8 then Z.testbit x i else Z.testbit y (i - 8).
Proof.
  intros Hx Hi. change 256 with (2 ^ 8). rewrite Z.add_comm, Z.mul_comm, <- lor_shiftl_add by lia. rewrite Z.lor_spec, Z.shiftl_spec by done.
  destruct (Z.ltb_spec i 8); [by rewrite Z.testbit_neg_r by lia|]. by rewrite (testbit_high x 8), orb_false_r by lia.
Qed.

(** A mask that does not reach the bits that come from the next byte works byte by
    byte. *)
Lemma land_shift_cons k lo hi m M : 0 <= k < 8 -> 0 <= lo < 256 -> 0 <= m < 2 ^ (8 - k) ->
  Z.land (Z.shiftr (lo + 256 * hi) k) (m + 256 * M) = Z.land (Z.shiftr lo k) m + 256 * Z.land (Z.shiftr hi k) M.
Proof.
  intros Hk Hlo Hm. assert (2 ^ (8 - k) <= 256) by (change 256 with (2 ^ 8); apply Z.pow_le_mono_r; lia).
  assert (0 <= Z.land (Z.shiftr lo k) m < 256) as Hr.
  { apply (bits_range _ 8); [done|]. intros i Hi. by rewrite Z.land_spec, (testbit_high m 8), andb_false_r by lia. }
  apply Z.bits_inj'. intros i Hi. rewrite Z.land_spec, Z.shiftr_spec, !testbit_byte_cons by lia. destruct (Z.ltb_spec i 8).
  - rewrite Z.land_spec, Z.shiftr_spec by lia. destruct (Z.ltb_spec (i + k) 8); [done|]. by rewrite (testbit_high m (8 - k) i), !andb_false_r by lia.
  - rewrite Z.land_spec, Z.shiftr_spec by lia. rewrite (proj2 (Z.ltb_ge (i + k) 8)) by lia. by replace (i + k - 8) with (i - 8 + k) by lia.
Qed.

Lemma land_shift_bytes k m l : 0 <= k < 8 -> 0 <= m < 2 ^ (8 - k) -> bytes l ->
  Z.land (Z.shiftr (le_combine l) k) (le_combine (replicate (length l) m)) = le_combine (map (fun b => Z.land (Z.shiftr b k) m) l).
Proof.
  intros Hk Hm. induction 1 as [|b l Hb Hl IH]; [by cbn; rewrite Z.land_0_r|]. unfold is_byte in Hb. cbn [le_combine length replicate map].
  rewrite land_shift_cons by lia. by rewrite IH.
Qed.

Lemma le_combine_linear (f g h : Z -> Z) l : (forall b, h b = f b + g b) -> le_combine (map h l) = le_combine (map f l) + le_combine (map g l).
Proof. intros E. induction l as [|b l IH]; [done|]. cbn [map le_combine]. rewrite IH, E. lia. Qed.

(** The steps on one byte. *)
Definition pairs8 (b : Z) : Z := b - Z.land (Z.shiftr b 1) 0x55.
Definition nibbles8 (b : Z) : Z := Z.land b 0x33 + Z.land (Z.shiftr b 2) 0x33.
Definition count8 (b : Z) : Z := Z.land (b + Z.shiftr b 4) 0x0F.

Lemma steps8 b : is_byte b ->
  is_byte (pairs8 b) /\ is_byte (nibbles8 (pairs8 b)) /\ nibbles8 (pairs8 b) mod 16 <= 4 /\ nibbles8 (pairs8 b) / 16 <= 4 /\
  count8 (nibbles8 (pairs8 b)) = ones (byte_bits b).
Proof.
  intros Hb. pose proof (all_bytes (fun b => let p := pairs8 b in let n := nibbles8 p in
    (0 <=? p) && (p <? 256) && (0 <=? n) && (n <? 256) && (n mod 16 <=? 4) && (n / 16 <=? 4) && (count8 n =? ones (byte_bits b))) b ltac:(by vm_compute) Hb) as E.
  cbv beta zeta in E. rewrite !andb_true_iff, !Z.leb_le, !Z.ltb_lt, Z.eqb_eq in E. unfold is_byte. lia.
Qed.

Section Word.
Context (l : list Z) (Hl : bytes l) (H4 : length l = 4%nat).

Lemma mask4 (m : Z) : replicate (length l) m = [m; m; m; m].
Proof using H4. by rewrite H4. Qed.

Lemma map_bytes (f : Z -> Z) : (forall b, is_byte b -> is_byte (f b)) -> bytes (map f l).
Proof using Hl. intros Hf. apply Forall_map. by apply (Forall_impl _ _ _ Hl). Qed.

Lemma word_range (f : Z -> Z) : (forall b, is_byte b -> is_byte (f b)) -> u32 (le_combine (map f l)) = le_combine (map f l).
Proof using Hl H4. intros Hf. apply uwrap_id. pose proof (le_combine_range _ (map_bytes f Hf)) as R. rewrite length_map, H4 in R. exact R. Qed.

Lemma pair_counts_bytes : pair_counts (le_combine l) = le_combine (map pairs8 l).
Proof using Hl H4.
  unfold pair_counts. change 0x55555555 with (le_combine [0x55; 0x55; 0x55; 0x55]). rewrite <- mask4, land_shift_bytes by (done || lia).
  rewrite <- (word_range pairs8) by (intros b Hb; apply (steps8 b Hb)). f_equal.
  pose proof (le_combine_linear pairs8 (fun b => Z.land (Z.shiftr b 1) 0x55) id l) as E. rewrite map_id in E. rewrite E; [lia|]. intros b. unfold pairs8, id. lia.
Qed.
End Word.

Lemma nibble_counts_bytes l : bytes l -> length l = 4%nat -> bytes (map nibbles8 l) -> nibble_counts (le_combine l) = le_combine (map nibbles8 l).
Proof.
  intros Hl H4 Hn. unfold nibble_counts. change 0x33333333 with (le_combine [0x33; 0x33; 0x33; 0x33]). rewrite <- (mask4 l H4).
  rewrite <- (Z.shiftr_0_r (le_combine l)) at 1. rewrite !land_shift_bytes by (done || lia). rewrite <- le_combine_linear with (h := nibbles8).
  - apply uwrap_id. pose proof (le_combine_range _ Hn) as R. rewrite length_map, H4 in R. exact R.
  - intros b. unfold nibbles8. by rewrite Z.shiftr_0_r.
Qed.

Definition nibbles_ok (b : Z) : Prop := is_byte b /\ b mod 16 <= 4 /\ b / 16 <= 4.

Lemma byte_counts_mask l : Forall nibbles_ok l ->
  Z.land (le_combine l + Z.shiftr (le_combine l) 4) (le_combine (replicate (length l) 0x0F)) = le_combine (map count8 l) /\ le_combine l mod 16 <= 4.
Proof.
  induction 1 as [|b l (Hb & Hlo & Hhi) Hl [IH Hm]]; [done|]. unfold is_byte in Hb. cbn [length replicate le_combine map]. split.
  - set (hi := le_combine l) in *. assert (Z.shiftr (b + 256 * hi) 4 = Z.shiftr b 4 + 16 * (hi mod 16) + 256 * Z.shiftr hi 4) as ->.
    { rewrite !Z.shiftr_div_pow2 by lia. change (2 ^ 4) with 16. pose proof (Z.div_mod hi 16 ltac:(lia)). symmetry. replace (b + 256 * hi) with (b + (16 * hi) * 16) by lia. rewrite Z.div_add by lia. lia. }
    pose proof (Z.mod_pos_bound hi 16 ltac:(lia)). assert (0 <= Z.shiftr b 4 <= 4) as Hs by (rewrite Z.shiftr_div_pow2 by lia; change (2 ^ 4) with 16; pose proof (Z.div_pos b 16); lia).
    assert (b <= 68) as Hb68 by (pose proof (Z.div_mod b 16 ltac:(lia)); lia).
    replace (b + 256 * hi + (Z.shiftr b 4 + 16 * (hi mod 16) + 256 * Z.shiftr hi 4)) with ((b + Z.shiftr b 4 + 16 * (hi mod 16)) + 256 * (hi + Z.shiftr hi 4)) by lia.
    rewrite <- (Z.shiftr_0_r (_ + 256 * _)). rewrite land_shift_cons by lia. rewrite !Z.shiftr_0_r, IH. f_equal. unfold count8.
    change 15 with (Z.ones 4). rewrite !Z.land_ones by lia. change (2 ^ 4) with 16. rewrite (Z.mul_comm 16), Z.mod_add by lia. done.
  - replace (b + 256 * le_combine l) with (b + (16 * le_combine l) * 16) by lia. by rewrite Z.mod_add by lia.
Qed.

(** The counts of the bytes of a word. *)
Lemma word_counts l : bytes l -> length l = 4%nat ->
  byte_counts (nibble_counts (pair_counts (le_combine l))) = le_combine (map (fun b => ones (byte_bits b)) l).
Proof.
  intros Hl H4. assert (bytes (map pairs8 l)) as Hp by (apply map_bytes; [done|]; intros b Hb; apply (steps8 b Hb)).
  assert (Forall nibbles_ok (map nibbles8 (map pairs8 l))) as Hn.
  { apply Forall_map, Forall_map, (Forall_impl _ _ _ Hl). intros b Hb. unfold nibbles_ok. destruct (steps8 b Hb) as (_ & ? & ? & ? & _). done. }
  assert (bytes (map nibbles8 (map pairs8 l))) as Hnb by (apply (Forall_impl _ _ _ Hn); by intros b [? _]).
  rewrite (pair_counts_bytes l Hl H4), nibble_counts_bytes by (by rewrite ?length_map). set (n := map nibbles8 _) in *. assert (length n = 4%nat) as Hn4 by (unfold n; by rewrite !length_map).
  unfold byte_counts. rewrite uwrap_id.
  - change 0x0F0F0F0F with (le_combine [0x0F; 0x0F; 0x0F; 0x0F]). rewrite <- (mask4 n Hn4). rewrite (proj1 (byte_counts_mask n Hn)). unfold n. rewrite !map_map. f_equal.
    apply map_ext_in. intros b Hb. apply steps8. rewrite Forall_forall in Hl. by apply Hl, list_elem_of_In.
  - do 5 (destruct n as [|? n]; try done). rewrite Z.shiftr_div_pow2 by lia. repeat (apply Forall_cons in Hn as [(? & ? & ?) Hn]). unfold is_byte in *. cbn [le_combine].
    repeat match goal with H : ?x / 16 <= 4 |- _ => assert (x <= 79) by (pose proof (Z.div_mod x 16 ltac:(lia)); pose proof (Z.mod_pos_bound x 16 ltac:(lia)); lia); clear H end.
    match goal with |- 0 <= ?x + ?x / _ < _ => pose proof (Z.div_pos x (2 ^ 4) ltac:(lia) ltac:(lia)); pose proof (Z.div_le_upper_bound x (2 ^ 4) x ltac:(lia) ltac:(lia)) end. lia.
Qed.

(** The product adds the bytes. *)
Lemma sum_bytes a b c d : 0 <= a <= 56 -> 0 <= b <= 56 -> 0 <= c <= 56 -> 0 <= d <= 56 ->
  Z.shiftr (u32 (u32 (a + 256 * (b + 256 * (c + 256 * d))) * 0x01010101)) 24 = a + b + c + d.
Proof.
  intros. rewrite (uwrap_id 32 (a + _)) by lia. rewrite Z.shiftr_div_pow2 by lia. unfold uwrap.
  replace ((a + 256 * (b + 256 * (c + 256 * d))) * 0x01010101) with ((a + 2 ^ 8 * (a + b) + 2 ^ 16 * (a + b + c) + 2 ^ 24 * (a + b + c + d)) + ((b + c + d) + 2 ^ 8 * (c + d) + 2 ^ 16 * d) * 2 ^ 32) by lia.
  rewrite Z.mod_add, Z.mod_small by lia. symmetry. apply Z.div_unique with (a + 2 ^ 8 * (a + b) + 2 ^ 16 * (a + b + c)); lia.
Qed.

Lemma ones_word l : length l = 4%nat -> exists a b c d, le_combine (map (fun b => ones (byte_bits b)) l) = a + 256 * (b + 256 * (c + 256 * d)) /\ 0 <= a <= 8 /\ 0 <= b <= 8 /\ 0 <= c <= 8 /\ 0 <= d <= 8 /\ ones (bits_of l) = a + b + c + d.
Proof.
  intros H4. do 5 (destruct l as [|? l]; try done). cbn [map le_combine]. do 4 eexists. split; [rewrite Z.mul_0_r, Z.add_0_r; reflexivity|].
  repeat (split; [apply ones_byte_range|]). rewrite !bits_of_cons, !ones_app. unfold bits_of, ones at 5. cbn. lia.
Qed.

Lemma load4 m (q : nat) : bytes m -> (q + 4 <= length m)%nat -> exists x a b c d, load 4 (Z.of_nat q) m = Ret x /\
  byte_counts (nibble_counts (pair_counts x)) = a + 256 * (b + 256 * (c + 256 * d)) /\ 0 <= a <= 8 /\ 0 <= b <= 8 /\ 0 <= c <= 8 /\ 0 <= d <= 8 /\
  ones (bits_of (sub q 4 m)) = a + b + c + d.
Proof.
  intros Hm Hq. pose proof (length_sub q 4 m Hq) as H4. destruct (ones_word _ H4) as (a & b & c & d & E & Hr). rewrite <- (word_counts _ (sub_bytes q 4 m Hm) H4) in E.
  exists (le_combine (sub q 4 m)), a, b, c, d. split; [by apply (load_Ret 4 q)|]. by split.
Qed.

Lemma sub_split {A} p k n (m : list A) : sub p (k + n) m = sub p k m ++ sub (p + k) n m.
Proof. unfold sub. rewrite <- drop_drop, <- take_take_drop. done. Qed.

Lemma count_words_spec fuel m (p n : nat) bits : bytes m -> (p + n <= length m)%nat -> (n < fuel)%nat ->
  exists k : nat, (k <= n)%nat /\ count_words fuel m (Z.of_nat p) (Z.of_nat n) bits = Ret (Z.of_nat (p + k), Z.of_nat (n - k), bits + ones (bits_of (sub p k m))).
Proof.
  intros Hm. revert p n bits. induction fuel as [|fuel IH]; intros p n bits Hp Hf; [lia|]. cbn [count_words]. destruct (Z.leb_spec 28 (Z.of_nat n)) as [Hn|Hn].
  - replace (Z.of_nat p + 4) with (Z.of_nat (p + 4)) by lia. replace (Z.of_nat p + 8) with (Z.of_nat (p + 8)) by lia. replace (Z.of_nat p + 12) with (Z.of_nat (p + 12)) by lia.
    replace (Z.of_nat p + 16) with (Z.of_nat (p + 16)) by lia. replace (Z.of_nat p + 20) with (Z.of_nat (p + 20)) by lia. replace (Z.of_nat p + 24) with (Z.of_nat (p + 24)) by lia.
    destruct (load4 m p Hm) as (x1 & a1 & b1 & c1 & d1 & -> & E1 & ? & ? & ? & ? & O1); [lia|]. destruct (load4 m (p + 4) Hm) as (x2 & a2 & b2 & c2 & d2 & -> & E2 & ? & ? & ? & ? & O2); [lia|].
    destruct (load4 m (p + 8) Hm) as (x3 & a3 & b3 & c3 & d3 & -> & E3 & ? & ? & ? & ? & O3); [lia|]. destruct (load4 m (p + 12) Hm) as (x4 & a4 & b4 & c4 & d4 & -> & E4 & ? & ? & ? & ? & O4); [lia|].
    destruct (load4 m (p + 16) Hm) as (x5 & a5 & b5 & c5 & d5 & -> & E5 & ? & ? & ? & ? & O5); [lia|]. destruct (load4 m (p + 20) Hm) as (x6 & a6 & b6 & c6 & d6 & -> & E6 & ? & ? & ? & ? & O6); [lia|].
    destruct (load4 m (p + 24) Hm) as (x7 & a7 & b7 & c7 & d7 & -> & E7 & ? & ? & ? & ? & O7); [lia|]. cbn [mbind res_bind]. rewrite E1, E2, E3, E4, E5, E6, E7.
    match goal with |- context [u32 ?s * 0x01010101] => replace s with ((a1 + a2 + a3 + a4 + a5 + a6 + a7) + 256 * ((b1 + b2 + b3 + b4 + b5 + b6 + b7) + 256 * ((c1 + c2 + c3 + c4 + c5 + c6 + c7) + 256 * (d1 + d2 + d3 + d4 + d5 + d6 + d7)))) by lia end.
    rewrite sum_bytes by lia. replace (Z.of_nat p + 28) with (Z.of_nat (p + 28)) by lia. replace (Z.of_nat n - 28) with (Z.of_nat (n - 28)) by lia.
    match goal with |- context [count_words fuel m _ _ ?b] => destruct (IH (p + 28)%nat (n - 28)%nat b) as (k & Hk & ->); [lia|lia|] end. exists (28 + k)%nat. split; [lia|].
    assert (ones (bits_of (sub p 28 m)) = (a1 + b1 + c1 + d1) + (a2 + b2 + c2 + d2) + (a3 + b3 + c3 + d3) + (a4 + b4 + c4 + d4) + (a5 + b5 + c5 + d5) + (a6 + b6 + c6 + d6) + (a7 + b7 + c7 + d7)) as E28.
    { change 28%nat with (4 + (4 + (4 + (4 + (4 + (4 + 4))))))%nat. rewrite !sub_split, !bits_of_app, !ones_app, <- !Nat.add_assoc. cbn [Nat.add]. rewrite O1, O2, O3, O4, O5, O6, O7. lia. }
    rewrite sub_split, bits_of_app, ones_app, E28. same_result.
  - exists O. split; [lia|]. rewrite ones_none. same_result.
Qed.

Lemma redisPopcount_spec addr m (s n : nat) : bytes m -> (s + n <= length m)%nat ->
  redisPopcount addr m (Z.of_nat s) (Z.of_nat n) = Ret (ones (bits_of (sub s n m))).
Proof.
  intros Hm Hs. unfold redisPopcount. rewrite Nat2Z.id. destruct (count_unaligned_spec (S n) addr m s n 0 Hm) as (k & Hk & ->); [lia|lia|]. cbn [mbind res_bind].
  destruct (count_words_spec (S n) m (s + k) (n - k) (0 + ones (bits_of (sub s k m))) Hm) as (j & Hj & ->); [lia|lia|]. cbn [mbind res_bind].
  rewrite count_bytes_spec by (done || lia). f_equal. replace n with (k + (j + (n - k - j)))%nat at 2 by lia. rewrite !sub_split, !bits_of_app, !ones_app. lia.
Qed.
