(* ===== verification/BitSearch.v ===== *)
(** * The search for a bit

    [redisBitpos] finds the first bit, whatever the alignment of the string: the
    loops over bytes and words skip what cannot have it, and the rest is one word,
    in which the string is followed by zeros. *)
From S2P Require Import Prelude Mem Bitops BitString.

Local Open Scope Z_scope.

Fixpoint first_bit (bit : bool) (l : list bool) : option nat :=
  match l with
  | [] => None
  | b :: l => if eqb b bit then Some O else S <$> first_bit bit l
  end.

Lemma first_bit_app bit l1 l2 : first_bit bit (l1 ++ l2) = match first_bit bit l1 with Some i => Some i | None => Nat.add (length l1) <$> first_bit bit l2 end.
Proof.
  induction l1 as [|b l1 IH]; cbn; [by destruct (first_bit bit l2)|]. destruct (eqb b bit); [done|]. rewrite IH. destruct (first_bit bit l1); [done|]. by destruct (first_bit bit l2).
Qed.

Lemma first_bit_Some bit l i : first_bit bit l = Some i <-> l !! i = Some bit /\ forall j, (j < i)%nat -> l !! j = Some (negb bit).
Proof.
  revert i. induction l as [|b l IH]; intros i; cbn; [by split; [|intros [? _]]|]. destruct (eqb b bit) eqn:E; [apply eqb_prop in E as ->|apply eqb_false_iff in E].
  - split; [intros [= <-]; split; [done|lia]|]. intros [Hi Hj]. destruct i as [|i]; [done|]. specialize (Hj O ltac:(lia)). cbn in Hj. by destruct bit.
  - destruct i as [|i]; cbn; [split; [by destruct (first_bit bit l)|by intros [[= ->] _]]|]. rewrite fmap_Some. split.
    + intros (x & Hx & [= ->]). apply IH in Hx as [Hx Hj]. split; [done|]. intros [|j] Hlt; cbn; [by destruct b, bit|]. apply Hj. lia.
    + intros [Hi Hj]. exists i. split; [|done]. apply IH. split; [done|]. intros j Hlt. apply (Hj (S j)). lia.
Qed.

Lemma first_bit_None bit l : first_bit bit l = None <-> Forall (fun b => b = negb bit) l.
Proof.
  induction l as [|b l IH]; [done|]. rewrite Forall_cons, <- IH. cbn [first_bit]. destruct (eqb b bit) eqn:E; [apply eqb_prop in E as ->|apply eqb_false_iff in E].
  - split; [done|]. intros [E _]. by destruct bit.
  - rewrite fmap_None. split; [|by intros [_ ?]]. intros ->. split; [by destruct b, bit|done].
Qed.

Lemma first_bit_replicate bit n : first_bit bit (replicate n (negb bit)) = None.
Proof. apply first_bit_None, Forall_replicate. done. Qed.

Lemma first_bit_lt bit l i : first_bit bit l = Some i -> (i < length l)%nat.
Proof. intros [Hi _]%first_bit_Some. by apply lookup_lt_Some in Hi. Qed.

(** ** Skipping *)

Definition skip_byte (bit : bool) : Z := if bit then 0 else UCHAR_MAX.
Definition skip_value (bit : bool) : Z := if bit then 0 else ULONG_MAX.

Lemma skip_byte_spec bit b : is_byte b -> first_bit bit (byte_bits b) = None <-> b = skip_byte bit.
Proof.
  intros Hb. pose proof (all_bytes (fun b => eqb (bool_decide (first_bit bit (byte_bits b) = None)) (b =? skip_byte bit)) b ltac:(by destruct bit; vm_compute) Hb) as E.
  apply eqb_prop in E. rewrite <- Z.eqb_eq, <- E. symmetry. apply bool_decide_eq_true.
Qed.

Lemma skip_bytes_all bit l : bytes l -> first_bit bit (bits_of l) = None -> l = replicate (length l) (skip_byte bit).
Proof.
  induction 1 as [|b l Hb Hl IH]; [done|]. rewrite bits_of_cons, first_bit_app. destruct (first_bit bit (byte_bits b)) eqn:E; [done|]. rewrite fmap_None. intros El.
  apply skip_byte_spec in E as ->; [|done]. cbn [length replicate]. f_equal. by apply IH.
Qed.

Lemma skip_word_spec bit l : bytes l -> length l = 8%nat -> first_bit bit (bits_of l) = None <-> le_combine l = skip_value bit.
Proof.
  intros Hl H8. split.
  - intros E%skip_bytes_all; [|done]. rewrite E, H8. by destruct bit.
  - intros E. rewrite <- (le_split_combine l Hl), E, H8. by destruct bit.
Qed.

Lemma first_bit_none_0 bit p m : first_bit bit (bits_of (sub p 0 m)) = None.
Proof. done. Qed.

Lemma skip_unaligned_spec fuel addr m (p n : nat) pos bit : bytes m -> (p + n <= length m)%nat -> (n < fuel)%nat ->
  exists (k : nat) found, (k <= n)%nat /\ first_bit bit (bits_of (sub p k m)) = None /\
    skip_unaligned fuel addr m (Z.of_nat p) (Z.of_nat n) pos (skip_byte bit) = Ret (Z.of_nat (p + k), Z.of_nat (n - k), pos + 8 * Z.of_nat k, found) /\
    (found = true -> (k < n)%nat /\ first_bit bit (bits_of (sub (p + k) 1 m)) <> None).
Proof.
  intros Hm. revert p n pos. induction fuel as [|fuel IH]; intros p n pos Hp Hf; [lia|]. cbn [skip_unaligned].
  destruct (negb (Z.land (addr + Z.of_nat p) 7 =? 0) && negb (Z.of_nat n =? 0)) eqn:E.
  - apply andb_true_iff in E as [_ E]. rewrite negb_true_iff, Z.eqb_neq in E. destruct n as [|n]; [lia|]. destruct (byte_in m p Hm) as (b & Hb & Hbb); [lia|].
    rewrite (aget_in _ _ _ Hb). cbn [mbind res_bind]. pose proof (skip_byte_spec bit b Hbb) as Hskip. destruct (Z.eqb_spec b (skip_byte bit)) as [Eb|Eb]; cbn [negb].
    + replace (Z.of_nat p + 1) with (Z.of_nat (S p)) by lia. replace (Z.of_nat (S n) - 1) with (Z.of_nat n) by lia.
      destruct (IH (S p) n (pos + 8)) as (k & found & Hk & Hn & -> & Hfound); [lia|lia|]. exists (S k), found. split; [lia|]. split.
      { rewrite (bits_of_sub_succ _ _ _ _ Hb), first_bit_app, (proj2 Hskip Eb), Hn. done. }
      split; [same_result|]. intros Hf'. destruct (Hfound Hf') as [Hlt Hne]. split; [lia|]. by replace (p + S k)%nat with (S p + k)%nat by lia.
    + exists O, true. split; [lia|]. split; [done|]. split; [same_result|]. intros _. split; [lia|]. rewrite Nat.add_0_r, (bits_of_sub_succ _ _ _ _ Hb), first_bit_app.
      destruct (first_bit bit (byte_bits b)); [done|]. by destruct Eb, Hskip; auto.
  - exists O, false. split; [lia|]. split; [done|]. split; [same_result|done].
Qed.

Lemma skip_words_spec fuel m (p n : nat) pos bit : bytes m -> (p + n <= length m)%nat -> (n < fuel)%nat ->
  exists k : nat, (k <= n)%nat /\ first_bit bit (bits_of (sub p k m)) = None /\
    skip_words fuel m (Z.of_nat p) (Z.of_nat n) pos (skip_value bit) = Ret (Z.of_nat (p + k), Z.of_nat (n - k), pos + 8 * Z.of_nat k) /\
    ((n - k < 8)%nat \/ first_bit bit (bits_of (sub (p + k) 8 m)) <> None).
Proof.
  intros Hm. revert p n pos. induction fuel as [|fuel IH]; intros p n pos Hp Hf; [lia|]. cbn [skip_words]. destruct (Z.leb_spec 8 (Z.of_nat n)) as [Hn|Hn].
  - rewrite (load_Ret 8 p m : (p + 8 <= length m)%nat -> load 8 _ _ = _) by lia. cbn [mbind res_bind]. assert (length (sub p 8 m) = 8%nat) as H8 by (apply length_sub; lia).
    pose proof (skip_word_spec bit _ (sub_bytes p 8 m Hm) H8) as Hskip. destruct (Z.eqb_spec (le_combine (sub p 8 m)) (skip_value bit)) as [E|E]; cbn [negb].
    + replace (Z.of_nat p + 8) with (Z.of_nat (p + 8)) by lia. replace (Z.of_nat n - 8) with (Z.of_nat (n - 8)) by lia.
      destruct (IH (p + 8)%nat (n - 8)%nat (pos + 64)) as (k & Hk & Hnone & -> & Hend); [lia|lia|]. exists (8 + k)%nat. split; [lia|]. split.
      { rewrite sub_split, bits_of_app, first_bit_app, (proj2 Hskip E), Hnone. done. }
      split; [same_result|]. rewrite Nat.add_assoc. destruct Hend; [left; lia|by right].
    + exists O. split; [lia|]. split; [done|]. split; [same_result|]. right. rewrite Nat.add_0_r. tauto.
  - exists O. split; [lia|]. split; [done|]. split; [same_result|left; lia].
Qed.

(** ** The last word *)

Definition be_combine (v : Z) (l : list Z) : Z := foldl (fun v b => v * 256 + b) v l.

Lemma be_combine_app v l1 l2 : be_combine v (l1 ++ l2) = be_combine (be_combine v l1) l2.
Proof. apply foldl_app. Qed.

Lemma be_bits l i : bytes l -> (i < 8 * length l)%nat -> bits_of l !! i = Some (Z.testbit (be_combine 0 l) (8 * Z.of_nat (length l) - 1 - Z.of_nat i)).
Proof.
  intros Hl. revert i. induction l as [|b l IH] using rev_ind; intros i Hi; [cbn in Hi; lia|]. apply Forall_app in Hl as [Hl [Hb _]%Forall_cons]. unfold is_byte in Hb.
  rewrite length_app in Hi |- *. cbn [length] in Hi |- *. rewrite bits_of_app, be_combine_app. cbn [be_combine foldl]. rewrite Z.add_comm, Z.mul_comm, testbit_byte_cons by lia.
  destruct (decide (i < 8 * length l)%nat) as [Hlt|Hge].
  - rewrite lookup_app_l by (rewrite length_bits_of; lia). rewrite IH by done. destruct (Z.ltb_spec (8 * Z.of_nat (length l + 1) - 1 - Z.of_nat i) 8); [lia|]. do 2 f_equal. lia.
  - rewrite lookup_app_r by (rewrite length_bits_of; lia). rewrite length_bits_of. cbn [bits_of map concat]. rewrite app_nil_r, lookup_byte_bits by lia.
    destruct (Z.ltb_spec (8 * Z.of_nat (length l + 1) - 1 - Z.of_nat i) 8); [|lia]. do 2 f_equal. lia.
Qed.

Lemma be_combine_range l v n : bytes l -> 0 <= v < 256 ^ Z.of_nat n -> 0 <= be_combine v l < 256 ^ Z.of_nat (n + length l).
Proof.
  intros Hl. revert v n. induction Hl as [|b l Hb Hl IH]; intros v n Hv; cbn [be_combine foldl length]; [by rewrite Nat.add_0_r|]. unfold is_byte in Hb.
  replace (n + S (length l))%nat with (S n + length l)%nat by lia. apply IH. rewrite Nat2Z.inj_succ, Z.pow_succ_r by lia. lia.
Qed.

(** The bytes that are left, and zeros up to [j] bytes. *)
Definition padded (j : nat) (l : list Z) : list Z := take j (l ++ replicate j 0).

Lemma padded_bytes j l : bytes l -> bytes (padded j l).
Proof. intros Hl. apply Forall_take, Forall_app_2; [done|]. by apply Forall_replicate. Qed.

Lemma length_padded j l : length (padded j l) = j.
Proof. unfold padded. rewrite length_take, length_app, length_replicate. lia. Qed.

Lemma load_word_spec j m (c n : nat) word k : bytes m -> (c + n <= length m)%nat -> 0 <= word < 256 ^ Z.of_nat k -> (k + j <= 8)%nat ->
  load_word j m (Z.of_nat c) (Z.of_nat n) word = Ret (be_combine word (padded j (sub c n m))).
Proof.
  intros Hm. revert c n word k. induction j as [|j IH]; intros c n word k Hc Hw Hk; [done|]. cbn [load_word].
  assert (256 ^ Z.of_nat (S k) <= 2 ^ 64) as Hp by (change (2 ^ 64) with (256 ^ 8); apply Z.pow_le_mono_r; lia). rewrite Nat2Z.inj_succ, Z.pow_succ_r in Hp by lia.
  rewrite Z.shiftl_mul_pow2 by lia. change (2 ^ 8) with 256. rewrite uwrap_id by lia. unfold padded. destruct n as [|n].
  - replace (Z.of_nat 0 =? 0) with true by done. cbn [negb]. rewrite (IH c O (word * 256) (S k)); [|lia|rewrite Nat2Z.inj_succ, Z.pow_succ_r by lia; lia|lia].
    unfold padded, sub. rewrite !take_0. cbn [app replicate take]. unfold be_combine at 2. cbn [foldl]. by rewrite Z.add_0_r.
  - rewrite (proj2 (Z.eqb_neq _ _)) by lia. cbn [negb]. destruct (byte_in m c Hm) as (b & Hb & Hbb); [lia|]. rewrite (aget_in _ _ _ Hb). cbn [mbind res_bind]. unfold is_byte in Hbb.
    assert (Z.lor (word * 256) b = word * 256 + b) as -> by (change 256 with (2 ^ 8); rewrite <- Z.shiftl_mul_pow2, lor_shiftl_add, Z.shiftl_mul_pow2 by lia; done).
    replace (Z.of_nat c + 1) with (Z.of_nat (S c)) by lia. replace (Z.of_nat (S n) - 1) with (Z.of_nat n) by lia.
    rewrite (IH (S c) n _ (S k)); [|lia|rewrite Nat2Z.inj_succ, Z.pow_succ_r by lia; lia|lia]. f_equal.
    unfold padded. assert (sub c (S n) m = b :: sub (S c) n m) as -> by (unfold sub; by rewrite (drop_S _ _ _ Hb)). cbn [app take be_combine foldl]. f_equal.
    rewrite (replicate_S_end j), app_assoc, (take_app_le _ [_]); [done|]. rewrite length_app, length_replicate. lia.
Qed.

Lemma scan_word_spec fuel word (k : nat) pos bit l i : 0 <= word -> length l = 64%nat -> (forall i, (i < 64)%nat -> l !! i = Some (Z.testbit word (63 - Z.of_nat i))) ->
  first_bit bit (drop k l) = Some i -> (64 - k < fuel)%nat -> scan_word fuel (2 ^ (63 - Z.of_nat k)) word pos bit = Ret (pos + Z.of_nat i).
Proof.
  intros Hw H64 Hl. revert k pos i. induction fuel as [|fuel IH]; intros k pos i Hi Hf; [lia|]. pose proof (first_bit_lt _ _ _ Hi) as Hlt. rewrite length_drop in Hlt.
  pose proof (Hl k ltac:(lia)) as Hk. rewrite (drop_S _ _ _ Hk) in Hi. cbn [first_bit] in Hi. cbn [scan_word].
  rewrite (proj2 (Z.eqb_neq (2 ^ _) _)) by (pose proof (Z.pow_pos_nonneg 2 (63 - Z.of_nat k)); lia). cbn [negb].
  assert (negb (Z.land (2 ^ (63 - Z.of_nat k)) word =? 0) = Z.testbit word (63 - Z.of_nat k)) as ->.
  { destruct (Z.testbit word _) eqn:E.
    - apply negb_true_iff, Z.eqb_neq. intros E0. apply (f_equal (fun x => Z.testbit x (63 - Z.of_nat k))) in E0. rewrite Z.land_spec, Z.pow2_bits_true, E, Z.bits_0 in E0 by lia. done.
    - apply negb_false_iff, Z.eqb_eq, Z.bits_inj'. intros j Hj. rewrite Z.land_spec, Z.bits_0, Z.pow2_bits_eqb by lia. destruct (Z.eqb_spec (63 - Z.of_nat k) j) as [<-|]; [by rewrite E|done]. }
  destruct (eqb _ bit); [injection Hi as <-; f_equal; lia|]. apply fmap_Some in Hi as (i' & Hi & ->). assert (k < 63)%nat as Hk63.
  { destruct (decide (k < 63)%nat); [done|]. apply first_bit_lt in Hi. rewrite length_drop in Hi. lia. }
  rewrite Z.shiftr_div_pow2 by lia. rewrite <- Z.pow_sub_r by lia. replace (63 - Z.of_nat k - 1) with (63 - Z.of_nat (S k)) by lia. rewrite (IH (S k) (pos + 1) i') by (done || lia). f_equal. lia.
Qed.

Lemma word_bits (l : list Z) i : bytes l -> length l = 8%nat -> (i < 64)%nat -> bits_of l !! i = Some (Z.testbit (be_combine 0 l) (63 - Z.of_nat i)).
Proof. intros Hl H8 Hi. rewrite (be_bits l i Hl) by lia. rewrite H8. do 2 f_equal. Qed.

(** The first bit in the padded word. *)
Lemma first_bit_padded bit l : bytes l -> ((length l < 8)%nat \/ first_bit bit (bits_of (take 8 l)) <> None) ->
  first_bit bit (bits_of (padded 8 l)) = match first_bit bit (bits_of l) with Some i => Some i | None => if bit then None else Some (8 * length l)%nat end.
Proof.
  intros Hl Hend. unfold padded. destruct (decide (length l < 8)%nat) as [Hlt|Hge].
  - rewrite take_app_ge by lia. rewrite take_replicate, Nat.min_l by lia. rewrite bits_of_app, first_bit_app, length_bits_of. destruct (first_bit bit (bits_of l)); [done|].
    destruct bit.
    + by rewrite bits_of_zeros, (first_bit_replicate true).
    + destruct (8 - length l)%nat as [|z] eqn:E; [lia|]. assert (first_bit false (bits_of (replicate (S z) 0)) = Some O) as -> by done. rewrite fmap_Some_2 with (x := O) by done. by rewrite Nat.add_0_r.
  - destruct Hend as [|Hne]; [lia|]. rewrite take_app_le by lia. destruct (first_bit bit (bits_of (take 8 l))) as [i|] eqn:E; [|done].
    rewrite <- (take_drop 8 l) at 1. by rewrite bits_of_app, first_bit_app, E.
Qed.

(** The last step, on the padded word. *)
Lemma scan_padded w pos bit : bytes w -> length w = 8%nat -> (bit = true \/ first_bit bit (bits_of w) <> None) ->
  (if bit && (be_combine 0 w =? 0) then Ret (-1) else scan_word 65 (u64 (Z.lnot (Z.shiftr ULONG_MAX 1))) (be_combine 0 w) pos bit) =
  Ret (match first_bit bit (bits_of w) with Some i => pos + Z.of_nat i | None => -1 end).
Proof.
  intros Hw H8 Hbit. pose proof (be_combine_range w 0 0 Hw ltac:(cbn; lia)) as Hr. rewrite H8 in Hr.
  assert (forall i, (i < 64)%nat -> bits_of w !! i = Some (Z.testbit (be_combine 0 w) (63 - Z.of_nat i))) as Hbits by (intros i; by apply word_bits).
  destruct (first_bit bit (bits_of w)) as [i|] eqn:E.
  - assert (bit && (be_combine 0 w =? 0) = false) as ->.
    { apply andb_false_iff. destruct bit; [right|by left]. apply Z.eqb_neq. intros E0. pose proof (first_bit_lt _ _ _ E) as Hi. rewrite length_bits_of, H8 in Hi.
      apply first_bit_Some in E as [E _]. rewrite Hbits, E0, Z.bits_0 in E by lia. done. }
    change (u64 (Z.lnot (Z.shiftr ULONG_MAX 1))) with (2 ^ (63 - Z.of_nat 0)). apply (scan_word_spec 65 _ 0 pos bit (bits_of w)); [lia|by rewrite length_bits_of, H8|done|done|lia].
  - destruct Hbit as [->|]; [|done]. cbn [andb]. rewrite (proj2 (Z.eqb_eq _ 0)); [done|]. apply (bits_eq 64); [exact Hr|lia|]. intros i Hi. rewrite Z.bits_0.
    rewrite first_bit_None in E. apply (Forall_lookup_1 _ _ (Z.to_nat (63 - i)) (Z.testbit (be_combine 0 w) i) E). rewrite Hbits by lia. do 2 f_equal. lia.
Qed.

Lemma redisBitpos_spec addr m (s n : nat) bit : bytes m -> (s + n <= length m)%nat ->
  redisBitpos addr m (Z.of_nat s) (Z.of_nat n) bit =
  Ret (match first_bit bit (bits_of (sub s n m)) with Some i => Z.of_nat i | None => if bit then -1 else 8 * Z.of_nat n end).
Proof.
  intros Hm Hs. unfold redisBitpos. rewrite Nat2Z.id. fold (skip_byte bit) (skip_value bit).
  destruct (skip_unaligned_spec (S n) addr m s n 0 bit Hm) as (k & found & Hk & Hnone & -> & Hfound); [lia|lia|]. cbn [mbind res_bind].
  assert (exists j : nat, (j <= n - k)%nat /\ first_bit bit (bits_of (sub (s + k) j m)) = None /\
    (if negb found then skip_words (S n) m (Z.of_nat (s + k)) (Z.of_nat (n - k)) (0 + 8 * Z.of_nat k) (skip_value bit) else Ret (Z.of_nat (s + k), Z.of_nat (n - k), 0 + 8 * Z.of_nat k))
      = Ret (Z.of_nat (s + k + j), Z.of_nat (n - k - j), 8 * Z.of_nat (k + j)) /\
    ((n - k - j < 8)%nat \/ first_bit bit (bits_of (sub (s + k + j) (min 8 (n - k - j)) m)) <> None)) as (j & Hj & Hnone2 & -> & Hend).
  { destruct found; cbn [negb].
    - destruct (Hfound eq_refl) as [Hlt Hne]. exists O. split; [lia|]. split; [done|]. split; [same_result|]. right. rewrite Nat.add_0_r, Nat.sub_0_r.
      replace (min 8 (n - k)) with (1 + (min 8 (n - k) - 1))%nat by lia. rewrite sub_split, bits_of_app, first_bit_app. by destruct (first_bit bit (bits_of (sub (s + k) 1 m))).
    - destruct (skip_words_spec (S n) m (s + k) (n - k) (0 + 8 * Z.of_nat k) bit Hm) as (j & Hj & Hn2 & -> & Hend); [lia|lia|]. exists j. split; [done|]. split; [done|]. split; [same_result|].
      destruct (decide (n - k - j < 8)%nat); [by left|]. destruct Hend as [|Hend]; [lia|]. right. by rewrite Nat.min_l by lia. }
  cbn [mbind res_bind]. rewrite (load_word_spec 8 m _ _ 0 0 Hm) by (cbn; lia). cbn [mbind res_bind]. set (l := sub (s + k + j) (n - k - j) m) in *.
  assert (bytes l) as Hl by (by apply sub_bytes). assert (length l = n - k - j)%nat as Hll by (apply length_sub; lia).
  assert (first_bit bit (bits_of (sub s n m)) = Nat.add (8 * (k + j)) <$> first_bit bit (bits_of l)) as ->.
  { replace n with (k + (j + (n - k - j)))%nat at 1 by lia. rewrite !sub_split, !bits_of_app, !first_bit_app, Hnone, Hnone2, !length_bits_of, !length_sub by lia. fold l.
    destruct (first_bit bit (bits_of l)); [|done]. cbn. f_equal. lia. }
  pose proof (first_bit_padded bit l Hl) as Hpad. rewrite Hll in Hpad. specialize (Hpad ltac:(destruct Hend as [|Hend]; [by left|right]; by unfold l, sub; rewrite take_take)).
  rewrite scan_padded; [|by apply padded_bytes|apply length_padded|rewrite Hpad; by destruct bit; [left|right; destruct (first_bit false (bits_of l))]].
  rewrite Hpad. destruct (first_bit bit (bits_of l)) as [i|]; cbn [fmap option_fmap option_map]; [same_result|]. destruct bit; [done|same_result].
Qed.
