(* ===== verification/BitField.v ===== *)
(** * Integers at any offset of a string

    Reading an integer gives the number in binary notation of the bits at its
    offset, with a sign or without, and writing one changes these bits only.  The
    checks for overflow decide whether a sum fits, and give the number that wraps
    around or the limit. *)
From S2P Require Import Prelude Mem Bitops BitString.

Local Open Scope Z_scope.

(** ** Binary notation *)

Definition bits_num_from (v : Z) (l : list bool) : Z := foldl (fun v b => 2 * v + Z.b2z b) v l.
Definition bits_num (l : list bool) : Z := bits_num_from 0 l.

Fixpoint num_bits (n : nat) (v : Z) : list bool :=
  match n with O => [] | S n => Z.testbit v (Z.of_nat n) :: num_bits n v end.

Lemma length_num_bits n v : length (num_bits n v) = n.
Proof. induction n as [|n IH]; cbn; [done|]. by rewrite IH. Qed.

Lemma bits_num_from_eq v l : bits_num_from v l = v * 2 ^ Z.of_nat (length l) + bits_num l.
Proof.
  unfold bits_num. revert v. induction l as [|b l IH]; intros v; cbn [bits_num_from foldl length]; [cbn; lia|].
  fold (bits_num_from (2 * v + Z.b2z b) l) (bits_num_from (2 * 0 + Z.b2z b) l). rewrite IH, (IH (2 * 0 + _)), Nat2Z.inj_succ, Z.pow_succ_r by lia. lia.
Qed.

Lemma bits_num_cons b l : bits_num (b :: l) = Z.b2z b * 2 ^ Z.of_nat (length l) + bits_num l.
Proof. unfold bits_num at 1. cbn [bits_num_from foldl]. fold (bits_num_from (2 * 0 + Z.b2z b) l). by rewrite bits_num_from_eq. Qed.

Lemma bits_num_range l : 0 <= bits_num l < 2 ^ Z.of_nat (length l).
Proof.
  induction l as [|b l IH]; [done|]. rewrite bits_num_cons. cbn [length]. rewrite Nat2Z.inj_succ, Z.pow_succ_r by lia. destruct b; cbn [Z.b2z]; lia.
Qed.

Lemma bits_num_num_bits n v : bits_num (num_bits n v) = v mod 2 ^ Z.of_nat n.
Proof.
  induction n as [|n IH]; cbn [num_bits]; [by rewrite Z.mod_1_r|]. rewrite bits_num_cons, length_num_bits, IH, Nat2Z.inj_succ, Z.pow_succ_r by lia.
  rewrite (Z.mul_comm 2), Z.rem_mul_r, Z.testbit_spec' by lia. lia.
Qed.

Lemma num_bits_mod n k v : (n <= k)%nat -> num_bits n (v mod 2 ^ Z.of_nat k) = num_bits n v.
Proof.
  induction n as [|n IH]; intros Hk; cbn [num_bits]; [done|]. rewrite IH by lia. by rewrite Z.mod_pow2_bits_low by lia.
Qed.

(** ** One bit *)

Lemma bit_index (off : nat) : Z.shiftr (Z.of_nat off) 3 = Z.of_nat (off `div` 8) /\ Z.land (Z.of_nat off) 7 = Z.of_nat (off `mod` 8).
Proof.
  split; [rewrite Z.shiftr_div_pow2 by lia; by rewrite Nat2Z.inj_div|]. change 7 with (Z.ones 3). rewrite Z.land_ones by lia. by rewrite Nat2Z.inj_mod.
Qed.

Lemma bit_at p (off : nat) x : bytes p -> bits_of p !! off = Some x ->
  exists b, p !! (off `div` 8)%nat = Some b /\ is_byte b /\ x = Z.testbit b (7 - Z.of_nat (off `mod` 8)).
Proof.
  intros Hp Hx. rewrite lookup_bits_of in Hx. apply fmap_Some in Hx as (b & Hb & ->). exists b. split; [done|]. split; [|done]. by apply (Forall_lookup_1 _ _ _ _ Hp Hb).
Qed.

(** A bit of a byte is replaced. *)
Definition set_byte (b bit : Z) (x : bool) : Z := Z.lor (Z.land b (Z.lnot (Z.shiftl 1 bit))) (Z.shiftl (Z.b2z x) bit).

Lemma set_byte_bits b bit x i : 0 <= bit -> 0 <= i -> Z.testbit (set_byte b bit x) i = if i =? bit then x else Z.testbit b i.
Proof.
  intros Hb Hi. unfold set_byte. rewrite Z.lor_spec, Z.land_spec, Z.lnot_spec, !Z.shiftl_spec by lia. destruct (Z.eqb_spec i bit) as [->|Hne].
  - rewrite Z.sub_diag. cbn [Z.testbit negb]. rewrite andb_false_r. by destruct x.
  - assert (forall y, 0 <= y < 2 -> Z.testbit y (i - bit) = false) as H0.
    { intros y Hy. destruct (decide (i < bit)); [apply Z.testbit_neg_r; lia|]. apply (testbit_high y 1); lia. }
    rewrite (H0 1), (H0 (Z.b2z x)) by (try destruct x; cbn; lia). cbn. by rewrite andb_true_r, orb_false_r.
Qed.

Lemma set_byte_range b bit x : is_byte b -> 0 <= bit < 8 -> is_byte (set_byte b bit x).
Proof.
  intros Hb Hbit. apply (bits_range _ 8); [done|]. intros i Hi. rewrite set_byte_bits by lia. destruct (Z.eqb_spec i bit); [lia|]. by apply (testbit_high b 8).
Qed.

Lemma set_bit_at p (off : nat) b x : p !! (off `div` 8)%nat = Some b ->
  bits_of (<[(off `div` 8)%nat := set_byte b (7 - Z.of_nat (off `mod` 8)) x]> p) = <[off := x]> (bits_of p).
Proof.
  intros Hb. pose proof (lookup_lt_Some _ _ _ Hb) as Hlt. pose proof (Nat.mod_upper_bound off 8 ltac:(lia)) as Hm. apply list_eq. intros i. rewrite lookup_bits_of.
  pose proof (Nat.div_mod_eq off 8) as Eo. pose proof (Nat.div_mod_eq i 8) as Ei. pose proof (Nat.mod_upper_bound i 8 ltac:(lia)).
  destruct (decide (i = off)) as [->|Hne].
  - rewrite list_lookup_insert_eq by done. cbn [fmap option_fmap option_map]. rewrite set_byte_bits by lia. rewrite Z.eqb_refl. rewrite list_lookup_insert_eq; [done|]. rewrite length_bits_of. lia.
  - rewrite (list_lookup_insert_ne _ off) by done. rewrite lookup_bits_of. destruct (decide (i `div` 8 = off `div` 8)%nat) as [E|E].
    + rewrite E, list_lookup_insert_eq, Hb by done. cbn [fmap option_fmap option_map]. rewrite set_byte_bits by lia. destruct (Z.eqb_spec (7 - Z.of_nat (i `mod` 8)) (7 - Z.of_nat (off `mod` 8))); [lia|done].
    + by rewrite list_lookup_insert_ne.
Qed.

Lemma mask_bit b bit : 0 <= bit -> Z.land (Z.shiftr b bit) 1 = Z.b2z (Z.testbit b bit).
Proof. intros Hb. change 1 with (Z.ones 1). rewrite Z.land_ones by lia. by rewrite Z.testbit_spec', Z.shiftr_div_pow2 by lia. Qed.

Lemma land_pow2 v n : 0 <= n -> negb (Z.land v (Z.shiftl 1 n) =? 0) = Z.testbit v n.
Proof.
  intros Hn. rewrite Z.shiftl_1_l. destruct (Z.testbit v n) eqn:E.
  - apply negb_true_iff, Z.eqb_neq. intros E0. apply (f_equal (fun x => Z.testbit x n)) in E0. rewrite Z.land_spec, Z.pow2_bits_true, E, Z.bits_0 in E0 by lia. done.
  - apply negb_false_iff, Z.eqb_eq, Z.bits_inj'. intros j Hj. rewrite Z.land_spec, Z.bits_0, Z.pow2_bits_eqb by lia. destruct (Z.eqb_spec n j) as [<-|]; [by rewrite E|by rewrite andb_false_r].
Qed.

(** ** Reading and writing *)

Lemma get_bits_spec n p (off : nat) v k : bytes p -> (off + n <= length (bits_of p))%nat -> 0 <= v < 2 ^ Z.of_nat k -> (k + n <= 64)%nat ->
  get_bits n p (Z.of_nat off) v = Ret (bits_num_from v (sub off n (bits_of p))).
Proof.
  intros Hp. revert off v k. induction n as [|n IH]; intros off v k Ho Hv Hk; [done|]. cbn [get_bits]. destruct (bit_index off) as [-> ->].
  destruct (lookup_lt_is_Some_2 (bits_of p) off) as [x Hx]; [lia|]. destruct (bit_at p off x Hp Hx) as (b & Hb & _ & ->). pose proof (Nat.mod_upper_bound off 8 ltac:(lia)).
  rewrite (aget_in _ _ _ Hb). cbn [mbind res_bind]. rewrite mask_bit by lia. set (x := Z.testbit b _) in *.
  assert (2 ^ Z.of_nat (S k) <= 2 ^ 64) as Hp64 by (apply Z.pow_le_mono_r; lia). rewrite Nat2Z.inj_succ, Z.pow_succ_r in Hp64 by lia.
  assert (Z.lor (u64 (Z.shiftl v 1)) (Z.b2z x) = 2 * v + Z.b2z x) as ->.
  { rewrite uwrap_id by (rewrite Z.shiftl_mul_pow2 by lia; lia). rewrite lor_shiftl_add; [lia|lia|]. by destruct x. }
  replace (Z.of_nat off + 1) with (Z.of_nat (S off)) by lia. assert (sub off (S n) (bits_of p) = x :: sub (S off) n (bits_of p)) as -> by (unfold sub; by rewrite (drop_S _ _ _ Hx)).
  rewrite (IH (S off) _ (S k)); [done|lia|rewrite Nat2Z.inj_succ, Z.pow_succ_r by lia; destruct x; cbn [Z.b2z]; lia|lia].
Qed.

Lemma getUnsigned_spec p (off n : nat) : bytes p -> (off + n <= length (bits_of p))%nat -> (n <= 64)%nat ->
  getUnsignedBitfield p (Z.of_nat off) (Z.of_nat n) = Ret (bits_num (sub off n (bits_of p))).
Proof. intros Hp Ho Hn. unfold getUnsignedBitfield. rewrite Nat2Z.id. apply (get_bits_spec n p off 0 0); [done|done|done|lia]. Qed.

Lemma set_bits_spec n p (off : nat) v : bytes p -> (off + n <= length (bits_of p))%nat ->
  exists p', set_bits n p (Z.of_nat off) v = Ret p' /\ bytes p' /\ length p' = length p /\ bits_of p' = patch off (num_bits n v) (bits_of p).
Proof.
  revert p off. induction n as [|n IH]; intros p off Hp Ho; cbn [set_bits num_bits].
  { exists p. split_and!; [done..|]. unfold patch. cbn [length app]. rewrite Nat.add_0_r. by rewrite take_drop. }
  destruct (bit_index off) as [-> ->]. destruct (lookup_lt_is_Some_2 (bits_of p) off) as [x Hx]; [lia|]. destruct (bit_at p off x Hp Hx) as (b & Hb & Hbb & _).
  pose proof (Nat.mod_upper_bound off 8 ltac:(lia)). rewrite (aget_in _ _ _ Hb). cbn [mbind res_bind]. rewrite land_pow2 by lia.
  replace (if Z.testbit v (Z.of_nat n) then 1 else 0) with (Z.b2z (Z.testbit v (Z.of_nat n))) by done. set (y := Z.testbit v (Z.of_nat n)). fold (set_byte b (7 - Z.of_nat (off `mod` 8)) y).
  pose proof (set_byte_range b (7 - Z.of_nat (off `mod` 8)) y Hbb ltac:(lia)) as Hr. change 0xff with (Z.ones 8). rewrite Z.land_ones, Z.mod_small by (unfold is_byte in Hr; lia).
  rewrite aset_in by (by eapply lookup_lt_Some). cbn [mbind res_bind]. replace (Z.of_nat off + 1) with (Z.of_nat (S off)) by lia. set (p1 := <[_ := _]> p).
  assert (bits_of p1 = <[off := y]> (bits_of p)) as E1 by (by apply set_bit_at). destruct (IH p1 (S off)) as (p' & -> & Hp' & Hl & E); [by apply Forall_insert|rewrite E1, length_insert; lia|].
  exists p'. split; [done|]. split; [done|]. split; [by rewrite Hl; apply length_insert|]. rewrite E, E1. rewrite patch_cons; [done|]. rewrite length_num_bits. lia.
Qed.

Lemma setUnsigned_spec p (off n : nat) v : bytes p -> (off + n <= length (bits_of p))%nat ->
  exists p', setUnsignedBitfield p (Z.of_nat off) (Z.of_nat n) v = Ret p' /\ bytes p' /\ length p' = length p /\ bits_of p' = patch off (num_bits n v) (bits_of p).
Proof. intros Hp Ho. unfold setUnsignedBitfield. rewrite Nat2Z.id. by apply set_bits_spec. Qed.

Lemma setSigned_spec p (off n : nat) v : bytes p -> (off + n <= length (bits_of p))%nat -> (n <= 64)%nat ->
  exists p', setSignedBitfield p (Z.of_nat off) (Z.of_nat n) v = Ret p' /\ bytes p' /\ length p' = length p /\ bits_of p' = patch off (num_bits n v) (bits_of p).
Proof.
  intros Hp Ho Hn. unfold setSignedBitfield, uwrap. destruct (setUnsigned_spec p off n (v mod 2 ^ 64) Hp Ho) as (p' & -> & ? & ? & E). exists p'. split_and!; [done..|].
  rewrite E. f_equal. apply (num_bits_mod n 64 v Hn).
Qed.

(** ** Signs *)

Lemma swrap_cases n u : 0 < n -> 0 <= u < 2 ^ n -> swrap n u = if u <? 2 ^ (n - 1) then u else u - 2 ^ n.
Proof.
  intros Hn Hu. unfold swrap. assert (2 ^ n = 2 * 2 ^ (n - 1)) as E by (rewrite <- Z.pow_succ_r by lia; f_equal; lia). destruct (Z.ltb_spec u (2 ^ (n - 1))).
  - rewrite Z.mod_small by lia. lia.
  - replace (u + 2 ^ (n - 1)) with ((u - 2 ^ (n - 1)) + 1 * 2 ^ n) by lia. rewrite Z.mod_add, Z.mod_small by lia. lia.
Qed.

Lemma swrap_congr n x y : 0 < n -> x mod 2 ^ n = y mod 2 ^ n -> swrap n x = swrap n y.
Proof. intros Hn E. by rewrite <- (swrap_mod n x), <- (swrap_mod n y), E. Qed.

Lemma mod_pow2_mod x a b : 0 <= a <= b -> (x mod 2 ^ b) mod 2 ^ a = x mod 2 ^ a.
Proof. intros H. replace b with (a + (b - a)) by lia. rewrite Z.pow_add_r, Z.rem_mul_r by lia. rewrite Z.mul_comm, Z.mod_add, Z.mod_mod by lia. done. Qed.

Lemma high_mask n : 0 <= n <= 64 -> u64 (Z.shiftl ULONG_MAX n) = 2 ^ 64 - 2 ^ n.
Proof.
  intros Hn. pose proof (Z.pow_le_mono_r 2 n 64 ltac:(lia) ltac:(lia)). pose proof (Z.pow_pos_nonneg 2 n ltac:(lia) ltac:(lia)). rewrite Z.shiftl_mul_pow2 by lia. unfold uwrap, ULONG_MAX.
  replace ((2 ^ 64 - 1) * 2 ^ n) with ((2 ^ 64 - 2 ^ n) + (2 ^ n - 1) * 2 ^ 64) by lia. rewrite Z.mod_add, Z.mod_small by lia. done.
Qed.

Lemma low_mask n : 0 <= n < 64 -> u64 (Z.lnot (2 ^ 64 - 2 ^ n)) = Z.ones n.
Proof.
  intros Hn. pose proof (Z.pow_lt_mono_r 2 n 64 ltac:(lia) ltac:(lia) ltac:(lia)). pose proof (Z.pow_pos_nonneg 2 n ltac:(lia) ltac:(lia)). unfold Z.lnot, uwrap. rewrite Z.ones_equiv.
  replace (Z.pred (- (2 ^ 64 - 2 ^ n))) with (Z.pred (2 ^ n) + (-1) * 2 ^ 64) by lia. rewrite Z.mod_add, Z.mod_small by lia. done.
Qed.

Lemma lor_high c n : 0 <= n < 64 -> 0 <= c < 2 ^ 64 -> Z.lor c (2 ^ 64 - 2 ^ n) = c mod 2 ^ n + (2 ^ 64 - 2 ^ n).
Proof.
  intros Hn Hc. assert (2 ^ 64 - 2 ^ n = Z.shiftl (Z.ones (64 - n)) n) as E.
  { rewrite Z.shiftl_mul_pow2, Z.ones_equiv by lia. replace 64 with ((64 - n) + n) at 1 by lia. rewrite Z.pow_add_r by lia. lia. }
  assert (Z.lor c (2 ^ 64 - 2 ^ n) = Z.lor (2 ^ 64 - 2 ^ n) (c mod 2 ^ n)) as ->.
  { rewrite E. apply Z.bits_inj'. intros i Hi. rewrite !Z.lor_spec, Z.shiftl_spec by lia. destruct (decide (i < n)).
    - rewrite Z.mod_pow2_bits_low by lia. apply orb_comm.
    - rewrite Z.mod_pow2_bits_high, orb_false_r by lia. destruct (decide (i < 64)); [rewrite Z.ones_spec_low by lia; apply orb_true_r|].
      by rewrite (testbit_high c 64) by lia. }
  pose proof (Z.mod_pos_bound c (2 ^ n)). rewrite E, lor_shiftl_add by lia. rewrite Z.shiftl_mul_pow2 by lia. lia.
Qed.

Lemma testbit_top u n : 0 < n -> 0 <= u < 2 ^ n -> Z.testbit u (n - 1) = negb (u <? 2 ^ (n - 1)).
Proof.
  intros Hn Hu. assert (2 ^ n = 2 * 2 ^ (n - 1)) as E by (rewrite <- Z.pow_succ_r by lia; f_equal; lia). apply eq_true_iff_eq. rewrite negb_true_iff, Z.ltb_ge, Z.testbit_true by lia.
  pose proof (Z.pow_pos_nonneg 2 (n - 1) ltac:(lia) ltac:(lia)). split.
  - intros Hm. destruct (decide (u < 2 ^ (n - 1))); [|lia]. rewrite Z.div_small in Hm by lia. done.
  - intros Hge. rewrite <- (Z.div_unique u (2 ^ (n - 1)) 1 (u - 2 ^ (n - 1))) by lia. done.
Qed.

(** The bits above the sign are copies of it. *)
Lemma extend_sign c n : 0 < n < 64 -> 0 <= c < 2 ^ 64 ->
  s64 (if Z.testbit c (n - 1) then Z.lor c (2 ^ 64 - 2 ^ n) else Z.land c (Z.ones n)) = swrap n c.
Proof.
  intros Hn Hc. rewrite <- (swrap_mod n c) by lia. pose proof (Z.mod_pos_bound c (2 ^ n) ltac:(lia)) as Hm. pose proof (Z.pow_lt_mono_r 2 n 64 ltac:(lia) ltac:(lia) ltac:(lia)).
  assert (2 ^ n <= 2 ^ 63) by (apply Z.pow_le_mono_r; lia). assert (2 ^ n = 2 * 2 ^ (n - 1)) as E by (rewrite <- Z.pow_succ_r by lia; f_equal; lia).
  rewrite (swrap_cases n) by lia. rewrite <- (Z.mod_pow2_bits_low c n (n - 1)), testbit_top by lia. destruct (Z.ltb_spec (c mod 2 ^ n) (2 ^ (n - 1))) as [Hlt|Hge]; cbn [negb].
  - rewrite Z.land_ones by lia. apply swrap_id; lia.
  - rewrite lor_high by lia. rewrite swrap_cases by lia. rewrite (proj2 (Z.ltb_ge _ _)) by lia. lia.
Qed.

Lemma getSigned_spec p (off n : nat) : bytes p -> (off + n <= length (bits_of p))%nat -> (0 < n <= 64)%nat ->
  getSignedBitfield p (Z.of_nat off) (Z.of_nat n) = Ret (swrap (Z.of_nat n) (bits_num (sub off n (bits_of p)))).
Proof.
  intros Hp Ho Hn. unfold getSignedBitfield. rewrite getUnsigned_spec by (done || lia). cbn [mbind res_bind]. set (u := bits_num _). f_equal.
  assert (0 <= u < 2 ^ Z.of_nat n) as Hu by (unfold u; pose proof (bits_num_range (sub off n (bits_of p))) as R; by rewrite length_sub in R).
  pose proof (Z.pow_le_mono_r 2 (Z.of_nat n) 64 ltac:(lia) ltac:(lia)). destruct (Z.ltb_spec (Z.of_nat n) 64) as [Hlt|Hge]; cbn [andb].
  - assert (2 ^ Z.of_nat n <= 2 ^ 63) by (apply Z.pow_le_mono_r; lia). rewrite (swrap_id 64 u), uwrap_id by lia. rewrite land_pow2, high_mask by lia. rewrite <- (extend_sign u (Z.of_nat n)) by lia.
    destruct (Z.testbit u _); [done|]. rewrite Z.land_ones, Z.mod_small by lia. symmetry. apply swrap_id; lia.
  - by replace (Z.of_nat n) with 64 by lia.
Qed.

(** ** Overflow *)

(** What is stored for the number [z] in a field of the numbers from [lo] to [hi];
    [None] when the operation fails. *)
Definition stored (ow : owtype) (lo hi : Z) (wrap : Z -> Z) (z : Z) : option Z :=
  if (lo <=? z) && (z <=? hi) then Some z else
  match ow with
  | BFOVERFLOW_WRAP => Some (wrap z)
  | BFOVERFLOW_SAT => Some (if hi <? z then hi else lo)
  | BFOVERFLOW_FAIL => None
  end.

(** What a check has to return for it. *)
Definition check_ok (ow : owtype) (lo hi : Z) (wrap : Z -> Z) (z limit : Z) (r : Z * Z) : Prop :=
  if (lo <=? z) && (z <=? hi) then r = (0, limit) else r.1 <> 0 /\ (ow <> BFOVERFLOW_FAIL -> stored ow lo hi wrap z = Some r.2).

Lemma checkUnsigned_spec value incr bits ow limit : 1 <= bits <= 63 -> 0 <= value < 2 ^ 64 -> - 2 ^ 63 <= incr < 2 ^ 63 -> value < 2 ^ bits \/ incr = 0 ->
  exists r, checkUnsignedBitfieldOverflow value incr bits ow limit = Ret r /\ check_ok ow 0 (2 ^ bits - 1) (fun z => z mod 2 ^ bits) (value + incr) limit r.
Proof.
  intros Hb Hv Hi Hcase. unfold checkUnsignedBitfieldOverflow, check_ok, stored. rewrite (proj2 (Z.eqb_neq bits 64)) by lia. rewrite Z.shiftl_1_l. set (max := 2 ^ bits - 1).
  assert (2 ^ bits <= 2 ^ 63) by (apply Z.pow_le_mono_r; lia). pose proof (Z.pow_pos_nonneg 2 bits ltac:(lia) ltac:(lia)).
  assert ((_ ← assert (bits <? 64); Ret (1, Z.land (u64 (value + incr)) (u64 (Z.lnot (u64 (Z.shiftl ULONG_MAX bits)))))) = Ret (1, (value + incr) mod 2 ^ bits)) as Ewrap.
  { rewrite (proj2 (Z.ltb_lt bits 64)) by lia. cbn [assert mbind res_bind]. rewrite high_mask, low_mask, Z.land_ones by lia. do 2 f_equal. apply mod_pow2_mod. lia. }
  rewrite Ewrap. destruct (Z.ltb_spec max value) as [Hbig|Hsmall]; cbn [orb].
  - assert (incr = 0) as -> by lia. rewrite Z.add_0_r. rewrite (proj2 (Z.leb_gt value max)) by lia. rewrite andb_false_r. destruct ow; eexists; (split; [reflexivity|]); cbn [fst snd]; (split; [done|]); intros Hne; try done.
    by rewrite (proj2 (Z.ltb_lt max value)) by lia.
  - assert (s64 (u64 (max - value)) = max - value) as -> by (rewrite uwrap_id by lia; apply swrap_id; lia).
    assert (s64 (u64 (- value)) = - value) as -> by (unfold uwrap; rewrite swrap_mod by lia; apply swrap_id; lia).
    destruct (Z.ltb_spec 0 incr), (Z.ltb_spec (max - value) incr), (Z.ltb_spec incr 0), (Z.ltb_spec incr (- value)); cbn [andb]; try lia;
      destruct (Z.leb_spec 0 (value + incr)), (Z.leb_spec (value + incr) max); cbn [andb]; try lia; destruct ow; eexists; (split; [reflexivity|]); cbn [fst snd];
      first [done | split; [done|]; intros Hne; first [done | by destruct (Z.ltb_spec max (value + incr)); [|lia] | by destruct (Z.ltb_spec max (value + incr)); [lia|]]].
Qed.

(** The sum that wraps around. *)
Lemma signed_wrap value incr bits : 1 <= bits <= 64 ->
  s64 (if bits <? 64 then
         if negb (Z.land (u64 (u64 value + u64 incr)) (Z.shiftl 1 (bits - 1)) =? 0)
         then Z.lor (u64 (u64 value + u64 incr)) (u64 (Z.shiftl ULONG_MAX bits))
         else Z.land (u64 (u64 value + u64 incr)) (u64 (Z.lnot (u64 (Z.shiftl ULONG_MAX bits))))
       else u64 (u64 value + u64 incr)) = swrap bits (value + incr).
Proof.
  intros Hb. assert (u64 (u64 value + u64 incr) = u64 (value + incr)) as -> by (unfold uwrap; by rewrite <- Z.add_mod by lia). destruct (Z.ltb_spec bits 64).
  - rewrite land_pow2, high_mask, low_mask by lia. rewrite extend_sign by (try apply uwrap_range; lia). apply swrap_congr; [lia|]. apply mod_pow2_mod. lia.
  - replace bits with 64 by lia. apply swrap_mod. lia.
Qed.

Lemma checkSigned_spec value incr bits ow limit : 1 <= bits <= 64 -> - 2 ^ 63 <= value < 2 ^ 63 -> - 2 ^ 63 <= incr < 2 ^ 63 ->
  - 2 ^ (bits - 1) <= value < 2 ^ (bits - 1) \/ incr = 0 /\ (ow <> BFOVERFLOW_SAT \/ 2 ^ (bits - 1) - 2 ^ 63 <= value) ->
  check_ok ow (- 2 ^ (bits - 1)) (2 ^ (bits - 1) - 1) (swrap bits) (value + incr) limit (checkSignedBitfieldOverflow value incr bits ow limit).
Proof.
  intros Hb Hv Hi Hcase. unfold checkSignedBitfieldOverflow, check_ok, stored. rewrite signed_wrap by done.
  assert ((if bits =? 64 then 2 ^ 63 - 1 else Z.shiftl 1 (bits - 1) - 1) = 2 ^ (bits - 1) - 1) as -> by (destruct (Z.eqb_spec bits 64) as [->|]; [done|by rewrite Z.shiftl_1_l]).
  set (top := 2 ^ (bits - 1)) in *. assert (1 <= top <= 2 ^ 63) as Htop by (split; [pose proof (Z.pow_pos_nonneg 2 (bits - 1)); lia|apply Z.pow_le_mono_r; lia]).
  assert (bits = 64 /\ top = 2 ^ 63 \/ bits <> 64 /\ top <= 2 ^ 62) as Hwidth.
  { destruct (decide (bits = 64)) as [->|]; [by left|right]. split; [done|]. apply Z.pow_le_mono_r; lia. }
  replace (- (top - 1) - 1) with (- top) by lia. assert (s64 (u64 (top - 1 - value)) = if top - 1 - value <? 2 ^ 63 then top - 1 - value else top - 1 - value - 2 ^ 64) as ->.
  { unfold uwrap. rewrite swrap_mod by lia. destruct (Z.ltb_spec (top - 1 - value) (2 ^ 63)); [apply swrap_id; lia|]. rewrite swrap_cases by lia. by rewrite (proj2 (Z.ltb_ge _ _)) by lia. }
  assert (- 2 ^ 63 <= - top - value -> s64 (- top - value) = - top - value) as Hmin by (intros; apply swrap_id; lia). set (minincr := s64 (- top - value)) in *. clearbody minincr.
  destruct (Z.eqb_spec bits 64); destruct (Z.ltb_spec (top - 1 - value) (2 ^ 63)); cbn [negb andb orb];
    repeat match goal with |- context [?a <? ?b] => destruct (Z.ltb_spec a b); cbn [negb andb orb] | |- context [?a <=? ?b] => destruct (Z.leb_spec a b); cbn [negb andb orb] end;
    try lia; destruct ow; cbn [fst snd]; try lia; try done; (split; [done|]); intros Hne; first [done | f_equal; lia | destruct Hcase as [|[? [|]]]; (done || lia)].
Qed.

(** Below the numbers that [checkSigned_spec] covers the distance to the largest
    number of the field wraps around, and it is the wrong limit that is stored. *)
Lemma checkSigned_low value bits limit : 1 <= bits < 64 -> - 2 ^ 63 <= value -> value < 2 ^ (bits - 1) - 2 ^ 63 ->
  checkSignedBitfieldOverflow value 0 bits BFOVERFLOW_SAT limit = (1, 2 ^ (bits - 1) - 1).
Proof.
  intros Hb Hv Hsmall. unfold checkSignedBitfieldOverflow. rewrite (proj2 (Z.eqb_neq bits 64)) by lia. rewrite Z.shiftl_1_l. set (top := 2 ^ (bits - 1)) in *.
  assert (1 <= top <= 2 ^ 62) as Htop by (split; [pose proof (Z.pow_pos_nonneg 2 (bits - 1)); lia|apply Z.pow_le_mono_r; lia]).
  assert (s64 (u64 (top - 1 - value)) = top - 1 - value - 2 ^ 64) as ->.
  { unfold uwrap. rewrite swrap_mod by lia. rewrite swrap_cases by lia. by rewrite (proj2 (Z.ltb_ge _ _)) by lia. }
  rewrite (proj2 (Z.ltb_ge (top - 1) value)), (proj2 (Z.ltb_lt (top - 1 - value - 2 ^ 64) 0)) by lia. done.
Qed.
