(* ===== verification/BitopsCommand.v ===== *)
(** * The commands on bits ([redis-7.2.3/src/bitops.c])

    SETBIT, GETBIT, BITOP, BITCOUNT, BITPOS, BITFIELD and BITFIELD_RO, from arguments
    to replies.  A client has a keyspace and the replies sent to it so far; objects
    of other types are there only to be refused.  A string is stored as bytes or,
    when it is the notation of one, as an integer.  Keys do not expire;
    notifications, [server.dirty] and the counters of changes that serve them are
    not modelled.  [args] are the arguments after those that every call has. *)
From stdpp Require Import gmap strings.
From S2P Require Import Prelude Mem NumStr Bitops.

Local Open Scope Z_scope.

(** ** Clients *)

Inductive bval : Type :=
  | BStr (s : list Z)
  | BInt (n : Z)
  | BOther.

Inductive bit_error : Type :=
  | BErrWrongType
  | BErrSyntax
  | BErrOffset
  | BErrBit
  | BErrBitArgument
  | BErrNotInteger
  | BErrNotKeys
  | BErrType
  | BErrOverflow
  | BErrReadOnly.

Inductive breply : Type :=
  | BReplyLongLong (n : Z)
  | BReplyNull
  | BReplyArrayLen (n : Z)
  | BReplyError (e : bit_error).

Record bclient : Type := BClient { bdb : gmap (list Z) bval; breplies : list breply }.

Definition breply_to (c : bclient) (r : breply) : bclient := BClient (bdb c) (breplies c ++ [r]).
Definition store_string (c : bclient) (key s : list Z) : bclient := BClient (<[key := BStr s]> (bdb c)) (breplies c).
Definition delete_string (c : bclient) (key : list Z) : bclient := BClient (delete key (bdb c)) (breplies c).

(** ** Operations of a bit field *)

Inductive opcode : Type := BITFIELDOP_GET | BITFIELDOP_SET | BITFIELDOP_INCRBY.
#[export] Instance opcode_eq : EqDecision opcode.
Proof. solve_decision. Defined.

Record bitfieldOp : Type := BitfieldOp {
  op_offset : Z;
  op_i64 : Z;
  op_opcode : opcode;
  op_owtype : owtype;
  op_bits : Z;
  op_sign : bool;
}.

Inductive bitop : Type := BITOP_AND | BITOP_OR | BITOP_XOR | BITOP_NOT.
#[export] Instance bitop_eq : EqDecision bitop.
Proof. solve_decision. Defined.

Section Commands.
Context `{Heap}.
(** The limit of the configuration, whether the client is the master or the
    append-only file, and the address of a block. *)
Context (proto_max_bulk_len : Z) (mustObeyClient : bool) (address : list Z -> Z).

(** ** Arguments *)

(** [None]: the error is sent. *)
Definition getBitOffsetFromArgument (o : list Z) (hash : bool) (bits : Z) : option Z :=
  let usehash := bool_decide (head o = Some 35) && hash && (0 <? bits) in
  match string2ll (if usehash then drop 1 o else o) with
  | None => None
  | Some loffset =>
      let loffset := if usehash then s64 (loffset * bits) else loffset in
      if (loffset <? 0) || (negb mustObeyClient && (proto_max_bulk_len <=? Z.shiftr loffset 3)) then None else Some loffset
  end.

(** [sign] and [bits]. *)
Definition getBitfieldTypeFromArgument (o : list Z) : option (bool * Z) :=
  let parse sign :=
    match string2ll (c_string (drop 1 o)) with
    | None => None
    | Some llbits => if (llbits <? 1) || (sign && (64 <? llbits)) || (negb sign && (63 <? llbits)) then None else Some (sign, llbits)
    end in
  if bool_decide (head o = Some 105) then parse true else
  if bool_decide (head o = Some 117) then parse false else None.

(** ** Strings *)

(** The string of an object that is an integer. *)
Definition getDecodedObject (o : bval) : res (list Z) :=
  match o with
  | BStr s => Ret s
  | BInt n => '(buf, _) ← ll2string (realloc 32 []) 0 32 n; Ret (c_string buf)
  | BOther => Abort
  end.

Definition getObjectReadOnlyString (o : option bval) : res (option (list Z)) :=
  match o with
  | Some (BInt n) => '(llbuf, len) ← ll2string (realloc LONG_STR_SIZE []) 0 LONG_STR_SIZE n; s ← load_bytes len 0 llbuf; Ret (Some s)
  | Some (BStr s) => Ret (Some s)
  | Some BOther => Abort
  | None => Ret None
  end.

Definition sdsgrowzero (s : list Z) (len : Z) : list Z :=
  let curlen := Z.of_nat (length s) in
  if len <=? curlen then s else s ++ replicate (Z.to_nat (len - curlen)) 0.

(** [None]: the object is not a string.  Otherwise the string, which is that of the
    object from now on, and [dirty]. *)
Definition lookupStringForBitCommand (c : bclient) (key : list Z) (maxbit : Z) : res (option (list Z * bool)) :=
  let byte := Z.shiftr maxbit 3 in
  match bdb c !! key with
  | Some BOther => Ret None
  | None => Ret (Some (replicate (Z.to_nat (byte + 1)) 0, true))
  | Some o =>
      s ← getDecodedObject o;
      let s' := sdsgrowzero s (byte + 1) in
      Ret (Some (s', negb (bool_decide (length s = length s'))))
  end.

(** ** SETBIT and GETBIT *)

Definition setbitCommand (c : bclient) (key offset value : list Z) : res bclient :=
  match getBitOffsetFromArgument offset false 0 with
  | None => Ret (breply_to c (BReplyError BErrOffset))
  | Some bitoffset =>
      match string2ll value with
      | None => Ret (breply_to c (BReplyError BErrBit))
      | Some on =>
          if negb (Z.land on (Z.lnot 1) =? 0) then Ret (breply_to c (BReplyError BErrBit)) else
          o ← lookupStringForBitCommand c key bitoffset;
          match o with
          | None => Ret (breply_to c (BReplyError BErrWrongType))
          | Some (s, dirty) =>
              let byte := Z.shiftr bitoffset 3 in
              byteval ← aget s byte;
              let bit := 7 - Z.land bitoffset 0x7 in
              let bitval := Z.land byteval (Z.shiftl 1 bit) in
              let on_bit := if negb (bitval =? 0) then 1 else 0 in
              s ← (if dirty || negb (on_bit =? on) then
                     let byteval := Z.land byteval (Z.lnot (Z.shiftl 1 bit)) in
                     let byteval := Z.lor byteval (Z.shiftl (Z.land on 0x1) bit) in
                     aset s byte (u8 byteval)
                   else Ret s);
              Ret (breply_to (store_string c key s) (BReplyLongLong (if negb (bitval =? 0) then 1 else 0)))
          end
      end
  end.

Definition getbitCommand (c : bclient) (key offset : list Z) : res bclient :=
  match getBitOffsetFromArgument offset false 0 with
  | None => Ret (breply_to c (BReplyError BErrOffset))
  | Some bitoffset =>
      let byte := Z.shiftr bitoffset 3 in
      let bit := 7 - Z.land bitoffset 0x7 in
      match bdb c !! key with
      | None => Ret (breply_to c (BReplyLongLong 0))
      | Some BOther => Ret (breply_to c (BReplyError BErrWrongType))
      | Some o =>
          '(buf, len) ← match o with
                        | BInt n => ll2string (realloc 32 []) 0 32 n
                        | BStr s => Ret (s, Z.of_nat (length s))
                        | BOther => Abort
                        end;
          bitval ← (if byte <? len then b ← aget buf byte; Ret (Z.land b (Z.shiftl 1 bit)) else Ret 0);
          Ret (breply_to c (BReplyLongLong (if negb (bitval =? 0) then 1 else 0)))
      end
  end.

(** ** BITOP *)

Definition parse_bitop (opname : list Z) : option bitop :=
  let starts c := match opname with x :: _ => tolower x =? c | [] => false end in
  if starts 97 && is_option opname (lit "and") then Some BITOP_AND else
  if starts 111 && is_option opname (lit "or") then Some BITOP_OR else
  if starts 120 && is_option opname (lit "xor") then Some BITOP_XOR else
  if starts 110 && is_option opname (lit "not") then Some BITOP_NOT else None.

(** The strings [src], with an empty one for a missing key, [maxlen] and [minlen];
    [None] when an object is not a string. *)
Fixpoint bitop_sources (c : bclient) (first : bool) (keys : list (list Z)) (maxlen minlen : Z) : res (option (list (list Z) * Z * Z)) :=
  match keys with
  | [] => Ret (Some ([], maxlen, minlen))
  | key :: keys =>
      match bdb c !! key with
      | None =>
          r ← bitop_sources c false keys maxlen 0;
          Ret (match r with Some (src, maxlen, minlen) => Some ([] :: src, maxlen, minlen) | None => None end)
      | Some BOther => Ret None
      | Some o =>
          s ← getDecodedObject o;
          let len := Z.of_nat (length s) in
          let maxlen := if maxlen <? len then len else maxlen in
          let minlen := if first || (len <? minlen) then len else minlen in
          r ← bitop_sources c false keys maxlen minlen;
          Ret (match r with Some (src, maxlen, minlen) => Some (s :: src, maxlen, minlen) | None => None end)
      end
  end.

Definition bitop_apply (op : bitop) (x y : Z) : Z :=
  match op with BITOP_AND => Z.land x y | BITOP_OR => Z.lor x y | BITOP_XOR => Z.lxor x y | BITOP_NOT => x end.

(** [lres[k] op= lp[i][k]], at the byte [j] of both. *)
Definition word_op (op : bitop) (result src : list Z) (j k : Z) : res (list Z) :=
  x ← load 8 (j + 8 * k) result;
  y ← load 8 (j + 8 * k) src;
  store 8 (j + 8 * k) (bitop_apply op x y) result.

Definition word_not (result : list Z) (j k : Z) : res (list Z) :=
  x ← load 8 (j + 8 * k) result;
  store 8 (j + 8 * k) (u64 (Z.lnot x)) result.

Definition four (f : list Z -> Z -> res (list Z)) (result : list Z) : res (list Z) :=
  r ← f result 0; r ← f r 1; r ← f r 2; f r 3.

(** [for (i = 1; i < numkeys; i++)]. *)
Fixpoint fast_sources (op : bitop) (result : list Z) (others : list (list Z)) (j : Z) : res (list Z) :=
  match others with
  | [] => Ret result
  | src :: others =>
      result ← four (fun r k => word_op op r src j k) result;
      fast_sources op result others j
  end.

(** [while(minlen >= sizeof(unsigned long)*4)]; the results are the string and
    [j]. *)
Fixpoint fast_loop (fuel : nat) (op : bitop) (result : list Z) (others : list (list Z)) (j minlen : Z) : res (list Z * Z) :=
  match fuel with
  | O => Diverge
  | S fuel =>
      if 32 <=? minlen then
        result ← match op with
                 | BITOP_NOT => four (fun r k => word_not r j k) result
                 | _ => fast_sources op result others j
                 end;
        fast_loop fuel op result others (j + 32) (minlen - 32)
      else Ret (result, j)
  end.

(** The loop over the other strings, which stops when nothing can change. *)
Fixpoint bitop_byte (op : bitop) (others : list (list Z)) (j output : Z) : res Z :=
  match others with
  | [] => Ret output
  | src :: others =>
      byte ← (if Z.of_nat (length src) <=? j then Ret 0 else aget src j);
      let output := bitop_apply op output byte in
      let skip := match op with BITOP_AND => output =? 0 | BITOP_OR => output =? 0xff | _ => false end in
      if skip then Ret output else bitop_byte op others j output
  end.

(** [for (; j < maxlen; j++)], with [n] turns left. *)
Fixpoint bitop_loop (n : nat) (op : bitop) (src : list Z) (others : list (list Z)) (result : list Z) (j : Z) : res (list Z) :=
  match n with
  | O => Ret result
  | S n =>
      output ← (if Z.of_nat (length src) <=? j then Ret 0 else aget src j);
      let output := match op with BITOP_NOT => u8 (Z.lnot output) | _ => output end in
      output ← bitop_byte op others j output;
      result ← aset result j output;
      bitop_loop n op src others result (j + 1)
  end.

(** The string of length [maxlen]. *)
Definition bitop_compute (op : bitop) (src : list Z) (others : list (list Z)) (maxlen minlen : Z) : res (list Z) :=
  let result := replicate (Z.to_nat maxlen) 0 in
  '(result, j) ← (if (32 <=? minlen) && (Z.of_nat (S (length others)) <=? 16) then
                    first ← load_bytes minlen 0 src;
                    result ← store_bytes 0 first result;
                    fast_loop (S (Z.to_nat minlen)) op result others 0 minlen
                  else Ret (result, 0));
  bitop_loop (Z.to_nat (maxlen - j)) op src others result j.

Definition bitopCommand (c : bclient) (opname targetkey : list Z) (keys : list (list Z)) : res bclient :=
  match parse_bitop opname with
  | None => Ret (breply_to c (BReplyError BErrSyntax))
  | Some op =>
      if bool_decide (op = BITOP_NOT) && negb (Z.of_nat (length keys) =? 1) then Ret (breply_to c (BReplyError BErrNotKeys)) else
      r ← bitop_sources c true keys 0 0;
      match r with
      | None => Ret (breply_to c (BReplyError BErrWrongType))
      | Some ([], _, _) => Abort
      | Some (src :: others, maxlen, minlen) =>
          c ← (if negb (maxlen =? 0) then
                 s ← bitop_compute op src others maxlen minlen;
                 Ret (store_string c targetkey s)
               else Ret (delete_string c targetkey));
          Ret (breply_to c (BReplyLongLong maxlen))
      end
  end.

(** ** BITCOUNT and BITPOS *)

(** The unit of a range: bits or bytes. *)
Definition parse_unit (o : list Z) : option bool :=
  if is_option o (lit "bit") then Some true else if is_option o (lit "byte") then Some false else None.

(** Negative indexes are converted and the range is limited. *)
Definition convert_range (totlen start stop : Z) : Z * Z :=
  let start := if start <? 0 then totlen + start else start in
  let stop := if stop <? 0 then totlen + stop else stop in
  let start := if start <? 0 then 0 else start in
  let stop := if stop <? 0 then 0 else stop in
  let stop := if totlen <=? stop then totlen - 1 else stop in
  (start, stop).

(** The bytes of the range, and the masks of the bits of the first and of the last
    byte that are not in it. *)
Definition byte_range (isbit : bool) (start stop : Z) : Z * Z * Z * Z :=
  if isbit && (start <=? stop) then
    (Z.shiftr start 3, Z.shiftr stop 3,
     Z.land (Z.lnot (Z.shiftl 1 (8 - Z.land start 7) - 1)) 0xFF, u8 (Z.shiftl 1 (7 - Z.land stop 7) - 1))
  else (start, stop, 0, 0).

(** The range of BITCOUNT; [inl] is the reply when there is none. *)
Definition bitcount_range (strlen : Z) (args : list (list Z)) : res (breply + Z * Z * Z * Z) :=
  let parse first last isbit :=
    _ ← assert (strlen <=? Z.shiftr LLONG_MAX 3);
    match string2ll first with
    | None => Ret (inl (BReplyError BErrNotInteger))
    | Some start =>
        match string2ll last with
        | None => Ret (inl (BReplyError BErrNotInteger))
        | Some stop =>
            if (start <? 0) && (stop <? 0) && (stop <? start) then Ret (inl (BReplyLongLong 0)) else
            match isbit with
            | None => Ret (inl (BReplyError BErrSyntax))
            | Some isbit =>
                let totlen := if isbit : bool then Z.shiftl strlen 3 else strlen in
                let '(start, stop) := convert_range totlen start stop in
                Ret (inr (byte_range isbit start stop))
            end
        end
    end in
  match args with
  | [] => Ret (inr (0, strlen - 1, 0, 0))
  | [first; last] => parse first last (Some false)
  | [first; last; o] => parse first last (parse_unit o)
  | _ => Ret (inl (BReplyError BErrSyntax))
  end.

(** The count of the bits of a range. *)
Definition count_in (p : list Z) (start stop first_byte_neg_mask last_byte_neg_mask : Z) : res Z :=
  if stop <? start then Ret 0 else
  let bytes := stop - start + 1 in
  count ← redisPopcount (address p) p start bytes;
  if negb (first_byte_neg_mask =? 0) || negb (last_byte_neg_mask =? 0) then
    first ← (if negb (first_byte_neg_mask =? 0) then b ← aget p start; Ret (Z.land b first_byte_neg_mask) else Ret 0);
    last ← (if negb (last_byte_neg_mask =? 0) then b ← aget p stop; Ret (Z.land b last_byte_neg_mask) else Ret 0);
    out ← redisPopcount (address [first; last]) [first; last] 0 2;
    Ret (count - out)
  else Ret count.

Definition bitcountCommand (c : bclient) (key : list Z) (args : list (list Z)) : res bclient :=
  match bdb c !! key with
  | None => Ret (breply_to c (BReplyLongLong 0))
  | Some BOther => Ret (breply_to c (BReplyError BErrWrongType))
  | Some o =>
      p ← getObjectReadOnlyString (Some o);
      p ← of_option p;
      r ← bitcount_range (Z.of_nat (length p)) args;
      match r with
      | inl r => Ret (breply_to c r)
      | inr (start, stop, first_byte_neg_mask, last_byte_neg_mask) =>
          count ← count_in p start stop first_byte_neg_mask last_byte_neg_mask;
          Ret (breply_to c (BReplyLongLong count))
      end
  end.

(** The range of BITPOS, and whether its end is given. *)
Definition bitpos_range (strlen : Z) (args : list (list Z)) : res (bit_error + Z * Z * Z * Z * bool) :=
  let parse first last isbit :=
    _ ← assert (strlen <=? Z.shiftr LLONG_MAX 3);
    match string2ll first with
    | None => Ret (inl BErrNotInteger)
    | Some start =>
        match isbit with
        | None => Ret (inl BErrSyntax)
        | Some isbit =>
            let finish stop end_given :=
              let totlen := if isbit : bool then Z.shiftl strlen 3 else strlen in
              let '(start, stop) := convert_range totlen start stop in
              Ret (inr (byte_range isbit start stop, end_given)) in
            match last with
            | None => finish (if isbit : bool then Z.shiftl strlen 3 + 7 else strlen - 1) false
            | Some last =>
                match string2ll last with
                | None => Ret (inl BErrNotInteger)
                | Some stop => finish stop true
                end
            end
        end
    end in
  match args with
  | [] => Ret (inr (0, strlen - 1, 0, 0, false))
  | [first] => parse first None (Some false)
  | [first; last] => parse first (Some last) (Some false)
  | [first; last; o] => parse first (Some last) (parse_unit o)
  | _ => Ret (inl BErrSyntax)
  end.

(** A byte without the bits of a mask: they are not found. *)
Definition mask_out (bit : bool) (b mask : Z) : Z := if bit then Z.land b (Z.lnot mask) else Z.lor b mask.

(** The search in a range that is not empty: [start], [bytes] and [pos] at the
    label [result]. *)
Definition bitpos_search (p : list Z) (bit : bool) (start stop first_byte_neg_mask last_byte_neg_mask : Z) : res (Z * Z * Z) :=
  let last_byte start bytes :=
    b ← aget p stop;
    let tmpchar := mask_out bit b last_byte_neg_mask in
    pos ← redisBitpos (address [tmpchar]) [tmpchar] 0 1 bit;
    Ret (start, bytes, pos) in
  let middle start bytes :=
    let curbytes := bytes - (if negb (last_byte_neg_mask =? 0) then 1 else 0) in
    if 0 <? curbytes then
      pos ← redisBitpos (address p) p start curbytes bit;
      if (bytes =? curbytes) || (negb (pos =? -1) && negb (pos =? Z.shiftl curbytes 3)) then Ret (start, bytes, pos)
      else last_byte (start + curbytes) (bytes - curbytes)
    else last_byte start bytes in
  let bytes := stop - start + 1 in
  if negb (first_byte_neg_mask =? 0) then
    b ← aget p start;
    let tmpchar := mask_out bit b first_byte_neg_mask in
    let tmpchar := if negb (last_byte_neg_mask =? 0) && (bytes =? 1) then mask_out bit tmpchar last_byte_neg_mask else tmpchar in
    pos ← redisBitpos (address [tmpchar]) [tmpchar] 0 1 bit;
    if (bytes =? 1) || (negb (pos =? -1) && negb (pos =? 8)) then Ret (start, bytes, pos)
    else middle (start + 1) (bytes - 1)
  else middle start bytes.

(** The position that is sent, for a range that may be empty. *)
Definition bitpos_in (p : list Z) (bit : bool) (start stop first_byte_neg_mask last_byte_neg_mask : Z) (end_given : bool) : res Z :=
  if stop <? start then Ret (-1) else
  '(start, bytes, pos) ← bitpos_search p bit start stop first_byte_neg_mask last_byte_neg_mask;
  if end_given && negb bit && (pos =? Z.shiftl bytes 3) then Ret (-1) else
  Ret (if negb (pos =? -1) then pos + Z.shiftl start 3 else pos).

Definition bitposCommand (c : bclient) (key bitarg : list Z) (args : list (list Z)) : res bclient :=
  match string2ll bitarg with
  | None => Ret (breply_to c (BReplyError BErrNotInteger))
  | Some bit =>
      if negb (bit =? 0) && negb (bit =? 1) then Ret (breply_to c (BReplyError BErrBitArgument)) else
      match bdb c !! key with
      | None => Ret (breply_to c (BReplyLongLong (if negb (bit =? 0) then -1 else 0)))
      | Some BOther => Ret (breply_to c (BReplyError BErrWrongType))
      | Some o =>
          p ← getObjectReadOnlyString (Some o);
          p ← of_option p;
          r ← bitpos_range (Z.of_nat (length p)) args;
          match r with
          | inl e => Ret (breply_to c (BReplyError e))
          | inr (start, stop, first_byte_neg_mask, last_byte_neg_mask, end_given) =>
              pos ← bitpos_in p (negb (bit =? 0)) start stop first_byte_neg_mask last_byte_neg_mask end_given;
              Ret (breply_to c (BReplyLongLong pos))
          end
      end
  end.

(** ** BITFIELD *)

Definition parse_owtype (o : list Z) : option owtype :=
  if is_option o (lit "wrap") then Some BFOVERFLOW_WRAP else
  if is_option o (lit "sat") then Some BFOVERFLOW_SAT else
  if is_option o (lit "fail") then Some BFOVERFLOW_FAIL else None.

(** The type, the offset and, but for GET, the value of an operation. *)
Definition parse_op (op : opcode) (ow : owtype) (ty off : list Z) (val : option (list Z)) : bit_error + bitfieldOp :=
  match getBitfieldTypeFromArgument ty with
  | None => inl BErrType
  | Some (sign, bits) =>
      match getBitOffsetFromArgument off true bits with
      | None => inl BErrOffset
      | Some bitoffset =>
          match val with
          | None => inr (BitfieldOp bitoffset 0 op ow bits sign)
          | Some val =>
              match string2ll val with
              | None => inl BErrNotInteger
              | Some i64 => inr (BitfieldOp bitoffset i64 op ow bits sign)
              end
          end
      end
  end.

(** The loop over the arguments. *)
Fixpoint parse_ops (args : list (list Z)) (ow : owtype) : bit_error + list bitfieldOp :=
  match args with
  | [] => inr []
  | subcmd :: rest =>
      let then_rest op rest' :=
        match op with
        | inl e => inl e
        | inr op => match parse_ops rest' ow with inl e => inl e | inr ops => inr (op :: ops) end
        end in
      let remargs := Z.of_nat (length rest) in
      if is_option subcmd (lit "get") && (2 <=? remargs) then
        match rest with ty :: off :: rest' => then_rest (parse_op BITFIELDOP_GET ow ty off None) rest' | _ => inl BErrSyntax end
      else if is_option subcmd (lit "set") && (3 <=? remargs) then
        match rest with ty :: off :: val :: rest' => then_rest (parse_op BITFIELDOP_SET ow ty off (Some val)) rest' | _ => inl BErrSyntax end
      else if is_option subcmd (lit "incrby") && (3 <=? remargs) then
        match rest with ty :: off :: val :: rest' => then_rest (parse_op BITFIELDOP_INCRBY ow ty off (Some val)) rest' | _ => inl BErrSyntax end
      else if is_option subcmd (lit "overflow") && (1 <=? remargs) then
        match rest with
        | name :: rest' => match parse_owtype name with Some ow => parse_ops rest' ow | None => inl BErrOverflow end
        | [] => inl BErrSyntax
        end
      else inl BErrSyntax
  end.

Definition is_write (op : bitfieldOp) : bool := negb (bool_decide (op_opcode op = BITFIELDOP_GET)).

(** [highest_write_offset]. *)
Definition highest_write_offset (ops : list bitfieldOp) : Z :=
  foldl (fun high op =>
    let last := u64 (op_offset op + op_bits op - 1) in
    if is_write op && (high <? last) then last else high) 0 ops.

(** SET and INCRBY on the string of the object; the reply. *)
Definition write_signed (s : list Z) (op : bitfieldOp) : res (list Z * breply) :=
  oldval ← getSignedBitfield s (op_offset op) (op_bits op);
  let wrapped := s64 (uninit 0) in
  let '(overflow, newval, retval) :=
    match op_opcode op with
    | BITFIELDOP_INCRBY =>
        let '(overflow, wrapped) := checkSignedBitfieldOverflow oldval (op_i64 op) (op_bits op) (op_owtype op) wrapped in
        let newval := if negb (overflow =? 0) then wrapped else oldval + op_i64 op in
        (overflow, newval, newval)
    | _ =>
        let newval := op_i64 op in
        let '(overflow, wrapped) := checkSignedBitfieldOverflow newval 0 (op_bits op) (op_owtype op) wrapped in
        (overflow, if negb (overflow =? 0) then wrapped else newval, oldval)
    end in
  if negb (negb (overflow =? 0) && bool_decide (op_owtype op = BFOVERFLOW_FAIL)) then
    s ← setSignedBitfield s (op_offset op) (op_bits op) newval;
    Ret (s, BReplyLongLong retval)
  else Ret (s, BReplyNull).

Definition write_unsigned (s : list Z) (op : bitfieldOp) : res (list Z * breply) :=
  oldval ← getUnsignedBitfield s (op_offset op) (op_bits op);
  '(overflow, newval, retval) ←
    match op_opcode op with
    | BITFIELDOP_INCRBY =>
        let newval := u64 (oldval + op_i64 op) in
        '(overflow, wrapped) ← checkUnsignedBitfieldOverflow oldval (op_i64 op) (op_bits op) (op_owtype op) 0;
        let newval := if negb (overflow =? 0) then wrapped else newval in
        Ret (overflow, newval, newval)
    | _ =>
        let newval := u64 (op_i64 op) in
        '(overflow, wrapped) ← checkUnsignedBitfieldOverflow newval 0 (op_bits op) (op_owtype op) 0;
        Ret (overflow, if negb (overflow =? 0) then wrapped else newval, oldval)
    end;
  if negb (negb (overflow =? 0) && bool_decide (op_owtype op = BFOVERFLOW_FAIL)) then
    s ← setUnsignedBitfield s (op_offset op) (op_bits op) newval;
    Ret (s, BReplyLongLong (s64 retval))
  else Ret (s, BReplyNull).

(** [for (i = 0; i < 9; i++)], with [n] turns left. *)
Fixpoint copy_bytes (n : nat) (src : option (list Z)) (byte i : Z) (buf : list Z) : res (list Z) :=
  match n, src with
  | O, _ | _, None => Ret buf
  | S n, Some s =>
      if Z.of_nat (length s) <=? i + byte then Ret buf else
      b ← aget s (i + byte);
      buf ← aset buf i b;
      copy_bytes n src byte (i + 1) buf
  end.

(** GET on a copy of the bytes, followed by zeros. *)
Definition read_field (o : option bval) (op : bitfieldOp) : res breply :=
  src ← getObjectReadOnlyString o;
  let byte := Z.shiftr (op_offset op) 3 in
  buf ← copy_bytes 9 src byte 0 (replicate 9 0);
  let offset := op_offset op - byte * 8 in
  val ← (if op_sign op then getSignedBitfield buf offset (op_bits op)
         else v ← getUnsignedBitfield buf offset (op_bits op); Ret (s64 v));
  Ret (BReplyLongLong val).

(** The operations in turn; SET and INCRBY are only executed on strings that are
    not integers. *)
Fixpoint run_ops (o : option bval) (ops : list bitfieldOp) : res (option bval * list breply) :=
  match ops with
  | [] => Ret (o, [])
  | op :: ops =>
      '(o, r) ← (if is_write op then
                   match o with
                   | Some (BStr s) => '(s, r) ← (if op_sign op then write_signed s op else write_unsigned s op); Ret (Some (BStr s), r)
                   | _ => Abort
                   end
                 else r ← read_field o op; Ret (o, r));
      '(o, rs) ← run_ops o ops;
      Ret (o, r :: rs)
  end.

Definition bitfieldGeneric (c : bclient) (key : list Z) (args : list (list Z)) (flag_readonly : bool) : res bclient :=
  match parse_ops args BFOVERFLOW_WRAP with
  | inl e => Ret (breply_to c (BReplyError e))
  | inr ops =>
      let finish c o :=
        '(o, rs) ← run_ops o ops;
        let c := BClient (bdb c) (breplies c ++ BReplyArrayLen (Z.of_nat (length ops)) :: rs) in
        Ret (match o with Some (BStr s) => store_string c key s | _ => c end) in
      if negb (existsb is_write ops) then
        match bdb c !! key with
        | Some BOther => Ret (breply_to c (BReplyError BErrWrongType))
        | o => finish c o
        end
      else if flag_readonly then Ret (breply_to c (BReplyError BErrReadOnly))
      else
        o ← lookupStringForBitCommand c key (highest_write_offset ops);
        match o with
        | None => Ret (breply_to c (BReplyError BErrWrongType))
        | Some (s, _) => finish c (Some (BStr s))
        end
  end.

Definition bitfieldCommand (c : bclient) (key : list Z) (args : list (list Z)) : res bclient := bitfieldGeneric c key args false.
Definition bitfieldroCommand (c : bclient) (key : list Z) (args : list (list Z)) : res bclient := bitfieldGeneric c key args true.
End Commands.
