(* ===== verification/BitopsSpec.v ===== *)
(** * What the commands on bits mean

    A keyspace of strings of bits, and for every command of [BitopsCommand] its
    effect on them and its replies. *)
From stdpp Require Import gmap strings.
From S2P Require Import Prelude Mem NumStr Bitops BitString BitSearch BitField BitopsCommand.

Local Open Scope Z_scope.

(** [None]: an object that is not a string. *)
Abbreviation bkeyspace := (gmap (list Z) (option (list bool))).

(** The arguments as they are sent. *)
Inductive bit_command : Type :=
  | SETBIT (key offset value : list Z)
  | GETBIT (key offset : list Z)
  | BITOP (opname targetkey : list Z) (keys : list (list Z))
  | BITCOUNT (key : list Z) (args : list (list Z))
  | BITPOS (key bit : list Z) (args : list (list Z))
  | BITFIELD (key : list Z) (args : list (list Z))
  | BITFIELD_RO (key : list Z) (args : list (list Z)).

(** ** Bits *)

(** A string is followed by zeros. *)
Definition bit_or_zero (l : list bool) (i : nat) : bool := default false (l !! i).
Definition grow (n : nat) (l : list bool) : list bool := l ++ replicate (n - length l) false.
(** Up to the byte of a bit. *)
Definition grow_to (maxbit : Z) (l : list bool) : list bool := grow (Z.to_nat (8 * (maxbit / 8 + 1))) l.

(** The bits of a range, given in bits or in bytes: the first one and their
    number.  Negative indexes count from the end. *)
Definition bit_range (l : list bool) (isbit : bool) (start stop : Z) : nat * nat :=
  let unit := if isbit then 1 else 8 in
  let total := Z.of_nat (length l) / unit in
  let start := Z.max 0 (if start <? 0 then total + start else start) in
  let stop := Z.min (total - 1) (Z.max 0 (if stop <? 0 then total + stop else stop)) in
  (Z.to_nat (unit * start), Z.to_nat (unit * (stop + 1 - start))).

(** *** BITOP *)

Definition op_bool (op : bitop) (x y : bool) : bool :=
  match op with BITOP_AND => x && y | BITOP_OR => x || y | BITOP_XOR => xorb x y | BITOP_NOT => x end.

Definition combine_bits (op : bitop) (first : list bool) (others : list (list bool)) (i : nat) : bool :=
  let x := bit_or_zero first i in
  foldl (fun x l => op_bool op x (bit_or_zero l i)) (match op with BITOP_NOT => negb x | _ => x end) others.

Definition max_length (ls : list (list bool)) : nat := foldr (fun l n => Nat.max (length l) n) O ls.

Definition spec_bitop (op : bitop) (first : list bool) (others : list (list bool)) : list bool :=
  map (combine_bits op first others) (seq 0 (max_length (first :: others))).

(** *** BITPOS *)

Definition spec_bitpos (l : list bool) (bit : bool) (range : nat * nat) (end_given : bool) : Z :=
  let '(lo, n) := range in
  match n with
  | O => -1
  | _ => match first_bit bit (sub lo n l) with
         | Some i => Z.of_nat (lo + i)
         | None => if bit || end_given then -1 else Z.of_nat (lo + n)
         end
  end.

(** *** BITFIELD *)

(** The number of a field. *)
Definition field_num (op : bitfieldOp) (l : list bool) : Z :=
  let n := bits_num (sub (Z.to_nat (op_offset op)) (Z.to_nat (op_bits op)) l) in
  if op_sign op then swrap (op_bits op) n else n.

(** What a field can hold, and the number that wraps around. *)
Definition field_min (op : bitfieldOp) : Z := if op_sign op then - 2 ^ (op_bits op - 1) else 0.
Definition field_max (op : bitfieldOp) : Z := if op_sign op then 2 ^ (op_bits op - 1) - 1 else 2 ^ op_bits op - 1.
Definition field_wrap (op : bitfieldOp) (z : Z) : Z := if op_sign op then swrap (op_bits op) z else z mod 2 ^ op_bits op.

(** A saturating SET of a number so small that the distance from it to the largest
    number of the field does not fit 64 bits: the program takes it for one that is
    too large. *)
Definition mistaken (op : bitfieldOp) : bool :=
  op_sign op && bool_decide (op_owtype op = BFOVERFLOW_SAT) && (op_bits op <? 64) && (op_i64 op <? 2 ^ (op_bits op - 1) - 2 ^ 63).

(** The number that SET is to store. *)
Definition set_number (op : bitfieldOp) : Z :=
  if mistaken op then field_max op else if op_sign op then op_i64 op else op_i64 op mod 2 ^ 64.

Definition spec_op (l : list bool) (op : bitfieldOp) : list bool * breply :=
  let old := field_num op l in
  let write z reply :=
    match stored (op_owtype op) (field_min op) (field_max op) (field_wrap op) z with
    | Some new => (patch (Z.to_nat (op_offset op)) (num_bits (Z.to_nat (op_bits op)) new) l, BReplyLongLong (reply new))
    | None => (l, BReplyNull)
    end in
  match op_opcode op with
  | BITFIELDOP_GET => (l, BReplyLongLong (field_num op (grow (Z.to_nat (op_offset op + op_bits op)) l)))
  | BITFIELDOP_SET => write (set_number op) (fun _ => old)
  | BITFIELDOP_INCRBY => write (old + op_i64 op) (fun new => new)
  end.

Fixpoint spec_ops (l : list bool) (ops : list bitfieldOp) : list bool * list breply :=
  match ops with
  | [] => (l, [])
  | op :: ops => let '(l, r) := spec_op l op in let '(l, rs) := spec_ops l ops in (l, r :: rs)
  end.

(** ** Commands *)

Section Spec.
Context (proto_max_bulk_len : Z) (mustObeyClient : bool).
Local Abbreviation parse_offset := (getBitOffsetFromArgument proto_max_bulk_len mustObeyClient).

(** A command on the string of a key, missing keys being empty. *)
Definition on_string (a : bkeyspace) (key : list Z) (f : list bool -> bkeyspace * list breply) : bkeyspace * list breply :=
  match a !! key with
  | Some None => (a, [BReplyError BErrWrongType])
  | Some (Some l) => f l
  | None => f []
  end.

Definition spec_setbit (a : bkeyspace) (key offset value : list Z) : bkeyspace * list breply :=
  match parse_offset offset false 0 with
  | None => (a, [BReplyError BErrOffset])
  | Some off =>
      match string2ll value with
      | Some on =>
          if bool_decide (on = 0 \/ on = 1) then
            on_string a key (fun l =>
              let l := grow_to off l in
              (<[key := Some (<[Z.to_nat off := bool_decide (on = 1)]> l)]> a, [BReplyLongLong (Z.b2z (bit_or_zero l (Z.to_nat off)))]))
          else (a, [BReplyError BErrBit])
      | None => (a, [BReplyError BErrBit])
      end
  end.

Definition spec_getbit (a : bkeyspace) (key offset : list Z) : bkeyspace * list breply :=
  match parse_offset offset false 0 with
  | None => (a, [BReplyError BErrOffset])
  | Some off => on_string a key (fun l => (a, [BReplyLongLong (Z.b2z (bit_or_zero l (Z.to_nat off)))]))
  end.

(** The strings of keys, or [None] when one is not a string. *)
Fixpoint spec_strings (a : bkeyspace) (keys : list (list Z)) : option (list (list bool)) :=
  match keys with
  | [] => Some []
  | key :: keys =>
      match a !! key with
      | Some None => None
      | Some (Some l) => cons l <$> spec_strings a keys
      | None => cons [] <$> spec_strings a keys
      end
  end.

Definition spec_bitop_command (a : bkeyspace) (opname targetkey : list Z) (keys : list (list Z)) : bkeyspace * list breply :=
  match parse_bitop opname with
  | None => (a, [BReplyError BErrSyntax])
  | Some op =>
      if bool_decide (op = BITOP_NOT) && negb (bool_decide (length keys = 1%nat)) then (a, [BReplyError BErrNotKeys]) else
      match spec_strings a keys with
      | Some (first :: others) =>
          let l := spec_bitop op first others in
          (match l with [] => delete targetkey a | _ => <[targetkey := Some l]> a end, [BReplyLongLong (Z.of_nat (length l) / 8)])
      | _ => (a, [BReplyError BErrWrongType])
      end
  end.

(** The reply of BITCOUNT on a string. *)
Definition count_reply (l : list bool) (args : list (list Z)) : breply :=
  let in_range first last isbit :=
    match string2ll first, string2ll last with
    | Some start, Some stop =>
        if (start <? 0) && (stop <? 0) && (stop <? start) then BReplyLongLong 0 else
        match isbit with
        | None => BReplyError BErrSyntax
        | Some isbit => let '(lo, n) := bit_range l isbit start stop in BReplyLongLong (ones (sub lo n l))
        end
    | _, _ => BReplyError BErrNotInteger
    end in
  match args with
  | [] => BReplyLongLong (ones l)
  | [first; last] => in_range first last (Some false)
  | [first; last; o] => in_range first last (parse_unit o)
  | _ => BReplyError BErrSyntax
  end.

Definition spec_bitcount (a : bkeyspace) (key : list Z) (args : list (list Z)) : bkeyspace * list breply :=
  (a, [match a !! key with
       | None => BReplyLongLong 0
       | Some None => BReplyError BErrWrongType
       | Some (Some l) => count_reply l args
       end]).

(** The reply of BITPOS on a string. *)
Definition pos_reply (l : list bool) (bit : bool) (args : list (list Z)) : breply :=
  let in_range first last isbit :=
    match string2ll first, isbit, string2ll last with
    | None, _, _ => BReplyError BErrNotInteger
    | _, None, _ => BReplyError BErrSyntax
    | _, _, None => BReplyError BErrNotInteger
    | Some start, Some isbit, Some stop => BReplyLongLong (spec_bitpos l bit (bit_range l isbit start stop) true)
    end in
  match args with
  | [] => BReplyLongLong (spec_bitpos l bit (O, length l) false)
  | [first] =>
      match string2ll first with
      | None => BReplyError BErrNotInteger
      | Some start => BReplyLongLong (spec_bitpos l bit (bit_range l false start (-1)) false)
      end
  | [first; last] => in_range first last (Some false)
  | [first; last; o] => in_range first last (parse_unit o)
  | _ => BReplyError BErrSyntax
  end.

Definition spec_bitpos_command (a : bkeyspace) (key bitarg : list Z) (args : list (list Z)) : bkeyspace * list breply :=
  (a, [match string2ll bitarg with
       | None => BReplyError BErrNotInteger
       | Some b =>
           if bool_decide (b = 0 \/ b = 1) then
             let bit := bool_decide (b = 1) in
             match a !! key with
             | None => BReplyLongLong (if bit then -1 else 0)
             | Some None => BReplyError BErrWrongType
             | Some (Some l) => pos_reply l bit args
             end
           else BReplyError BErrBitArgument
       end]).

Definition spec_bitfield (a : bkeyspace) (key : list Z) (args : list (list Z)) (read_only : bool) : bkeyspace * list breply :=
  match parse_ops proto_max_bulk_len mustObeyClient args BFOVERFLOW_WRAP with
  | inl e => (a, [BReplyError e])
  | inr ops =>
      let header := BReplyArrayLen (Z.of_nat (length ops)) in
      if existsb is_write ops then
        if read_only then (a, [BReplyError BErrReadOnly]) else
        on_string a key (fun l =>
          let '(l, rs) := spec_ops (grow_to (highest_write_offset ops) l) ops in (<[key := Some l]> a, header :: rs))
      else on_string a key (fun l => (a, header :: (spec_ops l ops).2))
  end.

Definition spec_bit_command (a : bkeyspace) (cmd : bit_command) : bkeyspace * list breply :=
  match cmd with
  | SETBIT key offset value => spec_setbit a key offset value
  | GETBIT key offset => spec_getbit a key offset
  | BITOP opname targetkey keys => spec_bitop_command a opname targetkey keys
  | BITCOUNT key args => spec_bitcount a key args
  | BITPOS key bit args => spec_bitpos_command a key bit args
  | BITFIELD key args => spec_bitfield a key args false
  | BITFIELD_RO key args => spec_bitfield a key args true
  end.

(** BITOP has at least one source, as the table of commands demands. *)
Definition bit_command_ok (cmd : bit_command) : Prop :=
  match cmd with
  | BITOP _ _ keys => keys <> []
  | _ => True
  end.
End Spec.

(** ** The keyspace that is represented *)

Record bit_limits (proto_max_bulk_len : Z) : Prop := {
  bl_min : 2 ^ 20 <= proto_max_bulk_len;
  bl_max : proto_max_bulk_len + 8 < 2 ^ 60;
}.

Section Repr.
Context (proto_max_bulk_len : Z).

Definition fits_limit (s : list Z) : Prop := Z.of_nat (length s) <= proto_max_bulk_len + 8.

Definition value_repr (v : bval) (x : option (list bool)) : Prop :=
  match v, x with
  | BStr s, Some l => bytes s /\ bits_of s = l /\ fits_limit s
  | BInt n, Some l => LLONG_MIN <= n <= LLONG_MAX /\ bits_of (dec n) = l
  | BOther, None => True
  | _, _ => False
  end.

Definition bdb_repr (c : bclient) (a : bkeyspace) : Prop :=
  forall key, match bdb c !! key, a !! key with
              | Some v, Some x => value_repr v x
              | None, None => True
              | _, _ => False
              end.

(** A command returns, sends the replies of the specification, and has its
    effect. *)
Definition bit_refines (c : bclient) (r : res bclient) (spec : bkeyspace * list breply) : Prop :=
  exists c', r = Ret c' /\ breplies c' = breplies c ++ spec.2 /\ bdb_repr c' spec.1.
End Repr.
