(* ===== verification/BitopsRefine.v ===== *)
(** * Commands on single bits and bit fields

    SETBIT, GETBIT, BITFIELD and BITFIELD_RO refine their specification, on strings
    that are stored as bytes or as integers, and grow a string with zeros as far as
    they write. *)
From stdpp Require Import gmap strings.
From S2P Require Import Prelude Mem NumStr Bitops BitString BitSearch BitField BitopsCommand BitopsSpec.

Local Open Scope Z_scope.

Section Refine.
Context `{Heap} (proto_max_bulk_len : Z).
Hypothesis Hlim : bit_limits proto_max_bulk_len.
Local Abbreviation value_is := (value_repr proto_max_bulk_len).
Local Abbreviation db_is := (bdb_repr proto_max_bulk_len).
Local Abbreviation refines := (bit_refines proto_max_bulk_len).
Local Abbreviation parse_offset := (getBitOffsetFromArgument proto_max_bulk_len false).

(** ** Strings *)

Definition string_is (s : list Z) (l : list bool) : Prop := bytes s /\ bits_of s = l /\ fits_limit proto_max_bulk_len s.

Lemma int_string n : LLONG_MIN <= n <= LLONG_MAX -> string_is (dec n) (bits_of (dec n)).
Proof using Hlim.
  intros Hn. split; [apply dec_bytes|]. split; [done|]. pose proof (length_dec n Hn). pose proof (bl_min _ Hlim). unfold fits_limit. lia.
Qed.

Lemma decoded_spec v l : value_is v (Some l) -> exists s, getDecodedObject v = Ret s /\ string_is s l.
Proof using Hlim.
  destruct v as [s|n|]; [|intros [Hn <-]|done]; [by exists s|]. cbn [getDecodedObject]. destruct (ll2string_buffer 32 n Hn ltac:(done)) as (rest & ->). cbn [mbind res_bind].
  exists (dec n). rewrite c_string_dec. split; [done|]. by apply int_string.
Qed.

Lemma readonly_spec v l : value_is v (Some l) -> exists s, getObjectReadOnlyString (Some v) = Ret (Some s) /\ string_is s l.
Proof using Hlim.
  destruct v as [s|n|]; [|intros [Hn <-]|done]; [by exists s|]. cbn [getObjectReadOnlyString]. destruct (ll2string_buffer LONG_STR_SIZE n Hn ltac:(done)) as (rest & ->). cbn [mbind res_bind].
  rewrite (load_bytes_Ret (length (dec n)) 0) by (rewrite length_app; lia). cbn [mbind res_bind]. exists (dec n). split; [|by apply int_string].
  unfold sub. by rewrite drop_0, take_app_length.
Qed.

Lemma bits_of_grow s (n : nat) : bits_of (sdsgrowzero s (Z.of_nat n)) = grow (8 * n) (bits_of s).
Proof.
  unfold sdsgrowzero, grow. rewrite length_bits_of. destruct (Z.leb_spec (Z.of_nat n) (Z.of_nat (length s))).
  - replace (8 * n - 8 * length s)%nat with O by lia. by rewrite app_nil_r.
  - rewrite bits_of_app, bits_of_zeros. do 2 f_equal. lia.
Qed.

Lemma length_grow n l : length (grow n l) = Nat.max n (length l).
Proof. unfold grow. rewrite length_app, length_replicate. lia. Qed.

(** ** The keyspace *)

Lemma bdb_store c a key s l : db_is c a -> string_is s l -> db_is (store_string c key s) (<[key := Some l]> a).
Proof.
  intros Hc Hs key'. cbn [store_string bdb]. destruct (decide (key' = key)) as [->|Hne]; [rewrite !lookup_insert_eq; exact Hs|]. rewrite !lookup_insert_ne by done. apply Hc.
Qed.

Lemma bdb_delete c a key : db_is c a -> db_is (delete_string c key) (delete key a).
Proof.
  intros Hc key'. cbn [delete_string bdb]. destruct (decide (key' = key)) as [->|Hne]; [by rewrite !lookup_delete_eq|]. rewrite !lookup_delete_ne by done. apply Hc.
Qed.

Lemma refines_breply c a r : db_is c a -> refines c (Ret (breply_to c r)) (a, [r]).
Proof. intros Hc. by exists (breply_to c r). Qed.

Lemma db_at c a key : db_is c a ->
  match a !! key with
  | None => bdb c !! key = None
  | Some None => bdb c !! key = Some BOther
  | Some (Some l) => exists v, bdb c !! key = Some v /\ v <> BOther /\ value_is v (Some l)
  end.
Proof.
  intros Hc. specialize (Hc key). destruct (bdb c !! key) as [v|], (a !! key) as [[l|]|]; try done; [|by destruct v]. exists v. split; [done|]. split; [by intros ->|done].
Qed.

Lemma parse_offset_range o hash bits off : parse_offset o hash bits = Some off -> 0 <= off /\ off / 8 < proto_max_bulk_len.
Proof.
  unfold getBitOffsetFromArgument. destruct (string2ll _) as [z|]; [|done]. cbv zeta. set (x := if bool_decide (head o = Some 35) && hash && (0 <? bits) then s64 (z * bits) else z). destruct (_ || _) eqn:E; [done|]. intros [= <-].
  apply orb_false_iff in E as [E1 E2]. cbn [negb andb] in E2. rewrite Z.ltb_ge in E1. rewrite Z.leb_gt, Z.shiftr_div_pow2 in E2 by lia. by split.
Qed.

(** A string that is about to be written, grown to the byte of a bit. *)
Lemma lookup_write_spec c a key maxbit : db_is c a -> 0 <= maxbit -> maxbit / 8 < proto_max_bulk_len + 8 ->
  a !! key = Some None /\ lookupStringForBitCommand c key maxbit = Ret None \/
  exists l s dirty, (forall f, on_string a key f = f l) /\ lookupStringForBitCommand c key maxbit = Ret (Some (s, dirty)) /\ string_is s (grow_to maxbit l).
Proof using Hlim.
  intros Hc H0 Hmax. pose proof (db_at c a key Hc) as Hk. unfold lookupStringForBitCommand, grow_to, on_string. rewrite Z.shiftr_div_pow2 by lia. change (2 ^ 3) with 8.
  pose proof (Z.div_pos maxbit 8 H0 ltac:(lia)). set (byte := maxbit / 8) in *. replace (Z.to_nat (8 * (byte + 1))) with (8 * Z.to_nat (byte + 1))%nat by lia.
  destruct (a !! key) as [[l|]|].
  - right. destruct Hk as (v & -> & Hv & Hr). destruct (decoded_spec v l Hr) as (s & Es & Hb & <- & Hf).
    exists (bits_of s), (sdsgrowzero s (byte + 1)), (negb (bool_decide (length s = length (sdsgrowzero s (byte + 1))))). split; [done|]. split; [by destruct v; [rewrite Es..|]|]. split.
    + unfold sdsgrowzero. destruct (_ <=? _); [done|]. apply Forall_app_2; [done|]. by apply Forall_replicate.
    + replace (byte + 1) with (Z.of_nat (Z.to_nat (byte + 1))) at 1 by lia. rewrite bits_of_grow. split; [done|]. unfold fits_limit, sdsgrowzero in *.
      destruct (_ <=? _); [done|]. rewrite length_app, length_replicate. lia.
  - left. by rewrite Hk.
  - right. rewrite Hk. eexists [], _, _. split; [done|]. split; [reflexivity|]. split; [by apply Forall_replicate|]. rewrite bits_of_zeros. unfold grow. cbn [app length].
    rewrite Nat.sub_0_r. split; [done|]. unfold fits_limit. rewrite length_replicate. lia.
Qed.

(** ** SETBIT and GETBIT *)

Lemma land_not_one on : negb (Z.land on (Z.lnot 1) =? 0) = negb (bool_decide (on = 0 \/ on = 1)).
Proof.
  f_equal. change 1 with (Z.ones 1) at 1. rewrite <- Z.ldiff_land, Z.ldiff_ones_r, Z.shiftl_mul_pow2, Z.shiftr_div_pow2 by lia. change (2 ^ 1) with 2.
  pose proof (Z.div_mod on 2 ltac:(lia)). pose proof (Z.mod_pos_bound on 2 ltac:(lia)). destruct (decide (on = 0 \/ on = 1)) as [Ho|Ho].
  - rewrite bool_decide_eq_true_2 by done. apply Z.eqb_eq. lia.
  - rewrite bool_decide_eq_false_2 by done. apply Z.eqb_neq. lia.
Qed.

Lemma refines_setbit c a key offset value : db_is c a -> refines c (setbitCommand proto_max_bulk_len false c key offset value) (spec_setbit proto_max_bulk_len false a key offset value).
Proof using Hlim.
  intros Hc. unfold setbitCommand, spec_setbit. destruct (parse_offset offset false 0) as [off|] eqn:Eo; [|by apply refines_breply]. apply parse_offset_range in Eo as [Ho Hmax].
  assert (exists k : nat, off = Z.of_nat k) as [k ->] by (exists (Z.to_nat off); lia). rewrite ?Nat2Z.id.
  destruct (string2ll value) as [on|]; [|by apply refines_breply]. rewrite land_not_one. destruct (decide (on = 0 \/ on = 1)) as [Hon|Hon];
    [rewrite (bool_decide_eq_true_2 _ Hon)|rewrite (bool_decide_eq_false_2 _ Hon); by apply refines_breply]. cbn [negb].
  destruct (lookup_write_spec c a key _ Hc Ho ltac:(lia)) as [[Ea ->]|(l & s & dirty & Eon & -> & Hs)]; cbn [mbind res_bind].
  { unfold on_string. rewrite Ea. by apply refines_breply. }
  rewrite Eon. destruct Hs as (Hb & El & Hf). assert (k < length (bits_of s))%nat as Hoff.
  { rewrite El. unfold grow_to. rewrite length_grow. pose proof (Z.div_mod (Z.of_nat k) 8 ltac:(lia)). pose proof (Z.mod_pos_bound (Z.of_nat k) 8 ltac:(lia)). lia. }
  destruct (lookup_lt_is_Some_2 _ _ Hoff) as [x Hx]. destruct (bit_at s _ x Hb Hx) as (b & Hbs & Hbb & Ex).  destruct (bit_index k) as [-> ->].
  pose proof (Nat.mod_upper_bound k 8 ltac:(lia)). rewrite (aget_in _ _ _ Hbs). cbn [mbind res_bind]. rewrite land_pow2, <- Ex by lia.
  assert (Z.land on 1 = Z.b2z (bool_decide (on = 1))) as -> by (by destruct Hon as [-> | ->]). fold (set_byte b (7 - Z.of_nat (k `mod` 8)) (bool_decide (on = 1))).
  pose proof (set_byte_range b (7 - Z.of_nat (k `mod` 8)) (bool_decide (on = 1)) Hbb ltac:(lia)) as Hr. rewrite uwrap_id by exact Hr.
  pose proof (set_bit_at s k b (bool_decide (on = 1)) Hbs) as Eset. set (s1 := <[_ := _]> s) in *.
  assert (string_is s1 (<[k := bool_decide (on = 1)]> (grow_to (Z.of_nat k) l))) as Hs1.
  { split; [by apply Forall_insert|]. rewrite Eset, El. split; [done|]. unfold fits_limit, s1 in *. by rewrite length_insert. }
  assert (bit_or_zero (grow_to (Z.of_nat k) l) k = x) as -> by (unfold bit_or_zero; by rewrite <- El, Hx).
  assert (exists s', (if dirty || negb ((if x then 1 else 0) =? on) then aset s (Z.of_nat (k `div` 8)) (set_byte b (7 - Z.of_nat (k `mod` 8)) (bool_decide (on = 1))) else Ret s) = Ret s' /\
    string_is s' (<[k := bool_decide (on = 1)]> (grow_to (Z.of_nat k) l))) as (s' & -> & Hs').
  { rewrite aset_in by (by eapply lookup_lt_Some). fold s1. destruct (dirty || _) eqn:E; [by exists s1|]. exists s. split; [done|]. apply orb_false_iff in E as [_ E]. rewrite negb_false_iff, Z.eqb_eq in E.
    rewrite list_insert_id; [by split|]. rewrite <- El, Hx. f_equal. subst on. by destruct x. }
  cbn [mbind res_bind]. eexists. split; [reflexivity|]. split; [by destruct x|]. by apply (bdb_store c a key s').
Qed.

Lemma refines_getbit c a key offset : db_is c a -> refines c (getbitCommand proto_max_bulk_len false c key offset) (spec_getbit proto_max_bulk_len false a key offset).
Proof using Hlim.
  intros Hc. unfold getbitCommand, spec_getbit, on_string. destruct (parse_offset offset false 0) as [off|] eqn:Eo; [|by apply refines_breply]. apply parse_offset_range in Eo as [Ho Hmax].
  assert (exists k : nat, off = Z.of_nat k) as [k ->] by (exists (Z.to_nat off); lia). rewrite ?Nat2Z.id.
  pose proof (db_at c a key Hc) as Hk. destruct (a !! key) as [[l|]|]; [|rewrite Hk; by apply refines_breply..].
  destruct Hk as (v & -> & Hv & Hr). assert (exists buf s, match v with BInt n => ll2string (realloc 32 []) 0 32 n | BStr s => Ret (s, Z.of_nat (length s)) | BOther => Abort end = Ret (buf, Z.of_nat (length s)) /\
    string_is s l /\ forall i b, s !! i = Some b -> buf !! i = Some b) as (buf & s & Ebuf & (Hb & <- & Hf) & Hget).
  { destruct v as [s|n|]; [by exists s, s| |done]. destruct Hr as [Hn <-]. destruct (ll2string_buffer 32 n Hn ltac:(done)) as (rest & ->). exists (dec n ++ 0 :: rest), (dec n).
    split; [done|]. split; [by apply int_string|]. intros i b Hi. by rewrite lookup_app_l by (by eapply lookup_lt_Some). }
  assert (refines c ('(buf0, len) ← Ret (buf, Z.of_nat (length s)); bitval ← (if Z.shiftr (Z.of_nat k) 3 <? len then b ← aget buf0 (Z.shiftr (Z.of_nat k) 3); Ret (Z.land b (Z.shiftl 1 (7 - Z.land (Z.of_nat k) 0x7))) else Ret 0);
    Ret (breply_to c (BReplyLongLong (if negb (bitval =? 0) then 1 else 0)))) (a, [BReplyLongLong (Z.b2z (bit_or_zero (bits_of s) k))])) as Hmain; [|by destruct v; try rewrite Ebuf].
  cbn [mbind res_bind].  destruct (bit_index k) as [-> ->]. pose proof (Nat.mod_upper_bound k 8 ltac:(lia)). unfold bit_or_zero. rewrite lookup_bits_of.
  destruct (Z.ltb_spec (Z.of_nat (k `div` 8)) (Z.of_nat (length s))) as [Hlt|Hge].
  - destruct (byte_in s (k `div` 8) Hb) as (b & Hbs & _); [lia|]. rewrite (aget_in _ _ _ (Hget _ _ Hbs)), Hbs. cbn [mbind res_bind fmap option_fmap option_map default]. rewrite land_pow2 by lia.
    destruct (Z.testbit _ _); by apply refines_breply.
  - rewrite lookup_ge_None_2 by lia. by apply refines_breply.
Qed.
End Refine.
