(* ===== verification/BitopsField.v ===== *)
(** * Bit fields

    BITFIELD and BITFIELD_RO refine their specification: each of their operations
    reads or writes the number of a field, wraps around, saturates or fails as it
    was asked to, and sees what the operations before it have written. *)
From stdpp Require Import gmap strings.
From S2P Require Import Prelude Mem NumStr Bitops BitString BitSearch BitField BitopsCommand BitopsSpec BitopsRefine.

Local Open Scope Z_scope.

(** What a check returns decides what is stored. *)
Lemma check_stored ow lo hi wrap z limit code lim : check_ok ow lo hi wrap z limit (code, lim) ->
  stored ow lo hi wrap z = if negb (code =? 0) && bool_decide (ow = BFOVERFLOW_FAIL) then None else Some (if negb (code =? 0) then lim else z).
Proof.
  unfold check_ok. destruct (_ && _) eqn:E; [intros [= -> ->]; unfold stored; by rewrite E|]. cbn [fst snd]. intros [Hc Hs]. rewrite (proj2 (Z.eqb_neq _ _) Hc). cbn [negb andb].
  destruct (decide (ow = BFOVERFLOW_FAIL)) as [->|Hne]; [unfold stored; by rewrite E|]. rewrite bool_decide_eq_false_2 by done. by apply Hs.
Qed.

Section Field.
Context `{Heap} (proto_max_bulk_len : Z).
Hypothesis Hlim : bit_limits proto_max_bulk_len.
Local Abbreviation value_is := (value_repr proto_max_bulk_len).
Local Abbreviation string_is := (string_is proto_max_bulk_len).
Local Abbreviation db_is := (bdb_repr proto_max_bulk_len).
Local Abbreviation refines := (bit_refines proto_max_bulk_len).

(** ** Arguments *)

Record op_wf (op : bitfieldOp) : Prop := {
  ow_bits : 1 <= op_bits op <= 64;
  ow_unsigned : op_sign op = false -> op_bits op <= 63;
  ow_offset : 0 <= op_offset op /\ op_offset op / 8 < proto_max_bulk_len;
  ow_value : - 2 ^ 63 <= op_i64 op < 2 ^ 63;
}.

Lemma type_range o sign bits : getBitfieldTypeFromArgument o = Some (sign, bits) -> 1 <= bits <= 64 /\ (sign = false -> bits <= 63).
Proof.
  unfold getBitfieldTypeFromArgument. destruct (string2ll _) as [n|]; [|by repeat case_bool_decide].
  repeat case_bool_decide; try done; (destruct (_ || _) eqn:E; [done|]); intros [= <- <-]; rewrite !orb_false_iff in E; cbn [negb andb] in E; rewrite ?Z.ltb_ge in E; split; (lia || done).
Qed.

Lemma parse_op_wf code ow ty off val op : parse_op proto_max_bulk_len false code ow ty off val = inr op -> op_wf op.
Proof.
  unfold parse_op. destruct (getBitfieldTypeFromArgument ty) as [[sign bits]|] eqn:Et; [|done]. apply type_range in Et as [Hb Hu].
  destruct (getBitOffsetFromArgument _ _ _ _ _) as [o|] eqn:Eo; [|done]. apply parse_offset_range in Eo. destruct val as [val|]; [|by intros [= <-]].
  destruct (string2ll val) as [i|] eqn:Ei; [|done]. apply string2ll_sound in Ei as [Hi _]. unfold LLONG_MIN, LLONG_MAX in Hi. intros [= <-]. split; cbn; (done || lia).
Qed.

Lemma parse_ops_wf args ow ops : parse_ops proto_max_bulk_len false args ow = inr ops -> Forall op_wf ops.
Proof.
  revert ow ops. induction args as [args IH] using (induction_ltof1 _ length). unfold ltof in IH. intros ow ops. destruct args as [|subcmd rest]; [by intros [= <-]|].
  assert (forall code ty off val rest', (length rest' < S (length rest))%nat ->
    match parse_op proto_max_bulk_len false code ow ty off val with
    | inl e => inl e
    | inr op => match parse_ops proto_max_bulk_len false rest' ow with inl e => inl e | inr ops0 => inr (op :: ops0) end
    end = inr ops -> Forall op_wf ops) as Hop.
  { intros code ty off val rest' Hr. destruct (parse_op _ _ _ _ _ _ _) as [|op] eqn:Eop; [done|]. destruct (parse_ops _ _ rest' ow) as [|ops'] eqn:Er; [done|]. intros [= <-].
    constructor; [by eapply parse_op_wf|]. by eapply (IH rest'). }
  cbn [parse_ops]. repeat (match goal with |- context [if ?b then _ else _] => destruct b end; [|]); try done;
    destruct rest as [|x1 [|x2 [|x3 rest']]]; try done; try (apply Hop; cbn; lia); destruct (parse_owtype x1); try done; apply IH; cbn; lia.
Qed.

(** ** Writing *)

Lemma field_old s l op : string_is s l -> op_wf op -> op_offset op + op_bits op <= Z.of_nat (length l) ->
  (if op_sign op then getSignedBitfield s (op_offset op) (op_bits op) else getUnsignedBitfield s (op_offset op) (op_bits op)) = Ret (field_num op l).
Proof.
  intros (Hb & <- & _) [Hbits Hu [Ho _] _] Hfit. unfold field_num. rewrite <- (Z2Nat.id (op_offset op)), <- (Z2Nat.id (op_bits op)), !Nat2Z.id by lia.
  destruct (op_sign op); [apply getSigned_spec|apply getUnsigned_spec]; (done || lia).
Qed.

Lemma field_set s l op v : string_is s l -> op_wf op -> op_offset op + op_bits op <= Z.of_nat (length l) ->
  exists s', (if op_sign op then setSignedBitfield s (op_offset op) (op_bits op) v else setUnsignedBitfield s (op_offset op) (op_bits op) v) = Ret s' /\
    string_is s' (patch (Z.to_nat (op_offset op)) (num_bits (Z.to_nat (op_bits op)) v) l).
Proof.
  intros (Hb & <- & Hf) [Hbits Hu [Ho _] _] Hfit. rewrite <- (Z2Nat.id (op_offset op)), <- (Z2Nat.id (op_bits op)), !Nat2Z.id by lia. unfold fits_limit in Hf.
  destruct (op_sign op); [destruct (setSigned_spec s (Z.to_nat (op_offset op)) (Z.to_nat (op_bits op)) v Hb) as (s' & -> & Hb' & Hl & E)|
    destruct (setUnsigned_spec s (Z.to_nat (op_offset op)) (Z.to_nat (op_bits op)) v Hb) as (s' & -> & Hb' & Hl & E)]; try lia; exists s'; (split; [done|]); (split; [done|]); (split; [done|]); unfold fits_limit; by rewrite Hl.
Qed.

Lemma field_range op l : op_wf op -> op_offset op + op_bits op <= Z.of_nat (length l) -> field_min op <= field_num op l <= field_max op.
Proof.
  intros [Hbits Hu [Ho _] _] Hfit. unfold field_min, field_max, field_num. set (n := bits_num _). destruct (op_sign op); [pose proof (swrap_range (op_bits op) n ltac:(lia)); lia|].
  pose proof (bits_num_range (sub (Z.to_nat (op_offset op)) (Z.to_nat (op_bits op)) l)) as R. rewrite length_sub, Z2Nat.id in R by lia. fold n in R. lia.
Qed.

(** The end of a write: the number is stored, or the operation has failed. *)
Lemma write_end s l op code lim z limit retval reply : string_is s l -> op_wf op -> op_offset op + op_bits op <= Z.of_nat (length l) ->
  check_ok (op_owtype op) (field_min op) (field_max op) (field_wrap op) z limit (code, lim) ->
  let new := if negb (code =? 0) then lim else z in
  retval = reply new ->
  exists s' r, (if negb (negb (code =? 0) && bool_decide (op_owtype op = BFOVERFLOW_FAIL)) then
      s' ← (if op_sign op then setSignedBitfield s (op_offset op) (op_bits op) new else setUnsignedBitfield s (op_offset op) (op_bits op) new); Ret (s', BReplyLongLong retval)
    else Ret (s, BReplyNull)) = Ret (s', r) /\
    match stored (op_owtype op) (field_min op) (field_max op) (field_wrap op) z with
    | Some new => r = BReplyLongLong (reply new) /\ string_is s' (patch (Z.to_nat (op_offset op)) (num_bits (Z.to_nat (op_bits op)) new) l)
    | None => r = BReplyNull /\ string_is s' l
    end.
Proof.
  intros Hs Hop Hfit Hck new ->. rewrite (check_stored _ _ _ _ _ _ _ _ Hck). fold new. destruct (_ && _); cbn [negb]; [by exists s, BReplyNull|].
  destruct (field_set s l op new Hs Hop Hfit) as (s' & -> & Hs'). by eexists s', _.
Qed.

(** The case in which the wrong limit is stored. *)
Lemma mistaken_stores op limit : op_wf op -> mistaken op = true ->
  op_owtype op = BFOVERFLOW_SAT /\ checkSignedBitfieldOverflow (op_i64 op) 0 (op_bits op) BFOVERFLOW_SAT limit = (1, field_max op) /\
  stored BFOVERFLOW_SAT (field_min op) (field_max op) (field_wrap op) (set_number op) = Some (field_max op).
Proof.
  intros [Hbits _ _ Hval] Hmis. unfold set_number. rewrite Hmis. unfold mistaken in Hmis.
  apply andb_true_iff in Hmis as [Hm Hlow%Z.ltb_lt]. apply andb_true_iff in Hm as [Hm H64%Z.ltb_lt]. apply andb_true_iff in Hm as [Esign Esat%bool_decide_eq_true].
  unfold field_min, field_max, stored. rewrite Esign. split; [done|]. split; [apply checkSigned_low; lia|].
  pose proof (Z.pow_pos_nonneg 2 (op_bits op - 1)). rewrite (proj2 (Z.leb_le _ _)), Z.leb_refl by lia. done.
Qed.

Lemma write_signed_spec s l op : string_is s l -> op_wf op -> op_sign op = true -> is_write op = true -> op_offset op + op_bits op <= Z.of_nat (length l) ->
  exists s' r, write_signed s op = Ret (s', r) /\ r = (spec_op l op).2 /\ string_is s' (spec_op l op).1.
Proof.
  intros Hs Hop Esign Hw Hfit. pose proof (field_range op l Hop Hfit) as Hold. pose proof (field_old s l op Hs Hop Hfit) as Eold. rewrite Esign in Eold.
  pose proof Hop as [Hbits _ _ Hval]. unfold write_signed. rewrite Eold. cbn [mbind res_bind]. set (limit := s64 (uninit 0)).
  assert (2 ^ (op_bits op - 1) <= 2 ^ 63) as Htop by (apply Z.pow_le_mono_r; lia).
  assert (forall z value incr, z = value + incr -> - 2 ^ 63 <= value < 2 ^ 63 -> - 2 ^ 63 <= incr < 2 ^ 63 ->
    - 2 ^ (op_bits op - 1) <= value < 2 ^ (op_bits op - 1) \/ incr = 0 /\ (op_owtype op <> BFOVERFLOW_SAT \/ 2 ^ (op_bits op - 1) - 2 ^ 63 <= value) ->
    check_ok (op_owtype op) (field_min op) (field_max op) (field_wrap op) z limit (checkSignedBitfieldOverflow value incr (op_bits op) (op_owtype op) limit)) as Hck.
  { intros z value incr -> Hv Hi Hc. unfold field_min, field_max, field_wrap. rewrite Esign. by apply checkSigned_spec. }
  unfold field_min, field_max in Hold. rewrite Esign in Hold. unfold spec_op. destruct (op_opcode op) eqn:Ecode; [by unfold is_write in Hw; rewrite Ecode in Hw| |].
  - destruct (mistaken op) eqn:Emis; [|unfold set_number; rewrite Emis, Esign].
    { destruct (mistaken_stores op limit Hop Emis) as (-> & -> & ->). cbn [negb Z.eqb andb]. rewrite bool_decide_eq_false_2 by done. cbn [negb].
      destruct (field_set s l op (field_max op) Hs Hop Hfit) as (s' & E & Hs'). rewrite Esign in E. rewrite E. by eexists s', _. }
    specialize (Hck (op_i64 op) (op_i64 op) 0). destruct (checkSignedBitfieldOverflow _ _ _ _ _) as [code lim].
    destruct (write_end s l op code lim (op_i64 op) limit (field_num op l) (fun _ => field_num op l)) as (s' & r & E & Hr); [done..| |done|].
    { apply Hck; [lia|lia|lia|]. unfold mistaken in Emis. rewrite Esign in Emis. destruct (decide (op_owtype op = BFOVERFLOW_SAT)) as [Esat|]; [|right; by auto].
      rewrite bool_decide_eq_true_2 in Emis by done. cbn [andb] in Emis. destruct (Z.ltb_spec (op_bits op) 64); [|left; replace (op_bits op) with 64 by lia; lia].
      apply Z.ltb_ge in Emis. right. by auto. }
    rewrite Esign in E. rewrite E. exists s', r. split; [done|]. by destruct (stored _ _ _ _ _).
  - specialize (Hck (field_num op l + op_i64 op) (field_num op l) (op_i64 op)). destruct (checkSignedBitfieldOverflow _ _ _ _ _) as [code lim].
    destruct (write_end s l op code lim (field_num op l + op_i64 op) limit (if negb (code =? 0) then lim else field_num op l + op_i64 op) (fun new => new)) as (s' & r & E & Hr); [done..| |done|].
    { apply Hck; [lia..|]. left. lia. }
    rewrite Esign in E. rewrite E. exists s', r. split; [done|]. by destruct (stored _ _ _ _ _).
Qed.

Lemma stored_range ow lo hi wrap z x : lo <= hi -> (forall z, lo <= wrap z <= hi) -> stored ow lo hi wrap z = Some x -> lo <= x <= hi.
Proof.
  intros Hlo Hw. unfold stored. destruct (Z.leb_spec lo z), (Z.leb_spec z hi); cbn [andb]; [intros [= <-]; lia|..]; destruct ow; try done; intros [= <-]; try apply Hw; destruct (_ <? _); lia.
Qed.

Lemma write_unsigned_spec s l op : string_is s l -> op_wf op -> op_sign op = false -> is_write op = true -> op_offset op + op_bits op <= Z.of_nat (length l) ->
  exists s' r, write_unsigned s op = Ret (s', r) /\ r = (spec_op l op).2 /\ string_is s' (spec_op l op).1.
Proof.
  intros Hs Hop Esign Hw Hfit. pose proof (field_range op l Hop Hfit) as Hold. pose proof (field_old s l op Hs Hop Hfit) as Eold. rewrite Esign in Eold.
  pose proof Hop as [Hbits Hu _ Hval]. specialize (Hu Esign). unfold write_unsigned. rewrite Eold. cbn [mbind res_bind].
  assert (2 ^ op_bits op <= 2 ^ 63) as Htop by (apply Z.pow_le_mono_r; lia). pose proof (Z.pow_pos_nonneg 2 (op_bits op) ltac:(lia) ltac:(lia)) as Hpos.
  assert (forall z value incr, z = value + incr -> 0 <= value < 2 ^ 64 -> - 2 ^ 63 <= incr < 2 ^ 63 -> value < 2 ^ op_bits op \/ incr = 0 ->
    exists r, checkUnsignedBitfieldOverflow value incr (op_bits op) (op_owtype op) 0 = Ret r /\ check_ok (op_owtype op) (field_min op) (field_max op) (field_wrap op) z 0 r) as Hck.
  { intros z value incr -> Hv Hi Hc. unfold field_min, field_max, field_wrap. rewrite Esign. apply checkUnsigned_spec; (done || lia). }
  assert (forall z x, stored (op_owtype op) (field_min op) (field_max op) (field_wrap op) z = Some x -> s64 x = x) as Hs64.
  { intros z x Hx. apply stored_range in Hx; unfold field_min, field_max, field_wrap in *; rewrite Esign in *; [apply swrap_id; lia|lia|]. intros y. pose proof (Z.mod_pos_bound y (2 ^ op_bits op)). lia. }
  assert (s64 (field_num op l) = field_num op l) as Eold64 by (unfold field_min, field_max in Hold; rewrite Esign in Hold; apply swrap_id; lia).
  unfold field_min, field_max in Hold. rewrite Esign in Hold. unfold spec_op. destruct (op_opcode op) eqn:Ecode; [by unfold is_write in Hw; rewrite Ecode in Hw| |].
  - assert (set_number op = op_i64 op mod 2 ^ 64) as -> by (unfold set_number, mistaken; by rewrite Esign). destruct (Hck (op_i64 op mod 2 ^ 64) (u64 (op_i64 op)) 0) as ([code lim] & -> & Hc); [unfold uwrap; lia|apply uwrap_range; lia|lia|by right|]. cbn [mbind res_bind].
    destruct (write_end s l op code lim (op_i64 op mod 2 ^ 64) 0 (s64 (field_num op l)) (fun _ => field_num op l)) as (s' & r & E & Hr); [done..|].
    rewrite Esign in E. unfold uwrap at 1. rewrite E. exists s', r. split; [done|]. by destruct (stored _ _ _ _ _).
  - destruct (Hck (field_num op l + op_i64 op) (field_num op l) (op_i64 op)) as ([code lim] & -> & Hc); [done|lia|lia|left; lia|]. cbn [mbind res_bind].
    pose proof (check_stored _ _ _ _ _ _ _ _ Hc) as Est. set (z := field_num op l + op_i64 op) in *.
    assert ((if negb (code =? 0) then lim else u64 z) = if negb (code =? 0) then lim else z) as Enew.
    { destruct (Z.eqb_spec code 0) as [->|]; [|done]. cbn [negb andb] in Est |- *. apply stored_range in Est; unfold field_min, field_max, field_wrap in *; rewrite Esign in *; [apply uwrap_id; lia|lia|].
      intros y. pose proof (Z.mod_pos_bound y (2 ^ op_bits op)). lia. }
    rewrite Enew. set (new := if negb (code =? 0) then lim else z) in *.
    destruct (write_end s l op code lim z 0 new (fun new => new)) as (s' & r & E & Hr); [done..|]. rewrite Esign in E. fold new in E. exists s', r. split; [|by destruct (stored _ _ _ _ _)].
    rewrite <- E. destruct (_ && _); [done|]. cbn [negb]. by rewrite (Hs64 z new).
Qed.

(** ** Reading *)

(** The bytes of the copy. *)
Lemma copy_bytes_spec n s (byte i : nat) buf : length buf = (i + n)%nat ->
  copy_bytes n (Some s) (Z.of_nat byte) (Z.of_nat i) buf = Ret (take i buf ++ take n (drop (byte + i) s) ++ drop (i + length (take n (drop (byte + i) s))) buf).
Proof.
  revert i buf. induction n as [|n IH]; intros i buf Hbuf; cbn [copy_bytes]; [by rewrite take_0; cbn; rewrite Nat.add_0_r, take_drop|].
  destruct (Z.leb_spec (Z.of_nat (length s)) (Z.of_nat i + Z.of_nat byte)) as [Hge|Hlt].
  - rewrite drop_ge by lia. rewrite take_nil. cbn. by rewrite Nat.add_0_r, take_drop.
  - destruct (lookup_lt_is_Some_2 s (byte + i)) as [b Hb]; [lia|]. replace (Z.of_nat i + Z.of_nat byte) with (Z.of_nat (byte + i)) by lia. rewrite (aget_in _ _ _ Hb). cbn [mbind res_bind].
    rewrite aset_in by lia. cbn [mbind res_bind]. replace (Z.of_nat i + 1) with (Z.of_nat (S i)) by lia. rewrite IH by (rewrite length_insert; lia). f_equal.
    rewrite (drop_S _ _ _ Hb). cbn [take length]. replace (byte + S i)%nat with (S (byte + i)) by lia. set (t := take n _).
    rewrite (take_S_r _ _ b) by (apply list_lookup_insert_eq; lia). rewrite take_insert_ge by lia. rewrite <- app_assoc. cbn [app]. do 3 f_equal.
    rewrite drop_insert_lt by lia. f_equal. lia.
Qed.

Lemma copy_spec s byte : bytes s -> exists buf, copy_bytes 9 (Some s) (Z.of_nat byte) 0 (replicate 9 0) = Ret buf /\ bytes buf /\ length buf = 9%nat /\
  forall i, (i < 72)%nat -> bits_of buf !! i = Some (bit_or_zero (bits_of s) (8 * byte + i)).
Proof.
  intros Hs. eexists. split; [exact (copy_bytes_spec 9 s byte 0 (replicate 9 0) ltac:(done))|]. rewrite take_0, Nat.add_0_r. cbn [app]. set (t := take 9 (drop byte s)).
  assert (bytes t) as Ht by (by apply Forall_take, Forall_drop). assert (length t <= 9)%nat as Hlt by (unfold t; rewrite length_take; lia). rewrite drop_replicate. cbn [Nat.add].
  split; [apply Forall_app_2; [done|]; by apply Forall_replicate|]. split; [rewrite length_app, length_replicate; lia|]. intros i Hi. rewrite bits_of_app, bits_of_zeros. unfold bit_or_zero.
  assert (bits_of t = sub (8 * byte) 72 (bits_of s)) as Et by (unfold t; fold (sub byte 9 s); by rewrite bits_of_sub).
  destruct (decide (i < length (bits_of t))%nat) as [Hin|Hout].
  - rewrite lookup_app_l by done. destruct (lookup_lt_is_Some_2 _ _ Hin) as [x Hx]. rewrite Hx. rewrite Et in Hx. unfold sub in Hx. rewrite lookup_take_lt, lookup_drop in Hx by done. by rewrite Hx.
  - rewrite lookup_app_r by lia. rewrite lookup_replicate_2 by (rewrite length_bits_of in *; lia). rewrite Et in Hout. unfold sub in Hout. rewrite length_take, length_drop in Hout.
    rewrite lookup_ge_None_2 by lia. done.
Qed.

Lemma grow_lookup n l i : (i < n)%nat -> grow n l !! i = Some (bit_or_zero l i).
Proof.
  intros Hi. unfold grow, bit_or_zero. destruct (decide (i < length l)%nat) as [Hin|Hout].
  - rewrite lookup_app_l by done. by destruct (lookup_lt_is_Some_2 _ _ Hin) as [x ->].
  - rewrite lookup_app_r by lia. rewrite lookup_replicate_2 by lia. by rewrite (lookup_ge_None_2 l) by lia.
Qed.

Lemma read_string_spec s l op : string_is s l -> op_wf op ->
  (buf ← copy_bytes 9 (Some s) (Z.shiftr (op_offset op) 3) 0 (replicate 9 0);
   val ← (if op_sign op then getSignedBitfield buf (op_offset op - Z.shiftr (op_offset op) 3 * 8) (op_bits op)
          else v ← getUnsignedBitfield buf (op_offset op - Z.shiftr (op_offset op) 3 * 8) (op_bits op); Ret (s64 v));
   Ret (BReplyLongLong val)) = Ret (BReplyLongLong (field_num op (grow (Z.to_nat (op_offset op + op_bits op)) l))).
Proof.
  intros (Hb & <- & _) [Hbits Hu [Ho _] _]. set (off := Z.to_nat (op_offset op)). set (n := Z.to_nat (op_bits op)). assert (op_offset op = Z.of_nat off) as Eoff by lia.
  assert (op_bits op = Z.of_nat n) as En by lia. rewrite Eoff, En. destruct (bit_index off) as [-> _]. destruct (copy_spec s (off `div` 8) Hb) as (buf & -> & Hbb & H9 & Hbuf). cbn [mbind res_bind].
  pose proof (Nat.div_mod_eq off 8) as Edm. pose proof (Nat.mod_upper_bound off 8 ltac:(lia)) as Hmod. replace (Z.of_nat off - Z.of_nat (off `div` 8) * 8) with (Z.of_nat (off `mod` 8)) by lia.
  assert (sub (off `mod` 8) n (bits_of buf) = sub off n (grow (Z.to_nat (Z.of_nat off + Z.of_nat n)) (bits_of s))) as Esub.
  { apply list_eq. intros i. unfold sub. destruct (decide (i < n)%nat) as [Hi|Hi].
    - rewrite !lookup_take_lt, !lookup_drop by done. rewrite Hbuf by lia. rewrite grow_lookup by lia. do 2 f_equal. lia.
    - by rewrite !lookup_take_ge by lia. }
  unfold field_num. rewrite En, !Nat2Z.id. rewrite Eoff, Nat2Z.id, <- Esub. destruct (op_sign op) eqn:Esign.
  - rewrite getSigned_spec; [done|done|rewrite length_bits_of; lia|lia].
  - specialize (Hu eq_refl). rewrite getUnsigned_spec; [|done|rewrite length_bits_of; lia|lia]. cbn [mbind res_bind]. do 2 f_equal. pose proof (bits_num_range (sub (off `mod` 8) n (bits_of buf))) as R.
    rewrite length_sub in R by (rewrite length_bits_of; lia). apply swrap_id; [lia|]. assert (2 ^ Z.of_nat n <= 2 ^ 63) by (apply Z.pow_le_mono_r; lia). lia.
Qed.

(** An object that is read, or a missing key. *)
Definition object_is (o : option bval) (l : list bool) : Prop := match o with None => l = [] | Some v => v <> BOther /\ value_is v (Some l) end.

Lemma read_field_spec o l op : object_is o l -> op_wf op -> read_field o op = Ret (BReplyLongLong (field_num op (grow (Z.to_nat (op_offset op + op_bits op)) l))).
Proof using Hlim.
  intros Hr Hop. unfold read_field. destruct o as [v|].
  - destruct Hr as [_ Hr]. destruct (readonly_spec _ Hlim v l Hr) as (s & -> & Hs). cbn [mbind res_bind]. by apply read_string_spec.
  - cbn in Hr. subst l. pose proof (read_string_spec [] [] op) as E. cbn [getObjectReadOnlyString mbind res_bind]. cbn [copy_bytes] in E |- *. rewrite <- E; [|split; [constructor|]; split; [done|]|done].
    + destruct (Z.leb_spec (Z.of_nat (length (@nil Z))) (0 + Z.shiftr (op_offset op) 3)) as [|Hneg]; [done|]. rewrite Z.shiftr_div_pow2 in Hneg by lia. change (2 ^ 3) with 8 in Hneg. cbn [length] in Hneg.
      pose proof (Z.div_pos (op_offset op) 8 ltac:(apply (ow_offset op Hop)) ltac:(lia)). lia.
    + unfold fits_limit. pose proof (bl_min _ Hlim). cbn. lia.
Qed.

(** ** Running *)

Lemma length_spec_op l op : op_offset op + op_bits op <= Z.of_nat (length l) \/ is_write op = false -> op_wf op -> length (spec_op l op).1 = length l.
Proof.
  intros Hfit [Hbits _ [Ho _] _]. unfold spec_op, is_write in *. destruct (op_opcode op); [done|..]; (destruct Hfit as [Hfit|]; [|done]);
    destruct (stored _ _ _ _ _); [|done| |done]; cbn [fst]; rewrite length_patch; rewrite ?length_num_bits; lia.
Qed.

Lemma spec_op_read l op : is_write op = false -> spec_op l op = (l, BReplyLongLong (field_num op (grow (Z.to_nat (op_offset op + op_bits op)) l))).
Proof. unfold is_write, spec_op. by destruct (op_opcode op). Qed.

Lemma run_writes_spec ops s l : string_is s l -> Forall op_wf ops -> Forall (fun op => is_write op = true -> op_offset op + op_bits op <= Z.of_nat (length l)) ops ->
  exists s', run_ops (Some (BStr s)) ops = Ret (Some (BStr s'), (spec_ops l ops).2) /\ string_is s' (spec_ops l ops).1.
Proof using Hlim.
  revert s l. induction ops as [|op ops IH]; intros s l Hs Hwf Hfit; cbn [run_ops spec_ops]; [by exists s|].
  apply Forall_cons in Hwf as [Hop Hwf]. apply Forall_cons in Hfit as [Hfit1 Hfit].
  assert (exists s1, (if is_write op then '(s1, r) ← (if op_sign op then write_signed s op else write_unsigned s op); Ret (Some (BStr s1), r) else r ← read_field (Some (BStr s)) op; Ret (Some (BStr s), r))
    = Ret (Some (BStr s1), (spec_op l op).2) /\ string_is s1 (spec_op l op).1) as (s1 & -> & Hs1).
  { destruct (is_write op) eqn:Ew.
    - specialize (Hfit1 eq_refl). destruct (op_sign op) eqn:Es.
      + destruct (write_signed_spec s l op) as (s' & r & -> & -> & Hs'); [done..|]. by exists s'.
      + destruct (write_unsigned_spec s l op) as (s' & r & -> & -> & Hs'); [done..|]. by exists s'.
    - rewrite (spec_op_read l op Ew). exists s. rewrite (read_field_spec _ l op) by done. done. }
  cbn [mbind res_bind]. pose proof (length_spec_op l op) as Hlen. destruct (spec_op l op) as [l1 r] eqn:E1. cbn [fst snd] in *.
  destruct (IH s1 l1 Hs1 Hwf) as (s' & -> & Hs').
  { rewrite Hlen; [done| |done]. destruct (is_write op); [left; by apply Hfit1|by right]. }
  destruct (spec_ops l1 ops) as [l2 rs]. cbn [mbind res_bind fst snd] in *. by exists s'.
Qed.

Lemma run_reads_spec ops o l : object_is o l -> Forall op_wf ops -> existsb is_write ops = false -> run_ops o ops = Ret (o, (spec_ops l ops).2) /\ (spec_ops l ops).1 = l.
Proof using Hlim.
  intros Ho Hwf. induction Hwf as [|op ops Hop Hwf IH]; cbn [run_ops spec_ops existsb]; [done|]. intros [Ew Ews]%orb_false_iff. destruct (IH Ews) as [E1 E2].
  rewrite Ew, (read_field_spec o l op Ho Hop), (spec_op_read l op Ew). cbn [mbind res_bind]. rewrite E1. cbn [mbind res_bind]. destruct (spec_ops l ops) as [l2 rs]. cbn [fst snd] in *. by subst l2.
Qed.

Lemma highest_write ops high : Forall op_wf ops -> 0 <= high -> high / 8 < proto_max_bulk_len + 8 ->
  let h := foldl (fun high op => let last := u64 (op_offset op + op_bits op - 1) in if is_write op && (high <? last) then last else high) high ops in
  high <= h /\ h / 8 < proto_max_bulk_len + 8 /\ Forall (fun op => is_write op = true -> op_offset op + op_bits op - 1 <= h) ops.
Proof using Hlim.
  intros Hwf. revert high. induction Hwf as [|op ops Hop Hwf IH]; intros high H0 Hh; cbn [foldl]; [done|]. pose proof Hop as [Hbits _ [Ho Hmax] _]. pose proof (bl_max _ Hlim).
  pose proof (Z.div_mod (op_offset op) 8 ltac:(lia)). pose proof (Z.mod_pos_bound (op_offset op) 8 ltac:(lia)). cbv zeta in *. rewrite (uwrap_id 64 (op_offset op + op_bits op - 1)) by lia.
  assert ((op_offset op + op_bits op - 1) / 8 < proto_max_bulk_len + 8) as Hlast by (apply Z.div_lt_upper_bound; lia).
  set (high' := if is_write op && (high <? op_offset op + op_bits op - 1) then op_offset op + op_bits op - 1 else high).
  assert (high <= high' /\ high' / 8 < proto_max_bulk_len + 8 /\ (is_write op = true -> op_offset op + op_bits op - 1 <= high')) as (Ha & Hb & Hc).
  { unfold high'. destruct (is_write op); cbn [andb]; [|done]. destruct (Z.ltb_spec high (op_offset op + op_bits op - 1)); split_and!; (done || lia). }
  destruct (IH high' ltac:(lia) Hb) as (Hd & He & Hf). split; [lia|]. split; [done|]. constructor; [|done]. intros Hw. specialize (Hc Hw). lia.
Qed.

Lemma length_grow_to maxbit l : 0 <= maxbit -> maxbit < Z.of_nat (length (grow_to maxbit l)).
Proof. intros H0. unfold grow_to. rewrite length_grow. pose proof (Z.div_mod maxbit 8 ltac:(lia)). pose proof (Z.mod_pos_bound maxbit 8 ltac:(lia)). lia. Qed.

Lemma refines_bitfield c a key args read_only : db_is c a ->
  refines c (bitfieldGeneric proto_max_bulk_len false c key args read_only) (spec_bitfield proto_max_bulk_len false a key args read_only).
Proof using Hlim.
  intros Hc. unfold bitfieldGeneric, spec_bitfield. destruct (parse_ops _ _ _ _) as [e|ops] eqn:Ep; [by apply refines_breply|]. apply parse_ops_wf in Ep as Hwf.
  destruct (existsb is_write ops) eqn:Ew; cbn [negb].
  - destruct read_only; [by apply refines_breply|]. pose proof (bl_min _ Hlim). destruct (highest_write ops 0 Hwf) as (Ha & Hb & Hf); [lia|change (0 / 8) with 0; lia|].
    change (foldl _ 0 ops) with (highest_write_offset ops) in Ha, Hb, Hf. destruct (lookup_write_spec _ Hlim c a key _ Hc Ha Hb) as [[Ea ->]|(l & s & dirty & Eon & -> & Hs)]; cbn [mbind res_bind].
    { unfold on_string. rewrite Ea. by apply refines_breply. }
    rewrite Eon. destruct (run_writes_spec ops s _ Hs Hwf) as (s' & -> & Hs').
    { apply (Forall_impl _ _ _ Hf). intros op Hlast Hw. specialize (Hlast Hw). pose proof (length_grow_to (highest_write_offset ops) l Ha). lia. }
    cbn [mbind res_bind]. destruct (spec_ops _ ops) as [l' rs]. cbn [fst snd] in *. eexists. split; [reflexivity|]. split; [done|]. by apply (bdb_store _ (BClient _ _)).
  - pose proof (db_at _ c a key Hc) as Hk. unfold on_string. destruct (a !! key) as [[l|]|] eqn:Ea.
    + destruct Hk as (v & Ev & Hv & Hr). rewrite Ev. destruct (run_reads_spec ops (Some v) l ltac:(done) Hwf Ew) as [E _].
      destruct v as [s|n|]; [| |done]; rewrite E; cbn [mbind res_bind]; eexists; (split; [reflexivity|]); (split; [done|]); [|exact Hc].
      rewrite <- (insert_id a key (Some l)) by done. by apply (bdb_store _ (BClient _ _)).
    + rewrite Hk. by apply refines_breply.
    + rewrite Hk. destruct (run_reads_spec ops None [] ltac:(done) Hwf Ew) as [-> _]. cbn [mbind res_bind]. eexists. split; [reflexivity|]. by split.
Qed.
End Field.
