(* ===== verification/BitopsRange.v ===== *)
(** * Bits in a range

    BITCOUNT and BITPOS refine their specification.  A range of bits is a range of
    bytes whose first and last byte are masked. *)
From stdpp Require Import gmap strings.
From S2P Require Import Prelude Mem NumStr Bitops BitString BitSearch BitField BitopsCommand BitopsSpec BitopsRefine.

Local Open Scope Z_scope.

(** ** Ranges *)

Definition first_mask (r : nat) : Z := Z.land (Z.lnot (Z.shiftl 1 (8 - Z.of_nat r) - 1)) 0xFF.
Definition last_mask (t : nat) : Z := u8 (Z.shiftl 1 (7 - Z.of_nat t) - 1).

Lemma convert_range_eq totlen start stop : 0 <= totlen ->
  convert_range totlen start stop = (Z.max 0 (if start <? 0 then totlen + start else start), Z.min (totlen - 1) (Z.max 0 (if stop <? 0 then totlen + stop else stop))).
Proof.
  intros Ht. unfold convert_range. set (x := if start <? 0 then _ else _). set (y := if stop <? 0 then _ else _). f_equal.
  - destruct (Z.ltb_spec x 0); lia.
  - destruct (Z.ltb_spec y 0); destruct (Z.leb_spec totlen (if y <? 0 then 0 else y)); destruct (Z.ltb_spec y 0); try lia; destruct (Z.leb_spec totlen 0); destruct (Z.leb_spec totlen y); lia.
Qed.

(** The bytes and masks of a range of the bits [8 S + r] to [8 E + t]. *)
Lemma range_edges (strlen : nat) isbit s e : 0 <= s <= e -> e < (if isbit : bool then Z.shiftl (Z.of_nat strlen) 3 else Z.of_nat strlen) ->
  exists S E r t : nat, byte_range isbit s e = (Z.of_nat S, Z.of_nat E, first_mask r, last_mask t) /\ (r < 8)%nat /\ (t < 8)%nat /\ (S <= E < strlen)%nat /\ (8 * S + r <= 8 * E + t)%nat /\
    Z.to_nat ((if isbit then 1 else 8) * s) = (8 * S + r)%nat /\ Z.to_nat ((if isbit then 1 else 8) * (e + 1 - s)) = (8 * E + t + 1 - (8 * S + r))%nat /\ (isbit = false -> t = 7%nat).
Proof.
  intros Hs He. unfold byte_range. destruct isbit; cbn [andb].
  - rewrite (proj2 (Z.leb_le s e)) by lia. rewrite Z.shiftl_mul_pow2 in He by lia. assert (exists k : nat, s = Z.of_nat k) as [k ->] by (exists (Z.to_nat s); lia). assert (exists j : nat, e = Z.of_nat j) as [j ->] by (exists (Z.to_nat e); lia).
    destruct (bit_index k) as [-> ->], (bit_index j) as [-> ->]. pose proof (Nat.div_mod_eq k 8). pose proof (Nat.div_mod_eq j 8). pose proof (Nat.mod_upper_bound k 8 ltac:(lia)). pose proof (Nat.mod_upper_bound j 8 ltac:(lia)).
    exists (k `div` 8)%nat, (j `div` 8)%nat, (k `mod` 8)%nat, (j `mod` 8)%nat. split; [done|]. split_and!; (done || lia).
  - exists (Z.to_nat s), (Z.to_nat e), 0%nat, 7%nat. split; [do 3 f_equal; lia|]. split_and!; lia.
Qed.

(** ** Masks *)

Lemma first_mask_zero r : (r < 8)%nat -> (first_mask r =? 0) = bool_decide (r = 0%nat).
Proof. intros Hr. do 8 (destruct r as [|r]; [done|]). lia. Qed.
Lemma last_mask_zero t : (t < 8)%nat -> (last_mask t =? 0) = bool_decide (t = 7%nat).
Proof. intros Ht. do 8 (destruct t as [|t]; [done|]). lia. Qed.

Lemma bits_eqb (l1 l2 : list bool) : bool_decide (l1 = l2) = true -> l1 = l2.
Proof. by intros ?%bool_decide_eq_true. Qed.

Lemma first_mask_ones b r : is_byte b -> (r < 8)%nat -> is_byte (Z.land b (first_mask r)) /\ ones (byte_bits (Z.land b (first_mask r))) = ones (take r (byte_bits b)).
Proof.
  intros Hb Hr. pose proof (all_bytes (fun b => forallb (fun r => let x := Z.land b (first_mask r) in (0 <=? x) && (x <? 256) && (ones (byte_bits x) =? ones (take r (byte_bits b)))) (seq 0 8)) b ltac:(by vm_compute) Hb) as E.
  cbv beta in E. rewrite forallb_forall in E. specialize (E r ltac:(apply List.in_seq; lia)). rewrite !andb_true_iff, Z.leb_le, Z.ltb_lt, Z.eqb_eq in E. by destruct E as [[? ?] ?].
Qed.

Lemma last_mask_ones b t : is_byte b -> (t < 8)%nat -> is_byte (Z.land b (last_mask t)) /\ ones (byte_bits (Z.land b (last_mask t))) = ones (drop (S t) (byte_bits b)).
Proof.
  intros Hb Ht. pose proof (all_bytes (fun b => forallb (fun r => let x := Z.land b (last_mask r) in (0 <=? x) && (x <? 256) && (ones (byte_bits x) =? ones (drop (S r) (byte_bits b)))) (seq 0 8)) b ltac:(by vm_compute) Hb) as E.
  cbv beta in E. rewrite forallb_forall in E. specialize (E t ltac:(apply List.in_seq; lia)). rewrite !andb_true_iff, Z.leb_le, Z.ltb_lt, Z.eqb_eq in E. by destruct E as [[? ?] ?].
Qed.

(** The bits that are masked out are not those that are searched. *)
Lemma mask_out_first bit b r : is_byte b -> (r < 8)%nat -> is_byte (mask_out bit b (first_mask r)) /\ byte_bits (mask_out bit b (first_mask r)) = replicate r (negb bit) ++ drop r (byte_bits b).
Proof.
  intros Hb Hr. pose proof (all_bytes (fun b => forallb (fun r => let x := mask_out bit b (first_mask r) in (0 <=? x) && (x <? 256) && bool_decide (byte_bits x = replicate r (negb bit) ++ drop r (byte_bits b))) (seq 0 8)) b
    ltac:(by destruct bit; vm_compute) Hb) as E.
  cbv beta in E. rewrite forallb_forall in E. specialize (E r ltac:(apply List.in_seq; lia)). rewrite !andb_true_iff, Z.leb_le, Z.ltb_lt, bool_decide_eq_true in E. by destruct E as [[? ?] ?].
Qed.

Lemma mask_out_last bit b t : is_byte b -> (t < 8)%nat -> is_byte (mask_out bit b (last_mask t)) /\ byte_bits (mask_out bit b (last_mask t)) = take (S t) (byte_bits b) ++ replicate (7 - t) (negb bit).
Proof.
  intros Hb Ht. pose proof (all_bytes (fun b => forallb (fun r => let x := mask_out bit b (last_mask r) in (0 <=? x) && (x <? 256) && bool_decide (byte_bits x = take (S r) (byte_bits b) ++ replicate (7 - r) (negb bit))) (seq 0 8)) b
    ltac:(by destruct bit; vm_compute) Hb) as E.
  cbv beta in E. rewrite forallb_forall in E. specialize (E t ltac:(apply List.in_seq; lia)). rewrite !andb_true_iff, Z.leb_le, Z.ltb_lt, bool_decide_eq_true in E. by destruct E as [[? ?] ?].
Qed.

(** ** Bits of a byte of a string *)

Lemma sub_byte s (k i n : nat) b : s !! k = Some b -> (i + n <= 8)%nat -> sub (8 * k + i) n (bits_of s) = sub i n (byte_bits b).
Proof.
  intros Hb Hi. rewrite <- (take_drop_middle s k b Hb), bits_of_app, bits_of_cons. pose proof (lookup_lt_Some _ _ _ Hb).
  rewrite sub_app_r by (rewrite length_bits_of, length_take; lia). rewrite length_bits_of, length_take. replace (8 * k + i - 8 * min k (length s))%nat with i by lia.
  apply sub_app_l. cbn. lia.
Qed.

Lemma ones_edges s (S E r t : nat) b b' : s !! S = Some b -> s !! E = Some b' -> (r < 8)%nat -> (t < 8)%nat -> (8 * S + r <= 8 * E + t)%nat -> (S <= E)%nat ->
  ones (bits_of (sub S (E - S + 1) s)) = ones (take r (byte_bits b)) + ones (sub (8 * S + r) (8 * E + t + 1 - (8 * S + r)) (bits_of s)) + ones (drop (Datatypes.S t) (byte_bits b')).
Proof.
  intros Hb Hb' Hr Ht Hle HSE. rewrite bits_of_sub. replace (8 * (E - S + 1))%nat with (r + ((8 * E + t + 1 - (8 * S + r)) + (7 - t)))%nat by lia. rewrite !sub_split, !ones_app.
  rewrite <- (Nat.add_0_r (8 * S)) at 1. rewrite (sub_byte s S 0 r b Hb) by lia. replace (8 * S + r + (8 * E + t + 1 - (8 * S + r)))%nat with (8 * E + (Datatypes.S t))%nat by lia.
  rewrite (sub_byte s E (Datatypes.S t) (7 - t) b' Hb') by lia. unfold sub at 1 3. rewrite drop_0. rewrite (take_ge (drop _ _)); [lia|]. rewrite length_drop. cbn. lia.
Qed.

Section Range.
Context `{Heap} (proto_max_bulk_len : Z) (address : list Z -> Z).
Hypothesis Hlim : bit_limits proto_max_bulk_len.
Local Abbreviation db_is := (bdb_repr proto_max_bulk_len).
Local Abbreviation refines := (bit_refines proto_max_bulk_len).

(** ** BITCOUNT *)

(** The count of a range that is not empty. *)
Lemma count_range s (S E r t : nat) : bytes s -> (S <= E < length s)%nat -> (r < 8)%nat -> (t < 8)%nat -> (8 * S + r <= 8 * E + t)%nat ->
  count_in address s (Z.of_nat S) (Z.of_nat E) (first_mask r) (last_mask t) = Ret (ones (sub (8 * S + r) (8 * E + t + 1 - (8 * S + r)) (bits_of s))).
Proof.
  intros Hb HSE Hr Ht Hle. unfold count_in. rewrite (proj2 (Z.ltb_ge (Z.of_nat E) (Z.of_nat S))) by lia. destruct (byte_in s S Hb) as (b & Hbs & Hbb); [lia|]. destruct (byte_in s E Hb) as (b' & Hbs' & Hbb'); [lia|].
  replace (Z.of_nat E - Z.of_nat S + 1) with (Z.of_nat (E - S + 1)) by lia. rewrite redisPopcount_spec by (done || lia). cbn [mbind res_bind].
  rewrite (ones_edges s S E r t b b') by (done || lia). set (x := ones (sub _ _ (bits_of s))).
  destruct (first_mask_ones b r Hbb Hr) as [Hf1 Hf2], (last_mask_ones b' t Hbb' Ht) as [Hl1 Hl2].
  assert ((if negb (first_mask r =? 0) then b ← aget s (Z.of_nat S); Ret (Z.land b (first_mask r)) else Ret 0) = Ret (Z.land b (first_mask r))) as ->.
  { destruct (Z.eqb_spec (first_mask r) 0) as [->|]; cbn [negb]; [by rewrite Z.land_0_r|]. by rewrite (aget_in _ _ _ Hbs). }
  assert ((if negb (last_mask t =? 0) then b ← aget s (Z.of_nat E); Ret (Z.land b (last_mask t)) else Ret 0) = Ret (Z.land b' (last_mask t))) as ->.
  { destruct (Z.eqb_spec (last_mask t) 0) as [->|]; cbn [negb]; [by rewrite Z.land_0_r|]. by rewrite (aget_in _ _ _ Hbs'). }
  cbn [mbind res_bind]. set (l := [Z.land b (first_mask r); Z.land b' (last_mask t)]). assert (bytes l) as Hl by (apply Forall_cons_2; [done|]; apply Forall_cons_2; [done|apply Forall_nil_2]).
  rewrite (redisPopcount_spec (address l) l 0 2 Hl ltac:(done) : redisPopcount _ _ 0 2 = _). cbn [mbind res_bind].
  assert (ones (bits_of (sub 0 2 l)) = ones (take r (byte_bits b)) + ones (drop (Datatypes.S t) (byte_bits b'))) as ->.
  { unfold l, sub. cbn [take drop]. rewrite !bits_of_cons, !ones_app, Hf2, Hl2. unfold ones at 3. cbn. lia. }
  destruct (_ || _) eqn:Em; [f_equal; lia|]. rewrite orb_false_iff, !negb_false_iff, first_mask_zero, last_mask_zero, !bool_decide_eq_true in Em by done. destruct Em as [-> ->].
  f_equal. rewrite take_0. assert (drop 8 (byte_bits b') = []) as -> by done. change (ones []) with 0. lia.
Qed.

(** The total in the unit of a range, and the units of a string. *)
Definition range_total (s : list Z) (isbit : bool) : Z := if isbit then Z.shiftl (Z.of_nat (length s)) 3 else Z.of_nat (length s).

Lemma range_total_eq s isbit : range_total s isbit = Z.of_nat (length (bits_of s)) / (if isbit then 1 else 8).
Proof.
  unfold range_total. rewrite length_bits_of. destruct isbit; [rewrite Z.shiftl_mul_pow2, Z.div_1_r by lia; lia|]. rewrite Nat2Z.inj_mul, Z.mul_comm, Z.div_mul by lia. done.
Qed.

Lemma count_units s isbit s1 e1 : bytes s -> 0 <= s1 -> e1 < range_total s isbit ->
  (let '(start, stop, first, last) := byte_range isbit s1 e1 in count_in address s start stop first last)
  = Ret (ones (sub (Z.to_nat ((if isbit then 1 else 8) * s1)) (Z.to_nat ((if isbit then 1 else 8) * (e1 + 1 - s1))) (bits_of s))).
Proof.
  intros Hb Hs He. destruct (decide (s1 <= e1)) as [Hle|Hgt].
  - destruct (range_edges (length s) isbit s1 e1) as (S & E & r & t & -> & Hr & Ht & HSE & Hrt & -> & -> & _); [lia|done|]. by apply count_range.
  - unfold byte_range. rewrite (proj2 (Z.leb_gt s1 e1)), andb_false_r by lia. unfold count_in. rewrite (proj2 (Z.ltb_lt e1 s1)) by lia. by replace (Z.to_nat (_ * (e1 + 1 - s1))) with 0%nat by (destruct isbit; lia).
Qed.

(** A string that is read, whose length does not overflow in bits. *)
Lemma length_assert s l : string_is proto_max_bulk_len s l -> (Z.of_nat (length s) <=? Z.shiftr LLONG_MAX 3) = true.
Proof using Hlim.
  intros (_ & _ & Hf). unfold fits_limit in Hf. pose proof (bl_max _ Hlim). apply Z.leb_le. change (Z.shiftr LLONG_MAX 3) with (2 ^ 60 - 1). lia.
Qed.

(** The bits of a range in terms of its units. *)
Lemma bit_range_eq s isbit start stop : let '(s1, e1) := convert_range (range_total s isbit) start stop in
  bit_range (bits_of s) isbit start stop = (Z.to_nat ((if isbit then 1 else 8) * s1), Z.to_nat ((if isbit then 1 else 8) * (e1 + 1 - s1))) /\ 0 <= s1 /\ e1 < range_total s isbit.
Proof.
  assert (0 <= range_total s isbit) as Ht by (unfold range_total; rewrite Z.shiftl_mul_pow2 by lia; destruct isbit; lia). rewrite convert_range_eq by done.
  unfold bit_range. rewrite <- range_total_eq. split; [done|]. lia.
Qed.

Lemma count_converted s isbit start stop : bytes s ->
  (let '(s1, e1) := convert_range (range_total s isbit) start stop in let '(start, stop, first, last) := byte_range isbit s1 e1 in count_in address s start stop first last)
  = Ret (let '(lo, n) := bit_range (bits_of s) isbit start stop in ones (sub lo n (bits_of s))).
Proof.
  intros Hb. pose proof (bit_range_eq s isbit start stop) as E. destruct (convert_range _ _ _) as [s1 e1]. destruct E as (-> & Hs & He). by apply count_units.
Qed.

Lemma count_reply_spec c s l args : string_is proto_max_bulk_len s l ->
  (r ← bitcount_range (Z.of_nat (length s)) args;
   match r with inl r => Ret (breply_to c r) | inr (start, stop, first, last) => count ← count_in address s start stop first last; Ret (breply_to c (BReplyLongLong count)) end)
  = Ret (breply_to c (count_reply l args)).
Proof using Hlim.
  intros Hs. pose proof (length_assert s l Hs) as Hlen. destruct Hs as (Hb & <- & _). unfold bitcount_range, count_reply.
  assert (forall first last isbit, (r ← (_ ← assert (Z.of_nat (length s) <=? Z.shiftr LLONG_MAX 3);
      match string2ll first with
      | None => Ret (inl (BReplyError BErrNotInteger))
      | Some start =>
          match string2ll last with
          | None => Ret (inl (BReplyError BErrNotInteger))
          | Some stop =>
              if (start <? 0) && (stop <? 0) && (stop <? start) then Ret (inl (BReplyLongLong 0)) else
              match isbit with
              | None => Ret (inl (BReplyError BErrSyntax))
              | Some isbit => let '(start, stop) := convert_range (range_total s isbit) start stop in Ret (inr (byte_range isbit start stop))
              end
          end
      end);
    match r with inl r => Ret (breply_to c r) | inr (start, stop, first, last) => count ← count_in address s start stop first last; Ret (breply_to c (BReplyLongLong count)) end) =
    Ret (breply_to c (match string2ll first, string2ll last with
      | Some start, Some stop =>
          if (start <? 0) && (stop <? 0) && (stop <? start) then BReplyLongLong 0 else
          match isbit with None => BReplyError BErrSyntax | Some isbit => let '(lo, n) := bit_range (bits_of s) isbit start stop in BReplyLongLong (ones (sub lo n (bits_of s))) end
      | _, _ => BReplyError BErrNotInteger end))) as Hrange.
  { intros first last isbit. rewrite Hlen. cbn [assert mbind res_bind]. destruct (string2ll first) as [start|]; [|done]. destruct (string2ll last) as [stop|]; [|done]. destruct (_ && _); [done|]. destruct isbit as [isbit|]; [|done].
    pose proof (count_converted s isbit start stop Hb) as E. destruct (convert_range _ _ _) as [s1 e1]. cbn [mbind res_bind]. destruct (byte_range isbit s1 e1) as [[[S E'] m1] m2]. rewrite E. cbn [mbind res_bind].
    by destruct (bit_range _ _ _ _). }
  destruct args as [|first [|last [|o [|o' args]]]]; [|done|apply (Hrange first last (Some false))|apply (Hrange first last (parse_unit o))|done].
  cbn [mbind res_bind]. pose proof (count_units s false 0 (Z.of_nat (length s) - 1) Hb ltac:(lia) ltac:(cbn; lia)) as E. cbn [byte_range andb] in E. rewrite E. cbn [mbind res_bind]. do 4 f_equal.
  apply sub_all. rewrite length_bits_of. lia.
Qed.

Lemma refines_bitcount c a key args : db_is c a -> refines c (bitcountCommand address c key args) (spec_bitcount a key args).
Proof using Hlim.
  intros Hc. unfold bitcountCommand, spec_bitcount. pose proof (db_at _ c a key Hc) as Hk. destruct (a !! key) as [[l|]|]; [|rewrite Hk; by apply refines_breply..].
  destruct Hk as (v & -> & Hv & Hr). destruct (readonly_spec _ Hlim v l Hr) as (s & Es & Hs). pose proof (count_reply_spec c s l args Hs) as E.
  assert (refines c (Ret (breply_to c (count_reply l args))) (a, [count_reply l args])) as Hmain by (by apply refines_breply). rewrite <- E in Hmain.
  destruct v; [| |done]; rewrite Es; exact Hmain.
Qed.

(** ** BITPOS *)

(** What the search returns for the bits from [lo] on, up to the byte [E]: the first
    one that is found, or the end of the bytes. *)
Definition search_ok (bit : bool) (lo : nat) (bits : list bool) (E : nat) (r : Z * Z * Z) : Prop :=
  let '(start, bytes, pos) := r in
  match first_bit bit bits with
  | Some i => 0 <= pos < 8 * bytes /\ pos + 8 * start = Z.of_nat (lo + i)
  | None => pos = (if bit then -1 else 8 * bytes) /\ start + bytes = Z.of_nat E + 1 /\ 0 < bytes
  end.

(** The search in one byte. *)
Lemma search_byte x bit : is_byte x ->
  redisBitpos (address [x]) [x] 0 1 bit = Ret (match first_bit bit (byte_bits x) with Some i => Z.of_nat i | None => if bit then -1 else 8 end).
Proof.
  intros Hx. rewrite (redisBitpos_spec (address [x]) [x] 0 1 bit ltac:(by apply Forall_cons_2) ltac:(done) : redisBitpos _ _ 0 1 _ = _).
  unfold sub. cbn [take drop]. rewrite bits_of_cons. by rewrite app_nil_r.
Qed.

Lemma first_bit_skip bit n l : first_bit bit (replicate n (negb bit) ++ l) = Nat.add n <$> first_bit bit l.
Proof. by rewrite first_bit_app, first_bit_replicate, length_replicate. Qed.

Lemma first_bit_end bit n l : first_bit bit (l ++ replicate n (negb bit)) = first_bit bit l.
Proof. rewrite first_bit_app, first_bit_replicate. by destruct (first_bit bit l). Qed.

Section Search.
Context (s : list Z) (bit : bool) (E t : nat) (b' : Z).
Hypothesis (Hb : bytes s) (Hbs' : s !! E = Some b') (Ht : (t < 8)%nat).
Local Abbreviation last_byte := (fun start bytes : Z =>
  b ← aget s (Z.of_nat E);
  let tmpchar := mask_out bit b (last_mask t) in
  pos ← redisBitpos (address [tmpchar]) [tmpchar] 0 1 bit;
  Ret (start, bytes, pos)).

Lemma last_byte_spec : exists r, last_byte (Z.of_nat E) 1 = Ret r /\ search_ok bit (8 * E) (take (S t) (byte_bits b')) E r.
Proof using Hb Hbs' Ht.
  assert (is_byte b') as Hbb by (by apply (Forall_lookup_1 _ _ _ _ Hb Hbs')). destruct (mask_out_last bit b' t Hbb Ht) as [Hm Eb]. cbv beta. rewrite (aget_in _ _ _ Hbs'). cbn [mbind res_bind].
  rewrite search_byte by done. cbn [mbind res_bind]. rewrite Eb, first_bit_end. eexists. split; [reflexivity|]. unfold search_ok. pose proof (first_bit_lt bit (take (S t) (byte_bits b'))) as Hlt.
  destruct (first_bit bit _) as [i|]; [|by destruct bit; split_and!; lia]. specialize (Hlt i eq_refl). rewrite length_take in Hlt. change (length (byte_bits b')) with 8%nat in Hlt. lia.
Qed.

(** The bytes from [S] on, the last of which is masked. *)
Lemma middle_spec (S : nat) : (S <= E)%nat ->
  exists r, (let bytes := Z.of_nat E - Z.of_nat S + 1 in
    let curbytes := bytes - (if negb (last_mask t =? 0) then 1 else 0) in
    if 0 <? curbytes then
      pos ← redisBitpos (address s) s (Z.of_nat S) curbytes bit;
      if (bytes =? curbytes) || (negb (pos =? -1) && negb (pos =? Z.shiftl curbytes 3)) then Ret (Z.of_nat S, bytes, pos)
      else last_byte (Z.of_nat S + curbytes) (bytes - curbytes)
    else last_byte (Z.of_nat S) bytes) = Ret r /\ search_ok bit (8 * S) (sub (8 * S) (8 * E + t + 1 - 8 * S) (bits_of s)) E r.
Proof using Hb Hbs' Ht.
  intros HS. pose proof (lookup_lt_Some _ _ _ Hbs') as HE. destruct last_byte_spec as (rl & El & Hrl). cbv beta zeta in *.
  assert (sub (8 * S) (8 * E + t + 1 - 8 * S) (bits_of s) = bits_of (sub S (E - S) s) ++ take (Datatypes.S t) (byte_bits b')) as Esub.
  { replace (8 * E + t + 1 - 8 * S)%nat with (8 * (E - S) + (Datatypes.S t))%nat by lia. rewrite sub_split, bits_of_sub. f_equal. replace (8 * S + 8 * (E - S))%nat with (8 * E + 0)%nat by lia. by rewrite (sub_byte s E 0 (Datatypes.S t) b' Hbs') by lia. }
  rewrite last_mask_zero by done. destruct (decide (t = 7%nat)) as [->|Ht7].
  - rewrite bool_decide_eq_true_2 by done. cbn [negb]. rewrite Z.sub_0_r, Z.eqb_refl. rewrite (proj2 (Z.ltb_lt 0 _)) by lia. cbn [orb]. replace (Z.of_nat E - Z.of_nat S + 1) with (Z.of_nat (E - S + 1)) by lia.
    rewrite redisBitpos_spec by (done || lia). cbn [mbind res_bind]. eexists. split; [reflexivity|]. rewrite bits_of_sub. replace (8 * E + 7 + 1 - 8 * S)%nat with (8 * (E - S + 1))%nat by lia. unfold search_ok.
    set (bits := sub _ _ (bits_of s)). pose proof (first_bit_lt bit bits) as Hlt. unfold bits in Hlt at 2. rewrite length_sub in Hlt by (rewrite length_bits_of; lia).
    destruct (first_bit bit bits) as [i|]; [specialize (Hlt i eq_refl); lia|]. destruct bit; lia.
  - rewrite bool_decide_eq_false_2 by done. cbn [negb]. rewrite Esub. destruct (decide (S = E)) as [->|HSE].
    + rewrite (proj2 (Z.ltb_ge 0 _)) by lia. replace (Z.of_nat E - Z.of_nat E + 1) with 1 by lia. exists rl. split; [done|]. by replace (E - E)%nat with 0%nat by lia.
    + rewrite (proj2 (Z.ltb_lt 0 _)) by lia. replace (Z.of_nat E - Z.of_nat S + 1 - 1) with (Z.of_nat (E - S)) by lia. rewrite redisBitpos_spec by (done || lia). cbn [mbind res_bind].
      rewrite (proj2 (Z.eqb_neq _ (Z.of_nat (E - S)))) by lia. cbn [orb]. rewrite Z.shiftl_mul_pow2 by lia. change (2 ^ 3) with 8. unfold search_ok. rewrite first_bit_app.
      set (bits := bits_of (sub S (E - S) s)). assert (length bits = 8 * (E - S))%nat as Hlen by (unfold bits; rewrite length_bits_of, length_sub by lia; done).
      pose proof (first_bit_lt bit bits) as Hlt. destruct (first_bit bit bits) as [i|].
      * specialize (Hlt i eq_refl). rewrite (proj2 (Z.eqb_neq (Z.of_nat i) (-1))), (proj2 (Z.eqb_neq (Z.of_nat i) _)) by lia. cbn [negb andb]. eexists. split; [reflexivity|]. cbv beta iota. lia.
      * replace (negb ((if bit then -1 else 8 * Z.of_nat (E - S)) =? -1) && negb ((if bit then -1 else 8 * Z.of_nat (E - S)) =? Z.of_nat (E - S) * 8)) with false.
        2: { destruct bit; [done|]. rewrite (proj2 (Z.eqb_eq _ (Z.of_nat (E - S) * 8))) by lia. by rewrite andb_false_r. }
        replace (Z.of_nat S + Z.of_nat (E - S)) with (Z.of_nat E) by lia. replace (Z.of_nat E - Z.of_nat S + 1 - Z.of_nat (E - S)) with 1 by lia. exists rl. split; [exact El|]. rewrite Hlen.
        destruct rl as [[st by_] pos]. unfold search_ok in Hrl. destruct (first_bit bit (take _ _)) as [i|]; cbn [fmap option_fmap option_map]; [|done]. lia.
Qed.
End Search.

(** A byte that is masked at both ends. *)
Lemma mask_out_both bit b r t : is_byte b -> (r <= t < 8)%nat ->
  let x := mask_out bit (mask_out bit b (first_mask r)) (last_mask t) in
  is_byte x /\ first_bit bit (byte_bits x) = Nat.add r <$> first_bit bit (sub r (t + 1 - r) (byte_bits b)).
Proof.
  intros Hb Hrt x. destruct (mask_out_first bit b r Hb ltac:(lia)) as [Hm1 E1]. destruct (mask_out_last bit _ t Hm1 ltac:(lia)) as [Hm2 E2]. fold x in Hm2, E2. split; [done|].
  rewrite E2, first_bit_end, E1, take_app_ge, length_replicate by (rewrite length_replicate; lia). rewrite first_bit_skip. unfold sub. by replace (S t - r)%nat with (t + 1 - r)%nat by lia.
Qed.

Lemma bitpos_search_spec s bit (S E r t : nat) : bytes s -> (S <= E < length s)%nat -> (r < 8)%nat -> (t < 8)%nat -> (8 * S + r <= 8 * E + t)%nat ->
  exists res, bitpos_search address s bit (Z.of_nat S) (Z.of_nat E) (first_mask r) (last_mask t) = Ret res /\
    search_ok bit (8 * S + r) (sub (8 * S + r) (8 * E + t + 1 - (8 * S + r)) (bits_of s)) E res.
Proof.
  intros Hb HSE Hr Ht Hle. destruct (byte_in s E Hb) as (b' & Hbs' & Hbb'); [lia|]. destruct (byte_in s S Hb) as (b & Hbs & Hbb); [lia|]. unfold bitpos_search. rewrite first_mask_zero by done.
  destruct (decide (r = 0%nat)) as [->|Hr0].
  { rewrite bool_decide_eq_true_2 by done. cbn [negb]. rewrite !Nat.add_0_r. by apply (middle_spec s bit E t b'); [..|lia]. }
  rewrite bool_decide_eq_false_2 by done. cbn [negb]. rewrite (aget_in _ _ _ Hbs). cbn [mbind res_bind]. destruct (decide (S = E)) as [->|Hne].
  - replace (Z.of_nat E - Z.of_nat E + 1) with 1 by lia. cbn [Z.eqb Pos.eqb orb]. rewrite andb_true_r.
    replace (if negb (last_mask t =? 0) then mask_out bit (mask_out bit b (first_mask r)) (last_mask t) else mask_out bit b (first_mask r)) with (mask_out bit (mask_out bit b (first_mask r)) (last_mask t)).
    2: { destruct (Z.eqb_spec (last_mask t) 0) as [->|]; cbn [negb]; [|done]. set (x := mask_out _ b _). unfold mask_out. destruct bit; [apply Z.land_m1_r|apply Z.lor_0_r]. }
    destruct (mask_out_both bit b r t Hbb ltac:(lia)) as [Hm Eb]. rewrite search_byte by done. cbn [mbind res_bind]. rewrite Eb. eexists. split; [reflexivity|]. unfold search_ok.
    replace (8 * E + t + 1 - (8 * E + r))%nat with (t + 1 - r)%nat by lia. rewrite (sub_byte s E r (t + 1 - r) b Hbs) by lia. set (bits := sub r (t + 1 - r) (byte_bits b)).
    pose proof (first_bit_lt bit bits) as Hlt. unfold bits in Hlt at 2. rewrite length_sub in Hlt by (change (length (byte_bits b)) with 8%nat; lia).
    destruct (first_bit bit bits) as [i|]; cbn [fmap option_fmap option_map]; [specialize (Hlt i eq_refl); lia|]. destruct bit; lia.
  - rewrite (proj2 (Z.eqb_neq (Z.of_nat E - Z.of_nat S + 1) 1)) by lia. rewrite andb_false_r. cbn [orb]. destruct (mask_out_first bit b r Hbb Hr) as [Hm Eb]. rewrite search_byte by done. cbn [mbind res_bind].
    rewrite Eb, first_bit_skip. assert (sub (8 * S + r) (8 * E + t + 1 - (8 * S + r)) (bits_of s) = drop r (byte_bits b) ++ sub (8 * (S + 1)) (8 * E + t + 1 - 8 * (S + 1)) (bits_of s)) as ->.
    { replace (8 * E + t + 1 - (8 * S + r))%nat with ((8 - r) + (8 * E + t + 1 - 8 * (S + 1)))%nat by lia. rewrite sub_split, (sub_byte s S r (8 - r) b Hbs) by lia. unfold sub at 1. rewrite take_ge by (rewrite length_drop; cbn; lia).
      by replace (8 * S + r + (8 - r))%nat with (8 * (S + 1))%nat by lia. }
    pose proof (first_bit_lt bit (drop r (byte_bits b))) as Hlt. rewrite length_drop in Hlt. change (length (byte_bits b)) with 8%nat in Hlt. destruct (first_bit bit (drop r (byte_bits b))) as [i|] eqn:Ef; cbn [fmap option_fmap option_map].
    + specialize (Hlt i eq_refl). rewrite (proj2 (Z.eqb_neq _ (-1))), (proj2 (Z.eqb_neq _ 8)) by lia. cbn [negb andb]. eexists. split; [reflexivity|]. unfold search_ok. rewrite first_bit_app, Ef. lia.
    + replace (negb ((if bit then -1 else 8) =? -1) && negb ((if bit then -1 else 8) =? 8)) with false by (by destruct bit).
      destruct (middle_spec s bit E t b' Hb Hbs' Ht (S + 1)) as (res & Eres & Hres); [lia|]. exists res. cbv zeta in Eres. split.
      * rewrite <- Eres. replace (Z.of_nat S + 1) with (Z.of_nat (S + 1)) by lia. by replace (Z.of_nat E - Z.of_nat S + 1 - 1) with (Z.of_nat E - Z.of_nat (S + 1) + 1) by lia.
      * destruct res as [[st by_] pos]. unfold search_ok in *. rewrite first_bit_app, Ef, length_drop. change (length (byte_bits b)) with 8%nat. destruct (first_bit bit (sub _ _ _)) as [i|]; cbn [fmap option_fmap option_map]; [lia|done].
Qed.

(** The position for a range in units. *)
Lemma bitpos_units s bit isbit s1 e1 end_given : bytes s -> 0 <= s1 -> e1 < range_total s isbit -> (end_given = false -> isbit = false) ->
  (let '(start, stop, first, last) := byte_range isbit s1 e1 in bitpos_in address s bit start stop first last end_given)
  = Ret (spec_bitpos (bits_of s) bit (Z.to_nat ((if isbit then 1 else 8) * s1), Z.to_nat ((if isbit then 1 else 8) * (e1 + 1 - s1))) end_given).
Proof.
  intros Hb Hs He Hend. destruct (decide (s1 <= e1)) as [Hle|Hgt].
  - destruct (range_edges (length s) isbit s1 e1) as (S & E & r & t & -> & Hr & Ht & HSE & Hrt & -> & -> & H7); [lia|done|]. unfold bitpos_in. rewrite (proj2 (Z.ltb_ge (Z.of_nat E) (Z.of_nat S))) by lia.
    destruct (bitpos_search_spec s bit S E r t Hb HSE Hr Ht Hrt) as ([[st by_] pos] & -> & Hok). cbn [mbind res_bind]. unfold spec_bitpos, search_ok in *.
    destruct (8 * E + t + 1 - (8 * S + r))%nat as [|n'] eqn:En; [lia|]. rewrite !Z.shiftl_mul_pow2 by lia. change (2 ^ 3) with 8. destruct (first_bit bit _) as [i|].
    + rewrite (proj2 (Z.eqb_neq pos (by_ * 8))), andb_false_r by lia. rewrite (proj2 (Z.eqb_neq pos (-1))) by lia. cbn [negb]. f_equal. lia.
    + destruct Hok as (-> & Hsum & Hpos). destruct bit; cbn [negb orb]; [by rewrite andb_false_r|]. rewrite (proj2 (Z.eqb_eq (8 * by_) (by_ * 8))), !andb_true_r by lia. destruct end_given; [done|].
      rewrite (proj2 (Z.eqb_neq (8 * by_) (-1))) by lia. cbn [negb]. specialize (H7 (Hend eq_refl)). f_equal. lia.
  - unfold byte_range. rewrite (proj2 (Z.leb_gt s1 e1)), andb_false_r by lia. unfold bitpos_in. rewrite (proj2 (Z.ltb_lt e1 s1)) by lia. by replace (Z.to_nat (_ * (e1 + 1 - s1))) with 0%nat by (destruct isbit; lia).
Qed.

Lemma bitpos_converted s bit isbit start stop end_given : bytes s -> (end_given = false -> isbit = false) ->
  (let '(s1, e1) := convert_range (range_total s isbit) start stop in let '(start, stop, first, last) := byte_range isbit s1 e1 in bitpos_in address s bit start stop first last end_given)
  = Ret (spec_bitpos (bits_of s) bit (bit_range (bits_of s) isbit start stop) end_given).
Proof.
  intros Hb Hend. pose proof (bit_range_eq s isbit start stop) as E. destruct (convert_range _ _ _) as [s1 e1]. destruct E as (-> & Hs & He). by apply bitpos_units.
Qed.

(** The last byte is the last one. *)
Lemma bit_range_last s start : bit_range (bits_of s) false start (Z.of_nat (length s) - 1) = bit_range (bits_of s) false start (-1).
Proof.
  unfold bit_range. rewrite <- (range_total_eq s false). unfold range_total. set (n := Z.of_nat (length s)). assert (0 <= n) by lia. destruct (Z.ltb_spec (n - 1) 0); do 3 f_equal; lia.
Qed.

Lemma pos_reply_spec c s l bit args : string_is proto_max_bulk_len s l ->
  (r ← bitpos_range (Z.of_nat (length s)) args;
   match r with
   | inl e => Ret (breply_to c (BReplyError e))
   | inr (start, stop, first, last, end_given) => pos ← bitpos_in address s bit start stop first last end_given; Ret (breply_to c (BReplyLongLong pos))
   end) = Ret (breply_to c (pos_reply l bit args)).
Proof using Hlim.
  intros Hs. pose proof (length_assert s l Hs) as Hlen. destruct Hs as (Hb & <- & _). unfold bitpos_range, pos_reply.
  assert (forall isbit start stop end_given, (end_given = false -> isbit = false) ->
    (r ← (let '(start, stop) := convert_range (if isbit : bool then Z.shiftl (Z.of_nat (length s)) 3 else Z.of_nat (length s)) start stop in Ret (inr (byte_range isbit start stop, end_given)));
     match r with
     | inl e => Ret (breply_to c (BReplyError e))
     | inr (start, stop, first, last, end_given) => pos ← bitpos_in address s bit start stop first last end_given; Ret (breply_to c (BReplyLongLong pos))
     end) = Ret (breply_to c (BReplyLongLong (spec_bitpos (bits_of s) bit (bit_range (bits_of s) isbit start stop) end_given)))) as Hrange.
  { intros isbit start stop end_given Hend. pose proof (bitpos_converted s bit isbit start stop end_given Hb Hend) as E. unfold range_total in E. destruct (convert_range _ _ _) as [s1 e1]. cbn [mbind res_bind].
    destruct (byte_range isbit s1 e1) as [[[S E'] m1] m2]. rewrite E. done. }
  rewrite Hlen. cbn [assert mbind res_bind]. destruct args as [|first [|last [|o [|o' args]]]]; [| | | |done].
  - cbn [mbind res_bind]. pose proof (bitpos_units s bit false 0 (Z.of_nat (length s) - 1) false Hb ltac:(lia) ltac:(cbn; lia) ltac:(done)) as E. cbn [byte_range andb] in E. rewrite E. cbn [mbind res_bind].
    rewrite length_bits_of. do 5 f_equal. lia.
  - destruct (string2ll first) as [start|]; [|done]. rewrite <- bit_range_last. by apply (Hrange false start (Z.of_nat (length s) - 1) false).
  - destruct (string2ll first) as [start|]; [|done]. destruct (string2ll last) as [stop|]; [|done]. by apply (Hrange false start stop true).
  - destruct (string2ll first) as [start|]; [|done]. destruct (parse_unit o) as [isbit|]; [|done]. destruct (string2ll last) as [stop|]; [|done]. by apply (Hrange isbit start stop true).
Qed.

Lemma refines_bitpos c a key bitarg args : db_is c a -> refines c (bitposCommand address c key bitarg args) (spec_bitpos_command a key bitarg args).
Proof using Hlim.
  intros Hc. unfold bitposCommand, spec_bitpos_command. destruct (string2ll bitarg) as [x|]; [|by apply refines_breply].
  destruct (decide (x = 0 \/ x = 1)) as [Hx|Hx]; [rewrite (bool_decide_eq_true_2 _ Hx)|rewrite (bool_decide_eq_false_2 _ Hx)].
  2: { rewrite (proj2 (Z.eqb_neq x 0)), (proj2 (Z.eqb_neq x 1)) by lia. by apply refines_breply. }
  assert (negb (x =? 0) && negb (x =? 1) = false) as -> by (by destruct Hx as [-> | ->]). assert (negb (x =? 0) = bool_decide (x = 1)) as -> by (by destruct Hx as [-> | ->]).
  pose proof (db_at _ c a key Hc) as Hk. destruct (a !! key) as [[l|]|]; [|rewrite Hk; by apply refines_breply..].
  destruct Hk as (v & -> & Hv & Hr). destruct (readonly_spec _ Hlim v l Hr) as (s & Es & Hs). pose proof (pos_reply_spec c s l (bool_decide (x = 1)) args Hs) as E.
  assert (refines c (Ret (breply_to c (pos_reply l (bool_decide (x = 1)) args))) (a, [pos_reply l (bool_decide (x = 1)) args])) as Hmain by (by apply refines_breply). rewrite <- E in Hmain.
  destruct v; [| |done]; rewrite Es; exact Hmain.
Qed.
End Range.
