(* ===== verification/BitopsOp.v ===== *)
(** * Combining strings

    BITOP refines its specification: the fast path, which combines four words at a
    time as far as all strings have data, and the loop over bytes, which stops early
    when an operand cannot change the result, compute the same bits. *)
From stdpp Require Import gmap strings.
From S2P Require Import Prelude Mem NumStr Bitops BitString BitSearch BitField BitopsCommand BitopsSpec BitopsRefine.

Local Open Scope Z_scope.

(** ** Operations on bytes *)

Definition byte_or_zero (s : list Z) (j : nat) : Z := default 0 (s !! j).

(** The result at a byte, from the byte of the first string. *)
Definition combine_byte (op : bitop) (others : list (list Z)) (j : nat) (x : Z) : Z :=
  foldl (fun x s => bitop_apply op x (byte_or_zero s j)) (match op with BITOP_NOT => u8 (Z.lnot x) | _ => x end) others.

Lemma testbit_apply op x y i : Z.testbit (bitop_apply op x y) i = op_bool op (Z.testbit x i) (Z.testbit y i).
Proof. destruct op; [apply Z.land_spec|apply Z.lor_spec|apply Z.lxor_spec|done]. Qed.

Lemma apply_byte op x y : is_byte x -> is_byte y -> is_byte (bitop_apply op x y).
Proof.
  intros Hx Hy. apply (bits_range _ 8); [done|]. intros i Hi. rewrite testbit_apply, (testbit_high x 8), (testbit_high y 8) by done. by destruct op.
Qed.

Lemma byte_or_zero_byte s j : bytes s -> is_byte (byte_or_zero s j).
Proof. intros Hs. unfold byte_or_zero. destruct (s !! j) as [b|] eqn:E; [|done]. by apply (Forall_lookup_1 _ _ _ _ Hs E). Qed.

Lemma not_byte x : is_byte x -> u8 (Z.lnot x) = 255 - x.
Proof. unfold is_byte, Z.lnot, uwrap. intros Hx. replace (Z.pred (- x)) with ((255 - x) + (-1) * 2 ^ 8) by lia. rewrite Z.mod_add, Z.mod_small by lia. done. Qed.

Lemma fold_byte op others j x : Forall bytes others -> is_byte x -> is_byte (foldl (fun x s => bitop_apply op x (byte_or_zero s j)) x others).
Proof. intros Ho. revert x. induction Ho as [|s others Hs Ho IH]; intros x Hx; cbn [foldl]; [done|]. apply IH, apply_byte; [done|]. by apply byte_or_zero_byte. Qed.

Lemma start_byte op x : is_byte x -> is_byte (match op with BITOP_NOT => u8 (Z.lnot x) | _ => x end).
Proof. intros Hx. destruct op; try done. rewrite not_byte by done. unfold is_byte in *. lia. Qed.

Lemma combine_byte_byte op others j x : Forall bytes others -> is_byte x -> is_byte (combine_byte op others j x).
Proof. intros Ho Hx. apply fold_byte; [done|]. by apply start_byte. Qed.

(** ** The loop over bytes *)

Lemma read_byte s (j : nat) : (if Z.of_nat (length s) <=? Z.of_nat j then Ret 0 else aget s (Z.of_nat j)) = Ret (byte_or_zero s j).
Proof.
  unfold byte_or_zero. destruct (Z.leb_spec (Z.of_nat (length s)) (Z.of_nat j)); [by rewrite lookup_ge_None_2 by lia|].
  destruct (lookup_lt_is_Some_2 s j) as [b Hb]; [lia|]. by rewrite (aget_in _ _ _ Hb), Hb.
Qed.

(** Nothing changes any more. *)
Lemma fold_absorbs op others j x : Forall bytes others -> op = BITOP_AND /\ x = 0 \/ op = BITOP_OR /\ x = 255 -> foldl (fun x s => bitop_apply op x (byte_or_zero s j)) x others = x.
Proof.
  intros Ho Hx. induction Ho as [|s others Hs Ho IH]; cbn [foldl]; [done|]. assert (bitop_apply op x (byte_or_zero s j) = x) as ->; [|done].
  pose proof (byte_or_zero_byte s j Hs) as Hb. destruct Hx as [[-> ->]|[-> ->]]; cbn [bitop_apply]; [done|]. apply (bits_eq 8); [by apply (apply_byte BITOP_OR 255)|done|].
  intros i Hi. rewrite Z.lor_spec. change 255 with (Z.ones 8). by rewrite Z.ones_spec_low by lia.
Qed.

Lemma bitop_byte_spec op others (j : nat) x : Forall bytes others -> is_byte x -> bitop_byte op others (Z.of_nat j) x = Ret (foldl (fun x s => bitop_apply op x (byte_or_zero s j)) x others).
Proof.
  intros Ho. revert x. induction Ho as [|s others Hs Ho IH]; intros x Hx; cbn [bitop_byte foldl]; [done|]. rewrite read_byte. cbn [mbind res_bind]. set (y := bitop_apply op x (byte_or_zero s j)).
  assert (is_byte y) as Hy by (apply apply_byte; [done|by apply byte_or_zero_byte]). destruct op; try by apply IH.
  - destruct (Z.eqb_spec y 0) as [E|]; [|by apply IH]. by rewrite fold_absorbs by (done || by left).
  - destruct (Z.eqb_spec y 255) as [E|]; [|by apply IH]. by rewrite fold_absorbs by (done || by right).
Qed.

Lemma bitop_loop_spec n op src others result (j : nat) : bytes src -> Forall bytes others -> length result = (j + n)%nat ->
  bitop_loop n op src others result (Z.of_nat j) = Ret (take j result ++ map (fun i => combine_byte op others i (byte_or_zero src i)) (seq j n)).
Proof.
  intros Hs Ho. revert result j. induction n as [|n IH]; intros result j Hl; cbn [bitop_loop seq map]; [by rewrite app_nil_r, take_ge by lia|].
  rewrite read_byte. cbn [mbind res_bind]. pose proof (byte_or_zero_byte src j Hs) as Hb.
  rewrite bitop_byte_spec by (try apply start_byte; done). cbn [mbind res_bind]. fold (combine_byte op others j (byte_or_zero src j)). set (x := combine_byte _ _ _ _).
  rewrite aset_in by lia. cbn [mbind res_bind]. replace (Z.of_nat j + 1) with (Z.of_nat (S j)) by lia. rewrite IH by (rewrite length_insert; lia). f_equal.
  rewrite (take_S_r _ _ x) by (apply list_lookup_insert_eq; lia). rewrite take_insert_ge by lia. by rewrite <- app_assoc.
Qed.

(** ** The fast path *)

Lemma apply_cons op a b x y : is_byte a -> is_byte b -> bitop_apply op (a + 256 * x) (b + 256 * y) = bitop_apply op a b + 256 * bitop_apply op x y.
Proof.
  intros Ha Hb. apply Z.bits_inj'. intros i Hi. rewrite testbit_apply, !testbit_byte_cons by (try apply apply_byte; done). destruct (i <? 8); by rewrite testbit_apply.
Qed.

Lemma apply_words op l1 l2 : bytes l1 -> bytes l2 -> length l1 = length l2 -> bitop_apply op (le_combine l1) (le_combine l2) = le_combine (zip_with (bitop_apply op) l1 l2).
Proof.
  intros H1. revert l2. induction H1 as [|a l1 Ha H1 IH]; intros l2 H2 E; destruct H2 as [|b l2 Hb H2]; try done; [by destruct op|]. cbn [le_combine zip_with]. rewrite apply_cons by done. rewrite IH; [done..|by injection E].
Qed.

Lemma apply_bytes op l1 l2 : bytes l1 -> bytes l2 -> bytes (zip_with (bitop_apply op) l1 l2).
Proof. intros H1. revert l2. induction H1 as [|a l1 Ha H1 IH]; intros l2 H2; destruct H2 as [|b l2 Hb H2]; try done. cbn [zip_with]. constructor; [by apply apply_byte|by apply IH]. Qed.

Lemma not_words l : bytes l -> 256 ^ Z.of_nat (length l) - 1 - le_combine l = le_combine (map (fun x => u8 (Z.lnot x)) l).
Proof.
  induction 1 as [|b l Hb Hl IH]; [done|]. cbn [le_combine length map]. rewrite <- IH, not_byte, Nat2Z.inj_succ, Z.pow_succ_r by (done || lia). lia.
Qed.

(** The bytes from [lo] to [hi] are changed by [f]. *)
Definition updated (f : nat -> Z -> Z) (lo hi : nat) (r r' : list Z) : Prop :=
  length r' = length r /\ bytes r' /\ forall i, r' !! i = (fun b => if decide (lo <= i < hi)%nat then f i b else b) <$> r !! i.

Lemma updated_nothing f lo r : bytes r -> updated f lo lo r r.
Proof. intros Hr. split; [done|]. split; [done|]. intros i. destruct (r !! i); cbn; [|done]. by destruct (decide _); [lia|]. Qed.

Lemma updated_seq f lo mid hi r1 r2 r3 : (lo <= mid <= hi)%nat -> updated f lo mid r1 r2 -> updated f mid hi r2 r3 -> updated f lo hi r1 r3.
Proof.
  intros Hm (L1 & _ & E1) (L2 & B2 & E2). split; [by rewrite L2|]. split; [done|]. intros i. rewrite E2, E1. destruct (r1 !! i); cbn; [|done]. f_equal. repeat case_decide; (done || lia).
Qed.

Lemma updated_after f g h lo hi r1 r2 r3 : (forall i b, h i b = g i (f i b)) -> updated f lo hi r1 r2 -> updated g lo hi r2 r3 -> updated h lo hi r1 r3.
Proof.
  intros Hh (L1 & _ & E1) (L2 & B2 & E2). split; [by rewrite L2|]. split; [done|]. intros i. rewrite E2, E1. destruct (r1 !! i); cbn; [|done]. f_equal. by case_decide.
Qed.

Lemma updated_ext f g lo hi r r' : (forall i b, f i b = g i b) -> updated f lo hi r r' -> updated g lo hi r r'.
Proof. intros E (L & B & H). split; [done|]. split; [done|]. intros i. rewrite H. destruct (r !! i); cbn; [|done]. by rewrite E. Qed.

(** A word is stored that has the bytes [l]. *)
Lemma store_word f (q : nat) l r : bytes r -> bytes l -> length l = 8%nat -> (q + 8 <= length r)%nat ->
  (forall i b, (i < 8)%nat -> r !! (q + i)%nat = Some b -> l !! i = Some (f (q + i)%nat b)) ->
  exists r', store 8 (Z.of_nat q) (le_combine l) r = Ret r' /\ updated f q (q + 8) r r'.
Proof.
  intros Hr Hl H8 Hq Hf. exists (patch q l r). split.
  { rewrite (store_Ret 8 q _ r Hq : store 8 _ _ _ = _). do 2 f_equal. rewrite <- H8. by apply le_split_combine. }
  split; [apply length_patch; lia|]. split; [by apply patch_bytes|]. intros i. rewrite lookup_patch by lia. rewrite H8. destruct (decide (q <= i < q + 8)%nat) as [Hin|Hout].
  - destruct (lookup_lt_is_Some_2 r i) as [b Hb]; [lia|]. rewrite Hb. cbn. rewrite (Hf (i - q)%nat b) by (try replace (q + (i - q))%nat with i by lia; (done || lia)). by replace (q + (i - q))%nat with i by lia.
  - by destruct (r !! i).
Qed.

Lemma load_word8 (q : nat) m : (q + 8 <= length m)%nat -> load 8 (Z.of_nat q) m = Ret (le_combine (sub q 8 m)).
Proof. exact (load_Ret 8 q m). Qed.

Lemma word_op_spec op r src (j k : nat) : bytes r -> bytes src -> (j + 8 * k + 8 <= length r)%nat -> (j + 8 * k + 8 <= length src)%nat ->
  exists r', word_op op r src (Z.of_nat j) (Z.of_nat k) = Ret r' /\ updated (fun i b => bitop_apply op b (byte_or_zero src i)) (j + 8 * k) (j + 8 * k + 8) r r'.
Proof.
  intros Hr Hs Hlr Hls. unfold word_op. replace (Z.of_nat j + 8 * Z.of_nat k) with (Z.of_nat (j + 8 * k)) by lia. set (q := (j + 8 * k)%nat) in *. rewrite !load_word8 by done. cbn [mbind res_bind].
  assert (length (sub q 8 r) = 8%nat) as L1 by (by apply length_sub). assert (length (sub q 8 src) = 8%nat) as L2 by (by apply length_sub).
  rewrite apply_words by (try apply sub_bytes; (done || lia)). apply store_word; [done| |by rewrite length_zip_with, L1, L2|done|].
  - by apply apply_bytes; apply sub_bytes.
  - intros i b Hi Hb. unfold sub. rewrite lookup_zip_with, !lookup_take_lt, !lookup_drop, Hb by done. unfold byte_or_zero. destruct (lookup_lt_is_Some_2 src (q + i)) as [y Hy]; [lia|]. by rewrite Hy.
Qed.

Lemma word_not_spec r (j k : nat) : bytes r -> (j + 8 * k + 8 <= length r)%nat ->
  exists r', word_not r (Z.of_nat j) (Z.of_nat k) = Ret r' /\ updated (fun _ b => u8 (Z.lnot b)) (j + 8 * k) (j + 8 * k + 8) r r'.
Proof.
  intros Hr Hlr. unfold word_not. replace (Z.of_nat j + 8 * Z.of_nat k) with (Z.of_nat (j + 8 * k)) by lia. set (q := (j + 8 * k)%nat) in *. rewrite load_word8 by done. cbn [mbind res_bind].
  assert (length (sub q 8 r) = 8%nat) as L1 by (by apply length_sub). pose proof (not_words _ (sub_bytes q 8 r Hr)) as E. rewrite L1 in E.
  pose proof (le_combine_range _ (sub_bytes q 8 r Hr)) as R. rewrite L1 in R. change (256 ^ Z.of_nat 8) with (2 ^ 64) in *.
  assert (u64 (Z.lnot (le_combine (sub q 8 r))) = 2 ^ 64 - 1 - le_combine (sub q 8 r)) as ->.
  { unfold Z.lnot, uwrap. set (x := le_combine _) in *. replace (Z.pred (- x)) with ((2 ^ 64 - 1 - x) + (-1) * 2 ^ 64) by lia. rewrite Z.mod_add, Z.mod_small by lia. done. }
  rewrite E. apply store_word; [done| |by rewrite length_map|done|].
  - apply Forall_map, (Forall_impl _ _ _ (sub_bytes q 8 r Hr)). intros x Hx. by apply (start_byte BITOP_NOT).
  - intros i b Hi Hb. unfold sub. by rewrite list_lookup_fmap, lookup_take_lt, lookup_drop, Hb.
Qed.

(** Four words. *)
Lemma four_spec f (g : list Z -> Z -> res (list Z)) r (j : nat) : bytes r -> (j + 32 <= length r)%nat ->
  (forall r k, bytes r -> (k < 4)%nat -> (j + 32 <= length r)%nat -> exists r', g r (Z.of_nat k) = Ret r' /\ updated f (j + 8 * k) (j + 8 * k + 8) r r') ->
  exists r', four g r = Ret r' /\ updated f j (j + 32) r r'.
Proof.
  intros Hr Hl Hg. unfold four. destruct (Hg r 0%nat) as (r0 & E0 & U0); [done|lia|done|]. change (Z.of_nat 0) with 0 in E0. rewrite E0. cbn [mbind res_bind]. pose proof U0 as (L0 & B0 & _).
  destruct (Hg r0 1%nat) as (r1 & E1 & U1); [done|lia|lia|]. change (Z.of_nat 1) with 1 in E1. rewrite E1. cbn [mbind res_bind]. pose proof U1 as (L1 & B1 & _).
  destruct (Hg r1 2%nat) as (r2 & E2 & U2); [done|lia|lia|]. change (Z.of_nat 2) with 2 in E2. rewrite E2. cbn [mbind res_bind]. pose proof U2 as (L2 & B2 & _).
  destruct (Hg r2 3%nat) as (r3 & E3 & U3); [done|lia|lia|]. change (Z.of_nat 3) with 3 in E3. exists r3. split; [done|].
  replace (j + 8 * 0)%nat with j in U0 by lia. replace (j + 8 * 1)%nat with (j + 8)%nat in U1 by lia. replace (j + 8 * 2)%nat with (j + 8 + 8)%nat in U2 by lia. replace (j + 8 * 3)%nat with (j + 8 + 8 + 8)%nat in U3 by lia.
  replace (j + 32)%nat with (j + 8 + 8 + 8 + 8)%nat by lia. eapply updated_seq; [|exact U0|]; [lia|]. eapply updated_seq; [|exact U1|]; [lia|]. eapply updated_seq; [|exact U2|exact U3]. lia.
Qed.

Lemma fast_sources_spec op others r (j : nat) : bytes r -> (j + 32 <= length r)%nat -> Forall (fun s => bytes s /\ (j + 32 <= length s)%nat) others ->
  exists r', fast_sources op r others (Z.of_nat j) = Ret r' /\ updated (fun i b => foldl (fun x s => bitop_apply op x (byte_or_zero s i)) b others) j (j + 32) r r'.
Proof.
  intros Hr Hl Ho. revert r Hr Hl. induction Ho as [|s others [Hs Hls] Ho IH]; intros r Hr Hl; cbn [fast_sources foldl].
  { exists r. split; [done|]. split; [done|]. split; [done|]. intros i. destruct (r !! i); cbn; [|done]. by case_decide. }
  destruct (four_spec (fun i b => bitop_apply op b (byte_or_zero s i)) (fun r k => word_op op r s (Z.of_nat j) k) r j Hr Hl) as (r1 & -> & U1).
  { intros r0 k Hr0 Hk Hl0. apply word_op_spec; (done || lia). }
  cbn [mbind res_bind]. pose proof U1 as (L1 & B1 & _). destruct (IH r1 B1 ltac:(lia)) as (r' & -> & U'). exists r'. split; [done|]. by eapply updated_after; [|exact U1|exact U'].
Qed.

Lemma fast_loop_spec fuel op others r (j m : nat) : bytes r -> (j + m <= length r)%nat -> Forall (fun s => bytes s /\ (j + m <= length s)%nat) others -> (m < fuel)%nat -> (op = BITOP_NOT -> others = []) ->
  exists r' (k : nat), fast_loop fuel op r others (Z.of_nat j) (Z.of_nat m) = Ret (r', Z.of_nat (j + k)) /\ (k <= m)%nat /\ updated (combine_byte op others) j (j + k) r r'.
Proof.
  intros Hr Hl Ho Hf Hnot. revert r j m Hr Hl Ho Hf. induction fuel as [|fuel IH]; intros r j m Hr Hl Ho Hf; [lia|]. cbn [fast_loop]. destruct (Z.leb_spec 32 (Z.of_nat m)).
  - assert (exists r1, match op with BITOP_NOT => four (fun r k => word_not r (Z.of_nat j) k) r | _ => fast_sources op r others (Z.of_nat j) end = Ret r1 /\ updated (combine_byte op others) j (j + 32) r r1) as (r1 & -> & U1).
    { destruct (decide (op = BITOP_NOT)) as [->|Hne].
      - rewrite (Hnot eq_refl). unfold combine_byte. cbn [foldl]. apply four_spec; [done|lia|]. intros r0 k Hr0 Hk Hl0. apply word_not_spec; (done || lia).
      - destruct (fast_sources_spec op others r j Hr ltac:(lia)) as (r1 & E1 & U1); [apply (Forall_impl _ _ _ Ho); intros s [? ?]; split; (done || lia)|]. exists r1.
        split; [by destruct op|]. eapply updated_ext; [|exact U1]. intros i b. unfold combine_byte. by destruct op. }
    cbn [mbind res_bind]. pose proof U1 as (L1 & B1 & _). replace (Z.of_nat j + 32) with (Z.of_nat (j + 32)) by lia. replace (Z.of_nat m - 32) with (Z.of_nat (m - 32)) by lia.
    destruct (IH r1 (j + 32)%nat (m - 32)%nat B1) as (r' & k & -> & Hk & U'); [lia|apply (Forall_impl _ _ _ Ho); intros s [? ?]; split; (done || lia)|lia|].
    exists r', (32 + k)%nat. split; [same_result|]. split; [lia|]. eapply updated_seq; [|exact U1|]; [lia|]. by replace (j + (32 + k))%nat with (j + 32 + k)%nat by lia.
  - exists r, 0%nat. split; [same_result|]. split; [lia|]. rewrite Nat.add_0_r. by apply updated_nothing.
Qed.

(** The first path leaves the bytes of the result. *)
Lemma fast_prefix op src others r r' (m k : nat) : updated (combine_byte op others) 0 k r r' -> (k <= m <= length r)%nat -> (m <= length src)%nat -> (forall i, (i < m)%nat -> r !! i = src !! i) ->
  take k r' = map (fun i => combine_byte op others i (byte_or_zero src i)) (seq 0 k).
Proof.
  intros (L & _ & E) Hk Hm Hr. apply list_eq. intros i. destruct (decide (i < k)%nat) as [Hi|Hi].
  - rewrite lookup_take_lt by done. rewrite E, Hr by lia. rewrite list_lookup_fmap, lookup_seq_lt by done. unfold byte_or_zero. destruct (lookup_lt_is_Some_2 src i) as [b Hb]; [lia|]. rewrite Hb. cbn.
    rewrite decide_True, Hb by lia. done.
  - rewrite lookup_take_ge by lia. rewrite list_lookup_fmap, lookup_seq_ge by lia. done.
Qed.

Lemma bitop_compute_spec op src others (maxlen minlen : nat) : bytes src -> Forall bytes others -> Forall (fun s => minlen <= length s <= maxlen)%nat (src :: others) -> (op = BITOP_NOT -> others = []) ->
  bitop_compute op src others (Z.of_nat maxlen) (Z.of_nat minlen) = Ret (map (fun i => combine_byte op others i (byte_or_zero src i)) (seq 0 maxlen)).
Proof.
  intros Hs Ho [Hlen Hlens]%Forall_cons Hnot. unfold bitop_compute. rewrite !Nat2Z.id. set (r0 := replicate maxlen 0). assert (length r0 = maxlen) as L0 by apply length_replicate.
  assert (bytes r0) as B0 by (by apply Forall_replicate). assert (exists r' (k : nat), (if (32 <=? Z.of_nat minlen) && (Z.of_nat (S (length others)) <=? 16) then
      first ← load_bytes (Z.of_nat minlen) 0 src; result ← store_bytes 0 first r0; fast_loop (S minlen) op result others 0 (Z.of_nat minlen) else Ret (r0, 0)) = Ret (r', Z.of_nat k) /\
      (k <= maxlen)%nat /\ length r' = maxlen /\ take k r' = map (fun i => combine_byte op others i (byte_or_zero src i)) (seq 0 k)) as (r' & k & -> & Hk & L' & Epre).
  { destruct (_ && _); [|by exists r0, 0%nat; split_and!; [done|lia|done|]]. rewrite (load_bytes_Ret minlen 0 src ltac:(lia) : load_bytes _ 0 _ = _). cbn [mbind res_bind]. assert (length (sub 0 minlen src) = minlen) as Lsub by (apply length_sub; lia).
    rewrite (store_bytes_Ret 0 (sub 0 minlen src) r0 ltac:(lia) : store_bytes 0 _ _ = _). cbn [mbind res_bind]. set (r1 := patch 0 _ r0). assert (length r1 = maxlen) as L1 by (unfold r1; rewrite length_patch; lia).
    destruct (fast_loop_spec (S minlen) op others r1 0 minlen) as (r' & k & E & Hk & U); [by apply patch_bytes; [apply sub_bytes|]|lia| |lia|done|].
    { apply Forall_and. split; [done|]. apply (Forall_impl _ _ _ Hlens). lia. }
    exists r', k. split; [exact E|]. split; [lia|]. split; [destruct U as [-> _]; done|]. apply (fast_prefix op src others r1 r' minlen k U); [lia|lia|]. intros i Hi. unfold r1. rewrite lookup_patch by lia.
    rewrite decide_True by lia. unfold sub. by rewrite Nat.sub_0_r, drop_0, lookup_take_lt. }
  cbn [mbind res_bind]. replace (Z.to_nat (Z.of_nat maxlen - Z.of_nat k)) with (maxlen - k)%nat by lia. rewrite bitop_loop_spec by (done || lia). f_equal. rewrite Epre, <- map_app, <- seq_app. do 2 f_equal. lia.
Qed.

(** ** The bits of the result *)

Lemma bit_of_byte s i : bit_or_zero (bits_of s) i = Z.testbit (byte_or_zero s (i `div` 8)) (7 - Z.of_nat (i `mod` 8)).
Proof. unfold bit_or_zero, byte_or_zero. rewrite lookup_bits_of. destruct (s !! _) as [b|]; [done|]. by rewrite Z.bits_0. Qed.

Lemma combine_testbit op others (i : nat) x : is_byte x ->
  Z.testbit (combine_byte op others (i `div` 8) x) (7 - Z.of_nat (i `mod` 8)) =
  foldl (fun x l => op_bool op x (bit_or_zero l i)) (let x := Z.testbit x (7 - Z.of_nat (i `mod` 8)) in match op with BITOP_NOT => negb x | _ => x end) (map bits_of others).
Proof.
  intros Hx. pose proof (Nat.mod_upper_bound i 8 ltac:(lia)) as Hm. unfold combine_byte. cbv zeta.
  assert (Z.testbit (match op with BITOP_NOT => u8 (Z.lnot x) | _ => x end) (7 - Z.of_nat (i `mod` 8)) =
    match op with BITOP_NOT => negb (Z.testbit x (7 - Z.of_nat (i `mod` 8))) | _ => Z.testbit x (7 - Z.of_nat (i `mod` 8)) end) as <-.
  { destruct op; try done. unfold uwrap. rewrite Z.mod_pow2_bits_low by lia. by rewrite Z.lnot_spec by lia. }
  generalize (match op with BITOP_NOT => u8 (Z.lnot x) | _ => x end). induction others as [|s others IH]; intros y; cbn [foldl map]; [done|]. by rewrite IH, testbit_apply, bit_of_byte.
Qed.

Lemma max_length_bits ss : max_length (map bits_of ss) = (8 * foldr (fun s n => Nat.max (length s) n) 0 ss)%nat.
Proof. induction ss as [|s ss IH]; [done|]. unfold max_length in *. cbn [map foldr]. rewrite IH, length_bits_of. lia. Qed.

Lemma spec_bitop_bytes op src others : bytes src ->
  bits_of (map (fun i => combine_byte op others i (byte_or_zero src i)) (seq 0 (foldr (fun s n => Nat.max (length s) n) 0%nat (src :: others)))) = spec_bitop op (bits_of src) (map bits_of others).
Proof.
  intros Hs. unfold spec_bitop. change (bits_of src :: map bits_of others) with (map bits_of (src :: others)). rewrite max_length_bits. set (n := foldr _ _ _).
  apply list_eq. intros i. rewrite lookup_bits_of, !list_lookup_fmap. pose proof (Nat.div_mod_eq i 8). pose proof (Nat.mod_upper_bound i 8 ltac:(lia)). destruct (decide (i < 8 * n)%nat).
  - rewrite !lookup_seq_lt by lia. cbn [fmap option_fmap option_map Nat.add]. f_equal. rewrite combine_testbit by (by apply byte_or_zero_byte). unfold combine_bits. by rewrite bit_of_byte.
  - by rewrite !lookup_seq_ge by lia.
Qed.

Section Op.
Context `{Heap} (proto_max_bulk_len : Z).
Hypothesis Hlim : bit_limits proto_max_bulk_len.
Local Abbreviation string_is := (string_is proto_max_bulk_len).
Local Abbreviation db_is := (bdb_repr proto_max_bulk_len).
Local Abbreviation refines := (bit_refines proto_max_bulk_len).

(** The strings, the largest and a lower bound of their lengths. *)
Lemma bitop_sources_spec c a keys first (M m : nat) : db_is c a ->
  match spec_strings a keys with
  | None => bitop_sources c first keys (Z.of_nat M) (Z.of_nat m) = Ret None
  | Some ls => exists ss (m' : nat),
      bitop_sources c first keys (Z.of_nat M) (Z.of_nat m) = Ret (Some (ss, Z.of_nat (Nat.max M (foldr (fun s n => Nat.max (length s) n) 0%nat ss)), Z.of_nat m')) /\
      Forall2 string_is ss ls /\ Forall (fun s => m' <= length s)%nat ss /\ (first = false -> (m' <= m)%nat)
  end.
Proof using Hlim.
  intros Hc. revert first M m. induction keys as [|key keys IH]; intros first M m; cbn [spec_strings bitop_sources].
  { exists [], m. cbn [foldr]. rewrite Nat.max_0_r. split; [done|]. by split_and!; [constructor..|]. }
  pose proof (db_at _ c a key Hc) as Hk. destruct (a !! key) as [[l|]|]; [|by rewrite Hk|].
  - destruct Hk as (v & -> & Hv & Hr). destruct (decoded_spec _ Hlim v l Hr) as (s & Es & Hs).
    set (M1 := Nat.max M (length s)). set (m1 := if first || (Z.of_nat (length s) <? Z.of_nat m) then length s else m).
    assert ((if Z.of_nat M <? Z.of_nat (length s) then Z.of_nat (length s) else Z.of_nat M) = Z.of_nat M1) as EM by (unfold M1; destruct (Z.ltb_spec (Z.of_nat M) (Z.of_nat (length s))); lia).
    assert ((if first || (Z.of_nat (length s) <? Z.of_nat m) then Z.of_nat (length s) else Z.of_nat m) = Z.of_nat m1) as Em by (unfold m1; by destruct (_ || _)).
    assert (m1 <= length s)%nat as Hm1 by (unfold m1; destruct first; cbn [orb]; [lia|]; destruct (Z.ltb_spec (Z.of_nat (length s)) (Z.of_nat m)); lia).
    assert (first = false -> (m1 <= m)%nat) as Hm1' by (intros ->; unfold m1; cbn [orb]; destruct (Z.ltb_spec (Z.of_nat (length s)) (Z.of_nat m)); lia).
    specialize (IH false M1 m1). destruct (spec_strings a keys) as [ls|]; cbn [fmap option_fmap option_map].
    + destruct IH as (ss & m' & E & Hss & Hms & Hle). exists (s :: ss), m'. cbn [foldr]. split; [|split_and!; [by constructor|constructor; [specialize (Hle eq_refl); lia|done]|intros Hf; specialize (Hm1' Hf); specialize (Hle eq_refl); lia]].
      replace (Nat.max M (Nat.max (length s) (foldr (fun s n => Nat.max (length s) n) 0%nat ss))) with (Nat.max M1 (foldr (fun s n => Nat.max (length s) n) 0%nat ss)) by lia.
      destruct v; [| |done]; rewrite Es; cbn [mbind res_bind]; by rewrite EM, Em, E.
    + destruct v; [| |done]; rewrite Es; cbn [mbind res_bind]; by rewrite EM, Em, IH.
  - rewrite Hk. specialize (IH false M 0%nat). change (Z.of_nat 0) with 0 in IH. destruct (spec_strings a keys) as [ls|]; cbn [fmap option_fmap option_map]; [|by rewrite IH].
    destruct IH as (ss & m' & -> & Hss & Hms & Hle). specialize (Hle eq_refl). exists ([] :: ss), m'. cbn [mbind res_bind foldr length]. split; [done|]. split_and!; [|constructor; [cbn; lia|done]|lia].
    constructor; [|done]. split; [constructor|]. split; [done|]. unfold fits_limit. pose proof (bl_min _ Hlim). cbn. lia.
Qed.

Lemma spec_strings_length a keys ls : spec_strings a keys = Some ls -> length ls = length keys.
Proof.
  revert ls. induction keys as [|key keys IH]; intros ls; cbn [spec_strings]; [by intros [= <-]|]. destruct (a !! key) as [[l|]|]; try done; intros (ls' & E & ->)%fmap_Some; cbn; by rewrite (IH ls').
Qed.

Lemma strings_bits ss ls : Forall2 string_is ss ls -> Forall bytes ss /\ map bits_of ss = ls /\ Forall (fits_limit proto_max_bulk_len) ss.
Proof. induction 1 as [|s l ss ls (Hb & <- & Hf) _ (IH1 & <- & IH3)]; [done|]. by split_and!; [constructor|..|constructor]. Qed.

Lemma max_fits ss : Forall (fits_limit proto_max_bulk_len) ss -> Z.of_nat (foldr (fun s n => Nat.max (length s) n) 0%nat ss) <= proto_max_bulk_len + 8.
Proof using Hlim. pose proof (bl_min _ Hlim). induction 1 as [|s ss Hf _ IH]; cbn [foldr]; [lia|]. unfold fits_limit in Hf. lia. Qed.

Lemma max_bounds (ss : list (list Z)) : Forall (fun s => length s <= foldr (fun s n => Nat.max (length s) n) 0 ss)%nat ss.
Proof. induction ss as [|s ss IH]; [constructor|]. cbn [foldr]. constructor; [lia|]. apply (Forall_impl _ _ _ IH). lia. Qed.

Lemma refines_bitop c a opname targetkey keys : db_is c a -> keys <> [] -> refines c (bitopCommand c opname targetkey keys) (spec_bitop_command a opname targetkey keys).
Proof using Hlim.
  intros Hc Hne. unfold bitopCommand, spec_bitop_command. destruct (parse_bitop opname) as [op|]; [|by apply refines_breply].
  replace (Z.of_nat (length keys) =? 1) with (bool_decide (length keys = 1%nat)).
  2: { destruct (decide (length keys = 1%nat)) as [->|Hk]; [done|]. rewrite bool_decide_eq_false_2 by done. symmetry. apply Z.eqb_neq. lia. }
  destruct (bool_decide (op = BITOP_NOT) && _) eqn:Enot; [by apply refines_breply|]. pose proof (bitop_sources_spec c a keys true 0 0 Hc) as Hsrc. change (Z.of_nat 0) with 0 in Hsrc.
  destruct (spec_strings a keys) as [ls|] eqn:Els; [|rewrite Hsrc; by apply refines_breply]. destruct Hsrc as (ss & m & -> & Hss & Hm & _). cbn [mbind res_bind Nat.max]. apply spec_strings_length in Els.
  destruct Hss as [|src first ss others Hsrc Hss]; [by destruct keys|]. pose proof Hsrc as (Hb & Ebits & Hf). destruct (strings_bits ss others Hss) as (Hbs & <- & Hfs). set (n := foldr _ _ (src :: ss)) in *.
  pose proof (spec_bitop_bytes op src ss Hb) as Espec. fold n in Espec. rewrite Ebits in Espec. set (res := map _ (seq 0 n)) in *. assert (length res = n) as Lres by (unfold res; by rewrite length_map, length_seq).
  assert (length (spec_bitop op first (map bits_of ss)) = (8 * n)%nat) as Lspec by (rewrite <- Espec, length_bits_of, Lres; done).
  rewrite Lspec. replace (Z.of_nat (8 * n) / 8) with (Z.of_nat n) by (rewrite Nat2Z.inj_mul, Z.mul_comm, Z.div_mul; [done|lia]). destruct (Z.eqb_spec (Z.of_nat n) 0) as [En|En]; cbn [negb].
  - assert (spec_bitop op first (map bits_of ss) = []) as -> by (apply nil_length_inv; lia). cbn [mbind res_bind]. eexists. split; [reflexivity|]. split; [done|]. by apply (bdb_delete _ c a targetkey).
  - rewrite (bitop_compute_spec op src ss n m Hb Hbs); [|apply Forall_and; split; [done|apply max_bounds]|].
    2: { intros ->. rewrite bool_decide_eq_true_2 in Enot by done. cbn [andb] in Enot. apply negb_false_iff, bool_decide_eq_true in Enot. rewrite Enot in Els. cbn in Els. rewrite length_map in Els. by destruct ss; [|cbn in Els; lia]. }
    fold res. cbn [mbind res_bind]. eexists. split; [reflexivity|]. split; [done|]. destruct (spec_bitop op first (map bits_of ss)) as [|x l] eqn:Esp; [cbn [length] in Lspec; lia|]. apply (bdb_store _ c a targetkey res (x :: l) Hc). split.
    + unfold res. apply Forall_map, Forall_forall. intros i _. apply combine_byte_byte; [done|]. by apply byte_or_zero_byte.
    + split; [done|]. unfold fits_limit. rewrite Lres. apply max_fits. by constructor.
Qed.
End Op.
