(* ===== verification/BitopsTheorems.v ===== *)
(** * Histories of commands on bits

    The theorems about [Bitops] and [BitopsCommand]: through every history of
    commands the strings are sequences of bits, and the loops over words count and
    find what a loop over bits would. *)
From stdpp Require Import gmap strings.
From S2P Require Import Prelude Mem NumStr Bitops BitString BitSearch BitField BitopsCommand BitopsSpec BitopsRefine BitopsField BitopsRange BitopsOp.

Local Open Scope Z_scope.

(** ** Histories *)

Section History.
Context `{Heap} (proto_max_bulk_len : Z) (address : list Z -> Z).
Local Abbreviation db_is := (bdb_repr proto_max_bulk_len).

Definition run_bit_command (c : bclient) (cmd : bit_command) : res bclient :=
  match cmd with
  | SETBIT key offset value => setbitCommand proto_max_bulk_len false c key offset value
  | GETBIT key offset => getbitCommand proto_max_bulk_len false c key offset
  | BITOP opname targetkey keys => bitopCommand c opname targetkey keys
  | BITCOUNT key args => bitcountCommand address c key args
  | BITPOS key bit args => bitposCommand address c key bit args
  | BITFIELD key args => bitfieldCommand proto_max_bulk_len false c key args
  | BITFIELD_RO key args => bitfieldroCommand proto_max_bulk_len false c key args
  end.

Fixpoint run_bit_history (c : bclient) (cmds : list bit_command) : res bclient :=
  match cmds with
  | [] => Ret c
  | cmd :: cmds => c ← run_bit_command c cmd; run_bit_history c cmds
  end.

Fixpoint spec_bit_history (a : bkeyspace) (cmds : list bit_command) : bkeyspace * list breply :=
  match cmds with
  | [] => (a, [])
  | cmd :: cmds =>
      let '(a, rs) := spec_bit_command proto_max_bulk_len false a cmd in
      let '(a, rss) := spec_bit_history a cmds in (a, rs ++ rss)
  end.

Lemma bit_command_refines c a cmd : bit_limits proto_max_bulk_len -> db_is c a -> bit_command_ok cmd ->
  bit_refines proto_max_bulk_len c (run_bit_command c cmd) (spec_bit_command proto_max_bulk_len false a cmd).
Proof.
  intros Hlim Hc Hok. destruct cmd; cbn [run_bit_command spec_bit_command].
  - by apply refines_setbit.
  - by apply refines_getbit.
  - by apply refines_bitop.
  - by apply refines_bitcount.
  - by apply refines_bitpos.
  - by apply refines_bitfield.
  - by apply refines_bitfield.
Qed.

(** C11: through every history of SETBIT, GETBIT, BITOP, BITCOUNT, BITPOS, BITFIELD and
    BITFIELD_RO, from every keyspace whose strings fit the limit, of a client that the
    limit of the server binds, the commands return without an access outside a
    string, and their replies and the strings are those of sequences of bits that
    are followed by zeros: BITCOUNT and BITPOS count and find bits in ranges of bits
    or bytes, BITOP combines the bits at each position, and the operations of
    BITFIELD read and write numbers in binary notation that wrap around, saturate or
    fail, with one exception that the specification spells out ([mistaken]): a
    saturating SET of a number below [2^(bits-1) - 2^63] in a signed field of less than
    64 bits stores the largest number instead of the smallest.  Strings that are
    stored as integers are no exception, and no string grows past the limit and eight
    bytes.  The limit is from 2^20 to 2^60, and BITOP has a source. *)
Theorem bit_commands_refine c a cmds : bit_limits proto_max_bulk_len -> db_is c a -> Forall bit_command_ok cmds ->
  exists c', run_bit_history c cmds = Ret c' /\ breplies c' = breplies c ++ (spec_bit_history a cmds).2 /\ db_is c' (spec_bit_history a cmds).1.
Proof.
  intros Hlim. revert c a. induction cmds as [|cmd cmds IH]; intros c a Hc Hok; cbn [run_bit_history spec_bit_history]; [exists c; by rewrite app_nil_r|].
  apply Forall_cons in Hok as [Hcmd Hok]. destruct (bit_command_refines c a cmd Hlim Hc Hcmd) as (c1 & -> & Er & Hc1). cbn [mbind res_bind]. destruct (spec_bit_command _ _ a cmd) as [a1 rs]. cbn [fst snd] in *.
  destruct (IH c1 a1 Hc1 Hok) as (c2 & -> & Er2 & Hc2). destruct (spec_bit_history a1 cmds) as [a2 rss]. cbn [fst snd] in *. exists c2. split; [done|]. by rewrite Er2, Er, app_assoc.
Qed.
End History.

(** ** The loops over words *)

(** C12: [redisPopcount] returns the number of bits that are set, wherever the
    string is in memory: the bytes before the first aligned word, the blocks of
    seven words that are added up in parallel and the bytes that are left are all
    of the string, and no byte outside it is read. *)
Theorem redisPopcount_counts addr m (s n : nat) : bytes m -> (s + n <= length m)%nat ->
  redisPopcount addr m (Z.of_nat s) (Z.of_nat n) = Ret (ones (bits_of (sub s n m))).
Proof. apply redisPopcount_spec. Qed.

(** C13: [redisBitpos] returns, wherever the string is in memory, the position of
    the first bit with the value that is searched.  When there is none it is -1 for
    a set bit, and for a clear bit the position after the string. *)
Theorem redisBitpos_first addr m (s n : nat) bit : bytes m -> (s + n <= length m)%nat ->
  exists pos, redisBitpos addr m (Z.of_nat s) (Z.of_nat n) bit = Ret pos /\
    let bits := bits_of (sub s n m) in
    (bits !! Z.to_nat pos = Some bit /\ 0 <= pos /\ (forall i, Z.of_nat i < pos -> bits !! i = Some (negb bit)) \/
     Forall (fun b => b = negb bit) bits /\ pos = if bit then -1 else 8 * Z.of_nat n).
Proof.
  intros Hm Hs. rewrite redisBitpos_spec by done. eexists. split; [reflexivity|]. cbv zeta. destruct (first_bit bit _) as [i|] eqn:E; [left|right].
  - apply first_bit_Some in E as [Hi Hj]. rewrite Nat2Z.id. split; [done|]. split; [lia|]. intros j Hlt. apply Hj. lia.
  - by apply first_bit_None in E.
Qed.

(** C33: the check of a signed field is exact for INCRBY, whose value is in the field:
    it returns 0 if the sum is in the field, and otherwise the number that wraps
    around or the limit on the side of the sum.  So it is for SET, whose value is
    arbitrary, unless the distance of this value from the largest number of the
    field is 2^63 or more: then a saturating SET stores the largest number instead
    of the smallest. *)
Theorem signed_overflow_exact value incr bits ow limit : 1 <= bits <= 64 -> - 2 ^ 63 <= value < 2 ^ 63 -> - 2 ^ 63 <= incr < 2 ^ 63 ->
  (- 2 ^ (bits - 1) <= value < 2 ^ (bits - 1) \/ incr = 0 /\ 2 ^ (bits - 1) - 2 ^ 63 <= value ->
   check_ok ow (- 2 ^ (bits - 1)) (2 ^ (bits - 1) - 1) (swrap bits) (value + incr) limit (checkSignedBitfieldOverflow value incr bits ow limit)) /\
  (bits < 64 -> value < 2 ^ (bits - 1) - 2 ^ 63 -> checkSignedBitfieldOverflow value 0 bits BFOVERFLOW_SAT limit = (1, 2 ^ (bits - 1) - 1)).
Proof.
  intros Hb Hv Hi. split.
  - intros Hc. apply checkSigned_spec; [done..|]. destruct Hc as [|[-> ?]]; [by left|right]. split; [done|by right].
  - intros H64 Hsmall. apply checkSigned_low; lia.
Qed.

(** A number that is written is read back, up to the width of its field, and no other
    bit is changed. *)
Theorem bitfield_roundtrip p (off n : nat) v : bytes p -> (off + n <= 8 * length p)%nat -> (0 < n <= 64)%nat ->
  exists p', setUnsignedBitfield p (Z.of_nat off) (Z.of_nat n) v = Ret p' /\ length p' = length p /\
    getUnsignedBitfield p' (Z.of_nat off) (Z.of_nat n) = Ret (v mod 2 ^ Z.of_nat n) /\ getSignedBitfield p' (Z.of_nat off) (Z.of_nat n) = Ret (swrap (Z.of_nat n) v) /\
    forall i, ~ (off <= i < off + n)%nat -> bits_of p' !! i = bits_of p !! i.
Proof.
  intros Hp Ho Hn. rewrite <- length_bits_of in Ho. destruct (setUnsigned_spec p off n v Hp Ho) as (p' & -> & Hp' & Hl & E). exists p'. split; [done|]. split; [done|].
  assert (sub off n (bits_of p') = num_bits n v) as Esub.
  { rewrite E. pose proof (sub_patch_in off 0 n (num_bits n v) (bits_of p)) as Hsub. rewrite length_num_bits, Nat.add_0_r in Hsub. rewrite Hsub by lia. apply sub_all. apply length_num_bits. }
  assert (off + n <= length (bits_of p'))%nat as Ho' by (rewrite length_bits_of in *; lia).
  rewrite getUnsigned_spec, getSigned_spec by (done || lia). rewrite Esub, bits_num_num_bits, swrap_mod by lia. split_and!; [done..|]. intros i Hi. rewrite E, lookup_patch by (rewrite length_num_bits; lia).
  rewrite length_num_bits. by rewrite decide_False.
Qed.

(** ** Concrete runs *)

Definition demo_bit_limit : Z := 2 ^ 20.
Definition demo_bit_client : bclient := BClient {[ lit "n" := BInt 42 ]} [].
Definition demo_bit_keyspace : bkeyspace := {[ lit "n" := Some (bits_of (dec 42)) ]}.

Lemma demo_bit_limits : bit_limits demo_bit_limit.
Proof. split; unfold demo_bit_limit; lia. Qed.

Lemma demo_bit_repr : bdb_repr demo_bit_limit demo_bit_client demo_bit_keyspace.
Proof.
  intros key. cbn [demo_bit_client bdb]. unfold demo_bit_keyspace. destruct (decide (key = lit "n")) as [->|Hne]; [rewrite !lookup_singleton_eq|rewrite !lookup_singleton_ne by done; exact I].
  split; [unfold LLONG_MIN, LLONG_MAX; lia|reflexivity].
Qed.

Definition demo_bit_history : list bit_command :=
  [SETBIT (lit "k") (lit "7") (lit "1"); SETBIT (lit "k") (lit "300") (lit "1"); BITCOUNT (lit "k") []; BITPOS (lit "k") (lit "1") [lit "8"; lit "-1"; lit "BIT"];
   BITFIELD (lit "k") [lit "OVERFLOW"; lit "SAT"; lit "INCRBY"; lit "i8"; lit "#2"; lit "200"; lit "GET"; lit "u4"; lit "18"]; BITOP (lit "XOR") (lit "n") [lit "n"; lit "k"; lit "missing"];
   BITCOUNT (lit "n") [lit "3"; lit "-4"; lit "bit"]; GETBIT (lit "n") (lit "300"); BITFIELD_RO (lit "n") [lit "SET"; lit "u8"; lit "0"; lit "1"];
   BITFIELD (lit "n") [lit "OVERFLOW"; lit "SAT"; lit "SET"; lit "i8"; lit "0"; lit "-9223372036854775808"; lit "GET"; lit "i8"; lit "0"]].

Lemma demo_bit_history_ok : Forall bit_command_ok demo_bit_history.
Proof.
  do 5 (apply Forall_cons_2; [exact I|]). apply Forall_cons_2; [discriminate|]. do 4 (apply Forall_cons_2; [exact I|]). apply Forall_nil_2.
Qed.

Lemma bit_commands_refine_witness : exists c', run_bit_history (H := zero_heap) demo_bit_limit sumZ demo_bit_client demo_bit_history = Ret c' /\
  breplies c' = [] ++ (spec_bit_history demo_bit_limit demo_bit_keyspace demo_bit_history).2 /\ bdb_repr demo_bit_limit c' (spec_bit_history demo_bit_limit demo_bit_keyspace demo_bit_history).1.
Proof. exact (bit_commands_refine (H := zero_heap) demo_bit_limit sumZ demo_bit_client demo_bit_keyspace demo_bit_history demo_bit_limits demo_bit_repr demo_bit_history_ok). Defined.

Definition demo_bytes : list Z := map (fun i => (Z.of_nat i * 37) mod 256) (seq 0 64).

Lemma demo_bytes_ok : bytes demo_bytes.
Proof. apply Forall_map, Forall_forall. intros i _. apply Z.mod_pos_bound. lia. Qed.

Lemma redisPopcount_counts_witness : redisPopcount 4097 demo_bytes (Z.of_nat 2) (Z.of_nat 60) = Ret (ones (bits_of (sub 2 60 demo_bytes))).
Proof. apply (redisPopcount_counts 4097 demo_bytes 2 60 demo_bytes_ok). apply Nat.leb_le. reflexivity. Defined.

Lemma redisBitpos_first_witness : exists pos, redisBitpos 4097 demo_bytes (Z.of_nat 0) (Z.of_nat 64) true = Ret pos /\
  let bits := bits_of (sub 0 64 demo_bytes) in
  (bits !! Z.to_nat pos = Some true /\ 0 <= pos /\ (forall i, Z.of_nat i < pos -> bits !! i = Some (negb true)) \/
   Forall (fun b => b = negb true) bits /\ pos = -1).
Proof. apply (redisBitpos_first 4097 demo_bytes 0 64 true demo_bytes_ok). apply Nat.leb_le. reflexivity. Defined.

Lemma signed_overflow_exact_witness :
  check_ok BFOVERFLOW_WRAP (- 2 ^ (8 - 1)) (2 ^ (8 - 1) - 1) (swrap 8) (100 + 100) 0 (checkSignedBitfieldOverflow 100 100 8 BFOVERFLOW_WRAP 0) /\
  checkSignedBitfieldOverflow (- 2 ^ 63) 0 8 BFOVERFLOW_SAT 0 = (1, 127).
Proof.
  split.
  - apply (signed_overflow_exact 100 100 8 BFOVERFLOW_WRAP 0); [lia..|]. left. cbn. lia.
  - apply (signed_overflow_exact (- 2 ^ 63) 0 8 BFOVERFLOW_SAT 0); [lia..|]. cbn. lia.
Defined.
