(* ===== verification/Scaph.v ===== *)
(** * The sensors of the attribution agent (attribution/scaphandre/src/sensors)

    The agent reads the energy counters of the machine and the times of its
    processors and processes, keeps the last readings of each in buffers, and
    derives powers from the last two.  [mod.rs] has the host, its sockets and
    their domains, [powercap_rapl.rs] how their counters are read, [utils.rs] the
    tracker of processes.

    A panic is [Abort].  What is read from outside is a [World]: files, clock,
    statistics of the kernel and processes, each at the moment it is read.  Strings
    are lists of code points.  This file has the definitions; [ScaphBuffer] and
    [ScaphTracker] are about the buffers and the tracker, [ScaphTheorems] about
    their use. *)
From stdpp Require Import gmap strings.
From Stdlib Require Import SpecFloat.
From S2P Require Import Prelude NumStr PyFloat.

Local Open Scope Z_scope.

(** ** Rust *)

Abbreviation str := (list Z).

Definition is_whitespace (c : Z) : bool :=
  ((9 <=? c) && (c <=? 13)) || (c =? 32) || (c =? 133) || (c =? 160) || (c =? 5760) || ((8192 <=? c) && (c <=? 8202))
  || (c =? 8232) || (c =? 8233) || (c =? 8239) || (c =? 8287) || (c =? 12288).

Fixpoint trim_start (s : str) : str :=
  match s with
  | c :: s' => if is_whitespace c then trim_start s' else s
  | [] => []
  end.
Definition trim (s : str) : str := rev (trim_start (rev (trim_start s))).

(** Digits up to a bound. *)
Fixpoint parse_digits (max : Z) (s : str) (v : Z) : option Z :=
  match s with
  | [] => Some v
  | c :: s =>
      if (48 <=? c) && (c <=? 57) then
        let v := 10 * v + (c - 48) in if max <? v then None else parse_digits max s v
      else None
  end.

(** [parse::<u64>()] and [parse::<u128>()]. *)
Definition parse_unsigned (w : Z) (s : str) : option Z :=
  match s with
  | [] | [43] => None
  | 43 :: s => parse_digits (2 ^ w - 1) s 0
  | s => parse_digits (2 ^ w - 1) s 0
  end.

(** [parse::<i128>()]. *)
Definition parse_signed (w : Z) (s : str) : option Z :=
  match s with
  | [] | [43] | [45] => None
  | 43 :: s => parse_digits (2 ^ (w - 1) - 1) s 0
  | 45 :: s => Z.opp <$> parse_digits (2 ^ (w - 1)) s 0
  | s => parse_digits (2 ^ (w - 1) - 1) s 0
  end.

(** [to_string] of an integer of at most 128 bits. *)
Definition to_string (v : Z) : str := if v <? 0 then 45 :: udec_fuel 40 (- v) else udec_fuel 40 v.

(** [f32]. *)
Definition f32_of_Z (z : Z) : spec_float := binary_normalize 24 128 z 0 false.
Definition f32_div : spec_float -> spec_float -> spec_float := SFdiv 24 128.

(** [x as u32] and [x as u64] of a floating-point number saturate. *)
Definition float_to_uint (w : Z) (x : spec_float) : Z :=
  match x with
  | S754_nan => 0
  | S754_infinity s => if s then 0 else 2 ^ w - 1
  | _ => Z.max 0 (Z.min (2 ^ w - 1) (f_trunc x))
  end.

(** Whether the program was compiled with checks for overflow. *)
Class Build := { overflow_checks : bool }.

Definition rust_uint `{Build} (w x : Z) : res Z :=
  if (0 <=? x) && (x <? 2 ^ w) then Ret x else if overflow_checks then Abort else Ret (uwrap w x).
Definition rust_sint `{Build} (w x : Z) : res Z :=
  if (- 2 ^ (w - 1) <=? x) && (x <? 2 ^ (w - 1)) then Ret x else if overflow_checks then Abort else Ret (swrap w x).

(** ** What is read from outside *)

Record Duration : Type := Dur { secs : Z; nanos : Z }.

Definition as_secs_f64 (d : Duration) : float := (f_of_Z (secs d) + f_of_Z (nanos d) / f_of_Z 1000000000)%F.
(** The order of [Duration]. *)
Definition dur_ltb (a b : Duration) : bool := (secs a <? secs b) || ((secs a =? secs b) && (nanos a <? nanos b)).

Inductive Unit : Type :=
  | Numeric | Joule | MilliJoule | MicroJoule | MegaWatt | KiloWatt | Watt | MilliWatt | MicroWatt | Percentage
  | Bytes | KiloBytes | MegaBytes | GigaBytes | MegaHertz.

(** [Record] of the source. *)
Record record : Type := Rec { timestamp : Duration; value : str; unit_of : Unit }.

Record CPUStat : Type := Stat {
  user : Z; nice : Z; system : Z; idle : Z;
  irq : option Z; iowait : option Z; softirq : option Z; steal : option Z; guest : option Z; guest_nice : option Z;
}.

(** [procfs::KernelStats]. *)
Record KernelStats : Type := Kernel { total : CPUStat; cpu_time : list CPUStat }.

(** Of a process, what the tracker looks at; the percentage is an [f32]. *)
Record IProcess : Type := Process { pid : Z; comm : str; cpu_usage_percentage : spec_float; stime : Z; utime : Z }.

(** What [sysinfo] has of a running process, and the system and user times that
    [procfs] has of it, if it has any.  A path that is not UTF-8 is no string. *)
Record running : Type := Running { run_pid : Z; exe : option str; cmd : list str; run_usage : spec_float; run_stat : option (Z * Z) }.

(** [IProcess::new].  The number has to be an [i32], the path of the executable a
    string. *)
Definition new_process (process : running) : res IProcess :=
  _ ← of_option (parse_signed 32 (to_string (run_pid process)));
  let '(stime, utime) := match run_stat process with Some stat => stat | None => (0, 0) end in
  comm ← of_option (exe process);
  Ret (Process (run_pid process) comm (run_usage process) stime utime).
Fixpoint new_processes (l : list running) : res (list IProcess) :=
  match l with
  | [] => Ret []
  | r :: l => p ← new_process r; ps ← new_processes l; Ret (p :: ps)
  end.

Inductive ProcessStatus : Type :=
  | Idle | Run | Sleep | Stop | Zombie | Tracing | Dead | Wakekill | Waking | Parked | LockBlocked | UninterruptibleDiskSleep
  | Unknown (code : Z).
#[export] Instance ProcessStatus_eq : EqDecision ProcessStatus.
Proof. solve_decision. Defined.

(** The number is that of the reading; the next one may see other contents.  The
    entries of a directory are paths, [None] for one that cannot be read or is not
    UTF-8; of the
    processors there are the attributes [sysinfo] has and those of
    [/proc/cpuinfo]. *)
Class World := {
  file : nat -> str -> option str;
  clock : nat -> Duration;
  kernel_stats : nat -> option KernelStats;
  processes : nat -> list running;
  status : nat -> Z -> option ProcessStatus;
  read_dir : nat -> str -> option (list (option str));
  modules : nat -> option (list str);
  cpus : nat -> list (gmap str str);
  cpuinfo : nat -> option (nat -> option (gmap str str));
}.

(** A computation that reads. *)
Definition io (A : Type) : Type := nat -> res (A * nat).
#[export] Instance io_ret : MRet io := fun A a n => Ret (a, n).
#[export] Instance io_bind : MBind io := fun A B f m n => match m n with Ret (a, n) => f a n | Abort => Abort | Diverge => Diverge end.
Definition observe {A} (f : nat -> A) : io A := fun n => Ret (f n, S n).
Definition lift {A} (r : res A) : io A := fun n => a ← r; Ret (a, n).

(** [for x in xs]: every element is changed in place. *)
Fixpoint for_each {A} (f : A -> io A) (xs : list A) : io (list A) :=
  match xs with
  | [] => mret []
  | x :: xs => x ← f x; xs ← for_each f xs; mret (x :: xs)
  end.

(** ** Buffers *)

(** [size_of_val] of a [Record] and of a [CPUStat], on 64-bit machines. *)
Definition record_size : Z := 48.
Definition stat_size : Z := 128.

(** The iterations of [for _ in 1..n as u32], for the quotient of two sizes. *)
Definition nb_to_delete (size_diff size : Z) : nat := Z.to_nat (float_to_uint 32 (f32_div (f32_of_Z size_diff) (f32_of_Z size)) - 1).

Fixpoint remove_first {A} (n : nat) (buffer : list A) : list A :=
  match n with
  | O => buffer
  | S n => remove_first n (match buffer with [] => [] | _ :: buffer => buffer end)
  end.
Fixpoint pop_last {A} (n : nat) (buffer : list A) : list A :=
  match n with
  | O => buffer
  | S n => pop_last n (match buffer with [] => [] | _ => removelast buffer end)
  end.

(** Old elements are deleted by [delete]; [seen] is how the host's code sees the
    current size. *)
Definition clean_buffer `{Build} {A} (size : Z) (seen : Z -> Z) (delete : nat -> list A -> list A) (buffer_max_kbytes : Z) (buffer : list A) : res (list A) :=
  _ ← of_option (head buffer);
  curr_size ← rust_uint 64 (size * Z.of_nat (length buffer));
  max ← rust_uint 16 (buffer_max_kbytes * 1000);
  if max <? seen curr_size then
    size_diff ← rust_uint 64 (curr_size - max);
    if size <? size_diff then Ret (delete (nb_to_delete size_diff size) buffer) else Ret buffer
  else Ret buffer.

(** ** Domains, sockets and the host *)

Record Domain : Type := mkDomain {
  d_id : Z;
  d_name : str;
  d_record_buffer : list record;
  d_buffer_max_kbytes : Z;
  d_sensor_data : gmap str str;
}.

Record CPUCore : Type := mkCore { c_id : Z; c_attributes : gmap str str }.

Record CPUSocket : Type := mkSocket {
  s_id : Z;
  s_domains : list Domain;
  s_record_buffer : list record;
  s_buffer_max_kbytes : Z;
  s_cpu_cores : list CPUCore;
  s_stat_buffer : list CPUStat;
  s_sensor_data : gmap str str;
}.

Record ProcessRecord : Type := PRec { process : IProcess; p_timestamp : Duration }.

Record ProcessTracker : Type := mkTracker {
  procs : list (list ProcessRecord);
  max_records_per_process : Z;
}.

Record Topology : Type := mkTopology {
  sockets : list CPUSocket;
  proc_tracker : ProcessTracker;
  t_stat_buffer : list CPUStat;
  t_record_buffer : list record;
  t_buffer_max_kbytes : Z;
  domains_names : option (list str);
  t_sensor_data : gmap str str;
}.

Definition set_d_records (d : Domain) (b : list record) : Domain := mkDomain (d_id d) (d_name d) b (d_buffer_max_kbytes d) (d_sensor_data d).
Definition set_domains (s : CPUSocket) (ds : list Domain) : CPUSocket :=
  mkSocket (s_id s) ds (s_record_buffer s) (s_buffer_max_kbytes s) (s_cpu_cores s) (s_stat_buffer s) (s_sensor_data s).
Definition set_s_records (s : CPUSocket) (b : list record) : CPUSocket :=
  mkSocket (s_id s) (s_domains s) b (s_buffer_max_kbytes s) (s_cpu_cores s) (s_stat_buffer s) (s_sensor_data s).
Definition set_s_stats (s : CPUSocket) (b : list CPUStat) : CPUSocket :=
  mkSocket (s_id s) (s_domains s) (s_record_buffer s) (s_buffer_max_kbytes s) (s_cpu_cores s) b (s_sensor_data s).
Definition set_sockets (t : Topology) (ss : list CPUSocket) : Topology :=
  mkTopology ss (proc_tracker t) (t_stat_buffer t) (t_record_buffer t) (t_buffer_max_kbytes t) (domains_names t) (t_sensor_data t).
Definition set_tracker (t : Topology) (pt : ProcessTracker) : Topology :=
  mkTopology (sockets t) pt (t_stat_buffer t) (t_record_buffer t) (t_buffer_max_kbytes t) (domains_names t) (t_sensor_data t).
Definition set_t_stats (t : Topology) (b : list CPUStat) : Topology :=
  mkTopology (sockets t) (proc_tracker t) b (t_record_buffer t) (t_buffer_max_kbytes t) (domains_names t) (t_sensor_data t).
Definition set_t_records (t : Topology) (b : list record) : Topology :=
  mkTopology (sockets t) (proc_tracker t) (t_stat_buffer t) b (t_buffer_max_kbytes t) (domains_names t) (t_sensor_data t).
Definition set_names (t : Topology) (names : option (list str)) : Topology :=
  mkTopology (sockets t) (proc_tracker t) (t_stat_buffer t) (t_record_buffer t) (t_buffer_max_kbytes t) names (t_sensor_data t).

(** *** Building the topology *)

Definition new_domain (id : Z) (name : str) (buffer_max_kbytes : Z) (sensor_data : gmap str str) : Domain :=
  mkDomain id name [] buffer_max_kbytes sensor_data.
Definition new_socket (id : Z) (domains : list Domain) (buffer_max_kbytes : Z) (sensor_data : gmap str str) : CPUSocket :=
  mkSocket id domains [] buffer_max_kbytes [] [] sensor_data.
Definition new_tracker (max_records_per_process : Z) : ProcessTracker := mkTracker [] max_records_per_process.
Definition new_topology (sensor_data : gmap str str) : Topology := mkTopology [] (new_tracker 5) [] [] 1 None sensor_data.

Definition safe_insert_socket (t : Topology) (s : CPUSocket) : Topology :=
  if existsb (fun s' => s_id s' =? s_id s) (sockets t) then t else set_sockets t (sockets t ++ [s]).
Definition safe_add_socket (t : Topology) (socket_id : Z) (domains : list Domain) (buffer_max_kbytes : Z) (sensor_data : gmap str str)
    : Topology * option CPUSocket :=
  if existsb (fun s => s_id s =? socket_id) (sockets t) then (t, None) else
  let socket := new_socket socket_id domains buffer_max_kbytes sensor_data in
  (set_sockets t (sockets t ++ [socket]), Some socket).

Definition safe_add_domain (s : CPUSocket) (d : Domain) : CPUSocket :=
  if existsb (fun d' => d_id d' =? d_id d) (s_domains s) then s else set_domains s (s_domains s ++ [d]).

(** The order of strings is that of their code points. *)
Fixpoint str_leb (a b : str) : bool :=
  match a, b with
  | [], _ => true
  | _ :: _, [] => false
  | x :: a, y :: b => (x <? y) || ((x =? y) && str_leb a b)
  end.

Definition build_domains_names (t : Topology) : Topology :=
  let names := remove_dups (concat (map (fun s => map d_name (s_domains s)) (sockets t))) in
  set_names t (Some (merge_sort (fun a b => Is_true (str_leb a b)) names)).

Definition safe_add_domain_to_socket (t : Topology) (socket_id domain_id : Z) (name : str) (buffer_max_kbytes : Z) (sensor_data : gmap str str) : Topology :=
  build_domains_names (set_sockets t (map (fun s =>
    if s_id s =? socket_id then safe_add_domain s (new_domain domain_id name buffer_max_kbytes sensor_data) else s) (sockets t))).

(** A core goes to the socket of its physical id, or to the first one; there must
    be one. *)
Definition add_cpu_core (s : CPUSocket) (c : CPUCore) : CPUSocket :=
  mkSocket (s_id s) (s_domains s) (s_record_buffer s) (s_buffer_max_kbytes s) (s_cpu_cores s ++ [c]) (s_stat_buffer s) (s_sensor_data s).
Definition place_core (t : Topology) (c : CPUCore) : res Topology :=
  attribute ← of_option (c_attributes c !! lit "physical id");
  socket_id ← of_option (parse_unsigned 16 attribute);
  match list_find (fun s => Is_true (s_id s =? socket_id)) (sockets t) with
  | Some (i, s) => Ret (set_sockets t (<[i := add_cpu_core s c]> (sockets t)))
  | None => match sockets t with [] => Abort | s :: ss => Ret (set_sockets t (add_cpu_core s c :: ss)) end
  end.
Fixpoint place_cores (t : Topology) (cores : list CPUCore) : res Topology :=
  match cores with
  | [] => Ret t
  | c :: cores => t ← place_core t c; place_cores t cores
  end.

(** The attributes [sysinfo] has replace those of [/proc/cpuinfo]; the number of the
    next core is computed before the next core is looked for. *)
Fixpoint number_cores `{Build} (info : nat -> option (gmap str str)) (id : Z) (cpus : list (gmap str str)) : res (list CPUCore) :=
  next ← rust_uint 16 (id + 1);
  match cpus with
  | [] => Ret []
  | c :: cpus =>
      attributes ← of_option (info (Z.to_nat id));
      cores ← number_cores info next cpus;
      Ret (mkCore id (c ∪ attributes) :: cores)
  end.
Definition generate_cpu_cores `{Build} `{World} : io (list CPUCore) :=
  cs ← observe cpus;
  r ← observe cpuinfo;
  info ← lift (of_option r);
  lift (number_cores info 0 cs).

(** The cores are taken from the end. *)
Definition add_cpu_cores `{Build} `{World} (t : Topology) : io Topology :=
  cores ← generate_cpu_cores; lift (place_cores t (rev cores)).

Section Sensors.
Context `{Build} `{World}.

(** *** Reading *)

(** [read_record] of a socket and of a domain; [None] is an error. *)
Definition read_counter (sensor_data : gmap str str) : io (option record) :=
  source_file ← lift (of_option (sensor_data !! lit "source_file"));
  r ← observe (fun n => file n source_file);
  match r with
  | Some result => now ← observe clock; mret (Some (Rec now result MicroJoule))
  | None => mret None
  end.
Definition socket_read_record (s : CPUSocket) : io (option record) := read_counter (s_sensor_data s).
Definition domain_read_record (d : Domain) : io (option record) := read_counter (d_sensor_data d).

Definition get_rapl_psys_energy_microjoules (t : Topology) : io (option record) :=
  match t_sensor_data t !! lit "psys" with
  | Some psys =>
      r ← observe (fun n => file n (psys ++ lit "/energy_uj"));
      match r with
      | Some val => now ← observe clock; mret (Some (Rec now val MicroJoule))
      | None => mret None
      end
  | None => mret None
  end.

(** Of a socket and of a domain. *)
Definition get_rapl_mmio_energy_microjoules (sensor_data : gmap str str) : io (option record) :=
  match sensor_data !! lit "mmio" with
  | Some mmio =>
      r ← observe (fun n => file n mmio);
      match r with
      | Some val => now ← observe clock; mret (Some (Rec now val MicroJoule))
      | None => mret None
      end
  | None => mret None
  end.

(** A value that is no integer is left out. *)
Definition add_value (r : option record) (sum : Z) : io Z :=
  match r with
  | Some r => match parse_signed 128 (trim (value r)) with Some val => lift (rust_sint 128 (sum + val)) | None => mret sum end
  | None => mret sum
  end.

Fixpoint sum_domains (ds : list Domain) (sum : Z) : io Z :=
  match ds with
  | [] => mret sum
  | d :: ds =>
      if bool_decide (d_name d = lit "dram") then r ← domain_read_record d; sum ← add_value r sum; sum_domains ds sum
      else sum_domains ds sum
  end.
Fixpoint sum_sockets (ss : list CPUSocket) (sum : Z) : io Z :=
  match ss with
  | [] => mret sum
  | s :: ss => r ← socket_read_record s; sum ← add_value r sum; sum ← sum_domains (s_domains s) sum; sum_sockets ss sum
  end.

Definition topology_read_record (t : Topology) : io (option record) :=
  psys ← get_rapl_psys_energy_microjoules t;
  match psys with
  | Some psys_record => mret (Some psys_record)
  | None => sum ← sum_sockets (sockets t) 0; now ← observe clock; mret (Some (Rec now (to_string sum) MicroJoule))
  end.

(** *** Records *)

Definition domain_clean_old_records (d : Domain) : res Domain :=
  b ← clean_buffer record_size id remove_first (d_buffer_max_kbytes d) (d_record_buffer d); Ret (set_d_records d b).
Definition socket_clean_old_records (s : CPUSocket) : res CPUSocket :=
  b ← clean_buffer record_size id remove_first (s_buffer_max_kbytes s) (s_record_buffer s); Ret (set_s_records s b).
(** The size is compared as a [u16]. *)
Definition topology_clean_old_records (t : Topology) : res Topology :=
  b ← clean_buffer record_size (uwrap 16) remove_first (t_buffer_max_kbytes t) (t_record_buffer t); Ret (set_t_records t b).

Definition push_record (r : option record) (b : list record) : list record := match r with Some r => b ++ [r] | None => b end.

Definition domain_refresh_record (d : Domain) : io Domain :=
  r ← domain_read_record d;
  let d := set_d_records d (push_record r (d_record_buffer d)) in
  match d_record_buffer d with [] => mret d | _ => lift (domain_clean_old_records d) end.
Definition socket_refresh_record (s : CPUSocket) : io CPUSocket :=
  r ← socket_read_record s;
  let s := set_s_records s (push_record r (s_record_buffer s)) in
  match s_record_buffer s with [] => mret s | _ => lift (socket_clean_old_records s) end.
Definition topology_refresh_record (t : Topology) : io Topology :=
  r ← topology_read_record t;
  let t := set_t_records t (push_record r (t_record_buffer t)) in
  match t_record_buffer t with [] => mret t | _ => lift (topology_clean_old_records t) end.

Definition get_records_passive (b : list record) : list record := map (fun r => Rec (timestamp r) (value r) MicroJoule) b.

(** *** Powers *)

Definition microwatts (microjoules : Z) (last previous : record) : record :=
  let time_diff := (as_secs_f64 (timestamp last) - as_secs_f64 (timestamp previous))%F in
  Rec (timestamp last) (to_string (float_to_uint 64 (f_of_Z microjoules / time_diff)%F)) MicroWatt.

(** The last two records. *)
Definition last_two (b : list record) : option (record * record) :=
  match rev b with last :: previous :: _ => Some (last, previous) | _ => None end.

Definition topology_power_microwatts (t : Topology) : option record :=
  match last_two (t_record_buffer t) with
  | None => None
  | Some (last, previous) =>
      match parse_unsigned 128 (trim (value previous)), parse_unsigned 128 (trim (value last)) with
      | Some p, Some l => if l <? p then None else Some (microwatts (l - p) last previous)
      | _, _ => None
      end
  end.
(** A counter that has decreased counts as no energy. *)
Definition socket_power_microwatts (s : CPUSocket) : option record :=
  match last_two (s_record_buffer s) with
  | None => None
  | Some (last, previous) =>
      match parse_unsigned 64 (trim (value last)), parse_unsigned 64 (trim (value previous)) with
      | Some l, Some p => Some (microwatts (if p <=? l then l - p else 0) last previous)
      | _, _ => None
      end
  end.
Definition domain_power_microwatts (d : Domain) : option record :=
  match last_two (d_record_buffer d) with
  | None => None
  | Some (last, previous) =>
      match parse_unsigned 64 (trim (value last)), parse_unsigned 64 (trim (value previous)) with
      | Some l, Some p => if l <? p then None else Some (microwatts (l - p) last previous)
      | _, _ => None
      end
  end.

(** [get_records_diff]: neither value is trimmed, and three records are needed. *)
Definition get_records_diff (t : Topology) : res (option record) :=
  if (2 <? length (t_record_buffer t))%nat then
    '(last, previous) ← of_option (last_two (t_record_buffer t));
    l ← of_option (parse_unsigned 64 (value last));
    p ← of_option (parse_unsigned 64 (value previous));
    Ret (if p <=? l then Some (Rec (timestamp last) (to_string (l - p)) (unit_of last)) else None)
  else Ret None.

(** *** Processor times *)

Definition core_read_stats (c : CPUCore) : io (option CPUStat) :=
  k ← observe kernel_stats;
  match k with
  | Some kernelstats => s ← lift (of_option (cpu_time kernelstats !! Z.to_nat (c_id c))); mret (Some s)
  | None => mret None
  end.

Definition unwrap_or_default (x : option Z) : Z := match x with Some x => x | None => 0 end.
Definition add_opt (a b : option Z) : io (option Z) := x ← lift (rust_uint 64 (unwrap_or_default a + unwrap_or_default b)); mret (Some x).

Definition add_core_stats (stats c : CPUStat) : io CPUStat :=
  user' ← lift (rust_uint 64 (user stats + user c));
  nice' ← lift (rust_uint 64 (nice stats + nice c));
  system' ← lift (rust_uint 64 (system stats + system c));
  idle' ← lift (rust_uint 64 (idle stats + idle c));
  iowait' ← add_opt (iowait stats) (iowait c);
  irq' ← add_opt (irq stats) (irq c);
  softirq' ← add_opt (softirq stats) (softirq c);
  mret (Stat user' nice' system' idle' irq' iowait' softirq' (steal stats) (guest stats) (guest_nice stats)).

Fixpoint sum_cores (cs : list CPUCore) (stats : CPUStat) : io CPUStat :=
  match cs with
  | [] => mret stats
  | c :: cs =>
      r ← core_read_stats c;
      match r with Some c_stats => stats ← add_core_stats stats c_stats; sum_cores cs stats | None => sum_cores cs stats end
  end.
Definition socket_read_stats (s : CPUSocket) : io CPUStat :=
  sum_cores (s_cpu_cores s) (Stat 0 0 0 0 (Some 0) (Some 0) (Some 0) (Some 0) (Some 0) (Some 0)).
Definition topology_read_stats : io (option CPUStat) := k ← observe kernel_stats; mret (total <$> k).

Definition socket_clean_old_stats (s : CPUSocket) : res CPUSocket :=
  b ← clean_buffer stat_size id pop_last (s_buffer_max_kbytes s) (s_stat_buffer s); Ret (set_s_stats s b).
Definition topology_clean_old_stats (t : Topology) : res Topology :=
  b ← clean_buffer stat_size id pop_last (t_buffer_max_kbytes t) (t_stat_buffer t); Ret (set_t_stats t b).

(** A socket cleans before it inserts, the host afterwards. *)
Definition socket_refresh_stats (s : CPUSocket) : io CPUSocket :=
  s ← match s_stat_buffer s with [] => mret s | _ => lift (socket_clean_old_stats s) end;
  stats ← socket_read_stats s;
  mret (set_s_stats s (stats :: s_stat_buffer s)).
Definition topology_refresh_stats (t : Topology) : io Topology :=
  r ← topology_read_stats;
  match r with
  | Some stats => lift (topology_clean_old_stats (set_t_stats t (stats :: t_stat_buffer t)))
  | None => mret t
  end.

Definition diff_opt (last previous : option Z) : res (option Z) :=
  match last, previous with Some l, Some p => d ← rust_uint 64 (l - p); Ret (Some d) | _, _ => Ret None end.

(** [get_stats_diff] of the host and of a socket; the newest is the first. *)
Definition get_stats_diff (b : list CPUStat) : res (option CPUStat) :=
  match b with
  | last :: previous :: _ =>
      iowait' ← diff_opt (iowait last) (iowait previous);
      irq' ← diff_opt (irq last) (irq previous);
      softirq' ← diff_opt (softirq last) (softirq previous);
      steal' ← diff_opt (steal last) (steal previous);
      guest' ← diff_opt (guest last) (guest previous);
      guest_nice' ← diff_opt (guest_nice last) (guest_nice previous);
      user' ← rust_uint 64 (user last - user previous);
      nice' ← rust_uint 64 (nice last - nice previous);
      system' ← rust_uint 64 (system last - system previous);
      idle' ← rust_uint 64 (idle last - idle previous);
      Ret (Some (Stat user' nice' system' idle' irq' iowait' softirq' steal' guest' guest_nice'))
  | _ => Ret None
  end.

Definition total_time_jiffies (s : CPUStat) : res Z :=
  a ← rust_uint 64 (user s + nice s);
  a ← rust_uint 64 (a + system s);
  a ← rust_uint 64 (a + unwrap_or_default (guest_nice s));
  rust_uint 64 (a + unwrap_or_default (guest s)).
End Sensors.

(** ** The tracker of processes *)

(** The stable sort by falling timestamps. *)
Fixpoint insert_by_time (r : ProcessRecord) (l : list ProcessRecord) : list ProcessRecord :=
  match l with
  | [] => [r]
  | r' :: l' => if dur_ltb (p_timestamp r) (p_timestamp r') then r' :: insert_by_time r l' else r :: l
  end.
Definition sort_by_time (l : list ProcessRecord) : list ProcessRecord := foldr insert_by_time [] l.

Fixpoint clean_loop (n : nat) (records : list ProcessRecord) : res (list ProcessRecord) :=
  match n with
  | O => Ret records
  | S n =>
      let records := sort_by_time records in
      match records with [] => Abort | _ => clean_loop n (removelast records) end
  end.
Definition clean_old_process_records (records : list ProcessRecord) (max_records_per_process : Z) : res (list ProcessRecord) :=
  let len := Z.of_nat (length records) in
  if max_records_per_process <? len then clean_loop (Z.to_nat (len - max_records_per_process)) records else Ret records.

Definition has_pid (p : Z) (v : list ProcessRecord) : bool :=
  match v with [] => false | r :: _ => pid (process r) =? p end.

Definition add_record (pt : ProcessTracker) (r : ProcessRecord) : res ProcessTracker :=
  match list_find (fun v => Is_true (has_pid (pid (process r)) v)) (procs pt) with
  | Some (i, vector) =>
      let vector :=
        match vector with
        | first :: _ => if bool_decide (comm (process r) = comm (process first)) then vector else []
        | [] => vector
        end in
      vector ← clean_old_process_records (r :: vector) (max_records_per_process pt);
      Ret (mkTracker (<[i := vector]> (procs pt)) (max_records_per_process pt))
  | None => Ret (mkTracker (procs pt ++ [[r]]) (max_records_per_process pt))
  end.
Definition add_process_record `{World} (pt : ProcessTracker) (process : IProcess) : io ProcessTracker :=
  now ← observe clock; lift (add_record pt (PRec process now)).

(** The last vector of a process. *)
Definition find_records (pt : ProcessTracker) (p : Z) : option (list ProcessRecord) :=
  foldl (fun refer v => if has_pid p v then Some v else refer) None (procs pt).
Definition get_process_last_record (pt : ProcessTracker) (p : Z) : option ProcessRecord := r ← find_records pt p; head r.

(** A panic for no vector, and for two. *)
Definition get_process_name (pt : ProcessTracker) (p : Z) : res str :=
  match List.filter (has_pid p) (procs pt) with
  | [r :: _] => Ret (comm (process r))
  | _ => Abort
  end.
Definition get_all_pids (pt : ProcessTracker) : list Z :=
  map (fun v => match v with r :: _ => pid (process r) | [] => 0 end) (List.filter (fun v => match v with [] => false | _ => true end) (procs pt)).
Definition get_alive_pids (pt : ProcessTracker) (status : Z -> option ProcessStatus) : list Z :=
  List.filter (fun p => match status p with Some st => negb (bool_decide (st = Dead)) | None => false end) (get_all_pids pt).
Definition process_total_time_jiffies `{Build} (pt : ProcessTracker) (p : Z) : res Z :=
  match get_process_last_record pt p with
  | Some r => rust_uint 64 (stime (process r) + utime (process r))
  | None => Ret 0
  end.

(** [for i in 0..(procs.len() - 1)]; the vectors after a removed one move up. *)
Fixpoint drop_empty_loop (n i : nat) (procs : list (list ProcessRecord)) : list (list ProcessRecord) :=
  match n with
  | O => procs
  | S n => drop_empty_loop n (S i) (match procs !! i with Some [] => delete i procs | _ => procs end)
  end.
Definition drop_empty_process_records_vectors (pt : ProcessTracker) : ProcessTracker :=
  mkTracker (match procs pt with [] => [] | _ => drop_empty_loop (length (procs pt) - 1) 0 (procs pt) end) (max_records_per_process pt).

(** Vectors of processes that have stopped or are gone become empty. *)
Definition clean_vector (status : Z -> option ProcessStatus) (v : list ProcessRecord) : list ProcessRecord :=
  match v with
  | [] => []
  | first :: _ =>
      match status (pid (process first)) with
      | Some Stop | None => []
      | Some _ => v
      end
  end.
Definition clean_terminated_process_records_vectors (pt : ProcessTracker) (status : Z -> option ProcessStatus) : ProcessTracker :=
  drop_empty_process_records_vectors (mkTracker (map (clean_vector status) (procs pt)) (max_records_per_process pt)).

(** *** Power of a process *)

(** [x as f64] of an [f32]. *)
Definition f64_of_f32 (x : spec_float) : float :=
  match x with
  | S754_finite sg m e => binary_normalize 53 1024 (if sg then Z.neg m else Z.pos m) e sg
  | _ => x
  end.

(** The share of a process in the power of the host, before it is printed. *)
Definition process_power_microwatts (t : Topology) (nb_cores p : Z) : option (Duration * float) :=
  r ← get_process_last_record (proc_tracker t) p;
  let process_cpu_percentage := f32_div (cpu_usage_percentage (process r)) (f32_of_Z nb_cores) in
  conso ← topology_power_microwatts t;
  conso_f64 ← parse_unsigned 64 (value conso);
  Some (p_timestamp r, (f_of_Z conso_f64 * f64_of_f32 process_cpu_percentage / f_of_Z 100)%F).

(** ** One round *)

Section Refresh.
Context `{Build} `{World}.

Fixpoint add_processes (pt : ProcessTracker) (ps : list IProcess) : io ProcessTracker :=
  match ps with
  | [] => mret pt
  | p :: ps => pt ← add_process_record pt p; add_processes pt ps
  end.
Definition refresh_procs (t : Topology) : io Topology :=
  current ← observe processes;
  current_procs ← lift (new_processes current);
  pt ← add_processes (proc_tracker t) current_procs;
  mret (set_tracker t pt).

Definition refresh_socket (s : CPUSocket) : io CPUSocket :=
  s ← socket_refresh_record s;
  s ← socket_refresh_stats s;
  ds ← for_each domain_refresh_record (s_domains s);
  mret (set_domains s ds).

Definition refresh (t : Topology) : io Topology :=
  ss ← for_each refresh_socket (sockets t);
  t ← refresh_procs (set_sockets t ss);
  t ← topology_refresh_record t;
  topology_refresh_stats t.

(** What an exporter does between two reports. *)
Definition next_report (t : Topology) : io Topology :=
  st ← observe status;
  refresh (set_tracker t (clean_terminated_process_records_vectors (proc_tracker t) st)).
Fixpoint reports (n : nat) (t : Topology) : io Topology :=
  match n with
  | O => mret t
  | S n => t ← next_report t; reports n t
  end.
End Refresh.
