(* ===== verification/ScaphBuffer.v ===== *)
(** * The buffers of the attribution agent are sliding windows

    How many elements a buffer keeps follows from divisions of single-precision
    numbers, which are evaluated for every admissible limit.  A buffer of records
    has the last readings that succeeded, as many as its [window]; a buffer of
    processor times has them newest first. *)
From stdpp Require Import gmap strings.
From Stdlib Require Import SpecFloat.
From S2P Require Import Prelude NumStr PyFloat Scaph.

Local Open Scope Z_scope.

(** One more than as many elements as reach the limit. *)
Definition window (size kb : Z) : nat := Z.to_nat ((kb * 1000 + size - 1) / size + 1).

Definition last_n {A} (n : nat) (l : list A) : list A := drop (length l - n) l.

(** ** Numbers of deletions *)

(** At the window nothing is deleted, one above it one element. *)
Definition deletes_at (size kb : Z) : bool :=
  let w := Z.of_nat (window size kb) in
  let diff := size * w - kb * 1000 in
  (size * (w + 1) <? 65536) && ((diff <=? size) || (nb_to_delete diff size =? 0)%nat) && (nb_to_delete (diff + size) size =? 1)%nat.

Lemma deletes_table : forallb (fun k => deletes_at 48 k && deletes_at 128 k) (seqZ 0 66) = true.
Proof. vm_compute. reflexivity. Qed.

(** Limits for which neither two readings are too many nor the limit in bytes is too
    large for 16 bits. *)
Definition kb_ok (kb : Z) : Prop := 1 <= kb <= 65.

Lemma deletes_ok size kb : size = 48 \/ size = 128 -> kb_ok kb -> deletes_at size kb = true.
Proof.
  intros Hs Hk. pose proof deletes_table as Ht. rewrite forallb_forall in Ht. specialize (Ht kb).
  assert (In kb (seqZ 0 66)) as Hin by (apply list_elem_of_In, elem_of_seqZ; unfold kb_ok in Hk; lia).
  apply Ht, andb_prop in Hin as [H1 H2]. by destruct Hs as [->| ->].
Qed.

(** ** Cleaning *)

Lemma rust_uint_ok `{Build} w x : 0 <= x < 2 ^ w -> rust_uint w x = Ret x.
Proof. intros Hx. unfold rust_uint. by rewrite (proj2 (Z.leb_le 0 x)), (proj2 (Z.ltb_lt x (2 ^ w))) by lia. Qed.
Lemma rust_sint_ok `{Build} w x : - 2 ^ (w - 1) <= x < 2 ^ (w - 1) -> rust_sint w x = Ret x.
Proof. intros Hx. unfold rust_sint. by rewrite (proj2 (Z.leb_le _ x)), (proj2 (Z.ltb_lt x _)) by lia. Qed.

Section Clean.
Context `{Build} {A : Type}.
Context (size kb : Z) (seen : Z -> Z) (delete : nat -> list A -> list A).
Hypothesis Hsize : size = 48 \/ size = 128.
Hypothesis Hkb : kb_ok kb.
Hypothesis Hseen : forall x, 0 <= x < 65536 -> seen x = x.
Hypothesis Hdelete : forall b, delete 0%nat b = b.
Local Abbreviation w := (window size kb).

Lemma window_bounds : kb * 1000 <= size * (Z.of_nat w - 1) < kb * 1000 + size.
Proof using Hsize Hkb.
  unfold window. unfold kb_ok in Hkb. rewrite Z2Nat.id by (assert (0 <= (kb * 1000 + size - 1) / size) by (apply Z.div_pos; lia); lia).
  pose proof (Z.div_mod (kb * 1000 + size - 1) size ltac:(lia)). pose proof (Z.mod_pos_bound (kb * 1000 + size - 1) size ltac:(lia)).
  rewrite Z.add_simpl_r. lia.
Qed.

Lemma clean_buffer_spec (b : list A) :
  b <> [] -> (length b <= S w)%nat -> clean_buffer size seen delete kb b = Ret (if (length b =? S w)%nat then delete 1%nat b else b).
Proof using Hsize Hkb Hseen Hdelete.
  intros Hne Hl. pose proof (deletes_ok size kb Hsize Hkb) as Hd. pose proof window_bounds as Hw. unfold kb_ok in Hkb.
  unfold deletes_at in Hd. cbv zeta in Hd. apply andb_prop in Hd as [Hd H1]. apply andb_prop in Hd as [Hlt H0].
  apply Z.ltb_lt in Hlt. apply Nat.eqb_eq in H1. unfold clean_buffer.
  assert (0 <= size * Z.of_nat (length b) < 65536) as Hc by (destruct Hsize as [-> | ->]; lia).
  rewrite !rust_uint_ok by lia. destruct b as [|x b']; [done|]. set (b := x :: b') in *. cbn [head hd_error of_option mbind res_bind]. rewrite Hseen by done.
  destruct (Z.ltb_spec (kb * 1000) (size * Z.of_nat (length b))) as [Hgt|Hle].
  2:{ rewrite (proj2 (Nat.eqb_neq _ _)) by (destruct Hsize as [-> | ->]; lia). done. }
  rewrite rust_uint_ok by lia. cbn [mbind res_bind]. destruct (Nat.eqb_spec (length b) (S w)) as [El|El].
  - rewrite El. replace (size * Z.of_nat (S w) - kb * 1000) with (size * Z.of_nat w - kb * 1000 + size) by lia.
    rewrite (proj2 (Z.ltb_lt _ _)) by lia. by rewrite H1.
  - destruct (Z.ltb_spec size (size * Z.of_nat (length b) - kb * 1000)) as [Hs|Hs]; [|done].
    assert (length b = w) as Ew by (destruct Hsize as [-> | ->]; lia). rewrite Ew in *.
    apply orb_prop in H0 as [H0|H0]; [apply Z.leb_le in H0; lia|]. apply Nat.eqb_eq in H0. by rewrite H0, Hdelete.
Qed.
End Clean.

(** ** Windows *)

Lemma last_n_snoc {A} n (l : list A) x : (0 < n)%nat -> last_n n (l ++ [x]) = (if (length l <? n)%nat then last_n n l else drop 1 (last_n n l)) ++ [x].
Proof.
  intros Hn. unfold last_n. rewrite length_app. cbn [length]. destruct (Nat.ltb_spec (length l) n).
  - rewrite !(proj2 (Nat.sub_0_le _ _)) by lia. done.
  - rewrite drop_drop, drop_app_le by lia. f_equal. f_equal. lia.
Qed.
Lemma length_last_n {A} n (l : list A) : length (last_n n l) = Nat.min n (length l).
Proof. unfold last_n. rewrite length_drop. lia. Qed.

Lemma window_pos size kb : 0 < size -> 0 <= kb -> (0 < window size kb)%nat.
Proof. intros Hs Hk. unfold window. assert (0 <= (kb * 1000 + size - 1) / size) by (apply Z.div_pos; lia). lia. Qed.

(** One round of a buffer of records. *)
Lemma refresh_records `{Build} kb (seen : Z -> Z) (h : list record) r :
  kb_ok kb -> (forall x, 0 <= x < 65536 -> seen x = x) ->
  let w := window record_size kb in
  let b := push_record r (last_n w h) in
  (b = [] -> last_n w (push_record r h) = []) /\
  (b <> [] -> clean_buffer record_size seen remove_first kb b = Ret (last_n w (push_record r h))).
Proof.
  intros Hk Hs w. assert (0 < w)%nat as Hw by (apply window_pos; [done|unfold kb_ok in Hk; lia]).
  assert (length (last_n w h) <= w)%nat as Hl by (rewrite length_last_n; lia). cbv zeta.
  destruct r as [r|]; cbn [push_record].
  - split; [by destruct (last_n w h)|]. intros Hne. rewrite (clean_buffer_spec record_size kb seen remove_first) by (done || (by left) || (rewrite length_app; cbn; fold w; lia)).
    f_equal. fold w. rewrite last_n_snoc by done. rewrite length_app, length_last_n. cbn [length].
    destruct (Nat.ltb_spec (length h) w) as [Hh|Hh].
    + rewrite (proj2 (Nat.eqb_neq _ _)) by lia. done.
    + rewrite (proj2 (Nat.eqb_eq _ _)) by lia. change (remove_first 1 ?b) with (drop 1 b). rewrite drop_app_le; [done|]. rewrite length_last_n. lia.
  - split; [done|]. intros Hne. rewrite (clean_buffer_spec record_size kb seen remove_first) by (done || (by left) || (fold w; lia)).
    by rewrite (proj2 (Nat.eqb_neq _ _)) by (fold w; lia).
Qed.

(** Processor times, newest first. *)
Lemma pop_last_take {A} (x : A) (l : list A) : pop_last 1 (x :: l) = take (length l) (x :: l).
Proof. cbn [pop_last]. rewrite removelast_firstn_len. done. Qed.

Lemma clean_stats `{Build} kb (b : list CPUStat) :
  kb_ok kb -> b <> [] -> (length b <= S (window stat_size kb))%nat ->
  clean_buffer stat_size id pop_last kb b = Ret (take (window stat_size kb) b).
Proof.
  intros Hk Hne Hl. rewrite (clean_buffer_spec stat_size kb id pop_last (or_intror eq_refl) Hk) by done. f_equal.
  destruct (Nat.eqb_spec (length b) (S (window stat_size kb))) as [El|El]; [|by rewrite take_ge by lia].
  destruct b as [|x b]; [done|]. rewrite pop_last_take. by injection El as ->.
Qed.
