(* ===== verification/ScaphTracker.v ===== *)
(** * The tracker of processes

    The vectors of the tracker are a finite map from process ids to the last
    records of each process, if the clock does not go back.  Without an assumption
    on the clock there is one vector for a process at most, none is longer than
    allowed, and no lookup of a tracked process panics. *)
From stdpp Require Import gmap strings.
From S2P Require Import Prelude NumStr PyFloat Scaph ScaphBuffer.

Local Open Scope Z_scope.

(** ** Running processes *)

(** Of a process there is a path in UTF-8, and its number is an [i32]. *)
Definition running_ok (r : running) : Prop := is_Some (exe r) /\ - 2 ^ 31 <= run_pid r < 2 ^ 31.

Lemma parse_udec max n s : forall v, 0 <= v <= max -> v < 10 ^ Z.of_nat (S n) -> parse_digits max (udec_fuel (S n) v ++ s) 0 = parse_digits max s v.
Proof.
  revert s. induction n as [|n IH]; intros s v Hv Hn; cbn [udec_fuel].
  - rewrite (proj2 (Z.ltb_lt v 10)) by lia. cbn [app parse_digits]. rewrite (proj2 (Z.leb_le 48 _)), (proj2 (Z.leb_le _ 57)), (proj2 (Z.ltb_ge max _)) by lia.
    cbn [andb]. f_equal. lia.
  - pose proof (Z.div_mod v 10 ltac:(lia)). pose proof (Z.mod_pos_bound v 10 ltac:(lia)). rewrite Nat2Z.inj_succ, Z.pow_succ_r in Hn by lia.
    destruct (Z.ltb_spec v 10) as [Hs|Hs].
    + cbn [app parse_digits]. rewrite (proj2 (Z.leb_le 48 _)), (proj2 (Z.leb_le _ 57)), (proj2 (Z.ltb_ge max _)) by lia. cbn [andb]. f_equal. lia.
    + rewrite <- app_assoc. change (if v / 10 <? 10 then _ else _) with (udec_fuel (S n) (v / 10)). rewrite IH by lia.
      cbn [app parse_digits]. rewrite (proj2 (Z.leb_le 48 _)), (proj2 (Z.leb_le _ 57)), (proj2 (Z.ltb_ge max _)) by lia. cbn [andb]. f_equal. lia.
Qed.
Lemma udec_head n v : 0 <= v -> exists c s, udec_fuel (S n) v = c :: s /\ 48 <= c <= 57.
Proof.
  revert v. induction n as [|n IH]; intros v Hv; cbn [udec_fuel].
  - pose proof (Z.mod_pos_bound v 10 ltac:(lia)). destruct (Z.ltb_spec v 10); eexists _, _; (split; [reflexivity|lia]).
  - destruct (Z.ltb_spec v 10); [eexists _, _; split; [reflexivity|lia]|].
    destruct (IH (v / 10)) as (c & s & E & Hc); [apply Z.div_pos; lia|]. change (if v / 10 <? 10 then _ else _) with (udec_fuel (S n) (v / 10)). rewrite E.
    by exists c, (s ++ [48 + v mod 10]).
Qed.
(** The decimal form of a 32-bit number is read back. *)
Lemma parse_to_string v : - 2 ^ 31 <= v < 2 ^ 31 -> parse_signed 32 (to_string v) = Some v.
Proof.
  intros Hv. unfold to_string, parse_signed. destruct (Z.ltb_spec v 0) as [Hn|Hn].
  - pose proof (parse_udec (2 ^ (32 - 1)) 39 [] (- v) ltac:(lia)) as E. rewrite app_nil_r in E. destruct (udec_head 39 (- v) ltac:(lia)) as (c & s & Ec & _).
    rewrite Ec in *. rewrite E by lia. cbn. f_equal. lia.
  - pose proof (parse_udec (2 ^ (32 - 1) - 1) 39 [] v ltac:(lia)) as E. rewrite app_nil_r in E. destruct (udec_head 39 v ltac:(lia)) as (c & s & Ec & Hc).
    rewrite Ec in *. etransitivity; [|apply E; lia].
    destruct c as [|c|c]; [lia| |lia]. do 6 (destruct c as [c|c|]; try (exfalso; lia); try reflexivity).
Qed.

Lemma new_process_ok (r : running) : running_ok r -> exists p, new_process r = Ret p /\ pid p = run_pid r.
Proof.
  intros [[c Hc] Hp]. unfold new_process. rewrite parse_to_string by done. cbn [of_option mbind res_bind]. rewrite Hc.
  destruct (run_stat r) as [[st ut]|]; by eexists.
Qed.
Lemma new_processes_ok (l : list running) : Forall running_ok l -> exists ps, new_processes l = Ret ps.
Proof.
  induction 1 as [|r l Hr _ [ps IH]]; [by exists []|]. destruct (new_process_ok r Hr) as (p & E & _). exists (p :: ps). cbn [new_processes]. by rewrite E, IH.
Qed.

Implicit Types (v l : list ProcessRecord) (vs : list (list ProcessRecord)) (r : ProcessRecord) (pt : ProcessTracker) (p : Z).

(** ** Sorting and cleaning *)

Definition rpid r : Z := pid (process r).
(** Newest first. *)
Definition falling l : Prop := StronglySorted (fun a b => dur_ltb (p_timestamp a) (p_timestamp b) = false) l.

Lemma insert_by_time_perm r l : insert_by_time r l ≡ₚ r :: l.
Proof.
  induction l as [|r' l IH]; cbn [insert_by_time]; [done|]. destruct (dur_ltb _ _); [|done]. rewrite IH. apply Permutation_swap.
Qed.
Lemma sort_by_time_perm l : sort_by_time l ≡ₚ l.
Proof. induction l as [|r l IH]; [done|]. cbn [sort_by_time foldr]. rewrite insert_by_time_perm. by constructor. Qed.

Lemma sort_falling l : falling l -> sort_by_time l = l.
Proof.
  induction 1 as [|r l Hs IH Hall]; [done|]. cbn [sort_by_time foldr]. fold (sort_by_time l). rewrite IH. destruct l as [|r' l]; [done|]. cbn [insert_by_time].
  apply Forall_cons in Hall as [-> _]. done.
Qed.

Lemma falling_take n l : falling l -> falling (take n l).
Proof.
  intros Hs. revert n. induction Hs as [|r l Hs IH Hall]; intros [|n]; cbn [take]; try constructor; [apply IH|]. by apply Forall_take.
Qed.

Lemma removelast_take {A} (l : list A) : removelast l = take (length l - 1) l.
Proof. destruct l as [|x l]; [done|]. rewrite removelast_firstn_len. f_equal. cbn. lia. Qed.

Lemma clean_loop_spec n l :
  (n <= length l)%nat ->
  exists l', clean_loop n l = Ret l' /\ length l' = (length l - n)%nat /\ l' ⊆+ l /\ (falling l -> l' = take (length l - n) l).
Proof.
  revert l. induction n as [|n IH]; intros l Hn; cbn [clean_loop].
  { exists l. rewrite Nat.sub_0_r, take_ge by lia. done. }
  pose proof (sort_by_time_perm l) as Hp. apply Permutation_length in Hp as Hlen.
  assert (length (removelast (sort_by_time l)) = (length l - 1)%nat) as Hr by (rewrite removelast_take, length_take; lia).
  destruct (IH (removelast (sort_by_time l)) ltac:(lia)) as (l' & E & Hl' & Hsub & Hfall). exists l'.
  split; [destruct (sort_by_time l); [cbn in Hlen; lia|done]|]. split; [lia|]. split.
  - etransitivity; [exact Hsub|]. rewrite <- Hp at 2. rewrite removelast_take. apply sublist_submseteq, sublist_take.
  - intros Hs. rewrite (sort_falling l Hs), removelast_take in *. rewrite Hfall by (by apply falling_take).
    rewrite take_take, length_take. f_equal. lia.
Qed.

Lemma clean_old_spec l max :
  0 <= max -> exists l', clean_old_process_records l max = Ret l' /\ length l' = Nat.min (Z.to_nat max) (length l) /\ l' ⊆+ l /\
    (falling l -> l' = take (Z.to_nat max) l).
Proof.
  intros Hm. unfold clean_old_process_records. destruct (Z.ltb_spec max (Z.of_nat (length l))).
  - destruct (clean_loop_spec (Z.to_nat (Z.of_nat (length l) - max)) l ltac:(lia)) as (l' & -> & Hl & Hs & Hf).
    exists l'. split; [done|]. split; [lia|]. split; [done|]. intros Hfall. rewrite Hf by done. f_equal. lia.
  - exists l. rewrite take_ge by lia. split; [done|]. split; [lia|]. done.
Qed.

(** ** The map *)

Definition nonempty v : bool := match v with [] => false | _ => true end.
Definition head_pid v : Z := match v with r :: _ => rpid r | [] => 0 end.
Definition keyed v : Z * list ProcessRecord := (head_pid v, v).
Definition live vs : list (list ProcessRecord) := List.filter nonempty vs.
Definition records_of pt : gmap Z (list ProcessRecord) := list_to_map (map keyed (live (procs pt))).

Definition vector_ok (max : Z) v : Prop := Forall (fun r => rpid r = head_pid v) v /\ Z.of_nat (length v) <= max.
Record tracker_ok pt : Prop := {
  to_max : 1 <= max_records_per_process pt;
  to_vectors : Forall (vector_ok (max_records_per_process pt)) (procs pt);
  to_unique : NoDup (map head_pid (live (procs pt)));
}.

Lemma live_app vs vs' : live (vs ++ vs') = live vs ++ live vs'.
Proof. apply List.filter_app. Qed.

Lemma has_pid_keyed p v : has_pid p v = true <-> nonempty v = true /\ head_pid v = p.
Proof. destruct v as [|r v]; cbn; [by split; [|intros [? _]]|]. rewrite Z.eqb_eq. unfold rpid. naive_solver. Qed.

Lemma keyed_fst vs : (map keyed vs).*1 = map head_pid vs.
Proof. induction vs as [|v vs IH]; [done|]. cbn. by rewrite IH. Qed.

Lemma records_of_Some pt p v : tracker_ok pt -> records_of pt !! p = Some v <-> v ∈ procs pt /\ has_pid p v = true.
Proof.
  intros [_ _ Hu]. unfold records_of. rewrite <- elem_of_list_to_map by (by rewrite keyed_fst). rewrite list_elem_of_fmap. unfold keyed. split.
  - intros (v' & [= -> ->] & Hv). apply list_elem_of_In, filter_In in Hv as [Hv Hn]. split; [by apply list_elem_of_In|]. by apply has_pid_keyed.
  - intros [Hv [Hn <-]%has_pid_keyed]. exists v. split; [done|]. apply list_elem_of_In, filter_In. split; [by apply list_elem_of_In|done].
Qed.

(** At most one vector has a process. *)
Lemma filter_pid pt p : tracker_ok pt -> List.filter (has_pid p) (procs pt) = match records_of pt !! p with Some v => [v] | None => [] end.
Proof.
  intros Hok. pose proof (to_unique _ Hok) as Hu.
  assert (forall vs, NoDup (map head_pid (live vs)) -> forall v, v ∈ vs -> has_pid p v = true -> List.filter (has_pid p) vs = [v]) as Hone.
  { intros vs. induction vs as [|v0 vs IH]; intros Hnd v Hv Hp; [by apply not_elem_of_nil in Hv|]. cbn [List.filter].
    apply has_pid_keyed in Hp as Hp'. destruct Hp' as [Hn Hh]. unfold live in Hnd. cbn [List.filter] in Hnd. apply elem_of_cons in Hv as [<-|Hv].
    - rewrite Hp. rewrite Hn in Hnd. cbn [map] in Hnd. apply NoDup_cons in Hnd as [Hno _]. f_equal.
      destruct (List.filter (has_pid p) vs) as [|v1 l1] eqn:E; [done|]. assert (In v1 (List.filter (has_pid p) vs)) as Hin by (rewrite E; by left).
      apply filter_In in Hin as [Hin [Hn1 Hh1]%has_pid_keyed]. destruct Hno. apply list_elem_of_fmap. exists v1. split; [congruence|].
      apply list_elem_of_In, filter_In. done.
    - destruct (nonempty v0) eqn:E0; [cbn [map] in Hnd; apply NoDup_cons in Hnd as [Hno Hnd]|by rewrite (IH Hnd v Hv Hp); destruct v0].
      destruct (has_pid p v0) eqn:E; [|by apply IH]. apply has_pid_keyed in E as [_ E]. destruct Hno. apply list_elem_of_fmap. exists v. split; [congruence|].
      apply list_elem_of_In, filter_In. by rewrite <- list_elem_of_In. }
  destruct (records_of pt !! p) as [v|] eqn:E.
  - apply records_of_Some in E as [Hv Hp]; [|done]. by apply Hone.
  - destruct (List.filter (has_pid p) (procs pt)) as [|v l] eqn:El; [done|]. assert (In v (List.filter (has_pid p) (procs pt))) as Hin by (rewrite El; by left).
    apply filter_In in Hin as [Hin Hp]. apply list_elem_of_In in Hin. assert (records_of pt !! p = Some v) by (by apply records_of_Some). congruence.
Qed.

Lemma find_records_spec pt p : tracker_ok pt -> find_records pt p = records_of pt !! p.
Proof.
  intros Hok. assert (forall vs acc, foldl (fun refer v => if has_pid p v then Some v else refer) acc vs
    = match List.last (map Some (List.filter (has_pid p) vs)) None with Some v => Some v | None => acc end) as Hf.
  { intros vs. induction vs as [|v vs IH]; intros acc; [done|]. cbn [foldl List.filter]. rewrite IH. destruct (has_pid p v); [|done]. cbn [map].
    destruct (List.filter (has_pid p) vs) as [|v' l]; [done|]. cbn [map]. change (List.last (Some v :: Some v' :: map Some l) None) with (List.last (Some v' :: map Some l) None).
    by destruct (List.last (Some v' :: map Some l) None) eqn:E; [|exfalso; revert E; clear; revert v'; induction l as [|a l IH]; intros v'; [done|apply (IH a)]]. }
  unfold find_records. rewrite Hf, filter_pid by done. by destruct (records_of pt !! p).
Qed.

Lemma get_process_name_spec pt p r v : tracker_ok pt -> records_of pt !! p = Some (r :: v) -> get_process_name pt p = Ret (comm (process r)).
Proof. intros Hok E. unfold get_process_name. by rewrite filter_pid, E by done. Qed.

Lemma get_all_pids_spec pt : tracker_ok pt -> NoDup (get_all_pids pt) /\ forall p, p ∈ get_all_pids pt <-> is_Some (records_of pt !! p).
Proof.
  intros Hok. change (get_all_pids pt) with (map head_pid (live (procs pt))). split; [apply (to_unique _ Hok)|]. intros p. unfold records_of.
  rewrite <- keyed_fst, <- elem_of_dom, dom_list_to_map, elem_of_list_to_set. done.
Qed.

(** What is known of a tracked process. *)
Lemma tracked pt p v : tracker_ok pt -> records_of pt !! p = Some v -> exists r v',
  find_records pt p = Some (r :: v') /\ Forall (fun x => rpid x = p) (r :: v') /\ Z.of_nat (length (r :: v')) <= max_records_per_process pt /\
  get_process_last_record pt p = Some r /\ get_process_name pt p = Ret (comm (process r)).
Proof.
  intros Hok Hv. pose proof Hv as Hv'. apply records_of_Some in Hv' as [Hin Hp]; [|done]. pose proof (to_vectors _ Hok) as Hall. rewrite Forall_forall in Hall.
  destruct (Hall v Hin) as [Hpids Hlen]. apply has_pid_keyed in Hp as [Hn Hh]. destruct v as [|r v]; [done|]. exists r, v.
  rewrite Hh in Hpids. unfold get_process_last_record. rewrite find_records_spec, Hv by done. repeat (split; [done|]). by eapply get_process_name_spec.
Qed.

(** ** Adding a record *)

(** The records of the same program that stay. *)
Definition kept (old : option (list ProcessRecord)) r : list ProcessRecord :=
  match old with
  | Some (first :: v) => if bool_decide (comm (process r) = comm (process first)) then first :: v else []
  | _ => []
  end.
Definition track (max : Z) (M : gmap Z (list ProcessRecord)) r : gmap Z (list ProcessRecord) :=
  <[rpid r := take (Z.to_nat max) (r :: kept (M !! rpid r) r)]> M.

Lemma has_pid_unique p q v : has_pid p v = true -> has_pid q v = true -> p = q.
Proof. intros [_ <-]%has_pid_keyed [_ <-]%has_pid_keyed. done. Qed.

(** A vector is replaced by another one of the process. *)
Lemma replace_vector vs1 v vs2 v' p max :
  let pt := mkTracker (vs1 ++ v :: vs2) max in
  let pt' := mkTracker (vs1 ++ v' :: vs2) max in
  tracker_ok pt -> has_pid p v = true -> has_pid p v' = true -> vector_ok max v' -> tracker_ok pt' /\ records_of pt' = <[p := v']> (records_of pt).
Proof.
  intros pt pt' Hok Hp Hp' Hv'. pose proof Hok as [Hm Hvs Hu]. apply has_pid_keyed in Hp as Hk. apply has_pid_keyed in Hp' as Hk'. destruct Hk as [Hn Hh], Hk' as [Hn' Hh'].
  assert (tracker_ok pt') as Hok'.
  { split; [done| |].
    - cbn [procs max_records_per_process pt pt'] in *. apply Forall_app in Hvs as [H1 H2]. apply Forall_cons in H2 as [_ H2]. apply Forall_app. split; [done|]. by constructor.
    - cbn [procs pt pt'] in *. rewrite live_app in *. unfold live at 2 in Hu. unfold live at 2. cbn [List.filter] in *. rewrite Hn in Hu. rewrite Hn'.
      rewrite map_app in *. cbn [map] in *. by rewrite Hh', <- Hh. }
  split; [done|]. apply map_eq. intros q. destruct (decide (p = q)) as [<-|Hq].
  - rewrite lookup_insert_eq. apply records_of_Some; [done|]. split; [|done]. cbn. set_solver.
  - rewrite lookup_insert_ne by done. apply option_eq. intros x. rewrite !records_of_Some by done. cbn [procs pt pt'].
    rewrite !elem_of_app, !elem_of_cons. split; intros [Hx Hxq]; (split; [|done]); destruct Hx as [?|[->|?]]; auto; destruct Hq;
      first [exact (has_pid_unique _ _ _ Hp Hxq)|exact (has_pid_unique _ _ _ Hp' Hxq)].
Qed.

Lemma has_pid_sub p l l' : Forall (fun r => rpid r = p) l -> l' ⊆+ l -> l' <> [] -> has_pid p l' = true /\ Forall (fun r => rpid r = p) l'.
Proof.
  intros Hl Hs Hne. assert (Forall (fun r => rpid r = p) l') as Hf.
  { rewrite Forall_forall in *. intros x Hx. apply Hl. by eapply elem_of_submseteq. }
  split; [|done]. destruct l' as [|r l']; [done|]. cbn. apply Forall_cons in Hf as [Hr _]. by apply Z.eqb_eq.
Qed.

(** The clock has not gone back since the records of the tracker. *)
Definition clock_ok pt r : Prop := Forall (fun v => falling v /\ Forall (fun x => dur_ltb (p_timestamp r) (p_timestamp x) = false) v) (procs pt).

Lemma kept_sub v r : kept (Some v) r = v \/ kept (Some v) r = [].
Proof. destruct v as [|x v]; cbn [kept]; [by left|]. case_bool_decide; auto. Qed.

Lemma vector_pids max p v : vector_ok max v -> has_pid p v = true -> Forall (fun r => rpid r = p) v.
Proof. intros [Hv _] [_ <-]%has_pid_keyed. done. Qed.

(** The vector of the process gets the record. *)
Lemma add_to_vector vs1 v vs2 max r :
  let pt := mkTracker (vs1 ++ v :: vs2) max in
  tracker_ok pt -> has_pid (rpid r) v = true ->
  exists v', clean_old_process_records (r :: kept (Some v) r) max = Ret v' /\ tracker_ok (mkTracker (vs1 ++ v' :: vs2) max) /\
    (clock_ok pt r -> records_of (mkTracker (vs1 ++ v' :: vs2) max) = track max (records_of pt) r).
Proof.
  intros pt Hok Hp. pose proof (to_max _ Hok) as Hm. cbn [max_records_per_process pt] in Hm.
  assert (v ∈ procs pt) as Hin by (cbn; set_solver). assert (records_of pt !! rpid r = Some v) as Hr by (by apply records_of_Some).
  assert (vector_ok max v) as Hv by (pose proof (to_vectors _ Hok) as Hall; rewrite Forall_forall in Hall; by apply Hall).
  destruct (clean_old_spec (r :: kept (Some v) r) max) as (v' & -> & Hl' & Hs' & Hf'); [lia|]. exists v'. split; [done|].
  assert (Forall (fun x => rpid x = rpid r) (r :: kept (Some v) r)) as Hpids.
  { constructor; [done|]. destruct (kept_sub v r) as [->| ->]; [|done]. by eapply vector_pids. }
  destruct (has_pid_sub _ _ _ Hpids Hs') as [Hp' Hpids']; [intros ->; cbn [length] in Hl'; lia|].
  assert (vector_ok max v') as Hv' by (apply has_pid_keyed in Hp' as [_ Hh']; split; [by rewrite Hh'|rewrite Hl'; lia]).
  destruct (replace_vector _ _ _ v' (rpid r) max Hok Hp Hp' Hv') as [Hok' Hrec']. split; [done|]. intros Hc. rewrite Hrec'.
  unfold track. rewrite Hr. rewrite Hf'; [done|]. unfold clock_ok in Hc. rewrite Forall_forall in Hc. destruct (Hc v Hin) as [Hfall Hnew].
  destruct (kept_sub v r) as [->| ->]; by repeat constructor.
Qed.

(** A process that is not tracked yet. *)
Lemma add_vector pt r :
  tracker_ok pt -> (forall v, v ∈ procs pt -> has_pid (rpid r) v = false) ->
  let pt' := mkTracker (procs pt ++ [[r]]) (max_records_per_process pt) in
  tracker_ok pt' /\ records_of pt' = track (max_records_per_process pt) (records_of pt) r.
Proof.
  intros Hok Hno pt'. assert (records_of pt !! rpid r = None) as Hr.
  { apply eq_None_not_Some. intros [v [Hv Hp]%records_of_Some]; [|done]. by rewrite (Hno v Hv) in Hp. }
  pose proof (to_max _ Hok) as Hm. assert (tracker_ok pt') as Hok'.
  { split; [done| |].
    - apply Forall_app. split; [apply (to_vectors _ Hok)|]. constructor; [|done]. split; [by repeat constructor|cbn; lia].
    - cbn [procs pt']. rewrite live_app, map_app. apply NoDup_app. split; [apply (to_unique _ Hok)|]. split; [|apply NoDup_singleton].
      intros q Hq Hq'. change (map head_pid (live [[r]])) with [rpid r] in Hq'. apply list_elem_of_singleton in Hq' as ->.
      apply (get_all_pids_spec pt Hok) in Hq as [v Hq]. congruence. }
  split; [done|]. unfold track. rewrite Hr. cbn [kept]. rewrite take_ge by (cbn; lia). apply map_eq. intros q. destruct (decide (rpid r = q)) as [<-|Hq].
  - rewrite lookup_insert_eq. apply records_of_Some; [done|]. split; [cbn; set_solver|]. cbn. by apply Z.eqb_eq.
  - rewrite lookup_insert_ne by done. apply option_eq. intros x. rewrite !records_of_Some by done. cbn [procs pt']. rewrite elem_of_app, list_elem_of_singleton.
    split; [|tauto]. intros [[?| ->] Hx]; [done|]. cbn in Hx. apply Z.eqb_eq in Hx. done.
Qed.

Lemma add_record_spec pt r :
  tracker_ok pt ->
  exists pt', add_record pt r = Ret pt' /\ tracker_ok pt' /\ max_records_per_process pt' = max_records_per_process pt /\
    (clock_ok pt r -> records_of pt' = track (max_records_per_process pt) (records_of pt) r).
Proof.
  intros Hok. unfold add_record. fold (rpid r). destruct (list_find _ (procs pt)) as [[i v]|] eqn:Ef.
  - apply list_find_Some in Ef as (Hi & Hp & _). apply Is_true_true in Hp.
    set (old := match v with first :: _ => if bool_decide (comm (process r) = comm (process first)) then v else [] | [] => v end).
    assert (old = kept (Some v) r) as Eold by (unfold old; by destruct v). rewrite Eold. clear old Eold.
    destruct pt as [vs max]. cbn [procs max_records_per_process] in *.
    assert (forall v', <[i := v']> vs = take i vs ++ v' :: drop (S i) vs) as Hins by (intros v'; apply insert_take_drop; by eapply lookup_lt_Some).
    destruct (add_to_vector (take i vs) v (drop (S i) vs) max r) as (v' & -> & Hok' & Hrec'); [by rewrite take_drop_middle|done|].
    rewrite take_drop_middle in Hrec' by done. cbn [mbind res_bind]. rewrite Hins. eexists. split; [done|]. done.
  - apply list_find_None in Ef. destruct (add_vector pt r Hok) as [Hok' Hrec'].
    { intros v Hv. rewrite Forall_forall in Ef. specialize (Ef v Hv). destruct (has_pid (rpid r) v); [by destruct Ef|done]. }
    eexists. split; [done|]. done.
Qed.

(** ** Dropping processes *)

Definition alive (status : Z -> option ProcessStatus) p : bool :=
  match status p with Some Stop | None => false | Some _ => true end.

Lemma live_delete vs i : vs !! i = Some [] -> live (delete i vs) = live vs.
Proof.
  intros Hi. rewrite <- (take_drop_middle vs i [] Hi) at 2. rewrite live_app, delete_take_drop, live_app. done.
Qed.
Lemma drop_empty_live n i vs : live (drop_empty_loop n i vs) = live vs.
Proof.
  revert i vs. induction n as [|n IH]; intros i vs; [done|]. cbn [drop_empty_loop]. rewrite IH. destruct (vs !! i) as [[|r v]|] eqn:E; [by apply live_delete|done|done].
Qed.
Lemma drop_empty_sub n i vs v : v ∈ drop_empty_loop n i vs -> v ∈ vs.
Proof.
  revert i vs. induction n as [|n IH]; intros i vs; [done|]. cbn [drop_empty_loop]. intros Hv%IH. destruct (vs !! i) as [[|r l]|]; [|done|done].
  eapply elem_of_submseteq; [exact Hv|]. apply sublist_submseteq, sublist_delete.
Qed.

Lemma live_clean st vs : live (map (clean_vector st) vs) = List.filter (fun v => alive st (head_pid v)) (live vs).
Proof.
  induction vs as [|v vs IH]; [done|]. unfold live in *. cbn [map List.filter]. rewrite IH. destruct v as [|r v]; [done|]. cbn [nonempty List.filter].
  change (clean_vector st (r :: v)) with (match st (rpid r) with Some Stop | None => [] | Some _ => r :: v end). cbn [head_pid]. unfold alive.
  by destruct (st (rpid r)) as [[]|].
Qed.

Lemma clean_terminated_live pt st :
  live (procs (clean_terminated_process_records_vectors pt st)) = List.filter (fun v => alive st (head_pid v)) (live (procs pt)).
Proof.
  rewrite <- live_clean. unfold clean_terminated_process_records_vectors, drop_empty_process_records_vectors. cbn [procs].
  destruct (map (clean_vector st) (procs pt)) as [|v vs]; [done|]. apply drop_empty_live.
Qed.

Lemma clean_terminated_sub pt st v : v ∈ procs (clean_terminated_process_records_vectors pt st) -> v = [] \/ v ∈ procs pt.
Proof.
  unfold clean_terminated_process_records_vectors, drop_empty_process_records_vectors. cbn [procs]. intros Hv.
  assert (v ∈ map (clean_vector st) (procs pt)) as Hin by (destruct (map (clean_vector st) (procs pt)); [done|by eapply drop_empty_sub]).
  apply list_elem_of_fmap in Hin as (v0 & -> & Hin). destruct v0 as [|r v0]; [by left|]. cbn [clean_vector]. destruct (st (pid (process r))) as [[]|]; auto.
Qed.

Lemma NoDup_map_filter {A B} (f : A -> B) (P : A -> bool) (l : list A) : NoDup (map f l) -> NoDup (map f (List.filter P l)).
Proof.
  induction l as [|x l IH]; [done|]. cbn [map List.filter]. intros [Hx Hl]%NoDup_cons. destruct (P x); [|by apply IH]. cbn [map]. constructor; [|by apply IH].
  intros Hin. apply Hx. apply list_elem_of_fmap in Hin as (y & -> & Hy). apply list_elem_of_fmap. exists y. split; [done|].
  apply list_elem_of_In, filter_In in Hy as [Hy _]. by apply list_elem_of_In.
Qed.

Lemma clean_terminated_spec pt st :
  tracker_ok pt ->
  let pt' := clean_terminated_process_records_vectors pt st in
  tracker_ok pt' /\ records_of pt' = filter (fun kv => alive st kv.1 = true) (records_of pt).
Proof.
  intros Hok pt'. assert (tracker_ok pt') as Hok'.
  { split; [apply (to_max _ Hok)| |].
    - rewrite Forall_forall. intros v [->|Hv]%clean_terminated_sub; [split; [done|cbn; pose proof (to_max _ Hok); lia]|].
      pose proof (to_vectors _ Hok) as Hall. rewrite Forall_forall in Hall. by apply Hall.
    - unfold pt'. rewrite clean_terminated_live. apply NoDup_map_filter, (to_unique _ Hok). }
  split; [done|]. apply map_eq. intros p. apply option_eq. intros v. rewrite map_lookup_filter_Some, !records_of_Some by done.
  assert (forall vs, v ∈ vs /\ has_pid p v = true <-> v ∈ live vs /\ head_pid v = p) as Hlive.
  { intros vs. rewrite has_pid_keyed. unfold live. rewrite !list_elem_of_In, filter_In. tauto. }
  rewrite !Hlive. unfold pt'. rewrite clean_terminated_live. rewrite list_elem_of_In, filter_In, <- list_elem_of_In. cbn [fst]. split.
  - intros [[H1 H2] <-]. done.
  - intros [[H1 <-] H2]. done.
Qed.
