(* ===== verification/ScaphRounds.v ===== *)
(** * Rounds of the attribution agent

    An agent that never forgets a reading is the specification of the buffers:
    [shrink] of its state is the state of the agent, before and after every round.
    The agent does not panic where sockets and domains have a counter, the limits
    of the buffers are between 1 and 65 kilobytes, the counters are of a reasonable
    size and the paths of the executables are UTF-8. *)
From stdpp Require Import gmap strings.
From S2P Require Import Prelude NumStr PyFloat Scaph ScaphBuffer ScaphTracker.

Local Open Scope Z_scope.

(** ** Computations that read *)

Lemma io_step {A B} (m : io A) (f : A -> io B) n a n' : m n = Ret (a, n') -> (m ≫= f) n = f a n'.
Proof. intros E. unfold mbind, io_bind. by rewrite E. Qed.
Lemma lift_Ret {A} (r : res A) a n : r = Ret a -> lift r n = Ret (a, n).
Proof. by intros ->. Qed.

(** ** Readings *)

Definition has_source (sensor_data : gmap str str) : Prop := is_Some (sensor_data !! lit "source_file").

(** Counters are below 2^80, processor times below 2^47; there are at most [nb]
    processors, and every one has its times; no process makes [IProcess::new]
    panic. *)
Definition stat_ok (bound : Z) (s : CPUStat) : Prop :=
  Forall (fun x => 0 <= x <= bound) [user s; nice s; system s; idle s; unwrap_or_default (irq s); unwrap_or_default (iowait s); unwrap_or_default (softirq s)].
Record world_ok `{World} (nb : nat) : Prop := {
  wo_cpus : forall n, (length (cpus n) <= nb)%nat;
  wo_nb : Z.of_nat nb < 65536;
  wo_stats : forall n k, kernel_stats n = Some k -> (nb <= length (cpu_time k))%nat /\ Forall (stat_ok (2 ^ 47)) (cpu_time k);
  wo_counters : forall n path content v, file n path = Some content -> parse_signed 128 (trim content) = Some v -> Z.abs v <= 2 ^ 80;
  wo_processes : forall n, Forall running_ok (processes n);
}.

Definition domain_ok (d : Domain) : Prop := has_source (d_sensor_data d) /\ kb_ok (d_buffer_max_kbytes d).
Definition core_ok (nb : nat) (c : CPUCore) : Prop := 0 <= c_id c < Z.of_nat nb.
Record socket_ok (nb : nat) (s : CPUSocket) : Prop := {
  so_source : has_source (s_sensor_data s);
  so_kb : kb_ok (s_buffer_max_kbytes s);
  so_domains : Forall domain_ok (s_domains s);
  so_nb_domains : Z.of_nat (length (s_domains s)) <= 65536;
  so_cores : Forall (core_ok nb) (s_cpu_cores s);
  so_nb_cores : (length (s_cpu_cores s) <= nb)%nat;
}.
Record topology_ok (nb : nat) (t : Topology) : Prop := {
  po_kb : kb_ok (t_buffer_max_kbytes t);
  po_sockets : Forall (socket_ok nb) (sockets t);
  po_nb_sockets : Z.of_nat (length (sockets t)) <= 65536;
  po_tracker : tracker_ok (proc_tracker t);
}.

Section Reading.
Context `{Hbuild : Build} `{Hworld : World}.
Context (nb : nat) (Hw : world_ok nb).

Definition counter_ok (r : option record) : Prop :=
  forall rec v, r = Some rec -> parse_signed 128 (trim (value rec)) = Some v -> Z.abs v <= 2 ^ 80.

Lemma read_counter_spec sensor_data n : has_source sensor_data -> exists r n', read_counter sensor_data n = Ret (r, n') /\ counter_ok r.
Proof using Hw.
  intros [path Hp]. unfold read_counter. erewrite io_step by (apply lift_Ret; by rewrite Hp). erewrite io_step by reflexivity.
  destruct (file n path) as [content|] eqn:Ef; (eexists _, _; split; [reflexivity|]); [|done]. intros rec v [= <-]. by eapply wo_counters.
Qed.

Lemma add_value_spec r sum n :
  counter_ok r -> Z.abs sum + 2 ^ 80 < 2 ^ 127 -> exists v, add_value r sum n = Ret (v, n) /\ Z.abs v <= Z.abs sum + 2 ^ 80.
Proof using Type.
  intros Hr Hs. unfold add_value. destruct r as [rec|]; [|eexists; split; [reflexivity|lia]].
  destruct (parse_signed 128 (trim (value rec))) as [v|] eqn:Ep; [|eexists; split; [reflexivity|lia]].
  specialize (Hr rec v eq_refl Ep). exists (sum + v). split; [|lia]. apply lift_Ret, rust_sint_ok. lia.
Qed.

Lemma sum_domains_spec ds : forall sum n,
  Forall domain_ok ds -> Z.abs sum + Z.of_nat (length ds) * 2 ^ 80 < 2 ^ 127 ->
  exists v n', sum_domains ds sum n = Ret (v, n') /\ Z.abs v <= Z.abs sum + Z.of_nat (length ds) * 2 ^ 80.
Proof using Hw.
  induction ds as [|d ds IH]; intros sum n Hds Hs; cbn [sum_domains length] in *; [eexists _, _; split; [reflexivity|lia]|].
  apply Forall_cons in Hds as [[Hd _] Hds]. case_bool_decide.
  - destruct (read_counter_spec _ n Hd) as (r & n' & E & Hr). erewrite io_step by exact E.
    destruct (add_value_spec r sum n' Hr ltac:(lia)) as (v & Ev & Hv). erewrite io_step by exact Ev.
    destruct (IH v n' Hds ltac:(lia)) as (v' & n'' & E' & Hv'). exists v', n''. split; [done|lia].
  - destruct (IH sum n Hds ltac:(lia)) as (v' & n'' & E' & Hv'). exists v', n''. split; [done|lia].
Qed.

Lemma sum_sockets_spec ss : forall sum n,
  Forall (socket_ok nb) ss -> Z.abs sum + Z.of_nat (length ss) * 2 ^ 97 < 2 ^ 127 -> exists v n', sum_sockets ss sum n = Ret (v, n').
Proof using Hw.
  induction ss as [|s ss IH]; intros sum n Hss Hs; cbn [sum_sockets length] in *; [by eexists _, _|].
  apply Forall_cons in Hss as [Hok Hss]. destruct (read_counter_spec _ n (so_source _ _ Hok)) as (r & n' & E & Hr). erewrite io_step by exact E.
  destruct (add_value_spec r sum n' Hr ltac:(lia)) as (v & Ev & Hv). erewrite io_step by exact Ev. pose proof (so_nb_domains _ _ Hok) as Hnb.
  destruct (sum_domains_spec (s_domains s) v n' (so_domains _ _ Hok) ltac:(lia)) as (v' & n'' & E' & Hv'). erewrite io_step by exact E'.
  apply IH; [done|lia].
Qed.

(** The host always has a reading. *)
Lemma topology_read_spec t n : topology_ok nb t -> exists r n', topology_read_record t n = Ret (Some r, n').
Proof using Hw.
  intros Hok. unfold topology_read_record.
  assert (exists psys n', get_rapl_psys_energy_microjoules t n = Ret (psys, n')) as (psys & n' & E).
  { unfold get_rapl_psys_energy_microjoules. destruct (_ !! _) as [p|]; [|by eexists _, _]. erewrite io_step by reflexivity.
    by destruct (file n _); eexists _, _. }
  erewrite io_step by exact E. destruct psys as [r|]; [by eexists _, _|]. pose proof (po_nb_sockets _ _ Hok).
  destruct (sum_sockets_spec (sockets t) 0 n' (po_sockets _ _ Hok) ltac:(lia)) as (v & n'' & E'). erewrite io_step by exact E'. by eexists _, _.
Qed.

(** What a reading of a record does to a buffer. *)
Lemma domain_refresh_spec d h n :
  has_source (d_sensor_data d) -> kb_ok (d_buffer_max_kbytes d) -> d_record_buffer d = last_n (window record_size (d_buffer_max_kbytes d)) h ->
  exists r n', domain_read_record d n = Ret (r, n') /\
    domain_refresh_record d n = Ret (set_d_records d (last_n (window record_size (d_buffer_max_kbytes d)) (push_record r h)), n').
Proof using Hw.
  intros Hsrc Hk Hb. destruct (read_counter_spec _ n Hsrc) as (r & n' & E & _). exists r, n'. split; [done|].
  unfold domain_refresh_record. erewrite io_step by exact E. cbn [d_record_buffer set_d_records]. rewrite Hb.
  destruct (refresh_records (d_buffer_max_kbytes d) id h r Hk ltac:(done)) as [Hnil Hcons].
  destruct (push_record r (last_n _ h)) as [|x b] eqn:Eb; [by rewrite Hnil|]. apply lift_Ret. unfold domain_clean_old_records. cbn [d_buffer_max_kbytes d_record_buffer set_d_records].
  by rewrite Hcons.
Qed.

Lemma socket_refresh_spec s h n :
  has_source (s_sensor_data s) -> kb_ok (s_buffer_max_kbytes s) -> s_record_buffer s = last_n (window record_size (s_buffer_max_kbytes s)) h ->
  exists r n', socket_read_record s n = Ret (r, n') /\
    socket_refresh_record s n = Ret (set_s_records s (last_n (window record_size (s_buffer_max_kbytes s)) (push_record r h)), n').
Proof using Hw.
  intros Hsrc Hk Hb. destruct (read_counter_spec _ n Hsrc) as (r & n' & E & _). exists r, n'. split; [done|].
  unfold socket_refresh_record. erewrite io_step by exact E. cbn [s_record_buffer set_s_records]. rewrite Hb.
  destruct (refresh_records (s_buffer_max_kbytes s) id h r Hk ltac:(done)) as [Hnil Hcons].
  destruct (push_record r (last_n _ h)) as [|x b] eqn:Eb; [by rewrite Hnil|]. apply lift_Ret. unfold socket_clean_old_records. cbn [s_buffer_max_kbytes s_record_buffer set_s_records].
  by rewrite Hcons.
Qed.

(** The host, once its reading is known. *)
Lemma topology_refresh_spec t h n r n' :
  topology_read_record t n = Ret (r, n') -> kb_ok (t_buffer_max_kbytes t) -> t_record_buffer t = last_n (window record_size (t_buffer_max_kbytes t)) h ->
  topology_refresh_record t n = Ret (set_t_records t (last_n (window record_size (t_buffer_max_kbytes t)) (push_record r h)), n').
Proof using Type.
  intros E Hk Hb. unfold topology_refresh_record. erewrite io_step by exact E. cbn [t_record_buffer set_t_records]. rewrite Hb.
  destruct (refresh_records (t_buffer_max_kbytes t) (uwrap 16) h r Hk) as [Hnil Hcons]; [intros x Hx; apply uwrap_id; lia|].
  destruct (push_record r (last_n _ h)) as [|x b] eqn:Eb; [by rewrite Hnil|]. apply lift_Ret. unfold topology_clean_old_records. cbn [t_buffer_max_kbytes t_record_buffer set_t_records].
  by rewrite Hcons.
Qed.
(** *** Processor times *)

Lemma add_opt_spec a b n : 0 <= unwrap_or_default a -> 0 <= unwrap_or_default b -> unwrap_or_default a + unwrap_or_default b < 2 ^ 64 ->
  add_opt a b n = Ret (Some (unwrap_or_default a + unwrap_or_default b), n).
Proof using Type. intros Ha Hb Hab. unfold add_opt. by erewrite io_step by (apply lift_Ret, rust_uint_ok; lia). Qed.

Lemma add_core_spec (stats c : CPUStat) bound n :
  stat_ok bound stats -> stat_ok (2 ^ 47) c -> bound + 2 ^ 47 < 2 ^ 64 ->
  exists stats', add_core_stats stats c n = Ret (stats', n) /\ stat_ok (bound + 2 ^ 47) stats'.
Proof using Type.
  unfold stat_ok. rewrite !Forall_cons. intros Hs Hc Hb. unfold add_core_stats.
  do 4 (erewrite io_step by (apply lift_Ret, rust_uint_ok; lia)). do 3 (erewrite io_step by (apply add_opt_spec; lia)).
  eexists. split; [reflexivity|]. cbn [user nice system idle irq iowait softirq unwrap_or_default]. rewrite !Forall_cons. repeat split; try lia. constructor.
Qed.

Lemma core_read_spec c n : core_ok nb c -> exists r, core_read_stats c n = Ret (r, S n) /\ forall x, r = Some x -> stat_ok (2 ^ 47) x.
Proof using Hw.
  intros Hc. unfold core_read_stats. erewrite io_step by reflexivity. destruct (kernel_stats n) as [k|] eqn:Ek; [|by exists None].
  destruct (wo_stats _ Hw n k Ek) as [Hlen Hall]. destruct (lookup_lt_is_Some_2 (cpu_time k) (Z.to_nat (c_id c))) as [x Hx]; [unfold core_ok in Hc; lia|].
  exists (Some x). split; [by erewrite io_step by (apply lift_Ret; by rewrite Hx)|]. intros y [= <-]. by eapply Forall_lookup_1.
Qed.

Lemma sum_cores_spec cs : forall stats bound n,
  Forall (core_ok nb) cs -> stat_ok bound stats -> bound + Z.of_nat (length cs) * 2 ^ 47 < 2 ^ 64 -> exists stats' n', sum_cores cs stats n = Ret (stats', n').
Proof using Hw.
  induction cs as [|c cs IH]; intros stats bound n Hcs Hs Hb; cbn [sum_cores length] in *; [by eexists _, _|]. apply Forall_cons in Hcs as [Hc Hcs].
  destruct (core_read_spec c n Hc) as (r & E & Hr). erewrite io_step by exact E. destruct r as [x|]; [|apply (IH stats bound); [done|done|lia]].
  destruct (add_core_spec stats x bound (S n) Hs (Hr x eq_refl)) as (stats' & E' & Hs'); [lia|]. erewrite io_step by exact E'.
  apply (IH stats' (bound + 2 ^ 47)); [done|done|lia].
Qed.

Lemma socket_read_stats_spec s n : socket_ok nb s -> exists stats n', socket_read_stats s n = Ret (stats, n').
Proof using Hw.
  intros Hok. pose proof (so_nb_cores _ _ Hok). pose proof (wo_nb _ Hw). eapply (sum_cores_spec _ _ 0); [apply (so_cores _ _ Hok)| |lia].
  unfold stat_ok. cbn. repeat constructor; lia.
Qed.

(** A socket keeps one more than the window, since it cleans first. *)
Lemma socket_stats_spec s h n stats n' :
  kb_ok (s_buffer_max_kbytes s) -> s_stat_buffer s = take (S (window stat_size (s_buffer_max_kbytes s))) h -> socket_read_stats s n = Ret (stats, n') ->
  socket_refresh_stats s n = Ret (set_s_stats s (take (S (window stat_size (s_buffer_max_kbytes s))) (stats :: h)), n').
Proof using Type.
  intros Hk Hb E. unfold socket_refresh_stats. destruct (s_stat_buffer s) as [|x b] eqn:Eb.
  - erewrite io_step by reflexivity. erewrite io_step by exact E. destruct h; [|done]. cbn [take]. by rewrite Eb, take_nil.
  - erewrite io_step; cycle 1.
    { apply lift_Ret. unfold socket_clean_old_stats. rewrite Eb. rewrite clean_stats; [reflexivity|done|done|]. rewrite Hb, length_take. lia. }
    erewrite io_step by exact E. cbn [set_s_stats s_stat_buffer]. rewrite Hb, take_take, Nat.min_l by lia. done.
Qed.

Lemma topology_stats_spec t h n :
  kb_ok (t_buffer_max_kbytes t) -> t_stat_buffer t = take (window stat_size (t_buffer_max_kbytes t)) h ->
  topology_refresh_stats t n = Ret (match kernel_stats n with
    | Some k => set_t_stats t (take (window stat_size (t_buffer_max_kbytes t)) (total k :: h))
    | None => t
    end, S n).
Proof using Type.
  intros Hk Hb. unfold topology_refresh_stats, topology_read_stats. erewrite io_step by reflexivity. destruct (kernel_stats n) as [k|]; [|done]. cbn [fmap option_fmap option_map].
  apply lift_Ret. unfold topology_clean_old_stats. cbn [t_stat_buffer set_t_stats t_buffer_max_kbytes]. rewrite Hb.
  assert (0 < window stat_size (t_buffer_max_kbytes t))%nat as Hpos by (apply window_pos; [done|unfold kb_ok in Hk; lia]).
  rewrite clean_stats; [|done|done|cbn [length]; rewrite length_take; lia]. cbn [mbind res_bind]. do 2 f_equal.
  destruct (window stat_size (t_buffer_max_kbytes t)) as [|w]; [lia|]. cbn [take]. by rewrite take_take, Nat.min_l by lia.
Qed.

(** *** Processes *)

Lemma add_processes_spec ps : forall pt n, tracker_ok pt -> exists pt' n',
  add_processes pt ps n = Ret (pt', n') /\ tracker_ok pt' /\ max_records_per_process pt' = max_records_per_process pt.
Proof using Type.
  induction ps as [|p ps IH]; intros pt n Hok; cbn [add_processes]; [by eexists _, _|].
  destruct (add_record_spec pt (PRec p (clock n)) Hok) as (pt' & E & Hok' & Hm & _). rewrite <- Hm. erewrite io_step; [by apply IH|].
  unfold add_process_record. erewrite io_step by reflexivity. by apply lift_Ret.
Qed.
End Reading.

(** ** The agent that keeps every reading *)

Section Complete.
Context `{Hbuild : Build} `{Hworld : World}.

Definition domain_refresh_all (d : Domain) : io Domain :=
  r ← domain_read_record d; mret (set_d_records d (push_record r (d_record_buffer d))).
Definition socket_refresh_all (s : CPUSocket) : io CPUSocket :=
  r ← socket_read_record s;
  stats ← socket_read_stats s;
  ds ← for_each domain_refresh_all (s_domains s);
  mret (set_domains (set_s_stats (set_s_records s (push_record r (s_record_buffer s))) (stats :: s_stat_buffer s)) ds).
Definition refresh_all (t : Topology) : io Topology :=
  ss ← for_each socket_refresh_all (sockets t);
  t ← refresh_procs (set_sockets t ss);
  r ← topology_read_record t;
  stats ← topology_read_stats;
  let t := set_t_records t (push_record r (t_record_buffer t)) in
  mret (match stats with Some stats => set_t_stats t (stats :: t_stat_buffer t) | None => t end).
Definition next_report_all (t : Topology) : io Topology :=
  st ← observe status;
  refresh_all (set_tracker t (clean_terminated_process_records_vectors (proc_tracker t) st)).
Fixpoint reports_all (n : nat) (t : Topology) : io Topology :=
  match n with
  | O => mret t
  | S n => t ← next_report_all t; reports_all n t
  end.

(** What the agent keeps of it. *)
Definition shrink_domain (d : Domain) : Domain := set_d_records d (last_n (window record_size (d_buffer_max_kbytes d)) (d_record_buffer d)).
Definition shrink_socket (s : CPUSocket) : CPUSocket :=
  mkSocket (s_id s) (map shrink_domain (s_domains s)) (last_n (window record_size (s_buffer_max_kbytes s)) (s_record_buffer s)) (s_buffer_max_kbytes s)
    (s_cpu_cores s) (take (S (window stat_size (s_buffer_max_kbytes s))) (s_stat_buffer s)) (s_sensor_data s).
Definition shrink (t : Topology) : Topology :=
  mkTopology (map shrink_socket (sockets t)) (proc_tracker t) (take (window stat_size (t_buffer_max_kbytes t)) (t_stat_buffer t))
    (last_n (window record_size (t_buffer_max_kbytes t)) (t_record_buffer t)) (t_buffer_max_kbytes t) (domains_names t) (t_sensor_data t).

(** Reading the host does not depend on the buffers. *)
Lemma sum_domains_shrink ds : forall sum n, sum_domains (map shrink_domain ds) sum n = sum_domains ds sum n.
Proof using Type.
  induction ds as [|d ds IH]; intros sum n; [done|]. cbn [map sum_domains]. change (d_name (shrink_domain d)) with (d_name d). case_bool_decide; [|apply IH].
  unfold mbind, io_bind. change (domain_read_record (shrink_domain d) n) with (domain_read_record d n). destruct (domain_read_record d n) as [[r n']| |]; [|done|done].
  destruct (add_value r sum n') as [[v n'']| |]; [apply IH|done|done].
Qed.
Lemma sum_sockets_shrink ss : forall sum n, sum_sockets (map shrink_socket ss) sum n = sum_sockets ss sum n.
Proof using Type.
  induction ss as [|s ss IH]; intros sum n; [done|]. cbn [map sum_sockets].
  unfold mbind, io_bind. change (socket_read_record (shrink_socket s) n) with (socket_read_record s n). destruct (socket_read_record s n) as [[r n']| |]; [|done|done].
  destruct (add_value r sum n') as [[v n'']| |]; [|done|done]. change (s_domains (shrink_socket s)) with (map shrink_domain (s_domains s)). rewrite sum_domains_shrink.
  destruct (sum_domains (s_domains s) v n'') as [[v' n3]| |]; [apply IH|done|done].
Qed.
Lemma read_shrink t n : topology_read_record (shrink t) n = topology_read_record t n.
Proof using Type.
  unfold topology_read_record, mbind, io_bind. change (get_rapl_psys_energy_microjoules (shrink t) n) with (get_rapl_psys_energy_microjoules t n).
  destruct (get_rapl_psys_energy_microjoules t n) as [[[r|] n']| |]; [done| |done|done]. cbn [sockets shrink]. by rewrite sum_sockets_shrink.
Qed.

(** *** Simulation *)

Lemma for_each_sim {A} (P : A -> Prop) (sh : A -> A) (f g : A -> io A) :
  (forall x n, P x -> exists y n', g x n = Ret (y, n') /\ f (sh x) n = Ret (sh y, n') /\ P y) ->
  forall xs n, Forall P xs -> exists ys n', for_each g xs n = Ret (ys, n') /\ for_each f (map sh xs) n = Ret (map sh ys, n') /\ Forall P ys /\ length ys = length xs.
Proof using Type.
  intros Hfg xs. induction xs as [|x xs IH]; intros n Hxs; cbn [for_each map]; [by exists [], n|]. apply Forall_cons in Hxs as [Hx Hxs].
  destruct (Hfg x n Hx) as (y & n1 & Hg & Hf & Hy). destruct (IH n1 Hxs) as (ys & n2 & Hg' & Hf' & Hys & Hl). exists (y :: ys), n2.
  rewrite (io_step _ _ _ _ _ Hg), (io_step _ _ _ _ _ Hf), (io_step _ _ _ _ _ Hg'), (io_step _ _ _ _ _ Hf'). cbn [map length]. auto.
Qed.

Context (nb : nat) (Hw : world_ok nb).

Lemma domain_sim d n : domain_ok d ->
  exists d' n', domain_refresh_all d n = Ret (d', n') /\ domain_refresh_record (shrink_domain d) n = Ret (shrink_domain d', n') /\ domain_ok d'.
Proof using Hw.
  intros [Hs Hk]. destruct (domain_refresh_spec nb Hw (shrink_domain d) (d_record_buffer d) n Hs Hk eq_refl) as (r & n' & Er & E).
  change (domain_read_record (shrink_domain d)) with (domain_read_record d) in Er. unfold domain_refresh_all. erewrite io_step by exact Er.
  eexists _, n'. split; [reflexivity|]. split; [exact E|done].
Qed.

Lemma socket_sim s n : socket_ok nb s ->
  exists s' n', socket_refresh_all s n = Ret (s', n') /\ refresh_socket (shrink_socket s) n = Ret (shrink_socket s', n') /\ socket_ok nb s'.
Proof using Hw.
  intros [Hs Hk Hds Hnd Hcs Hnc]. destruct (socket_refresh_spec nb Hw (shrink_socket s) (s_record_buffer s) n Hs Hk eq_refl) as (r & n1 & Er & E1).
  destruct (socket_read_stats_spec nb Hw s n1) as (stats & n2 & E2); [by split|].
  destruct (for_each_sim domain_ok shrink_domain domain_refresh_record domain_refresh_all domain_sim (s_domains s) n2 Hds) as (ds & n3 & Eg & Ef & Hds' & Hl).
  unfold socket_refresh_all, refresh_socket. erewrite io_step by exact Er. erewrite io_step by exact E2. erewrite io_step by exact Eg.
  erewrite io_step by exact E1. erewrite io_step by (apply (socket_stats_spec _ (s_stat_buffer s) _ stats n2); [exact Hk|done|exact E2]).
  erewrite io_step by exact Ef. eexists _, n3. split; [reflexivity|]. split; [reflexivity|]. split; cbn; try done. by rewrite Hl.
Qed.

(** The host gets a reading in each of [k] rounds, and keeps its limit. *)
Definition after (k : nat) (t t' : Topology) : Prop :=
  t_buffer_max_kbytes t' = t_buffer_max_kbytes t /\ length (t_record_buffer t') = (k + length (t_record_buffer t))%nat /\
  max_records_per_process (proc_tracker t') = max_records_per_process (proc_tracker t).

Lemma refresh_sim t n : topology_ok nb t ->
  exists t' n', refresh_all t n = Ret (t', n') /\ refresh (shrink t) n = Ret (shrink t', n') /\ topology_ok nb t' /\ after 1 t t'.
Proof using Hw.
  intros [Hk Hss Hns Ht].
  destruct (for_each_sim (socket_ok nb) shrink_socket refresh_socket socket_refresh_all socket_sim (sockets t) n Hss) as (ss & n1 & Eg & Ef & Hss' & Hl).
  destruct (new_processes_ok (processes n1) (wo_processes _ Hw n1)) as [ps En].
  destruct (add_processes_spec ps (proc_tracker t) (S n1) Ht) as (pt & n2 & Ep & Hpt & Hmax).
  set (t1 := set_tracker (set_sockets t ss) pt). assert (topology_ok nb t1) as Hok1 by (split; cbn; try done; by rewrite Hl).
  destruct (topology_read_spec nb Hw t1 n2 Hok1) as (r & n3 & Er). pose proof Er as Er'. rewrite <- read_shrink in Er'.
  assert (refresh_procs (set_sockets t ss) n1 = Ret (t1, n2)) as Et by (unfold refresh_procs; erewrite io_step by reflexivity; erewrite io_step by (apply lift_Ret, En); by rewrite (io_step _ _ _ _ _ Ep)).
  assert (refresh_procs (set_sockets (shrink t) (map shrink_socket ss)) n1 = Ret (shrink t1, n2)) as Et'
    by (unfold refresh_procs; erewrite io_step by reflexivity; erewrite io_step by (apply lift_Ret, En); by rewrite (io_step _ _ _ _ _ Ep)).
  pose proof (topology_refresh_spec (shrink t1) (t_record_buffer t1) _ _ _ Er' Hk eq_refl) as Er2.
  unfold refresh_all, refresh. rewrite (io_step _ _ _ _ _ Eg), (io_step _ _ _ _ _ Ef), (io_step _ _ _ _ _ Et), (io_step _ _ _ _ _ Et').
  rewrite (io_step _ _ _ _ _ Er), (io_step _ _ _ _ _ Er2), (topology_stats_spec _ (t_stat_buffer t1)) by done.
  eexists _, _. split; [reflexivity|]. assert (forall x, length (t_record_buffer t1 ++ [x]) = (1 + length (t_record_buffer t))%nat) as Hlen by (intros x; rewrite length_app; cbn; lia).
  destruct Hok1. destruct (kernel_stats n3); (split; [reflexivity|]; split; [by split|]; split; [done|split; [apply Hlen|exact Hmax]]).
Qed.

Lemma next_report_sim t n : topology_ok nb t ->
  exists t' n', next_report_all t n = Ret (t', n') /\ next_report (shrink t) n = Ret (shrink t', n') /\ topology_ok nb t' /\ after 1 t t'.
Proof using Hw.
  intros [Hk Hss Hns Ht]. unfold next_report_all, next_report. erewrite !io_step by reflexivity.
  apply (refresh_sim (set_tracker t (clean_terminated_process_records_vectors (proc_tracker t) (status n)))). split; [done|done|done|]. by apply clean_terminated_spec.
Qed.

Lemma reports_sim k : forall t n, topology_ok nb t ->
  exists t' n', reports_all k t n = Ret (t', n') /\ reports k (shrink t) n = Ret (shrink t', n') /\ topology_ok nb t' /\ after k t t'.
Proof using Hw.
  induction k as [|k IH]; intros t n Hok; cbn [reports reports_all]; [by exists t, n|].
  destruct (next_report_sim t n Hok) as (t1 & n1 & E1 & E2 & Hok1 & A1 & A2 & A3). rewrite (io_step _ _ _ _ _ E1), (io_step _ _ _ _ _ E2).
  destruct (IH t1 n1 Hok1) as (t2 & n2 & E3 & E4 & Hok2 & B1 & B2 & B3). exists t2, n2. split; [done|]. split; [done|]. split; [done|].
  split; [congruence|]. split; [lia|congruence].
Qed.
End Complete.
