(* ===== verification/ScaphPowercap.v ===== *)
(** * The topology of the machine (attribution/scaphandre/src/sensors/powercap_rapl.rs)

    [PowercapRAPLSensor] finds the sockets and domains of the machine in the
    folders of the powercap tree.  Whatever the tree has, a topology that comes out
    is one [ScaphRounds] is about: every socket and domain has a counter, and their
    ids are different.  What a regular expression matches is [Regex]. *)
From stdpp Require Import gmap strings.
From S2P Require Import Prelude NumStr PyFloat Scaph ScaphBuffer ScaphTracker ScaphRounds.

Local Open Scope Z_scope.

(** ** Definitions *)

(** [Regex::is_match], of a pattern and a string. *)
Class Regex := { is_match : str -> str -> bool }.

Record PowercapRAPLSensor : Type := mkSensor {
  base_path : str;
  buffer_per_socket_max_kbytes : Z;
  buffer_per_domain_max_kbytes : Z;
  virtual_machine : bool;
}.

(** [PowercapRAPLSensor::new]; [env] is the environment. *)
Definition new_sensor (env : str -> option str) (per_socket per_domain : Z) (vm : bool) : PowercapRAPLSensor :=
  let path := if vm then match env (lit "SCAPHANDRE_POWERCAP_PATH") with Some val => val | None => lit "/var/scaphandre" end else lit "/sys/class/powercap" in
  mkSensor path per_socket per_domain vm.

(** [split(':')]. *)
Fixpoint split_colon (s : str) : list str :=
  match s with
  | [] => [[]]
  | c :: s =>
      if c =? 58 then [] :: split_colon s
      else match split_colon s with part :: parts => (c :: part) :: parts | [] => [[c]] end
  end.
(** The number after a colon. *)
Definition number_at (folder_name : str) (i : nat) : res Z := part ← of_option (split_colon folder_name !! i); of_option (parse_unsigned 16 part).

Section Powercap.
Context `{Build} `{World} `{Regex}.

Definition check_module : io bool :=
  r ← observe modules;
  names ← lift (of_option r);
  mret (existsb (fun name => bool_decide (name ∈ [lit "intel_rapl"; lit "intel_rapl_msr"; lit "intel_rapl_common"])) names).

Definition re_socket : str := lit "^.*/intel-rapl:\d+$".
Definition re_domain : str := lit "^.*/intel-rapl:\d+:\d+$".
Definition re_socket_mmio : str := lit "^.*/intel-rapl-mmio:\d+$".
Definition re_domain_mmio : str := lit "^.*/intel-rapl-mmio:\d+:\d+$".

Context (p : PowercapRAPLSensor).

Definition socket_file (socket_id : Z) : str := base_path p ++ lit "/intel-rapl:" ++ to_string socket_id ++ lit "/energy_uj".
Definition domain_file (socket_id domain_id : Z) : str :=
  base_path p ++ lit "/intel-rapl:" ++ to_string socket_id ++ lit ":" ++ to_string domain_id ++ lit "/energy_uj".
Definition add_found_socket (t : Topology) (socket_id : Z) : Topology :=
  fst (safe_add_socket t socket_id [] (buffer_per_socket_max_kbytes p) {[ lit "source_file" := socket_file socket_id ]}).

Definition domain_folder (t : Topology) (folder_name : str) : io Topology :=
  socket_id ← lift (number_at folder_name 1);
  domain_id ← lift (number_at folder_name 2);
  let t := add_found_socket t socket_id in
  r ← observe (fun n => file n (folder_name ++ lit "/name"));
  mret match r with
    | Some domain_name =>
        safe_add_domain_to_socket t socket_id domain_id (trim domain_name) (buffer_per_domain_max_kbytes p)
          {[ lit "source_file" := domain_file socket_id domain_id ]}
    | None => t
    end.

Definition set_s_mmio (s : CPUSocket) (path : str) : CPUSocket :=
  mkSocket (s_id s) (s_domains s) (s_record_buffer s) (s_buffer_max_kbytes s) (s_cpu_cores s) (s_stat_buffer s) (<[lit "mmio" := path]> (s_sensor_data s)).
Definition set_d_mmio (d : Domain) (path : str) : Domain :=
  mkDomain (d_id d) (d_name d) (d_record_buffer d) (d_buffer_max_kbytes d) (<[lit "mmio" := path]> (d_sensor_data d)).

Definition socket_mmio_folder (t : Topology) (folder_name : str) : io Topology :=
  socket_id ← lift (number_at folder_name 1);
  let path := base_path p ++ lit "/intel-rapl-mmio:" ++ to_string socket_id ++ lit "/energy_uj" in
  mret (set_sockets t (map (fun s => if socket_id =? s_id s then set_s_mmio s path else s) (sockets t))).

(** Ids of domains differ between the two kinds of folders, names do not; the file is
    read for every domain. *)
Definition match_domain (folder_name : str) (d : Domain) : io Domain :=
  r ← observe (fun n => file n (folder_name ++ lit "/name"));
  name_in_folder ← lift (of_option r);
  mret (if bool_decide (trim (d_name d) = trim name_in_folder) then set_d_mmio d (folder_name ++ lit "/energy_uj") else d).
Definition domain_mmio_folder (t : Topology) (folder_name : str) : io Topology :=
  socket_id ← lift (number_at folder_name 1);
  ss ← for_each (fun s => if socket_id =? s_id s then ds ← for_each (match_domain folder_name) (s_domains s); mret (set_domains s ds) else mret s) (sockets t);
  mret (set_sockets t ss).

(** The state of the loop has whether a domain was found. *)
Definition scan_folder (acc : Topology * bool) (folder_name : str) : io (Topology * bool) :=
  let '(t, matched) := acc in
  if is_match re_domain folder_name then t ← domain_folder t folder_name; mret (t, true)
  else if is_match re_socket_mmio folder_name then t ← socket_mmio_folder t folder_name; mret (t, matched)
  else if is_match re_domain_mmio folder_name then t ← domain_mmio_folder t folder_name; mret (t, matched)
  else mret (t, matched).

(** The name has not been trimmed here. *)
Definition fallback_folder (t : Topology) (folder_name : str) : io Topology :=
  r ← observe (fun n => file n (folder_name ++ lit "/name"));
  match r with
  | Some domain_name =>
      if negb (bool_decide (domain_name = lit "psys")) && is_match re_socket folder_name then
        socket_id ← lift (number_at folder_name 1); mret (add_found_socket t socket_id)
      else mret t
  | None => mret t
  end.

Definition set_psys (t : Topology) (path : str) : Topology :=
  mkTopology (sockets t) (proc_tracker t) (t_stat_buffer t) (t_record_buffer t) (t_buffer_max_kbytes t) (domains_names t) (<[lit "psys" := path]> (t_sensor_data t)).
Definition psys_folder (t : Topology) (folder_name : str) : io Topology :=
  r ← observe (fun n => file n (folder_name ++ lit "/name"));
  mret match r with
    | Some domain_name => if bool_decide (trim domain_name = lit "psys") then set_psys t folder_name else t
    | None => t
    end.

(** [for folder in fs::read_dir(..).unwrap()]. *)
Fixpoint for_folders {A} (body : A -> str -> io A) (folders : list (option str)) (acc : A) : io A :=
  match folders with
  | [] => mret acc
  | folder :: folders => folder_name ← lift (of_option folder); acc ← body acc folder_name; for_folders body folders acc
  end.
Definition in_base_path {A} (body : A -> str -> io A) (acc : A) : io A :=
  r ← observe (fun n => read_dir n (base_path p));
  folders ← lift (of_option r);
  for_folders body folders acc.

(** After the first loop. *)
Definition finish_topology (found : Topology * bool) : io Topology :=
  let '(t, re_domain_matched) := found in
  t ← (if re_domain_matched then mret t else in_base_path fallback_folder t);
  t ← in_base_path psys_folder t;
  add_cpu_cores t.
Definition generate_topology : io Topology :=
  _ ← check_module;
  found ← in_base_path scan_folder (new_topology ∅, false);
  finish_topology found.
End Powercap.

(** ** What comes out *)

(** Every result of a computation has a property. *)
Definition returns {A} (P : A -> Prop) (m : io A) : Prop := forall n a n', m n = Ret (a, n') -> P a.

Lemma returns_ret {A} (P : A -> Prop) a : P a -> returns P (mret a).
Proof. by intros HP n a' n' [= <- <-]. Qed.
Lemma returns_bind {A B} (Q : A -> Prop) (P : B -> Prop) (m : io A) (f : A -> io B) : returns Q m -> (forall a, Q a -> returns P (f a)) -> returns P (m ≫= f).
Proof. intros Hm Hf n b n'. unfold mbind, io_bind. destruct (m n) as [[a n1]| |] eqn:E; [|done|done]. apply (Hf a). by eapply Hm. Qed.
Lemma returns_any {A} (m : io A) : returns (fun _ => True) m.
Proof. done. Qed.
Lemma returns_lift {A} (P : A -> Prop) (r : res A) : (forall a, r = Ret a -> P a) -> returns P (lift r).
Proof. intros Hr n a n'. unfold lift. destruct r as [x| |]; [|done|done]. intros [= <- <-]. by apply Hr. Qed.

Lemma returns_for_each {A} (P : A -> Prop) (R : A -> A -> Prop) (f : A -> io A) xs :
  (forall x, P x -> returns (fun y => P y /\ R x y) (f x)) -> Forall P xs -> returns (fun ys => Forall P ys /\ Forall2 R xs ys) (for_each f xs).
Proof.
  intros Hf. induction xs as [|x xs IH]; intros Hxs; cbn [for_each]; [by apply returns_ret|]. apply Forall_cons in Hxs as [Hx Hxs].
  eapply returns_bind; [by apply Hf|]. intros y [Hy HR]. eapply returns_bind; [by apply IH|]. intros ys [Hys HRs]. apply returns_ret. split; by constructor.
Qed.
Lemma returns_for_folders {A} (P : A -> Prop) (body : A -> str -> io A) folders acc :
  (forall acc s, P acc -> returns P (body acc s)) -> P acc -> returns P (for_folders body folders acc).
Proof.
  intros Hb. revert acc. induction folders as [|fo fs IH]; intros acc Ha; cbn [for_folders]; [by apply returns_ret|].
  eapply returns_bind; [apply returns_any|]. intros name _. eapply returns_bind; [by apply Hb|]. intros acc' Ha'. by apply IH.
Qed.

Definition u16 (x : Z) : Prop := 0 <= x < 65536.

Lemma parse_digits_bound max s v r : 0 <= v <= max -> parse_digits max s v = Some r -> 0 <= r <= max.
Proof.
  revert v. induction s as [|c s IH]; intros v Hv; cbn [parse_digits]; [by intros [= <-]|]. cbv zeta.
  destruct (Z.leb_spec 48 c); [|done]. destruct (c <=? 57); [|done]. cbn [andb]. destruct (Z.ltb_spec max (10 * v + (c - 48))); [done|]. apply IH. lia.
Qed.
Lemma parse_u16 s v : parse_unsigned 16 s = Some v -> u16 v.
Proof.
  intros Hp. assert (exists s', parse_digits (2 ^ 16 - 1) s' 0 = Some v) as [s' E].
  { unfold parse_unsigned in Hp. repeat (case_match; try done); eauto. }
  apply parse_digits_bound in E; [unfold u16; lia|lia].
Qed.
Lemma number_at_u16 name i v : number_at name i = Ret v -> u16 v.
Proof.
  unfold number_at. destruct (_ !! i) as [part|]; [|done]. cbn [of_option mbind res_bind]. destruct (parse_unsigned 16 part) as [x|] eqn:E; [|done].
  intros [= <-]. by eapply parse_u16.
Qed.

Lemma u16_length (l : list Z) : NoDup l -> Forall u16 l -> Z.of_nat (length l) <= 65536.
Proof.
  intros Hn Hl. assert (l ⊆+ seqZ 0 65536) as Hs%submseteq_length.
  { apply NoDup_submseteq; [done|]. intros x Hx. rewrite Forall_forall in Hl. apply Hl in Hx. apply elem_of_seqZ. unfold u16 in Hx. lia. }
  rewrite length_seqZ in Hs. lia.
Qed.

Section Built.
Context `{Hbuild : Build} `{Hworld : World} `{Hregex : Regex}.
Context (p : PowercapRAPLSensor) (nb : nat).

Record built_domain (d : Domain) : Prop := {
  bd_source : has_source (d_sensor_data d);
  bd_kb : d_buffer_max_kbytes d = buffer_per_domain_max_kbytes p;
  bd_buffer : d_record_buffer d = [];
}.
Record built_socket (k : nat) (s : CPUSocket) : Prop := {
  bs_source : has_source (s_sensor_data s);
  bs_kb : s_buffer_max_kbytes s = buffer_per_socket_max_kbytes p;
  bs_records : s_record_buffer s = [];
  bs_stats : s_stat_buffer s = [];
  bs_domains : Forall built_domain (s_domains s);
  bs_ids : NoDup (map d_id (s_domains s)) /\ Forall u16 (map d_id (s_domains s));
  bs_cores : Forall (core_ok nb) (s_cpu_cores s) /\ (length (s_cpu_cores s) <= k)%nat;
}.
Record built (k : nat) (t : Topology) : Prop := {
  bt_host : t_buffer_max_kbytes t = 1 /\ t_record_buffer t = [] /\ t_stat_buffer t = [] /\ proc_tracker t = new_tracker 5;
  bt_sockets : Forall (built_socket k) (sockets t);
  bt_ids : NoDup (map s_id (sockets t)) /\ Forall u16 (map s_id (sockets t));
}.

Lemma has_source_singleton path : has_source {[ lit "source_file" := path ]}.
Proof using Type. exists path. apply lookup_singleton_eq. Qed.

Lemma built_new : built 0 (new_topology ∅).
Proof using Type. split; cbn; repeat constructor. Qed.

(** Sockets may change as long as their ids do not. *)
Lemma built_sockets k k' t ss :
  built k t -> Forall (built_socket k') ss -> map s_id ss = map s_id (sockets t) -> built k' (set_sockets t ss).
Proof using Type. intros [Hh _ Hi] Hss E. split; [done|done|]. cbn. by rewrite E. Qed.

Lemma not_id {A} (f : A -> Z) (l : list A) i : existsb (fun x => f x =? i) l = false -> i ∉ map f l.
Proof using Type.
  intros E Hin. apply list_elem_of_fmap in Hin as (x & -> & Hx). apply not_true_iff_false in E. destruct E. apply existsb_exists. exists x.
  split; [by apply list_elem_of_In|apply Z.eqb_refl].
Qed.
Lemma ids_snoc {A} (f : A -> Z) (l : list A) x :
  existsb (fun y => f y =? f x) l = false -> u16 (f x) -> NoDup (map f l) /\ Forall u16 (map f l) -> NoDup (map f (l ++ [x])) /\ Forall u16 (map f (l ++ [x])).
Proof using Type.
  intros E%not_id Hx [Hn Hu]. rewrite map_app. split; [|apply Forall_app; split; [done|by constructor]].
  apply NoDup_app. split; [done|]. split; [|apply NoDup_singleton]. intros y Hy Hy'. by apply list_elem_of_singleton in Hy' as ->.
Qed.

Lemma built_add_socket k t id : u16 id -> built k t -> built k (add_found_socket p t id).
Proof using Type.
  intros Hid [Hh Hss Hi]. unfold add_found_socket, safe_add_socket. destruct (existsb _ _) eqn:E; [by split|]. split; [done| |].
  - apply Forall_app. split; [done|]. constructor; [|done]. split; try done; [apply has_source_singleton|by repeat constructor|]. split; [constructor|cbn; lia].
  - apply (ids_snoc s_id (sockets t) (new_socket id _ _ _)); done.
Qed.

Lemma built_add_domain k s d : u16 (d_id d) -> built_domain d -> built_socket k s -> built_socket k (safe_add_domain s d).
Proof using Type.
  intros Hid Hd [H1 H2 H3 H4 Hds Hi H5]. unfold safe_add_domain. destruct (existsb _ _) eqn:E; [by split|]. split; cbn; try done.
  - apply Forall_app. split; [done|by constructor].
  - by apply ids_snoc.
Qed.
Lemma safe_add_domain_id s d : s_id (safe_add_domain s d) = s_id s.
Proof using Type. unfold safe_add_domain. by destruct (existsb _ _). Qed.

Lemma built_map k t (f : CPUSocket -> CPUSocket) :
  (forall s, built_socket k s -> built_socket k (f s) /\ s_id (f s) = s_id s) -> built k t -> built k (set_sockets t (map f (sockets t))).
Proof using Type.
  intros Hf Hb. apply (built_sockets k k t); [done| |].
  - apply Forall_map. eapply Forall_impl; [apply (bt_sockets _ _ Hb)|]. intros s Hs. by apply Hf.
  - rewrite map_map. apply map_ext_in. intros s Hs. apply Hf. pose proof (bt_sockets _ _ Hb) as Hall. rewrite Forall_forall in Hall. apply Hall. by apply list_elem_of_In.
Qed.
Lemma built_names k t : built k t -> built k (build_domains_names t).
Proof using Type. intros [Hh Hss Hi]. by split. Qed.

Lemma has_source_mmio path m : has_source m -> has_source (<[lit "mmio" := path]> m).
Proof using Type. intros [x Hx]. exists x. rewrite lookup_insert_ne; [done|by vm_compute]. Qed.
Lemma built_s_mmio k s path : built_socket k s -> built_socket k (set_s_mmio s path).
Proof using Type. intros [H1 H2 H3 H4 H5 H6 H7]. split; try done. by apply has_source_mmio. Qed.
Lemma built_d_mmio d path : built_domain d -> built_domain (set_d_mmio d path).
Proof using Type. intros [H1 H2 H3]. split; try done. by apply has_source_mmio. Qed.

(** *** Folders *)

Lemma domain_folder_built t name : built 0 t -> returns (built 0) (domain_folder p t name).
Proof using Type.
  intros Hb. unfold domain_folder. eapply returns_bind; [apply returns_lift, number_at_u16|]. intros sid Hsid.
  eapply returns_bind; [apply returns_lift, number_at_u16|]. intros did Hdid. eapply returns_bind; [apply returns_any|]. intros r _. apply returns_ret.
  apply (built_add_socket _ _ sid Hsid) in Hb. destruct r as [dn|]; [|done]. apply built_names, built_map; [|done].
  intros s Hs. destruct (s_id s =? sid); [|done]. rewrite safe_add_domain_id. split; [|done]. apply built_add_domain; [done| |done].
  split; [apply has_source_singleton|done|done].
Qed.

Lemma match_domain_built name d : built_domain d -> returns (fun d' => built_domain d' /\ d_id d' = d_id d) (match_domain name d).
Proof using Type.
  intros Hd. unfold match_domain. eapply returns_bind; [apply returns_any|]. intros r _. eapply returns_bind; [apply returns_any|]. intros nm _.
  apply returns_ret. case_bool_decide; [|done]. split; [by apply built_d_mmio|done].
Qed.
Lemma same_ids {A} (f : A -> Z) (l l' : list A) : Forall2 (fun x y => f y = f x) l l' -> map f l' = map f l.
Proof using Type. induction 1 as [|x y l l' E _ IH]; [done|]. cbn [map]. by rewrite E, IH. Qed.

Lemma domain_mmio_built t name : built 0 t -> returns (built 0) (domain_mmio_folder t name).
Proof using Type.
  intros Hb. unfold domain_mmio_folder. eapply returns_bind; [apply returns_any|]. intros sid _.
  eapply returns_bind; [apply (returns_for_each (built_socket 0) (fun s s' => s_id s' = s_id s)); [|apply (bt_sockets _ _ Hb)]|].
  - intros s Hs. destruct (sid =? s_id s); [|by apply returns_ret].
    eapply returns_bind; [apply (returns_for_each built_domain (fun d d' => d_id d' = d_id d) _ _ (match_domain_built name)), (bs_domains _ _ Hs)|].
    intros ds [Hds Hids%same_ids]. apply returns_ret. destruct Hs. split; [|done]. split; try done. cbn. by rewrite Hids.
  - intros ss [Hss Hids%same_ids]. apply returns_ret. by apply (built_sockets 0).
Qed.

Lemma scan_built acc name : built 0 acc.1 -> returns (fun acc => built 0 acc.1) (scan_folder p acc name).
Proof using Type.
  destruct acc as [t m]. cbn [fst]. intros Hb. unfold scan_folder.
  destruct (is_match re_domain name); [eapply returns_bind; [by apply domain_folder_built|intros t' Ht'; by apply returns_ret]|].
  destruct (is_match re_socket_mmio name).
  - eapply returns_bind; [|intros t' Ht'; apply returns_ret; exact Ht']. unfold socket_mmio_folder. eapply returns_bind; [apply returns_any|]. intros sid _. apply returns_ret.
    apply built_map; [|done]. intros s Hs. destruct (sid =? s_id s); [|done]. split; [by apply built_s_mmio|done].
  - destruct (is_match re_domain_mmio name); [eapply returns_bind; [by apply domain_mmio_built|intros t' Ht'; by apply returns_ret]|by apply returns_ret].
Qed.

Lemma fallback_built t name : built 0 t -> returns (built 0) (fallback_folder p t name).
Proof using Type.
  intros Hb. unfold fallback_folder. eapply returns_bind; [apply returns_any|]. intros [dn|] _; [|by apply returns_ret].
  destruct (_ && _); [|by apply returns_ret]. eapply returns_bind; [apply returns_lift, number_at_u16|]. intros sid Hsid. apply returns_ret. by apply built_add_socket.
Qed.
Lemma psys_built t name : built 0 t -> returns (built 0) (psys_folder t name).
Proof using Type.
  intros [Hh Hss Hi]. unfold psys_folder. eapply returns_bind; [apply returns_any|]. intros [dn|] _; apply returns_ret; [|by split]. case_bool_decide; by split.
Qed.

Lemma in_base_path_built {A} (P : A -> Prop) body acc : (forall acc s, P acc -> returns P (body acc s)) -> P acc -> returns P (in_base_path p body acc).
Proof using Type.
  intros Hb Ha. unfold in_base_path. eapply returns_bind; [apply returns_any|]. intros r _. eapply returns_bind; [apply returns_any|]. intros fs _.
  by apply returns_for_folders.
Qed.

(** *** Cores *)

Lemma number_cores_spec info cs : forall id cores,
  0 <= id -> id + Z.of_nat (length cs) <= Z.of_nat nb -> Z.of_nat nb < 65536 -> number_cores info id cs = Ret cores ->
  Forall (core_ok nb) cores /\ length cores = length cs.
Proof using Type.
  induction cs as [|c cs IH]; intros id cores Hid Hnb Hlt; cbn [number_cores length] in *.
  { destruct (rust_uint 16 (id + 1)); [|done|done]. by intros [= <-]. }
  rewrite rust_uint_ok by lia. cbn [mbind res_bind]. destruct (info (Z.to_nat id)) as [a|]; [|done]. cbn [of_option mbind res_bind].
  destruct (number_cores info (id + 1) cs) as [l| |] eqn:E; [|done|done]. intros [= <-]. apply IH in E as [Hl Hlen]; [|lia|lia|lia].
  split; [|cbn; by rewrite Hlen]. constructor; [|done]. unfold core_ok. cbn. lia.
Qed.

Lemma built_more k s : built_socket k s -> built_socket (S k) s.
Proof using Type. intros [H1 H2 H3 H4 H5 H6 [H7 H8]]. split; try done. split; [done|lia]. Qed.
Lemma built_add_core k s c : core_ok nb c -> built_socket k s -> built_socket (S k) (add_cpu_core s c).
Proof using Type.
  intros Hc [H1 H2 H3 H4 H5 H6 [H7 H8]]. split; try done. cbn. split; [apply Forall_app; split; [done|by constructor]|]. rewrite length_app. cbn. lia.
Qed.

Lemma place_core_built k t c t' : core_ok nb c -> built k t -> place_core t c = Ret t' -> built (S k) t'.
Proof using Type.
  intros Hc Hb. unfold place_core. destruct (_ !! _) as [a|]; [|done]. cbn [of_option mbind res_bind]. destruct (parse_unsigned 16 a) as [sid|]; [|done].
  cbn [of_option mbind res_bind]. pose proof (bt_sockets _ _ Hb) as Hss. assert (Forall (built_socket (S k)) (sockets t)) as HS by (eapply Forall_impl; [exact Hss|apply built_more]).
  destruct (list_find _ _) as [[i s]|] eqn:Ef.
  - apply list_find_Some in Ef as (Hi & _ & _). intros [= <-]. apply (built_sockets k); [done| |].
    + apply Forall_insert; [done|]. apply built_add_core; [done|]. by eapply Forall_lookup_1.
    + rewrite list_fmap_insert. apply list_insert_id. rewrite list_lookup_fmap, Hi. done.
  - destruct (sockets t) as [|s ss] eqn:Es; [done|]. intros [= <-]. apply (built_sockets k); [done| |by rewrite Es].
    apply Forall_cons in Hss as [Hs _]. apply Forall_cons in HS as [_ HS]. constructor; [by apply built_add_core|done].
Qed.
Lemma place_cores_built cs : forall k t t', Forall (core_ok nb) cs -> built k t -> place_cores t cs = Ret t' -> built (length cs + k) t'.
Proof using Type.
  induction cs as [|c cs IH]; intros k t t' Hcs Hb; cbn [place_cores length]; [by intros [= <-]|]. apply Forall_cons in Hcs as [Hc Hcs].
  destruct (place_core t c) as [t1| |] eqn:E; [|done|done]. cbn [mbind res_bind]. intros E'. replace (S (length cs) + k)%nat with (length cs + S k)%nat by lia.
  eapply IH; [done| |exact E']. by eapply place_core_built.
Qed.

Context (Hw : world_ok nb).

Lemma add_cpu_cores_built t : built 0 t -> returns (fun t' => exists k, (k <= nb)%nat /\ built k t') (add_cpu_cores t).
Proof using Hw.
  intros Hb. unfold add_cpu_cores. apply (returns_bind (fun cores => Forall (core_ok nb) cores /\ (length cores <= nb)%nat)).
  - unfold generate_cpu_cores. apply (returns_bind (fun cs => (length cs <= nb)%nat)); [intros n cs n' [= <- <-]; apply (wo_cpus _ Hw)|]. intros cs Hcs.
    eapply returns_bind; [apply returns_any|]. intros r _. eapply returns_bind; [apply returns_any|]. intros info _. apply returns_lift. intros cores E.
    pose proof (wo_nb _ Hw). apply number_cores_spec in E as [Hc Hl]; [|lia|lia|lia]. split; [done|lia].
  - intros cores [Hc Hl]. apply returns_lift. intros t' E. apply (place_cores_built _ 0) in E; [|by apply Forall_rev|done]. eexists. split; [|exact E].
    rewrite length_rev. lia.
Qed.

Lemma generate_topology_built : returns (fun t => exists k, (k <= nb)%nat /\ built k t) (generate_topology p).
Proof using Hw.
  unfold generate_topology. eapply returns_bind; [apply returns_any|]. intros _ _.
  eapply returns_bind; [apply (in_base_path_built (fun acc => built 0 acc.1) (scan_folder p)); [intros acc s; apply scan_built|apply built_new]|].
  intros [t m] Hb. cbn [fst] in Hb. unfold finish_topology. apply (returns_bind (built 0)).
  - destruct m; [by apply returns_ret|]. apply in_base_path_built; [intros ? ?; apply fallback_built|done].
  - intros t1 Hb1. eapply returns_bind; [apply in_base_path_built; [intros ? ?; apply psys_built|exact Hb1]|]. intros t2 Hb2. by apply add_cpu_cores_built.
Qed.

Hypothesis Hper_socket : kb_ok (buffer_per_socket_max_kbytes p).
Hypothesis Hper_domain : kb_ok (buffer_per_domain_max_kbytes p).

Lemma built_domain_ok d : built_domain d -> domain_ok d /\ shrink_domain d = d.
Proof using Hper_domain.
  intros [H1 H2 H3]. split; [split; [done|by rewrite H2]|]. unfold shrink_domain. destruct d as [i nm b kb sd]. cbn in *. by subst.
Qed.
Lemma map_id_on {A} (P : A -> Prop) (f : A -> A) l : (forall x, P x -> f x = x) -> Forall P l -> map f l = l.
Proof using Type. intros Hf. induction 1 as [|x l Hx _ IH]; [done|]. cbn [map]. by rewrite Hf, IH. Qed.
Lemma built_socket_ok k s : (k <= nb)%nat -> built_socket k s -> socket_ok nb s /\ shrink_socket s = s.
Proof using Hper_socket Hper_domain.
  intros Hk [H1 H2 H3 H4 Hds [Hn Hu] [Hc Hl]]. split.
  - split; [done|by rewrite H2| | |done|lia].
    + eapply Forall_impl; [exact Hds|]. intros d Hd. by apply built_domain_ok.
    + rewrite <- (length_map d_id). by apply u16_length.
  - unfold shrink_socket. destruct s as [i ds b kb cs st sd]. cbn in *. subst. f_equal. eapply map_id_on; [|exact Hds]. intros d Hd. by apply built_domain_ok.
Qed.

(** The topology is well-formed and its buffers are empty. *)
Lemma built_ok k t : (k <= nb)%nat -> built k t -> topology_ok nb t /\ shrink t = t.
Proof using Hper_socket Hper_domain.
  intros Hk [(H1 & H2 & H3 & H4) Hss [Hn Hu]]. split.
  - split; [by rewrite H1| | |].
    + eapply Forall_impl; [exact Hss|]. intros s Hs. by eapply built_socket_ok.
    + rewrite <- (length_map s_id). by apply u16_length.
    + rewrite H4. split; cbn; [lia|constructor|constructor].
  - unfold shrink. destruct t as [ss pt st b kb dn sd]. cbn in *. subst. f_equal. eapply map_id_on; [|exact Hss]. intros s Hs. by eapply built_socket_ok.
Qed.
End Built.
