(* ===== verification/ScaphConsumers.v ===== *)
(** * The largest consumers (attribution/scaphandre/src/sensors/utils.rs)

    Exporters ask the tracker for the processes that use the processors most, or for
    those a filter selects.  What [sysinfo] knows of the running processes is
    [Sysinfo]. *)
From stdpp Require Import gmap strings.
From Stdlib Require Import SpecFloat.
From S2P Require Import Prelude NumStr PyFloat Scaph ScaphBuffer ScaphTracker.

Local Open Scope Z_scope.

(** ** Definitions *)

(** [System::process] and the usage of all processors.  Percentages are [f32]. *)
Class Sysinfo := { cpu_usage : spec_float; find_process : Z -> option running }.

Definition f32_mul : spec_float -> spec_float -> spec_float := SFmul 24 128.

(** [OrderedFloat]: a number that is none is the largest. *)
Definition ord_ltb (a b : float) : bool :=
  match a, b with
  | S754_nan, _ => false
  | _, S754_nan => true
  | _, _ => SFltb a b
  end.

Definition consumer : Type := IProcess * float.

(** [consumers.sort_by(|x, y| y.1.cmp(&x.1))], which is stable. *)
Fixpoint insert_consumer (c : consumer) (l : list consumer) : list consumer :=
  match l with
  | [] => [c]
  | c' :: l' => if ord_ltb c.2 c'.2 then c' :: insert_consumer c l' else c :: l
  end.
Definition sort_consumers (l : list consumer) : list consumer := foldr insert_consumer [] l.

Section Consumers.
Context `{Sysinfo}.

Definition get_cpu_usage_percentage (p nb_cores : Z) : spec_float :=
  match find_process p with
  | Some r => f32_div (f32_div (f32_mul cpu_usage (run_usage r)) (f32_of_Z 100)) (f32_of_Z nb_cores)
  | None => S754_zero false
  end.

(** The consumers found so far are counted if the whole percentage of the process is
    above the share of the processors of the new one. *)
Definition above (diff : spec_float) (c : consumer) : bool :=
  match find_process (pid c.1) with Some r => SFltb diff (run_usage r) | None => false end.
Definition top_step (top nb_cores : Z) (consumers : list consumer) (v : list ProcessRecord) : res (list consumer) :=
  match v with
  | first :: _ :: _ =>
      let p := pid (process first) in
      let diff := get_cpu_usage_percentage p nb_cores in
      if Z.of_nat (length (List.filter (above diff) consumers)) <? top then
        match find_process p with
        | Some r =>
            new_consumer ← new_process r;
            let consumers := sort_consumers (consumers ++ [(new_consumer, f64_of_f32 diff)]) in
            Ret (if top <? Z.of_nat (length consumers) then removelast consumers else consumers)
        | None => Ret consumers
        end
      else Ret consumers
  | _ => Ret consumers
  end.
Fixpoint for_vectors (step : list consumer -> list ProcessRecord -> res (list consumer)) (vs : list (list ProcessRecord)) (consumers : list consumer) : res (list consumer) :=
  match vs with
  | [] => Ret consumers
  | v :: vs => consumers ← step consumers v; for_vectors step vs consumers
  end.
Definition get_top_consumers (pt : ProcessTracker) (nb_cores top : Z) : res (list consumer) := for_vectors (top_step top nb_cores) (procs pt) [].

(** [IProcess::exe] of a process, [unwrap_or_default]: a panic if the path is not
    UTF-8. *)
Definition process_exe_of (p : Z) : res str := match find_process p with Some r => of_option (exe r) | None => Ret [] end.
(** The filter is [regex_filter.is_match]; the executable and the command line are
    those of the process of the oldest record. *)
Definition filter_step (regex_filter : str -> bool) (nb_cores : Z) (consumers : list consumer) (v : list ProcessRecord) : res (list consumer) :=
  match v with
  | first :: _ :: _ =>
      let diff := get_cpu_usage_percentage (pid (process first)) nb_cores in
      let p_record := List.last v first in
      process_exe ← process_exe_of (pid (process p_record));
      let process_cmdline := match find_process (pid (process p_record)) with Some r => concat (cmd r) | None => [] end in
      Ret (if regex_filter process_exe || regex_filter process_cmdline then sort_consumers (consumers ++ [(process p_record, f64_of_f32 diff)])
           else consumers)
  | _ => Ret consumers
  end.
Definition get_filtered_processes (pt : ProcessTracker) (nb_cores : Z) (regex_filter : str -> bool) : res (list consumer) :=
  for_vectors (filter_step regex_filter nb_cores) (procs pt) [].

(** A panic for a process that is not tracked. *)
Definition get_process_cmdline (pt : ProcessTracker) (p : Z) : res (option str) :=
  match List.filter (has_pid p) (procs pt) with
  | (r :: _) :: _ => Ret ((fun x => concat (cmd x)) <$> find_process (pid (process r)))
  | _ => Abort
  end.
End Consumers.

(** ** Order *)

Lemma SFcompare_antisym a b : SFcompare b a = CompOpp <$> SFcompare a b.
Proof.
  destruct a as [[]|[]| |[] ma ea], b as [[]|[]| |[] mb eb]; cbn; try done; rewrite (Z.compare_antisym ea eb); destruct (ea ?= eb) eqn:E; cbn; try done;
    change (Pos.compare_cont Eq ?x ?y) with (x ?= y)%positive; rewrite (Pos.compare_antisym ma mb); by destruct (ma ?= mb)%positive.
Qed.
Lemma ord_ltb_asym a b : ord_ltb a b = true -> ord_ltb b a = false.
Proof.
  unfold ord_ltb. destruct a as [| | |], b as [| | |]; try done; unfold SFltb; rewrite SFcompare_antisym; by destruct (SFcompare _ _) as [[]|].
Qed.

Definition not_less (a b : consumer) : Prop := ord_ltb a.2 b.2 = false.

Lemma insert_consumer_perm c l : insert_consumer c l ≡ₚ c :: l.
Proof. induction l as [|c' l IH]; cbn [insert_consumer]; [done|]. destruct (ord_ltb _ _); [|done]. rewrite IH. apply Permutation_swap. Qed.
Lemma sort_consumers_perm l : sort_consumers l ≡ₚ l.
Proof. induction l as [|c l IH]; [done|]. cbn [sort_consumers foldr]. rewrite insert_consumer_perm. by constructor. Qed.

Lemma insert_consumer_sorted c l : Sorted not_less l -> Sorted not_less (insert_consumer c l).
Proof.
  induction 1 as [|c' l Hs IH Hh]; cbn [insert_consumer]; [by repeat constructor|]. destruct (ord_ltb c.2 c'.2) eqn:E; [|by repeat constructor].
  constructor; [done|]. apply ord_ltb_asym in E. destruct l as [|c2 l]; cbn [insert_consumer]; [by constructor|].
  destruct (ord_ltb c.2 c2.2); [|by constructor]. by inversion Hh; constructor.
Qed.
Lemma sort_consumers_sorted l : Sorted not_less (sort_consumers l).
Proof. induction l as [|c l IH]; [constructor|]. by apply insert_consumer_sorted. Qed.
Lemma Sorted_removelast {A} (R : A -> A -> Prop) (l : list A) : Sorted R l -> Sorted R (removelast l).
Proof.
  induction 1 as [|x l Hs IH Hh]; [constructor|]. destruct l as [|y l]; [constructor|]. change (removelast (x :: y :: l)) with (x :: removelast (y :: l)).
  constructor; [done|]. apply HdRel_inv in Hh. destruct l; constructor; done.
Qed.

(** ** Selection *)

Section Selection.
Context `{Hsys : Sysinfo}.

(** What the vector of a process gives. *)
Definition eligible (nb_cores : Z) (v : list ProcessRecord) : option consumer :=
  match v with
  | first :: _ :: _ =>
      r ← find_process (pid (process first));
      match new_process r with
      | Ret p => Some (p, f64_of_f32 (get_cpu_usage_percentage (pid (process first)) nb_cores))
      | _ => None
      end
  | _ => None
  end.
Definition selected (regex_filter : str -> bool) (nb_cores : Z) (v : list ProcessRecord) : option consumer :=
  match v with
  | first :: _ :: _ =>
      let p_record := List.last v first in
      let r := find_process (pid (process p_record)) in
      if regex_filter (default [] (r ≫= exe)) || regex_filter (match r with Some r => concat (cmd r) | None => [] end) then
        Some (process p_record, f64_of_f32 (get_cpu_usage_percentage (pid (process first)) nb_cores))
      else None
  | _ => None
  end.

(** None of the running processes makes [IProcess::new] or [IProcess::exe] panic. *)
Definition sysinfo_ok : Prop := forall p r, find_process p = Some r -> running_ok r.
Context (Hok : sysinfo_ok).

Lemma filter_step_spec f nb cs v :
  filter_step f nb cs v = Ret match selected f nb v with Some c => sort_consumers (cs ++ [c]) | None => cs end.
Proof using Hok.
  unfold filter_step, selected, process_exe_of. destruct v as [|r1 [|r2 v]]; [done|done|]. cbv zeta. destruct (find_process _) as [r|] eqn:E.
  - destruct (Hok _ _ E) as [[c Hc] _]. cbn [mbind option_bind]. rewrite Hc. cbn [of_option mbind res_bind default]. by destruct (f _ || f _).
  - cbn [mbind option_bind res_bind default]. by destruct (f _ || f _).
Qed.

Lemma filtered_spec f nb vs : forall cs, Sorted not_less cs ->
  exists r, for_vectors (filter_step f nb) vs cs = Ret r /\ Sorted not_less r /\ r ≡ₚ cs ++ omap (selected f nb) vs.
Proof using Hok.
  induction vs as [|v vs IH]; intros cs Hs; cbn [for_vectors]; [exists cs; cbn; by rewrite app_nil_r|]. rewrite filter_step_spec. cbn [omap list_omap mbind res_bind].
  destruct (selected f nb v) as [c|]; [|by apply IH]. destruct (IH (sort_consumers (cs ++ [c]))) as (r & E & H1 & H2); [apply sort_consumers_sorted|].
  exists r. split; [done|]. split; [done|]. by rewrite H2, sort_consumers_perm, <- app_assoc.
Qed.

(** A consumer is taken in and the last one dropped if there are too many. *)
Lemma take_in_spec top cs c : 0 <= top -> Z.of_nat (length cs) <= top ->
  let l := sort_consumers (cs ++ [c]) in
  let l' := if top <? Z.of_nat (length l) then removelast l else l in
  Sorted not_less l' /\ Z.of_nat (length l') <= top /\ l' ⊆+ cs ++ [c] /\ (Z.of_nat (length (cs ++ [c])) <= top -> l' ≡ₚ cs ++ [c]).
Proof using Type.
  intros Ht Hl l. pose proof (sort_consumers_sorted (cs ++ [c])) as Hsort. pose proof (sort_consumers_perm (cs ++ [c])) as Hp.
  pose proof (Permutation_length Hp) as Hlen. fold l in Hsort, Hp, Hlen. rewrite length_app in *. cbn [length] in *. cbv zeta.
  destruct (Z.ltb_spec top (Z.of_nat (length l))) as [Hg|Hg]; [|split; [done|]; split; [done|]; split; [by rewrite <- Hp|done]].
  split; [by apply Sorted_removelast|]. rewrite removelast_take, length_take. split; [lia|]. split; [|lia].
  rewrite <- Hp. apply sublist_submseteq, sublist_take.
Qed.

Lemma top_step_spec top nb cs v : 0 <= top -> Sorted not_less cs -> Z.of_nat (length cs) <= top ->
  exists r, top_step top nb cs v = Ret r /\ Sorted not_less r /\ Z.of_nat (length r) <= top /\
    r ⊆+ cs ++ option_list (eligible nb v) /\ (Z.of_nat (length (cs ++ option_list (eligible nb v))) <= top -> r ≡ₚ cs ++ option_list (eligible nb v)).
Proof using Hok.
  intros Ht Hs Hl. unfold top_step, eligible. destruct v as [|r1 [|r2 v]]; [by exists cs; rewrite app_nil_r|by exists cs; rewrite app_nil_r|]. cbv zeta.
  set (diff := get_cpu_usage_percentage _ nb). destruct (find_process _) as [r|] eqn:Er; cbn [mbind option_bind].
  2:{ exists cs. change (option_list None) with (@nil consumer). rewrite app_nil_r. by destruct (_ <? top). }
  destruct (new_process_ok r (Hok _ _ Er)) as (p & Ep & _). rewrite Ep. change (option_list (Some ?x)) with [x]. cbn [mbind res_bind].
  destruct (Z.ltb_spec (Z.of_nat (length (List.filter (above diff) cs))) top) as [Hc|Hc]; [eexists; split; [reflexivity|by apply take_in_spec]|].
  exists cs. split; [done|]. split; [done|]. split; [done|]. split; [apply submseteq_inserts_r; done|]. rewrite length_app. cbn [length].
  intros Hlt. pose proof (List.filter_length_le (above diff) cs). lia.
Qed.

Lemma top_spec top nb vs : 0 <= top -> forall cs, Sorted not_less cs -> Z.of_nat (length cs) <= top ->
  exists r, for_vectors (top_step top nb) vs cs = Ret r /\ Sorted not_less r /\ Z.of_nat (length r) <= top /\ r ⊆+ cs ++ omap (eligible nb) vs /\
    (Z.of_nat (length (cs ++ omap (eligible nb) vs)) <= top -> r ≡ₚ cs ++ omap (eligible nb) vs).
Proof using Hok.
  intros Ht. induction vs as [|v vs IH]; intros cs Hs Hl; cbn [for_vectors]; [exists cs; cbn; by rewrite app_nil_r|].
  destruct (top_step_spec top nb cs v Ht Hs Hl) as (cs' & E & H1 & H2 & H3 & H4). destruct (IH _ H1 H2) as (r & E' & I1 & I2 & I3 & I4). exists r.
  replace (omap (eligible nb) (v :: vs)) with (option_list (eligible nb v) ++ omap (eligible nb) vs) by (cbn [omap list_omap]; by destruct (eligible nb v)).
  rewrite app_assoc, E. split; [done|]. split; [done|]. split; [done|]. split; [rewrite I3; by apply submseteq_app|]. intros Hle.
  assert (cs' ≡ₚ cs ++ option_list (eligible nb v)) as Hp by (apply H4; rewrite length_app in Hle; lia).
  rewrite I4; [by rewrite Hp|]. rewrite length_app, (Permutation_length Hp), <- length_app. lia.
Qed.
End Selection.

(** ** Theorems *)

(** C34: Where the running processes have executables with paths in UTF-8 and numbers
    of 32 bits, the top consumers are computed without a panic.  They are at most as
    many as asked for, the largest first; all of them are tracked with two records
    and running, and none is missing if there are not more than were asked for. *)
Theorem get_top_consumers_sorted `{Hsys : Sysinfo} (pt : ProcessTracker) (nb_cores top : Z) :
  0 <= top -> sysinfo_ok ->
  exists consumers, get_top_consumers pt nb_cores top = Ret consumers /\
    Sorted not_less consumers /\ Z.of_nat (length consumers) <= top /\ consumers ⊆+ omap (eligible nb_cores) (procs pt) /\
    (Z.of_nat (length (omap (eligible nb_cores) (procs pt))) <= top -> consumers ≡ₚ omap (eligible nb_cores) (procs pt)).
Proof. intros Ht Hok. apply (top_spec Hok top nb_cores (procs pt) Ht []); [constructor|cbn; lia]. Qed.

Definition demo_consumer (p usage : Z) : running := Running p (Some (lit "/bin/sh")) [lit "sh"] (f32_of_Z usage) None.
Definition demo_sysinfo : Sysinfo := {|
  cpu_usage := f32_of_Z 100;
  find_process := fun p => if p =? 1 then Some (demo_consumer 1 50) else if p =? 2 then Some (demo_consumer 2 90) else None;
|}.
Lemma demo_sysinfo_ok : @sysinfo_ok demo_sysinfo.
Proof.
  intros p r. unfold find_process, demo_sysinfo. destruct (p =? 1); [|destruct (p =? 2); [|done]]; intros [= <-]; (split; [by eexists|cbn; lia]).
Qed.
Definition demo_vector (p : Z) : list ProcessRecord :=
  let process := Process p (lit "/bin/sh") (f32_of_Z 0) 0 0 in [PRec process (Dur 2 0); PRec process (Dur 1 0)].
Definition demo_tracker : ProcessTracker := mkTracker [demo_vector 1; demo_vector 2] 5.

Lemma get_top_consumers_sorted_witness : exists consumers, @get_top_consumers demo_sysinfo demo_tracker 4 2 = Ret consumers /\
  Sorted not_less consumers /\ map (fun c => pid c.1) consumers = [2; 1].
Proof.
  destruct (@get_top_consumers_sorted demo_sysinfo demo_tracker 4 2 ltac:(lia) demo_sysinfo_ok) as (cs & E & Hs & _). exists cs.
  split; [exact E|]. split; [exact Hs|]. vm_compute in E. injection E as <-. reflexivity.
Defined.

(** The filter returns every tracked process with two records whose executable or
    command line matches, the largest consumers first. *)
Theorem get_filtered_processes_complete `{Hsys : Sysinfo} (pt : ProcessTracker) (nb_cores : Z) (regex_filter : str -> bool) :
  sysinfo_ok -> exists consumers, get_filtered_processes pt nb_cores regex_filter = Ret consumers /\
    Sorted not_less consumers /\ consumers ≡ₚ omap (selected regex_filter nb_cores) (procs pt).
Proof. intros Hok. apply (filtered_spec Hok regex_filter nb_cores (procs pt) []). constructor. Qed.

(** A process whose executable is not UTF-8 stops the agent. *)
Example not_utf8_panics : new_process (Running 7 None [lit "sh"] (f32_of_Z 1) None) = Abort.
Proof. vm_compute. reflexivity. Qed.

(** A process of the 4 processors uses 50 percent of one, another one 90 percent: the
    first is taken for the larger one, since its percentage of one processor is
    compared with the share of the other in all of them. *)
Example top_consumers_miss : exists consumers, @get_top_consumers demo_sysinfo demo_tracker 4 1 = Ret consumers /\
  map (fun c => pid c.1) consumers = [1] /\
  exists c, c ∈ omap (@eligible demo_sysinfo 4) (procs demo_tracker) /\ Forall (fun c' => ord_ltb c'.2 c.2 = true) consumers.
Proof.
  eexists. split; [vm_compute; reflexivity|]. split; [vm_compute; reflexivity|].
  eexists. split; [apply list_elem_of_further, list_elem_of_here|]. constructor; [vm_compute; reflexivity|constructor].
Qed.
