(* ===== verification/ScaphTheorems.v ===== *)
(** * What the attribution agent does

    From a topology of the powercap tree no round panics; every buffer is a window of
    the complete history of readings, the powers that are reported are those of the
    complete history, and the tracker is a map of processes. *)
From stdpp Require Import gmap strings.
From Stdlib Require Import SpecFloat.
From S2P Require Import Prelude NumStr PyFloat Scaph ScaphBuffer ScaphTracker ScaphRounds ScaphPowercap.

Local Open Scope Z_scope.

(** ** Powers *)

Lemma last_two_window w h : (2 <= w)%nat -> last_two (last_n w h) = last_two h.
Proof.
  intros Hw. unfold last_two, last_n. rewrite <- firstn_rev. destruct (rev h) as [|a [|b l]]; destruct w as [|[|w]]; try lia; done.
Qed.
Lemma stats_window `{Build} w b : (2 <= w)%nat -> get_stats_diff (take w b) = get_stats_diff b.
Proof. intros Hw. destruct w as [|[|w]]; [lia|lia|]. by destruct b as [|x [|y b]]. Qed.

Lemma window_large size kb : size = 48 \/ size = 128 -> kb_ok kb -> (3 <= window size kb)%nat.
Proof. intros Hs Hk. pose proof (window_bounds size kb Hs Hk). unfold kb_ok in Hk. destruct Hs as [-> | ->]; lia. Qed.

(** What is reported of a domain, a socket, the host and a process. *)
Definition same_domain (d d' : Domain) : Prop := d_name d = d_name d' /\ domain_power_microwatts d = domain_power_microwatts d'.
Definition same_socket `{Build} (s s' : CPUSocket) : Prop :=
  s_id s = s_id s' /\ socket_power_microwatts s = socket_power_microwatts s' /\ get_stats_diff (s_stat_buffer s) = get_stats_diff (s_stat_buffer s') /\
  Forall2 same_domain (s_domains s) (s_domains s').
Record same_report `{Build} (t t' : Topology) : Prop := {
  sr_power : topology_power_microwatts t = topology_power_microwatts t';
  sr_diff : get_records_diff t = get_records_diff t';
  sr_stats : get_stats_diff (t_stat_buffer t) = get_stats_diff (t_stat_buffer t');
  sr_sockets : Forall2 same_socket (sockets t) (sockets t');
  sr_processes : forall nb_cores p, process_power_microwatts t nb_cores p = process_power_microwatts t' nb_cores p;
}.

Lemma Forall2_map_same {A} (P : A -> Prop) (R : A -> A -> Prop) (f : A -> A) l : (forall x, P x -> R (f x) x) -> Forall P l -> Forall2 R (map f l) l.
Proof. intros Hf. induction 1 as [|x l Hx _ IH]; cbn [map]; constructor; auto. Qed.

Lemma shrink_domain_same d : domain_ok d -> same_domain (shrink_domain d) d.
Proof.
  intros [_ Hk]. pose proof (window_large 48 _ (or_introl eq_refl) Hk). split; [done|]. unfold domain_power_microwatts. cbn [d_record_buffer shrink_domain set_d_records].
  by rewrite last_two_window by (unfold record_size; lia).
Qed.
Lemma shrink_socket_same `{Build} nb s : socket_ok nb s -> same_socket (shrink_socket s) s.
Proof.
  intros Hok. pose proof (window_large 48 _ (or_introl eq_refl) (so_kb _ _ Hok)). split; [done|]. split; [|split].
  - unfold socket_power_microwatts. cbn [s_record_buffer shrink_socket]. by rewrite last_two_window by (unfold record_size; lia).
  - cbn [s_stat_buffer shrink_socket]. rewrite stats_window; [done|]. pose proof (window_large 128 _ (or_intror eq_refl) (so_kb _ _ Hok)). unfold stat_size. lia.
  - eapply Forall2_map_same; [apply shrink_domain_same|apply (so_domains _ _ Hok)].
Qed.
Lemma shrink_same `{Build} nb t : topology_ok nb t -> same_report (shrink t) t.
Proof.
  intros Hok. pose proof (window_large 48 _ (or_introl eq_refl) (po_kb _ _ Hok)) as Hr. pose proof (window_large 128 _ (or_intror eq_refl) (po_kb _ _ Hok)) as Hs.
  fold record_size in Hr. fold stat_size in Hs.
  assert (topology_power_microwatts (shrink t) = topology_power_microwatts t) as Hp
    by (unfold topology_power_microwatts; cbn [t_record_buffer shrink]; by rewrite last_two_window by lia).
  split; [done| | | |].
  - unfold get_records_diff. cbn [t_record_buffer shrink]. rewrite length_last_n, last_two_window by lia.
    destruct (Nat.ltb_spec 2 (Nat.min (window record_size (t_buffer_max_kbytes t)) (length (t_record_buffer t)))), (Nat.ltb_spec 2 (length (t_record_buffer t))); done || lia.
  - cbn [t_stat_buffer shrink]. apply stats_window. lia.
  - eapply Forall2_map_same; [by apply shrink_socket_same|apply (po_sockets _ _ Hok)].
  - intros c p. unfold process_power_microwatts. by rewrite Hp.
Qed.

(** ** Readings come one after another *)

Definition advances {A} (m : io A) : Prop := forall n a n', m n = Ret (a, n') -> (n <= n')%nat.

Lemma advances_ret {A} (a : A) : advances (mret a).
Proof. by intros n a' n' [= <- <-]. Qed.
Lemma advances_observe {A} (f : nat -> A) : advances (observe f).
Proof. intros n a n' [= <- <-]. lia. Qed.
Lemma advances_lift {A} (r : res A) : advances (lift r).
Proof. intros n a n'. unfold lift. destruct r; [|done|done]. by intros [= <- <-]. Qed.
Lemma advances_bind {A B} (m : io A) (f : A -> io B) : advances m -> (forall a, advances (f a)) -> advances (m ≫= f).
Proof.
  intros Hm Hf n b n'. unfold mbind, io_bind. destruct (m n) as [[a n1]| |] eqn:E; [|done|done]. intros E'. apply Hm in E. apply Hf in E'. lia.
Qed.
Lemma advances_for_each {A} (f : A -> io A) xs : (forall x, advances (f x)) -> advances (for_each f xs).
Proof.
  intros Hf. induction xs as [|x xs IH]; cbn [for_each]; [apply advances_ret|]. apply advances_bind; [done|]. intros y. apply advances_bind; [done|].
  intros ys. apply advances_ret.
Qed.
#[local] Hint Resolve advances_ret advances_observe advances_lift advances_bind advances_for_each : advances.

(** By the shape of the computation. *)
Ltac advance :=
  repeat match goal with
  | |- advances (_ ≫= _) => apply advances_bind; [|intros ?]
  | |- advances (match ?x with _ => _ end) => destruct x
  | |- advances (let _ := _ in _) => cbv zeta
  end; auto with advances.

Section Advance.
Context `{Hbuild : Build} `{Hworld : World}.

Lemma read_counter_advances m : advances (read_counter m).
Proof using Type. unfold read_counter. advance. Qed.
Lemma add_opt_advances a b : advances (add_opt a b).
Proof using Type. unfold add_opt. advance. Qed.
Lemma add_core_advances a b : advances (add_core_stats a b).
Proof using Type. pose proof add_opt_advances. unfold add_core_stats. advance. Qed.
Lemma core_read_advances c : advances (core_read_stats c).
Proof using Type. unfold core_read_stats. advance. Qed.
Lemma sum_cores_advances cs stats : advances (sum_cores cs stats).
Proof using Type.
  revert stats. induction cs as [|c cs IH]; intros stats; cbn [sum_cores]; [apply advances_ret|]. apply advances_bind; [apply core_read_advances|].
  intros [x|]; [|done]. apply advances_bind; [apply add_core_advances|done].
Qed.
Lemma domain_refresh_advances d : advances (domain_refresh_record d).
Proof using Type. unfold domain_refresh_record. apply advances_bind; [apply read_counter_advances|]. intros r. cbv zeta. advance. Qed.
Lemma refresh_socket_advances s : advances (refresh_socket s).
Proof using Type.
  unfold refresh_socket. apply advances_bind; [|intros s1; apply advances_bind; [|intros s2; apply advances_bind; [|intros ds; apply advances_ret]]].
  - unfold socket_refresh_record. apply advances_bind; [apply read_counter_advances|]. intros r. cbv zeta. advance.
  - unfold socket_refresh_stats. apply advances_bind; [advance|]. intros s3. apply advances_bind; [apply sum_cores_advances|]. intros st. apply advances_ret.
  - apply advances_for_each, domain_refresh_advances.
Qed.
End Advance.

(** ** The tracker in a round *)

(** No record is from after a reading. *)
Definition timely `{World} (M : gmap Z (list ProcessRecord)) (n : nat) : Prop :=
  map_Forall (fun _ v => falling v /\ forall m, (n <= m)%nat -> Forall (fun x => dur_ltb (clock m) (p_timestamp x) = false) v) M.
Definition steady `{World} : Prop := forall i j, (i <= j)%nat -> dur_ltb (clock j) (clock i) = false.

(** The records that processes get from a reading on. *)
Fixpoint stamped `{World} (ps : list IProcess) (n : nat) : list ProcessRecord :=
  match ps with
  | [] => []
  | p :: ps => PRec p (clock n) :: stamped ps (S n)
  end.

Section Track.
Context `{Hbuild : Build} `{Hworld : World}.
Hypothesis Hsteady : steady.

Lemma timely_clock pt n p : tracker_ok pt -> timely (records_of pt) n -> clock_ok pt (PRec p (clock n)).
Proof using Type.
  intros Hok Ht. apply Forall_forall. intros v Hv. destruct v as [|r v]; [split; constructor|].
  destruct (Ht (rpid r) (r :: v)) as [Hf Hm]; [|split; [done|by apply Hm]]. apply records_of_Some; [done|]. split; [done|]. cbn. apply Z.eqb_refl.
Qed.

Lemma timely_track max M n p : timely M n -> timely (track max M (PRec p (clock n))) (S n).
Proof using Hsteady.
  intros Ht. unfold track. cbn [rpid process pid]. apply map_Forall_insert_2.
  - assert (forall v, falling v /\ (forall m, (n <= m)%nat -> Forall (fun x => dur_ltb (clock m) (p_timestamp x) = false) v) ->
      falling (take (Z.to_nat max) (PRec p (clock n) :: v)) /\
      (forall m, (S n <= m)%nat -> Forall (fun x => dur_ltb (clock m) (p_timestamp x) = false) (take (Z.to_nat max) (PRec p (clock n) :: v)))) as Hcons.
    { intros v [Hf Hm]. split; [apply falling_take; constructor; [done|by apply Hm]|]. intros m Hle. apply Forall_take. constructor; [apply Hsteady; lia|apply Hm; lia]. }
    apply Hcons. destruct (M !! rpid (PRec p (clock n))) as [v|] eqn:E; [|split; [constructor|intros; constructor]].
    destruct (kept_sub v (PRec p (clock n))) as [->| ->]; [by apply Ht in E|split; [constructor|intros; constructor]].
  - eapply map_Forall_impl; [exact Ht|]. intros k v [Hf Hm]. split; [done|]. intros m Hle. apply Hm. lia.
Qed.

Lemma add_processes_refine ps : forall pt n, tracker_ok pt -> timely (records_of pt) n ->
  exists pt', add_processes pt ps n = Ret (pt', (n + length ps)%nat) /\ tracker_ok pt' /\ max_records_per_process pt' = max_records_per_process pt /\
    records_of pt' = foldl (track (max_records_per_process pt)) (records_of pt) (stamped ps n) /\ timely (records_of pt') (n + length ps).
Proof using Hsteady.
  induction ps as [|p ps IH]; intros pt n Hok Ht; cbn [add_processes length stamped foldl]; [exists pt; by rewrite Nat.add_0_r|].
  destruct (add_record_spec pt (PRec p (clock n)) Hok) as (pt1 & E & Hok1 & Hm & Hr). specialize (Hr (timely_clock _ _ _ Hok Ht)).
  assert (timely (records_of pt1) (S n)) as Ht1 by (rewrite Hr; by apply timely_track).
  destruct (IH pt1 (S n) Hok1 Ht1) as (pt2 & E2 & Hok2 & Hm2 & Hr2 & Ht2). exists pt2.
  rewrite Nat.add_succ_r. rewrite (io_step _ _ _ pt1 (S n)); [|unfold add_process_record; erewrite io_step by reflexivity; by apply lift_Ret].
  split; [done|]. split; [done|]. split; [congruence|]. split; [by rewrite Hr2, Hr, Hm|done].
Qed.

Lemma timely_filter M n st : timely M n -> timely (filter (fun kv => alive st kv.1 = true) M) n.
Proof using Type. intros Ht k v [Hk _]%map_lookup_filter_Some. by apply (Ht k v). Qed.
Lemma timely_later M n n' : (n <= n')%nat -> timely M n -> timely M n'.
Proof using Type. intros Hn Ht. eapply map_Forall_impl; [exact Ht|]. intros k v [Hf Hm]. split; [done|]. intros m Hle. apply Hm. lia. Qed.
End Track.

Lemma io_inv {A B} (m : io A) (f : A -> io B) n b n' : (m ≫= f) n = Ret (b, n') -> exists a n1, m n = Ret (a, n1) /\ f a n1 = Ret (b, n').
Proof. unfold mbind, io_bind. destruct (m n) as [[a n1]| |]; [|done|done]. by exists a, n1. Qed.

Section Round.
Context `{Hbuild : Build} `{Hworld : World}.

(** The records and times of the host leave the tracker alone. *)
Lemma host_tracker t pt : proc_tracker t = pt ->
  returns (fun t' => proc_tracker t' = pt) (t ← topology_refresh_record t; topology_refresh_stats t).
Proof using Type.
  intros Hpt. apply (returns_bind (fun t' => proc_tracker t' = pt)).
  - unfold topology_refresh_record. eapply returns_bind; [apply returns_any|]. intros r _. cbv zeta.
    destruct (t_record_buffer _); [by apply returns_ret|]. apply returns_lift. intros t'. unfold topology_clean_old_records.
    destruct (clean_buffer _ _ _ _ _); [|done|done]. by intros [= <-].
  - intros t1 H1. unfold topology_refresh_stats. eapply returns_bind; [apply returns_any|]. intros [st|] _; [|by apply returns_ret].
    apply returns_lift. intros t'. unfold topology_clean_old_stats. destruct (clean_buffer _ _ _ _ _); [|done|done]. by intros [= <-].
Qed.
Lemma sum_domains_advances ds sum : advances (sum_domains ds sum).
Proof using Type.
  revert sum. induction ds as [|d ds IH]; intros sum; cbn [sum_domains]; [apply advances_ret|]. case_bool_decide; [|done].
  apply advances_bind; [apply read_counter_advances|]. intros r. apply advances_bind; [unfold add_value; advance|done].
Qed.
Lemma sum_sockets_advances ss sum : advances (sum_sockets ss sum).
Proof using Type.
  revert sum. induction ss as [|s ss IH]; intros sum; cbn [sum_sockets]; [apply advances_ret|].
  apply advances_bind; [apply read_counter_advances|]. intros r. apply advances_bind; [unfold add_value; advance|]. intros v.
  apply advances_bind; [apply sum_domains_advances|done].
Qed.
Lemma host_advances t : advances (t ← topology_refresh_record t; topology_refresh_stats t).
Proof using Type.
  apply advances_bind; [|intros t1; unfold topology_refresh_stats, topology_read_stats; advance].
  unfold topology_refresh_record. apply advances_bind; [|intros r; cbv zeta; advance].
  unfold topology_read_record. apply advances_bind; [unfold get_rapl_psys_energy_microjoules; advance|]. intros [r|]; [apply advances_ret|].
  apply advances_bind; [apply sum_sockets_advances|]. intros v. advance.
Qed.

Lemma refresh_advances t : advances (refresh t).
Proof using Type.
  assert (forall ps pt, advances (add_processes pt ps)) as Hps.
  { intros ps. induction ps as [|p ps IH]; intros pt; cbn [add_processes]; [apply advances_ret|]. apply advances_bind; [unfold add_process_record; advance|done]. }
  unfold refresh. apply advances_bind; [apply advances_for_each, refresh_socket_advances|]. intros ss. apply advances_bind; [|apply host_advances].
  unfold refresh_procs. advance.
Qed.
Lemma reports_advances k t : advances (reports k t).
Proof using Type.
  revert t. induction k as [|k IH]; intros t; cbn [reports]; [apply advances_ret|]. apply advances_bind; [|done]. unfold next_report.
  apply advances_bind; [apply advances_observe|]. intros st. apply refresh_advances.
Qed.

(** The processes seen by a reading. *)
Definition seen (m : nat) : list IProcess := match new_processes (processes m) with Ret ps => ps | _ => [] end.

(** The moment [m] of a round is that of reading the processes. *)
Lemma refresh_tracker t n t' n' : refresh t n = Ret (t', n') ->
  exists m n2, (n <= m)%nat /\ add_processes (proc_tracker t) (seen m) (S m) = Ret (proc_tracker t', n2) /\ (n2 <= n')%nat.
Proof using Type.
  intros (ss & n1 & E1 & E)%io_inv. apply io_inv in E as (t1 & n2 & E2 & E). unfold refresh_procs in E2.
  apply io_inv in E2 as (rs & n3 & [= <- <-] & E2). apply io_inv in E2 as (ps & n5 & E3 & E2). unfold lift in E3.
  destruct (new_processes (processes n1)) as [ps'| |] eqn:Eps; [|done|done]. injection E3 as -> <-.
  apply io_inv in E2 as (pt & n4 & E2 & [= <- <-]). exists n1, n4. unfold seen. rewrite Eps.
  split; [eapply advances_for_each; [apply refresh_socket_advances|exact E1]|].
  rewrite (host_tracker (set_tracker (set_sockets t ss) pt) pt eq_refl _ _ _ E). split; [exact E2|]. by eapply host_advances.
Qed.

(** What a round does to the map: [i] is the moment of reading the states of the
    processes. *)
Definition track_round (max : Z) (M : gmap Z (list ProcessRecord)) (moment : nat * nat) : gmap Z (list ProcessRecord) :=
  foldl (track max) (filter (fun kv => alive (status moment.1) kv.1 = true) M) (stamped (seen moment.2) (S moment.2)).

Lemma next_report_tracks t n t' n' :
  steady -> tracker_ok (proc_tracker t) -> timely (records_of (proc_tracker t)) n -> next_report t n = Ret (t', n') ->
  exists m, (n < m < n')%nat /\ records_of (proc_tracker t') = track_round (max_records_per_process (proc_tracker t)) (records_of (proc_tracker t)) (n, m) /\
    tracker_ok (proc_tracker t') /\ timely (records_of (proc_tracker t')) n' /\ max_records_per_process (proc_tracker t') = max_records_per_process (proc_tracker t).
Proof using Type.
  intros Hs Hok Ht E. apply io_inv in E as (st & n1 & [= <- <-] & (m & n2 & Hm & E & Hn)%refresh_tracker). cbn [proc_tracker set_tracker] in E.
  destruct (clean_terminated_spec (proc_tracker t) (status n) Hok) as [Hok1 Hr1].
  destruct (add_processes_refine Hs (seen m) _ (S m) Hok1) as (pt & E' & Hok2 & Hmax & Hr2 & Ht2).
  { rewrite Hr1. apply (timely_later _ n); [lia|]. by apply timely_filter. }
  rewrite E in E'. injection E' as -> ->. exists m. split; [lia|]. split; [by rewrite Hr2, Hr1|]. split; [done|]. split; [by eapply timely_later|done].
Qed.

Lemma reports_track k : forall t n t' n',
  steady -> tracker_ok (proc_tracker t) -> timely (records_of (proc_tracker t)) n -> reports k t n = Ret (t', n') ->
  exists moments, length moments = k /\ Forall (fun im => (n <= im.1 < im.2)%nat /\ (im.2 < n')%nat) moments /\
    records_of (proc_tracker t') = foldl (track_round (max_records_per_process (proc_tracker t))) (records_of (proc_tracker t)) moments.
Proof using Type.
  induction k as [|k IH]; intros t n t' n' Hs Hok Ht; cbn [reports]; [intros [= <- <-]; by exists []|].
  intros (t1 & n1 & E1 & E2)%io_inv. destruct (next_report_tracks _ _ _ _ Hs Hok Ht E1) as (m & Hm & Hr & Hok1 & Ht1 & Hmax).
  destruct (IH t1 n1 t' n' Hs Hok1 Ht1 E2) as (ms & Hl & Hms & Hr2). rewrite Hr, Hmax in Hr2. exists ((n, m) :: ms).
  split; [by rewrite <- Hl|]. split; [|done]. apply reports_advances in E2.
  constructor; [cbn; lia|]. eapply Forall_impl; [exact Hms|]. intros [i j]. cbn. lia.
Qed.
End Round.

(** ** Bounds *)

Section Bounds.
Context (limit : Z) (Hk : kb_ok limit).

Lemma last_n_bytes {A} (l : list A) : record_size * Z.of_nat (length (last_n (window record_size limit) l)) < limit * 1000 + 2 * record_size.
Proof using Hk. rewrite length_last_n. pose proof (window_bounds record_size limit (or_introl eq_refl) Hk). unfold record_size in *. lia. Qed.
Lemma take_host_bytes {A} (l : list A) : stat_size * Z.of_nat (length (take (window stat_size limit) l)) < limit * 1000 + 2 * stat_size.
Proof using Hk. rewrite length_take. pose proof (window_bounds stat_size limit (or_intror eq_refl) Hk). unfold stat_size in *. lia. Qed.
Lemma take_bytes {A} (l : list A) : stat_size * Z.of_nat (length (take (S (window stat_size limit)) l)) < limit * 1000 + 3 * stat_size.
Proof using Hk. rewrite length_take. pose proof (window_bounds stat_size limit (or_intror eq_refl) Hk). unfold stat_size in *. lia. Qed.
End Bounds.

(** What the buffers of a socket and its domains take, in bytes. *)
Definition socket_within (s : CPUSocket) : Prop :=
  record_size * Z.of_nat (length (s_record_buffer s)) < s_buffer_max_kbytes s * 1000 + 2 * record_size /\
  stat_size * Z.of_nat (length (s_stat_buffer s)) < s_buffer_max_kbytes s * 1000 + 3 * stat_size /\
  Forall (fun d => record_size * Z.of_nat (length (d_record_buffer d)) < d_buffer_max_kbytes d * 1000 + 2 * record_size) (s_domains s).

Lemma shrink_within nb s : socket_ok nb s -> socket_within (shrink_socket s).
Proof.
  intros Hok. split; [apply last_n_bytes, (so_kb _ _ Hok)|]. split; [apply take_bytes, (so_kb _ _ Hok)|]. cbn [s_domains shrink_socket].
  apply Forall_map. eapply Forall_impl; [apply (so_domains _ _ Hok)|]. intros d [_ Hd]. by apply last_n_bytes.
Qed.

(** ** A small machine *)

(** One socket with one domain, one processor and one process. *)
Definition demo_build : Build := {| overflow_checks := true |}.
Definition demo_stat : CPUStat := Stat 5 0 3 90 (Some 1) None (Some 2) None None None.
Definition demo_dir : str := lit "/sys/class/powercap".
Definition demo_file (n : nat) (path : str) : option str :=
  if bool_decide (path = demo_dir ++ lit "/intel-rapl:0/name") then Some (lit "package-0" ++ [10])
  else if bool_decide (path = demo_dir ++ lit "/intel-rapl:0:0/name") then Some (lit "dram" ++ [10])
  else if bool_decide (path ∈ [demo_dir ++ lit "/intel-rapl:0/energy_uj"; demo_dir ++ lit "/intel-rapl:0:0/energy_uj"]) then
    Some ((if (n <? 25)%nat then lit "4000000" else lit "9000000") ++ [10])
  else None.
Definition demo_machine : World := {|
  file := demo_file;
  clock := fun n => Dur (Z.of_nat n) 0;
  kernel_stats := fun _ => Some (Kernel demo_stat [demo_stat]);
  processes := fun _ => [Running 7 (Some (lit "/usr/bin/redis-server")) [lit "redis-server"] (f32_of_Z 40) (Some (3, 4))];
  status := fun _ _ => Some Run;
  read_dir := fun _ _ => Some [Some (demo_dir ++ lit "/intel-rapl:0"); Some (demo_dir ++ lit "/intel-rapl:0:0")];
  modules := fun _ => Some [lit "intel_rapl"];
  cpus := fun _ => [∅];
  cpuinfo := fun _ => Some (fun _ => Some {[ lit "physical id" := lit "0" ]});
|}.
(** The folder of a domain has one more colon. *)
Definition demo_regex : Regex := {| is_match := fun pattern s => (length (split_colon s) =? length (split_colon pattern))%nat && bool_decide (pattern ∈ [re_domain; re_socket]) |}.
Definition demo_sensor : PowercapRAPLSensor := new_sensor (fun _ => None) 1 1 false.
Definition demo_generated : res (Topology * nat) := @generate_topology demo_build demo_machine demo_regex demo_sensor 0%nat.
Definition demo_topology : Topology := match demo_generated with Ret (t, _) => t | _ => new_topology ∅ end.

Lemma demo_machine_ok : @world_ok demo_machine 1.
Proof.
  split; [done|done| | |by intros n; repeat constructor; [eexists; reflexivity|cbn; lia..]].
  - intros n k [= <-]. split; [cbn; lia|]. repeat constructor; cbn; lia.
  - intros n path content v. unfold file, demo_machine, demo_file.
    do 2 (destruct (bool_decide _); [intros <-%(inj Some) Hp; vm_compute in Hp; discriminate Hp|]).
    destruct (bool_decide _); [|done]. intros <-%(inj Some). destruct (n <? 25)%nat; intros Hp; vm_compute in Hp; injection Hp as <-; lia.
Qed.
Lemma demo_topology_ok : topology_ok 1 demo_topology.
Proof.
  destruct demo_generated as [[t m]| |] eqn:E; [|by vm_compute in E|by vm_compute in E].
  destruct (@generate_topology_built demo_build demo_machine demo_regex demo_sensor 1 demo_machine_ok 0%nat t m E) as (k & Hk & Hb).
  unfold demo_topology. rewrite E. by apply (built_ok demo_sensor 1 ltac:(by vm_compute) ltac:(by vm_compute) k).
Qed.
Lemma demo_steady : @steady demo_machine.
Proof. intros i j Hij. unfold dur_ltb. cbn. rewrite andb_false_r, orb_false_r. apply Z.ltb_ge. lia. Qed.

(** ** Theorems *)

(** C14: Where a topology comes out of the powercap tree, any number of rounds of
    cleaning the tracker and refreshing run without a panic; after them the state of
    the agent is what its windows keep of the state of an agent that forgets nothing.
    The limits of the buffers are from 1 to 65 kilobytes, and [world_ok] holds of the
    machine: less than 65536 processors, each with its times, which are at most 2^47;
    counters of at most 2^80; and processes whose executables have paths in UTF-8 and
    whose numbers are 32-bit integers. *)
Theorem agent_refines `{Hbuild : Build} `{Hworld : World} `{Hregex : Regex} (p : PowercapRAPLSensor) (nb k n : nat) (t0 : Topology) (n0 : nat) :
  world_ok nb -> kb_ok (buffer_per_socket_max_kbytes p) -> kb_ok (buffer_per_domain_max_kbytes p) -> generate_topology p n = Ret (t0, n0) ->
  exists t n', reports_all k t0 n0 = Ret (t, n') /\ reports k t0 n0 = Ret (shrink t, n') /\ topology_ok nb t.
Proof.
  intros Hw Hs Hd E. destruct (generate_topology_built p nb Hw n t0 n0 E) as (k0 & Hk0 & Hb). destruct (built_ok p nb Hs Hd k0 t0 Hk0 Hb) as [Hok Hsh].
  destruct (reports_sim nb Hw k t0 n0 Hok) as (t & n' & H1 & H2 & H3 & _). exists t, n'. rewrite Hsh in H2. done.
Qed.
Lemma agent_refines_witness :
  @generate_topology demo_build demo_machine demo_regex demo_sensor 0%nat = Ret (demo_topology, 8%nat) /\
  exists t n', @reports_all demo_build demo_machine 30%nat demo_topology 8%nat = Ret (t, n') /\
    @reports demo_build demo_machine 30%nat demo_topology 8%nat = Ret (shrink t, n') /\ topology_ok 1 t.
Proof.
  assert (@generate_topology demo_build demo_machine demo_regex demo_sensor 0%nat = Ret (demo_topology, 8%nat)) as E by (vm_compute; reflexivity).
  split; [exact E|]. apply (@agent_refines demo_build demo_machine demo_regex demo_sensor 1%nat 30%nat 0%nat demo_topology 8%nat demo_machine_ok); [split; cbn; lia|split; cbn; lia|exact E].
Defined.

(** C15: After any number of rounds the powers of the host, of its sockets, their
    domains and of every process, and the differences of energies and processor
    times, are those computed from the complete history of readings. *)
Theorem reports_powers `{Hbuild : Build} `{Hworld : World} (nb k n : nat) (t : Topology) :
  world_ok nb -> topology_ok nb t ->
  exists complete t' n', reports_all k t n = Ret (complete, n') /\ reports k (shrink t) n = Ret (t', n') /\ same_report t' complete.
Proof.
  intros Hw Hok. destruct (reports_sim nb Hw k t n Hok) as (T & n' & H1 & H2 & H3 & _). exists T, (shrink T), n'. split; [done|]. split; [done|].
  by eapply shrink_same.
Qed.
Lemma reports_powers_witness : exists complete t' n', @reports_all demo_build demo_machine 30%nat demo_topology 8%nat = Ret (complete, n') /\
  @reports demo_build demo_machine 30%nat (shrink demo_topology) 8%nat = Ret (t', n') /\ @same_report demo_build t' complete.
Proof. exact (@reports_powers demo_build demo_machine 1%nat 30%nat 8%nat demo_topology demo_machine_ok demo_topology_ok). Defined.

(** C17: On a machine as in [world_ok], from a state as in [topology_ok], after [k]
    rounds the host has as many records as it has had readings, up to its window.  A
    full window takes more bytes than the limit of the host allows, by less than two
    records.  The other buffers exceed their limits as well, but by less than this:
    two elements for the processor times of the host and for the records of a socket
    or a domain, three elements for the processor times of a socket, which are
    cleaned before the new ones come in. *)
Theorem reports_memory `{Hbuild : Build} `{Hworld : World} (nb k n : nat) (t : Topology) :
  world_ok nb -> topology_ok nb t ->
  let w := window record_size (t_buffer_max_kbytes t) in
  let limit := t_buffer_max_kbytes t * 1000 in
  exists t' n', reports k (shrink t) n = Ret (t', n') /\ length (t_record_buffer t') = Nat.min w (k + length (t_record_buffer t)) /\
    limit < record_size * Z.of_nat w < limit + 2 * record_size /\ stat_size * Z.of_nat (length (t_stat_buffer t')) < limit + 2 * stat_size /\
    Forall socket_within (sockets t').
Proof.
  intros Hw Hok w limit. destruct (reports_sim nb Hw k t n Hok) as (T & n' & H1 & H2 & H3 & A1 & A2 & A3). exists (shrink T), n'. split; [done|]. split.
  - cbn [t_record_buffer shrink]. by rewrite length_last_n, A1, A2.
  - split; [pose proof (window_bounds record_size _ (or_introl eq_refl) (po_kb _ _ Hok)); unfold w, limit, record_size in *; lia|].
    split; [unfold limit; rewrite <- A1; apply take_host_bytes, (po_kb _ _ H3)|].
    apply Forall_map. eapply Forall_impl; [apply (po_sockets _ _ H3)|]. intros s Hs. by eapply shrink_within.
Qed.
Lemma reports_memory_witness : exists t' n', @reports demo_build demo_machine 30%nat (shrink demo_topology) 8%nat = Ret (t', n') /\
  length (t_record_buffer t') = 22%nat /\ (length (t_stat_buffer t') <= 9)%nat /\ Forall socket_within (sockets t').
Proof.
  destruct (@reports_memory demo_build demo_machine 1%nat 30%nat 8%nat demo_topology demo_machine_ok demo_topology_ok) as (t' & n' & H1 & H2 & _ & H3 & H4).
  exists t', n'. split; [exact H1|]. split; [rewrite H2; vm_compute; reflexivity|]. split; [|exact H4].
  change (t_buffer_max_kbytes demo_topology) with 1 in H3. unfold stat_size in H3. lia.
Defined.

(** C16: If the clock does not go back, the tracker is a map from processes to their
    last records, newest first: every round drops the processes that have stopped or
    are gone and adds a record for every process seen, up to the number allowed, and
    starting again where a process has another program. *)
Theorem reports_track_processes `{Hbuild : Build} `{Hworld : World} (nb k n : nat) (t : Topology) :
  world_ok nb -> topology_ok nb t -> steady -> timely (records_of (proc_tracker t)) n ->
  exists t' n' moments, reports k (shrink t) n = Ret (t', n') /\ length moments = k /\
    Forall (fun im => (n <= im.1 < im.2)%nat /\ (im.2 < n')%nat) moments /\
    records_of (proc_tracker t') = foldl (track_round (max_records_per_process (proc_tracker t))) (records_of (proc_tracker t)) moments.
Proof.
  intros Hw Hok Hs Ht. destruct (reports_sim nb Hw k t n Hok) as (T & n' & _ & H2 & _).
  destruct (reports_track k (shrink t) n _ _ Hs (po_tracker _ _ Hok) Ht H2) as (ms & H3 & H4 & H5). by exists (shrink T), n', ms.
Qed.
Lemma reports_track_processes_witness : exists t' n' moments, @reports demo_build demo_machine 30%nat (shrink demo_topology) 8%nat = Ret (t', n') /\ length moments = 30%nat /\
  records_of (proc_tracker t') = foldl (@track_round demo_machine 5) ∅ moments.
Proof.
  destruct (@reports_track_processes demo_build demo_machine 1%nat 30%nat 8%nat demo_topology demo_machine_ok demo_topology_ok demo_steady) as (t' & n' & ms & H1 & H2 & _ & H4).
  { vm_compute. intros i x Hx. discriminate Hx. }
  exists t', n', ms. split; [exact H1|]. split; [exact H2|]. rewrite H4. reflexivity.
Defined.

(** C18: Whatever the clock does, after any number of rounds a tracked process has one
    vector, not longer than allowed and with records of this process only, and
    neither its name nor its last record is missing. *)
Theorem reports_names `{Hbuild : Build} `{Hworld : World} (nb k n : nat) (t : Topology) :
  world_ok nb -> topology_ok nb t ->
  exists t' n', reports k (shrink t) n = Ret (t', n') /\ NoDup (get_all_pids (proc_tracker t')) /\
    forall p, p ∈ get_all_pids (proc_tracker t') -> exists r v,
      find_records (proc_tracker t') p = Some (r :: v) /\ Forall (fun x => pid (process x) = p) (r :: v) /\
      Z.of_nat (length (r :: v)) <= max_records_per_process (proc_tracker t) /\
      get_process_last_record (proc_tracker t') p = Some r /\ get_process_name (proc_tracker t') p = Ret (comm (process r)).
Proof.
  intros Hw Hok. destruct (reports_sim nb Hw k t n Hok) as (T & n' & _ & H2 & [_ _ _ Ht] & _ & _ & A3). exists (shrink T), n'. split; [done|].
  change (proc_tracker (shrink T)) with (proc_tracker T). destruct (get_all_pids_spec _ Ht) as [Hnd Hpids]. split; [done|].
  intros p [v Hv]%Hpids. rewrite <- A3. by apply (tracked _ p v).
Qed.
Lemma reports_names_witness : exists t' n', @reports demo_build demo_machine 30%nat (shrink demo_topology) 8%nat = Ret (t', n') /\ NoDup (get_all_pids (proc_tracker t')).
Proof.
  destruct (@reports_names demo_build demo_machine 1%nat 30%nat 8%nat demo_topology demo_machine_ok demo_topology_ok) as (t' & n' & H1 & H2 & _).
  exists t', n'. split; [exact H1|exact H2].
Defined.
